(* ===== verification/_CoqProject ===== *)
-Q . S2P
Prelude.v
Float32.v
FloatRound.v
FloatDiv.v
BlockingMap.v
BlockMask.v
EnemyUnit.v
SectorGrid.v
ThreatMap.v
InfluenceMap.v
EnemyGroups.v
MapManager.v
EnemyManager.v
MultiQueue.v
Scheduler.v
SchedulerThreads.v
TerrainManager.v
BuildSearch.v
AllyBuildings.v
TerrainAreas.v
AreaTheory.v
AreaMarks.v
TerrainData.v
LandShare.v
TerrainUpdate.v
TerrainInit.v
AreaPublish.v
TerrainQueries.v
AreaQueries.v
LineWalk.v
PathGraph.v
OpenQueue.v
MicroPather.v
PathSearch.v
BestPath.v
PathInfo.v
PathFinder.v
PathQuery.v
MoveArrays.v
PathRuns.v
QueryMaps.v
ActionList.v
TaskData.v
TaskCore.v
TaskClasses.v
TaskTheory.v
TaskInvariant.v
TaskSteps.v
TaskStop.v
TaskLeave.v
TaskNew.v
TaskJoin.v
MilitaryTasks.v
Targets.v
FighterCore.v
FighterTasks.v
MilitaryTheory.v
TaskMove.v
TaskCalm.v
FighterTheory.v
FighterCalm.v
FightMoves.v
Merging.v
FightUpdates.v
FighterStart.v
UpdateTasks.v
FightEvents.v
IdleUpdates.v
UnitEvents.v
FightLoop.v
TaskWorld.v
TaskFights.v
