(* ===== verification/Prelude.v ===== *)
(** * CircuitAI: a verification development

    CircuitAI is a C++ AI for the Spring/Recoil real-time strategy engine.  Each AI player is a
    [CCircuitAI] ([src/src/circuit/CircuitAI.cpp]); the players of one team share a [CAllyTeam], which
    owns the maps of the enemy's threat and influence, the enemy manager and the path finder.  The
    engine calls the AI once a frame; the scheduler runs periodic tasks on the main thread and hands
    the expensive work (drawing the maps, clustering the enemies, searching paths) to worker threads,
    which fill the buffer nobody reads and publish it by swapping a pointer on the main thread.  The
    development models that core and proves it correct.

    ** The parts and their files

    Every path below is under [src/src/circuit/].  Definitions keep the source's names.

    - Numbers.  [Float32] is IEEE binary32 ([Stdlib]'s [SpecFloat], round to nearest even), the type
      [float] of all costs, threats and positions; [FloatRound] and [FloatDiv] give its arithmetic
      on non-negative numbers as rounding of scaled integers ([fval], [rnd]).  An [int] is a [Z]: its
      overflow is undefined in C++ and the theorems bound it where it matters; unsigned types wrap
      around ([u16], [u32], [u64]).  A read or write out of bounds, a division by zero, a conversion
      of a float that does not fit and a dereference of nothing are [None].
    - Buildings.  [BlockingMap] ([terrain/BlockingMap.h/.hpp/.cpp]: what stands on each cell, with a
      coarse grid beside it), [BlockMask] ([terrain/BlockMask.*], [BlockRectangle], [BlockCircle]: the
      space a building claims, for four facings), [TerrainManager] ([terrain/TerrainManager.cpp]: blockers,
      the buildings of allies and the four searches for a build site); theorems in [BuildSearch] and
      [AllyBuildings].
    - Terrain.  [TerrainAreas] (sectors, types of movement, the flood fill that groups the sectors a type
      can enter into areas), [TerrainData] ([terrain/TerrainData.cpp]: the analysis at the start and the
      incremental update on the other of two buffers), [AreaPublish] (how the AIs move over to new areas, as
      a transition function on events) and [TerrainQueries] ([terrain/TerrainManager.cpp]: closest and
      alternative sectors with their caches, and the questions built on them); theorems in [AreaTheory],
      [AreaMarks], [LandShare], [TerrainUpdate], [TerrainInit], [AreaPublish] and [AreaQueries].
    - Enemies.  [EnemyUnit] ([unit/enemy/EnemyUnit.*], [unit/CircuitDef.h]: the records), [EnemyGroups]
      ([unit/enemy/EnemyManager.cpp]: clustering by k-means), [EnemyManager] (the registry, its staggered
      update and the costs, and [unit/ally/AllyTeam.cpp]), [MapManager] ([map/MapManager.*]: who is hostile,
      in sight, or a remembered fake).
    - Maps.  [SectorGrid] (the double buffer and the drawing of circles the two maps share), [ThreatMap]
      ([map/ThreatMap.*]) and [InfluenceMap] ([map/InfluenceMap.*]).
    - Scheduler.  [MultiQueue] ([util/MultiQueue.*]), [Scheduler] ([util/Scheduler.*]: the lists of one
      frame) and [SchedulerThreads] (the worker and path threads, the barrier and the shutdown, as a step
      relation over all interleavings).
    - Path finder.  [OpenQueue] and [MicroPather] ([terrain/path/MicroPather.*]: the node store, the binary
      heap with back pointers, the three A* and Dijkstra searches), with [PathSearch] and [BestPath] their
      theory; [LineWalk] (the Bresenham walk both users of it share); [PathGraph] (positions, cells, nodes,
      from [terrain/path/PathFinder.cpp] and [terrain/TerrainData.cpp]); [PathInfo] (a path becomes positions);
      [PathFinder] (the arrays of passable cells, two buffers) and [PathQuery] (the queries
      [terrain/path/Query*.cpp]); theorems in [MoveArrays], [PathRuns] and [QueryMaps].
    - Units and tasks.  [ActionList] ([util/ActionList.*], [util/Action.*]: a unit's queue of actions);
      [TaskData] (units, tasks and the military's and the builders' managers as one [World], in which a
      pointer is an address), [TaskCore] ([task/UnitTask.cpp], [IdleTask.cpp], [RetreatTask.cpp],
      [common/RepairTask.cpp]: a unit joins, leaves and loses a task), [TaskClasses] ([task/fighter/]: the
      fighters' classes and squads) and [MilitaryTasks] ([module/MilitaryManager.cpp],
      [task/TaskManager.cpp], [CircuitAI.cpp]: new tasks, the choice of a task, units that come and go).
      [TaskTheory] and [TaskInvariant] hold the invariant (who owns whom; what a task, a unit, a manager and
      an enemy keep about each other), [TaskSteps], [TaskStop], [TaskLeave], [TaskNew], [TaskJoin],
      [MilitaryTheory], [TaskMove] and [UnitEvents] show that one kind of operation each keeps it, and
      [TaskWorld] puts them together as a step relation from the managers' constructors on.
    - Fighters at work.  [Targets] ([FindTarget] of the classes in [task/fighter/]), [FighterCore]
      ([FighterTask.cpp], [SquadTask.cpp]: attacks, merging and regrouping of squads, path queries) and
      [FighterTasks] ([Start], [Update], the answers of path queries and the reactions to idle and damaged
      units of every class, [task/static/SuperTask.cpp], [CIdleTask::Update],
      [CMilitaryManager::UpdateFight]).  [TaskCalm] (operations that leave everybody where he is),
      [FighterTheory], [FighterCalm], [FightMoves] (retreats), [Merging], [FightUpdates], [FighterStart],
      [UpdateTasks], [FightEvents], [IdleUpdates] and [FightLoop] show that they return and keep the
      invariant; [TaskFights] states it for every world the events reach.

    How they meet: the terrain manager writes the blocking map; the path finder counts its structures
    when it rebuilds the move arrays ([UpdateAreaUsers]); the enemy manager's snapshots are drawn by the
    two maps; a path query holds a pointer to a layer of the threat map and to a move array and is run
    on a pather of its thread ([deref] reads what the pointers lead to when it runs); everything
    periodic goes through the scheduler.  State is explicit: each component's state is a [Record], an
    operation maps it to an [option] of the new one, and shared buffers are named by [buf] (the first or
    the second) so that a pointer that outlives a swap is the same name.

    ** What the theorems show

    - Searches.  [MakeCostMap] gives every cell the least rounded cost of a walk to it; a solved search
      returns a walk within the threat limit that costs at most what it reports (not always a cheapest
      one), a failed one means that every such walk costs [FLT_BIG / 2] or more, and both always return; the disc search is exact in the same sense; the heap refines a priority queue; a pather
      stays reusable over any sequence of requests.
    - Queries.  Move arrays open exactly the passable, little built sectors, have a closed border and are
      published without touching the ones in use; a query is total for any positions but NaN and answers
      what the searches promise, its path as the centres of its own cells from the last one in sight on;
      lines are tested on the ideal line; costs are the least around a point.
    - Buildings.  The counters of the blocking map refine abstract ones; adding and removing are inverse;
      a build site is valid, and the nearest for the search table; marks follow the allies' buildings.
    - Terrain.  The areas of a type are the connected components of its sectors (the large ones, at most
      fifty); the update, which looks at changed sectors only and mostly copies areas, finds what an
      analysis from scratch finds; in any orderly interleaving of updates, tasks and AIs that come and go
      every AI reads good areas and nobody reads the buffer that is written, and an update can always be
      finished; the queries' caches are transparent, and every position on the map has an area.
    - Enemies and maps.  An update publishes the sum of the enemies' contributions, the influence map the
      difference of both sides; queries before the swap see the old map; clustering partitions the
      enemies; costs are booked once; sightings file each enemy under the right list.
    - Units and tasks.  In every state the events reach a unit's task and the task's units agree, living
      squads have a leader of their own, the managers' sets and tables hold exactly the living tasks, and
      a retreat's repairer repairs it; aborting a task returns and leaves its units idling, units leave,
      join and change tasks without failing, the military always finds a task, and nothing refers to a
      destroyed unit; a unit's actions are updated up to the first one that blocks.
    - Fighters.  The military's update ends although tasks come and go while it walks its list, and never
      uses a deleted task; the update of every class, the answers of path queries and the handlers of idle
      and damaged units return, keep the system consistent and leave nobody without a task; a squad that
      merges takes all its units into another one of its type; an attack's target is the nearest of the
      enemies that pass its checks; a badly hurt unit retreats.
    - Scheduler.  A frame runs the due tasks once and returns; shutdown never touches released data in any
      interleaving, and can always finish.

    Theorems that show a defect (a stale search table, coarse counters left behind, shared group
    buffers, double updates, a removed task that still starts, a corner read out of bounds, an update of
    the areas that stalls for ever when its AI resigns, answers about areas that outlive them) are theorems
    or examples about the code as it is.

    ** Bounds and fuel

    Loops whose end is not structural take fuel: the searches need as many rounds as there are cells and
    openings of cells (their theorems give an [N] from which on the result is the same), [draw] the number
    of cells of the line, [group_loop] two rounds for every sector and one more ([group_areas_ok]),
    [bisect] the length of the path, k-means a bound of its iterations, [fight_loop] a round for every task
    it updates or deletes ([UpdateFight_ends]), all of them supplied by the
    definition or quantified in the theorem.  Maps are below 2^29 cells a side where the
    indices are [int]s; path costs are compared after rounding, so "least" means least in [float]
    arithmetic along the walk.

    ** Not modelled, and why

    The engine (positions, elevations, the units' state) is a parameter: [Engine], [TerrainEngine] and the
    arguments named in the files; the height and slope maps are any maps of the right size.  Whether the
    [double] comparison that calls an area too small is monotone on the sizes of a map is checked by
    computation ([sizes_ok]).  [std::sort] is any sorting function ([CxxStd]).  Left out are the
    scripts ([script/], AngelScript), configuration ([setup/], JSON), drawing for debugging ([DEBUG_VIS]),
    the engine wrappers ([spring/]) and vendored code ([lib/]).  Of the game play ([module/], [task/]) the
    model has the fighters, retreats and repairs; orders to the engine have no effect in it but the
    exception they may throw.  What the fighters read at every step is a parameter ([Tactics] in [Targets]:
    positions, health, threat and influence, reachability, the positions the managers offer), and so is the
    path in the answer to a query; the theorems about updates assume that distances on the map are finite
    ([on_map]) and that the engine's [TEAM_SLOWUPDATE_RATE] is positive.  Left out are the economy, the
    factories and the builders' other tasks, whose decisions read the engine and the scripts at every step,
    the resources ([resource/], on vendored graph libraries) and the
    construction of unit definitions. *)

From Stdlib Require Export ZArith Lia.
From stdpp Require Export base numbers option gmap list.

#[export] Set Default Goal Selector "!".

Declare Scope circuit_scope.
Delimit Scope circuit_scope with circuit.
Open Scope Z_scope.

(** ** Machine integers

    [int] is a signed 32-bit integer whose overflow is undefined in C++; the
    model computes in [Z].  Unsigned types wrap around. *)

Definition u16 (z : Z) : Z := z `mod` 2 ^ 16.
Definition u32 (z : Z) : Z := z `mod` 2 ^ 32.
Definition UINT16_MAX : Z := 65535.
Definition INT_MAX : Z := 2147483647.
Definition INT_MIN : Z := -2147483648.

Lemma u16_small z : 0 <= z < 65536 → u16 z = z.
Proof. intros ?. apply Z.mod_small. lia. Qed.

Lemma u16_bound z : 0 <= u16 z < 65536.
Proof. apply Z.mod_pos_bound. lia. Qed.

Lemma u32_small z : 0 <= z < 2 ^ 32 → u32 z = z.
Proof. intros ?. apply Z.mod_small. lia. Qed.

Lemma u32_bound z : 0 <= u32 z < 2 ^ 32.
Proof. apply Z.mod_pos_bound. lia. Qed.

Lemma u16_testbit z i : 0 <= i < 16 → Z.testbit (u16 z) i = Z.testbit z i.
Proof. intros ?. unfold u16. rewrite Z.mod_pow2_bits_low; [done|lia]. Qed.

Lemma u16_testbit_high z i : 16 <= i → Z.testbit (u16 z) i = false.
Proof. intros ?. unfold u16. apply Z.mod_pow2_bits_high. lia. Qed.

(** A value of a 16-bit unsigned type. *)
Definition is_u16 (z : Z) : Prop := 0 <= z < 65536.
#[export] Instance is_u16_dec z : Decision (is_u16 z).
Proof. unfold is_u16. apply _. Defined.

Lemma u16_idemp z : is_u16 z → u16 z = z.
Proof. apply u16_small. Qed.

Lemma is_u16_u16 z : is_u16 (u16 z).
Proof. apply u16_bound. Qed.

Lemma testbit_u16_high z i : is_u16 z → 16 <= i → Z.testbit z i = false.
Proof. intros Hz ?. rewrite <-(u16_idemp z Hz). by apply u16_testbit_high. Qed.

(** Two 16-bit values are equal when their low 16 bits are. *)
Lemma u16_bits_eq a b :
  is_u16 a → is_u16 b →
  (∀ i, 0 <= i < 16 → Z.testbit a i = Z.testbit b i) → a = b.
Proof.
  intros Ha Hb Hi. apply Z.bits_inj'. intros i ?.
  destruct (decide (i < 16)); [apply Hi; lia|].
  rewrite !testbit_u16_high by (done || lia). done.
Qed.

Lemma testbit_pow2 i j : 0 <= i → 0 <= j → Z.testbit (2 ^ i) j = bool_decide (i = j).
Proof.
  intros ??. rewrite Z.pow2_bits_eqb by lia.
  case_bool_decide; lia.
Qed.

(** ** Vectors

    [std::vector::operator[]] and C arrays are indexed without a check: an
    access outside the bounds is undefined behaviour.  It is [None] in the model,
    so a theorem that an operation returns [Some] shows that it stays in bounds. *)

Section vectors.
Context {A : Type}.
Implicit Types (l : list A) (i : Z) (x : A).

Definition zget l i : option A := if decide (0 <= i) then l !! Z.to_nat i else None.
Definition zset l i x : option (list A) :=
  if decide (0 <= i < Z.of_nat (length l)) then Some (<[Z.to_nat i := x]> l) else None.
Definition zlen l : Z := Z.of_nat (length l).

Lemma zget_Some_bound l i x : zget l i = Some x → 0 <= i < zlen l.
Proof.
  unfold zget, zlen. case_decide; [|done]. intros ?%lookup_lt_Some. lia.
Qed.

Lemma zget_is_Some l i : 0 <= i < zlen l → ∃ x, zget l i = Some x.
Proof.
  unfold zget, zlen. intros ?. rewrite decide_True by lia.
  apply lookup_lt_is_Some_2. lia.
Qed.

Lemma zget_is_Some_iff l i : is_Some (zget l i) ↔ 0 <= i < zlen l.
Proof.
  split; [intros [x Hx]; by eapply zget_Some_bound|]. apply zget_is_Some.
Qed.

Lemma zset_Some l i x : 0 <= i < zlen l → zset l i x = Some (<[Z.to_nat i := x]> l).
Proof. unfold zset, zlen. intros ?. by rewrite decide_True by lia. Qed.

Lemma zset_inv l i x l' :
  zset l i x = Some l' → 0 <= i < zlen l ∧ l' = <[Z.to_nat i := x]> l.
Proof. unfold zset, zlen. case_decide; [|done]. by intros [= <-]. Qed.

Lemma zlen_zset l i x l' : zset l i x = Some l' → zlen l' = zlen l.
Proof. intros [_ ->]%zset_inv. unfold zlen. by rewrite length_insert. Qed.

Lemma zget_zset l i x l' j :
  zset l i x = Some l' → zget l' j = if decide (i = j) then Some x else zget l j.
Proof.
  intros [? ->]%zset_inv. unfold zget, zlen in *.
  destruct (decide (0 <= j)); [|by rewrite decide_False by lia].
  destruct (decide (i = j)) as [->|].
  - apply list_lookup_insert_eq. lia.
  - apply list_lookup_insert_ne. lia.
Qed.

Lemma zget_zset_eq l i x l' : zset l i x = Some l' → zget l' i = Some x.
Proof. intros H. by rewrite (zget_zset _ _ _ _ _ H), decide_True. Qed.

Lemma zget_zset_ne l i x l' j : zset l i x = Some l' → i ≠ j → zget l' j = zget l j.
Proof. intros H ?. by rewrite (zget_zset _ _ _ _ _ H), decide_False. Qed.

Lemma zset_get l i x : zget l i = Some x → zset l i x = Some l.
Proof.
  intros H. pose proof (zget_Some_bound _ _ _ H). rewrite zset_Some by done.
  f_equal. apply list_insert_id. unfold zget in H. by rewrite decide_True in H by lia.
Qed.

Lemma zset_zset l i x y l' : zset l i x = Some l' → zset l' i y = zset l i y.
Proof.
  intros [? ->]%zset_inv. unfold zset. rewrite length_insert. unfold zlen in *.
  rewrite !decide_True by lia. f_equal. apply list_insert_insert_eq.
Qed.

Lemma zget_ext l1 l2 : zlen l1 = zlen l2 → (∀ i, zget l1 i = zget l2 i) → l1 = l2.
Proof.
  unfold zlen, zget. intros Hl H. apply list_eq. intros i.
  specialize (H (Z.of_nat i)). rewrite !decide_True in H by lia. by rewrite !Nat2Z.id in H.
Qed.

Lemma zget_replicate n x i :
  zget (replicate (Z.to_nat n) x) i = if decide (0 <= i < n) then Some x else None.
Proof.
  unfold zget. repeat case_decide; try lia; try done.
  - apply lookup_replicate_2. lia.
  - apply lookup_ge_None. rewrite length_replicate. lia.
Qed.
Lemma zlen_replicate n x : 0 <= n → zlen (replicate (Z.to_nat n) x) = n.
Proof. unfold zlen. rewrite length_replicate. lia. Qed.

Lemma zlen_nonneg l : 0 <= zlen l.
Proof. unfold zlen. lia. Qed.
Lemma zlen_app l1 l2 : zlen (l1 ++ l2) = zlen l1 + zlen l2.
Proof. unfold zlen. rewrite length_app. lia. Qed.
End vectors.

Lemma zlen_fmap {A B} (f : A → B) l : zlen (f <$> l) = zlen l.
Proof. unfold zlen. by rewrite length_fmap. Qed.
Lemma zget_fmap {A B} (f : A → B) l i : zget (f <$> l) i = f <$> zget l i.
Proof. unfold zget. case_decide; [|done]. apply list_lookup_fmap. Qed.

Notation "l .[ i ]" := (zget l i) (at level 1, left associativity, format "l .[ i ]") : circuit_scope.
Notation "l .[ i <- x ]" := (zset l i x)
  (at level 1, left associativity, format "l .[ i  <-  x ]") : circuit_scope.

(** ** Loops

    [for (int i = b; i < e; ++i) body] is [zfor b e body]: a fold in the option monad,
    where [None] is undefined behaviour of the body.  [zfor_exit] is the loop whose body
    may [return] from the function (or [break]). *)

Section loops.
Context {S A : Type}.

Fixpoint foldM (f : S → A → option S) (s : S) (l : list A) : option S :=
  match l with
  | [] => Some s
  | a :: l => s' ← f s a; foldM f s' l
  end.

(** Invariant rule over the processed prefix. *)
Lemma foldM_ind (I : list A → S → Prop) f l s :
  I [] s →
  (∀ pre a post s, l = pre ++ a :: post → I pre s → ∃ s', f s a = Some s' ∧ I (pre ++ [a]) s') →
  ∃ s', foldM f s l = Some s' ∧ I l s'.
Proof.
  intros H0 Hstep.
  assert (∀ post pre s, l = pre ++ post → I pre s →
    ∃ s', foldM f s post = Some s' ∧ I l s') as Hg.
  { induction post as [|a post IH]; intros pre s1 Hl Hi.
    - rewrite app_nil_r in Hl. subst. eauto.
    - destruct (Hstep pre a post s1 Hl Hi) as (s2 & Hf & Hi2). simpl. rewrite Hf. simpl.
      apply (IH (pre ++ [a])); [by rewrite <-app_assoc|done]. }
  by apply (Hg l [] s).
Qed.

Lemma foldM_inv (P : S → Prop) f l s s' :
  P s → (∀ s a s', a ∈ l → P s → f s a = Some s' → P s') → foldM f s l = Some s' → P s'.
Proof.
  revert s. induction l as [|a l IH]; intros s H0 Hstep; simpl.
  - by intros [= <-].
  - destruct (f s a) as [s1|] eqn:Hf; [|done]. simpl. apply IH.
    + eapply Hstep; [left|done|done].
    + intros ??? ?. apply Hstep. by right.
Qed.

Lemma foldM_app f s l1 l2 : foldM f s (l1 ++ l2) = s' ← foldM f s l1; foldM f s' l2.
Proof.
  revert s. induction l1 as [|a l1 IH]; intros s; [done|]. simpl.
  destruct (f s a); simpl; [apply IH|done].
Qed.

End loops.

(** ** Computations that return

    [returns m Q]: [m] does not fail, and [Q] holds of its result. *)

Definition returns {A} (m : option A) (Q : A → Prop) : Prop := ∃ a, m = Some a ∧ Q a.
Lemma returns_ret {A} (a : A) (Q : A → Prop) : Q a → returns (Some a) Q.
Proof. intros HQ. by exists a. Qed.
Lemma returns_bind {A B} (m : option A) (k : A → option B) (Q : A → Prop) (R : B → Prop) :
  returns m Q → (∀ a, Q a → returns (k a) R) → returns (m ≫= k) R.
Proof. intros (a & -> & HQ) Hk. by apply Hk. Qed.
Lemma returns_mono {A} (m : option A) (Q R : A → Prop) : returns m Q → (∀ a, Q a → R a) → returns m R.
Proof. intros (a & -> & HQ) HR. exists a. auto. Qed.
Lemma returns_some {A} (m : option A) (a : A) (Q : A → Prop) : m = Some a → Q a → returns m Q.
Proof. intros -> HQ. by exists a. Qed.
Lemma returns_fold {S A} (Q : S → Prop) (f : S → A → option S) l s :
  Q s → (∀ s a, a ∈ l → Q s → returns (f s a) Q) → returns (foldM f s l) Q.
Proof.
  revert s. induction l as [|a l IH]; intros s HQ Hf; [by apply returns_ret|]. simpl. eapply returns_bind; [by apply Hf; [left|]|].
  intros s' HQ'. apply IH; [done|]. intros s1 a1 Ha1. apply Hf. by right.
Qed.

Section for_loops.
Context {S : Type}.

Definition zfor (b e : Z) (f : Z → S → option S) (s : S) : option S :=
  foldM (λ s i, f i s) s (seqZ b (e - b)).

Lemma zfor_nil b e f s : e <= b → zfor b e f s = Some s.
Proof. intros ?. unfold zfor. rewrite seqZ_nil by lia. done. Qed.

Lemma zfor_cons b e f s : b < e → zfor b e f s = s' ← f b s; zfor (b + 1) e f s'.
Proof.
  intros ?. unfold zfor. rewrite seqZ_cons by lia. simpl.
  replace (Z.pred (e - b)) with (e - (b + 1)) by lia.
  by replace (Z.succ b) with (b + 1) by lia.
Qed.

(** Total-correctness rule: the loop returns and establishes its invariant. *)
Lemma zfor_ind (I : Z → S → Prop) b e f s :
  b <= e → I b s →
  (∀ i s, b <= i < e → I i s → ∃ s', f i s = Some s' ∧ I (i + 1) s') →
  ∃ s', zfor b e f s = Some s' ∧ I e s'.
Proof.
  intros Hbe H0 Hstep. remember (Z.to_nat (e - b)) as n eqn:Hn.
  revert b s Hbe H0 Hstep Hn. induction n as [|n IH]; intros b s Hbe H0 Hstep Hn.
  - replace e with b by lia. rewrite zfor_nil by lia. eauto.
  - rewrite zfor_cons by lia. destruct (Hstep b s) as (s' & -> & HI); [lia|done|]. simpl.
    apply IH; [lia|done| |lia]. intros i s1 ?. apply Hstep. lia.
Qed.

(** The same rule for a state predicate that every iteration keeps. *)
Lemma zfor_keep (P : S → Prop) b e f s :
  P s → (∀ i s, b <= i < e → P s → ∃ s', f i s = Some s' ∧ P s') →
  ∃ s', zfor b e f s = Some s' ∧ P s'.
Proof.
  intros H0 Hstep. destruct (decide (b <= e)).
  - apply (zfor_ind (λ _, P)); [done|done|]. intros i s1 ??. by apply Hstep.
  - rewrite zfor_nil by lia. eauto.
Qed.

Lemma zfor_inv (P : S → Prop) b e f s s' :
  P s → (∀ i s s', b <= i < e → P s → f i s = Some s' → P s') →
  zfor b e f s = Some s' → P s'.
Proof.
  intros H0 Hstep. apply foldM_inv; [done|].
  intros s1 i s2 Hi%elem_of_seqZ. apply Hstep. lia.
Qed.
End for_loops.

(** Two nested loops visit the cells of a rectangle row by row. *)
Definition rect_cells (m1 m2 : Z * Z) : list (Z * Z) :=
  seqZ m1.2 (m2.2 - m1.2) ≫= λ z, (λ x, (x, z)) <$> seqZ m1.1 (m2.1 - m1.1).

Lemma foldM_fmap {S A B} (f : S → B → option S) (g : A → B) s l :
  foldM f s (g <$> l) = foldM (λ s a, f s (g a)) s l.
Proof. revert s. induction l as [|a l IH]; intros s; simpl; [done|]. destruct (f s (g a)); simpl; auto. Qed.

Lemma zfor_rect {S} (m1 m2 : Z * Z) (f : Z → Z → S → option S) s :
  zfor m1.2 m2.2 (λ z s, zfor m1.1 m2.1 (λ x s, f x z s) s) s = foldM (λ s p, f p.1 p.2 s) s (rect_cells m1 m2).
Proof.
  unfold rect_cells, zfor. generalize (seqZ m1.2 (m2.2 - m1.2)) as zs. intros zs. revert s.
  induction zs as [|z zs IH]; intros s; simpl; [done|]. rewrite foldM_app, foldM_fmap. simpl.
  destruct (foldM (λ s x, f x z s) s _); simpl; auto.
Qed.

Lemma elem_of_rect m1 m2 x z :
  (x, z) ∈ rect_cells m1 m2 ↔ m1.1 <= x < m2.1 ∧ m1.2 <= z < m2.2.
Proof.
  unfold rect_cells. rewrite list_elem_of_bind. split.
  - intros (z' & (x' & [= -> ->] & Hx%elem_of_seqZ)%list_elem_of_fmap & Hz%elem_of_seqZ). lia.
  - intros [Hx Hz]. exists z. split; [|apply elem_of_seqZ; lia]. apply list_elem_of_fmap. exists x.
    split; [done|]. apply elem_of_seqZ. lia.
Qed.

Lemma rect_cells_NoDup m1 m2 : NoDup (rect_cells m1 m2).
Proof.
  unfold rect_cells. apply NoDup_bind.
  - intros z1 z2 [x z] _ _ (? & [= ] & _)%list_elem_of_fmap (? & [= ] & _)%list_elem_of_fmap. congruence.
  - intros z _. apply NoDup_fmap_2; [by intros ?? [=]|apply NoDup_seqZ].
  - apply NoDup_seqZ.
Qed.

Lemma rect_cells_length m1 m2 :
  length (rect_cells m1 m2) = (Z.to_nat (m2.1 - m1.1) * Z.to_nat (m2.2 - m1.2))%nat.
Proof.
  unfold rect_cells. rewrite <-(length_seqZ m1.2 (m2.2 - m1.2)).
  induction (seqZ m1.2 (m2.2 - m1.2)) as [|z zs IH]; [simpl; lia|].
  rewrite bind_cons, length_app, length_fmap, length_seqZ, IH. simpl. lia.
Qed.

(** The outcome of one iteration of a loop that can leave early. *)
Inductive flow (S R : Type) : Type :=
| Next (s : S)   (** go on with the next iteration ([continue] or fall through) *)
| Done (r : R).  (** [return r] *)
Arguments Next {S R} _.
Arguments Done {S R} _.

Section exit_loops.
Context {S A R : Type}.

Fixpoint foldX (f : S → A → option (flow S R)) (s : S) (l : list A) : option (flow S R) :=
  match l with
  | [] => Some (Next s)
  | a :: l =>
      r ← f s a;
      match r with
      | Next s' => foldX f s' l
      | Done r => Some (Done r)
      end
  end.

(** An early exit happened in some iteration, from a state that satisfies the invariant. *)
Lemma foldX_done (P : S → Prop) f s l r :
  P s → (∀ s a s', a ∈ l → P s → f s a = Some (Next s') → P s') →
  foldX f s l = Some (Done r) → ∃ a s', a ∈ l ∧ P s' ∧ f s' a = Some (Done r).
Proof.
  revert s. induction l as [|a l IH]; intros s H0 Hstep; simpl; [done|].
  destruct (f s a) as [[s1|r1]|] eqn:Hf; simpl; [|intros [= ->]; set_solver|done].
  intros HX. destruct (IH s1) as (a' & s' & ? & ? & ?).
  - eapply Hstep; [left|done|done].
  - intros ????. apply Hstep. by right.
  - done.
  - exists a', s'. set_solver.
Qed.

Lemma foldX_next (P : S → Prop) f s l s' :
  P s → (∀ s a s', a ∈ l → P s → f s a = Some (Next s') → P s') →
  foldX f s l = Some (Next s') → P s'.
Proof.
  revert s. induction l as [|a l IH]; intros s H0 Hstep; simpl; [by intros [= <-]|].
  destruct (f s a) as [[s1|r1]|] eqn:Hf; simpl; [|done|done]. apply IH.
  - eapply Hstep; [left|done|done].
  - intros ??? ?. apply Hstep. by right.
Qed.

(** No undefined behaviour when no iteration has any. *)
Lemma foldX_total (P : S → Prop) f s l :
  P s → (∀ s a, a ∈ l → P s →
    (∃ s', f s a = Some (Next s') ∧ P s') ∨ ∃ r, f s a = Some (Done r)) →
  is_Some (foldX f s l).
Proof.
  revert s. induction l as [|a l IH]; intros s H0 Hstep; simpl; [eauto|].
  destruct (Hstep s a) as [(s' & -> & ?)|[r ->]]; [left|done| |]; simpl; [|eauto].
  apply IH; [done|]. intros ???. apply Hstep. by right.
Qed.
End exit_loops.

Section exit_for_loops.
Context {S R : Type}.

Definition zfor_exit (b e : Z) (f : Z → S → option (flow S R)) (s : S) : option (flow S R) :=
  foldX (λ s i, f i s) s (seqZ b (e - b)).

Lemma zfor_exit_nil b e f s : e <= b → zfor_exit b e f s = Some (Next s).
Proof. intros ?. unfold zfor_exit. rewrite seqZ_nil by lia. done. Qed.

Lemma zfor_exit_cons b e f s :
  b < e →
  zfor_exit b e f s =
    r ← f b s; match r with Next s' => zfor_exit (b + 1) e f s' | Done r => Some (Done r) end.
Proof.
  intros ?. unfold zfor_exit. rewrite seqZ_cons by lia. simpl.
  replace (Z.pred (e - b)) with (e - (b + 1)) by lia.
  by replace (Z.succ b) with (b + 1) by lia.
Qed.
End exit_for_loops.

(** ** Sums over a list *)

Section sums.
Context {A : Type} `{EqDecision A}.

Definition lsum (f : A → Z) (l : list A) : Z := foldr (λ a s, f a + s) 0 l.

Lemma lsum_ext f g l : (∀ a, a ∈ l → f a = g a) → lsum f l = lsum g l.
Proof.
  induction l as [|a l IH]; intros H; [done|]. simpl. rewrite (H a) by left.
  rewrite IH; [done|]. intros ??. apply H. by right.
Qed.

Lemma lsum_app f l1 l2 : lsum f (l1 ++ l2) = lsum f l1 + lsum f l2.
Proof. induction l1; simpl; lia. Qed.

(** Changing the value of one element changes the sum by the difference. *)
Lemma lsum_update f g l a :
  NoDup l → a ∈ l → (∀ b, b ∈ l → b ≠ a → g b = f b) → lsum g l = lsum f l - f a + g a.
Proof.
  induction l as [|b l IH]; intros Hnd Ha Hne; [by apply not_elem_of_nil in Ha|].
  apply NoDup_cons in Hnd as [Hb Hnd]. simpl. destruct (decide (a = b)) as [->|Hab].
  - rewrite (lsum_ext g f l); [lia|]. intros c Hc. apply Hne; [by right|]. by intros ->.
  - apply elem_of_cons in Ha as [|Ha]; [done|]. rewrite IH by (done || intros; apply Hne; set_solver).
    rewrite (Hne b); [lia|by left|done].
Qed.

Lemma lsum_bound f l lo hi :
  (∀ a, a ∈ l → lo <= f a <= hi) → lo * zlen l <= lsum f l <= hi * zlen l.
Proof.
  unfold zlen. induction l as [|a l IH]; intros H; simpl; [lia|].
  pose proof (H a ltac:(left)). assert (∀ a, a ∈ l → lo <= f a <= hi) by (intros; apply H; by right).
  specialize (IH ltac:(done)). lia.
Qed.
End sums.

(** ** Lists *)

Lemma filter_all {A} (P : A → Prop) `{∀ x, Decision (P x)} (l : list A) :
  (∀ x, x ∈ l → P x) → filter P l = l.
Proof.
  induction l as [|x l IH]; intros Hl; [done|].
  rewrite filter_cons_True by (apply Hl; by left). rewrite IH; [done|]. intros y ?. apply Hl. by right.
Qed.

(** Moving the last element into the place of the [i]-th and dropping the last place. *)
Lemma swap_back_perm {A} (l : list A) i a b :
  l !! i = Some a → last l = Some b →
  let l' := take (length l - 1) (<[i := b]> l) in
  l ≡ₚ a :: l' ∧ (∀ x, x ∈ drop i l' → x ∈ drop i l) ∧ length l' = (length l - 1)%nat ∧
  take i l' = take i l.
Proof.
  intros Hi Hb. destruct (last_Some l b) as [[l0 ->] _]; [done|]. clear Hb. simpl.
  rewrite length_app. simpl. replace (length l0 + 1 - 1)%nat with (length l0) by lia.
  apply lookup_app_Some in Hi as [Hi|[Hge Hi]].
  - pose proof (lookup_lt_Some _ _ _ Hi) as Hlt. rewrite insert_app_l by done.
    rewrite take_app_length' by (by rewrite length_insert).
    rewrite length_insert, insert_take_drop by done. split; [|split; [|split; [lia|]]].
    + rewrite <-(take_drop_middle _ _ _ Hi) at 1. solve_Permutation.
    + intros x Hx. rewrite drop_app_le by lia.
      rewrite drop_app_length' in Hx by (rewrite length_take; lia).
      apply elem_of_cons in Hx as [->|Hx]; apply elem_of_app; [right; by left|left].
      rewrite (drop_S l0 a i Hi). by right.
    + rewrite take_app_length' by (rewrite length_take; lia). by rewrite take_app_le by lia.
  - destruct (i - length l0)%nat eqn:Hd; [|done]. simpl in Hi. injection Hi as ->.
    assert (i = length l0) as -> by lia.
    rewrite insert_app_r_alt by lia. rewrite Nat.sub_diag. simpl. rewrite take_app_length.
    split; [by rewrite Permutation_app_comm|]. split; [|split; [done|]].
    + intros x Hx. rewrite drop_ge in Hx by lia. by apply elem_of_nil in Hx.
    + apply take_ge. lia.
Qed.

(** ** Automation *)

Create HintDb circuit.
#[export] Hint Resolve is_u16_u16 zlen_nonneg : circuit.
Create Rewrite HintDb circuit_rw.
#[export] Hint Rewrite @zlen_replicate @zget_replicate @zlen_app : circuit_rw.

(** Arithmetic with [/] and [mod] by constants. *)
Ltac dlia := Z.div_mod_to_equations; lia.

(** Case analysis on the binds of an option-monad hypothesis. *)
Ltac bind_inv H :=
  repeat match type of H with
  | (_ ← ?m; _) = Some _ =>
      let x := fresh "x" in let E := fresh "E" in
      destruct m as [x|] eqn:E; [cbn [mbind option_bind] in H|discriminate H]
  | mbind _ ?m = Some _ =>
      let x := fresh "x" in let E := fresh "E" in
      destruct m as [x|] eqn:E; [cbn [mbind option_bind] in H|discriminate H]
  | Some _ = Some _ => injection H as H
  end.

(** Rewrite with the known results of the sub-operations of a bind, then go on. *)
Ltac bind_step := repeat (first
  [ match goal with E : ?m = Some _ |- context [?m] => rewrite E end
  | progress cbn [mbind option_bind] ]).

(** Case analysis on a [decide] of the goal only ([case_decide] also looks at hypotheses). *)
Tactic Notation "decide_goal" "as" simple_intropattern(p) :=
  match goal with |- context [decide ?P] => destruct (decide P) as p end.
Ltac decide_goal :=
  match goal with |- context [decide ?P] => destruct (decide P) end.

(** Integer division of C++: undefined for a zero divisor, else truncation toward zero. *)
Definition idiv (a b : Z) : option Z := if decide (b = 0) then None else Some (Z.quot a b).

Lemma idiv_ok a b : b ≠ 0 → idiv a b = Some (Z.quot a b).
Proof. intros ?. unfold idiv. by rewrite decide_False. Qed.
