(* ===== verification/Float32.v ===== *)
(** * Float32: the C++ types [float] and [double]

    [float] is IEEE-754 binary32 and [double] is binary64, both computed with the
    Standard Library's executable specification [SpecFloat] (round to nearest even).
    Arithmetic on [float] operands is evaluated in [float], as the x86-64 build does.
    The order lemmas at the end are what sorting and minimum searches rely on. *)

From Stdlib Require Import SpecFloat.
From S2P Require Import Prelude.

Definition float : Type := spec_float.
Definition double : Type := spec_float.

#[export] Instance spec_float_eq_dec : EqDecision spec_float.
Proof. solve_decision. Defined.

(** ** Operations on [float] *)

Definition fadd : float → float → float := SFadd 24 128.
Definition fsub : float → float → float := SFsub 24 128.
Definition fmul : float → float → float := SFmul 24 128.
Definition fdiv : float → float → float := SFdiv 24 128.
(** [sqrtf] *)
Definition fsqrt : float → float := SFsqrt 24 128.
Definition fneg : float → float := SFopp.
Definition fabs : float → float := SFabs.

Definition fltb : float → float → bool := SFltb.
Definition fleb : float → float → bool := SFleb.
Definition feqb : float → float → bool := SFeqb.
Definition fgtb (a b : float) : bool := SFltb b a.
Definition fgeb (a b : float) : bool := SFleb b a.

(** Conversion of an [int] to [float]. *)
Definition f_of_Z (z : Z) : float := binary_normalize 24 128 z 0 false.
(** A decimal literal [num / den f]; both are exact for the literals used. *)
Definition flit (num den : Z) : float := fdiv (f_of_Z num) (f_of_Z den).

(** [std::max(a, b)] is [(a < b) ? b : a], [std::min(a, b)] is [(b < a) ? b : a]. *)
Definition fmax (a b : float) : float := if fltb a b then b else a.
Definition fmin (a b : float) : float := if fltb b a then b else a.

(** Conversion of a floating-point value to [int]: truncation toward zero; undefined
    for a NaN, an infinity or a value whose truncation is not an [int]. *)
Definition trunc_Z (x : spec_float) : option Z :=
  match x with
  | S754_zero _ => Some 0
  | S754_finite s m e =>
      let a := if decide (0 <= e) then Z.shiftl (Zpos m) e else Z.shiftr (Zpos m) (- e) in
      Some (if s then - a else a)
  | _ => None
  end.
Definition f_to_int (x : spec_float) : option Z :=
  z ← trunc_Z x;
  if decide (INT_MIN <= z <= INT_MAX) then Some z else None.

(** ** Operations on [double], and the conversions *)

Definition dadd : double → double → double := SFadd 53 1024.
Definition dsub : double → double → double := SFsub 53 1024.
Definition dmul : double → double → double := SFmul 53 1024.
Definition ddiv : double → double → double := SFdiv 53 1024.
Definition d_of_Z (z : Z) : double := binary_normalize 53 1024 z 0 false.
Definition d_of_f (x : float) : double :=
  match x with S754_finite s m e => binary_round 53 1024 s m e | _ => x end.
Definition f_of_d (x : double) : float :=
  match x with S754_finite s m e => binary_round 24 128 s m e | _ => x end.

Definition FLT_MAX : float := S754_finite false 16777215 104.
Definition f0 : float := S754_zero false.
Definition f1 : float := f_of_Z 1.

Example f_of_Z_1 : f1 = S754_finite false 8388608 (-23).
Proof. reflexivity. Qed.
Example flit_half : fadd (flit 1 2) (flit 1 2) = f1.
Proof. reflexivity. Qed.
Example f_to_int_ex : f_to_int (flit (-7) 2) = Some (-3).
Proof. reflexivity. Qed.
Example fsqrt_ex : fsqrt (f_of_Z 9) = f_of_Z 3.
Proof. reflexivity. Qed.

(** ** The order of floating-point values

    Every value that is not a NaN has a rank, compared lexicographically; the
    comparisons of C++ are the comparisons of ranks. *)

Definition is_nan (x : spec_float) : bool :=
  match x with S754_nan => true | _ => false end.

Definition frank (x : spec_float) : Z * Z * Z :=
  match x with
  | S754_infinity true => (0, 0, 0)
  | S754_finite true m e => (1, - e, - Zpos m)
  | S754_zero _ => (2, 0, 0)
  | S754_finite false m e => (3, e, Zpos m)
  | S754_infinity false => (4, 0, 0)
  | S754_nan => (5, 0, 0)
  end.

Definition rank_lt (a b : Z * Z * Z) : Prop :=
  let '(a1, a2, a3) := a in
  let '(b1, b2, b3) := b in
  a1 < b1 ∨ a1 = b1 ∧ (a2 < b2 ∨ a2 = b2 ∧ a3 < b3).

Lemma SFcompare_rank x y :
  is_nan x = false → is_nan y = false →
  match SFcompare x y with
  | Some Lt => rank_lt (frank x) (frank y)
  | Some Eq => frank x = frank y
  | Some Gt => rank_lt (frank y) (frank x)
  | None => False
  end.
Proof.
  destruct x as [[]|[]| |[] m e], y as [[]|[]| |[] m' e']; simpl; intros; try done; try lia.
  - destruct (Z.compare_spec e e'); simpl; try lia.
    change (Pos.compare_cont Eq m m') with (Pos.compare m m').
    destruct (Pos.compare_spec m m'); simpl; subst; try done; lia.
  - destruct (Z.compare_spec e e'); simpl; try lia.
    change (Pos.compare_cont Eq m m') with (Pos.compare m m').
    destruct (Pos.compare_spec m m'); simpl; subst; try done; lia.
Qed.

Lemma SFcompare_nan x y :
  is_nan x = true ∨ is_nan y = true → SFcompare x y = None.
Proof. by destruct x as [[]|[]| |[]], y as [[]|[]| |[]]; simpl; intros [|]. Qed.

Lemma rank_lt_irrefl a : ¬ rank_lt a a.
Proof. destruct a as [[]]. simpl. lia. Qed.
Lemma rank_lt_trans a b c : rank_lt a b → rank_lt b c → rank_lt a c.
Proof. destruct a as [[]], b as [[]], c as [[]]. simpl. lia. Qed.
Lemma rank_lt_total a b : rank_lt a b ∨ a = b ∨ rank_lt b a.
Proof.
  destruct a as [[a1 a2] a3], b as [[b1 b2] b3]. simpl.
  destruct (Z.lt_total a1 b1) as [|[->|]]; [lia| |lia].
  destruct (Z.lt_total a2 b2) as [|[->|]]; [lia| |lia].
  destruct (Z.lt_total a3 b3) as [|[->|]]; auto; lia.
Qed.

Lemma fltb_rank x y :
  fltb x y = true ↔ is_nan x = false ∧ is_nan y = false ∧ rank_lt (frank x) (frank y).
Proof.
  unfold fltb, SFltb.
  destruct (is_nan x) eqn:Hx; [rewrite SFcompare_nan by auto; intuition discriminate|].
  destruct (is_nan y) eqn:Hy; [rewrite SFcompare_nan by auto; intuition discriminate|].
  pose proof (SFcompare_rank x y Hx Hy) as H.
  destruct (SFcompare x y) as [[]|]; split; try done; intros (_ & _ & Hl).
  - rewrite H in Hl. by apply rank_lt_irrefl in Hl.
  - destruct (rank_lt_irrefl (frank x)). by eapply rank_lt_trans.
Qed.

Lemma fleb_rank x y :
  fleb x y = true ↔ is_nan x = false ∧ is_nan y = false ∧ ¬ rank_lt (frank y) (frank x).
Proof.
  unfold fleb, SFleb.
  destruct (is_nan x) eqn:Hx; [rewrite SFcompare_nan by auto; intuition discriminate|].
  destruct (is_nan y) eqn:Hy; [rewrite SFcompare_nan by auto; intuition discriminate|].
  pose proof (SFcompare_rank x y Hx Hy) as H.
  destruct (SFcompare x y) as [[]|]; split; try done.
  - intros _. rewrite H. repeat split; auto. apply rank_lt_irrefl.
  - intros _. repeat split; auto. intros Hl. destruct (rank_lt_irrefl (frank x)).
    by eapply rank_lt_trans.
  - intros (_ & _ & []). done.
Qed.

Lemma fltb_irrefl x : fltb x x = false.
Proof.
  destruct (fltb x x) eqn:H; [|done]. apply fltb_rank in H as (_ & _ & H).
  by apply rank_lt_irrefl in H.
Qed.

Lemma fltb_trans x y z : fltb x y = true → fltb y z = true → fltb x z = true.
Proof. rewrite !fltb_rank. intros (? & ? & ?) (? & ? & ?). eauto using rank_lt_trans. Qed.

Lemma fltb_not_nan x y : fltb x y = true → is_nan x = false ∧ is_nan y = false.
Proof. rewrite fltb_rank. tauto. Qed.

Lemma fltb_asym x y : fltb x y = true → fltb y x = false.
Proof.
  intros H. destruct (fltb y x) eqn:H'; [|done].
  pose proof (fltb_trans _ _ _ H H') as Hc. by rewrite fltb_irrefl in Hc.
Qed.

(** On values that are not NaN, "not less" is a total preorder. *)
Lemma fltb_negtrans x y z :
  is_nan y = false → fltb x z = true → fltb x y = true ∨ fltb y z = true.
Proof.
  rewrite !fltb_rank. intros Hy (Hx & Hz & Hl).
  destruct (rank_lt_total (frank x) (frank y)) as [?|[E|?]]; [by auto| |].
  - right. rewrite <-E. auto.
  - right. eauto using rank_lt_trans.
Qed.

Lemma fltb_fleb x y :
  is_nan x = false → is_nan y = false → fltb x y = negb (fleb y x).
Proof.
  intros Hx Hy. destruct (fltb x y) eqn:H1, (fleb y x) eqn:H2; try done.
  - apply fltb_rank in H1 as (_ & _ & ?). apply fleb_rank in H2 as (_ & _ & ?). done.
  - exfalso. assert (¬ fltb x y = true) as H1' by (rewrite H1; done).
    assert (¬ fleb y x = true) as H2' by (rewrite H2; done).
    rewrite fltb_rank in H1'. rewrite fleb_rank in H2'.
    destruct (rank_lt_total (frank x) (frank y)) as [?|[E|?]]; [naive_solver| |].
    + apply H2'. refine (conj Hy (conj Hx _)). rewrite E. apply rank_lt_irrefl.
    + apply H2'. refine (conj Hy (conj Hx _)). intros ?.
      destruct (rank_lt_irrefl (frank x)). by eapply rank_lt_trans.
Qed.

Lemma fleb_refl x : is_nan x = false → fleb x x = true.
Proof. intros ?. apply fleb_rank. auto using rank_lt_irrefl. Qed.

Lemma fleb_trans x y z : fleb x y = true → fleb y z = true → fleb x z = true.
Proof.
  rewrite !fleb_rank. intros (Hx & _ & Hxy) (_ & Hz & Hyz). refine (conj Hx (conj Hz _)).
  intros Hzx. destruct (rank_lt_total (frank y) (frank z)) as [Hl|[Hl|Hl]].
  - apply Hxy. by eapply rank_lt_trans.
  - apply Hxy. by rewrite Hl.
  - done.
Qed.

Lemma fltb_le x y : fltb x y = true → fleb x y = true.
Proof.
  rewrite fltb_rank, fleb_rank. intros (Hx & Hy & H). refine (conj Hx (conj Hy _)). intros H'.
  destruct (rank_lt_irrefl (frank x)). by eapply rank_lt_trans.
Qed.

(** [std::max] and [std::min] on values that are not NaN. *)
Lemma fmax_spec a b :
  is_nan a = false → is_nan b = false →
  fleb a (fmax a b) = true ∧ fleb b (fmax a b) = true ∧ (fmax a b = a ∨ fmax a b = b).
Proof.
  intros Ha Hb. unfold fmax. destruct (fltb a b) eqn:H.
  - auto using fltb_le, fleb_refl.
  - rewrite fltb_fleb in H by done. apply negb_false_iff in H. auto using fleb_refl.
Qed.

Lemma fmin_spec a b :
  is_nan a = false → is_nan b = false →
  fleb (fmin a b) a = true ∧ fleb (fmin a b) b = true ∧ (fmin a b = a ∨ fmin a b = b).
Proof.
  intros Ha Hb. unfold fmin. destruct (fltb b a) eqn:H.
  - auto using fltb_le, fleb_refl.
  - rewrite fltb_fleb in H by done. apply negb_false_iff in H. auto using fleb_refl.
Qed.

#[export] Hint Resolve fltb_irrefl fltb_trans fltb_asym fltb_le fleb_refl fleb_trans : circuit.

(** ** [springai::AIFloat3]: the engine's vector type, its components and the operations used. *)

Record AIFloat3 : Type := F3 { px : float; py : float; pz : float }.

#[export] Instance AIFloat3_eq_dec : EqDecision AIFloat3.
Proof. solve_decision. Defined.
