(* ===== verification/FloatRound.v ===== *)
(** * FloatRound: rounding of non-negative [float] values

    The costs of the path finder are sums of non-negative [float] values.  A [float] that
    is not negative and not a NaN is a multiple of [2 ^ -149]; [fval] is that multiple, an
    integer, with [2 ^ 277] for infinity.  On such values the comparison is the comparison
    of the integers and [fadd] is integer addition followed by rounding to 24 significant
    bits ([rnd]), which is monotone and keeps the representable integers. *)

From Stdlib Require Import SpecFloat.
From S2P Require Import Prelude Float32.

(** ** Rounding an integer to nearest even *)

(** [m / 2 ^ k] rounded to nearest, ties to even. *)
Definition rne (m k : Z) : Z :=
  let q := m / 2 ^ k in
  let r := m `mod` 2 ^ k in
  if decide (2 * r < 2 ^ k) then q
  else if decide (2 ^ k < 2 * r) then q + 1
  else if Z.even q then q else q + 1.

Lemma rne_bounds m k : 0 <= k → m / 2 ^ k <= rne m k <= m / 2 ^ k + 1.
Proof. intros ?. unfold rne. repeat case_decide; try lia. case_match; lia. Qed.

Lemma rne_mono m m' k : 0 <= k → m <= m' → rne m k <= rne m' k.
Proof.
  intros Hk Hm. pose proof (Z.pow_pos_nonneg 2 k ltac:(lia) Hk) as Hp.
  pose proof (Z.div_le_mono m m' (2 ^ k) Hp Hm) as Hq.
  pose proof (rne_bounds m k Hk). pose proof (rne_bounds m' k Hk).
  destruct (decide (m / 2 ^ k = m' / 2 ^ k)) as [E|]; [|lia].
  assert (m `mod` 2 ^ k <= m' `mod` 2 ^ k) by (rewrite !Z.mod_eq by lia; lia).
  unfold rne. rewrite E. repeat case_decide; try lia; case_match; lia.
Qed.

Lemma rne_exact a k : 0 <= k → rne (a * 2 ^ k) k = a.
Proof.
  intros Hk. pose proof (Z.pow_pos_nonneg 2 k ltac:(lia) Hk) as Hp. unfold rne.
  rewrite Z.mod_mul, Z.div_mul by lia. rewrite decide_True by lia. done.
Qed.

Lemma rne_scale m k j : 0 <= k → 0 <= j → rne (m * 2 ^ j) (k + j) = rne m k.
Proof.
  intros Hk Hj. pose proof (Z.pow_pos_nonneg 2 k ltac:(lia) Hk) as Hp.
  pose proof (Z.pow_pos_nonneg 2 j ltac:(lia) Hj) as Hpj. unfold rne.
  rewrite Z.pow_add_r by lia. rewrite Z.div_mul_cancel_r, Z.mul_mod_distr_r by lia.
  repeat case_decide; try nia; done.
Qed.

(** The exponent of the last of 24 significant bits, and the rounding of an integer. *)
Definition ulp (N : Z) : Z := Z.max (Z.log2 N - 23) 0.
Definition rnd (N : Z) : Z := rne N (ulp N) * 2 ^ ulp N.

Lemma ulp_nonneg N : 0 <= ulp N.
Proof. unfold ulp. lia. Qed.

Lemma ulp_mono N N' : N <= N' → ulp N <= ulp N'.
Proof. intros H. unfold ulp. pose proof (Z.log2_le_mono N N' H). lia. Qed.

Lemma div_lt_24 N : 0 <= N → N / 2 ^ ulp N < 2 ^ 24.
Proof.
  intros H0. destruct (decide (N = 0)) as [->|]; [by vm_compute|].
  pose proof (Z.log2_spec N ltac:(lia)) as [_ Hl]. apply Z.div_lt_upper_bound.
  - apply Z.pow_pos_nonneg; [lia|apply ulp_nonneg].
  - rewrite <-Z.pow_add_r by (pose proof (ulp_nonneg N); lia). eapply Z.lt_le_trans; [exact Hl|].
    apply Z.pow_le_mono_r; [lia|]. unfold ulp. lia.
Qed.

Lemma div_ge_23 N : 0 < ulp N → 2 ^ 23 <= N / 2 ^ ulp N.
Proof.
  intros Hu. assert (0 < N) as HN.
  { destruct (decide (0 < N)); [done|]. unfold ulp in Hu. rewrite Z.log2_nonpos in Hu by lia. lia. }
  pose proof (Z.log2_spec N HN) as [Hl _]. apply Z.div_le_lower_bound; [apply Z.pow_pos_nonneg; lia|].
  rewrite <-Z.pow_add_r by lia. etrans; [|exact Hl]. apply Z.pow_le_mono_r; [lia|]. unfold ulp in *. lia.
Qed.

Lemma rne_ulp_bounds N : 0 <= N → 0 <= rne N (ulp N) <= 2 ^ 24 ∧ (0 < ulp N → 2 ^ 23 <= rne N (ulp N)).
Proof.
  intros H0. pose proof (ulp_nonneg N) as Hu. pose proof (rne_bounds N (ulp N) Hu). pose proof (div_lt_24 N H0).
  assert (0 <= N / 2 ^ ulp N) by (apply Z.div_pos; [lia|apply Z.pow_pos_nonneg; lia]).
  split; [lia|]. intros Hp. pose proof (div_ge_23 N Hp). lia.
Qed.

Lemma rnd_mono N N' : 0 <= N <= N' → rnd N <= rnd N'.
Proof.
  intros [H0 H]. pose proof (ulp_mono N N' H) as Hu. pose proof (ulp_nonneg N) as Hu0. unfold rnd.
  pose proof (Z.pow_pos_nonneg 2 (ulp N) ltac:(lia) Hu0) as Hp.
  destruct (decide (ulp N = ulp N')) as [E|Hne].
  - rewrite <-E. apply Z.mul_le_mono_nonneg_r; [lia|]. apply rne_mono; [lia|done].
  - pose proof (rne_ulp_bounds N H0) as [[_ Hb] _]. pose proof (rne_ulp_bounds N' ltac:(lia)) as [_ Hb'].
    specialize (Hb' ltac:(lia)). transitivity (2 ^ 24 * 2 ^ ulp N); [nia|].
    rewrite <-Z.pow_add_r by lia. transitivity (2 ^ 23 * 2 ^ ulp N').
    + rewrite <-Z.pow_add_r by lia. apply Z.pow_le_mono_r; lia.
    + apply Z.mul_le_mono_nonneg_r; [apply Z.pow_nonneg; lia|done].
Qed.

(** An integer with at most 24 significant bits is its own rounding. *)
Lemma rnd_exact a k : 0 <= a < 2 ^ 24 → 0 <= k → rnd (a * 2 ^ k) = a * 2 ^ k.
Proof.
  intros Ha Hk. unfold rnd. set (N := a * 2 ^ k). assert (ulp N <= k) as Hu.
  { unfold ulp, N. destruct (decide (a = 0)) as [->|]; [rewrite Z.mul_0_l; change (Z.log2 0) with 0; lia|].
    rewrite Z.log2_mul_pow2 by lia.
    assert (Z.log2 a < 24) by (apply Z.log2_lt_pow2; lia). lia. }
  pose proof (ulp_nonneg N) as Hu0. replace N with (a * 2 ^ (k - ulp N) * 2 ^ ulp N) at 1.
  - rewrite rne_exact by lia. rewrite <-Z.mul_assoc, <-Z.pow_add_r by lia.
    by replace (k - ulp N + ulp N) with k by lia.
  - rewrite <-Z.mul_assoc, <-Z.pow_add_r by lia. by replace (k - ulp N + ulp N) with k by lia.
Qed.

(** ** The rounding of [SpecFloat] *)

Abbreviation fexp32 := (fexp 24 128).

Lemma fexp32_eq e : fexp32 e = Z.max (e - 24) (-149).
Proof. reflexivity. Qed.

Lemma digits_log2 m : Zpos (digits2_pos m) = Z.log2 (Zpos m) + 1.
Proof.
  induction m as [m IH|m IH|]; [| |done]; simpl digits2_pos; rewrite Pos2Z.inj_succ, IH.
  - rewrite (Pos2Z.inj_xI m), Z.log2_succ_double by lia. lia.
  - rewrite (Pos2Z.inj_xO m), Z.log2_double by lia. lia.
Qed.

Lemma Zdigits2_log2 m : 0 < m → Zdigits2 m = Z.log2 m + 1.
Proof. destruct m; [done| |done]. intros _. apply digits_log2. Qed.

(** A right shift by [k] keeps the quotient, the first dropped bit and whether any later one was set. *)
Definition shifted (m : Z) (k : nat) (mrs : shr_record) : Prop :=
  ∃ t, m = shr_m mrs * 2 ^ Z.of_nat k + (if shr_r mrs then 2 ^ (Z.of_nat k - 1) else 0) + t ∧
    0 <= shr_m mrs ∧ 0 <= t ∧ shr_s mrs = negb (t =? 0) ∧
    (match k with O => shr_r mrs = false ∧ t = 0 | S j => t < 2 ^ Z.of_nat j end).

Lemma shr_1_m mrs : 0 <= shr_m mrs →
  shr_m mrs = 2 * shr_m (shr_1 mrs) + (if shr_r (shr_1 mrs) then 1 else 0) ∧
  0 <= shr_m (shr_1 mrs) ∧ shr_s (shr_1 mrs) = shr_r mrs || shr_s mrs.
Proof. destruct mrs as [[|[p|p|]|p] r s]; simpl; intros; try lia; split; try lia; split; try lia; done. Qed.

Lemma shr_1_shifted m k mrs : shifted m k mrs → shifted m (S k) (shr_1 mrs).
Proof.
  intros (t & Hm & Hq & Ht & Hs & Hk). destruct (shr_1_m mrs Hq) as (Hq' & Hq0 & Hs').
  pose proof (Z.pow_pos_nonneg 2 (Z.of_nat k) ltac:(lia) ltac:(lia)) as Hp.
  exists ((if shr_r mrs then 2 ^ (Z.of_nat k - 1) else 0) + t).
  replace (Z.of_nat (S k)) with (Z.of_nat k + 1) by lia. rewrite Z.pow_add_r by lia.
  replace (Z.of_nat k + 1 - 1) with (Z.of_nat k) by lia.
  assert (0 <= 2 ^ (Z.of_nat k - 1)) as Hp1 by (apply Z.pow_nonneg; lia).
  split; [|split; [done|split; [|split]]].
  - rewrite Hm, Hq' at 1. destruct (shr_r (shr_1 mrs)); nia.
  - destruct (shr_r mrs); lia.
  - rewrite Hs', Hs. destruct k as [|j]; [destruct Hk as [-> ->]; done|].
    destruct (shr_r mrs); simpl; [|done]. symmetry. apply negb_true_iff, Z.eqb_neq.
    replace (Z.pos (Pos.of_succ_nat j) - 1) with (Z.of_nat j) by lia.
    pose proof (Z.pow_pos_nonneg 2 (Z.of_nat j) ltac:(lia) ltac:(lia)). lia.
  - destruct k as [|j]; [destruct Hk as [-> ->]; done|].
    replace (Z.of_nat (S j) - 1) with (Z.of_nat j) by lia. replace (Z.of_nat (S j)) with (Z.of_nat j + 1) by lia.
    rewrite Z.pow_add_r by lia. destruct (shr_r mrs); lia.
Qed.

Lemma iter_pos_shifted p : ∀ m k mrs,
  shifted m k mrs → shifted m (Pos.to_nat p + k) (SpecFloat.iter_pos shr_1 p mrs).
Proof.
  induction p as [p IH|p IH|]; intros m k mrs H; simpl SpecFloat.iter_pos.
  - replace (Pos.to_nat p~1 + k)%nat with (Pos.to_nat p + (Pos.to_nat p + S k))%nat by lia.
    by apply IH, IH, shr_1_shifted.
  - replace (Pos.to_nat p~0 + k)%nat with (Pos.to_nat p + (Pos.to_nat p + k))%nat by lia. by apply IH, IH.
  - by apply shr_1_shifted.
Qed.

(** The dropped bits of a shift. *)
Lemma shifted_bits m k mrs :
  shifted m k mrs →
  ∃ t, m / 2 ^ Z.of_nat k = shr_m mrs ∧ 0 <= t ∧ shr_s mrs = negb (t =? 0) ∧
    m `mod` 2 ^ Z.of_nat k = (if shr_r mrs then 2 ^ (Z.of_nat k - 1) else 0) + t ∧ 2 * t < 2 ^ Z.of_nat k ∧
    (shr_r mrs = true → 2 * 2 ^ (Z.of_nat k - 1) = 2 ^ Z.of_nat k).
Proof.
  intros (t & Hm & Hq & Ht & Hs & Hk).
  assert (2 * t < 2 ^ Z.of_nat k ∧ (shr_r mrs = true → 2 * 2 ^ (Z.of_nat k - 1) = 2 ^ Z.of_nat k)) as [H2t Hpow].
  { destruct k as [|j]; [destruct Hk as [-> ->]; done|]. replace (Z.of_nat (S j) - 1) with (Z.of_nat j) by lia.
    replace (Z.of_nat (S j)) with (Z.of_nat j + 1) by lia. rewrite Z.pow_add_r by lia. lia. }
  assert (0 <= (if shr_r mrs then 2 ^ (Z.of_nat k - 1) else 0) + t < 2 ^ Z.of_nat k) as Hr.
  { destruct (shr_r mrs); [specialize (Hpow eq_refl)|]; lia. }
  exists t. split_and!; try done.
  - symmetry. eapply Z.div_unique_pos; [exact Hr|]. lia.
  - symmetry. apply (Z.mod_unique_pos _ _ (shr_m mrs)); [exact Hr|]. lia.
Qed.

(** A shift followed by the choice of the rounding is [rne]. *)
Lemma shifted_rne m k mrs :
  shifted m k mrs → round_nearest_even (shr_m mrs) (loc_of_shr_record mrs) = rne m (Z.of_nat k).
Proof.
  intros (t & Hq & Ht & Hs & Hr & H2t & Hpow)%shifted_bits. unfold rne. rewrite Hq, Hr.
  destruct mrs as [q r s]. simpl in *. destruct r; [specialize (Hpow eq_refl)|clear Hpow]; rewrite Hs.
  - destruct (Z.eqb_spec t 0) as [->|]; simpl; repeat case_decide; try lia; done.
  - rewrite decide_True by lia. by destruct (t =? 0).
Qed.

Lemma shr_rne m e n :
  0 <= m → 0 <= n →
  ∃ mrs, shr (shr_record_of_loc m loc_Exact) e n = (mrs, e + n) ∧
    round_nearest_even (shr_m mrs) (loc_of_shr_record mrs) = rne m n ∧ shr_m mrs = m / 2 ^ n.
Proof.
  intros Hm Hn. assert (shifted m 0 (shr_record_of_loc m loc_Exact)) as H0.
  { exists 0. simpl. split_and!; lia || done. }
  destruct n as [|p|p]; [| |lia].
  - simpl. eexists. split; [by rewrite Z.add_0_r|]. split; [by apply (shifted_rne m 0)|by rewrite Z.div_1_r].
  - simpl. eexists. split; [done|]. pose proof (iter_pos_shifted p _ _ _ H0) as Hs. rewrite Nat.add_0_r in Hs.
    rewrite <-(positive_nat_Z p). split; [by apply shifted_rne|]. by apply shifted_bits in Hs as (t & -> & _).
Qed.

(** ** Non-negative values as integers *)

(** A [float] that can be a cost: canonical, not negative, not a NaN. *)
Definition costf (x : float) : bool :=
  match x with
  | S754_zero _ => true
  | S754_infinity s => negb s
  | S754_nan => false
  | S754_finite s m e => negb s && bounded 24 128 m e
  end.

Definition fval (x : float) : Z :=
  match x with
  | S754_zero _ => 0
  | S754_infinity _ => 2 ^ 277
  | S754_nan => 0
  | S754_finite _ m e => Zpos m * 2 ^ (e + 149)
  end.

Lemma costf_not_nan x : costf x = true → is_nan x = false.
Proof. by destruct x. Qed.

Lemma bounded_inv m e :
  bounded 24 128 m e = true →
  -149 <= e <= 104 ∧ Zpos m < 2 ^ 24 ∧ (-149 < e → 2 ^ 23 <= Zpos m).
Proof.
  unfold bounded, canonical_mantissa. rewrite andb_true_iff, Z.eqb_eq, Z.leb_le, digits_log2, fexp32_eq.
  intros [Hc He]. split; [lia|]. split.
  - apply Z.log2_lt_pow2; lia.
  - intros ?. apply Z.log2_le_pow2; lia.
Qed.

Lemma bounded_intro m e :
  -149 <= e <= 104 → Zpos m < 2 ^ 24 → (-149 < e → 2 ^ 23 <= Zpos m) → bounded 24 128 m e = true.
Proof.
  intros He Hm Hn. unfold bounded, canonical_mantissa.
  rewrite andb_true_iff, Z.eqb_eq, Z.leb_le, digits_log2, fexp32_eq. split; [|lia].
  assert (Z.log2 (Zpos m) < 24) by (apply Z.log2_lt_pow2; lia).
  destruct (decide (-149 < e)); [|lia]. assert (23 <= Z.log2 (Zpos m)) by (apply Z.log2_le_pow2; auto with lia). lia.
Qed.

Lemma fval_bounds x : costf x = true → 0 <= fval x <= 2 ^ 277.
Proof.
  destruct x as [s|s| |s m e]; simpl; try (intros; lia). rewrite andb_true_iff. intros [_ (He & Hm & _)%bounded_inv].
  assert (0 <= 2 ^ (e + 149) <= 2 ^ 253) by (split; [apply Z.pow_nonneg; lia|apply Z.pow_le_mono_r; lia]).
  split; [lia|]. change (2 ^ 277) with (2 ^ 24 * 2 ^ 253). nia.
Qed.

(** The rounding of [m * 2 ^ e] when its last bit is kept or dropped, never padded. *)
Definition rexp (m e : Z) : Z := fexp32 (Z.log2 m + 1 + e).

Lemma rne_rexp m e :
  0 < m → e <= rexp m e →
  0 <= rne m (rexp m e - e) <= 2 ^ 24 ∧ (-149 < rexp m e → 2 ^ 23 <= rne m (rexp m e - e)).
Proof.
  intros Hm He. set (n := rexp m e - e). pose proof (rne_bounds m n ltac:(lia)) as Hb.
  pose proof (Z.pow_pos_nonneg 2 n ltac:(lia) ltac:(lia)) as Hp. pose proof (Z.log2_spec m Hm) as [Hl1 Hl2].
  assert (0 <= m / 2 ^ n) by (apply Z.div_pos; lia). assert (m / 2 ^ n < 2 ^ 24) as Hu.
  { apply Z.div_lt_upper_bound; [done|]. rewrite <-Z.pow_add_r by lia. eapply Z.lt_le_trans; [exact Hl2|].
    apply Z.pow_le_mono_r; [lia|]. unfold n, rexp. rewrite fexp32_eq. lia. }
  split; [lia|]. intros Hr. transitivity (m / 2 ^ n); [|lia]. apply Z.div_le_lower_bound; [done|].
  rewrite <-Z.pow_add_r by lia. etrans; [|exact Hl1]. apply Z.pow_le_mono_r; [lia|].
  unfold n, rexp in *. rewrite fexp32_eq in *. lia.
Qed.

Lemma shr_nothing mrs e n : n <= 0 → shr mrs e n = (mrs, e).
Proof. by destruct n. Qed.

(** The second pass of the rounding: a carry to [2 ^ 24] moves the exponent up. *)
Lemma carry_ok q E :
  0 <= q <= 2 ^ 24 → -149 <= E → (-149 < E → 2 ^ 23 <= q) →
  let '(mrs, e) := shr_fexp 24 128 q E loc_Exact in
  let x := match shr_m mrs with
           | Z0 => S754_zero false
           | Zpos m => if e <=? 104 then S754_finite false m e else S754_infinity false
           | _ => S754_nan
           end in
  costf x = true ∧ fval x = Z.min (q * 2 ^ (E + 149)) (2 ^ 277).
Proof.
  intros Hq HE Hn. pose proof (Z.pow_pos_nonneg 2 (E + 149) ltac:(lia) ltac:(lia)) as Hp. unfold shr_fexp.
  destruct (decide (q = 2 ^ 24)) as [->|Hq24].
  - change (Zdigits2 (2 ^ 24)) with 25. rewrite fexp32_eq. replace (Z.max (25 + E - 24) (-149) - E) with 1 by lia.
    destruct (shr_rne (2 ^ 24) E 1) as (mrs & -> & _ & ->); [lia|lia|]. change (2 ^ 24 / 2 ^ 1) with (2 ^ 23).
    change (2 ^ 23) with (Zpos 8388608). cbv beta iota.
    destruct (Z.leb_spec (E + 1) 104); simpl costf; simpl fval.
    + rewrite bounded_intro by lia. split; [done|]. replace (E + 1 + 149) with (E + 149 + 1) by lia.
      rewrite Z.pow_add_r by lia. assert (2 ^ (E + 149) <= 2 ^ 252) by (apply Z.pow_le_mono_r; lia). lia.
    + split; [done|]. assert (2 ^ 253 <= 2 ^ (E + 149)) by (apply Z.pow_le_mono_r; lia). lia.
  - rewrite shr_nothing.
    2:{ rewrite fexp32_eq. destruct (decide (q = 0)) as [->|]; [simpl; lia|]. rewrite Zdigits2_log2 by lia.
        assert (Z.log2 q < 24) by (apply Z.log2_lt_pow2; lia). lia. }
    simpl. destruct q as [|m|m]; [simpl; split; [done|lia]| |lia].
    destruct (Z.leb_spec E 104); simpl costf; simpl fval.
    + rewrite bounded_intro by lia. split; [done|].
      assert (2 ^ (E + 149) <= 2 ^ 253) by (apply Z.pow_le_mono_r; lia). change (2 ^ 277) with (2 ^ 24 * 2 ^ 253). nia.
    + split; [done|]. assert (2 ^ 254 <= 2 ^ (E + 149)) by (apply Z.pow_le_mono_r; lia).
      change (2 ^ 277) with (2 ^ 23 * 2 ^ 254). nia.
Qed.

Lemma round_aux_ok m e :
  0 < m → e <= rexp m e →
  let x := binary_round_aux 24 128 false m e loc_Exact in
  costf x = true ∧ fval x = Z.min (rne m (rexp m e - e) * 2 ^ (rexp m e + 149)) (2 ^ 277).
Proof.
  intros Hm He. pose proof (rne_rexp m e Hm He) as [Hb Hn]. unfold binary_round_aux.
  destruct (shr_rne m e (rexp m e - e)) as (mrs & Hs & Hr & _); [lia|lia|].
  assert (shr_fexp 24 128 m e loc_Exact = (mrs, e + (rexp m e - e))) as ->.
  { rewrite <-Hs. unfold shr_fexp. by rewrite Zdigits2_log2. }
  cbv beta iota. rewrite Hr.
  replace (e + (rexp m e - e)) with (rexp m e) by lia.
  assert (-149 <= rexp m e) by (unfold rexp; rewrite fexp32_eq; lia).
  pose proof (carry_ok (rne m (rexp m e - e)) (rexp m e) Hb ltac:(done) Hn) as Hc.
  destruct (shr_fexp 24 128 _ _ loc_Exact) as [mrs' e']. exact Hc.
Qed.

(** ** Addition, multiplication and conversion *)

Lemma shl_align_ok m e E :
  ∃ m', shl_align m e E = (m', Z.min e E) ∧ Zpos m' = Zpos m * 2 ^ (e - Z.min e E).
Proof.
  unfold shl_align. destruct (E - e) as [|d|d] eqn:Hd.
  - exists m. split; [f_equal; lia|]. replace (e - Z.min e E) with 0 by lia. lia.
  - exists m. split; [f_equal; lia|]. replace (e - Z.min e E) with 0 by lia. lia.
  - exists (Pos.iter xO m d). split; [f_equal; lia|]. replace (e - Z.min e E) with (Zpos d) by lia.
    clear Hd. revert m. induction d as [|d IH] using Pos.peano_ind; intros m; [simpl; lia|].
    rewrite Pos.iter_succ, Pos2Z.inj_succ, Z.pow_succ_r, Pos2Z.inj_xO, IH by lia. ring.
Qed.

(** An exact non-negative value is rounded like the integer it is. *)
Lemma round_ok m e :
  0 < m → -149 <= e →
  costf (binary_normalize 24 128 m e false) = true ∧
  fval (binary_normalize 24 128 m e false) = Z.min (rnd (m * 2 ^ (e + 149))) (2 ^ 277).
Proof.
  intros Hm He. destruct m as [|p|p]; [lia| |lia]. simpl. unfold binary_round. rewrite digits_log2. fold (rexp (Zpos p) e).
  destruct (shl_align_ok p e (rexp (Zpos p) e)) as (p' & -> & Hp'). set (r := rexp (Zpos p) e) in *.
  set (e' := Z.min e r) in *. assert (-149 <= r) as Hr by (unfold r, rexp; rewrite fexp32_eq; lia).
  assert (rexp (Zpos p') e' = r) as Hre.
  { unfold rexp. rewrite Hp', Z.log2_mul_pow2 by lia. unfold r, rexp. f_equal. lia. }
  destruct (round_aux_ok (Zpos p') e') as [Hc Hv]; [lia|lia|]. split; [done|]. rewrite Hv. clear Hc Hv. f_equal.
  rewrite Hre. assert (Zpos p * 2 ^ (e + 149) = Zpos p' * 2 ^ (e' + 149)) as ->.
  { rewrite Hp', <-Z.mul_assoc, <-Z.pow_add_r by lia. do 2 f_equal. lia. }
  unfold rnd. assert (ulp (Zpos p' * 2 ^ (e' + 149)) = r + 149) as ->.
  { unfold ulp. rewrite Z.log2_mul_pow2 by lia. rewrite <-Hre. unfold rexp. rewrite fexp32_eq. lia. }
  f_equal. replace (r + 149) with (r - e' + (e' + 149)) by lia. by rewrite rne_scale by lia.
Qed.

Lemma rnd_fval x : costf x = true → rnd (fval x) = fval x.
Proof.
  destruct x as [s|s| |s m e]; simpl; intros H; try done.
  apply andb_true_iff in H as [_ (He & Hm & _)%bounded_inv]. apply rnd_exact; lia.
Qed.

Lemma rnd_overflow N : 2 ^ 277 <= N → 2 ^ 277 <= rnd N.
Proof. intros HN. change (2 ^ 277) with (rnd (2 ^ 277)). apply rnd_mono. lia. Qed.

Lemma fadd_val x y :
  costf x = true → costf y = true →
  costf (fadd x y) = true ∧ fval (fadd x y) = Z.min (rnd (fval x + fval y)) (2 ^ 277).
Proof.
  intros Hx Hy. pose proof (fval_bounds x Hx). pose proof (fval_bounds y Hy).
  pose proof (rnd_fval x Hx) as Rx. pose proof (rnd_fval y Hy) as Ry.
  destruct x as [sx|[]| |[] mx ex]; try discriminate Hx; destruct y as [sy|[]| |[] my ey]; try discriminate Hy.
  - split; [by destruct sx, sy|]. by destruct sx, sy.
  - split; [done|]. by simpl.
  - split; [done|]. change (fval (S754_zero sx)) with 0. rewrite Z.add_0_l, Ry. simpl fadd. lia.
  - split; [done|]. by simpl.
  - split; [done|]. change (fadd _ _) with (S754_infinity false). pose proof (rnd_overflow (fval (S754_infinity false) + fval (S754_infinity false)) ltac:(simpl; lia)). simpl fval in *. lia.
  - split; [done|]. change (fadd _ _) with (S754_infinity false).
    pose proof (rnd_overflow (fval (S754_infinity false) + fval (S754_finite false my ey)) ltac:(simpl fval in *; lia)).
    simpl fval in *. lia.
  - split; [done|]. change (fval (S754_zero sy)) with 0. rewrite Z.add_0_r, Rx. simpl fadd. lia.
  - split; [done|]. change (fadd _ _) with (S754_infinity false).
    pose proof (rnd_overflow (fval (S754_finite false mx ex) + fval (S754_infinity false)) ltac:(simpl fval in *; lia)).
    simpl fval in *. lia.
  - simpl in Hx, Hy. apply bounded_inv in Hx as (Hex & _), Hy as (Hey & _). unfold fadd, SFadd.
    destruct (shl_align_ok mx ex (Z.min ex ey)) as (mx' & -> & Hmx).
    destruct (shl_align_ok my ey (Z.min ex ey)) as (my' & -> & Hmy). cbn [fst cond_Zopp].
    destruct (round_ok (Zpos mx' + Zpos my') (Z.min ex ey)) as [Hc Hv]; [lia|lia|]. split; [exact Hc|].
    rewrite Hv. do 2 f_equal. simpl fval. rewrite Hmx, Hmy, Z.mul_add_distr_r, <-!Z.mul_assoc, <-!Z.pow_add_r by lia.
    do 2 f_equal; f_equal; lia.
Qed.

Lemma fcompare_val x y :
  costf x = true → costf y = true → SFcompare x y = Some (fval x ?= fval y).
Proof.
  intros Hx Hy. pose proof (fval_bounds x Hx) as Bx. pose proof (fval_bounds y Hy) as By.
  destruct x as [sx|[]| |[] mx ex]; try discriminate Hx; destruct y as [sy|[]| |[] my ey]; try discriminate Hy;
    try done; simpl SFcompare; simpl in Hx, Hy; f_equal.
  - symmetry. apply Z.compare_lt_iff. apply bounded_inv in Hy as (Hey & _). simpl.
    pose proof (Z.pow_pos_nonneg 2 (ey + 149) ltac:(lia) ltac:(lia)). lia.
  - symmetry. apply Z.compare_gt_iff. apply bounded_inv in Hy as (Hey & Hmy & _). simpl fval.
    assert (2 ^ (ey + 149) <= 2 ^ 253) by (apply Z.pow_le_mono_r; lia).
    pose proof (Z.pow_pos_nonneg 2 (ey + 149) ltac:(lia) ltac:(lia)). change (2 ^ 277) with (2 ^ 24 * 2 ^ 253). nia.
  - symmetry. apply Z.compare_gt_iff. apply bounded_inv in Hx as (Hex & _). simpl.
    pose proof (Z.pow_pos_nonneg 2 (ex + 149) ltac:(lia) ltac:(lia)). lia.
  - symmetry. apply Z.compare_lt_iff. apply bounded_inv in Hx as (Hex & Hmx & _). simpl fval.
    assert (2 ^ (ex + 149) <= 2 ^ 253) by (apply Z.pow_le_mono_r; lia).
    pose proof (Z.pow_pos_nonneg 2 (ex + 149) ltac:(lia) ltac:(lia)). change (2 ^ 277) with (2 ^ 24 * 2 ^ 253). nia.
  - apply bounded_inv in Hx as (Hex & Hmx & Hnx), Hy as (Hey & Hmy & Hny). simpl fval.
    pose proof (Z.pow_pos_nonneg 2 (ex + 149) ltac:(lia) ltac:(lia)).
    pose proof (Z.pow_pos_nonneg 2 (ey + 149) ltac:(lia) ltac:(lia)).
    assert (∀ a b, a < b → -149 <= a → 2 * 2 ^ (a + 149) <= 2 ^ (b + 149)) as Hlt.
    { intros a b Hab Ha. rewrite <-Z.pow_succ_r by lia. apply Z.pow_le_mono_r; lia. }
    destruct (Z.compare_spec ex ey) as [->|Hl|Hl].
    + change (Pos.compare_cont Eq mx my) with (Pos.compare mx my).
      destruct (Pos.compare_spec mx my) as [->|Hl|Hl]; symmetry;
        [apply Z.compare_refl|apply Z.compare_lt_iff; nia|apply Z.compare_gt_iff; nia].
    + symmetry. apply Z.compare_lt_iff. specialize (Hlt ex ey Hl ltac:(lia)). specialize (Hny ltac:(lia)). nia.
    + symmetry. apply Z.compare_gt_iff. specialize (Hlt ey ex Hl ltac:(lia)). specialize (Hnx ltac:(lia)). nia.
Qed.

Lemma fleb_val x y : costf x = true → costf y = true → fleb x y = (fval x <=? fval y).
Proof. intros. unfold fleb, SFleb. rewrite fcompare_val by done. unfold Z.leb. by destruct (_ ?= _). Qed.

Lemma fltb_val x y : costf x = true → costf y = true → fltb x y = (fval x <? fval y).
Proof. intros. unfold fltb, SFltb. rewrite fcompare_val by done. unfold Z.ltb. by destruct (_ ?= _). Qed.

(** The three facts the searches need of addition. *)
Lemma fadd_costf x y : costf x = true → costf y = true → costf (fadd x y) = true.
Proof. intros. by apply fadd_val. Qed.

Lemma fadd_grows x y : costf x = true → costf y = true → fval x <= fval (fadd x y).
Proof.
  intros Hx Hy. destruct (fadd_val x y Hx Hy) as [_ ->]. pose proof (fval_bounds x Hx). pose proof (fval_bounds y Hy).
  assert (fval x <= rnd (fval x + fval y)); [|lia]. rewrite <-(rnd_fval x Hx) at 1. apply rnd_mono. lia.
Qed.

Lemma fadd_mono x x' y :
  costf x = true → costf x' = true → costf y = true → fval x <= fval x' → fval (fadd x y) <= fval (fadd x' y).
Proof.
  intros Hx Hx' Hy Hle. destruct (fadd_val x y Hx Hy) as [_ ->]. destruct (fadd_val x' y Hx' Hy) as [_ ->].
  pose proof (fval_bounds x Hx). pose proof (fval_bounds y Hy).
  pose proof (rnd_mono (fval x + fval y) (fval x' + fval y)). lia.
Qed.

(** A product of costs is a cost, unless it is zero times infinity. *)
Lemma fmul_costf x m e :
  costf x = true → costf (S754_finite false m e) = true → costf (fmul x (S754_finite false m e)) = true.
Proof.
  intros Hx Hy. destruct x as [sx|[]| |[] mx ex]; try discriminate Hx; try done; simpl in Hx, Hy |- *.
  apply bounded_inv in Hx as (Hex & Hmx & Hnx), Hy as (Hey & Hmy & Hny).
  apply round_aux_ok; [lia|]. unfold rexp. rewrite fexp32_eq. destruct (decide (ex + e <= -149)); [lia|].
  assert (23 <= Z.log2 (Zpos (mx * m))); [|lia]. apply Z.log2_le_pow2; [lia|].
  rewrite Pos2Z.inj_mul. destruct (decide (-149 < ex)); [specialize (Hnx ltac:(done)); nia|].
  specialize (Hny ltac:(lia)). nia.
Qed.

Lemma f_of_Z_costf z : 0 <= z → costf (f_of_Z z) = true ∧ fval (f_of_Z z) = Z.min (rnd (z * 2 ^ 149)) (2 ^ 277).
Proof.
  intros Hz. destruct (decide (z = 0)) as [->|]; [done|]. unfold f_of_Z. apply round_ok; lia.
Qed.

(** ** Values that are not a NaN *)

Definition is_finite (x : float) : bool :=
  match x with S754_zero _ | S754_finite _ _ _ => true | _ => false end.

Lemma costf_finite x : costf x = true → fval x < 2 ^ 277 → is_finite x = true.
Proof. destruct x; simpl; try done; lia. Qed.

Lemma f_of_Z_finite z : 0 <= z < 2 ^ 31 → is_finite (f_of_Z z) = true.
Proof.
  intros Hz. destruct (f_of_Z_costf z) as [Hc Hv]; [lia|]. apply costf_finite; [done|]. rewrite Hv.
  assert (rnd (z * 2 ^ 149) <= rnd (2 ^ 31 * 2 ^ 149)) by (apply rnd_mono; lia).
  change (rnd (2 ^ 31 * 2 ^ 149)) with (2 ^ 180) in *. lia.
Qed.

Lemma binary_round_aux_not_nan s m e : 0 < m → is_nan (binary_round_aux 24 128 s m e loc_Exact) = false.
Proof.
  intros Hm. unfold binary_round_aux.
  assert (∀ m e, 0 <= m → ∃ mrs e', shr_fexp 24 128 m e loc_Exact = (mrs, e') ∧ 0 <= shr_m mrs ∧
    0 <= round_nearest_even (shr_m mrs) (loc_of_shr_record mrs)) as Hshr.
  { intros m' e' Hm'. unfold shr_fexp. set (n := _ - e'). destruct (decide (0 <= n)) as [Hn|Hn].
    - destruct (shr_rne m' e' n Hm' Hn) as (mrs & Hs & Hr & Hq). exists mrs, (e' + n). split; [exact Hs|].
      rewrite Hr, Hq. assert (0 <= m' / 2 ^ n) by (apply Z.div_pos; [lia|apply Z.pow_pos_nonneg; lia]).
      pose proof (rne_bounds m' n Hn). lia.
    - rewrite shr_nothing by lia. eexists _, _. split; [done|]. simpl. lia. }
  destruct (Hshr m e) as (mrs & e' & -> & _ & Hr); [lia|]. cbv beta iota.
  destruct (Hshr _ e' Hr) as (mrs2 & e2 & -> & Hq & _). cbv beta iota.
  destruct (shr_m mrs2) eqn:E; [done|by case_match|lia].
Qed.

Lemma binary_normalize_not_nan m e : is_nan (binary_normalize 24 128 m e false) = false.
Proof.
  destruct m as [|m|m]; [done| |]; simpl; unfold binary_round; case_match; by apply binary_round_aux_not_nan.
Qed.

Lemma fadd_not_nan x y : is_finite x = true → is_nan y = false → is_nan (fadd x y) = false.
Proof.
  destruct x as [sx|sx| |sx mx ex], y as [sy|sy| |sy my ey]; try done; intros _ _.
  - by destruct sx, sy.
  - apply binary_normalize_not_nan.
Qed.

Lemma fsub_not_nan x y : is_finite x = true → is_nan y = false → is_nan (fsub x y) = false.
Proof.
  destruct x as [sx|sx| |sx mx ex], y as [sy|sy| |sy my ey]; try done; intros _ _.
  - by destruct sx, sy.
  - apply binary_normalize_not_nan.
Qed.

Lemma fmul_not_nan x y : is_finite x = true → is_finite y = true → is_nan (fmul x y) = false.
Proof.
  destruct x as [sx|sx| |sx mx ex], y as [sy|sy| |sy my ey]; try done; intros _ _.
  by apply binary_round_aux_not_nan.
Qed.

#[export] Hint Resolve costf_not_nan fadd_costf fmul_costf fadd_not_nan fsub_not_nan fmul_not_nan : circuit.

(** ** Differences and scaled integers, for the distance estimate *)

(** Mantissas brought to the same exponent are ordered like the values. *)
Lemma aligned_le mx ex my ey mx' my' :
  -149 <= ex <= 104 → -149 <= ey <= 104 →
  Zpos mx' = Zpos mx * 2 ^ (ex - Z.min ex (Z.min ex ey)) → Zpos my' = Zpos my * 2 ^ (ey - Z.min ey (Z.min ex ey)) →
  fval (S754_finite false my ey) <= fval (S754_finite false mx ex) → Zpos my' <= Zpos mx'.
Proof.
  intros Hex Hey Hmx Hmy Hle.
  replace (Z.min ex (Z.min ex ey)) with (Z.min ex ey) in Hmx by lia.
  replace (Z.min ey (Z.min ex ey)) with (Z.min ex ey) in Hmy by lia. simpl fval in Hle.
  apply (Zmult_le_reg_r _ _ (2 ^ (Z.min ex ey + 149))); [apply Z.lt_gt, Z.pow_pos_nonneg; lia|].
  rewrite Hmx, Hmy, <-!Z.mul_assoc, <-!Z.pow_add_r by lia.
  replace (ey - Z.min ex ey + (Z.min ex ey + 149)) with (ey + 149) by lia.
  by replace (ex - Z.min ex ey + (Z.min ex ey + 149)) with (ex + 149) by lia.
Qed.

Lemma fsub_val x y :
  costf x = true → costf y = true → is_finite x = true → fval y <= fval x →
  costf (fsub x y) = true ∧ fval (fsub x y) = Z.min (rnd (fval x - fval y)) (2 ^ 277).
Proof.
  intros Hx Hy Hf Hle. pose proof (fval_bounds y Hy) as By. pose proof (fval_bounds x Hx) as Bx.
  pose proof (rnd_fval x Hx) as Rx.
  destruct x as [sx|[]| |[] mx ex]; try discriminate Hx; try discriminate Hf;
    destruct y as [sy|[]| |[] my ey]; try discriminate Hy; try done; simpl in Hx, Hy.
  - by destruct sx, sy.
  - apply bounded_inv in Hy as (Hey & _). simpl in Hle.
    pose proof (Z.pow_pos_nonneg 2 (ey + 149) ltac:(lia) ltac:(lia)). lia.
  - change (fsub _ _) with (S754_finite false mx ex). change (fval (S754_zero sy)) with 0 in *.
    split; [done|]. rewrite Z.sub_0_r, Rx. lia.
  - apply bounded_inv in Hx as (Hex & Hmx & _). simpl fval in Hle.
    assert (2 ^ (ex + 149) <= 2 ^ 253) by (apply Z.pow_le_mono_r; lia). change (2 ^ 277) with (2 ^ 24 * 2 ^ 253) in Hle.
    pose proof (Z.pow_pos_nonneg 2 (ex + 149) ltac:(lia) ltac:(lia)). nia.
  - apply bounded_inv in Hx as (Hex & _), Hy as (Hey & _). unfold fsub, SFsub.
    destruct (shl_align_ok mx ex (Z.min ex ey)) as (mx' & -> & Hmx).
    destruct (shl_align_ok my ey (Z.min ex ey)) as (my' & -> & Hmy). cbn [fst cond_Zopp].
    pose proof (aligned_le mx ex my ey mx' my' Hex Hey Hmx Hmy Hle).
    assert ((Zpos mx' - Zpos my') * 2 ^ (Z.min ex ey + 149) =
      fval (S754_finite false mx ex) - fval (S754_finite false my ey)) as <-.
    { simpl fval. rewrite Hmx, Hmy, Z.mul_sub_distr_r, <-!Z.mul_assoc, <-!Z.pow_add_r by lia.
      do 2 f_equal; f_equal; lia. }
    replace (Z.pos mx' + - Z.pos my') with (Zpos mx' - Zpos my') by lia.
    destruct (decide (Zpos mx' - Zpos my' = 0)) as [->|]; [done|]. apply round_ok; lia.
Qed.

Lemma fsub_costf x y :
  costf x = true → costf y = true → is_finite x = true → fval y <= fval x → costf (fsub x y) = true.
Proof. intros. by apply fsub_val. Qed.

(** Multiplying a positive integer by a factor below one does not increase it. *)
Lemma fmul_fraction_le c z :
  bounded 24 128 c (-24) = true → 0 <= z → costf (fmul (S754_finite false c (-24)) (f_of_Z z)) = true ∧
    fval (fmul (S754_finite false c (-24)) (f_of_Z z)) <= fval (f_of_Z z).
Proof.
  intros Hc Hz. destruct (f_of_Z_costf z Hz) as [Hf Hv]. destruct (decide (z = 0)) as [->|Hz0]; [by split|].
  assert (2 ^ 149 <= fval (f_of_Z z)) as Hlow.
  { rewrite Hv. assert (rnd (1 * 2 ^ 149) <= rnd (z * 2 ^ 149)) by (apply rnd_mono; lia).
    change (rnd (1 * 2 ^ 149)) with (2 ^ 149) in *. lia. }
  destruct (f_of_Z z) as [sx|[]| |[] m e] eqn:E; try discriminate Hf; [simpl in Hlow; lia|by split|].
  simpl in Hf. pose proof Hf as Hb. apply bounded_inv in Hb as (He & Hm & Hn). apply bounded_inv in Hc as (_ & Hc & _).
  simpl fval in Hlow. assert (-125 <= e) as He'.
  { destruct (decide (-125 <= e)); [done|]. assert (2 ^ (e + 149) <= 2 ^ 23) by (apply Z.pow_le_mono_r; lia).
    pose proof (Z.pow_pos_nonneg 2 (e + 149) ltac:(lia) ltac:(lia)).
    assert (Zpos m * 2 ^ (e + 149) <= 2 ^ 24 * 2 ^ 23) by (apply Z.mul_le_mono_nonneg; lia).
    assert (2 ^ 24 * 2 ^ 23 < 2 ^ 149) by done. lia. }
  assert (fmul (S754_finite false c (-24)) (S754_finite false m e) =
    binary_round_aux 24 128 false (Zpos (c * m)) (-24 + e) SpecFloat.loc_Exact) as -> by done.
  assert (2 ^ 23 <= Zpos m) as Hm23 by (apply Hn; lia).
  assert (-24 + e <= rexp (Zpos (c * m)) (-24 + e)) as Hre.
  { unfold rexp. rewrite fexp32_eq. assert (23 <= Z.log2 (Zpos (c * m))); [|lia].
    apply Z.log2_le_pow2; [lia|]. rewrite Pos2Z.inj_mul. nia. }
  destruct (round_aux_ok (Zpos (c * m)) (-24 + e)) as [Hcf ->]; [lia|done|]. split; [done|].
  set (r := rexp (Zpos (c * m)) (-24 + e)) in *.
  assert (rne (Zpos (c * m)) (r - (-24 + e)) * 2 ^ (r + 149) = rnd (Zpos (c * m) * 2 ^ (-24 + e + 149))) as ->.
  { unfold rnd. assert (ulp (Zpos (c * m) * 2 ^ (-24 + e + 149)) = r + 149) as ->.
    { unfold ulp. rewrite Z.log2_mul_pow2 by lia. unfold r, rexp. rewrite fexp32_eq. lia. }
    f_equal. replace (r + 149) with (r - (-24 + e) + (-24 + e + 149)) by lia. by rewrite rne_scale by lia. }
  assert (rnd (Zpos (c * m) * 2 ^ (-24 + e + 149)) <= rnd (Zpos m * 2 ^ (e + 149))) as Hle.
  { apply rnd_mono. split; [apply Z.mul_nonneg_nonneg; [lia|apply Z.pow_nonneg; lia]|].
    replace (e + 149) with (24 + (-24 + e + 149)) by lia. rewrite (Z.pow_add_r 2 24) by lia.
    pose proof (Z.pow_pos_nonneg 2 (-24 + e + 149) ltac:(lia) ltac:(lia)). rewrite Pos2Z.inj_mul. nia. }
  rewrite (rnd_exact (Zpos m) (e + 149)) in Hle by lia. simpl fval. lia.
Qed.

(** Zero plus a cost is that cost, unless it is the negative zero, which no difference yields. *)
Lemma fadd_0_l x : costf x = true → x ≠ S754_zero true → fadd f0 x = x.
Proof. destruct x as [[]|[]| |[] m e]; try done. Qed.

Lemma binary_normalize_sign m e : 0 <= m → binary_normalize 24 128 m e false ≠ S754_zero true.
Proof.
  intros Hm. destruct m as [|m|m]; [done| |lia]. simpl. unfold binary_round. destruct (shl_align m e _) as [m' e'].
  unfold binary_round_aux. destruct (shr_fexp 24 128 (Z.pos m') e' loc_Exact) as [r1 e1].
  destruct (shr_fexp 24 128 _ e1 loc_Exact) as [r2 e2]. destruct (shr_m r2); [done|by case_match|done].
Qed.

Lemma fsub_sign x y :
  costf x = true → costf y = true → x ≠ S754_zero true → is_finite x = true → fval y <= fval x →
  fsub x y ≠ S754_zero true.
Proof.
  intros Hx Hy Hnz Hf Hle. pose proof (fval_bounds y Hy) as By.
  destruct x as [[]|[]| |[] mx ex]; try discriminate Hx; try discriminate Hf; try done;
    destruct y as [[]|[]| |[] my ey]; try discriminate Hy; try done; simpl in Hx, Hy.
  apply bounded_inv in Hx as (Hex & _), Hy as (Hey & _). unfold fsub, SFsub.
  destruct (shl_align_ok mx ex (Z.min ex ey)) as (mx' & -> & Hmx).
  destruct (shl_align_ok my ey (Z.min ex ey)) as (my' & -> & Hmy). cbn [fst cond_Zopp].
  apply binary_normalize_sign.
  pose proof (aligned_le mx ex my ey mx' my' Hex Hey Hmx Hmy Hle). lia.
Qed.

Lemma f_of_Z_sign z : 0 <= z → f_of_Z z ≠ S754_zero true.
Proof. apply binary_normalize_sign. Qed.
