(* ===== verification/FloatDiv.v ===== *)
(** * FloatDiv: division, square root and truncation of non-negative [float] values

    A quotient or a square root is computed with the remainder summed up in a [location];
    what the program needs of the rounding is its monotonicity against representable values:
    a [float] that is not above the exact result is not above the rounded one, and the same
    the other way round.  Exact results, results in [0, 1] and truncations follow. *)

From Stdlib Require Import SpecFloat.
From S2P Require Import Prelude Float32 FloatRound.

(** Every [float] of the program is canonical; [numf] says that it is not a NaN either. *)
Definition numf (x : float) : bool :=
  match x with S754_finite _ m e => bounded 24 128 m e | S754_nan => false | _ => true end.

(** ** Rounding with a location *)

Definition locn (l : location) : Z :=
  match l with loc_Exact => 0 | loc_Inexact Lt => 1 | loc_Inexact Eq => 2 | loc_Inexact Gt => 3 end.

Lemma locn_shifted q l : 0 <= q → shifted (4 * q + locn l) 2 (shr_record_of_loc q l).
Proof.
  intros Hq. destruct l as [|[]]; [exists 0|exists 0|exists 1|exists 1]; simpl; split_and!; try lia; done.
Qed.

Lemma shr_loc q l e n :
  0 <= q → 0 <= n →
  ∃ mrs, shr (shr_record_of_loc q l) e n = (mrs, e + n) ∧
    round_nearest_even (shr_m mrs) (loc_of_shr_record mrs) = rne (4 * q + locn l) (n + 2).
Proof.
  intros Hq Hn. pose proof (locn_shifted q l Hq) as H0. destruct n as [|p|p]; [| |lia].
  - simpl. eexists. split; [by rewrite Z.add_0_r|]. exact (shifted_rne _ 2 _ H0).
  - simpl. eexists. split; [done|]. pose proof (iter_pos_shifted p _ _ _ H0) as Hs.
    rewrite (shifted_rne _ _ _ Hs). f_equal. lia.
Qed.

(** The exponent of the last bit that is kept. *)
Definition lexp (q e : Z) : Z := fexp32 (Zdigits2 q + e).

Lemma Zdigits2_spec q : 0 < q → 2 ^ (Zdigits2 q - 1) <= q < 2 ^ Zdigits2 q ∧ 1 <= Zdigits2 q.
Proof.
  intros Hq. rewrite Zdigits2_log2 by done. pose proof (Z.log2_spec q Hq). pose proof (Z.log2_nonneg q).
  replace (Z.log2 q + 1 - 1) with (Z.log2 q) by lia. by split; [|lia].
Qed.

Lemma rne_lexp q l e :
  0 <= q → e <= lexp q e → (q = 0 → e <= -149) →
  0 <= rne (4 * q + locn l) (lexp q e - e + 2) <= 2 ^ 24 ∧
  (-149 < lexp q e → 2 ^ 23 * 2 ^ (lexp q e - e) <= q ∧ 2 ^ 23 <= rne (4 * q + locn l) (lexp q e - e + 2)).
Proof.
  intros Hq He H0. set (n := lexp q e - e) in *. pose proof (Z.pow_pos_nonneg 2 n ltac:(lia) ltac:(lia)) as Hp.
  assert (0 <= locn l < 4) as Hl by (destruct l as [|[]]; simpl; lia).
  pose proof (rne_bounds (4 * q + locn l) (n + 2) ltac:(lia)) as Hb. rewrite Z.pow_add_r in Hb by lia.
  change (2 ^ 2) with 4 in Hb. rewrite (Z.mul_comm (2 ^ n) 4), <-Z.div_div in Hb by lia.
  replace ((4 * q + locn l) / 4) with q in Hb by (apply (Z.div_unique_pos _ _ _ (locn l)); lia).
  assert (0 <= q / 2 ^ n) by (apply Z.div_pos; lia).
  assert (q / 2 ^ n < 2 ^ 24 ∧ (-149 < lexp q e → 2 ^ 23 * 2 ^ n <= q)) as [Hu Hlow].
  { destruct (decide (q = 0)) as [->|Hq0].
    - rewrite Z.div_0_l by lia. split; [lia|]. unfold lexp. rewrite fexp32_eq. simpl. specialize (H0 eq_refl). lia.
    - destruct (Zdigits2_spec q ltac:(lia)) as [[Hd1 Hd2] Hd3]. split.
      + apply Z.div_lt_upper_bound; [done|]. rewrite <-Z.pow_add_r by lia. eapply Z.lt_le_trans; [exact Hd2|].
        apply Z.pow_le_mono_r; [lia|]. unfold n, lexp. rewrite fexp32_eq. lia.
      + intros Hx. rewrite <-Z.pow_add_r by lia. etrans; [|exact Hd1]. apply Z.pow_le_mono_r; [lia|].
        unfold n, lexp in *. rewrite fexp32_eq in *. lia. }
  split; [lia|]. intros Hx. specialize (Hlow Hx). split; [done|].
  assert (2 ^ 23 <= q / 2 ^ n); [|lia]. apply Z.div_le_lower_bound; lia.
Qed.

Lemma round_loc_ok q e l :
  0 <= q → e <= lexp q e → (q = 0 → e <= -149) →
  let x := binary_round_aux 24 128 false q e l in
  costf x = true ∧
  fval x = Z.min (rne (4 * q + locn l) (lexp q e - e + 2) * 2 ^ (lexp q e + 149)) (2 ^ 277).
Proof.
  intros Hq He H0. destruct (rne_lexp q l e Hq He H0) as [Hb Hn]. unfold binary_round_aux.
  destruct (shr_loc q l e (lexp q e - e)) as (mrs & Hs & Hr); [lia|lia|].
  assert (shr_fexp 24 128 q e l = (mrs, e + (lexp q e - e))) as ->.
  { rewrite <-Hs. unfold shr_fexp. by fold (lexp q e). }
  cbv beta iota. rewrite Hr. replace (e + (lexp q e - e)) with (lexp q e) by lia.
  assert (-149 <= lexp q e) as HE by (unfold lexp; rewrite fexp32_eq; lia).
  pose proof (carry_ok (rne (4 * q + locn l) (lexp q e - e + 2)) (lexp q e) Hb HE (λ H, proj2 (Hn H))) as Hc.
  destruct (shr_fexp 24 128 _ _ loc_Exact) as [mrs' e']. exact Hc.
Qed.

(** A [float] is a multiple of the last bit of [E], or it is smaller than every normal number there. *)
Lemma fval_grain c E :
  costf c = true → -149 <= E → fval c < 2 ^ 277 →
  (∃ c', fval c = c' * 2 ^ (E + 149)) ∨ -149 < E ∧ fval c < 2 ^ 23 * 2 ^ (E + 149).
Proof.
  intros Hc HE Hfin. destruct c as [s|[]| |[] m e]; try discriminate Hc; [left; by exists 0|simpl in Hfin; lia|].
  simpl in Hc |- *. apply bounded_inv in Hc as (He & Hm & _). destruct (decide (E <= e)) as [Hle|Hgt].
  - left. exists (Zpos m * 2 ^ (e - E)). rewrite <-Z.mul_assoc, <-Z.pow_add_r by lia. do 2 f_equal. lia.
  - right. split; [lia|]. pose proof (Z.pow_pos_nonneg 2 (e + 149) ltac:(lia) ltac:(lia)).
    assert (2 * 2 ^ (e + 149) <= 2 ^ (E + 149)); [|nia]. rewrite <-Z.pow_succ_r by lia. apply Z.pow_le_mono_r; lia.
Qed.

Section compare.
Context (q e : Z) (l : location) (c : float).
Hypothesis Hq : 0 <= q.
Hypothesis He : e <= lexp q e.
Hypothesis H0 : q = 0 → e <= -149.
Hypothesis Hc : costf c = true.
Hypothesis Hfin : fval c < 2 ^ 277.

Abbreviation x := (binary_round_aux 24 128 false q e l).
Abbreviation k := (lexp q e - e).
Abbreviation U := (2 ^ (lexp q e + 149)).

Lemma lexp_ge : -149 <= lexp q e.
Proof. unfold lexp. rewrite fexp32_eq. lia. Qed.
Lemma U_pos : 0 < U.
Proof. pose proof lexp_ge. apply Z.pow_pos_nonneg; lia. Qed.

Lemma round_loc_ge : (∀ c', fval c = c' * U → c' * 2 ^ k <= q) → fval c <= fval x.
Proof.
  intros Hm. destruct (round_loc_ok q e l Hq He H0) as [_ ->]. destruct (rne_lexp q l e Hq He H0) as [Hb Hn].
  pose proof lexp_ge as HE. pose proof U_pos as HU.
  destruct (fval_grain c (lexp q e) Hc HE Hfin) as [[c' Hc']|[HE' Hlt]].
  - specialize (Hm c' Hc'). assert (c' <= rne (4 * q + locn l) (k + 2)); [|rewrite Hc' in *; nia].
    assert (0 <= locn l) by (destruct l as [|[]]; simpl; lia).
    rewrite <-(rne_exact c' (k + 2)) by lia. apply rne_mono; [lia|]. rewrite Z.pow_add_r by lia. change (2 ^ 2) with 4. lia.
  - destruct (Hn HE') as [_ Hr]. nia.
Qed.

Lemma round_loc_le :
  q * U <= fval c * 2 ^ k → (∀ c', fval c = c' * U → l ≠ loc_Exact → q < c' * 2 ^ k) → fval x <= fval c.
Proof.
  intros Hle Hm. destruct (round_loc_ok q e l Hq He H0) as [_ ->]. destruct (rne_lexp q l e Hq He H0) as [Hb Hn].
  pose proof lexp_ge as HE. pose proof U_pos as HU.
  pose proof (Z.pow_pos_nonneg 2 k ltac:(lia) ltac:(lia)) as Hk.
  destruct (fval_grain c (lexp q e) Hc HE Hfin) as [[c' Hc']|[HE' Hlt]].
  - assert (rne (4 * q + locn l) (k + 2) <= c'); [|rewrite Hc' in *; nia].
    rewrite <-(rne_exact c' (k + 2)) by lia. apply rne_mono; [lia|]. rewrite Z.pow_add_r by lia. change (2 ^ 2) with 4.
    assert (q <= c' * 2 ^ k) by (rewrite Hc' in Hle; nia). specialize (Hm c' Hc').
    destruct l as [|[]]; simpl locn; [lia|specialize (Hm ltac:(done)); lia..].
  - destruct (Hn HE') as [Hr _]. exfalso. assert (2 ^ 23 * 2 ^ k * U <= q * U) by nia.
    assert (fval c * 2 ^ k < 2 ^ 23 * U * 2 ^ k) by nia. lia.
Qed.
End compare.

(** ** Division *)

Lemma new_location_exact d r : new_location d r = loc_Exact ↔ r = 0.
Proof.
  unfold new_location, new_location_even, new_location_odd. destruct (Z.even d), (Z.eqb_spec r 0); split; done.
Qed.

Lemma shift_mul m s : 0 <= s → match s with Zpos _ => Z.shiftl m s | Z0 => m | Zneg _ => 0 end = m * 2 ^ s.
Proof. intros Hs. destruct s; [by rewrite Z.mul_1_r|by rewrite Z.shiftl_mul_pow2|lia]. Qed.

(** The quotient of two finite positive values, before the rounding. *)
Lemma div_core_ok mx ex my ey :
  let '(q, e, l) := SFdiv_core_binary 24 128 (Zpos mx) ex (Zpos my) ey in
  ∃ s r, 0 <= s ∧ s = ex - ey - e ∧ Zpos mx * 2 ^ s = Zpos my * q + r ∧ 0 <= r < Zpos my ∧ 0 <= q ∧
    (l = loc_Exact ↔ r = 0) ∧ e <= lexp q e ∧ (q = 0 → e <= -149).
Proof.
  unfold SFdiv_core_binary. set (e := Z.min _ _). assert (0 <= ex - ey - e) as Hs by lia.
  rewrite shift_mul by done. set (s := ex - ey - e) in *.
  pose proof (Z_div_mod (Zpos mx * 2 ^ s) (Zpos my) ltac:(lia)) as Hdm.
  destruct (Z.div_eucl (Zpos mx * 2 ^ s) (Zpos my)) as [q r]. destruct Hdm as [Hdm Hr].
  pose proof (Z.pow_pos_nonneg 2 s ltac:(lia) Hs) as Hps. assert (0 <= q) as Hq by nia.
  assert (e <= -149 ∨ 0 < q ∧ 24 <= Zdigits2 q) as Hbig.
  { destruct (Z.le_gt_cases e (-149)) as [|He]; [by left|right].
    destruct (Zdigits2_spec (Zpos mx) ltac:(lia)) as [[Hx1 _] Hx3], (Zdigits2_spec (Zpos my) ltac:(lia)) as [[_ Hy2] Hy3].
    set (dx := Zdigits2 (Zpos mx)) in *. set (dy := Zdigits2 (Zpos my)) in *.
    assert (24 <= dx + s - dy) as Hds by (unfold s, e in *; rewrite fexp32_eq in *; lia).
    assert (2 ^ (dx + s - dy - 1) <= q) as Hql.
    { assert (2 ^ (dx + s - dy - 1) * 2 ^ dy <= Zpos mx * 2 ^ s) as Hm.
      { rewrite <-Z.pow_add_r by lia. replace (dx + s - dy - 1 + dy) with (dx - 1 + s) by lia. rewrite Z.pow_add_r by lia. nia. }
      assert (2 ^ (dx + s - dy - 1) < q + 1); [|lia].
      pose proof (Z.pow_pos_nonneg 2 (dx + s - dy - 1) ltac:(lia) ltac:(lia)). nia. }
    assert (2 ^ 23 <= 2 ^ (dx + s - dy - 1)) by (apply Z.pow_le_mono_r; lia). split; [lia|].
    rewrite Zdigits2_log2 by lia. assert (23 <= Z.log2 q); [|lia]. apply Z.log2_le_pow2; lia. }
  exists s, r. split_and!; try done; try lia.
  - apply new_location_exact.
  - unfold lexp. rewrite fexp32_eq. lia.
Qed.

Section division.
Context (x y : float).
Hypothesis Hx : costf x = true.
Hypothesis Hy : costf y = true.
Hypothesis Hxf : fval x < 2 ^ 277.
Hypothesis Hyf : 0 < fval y < 2 ^ 277.

Lemma fdiv_costf : costf (fdiv x y) = true.
Proof.
  destruct x as [sx|[]| |[] mx ex]; try discriminate Hx; destruct y as [sy|[]| |[] my ey]; try discriminate Hy;
    try done; try (simpl in Hxf, Hyf; lia).
  unfold fdiv, SFdiv. pose proof (div_core_ok mx ex my ey) as Hcore.
  destruct (SFdiv_core_binary 24 128 (Zpos mx) ex (Zpos my) ey) as [[q e] l].
  destruct Hcore as (s & r & _ & _ & _ & _ & Hq & _ & He & H0). simpl xorb. by apply round_loc_ok.
Qed.

Context (c : float).
Hypothesis Hc : costf c = true.
Hypothesis Hcf : fval c < 2 ^ 277.

(** What [c] is not above, or not below, the exact quotient means for the integers. *)
Lemma fdiv_cases :
  (fval c * fval y <= fval x * 2 ^ 149 → fval c <= fval (fdiv x y)) ∧
  (fval x * 2 ^ 149 <= fval c * fval y → fval (fdiv x y) <= fval c).
Proof.
  pose proof (fval_bounds c Hc) as Bc.
  destruct x as [sx|[]| |[] mx ex]; try discriminate Hx; destruct y as [sy|[]| |[] my ey]; try discriminate Hy;
    try (simpl in Hxf, Hyf; lia).
  { change (fdiv _ _) with (S754_zero (xorb sx false)). change (fval (S754_zero _)) with 0 in *. split; [nia|lia]. }
  unfold fdiv, SFdiv. pose proof (div_core_ok mx ex my ey) as Hcore.
  destruct (SFdiv_core_binary 24 128 (Zpos mx) ex (Zpos my) ey) as [[q e] l].
  destruct Hcore as (s & r & Hs & Hse & Hdm & Hr & Hq & Hl & He & H0). simpl xorb.
  set (k := lexp q e - e). pose proof (U_pos q e) as HU. pose proof (lexp_ge q e) as HE.
  pose proof (Z.pow_pos_nonneg 2 k ltac:(lia) ltac:(lia)) as Hk.
  change (fval (S754_finite false mx ex)) with (Zpos mx * 2 ^ (ex + 149)).
  change (fval (S754_finite false my ey)) with (Zpos my * 2 ^ (ey + 149)).
  simpl in Hx, Hy. apply bounded_inv in Hx as (Hex & _), Hy as (Hey & _).
  pose proof (Z.pow_pos_nonneg 2 (ey + 149) ltac:(lia) ltac:(lia)) as Hpy.
  (* both sides of the comparison, scaled to the last bit of the result *)
  assert (Zpos mx * 2 ^ (ex + 149) * 2 ^ 149 * 2 ^ k = Zpos mx * 2 ^ s * 2 ^ (lexp q e + 149) * 2 ^ (ey + 149)) as Hscale.
  { rewrite <-!Z.mul_assoc, <-!Z.pow_add_r by lia. do 2 f_equal. unfold k. lia. }
  set (X := Zpos mx * 2 ^ (ex + 149) * 2 ^ 149) in *. set (U := 2 ^ (lexp q e + 149)) in *.
  split; intros Hle.
  - apply round_loc_ge; try done. fold U k. intros c' Hc'.
    assert (fval c * Zpos my * 2 ^ k <= Zpos mx * 2 ^ s * U) as Hle2 by nia.
    rewrite Hc', Hdm in Hle2. assert (c' * 2 ^ k * Zpos my <= Zpos my * q + r) by nia. nia.
  - assert (Zpos mx * 2 ^ s * U <= fval c * Zpos my * 2 ^ k) as Hle2 by nia. rewrite Hdm in Hle2.
    apply round_loc_le; try done; fold U k.
    + nia.
    + intros c' Hc' Hne. assert (r ≠ 0) by (intros ?; by apply Hne, Hl).
      rewrite Hc' in Hle2. assert (Zpos my * q + r <= c' * 2 ^ k * Zpos my) by nia. nia.
Qed.
End division.

Lemma fdiv_inf_costf x y : costf x = true → costf y = true → 0 < fval y < 2 ^ 277 → costf (fdiv x y) = true.
Proof.
  intros Hx Hy Hyf. pose proof (fval_bounds x Hx). destruct (decide (fval x < 2 ^ 277)) as [?|Hinf]; [by apply fdiv_costf|].
  destruct x as [sx|[]| |[] m e]; try discriminate Hx; [by exfalso; apply Hinf| |].
  - destruct y as [sy|[]| |[] my ey]; try discriminate Hy; try done; simpl in Hyf; lia.
  - exfalso. apply Hinf. simpl in Hx |- *. apply bounded_inv in Hx as (He & Hm & _).
    assert (2 ^ (e + 149) <= 2 ^ 253) by (apply Z.pow_le_mono_r; lia).
    pose proof (Z.pow_pos_nonneg 2 (e + 149) ltac:(lia) ltac:(lia)). change (2 ^ 277) with (2 ^ 24 * 2 ^ 253). nia.
Qed.

(** A quotient that is at most one. *)
Lemma fdiv_le_one x y :
  costf x = true → costf y = true → 0 < fval y < 2 ^ 277 → fval x <= fval y →
  costf (fdiv x y) = true ∧ fval (fdiv x y) <= fval f1.
Proof.
  intros Hx Hy Hyf Hle. split; [apply fdiv_inf_costf; done|].
  apply (proj2 (fdiv_cases x y Hx Hy ltac:(lia) Hyf f1 ltac:(done) ltac:(done))). change (fval f1) with (2 ^ 149). lia.
Qed.

Lemma fmul_comm x y : fmul x y = fmul y x.
Proof.
  destruct x as [sx|sx| |sx mx ex], y as [sy|sy| |sy my ey]; try done; try (by destruct sx, sy).
  unfold fmul, SFmul. by rewrite xorb_comm, Pos.mul_comm, Z.add_comm.
Qed.

Lemma fmul_two_costf x : costf x = true → costf (fmul (f_of_Z 2) x) = true.
Proof. intros Hx. rewrite fmul_comm. by apply fmul_costf. Qed.

(** [std::max(x, eps)] with a positive [eps]. *)
Lemma fmax_costf x eps :
  costf eps = true → 0 < fval eps < 2 ^ 277 → is_finite x = true → numf x = true →
  costf (fmax x eps) = true ∧ 0 < fval (fmax x eps) < 2 ^ 277 ∧ (costf x = true → fval x <= fval (fmax x eps)).
Proof.
  intros He Hb Hf Hn. unfold fmax. destruct (fltb x eps) eqn:E.
  - split_and!; try done; try lia. intros Hx. rewrite fltb_val in E by done. lia.
  - assert (costf x = true) as Hx.
    { destruct x as [s|[]| |[] m e]; try done. destruct eps as [se|[]| |[] me ee]; try done; simpl in Hb; lia. }
    rewrite fltb_val in E by done. split_and!; try done; try lia.
    pose proof (fval_bounds x Hx). destruct x as [s|[]| |[] m e]; try done. simpl in Hx |- *. apply bounded_inv in Hx as (He' & Hm & _).
    assert (2 ^ (e + 149) <= 2 ^ 253) by (apply Z.pow_le_mono_r; lia).
    pose proof (Z.pow_pos_nonneg 2 (e + 149) ltac:(lia) ltac:(lia)). change (2 ^ 277) with (2 ^ 24 * 2 ^ 253). nia.
Qed.

(** ** Differences of signed values *)

(** The value of a finite [float] with its sign, in units of [2 ^ -149]. *)
Definition sval (x : float) : Z :=
  match x with S754_finite s m e => (if s then -1 else 1) * (Zpos m * 2 ^ (e + 149)) | _ => 0 end.

Lemma fleb_sval x y :
  numf x = true → numf y = true → is_finite x = true → is_finite y = true → fleb x y = true → sval x <= sval y.
Proof.
  assert (∀ m e, bounded 24 128 m e = true → 0 < Zpos m * 2 ^ (e + 149)) as Hpos.
  { intros m e (He & _)%bounded_inv. pose proof (Z.pow_pos_nonneg 2 (e + 149) ltac:(lia) ltac:(lia)). lia. }
  intros Hx Hy Hfx Hfy Hle.
  destruct x as [sx|sx| |[] mx ex]; try done; destruct y as [sy|sy| |[] my ey]; try done; simpl in Hx, Hy; simpl sval;
    try (specialize (Hpos mx ex Hx) as ?); try (specialize (Hpos my ey Hy) as ?); try lia.
  - pose proof (fleb_val (S754_finite false my ey) (S754_finite false mx ex) Hy Hx) as Hv. simpl fval in Hv.
    assert (fleb (S754_finite false my ey) (S754_finite false mx ex) = true) as Hle'; [|rewrite Hle' in Hv; lia].
    unfold fleb, SFleb in *. simpl in *. rewrite (Z.compare_antisym ex ey). destruct (ex ?= ey); simpl in *; try done.
    change (Pos.compare_cont Eq my mx) with (Pos.compare my mx). rewrite (Pos.compare_antisym mx my).
    change (Pos.compare_cont Eq mx my) with (Pos.compare mx my) in Hle. by destruct (Pos.compare mx my).
  - pose proof (fleb_val (S754_finite false mx ex) (S754_finite false my ey) Hx Hy) as Hv. rewrite Hle in Hv. simpl fval in Hv. lia.
Qed.

Lemma fsub_sval x y :
  numf x = true → numf y = true → is_finite x = true → is_finite y = true → sval y <= sval x →
  costf (fsub x y) = true ∧ fval (fsub x y) = Z.min (rnd (sval x - sval y)) (2 ^ 277).
Proof.
  intros Hx Hy Hfx Hfy Hle.
  destruct x as [sx|sx| |sx mx ex]; try done; destruct y as [sy|sy| |sy my ey]; try done; simpl in Hx, Hy.
  - split; [by destruct sx, sy|]. by destruct sx, sy.
  - assert (sy = true) as ->.
    { destruct sy; [done|]. apply bounded_inv in Hy as (He & _). simpl in Hle.
      pose proof (Z.pow_pos_nonneg 2 (ey + 149) ltac:(lia) ltac:(lia)). lia. }
    change (fsub _ _) with (S754_finite false my ey). pose proof (rnd_fval (S754_finite false my ey) Hy) as Hr.
    pose proof (fval_bounds (S754_finite false my ey) Hy). split; [done|].
    replace (sval (S754_zero sx) - sval (S754_finite true my ey)) with (fval (S754_finite false my ey)) by (simpl; lia). rewrite Hr. lia.
  - assert (sx = false) as ->.
    { destruct sx; [|done]. apply bounded_inv in Hx as (He & _). simpl in Hle.
      pose proof (Z.pow_pos_nonneg 2 (ex + 149) ltac:(lia) ltac:(lia)). lia. }
    change (fsub _ _) with (S754_finite false mx ex). pose proof (rnd_fval (S754_finite false mx ex) Hx) as Hr.
    pose proof (fval_bounds (S754_finite false mx ex) Hx). split; [done|].
    replace (sval (S754_finite false mx ex) - sval (S754_zero sy)) with (fval (S754_finite false mx ex)) by (simpl; lia). rewrite Hr. lia.
  - apply bounded_inv in Hx as (Hex & _), Hy as (Hey & _). unfold fsub, SFsub.
    destruct (shl_align_ok mx ex (Z.min ex ey)) as (mx' & -> & Hmx).
    destruct (shl_align_ok my ey (Z.min ex ey)) as (my' & -> & Hmy). cbn [fst].
    set (d := (if sx then -1 else 1) * Zpos mx' - (if sy then -1 else 1) * Zpos my').
    assert (d * 2 ^ (Z.min ex ey + 149) = sval (S754_finite sx mx ex) - sval (S754_finite sy my ey)) as Hd.
    { unfold d, sval. rewrite Hmx, Hmy, Z.mul_sub_distr_r, <-!Z.mul_assoc, <-!Z.pow_add_r by lia.
      replace (ex - Z.min ex (Z.min ex ey) + (Z.min ex ey + 149)) with (ex + 149) by lia.
      by replace (ey - Z.min ey (Z.min ex ey) + (Z.min ex ey + 149)) with (ey + 149) by lia. }
    assert (0 <= d) as Hd0.
    { pose proof (Z.pow_pos_nonneg 2 (Z.min ex ey + 149) ltac:(lia) ltac:(lia)). nia. }
    rewrite <-Hd. destruct (decide (d = 0)) as [E|Hne].
    + assert (binary_normalize 24 128 d (Z.min ex ey) false = S754_zero false) as Hz by by rewrite E.
      replace (cond_Zopp sx (Zpos mx') - cond_Zopp sy (Zpos my')) with d by (unfold d, cond_Zopp; destruct sx, sy; simpl; lia).
      rewrite Hz, E. by split.
    + replace (cond_Zopp sx (Zpos mx') - cond_Zopp sy (Zpos my')) with d by (unfold d, cond_Zopp; destruct sx, sy; simpl; lia).
      apply round_ok; lia.
Qed.

(** ** Square root *)

Lemma sqrt_core_ok m e :
  bounded 24 128 m e = true →
  let '(q, e', l) := SFsqrt_core_binary 24 128 (Zpos m) e in
  ∃ s r, 0 <= s ∧ s = e - 2 * e' ∧ Zpos m * 2 ^ s = q * q + r ∧ 0 <= r <= 2 * q ∧ 0 < q ∧
    (l ≠ loc_Exact → 0 < r) ∧ e' <= lexp q e'.
Proof.
  intros (He & Hm & _)%bounded_inv. unfold SFsqrt_core_binary. rewrite !Z.div2_div. set (e' := Z.min _ _).
  assert (0 <= e - 2 * e') as Hs by (unfold e'; dlia). rewrite shift_mul by done. set (s := e - 2 * e') in *.
  pose proof (Z.sqrtrem_spec (Zpos m * 2 ^ s) ltac:(apply Z.mul_nonneg_nonneg; [lia|apply Z.pow_nonneg; lia])) as Hsr.
  destruct (Z.sqrtrem (Zpos m * 2 ^ s)) as [q r]. destruct Hsr as [Hsr Hr].
  pose proof (Z.pow_pos_nonneg 2 s ltac:(lia) Hs) as Hps. assert (0 < q) as Hq by nia.
  exists s, r. split_and!; try done; try lia.
  - intros Hl. destruct (Z.eqb_spec r 0); [done|lia].
  - unfold lexp. rewrite fexp32_eq. destruct (Z.le_gt_cases e' (-149)); [lia|].
    destruct (Zdigits2_spec (Zpos m) ltac:(lia)) as [[Hm1 _] Hm3]. set (d := Zdigits2 (Zpos m)) in *.
    assert (46 <= d - 1 + s) as Hds by (unfold s, e' in *; rewrite fexp32_eq in *; dlia).
    assert (2 ^ 46 <= Zpos m * 2 ^ s) as Hbig.
    { etrans; [|apply Z.mul_le_mono_nonneg_r; [lia|exact Hm1]]. rewrite <-Z.pow_add_r by lia. apply Z.pow_le_mono_r; lia. }
    assert (2 ^ 23 <= q) as Hq23 by (change (2 ^ 46) with (2 ^ 23 * 2 ^ 23) in Hbig; nia).
    rewrite Zdigits2_log2 by lia. assert (23 <= Z.log2 q); [|lia]. apply Z.log2_le_pow2; lia.
Qed.

Section square_root.
Context (x c : float).
Hypothesis Hx : costf x = true.
Hypothesis Hxf : fval x < 2 ^ 277.
Hypothesis Hc : costf c = true.
Hypothesis Hcf : fval c < 2 ^ 277.

Lemma fsqrt_cases :
  costf (fsqrt x) = true ∧
  (fval c * fval c <= fval x * 2 ^ 149 → fval c <= fval (fsqrt x)) ∧
  (fval x * 2 ^ 149 <= fval c * fval c → fval (fsqrt x) <= fval c).
Proof.
  pose proof (fval_bounds c Hc) as Bc.
  destruct x as [sx|[]| |[] m e]; try discriminate Hx; [|simpl in Hxf; lia|].
  { change (fsqrt _) with (S754_zero sx). change (fval (S754_zero _)) with 0 in *. split; [done|]. split; [nia|lia]. }
  unfold fsqrt, SFsqrt. pose proof (sqrt_core_ok m e Hx) as Hcore.
  destruct (SFsqrt_core_binary 24 128 (Zpos m) e) as [[q e'] l].
  destruct Hcore as (s & r & Hs & Hse & Hsr & Hr & Hq & Hl & He').
  assert (0 <= q) as Hq0 by lia. assert (q = 0 → e' <= -149) as H0 by lia.
  split; [by apply round_loc_ok|]. set (k := lexp q e' - e').
  pose proof (U_pos q e') as HU. pose proof (lexp_ge q e') as HE.
  pose proof (Z.pow_pos_nonneg 2 k ltac:(lia) ltac:(lia)) as Hk. simpl in Hx. apply bounded_inv in Hx as (He & _).
  change (fval (S754_finite false m e)) with (Zpos m * 2 ^ (e + 149)).
  assert (Zpos m * 2 ^ (e + 149) * 2 ^ 149 * (2 ^ k * 2 ^ k) =
          Zpos m * 2 ^ s * (2 ^ (lexp q e' + 149) * 2 ^ (lexp q e' + 149))) as Hscale.
  { rewrite <-!Z.mul_assoc, <-!Z.pow_add_r by lia. do 2 f_equal. unfold k. lia. }
  set (X := Zpos m * 2 ^ (e + 149) * 2 ^ 149) in *. set (U := 2 ^ (lexp q e' + 149)) in *. rewrite Hsr in Hscale.
  split; intros Hle.
  - apply round_loc_ge; try done. fold U k. intros c' Hc'.
    assert (fval c * 2 ^ k * (fval c * 2 ^ k) <= (q * q + r) * (U * U)) as Hle2 by nia. rewrite Hc' in Hle2.
    set (a := c' * 2 ^ k) in *. replace (c' * U * 2 ^ k) with (a * U) in Hle2 by (unfold a; ring).
    assert (a * a <= q * q + r) by nia. nia.
  - assert ((q * q + r) * (U * U) <= fval c * 2 ^ k * (fval c * 2 ^ k)) as Hle2 by nia.
    apply round_loc_le; try done; fold U k; try lia.
    + assert (0 <= fval c * 2 ^ k) by nia. assert (q * U * (q * U) <= fval c * 2 ^ k * (fval c * 2 ^ k)) by nia. nia.
    + intros c' Hc' Hne. specialize (Hl Hne). rewrite Hc' in Hle2.
      set (a := c' * 2 ^ k) in *. replace (c' * U * 2 ^ k) with (a * U) in Hle2 by (unfold a; ring).
      assert (0 <= c') by nia. assert (0 <= a) by (unfold a; nia). assert (q * q + r <= a * a) by nia. nia.
Qed.
End square_root.

(** ** Truncation *)

Lemma f_to_int_val x : costf x = true → fval x < 2 ^ 31 * 2 ^ 149 → f_to_int x = Some (fval x / 2 ^ 149).
Proof.
  intros Hx Hf. assert (trunc_Z x = Some (fval x / 2 ^ 149)) as Ht.
  { destruct x as [sx|[]| |[] m e]; try discriminate Hx; [done| |].
    { exfalso. change (fval (S754_infinity false)) with (2 ^ 277) in Hf. change (2 ^ 277) with (2 ^ 128 * 2 ^ 149) in Hf. lia. }
    simpl in Hx. apply bounded_inv in Hx as (He & _). simpl trunc_Z.
    change (fval (S754_finite false m e)) with (Zpos m * 2 ^ (e + 149)). f_equal. case_decide as Hpos.
    - rewrite Z.shiftl_mul_pow2, Z.pow_add_r, Z.mul_assoc, Z.div_mul by lia. done.
    - rewrite Z.shiftr_div_pow2 by lia. replace 149 with (- e + (e + 149)) at 2 by lia. rewrite (Z.pow_add_r 2 (- e) (e + 149)) by lia.
      rewrite Z.div_mul_cancel_r; [done| |]; pose proof (Z.pow_pos_nonneg 2 (- e)); pose proof (Z.pow_pos_nonneg 2 (e + 149)); lia. }
  unfold f_to_int. rewrite Ht. cbn [mbind option_bind]. rewrite decide_True; [done|].
  pose proof (fval_bounds x Hx). assert (0 <= fval x / 2 ^ 149) by (apply Z.div_pos; lia).
  assert (fval x / 2 ^ 149 < 2 ^ 31) by (apply Z.div_lt_upper_bound; lia). unfold INT_MIN, INT_MAX. lia.
Qed.

(** A fraction [a / 2 ^ b] that fits 24 bits, as a [float]. *)
Lemma dyadic a b : 0 <= a < 2 ^ 24 → 0 <= b <= 100 → ∃ c, costf c = true ∧ fval c = a * 2 ^ (149 - b) ∧ fval c < 2 ^ 277.
Proof.
  intros Ha Hb. destruct (decide (a = 0)) as [->|]; [by exists f0|]. exists (binary_normalize 24 128 a (- b) false).
  destruct (round_ok a (- b)) as [Hc Hv]; [lia|lia|]. split; [done|]. rewrite Hv.
  replace (- b + 149) with (149 - b) by lia. rewrite rnd_exact by lia.
  assert (0 < 2 ^ (149 - b) <= 2 ^ 149) by (split; [apply Z.pow_pos_nonneg; lia|apply Z.pow_le_mono_r; lia]).
  change (2 ^ 277) with (2 ^ 128 * 2 ^ 149). nia.
Qed.

Lemma f_of_Z_val z : 0 <= z < 2 ^ 24 → costf (f_of_Z z) = true ∧ fval (f_of_Z z) = z * 2 ^ 149.
Proof.
  intros Hz. destruct (f_of_Z_costf z) as [Hc ->]; [lia|]. split; [done|]. rewrite rnd_exact by lia.
  change (2 ^ 277) with (2 ^ 128 * 2 ^ 149). lia.
Qed.

Lemma small_val x n : 0 <= n < 2 ^ 24 → fval x = n * 2 ^ 149 → fval x < 2 ^ 277.
Proof. intros Hn ->. change (2 ^ 277) with (2 ^ 128 * 2 ^ 149). lia. Qed.

(** ** Integers in [float]

    Products, differences and square roots of integers that fit 24 bits. *)

Lemma fmul_exact x y c :
  costf x = true → costf y = true → costf c = true →
  0 < fval x < 2 ^ 277 → 0 < fval y < 2 ^ 277 → fval c < 2 ^ 277 → fval c * 2 ^ 149 = fval x * fval y →
  costf (fmul x y) = true ∧ fval (fmul x y) = fval c.
Proof.
  intros Hx Hy Hc Hxf Hyf Hcf Heq.
  destruct x as [sx|[]| |[] mx ex]; try discriminate Hx; destruct y as [sy|[]| |[] my ey]; try discriminate Hy;
    try (simpl in Hxf, Hyf; lia).
  change (fval (S754_finite false mx ex)) with (Zpos mx * 2 ^ (ex + 149)) in *.
  change (fval (S754_finite false my ey)) with (Zpos my * 2 ^ (ey + 149)) in *.
  simpl in Hx, Hy. apply bounded_inv in Hx as (Hex & Hmx & Hnx), Hy as (Hey & Hmy & Hny).
  unfold fmul, SFmul. simpl xorb. set (q := Zpos (mx * my)). set (e := ex + ey).
  assert (e <= lexp q e) as He.
  { unfold lexp. rewrite fexp32_eq. destruct (decide (e <= -149)); [lia|].
    rewrite Zdigits2_log2 by lia. assert (23 <= Z.log2 q); [|lia]. apply Z.log2_le_pow2; [lia|]. unfold q.
    rewrite Pos2Z.inj_mul. destruct (decide (-149 < ex)); [specialize (Hnx ltac:(done)); nia|].
    specialize (Hny ltac:(lia)). nia. }
  assert (0 <= q) as Hq by lia. assert (q = 0 → e <= -149) as H0 by lia.
  pose proof (U_pos q e) as HU. pose proof (lexp_ge q e) as HE.
  pose proof (Z.pow_pos_nonneg 2 (lexp q e - e) ltac:(lia) ltac:(lia)) as Hk.
  assert (fval c * 2 ^ (lexp q e - e) = q * 2 ^ (lexp q e + 149)) as Hcq.
  { apply (Z.mul_cancel_r _ _ (2 ^ 149)); [done|].
    replace (fval c * 2 ^ (lexp q e - e) * 2 ^ 149) with (fval c * 2 ^ 149 * 2 ^ (lexp q e - e)) by ring.
    rewrite Heq. assert (q = Zpos mx * Zpos my) as -> by (unfold q; by rewrite Pos2Z.inj_mul).
    set (L := lexp _ e) in *. clearbody L. unfold e in *.
    transitivity (Z.pos mx * Z.pos my * (2 ^ (ex + 149) * 2 ^ (ey + 149) * 2 ^ (L - (ex + ey)))); [ring|].
    rewrite <-(Z.mul_assoc _ (2 ^ (L + 149)) (2 ^ 149)), <-!Z.pow_add_r by lia. f_equal. f_equal. lia. }
  split; [by apply round_loc_ok|]. apply Z.le_antisymm.
  - apply round_loc_le; try done. lia.
  - apply round_loc_ge; try done. intros c' Hc'. rewrite Hc' in Hcq. nia.
Qed.

Lemma f_of_Z_opp z : f_of_Z (- z) = SFopp (f_of_Z z) ∨ z = 0.
Proof.
  destruct z as [|p|p]; [by right|left..]; simpl; unfold f_of_Z, binary_normalize, binary_round;
    destruct (shl_align p 0 _) as [m e]; unfold binary_round_aux; destruct (shr_fexp 24 128 (Zpos m) e loc_Exact) as [r1 e1];
    destruct (shr_fexp 24 128 _ e1 loc_Exact) as [r2 e2]; destruct (shr_m r2); try done; by case_match.
Qed.

Lemma fmul_opp x : fmul (SFopp x) (SFopp x) = fmul x x.
Proof. destruct x as [[]|[]| |[]]; done. Qed.

Lemma fmul_square z : -2 ^ 12 < z < 2 ^ 12 → costf (fmul (f_of_Z z) (f_of_Z z)) = true ∧ fval (fmul (f_of_Z z) (f_of_Z z)) = z * z * 2 ^ 149.
Proof.
  intros Hz. assert (∀ a, 0 <= a < 2 ^ 12 → costf (fmul (f_of_Z a) (f_of_Z a)) = true ∧ fval (fmul (f_of_Z a) (f_of_Z a)) = a * a * 2 ^ 149) as Hpos.
  { intros a Ha. destruct (decide (a = 0)) as [->|Ha0]; [done|]. destruct (f_of_Z_val a ltac:(lia)) as [Hc Hv].
    destruct (f_of_Z_val (a * a) ltac:(nia)) as [Hc2 Hv2]. pose proof (small_val _ a ltac:(lia) Hv).
    pose proof (small_val _ (a * a) ltac:(nia) Hv2). rewrite <-Hv2. apply fmul_exact; try done; rewrite ?Hv, ?Hv2; nia || lia. }
  destruct (Z.le_gt_cases 0 z); [apply Hpos; lia|]. destruct (f_of_Z_opp (- z)) as [E|]; [|lia]. rewrite Z.opp_involutive in E.
  rewrite E, fmul_opp. replace (z * z) with (- z * - z) by ring. apply Hpos. lia.
Qed.

(** [int(sqrtf(n))] is the integer square root, as long as the rounding cannot reach the next integer. *)
Lemma int_sqrt x n : costf x = true → fval x = n * 2 ^ 149 → 0 <= n < 2 ^ 20 → f_to_int (fsqrt x) = Some (Z.sqrt n).
Proof.
  intros Hc Hv Hn. pose proof (Z.sqrt_spec n ltac:(lia)) as [Hk1 Hk2].
  set (k := Z.sqrt n) in *. assert (0 <= k < 2 ^ 10) as Hk by (split; [apply Z.sqrt_nonneg|nia]).
  pose proof (small_val x n ltac:(lia) Hv) as Hf.
  destruct (dyadic k 0 ltac:(lia) ltac:(lia)) as (c & Hcc & Hcv & Hcf).
  destruct (dyadic ((k + 1) * 2 ^ 13 - 1) 13 ltac:(lia) ltac:(lia)) as (d & Hdc & Hdv & Hdf).
  destruct (fsqrt_cases _ c Hc Hf Hcc Hcf) as (Hs & Hge & _). destruct (fsqrt_cases _ d Hc Hf Hdc Hdf) as (_ & _ & Hle).
  rewrite Hv, Hcv in Hge. rewrite Hv, Hdv in Hle. replace (149 - 0) with 149 in Hge by lia. replace (149 - 13) with 136 in Hle by lia.
  specialize (Hge ltac:(nia)). assert (fval (fsqrt x) <= ((k + 1) * 2 ^ 13 - 1) * 2 ^ 136) as Hup.
  { apply Hle. change (2 ^ 149) with (2 ^ 13 * 2 ^ 136). nia. }
  change (2 ^ 149) with (2 ^ 13 * 2 ^ 136) in Hge. rewrite f_to_int_val; [|done|change (2 ^ 149) with (2 ^ 13 * 2 ^ 136); nia].
  f_equal. symmetry. apply (Z.div_unique_pos _ _ _ (fval (fsqrt x) - k * 2 ^ 149)); change (2 ^ 149) with (2 ^ 13 * 2 ^ 136); lia.
Qed.

(** The half width of a circle of radius [r] in the row [d] away from its centre. *)
Lemma circle_half_width r d :
  0 <= r < 2 ^ 10 → -r <= d <= r →
  f_to_int (fsqrt (fsub (f_of_Z (r * r)) (fmul (f_of_Z d) (f_of_Z d)))) = Some (Z.sqrt (r * r - d * d)).
Proof.
  intros Hr Hd. destruct (f_of_Z_val (r * r) ltac:(nia)) as [Hc Hv]. destruct (fmul_square d ltac:(lia)) as [Hc2 Hv2].
  destruct (fsub_val _ _ Hc Hc2) as [Hc3 Hv3]; [apply f_of_Z_finite; nia|rewrite Hv, Hv2; nia|].
  rewrite Hv, Hv2, <-Z.mul_sub_distr_r, rnd_exact in Hv3 by nia. apply int_sqrt; [done| |nia].
  rewrite Hv3. change (2 ^ 277) with (2 ^ 128 * 2 ^ 149). nia.
Qed.
