(* ===== verification/BlockingMap.v ===== *)
(** * BlockingMap: the grid of structures and blockers

    Models [src/src/circuit/terrain/BlockingMap.h], [BlockingMap.hpp] and [BlockingMap.cpp]:
    a fine grid whose cells count, per structure type, the blockers that cover them, and a
    grid eight times coarser that counts the blocked fine cells. *)

From stdpp Require Import strings.
From S2P Require Import Prelude.

Open Scope circuit_scope.

(** [GRID_RATIO_LOW], [MAX_BLOCK_VAL], [BLOCK_THRESHOLD]. *)
Definition GRID_RATIO_LOW : Z := 8.
Definition MAX_BLOCK_VAL : Z := 0x1000.
Definition BLOCK_THRESHOLD : Z := Z.quot (GRID_RATIO_LOW * GRID_RATIO_LOW * 3) 4.

Lemma BLOCK_THRESHOLD_val : BLOCK_THRESHOLD = 48.
Proof. reflexivity. Qed.

(** [enum class StructType: unsigned short]; [ST t] is its underlying value. *)
Inductive StructType : Type :=
| FACTORY | MEX | ENGY_LOW | ENGY_MID | ENGY_HIGH | PYLON | DEF_LOW | DEF_MID | DEF_HIGH
| SPECIAL | NANO | TERRA | UNKNOWN.

#[export] Instance StructType_eq_dec : EqDecision StructType.
Proof. solve_decision. Defined.

Definition StructType_SIZE : Z := 13.

Definition ST (t : StructType) : Z :=
  match t with
  | FACTORY => 0 | MEX => 1 | ENGY_LOW => 2 | ENGY_MID => 3 | ENGY_HIGH => 4 | PYLON => 5
  | DEF_LOW => 6 | DEF_MID => 7 | DEF_HIGH => 8 | SPECIAL => 9 | NANO => 10 | TERRA => 11
  | UNKNOWN => 12
  end.

(** [enum class StructMask: unsigned short], as its underlying values. *)
Definition StructMask : Type := Z.
Module Mask.
Definition NONE : StructMask := 0x0000.
Definition ALL : StructMask := 0xFFFF.
Definition FACTORY : StructMask := 0x0001.
Definition MEX : StructMask := 0x0002.
Definition ENGY_LOW : StructMask := 0x0004.
Definition ENGY_MID : StructMask := 0x0008.
Definition ENGY_HIGH : StructMask := 0x0010.
Definition PYLON : StructMask := 0x0020.
Definition DEF_LOW : StructMask := 0x0040.
Definition DEF_MID : StructMask := 0x0080.
Definition DEF_HIGH : StructMask := 0x0100.
Definition SPECIAL : StructMask := 0x0200.
Definition NANO : StructMask := 0x0400.
Definition TERRA : StructMask := 0x0800.
Definition UNKNOWN : StructMask := 0x1000.
End Mask.

(** [GetStructMask]: [static_cast<StructMask>(1 << static_cast<ST>(structType))]. *)
Definition GetStructMask (t : StructType) : StructMask := Z.shiftl 1 (ST t).

(** The name tables of BlockingMap.cpp. *)
Definition structTypes : list (string * StructType) :=
  [("factory", FACTORY); ("mex", MEX); ("engy_low", ENGY_LOW); ("engy_mid", ENGY_MID);
   ("engy_high", ENGY_HIGH); ("pylon", PYLON); ("def_low", DEF_LOW); ("def_mid", DEF_MID);
   ("def_high", DEF_HIGH); ("special", SPECIAL); ("nano", NANO); ("terra", TERRA);
   ("unknown", UNKNOWN)]%string.

Definition structMasks : list (string * StructMask) :=
  [("factory", Mask.FACTORY); ("mex", Mask.MEX); ("engy_low", Mask.ENGY_LOW);
   ("engy_mid", Mask.ENGY_MID); ("engy_high", Mask.ENGY_HIGH); ("pylon", Mask.PYLON);
   ("def_low", Mask.DEF_LOW); ("def_mid", Mask.DEF_MID); ("def_high", Mask.DEF_HIGH);
   ("special", Mask.SPECIAL); ("nano", Mask.NANO); ("terra", Mask.TERRA);
   ("unknown", Mask.UNKNOWN); ("none", Mask.NONE); ("all", Mask.ALL)]%string.

(** ** State *)

Record SBlockCell : Type := MkCell {
  blockerMask : Z;
  notIgnoreMask : Z;
  structMask : StructMask;
  blockerCounts : list Z   (** [unsigned short blockerCounts[_SIZE_]] *)
}.

Record SBlockCellLow : Type := MkCellLow {
  lowBlockerMask : Z;
  lowBlockerCounts : list Z
}.

Record SBlockingMap : Type := MkBlockingMap {
  grid : list SBlockCell;
  columns : Z;
  rows : Z;
  gridLow : list SBlockCellLow;
  columnsLow : Z;
  rowsLow : Z
}.

Definition set_grid (m : SBlockingMap) g : SBlockingMap :=
  MkBlockingMap g (columns m) (rows m) (gridLow m) (columnsLow m) (rowsLow m).
Definition set_gridLow (m : SBlockingMap) g : SBlockingMap :=
  MkBlockingMap (grid m) (columns m) (rows m) g (columnsLow m) (rowsLow m).

(** [grid[z * columns + x]] and
    [gridLow[z / GRID_RATIO_LOW * columnsLow + x / GRID_RATIO_LOW]]. *)
Definition cell_idx (m : SBlockingMap) (x z : Z) : Z := z * columns m + x.
Definition low_idx (m : SBlockingMap) (x z : Z) : Z :=
  Z.quot z GRID_RATIO_LOW * columnsLow m + Z.quot x GRID_RATIO_LOW.

(** ** Queries *)

Definition IsStructed (m : SBlockingMap) (x z : Z) (sm : StructMask) : option bool :=
  cell ← (grid m).[cell_idx m x z];
  Some (negb (Z.land (notIgnoreMask cell) sm =? 0)).

Definition IsBlocked (m : SBlockingMap) (x z : Z) (notIgnore : Z) : option bool :=
  cell ← (grid m).[cell_idx m x z];
  Some (negb (Z.land (blockerMask cell) notIgnore =? 0) || negb (structMask cell =? 0)).

Definition IsBlockedLow (m : SBlockingMap) (xLow zLow : Z) (notIgnore : Z) : option bool :=
  cell ← (gridLow m).[zLow * columnsLow m + xLow];
  Some (negb (Z.land (lowBlockerMask cell) notIgnore =? 0)).

Definition IsStruct (m : SBlockingMap) (x z : Z) : option bool :=
  cell ← (grid m).[cell_idx m x z];
  Some (negb (structMask cell =? 0)).

Definition IsInBounds (m : SBlockingMap) (r1 r2 : Z * Z) : bool :=
  (r1.1 >=? 0) && (r1.2 >=? 0) && (r2.1 <? columns m) && (r2.2 <? rows m).

(** [((unsigned)x < (unsigned)columnsLow) && ((unsigned)z < (unsigned)rowsLow)] *)
Definition IsInBoundsLow (m : SBlockingMap) (x z : Z) : bool :=
  (u32 x <? u32 (columnsLow m)) && (u32 z <? u32 (rowsLow m)).

(** [Bound] clamps the two corners, which are passed by reference. *)
Definition Bound (m : SBlockingMap) (r1 r2 : Z * Z) : (Z * Z) * (Z * Z) :=
  ((Z.max r1.1 0, Z.max r1.2 0), (Z.min r2.1 (columns m - 1), Z.min r2.2 (rows m - 1))).

(** ** Updates

    The update of a low cell is shared by the operations: a counter that is incremented,
    with the mask bit set when the new value is the threshold, or decremented, with the
    bit cleared when the old value is the threshold. *)

Definition low_preinc (low : SBlockCellLow) (t : StructType) : option SBlockCellLow :=
  c ← (lowBlockerCounts low).[ST t];
  let c' := u16 (c + 1) in
  counts ← (lowBlockerCounts low).[ST t <- c'];
  Some (MkCellLow
    (if c' =? BLOCK_THRESHOLD then u16 (Z.lor (lowBlockerMask low) (GetStructMask t))
     else lowBlockerMask low) counts).

Definition low_postdec (low : SBlockCellLow) (t : StructType) : option SBlockCellLow :=
  c ← (lowBlockerCounts low).[ST t];
  counts ← (lowBlockerCounts low).[ST t <- u16 (c - 1)];
  Some (MkCellLow
    (if c =? BLOCK_THRESHOLD
     then u16 (Z.land (lowBlockerMask low) (Z.lnot (GetStructMask t)))
     else lowBlockerMask low) counts).

Definition upd_low (m : SBlockingMap) (x z : Z)
    (f : SBlockCellLow → option SBlockCellLow) : option SBlockingMap :=
  low ← (gridLow m).[low_idx m x z];
  low' ← f low;
  g ← (gridLow m).[low_idx m x z <- low'];
  Some (set_gridLow m g).

Definition put_cell (m : SBlockingMap) (x z : Z) (cell : SBlockCell) : option SBlockingMap :=
  g ← (grid m).[cell_idx m x z <- cell];
  Some (set_grid m g).

Definition MarkBlocker (m : SBlockingMap) (x z : Z) (t : StructType) (notIgnore : Z)
    : option SBlockingMap :=
  cell ← (grid m).[cell_idx m x z];
  counts ← (blockerCounts cell).[ST t <- MAX_BLOCK_VAL];
  let sm := GetStructMask t in
  m ← put_cell m x z
        (MkCell (u16 (Z.lor (blockerMask cell) sm)) notIgnore (structMask cell) counts);
  (* the low counter is post-incremented: its old value is compared *)
  upd_low m x z (λ low,
    c ← (lowBlockerCounts low).[ST t];
    lcounts ← (lowBlockerCounts low).[ST t <- u16 (c + 1)];
    Some (MkCellLow (if c =? BLOCK_THRESHOLD then u16 (Z.lor (lowBlockerMask low) sm)
                     else lowBlockerMask low) lcounts)).

Definition AddBlocker (m : SBlockingMap) (x z : Z) (t : StructType) : option SBlockingMap :=
  cell ← (grid m).[cell_idx m x z];
  c ← (blockerCounts cell).[ST t];
  counts ← (blockerCounts cell).[ST t <- u16 (c + 1)];
  if c =? 0 then
    let sm := GetStructMask t in
    m ← put_cell m x z
          (MkCell (u16 (Z.lor (blockerMask cell) sm)) (notIgnoreMask cell) (structMask cell) counts);
    upd_low m x z (λ low, low_preinc low t)
  else
    put_cell m x z (MkCell (blockerMask cell) (notIgnoreMask cell) (structMask cell) counts).

Definition DelBlocker (m : SBlockingMap) (x z : Z) (t : StructType) : option SBlockingMap :=
  cell ← (grid m).[cell_idx m x z];
  c ← (blockerCounts cell).[ST t];
  let c' := u16 (c - 1) in
  counts ← (blockerCounts cell).[ST t <- c'];
  if c' =? 0 then
    m ← put_cell m x z
          (MkCell (u16 (Z.land (blockerMask cell) (Z.lnot (GetStructMask t))))
                  (notIgnoreMask cell) (structMask cell) counts);
    upd_low m x z (λ low, low_postdec low t)
  else
    put_cell m x z (MkCell (blockerMask cell) (notIgnoreMask cell) (structMask cell) counts).

Definition AddStruct (m : SBlockingMap) (x z : Z) (t : StructType) (notIgnore : Z)
    : option SBlockingMap :=
  cell ← (grid m).[cell_idx m x z];
  c ← (blockerCounts cell).[ST t];
  m ← (if c =? 0 then upd_low m x z (λ low, low_preinc low t) else Some m);
  put_cell m x z (MkCell (blockerMask cell) notIgnore (GetStructMask t) (blockerCounts cell)).

Definition DelStruct (m : SBlockingMap) (x z : Z) (t : StructType) (notIgnore : Z)
    : option SBlockingMap :=
  cell ← (grid m).[cell_idx m x z];
  m ← put_cell m x z (MkCell (blockerMask cell) 0 Mask.NONE (blockerCounts cell));
  c ← (blockerCounts cell).[ST t];
  if c =? 0 then upd_low m x z (λ low, low_postdec low t) else Some m.

(** The map a [CTerrainManager] starts from (its constructor's
    [blockingMap] statements): all cells zero. *)
Definition zero_cell : SBlockCell :=
  MkCell 0 0 Mask.NONE (replicate (Z.to_nat StructType_SIZE) 0).
Definition zero_cellLow : SBlockCellLow :=
  MkCellLow 0 (replicate (Z.to_nat StructType_SIZE) 0).
Definition init_blockingMap (mapWidth mapHeight : Z) : SBlockingMap :=
  let columns := Z.quot mapWidth 2 in
  let rows := Z.quot mapHeight 2 in
  let columnsLow := Z.quot mapWidth (GRID_RATIO_LOW * 2) in
  let rowsLow := Z.quot mapHeight (GRID_RATIO_LOW * 2) in
  MkBlockingMap (replicate (Z.to_nat (columns * rows)) zero_cell) columns rows
                (replicate (Z.to_nat (columnsLow * rowsLow)) zero_cellLow) columnsLow rowsLow.

(** ** Structure types as bit positions *)

Lemma ST_bound t : 0 <= ST t < StructType_SIZE.
Proof. unfold StructType_SIZE. destruct t; simpl; lia. Qed.

#[export] Instance ST_inj : Inj (=) (=) ST.
Proof. by intros [] []. Qed.

Lemma testbit_StructMask t i : 0 <= i → Z.testbit (GetStructMask t) i = bool_decide (ST t = i).
Proof.
  intros ?. pose proof (ST_bound t). unfold GetStructMask.
  rewrite Z.shiftl_1_l. apply testbit_pow2; lia.
Qed.

Lemma is_u16_StructMask t : is_u16 (GetStructMask t).
Proof. unfold is_u16, GetStructMask. destruct t; vm_compute; split; congruence. Qed.
#[export] Hint Resolve is_u16_StructMask : circuit.

Lemma set_bit_spec mask t i :
  0 <= i < 16 →
  Z.testbit (u16 (Z.lor mask (GetStructMask t))) i = Z.testbit mask i || bool_decide (ST t = i).
Proof. intros ?. by rewrite u16_testbit, Z.lor_spec, testbit_StructMask by lia. Qed.

Lemma clear_bit_spec mask t i :
  0 <= i < 16 →
  Z.testbit (u16 (Z.land mask (Z.lnot (GetStructMask t)))) i
  = Z.testbit mask i && negb (bool_decide (ST t = i)).
Proof.
  intros ?. by rewrite u16_testbit, Z.land_spec, Z.lnot_spec, testbit_StructMask by lia.
Qed.

(** ** The invariant: a mask bit is set exactly when its counter has reached a threshold *)

Record mask_counts (thr : Z) (mask : Z) (counts : list Z) : Prop := {
  mc_u16 : is_u16 mask;
  mc_len : zlen counts = StructType_SIZE;
  mc_range : ∀ i c, counts.[i] = Some c → is_u16 c;
  mc_bit : ∀ t c, counts.[ST t] = Some c → Z.testbit mask (ST t) = bool_decide (thr <= c);
  mc_high : ∀ i, StructType_SIZE <= i → Z.testbit mask i = false
}.

Definition cell_wf (cell : SBlockCell) : Prop :=
  mask_counts 1 (blockerMask cell) (blockerCounts cell).
Definition low_wf (low : SBlockCellLow) : Prop :=
  mask_counts BLOCK_THRESHOLD (lowBlockerMask low) (lowBlockerCounts low).

Lemma mc_get thr mask counts t :
  mask_counts thr mask counts → ∃ c, counts.[ST t] = Some c ∧ is_u16 c.
Proof.
  intros H. destruct (zget_is_Some counts (ST t)) as [c Hc].
  - rewrite (mc_len _ _ _ H). apply ST_bound.
  - exists c. split; [done|]. by eapply mc_range.
Qed.

Lemma mc_set thr mask counts t c :
  mask_counts thr mask counts → ∃ counts', counts.[ST t <- c] = Some counts'.
Proof.
  intros H. eexists. apply zset_Some. rewrite (mc_len _ _ _ H). apply ST_bound.
Qed.

(** Every update of the code is an instance of this lemma. *)
Lemma mc_update thr mask counts t c' mask' counts' :
  mask_counts thr mask counts →
  counts.[ST t <- c'] = Some counts' →
  is_u16 c' → is_u16 mask' →
  (∀ i, 0 <= i < 16 → i ≠ ST t → Z.testbit mask' i = Z.testbit mask i) →
  Z.testbit mask' (ST t) = bool_decide (thr <= c') →
  mask_counts thr mask' counts'.
Proof.
  intros [H1 H2 H3 H4 H5] Hs Hc Hm Hother Ht. split.
  - done.
  - by rewrite (zlen_zset _ _ _ _ Hs).
  - intros i c. rewrite (zget_zset _ _ _ _ _ Hs). decide_goal; [intros ?; by simplify_eq|apply H3].
  - intros t' c. rewrite (zget_zset _ _ _ _ _ Hs). destruct (decide (ST t = ST t')) as [Htt|].
    + apply (inj ST) in Htt as <-. by intros [= <-].
    + intros Hg. pose proof (ST_bound t') as Hb. unfold StructType_SIZE in Hb.
      rewrite Hother; [by apply H4|lia|congruence].
  - intros i Hi. unfold StructType_SIZE in Hi. pose proof (ST_bound t) as Hb.
    unfold StructType_SIZE in Hb. destruct (decide (i < 16)).
    + rewrite Hother by lia. apply H5. unfold StructType_SIZE. lia.
    + apply testbit_u16_high; [done|lia].
Qed.

Lemma mc_raise thr mask counts t c' counts' :
  mask_counts thr mask counts → counts.[ST t <- c'] = Some counts' → is_u16 c' → thr <= c' →
  mask_counts thr (u16 (Z.lor mask (GetStructMask t))) counts'.
Proof.
  intros H Hs Hc Hthr. pose proof (ST_bound t) as Hb. unfold StructType_SIZE in Hb.
  eapply mc_update; eauto with circuit.
  - intros i ??. rewrite set_bit_spec by lia.
    by rewrite (bool_decide_false (ST t = i)), orb_false_r by congruence.
  - rewrite set_bit_spec by lia. rewrite !bool_decide_true by done. apply orb_true_r.
Qed.

Lemma mc_lower thr mask counts t c' counts' :
  mask_counts thr mask counts → counts.[ST t <- c'] = Some counts' → is_u16 c' → c' < thr →
  mask_counts thr (u16 (Z.land mask (Z.lnot (GetStructMask t)))) counts'.
Proof.
  intros H Hs Hc Hthr. pose proof (ST_bound t) as Hb. unfold StructType_SIZE in Hb.
  eapply mc_update; eauto with circuit.
  - intros i ??. rewrite clear_bit_spec by lia.
    by rewrite (bool_decide_false (ST t = i)), andb_true_r by congruence.
  - rewrite clear_bit_spec by lia. rewrite bool_decide_true by done.
    rewrite bool_decide_false by lia. apply andb_false_r.
Qed.

Lemma mc_keep thr mask counts t c c' counts' :
  mask_counts thr mask counts → counts.[ST t] = Some c → counts.[ST t <- c'] = Some counts' →
  is_u16 c' → (thr <= c ↔ thr <= c') → mask_counts thr mask counts'.
Proof.
  intros H Hg Hs Hc Hiff. eapply mc_update; eauto using mc_u16.
  rewrite (mc_bit _ _ _ H _ _ Hg). by apply bool_decide_ext.
Qed.

(** Raising a bit that was clear and lowering it again gives the mask back. *)
Lemma set_clear_bit mask t :
  is_u16 mask → Z.testbit mask (ST t) = false →
  u16 (Z.land (u16 (Z.lor mask (GetStructMask t))) (Z.lnot (GetStructMask t))) = mask.
Proof.
  intros Hm Hbit. apply u16_bits_eq; [apply u16_bound|done|]. intros i ?.
  rewrite clear_bit_spec, set_bit_spec by lia. case_bool_decide; subst.
  - by rewrite andb_false_r, Hbit.
  - by rewrite orb_false_r, andb_true_r.
Qed.

(** ** Well-formed maps *)

Record map_wf (m : SBlockingMap) : Prop := {
  wf_columns : columns m = GRID_RATIO_LOW * columnsLow m;
  wf_rows : rows m = GRID_RATIO_LOW * rowsLow m;
  wf_columnsLow : 0 <= columnsLow m;
  wf_rowsLow : 0 <= rowsLow m;
  wf_grid : zlen (grid m) = columns m * rows m;
  wf_gridLow : zlen (gridLow m) = columnsLow m * rowsLow m;
  wf_cells : ∀ i cell, (grid m).[i] = Some cell → cell_wf cell;
  wf_lows : ∀ i low, (gridLow m).[i] = Some low → low_wf low
}.

Definition in_map (m : SBlockingMap) (x z : Z) : Prop := 0 <= x < columns m ∧ 0 <= z < rows m.

(** The counters of a cell, as observations. *)
Definition blocker_count (m : SBlockingMap) (x z : Z) (t : StructType) : option Z :=
  cell ← (grid m).[cell_idx m x z]; (blockerCounts cell).[ST t].
Definition low_counter (m : SBlockingMap) (j : Z) (t : StructType) : option Z :=
  low ← (gridLow m).[j]; (lowBlockerCounts low).[ST t].
Definition low_count (m : SBlockingMap) (x z : Z) (t : StructType) : option Z :=
  low_counter m (low_idx m x z) t.

Lemma cell_idx_bound m x z :
  in_map m x z → 0 <= cell_idx m x z < columns m * rows m.
Proof. unfold cell_idx. intros [? ?]. nia. Qed.

Lemma low_idx_bound m x z :
  map_wf m → in_map m x z → 0 <= low_idx m x z < columnsLow m * rowsLow m.
Proof.
  intros H [Hx Hz]. unfold low_idx. rewrite (wf_columns _ H) in Hx. rewrite (wf_rows _ H) in Hz.
  unfold GRID_RATIO_LOW in *. rewrite (Z.quot_div_nonneg x), (Z.quot_div_nonneg z) by lia.
  assert (0 <= x / 8 < columnsLow m) by (split; [apply Z.div_pos; lia|apply Z.div_lt_upper_bound; lia]).
  assert (0 <= z / 8 < rowsLow m) by (split; [apply Z.div_pos; lia|apply Z.div_lt_upper_bound; lia]).
  nia.
Qed.

Lemma cell_idx_inj m x z x' z' :
  in_map m x z → in_map m x' z' → cell_idx m x z = cell_idx m x' z' → x = x' ∧ z = z'.
Proof.
  unfold cell_idx. intros [? ?] [? ?] ?. destruct (Z.lt_total z z') as [|[->|]].
  - exfalso. assert (columns m * (z' - z) >= columns m) by nia. lia.
  - lia.
  - exfalso. assert (columns m * (z - z') >= columns m) by nia. lia.
Qed.

Lemma get_cell_ok m x z :
  map_wf m → in_map m x z → ∃ cell, (grid m).[cell_idx m x z] = Some cell ∧ cell_wf cell.
Proof.
  intros H Hin. destruct (zget_is_Some (grid m) (cell_idx m x z)) as [cell Hc].
  - rewrite (wf_grid _ H). by apply cell_idx_bound.
  - exists cell. split; [done|]. by eapply wf_cells.
Qed.

Lemma get_low_ok m x z :
  map_wf m → in_map m x z → ∃ low, (gridLow m).[low_idx m x z] = Some low ∧ low_wf low.
Proof.
  intros H Hin. destruct (zget_is_Some (gridLow m) (low_idx m x z)) as [low Hc].
  - rewrite (wf_gridLow _ H). by apply low_idx_bound.
  - exists low. split; [done|]. by eapply wf_lows.
Qed.

Lemma put_cell_ok m x z cell :
  map_wf m → in_map m x z → cell_wf cell →
  ∃ m', put_cell m x z cell = Some m' ∧ map_wf m' ∧ gridLow m' = gridLow m ∧
        columns m' = columns m ∧ rows m' = rows m ∧ columnsLow m' = columnsLow m ∧
        rowsLow m' = rowsLow m ∧ (grid m).[cell_idx m x z <- cell] = Some (grid m').
Proof.
  intros H Hin Hc. unfold put_cell.
  destruct (zset (grid m) (cell_idx m x z) cell) as [g|] eqn:Hg.
  2:{ rewrite zset_Some in Hg; [done|]. rewrite (wf_grid _ H). by apply cell_idx_bound. }
  simpl. eexists. split; [done|]. destruct H. split; [|done]. split; simpl; try done.
  - by rewrite (zlen_zset _ _ _ _ Hg).
  - intros i c. rewrite (zget_zset _ _ _ _ _ Hg). decide_goal; [intros ?; by simplify_eq|apply wf_cells0].
Qed.

Lemma upd_low_ok m x z f :
  map_wf m → in_map m x z →
  (∀ low, (gridLow m).[low_idx m x z] = Some low → low_wf low →
    ∃ low', f low = Some low' ∧ low_wf low') →
  ∃ m' low low', upd_low m x z f = Some m' ∧ map_wf m' ∧ grid m' = grid m ∧
        columns m' = columns m ∧ rows m' = rows m ∧ columnsLow m' = columnsLow m ∧
        rowsLow m' = rowsLow m ∧ (gridLow m).[low_idx m x z] = Some low ∧
        f low = Some low' ∧ (gridLow m).[low_idx m x z <- low'] = Some (gridLow m').
Proof.
  intros H Hin Hf. unfold upd_low. destruct (get_low_ok m x z H Hin) as (low & Hl & Hlw).
  destruct (Hf low Hl Hlw) as (low' & Hf' & Hlw'). rewrite Hl. simpl. rewrite Hf'. simpl.
  destruct (zset (gridLow m) (low_idx m x z) low') as [g|] eqn:Hg.
  2:{ rewrite zset_Some in Hg; [done|]. rewrite (wf_gridLow _ H). by apply low_idx_bound. }
  simpl. eexists _, low, low'. split; [done|]. destruct H. split; [|done]. split; simpl; try done.
  - by rewrite (zlen_zset _ _ _ _ Hg).
  - intros i c. rewrite (zget_zset _ _ _ _ _ Hg). decide_goal; [intros ?; by simplify_eq|apply wf_lows0].
Qed.

(** ** The operations on well-formed maps *)

Lemma low_preinc_ok low t c :
  low_wf low → (lowBlockerCounts low).[ST t] = Some c → c < UINT16_MAX →
  ∃ low', low_preinc low t = Some low' ∧ low_wf low' ∧
          (lowBlockerCounts low).[ST t <- c + 1] = Some (lowBlockerCounts low').
Proof.
  intros H Hc Hmax. pose proof (mc_range _ _ _ H _ _ Hc) as Hcr.
  unfold low_preinc. rewrite Hc. simpl. unfold UINT16_MAX, is_u16 in *.
  rewrite (u16_small (c + 1)) by lia. destruct (mc_set _ _ _ t (c + 1) H) as [counts' Hs].
  rewrite Hs. simpl. eexists. split; [done|]. split; [|done].
  unfold low_wf. simpl. destruct (Z.eqb_spec (c + 1) BLOCK_THRESHOLD).
  - eapply mc_raise; eauto; [unfold is_u16; lia|lia].
  - eapply mc_keep; eauto; [unfold is_u16; lia|lia].
Qed.

Lemma low_postdec_ok low t c :
  low_wf low → (lowBlockerCounts low).[ST t] = Some c → 0 < c →
  ∃ low', low_postdec low t = Some low' ∧ low_wf low' ∧
          (lowBlockerCounts low).[ST t <- c - 1] = Some (lowBlockerCounts low').
Proof.
  intros H Hc Hmin. pose proof (mc_range _ _ _ H _ _ Hc) as Hcr.
  unfold low_postdec. rewrite Hc. simpl. unfold is_u16 in *.
  rewrite (u16_small (c - 1)) by lia. destruct (mc_set _ _ _ t (c - 1) H) as [counts' Hs].
  rewrite Hs. simpl. eexists. split; [done|]. split; [|done].
  unfold low_wf. simpl. destruct (Z.eqb_spec c BLOCK_THRESHOLD).
  - eapply mc_lower; eauto; [unfold is_u16; lia|lia].
  - eapply mc_keep; eauto; [unfold is_u16; lia|lia].
Qed.

(** What an update of one counter of one cell leaves unchanged. *)
Record same_dims (m m' : SBlockingMap) : Prop := {
  sd_columns : columns m' = columns m;
  sd_rows : rows m' = rows m;
  sd_columnsLow : columnsLow m' = columnsLow m;
  sd_rowsLow : rowsLow m' = rowsLow m
}.

#[export] Instance same_dims_preorder : PreOrder same_dims.
Proof. split; [done|]. intros ??? [] []. split; congruence. Qed.

Lemma in_map_dims m m' x z : same_dims m m' → in_map m' x z ↔ in_map m x z.
Proof. intros []. unfold in_map. by rewrite sd_columns0, sd_rows0. Qed.

Definition counts_upd (m m' : SBlockingMap) (x z : Z) (t : StructType) (c : Z) : Prop :=
  ∀ x' z' t', in_map m x' z' →
    blocker_count m' x' z' t' =
      if decide ((x', z', t') = (x, z, t)) then Some c else blocker_count m x' z' t'.

Lemma counts_upd_intro m m' x z t c cell cell' :
  same_dims m m' → in_map m x z →
  (grid m).[cell_idx m x z] = Some cell →
  (grid m).[cell_idx m x z <- cell'] = Some (grid m') →
  (blockerCounts cell).[ST t <- c] = Some (blockerCounts cell') →
  counts_upd m m' x z t c.
Proof.
  intros Hd Hin Hg Hs Hc x' z' t' Hin'. unfold blocker_count.
  assert (cell_idx m' x' z' = cell_idx m x' z') as ->.
  { unfold cell_idx. by rewrite (sd_columns _ _ Hd). }
  rewrite (zget_zset _ _ _ _ _ Hs).
  destruct (decide (cell_idx m x z = cell_idx m x' z')) as [E|E].
  - apply cell_idx_inj in E as [-> ->]; [|done|done]. simpl. rewrite Hg. simpl.
    rewrite (zget_zset _ _ _ _ _ Hc).
    destruct (decide (ST t = ST t')) as [Et|Et].
    + apply (inj ST) in Et as ->. by rewrite decide_True.
    + rewrite decide_False; [done|congruence].
  - rewrite decide_False; [done|]. intros [= -> -> ->]. done.
Qed.

Lemma counts_upd_grid_eq m m1 m2 x z t c :
  counts_upd m m1 x z t c → grid m2 = grid m1 → columns m2 = columns m1 →
  counts_upd m m2 x z t c.
Proof.
  intros H Hg Hc x' z' t' ?. rewrite <-(H x' z' t') by done.
  unfold blocker_count, cell_idx. by rewrite Hg, Hc.
Qed.

Ltac dims := split; simpl; congruence.

Definition low_upd (m m' : SBlockingMap) (x z : Z) (t : StructType) (l' : Z) : Prop :=
  ∀ j t', low_counter m' j t' =
    if decide ((j, t') = (low_idx m x z, t)) then Some l' else low_counter m j t'.

(** A statement of an operation: it returns, keeps the invariant and the dimensions,
    moves one blocker counter to [c'] and the low counter of that cell to [l']. *)
Definition op_moves (m : SBlockingMap) (x z : Z) (t : StructType) (c' l' : Z)
    (r : option SBlockingMap) : Prop :=
  ∃ m', r = Some m' ∧ map_wf m' ∧ same_dims m m' ∧
        counts_upd m m' x z t c' ∧ low_upd m m' x z t l'.

Lemma low_count_upd m m1 m' x z t l' low low' :
  (gridLow m).[low_idx m x z] = Some low →
  (lowBlockerCounts low).[ST t <- l'] = Some (lowBlockerCounts low') →
  gridLow m1 = gridLow m → same_dims m m1 →
  (gridLow m1).[low_idx m1 x z <- low'] = Some (gridLow m') →
  low_upd m m' x z t l'.
Proof.
  intros Hg Hs Hg1 Hd1 Hs1 j t'. unfold low_counter.
  assert (low_idx m1 x z = low_idx m x z) as Hi.
  { unfold low_idx. by rewrite (sd_columnsLow _ _ Hd1). }
  rewrite Hi, Hg1 in Hs1. rewrite (zget_zset _ _ _ _ _ Hs1).
  destruct (decide (low_idx m x z = j)) as [<-|Hne].
  - simpl. rewrite Hg. simpl. rewrite (zget_zset _ _ _ _ _ Hs).
    destruct (decide (ST t = ST t')) as [Et|Et].
    + apply (inj ST) in Et as ->. by rewrite decide_True.
    + rewrite decide_False; [done|congruence].
  - rewrite decide_False; [done|congruence].
Qed.

Lemma low_upd_count m m' x z t l' :
  same_dims m m' → low_upd m m' x z t l' → low_count m' x z t = Some l'.
Proof.
  intros Hd H. unfold low_count, low_idx in *. rewrite (sd_columnsLow _ _ Hd).
  etransitivity; [apply H|]. by apply decide_True.
Qed.

Lemma low_upd_refl m m' x z t l :
  gridLow m' = gridLow m → low_count m x z t = Some l → low_upd m m' x z t l.
Proof.
  intros Hg Hl j t'. unfold low_counter. rewrite Hg. decide_goal as [[= -> ->]|]; [|done].
  by rewrite <-Hl.
Qed.

Lemma counter_get m x z t c cell :
  (grid m).[cell_idx m x z] = Some cell → blocker_count m x z t = Some c →
  (blockerCounts cell).[ST t] = Some c.
Proof. unfold blocker_count. intros ->. done. Qed.

Lemma low_counter_get m x z t l low :
  (gridLow m).[low_idx m x z] = Some low → low_count m x z t = Some l →
  (lowBlockerCounts low).[ST t] = Some l.
Proof. unfold low_count, low_counter. intros ->. done. Qed.

(** Shared by the operations that rewrite a cell and then its low cell. *)
Lemma cell_then_low m x z t c' l l' cell cell' f :
  map_wf m → in_map m x z →
  (grid m).[cell_idx m x z] = Some cell → cell_wf cell' →
  (blockerCounts cell).[ST t <- c'] = Some (blockerCounts cell') →
  low_count m x z t = Some l →
  (∀ low, low_wf low → (lowBlockerCounts low).[ST t] = Some l →
    ∃ low', f low = Some low' ∧ low_wf low' ∧
            (lowBlockerCounts low).[ST t <- l'] = Some (lowBlockerCounts low')) →
  op_moves m x z t c' l' (m1 ← put_cell m x z cell'; upd_low m1 x z f).
Proof.
  intros H Hin Hg Hw Hc Hl Hf.
  destruct (put_cell_ok m x z cell' H Hin Hw) as (m1 & -> & Hw1 & Hlow1 & ? & ? & ? & ? & Hs1).
  simpl. assert (same_dims m m1) as Hd1 by dims.
  assert (low_idx m1 x z = low_idx m x z) as Hli by (unfold low_idx; congruence).
  destruct (upd_low_ok m1 x z f Hw1) as
    (m2 & low & low' & -> & Hw2 & Hgr & ? & ? & ? & ? & Hgl & Hfl & Hsl).
  - by apply (in_map_dims m).
  - intros low Hgl Hlw. rewrite Hli, Hlow1 in Hgl.
    destruct (Hf low Hlw) as (low' & ? & ? & _); [by eapply low_counter_get|]. eauto.
  - assert (same_dims m m2) as Hd2 by dims.
    exists m2. split; [done|]. split; [done|]. split; [done|]. split.
    + apply (counts_upd_grid_eq _ m1); [|done|congruence].
      by eapply (counts_upd_intro m m1 x z t c' cell cell').
    + rewrite Hlow1, Hli in Hgl. pose proof (low_counter_get _ _ _ _ _ _ Hgl Hl) as Hll.
      destruct (Hf low) as (low'' & Hf'' & _ & Hs''); [exact (wf_lows _ H _ _ Hgl)|done|].
      rewrite Hfl in Hf''. injection Hf'' as <-.
      eapply (low_count_upd m m1 m2); eauto.
Qed.

Lemma cell_only m x z t c' l cell cell' :
  map_wf m → in_map m x z →
  (grid m).[cell_idx m x z] = Some cell → cell_wf cell' →
  (blockerCounts cell).[ST t <- c'] = Some (blockerCounts cell') →
  low_count m x z t = Some l →
  op_moves m x z t c' l (put_cell m x z cell').
Proof.
  intros H Hin Hg Hw Hc Hl.
  destruct (put_cell_ok m x z cell' H Hin Hw) as (m1 & -> & Hw1 & Hlow1 & ? & ? & ? & ? & Hs1).
  assert (same_dims m m1) as Hd1 by dims. exists m1. repeat (split; [done|]). split.
  - by eapply (counts_upd_intro m m1 x z t c' cell cell').
  - by apply low_upd_refl.
Qed.

Lemma AddBlocker_ok m x z t c l :
  map_wf m → in_map m x z →
  blocker_count m x z t = Some c → low_count m x z t = Some l →
  c < UINT16_MAX → l < UINT16_MAX →
  op_moves m x z t (c + 1) (if c =? 0 then l + 1 else l) (AddBlocker m x z t).
Proof.
  intros H Hin Hc Hl Hcm Hlm. destruct (get_cell_ok m x z H Hin) as (cell & Hg & Hw).
  pose proof (counter_get _ _ _ _ _ _ Hg Hc) as Hcc.
  pose proof (mc_range _ _ _ Hw _ _ Hcc) as Hcr. unfold is_u16, UINT16_MAX in *.
  destruct (mc_set _ _ _ t (c + 1) Hw) as [counts' Hs].
  unfold AddBlocker. rewrite Hg. cbn [mbind option_bind]. rewrite Hcc. cbn [mbind option_bind].
  rewrite (u16_small (c + 1)) by lia. rewrite Hs. cbn [mbind option_bind].
  destruct (Z.eqb_spec c 0) as [->|].
  - eapply cell_then_low; eauto.
    + eapply mc_raise; eauto; [unfold is_u16; lia|lia].
    + intros low Hlw Hll. by apply low_preinc_ok.
  - eapply cell_only; eauto. eapply mc_keep; eauto; [unfold is_u16; lia|lia].
Qed.

Lemma DelBlocker_ok m x z t c l :
  map_wf m → in_map m x z →
  blocker_count m x z t = Some c → low_count m x z t = Some l →
  0 < c → (c = 1 → 0 < l) →
  op_moves m x z t (c - 1) (if c =? 1 then l - 1 else l) (DelBlocker m x z t).
Proof.
  intros H Hin Hc Hl Hcm Hlm. destruct (get_cell_ok m x z H Hin) as (cell & Hg & Hw).
  pose proof (counter_get _ _ _ _ _ _ Hg Hc) as Hcc.
  pose proof (mc_range _ _ _ Hw _ _ Hcc) as Hcr. unfold is_u16 in *.
  destruct (mc_set _ _ _ t (c - 1) Hw) as [counts' Hs].
  unfold DelBlocker. rewrite Hg. cbn [mbind option_bind]. rewrite Hcc. cbn [mbind option_bind].
  rewrite (u16_small (c - 1)) by lia. rewrite Hs. cbn [mbind option_bind].
  destruct (Z.eqb_spec (c - 1) 0), (Z.eqb_spec c 1); try lia.
  - eapply cell_then_low; eauto.
    + eapply mc_lower; eauto; [unfold is_u16; lia|lia].
    + intros low Hlw Hll. apply low_postdec_ok; [done|done|lia].
  - eapply cell_only; eauto. eapply mc_keep; eauto; [unfold is_u16; lia|lia].
Qed.

(** The low counter follows the two operations on the same structure type. *)
Lemma upd_low_struct m x z t l l' f :
  map_wf m → in_map m x z → low_count m x z t = Some l →
  (∀ low, low_wf low → (lowBlockerCounts low).[ST t] = Some l →
    ∃ low', f low = Some low' ∧ low_wf low' ∧
            (lowBlockerCounts low).[ST t <- l'] = Some (lowBlockerCounts low')) →
  ∃ m', upd_low m x z f = Some m' ∧ map_wf m' ∧ same_dims m m' ∧ grid m' = grid m ∧
        low_upd m m' x z t l'.
Proof.
  intros H Hin Hl Hf.
  destruct (upd_low_ok m x z f H Hin) as
    (m2 & low & low' & -> & Hw2 & Hgr & ? & ? & ? & ? & Hgl & Hfl & Hsl).
  - intros low Hgl Hlw. destruct (Hf low Hlw) as (low' & ? & ? & _); [|eauto].
    by eapply low_counter_get.
  - assert (same_dims m m2) as Hd2 by dims. exists m2. repeat (split; [done|]).
    destruct (Hf low) as (low'' & Hf'' & _ & Hs''); [exact (wf_lows _ H _ _ Hgl)| |].
    + by eapply low_counter_get.
    + rewrite Hfl in Hf''. injection Hf'' as <-. by eapply (low_count_upd m m m2).
Qed.

(** What a query of the structure part of a cell sees. *)
Definition struct_at (m : SBlockingMap) (x z : Z) : option (Z * StructMask) :=
  cell ← (grid m).[cell_idx m x z]; Some (notIgnoreMask cell, structMask cell).

Definition counts_kept (m m' : SBlockingMap) : Prop :=
  ∀ x z t, in_map m x z → blocker_count m' x z t = blocker_count m x z t.

Lemma put_same_counts m m' x z cell cell' :
  same_dims m m' → in_map m x z → (grid m).[cell_idx m x z] = Some cell →
  blockerCounts cell' = blockerCounts cell →
  (grid m).[cell_idx m x z <- cell'] = Some (grid m') → counts_kept m m'.
Proof.
  intros Hd Hin Hg Hc Hs x' z' t Hin'. unfold blocker_count, cell_idx in *.
  rewrite (sd_columns _ _ Hd), (zget_zset _ _ _ _ _ Hs). decide_goal as [E|]; [|done].
  rewrite <-E, Hg. simpl. by rewrite Hc.
Qed.

Definition struct_moves (m : SBlockingMap) (x z : Z) (t : StructType) (l' : Z)
    (s : Z * StructMask) (r : option SBlockingMap) : Prop :=
  ∃ m', r = Some m' ∧ map_wf m' ∧ same_dims m m' ∧ counts_kept m m' ∧
        low_upd m m' x z t l' ∧ struct_at m' x z = Some s.

Lemma AddStruct_ok m x z t nim c l :
  map_wf m → in_map m x z →
  blocker_count m x z t = Some c → low_count m x z t = Some l → l < UINT16_MAX →
  struct_moves m x z t (if c =? 0 then l + 1 else l) (nim, GetStructMask t)
    (AddStruct m x z t nim).
Proof.
  intros H Hin Hc Hl Hlm. destruct (get_cell_ok m x z H Hin) as (cell & Hg & Hw).
  pose proof (counter_get _ _ _ _ _ _ Hg Hc) as Hcc.
  unfold AddStruct. rewrite Hg. cbn [mbind option_bind]. rewrite Hcc. cbn [mbind option_bind].
  assert (∃ m1, (if c =? 0 then upd_low m x z (λ low, low_preinc low t) else Some m) = Some m1
    ∧ map_wf m1 ∧ same_dims m m1 ∧ grid m1 = grid m
    ∧ low_upd m m1 x z t (if c =? 0 then l + 1 else l)) as (m1 & -> & Hw1 & Hd1 & Hg1 & Hl1).
  { destruct (c =? 0); [|exists m; repeat (split; [done|]); by apply low_upd_refl]. eapply upd_low_struct; eauto.
    intros low Hlw Hll. by apply low_preinc_ok. }
  cbn [mbind option_bind].
  destruct (put_cell_ok m1 x z (MkCell (blockerMask cell) nim (GetStructMask t) (blockerCounts cell)) Hw1)
    as (m2 & -> & Hw2 & Hlow2 & ? & ? & ? & ? & Hs2).
  - by apply (in_map_dims m).
  - done.
  - assert (same_dims m1 m2) as Hd2 by dims. assert (same_dims m m2) as Hd by (by transitivity m1).
    assert (cell_idx m1 x z = cell_idx m x z) as Hci.
    { unfold cell_idx. by rewrite (sd_columns _ _ Hd1). }
    exists m2. repeat (split; [done|]). rewrite Hci, Hg1 in Hs2. split; [|split].
    + by eapply (put_same_counts m m2 x z cell); [| | | |exact Hs2].
    + intros j t'. rewrite <-(Hl1 j t'). unfold low_counter. by rewrite Hlow2.
    + unfold struct_at, cell_idx in *. rewrite (sd_columns _ _ Hd).
      rewrite (zget_zset_eq _ _ _ _ Hs2). reflexivity.
Qed.

Lemma DelStruct_ok m x z t nim c l :
  map_wf m → in_map m x z →
  blocker_count m x z t = Some c → low_count m x z t = Some l → (c = 0 → 0 < l) →
  struct_moves m x z t (if c =? 0 then l - 1 else l) (0, Mask.NONE) (DelStruct m x z t nim).
Proof.
  intros H Hin Hc Hl Hlm. destruct (get_cell_ok m x z H Hin) as (cell & Hg & Hw).
  pose proof (counter_get _ _ _ _ _ _ Hg Hc) as Hcc.
  unfold DelStruct. rewrite Hg. cbn [mbind option_bind].
  destruct (put_cell_ok m x z (MkCell (blockerMask cell) 0 Mask.NONE (blockerCounts cell)) H Hin)
    as (m1 & -> & Hw1 & Hlow1 & ? & ? & ? & ? & Hs1); [done|].
  assert (same_dims m m1) as Hd1 by dims.
  cbn [mbind option_bind]. rewrite Hcc. cbn [mbind option_bind].
  assert (low_count m1 x z t = Some l) as Hl1.
  { rewrite <-Hl. unfold low_count, low_counter, low_idx.
    by rewrite Hlow1, (sd_columnsLow _ _ Hd1). }
  assert (∃ m2, (if c =? 0 then upd_low m1 x z (λ low, low_postdec low t) else Some m1) = Some m2
    ∧ map_wf m2 ∧ same_dims m1 m2 ∧ grid m2 = grid m1
    ∧ low_upd m1 m2 x z t (if c =? 0 then l - 1 else l)) as (m2 & -> & Hw2 & Hd2 & Hg2 & Hl2).
  { destruct (Z.eqb_spec c 0); [|exists m1; repeat (split; [done|]); by apply low_upd_refl]. eapply upd_low_struct; eauto.
    - by apply (in_map_dims m).
    - intros low Hlw Hll. apply low_postdec_ok; [done|done|lia]. }
  assert (same_dims m m2) as Hd by (by transitivity m1).
  exists m2. repeat (split; [done|]). rewrite <-Hg2 in Hs1. split; [|split].
  - by eapply (put_same_counts m m2 x z cell); [| | | |exact Hs1].
  - intros j t'. rewrite (Hl2 j t'). unfold low_idx, low_counter.
    by rewrite Hlow1, (sd_columnsLow _ _ Hd1).
  - unfold struct_at, cell_idx in *. rewrite (sd_columns _ _ Hd).
    rewrite (zget_zset_eq _ _ _ _ Hs1). reflexivity.
Qed.

(** ** The low grid counts the blocked cells of each 8 x 8 block *)

Definition block_cells (xl zl : Z) : list (Z * Z) :=
  (λ k, (8 * xl + k `mod` 8, 8 * zl + k `div` 8)) <$> seqZ 0 64.

Definition blocked_in (m : SBlockingMap) (t : StructType) (p : Z * Z) : Z :=
  match blocker_count m p.1 p.2 t with
  | Some c => if 0 <? c then 1 else 0
  | None => 0
  end.

Definition blocked_cells (m : SBlockingMap) (xl zl : Z) (t : StructType) : Z :=
  lsum (blocked_in m t) (block_cells xl zl).

Definition in_low (m : SBlockingMap) (xl zl : Z) : Prop :=
  0 <= xl < columnsLow m ∧ 0 <= zl < rowsLow m.

Definition low_exact (m : SBlockingMap) : Prop :=
  ∀ xl zl t, in_low m xl zl →
    low_counter m (zl * columnsLow m + xl) t = Some (blocked_cells m xl zl t).

Lemma block_cells_NoDup xl zl : NoDup (block_cells xl zl).
Proof.
  unfold block_cells. apply NoDup_fmap_2_strong; [|apply NoDup_seqZ].
  intros k k' Hk%elem_of_seqZ Hk'%elem_of_seqZ [= ? ?].
  pose proof (Z.div_mod k 8). pose proof (Z.div_mod k' 8). lia.
Qed.

Lemma elem_of_block_cells xl zl x z :
  (x, z) ∈ block_cells xl zl ↔ 8 * xl <= x < 8 * xl + 8 ∧ 8 * zl <= z < 8 * zl + 8.
Proof.
  unfold block_cells. rewrite list_elem_of_fmap. split.
  - intros (k & [= -> ->] & Hk%elem_of_seqZ).
    pose proof (Z.mod_pos_bound k 8). assert (0 <= k / 8 < 8).
    { split; [apply Z.div_pos; lia|apply Z.div_lt_upper_bound; lia]. }
    lia.
  - intros [Hx Hz]. exists ((z - 8 * zl) * 8 + (x - 8 * xl)). split.
    + f_equal.
      * replace ((z - 8 * zl) * 8 + (x - 8 * xl)) with (x - 8 * xl + (z - 8 * zl) * 8) by lia.
        rewrite Z.mod_add, Z.mod_small by lia. lia.
      * rewrite Z.div_add_l, Z.div_small by lia. lia.
    + apply elem_of_seqZ. lia.
Qed.

Lemma block_cells_in_map m xl zl x z :
  map_wf m → in_low m xl zl → (x, z) ∈ block_cells xl zl → in_map m x z.
Proof.
  intros H [] Hin%elem_of_block_cells. unfold in_map.
  rewrite (wf_columns _ H), (wf_rows _ H). unfold GRID_RATIO_LOW. lia.
Qed.

(** The block of a cell. *)
Lemma low_idx_block m x z :
  map_wf m → in_map m x z →
  in_low m (x `div` 8) (z `div` 8) ∧ low_idx m x z = z `div` 8 * columnsLow m + x `div` 8.
Proof.
  intros H [Hx Hz]. unfold low_idx, in_low. rewrite (wf_columns _ H) in Hx.
  rewrite (wf_rows _ H) in Hz. unfold GRID_RATIO_LOW in *.
  rewrite (Z.quot_div_nonneg x), (Z.quot_div_nonneg z) by lia. split; [|done].
  split; (split; [apply Z.div_pos; lia|apply Z.div_lt_upper_bound; lia]).
Qed.

Lemma low_idx_inj m xl zl xl' zl' :
  in_low m xl zl → in_low m xl' zl' →
  zl * columnsLow m + xl = zl' * columnsLow m + xl' → xl = xl' ∧ zl = zl'.
Proof.
  intros [? ?] [? ?] ?. destruct (Z.lt_total zl zl') as [|[->|]].
  - exfalso. assert (columnsLow m * (zl' - zl) >= columnsLow m) by nia. lia.
  - lia.
  - exfalso. assert (columnsLow m * (zl - zl') >= columnsLow m) by nia. lia.
Qed.

Lemma low_exact_count m x z t :
  map_wf m → low_exact m → in_map m x z →
  low_count m x z t = Some (blocked_cells m (x `div` 8) (z `div` 8) t).
Proof.
  intros H Hex Hin. destruct (low_idx_block m x z H Hin) as [Hl Hi].
  unfold low_count. rewrite Hi. by apply Hex.
Qed.

Lemma blocked_cells_bound m xl zl t : 0 <= blocked_cells m xl zl t <= 64.
Proof.
  unfold blocked_cells. pose proof (lsum_bound (blocked_in m t) (block_cells xl zl) 0 1) as Hb.
  assert (zlen (block_cells xl zl) = 64) as Hl by done.
  rewrite Hl in Hb. enough (0 * 64 <= lsum (blocked_in m t) (block_cells xl zl) <= 1 * 64) by lia.
  apply Hb. intros p _. unfold blocked_in. repeat case_match; lia.
Qed.

Definition b2z (b : bool) : Z := if b then 1 else 0.

Lemma low_exact_step m m' x z t c c' l l' :
  map_wf m → in_map m x z → low_exact m → same_dims m m' →
  blocker_count m x z t = Some c → low_count m x z t = Some l →
  counts_upd m m' x z t c' → low_upd m m' x z t l' →
  l' = l + b2z (0 <? c') - b2z (0 <? c) → low_exact m'.
Proof.
  intros H Hin Hex Hd Hc Hl Hcu Hlu -> xl zl t' Hlow.
  assert (in_low m xl zl) as Hlow0.
  { unfold in_low in *. by rewrite <-(sd_columnsLow _ _ Hd), <-(sd_rowsLow _ _ Hd). }
  rewrite (sd_columnsLow _ _ Hd), Hlu. destruct (low_idx_block m x z H Hin) as [Hxz Hi].
  assert (∀ p, p ∈ block_cells xl zl → (p, t') ≠ ((x, z), t) → blocked_in m' t' p = blocked_in m t' p)
    as Hsame.
  { intros [x' z'] Hp Hne. unfold blocked_in. simpl.
    rewrite (Hcu x' z' t'); [|apply (in_map_dims m); eauto using block_cells_in_map].
    - by rewrite decide_False by congruence.
    - done. }
  destruct (decide ((zl * columnsLow m + xl, t') = (low_idx m x z, t))) as [[= E ->]|Hne].
  - rewrite Hi in E. apply low_idx_inj in E as [-> ->]; [|done|done].
    assert ((x, z) ∈ block_cells (x `div` 8) (z `div` 8)) as Hblk.
    { apply elem_of_block_cells. pose proof (Z.div_mod x 8). pose proof (Z.div_mod z 8).
      pose proof (Z.mod_pos_bound x 8). pose proof (Z.mod_pos_bound z 8). lia. }
    unfold blocked_cells.
    rewrite (lsum_update (blocked_in m t) _ _ (x, z)) by
      (done || apply block_cells_NoDup || (intros; apply Hsame; congruence)).
    rewrite (low_exact_count _ _ _ _ H Hex Hin) in Hl. injection Hl as <-. f_equal.
    assert (blocked_in m t (x, z) = b2z (0 <? c)) as -> by (unfold blocked_in; by simpl; rewrite Hc).
    assert (blocked_in m' t (x, z) = b2z (0 <? c')) as ->.
    { unfold blocked_in. simpl. rewrite (Hcu x z t) by (by apply (in_map_dims m)).
      by rewrite decide_True by done. }
    unfold blocked_cells. lia.
  - rewrite (Hex xl zl t') by done. unfold blocked_cells. f_equal. symmetry.
    apply lsum_ext. intros [x' z'] Hp. apply Hsame; [done|]. intros [= -> -> ->].
    apply Hne. f_equal. rewrite Hi. apply elem_of_block_cells in Hp.
    replace (x `div` 8) with xl by (apply Z.div_unique with (x - 8 * xl); lia).
    by replace (z `div` 8) with zl by (apply Z.div_unique with (z - 8 * zl); lia).
Qed.

(** ** Queries, in terms of counters *)

Lemma ST_surj i : 0 <= i < StructType_SIZE → ∃ t, ST t = i.
Proof.
  unfold StructType_SIZE. intros ?.
  assert (i = 0 ∨ i = 1 ∨ i = 2 ∨ i = 3 ∨ i = 4 ∨ i = 5 ∨ i = 6 ∨ i = 7 ∨ i = 8 ∨ i = 9 ∨ i = 10
    ∨ i = 11 ∨ i = 12) as Hi by lia.
  repeat destruct Hi as [Hi|Hi]; subst;
    first [by exists FACTORY|by exists MEX|by exists ENGY_LOW|by exists ENGY_MID|by exists ENGY_HIGH
          |by exists PYLON|by exists DEF_LOW|by exists DEF_MID|by exists DEF_HIGH|by exists SPECIAL
          |by exists NANO|by exists TERRA|by exists UNKNOWN].
Qed.

Lemma mask_test thr mask counts nim :
  mask_counts thr mask counts →
  Z.land mask nim ≠ 0 ↔
    ∃ t c, counts.[ST t] = Some c ∧ thr <= c ∧ Z.testbit nim (ST t) = true.
Proof.
  intros H. split.
  - intros Hne. assert (∃ i, 0 <= i ∧ Z.testbit (Z.land mask nim) i = true) as (i & Hi0 & Hi).
    { destruct (mc_u16 _ _ _ H) as [? ?].
      assert (0 <= Z.land mask nim) by (apply Z.land_nonneg; lia).
      exists (Z.log2 (Z.land mask nim)). split; [apply Z.log2_nonneg|].
      apply Z.bit_log2. lia. }
    rewrite Z.land_spec in Hi. apply andb_true_iff in Hi as [Hm Hn].
    destruct (decide (i < StructType_SIZE)).
    + destruct (ST_surj i) as [t <-]; [lia|]. destruct (mc_get _ _ _ t H) as (c & Hc & _).
      rewrite (mc_bit _ _ _ H _ _ Hc) in Hm. apply bool_decide_eq_true in Hm. eauto.
    + rewrite (mc_high _ _ _ H) in Hm by lia. done.
  - intros (t & c & Hc & Hthr & Hn) E.
    assert (Z.testbit (Z.land mask nim) (ST t) = false) as Hf by (rewrite E; apply Z.bits_0).
    rewrite Z.land_spec, Hn, (mc_bit _ _ _ H _ _ Hc), bool_decide_true in Hf by done. done.
Qed.

Lemma IsBlocked_counters m x z nim :
  map_wf m → in_map m x z →
  ∃ b nis, IsBlocked m x z nim = Some b ∧ struct_at m x z = Some nis ∧
    (b = true ↔ (∃ t c, blocker_count m x z t = Some c ∧ 1 <= c ∧ Z.testbit nim (ST t) = true)
                ∨ nis.2 ≠ 0).
Proof.
  intros H Hin. destruct (get_cell_ok m x z H Hin) as (cell & Hg & Hw).
  unfold IsBlocked, struct_at, blocker_count. rewrite Hg. simpl.
  eexists _, _. split; [done|]. split; [done|]. simpl.
  rewrite orb_true_iff, !negb_true_iff, !Z.eqb_neq. by rewrite (mask_test _ _ _ nim Hw).
Qed.

Lemma IsBlockedLow_counters m xl zl nim :
  map_wf m → low_exact m → in_low m xl zl →
  ∃ b, IsBlockedLow m xl zl nim = Some b ∧
    (b = true ↔ ∃ t, BLOCK_THRESHOLD <= blocked_cells m xl zl t ∧ Z.testbit nim (ST t) = true).
Proof.
  intros H Hex Hin. unfold IsBlockedLow.
  destruct (zget_is_Some (gridLow m) (zl * columnsLow m + xl)) as [low Hl].
  { rewrite (wf_gridLow _ H). destruct Hin. nia. }
  rewrite Hl. simpl. eexists. split; [done|].
  pose proof (wf_lows _ H _ _ Hl) as Hw.
  assert (∀ t, (lowBlockerCounts low).[ST t] = Some (blocked_cells m xl zl t)) as Hc.
  { intros t. rewrite <-(Hex xl zl t Hin). unfold low_counter. by rewrite Hl. }
  rewrite negb_true_iff, Z.eqb_neq, (mask_test _ _ _ nim Hw). split.
  - intros (t & c & E & ? & ?). rewrite Hc in E. injection E as <-. eauto.
  - intros (t & ? & ?). exists t. eauto.
Qed.

(** ** Sequences of blocker operations refine counting *)

Inductive blk_op : Type :=
| OAdd (x z : Z) (t : StructType)
| ODel (x z : Z) (t : StructType).

Definition run_op (m : SBlockingMap) (o : blk_op) : option SBlockingMap :=
  match o with
  | OAdd x z t => AddBlocker m x z t
  | ODel x z t => DelBlocker m x z t
  end.

(** The abstract state: how many more times [t] was added at [(x, z)] than deleted. *)
Definition net (ops : list blk_op) (x z : Z) (t : StructType) : Z :=
  lsum (λ o, match o with
             | OAdd x' z' t' => b2z (bool_decide ((x', z', t') = (x, z, t)))
             | ODel x' z' t' => - b2z (bool_decide ((x', z', t') = (x, z, t)))
             end) ops.

(** Operations stay in the map, delete only what is there, and no counter overflows. *)
Definition op_allowed (cols rws : Z) (pre : list blk_op) (o : blk_op) : Prop :=
  match o with
  | OAdd x z t => 0 <= x < cols ∧ 0 <= z < rws ∧ net pre x z t < UINT16_MAX
  | ODel x z t => 0 <= x < cols ∧ 0 <= z < rws ∧ 0 < net pre x z t
  end.
Fixpoint ops_allowed (cols rws : Z) (pre ops : list blk_op) : Prop :=
  match ops with
  | [] => True
  | o :: ops => op_allowed cols rws pre o ∧ ops_allowed cols rws (pre ++ [o]) ops
  end.

Lemma ops_allowed_at cols rws done ops pre o post :
  ops_allowed cols rws done ops → ops = pre ++ o :: post → op_allowed cols rws (done ++ pre) o.
Proof.
  revert done pre. induction ops as [|o' ops IH]; intros dn [|o'' pre] Hok E; simplify_eq/=.
  - rewrite app_nil_r. tauto.
  - replace (dn ++ o'' :: pre) with ((dn ++ [o'']) ++ pre) by (by rewrite <-app_assoc).
    apply IH; tauto.
Qed.

Lemma net_snoc ops o x z t :
  net (ops ++ [o]) x z t =
    net ops x z t +
    match o with
    | OAdd x' z' t' => b2z (bool_decide ((x', z', t') = (x, z, t)))
    | ODel x' z' t' => - b2z (bool_decide ((x', z', t') = (x, z, t)))
    end.
Proof. unfold net. rewrite lsum_app. simpl. destruct o; lia. Qed.

Definition refines (ops : list blk_op) (m : SBlockingMap) : Prop :=
  map_wf m ∧ low_exact m ∧
  ∀ x z t, in_map m x z → blocker_count m x z t = Some (net ops x z t).

Lemma counts_upd_net ops o m m' x z t d :
  same_dims m m' →
  (∀ x z t, in_map m x z → blocker_count m x z t = Some (net ops x z t)) →
  counts_upd m m' x z t (net ops x z t + d) →
  (∀ x' z' t', net (ops ++ [o]) x' z' t' =
     net ops x' z' t' + (if bool_decide ((x, z, t) = (x', z', t')) then d else 0)) →
  ∀ x' z' t', in_map m' x' z' → blocker_count m' x' z' t' = Some (net (ops ++ [o]) x' z' t').
Proof.
  intros Hd Hc Hcu Hnet x' z' t' Hin. apply (in_map_dims m m') in Hin; [|done].
  rewrite Hcu by done. rewrite Hnet. decide_goal as [E|E].
  - injection E as -> -> ->. by rewrite bool_decide_true by done.
  - rewrite bool_decide_false by congruence. rewrite Hc by done.
    f_equal. lia.
Qed.

(** A blocked cell counts in its block. *)
Lemma blocked_cells_pos m x z t c :
  map_wf m → in_map m x z → blocker_count m x z t = Some c → 0 < c →
  0 < blocked_cells m (x `div` 8) (z `div` 8) t.
Proof.
  intros H Hin Hc Hpos. unfold blocked_cells.
  set (cells := block_cells (x `div` 8) (z `div` 8)).
  assert ((x, z) ∈ cells) as Hblk.
  { apply elem_of_block_cells. pose proof (Z.div_mod x 8). pose proof (Z.div_mod z 8).
    pose proof (Z.mod_pos_bound x 8). pose proof (Z.mod_pos_bound z 8). lia. }
  set (g := λ p, if decide (p = (x, z)) then 0 else blocked_in m t p).
  assert (lsum g cells = lsum (blocked_in m t) cells - blocked_in m t (x, z) + g (x, z)) as Hg.
  { apply lsum_update; [apply block_cells_NoDup|done|].
    intros b _ Hne. unfold g. by rewrite decide_False. }
  assert (blocked_in m t (x, z) = 1) as Hb1.
  { unfold blocked_in. simpl. rewrite Hc. by destruct (Z.ltb_spec 0 c); [|lia]. }
  assert (g (x, z) = 0) as Hg0 by (unfold g; by rewrite decide_True).
  assert (0 * zlen cells <= lsum g cells <= 1 * zlen cells); [|lia].
  apply lsum_bound. intros p _. unfold g, blocked_in. repeat case_match; lia.
Qed.

Lemma run_op_refines ops o m :
  refines ops m → op_allowed (columns m) (rows m) ops o →
  ∃ m', run_op m o = Some m' ∧ same_dims m m' ∧ refines (ops ++ [o]) m'.
Proof.
  intros (H & Hex & Hc) Hok.
  destruct o as [x z t|x z t]; destruct Hok as (Hx & Hz & Hn); assert (in_map m x z) as Hin by (split; done);
    pose proof (Hc x z t Hin) as Hcc; pose proof (low_exact_count m x z t H Hex Hin) as Hl;
    pose proof (blocked_cells_bound m (x `div` 8) (z `div` 8) t) as Hb.
  - destruct (AddBlocker_ok m x z t _ _ H Hin Hcc Hl) as (m' & Hm & Hw & Hd & Hcu & Hlu);
      [done|unfold UINT16_MAX; lia|].
    assert (0 <= net ops x z t).
    { destruct (get_cell_ok m x z H Hin) as (cell & Hg & Hwc).
      pose proof (mc_range _ _ _ Hwc _ _ (counter_get _ _ _ _ _ _ Hg Hcc)) as [? _]. done. }
    exists m'. split; [done|]. split; [done|]. split; [done|]. split.
    + eapply (low_exact_step m m'); eauto. unfold b2z.
      destruct (Z.eqb_spec (net ops x z t) 0); repeat case_match; lia.
    + eapply (counts_upd_net ops _ m m' x z t 1); eauto. intros x' z' t'. rewrite net_snoc.
      by case_bool_decide.
  - assert (net ops x z t = 1 → 0 < blocked_cells m (x `div` 8) (z `div` 8) t) as Hpos.
    { intros E. by apply (blocked_cells_pos m x z t (net ops x z t)); [..|lia]. }
    destruct (DelBlocker_ok m x z t _ _ H Hin Hcc Hl) as (m' & Hm & Hw & Hd & Hcu & Hlu);
      [done|done|].
    exists m'. split; [done|]. split; [done|]. split; [done|]. split.
    + eapply (low_exact_step m m'); eauto. unfold b2z.
      destruct (Z.eqb_spec (net ops x z t) 1); repeat case_match; lia.
    + eapply (counts_upd_net ops _ m m' x z t (-1)); eauto. intros x' z' t'. rewrite net_snoc.
      by case_bool_decide.
Qed.

Lemma init_refines mapWidth mapHeight :
  0 <= mapWidth → 0 <= mapHeight → mapWidth `mod` 16 = 0 → mapHeight `mod` 16 = 0 →
  refines [] (init_blockingMap mapWidth mapHeight).
Proof.
  intros Hw Hh Hw16 Hh16.
  assert (columns (init_blockingMap mapWidth mapHeight)
          = 8 * columnsLow (init_blockingMap mapWidth mapHeight)) as Hc.
  { cbn -[Z.mul Z.quot]. unfold GRID_RATIO_LOW. change (8 * 2) with 16. rewrite !Z.quot_div_nonneg by lia.
    rewrite (Z.div_mod mapWidth 16), Hw16 by lia. rewrite Z.add_0_r, (Z.mul_comm 16).
    rewrite Z.div_mul by lia. replace (mapWidth `div` 16 * 16) with (8 * (mapWidth `div` 16) * 2) by lia.
    by rewrite Z.div_mul by lia. }
  assert (rows (init_blockingMap mapWidth mapHeight)
          = 8 * rowsLow (init_blockingMap mapWidth mapHeight)) as Hr.
  { cbn -[Z.mul Z.quot]. unfold GRID_RATIO_LOW. change (8 * 2) with 16. rewrite !Z.quot_div_nonneg by lia.
    rewrite (Z.div_mod mapHeight 16), Hh16 by lia. rewrite Z.add_0_r, (Z.mul_comm 16).
    rewrite Z.div_mul by lia. replace (mapHeight `div` 16 * 16) with (8 * (mapHeight `div` 16) * 2) by lia.
    by rewrite Z.div_mul by lia. }
  assert (0 <= columnsLow (init_blockingMap mapWidth mapHeight)) by (apply Z.quot_pos; done).
  assert (0 <= rowsLow (init_blockingMap mapWidth mapHeight)) by (apply Z.quot_pos; done).
  set (m := init_blockingMap mapWidth mapHeight) in *.
  assert (grid m = replicate (Z.to_nat (columns m * rows m)) zero_cell) as Hg by done.
  assert (gridLow m = replicate (Z.to_nat (columnsLow m * rowsLow m)) zero_cellLow) as Hgl by done.
  clearbody m.
  assert (∀ thr, 1 <= thr → mask_counts thr 0 (replicate (Z.to_nat StructType_SIZE) 0)) as Hz.
  { intros thr ?. assert (∀ i c, (replicate (Z.to_nat StructType_SIZE) 0).[i] = Some c → c = 0) as Hz0.
    { intros i c. rewrite zget_replicate. by decide_goal; [intros [=]|]. }
    split; [done|done| | |intros; apply Z.bits_0].
    - intros i c ->%Hz0. done.
    - intros t c ->%Hz0. rewrite Z.bits_0. by rewrite bool_decide_false by lia. }
  assert (map_wf m) as Hwf.
  { split; try done.
    - rewrite Hg. by rewrite zlen_replicate by nia.
    - rewrite Hgl. by rewrite zlen_replicate by nia.
    - intros i cell. rewrite Hg, zget_replicate. decide_goal; [|done]. intros [= <-]. by apply Hz.
    - intros i low. rewrite Hgl, zget_replicate. decide_goal; [|done]. intros [= <-]. by apply Hz. }
  assert (∀ x z t, in_map m x z → blocker_count m x z t = Some 0) as Hcnt.
  { intros x z t Hin. unfold blocker_count. rewrite Hg, zget_replicate.
    pose proof (cell_idx_bound m x z Hin). rewrite decide_True by lia. by destruct t. }
  split; [done|]. split; [|done].
  intros xl zl t Hlow. unfold low_counter. rewrite Hgl, zget_replicate. rewrite decide_True.
  2:{ destruct Hlow. nia. }
  transitivity (Some 0); [by destruct t|]. f_equal. unfold blocked_cells.
  rewrite (lsum_ext _ (λ _, 0)); [done|]. intros [x z] Hp. unfold blocked_in. simpl.
  by rewrite Hcnt by eauto using block_cells_in_map.
Qed.

Lemma cell_eta cell :
  MkCell (blockerMask cell) (notIgnoreMask cell) (structMask cell) (blockerCounts cell) = cell.
Proof. by destruct cell. Qed.

(** The cell an [AddBlocker] rewrites, and back. *)
Lemma counts_back (counts : list Z) t c c' counts' :
  counts.[ST t] = Some c → counts.[ST t <- c'] = Some counts' → counts'.[ST t <- c] = Some counts.
Proof. intros Hg Hs. rewrite (zset_zset _ _ _ _ _ Hs). by apply zset_get. Qed.

Lemma low_inc_dec low t l :
  low_wf low → (lowBlockerCounts low).[ST t] = Some l → l < UINT16_MAX →
  ∃ low', low_preinc low t = Some low' ∧ low_postdec low' t = Some low.
Proof.
  intros H Hc Hmax. pose proof (mc_range _ _ _ H _ _ Hc) as Hcr.
  unfold low_preinc, low_postdec. rewrite Hc. simpl. unfold UINT16_MAX, is_u16 in *.
  rewrite (u16_small (l + 1)) by lia. destruct (mc_set _ _ _ t (l + 1) H) as [counts' Hs].
  rewrite Hs. simpl. eexists. split; [done|]. simpl. rewrite (zget_zset_eq _ _ _ _ Hs). simpl.
  replace (l + 1 - 1) with l by lia. rewrite (u16_small l) by lia.
  rewrite (counts_back _ _ _ _ _ Hc Hs). simpl. f_equal.
  destruct (Z.eqb_spec (l + 1) BLOCK_THRESHOLD) as [E|E]; [|by destruct low].
  rewrite set_clear_bit; [by destruct low|apply (mc_u16 _ _ _ H)|].
  rewrite (mc_bit _ _ _ H _ _ Hc). apply bool_decide_false. lia.
Qed.

(** ** Properties *)

(** C12: Refinement to the abstract counters: after any sequence of AddBlocker and
    DelBlocker calls that stays inside the map, removes only what was added and never
    nests a cell deeper than the counter holds, starting from the empty map of the
    constructor, the run has no undefined behaviour, every counter is the number of
    additions minus removals, IsBlocked answers whether a type of the mask has a positive
    count (or a structure stands there), and IsBlockedLow answers whether at least 48 of
    the 64 cells of the coarse cell are blocked by a type of the mask. *)
Theorem blocking_counts_refine mapWidth mapHeight ops
    (Hw : 0 <= mapWidth) (Hh : 0 <= mapHeight)
    (Hw16 : mapWidth `mod` 16 = 0) (Hh16 : mapHeight `mod` 16 = 0)
    (Hops : ops_allowed (Z.quot mapWidth 2) (Z.quot mapHeight 2) [] ops) :
  ∃ m, foldM run_op (init_blockingMap mapWidth mapHeight) ops = Some m ∧
    (∀ x z t, in_map m x z → blocker_count m x z t = Some (net ops x z t)) ∧
    (∀ x z nim, in_map m x z →
      ∃ b nis, IsBlocked m x z nim = Some b ∧ struct_at m x z = Some nis ∧
        (b = true ↔ (∃ t, 0 < net ops x z t ∧ Z.testbit nim (ST t) = true) ∨ nis.2 ≠ 0)) ∧
    (∀ xl zl nim, in_low m xl zl →
      ∃ b, IsBlockedLow m xl zl nim = Some b ∧
        (b = true ↔ ∃ t, BLOCK_THRESHOLD <= blocked_cells m xl zl t ∧
                         Z.testbit nim (ST t) = true)).
Proof.
  destruct (foldM_ind (λ pre m, refines pre m ∧ columns m = Z.quot mapWidth 2 ∧
    rows m = Z.quot mapHeight 2) run_op ops (init_blockingMap mapWidth mapHeight))
    as (m & Hm & (Hwf & Hex & Hc) & Hcols & Hrows).
  - split; [by apply init_refines|done].
  - intros pre o post m Heq (Href & Hcols & Hrows).
    destruct (run_op_refines pre o m Href) as (m' & Hm' & Hd & Href').
    + rewrite Hcols, Hrows. by eapply (ops_allowed_at _ _ []).
    + exists m'. split; [done|]. split; [done|]. rewrite (sd_columns _ _ Hd), (sd_rows _ _ Hd). done.
  - exists m. split; [done|]. split; [done|]. split.
    + intros x z nim Hin. destruct (IsBlocked_counters m x z nim Hwf Hin) as (b & nis & ? & ? & Hb).
      exists b, nis. split; [done|]. split; [done|]. rewrite Hb.
      assert ((∃ t c, blocker_count m x z t = Some c ∧ 1 <= c ∧ Z.testbit nim (ST t) = true)
        ↔ ∃ t, 0 < net ops x z t ∧ Z.testbit nim (ST t) = true) as ->; [|done].
      split; intros (t & Ht).
      * destruct Ht as (c & Hcc & ? & ?). rewrite Hc in Hcc by done. injection Hcc as <-.
        exists t. split; [lia|done].
      * exists t, (net ops x z t). rewrite Hc by done. split; [done|]. split; [lia|tauto].
    + intros xl zl nim Hin. by apply IsBlockedLow_counters.
Qed.

Definition ops_example : list blk_op :=
  [OAdd 1 2 PYLON; OAdd 1 2 PYLON; OAdd 3 3 MEX; ODel 1 2 PYLON].

Lemma ops_example_allowed : ops_allowed 8 8 [] ops_example.
Proof. vm_compute. repeat split; congruence. Qed.

Lemma blocking_counts_refine_witness :
  ∃ m, foldM run_op (init_blockingMap 16 16) ops_example = Some m ∧
       blocker_count m 1 2 PYLON = Some 1.
Proof.
  destruct (blocking_counts_refine 16 16 ops_example ltac:(lia) ltac:(lia) eq_refl eq_refl
    ops_example_allowed) as (m & Hm & Hc & _).
  exists m. split; [exact Hm|]. rewrite Hc; [reflexivity|].
  vm_compute in Hm. injection Hm as <-. split; vm_compute; split; congruence.
Defined.

(** C40: Round trip: on a well-formed map, AddBlocker followed by DelBlocker of the same
    cell and type restores the whole map, masks and coarse counters included, when neither
    counter is at its maximum. *)
Theorem AddBlocker_DelBlocker m x z t c l
    (H : map_wf m) (Hin : in_map m x z)
    (Hc : blocker_count m x z t = Some c) (Hl : low_count m x z t = Some l)
    (Hcm : c < UINT16_MAX) (Hlm : l < UINT16_MAX) :
  (m' ← AddBlocker m x z t; DelBlocker m' x z t) = Some m.
Proof.
  destruct (get_cell_ok m x z H Hin) as (cell & Hg & Hw).
  destruct (get_low_ok m x z H Hin) as (low & Hgl & Hlw).
  pose proof (counter_get _ _ _ _ _ _ Hg Hc) as Hcc.
  pose proof (low_counter_get _ _ _ _ _ _ Hgl Hl) as Hll.
  pose proof (mc_range _ _ _ Hw _ _ Hcc) as Hcr. unfold is_u16, UINT16_MAX in *.
  destruct (mc_set _ _ _ t (c + 1) Hw) as [counts' Hs].
  assert (∃ g, ∀ cell', (grid m).[cell_idx m x z <- cell'] = Some (g cell')) as [g Hg'].
  { eexists. intros cell'. apply zset_Some. rewrite (wf_grid _ H). by apply cell_idx_bound. }
  unfold AddBlocker. rewrite Hg. cbn [mbind option_bind]. rewrite Hcc. cbn [mbind option_bind].
  rewrite (u16_small (c + 1)) by lia. rewrite Hs. cbn [mbind option_bind].
  destruct (Z.eqb_spec c 0) as [->|].
  - unfold put_cell at 1. rewrite Hg'. cbn [mbind option_bind].
    destruct (low_inc_dec low t l Hlw Hll) as (low' & Hinc & Hdec); [unfold UINT16_MAX; lia|].
    assert (∃ gl, (gridLow m).[low_idx m x z <- low'] = Some gl) as [gl Hsl].
    { eexists. apply zset_Some. rewrite (wf_gridLow _ H). by apply low_idx_bound. }
    unfold upd_low at 1. unfold low_idx, cell_idx in *. cbn [set_grid gridLow columnsLow].
    rewrite Hgl. cbn [mbind option_bind]. rewrite Hinc. cbn [mbind option_bind]. rewrite Hsl.
    cbn [mbind option_bind set_gridLow set_grid]. unfold DelBlocker, put_cell, upd_low, cell_idx, low_idx.
    cbn [grid columns gridLow columnsLow set_gridLow set_grid blockerCounts blockerMask].
    rewrite (zget_zset_eq _ _ _ _ (Hg' _)). cbn [mbind option_bind blockerCounts].
    rewrite (zget_zset_eq _ _ _ _ Hs). cbn [mbind option_bind].
    change (u16 (0 + 1 - 1)) with 0. rewrite (counts_back _ _ _ _ _ Hcc Hs). cbn [mbind option_bind].
    cbn [Z.eqb]. rewrite (zset_zset _ _ _ _ _ (Hg' _)). cbn [blockerMask notIgnoreMask structMask].
    rewrite set_clear_bit; [|apply (mc_u16 _ _ _ Hw)|rewrite (mc_bit _ _ _ Hw _ _ Hcc); apply bool_decide_false; lia].
    rewrite (cell_eta cell).
    rewrite (zset_get _ _ _ Hg).
    cbn [mbind option_bind grid gridLow columnsLow set_grid set_gridLow].
    rewrite (zget_zset_eq _ _ _ _ Hsl). cbn [mbind option_bind]. rewrite Hdec.
    cbn [mbind option_bind]. rewrite (zset_zset _ _ _ _ _ Hsl), (zset_get _ _ _ Hgl). by destruct m.
  - unfold put_cell at 1. rewrite Hg'. cbn [mbind option_bind]. unfold DelBlocker, put_cell, cell_idx in *.
    cbn [grid columns set_grid]. rewrite (zget_zset_eq _ _ _ _ (Hg' _)). cbn [mbind option_bind blockerCounts].
    rewrite (zget_zset_eq _ _ _ _ Hs). cbn [mbind option_bind].
    replace (c + 1 - 1) with c by lia. rewrite (u16_small c) by lia.
    rewrite (counts_back _ _ _ _ _ Hcc Hs). cbn [mbind option_bind].
    destruct (Z.eqb_spec c 0); [done|]. rewrite (zset_zset _ _ _ _ _ (Hg' _)).
    cbn [blockerMask notIgnoreMask structMask].
    rewrite (cell_eta cell).
    rewrite (zset_get _ _ _ Hg). by destruct m.
Qed.

(** A small well-formed map used by the witnesses: 16 x 16 map squares. *)
Definition m16 : SBlockingMap := init_blockingMap 16 16.

Lemma m16_refines : refines [] m16.
Proof. by apply init_refines. Qed.

Lemma AddBlocker_DelBlocker_witness :
  (m' ← AddBlocker m16 1 2 PYLON; DelBlocker m' 1 2 PYLON) = Some m16.
Proof.
  apply (AddBlocker_DelBlocker m16 1 2 PYLON 0 0).
  - exact (proj1 m16_refines).
  - split; vm_compute; split; congruence.
  - reflexivity.
  - reflexivity.
  - reflexivity.
  - reflexivity.
Defined.

(** A structure on a free cell: the round trip of [AddStruct] and [DelStruct]. *)
Lemma AddStruct_DelStruct_undo m x z t nim nim' c l :
  map_wf m → in_map m x z →
  blocker_count m x z t = Some c → low_count m x z t = Some l → l < UINT16_MAX →
  struct_at m x z = Some (0, Mask.NONE) →
  (m' ← AddStruct m x z t nim; DelStruct m' x z t nim') = Some m.
Proof.
  intros H Hin Hc Hl Hlm Hst. destruct (get_cell_ok m x z H Hin) as (cell & Hg & Hw).
  destruct (get_low_ok m x z H Hin) as (low & Hgl & Hlw).
  pose proof (counter_get _ _ _ _ _ _ Hg Hc) as Hcc.
  pose proof (low_counter_get _ _ _ _ _ _ Hgl Hl) as Hll.
  assert (MkCell (blockerMask cell) 0 Mask.NONE (blockerCounts cell) = cell) as Heta.
  { unfold struct_at in Hst. rewrite Hg in Hst. simpl in Hst. destruct cell. simpl in *. congruence. }
  assert (∃ g, ∀ cell', (grid m).[cell_idx m x z <- cell'] = Some (g cell')) as [g Hg'].
  { eexists. intros cell'. apply zset_Some. rewrite (wf_grid _ H). by apply cell_idx_bound. }
  destruct (low_inc_dec low t l Hlw Hll Hlm) as (low' & Hinc & Hdec).
  assert (∃ gl, (gridLow m).[low_idx m x z <- low'] = Some gl) as [gl Hsl].
  { eexists. apply zset_Some. rewrite (wf_gridLow _ H). by apply low_idx_bound. }
  unfold AddStruct, DelStruct, upd_low, put_cell, cell_idx, low_idx in *.
  rewrite Hg. cbn [mbind option_bind]. rewrite Hcc. cbn [mbind option_bind].
  destruct (Z.eqb_spec c 0) as [->|].
  - rewrite Hgl. cbn [mbind option_bind]. rewrite Hinc. cbn [mbind option_bind]. rewrite Hsl.
    cbn [mbind option_bind set_gridLow grid columns]. rewrite Hg'.
    cbn [mbind option_bind set_grid set_gridLow grid columns].
    rewrite (zget_zset_eq _ _ _ _ (Hg' _)). cbn [mbind option_bind blockerCounts blockerMask].
    rewrite (zset_zset _ _ _ _ _ (Hg' _)), Heta, (zset_get _ _ _ Hg). cbn [mbind option_bind].
    rewrite Hcc. cbn [Z.eqb mbind option_bind gridLow columnsLow set_grid set_gridLow].
    rewrite (zget_zset_eq _ _ _ _ Hsl).
    cbn [Z.eqb mbind option_bind]. rewrite Hdec. cbn [mbind option_bind].
    rewrite (zset_zset _ _ _ _ _ Hsl), (zset_get _ _ _ Hgl). by destruct m.
  - cbn [mbind option_bind]. rewrite Hg'. cbn [mbind option_bind set_grid grid columns].
    rewrite (zget_zset_eq _ _ _ _ (Hg' _)). cbn [mbind option_bind blockerCounts blockerMask].
    rewrite (zset_zset _ _ _ _ _ (Hg' _)), Heta, (zset_get _ _ _ Hg). cbn [mbind option_bind].
    rewrite Hcc. cbn [mbind option_bind]. destruct (Z.eqb_spec c 0); [done|]. by destruct m.
Qed.

(** Functional behaviour of MarkBlocker: the cell's counter becomes MAX_BLOCK_VAL, its
    notIgnoreMask is stored, the coarse counter grows by one, and the coarse mask bit is
    set exactly when the OLD coarse count had reached the threshold, that is one mark
    later than in AddBlocker, which compares the new count. *)
Theorem MarkBlocker_spec m x z t nim low l
    (H : map_wf m) (Hin : in_map m x z)
    (Hlow : (gridLow m).[low_idx m x z] = Some low)
    (Hl : (lowBlockerCounts low).[ST t] = Some l) (Hmax : l < UINT16_MAX) :
  ∃ m' low', MarkBlocker m x z t nim = Some m' ∧
    blocker_count m' x z t = Some MAX_BLOCK_VAL ∧
    option_map fst (struct_at m' x z) = Some nim ∧
    (gridLow m').[low_idx m x z] = Some low' ∧
    (lowBlockerCounts low').[ST t] = Some (l + 1) ∧
    Z.testbit (lowBlockerMask low') (ST t) = (BLOCK_THRESHOLD <=? l).
Proof.
  destruct (get_cell_ok m x z H Hin) as (cell & Hg & Hw).
  pose proof (wf_lows _ H _ _ Hlow) as Hlw. pose proof (mc_range _ _ _ Hlw _ _ Hl) as Hlr.
  destruct (mc_set _ _ _ t MAX_BLOCK_VAL Hw) as [counts' Hs].
  destruct (mc_set _ _ _ t (l + 1) Hlw) as [lcounts' Hls].
  assert (∃ g, ∀ cell', (grid m).[cell_idx m x z <- cell'] = Some (g cell')) as [g Hg'].
  { eexists. intros cell'. apply zset_Some. rewrite (wf_grid _ H). by apply cell_idx_bound. }
  assert (∃ gl, ∀ low', (gridLow m).[low_idx m x z <- low'] = Some (gl low')) as [gl Hgl'].
  { eexists. intros low'. apply zset_Some. rewrite (wf_gridLow _ H). by apply low_idx_bound. }
  unfold MarkBlocker, put_cell, upd_low, blocker_count, struct_at, low_idx, cell_idx in *.
  rewrite Hg. cbn [mbind option_bind]. rewrite Hs. cbn [mbind option_bind]. rewrite Hg'.
  cbn [mbind option_bind set_grid gridLow columnsLow]. rewrite Hlow. cbn [mbind option_bind].
  rewrite Hl. cbn [mbind option_bind]. unfold is_u16, UINT16_MAX in *.
  rewrite (u16_small (l + 1)) by lia. rewrite Hls. cbn [mbind option_bind]. rewrite Hgl'.
  cbn [mbind option_bind]. eexists _, _. split; [reflexivity|].
  cbn [set_gridLow set_grid grid gridLow columns]. rewrite (zget_zset_eq _ _ _ _ (Hg' _)).
  rewrite (zget_zset_eq _ _ _ _ (Hgl' _)). cbn [mbind option_bind blockerCounts notIgnoreMask].
  split; [exact (zget_zset_eq _ _ _ _ Hs)|]. split; [reflexivity|]. split; [reflexivity|].
  split; [exact (zget_zset_eq _ _ _ _ Hls)|]. cbn [lowBlockerMask].
  pose proof (ST_bound t) as Hb. unfold StructType_SIZE in Hb.
  destruct (Z.eqb_spec l BLOCK_THRESHOLD).
  - rewrite set_bit_spec by lia. rewrite (bool_decide_true (ST t = ST t)) by done.
    rewrite orb_true_r. symmetry. apply Z.leb_le. lia.
  - rewrite (mc_bit _ _ _ Hlw _ _ Hl). destruct (Z.leb_spec BLOCK_THRESHOLD l).
    + by apply bool_decide_true.
    + apply bool_decide_false. lia.
Qed.

Lemma MarkBlocker_spec_witness :
  ∃ m' low', MarkBlocker m16 1 2 TERRA 7 = Some m' ∧
    (gridLow m').[0] = Some low' ∧ Z.testbit (lowBlockerMask low') (ST TERRA) = false.
Proof.
  destruct (MarkBlocker_spec m16 1 2 TERRA 7 zero_cellLow 0) as (m' & low' & Hm & _ & _ & Hg & _ & Hb).
  - exact (proj1 m16_refines).
  - split; vm_compute; split; congruence.
  - reflexivity.
  - reflexivity.
  - reflexivity.
  - exists m', low'. split; [exact Hm|]. split; [exact Hg|exact Hb].
Defined.

(** A structure and a blocker of the same type that share a cell and are removed in
    insertion order do not restore the coarse counter: it keeps a count of one, or wraps
    around to 65535; removal in the reverse order restores the map. *)
Theorem overlap_leaves_low_counter :
  (* a structure and a blocker of one type share a cell, and both are removed again *)
  (m ← AddStruct m16 1 1 DEF_LOW 0; m ← AddBlocker m 1 1 DEF_LOW;
   m ← DelStruct m 1 1 DEF_LOW 0; m ← DelBlocker m 1 1 DEF_LOW;
   low_count m 1 1 DEF_LOW) = Some 1 ∧
  (m ← AddBlocker m16 1 1 DEF_LOW; m ← AddStruct m 1 1 DEF_LOW 0;
   m ← DelBlocker m 1 1 DEF_LOW; m ← DelStruct m 1 1 DEF_LOW 0;
   low_count m 1 1 DEF_LOW) = Some UINT16_MAX ∧
  (* while removal in the reverse order of insertion restores the map *)
  (m ← AddStruct m16 1 1 DEF_LOW 0; m ← AddBlocker m 1 1 DEF_LOW;
   m ← DelBlocker m 1 1 DEF_LOW; DelStruct m 1 1 DEF_LOW 0) = Some m16.
Proof. vm_compute. done. Qed.

(** The single unsigned comparison of IsInBoundsLow is the two-sided bounds test for
    every int coordinate, negative ones included. *)
Theorem IsInBoundsLow_spec m x z
    (Hx : INT_MIN <= x <= INT_MAX) (Hz : INT_MIN <= z <= INT_MAX)
    (Hc : 0 <= columnsLow m <= INT_MAX) (Hr : 0 <= rowsLow m <= INT_MAX) :
  IsInBoundsLow m x z = true ↔ in_low m x z.
Proof.
  unfold IsInBoundsLow, in_low, INT_MAX, INT_MIN in *. rewrite andb_true_iff, !Z.ltb_lt.
  rewrite (u32_small (columnsLow m)), (u32_small (rowsLow m)) by lia.
  assert (∀ v, -2147483648 <= v <= 2147483647 → u32 v = if decide (0 <= v) then v else v + 2 ^ 32) as Hu.
  { intros v ?. decide_goal; [apply u32_small; lia|]. unfold u32.
    symmetry. apply Z.mod_unique with (-1); lia. }
  rewrite !Hu by lia. repeat case_decide; lia.
Qed.

Lemma IsInBoundsLow_spec_witness : IsInBoundsLow m16 (-1) 0 = true ↔ in_low m16 (-1) 0.
Proof. apply IsInBoundsLow_spec; vm_compute; split; congruence. Defined.

Lemma Bound_in_map m r1 r2 x z :
  (Bound m r1 r2).1.1 <= x < (Bound m r1 r2).2.1 → (Bound m r1 r2).1.2 <= z < (Bound m r1 r2).2.2 →
  in_map m x z ∧ r1.1 <= x < r2.1 ∧ r1.2 <= z < r2.2.
Proof. unfold Bound, in_map. simpl. lia. Qed.

(** The two name tables of BlockingMap.cpp agree: every name that maps to a structure
    type maps in the mask table to the mask of that type. *)
Theorem name_tables_agree name t :
  (name, t) ∈ structTypes → (name, GetStructMask t) ∈ structMasks.
Proof.
  intros Hin. apply list_elem_of_In in Hin. apply list_elem_of_In. simpl in Hin.
  repeat (destruct Hin as [[= <- <-]|Hin]; [vm_compute; tauto|]). done.
Qed.

Lemma name_tables_agree_witness : ("mex"%string, GetStructMask MEX) ∈ structMasks.
Proof. apply (name_tables_agree "mex" MEX). right. left. Defined.
