(* ===== verification/BlockMask.v ===== *)
(** * BlockMask: footprints of buildings

    Models [src/src/circuit/terrain/BlockMask.h/.cpp], [BlockRectangle.cpp] and
    [BlockCircle.cpp]: a rectangular array of cell types with the building's structure
    rectangle, stored for the south facing and read through one accessor per facing. *)

From S2P Require Import Prelude BlockingMap.

Open Scope circuit_scope.

(** The engine's [int2] is a pair of [int] with component-wise arithmetic. *)
Abbreviation int2 := (Z * Z)%type.

Definition i2add (a b : int2) : int2 := (a.1 + b.1, a.2 + b.2).
Definition i2sub (a b : int2) : int2 := (a.1 - b.1, a.2 - b.2).
Definition i2div (a : int2) (d : Z) : int2 := (Z.quot a.1 d, Z.quot a.2 d).

Inductive BlockType : Type := OPEN | BLOCK | STRUCT.

#[export] Instance BlockType_eq_dec : EqDecision BlockType.
Proof. solve_decision. Defined.

Record IBlockMask : Type := MkBlockMask {
  mask : list BlockType;   (** South is the stored facing *)
  xsize : Z;
  zsize : Z;
  offsetSouth : int2;
  offsetEast : int2;
  offsetNorth : int2;
  offsetWest : int2;
  structType : StructType;
  ignoreMask : Z
}.

Record BlockRects : Type := MkRects { b1 : int2; b2 : int2; s1 : int2; s2 : int2 }.

(** The facings of [Defines.h]; the [switch]es treat every other value as south. *)
Definition UNIT_FACING_SOUTH : Z := 0.
Definition UNIT_FACING_EAST : Z := 1.
Definition UNIT_FACING_NORTH : Z := 2.
Definition UNIT_FACING_WEST : Z := 3.

Definition new_IBlockMask (st : StructType) (ignore : Z) : IBlockMask :=
  MkBlockMask [] 0 0 (0, 0) (0, 0) (0, 0) (0, 0) st ignore.

(** [IBlockMask::Init]: the rectangles and the mask object with its sizes and offsets. *)
Definition Init (bm : IBlockMask) (offset bsize ssize : int2) : BlockRects * IBlockMask :=
  let bcenter := (0, 0) in
  let mcenter := i2add bcenter offset in
  let b1 := i2sub mcenter (i2div bsize 2) in
  let b2 := i2add b1 bsize in
  let s1 := i2sub bcenter (i2div ssize 2) in
  let s2 := i2add s1 ssize in
  let addon := (Z.min b1.1 s1.1, Z.min b1.2 s1.2) in
  let b1 := i2sub b1 addon in
  let b2 := i2sub b2 addon in
  let s1 := i2sub s1 addon in
  let s2 := i2sub s2 addon in
  let xsize := Z.max b2.1 s2.1 - Z.min b1.1 s1.1 in
  let zsize := Z.max b2.2 s2.2 - Z.min b1.2 s1.2 in
  let offsetSouth := (if b1.1 <? s1.1 then s1.1 - b1.1 else 0,
                      if b1.2 <? s1.2 then s1.2 - b1.2 else 0) in
  let offsetEast := (offsetSouth.2, if b2.1 >? s2.1 then b2.1 - s2.1 else 0) in
  let offsetNorth := (offsetSouth.1, if b2.2 >? s2.2 then b2.2 - s2.2 else 0) in
  let offsetWest := (offsetNorth.2, offsetSouth.1) in
  (MkRects b1 b2 s1 s2,
   MkBlockMask (replicate (Z.to_nat (xsize * zsize)) OPEN) xsize zsize
               offsetSouth offsetEast offsetNorth offsetWest (structType bm) (ignoreMask bm)).

Definition GetStructOffset (bm : IBlockMask) (facing : Z) : int2 :=
  if facing =? UNIT_FACING_NORTH then offsetNorth bm
  else if facing =? UNIT_FACING_EAST then offsetEast bm
  else if facing =? UNIT_FACING_WEST then offsetWest bm
  else offsetSouth bm.

Definition GetTypeSouth (bm : IBlockMask) (x z : Z) : option BlockType :=
  (mask bm).[z * xsize bm + x].
Definition GetTypeEast (bm : IBlockMask) (x z : Z) : option BlockType :=
  (mask bm).[(x + 1) * xsize bm - 1 - z].
Definition GetTypeNorth (bm : IBlockMask) (x z : Z) : option BlockType :=
  (mask bm).[(zsize bm - z) * xsize bm - 1 - x].
Definition GetTypeWest (bm : IBlockMask) (x z : Z) : option BlockType :=
  (mask bm).[(zsize bm - 1 - x) * xsize bm + z].

Definition set_mask (bm : IBlockMask) (l : list BlockType) : IBlockMask :=
  MkBlockMask l (xsize bm) (zsize bm) (offsetSouth bm) (offsetEast bm) (offsetNorth bm)
              (offsetWest bm) (structType bm) (ignoreMask bm).

(** The nested loops of the two constructors: every cell is classified. *)
Definition fill_mask (bm : IBlockMask) (classify : Z → Z → BlockType) : option IBlockMask :=
  l ← zfor 0 (zsize bm) (λ z l,
        zfor 0 (xsize bm) (λ x l, l.[z * xsize bm + x <- classify x z]) l) (mask bm);
  Some (set_mask bm l).

Definition in_rect (r1 r2 : int2) (x z : Z) : bool :=
  (r1.1 <=? x) && (x <? r2.1) && (r1.2 <=? z) && (z <? r2.2).

Definition rectangle_type (r : BlockRects) (x z : Z) : BlockType :=
  if in_rect (s1 r) (s2 r) x z then STRUCT
  else if in_rect (b1 r) (b2 r) x z then BLOCK
  else OPEN.

(** [CBlockRectangle::CBlockRectangle] *)
Definition CBlockRectangle (offset bsize ssize : int2) (st : StructType) (ignore : Z)
    : option IBlockMask :=
  let '(rects, bm) := Init (new_IBlockMask st ignore) offset bsize ssize in
  fill_mask bm (rectangle_type rects).

Definition circle_type (r : BlockRects) (radius : Z) (x z : Z) : BlockType :=
  let c := i2div (i2add (b1 r) (b2 r)) 2 in
  if in_rect (s1 r) (s2 r) x z then STRUCT
  else if (x - c.1) * (x - c.1) + (z - c.2) * (z - c.2) <=? radius * radius then BLOCK
  else OPEN.

(** [CBlockCircle::CBlockCircle] *)
Definition CBlockCircle (offset : int2) (radius : Z) (ssize : int2) (st : StructType) (ignore : Z)
    : option IBlockMask :=
  let bsize := (radius * 2, radius * 2) in
  let '(rects, bm) := Init (new_IBlockMask st ignore) offset bsize ssize in
  fill_mask bm (circle_type rects radius).

(** ** Well-formed masks and the accessors *)

Definition mask_wf (bm : IBlockMask) : Prop :=
  0 <= xsize bm ∧ 0 <= zsize bm ∧ zlen (mask bm) = xsize bm * zsize bm.

(** The four accessors, by facing, and the size of the mask seen in that facing. *)
Definition GetType (facing : Z) (bm : IBlockMask) (x z : Z) : option BlockType :=
  if facing =? UNIT_FACING_EAST then GetTypeEast bm x z
  else if facing =? UNIT_FACING_NORTH then GetTypeNorth bm x z
  else if facing =? UNIT_FACING_WEST then GetTypeWest bm x z
  else GetTypeSouth bm x z.

Definition is_sideways (facing : Z) : bool :=
  (facing =? UNIT_FACING_EAST) || (facing =? UNIT_FACING_WEST).
Definition facing_xsize (facing : Z) (bm : IBlockMask) : Z :=
  if is_sideways facing then zsize bm else xsize bm.
Definition facing_zsize (facing : Z) (bm : IBlockMask) : Z :=
  if is_sideways facing then xsize bm else zsize bm.

(** The south cell a facing reads. *)
Definition unrotate (facing : Z) (bm : IBlockMask) (x z : Z) : int2 :=
  if facing =? UNIT_FACING_EAST then (xsize bm - 1 - z, x)
  else if facing =? UNIT_FACING_NORTH then (xsize bm - 1 - x, zsize bm - 1 - z)
  else if facing =? UNIT_FACING_WEST then (z, zsize bm - 1 - x)
  else (x, z).

Lemma GetType_unrotate facing bm x z :
  GetType facing bm x z = GetTypeSouth bm (unrotate facing bm x z).1 (unrotate facing bm x z).2.
Proof.
  unfold GetType, unrotate, GetTypeEast, GetTypeNorth, GetTypeWest, GetTypeSouth.
  repeat case_match; simpl; f_equal; lia.
Qed.

Lemma unrotate_bound facing bm x z :
  0 <= x < facing_xsize facing bm → 0 <= z < facing_zsize facing bm →
  0 <= (unrotate facing bm x z).1 < xsize bm ∧ 0 <= (unrotate facing bm x z).2 < zsize bm.
Proof.
  unfold unrotate, facing_xsize, facing_zsize, is_sideways.
  destruct (Z.eqb_spec facing UNIT_FACING_EAST), (Z.eqb_spec facing UNIT_FACING_NORTH),
    (Z.eqb_spec facing UNIT_FACING_WEST); simpl; unfold UNIT_FACING_NORTH, UNIT_FACING_WEST,
    UNIT_FACING_EAST in *; lia.
Qed.

Lemma GetTypeSouth_is_Some bm x z :
  mask_wf bm → 0 <= x < xsize bm → 0 <= z < zsize bm → is_Some (GetTypeSouth bm x z).
Proof.
  intros (? & ? & Hl) ? ?. unfold GetTypeSouth. apply zget_is_Some_iff. rewrite Hl. nia.
Qed.

Lemma GetType_is_Some facing bm x z :
  mask_wf bm → 0 <= x < facing_xsize facing bm → 0 <= z < facing_zsize facing bm →
  is_Some (GetType facing bm x z).
Proof.
  intros H Hx Hz. rewrite GetType_unrotate. destruct (unrotate_bound _ _ _ _ Hx Hz).
  by apply GetTypeSouth_is_Some.
Qed.

(** ** The constructors fill the whole mask *)

Lemma fill_row (l : list BlockType) n z f :
  0 <= n → 0 <= z → (z + 1) * n <= zlen l →
  ∃ l', zfor 0 n (λ x l, l.[z * n + x <- f x z]) l = Some l' ∧ zlen l' = zlen l ∧
    ∀ i, zget l' i = if decide (z * n <= i < (z + 1) * n) then Some (f (i - z * n) z) else zget l i.
Proof.
  intros Hn Hz Hl.
  destruct (zfor_ind (λ k l', zlen l' = zlen l ∧
    ∀ i, zget l' i = if decide (z * n <= i < z * n + k) then Some (f (i - z * n) z) else zget l i)
    0 n (λ x l, l.[z * n + x <- f x z]) l) as (l' & Hr & Hl' & Hg).
  - done.
  - split; [done|]. intros i. by rewrite decide_False by lia.
  - intros k l1 Hk [Hl1 Hg1]. eexists. split; [apply zset_Some; lia|].
    assert (l1.[z * n + k <- f k z] = Some (<[Z.to_nat (z * n + k):=f k z]> l1)) as Hs
      by (apply zset_Some; lia).
    split; [by rewrite (zlen_zset _ _ _ _ Hs)|]. intros i. rewrite (zget_zset _ _ _ _ _ Hs), Hg1.
    repeat case_decide; subst; try lia; try done. do 2 f_equal. lia.
  - exists l'. split; [done|]. split; [done|]. intros i. rewrite Hg.
    repeat case_decide; try lia; done.
Qed.

Lemma fill_mask_ok bm f :
  mask_wf bm →
  ∃ bm', fill_mask bm f = Some bm' ∧ mask_wf bm' ∧ xsize bm' = xsize bm ∧ zsize bm' = zsize bm ∧
    offsetSouth bm' = offsetSouth bm ∧ offsetEast bm' = offsetEast bm ∧
    offsetNorth bm' = offsetNorth bm ∧ offsetWest bm' = offsetWest bm ∧
    ∀ x z, 0 <= x < xsize bm → 0 <= z < zsize bm → GetTypeSouth bm' x z = Some (f x z).
Proof.
  intros (Hx & Hz & Hl). unfold fill_mask.
  destruct (zfor_ind (λ k l, zlen l = zlen (mask bm) ∧
    ∀ x z, 0 <= x < xsize bm → 0 <= z < k → zget l (z * xsize bm + x) = Some (f x z))
    0 (zsize bm) (λ z l, zfor 0 (xsize bm) (λ x l, l.[z * xsize bm + x <- f x z]) l) (mask bm))
    as (l' & Hr & Hl' & Hg).
  - done.
  - split; [done|]. intros. lia.
  - intros k l Hk [Hll Hg]. destruct (fill_row l (xsize bm) k f) as (l' & -> & Hl' & Hg'); [done|lia|nia|].
    exists l'. split; [done|]. split; [congruence|]. intros x z ? ?. rewrite Hg'.
    destruct (decide (z = k)) as [->|].
    + rewrite decide_True by nia. do 2 f_equal. lia.
    + rewrite decide_False by nia. apply Hg; lia.
  - rewrite Hr. simpl. exists (set_mask bm l'). split; [done|]. split.
    + unfold mask_wf. simpl. by rewrite Hl'.
    + repeat (split; [done|]). intros. by apply Hg.
Qed.

(** ** The rectangles and the offsets computed by [Init] *)

Lemma Init_rects bm offset bsize ssize r bm' :
  0 <= bsize.1 → 0 <= bsize.2 → 0 <= ssize.1 → 0 <= ssize.2 →
  Init bm offset bsize ssize = (r, bm') →
  mask_wf bm' ∧
  0 <= (s1 r).1 ∧ (s2 r).1 = (s1 r).1 + ssize.1 ∧ (s2 r).1 <= xsize bm' ∧
  0 <= (s1 r).2 ∧ (s2 r).2 = (s1 r).2 + ssize.2 ∧ (s2 r).2 <= zsize bm' ∧
  0 <= (b1 r).1 ∧ (b2 r).1 = (b1 r).1 + bsize.1 ∧ (b2 r).1 <= xsize bm' ∧
  0 <= (b1 r).2 ∧ (b2 r).2 = (b1 r).2 + bsize.2 ∧ (b2 r).2 <= zsize bm' ∧
  offsetSouth bm' = s1 r ∧
  offsetEast bm' = ((s1 r).2, xsize bm' - (s2 r).1) ∧
  offsetNorth bm' = ((s1 r).1, zsize bm' - (s2 r).2) ∧
  offsetWest bm' = (zsize bm' - (s2 r).2, (s1 r).1).
Proof.
  destruct offset as [ox oz], bsize as [bx bz], ssize as [sx sz]. intros Hbx Hbz Hsx Hsz.
  cbn in Hbx, Hbz, Hsx, Hsz.
  unfold Init, i2add, i2sub, i2div. cbn [fst snd].
  generalize (Z.quot bx 2) (Z.quot bz 2) (Z.quot sx 2) (Z.quot sz 2). intros hbx hbz hsx hsz.
  intros [= <- <-]. cbn [fst snd b1 b2 s1 s2 xsize zsize offsetSouth offsetEast offsetNorth offsetWest].
  unfold mask_wf. cbn [mask xsize zsize].
  rewrite zlen_replicate by (apply Z.mul_nonneg_nonneg; lia).
  repeat match goal with |- context [if ?a <? ?b then _ else _] => destruct (Z.ltb_spec a b) end;
  repeat match goal with |- context [if ?a >? ?b then _ else _] => rewrite (Z.gtb_ltb a b);
    destruct (Z.ltb_spec b a) end;
  repeat split; cbn [fst snd] in *; try (f_equal; lia); try lia.
Qed.

(** A mask built by one of the two constructors. *)
Inductive built (offset bsize ssize : int2) (bm : IBlockMask) (r : BlockRects) : Prop :=
| built_rectangle st ignore bm0 :
    Init (new_IBlockMask st ignore) offset bsize ssize = (r, bm0) →
    CBlockRectangle offset bsize ssize st ignore = Some bm → built offset bsize ssize bm r
| built_circle radius st ignore bm0 :
    bsize = (radius * 2, radius * 2) →
    Init (new_IBlockMask st ignore) offset bsize ssize = (r, bm0) →
    CBlockCircle offset radius ssize st ignore = Some bm → built offset bsize ssize bm r.

Lemma built_spec offset bsize ssize bm r :
  0 <= bsize.1 → 0 <= bsize.2 → 0 <= ssize.1 → 0 <= ssize.2 →
  built offset bsize ssize bm r →
  mask_wf bm ∧
  0 <= (s1 r).1 ∧ (s2 r).1 = (s1 r).1 + ssize.1 ∧ (s2 r).1 <= xsize bm ∧
  0 <= (s1 r).2 ∧ (s2 r).2 = (s1 r).2 + ssize.2 ∧ (s2 r).2 <= zsize bm ∧
  offsetSouth bm = s1 r ∧ offsetEast bm = ((s1 r).2, xsize bm - (s2 r).1) ∧
  offsetNorth bm = ((s1 r).1, zsize bm - (s2 r).2) ∧
  offsetWest bm = (zsize bm - (s2 r).2, (s1 r).1) ∧
  ∀ x z, 0 <= x < xsize bm → 0 <= z < zsize bm →
    (GetTypeSouth bm x z = Some STRUCT ↔ in_rect (s1 r) (s2 r) x z = true).
Proof.
  intros Hbx Hbz Hsx Hsz Hb.
  assert (∃ bm0 st ignore f, Init (new_IBlockMask st ignore) offset bsize ssize = (r, bm0) ∧
    fill_mask bm0 f = Some bm ∧ ∀ x z, f x z = STRUCT ↔ in_rect (s1 r) (s2 r) x z = true)
    as (bm0 & st & ignore & f & HI & Hf & Hst).
  { destruct Hb as [st ignore bm0 HI Hc|radius st ignore bm0 -> HI Hc].
    - unfold CBlockRectangle in Hc. rewrite HI in Hc. exists bm0, st, ignore, (rectangle_type r).
      repeat (split; [done|]). intros x z. unfold rectangle_type. by repeat case_match.
    - unfold CBlockCircle in Hc. cbv zeta in Hc. rewrite HI in Hc.
      exists bm0, st, ignore, (circle_type r radius). repeat (split; [done|]).
      intros x z. unfold circle_type. by repeat case_match. }
  destruct (Init_rects _ _ _ _ _ _ Hbx Hbz Hsx Hsz HI) as
    (Hwf & ? & ? & ? & ? & ? & ? & _ & _ & _ & _ & _ & _ & HoS & HoE & HoN & HoW).
  destruct (fill_mask_ok bm0 f Hwf) as (bm' & Hf' & Hwf' & Hx & Hz & E1 & E2 & E3 & E4 & Hcells).
  rewrite Hf in Hf'. injection Hf' as <-. rewrite Hx, Hz, E1, E2, E3, E4.
  repeat (split; [done|]). intros x z ? ?. rewrite Hcells by done. split.
  - intros [= E]. by apply Hst.
  - intros E. by apply Hst in E as ->.
Qed.

(** Where the structure rectangle begins in the mask seen in a facing. *)
Definition struct_origin (facing : Z) (bm : IBlockMask) (r : BlockRects) : int2 :=
  if facing =? UNIT_FACING_EAST then ((s1 r).2, xsize bm - (s2 r).1)
  else if facing =? UNIT_FACING_NORTH then (xsize bm - (s2 r).1, zsize bm - (s2 r).2)
  else if facing =? UNIT_FACING_WEST then (zsize bm - (s2 r).2, (s1 r).1)
  else s1 r.

Definition facing_ssize (facing : Z) (ssize : int2) : int2 :=
  if is_sideways facing then (ssize.2, ssize.1) else ssize.

Lemma in_rect_true r1 r2 x z :
  in_rect r1 r2 x z = true ↔ r1.1 <= x < r2.1 ∧ r1.2 <= z < r2.2.
Proof. unfold in_rect. rewrite !andb_true_iff, !Z.leb_le, !Z.ltb_lt. lia. Qed.

(** The cells of a building's structure, in every facing. *)
Lemma struct_cells facing offset bsize ssize bm r x z :
  0 <= bsize.1 → 0 <= bsize.2 → 0 <= ssize.1 → 0 <= ssize.2 →
  built offset bsize ssize bm r →
  0 <= x < facing_xsize facing bm → 0 <= z < facing_zsize facing bm →
  GetType facing bm x z = Some STRUCT ↔
    (struct_origin facing bm r).1 <= x < (struct_origin facing bm r).1 + (facing_ssize facing ssize).1 ∧
    (struct_origin facing bm r).2 <= z < (struct_origin facing bm r).2 + (facing_ssize facing ssize).2.
Proof.
  intros Hbx Hbz Hsx Hsz Hb Hx Hz.
  destruct (built_spec _ _ _ _ _ Hbx Hbz Hsx Hsz Hb) as (Hwf & ? & ? & ? & ? & ? & ? & _ & _ & _ & _ & Hst).
  destruct (unrotate_bound _ _ _ _ Hx Hz) as [Hux Huz].
  rewrite GetType_unrotate, Hst, in_rect_true by done.
  unfold unrotate, struct_origin, facing_ssize, is_sideways in *.
  destruct (Z.eqb_spec facing UNIT_FACING_EAST), (Z.eqb_spec facing UNIT_FACING_NORTH),
    (Z.eqb_spec facing UNIT_FACING_WEST); subst; simpl in *; try discriminate; lia.
Qed.

(** ** Properties *)

(** For a mask built by either constructor and for the south, east and west facings,
    the cells the facing's accessor reports as STRUCT are exactly the rectangle of the
    (rotated) structure size that starts at GetStructOffset: the stored offsets locate the
    structure inside the mask. *)
Theorem struct_offset_south_east_west facing offset bsize ssize bm r x z
    (Hb1 : 0 <= bsize.1) (Hb2 : 0 <= bsize.2) (Hs1 : 0 <= ssize.1) (Hs2 : 0 <= ssize.2)
    (Hb : built offset bsize ssize bm r) (Hf : facing ≠ UNIT_FACING_NORTH)
    (Hx : 0 <= x < facing_xsize facing bm) (Hz : 0 <= z < facing_zsize facing bm) :
  let o := GetStructOffset bm facing in
  let s := facing_ssize facing ssize in
  GetType facing bm x z = Some STRUCT ↔ o.1 <= x < o.1 + s.1 ∧ o.2 <= z < o.2 + s.2.
Proof.
  cbv zeta. rewrite (struct_cells facing offset bsize ssize bm r x z) by done.
  destruct (built_spec _ _ _ _ _ Hb1 Hb2 Hs1 Hs2 Hb) as
    (_ & _ & _ & _ & _ & _ & _ & HoS & HoE & _ & HoW & _).
  assert (GetStructOffset bm facing = struct_origin facing bm r) as ->; [|done].
  unfold GetStructOffset, struct_origin.
  destruct (Z.eqb_spec facing UNIT_FACING_NORTH); [done|]. by repeat case_match.
Qed.

Definition mask_example : option IBlockMask := CBlockCircle (0, 0) 2 (3, 3) DEF_LOW 0.

Lemma struct_offset_south_east_west_witness :
  ∃ bm r, built (0, 0) (4, 4) (3, 3) bm r ∧
    (GetType UNIT_FACING_EAST bm 1 0 = Some STRUCT ↔ 1 <= 1 < 4 ∧ 0 <= 0 < 3).
Proof.
  eexists _, _. assert (built (0, 0) (4, 4) (3, 3) _ _) as Hb by
    (eapply (built_circle _ _ _ _ _ 2 DEF_LOW 0); [reflexivity|reflexivity|vm_compute; reflexivity]).
  split; [exact Hb|].
  eapply (struct_offset_south_east_west UNIT_FACING_EAST (0, 0) (4, 4) (3, 3) _ _ 1 0
    ltac:(done) ltac:(done) ltac:(done) ltac:(done) Hb ltac:(done)); vm_compute; split; congruence.
Defined.

(** In the north facing the structure starts at the right margin, but GetStructOffset
    returns the left margin of the south facing as its x: the stored offset locates the
    structure exactly when the two margins are equal. *)
Theorem struct_offset_north offset bsize ssize bm r x z
    (Hb1 : 0 <= bsize.1) (Hb2 : 0 <= bsize.2) (Hs1 : 0 < ssize.1) (Hs2 : 0 < ssize.2)
    (Hb : built offset bsize ssize bm r)
    (Hx : 0 <= x < xsize bm) (Hz : 0 <= z < zsize bm) :
  let o := GetStructOffset bm UNIT_FACING_NORTH in
  let left := (offsetSouth bm).1 in
  let right := (offsetEast bm).2 in
  (GetType UNIT_FACING_NORTH bm x z = Some STRUCT ↔
     right <= x < right + ssize.1 ∧ o.2 <= z < o.2 + ssize.2) ∧
  o.1 = left ∧
  (left = right ↔ xsize bm = ssize.1 + 2 * left).
Proof.
  cbv zeta. rewrite (struct_cells UNIT_FACING_NORTH offset bsize ssize bm r x z) by (done || lia).
  destruct (built_spec offset bsize ssize bm r Hb1 Hb2 ltac:(lia) ltac:(lia) Hb) as
    (_ & _ & Hs & _ & _ & _ & _ & HoS & HoE & HoN & _ & _).
  unfold GetStructOffset. simpl. rewrite HoS, HoE, HoN. simpl. split; [done|]. split; [done|]. lia.
Qed.

Lemma struct_offset_north_witness :
  ∃ bm, mask_example = Some bm ∧
    (* the structure starts at column 0, the code's offset says 1 *)
    GetType UNIT_FACING_NORTH bm 0 0 = Some STRUCT ∧
    (GetStructOffset bm UNIT_FACING_NORTH).1 = 1.
Proof.
  eexists. split; [reflexivity|].
  match goal with |- GetType _ ?bm _ _ = _ ∧ _ =>
    assert (built (0, 0) (4, 4) (3, 3) bm (MkRects (0, 0) (4, 4) (1, 1) (4, 4))) as Hb by
    (eapply (built_circle _ _ _ _ _ 2 DEF_LOW 0); [reflexivity|reflexivity|reflexivity]) end.
  destruct (struct_offset_north (0, 0) (4, 4) (3, 3) _ _ 0 0 ltac:(done) ltac:(done) ltac:(done) ltac:(done) Hb
    ltac:(vm_compute; split; congruence) ltac:(vm_compute; split; congruence)) as (H1 & H2 & _).
  split; [apply H1; vm_compute; repeat split; congruence|rewrite H2; reflexivity].
Defined.
