(* ===== verification/EnemyUnit.v ===== *)
(** * EnemyUnit: unit definitions and enemy records

    Models the parts of [src/src/circuit/unit/CircuitDef.h] that the maps and managers of
    this development read, and [src/src/circuit/unit/enemy/EnemyUnit.h/.cpp]: the enemy
    record [SEnemyData], its line-of-sight flags and the functions of [CEnemyUnit]. *)

From S2P Require Import Prelude Float32.

Open Scope circuit_scope.

(** The engine's constants ([Sim/Misc/GlobalConstants.h]) and the functions of its vector
    type: code outside the repository, so parameters of every definition that uses them. *)
Class Engine : Type := {
  SQUARE_SIZE : Z;
  GAME_SPEED : Z;
  Length2D : AIFloat3 → float;
  SqDistance2D : AIFloat3 → AIFloat3 → float;
  f3_add : AIFloat3 → AIFloat3 → AIFloat3;     (** [operator+=] *)
  f3_div : AIFloat3 → float → AIFloat3;        (** [operator/], [operator/=] *)
  f3_eqb : AIFloat3 → AIFloat3 → bool;         (** [operator==] *)
  maxxpos : float;                             (** [AIFloat3::maxxpos], [maxzpos]: the map's size *)
  maxzpos : float
}.

(** An instance for concrete examples: the engine's current constants and exact component-wise
    vector functions. *)
Definition example_engine : Engine := {|
  SQUARE_SIZE := 8;
  GAME_SPEED := 30;
  Length2D v := fsqrt (fadd (fmul (px v) (px v)) (fmul (pz v) (pz v)));
  SqDistance2D a b :=
    fadd (fmul (fsub (px a) (px b)) (fsub (px a) (px b)))
         (fmul (fsub (pz a) (pz b)) (fsub (pz a) (pz b)));
  f3_add a b := F3 (fadd (px a) (px b)) (fadd (py a) (py b)) (fadd (pz a) (pz b));
  f3_div a d := F3 (fdiv (px a) d) (fdiv (py a) d) (fdiv (pz a) d);
  f3_eqb a b := feqb (px a) (px b) && feqb (py a) (py b) && feqb (pz a) (pz b);
  maxxpos := f_of_Z 512;
  maxzpos := f_of_Z 512
|}.

Section consts.
Context {E : Engine}.
Definition FRAMES_PER_SEC : Z := GAME_SPEED.
Definition DEFAULT_SLACK : Z := SQUARE_SIZE * 8.
Definition THREAT_UPDATE_RATE : Z := Z.quot FRAMES_PER_SEC 4.
End consts.

Definition SHIELD_MOD : float := flit 3 2.
Definition SQUARE (x : Z) : Z := x * x.
Definition ZeroVector : AIFloat3 := F3 f0 f0 f0.

(** ** CCircuitDef *)

Inductive RangeType : Type := RANGE_AIR | RANGE_LAND | RANGE_WATER.
Inductive ThreatType : Type := THREAT_AIR | THREAT_LAND | THREAT_WATER | THREAT_CLOAK | THREAT_SHIELD.

Definition RangeT (t : RangeType) : Z :=
  match t with RANGE_AIR => 0 | RANGE_LAND => 1 | RANGE_WATER => 2 end.
Definition ThreatT (t : ThreatType) : Z :=
  match t with
  | THREAT_AIR => 0 | THREAT_LAND => 1 | THREAT_WATER => 2 | THREAT_CLOAK => 3 | THREAT_SHIELD => 4
  end.
Definition ThreatTypes : list ThreatType :=
  [THREAT_AIR; THREAT_LAND; THREAT_WATER; THREAT_CLOAK; THREAT_SHIELD].

(** The fields of a unit definition that this development reads. *)
Record CCircuitDef : Type := MkDef {
  def_id : Z;
  def_xsize : Z;               (** [GetDef()->GetXSize()] *)
  def_zsize : Z;
  mainRole : Z;
  enemyRole : Z;
  role : Z;
  shieldMount : option Z;      (** the weapon mount's id, [None] for [nullptr] *)
  thrDmg : float;
  aoe : float;
  power : float;
  def_threat : float;
  maxRangeType : RangeType;
  maxRange : list float;
  threatRange : list Z;
  shieldRadius : float;
  maxShield : float;
  isIgnore : bool;
  isAttacker : bool;
  hasAntiAir : bool;
  hasAntiLand : bool;
  hasAntiWater : bool;
  isAlwaysHit : bool;
  isAmphibious : bool;
  isAbleToFly : bool;
  def_health : float;
  def_speed : float;
  costM : float;
  mobileId : Z;                (** -1 for no mobile, immobile type *)
  immobileId : Z;
  isMex : bool
}.

Definition ROLE_COMM : Z := 0x00080000.
Definition IsRoleComm (d : CCircuitDef) : bool := negb (Z.land (role d) ROLE_COMM =? 0).
Definition IsEnemyRoleAny (d : CCircuitDef) (value : Z) : bool := negb (Z.land (enemyRole d) value =? 0).
Definition IsMobile (d : CCircuitDef) : bool := fgtb (def_speed d) (flit 1 10).
(** [GetMaxRange] with and without an argument; [std::array::operator[]] is not checked. *)
Definition GetMaxRange (d : CCircuitDef) (t : RangeType) : option float := (maxRange d).[RangeT t].
Definition GetMaxRange_any (d : CCircuitDef) : option float := (maxRange d).[RangeT (maxRangeType d)].
Definition GetThreatRange (d : CCircuitDef) (t : ThreatType) : option Z := (threatRange d).[ThreatT t].
Definition with_threatRange (d : CCircuitDef) (r : list Z) : CCircuitDef :=
  MkDef (def_id d) (def_xsize d) (def_zsize d) (mainRole d) (enemyRole d) (role d) (shieldMount d)
        (thrDmg d) (aoe d) (power d) (def_threat d) (maxRangeType d) (maxRange d) r
        (shieldRadius d) (maxShield d) (isIgnore d) (isAttacker d) (hasAntiAir d) (hasAntiLand d)
        (hasAntiWater d) (isAlwaysHit d) (isAmphibious d) (isAbleToFly d) (def_health d)
        (def_speed d) (costM d) (mobileId d) (immobileId d) (isMex d).
Definition SetThreatRange (d : CCircuitDef) (t : ThreatType) (r : Z) : option CCircuitDef :=
  l ← (threatRange d).[ThreatT t <- r];
  Some (with_threatRange d l).

(** ** SEnemyData *)

Module LosMask.
Definition NONE : Z := 0x00.
Definition LOS : Z := 0x01.
Definition RADAR : Z := 0x02.
Definition HIDDEN : Z := 0x04.
Definition IGNORE : Z := 0x08.
Definition DEAD : Z := 0x10.
End LosMask.

Record SEnemyData : Type := MkEnemy {
  e_cdef : option CCircuitDef;
  shieldPower : float;
  health : float;
  isBeingBuilt : bool;
  isParalyzed : bool;
  isDisarmed : bool;
  e_pos : AIFloat3;
  e_vel : AIFloat3;
  threat : float;
  range : list Z;
  e_id : Z;
  cost : float;
  losStatus : Z
}.

Definition GetRange (e : SEnemyData) (t : ThreatType) : option Z := (range e).[ThreatT t].
Definition SetRange (e : SEnemyData) (t : ThreatType) (r : Z) : option SEnemyData :=
  l ← (range e).[ThreatT t <- r];
  Some (MkEnemy (e_cdef e) (shieldPower e) (health e) (isBeingBuilt e) (isParalyzed e) (isDisarmed e)
                (e_pos e) (e_vel e) (threat e) l (e_id e) (cost e) (losStatus e)).
Definition SetThreat (e : SEnemyData) (t : float) : SEnemyData :=
  MkEnemy (e_cdef e) (shieldPower e) (health e) (isBeingBuilt e) (isParalyzed e) (isDisarmed e)
          (e_pos e) (e_vel e) t (range e) (e_id e) (cost e) (losStatus e).
Definition SetCost (e : SEnemyData) (c : float) : SEnemyData :=
  MkEnemy (e_cdef e) (shieldPower e) (health e) (isBeingBuilt e) (isParalyzed e) (isDisarmed e)
          (e_pos e) (e_vel e) (threat e) (range e) (e_id e) c (losStatus e).
Definition IsFake (e : SEnemyData) : bool := e_id e =? -1.

(** [LM] is [char]: the flags stay far below its sign bit. *)
Definition set_los (e : SEnemyData) (l : Z) : SEnemyData :=
  MkEnemy (e_cdef e) (shieldPower e) (health e) (isBeingBuilt e) (isParalyzed e) (isDisarmed e)
          (e_pos e) (e_vel e) (threat e) (range e) (e_id e) (cost e) l.
Definition SetInLOS e := set_los e (Z.lor (losStatus e) LosMask.LOS).
Definition SetInRadar e := set_los e (Z.lor (losStatus e) LosMask.RADAR).
Definition SetHidden e := set_los e (Z.lor (losStatus e) LosMask.HIDDEN).
Definition SetIgnore e := set_los e (Z.lor (losStatus e) LosMask.IGNORE).
Definition SetDead e := set_los e (Z.lor (losStatus e) (Z.lor LosMask.DEAD LosMask.HIDDEN)).
Definition ClearInLOS e := set_los e (Z.land (losStatus e) (Z.lnot LosMask.LOS)).
Definition ClearInRadar e := set_los e (Z.land (losStatus e) (Z.lnot LosMask.RADAR)).
Definition ClearHidden e := set_los e (Z.land (losStatus e) (Z.lnot LosMask.HIDDEN)).

Definition has_los (e : SEnemyData) (m : Z) : bool := negb (Z.land (losStatus e) m =? 0).
Definition IsInLOS e := has_los e LosMask.LOS.
Definition IsInRadar e := has_los e LosMask.RADAR.
Definition IsInRadarOrLOS e := has_los e (Z.lor LosMask.RADAR LosMask.LOS).
Definition NotInRadarAndLOS e : bool := Z.land (losStatus e) (Z.lor LosMask.RADAR LosMask.LOS) =? 0.
Definition IsHidden e := has_los e (Z.lor LosMask.HIDDEN LosMask.IGNORE).
Definition IsIgnored e := has_los e LosMask.IGNORE.
Definition IsDead e := has_los e LosMask.DEAD.

(** ** CEnemyUnit *)

Record CEnemyUnit : Type := MkEnemyUnit {
  knownFrame : Z;
  lastSeen : Z;
  shield : option Z;        (** the shield weapon's mount id *)
  data : SEnemyData
}.

Definition set_data (u : CEnemyUnit) (d : SEnemyData) : CEnemyUnit :=
  MkEnemyUnit (knownFrame u) (lastSeen u) (shield u) d.
Definition SetKnown (u : CEnemyUnit) (frame : Z) : CEnemyUnit :=
  MkEnemyUnit (if negb (knownFrame u =? -1) then knownFrame u else frame) (lastSeen u) (shield u) (data u).
Definition IsKnown (u : CEnemyUnit) (frame : Z) : bool :=
  negb (knownFrame u =? -1) && negb (knownFrame u =? frame).
Definition SetLastSeen (u : CEnemyUnit) (frame : Z) : CEnemyUnit :=
  MkEnemyUnit (knownFrame u) frame (shield u) (data u).

(** [CEnemyUnit::Init] *)
Definition enemy_Init (u : CEnemyUnit) : CEnemyUnit :=
  match e_cdef (data u) with
  | None => MkEnemyUnit (knownFrame u) (lastSeen u) None (SetCost (data u) f0)
  | Some cdef => MkEnemyUnit (knownFrame u) (lastSeen u) (shieldMount cdef) (SetCost (data u) (costM cdef))
  end.

(** The two constructors: a unit the engine reported, and a fake enemy. *)
Definition new_CEnemyUnit (unitId : Z) (cdef : option CCircuitDef) : CEnemyUnit :=
  enemy_Init
    (MkEnemyUnit (-1) (-1) None
       (MkEnemy cdef f0 f0 false false false ZeroVector ZeroVector f0
                (replicate 5 0) unitId f0 LosMask.NONE)).
Definition new_fake (cdef : CCircuitDef) (pos : AIFloat3) : CEnemyUnit :=
  MkEnemyUnit (-1) (-1) None
    (MkEnemy (Some cdef) (maxShield cdef) (def_health cdef) false false false pos ZeroVector f0
             (replicate 5 0) (-1) (costM cdef) LosMask.NONE).

Definition SetCircuitDef (u : CEnemyUnit) (cdef : option CCircuitDef) : CEnemyUnit :=
  let d := data u in
  enemy_Init (set_data u
    (MkEnemy cdef (shieldPower d) (health d) (isBeingBuilt d) (isParalyzed d) (isDisarmed d)
             (e_pos d) (e_vel d) (threat d) (range d) (e_id d) (cost d) (losStatus d))).

Definition IsAttacker (u : CEnemyUnit) : bool :=
  match e_cdef (data u) with None => true | Some cdef => isAttacker cdef end.

Definition GetDamage (u : CEnemyUnit) : float :=
  match e_cdef (data u) with
  | None => flit 1 10
  | Some cdef =>
      let dmg := thrDmg cdef in
      if fltb dmg (flit 1 1000) then f0
      else if isBeingBuilt (data u) || isParalyzed (data u) || isDisarmed (data u) then flit 1 1000
      else dmg
  end.

(** What one call of the engine's unit accessors returns. *)
Record UnitReport : Type := MkReport {
  r_pos : AIFloat3;
  r_vel : AIFloat3;
  r_shieldPower : float;
  r_health : float;
  r_paralyzed : bool;
  r_beingBuilt : bool;
  r_disarmed : float         (** [GetRulesParamFloat("disarmed", 0)] *)
}.

Section positions.
Context {E : Engine}.

(** [CTerrainData::CorrectPosition] and [IsNotInBounds] *)
Definition CorrectPosition (p : AIFloat3) : AIFloat3 :=
  let x := if fltb (px p) f1 then f1
           else if fgtb (px p) (fsub maxxpos (f_of_Z 2)) then fsub maxxpos (f_of_Z 2) else px p in
  let z := if fltb (pz p) f1 then f1
           else if fgtb (pz p) (fsub maxzpos (f_of_Z 2)) then fsub maxzpos (f_of_Z 2) else pz p in
  F3 x (py p) z.

Definition BOUND_EXT : float := f_of_Z 3000.
Definition boundX : float := fadd maxxpos BOUND_EXT.
Definition boundZ : float := fadd maxzpos BOUND_EXT.
Definition IsNotInBounds (p : AIFloat3) : bool :=
  fltb (px p) (fneg BOUND_EXT) || fltb (pz p) (fneg BOUND_EXT) || fgtb (px p) boundX
  || fgtb (pz p) boundZ || f3_eqb p ZeroVector.

Definition UpdateInRadarData (u : CEnemyUnit) (pos v : AIFloat3) : CEnemyUnit :=
  let d := data u in
  let p := CorrectPosition pos in
  set_data u (MkEnemy (e_cdef d) (shieldPower d) (health d) (isBeingBuilt d) (isParalyzed d)
                (isDisarmed d) p v (threat d) (range d) (e_id d) (cost d) (losStatus d)).

Definition UpdateInLosData (u : CEnemyUnit) (r : UnitReport) : CEnemyUnit :=
  let d := data u in
  set_data u (MkEnemy (e_cdef d)
                (match shield u with Some _ => r_shieldPower r | None => shieldPower d end)
                (r_health r) (r_beingBuilt r) (r_paralyzed r) (fgtb (r_disarmed r) f0)
                (e_pos d) (e_vel d) (threat d) (range d) (e_id d) (cost d) (losStatus d)).

End positions.

(** ** The flags behave as independent booleans *)

Lemma land_lor_bit a b m : Z.land a m = 0 → Z.land (Z.lor b a) m = Z.land b m.
Proof. intros H. by rewrite Z.land_lor_distr_l, H, Z.lor_0_r. Qed.

Definition los_flags (e : SEnemyData) : bool * bool * bool * bool * bool :=
  (IsInLOS e, IsInRadar e, has_los e LosMask.HIDDEN, IsIgnored e, IsDead e).

Lemma has_los_bit e i : 0 <= i → has_los e (2 ^ i) = Z.testbit (losStatus e) i.
Proof.
  intros Hi. unfold has_los. destruct (Z.testbit (losStatus e) i) eqn:H.
  - destruct (Z.eqb_spec (Z.land (losStatus e) (2 ^ i)) 0) as [E|]; [|done].
    assert (Z.testbit (Z.land (losStatus e) (2 ^ i)) i = false) as Hb by (by rewrite E, Z.bits_0).
    rewrite Z.land_spec, H, Z.pow2_bits_true in Hb by done. done.
  - assert (Z.land (losStatus e) (2 ^ i) = 0) as ->; [|done].
    apply Z.bits_inj'. intros j ?. rewrite Z.land_spec, Z.bits_0, testbit_pow2 by done.
    case_bool_decide as E; [subst; by rewrite H|by rewrite andb_false_r].
Qed.

Lemma los_flags_bits e :
  los_flags e = (Z.testbit (losStatus e) 0, Z.testbit (losStatus e) 1, Z.testbit (losStatus e) 2,
                 Z.testbit (losStatus e) 3, Z.testbit (losStatus e) 4).
Proof.
  unfold los_flags, IsInLOS, IsInRadar, IsIgnored, IsDead.
  change LosMask.LOS with (2 ^ 0). change LosMask.RADAR with (2 ^ 1).
  change LosMask.HIDDEN with (2 ^ 2). change LosMask.IGNORE with (2 ^ 3).
  change LosMask.DEAD with (2 ^ 4). by rewrite !has_los_bit by lia.
Qed.
