(* ===== verification/SectorGrid.v ===== *)
(** * SectorGrid: the sector maps that threat and influence are drawn on

    [CThreatMap] and [CInfluenceMap] both keep [float] arrays of [width * height] sectors,
    find a sector by [PosToXZ] and draw a unit as a clipped box of sectors around it with
    the same six lines in every [Add...] function.  This file has those lines once
    ([box_for]), the double buffer the arrays live in, and what a drawing does. *)

From S2P Require Import Prelude Float32 EnemyUnit.

Open Scope circuit_scope.

(** [PosToXZ]: [x = (int)pos.x / squareSize], and the same for [z]. *)
Definition PosToXZ (squareSize : Z) (pos : AIFloat3) : option (Z * Z) :=
  fx ← f_to_int (px pos);
  x ← idiv fx squareSize;
  fz ← f_to_int (pz pos);
  z ← idiv fz squareSize;
  Some (x, z).

(** The clipped box of sectors with [|x - posx| < range] and [|z - posz| < range]. *)
Definition box_for {S : Type} (width height posx posz range : Z)
    (body : Z → Z → S → option S) (s : S) : option S :=
  let beginX := Z.max (posx - range + 1) 0 in
  let endX := Z.min (posx + range) width in
  let beginZ := Z.max (posz - range + 1) 0 in
  let endZ := Z.min (posz + range) height in
  zfor beginZ endZ (λ z s, zfor beginX endX (λ x s, body z x s) s) s.

Definition in_grid (width height x z : Z) : Prop := 0 <= x < width ∧ 0 <= z < height.
Definition in_box (posx posz range x z : Z) : bool :=
  (posx - range <? x) && (x <? posx + range) && (posz - range <? z) && (z <? posz + range).

(** ** What a box loop does to a store that it updates sector by sector *)

Section box_for.
Context {S K A : Type}.
Variables (width height : Z).
Variable (rd : S → K → Z → Z → option A).
Variable (P : S → Prop).
Variable (upd : K → Z → Z → A → A).
Variable (body : Z → Z → S → option S).

(** [body] updates the sector it is called for, in every array, and no other sector. *)
Definition cell_body : Prop :=
  ∀ x z s, in_grid width height x z → P s →
    ∃ s', body z x s = Some s' ∧ P s' ∧
      ∀ k x' z', in_grid width height x' z' →
        rd s' k x' z' = if decide (x' = x ∧ z' = z) then upd k x z <$> rd s k x z
                        else rd s k x' z'.

Definition upd_where (c : Z → Z → bool) (s s' : S) : Prop :=
  ∀ k x z, in_grid width height x z →
    rd s' k x z = if c x z then upd k x z <$> rd s k x z else rd s k x z.

Lemma box_row x0 x1 z s :
  cell_body → 0 <= x0 → x1 <= width → 0 <= z < height → P s →
  ∃ s', zfor x0 x1 (λ x s, body z x s) s = Some s' ∧ P s' ∧
    upd_where (λ x' z', (x0 <=? x') && (x' <? x1) && (z' =? z)) s s'.
Proof.
  intros Hb H0 H1 Hz HP. destruct (decide (x0 <= x1)) as [Hle|Hle].
  - apply (zfor_ind (λ x s', P s' ∧
      upd_where (λ x' z', (x0 <=? x') && (x' <? x) && (z' =? z)) s s')); [done| |].
    { split; [done|]. intros k x z' _.
      destruct (x0 <=? x) eqn:?, (x <? x0) eqn:?; simpl; done || lia. }
    intros x s1 Hx [HP1 Hu]. destruct (Hb x z s1) as (s2 & Hbd & HP2 & Hr); [split; lia|done|].
    exists s2. split; [done|]. split; [done|]. intros k x' z' Hg.
    rewrite Hr by done. decide_goal as [[-> ->]|Hne].
    + rewrite Hu by done.
      replace (x0 <=? x) with true by lia. replace (x <? x) with false by lia.
      replace (x <? x + 1) with true by lia. by rewrite Z.eqb_refl.
    + rewrite Hu by done. destruct (z' =? z) eqn:Ez; [|by rewrite !andb_false_r].
      destruct (x0 <=? x'); simpl; [|done].
      assert (x' ≠ x) by (intros ->; apply Hne; lia).
      by replace (x' <? x + 1) with (x' <? x) by lia.
  - rewrite zfor_nil by lia. eexists. split; [done|]. split; [done|]. intros k x z' _.
    destruct (x0 <=? x) eqn:?, (x <? x1) eqn:?; simpl; done || lia.
Qed.

Lemma box_for_cells posx posz range s :
  cell_body → P s →
  ∃ s', box_for width height posx posz range body s = Some s' ∧ P s' ∧
    upd_where (in_box posx posz range) s s'.
Proof.
  intros Hb HP. unfold box_for.
  set (bx := Z.max (posx - range + 1) 0). set (ex := Z.min (posx + range) width).
  set (bz := Z.max (posz - range + 1) 0). set (ez := Z.min (posz + range) height).
  assert (∀ s', upd_where (λ x z, (bx <=? x) && (x <? ex) && (bz <=? z) && (z <? ez)) s s' →
    upd_where (in_box posx posz range) s s') as Hbox.
  { intros s' Hu k x z Hg. rewrite Hu by done. destruct Hg.
    assert ((bx <=? x) && (x <? ex) && (bz <=? z) && (z <? ez) = in_box posx posz range x z) as ->; [|done].
    unfold in_box, bx, ex, bz, ez.
    destruct (Z.ltb_spec (posx - range) x), (Z.ltb_spec x (posx + range)),
      (Z.ltb_spec (posz - range) z), (Z.ltb_spec z (posz + range)); simpl; lia. }
  destruct (decide (bz <= ez)) as [Hle|Hle].
  - destruct (zfor_ind (λ z s', P s' ∧
      upd_where (λ x' z', (bx <=? x') && (x' <? ex) && (bz <=? z') && (z' <? z)) s s')
      bz ez (λ z s, zfor bx ex (λ x s, body z x s) s) s) as (s' & Hf & HP' & Hu); [done| | |].
    + split; [done|]. intros k x z _.
      destruct (bz <=? z) eqn:?, (z <? bz) eqn:?; rewrite ?andb_false_r; done || lia.
    + intros z s1 Hz [HP1 Hu].
      destruct (box_row bx ex z s1) as (s2 & Hf & HP2 & Hr); [done|lia|lia|lia|done|].
      exists s2. split; [done|]. split; [done|]. intros k x' z' Hg. rewrite Hr by done.
      rewrite Hu by done.
      destruct (bx <=? x'), (x' <? ex); simpl; try done.
      destruct (Z.eqb_spec z' z) as [->|].
      * replace (bz <=? z) with true by lia. replace (z <? z) with false by lia.
        by replace (z <? z + 1) with true by lia.
      * by replace (z' <? z + 1) with (z' <? z) by lia.
    + exists s'. auto.
  - rewrite zfor_nil by lia. eexists. split; [done|]. split; [done|]. apply Hbox.
    intros k x z _. destruct (bz <=? z) eqn:?, (z <? ez) eqn:?; rewrite ?andb_false_r; done || lia.
Qed.
End box_for.

(** ** Double-buffered layers

    Two structs of equally long vectors; [L] names the vectors of one struct.  A pointer
    names a struct and one of its vectors. *)

Inductive buf : Type := Data0 | Data1.
#[export] Instance buf_eq_dec : EqDecision buf.
Proof. solve_decision. Defined.

Definition other (b : buf) : buf := match b with Data0 => Data1 | Data1 => Data0 end.

Lemma other_ne b : other b ≠ b.
Proof. by destruct b. Qed.
Lemma other_other b : other (other b) = b.
Proof. by destruct b. Qed.

(** A struct of vectors with its field accessors. *)
Class Layers (L D : Type) `{EqDecision L} : Type := {
  get_layer : L → D → list float;
  set_layer : L → list float → D → D;
  get_set_layer l l' v d : get_layer l (set_layer l' v d) = if decide (l = l') then v else get_layer l d
}.

Section memory.
Context {L D : Type} `{Layers L D}.

Definition ptr : Type := buf * L.
Record memory : Type := Mem { data0 : D; data1 : D }.

Definition buf_data (m : memory) (b : buf) : D := match b with Data0 => data0 m | Data1 => data1 m end.
Definition set_buf (m : memory) (b : buf) (d : D) : memory :=
  match b with Data0 => Mem d (data1 m) | Data1 => Mem (data0 m) d end.

(** [p[i]] and [p[i] += v] *)
Definition load (m : memory) (p : ptr) (i : Z) : option float := (get_layer p.2 (buf_data m p.1)).[i].
Definition store (m : memory) (p : ptr) (i : Z) (v : float) : option memory :=
  vec ← (get_layer p.2 (buf_data m p.1)).[i <- v];
  Some (set_buf m p.1 (set_layer p.2 vec (buf_data m p.1))).
Definition add_at (m : memory) (p : ptr) (i : Z) (v : float) : option memory :=
  old ← load m p i;
  store m p i (fadd old v).

(** All vectors have [n] elements. *)
Definition mem_wf (n : Z) (m : memory) : Prop := ∀ b l, zlen (get_layer l (buf_data m b)) = n.

Lemma buf_data_set m b d b' : buf_data (set_buf m b d) b' = if decide (b' = b) then d else buf_data m b'.
Proof. by destruct b, b'. Qed.

Lemma store_ok n m p i v :
  mem_wf n m → 0 <= i < n →
  ∃ m', store m p i v = Some m' ∧ mem_wf n m' ∧
    ∀ q j, load m' q j = if decide (q = p ∧ j = i) then Some v else load m q j.
Proof.
  intros Hwf Hi. unfold store. rewrite zset_Some by (by rewrite Hwf). simpl.
  eexists. split; [done|]. split.
  - intros b l. rewrite buf_data_set. decide_goal as [->|]; [|apply Hwf].
    rewrite get_set_layer. decide_goal as [->|]; [|apply Hwf].
    unfold zlen. rewrite length_insert. apply Hwf.
  - intros [b l] j. destruct p as [b' l']. unfold load. simpl. rewrite buf_data_set.
    destruct (decide (b = b')) as [->|]; [|by rewrite decide_False by naive_solver].
    rewrite get_set_layer. destruct (decide (l = l')) as [->|]; [|by rewrite decide_False by naive_solver].
    assert (zset (get_layer l' (buf_data m b')) i v =
      Some (<[Z.to_nat i:=v]> (get_layer l' (buf_data m b')))) as Hs by (apply zset_Some; by rewrite Hwf).
    rewrite (zget_zset _ _ _ _ j Hs). destruct (decide (i = j)) as [->|].
    + by rewrite decide_True.
    + by rewrite decide_False by naive_solver.
Qed.

Lemma load_ok n m p i : mem_wf n m → 0 <= i < n → ∃ v, load m p i = Some v.
Proof. intros Hwf Hi. apply zget_is_Some. by rewrite Hwf. Qed.

Lemma load_None n m p i : mem_wf n m → ¬ (0 <= i < n) → load m p i = None.
Proof.
  intros Hwf Hi. unfold load. destruct (zget _ i) eqn:Hz; [|done].
  apply zget_Some_bound in Hz. by rewrite Hwf in Hz.
Qed.

Lemma add_at_ok n m p i v :
  mem_wf n m → 0 <= i < n →
  ∃ m', add_at m p i v = Some m' ∧ mem_wf n m' ∧
    ∀ q j, load m' q j = if decide (q = p ∧ j = i) then (λ a, fadd a v) <$> load m q j else load m q j.
Proof.
  intros Hwf Hi. unfold add_at. destruct (load_ok n m p i) as [old Ho]; [done|done|]. rewrite Ho. simpl.
  destruct (store_ok n m p i (fadd old v)) as (m' & -> & ? & Hl); [done|done|].
  exists m'. split; [done|]. split; [done|]. intros q j. rewrite Hl.
  destruct (decide (q = p ∧ j = i)) as [[-> ->]|]; [by rewrite Ho|done].
Qed.

End memory.

Arguments ptr : clear implicits.
Arguments memory : clear implicits.

(** A sector's index is in the array, and two sectors have different indices. *)
Lemma sector_index_bound width height x z :
  in_grid width height x z → 0 <= z * width + x < width * height.
Proof. intros [??]. nia. Qed.

Lemma sector_index_inj width height x z x' z' :
  in_grid width height x z → in_grid width height x' z' →
  z * width + x = z' * width + x' → x = x' ∧ z = z'.
Proof. intros [??] [??] ?. assert (z = z') by nia. nia. Qed.

Lemma index_sector n width height i :
  n = width * height → 0 <= width → 0 <= i < n →
  in_grid width height (i `mod` width) (i / width) ∧ i / width * width + i `mod` width = i.
Proof.
  intros Hs Hw Hi. assert (0 < width).
  { destruct (decide (width = 0)) as [E0|]; [rewrite E0 in Hs|]; lia. }
  pose proof (Z.div_mod i width ltac:(lia)). pose proof (Z.mod_pos_bound i width ltac:(lia)).
  split; [|lia]. split; [done|]. split; [apply Z.div_pos; lia|].
  apply Z.div_lt_upper_bound; [done|]. rewrite <-Hs. apply Hi.
Qed.

(** [std::fill] of a vector keeps its length. *)
Definition fill (v : list float) (x : float) : list float := (λ _, x) <$> v.

Lemma zlen_fill v x : zlen (fill v x) = zlen v.
Proof. unfold zlen, fill. by rewrite length_fmap. Qed.

Lemma zget_fill v x i : 0 <= i < zlen v → (fill v x).[i] = Some x.
Proof.
  intros Hi. destruct (zget_is_Some v i Hi) as [y Hy]. unfold fill, zget in *.
  destruct (decide (0 <= i)); [|lia]. by rewrite list_lookup_fmap, Hy.
Qed.

(** The value a unit gives off at squared distance [sum]: [val * (1.0f - k * sqrtf(sum) / range)]. *)
Definition heat_at (k val : float) (sum range : Z) : float :=
  fmul val (fsub f1 (fdiv (fmul k (fsqrt (f_of_Z sum))) (f_of_Z range))).

(** ** Drawings

    A drawing into the buffer [b] is described by its gains: what it adds, in the order of the
    [+=], to the sector [(x, z)] of each layer. *)

Section drawing.
Context {L D : Type} `{Layers L D}.
Context (width height n : Z).

Definition gains : Type := L → Z → Z → list float.

Definition mem_drawn (b : buf) (v v' : memory D) (g : gains) : Prop :=
  mem_wf n v' ∧
  ∀ c l x z, in_grid width height x z →
    load v' (c, l) (z * width + x) =
      if decide (c = b) then (λ a, foldl fadd a (g l x z)) <$> load v (c, l) (z * width + x)
      else load v (c, l) (z * width + x).

Lemma fold_nil {A} (v : option A) : (λ a, a) <$> v = v.
Proof. by destruct v. Qed.

Lemma mem_drawn_nil b v : mem_wf n v → mem_drawn b v v (λ _ _ _, []).
Proof. intros Hv. split; [done|]. intros c l x z ?. decide_goal; [|done]. simpl. by rewrite fold_nil. Qed.

Lemma mem_drawn_trans b v v1 v2 g1 g2 :
  mem_drawn b v v1 g1 → mem_drawn b v1 v2 g2 → mem_drawn b v v2 (λ l x z, g1 l x z ++ g2 l x z).
Proof.
  intros [H1 C1] [H2 C2]. split; [done|]. intros c l x z Hg.
  rewrite C2, C1 by done. clear C1 C2. decide_goal; [|done].
  destruct (load _ _ _); [|done]. simpl. by rewrite foldl_app.
Qed.

Lemma mem_drawn_ext b v v' g g' :
  mem_drawn b v v' g → (∀ l x z, in_grid width height x z → g l x z = g' l x z) → mem_drawn b v v' g'.
Proof.
  intros [H1 C1] He. split; [done|]. intros c l x z Hg. rewrite C1 by done.
  decide_goal; [|done]. by rewrite He.
Qed.

(** Drawing leaves the other buffer alone, in every array and at every index. *)
Lemma mem_drawn_keeps b v v' g p i :
  n = width * height → 0 <= width → mem_wf n v → mem_drawn b v v' g → p.1 ≠ b →
  load v' p i = load v p i.
Proof.
  intros Hn Hw Hv [Hv' Hc] Hp. destruct p as [c l]. simpl in Hp.
  destruct (decide (0 <= i < n)) as [Hi|Hi].
  - destruct (index_sector n width height i Hn Hw Hi) as [Hg Hix].
    specialize (Hc c l _ _ Hg). rewrite decide_False in Hc by done. by rewrite Hix in Hc.
  - by rewrite !(load_None n).
Qed.

(** The effect of one step on one sector. *)
Definition sector_step (b : buf) (x z : Z) (g : L → list float) (v v' : memory D) : Prop :=
  mem_wf n v' ∧
  ∀ q j, load v' q j =
    if decide (q.1 = b ∧ j = z * width + x) then (λ a, foldl fadd a (g q.2)) <$> load v q j
    else load v q j.

Lemma sector_step_ext b x z g g' v v' :
  sector_step b x z g v v' → (∀ l, g l = g' l) → sector_step b x z g' v v'.
Proof.
  intros [H1 H2] Hg. split; [done|]. intros q j. rewrite H2. decide_goal; [|done]. by rewrite Hg.
Qed.

Lemma sector_step_trans b x z g1 g2 v v1 v2 :
  sector_step b x z g1 v v1 → sector_step b x z g2 v1 v2 →
  sector_step b x z (λ l, g1 l ++ g2 l) v v2.
Proof.
  intros [H1 C1] [H2 C2]. split; [done|]. intros q j. rewrite C2, C1. clear C1 C2.
  decide_goal; [|done]. destruct (load _ _ _); [|done]. simpl. by rewrite foldl_app.
Qed.

(** A box loop whose body makes such a step on its sector. *)
Lemma box_drawn b posx posz range body (g : gains) v :
  mem_wf n v →
  (∀ x z v, in_grid width height x z → mem_wf n v →
    ∃ v', body z x v = Some v' ∧ sector_step b x z (λ l, g l x z) v v') →
  ∃ v', box_for width height posx posz range body v = Some v' ∧
    mem_drawn b v v' (λ l x z, if in_box posx posz range x z then g l x z else []).
Proof.
  intros Hwf Hbody.
  destruct (box_for_cells width height (λ v p x z, load v p (z * width + x)) (mem_wf n)
    (λ p x z a, if decide (p.1 = b) then foldl fadd a (g p.2 x z) else a) body posx posz range v)
    as (v' & Hf & Hwf' & Hu); [|done|].
  - intros x z s Hg Hs. destruct (Hbody x z s Hg Hs) as (v' & -> & Hw & Hl).
    exists v'. split; [done|]. split; [done|]. intros [c l] x' z' Hg'. rewrite Hl. simpl.
    destruct (decide (x' = x ∧ z' = z)) as [[-> ->]|Hne].
    + destruct (decide (c = b)); [by rewrite decide_True|].
      rewrite decide_False by naive_solver. by destruct (load _ _ _).
    + rewrite decide_False; [done|]. intros [_ Heq].
      destruct (sector_index_inj _ _ _ _ _ _ Hg' Hg Heq). naive_solver.
  - exists v'. split; [done|]. split; [done|]. intros c l x z Hg. rewrite (Hu (c, l)) by done. simpl.
    destruct (in_box posx posz range x z); simpl; decide_goal; try done; by destruct (load _ _ _).
Qed.

(** Adding to one sector of one layer. *)
Definition at_layer (l0 : L) (g : list float) (l : L) : list float := if decide (l = l0) then g else [].

Lemma at_layer_nil l0 l : at_layer l0 [] l = [].
Proof. unfold at_layer. by decide_goal. Qed.

Lemma add_gain b v l0 x z h :
  n = width * height → in_grid width height x z → mem_wf n v →
  ∃ v', add_at v (b, l0) (z * width + x) h = Some v' ∧ sector_step b x z (at_layer l0 [h]) v v'.
Proof.
  intros Hn Hg Hv. destruct (add_at_ok n v (b, l0) (z * width + x) h) as (v' & Ha & Hw & Hl);
    [done|rewrite Hn; by apply sector_index_bound|].
  exists v'. split; [done|]. split; [done|]. intros [c l] j. rewrite Hl. simpl. unfold at_layer.
  destruct (decide (c = b ∧ j = z * width + x)) as [[-> ->]|Hne].
  - destruct (decide (l = l0)) as [->|]; [by rewrite decide_True|].
    rewrite decide_False by naive_solver. simpl. by rewrite fold_nil.
  - rewrite decide_False; [done|]. naive_solver.
Qed.

Lemma no_gain b v x z : mem_wf n v → sector_step b x z (λ _, []) v v.
Proof. intros Hv. split; [done|]. intros q j. decide_goal; [|done]. simpl. by rewrite fold_nil. Qed.

Lemma add_gain_if b v l0 x z h (c : bool) :
  n = width * height → in_grid width height x z → mem_wf n v →
  ∃ v', (if c then add_at v (b, l0) (z * width + x) h else Some v) = Some v' ∧
    sector_step b x z (at_layer l0 (if c then [h] else [])) v v'.
Proof.
  intros Hn Hg Hv. destruct c; [by apply add_gain|]. exists v. split; [done|].
  eapply sector_step_ext; [by apply no_gain|]. intros l. by rewrite at_layer_nil.
Qed.

(** A filled circle with a value that depends on the squared distance. *)
Definition circle_gain (posx posz range : Z) (heat : Z → float) (x z : Z) : list float :=
  let sum := SQUARE (posx - x) + SQUARE (posz - z) in
  if in_box posx posz range x z && (sum <=? SQUARE range) then [heat sum] else [].

(** [body] makes, inside the circle, the step [g] of its sector, and none outside. *)
Lemma circle_drawn_gen b posx posz r body (g : gains) v :
  mem_wf n v →
  (∀ x z v, in_grid width height x z → mem_wf n v →
    ∃ v', body z x v = Some v' ∧
      sector_step b x z (λ l, if SQUARE (posx - x) + SQUARE (posz - z) <=? SQUARE r
                              then g l x z else []) v v') →
  ∃ v', box_for width height posx posz r body v = Some v' ∧
    mem_drawn b v v' (λ l x z,
      if in_box posx posz r x z && (SQUARE (posx - x) + SQUARE (posz - z) <=? SQUARE r)
      then g l x z else []).
Proof.
  intros Hv Hb.
  destruct (box_drawn b posx posz r body (λ l x z,
    if SQUARE (posx - x) + SQUARE (posz - z) <=? SQUARE r then g l x z else []) v Hv Hb) as (v' & ? & Hm).
  exists v'. split; [done|]. eapply mem_drawn_ext; [done|]. intros l x z _. simpl.
  by destruct (in_box posx posz r x z).
Qed.

(** A circle drawn into one layer. *)
Lemma circle_drawn b posx posz r l0 (heat : Z → float) body v :
  n = width * height → mem_wf n v →
  (∀ z x v, body z x v = if SQUARE (posx - x) + SQUARE (posz - z) >? SQUARE r then Some v
                         else add_at v (b, l0) (z * width + x)
                                (heat (SQUARE (posx - x) + SQUARE (posz - z)))) →
  ∃ v', box_for width height posx posz r body v = Some v' ∧
    mem_drawn b v v' (λ l x z, at_layer l0 (circle_gain posx posz r heat x z) l).
Proof.
  intros Hn Hv Hb.
  destruct (circle_drawn_gen b posx posz r body (λ l x z,
    at_layer l0 [heat (SQUARE (posx - x) + SQUARE (posz - z))] l) v Hv) as (v' & ? & Hm).
  - intros x z s Hg Hs. rewrite Hb, Z.gtb_ltb, Z.ltb_antisym.
    destruct (_ <=? SQUARE r); simpl; [by apply add_gain|]. exists s. auto using no_gain.
  - exists v'. split; [done|]. eapply mem_drawn_ext; [done|]. intros l x z _. simpl. unfold circle_gain.
    destruct (_ && _); [done|]. by rewrite at_layer_nil.
Qed.
End drawing.
