(* ===== verification/ThreatMap.v ===== *)
(** * ThreatMap: where the enemies' weapons reach

    Models [src/src/circuit/map/ThreatMap.h/.cpp] (the [DEBUG_VIS] drawing aside): five
    layers of [float] sectors in two buffers.  [Update], run in the worker thread, draws all
    known enemies into the buffer nobody reads; [Apply], run in the main thread, publishes it. *)

From S2P Require Import Prelude Float32 EnemyUnit SectorGrid.

Open Scope circuit_scope.

Definition THREAT_BASE : float := f0.
Definition THREAT_CLOAK_VAL : float := f_of_Z 16.

Inductive layer : Type := AirL | SurfL | AmphL | CloakL | ShieldL.
#[export] Instance layer_eq_dec : EqDecision layer.
Proof. solve_decision. Defined.

Record SThreatData : Type := MkThreatData {
  td_air : list float;
  td_surf : list float;
  td_amph : list float;
  td_cloak : list float;
  td_shield : list float
}.

Definition td_get (l : layer) (d : SThreatData) : list float :=
  match l with
  | AirL => td_air d | SurfL => td_surf d | AmphL => td_amph d
  | CloakL => td_cloak d | ShieldL => td_shield d
  end.
Definition td_set (l : layer) (v : list float) (d : SThreatData) : SThreatData :=
  match l with
  | AirL => MkThreatData v (td_surf d) (td_amph d) (td_cloak d) (td_shield d)
  | SurfL => MkThreatData (td_air d) v (td_amph d) (td_cloak d) (td_shield d)
  | AmphL => MkThreatData (td_air d) (td_surf d) v (td_cloak d) (td_shield d)
  | CloakL => MkThreatData (td_air d) (td_surf d) (td_amph d) v (td_shield d)
  | ShieldL => MkThreatData (td_air d) (td_surf d) (td_amph d) (td_cloak d) v
  end.

#[export, refine] Instance threat_layers : Layers layer SThreatData :=
  {| get_layer := td_get; set_layer := td_set |}.
Proof. by intros [] [] v d. Defined.

Abbreviation tptr := (ptr layer).
Abbreviation tmem := (memory SThreatData).

(** The fields of [STerrainMapSector] that are read here. *)
Record STerrainMapSector : Type := MkSector { isWater : bool; position_y : float }.

Record SSlackMod : Type := MkSlack {
  allMod : float; staticMod : float; speedMod : float; speedModMax : Z
}.

Record CThreatMap : Type := MkThreatMap {
  areaData : list STerrainMapSector;
  squareSize : Z;
  width : Z;
  height : Z;
  mapSize : Z;
  rangeDefault : Z;
  distCloak : Z;
  slackMod : SSlackMod;
  mem : tmem;                    (** [threatData0], [threatData1] *)
  pThreatData : buf;
  drawAirThreat : tptr;
  drawSurfThreat : tptr;
  drawAmphThreat : tptr;
  drawCloakThreat : tptr;
  drawShieldArray : tptr;
  isUpdating : bool;
  airThreat : tptr;
  surfThreat : tptr;
  amphThreat : tptr;
  cloakThreat : tptr;
  shieldArray : tptr;
  threatArray : tptr
}.

Definition set_mem (m : CThreatMap) (v : tmem) : CThreatMap :=
  MkThreatMap (areaData m) (squareSize m) (width m) (height m) (mapSize m) (rangeDefault m)
    (distCloak m) (slackMod m) v (pThreatData m) (drawAirThreat m) (drawSurfThreat m)
    (drawAmphThreat m) (drawCloakThreat m) (drawShieldArray m) (isUpdating m) (airThreat m)
    (surfThreat m) (amphThreat m) (cloakThreat m) (shieldArray m) (threatArray m).
Definition set_threatArray (m : CThreatMap) (p : tptr) : CThreatMap :=
  MkThreatMap (areaData m) (squareSize m) (width m) (height m) (mapSize m) (rangeDefault m)
    (distCloak m) (slackMod m) (mem m) (pThreatData m) (drawAirThreat m) (drawSurfThreat m)
    (drawAmphThreat m) (drawCloakThreat m) (drawShieldArray m) (isUpdating m) (airThreat m)
    (surfThreat m) (amphThreat m) (cloakThreat m) (shieldArray m) p.
Definition set_updating (m : CThreatMap) (b : bool) (area : list STerrainMapSector) : CThreatMap :=
  MkThreatMap area (squareSize m) (width m) (height m) (mapSize m) (rangeDefault m)
    (distCloak m) (slackMod m) (mem m) (pThreatData m) (drawAirThreat m) (drawSurfThreat m)
    (drawAmphThreat m) (drawCloakThreat m) (drawShieldArray m) b (airThreat m)
    (surfThreat m) (amphThreat m) (cloakThreat m) (shieldArray m) (threatArray m).

Section threat_map.
Context {E : Engine}.

(** ** Threat ranges *)

Definition GetCloakRange (squareSize distCloak : Z) (edef : CCircuitDef) : option Z :=
  let sizeX := def_xsize edef * Z.quot SQUARE_SIZE 2 in
  let sizeZ := def_zsize edef * Z.quot SQUARE_SIZE 2 in
  threatRange ← (if IsMobile edef
                 then q ← idiv (DEFAULT_SLACK * 2) squareSize; Some (distCloak + q)
                 else Some distCloak);
  r ← f_to_int (fsqrt (f_of_Z (SQUARE sizeX + SQUARE sizeZ)));
  q ← idiv r squareSize;
  Some (q + threatRange).

Definition GetShieldRange (squareSize : Z) (edef : CCircuitDef) : option Z :=
  match shieldMount edef with
  | Some _ => r ← f_to_int (shieldRadius edef); q ← idiv r squareSize; Some (q + 1)
  | None => Some 0
  end.

(** The body of the constructor's loop over all unit definitions. *)
Definition init_ranges (squareSize distCloak : Z) (slack : SSlackMod) (cdef : CCircuitDef)
    : option CCircuitDef :=
  let allowedRange := f_of_Z 2000 in
  let s := fadd (fadd (f_of_Z (squareSize - 1)) (fdiv (aoe cdef) (f_of_Z 2)))
                (fmul (f_of_Z DEFAULT_SLACK) (allMod slack)) in
  let s := if IsMobile cdef
           then fadd s (fdiv (fmul (f_of_Z THREAT_UPDATE_RATE) (def_speed cdef)) (f_of_Z FRAMES_PER_SEC))
           else fadd s (fmul (f_of_Z DEFAULT_SLACK) (staticMod slack)) in
  let reach realRange := r ← f_to_int (fadd realRange s); q ← idiv r squareSize; Some (q + 1) in
  realRange ← GetMaxRange cdef RANGE_AIR;
  r ← (if hasAntiAir cdef then reach realRange else Some 0);
  cdef ← SetThreatRange cdef THREAT_AIR r;
  realRange ← GetMaxRange cdef RANGE_LAND;
  r ← (if hasAntiLand cdef && fleb realRange allowedRange then reach realRange else Some 0);
  cdef ← SetThreatRange cdef THREAT_LAND r;
  realRange ← GetMaxRange cdef RANGE_WATER;
  r ← (if hasAntiWater cdef && fleb realRange allowedRange then reach realRange else Some 0);
  cdef ← SetThreatRange cdef THREAT_WATER r;
  r ← GetCloakRange squareSize distCloak cdef;
  cdef ← SetThreatRange cdef THREAT_CLOAK r;
  r ← GetShieldRange squareSize cdef;
  SetThreatRange cdef THREAT_SHIELD r.

Definition base_data (n : Z) : SThreatData :=
  let v := replicate (Z.to_nat n) THREAT_BASE in
  MkThreatData v v v v (replicate (Z.to_nat n) f0).

(** [CThreatMap::CThreatMap], with the terrain manager's sizes and the configuration's
    ["slack_mod"] values as arguments; it also stores the ranges of all definitions. *)
Definition new_CThreatMap (area : list STerrainMapSector) (ConvertStoP SectorXSize SectorZSize : Z)
    (decloakRadius all static speed0 : float) (speed1 : Z) (defs : list CCircuitDef)
    : option (CThreatMap * list CCircuitDef) :=
  let squareSize := ConvertStoP in
  let width := SectorXSize in
  let height := SectorZSize in
  let mapSize := width * height in
  rangeDefault ← idiv (DEFAULT_SLACK * 4) squareSize;
  distCloak ← f_to_int (fdiv (fadd decloakRadius (f_of_Z DEFAULT_SLACK)) (f_of_Z squareSize));
  speedModMax ← idiv (speed1 * DEFAULT_SLACK) squareSize;
  let slack := MkSlack all static
                 (fdiv (fmul speed0 (f_of_Z DEFAULT_SLACK)) (f_of_Z squareSize)) speedModMax in
  defs ← mapM (init_ranges squareSize distCloak slack) defs;
  Some (MkThreatMap area squareSize width height mapSize rangeDefault distCloak slack
          (Mem (base_data mapSize) (base_data mapSize)) Data0
          (Data1, AirL) (Data1, SurfL) (Data1, AmphL) (Data1, CloakL) (Data1, ShieldL) false
          (Data0, AirL) (Data0, SurfL) (Data0, AmphL) (Data0, CloakL) (Data0, ShieldL)
          (Data0, SurfL),
        defs).

(** [EnqueueUpdate]: the flag and the terrain snapshot; the two tasks [Update] and [Apply]
    go to the scheduler. *)
Definition EnqueueUpdate (m : CThreatMap) (area : list STerrainMapSector) : CThreatMap :=
  set_updating m true area.

(** The longest-ranged of the two weapons of a commander, by the engine's rules parameters:
    [weapon_id num] is [GetRulesParamFloat("comm_weapon_id_<num>", -1)], [weapon] gives the
    range and area of effect of a weapon definition. *)
Definition comm_weapon (weapon_id : Z → float) (weapon : Z → option (float * float))
    : option (float * float) :=
  zfor 1 3 (λ num s,
    id ← f_to_int (weapon_id num);
    if id <? 0 then Some s
    else w ← weapon id; Some (if fltb s.1 w.1 then w else s)) (f0, f0).

Definition SetEnemyUnitRange (m : CThreatMap) (weapon_id : Z → float)
    (weapon : Z → option (float * float)) (comm_range_mult : float) (e : CEnemyUnit)
    : option CEnemyUnit :=
  edef ← e_cdef (data e);
  if IsRoleComm edef && negb (IsFake (data e)) then
    w ← comm_weapon weapon_id weapon;
    let slack := fadd (fadd (fadd (f_of_Z (squareSize m - 1)) (fdiv w.2 (f_of_Z 2)))
                            (fmul (f_of_Z DEFAULT_SLACK) (allMod (slackMod m))))
                      (fdiv (fmul (f_of_Z THREAT_UPDATE_RATE) (def_speed edef)) (f_of_Z FRAMES_PER_SEC)) in
    r ← f_to_int (fadd (fmul w.1 comm_range_mult) slack);
    q ← idiv r (squareSize m);
    range ← f_to_int (f_of_Z (q + 1));
    d ← SetRange (data e) THREAT_AIR range;
    d ← SetRange d THREAT_LAND range;
    d ← SetRange d THREAT_WATER range;
    r ← GetThreatRange edef THREAT_CLOAK;
    d ← SetRange d THREAT_CLOAK r;
    r ← GetThreatRange edef THREAT_SHIELD;
    d ← SetRange d THREAT_SHIELD r;
    Some (set_data e d)
  else
    d ← foldM (λ d t, r ← GetThreatRange edef t; SetRange d t r) (data e) ThreatTypes;
    Some (set_data e d).

Definition NewEnemy (m : CThreatMap) (e : CEnemyUnit) : option CEnemyUnit :=
  let d := SetThreat (data e) (GetDamage e) in
  d ← SetRange d THREAT_AIR (rangeDefault m);
  d ← SetRange d THREAT_LAND (rangeDefault m);
  d ← SetRange d THREAT_WATER (rangeDefault m);
  d ← SetRange d THREAT_CLOAK (distCloak m);
  Some (set_data e d).

(** ** Queries (main thread) *)

Definition threat_at (m : CThreatMap) (p : tptr) (pos : AIFloat3) : option float :=
  '(x, z) ← PosToXZ (squareSize m) pos;
  v ← load (mem m) p (z * width m + x);
  Some (fsub v THREAT_BASE).

Definition GetAllThreatAt (m : CThreatMap) (pos : AIFloat3) : option float :=
  threat_at m (surfThreat m) pos.

Definition SetThreatType (m : CThreatMap) (cdef : CCircuitDef) : CThreatMap :=
  if isAbleToFly cdef then set_threatArray m (airThreat m)
  else if isAmphibious cdef then set_threatArray m (amphThreat m)
  else set_threatArray m (surfThreat m).

Definition GetThreatAt (m : CThreatMap) (pos : AIFloat3) : option float :=
  threat_at m (threatArray m) pos.

Definition GetThreatAt_unit (m : CThreatMap) (cdef : CCircuitDef) (pos : AIFloat3) : option float :=
  '(x, z) ← PosToXZ (squareSize m) pos;
  if isAbleToFly cdef then
    v ← load (mem m) (airThreat m) (z * width m + x); Some (fsub v THREAT_BASE)
  else if isAmphibious cdef then
    v ← load (mem m) (amphThreat m) (z * width m + x); Some (fsub v THREAT_BASE)
  else
    v ← load (mem m) (surfThreat m) (z * width m + x); Some (fsub v THREAT_BASE).

(** [GetUnitThreat] of an own unit, from its damage, health and shield power. *)
Definition GetUnitThreat (damage unit_health unit_shield : float) : float :=
  let health := fadd unit_health (fmul unit_shield SHIELD_MOD) in
  fmul damage (fsqrt (fmax health f0)).

Definition GetEnemyUnitThreat (m : CThreatMap) (e : CEnemyUnit) : option float :=
  if isBeingBuilt (data e) then Some f0
  else
    let h := health (data e) in
    if fleb h f0 then Some f0
    else
      '(x, z) ← PosToXZ (squareSize m) (e_pos (data e));
      s ← load (mem m) (shieldArray m) (z * width m + x);
      Some (fmul (GetDamage e) (fsqrt (fadd h (fmul s SHIELD_MOD)))).

Definition SetEnemyUnitThreat (m : CThreatMap) (e : CEnemyUnit) : option CEnemyUnit :=
  t ← GetEnemyUnitThreat m e;
  Some (set_data e (SetThreat (data e) t)).

(** ** Drawing (worker thread) *)

Definition AddEnemyAir (m : CThreatMap) (e : SEnemyData) (slack : Z) : option CThreatMap :=
  '(posx, posz) ← PosToXZ (squareSize m) (e_pos e);
  r ← GetRange e THREAT_AIR;
  let range := r + slack in
  let rangeSq := SQUARE range in
  mem' ← box_for (width m) (height m) posx posz range (λ z x mem,
    let dzSq := SQUARE (posz - z) in
    let dxSq := SQUARE (posx - x) in
    let sum := dxSq + dzSq in
    if sum >? rangeSq then Some mem
    else
      let index := z * width m + x in
      let heat := heat_at (flit 1 2) (threat e) sum range in
      add_at mem (drawAirThreat m) index heat) (mem m);
  Some (set_mem m mem').

(** The two surface/amphibious drawings differ in [heat] only: constant, or falling off
    with the distance. *)
Definition amph_body (m : CThreatMap) (posx posz rangeLand rangeWater : Z) (heat : Z → float)
    (z x : Z) (mem : tmem) : option tmem :=
  let dzSq := SQUARE (posz - z) in
  let dxSq := SQUARE (posx - x) in
  let sum := dxSq + dzSq in
  let index := z * width m + x in
  sector ← (areaData m).[index];
  let isWaterThreat := (sum <=? SQUARE rangeWater) && isWater sector in
  mem ← (if isWaterThreat || ((sum <=? SQUARE rangeLand)
                               && fgeb (position_y sector) (f_of_Z (- SQUARE_SIZE * 5)))
         then add_at mem (drawAmphThreat m) index (heat sum) else Some mem);
  if isWaterThreat || (sum <=? SQUARE rangeLand)
  then add_at mem (drawSurfThreat m) index (heat sum) else Some mem.

Definition AddEnemyAmphConst (m : CThreatMap) (e : SEnemyData) (slack : Z) : option CThreatMap :=
  '(posx, posz) ← PosToXZ (squareSize m) (e_pos e);
  rl ← GetRange e THREAT_LAND;
  rw ← GetRange e THREAT_WATER;
  let rangeLand := rl + slack in
  let rangeWater := rw + slack in
  let range := Z.max rangeLand rangeWater in
  mem' ← box_for (width m) (height m) posx posz range
           (amph_body m posx posz rangeLand rangeWater (λ _, threat e)) (mem m);
  Some (set_mem m mem').

Definition AddEnemyAmphGradient (m : CThreatMap) (e : SEnemyData) (slack : Z) : option CThreatMap :=
  '(posx, posz) ← PosToXZ (squareSize m) (e_pos e);
  rl ← GetRange e THREAT_LAND;
  rw ← GetRange e THREAT_WATER;
  let rangeLand := rl + slack in
  let rangeWater := rw + slack in
  let range := Z.max rangeLand rangeWater in
  mem' ← box_for (width m) (height m) posx posz range
           (amph_body m posx posz rangeLand rangeWater
              (λ sum, heat_at (flit 1 2) (threat e) sum range)) (mem m);
  Some (set_mem m mem').

Definition AddDecloaker (m : CThreatMap) (e : SEnemyData) : option CThreatMap :=
  '(posx, posz) ← PosToXZ (squareSize m) (e_pos e);
  let threatCloak := THREAT_CLOAK_VAL in
  rangeCloak ← GetRange e THREAT_CLOAK;
  let rangeCloakSq := SQUARE rangeCloak in
  mem' ← box_for (width m) (height m) posx posz rangeCloak (λ z x mem,
    let dzSq := SQUARE (posz - z) in
    let dxSq := SQUARE (posx - x) in
    let sum := dxSq + dzSq in
    if sum >? rangeCloakSq then Some mem
    else
      let index := z * width m + x in
      let heat := heat_at (flit 3 4) threatCloak sum rangeCloak in
      add_at mem (drawCloakThreat m) index heat) (mem m);
  Some (set_mem m mem').

Definition AddShield (m : CThreatMap) (e : SEnemyData) : option CThreatMap :=
  '(posx, posz) ← PosToXZ (squareSize m) (e_pos e);
  let shieldVal := shieldPower e in
  rangeShield ← GetRange e THREAT_SHIELD;
  let rangeShieldSq := SQUARE rangeShield in
  mem' ← box_for (width m) (height m) posx posz rangeShield (λ z x mem,
    let rrz := rangeShieldSq - SQUARE (posz - z) in
    if SQUARE (posx - x) >? rrz then Some mem
    else add_at mem (drawShieldArray m) (z * width m + x) shieldVal) (mem m);
  Some (set_mem m mem').

Definition AddEnemyUnitAll (m : CThreatMap) (e : SEnemyData) : option CThreatMap :=
  m ← AddEnemyAir m e 0;
  m ← AddEnemyAmphGradient m e 0;
  AddDecloaker m e.

(** [std::min(int(e.vel.Length2D() * slackMod.speedMod), slackMod.speedModMax)] *)
Definition vel_slack (m : CThreatMap) (e : SEnemyData) : option Z :=
  v ← f_to_int (fmul (Length2D (e_vel e)) (speedMod (slackMod m)));
  Some (Z.min v (speedModMax (slackMod m))).

Definition AddEnemyUnit (m : CThreatMap) (e : SEnemyData) : option CThreatMap :=
  match e_cdef e with
  | None => AddEnemyUnitAll m e
  | Some cdef =>
      vsl ← vel_slack m e;
      m ← (if hasAntiAir cdef then AddEnemyAir m e vsl else Some m);
      m ← (if hasAntiLand cdef || hasAntiWater cdef
           then if isAlwaysHit cdef then AddEnemyAmphConst m e vsl else AddEnemyAmphGradient m e vsl
           else Some m);
      m ← AddDecloaker m e;
      match shieldMount cdef with Some _ => AddShield m e | None => Some m end
  end.

(** ** The double buffer *)

Definition Prepare (m : CThreatMap) (b : buf) : CThreatMap :=
  let d := buf_data (mem m) b in
  let d := MkThreatData (fill (td_air d) THREAT_BASE) (fill (td_surf d) THREAT_BASE)
             (fill (td_amph d) THREAT_BASE) (fill (td_cloak d) THREAT_BASE) (fill (td_shield d) f0) in
  MkThreatMap (areaData m) (squareSize m) (width m) (height m) (mapSize m) (rangeDefault m)
    (distCloak m) (slackMod m) (set_buf (mem m) b d) (pThreatData m)
    (b, AirL) (b, SurfL) (b, AmphL) (b, CloakL) (b, ShieldL) (isUpdating m) (airThreat m)
    (surfThreat m) (amphThreat m) (cloakThreat m) (shieldArray m) (threatArray m).

Definition GetNextThreatData (m : CThreatMap) : buf :=
  match pThreatData m with Data0 => Data1 | Data1 => Data0 end.

Definition Update (m : CThreatMap) (hostileDatas peaceDatas : list SEnemyData) : option CThreatMap :=
  let m := Prepare m (GetNextThreatData m) in
  m ← foldM AddEnemyUnit m hostileDatas;
  foldM AddDecloaker m peaceDatas.

Definition SwapBuffers (m : CThreatMap) : CThreatMap :=
  let p := GetNextThreatData m in
  MkThreatMap (areaData m) (squareSize m) (width m) (height m) (mapSize m) (rangeDefault m)
    (distCloak m) (slackMod m) (mem m) p (drawAirThreat m) (drawSurfThreat m)
    (drawAmphThreat m) (drawCloakThreat m) (drawShieldArray m) (isUpdating m)
    (p, AirL) (p, SurfL) (p, AmphL) (p, CloakL) (p, ShieldL) (p, SurfL).

Definition Apply (m : CThreatMap) : CThreatMap :=
  let m := SwapBuffers m in
  set_updating m false (areaData m).

(** ** What a drawing adds to each sector *)

(** Sectors an anti-surface weapon reaches: on land by its land range, and in water by its
    water range; the amphibious layer leaves out deep water that only the land range covers. *)
Definition sector_reach (m : CThreatMap) (posx posz rangeLand rangeWater : Z) (amph : bool) (x z : Z)
    : bool :=
  let sum := SQUARE (posx - x) + SQUARE (posz - z) in
  match (areaData m).[z * width m + x] with
  | Some sector =>
      (sum <=? SQUARE rangeWater) && isWater sector ||
      (sum <=? SQUARE rangeLand) &&
      (if amph then fgeb (position_y sector) (f_of_Z (- SQUARE_SIZE * 5)) else true)
  | None => false
  end.
Definition reaches (m : CThreatMap) (posx posz rangeLand rangeWater : Z) (amph : bool) (x z : Z) : bool :=
  in_box posx posz (Z.max rangeLand rangeWater) x z &&
  sector_reach m posx posz rangeLand rangeWater amph x z.

(** Where an enemy stands and how far it reaches. *)
Record footprint : Type := Footprint {
  fp_x : Z; fp_z : Z;
  fp_air : Z; fp_land : Z; fp_water : Z; fp_cloak : Z; fp_shield : Z;
  fp_vsl : Z
}.

(** The reads of an enemy record that drawing performs succeed, with these results. *)
Definition has_footprint (m : CThreatMap) (e : SEnemyData) (f : footprint) : Prop :=
  PosToXZ (squareSize m) (e_pos e) = Some (fp_x f, fp_z f) ∧
  range e = [fp_air f; fp_land f; fp_water f; fp_cloak f; fp_shield f] ∧
  match e_cdef e with Some _ => vel_slack m e = Some (fp_vsl f) | None => fp_vsl f = 0 end.

Definition air_gains (e : SEnemyData) (f : footprint) : Z → Z → list float :=
  let r := fp_air f + fp_vsl f in
  circle_gain (fp_x f) (fp_z f) r (λ sum, heat_at (flit 1 2) (threat e) sum r).
Definition surf_gains (m : CThreatMap) (e : SEnemyData) (f : footprint) (amph const : bool)
    (x z : Z) : list float :=
  let rl := fp_land f + fp_vsl f in
  let rw := fp_water f + fp_vsl f in
  let sum := SQUARE (fp_x f - x) + SQUARE (fp_z f - z) in
  if reaches m (fp_x f) (fp_z f) rl rw amph x z
  then [if const then threat e else heat_at (flit 1 2) (threat e) sum (Z.max rl rw)] else [].
Definition cloak_gains (f : footprint) : Z → Z → list float :=
  circle_gain (fp_x f) (fp_z f) (fp_cloak f)
    (λ sum, heat_at (flit 3 4) THREAT_CLOAK_VAL sum (fp_cloak f)).
Definition shield_gains (e : SEnemyData) (f : footprint) : Z → Z → list float :=
  circle_gain (fp_x f) (fp_z f) (fp_shield f) (λ _, shieldPower e).

(** All that [AddEnemyUnit] draws for one enemy. *)
Definition hostile_gains (m : CThreatMap) (e : SEnemyData) (f : footprint) (l : layer) (x z : Z)
    : list float :=
  match e_cdef e with
  | None =>
      match l with
      | AirL => air_gains e f x z
      | SurfL => surf_gains m e f false false x z
      | AmphL => surf_gains m e f true false x z
      | CloakL => cloak_gains f x z
      | ShieldL => []
      end
  | Some cdef =>
      match l with
      | AirL => if hasAntiAir cdef then air_gains e f x z else []
      | SurfL => if hasAntiLand cdef || hasAntiWater cdef
                 then surf_gains m e f false (isAlwaysHit cdef) x z else []
      | AmphL => if hasAntiLand cdef || hasAntiWater cdef
                 then surf_gains m e f true (isAlwaysHit cdef) x z else []
      | CloakL => cloak_gains f x z
      | ShieldL => match shieldMount cdef with Some _ => shield_gains e f x z | None => [] end
      end
  end.

Definition peace_gains (f : footprint) (l : layer) (x z : Z) : list float :=
  match l with CloakL => cloak_gains f x z | _ => [] end.

(** ** The drawing functions refine their gains *)

(** The map is drawn into [b]: only the memory and the reader pointers matter otherwise. *)
Record draws_to (b : buf) (m : CThreatMap) : Prop := {
  dt_mem : mem_wf (mapSize m) (mem m);
  dt_size : mapSize m = width m * height m;
  dt_area : zlen (areaData m) = mapSize m;
  dt_ptrs : drawAirThreat m = (b, AirL) ∧ drawSurfThreat m = (b, SurfL) ∧
            drawAmphThreat m = (b, AmphL) ∧ drawCloakThreat m = (b, CloakL) ∧
            drawShieldArray m = (b, ShieldL)
}.

Definition cell (m : CThreatMap) (v : tmem) (p : tptr) (x z : Z) : option float :=
  load v p (z * width m + x).

(** [m'] is [m] after adding the gains [g] to the sectors of the buffer [b]. *)
Definition drawn (b : buf) (m m' : CThreatMap) (g : layer → Z → Z → list float) : Prop :=
  draws_to b m' ∧ m' = set_mem m (mem m') ∧
  mem_drawn (width m) (height m) (mapSize m) b (mem m) (mem m') g.

Lemma drawn_nil b m : draws_to b m → drawn b m m (λ _ _ _, []).
Proof. intros H. split; [done|]. split; [by destruct m|]. apply mem_drawn_nil, H. Qed.

Lemma drawn_trans b m m1 m2 g1 g2 :
  drawn b m m1 g1 → drawn b m1 m2 g2 → drawn b m m2 (λ l x z, g1 l x z ++ g2 l x z).
Proof.
  intros (H1 & E1 & C1) (H2 & E2 & C2). split; [done|]. split; [rewrite E2, E1; by destruct m2|].
  rewrite E1 in C2. eapply mem_drawn_trans; [exact C1|exact C2].
Qed.

Lemma drawn_ext b m m' g g' :
  drawn b m m' g → (∀ l x z, in_grid (width m) (height m) x z → g l x z = g' l x z) → drawn b m m' g'.
Proof. intros (H1 & E1 & C1) H. split; [done|]. split; [done|]. by eapply mem_drawn_ext. Qed.

Lemma draws_to_set_mem b m v : draws_to b m → mem_wf (mapSize m) v → draws_to b (set_mem m v).
Proof. intros [] ?. by constructor. Qed.

Lemma drawn_intro b m f g :
  draws_to b m →
  (∃ v, f = Some v ∧ mem_drawn (width m) (height m) (mapSize m) b (mem m) v g) →
  ∃ m', (v ← f; Some (set_mem m v)) = Some m' ∧ drawn b m m' g.
Proof.
  intros Hd (v & -> & Hv). eexists. split; [done|]. split; [|by split].
  apply draws_to_set_mem; [done|apply Hv].
Qed.

Lemma AddEnemyAir_drawn b m e posx posz r slack :
  draws_to b m → PosToXZ (squareSize m) (e_pos e) = Some (posx, posz) →
  GetRange e THREAT_AIR = Some r →
  ∃ m', AddEnemyAir m e slack = Some m' ∧
    drawn b m m' (λ l x z, at_layer AirL
      (circle_gain posx posz (r + slack) (λ sum, heat_at (flit 1 2) (threat e) sum (r + slack)) x z) l).
Proof.
  intros Hd Hp Hr. unfold AddEnemyAir. rewrite Hp, Hr. cbn [mbind option_bind].
  apply drawn_intro, circle_drawn; [done|apply Hd|apply Hd|]. intros z x v. by destruct (dt_ptrs _ _ Hd) as (-> & _).
Qed.

Lemma AddDecloaker_drawn b m e posx posz r :
  draws_to b m → PosToXZ (squareSize m) (e_pos e) = Some (posx, posz) →
  GetRange e THREAT_CLOAK = Some r →
  ∃ m', AddDecloaker m e = Some m' ∧
    drawn b m m' (λ l x z, at_layer CloakL
      (circle_gain posx posz r (λ sum, heat_at (flit 3 4) THREAT_CLOAK_VAL sum r) x z) l).
Proof.
  intros Hd Hp Hr. unfold AddDecloaker. rewrite Hp, Hr. cbn [mbind option_bind].
  apply drawn_intro, circle_drawn; [done|apply Hd|apply Hd|]. intros z x v. by destruct (dt_ptrs _ _ Hd) as (_ & _ & _ & -> & _).
Qed.

Lemma AddShield_drawn b m e posx posz r :
  draws_to b m → PosToXZ (squareSize m) (e_pos e) = Some (posx, posz) →
  GetRange e THREAT_SHIELD = Some r →
  ∃ m', AddShield m e = Some m' ∧
    drawn b m m' (λ l x z, at_layer ShieldL (circle_gain posx posz r (λ _, shieldPower e) x z) l).
Proof.
  intros Hd Hp Hr. unfold AddShield. rewrite Hp, Hr. cbn [mbind option_bind].
  apply drawn_intro, circle_drawn; [done|apply Hd|apply Hd|]. intros z x v. destruct (dt_ptrs _ _ Hd) as (_ & _ & _ & _ & ->).
  cbv zeta. rewrite !Z.gtb_ltb.
  replace (SQUARE r - SQUARE (posz - z) <? SQUARE (posx - x))
    with (SQUARE r <? SQUARE (posx - x) + SQUARE (posz - z)) by lia. done.
Qed.

Definition amph_layers (surf amph : list float) (l : layer) : list float :=
  match l with SurfL => surf | AmphL => amph | _ => [] end.

Lemma amph_body_gain b m posx posz rl rw heat x z v :
  draws_to b m → in_grid (width m) (height m) x z → mem_wf (mapSize m) v →
  let sum := SQUARE (posx - x) + SQUARE (posz - z) in
  let g amph := if sector_reach m posx posz rl rw amph x z then [heat sum] else [] in
  ∃ v', amph_body m posx posz rl rw heat z x v = Some v' ∧
    sector_step (width m) (mapSize m) b x z (amph_layers (g false) (g true)) v v'.
Proof.
  intros Hd Hg Hv. cbv zeta. unfold amph_body, sector_reach.
  destruct (dt_ptrs _ _ Hd) as (_ & -> & -> & _).
  pose proof (sector_index_bound _ _ _ _ Hg) as Hi.
  destruct (zget_is_Some (areaData m) (z * width m + x)) as [sector Hs];
    [by rewrite (dt_area _ _ Hd), (dt_size _ _ Hd)|].
  rewrite Hs. cbn [mbind option_bind]. rewrite !andb_true_r.
  set (w := (_ <=? SQUARE rw) && isWater sector).
  set (d := fgeb _ _). set (ln := _ <=? SQUARE rl). set (h := heat _).
  destruct (add_gain_if (width m) (height m) (mapSize m) b v AmphL x z h (w || ln && d))
    as (v1 & -> & S1); [apply Hd|done|done|]. cbn [mbind option_bind].
  destruct (add_gain_if (width m) (height m) (mapSize m) b v1 SurfL x z h (w || ln))
    as (v2 & -> & S2); [apply Hd|done|apply S1|].
  exists v2. split; [done|]. eapply sector_step_ext; [exact (sector_step_trans _ _ _ _ _ _ _ _ _ _ S1 S2)|].
  unfold at_layer. intros []; simpl; by rewrite ?app_nil_r.
Qed.

Lemma amph_drawn b m posx posz rl rw heat :
  draws_to b m →
  ∃ m', (v ← box_for (width m) (height m) posx posz (Z.max rl rw) (amph_body m posx posz rl rw heat) (mem m);
         Some (set_mem m v)) = Some m' ∧
    drawn b m m' (λ l x z,
      let sum := SQUARE (posx - x) + SQUARE (posz - z) in
      let g amph := if reaches m posx posz rl rw amph x z then [heat sum] else [] in
      amph_layers (g false) (g true) l).
Proof.
  intros Hd. cbv zeta. apply drawn_intro; [done|].
  destruct (box_drawn (width m) (height m) (mapSize m) b posx posz (Z.max rl rw)
    (amph_body m posx posz rl rw heat) (λ l x z,
    amph_layers
      (if sector_reach m posx posz rl rw false x z
       then [heat (SQUARE (posx - x) + SQUARE (posz - z))] else [])
      (if sector_reach m posx posz rl rw true x z
       then [heat (SQUARE (posx - x) + SQUARE (posz - z))] else []) l) (mem m)) as (v & -> & Hm).
  - apply Hd.
  - intros x z v Hg Hv. by apply amph_body_gain.
  - exists v. split; [done|]. eapply mem_drawn_ext; [done|]. intros l x z _. simpl. unfold reaches.
    destruct (in_box _ _ _ _ _); [done|]. by destruct l.
Qed.

(** ** One enemy, and one update *)

Lemma footprint_ranges m e f :
  has_footprint m e f →
  GetRange e THREAT_AIR = Some (fp_air f) ∧ GetRange e THREAT_LAND = Some (fp_land f) ∧
  GetRange e THREAT_WATER = Some (fp_water f) ∧ GetRange e THREAT_CLOAK = Some (fp_cloak f) ∧
  GetRange e THREAT_SHIELD = Some (fp_shield f).
Proof. intros (_ & Hr & _). unfold GetRange. by rewrite Hr. Qed.

Lemma footprint_drawn b m m1 g e f : drawn b m m1 g → has_footprint m e f → has_footprint m1 e f.
Proof. intros (_ & -> & _). done. Qed.

Lemma AddEnemyAir_gains b m e f :
  draws_to b m → has_footprint m e f →
  ∃ m', AddEnemyAir m e (fp_vsl f) = Some m' ∧
    drawn b m m' (λ l x z, at_layer AirL (air_gains e f x z) l).
Proof.
  intros Hd Hf. destruct (footprint_ranges _ _ _ Hf) as (Hr & _). destruct Hf as (Hp & _).
  eapply AddEnemyAir_drawn; done.
Qed.

Lemma AddDecloaker_gains b m e f :
  draws_to b m → has_footprint m e f →
  ∃ m', AddDecloaker m e = Some m' ∧ drawn b m m' (peace_gains f).
Proof.
  intros Hd Hf. destruct (footprint_ranges _ _ _ Hf) as (_ & _ & _ & Hr & _). destruct Hf as (Hp & _).
  destruct (AddDecloaker_drawn b m e _ _ _ Hd Hp Hr) as (m' & ? & Hm). exists m'. split; [done|].
  eapply drawn_ext; [done|]. by intros [].
Qed.

Lemma AddShield_gains b m e f :
  draws_to b m → has_footprint m e f →
  ∃ m', AddShield m e = Some m' ∧ drawn b m m' (λ l x z, at_layer ShieldL (shield_gains e f x z) l).
Proof.
  intros Hd Hf. destruct (footprint_ranges _ _ _ Hf) as (_ & _ & _ & _ & Hr). destruct Hf as (Hp & _).
  eapply AddShield_drawn; done.
Qed.

Lemma AddEnemyAmph_gains b m e f (const : bool) :
  draws_to b m → has_footprint m e f →
  ∃ m', (if const then AddEnemyAmphConst m e (fp_vsl f) else AddEnemyAmphGradient m e (fp_vsl f)) = Some m' ∧
    drawn b m m' (λ l x z, amph_layers (surf_gains m e f false const x z) (surf_gains m e f true const x z) l).
Proof.
  intros Hd Hf. destruct (footprint_ranges _ _ _ Hf) as (_ & Hl & Hw & _). destruct Hf as (Hp & _).
  destruct const; unfold AddEnemyAmphConst, AddEnemyAmphGradient; rewrite Hp, Hl, Hw;
    cbn [mbind option_bind]; by apply amph_drawn.
Qed.

Lemma drawn_if b m (c : bool) (step : option CThreatMap) g :
  draws_to b m → (∃ m', step = Some m' ∧ drawn b m m' g) →
  ∃ m', (if c then step else Some m) = Some m' ∧ drawn b m m' (λ l x z, if c then g l x z else []).
Proof. intros Hd (m' & -> & Hm). destruct c; [eauto|]. exists m. auto using drawn_nil. Qed.

Lemma AddEnemyUnit_drawn b m e f :
  draws_to b m → has_footprint m e f →
  ∃ m', AddEnemyUnit m e = Some m' ∧ drawn b m m' (hostile_gains m e f).
Proof.
  intros Hd Hf. pose proof Hf as (_ & _ & Hv). unfold AddEnemyUnit, hostile_gains.
  destruct (e_cdef e) as [cdef|].
  - rewrite Hv. cbn [mbind option_bind].
    destruct (drawn_if b m (hasAntiAir cdef) _ _ Hd (AddEnemyAir_gains b m e f Hd Hf)) as (m1 & -> & D1).
    cbn [mbind option_bind]. pose proof D1 as (Hd1 & E1 & _). pose proof (footprint_drawn _ _ _ _ _ _ D1 Hf) as Hf1.
    destruct (drawn_if b m1 (hasAntiLand cdef || hasAntiWater cdef) _ _ Hd1
      (AddEnemyAmph_gains b m1 e f (isAlwaysHit cdef) Hd1 Hf1)) as (m2 & -> & D2).
    cbn [mbind option_bind]. pose proof D2 as (Hd2 & E2 & _). pose proof (footprint_drawn _ _ _ _ _ _ D2 Hf1) as Hf2.
    destruct (AddDecloaker_gains b m2 e f Hd2 Hf2) as (m3 & -> & D3).
    cbn [mbind option_bind]. pose proof D3 as (Hd3 & E3 & _). pose proof (footprint_drawn _ _ _ _ _ _ D3 Hf2) as Hf3.
    assert (∃ m4, match shieldMount cdef with Some _ => AddShield m3 e | None => Some m3 end = Some m4 ∧
      drawn b m3 m4 (λ l x z, match shieldMount cdef with
                              | Some _ => at_layer ShieldL (shield_gains e f x z) l | None => [] end))
      as (m4 & -> & D4).
    { destruct (shieldMount cdef); [by apply AddShield_gains|]. eauto using drawn_nil. }
    exists m4. split; [done|].
    eapply drawn_ext; [exact (drawn_trans _ _ _ _ _ _ (drawn_trans _ _ _ _ _ _ (drawn_trans _ _ _ _ _ _ D1 D2) D3) D4)|].
    rewrite E1. intros l x z _. unfold at_layer.
    destruct l, (hasAntiAir cdef), (_ || _), (shieldMount cdef); simpl; by rewrite ?app_nil_r.
  - unfold AddEnemyUnitAll. rewrite <-Hv.
    destruct (AddEnemyAir_gains b m e f Hd Hf) as (m1 & -> & D1).
    cbn [mbind option_bind]. pose proof D1 as (Hd1 & E1 & _). pose proof (footprint_drawn _ _ _ _ _ _ D1 Hf) as Hf1.
    destruct (AddEnemyAmph_gains b m1 e f false Hd1 Hf1) as (m2 & -> & D2).
    cbn [mbind option_bind]. pose proof D2 as (Hd2 & E2 & _). pose proof (footprint_drawn _ _ _ _ _ _ D2 Hf1) as Hf2.
    destruct (AddDecloaker_gains b m2 e f Hd2 Hf2) as (m3 & -> & D3).
    exists m3. split; [done|].
    eapply drawn_ext; [exact (drawn_trans _ _ _ _ _ _ (drawn_trans _ _ _ _ _ _ D1 D2) D3)|].
    rewrite E1. intros l x z _. unfold at_layer. destruct l; simpl; by rewrite ?app_nil_r.
Qed.

(** A list of enemies, each drawn by [step] with the gains [g]. *)
Definition all_gains (g : SEnemyData → footprint → layer → Z → Z → list float)
    (efs : list (SEnemyData * footprint)) (l : layer) (x z : Z) : list float :=
  efs ≫= λ p, g p.1 p.2 l x z.

Lemma all_gains_ext g g' efs l x z :
  (∀ e f, g e f = g' e f) → all_gains g efs l x z = all_gains g' efs l x z.
Proof.
  intros H. unfold all_gains. induction efs as [|p efs IH]; [done|]. by rewrite !bind_cons, H, IH.
Qed.

Lemma enemies_drawn b (step : CThreatMap → SEnemyData → option CThreatMap)
    (g : CThreatMap → SEnemyData → footprint → layer → Z → Z → list float) m efs :
  (∀ m e f, draws_to b m → has_footprint m e f → ∃ m', step m e = Some m' ∧ drawn b m m' (g m e f)) →
  (∀ m v e f, g (set_mem m v) e f = g m e f) →
  draws_to b m → Forall (λ p, has_footprint m p.1 p.2) efs →
  ∃ m', foldM step m efs.*1 = Some m' ∧ drawn b m m' (all_gains (g m) efs).
Proof.
  intros Hstep Hg. revert m. induction efs as [|[e f] efs IH]; intros m Hd HF.
  { exists m. split; [done|]. by apply drawn_nil. }
  apply Forall_cons in HF as [He HF]. destruct (Hstep m e f Hd He) as (m1 & Hs & D1).
  rewrite fmap_cons. cbn [foldM fst]. rewrite Hs. cbn [mbind option_bind]. pose proof D1 as (Hd1 & E1 & _).
  destruct (IH m1) as (m2 & -> & D2); [done| |].
  { eapply Forall_impl; [done|]. intros p Hp. by eapply footprint_drawn. }
  exists m2. split; [done|]. eapply drawn_ext; [exact (drawn_trans _ _ _ _ _ _ D1 D2)|].
  intros l x z _. change (g m e f l x z ++ all_gains (g m1) efs l x z =
    g m e f l x z ++ all_gains (g m) efs l x z). f_equal. apply all_gains_ext.
  intros. rewrite E1. apply Hg.
Qed.

(** The readers' pointers. *)
Definition reader (m : CThreatMap) (l : layer) : tptr :=
  match l with
  | AirL => airThreat m | SurfL => surfThreat m | AmphL => amphThreat m
  | CloakL => cloakThreat m | ShieldL => shieldArray m
  end.

(** The invariant between updates: the readers look at the published buffer. *)
Record map_ok (m : CThreatMap) : Prop := {
  ok_mem : mem_wf (mapSize m) (mem m);
  ok_size : mapSize m = width m * height m;
  ok_width : 0 <= width m;
  ok_area : zlen (areaData m) = mapSize m;
  ok_readers : ∀ l, reader m l = (pThreatData m, l);
  ok_array : (threatArray m).1 = pThreatData m
}.

(** Same geometry, same readers: all that [Update] may leave to the main thread's eyes. *)
Record same_readers (m m' : CThreatMap) : Prop := {
  sr_square : squareSize m' = squareSize m;
  sr_width : width m' = width m;
  sr_height : height m' = height m;
  sr_size : mapSize m' = mapSize m;
  sr_area : areaData m' = areaData m;
  sr_published : pThreatData m' = pThreatData m;
  sr_readers : ∀ l, reader m' l = reader m l;
  sr_array : threatArray m' = threatArray m;
  sr_slack : slackMod m' = slackMod m
}.

Lemma GetNext_other m : GetNextThreatData m = other (pThreatData m).
Proof. done. Qed.

Lemma Prepare_ok m :
  map_ok m →
  let b := other (pThreatData m) in
  let m' := Prepare m b in
  draws_to b m' ∧ same_readers m m' ∧
  (∀ l i, 0 <= i < mapSize m → load (mem m') (b, l) i = Some THREAT_BASE) ∧
  (∀ p i, p.1 ≠ b → load (mem m') p i = load (mem m) p i).
Proof.
  intros [Hm Hs _ Ha Hr Ht]. simpl. set (b := other (pThreatData m)).
  assert (mem_wf (mapSize m) (mem (Prepare m b))) as Hwf.
  { intros c l. simpl. rewrite buf_data_set. decide_goal as [->|]; [|apply Hm].
    pose proof (Hm b l) as Hbl. destruct l; simpl in *; by rewrite zlen_fill. }
  split; [by constructor|]. split; [by constructor|]. split.
  - intros l i Hi. unfold load. simpl. rewrite buf_data_set, decide_True by done.
    pose proof (Hm b l) as Hbl. destruct l; simpl in *; apply zget_fill; by rewrite Hbl.
  - intros [c l] i Hc. unfold load. simpl. by rewrite buf_data_set, decide_False.
Qed.

Lemma drawn_keeps b m m' g p i :
  0 <= width m → draws_to b m → drawn b m m' g → p.1 ≠ b → load (mem m') p i = load (mem m) p i.
Proof.
  intros Hw Hd (_ & _ & Hm). eapply mem_drawn_keeps; [apply Hd|exact Hw|apply Hd|exact Hm].
Qed.

Lemma drawn_same_readers b m m' g : drawn b m m' g → same_readers m m'.
Proof. intros (_ & -> & _). by constructor. Qed.

Lemma same_readers_trans m1 m2 m3 : same_readers m1 m2 → same_readers m2 m3 → same_readers m1 m3.
Proof. intros [] []. constructor; try congruence; intros; etransitivity; eauto. Qed.

(** What the main thread can see of the map. *)
Definition same_view (m m' : CThreatMap) : Prop :=
  (∀ pos, GetThreatAt m' pos = GetThreatAt m pos) ∧
  (∀ pos, GetAllThreatAt m' pos = GetAllThreatAt m pos) ∧
  (∀ cdef pos, GetThreatAt_unit m' cdef pos = GetThreatAt_unit m cdef pos) ∧
  (∀ e, GetEnemyUnitThreat m' e = GetEnemyUnitThreat m e).

Lemma same_view_intro m m' :
  map_ok m → same_readers m m' →
  (∀ p i, p.1 = pThreatData m → load (mem m') p i = load (mem m) p i) → same_view m m'.
Proof.
  intros Hm Hs Hl.
  assert (∀ l i, load (mem m') (reader m' l) i = load (mem m) (reader m l) i) as Hr.
  { intros l i. rewrite (sr_readers _ _ Hs), Hl; [done|]. by rewrite (ok_readers _ Hm). }
  pose proof (Hr AirL) as HA. pose proof (Hr SurfL) as HS. pose proof (Hr AmphL) as HM.
  pose proof (Hr ShieldL) as HSh. simpl in HA, HS, HM, HSh. destruct Hs as [Hsq Hw _ _ _ _ _ Ha _].
  repeat split.
  - intros pos. unfold GetThreatAt, threat_at. rewrite Hsq, Hw, Ha.
    destruct (PosToXZ _ _) as [[x z]|]; [|done]. simpl. by rewrite Hl by apply Hm.
  - intros pos. unfold GetAllThreatAt, threat_at. rewrite Hsq, Hw.
    destruct (PosToXZ _ _) as [[x z]|]; [|done]. simpl. by rewrite HS.
  - intros cdef pos. unfold GetThreatAt_unit. rewrite Hsq, Hw.
    destruct (PosToXZ _ _) as [[x z]|]; [|done]. simpl. by rewrite HA, HS, HM.
  - intros e. unfold GetEnemyUnitThreat. rewrite Hsq, Hw.
    destruct (isBeingBuilt (data e)); [done|]. destruct (fleb _ _); [done|].
    destruct (PosToXZ _ _) as [[x z]|]; [|done]. simpl. by rewrite HSh.
Qed.

Lemma Update_ok m (hs ps : list (SEnemyData * footprint)) :
  map_ok m → Forall (λ p, has_footprint m p.1 p.2) hs → Forall (λ p, has_footprint m p.1 p.2) ps →
  let b := other (pThreatData m) in
  ∃ m1, Update m hs.*1 ps.*1 = Some m1 ∧ draws_to b m1 ∧ same_readers m m1 ∧
    (∀ p i, p.1 ≠ b → load (mem m1) p i = load (mem m) p i) ∧
    ∀ l x z, in_grid (width m) (height m) x z →
      cell m (mem m1) (b, l) x z =
        Some (foldl fadd THREAT_BASE (all_gains (hostile_gains m) hs l x z ++
                                      all_gains (λ _, peace_gains) ps l x z)).
Proof.
  intros Hm Hhs Hps b. unfold Update. rewrite GetNext_other. fold b.
  destruct (Prepare_ok m Hm) as (Hd & Hsr & Hbase & Hkeep). fold b in Hd, Hsr, Hbase, Hkeep.
  set (m0 := Prepare m b) in *.
  destruct (enemies_drawn b AddEnemyUnit hostile_gains m0 hs) as (m1 & -> & D1);
    [intros; by apply AddEnemyUnit_drawn|done|done|exact Hhs|]. cbn [mbind option_bind].
  pose proof D1 as (Hd1 & E1 & _).
  destruct (enemies_drawn b AddDecloaker (λ _ _ f, peace_gains f) m1 ps) as (m2 & -> & D2);
    [intros; by apply AddDecloaker_gains|done|done| |].
  { eapply Forall_impl; [exact Hps|]. intros p Hp. by eapply footprint_drawn. }
  pose proof (drawn_trans _ _ _ _ _ _ D1 D2) as D. exists m2. split; [done|].
  split; [apply D2|]. split; [eapply same_readers_trans; [done|by eapply drawn_same_readers]|].
  split.
  - intros p i Hp. rewrite <-Hkeep by done. eapply drawn_keeps; [|exact Hd|exact D|done].
    rewrite (sr_width _ _ Hsr). apply Hm.
  - intros l x z Hg. destruct D as (_ & _ & HD).
    unfold cell. change (width m) with (width m0) in Hg |- *. change (height m) with (height m0) in Hg.
    rewrite (proj2 HD b l x z Hg), decide_True, Hbase; [done| |done].
    rewrite (ok_size _ Hm). by apply sector_index_bound.
Qed.

Lemma Apply_ok b m1 :
  draws_to b m1 → b = other (pThreatData m1) → 0 <= width m1 →
  map_ok (Apply m1) ∧ mem (Apply m1) = mem m1 ∧ pThreatData (Apply m1) = b ∧
  isUpdating (Apply m1) = false.
Proof. intros [] -> ?. repeat split; try done. by intros []. Qed.

Lemma reader_Apply m l : reader (Apply m) l = (other (pThreatData m), l).
Proof. by destruct l. Qed.
Lemma pThreatData_Apply m : pThreatData (Apply m) = other (pThreatData m).
Proof. done. Qed.

(** The map a constructor builds satisfies the invariant. *)
Lemma new_CThreatMap_ok area stp sx sz dr all static speed0 speed1 defs m defs' :
  new_CThreatMap area stp sx sz dr all static speed0 speed1 defs = Some (m, defs') →
  0 <= sx → 0 <= sz → zlen area = sx * sz → map_ok m.
Proof.
  unfold new_CThreatMap. intros Hm Hx Hz Ha. bind_inv Hm. subst m.
  constructor; try done; [|by intros []].
  assert (0 <= sx * sz) by nia.
  intros [] []; simpl; by apply zlen_replicate.
Qed.

(** ** Properties *)

(** C15: An update publishes exactly the enemies it was given. From a map in its invariant, Update runs
    without undefined behaviour and the main thread cannot see it: every threat query gives the same
    answer before and after. After Apply the invariant holds again and every sector of every layer
    holds THREAT_BASE plus, in order, what each hostile enemy adds to it (air and surface threat
    inside its weapon circles, decloaking, shield) and what each peaceful enemy adds (decloaking). *)
Theorem threat_update_publishes m (hs ps : list (SEnemyData * footprint))
    (Hm : map_ok m)
    (Hhs : Forall (λ p, has_footprint m p.1 p.2) hs)
    (Hps : Forall (λ p, has_footprint m p.1 p.2) ps) :
  ∃ m1, Update m hs.*1 ps.*1 = Some m1 ∧ same_view m m1 ∧
    let m2 := Apply m1 in
    map_ok m2 ∧ isUpdating m2 = false ∧
    ∀ l x z, in_grid (width m) (height m) x z →
      cell m2 (mem m2) (reader m2 l) x z =
        Some (foldl fadd THREAT_BASE (all_gains (hostile_gains m) hs l x z ++
                                      all_gains (λ _, peace_gains) ps l x z)).
Proof.
  destruct (Update_ok m hs ps Hm Hhs Hps) as (m1 & Hu & Hd & Hsr & Hk & Hc).
  exists m1. split; [done|]. split.
  { apply same_view_intro; [done|done|]. intros p i Hp. apply Hk. rewrite Hp.
    intros Hp'. by destruct (other_ne (pThreatData m)). }
  destruct (Apply_ok _ _ Hd) as (Hok & Hmem & Hpub & Hup).
  { by rewrite (sr_published _ _ Hsr). }
  { rewrite (sr_width _ _ Hsr). apply Hm. }
  split; [done|]. split; [done|]. intros l x z Hg. rewrite Hmem, (ok_readers _ Hok), Hpub, <-Hc by done.
  unfold cell. by rewrite <-(sr_width _ _ Hsr).
Qed.

(** Choosing the layer once with SetThreatType and then asking GetThreatAt(position) is the same as
    asking GetThreatAt(unit, position), for every unit definition and position; and the query does not
    leave the array for any position whose sector is on the map. *)
Theorem SetThreatType_GetThreatAt m cdef pos x z
    (Hm : map_ok m) (Hp : PosToXZ (squareSize m) pos = Some (x, z))
    (Hg : in_grid (width m) (height m) x z) :
  GetThreatAt (SetThreatType m cdef) pos = GetThreatAt_unit m cdef pos ∧
  is_Some (GetThreatAt_unit m cdef pos).
Proof.
  split; [unfold GetThreatAt, threat_at, GetThreatAt_unit, SetThreatType;
          by destruct (isAbleToFly cdef), (isAmphibious cdef)|].
  assert (∀ l, is_Some (load (mem m) (reader m l) (z * width m + x))) as Hl.
  { intros l. rewrite (ok_readers _ Hm). apply zget_is_Some_iff. rewrite (ok_mem _ Hm), (ok_size _ Hm).
    by apply sector_index_bound. }
  unfold GetThreatAt_unit. rewrite Hp. simpl.
  destruct (Hl AirL) as [? Ha], (Hl SurfL) as [? Hs], (Hl AmphL) as [? Hmp]. simpl in Ha, Hs, Hmp.
  rewrite Ha, Hs, Hmp. destruct (isAbleToFly cdef), (isAmphibious cdef); eauto.
Qed.

(** Two updates in flight at once: if a second Update is started before the first is applied, and both are
    then applied, the buffers are swapped twice, so that every layer reads as before the updates.  (The
    commented-out check of EnqueueUpdate would prevent it; CAllyTeam::EnqueueUpdate does.) *)
Theorem two_updates_publish_stale m (hs ps hs' ps' : list (SEnemyData * footprint))
    (Hm : map_ok m)
    (Hhs : Forall (λ p, has_footprint m p.1 p.2) (hs ++ hs'))
    (Hps : Forall (λ p, has_footprint m p.1 p.2) (ps ++ ps')) :
  ∃ m1 m2, Update m hs.*1 ps.*1 = Some m1 ∧ Update m1 hs'.*1 ps'.*1 = Some m2 ∧
    let m3 := Apply (Apply m2) in
    ∀ l i, load (mem m3) (reader m3 l) i = load (mem m) (reader m l) i.
Proof.
  apply Forall_app in Hhs as [Hhs Hhs']. apply Forall_app in Hps as [Hps Hps'].
  destruct (Update_ok m hs ps Hm Hhs Hps) as (m1 & Hu & Hd & Hsr & Hk & _).
  assert (map_ok m1) as Hm1.
  { destruct Hd, Hsr, Hm. constructor; try done; [congruence| |congruence].
    intros l. by rewrite sr_readers0, sr_published0. }
  assert (∀ p, has_footprint m p.1 p.2 → has_footprint m1 p.1 p.2) as Hfp.
  { intros p (? & ? & ?). unfold has_footprint, vel_slack in *.
    by rewrite (sr_square _ _ Hsr), (sr_slack _ _ Hsr). }
  destruct (Update_ok m1 hs' ps' Hm1) as (m2 & Hu2 & Hd2 & Hsr2 & Hk2 & _);
    [by eapply Forall_impl..|].
  exists m1, m2. split; [done|]. split; [done|]. simpl. intros l i.
  assert (reader (Apply (Apply m2)) l = (pThreatData m, l)) as ->.
  { rewrite reader_Apply, pThreatData_Apply, other_other.
    by rewrite <-(sr_published _ _ Hsr), <-(sr_published _ _ Hsr2). }
  rewrite (ok_readers _ Hm). rewrite Hk2, Hk; [done| |]; simpl.
  - intros ?. by destruct (other_ne (pThreatData m)).
  - rewrite (sr_published _ _ Hsr). intros ?. by destruct (other_ne (pThreatData m)).
Qed.
End threat_map.

(** ** Witnesses *)

#[local] Existing Instance example_engine.

Definition flat_area : list STerrainMapSector := replicate 16 (MkSector false f0).
Definition map_example : option (CThreatMap * list CCircuitDef) :=
  new_CThreatMap flat_area 64 4 4 (f_of_Z 100) f1 f1 f1 2 [].
Definition enemy_example : SEnemyData :=
  MkEnemy None f0 (f_of_Z 100) false false false (F3 (f_of_Z 100) f0 (f_of_Z 70)) ZeroVector
          (f_of_Z 10) [3; 2; 2; 2; 0] 1 f0 0.
Definition footprint_example : footprint := Footprint 1 1 3 2 2 2 0 0.

Lemma map_example_ok m defs : map_example = Some (m, defs) → map_ok m.
Proof. intros H. eapply new_CThreatMap_ok; [exact H|lia|lia|done]. Qed.

Lemma threat_update_publishes_witness :
  match map_example with
  | Some (m, _) =>
      ∃ m1, Update m [enemy_example] [] = Some m1 ∧
        cell (Apply m1) (mem (Apply m1)) (airThreat (Apply m1)) 1 1 = Some (f_of_Z 10)
  | None => False
  end.
Proof.
  destruct map_example as [[m defs]|] eqn:Hm; [|by vm_compute in Hm].
  pose proof (map_example_ok m defs Hm) as Hok. vm_compute in Hm. injection Hm as <- <-.
  destruct (threat_update_publishes _ [(enemy_example, footprint_example)] [] Hok)
    as (m1 & Hu & _ & _ & _ & Hc).
  { repeat constructor. }
  { constructor. }
  exists m1. split; [exact Hu|].
  change (airThreat (Apply m1)) with (reader (Apply m1) AirL).
  rewrite (Hc AirL 1 1) by (split; simpl; lia). vm_compute. done.
Defined.

Lemma SetThreatType_GetThreatAt_witness :
  match map_example with
  | Some (m, _) => ∀ cdef, GetThreatAt (SetThreatType m cdef) ZeroVector = GetThreatAt_unit m cdef ZeroVector
  | None => False
  end.
Proof.
  destruct map_example as [[m defs]|] eqn:Hm; [|by vm_compute in Hm].
  pose proof (map_example_ok m defs Hm) as Hok. vm_compute in Hm. injection Hm as <- <-.
  intros cdef. apply (SetThreatType_GetThreatAt _ cdef ZeroVector 0 0 Hok); [done|split; simpl; lia].
Defined.

Lemma two_updates_publish_stale_witness :
  match map_example with
  | Some (m, _) =>
      ∃ m1 m2, Update m [enemy_example] [] = Some m1 ∧ Update m1 [enemy_example] [] = Some m2 ∧
        load (mem (Apply (Apply m2))) (airThreat (Apply (Apply m2))) 5 = Some THREAT_BASE
  | None => False
  end.
Proof.
  destruct map_example as [[m defs]|] eqn:Hm; [|by vm_compute in Hm].
  pose proof (map_example_ok m defs Hm) as Hok. vm_compute in Hm. injection Hm as <- <-.
  destruct (two_updates_publish_stale _ [(enemy_example, footprint_example)] []
    [(enemy_example, footprint_example)] [] Hok) as (m1 & m2 & Hu & Hu2 & Hl).
  { repeat constructor. }
  { constructor. }
  exists m1, m2. split; [exact Hu|]. split; [exact Hu2|]. specialize (Hl AirL 5).
  change (airThreat (Apply (Apply m2))) with (reader (Apply (Apply m2)) AirL).
  rewrite Hl. vm_compute. done.
Defined.
