(* ===== verification/InfluenceMap.v ===== *)
(** * InfluenceMap: who controls which part of the map

    Models [src/src/circuit/map/InfluenceMap.h/.cpp] (the [DEBUG_VIS] drawing aside).  [Update]
    draws the enemies in the worker thread, [Apply] draws the allies in the main thread, takes the
    difference and publishes the buffer. *)

From S2P Require Import Prelude Float32 EnemyUnit SectorGrid.

Open Scope circuit_scope.

Definition INFL_BASE : float := f0.

Inductive layer : Type := EnemyL | AllyL | AllyDefendL | InfluenceL.
#[export] Instance layer_eq_dec : EqDecision layer.
Proof. solve_decision. Defined.

Record SInfluenceData : Type := MkInflData {
  id_enemy : list float;
  id_ally : list float;
  id_allyDefend : list float;
  id_influence : list float
}.

Definition id_get (l : layer) (d : SInfluenceData) : list float :=
  match l with
  | EnemyL => id_enemy d | AllyL => id_ally d | AllyDefendL => id_allyDefend d
  | InfluenceL => id_influence d
  end.
Definition id_set (l : layer) (v : list float) (d : SInfluenceData) : SInfluenceData :=
  match l with
  | EnemyL => MkInflData v (id_ally d) (id_allyDefend d) (id_influence d)
  | AllyL => MkInflData (id_enemy d) v (id_allyDefend d) (id_influence d)
  | AllyDefendL => MkInflData (id_enemy d) (id_ally d) v (id_influence d)
  | InfluenceL => MkInflData (id_enemy d) (id_ally d) (id_allyDefend d) v
  end.

#[export, refine] Instance infl_layers : Layers layer SInfluenceData :=
  {| get_layer := id_get; set_layer := id_set |}.
Proof. by intros [] [] v d. Defined.

Abbreviation iptr := (ptr layer).
Abbreviation imem := (memory SInfluenceData).

Record CInfluenceMap : Type := MkInfluenceMap {
  squareSize : Z;
  width : Z;
  height : Z;
  mapSize : Z;
  mem : imem;                  (** [inflData0], [inflData1] *)
  pInflData : buf;
  drawEnemyInfl : iptr;
  drawAllyInfl : iptr;
  drawAllyDefendInfl : iptr;
  drawInfluence : iptr;
  isUpdating : bool;
  enemyInfl : iptr;
  allyInfl : iptr;
  allyDefendInfl : iptr;
  influence : iptr;
  defRadius : float
}.

Definition set_mem (m : CInfluenceMap) (v : imem) : CInfluenceMap :=
  MkInfluenceMap (squareSize m) (width m) (height m) (mapSize m) v (pInflData m) (drawEnemyInfl m)
    (drawAllyInfl m) (drawAllyDefendInfl m) (drawInfluence m) (isUpdating m) (enemyInfl m)
    (allyInfl m) (allyDefendInfl m) (influence m) (defRadius m).
Definition set_updating (m : CInfluenceMap) (b : bool) : CInfluenceMap :=
  MkInfluenceMap (squareSize m) (width m) (height m) (mapSize m) (mem m) (pInflData m)
    (drawEnemyInfl m) (drawAllyInfl m) (drawAllyDefendInfl m) (drawInfluence m) b (enemyInfl m)
    (allyInfl m) (allyDefendInfl m) (influence m) (defRadius m).

(** An allied unit, as the map sees it: its position in this frame and its definition; for a
    commander the engine's rules parameters give the weapons. *)
Record CAllyUnit : Type := MkAlly {
  u_pos : AIFloat3;
  u_cdef : CCircuitDef;
  u_weapon_id : Z → float;        (** [GetRulesParamFloat("comm_weapon_id_<num>", -1)] *)
  u_range_mult : float            (** [GetRulesParamFloat("comm_range_mult", 1.f)] *)
}.

Section influence_map.
Context {E : Engine}.
(** [CCircuitAI::GetWeaponDef]: the range and area of effect of a weapon definition. *)
Context (weapon : Z → option (float * float)).

(** [CInfluenceMap::CInfluenceMap] and [ReadConfig], with the terrain manager's sizes and the
    configuration value [defence.infl_rad]. *)
Definition base_data (n : Z) : SInfluenceData :=
  let v := replicate (Z.to_nat n) INFL_BASE in MkInflData v v v v.
Definition new_CInfluenceMap (ConvertStoP SectorXSize SectorZSize : Z) (infl_rad : float)
    : CInfluenceMap :=
  let squareSize := ConvertStoP * 4 in
  let width := Z.quot SectorXSize 4 in
  let height := Z.quot SectorZSize 4 in
  let mapSize := width * height in
  MkInfluenceMap squareSize width height mapSize (Mem (base_data mapSize) (base_data mapSize)) Data0
    (Data1, EnemyL) (Data1, AllyL) (Data1, AllyDefendL) (Data1, InfluenceL) false
    (Data0, EnemyL) (Data0, AllyL) (Data0, AllyDefendL) (Data0, InfluenceL) infl_rad.

Definition EnqueueUpdate (m : CInfluenceMap) : CInfluenceMap := set_updating m true.

(** ** Queries *)

Definition infl_at (m : CInfluenceMap) (p : iptr) (pos : AIFloat3) : option float :=
  '(x, z) ← PosToXZ (squareSize m) pos;
  v ← load (mem m) p (z * width m + x);
  Some (fsub v INFL_BASE).
Definition GetEnemyInflAt m := infl_at m (enemyInfl m).
Definition GetAllyInflAt m := infl_at m (allyInfl m).
Definition GetAllyDefendInflAt m := infl_at m (allyDefendInfl m).
Definition GetInfluenceAt m := infl_at m (influence m).

(** [int(pos.z / squareSize) * width + int(pos.x / squareSize)], divided as [float]. *)
Definition Pos2Index (m : CInfluenceMap) (pos : AIFloat3) : option Z :=
  z ← f_to_int (fdiv (pz pos) (f_of_Z (squareSize m)));
  x ← f_to_int (fdiv (px pos) (f_of_Z (squareSize m)));
  Some (z * width m + x).

(** ** Drawing *)

Definition GetUnitRange (m : CInfluenceMap) (u : CAllyUnit) : option Z :=
  let cdef := u_cdef u in
  if IsRoleComm cdef then
    w ← zfor 1 3 (λ num s,
          id ← f_to_int (u_weapon_id u num);
          if id <? 0 then Some s
          else w ← weapon id; Some (if fltb s.1 w.1 then w else s)) (f0, f0);
    r ← f_to_int (fadd (fmul w.1 (u_range_mult u)) (fdiv w.2 (f_of_Z 2)));
    q ← idiv r (squareSize m);
    Some (q * 4 + 1)
  else
    r ← GetMaxRange_any cdef;
    t ← GetThreatRange cdef THREAT_LAND;
    if fgtb r (f_of_Z 1000) then Some (Z.quot t 2) else Some t.

(** The common loop: [val * (1.0f - 1.0f * sqrtf(lenSq) / range)] at every sector of the circle. *)
Definition infl_circle (m : CInfluenceMap) (posx posz range : Z)
    (paint : imem → Z → Z → option imem) : option imem :=
  let rangeSq := SQUARE range in
  box_for (width m) (height m) posx posz range (λ z x mem,
    let dzSq := SQUARE (posz - z) in
    let dxSq := SQUARE (posx - x) in
    let lenSq := dxSq + dzSq in
    if lenSq >? rangeSq then Some mem
    else
      let index := z * width m + x in
      paint mem index lenSq) (mem m).

Definition AddMobileArmed (m : CInfluenceMap) (u : CAllyUnit) : option CInfluenceMap :=
  '(posx, posz) ← PosToXZ (squareSize m) (u_pos u);
  let val := power (u_cdef u) in
  range ← GetUnitRange m u;
  mem' ← infl_circle m posx posz range (λ mem index lenSq,
    let infl := heat_at f1 val lenSq range in
    add_at mem (drawAllyInfl m) index infl);
  Some (set_mem m mem').

Definition AddStaticArmed (m : CInfluenceMap) (u : CAllyUnit) : option CInfluenceMap :=
  '(posx, posz) ← PosToXZ (squareSize m) (u_pos u);
  let val := power (u_cdef u) in
  t ← GetThreatRange (u_cdef u) THREAT_LAND;
  let range := Z.quot t 2 in
  mem' ← infl_circle m posx posz range (λ mem index lenSq,
    let infl := heat_at f1 val lenSq range in
    mem ← add_at mem (drawAllyInfl m) index infl;
    add_at mem (drawAllyDefendInfl m) index infl);
  Some (set_mem m mem').

Definition unarmed_range (m : CInfluenceMap) : option Z :=
  f_to_int (fdiv (fmul (f_of_Z (DEFAULT_SLACK * 4)) (defRadius m)) (f_of_Z (squareSize m))).

Definition AddUnarmed (m : CInfluenceMap) (u : CAllyUnit) : option CInfluenceMap :=
  '(posx, posz) ← PosToXZ (squareSize m) (u_pos u);
  let val := f_of_Z 2 in
  range ← unarmed_range m;
  mem' ← infl_circle m posx posz range (λ mem index lenSq,
    let infl := heat_at f1 val lenSq range in
    add_at mem (drawAllyDefendInfl m) index infl);
  Some (set_mem m mem').

Definition enemy_range (e : SEnemyData) : option Z :=
  r ← GetRange e THREAT_LAND;
  match e_cdef e with
  | None => Some r
  | Some cdef => if IsMobile cdef then Some r else Some (Z.quot r 2)
  end.

Definition AddEnemy (m : CInfluenceMap) (e : SEnemyData) : option CInfluenceMap :=
  '(posx, posz) ← PosToXZ (squareSize m) (e_pos e);
  let val := threat e in
  range ← enemy_range e;
  mem' ← infl_circle m posx posz range (λ mem index lenSq,
    let infl := heat_at f1 val lenSq range in
    add_at mem (drawEnemyInfl m) index infl);
  Some (set_mem m mem').

(** The body of [Apply]'s loop over the friendly units. *)
Definition AddAlly (m : CInfluenceMap) (u : CAllyUnit) : option CInfluenceMap :=
  if isAttacker (u_cdef u) then
    if IsMobile (u_cdef u) then AddMobileArmed m u else AddStaticArmed m u
  else AddUnarmed m u.

(** ** The double buffer *)

Definition Prepare (m : CInfluenceMap) (b : buf) : CInfluenceMap :=
  let d := buf_data (mem m) b in
  let d := MkInflData (fill (id_enemy d) INFL_BASE) (fill (id_ally d) INFL_BASE)
             (fill (id_allyDefend d) INFL_BASE) (fill (id_influence d) INFL_BASE) in
  MkInfluenceMap (squareSize m) (width m) (height m) (mapSize m) (set_buf (mem m) b d) (pInflData m)
    (b, EnemyL) (b, AllyL) (b, AllyDefendL) (b, InfluenceL) (isUpdating m) (enemyInfl m)
    (allyInfl m) (allyDefendInfl m) (influence m) (defRadius m).

Definition GetNextInflData (m : CInfluenceMap) : buf :=
  match pInflData m with Data0 => Data1 | Data1 => Data0 end.

Definition Update (m : CInfluenceMap) (hostileDatas : list SEnemyData) : option CInfluenceMap :=
  let m := Prepare m (GetNextInflData m) in
  foldM AddEnemy m hostileDatas.

Definition SwapBuffers (m : CInfluenceMap) : CInfluenceMap :=
  let p := GetNextInflData m in
  MkInfluenceMap (squareSize m) (width m) (height m) (mapSize m) (mem m) p (drawEnemyInfl m)
    (drawAllyInfl m) (drawAllyDefendInfl m) (drawInfluence m) (isUpdating m)
    (p, EnemyL) (p, AllyL) (p, AllyDefendL) (p, InfluenceL) (defRadius m).

Definition Apply (m : CInfluenceMap) (units : list CAllyUnit) : option CInfluenceMap :=
  m ← foldM AddAlly m units;
  mem' ← zfor 0 (mapSize m) (λ i mem,
    a ← load mem (drawAllyInfl m) i;
    e ← load mem (drawEnemyInfl m) i;
    store mem (drawInfluence m) i (fsub a e)) (mem m);
  Some (set_updating (SwapBuffers (set_mem m mem')) false).

(** ** What is drawn *)

Record draws_to (b : buf) (m : CInfluenceMap) : Prop := {
  dt_mem : mem_wf (mapSize m) (mem m);
  dt_size : mapSize m = width m * height m;
  dt_width : 0 <= width m;
  dt_ptrs : drawEnemyInfl m = (b, EnemyL) ∧ drawAllyInfl m = (b, AllyL) ∧
            drawAllyDefendInfl m = (b, AllyDefendL) ∧ drawInfluence m = (b, InfluenceL)
}.

Definition drawn (b : buf) (m m' : CInfluenceMap) (g : layer → Z → Z → list float) : Prop :=
  draws_to b m' ∧ m' = set_mem m (mem m') ∧
  mem_drawn (width m) (height m) (mapSize m) b (mem m) (mem m') g.

Lemma infl_drawn_nil b m : draws_to b m → drawn b m m (λ _ _ _, []).
Proof. intros H. split; [done|]. split; [by destruct m|]. apply mem_drawn_nil, H. Qed.

Lemma infl_drawn_trans b m m1 m2 g1 g2 :
  drawn b m m1 g1 → drawn b m1 m2 g2 → drawn b m m2 (λ l x z, g1 l x z ++ g2 l x z).
Proof.
  intros (H1 & E1 & C1) (H2 & E2 & C2). split; [done|]. split; [rewrite E2, E1; by destruct m2|].
  rewrite E1 in C2. eapply mem_drawn_trans; [exact C1|exact C2].
Qed.

Lemma infl_drawn_ext b m m' g g' :
  drawn b m m' g → (∀ l x z, in_grid (width m) (height m) x z → g l x z = g' l x z) → drawn b m m' g'.
Proof. intros (H1 & E1 & C1) H. split; [done|]. split; [done|]. by eapply mem_drawn_ext. Qed.

Lemma infl_drawn_intro b m f g :
  draws_to b m →
  (∃ v, f = Some v ∧ mem_drawn (width m) (height m) (mapSize m) b (mem m) v g) →
  ∃ m', (v ← f; Some (set_mem m v)) = Some m' ∧ drawn b m m' g.
Proof.
  intros Hd (v & -> & Hv). eexists. split; [done|]. split; [|by split].
  destruct Hd. constructor; [apply Hv|done..].
Qed.

(** The gains of one unit: position, range, value and the layers it is drawn into. *)
Definition infl_gains (posx posz range : Z) (val : float) (ls : list layer) (l : layer) (x z : Z)
    : list float :=
  if decide (l ∈ ls) then circle_gain posx posz range (λ sum, heat_at f1 val sum range) x z else [].

(** The reads of a unit record succeed with these results. *)
Record place : Type := Place { pl_x : Z; pl_z : Z; pl_range : Z }.

Definition enemy_place (m : CInfluenceMap) (e : SEnemyData) (p : place) : Prop :=
  PosToXZ (squareSize m) (e_pos e) = Some (pl_x p, pl_z p) ∧ enemy_range e = Some (pl_range p).

Definition ally_range (m : CInfluenceMap) (u : CAllyUnit) : option Z :=
  if isAttacker (u_cdef u) then
    if IsMobile (u_cdef u) then GetUnitRange m u
    else t ← GetThreatRange (u_cdef u) THREAT_LAND; Some (Z.quot t 2)
  else unarmed_range m.
Definition ally_place (m : CInfluenceMap) (u : CAllyUnit) (p : place) : Prop :=
  PosToXZ (squareSize m) (u_pos u) = Some (pl_x p, pl_z p) ∧ ally_range m u = Some (pl_range p).

Definition enemy_gains (e : SEnemyData) (p : place) : layer → Z → Z → list float :=
  infl_gains (pl_x p) (pl_z p) (pl_range p) (threat e) [EnemyL].
Definition ally_gains (u : CAllyUnit) (p : place) : layer → Z → Z → list float :=
  if isAttacker (u_cdef u) then
    infl_gains (pl_x p) (pl_z p) (pl_range p) (power (u_cdef u))
      (if IsMobile (u_cdef u) then [AllyL] else [AllyL; AllyDefendL])
  else infl_gains (pl_x p) (pl_z p) (pl_range p) (f_of_Z 2) [AllyDefendL].

Lemma infl_circle_drawn b m posx posz range val paint ls :
  draws_to b m →
  (∀ x z v, in_grid (width m) (height m) x z → mem_wf (mapSize m) v →
    let sum := SQUARE (posx - x) + SQUARE (posz - z) in
    ∃ v', paint v (z * width m + x) sum = Some v' ∧
      sector_step (width m) (mapSize m) b x z
        (λ l, if decide (l ∈ ls) then [heat_at f1 val sum range] else []) v v') →
  ∃ v, infl_circle m posx posz range paint = Some v ∧
    mem_drawn (width m) (height m) (mapSize m) b (mem m) v (infl_gains posx posz range val ls).
Proof.
  intros Hd Hp. unfold infl_circle.
  destruct (circle_drawn_gen (width m) (height m) (mapSize m) b posx posz range
    (λ z x mem, if SQUARE (posx - x) + SQUARE (posz - z) >? SQUARE range then Some mem
                else paint mem (z * width m + x) (SQUARE (posx - x) + SQUARE (posz - z)))
    (λ l x z, if decide (l ∈ ls)
              then [heat_at f1 val (SQUARE (posx - x) + SQUARE (posz - z)) range] else []) (mem m))
    as (v & Hv & Hm).
  - apply Hd.
  - intros x z v Hg Hv. rewrite Z.gtb_ltb, Z.ltb_antisym.
    destruct (_ <=? SQUARE range); simpl; [by apply Hp|]. exists v. auto using no_gain.
  - exists v. split; [done|]. eapply mem_drawn_ext; [done|]. intros l x z _. simpl.
    unfold infl_gains, circle_gain. by destruct (_ && _), (decide (l ∈ ls)).
Qed.

(** One [add_at] into the layer [l0] is the step that [infl_circle_drawn] asks for. *)
Lemma one_layer b m v x z l0 h :
  draws_to b m → in_grid (width m) (height m) x z → mem_wf (mapSize m) v →
  ∃ v', add_at v (b, l0) (z * width m + x) h = Some v' ∧
    sector_step (width m) (mapSize m) b x z (λ l, if decide (l ∈ [l0]) then [h] else []) v v'.
Proof.
  intros Hd Hg Hv. destruct (add_gain (width m) (height m) (mapSize m) b v l0 x z h) as (v' & ? & Hs);
    [apply Hd|done|done|].
  exists v'. split; [done|]. eapply sector_step_ext; [exact Hs|]. intros l. unfold at_layer.
  repeat decide_goal; set_solver.
Qed.

Lemma AddEnemy_drawn b m e p :
  draws_to b m → enemy_place m e p → ∃ m', AddEnemy m e = Some m' ∧ drawn b m m' (enemy_gains e p).
Proof.
  intros Hd [Hp Hr]. unfold AddEnemy. rewrite Hp, Hr. cbn [mbind option_bind].
  apply infl_drawn_intro, infl_circle_drawn; [done|done|]. intros x z v Hg Hv. cbv zeta.
  destruct (dt_ptrs _ _ Hd) as (-> & _). by apply one_layer.
Qed.

Lemma AddAlly_drawn b m u p :
  draws_to b m → ally_place m u p → ∃ m', AddAlly m u = Some m' ∧ drawn b m m' (ally_gains u p).
Proof.
  intros Hd [Hp Hr]. unfold AddAlly, ally_gains, ally_range in *.
  destruct (dt_ptrs _ _ Hd) as (_ & Ea & Edef & _).
  destruct (isAttacker (u_cdef u)); [destruct (IsMobile (u_cdef u))|].
  - unfold AddMobileArmed. rewrite Hp, Hr. cbn [mbind option_bind].
    apply infl_drawn_intro, infl_circle_drawn; [done|done|]. intros x z v Hg Hv. cbv zeta.
    rewrite Ea. by apply one_layer.
  - unfold AddStaticArmed. rewrite Hp. cbn [mbind option_bind].
    destruct (GetThreatRange _ _) as [t|]; [|done]. cbn [mbind option_bind] in *. injection Hr as ->.
    apply infl_drawn_intro, infl_circle_drawn; [done|done|]. intros x z v Hg Hv. cbv zeta.
    rewrite Ea, Edef. set (h := heat_at _ _ _ _).
    destruct (one_layer b m v x z AllyL h Hd Hg Hv) as (v1 & -> & S1). cbn [mbind option_bind].
    destruct (one_layer b m v1 x z AllyDefendL h Hd Hg (proj1 S1)) as (v2 & -> & S2).
    exists v2. split; [done|].
    eapply sector_step_ext; [exact (sector_step_trans _ _ _ _ _ _ _ _ _ _ S1 S2)|].
    intros []; simpl; repeat decide_goal; set_solver.
  - unfold AddUnarmed. rewrite Hp, Hr. cbn [mbind option_bind].
    apply infl_drawn_intro, infl_circle_drawn; [done|done|]. intros x z v Hg Hv. cbv zeta.
    rewrite Edef. by apply one_layer.
Qed.

(** A list of units, each drawn by [step]. *)
Definition all_gains {U} (g : U → place → layer → Z → Z → list float) (ups : list (U * place))
    (l : layer) (x z : Z) : list float := ups ≫= λ p, g p.1 p.2 l x z.

Lemma units_drawn {U} b (step : CInfluenceMap → U → option CInfluenceMap)
    (ok : CInfluenceMap → U → place → Prop) (g : U → place → layer → Z → Z → list float) m ups :
  (∀ m u p, draws_to b m → ok m u p → ∃ m', step m u = Some m' ∧ drawn b m m' (g u p)) →
  (∀ m v u p, ok m u p → ok (set_mem m v) u p) →
  draws_to b m → Forall (λ p, ok m p.1 p.2) ups →
  ∃ m', foldM step m ups.*1 = Some m' ∧ drawn b m m' (all_gains g ups).
Proof.
  intros Hstep Hok. revert m. induction ups as [|[u p] ups IH]; intros m Hd HF.
  { exists m. split; [done|]. by apply infl_drawn_nil. }
  apply Forall_cons in HF as [Hu HF]. destruct (Hstep m u p Hd Hu) as (m1 & Hs & D1).
  rewrite fmap_cons. cbn [foldM fst]. rewrite Hs. cbn [mbind option_bind].
  pose proof D1 as (Hd1 & E1 & _).
  destruct (IH m1) as (m2 & -> & D2); [done| |].
  { eapply Forall_impl; [done|]. intros q Hq. rewrite E1. by apply Hok. }
  exists m2. split; [done|]. exact (infl_drawn_trans _ _ _ _ _ _ D1 D2).
Qed.

(** ** The invariant between updates *)

Definition reader (m : CInfluenceMap) (l : layer) : iptr :=
  match l with
  | EnemyL => enemyInfl m | AllyL => allyInfl m | AllyDefendL => allyDefendInfl m
  | InfluenceL => influence m
  end.

Record map_ok (m : CInfluenceMap) : Prop := {
  ok_mem : mem_wf (mapSize m) (mem m);
  ok_size : mapSize m = width m * height m;
  ok_width : 0 <= width m;
  ok_height : 0 <= height m;
  ok_readers : ∀ l, reader m l = (pInflData m, l)
}.

(** What [Update] and the drawing part of [Apply] do not touch. *)
Definition same_frame (m m' : CInfluenceMap) : Prop :=
  squareSize m' = squareSize m ∧ width m' = width m ∧ height m' = height m ∧
  mapSize m' = mapSize m ∧ pInflData m' = pInflData m ∧ (∀ l, reader m' l = reader m l) ∧
  defRadius m' = defRadius m.

Definition same_view (m m' : CInfluenceMap) : Prop :=
  ∀ pos, GetEnemyInflAt m' pos = GetEnemyInflAt m pos ∧ GetAllyInflAt m' pos = GetAllyInflAt m pos ∧
         GetAllyDefendInflAt m' pos = GetAllyDefendInflAt m pos ∧
         GetInfluenceAt m' pos = GetInfluenceAt m pos.

Lemma drawn_frame b m m' g : drawn b m m' g → same_frame m m'.
Proof. intros (_ & -> & _). by repeat split. Qed.

Lemma infl_Prepare_ok m :
  map_ok m →
  let b := other (pInflData m) in
  draws_to b (Prepare m b) ∧ same_frame m (Prepare m b) ∧
  (∀ l i, 0 <= i < mapSize m → load (mem (Prepare m b)) (b, l) i = Some INFL_BASE) ∧
  (∀ p i, p.1 ≠ b → load (mem (Prepare m b)) p i = load (mem m) p i).
Proof.
  intros [Hm Hs Hw Hh Hr]. simpl. set (b := other (pInflData m)).
  assert (mem_wf (mapSize m) (mem (Prepare m b))) as Hwf.
  { intros c l. simpl. rewrite buf_data_set. decide_goal as [->|]; [|apply Hm].
    pose proof (Hm b l) as Hbl. destruct l; simpl in *; by rewrite zlen_fill. }
  split; [by constructor|]. split; [by repeat split|]. split.
  - intros l i Hi. unfold load. simpl. rewrite buf_data_set, decide_True by done.
    pose proof (Hm b l) as Hbl. destruct l; simpl in *; apply zget_fill; by rewrite Hbl.
  - intros [c l] i Hc. unfold load. simpl. by rewrite buf_data_set, decide_False.
Qed.

Lemma infl_same_view_intro m m' :
  map_ok m → same_frame m m' →
  (∀ p i, p.1 = pInflData m → load (mem m') p i = load (mem m) p i) → same_view m m'.
Proof.
  intros Hm (Hsq & Hw & _ & _ & _ & Hr & _) Hl.
  assert (∀ l pos, infl_at m' (reader m' l) pos = infl_at m (reader m l) pos) as Hq.
  { intros l pos. unfold infl_at. rewrite Hsq, Hw, Hr. destruct (PosToXZ _ _) as [[x z]|]; [|done]. simpl.
    rewrite Hl; [done|]. by rewrite (ok_readers _ Hm). }
  intros pos. repeat split; [apply (Hq EnemyL)|apply (Hq AllyL)|apply (Hq AllyDefendL)|apply (Hq InfluenceL)].
Qed.

Definition layer_value (g : layer → Z → Z → list float) (l : layer) (x z : Z) : float :=
  foldl fadd INFL_BASE (g l x z).

Lemma infl_Update_ok m hs :
  map_ok m → Forall (λ p, enemy_place m p.1 p.2) hs →
  let b := other (pInflData m) in
  ∃ m1, Update m hs.*1 = Some m1 ∧ draws_to b m1 ∧ same_frame m m1 ∧
    (∀ p i, p.1 ≠ b → load (mem m1) p i = load (mem m) p i) ∧
    ∀ l x z, in_grid (width m) (height m) x z →
      load (mem m1) (b, l) (z * width m + x) = Some (layer_value (all_gains enemy_gains hs) l x z).
Proof.
  intros Hm Hhs b. unfold Update. change (GetNextInflData m) with b.
  destruct (infl_Prepare_ok m Hm) as (Hd & Hsf & Hbase & Hkeep). fold b in Hd, Hsf, Hbase, Hkeep.
  destruct (units_drawn b AddEnemy enemy_place enemy_gains (Prepare m b) hs) as (m1 & -> & D);
    [by apply AddEnemy_drawn|done|done|exact Hhs|].
  pose proof D as (Hd1 & E1 & HD). exists m1. split; [done|]. split; [done|].
  split; [rewrite E1; exact Hsf|]. split.
  - intros p i Hp. rewrite <-Hkeep by done. eapply mem_drawn_keeps; [apply Hd|apply Hd|apply Hd|exact HD|done].
  - intros l x z Hg. change (width m) with (width (Prepare m b)) in Hg |- *.
    change (height m) with (height (Prepare m b)) in Hg.
    rewrite (proj2 HD b l x z Hg), decide_True, Hbase; [done| |done]. rewrite (ok_size _ Hm). by apply sector_index_bound.
Qed.

(** The difference loop of [Apply]. *)
Lemma difference_loop b m :
  draws_to b m → 0 <= mapSize m →
  ∃ v, zfor 0 (mapSize m) (λ i mem,
         a ← load mem (drawAllyInfl m) i;
         e ← load mem (drawEnemyInfl m) i;
         store mem (drawInfluence m) i (fsub a e)) (mem m) = Some v ∧
    mem_wf (mapSize m) v ∧
    (∀ q i, q ≠ (b, InfluenceL) → load v q i = load (mem m) q i) ∧
    ∀ i, 0 <= i < mapSize m →
      load v (b, InfluenceL) i =
        a ← load (mem m) (b, AllyL) i; e ← load (mem m) (b, EnemyL) i; Some (fsub a e).
Proof.
  intros Hd Hn. destruct (dt_ptrs _ _ Hd) as (-> & -> & _ & ->).
  apply (zfor_ind (λ i v, mem_wf (mapSize m) v ∧
    (∀ q j, q ≠ (b, InfluenceL) → load v q j = load (mem m) q j) ∧
    ∀ j, 0 <= j < i → load v (b, InfluenceL) j =
      a ← load (mem m) (b, AllyL) j; e ← load (mem m) (b, EnemyL) j; Some (fsub a e))).
  - done.
  - split; [apply Hd|]. split; [done|]. intros. lia.
  - intros i v Hi (Hv & Hk & Hdn).
    destruct (load_ok (mapSize m) (mem m) (b, AllyL) i) as [a Ha]; [apply Hd|done|].
    destruct (load_ok (mapSize m) (mem m) (b, EnemyL) i) as [e He]; [apply Hd|done|].
    rewrite (Hk (b, AllyL)), Ha by done. cbn [mbind option_bind].
    rewrite (Hk (b, EnemyL)), He by done. cbn [mbind option_bind].
    destruct (store_ok (mapSize m) v (b, InfluenceL) i (fsub a e) Hv Hi) as (v' & -> & Hv' & Hl).
    exists v'. split; [done|]. split; [done|]. split.
    + intros q j Hq. rewrite Hl, decide_False by naive_solver. by apply Hk.
    + intros j Hj. rewrite Hl. decide_goal as [[_ ->]|Hne]; [by rewrite Ha, He|].
      apply Hdn. assert (j ≠ i) by naive_solver. lia.
Qed.

Lemma infl_Apply_ok b m1 us :
  draws_to b m1 → b = other (pInflData m1) → 0 <= height m1 →
  Forall (λ p, ally_place m1 p.1 p.2) us →
  ∃ m2, Apply m1 us.*1 = Some m2 ∧ map_ok m2 ∧ isUpdating m2 = false ∧
    width m2 = width m1 ∧ (∀ l, reader m2 l = (b, l)) ∧
    ∀ x z, in_grid (width m1) (height m1) x z →
      let v l := (λ a, foldl fadd a (all_gains ally_gains us l x z)) <$>
                   load (mem m1) (b, l) (z * width m1 + x) in
      (∀ l, l ≠ InfluenceL → load (mem m2) (b, l) (z * width m1 + x) = v l) ∧
      load (mem m2) (b, InfluenceL) (z * width m1 + x) =
        a ← v AllyL; e ← v EnemyL; Some (fsub a e).
Proof.
  intros Hd Hb Hh Hus. unfold Apply.
  destruct (units_drawn b AddAlly ally_place ally_gains m1 us) as (m' & -> & D);
    [by apply AddAlly_drawn|done|done|done|]. cbn [mbind option_bind].
  pose proof D as (Hd' & Em & HD).
  assert (0 <= mapSize m') as Hn.
  { rewrite Em. simpl. rewrite (dt_size _ _ Hd). apply Z.mul_nonneg_nonneg; [apply Hd|done]. }
  destruct (difference_loop b m' Hd' Hn) as (v & -> & Hv & Hk & Hdiff).
  eexists. split; [done|]. split.
  { destruct Hd'. constructor; try done; [simpl; rewrite Em; done|by intros []]. }
  split; [done|]. split; [simpl; by rewrite Em|]. split.
  { intros l. rewrite Hb. destruct l; simpl; rewrite Em; done. }
  assert (mapSize m' = mapSize m1) as Hms by (by rewrite Em).
  intros x z Hg. assert (0 <= z * width m1 + x < mapSize m1) as Hi.
  { rewrite (dt_size _ _ Hd). by apply sector_index_bound. }
  assert (∀ l, load (mem m') (b, l) (z * width m1 + x) =
    (λ a, foldl fadd a (all_gains ally_gains us l x z)) <$> load (mem m1) (b, l) (z * width m1 + x)) as HL.
  { intros l. by rewrite (proj2 HD b l x z Hg), decide_True. }
  split.
  - intros l Hl. simpl. rewrite Hk by congruence. apply HL.
  - simpl. rewrite Hdiff by (by rewrite Hms). by rewrite !HL.
Qed.

(** ** Properties *)

(** C33: Influence is ally minus enemy. From a map in its invariant, Update (worker thread) runs without
    undefined behaviour and changes no query answer; Apply (main thread) then publishes a map in its
    invariant whose enemy, ally and ally-defence layers hold, at every sector, INFL_BASE plus the
    contributions of the given enemies and allies in order, and whose influence layer holds their
    difference ally - enemy. *)
Theorem influence_is_difference m (hs : list (SEnemyData * place)) (us : list (CAllyUnit * place))
    (Hm : map_ok m)
    (Hhs : Forall (λ p, enemy_place m p.1 p.2) hs)
    (Hus : Forall (λ p, ally_place m p.1 p.2) us) :
  ∃ m1 m2, Update m hs.*1 = Some m1 ∧ same_view m m1 ∧ Apply m1 us.*1 = Some m2 ∧ map_ok m2 ∧
    isUpdating m2 = false ∧
    ∀ x z, in_grid (width m) (height m) x z →
      let total l := foldl fadd INFL_BASE (all_gains enemy_gains hs l x z ++ all_gains ally_gains us l x z) in
      let sector l := load (mem m2) (reader m2 l) (z * width m2 + x) in
      sector EnemyL = Some (total EnemyL) ∧ sector AllyL = Some (total AllyL) ∧
      sector AllyDefendL = Some (total AllyDefendL) ∧
      sector InfluenceL = Some (fsub (total AllyL) (total EnemyL)).
Proof.
  destruct (infl_Update_ok m hs Hm Hhs) as (m1 & Hu & Hd & Hsf & Hk & Hc).
  pose proof Hsf as (Hsq & Hw & Hh & _ & Hp & _ & Hdr).
  destruct (infl_Apply_ok (other (pInflData m)) m1 us Hd) as (m2 & Ha & Hok & Hup & Hw2 & Hr & Hl).
  { by rewrite Hp. }
  { rewrite Hh. apply Hm. }
  { eapply Forall_impl; [exact Hus|]. intros p [? Har]. split; [by rewrite Hsq|].
    unfold ally_range, GetUnitRange, unarmed_range in *. by rewrite Hsq, Hdr. }
  exists m1, m2. split; [done|]. split.
  { apply infl_same_view_intro; [done|done|]. intros p i Hpi. apply Hk. rewrite Hpi.
    intros Heq. by destruct (other_ne (pInflData m)). }
  split; [done|]. split; [done|]. split; [done|]. intros x z Hg. cbv zeta.
  rewrite <-Hw, <-Hh in Hg. destruct (Hl x z Hg) as [H1 H2]. rewrite Hw in H1, H2.
  rewrite Hw, Hh in Hg. rewrite !Hr, Hw2, Hw, !foldl_app. rewrite !H1, H2, !Hc by done.
  done.
Qed.
End influence_map.

(** ** Witness *)

#[local] Existing Instance example_engine.

Definition infl_example : CInfluenceMap := new_CInfluenceMap 64 16 16 (f_of_Z 5).
Definition enemy_example : SEnemyData :=
  MkEnemy None f0 (f_of_Z 100) false false false (F3 (f_of_Z 300) f0 (f_of_Z 300)) ZeroVector
          (f_of_Z 10) [3; 2; 2; 2; 0] 1 f0 0.
Definition def_example : CCircuitDef :=
  MkDef 1 4 4 0 0 0 None f1 f0 (f_of_Z 4) f1 RANGE_LAND [f0; f_of_Z 500; f0] [0; 3; 0; 1; 0]
        f0 f0 false true false true false false false false (f_of_Z 100) f1 (f_of_Z 50) 0 (-1) false.
Definition ally_example : CAllyUnit :=
  MkAlly (F3 (f_of_Z 300) f0 (f_of_Z 300)) def_example (λ _, f_of_Z (-1)) f1.

Lemma infl_example_ok : map_ok infl_example.
Proof. constructor; [|done|by vm_compute|by vm_compute|by intros []]. by intros [] []. Qed.

Lemma influence_is_difference_witness :
  ∃ m1 m2, Update infl_example [enemy_example] = Some m1 ∧
    Apply (λ _, None) m1 [ally_example] = Some m2 ∧
    load (mem m2) (influence m2) 5 = Some (f_of_Z (-6)).
Proof.
  destruct (influence_is_difference (λ _, None) infl_example [(enemy_example, Place 1 1 2)]
    [(ally_example, Place 1 1 3)] infl_example_ok) as (m1 & m2 & Hu & _ & Ha & Hok & _ & Hc).
  { repeat constructor. }
  { repeat constructor. }
  exists m1, m2. split; [exact Hu|]. split; [exact Ha|].
  destruct (Hc 1 1) as (_ & _ & _ & Hi); [split; vm_compute; done|].
  assert (width m2 = 4) as Hw.
  { vm_compute in Hu. injection Hu as <-. vm_compute in Ha. by injection Ha as <-. }
  rewrite Hw in Hi. change (reader m2 InfluenceL) with (influence m2) in Hi.
  change (1 * 4 + 1) with 5 in Hi. rewrite Hi. vm_compute. done.
Defined.
