(* ===== verification/EnemyGroups.v ===== *)
(** * EnemyGroups: the k-means groups of the known enemies

    Models the group part of [src/src/circuit/unit/enemy/EnemyManager.h/.cpp]:
    [KMeansIteration], run in the worker thread on the next [SGroupData], and the double
    buffer around it ([Prepare], [Update], [Apply], [SwapBuffers]), whose reader
    [enemyGroups] is a C++ reference to the groups of [groupData0]. *)

From S2P Require Import Prelude Float32 EnemyUnit SectorGrid.

Open Scope circuit_scope.

(** [CMaskHandler::GetMaxMasks()] *)
Definition MaxMasks : Z := 32.

Record SEnemyGroup : Type := MkGroup {
  units : list Z;
  g_pos : AIFloat3;
  roleCosts : list float;
  g_cost : float;
  g_threat : float
}.

(** The converting constructor [SEnemyGroup(const AIFloat3&)]. *)
Definition new_SEnemyGroup (p : AIFloat3) : SEnemyGroup :=
  MkGroup [] p (replicate (Z.to_nat MaxMasks) f0) f0 f0.

Record SGroupData : Type := MkGroupData {
  gd_groups : list SEnemyGroup;
  gd_enemyPos : AIFloat3;
  gd_maxThreatGroupIdx : Z
}.

Record SInitThreatMod : Type := MkThrMod { inMobile : float; inStatic : float }.

(** [std::vector::resize]: cut, or fill up with copies of [x]. *)
Definition resize {A} (l : list A) (n : Z) (x : A) : list A :=
  take (Z.to_nat n) l ++ replicate (Z.to_nat n - length l) x.

Lemma zlen_resize {A} (l : list A) n x : 0 <= n → zlen (resize l n x) = n.
Proof. intros ?. unfold zlen, resize. rewrite length_app, length_take, length_replicate. lia. Qed.

Section kmeans.
Context {E : Engine}.
Context (initThrMod : SInitThreatMod).

Definition KMEANS_BASE_MAX_K : Z := 32.

(** [closestDistance], [closestIndex] *)
Definition closest_step (groups : list SEnemyGroup) (pos : AIFloat3) (m : Z) (s : float * Z)
    : option (float * Z) :=
  let '(closestDistance, closestIndex) := s in
  g ← groups.[m];
  let distance := SqDistance2D pos (g_pos g) in
  Some (if fltb distance closestDistance then (distance, m) else (closestDistance, closestIndex)).
Definition closest_mean (groups : list SEnemyGroup) (newK : Z) (pos : AIFloat3) : option Z :=
  r ← zfor 0 newK (closest_step groups pos) (FLT_MAX, -1);
  Some r.2.

(** The assignment loop over [hostileDatas] and then [peaceDatas]: [unitsClosestMeanID] and
    [numUnitsAssignedToMean]. *)
Definition assign_step (groups : list SEnemyGroup) (newK : Z) (s : list Z * list Z)
    (enemy : SEnemyData) : option (list Z * list Z) :=
  let '(ids, counts) := s in
  closestIndex ← closest_mean groups newK (e_pos enemy);
  c ← counts.[closestIndex];
  counts ← counts.[closestIndex <- c + 1];
  Some (ids ++ [closestIndex], counts).
Definition assign_means (groups : list SEnemyGroup) (newK : Z) (datas : list SEnemyData)
    : option (list Z * list Z) :=
  foldM (assign_step groups newK) ([], replicate (Z.to_nat newK) 0) datas.

Definition clear_group (eg : SEnemyGroup) : SEnemyGroup :=
  MkGroup [] ZeroVector (fill (roleCosts eg) f0) f0 f0.

(** The body of the accumulation loop for one enemy and its mean. *)
Definition add_to_group (eg : SEnemyGroup) (enemy : SEnemyData) (count : Z) : option SEnemyGroup :=
  let num := f_of_Z (Z.max 1 count) in
  let pos := f3_add (g_pos eg) (f3_div (e_pos enemy) num) in
  let us := if IsFake enemy then units eg else units eg ++ [e_id enemy] in
  match e_cdef enemy with
  | Some cdef =>
      c ← (roleCosts eg).[mainRole cdef];
      roles ← (roleCosts eg).[mainRole cdef <- fadd c (cost enemy)];
      Some (MkGroup us pos roles
              (if negb (IsMobile cdef) || IsInRadarOrLOS enemy then fadd (g_cost eg) (cost enemy)
               else g_cost eg)
              (fadd (g_threat eg)
                    (fmul (threat enemy)
                          (if IsMobile cdef then inMobile initThrMod else inStatic initThrMod))))
  | None => Some (MkGroup us pos (roleCosts eg) (g_cost eg) (fadd (g_threat eg) (threat enemy)))
  end.

Definition accumulate_step (counts : list Z) (means : list SEnemyGroup) (a : SEnemyData * Z)
    : option (list SEnemyGroup) :=
  let '(enemy, meanIndex) := a in
  eg ← means.[meanIndex];
  n ← counts.[meanIndex];
  eg ← add_to_group eg enemy n;
  means.[meanIndex <- eg].
Definition accumulate (means : list SEnemyGroup) (counts : list Z) (assigned : list (SEnemyData * Z))
    : option (list SEnemyGroup) :=
  foldM (accumulate_step counts) means assigned.

(** The last loop: empty means, the average position and the most threatening group. *)
Definition finish_step (newMeansPosition : AIFloat3) (i : Z) (s : list SEnemyGroup * AIFloat3 * Z)
    : option (list SEnemyGroup * AIFloat3 * Z) :=
  let '(means, enemyPos, maxIdx) := s in
  g ← means.[i];
  means ← (if f3_eqb (g_pos g) ZeroVector
           then means.[i <- new_SEnemyGroup newMeansPosition] else Some means);
  g ← means.[i];
  let enemyPos := f3_add enemyPos (g_pos g) in
  gm ← means.[maxIdx];
  Some (means, enemyPos, if fltb (g_threat gm) (g_threat g) then i else maxIdx).
Definition finish_groups (means : list SEnemyGroup) (newK : Z) (newMeansPosition : AIFloat3)
    : option (list SEnemyGroup * AIFloat3 * Z) :=
  zfor 0 newK (finish_step newMeansPosition) (means, ZeroVector, 0).

Definition KMeansIteration (groupData : SGroupData) (hostileDatas peaceDatas : list SEnemyData)
    (enemyPos : AIFloat3) : option SGroupData :=
  let enemySize := zlen hostileDatas + zlen peaceDatas in
  s ← f_to_int (fsqrt (f_of_Z enemySize));
  let newK := Z.min KMEANS_BASE_MAX_K (1 + s) in
  let newMeansPosition :=
    match hostileDatas, peaceDatas with
    | e :: _, _ => e_pos e
    | [], e :: _ => e_pos e
    | [], [] => enemyPos
    end in
  let groups := resize (gd_groups groupData) newK (new_SEnemyGroup newMeansPosition) in
  let datas := hostileDatas ++ peaceDatas in
  '(ids, counts) ← assign_means groups newK datas;
  means ← accumulate (clear_group <$> groups) counts (zip datas ids);
  '(means, pos, maxIdx) ← finish_groups means newK newMeansPosition;
  Some (MkGroupData means (f3_div pos (f_of_Z newK)) maxIdx).

(** ** The double buffer

    [enemyGroups] is initialised with [groupData0.enemyGroups] and, being a reference, names
    that vector for ever: reading the groups reads [groupData0]. *)

Record groups_state : Type := MkGroups {
  groupData0 : SGroupData;
  groupData1 : SGroupData;
  pGroupData : buf;
  enemyPos : AIFloat3;
  maxThreatGroupIdx : Z;
  isUpdating : bool
}.

Definition enemyGroups (s : groups_state) : list SEnemyGroup := gd_groups (groupData0 s).

Definition get_gd (s : groups_state) (b : buf) : SGroupData :=
  match b with Data0 => groupData0 s | Data1 => groupData1 s end.
Definition set_gd (s : groups_state) (b : buf) (d : SGroupData) : groups_state :=
  match b with
  | Data0 => MkGroups d (groupData1 s) (pGroupData s) (enemyPos s) (maxThreatGroupIdx s) (isUpdating s)
  | Data1 => MkGroups (groupData0 s) d (pGroupData s) (enemyPos s) (maxThreatGroupIdx s) (isUpdating s)
  end.
Definition with_groups (d : SGroupData) (g : list SEnemyGroup) : SGroupData :=
  MkGroupData g (gd_enemyPos d) (gd_maxThreatGroupIdx d).

(** The constructor's part, for a map of the given size (the vectors' other fields are not
    initialised by the code; they are written before they are read). *)
Definition new_groups (TerrainWidth TerrainHeight : Z) : groups_state :=
  let p := F3 (f_of_Z (Z.quot TerrainWidth 2)) f0 (f_of_Z (Z.quot TerrainHeight 2)) in
  MkGroups (MkGroupData [new_SEnemyGroup p] ZeroVector 0) (MkGroupData [] ZeroVector 0) Data0 p 0 false.

Definition GetNextGroupData (s : groups_state) : buf :=
  match pGroupData s with Data0 => Data1 | Data1 => Data0 end.

Definition EnqueueUpdate (s : groups_state) : groups_state :=
  MkGroups (groupData0 s) (groupData1 s) (pGroupData s) (enemyPos s) (maxThreatGroupIdx s) true.

Definition Prepare (s : groups_state) (b : buf) : groups_state :=
  set_gd s b (with_groups (get_gd s b) (gd_groups (get_gd s (pGroupData s)))).

Definition Update (s : groups_state) (hostileDatas peaceDatas : list SEnemyData)
    : option groups_state :=
  let b := GetNextGroupData s in
  let s := Prepare s b in
  d ← KMeansIteration (get_gd s b) hostileDatas peaceDatas (enemyPos s);
  Some (set_gd s b d).

Definition SwapBuffers (s : groups_state) : groups_state :=
  let p := GetNextGroupData s in
  let s := MkGroups (groupData0 s) (groupData1 s) p (enemyPos s) (maxThreatGroupIdx s) (isUpdating s) in
  let groupData := get_gd s p in
  let mine := enemyGroups s in
  (* enemyGroups.swap(groupData.enemyGroups) *)
  let s := set_gd s p (with_groups groupData mine) in
  let s := set_gd s Data0 (with_groups (groupData0 s) (gd_groups groupData)) in
  MkGroups (groupData0 s) (groupData1 s) (pGroupData s) (gd_enemyPos groupData)
           (gd_maxThreatGroupIdx groupData) (isUpdating s).

Definition Apply (s : groups_state) : groups_state :=
  let s := SwapBuffers s in
  MkGroups (groupData0 s) (groupData1 s) (pGroupData s) (enemyPos s) (maxThreatGroupIdx s) false.

(** [GetMaxGroupThreat] *)
Definition GetMaxGroupThreat (s : groups_state) : option float :=
  g ← (enemyGroups s).[maxThreatGroupIdx s];
  Some (g_threat g).

(** ** The number of groups

    [(int)sqrtf(n)] is the integer square root for every number of enemies below [MAX_KNOWN],
    checked by evaluation. *)

Definition MAX_KNOWN : Z := 4096.

Lemma sqrt_int n :
  0 <= n < MAX_KNOWN → f_to_int (fsqrt (f_of_Z n)) = Some (Z.sqrt n).
Proof.
  intros Hn.
  assert (forallb (λ n, match f_to_int (fsqrt (f_of_Z n)) with Some s => s =? Z.sqrt n | None => false end)
            (seqZ 0 MAX_KNOWN) = true) as Hall by (vm_compute; reflexivity).
  rewrite forallb_forall in Hall. specialize (Hall n).
  destruct (f_to_int _) as [s|].
  - f_equal. apply Z.eqb_eq, Hall, list_elem_of_In, elem_of_seqZ. lia.
  - discriminate Hall. apply list_elem_of_In, elem_of_seqZ. lia.
Qed.

(** ** The nearest mean *)

(** All distances to the means are below [FLT_MAX] (finite and not a NaN). *)
Definition near_all (groups : list SEnemyGroup) (pos : AIFloat3) : Prop :=
  ∀ m g, groups.[m] = Some g → fltb (SqDistance2D pos (g_pos g)) FLT_MAX = true.

Definition mean_dist (groups : list SEnemyGroup) (pos : AIFloat3) (m : Z) : option float :=
  g ← groups.[m]; Some (SqDistance2D pos (g_pos g)).

(** [closest_mean] is the first mean of minimal distance. *)
Lemma closest_mean_ok groups newK pos :
  zlen groups = newK → 0 < newK → near_all groups pos →
  ∃ m d, closest_mean groups newK pos = Some m ∧ 0 <= m < newK ∧ mean_dist groups pos m = Some d ∧
    ∀ j dj, mean_dist groups pos j = Some dj →
      fltb dj d = false ∧ (j < m → fltb d dj = true).
Proof.
  intros Hl HK Hn. unfold closest_mean.
  destruct (zfor_ind (λ i '(d, c),
    (i = 0 ∧ d = FLT_MAX ∧ c = -1) ∨
    (0 <= c < i ∧ mean_dist groups pos c = Some d ∧
     ∀ j dj, 0 <= j < i → mean_dist groups pos j = Some dj →
       fltb dj d = false ∧ (j < c → fltb d dj = true))) 0 newK
    (closest_step groups pos) (FLT_MAX, -1)) as ([d c] & Hf & HI).
  - lia.
  - by left.
  - intros i [d c] Hi HI. destruct (zget_is_Some groups i) as [g Hg]; [lia|]. unfold closest_step. rewrite Hg. simpl.
    set (di := SqDistance2D pos (g_pos g)).
    assert (mean_dist groups pos i = Some di) as Hdi by (unfold mean_dist; by rewrite Hg).
    eexists. split; [done|]. destruct (fltb di d) eqn:Hlt; right.
    + split; [lia|]. split; [done|]. intros j dj Hj Hdj. destruct (decide (j = i)) as [->|].
      { rewrite Hdi in Hdj. injection Hdj as <-. split; [apply fltb_irrefl|lia]. }
      destruct HI as [(-> & _)|(Hc & Hdc & HI)]; [lia|].
      destruct (HI j dj) as [H1 _]; [lia|done|]. 
      assert (fltb di dj = true) as Hd.
      { destruct (fltb di dj) eqn:E1; [done|].
        apply fltb_not_nan in Hlt as Hnn.
        assert (is_nan dj = false) as Hnj.
        { unfold mean_dist in Hdj. destruct (zget groups j) as [gj|] eqn:Hgj; [|done]. simpl in Hdj.
          injection Hdj as <-. pose proof (Hn j gj Hgj) as Hj'. by apply fltb_not_nan in Hj' as [? _]. }
        destruct (fltb_negtrans di dj d Hnj Hlt) as [|Hb]; congruence. }
      split; [by apply fltb_asym|done].
    + destruct HI as [(-> & -> & ->)|(Hc & Hdc & HI)].
      { pose proof (Hn 0 g Hg) as H0. unfold di in Hlt. congruence. }
      split; [lia|]. split; [done|]. intros j dj Hj Hdj. destruct (decide (j = i)) as [->|].
      { rewrite Hdi in Hdj. injection Hdj as <-. split; [done|lia]. }
      apply HI; [lia|done].
  - rewrite Hf. simpl. destruct HI as [(-> & _)|(Hc & Hd & HI)]; [lia|].
    exists c, d. split; [done|]. split; [done|]. split; [done|]. intros j dj Hdj. apply HI; [|done].
    unfold mean_dist in Hdj. destruct (zget groups j) eqn:Hgj; [|done].
    apply zget_Some_bound in Hgj. lia.
Qed.

(** The assignment loop: every enemy gets its nearest mean, and the counters count them. *)
Lemma assign_means_ok groups newK datas :
  zlen groups = newK → 0 < newK → Forall (λ e, near_all groups (e_pos e)) datas →
  ∃ ids counts, assign_means groups newK datas = Some (ids, counts) ∧
    zlen counts = newK ∧
    Forall2 (λ e m, closest_mean groups newK (e_pos e) = Some m ∧ 0 <= m < newK) datas ids.
Proof.
  intros Hl HK. unfold assign_means.
  assert (∀ datas pre ids0 counts0, zlen counts0 = newK →
    Forall2 (λ e m, closest_mean groups newK (e_pos e) = Some m ∧ 0 <= m < newK) pre ids0 →
    Forall (λ e, near_all groups (e_pos e)) datas →
    ∃ ids counts, foldM (assign_step groups newK) (ids0, counts0) datas = Some (ids, counts) ∧
    zlen counts = newK ∧
    Forall2 (λ e m, closest_mean groups newK (e_pos e) = Some m ∧ 0 <= m < newK) (pre ++ datas) ids) as Hgen.
  { clear datas. induction datas as [|e datas IH]; intros pre ids0 counts0 Hc HF Hn.
    { exists ids0, counts0. rewrite app_nil_r. auto. }
    apply Forall_cons in Hn as [He Hn].
    destruct (closest_mean_ok groups newK (e_pos e) Hl HK He) as (m & d & Hm & Hb & _).
    simpl. rewrite Hm. simpl. destruct (zget_is_Some counts0 m) as [c Hcm]; [lia|]. rewrite Hcm. simpl.
    rewrite zset_Some by lia. simpl.
    destruct (IH (pre ++ [e]) (ids0 ++ [m]) (<[Z.to_nat m := c + 1]> counts0)) as (ids & counts & Hf & ? & ?).
    - unfold zlen in *. by rewrite length_insert.
    - apply Forall2_app; [done|]. by constructor; [|constructor].
    - done.
    - exists ids, counts. split; [exact Hf|]. by rewrite <-app_assoc in *. }
  intros Hn. apply (Hgen datas [] [] (replicate (Z.to_nat newK) 0)); [apply zlen_replicate; lia|done|done].
Qed.

(** ** Accumulation

    Every non-fake enemy is listed once, in the group of its nearest mean. *)

Definition group_ids (means : list SEnemyGroup) : list Z := concat (units <$> means).
Definition real_ids (es : list SEnemyData) : list Z := e_id <$> filter (λ e, IsFake e = false) es.

Definition groups_ok (means : list SEnemyGroup) : Prop :=
  Forall (λ g, zlen (roleCosts g) = MaxMasks) means.
(** The definition's main role indexes the cost array (it is not [RoleType::NONE]). *)
Definition role_ok (e : SEnemyData) : Prop :=
  match e_cdef e with Some cdef => 0 <= mainRole cdef < MaxMasks | None => True end.

Lemma add_to_group_ok eg e n :
  zlen (roleCosts eg) = MaxMasks → role_ok e →
  ∃ eg', add_to_group eg e n = Some eg' ∧ zlen (roleCosts eg') = MaxMasks ∧
    units eg' = units eg ++ real_ids [e].
Proof.
  intros Hr Ho. unfold add_to_group, role_ok in *.
  assert ((if IsFake e then units eg else units eg ++ [e_id e]) = units eg ++ real_ids [e]) as ->.
  { unfold real_ids. rewrite filter_cons. destruct (IsFake e); simpl; [by rewrite app_nil_r|done]. }
  destruct (e_cdef e) as [cdef|]; [|by eexists].
  destruct (zget_is_Some (roleCosts eg) (mainRole cdef)) as [c Hc]; [by rewrite Hr|]. rewrite Hc. simpl.
  rewrite zset_Some by (by rewrite Hr). simpl. eexists. split; [done|]. split; [|done].
  simpl. unfold zlen in *. by rewrite length_insert.
Qed.

Lemma concat_insert (ls : list (list Z)) i l x :
  ls !! i = Some l → concat (<[i := l ++ x]> ls) ≡ₚ x ++ concat ls.
Proof.
  revert i. induction ls as [|l0 ls IH]; intros [|i] Hi; simpl in *; try done.
  - injection Hi as ->. by rewrite <-app_assoc, Permutation_app_swap_app.
  - rewrite (IH i) by done. by rewrite Permutation_app_swap_app.
Qed.

Lemma real_ids_app es es' : real_ids (es ++ es') = real_ids es ++ real_ids es'.
Proof. unfold real_ids. by rewrite filter_app, fmap_app. Qed.

Lemma accumulate_ok counts assigned means :
  groups_ok means → zlen counts = zlen means →
  Forall (λ a, role_ok a.1 ∧ 0 <= a.2 < zlen means) assigned →
  ∃ means', accumulate means counts assigned = Some means' ∧
    groups_ok means' ∧ zlen means' = zlen means ∧
    group_ids means' ≡ₚ group_ids means ++ real_ids assigned.*1.
Proof.
  unfold accumulate. revert means. induction assigned as [|[e i] assigned IH]; intros means Hg Hc Ha.
  { exists means. rewrite app_nil_r. auto. }
  apply Forall_cons in Ha as [[Hro Hi] Ha]. simpl in Hro, Hi.
  cbn [foldM]. unfold accumulate_step at 1.
  destruct (zget_is_Some means i Hi) as [eg Heg]. simpl. rewrite Heg. simpl.
  destruct (zget_is_Some counts i) as [n Hn]; [by rewrite Hc|]. rewrite Hn. simpl.
  assert (means !! Z.to_nat i = Some eg) as Hlk.
  { unfold zget in Heg. by rewrite decide_True in Heg by lia. }
  destruct (add_to_group_ok eg e n) as (eg' & -> & Hr' & Hu); [|done|].
  { by eapply Forall_lookup_1 in Hg. }
  simpl. rewrite zset_Some by done. simpl.
  destruct (IH (<[Z.to_nat i := eg']> means)) as (means' & Hf & Hg' & Hl & Hp).
  - by apply Forall_insert.
  - unfold zlen in *. by rewrite length_insert.
  - unfold zlen in *. by rewrite length_insert.
  - exists means'. split; [exact Hf|]. split; [done|]. split; [unfold zlen in *; by rewrite Hl, length_insert|].
    rewrite Hp. unfold group_ids. rewrite list_fmap_insert, Hu.
    rewrite (concat_insert _ _ (units eg)) by (by rewrite list_lookup_fmap, Hlk).
    etransitivity; [|apply Permutation_app_head;
      exact (reflexive_eq _ _ (eq_sym (real_ids_app [e] assigned.*1)))].
    solve_Permutation.
Qed.

(** ** The last loop *)

Definition replace_empty (p : AIFloat3) (g : SEnemyGroup) : SEnemyGroup :=
  if f3_eqb (g_pos g) ZeroVector then new_SEnemyGroup p else g.

Definition most_threatening (means : list SEnemyGroup) (k : Z) (idx : Z) : Prop :=
  0 <= idx < zlen means ∧
  ∀ g j gj, means.[idx] = Some g → 0 <= j < k → means.[j] = Some gj → fltb (g_threat g) (g_threat gj) = false.

Lemma finish_groups_ok means p :
  0 < zlen means →
  ∃ means' pos idx, finish_groups means (zlen means) p = Some (means', pos, idx) ∧
    means' = replace_empty p <$> means ∧ most_threatening means' (zlen means) idx.
Proof.
  intros Hn. unfold finish_groups. set (final := replace_empty p <$> means).
  assert (∀ j, final.[j] = replace_empty p <$> means.[j]) as Hfin.
  { intros j. unfold final, zget. case_decide; [|done]. by rewrite list_lookup_fmap. }
  assert (zlen final = zlen means) as Hlf by (unfold zlen, final; by rewrite length_fmap).
  destruct (zfor_ind (λ i '(ms, pos, idx), zlen ms = zlen means ∧
    (∀ j, ms.[j] = if decide (j < i) then final.[j] else means.[j]) ∧
    (i = 0 ∧ idx = 0 ∨ 0 <= idx < i ∧ most_threatening final i idx)) 0 (zlen means)
    (finish_step p) (means, ZeroVector, 0)) as ([[ms pos] idx] & Hf & Hl & Hms & Hi).
  - lia.
  - split; [done|]. split; [|by left]. intros j. decide_goal; [|done].
    unfold zget. rewrite !decide_False by lia. done.
  - intros i [[ms pos] idx] Hi (Hl & Hms & Hidx). unfold finish_step.
    destruct (zget_is_Some means i) as [g Hg]; [lia|].
    rewrite (Hms i), decide_False, Hg by lia. simpl.
    set (ms' := <[Z.to_nat i := replace_empty p g]> ms).
    assert ((if f3_eqb (g_pos g) ZeroVector then ms.[i <- new_SEnemyGroup p] else Some ms) = Some ms') as ->.
    { unfold ms', replace_empty. destruct (f3_eqb _ _); [by rewrite zset_Some by lia|].
      f_equal. symmetry. apply list_insert_id. pose proof (Hms i) as Hmi.
      rewrite decide_False, Hg in Hmi by lia. unfold zget in Hmi. by rewrite decide_True in Hmi by lia. }
    simpl. assert (ms.[i <- replace_empty p g] = Some ms') as Hset by (by rewrite zset_Some by lia).
    assert (∀ j, ms'.[j] = if decide (j < i + 1) then final.[j] else means.[j]) as Hms'.
    { intros j. rewrite (zget_zset _ _ _ _ j Hset). decide_goal as [<-|].
      - rewrite decide_True by lia. by rewrite Hfin, Hg.
      - rewrite Hms. repeat decide_goal; try done; lia. }
    pose proof (Hms' i) as Hmi. rewrite decide_True in Hmi by lia. rewrite Hmi, Hfin, Hg. simpl.
    assert (final.[i] = Some (replace_empty p g)) as Hfi by (by rewrite Hfin, Hg).
    assert (0 <= idx <= i) as Hib by (destruct Hidx as [[-> ->]|[? _]]; lia).
    destruct (zget_is_Some final idx) as [gm Hgm]; [lia|].
    rewrite (Hms' idx), decide_True, Hgm by lia. simpl.
    eexists. split; [done|]. split; [by rewrite (zlen_zset _ _ _ _ Hset)|]. split; [done|]. right.
    destruct (fltb (g_threat gm) (g_threat (replace_empty p g))) eqn:Hlt.
    + split; [lia|]. split; [lia|]. intros g' j gj Hg' Hj Hgj. rewrite Hfi in Hg'. injection Hg' as <-.
      destruct (decide (j = i)) as [->|].
      { rewrite Hfi in Hgj. injection Hgj as <-. apply fltb_irrefl. }
      destruct Hidx as [[-> ->]|[_ [_ Hmax]]]; [lia|].
      destruct (fltb (g_threat (replace_empty p g)) (g_threat gj)) eqn:E1; [|done].
      pose proof (fltb_trans _ _ _ Hlt E1) as E2. rewrite (Hmax gm j gj) in E2; [done|done|lia|done].
    + destruct Hidx as [[-> ->]|[Hb [Hb' Hmax]]].
      * split; [lia|]. split; [lia|]. intros g' j gj Hg' Hj Hgj. assert (j = 0) as -> by lia.
        rewrite Hg' in Hgj. injection Hgj as <-. apply fltb_irrefl.
      * split; [lia|]. split; [lia|]. intros g' j gj Hg' Hj Hgj. rewrite Hgm in Hg'. injection Hg' as <-.
        destruct (decide (j = i)) as [->|]; [rewrite Hfi in Hgj; by injection Hgj as <-|].
        apply (Hmax gm j gj); [done|lia|done].
  - assert (ms = final) as ->.
    { apply zget_ext; [by rewrite Hl|]. intros j. rewrite Hms. decide_goal; [done|].
      rewrite Hfin. destruct (zget means j) eqn:Hj; [|done]. apply zget_Some_bound in Hj. lia. }
    exists final, pos, idx. split; [done|]. split; [done|].
    destruct Hi as [[? _]|[_ ?]]; [lia|done].
Qed.

(** ** Properties *)

Definition number_of_groups (n : Z) : Z := Z.min KMEANS_BASE_MAX_K (1 + Z.sqrt n).

(** The means an iteration starts from. *)
Definition start_groups (groupData : SGroupData) (hs ps : list SEnemyData) (enemyPos : AIFloat3)
    : list SEnemyGroup :=
  resize (gd_groups groupData) (number_of_groups (zlen hs + zlen ps))
    (new_SEnemyGroup (match hs ++ ps with e :: _ => e_pos e | [] => enemyPos end)).

Lemma resize_ok gs n p : groups_ok gs → groups_ok (resize gs n (new_SEnemyGroup p)).
Proof.
  intros Hg. unfold resize. apply Forall_app. split; [by apply Forall_take|].
  apply Forall_replicate. done.
Qed.

(** C35: One k-means iteration is total and partitions the enemies. With at most 4095 known enemies whose
    definitions have a main role, cost arrays of full size, and every enemy at a finite distance from
    every starting mean: the iteration returns; it makes min(32, 1 + floor(sqrt(n))) groups; before empty
    means are replaced, the groups list every non-fake enemy exactly once (as a permutation); only the
    groups whose mean is the zero vector are replaced by empty ones; and maxThreatGroupIdx is the index
    of a group than which no group is more threatening. *)
Theorem kmeans_partition groupData hs ps enemyPos
    (Hn : zlen hs + zlen ps < MAX_KNOWN)
    (Hg : groups_ok (gd_groups groupData))
    (Hr : Forall role_ok (hs ++ ps))
    (Hd : Forall (λ e, near_all (start_groups groupData hs ps enemyPos) (e_pos e)) (hs ++ ps)) :
  ∃ d means p, KMeansIteration groupData hs ps enemyPos = Some d ∧
    zlen (gd_groups d) = number_of_groups (zlen hs + zlen ps) ∧
    1 <= zlen (gd_groups d) <= 32 ∧
    group_ids means ≡ₚ real_ids (hs ++ ps) ∧
    gd_groups d = replace_empty p <$> means ∧
    most_threatening (gd_groups d) (zlen (gd_groups d)) (gd_maxThreatGroupIdx d).
Proof.
  unfold KMeansIteration. set (n := zlen hs + zlen ps) in *.
  pose proof (zlen_nonneg hs). pose proof (zlen_nonneg ps).
  rewrite sqrt_int by lia. cbn [mbind option_bind].
  set (p := match hs with e :: _ => e_pos e | [] => _ end). fold (number_of_groups n).
  set (K := number_of_groups n). pose proof (Z.sqrt_nonneg n).
  assert (1 <= K <= 32) as HK by (unfold K, number_of_groups, KMEANS_BASE_MAX_K; lia).
  assert (start_groups groupData hs ps enemyPos = resize (gd_groups groupData) K (new_SEnemyGroup p)) as Hs.
  { unfold start_groups, p. fold n K. by destruct hs, ps. }
  rewrite Hs in Hd. set (gs := resize (gd_groups groupData) K (new_SEnemyGroup p)) in *.
  assert (zlen gs = K) as Hgs by (apply zlen_resize; lia).
  destruct (assign_means_ok gs K (hs ++ ps) Hgs ltac:(lia) Hd) as (ids & counts & -> & Hc & Hids).
  cbn [mbind option_bind].
  assert (zlen (clear_group <$> gs) = K) as Hcl by (unfold zlen in *; by rewrite length_fmap).
  destruct (accumulate_ok counts (zip (hs ++ ps) ids) (clear_group <$> gs)) as (means & -> & Hm & Hl & Hp).
  - apply Forall_fmap, (Forall_impl _ _ _ (resize_ok _ K p Hg)). intros g Hgr. unfold compose, clear_group.
    simpl. by rewrite zlen_fill.
  - by rewrite Hcl.
  - rewrite Hcl. apply Forall_forall. intros [e i] Hin. simpl.
    apply elem_of_lookup_zip_with in Hin as (k & e' & i' & [= <- <-] & He & Hi).
    split; [by eapply Forall_lookup_1 in Hr|]. by apply (Forall2_lookup_lr _ _ _ _ _ _ Hids He Hi).
  - cbn [mbind option_bind].
    destruct (finish_groups_ok means p) as (ms & pos & idx & Hf & Hms & Hmax); [rewrite Hl, Hcl; lia|].
    rewrite Hl, Hcl in Hf. rewrite Hf. cbn [mbind option_bind].
    eexists _, means, p. split; [done|]. simpl.
    assert (zlen ms = K) as HlK by (unfold zlen in *; rewrite Hms, length_fmap; lia).
    split; [done|]. split; [lia|]. split; [|split; [done|by rewrite HlK, <-Hcl, <-Hl]].
    rewrite Hp, fst_zip by (by rewrite (Forall2_length _ _ _ Hids)).
    unfold group_ids. rewrite <-list_fmap_compose.
    assert (concat (units ∘ clear_group <$> gs) = []) as ->; [|done].
    clear. induction gs as [|g gs IH]; [done|]. simpl. done.
Qed.
End kmeans.

(** ** The double buffer is shared on every second update *)

#[local] Existing Instance example_engine.

Definition enemy_at (id x z : Z) (thr : float) : SEnemyData :=
  MkEnemy None f0 (f_of_Z 100) false false false (F3 (f_of_Z x) f0 (f_of_Z z)) ZeroVector
          thr [3; 2; 2; 2; 0] id f0 0.
Definition mods_example : SInitThreatMod := MkThrMod f1 f0.
Definition two_enemies : list SEnemyData := [enemy_at 1 10 10 (f_of_Z 5); enemy_at 2 500 500 f1].

(** What an update does to the vector that enemyGroups refers to: while groupData0 is published, Update
    leaves it alone; while groupData1 is published, the buffer that Update rewrites is that very vector,
    and maxThreatGroupIdx stays the old one.  The example below runs two updates (two enemies in the
    first, none in the second): GetMaxGroupThreat then reads outside the vector. *)
Theorem groups_buffer_shared `{Engine} thr s hs ps s1
    (HU : Update thr s hs ps = Some s1) :
  maxThreatGroupIdx s1 = maxThreatGroupIdx s ∧
  (pGroupData s = Data0 → enemyGroups s1 = enemyGroups s) ∧
  (pGroupData s = Data1 →
     ∃ d, KMeansIteration thr (with_groups (groupData0 s) (gd_groups (groupData1 s))) hs ps (enemyPos s)
            = Some d ∧ enemyGroups s1 = gd_groups d).
Proof.
  unfold Update, GetNextGroupData, Prepare in HU. destruct (pGroupData s) eqn:Hp; simpl in HU.
  - bind_inv HU. subst s1. done.
  - bind_inv HU. subst s1. split; [done|]. split; [done|]. intros _. eauto.
Qed.

Definition run_example : option groups_state :=
  s1 ← Update mods_example (new_groups 512 512) two_enemies [];
  Some (Apply s1).

Lemma groups_buffer_shared_witness :
  match run_example with
  | Some s => GetMaxGroupThreat s = Some (f_of_Z 5) ∧
              ∃ s', Update mods_example s [] [] = Some s' ∧
                    (∃ d, enemyGroups s' = gd_groups d) ∧ GetMaxGroupThreat s' = None
  | None => False
  end.
Proof.
  destruct run_example as [s|] eqn:Hs; [|by vm_compute in Hs].
  vm_compute in Hs. injection Hs as <-. split; [by vm_compute|].
  eexists. match goal with |- ?U = _ ∧ _ => let v := eval vm_compute in U in
    match v with Some ?s' => assert (U = Some s') as HU by (vm_compute; reflexivity) end end.
  split; [exact HU|]. split.
  - destruct (groups_buffer_shared _ _ _ _ _ HU) as (_ & _ & H1).
    destruct (H1 eq_refl) as (d & _ & Hd). exists d. exact Hd.
  - vm_compute. done.
Defined.

Lemma kmeans_partition_witness :
  ∃ d means p, KMeansIteration mods_example (groupData0 (new_groups 512 512)) two_enemies [] ZeroVector
      = Some d ∧ zlen (gd_groups d) = 2 ∧ 1 <= zlen (gd_groups d) <= 32 ∧
    group_ids means ≡ₚ [1; 2] ∧ gd_groups d = replace_empty p <$> means ∧
    most_threatening (gd_groups d) (zlen (gd_groups d)) (gd_maxThreatGroupIdx d).
Proof.
  apply (kmeans_partition mods_example (groupData0 (new_groups 512 512)) two_enemies [] ZeroVector).
  - vm_compute. done.
  - repeat constructor.
  - repeat constructor.
  - assert (∀ gs pos, forallb (λ g, fltb (SqDistance2D pos (g_pos g)) FLT_MAX) gs = true → near_all gs pos)
      as Hall.
    { intros gs pos Hf m g Hm. rewrite forallb_forall in Hf. apply Hf, list_elem_of_In.
      unfold zget in Hm. case_decide; [|done]. by eapply list_elem_of_lookup_2. }
    repeat constructor; apply Hall; vm_compute; done.
Defined.
