(* ===== verification/MapManager.v ===== *)
(** * MapManager: which enemies are hostile, which are peaceful

    Models [src/src/circuit/map/MapManager.h/.cpp].  Enemy records are shared objects: they live
    in a store of records by address, and the manager's maps hold addresses by unit id. *)

From S2P Require Import Prelude Float32 EnemyUnit SectorGrid ThreatMap.

Open Scope circuit_scope.

Abbreviation addr := Z.
Abbreviation store := (gmap addr CEnemyUnit).

(** Dereferencing a pointer that is not a live object is undefined behaviour. *)
Definition deref (h : store) (a : addr) : option CEnemyUnit := h !! a.
Definition assign (h : store) (a : addr) (u : CEnemyUnit) : store := <[a := u]> h.

Record CMapManager : Type := MkMapManager {
  threatMap : CThreatMap;
  hostileUnits : gmap Z addr;
  peaceUnits : gmap Z addr;
  enemyFakes : gset addr;
  sonarMap : list Z;
  losMap : list Z;
  radarWidth : Z;
  radarResConv : Z;
  losWidth : Z;
  losResConv : Z
}.

Definition set_units (mm : CMapManager) (h p : gmap Z addr) : CMapManager :=
  MkMapManager (threatMap mm) h p (enemyFakes mm) (sonarMap mm) (losMap mm) (radarWidth mm)
               (radarResConv mm) (losWidth mm) (losResConv mm).
Definition set_fakes (mm : CMapManager) (f : gset addr) : CMapManager :=
  MkMapManager (threatMap mm) (hostileUnits mm) (peaceUnits mm) f (sonarMap mm) (losMap mm)
               (radarWidth mm) (radarResConv mm) (losWidth mm) (losResConv mm).

(** What the engine tells about one enemy during one call: its report and, for a commander, the
    weapon parameters that [SetEnemyUnitRange] reads. *)
Record enemy_view : Type := MkView {
  v_report : UnitReport;
  v_weapon_id : Z → float;
  v_range_mult : float
}.

Section map_manager.
Context {E : Engine}.
Context (weapon : Z → option (float * float)).

(** [CMapManager::CMapManager]: the line-of-sight geometry from the map's width and the mod's
    mip levels. *)
Definition new_CMapManager (tm : CThreatMap) (mapWidth losMipLevel radarMipLevel : Z)
    (sonar los : list Z) : CMapManager :=
  MkMapManager tm ∅ ∅ ∅ sonar los
    (Z.shiftr mapWidth radarMipLevel) (Z.shiftl SQUARE_SIZE radarMipLevel)
    (Z.shiftr mapWidth losMipLevel) (Z.shiftl SQUARE_SIZE losMipLevel).

(** [PrepareUpdate] refreshes the two maps from the engine. *)
Definition PrepareUpdate (mm : CMapManager) (sonar los : list Z) : CMapManager :=
  MkMapManager (threatMap mm) (hostileUnits mm) (peaceUnits mm) (enemyFakes mm) sonar los
               (radarWidth mm) (radarResConv mm) (losWidth mm) (losResConv mm).

(** The value of a line-of-sight map at a position. *)
Definition los_at (map : list Z) (mapWidth resConv : Z) (pos : AIFloat3) : option Z :=
  fx ← f_to_int (px pos);
  x ← idiv fx resConv;
  fz ← f_to_int (pz pos);
  z ← idiv fz resConv;
  map.[z * mapWidth + x].

Definition IsInLOS_at (mm : CMapManager) (pos : AIFloat3) : option bool :=
  under ← (if fltb (py pos) (f_of_Z (- SQUARE_SIZE * 5))
           then v ← los_at (sonarMap mm) (radarWidth mm) (radarResConv mm) pos; Some (v <=? 0)
           else Some false);
  if under : bool then Some false
  else v ← los_at (losMap mm) (losWidth mm) (losResConv mm) pos; Some (v >? 0).

Definition HostileInLOS (mm : CMapManager) (h : store) (a : addr) : option (bool * store) :=
  u ← deref h a;
  if IsHidden (data u) then Some (false, h)
  else
    seen ← (if NotInRadarAndLOS (data u) then IsInLOS_at mm (e_pos (data u)) else Some false);
    if seen : bool then Some (false, assign h a (set_data u (SetHidden (data u))))
    else
      u ← (if IsInLOS (data u) then SetEnemyUnitThreat (threatMap mm) u else Some u);
      Some (true, assign h a u).

Definition PeaceInLOS (mm : CMapManager) (h : store) (a : addr) : option (bool * store) :=
  u ← deref h a;
  if IsHidden (data u) then Some (false, h)
  else
    seen ← (if NotInRadarAndLOS (data u) then IsInLOS_at mm (e_pos (data u)) else Some false);
    if seen : bool then Some (false, assign h a (set_data u (SetHidden (data u))))
    else Some (true, h).

Definition IsSuddenThreat (h : store) (lastFrame : Z) (a : addr) : option bool :=
  u ← deref h a;
  if negb (IsKnown u lastFrame) then Some true
  else if IsInRadar (data u) then Some false
  else cdef ← e_cdef (data u); Some (IsMobile cdef).

Definition set_ranges (mm : CMapManager) (v : enemy_view) (u : CEnemyUnit) : option CEnemyUnit :=
  SetEnemyUnitRange (threatMap mm) (v_weapon_id v) weapon (v_range_mult v) u.

Definition on_data (f : SEnemyData → SEnemyData) (u : CEnemyUnit) : CEnemyUnit := set_data u (f (data u)).
Definition clear_if_hidden (u : CEnemyUnit) : CEnemyUnit :=
  if IsHidden (data u) then on_data ClearHidden u else u.

Definition EnemyEnterLOS (mm : CMapManager) (h : store) (lastFrame : Z) (v : enemy_view) (a : addr)
    : option (bool * CMapManager * store) :=
  u ← deref h a;
  let wasKnown := IsKnown u lastFrame in
  let id := e_id (data u) in
  let u := on_data SetInLOS u in
  if negb (IsAttacker u) then
    '(mm, u) ←
      (if fgtb (threat (data u)) f0 then
         let u := clear_if_hidden u in
         let mm := set_units mm (delete id (hostileUnits mm)) (<[id := a]> (peaceUnits mm)) in
         let u := on_data (λ d, SetThreat d f0) u in
         u ← set_ranges mm v u;
         Some (mm, u)
       else
         match peaceUnits mm !! id with
         | None =>
             let mm := set_units mm (hostileUnits mm) (<[id := a]> (peaceUnits mm)) in
             u ← set_ranges mm v u;
             Some (mm, u)
         | Some _ => Some (mm, clear_if_hidden u)
         end);
    let u := UpdateInRadarData u (r_pos (v_report v)) (r_vel (v_report v)) in
    let u := UpdateInLosData u (v_report v) in
    let u := SetKnown u lastFrame in
    Some (negb wasKnown, mm, assign h a u)
  else
    let '(mm, u) :=
      match hostileUnits mm !! id with
      | None => (set_units mm (<[id := a]> (hostileUnits mm)) (peaceUnits mm), u)
      | Some _ => (mm, clear_if_hidden u)
      end in
    let u := UpdateInRadarData u (r_pos (v_report v)) (r_vel (v_report v)) in
    let u := UpdateInLosData u (v_report v) in
    u ← set_ranges mm v u;
    u ← SetEnemyUnitThreat (threatMap mm) u;
    let u := SetKnown u lastFrame in
    Some (negb wasKnown, mm, assign h a u).

Definition EnemyLeaveLOS (h : store) (a : addr) : option store :=
  u ← deref h a; Some (assign h a (on_data ClearInLOS u)).

Definition EnemyEnterRadar (mm : CMapManager) (h : store) (v : enemy_view) (a : addr)
    : option (CMapManager * store) :=
  u ← deref h a;
  let u := SetLastSeen u (-1) in
  let u := on_data SetInRadar u in
  if IsInLOS (data u) then Some (mm, assign h a u)
  else if negb (IsAttacker u) then
    let u := clear_if_hidden u in
    let u := UpdateInRadarData u (r_pos (v_report v)) (r_vel (v_report v)) in
    Some (mm, assign h a u)
  else
    let id := e_id (data u) in
    let '(mm, u, isNew) :=
      match hostileUnits mm !! id with
      | None => (set_units mm (<[id := a]> (hostileUnits mm)) (peaceUnits mm), u, true)
      | Some _ => (mm, clear_if_hidden u, false)
      end in
    let u := UpdateInRadarData u (r_pos (v_report v)) (r_vel (v_report v)) in
    u ← (if isNew : bool then NewEnemy (threatMap mm) u else Some u);
    Some (mm, assign h a u).

Definition EnemyLeaveRadar (h : store) (lastFrame : Z) (a : addr) : option store :=
  u ← deref h a;
  Some (assign h a (on_data ClearInRadar (SetLastSeen u lastFrame))).

(** Returns whether the enemy was known, and forgets it. *)
Definition EnemyDestroyed (mm : CMapManager) (h : store) (lastFrame : Z) (a : addr)
    : option (bool * CMapManager) :=
  u ← deref h a;
  let isKnown := IsKnown u lastFrame in
  let id := e_id (data u) in
  match hostileUnits mm !! id with
  | None => Some (isKnown, set_units mm (hostileUnits mm) (delete id (peaceUnits mm)))
  | Some _ => Some (isKnown, set_units mm (delete id (hostileUnits mm)) (peaceUnits mm))
  end.

Definition AddFakeEnemy (mm : CMapManager) (h : store) (v : enemy_view) (a : addr)
    : option (CMapManager * store) :=
  let mm := set_fakes mm ({[a]} ∪ enemyFakes mm) in
  u ← deref h a;
  u ← set_ranges mm v u;
  u ← SetEnemyUnitThreat (threatMap mm) u;
  Some (mm, assign h a u).

Definition DelFakeEnemy (mm : CMapManager) (a : addr) : CMapManager :=
  set_fakes mm (enemyFakes mm ∖ {[a]}).

(** ** What the calls keep of a record *)

(** The identity of a record and the frame it became known in. *)
Definition same_id (u u' : CEnemyUnit) : Prop :=
  knownFrame u' = knownFrame u ∧ e_id (data u') = e_id (data u).

Lemma SetRange_id d t r d' : SetRange d t r = Some d' → e_id d' = e_id d.
Proof. unfold SetRange. intros H. bind_inv H. by subst. Qed.

Lemma set_ranges_id mm v u u' : set_ranges mm v u = Some u' → same_id u u'.
Proof.
  unfold set_ranges, SetEnemyUnitRange. intros H.
  destruct (e_cdef (data u)) as [d|]; [|done]. cbn [mbind option_bind] in H.
  destruct (_ && _).
  - bind_inv H. subst u'. split; [done|]. simpl.
    repeat match goal with Hr : SetRange _ _ _ = Some _ |- _ => apply SetRange_id in Hr end. congruence.
  - bind_inv H. subst u'. split; [done|]. simpl.
    refine (foldM_inv (λ d', e_id d' = e_id (data u)) _ _ _ _ _ _ E0); [done|].
    intros s t s' _ Hs Hf. bind_inv Hf. apply SetRange_id in Hf. congruence.
Qed.

Lemma SetEnemyUnitThreat_id tm u u' : SetEnemyUnitThreat tm u = Some u' → same_id u u'.
Proof. unfold SetEnemyUnitThreat. intros H. bind_inv H. by subst. Qed.

Lemma same_id_trans u1 u2 u3 : same_id u1 u2 → same_id u2 u3 → same_id u1 u3.
Proof. intros [] []. split; congruence. Qed.

Lemma clear_if_hidden_id u : same_id u (clear_if_hidden u).
Proof. unfold clear_if_hidden. by destruct (IsHidden _). Qed.

(** Where one sighting leaves the enemy. *)
Definition sighted (mm mm' : CMapManager) (u : CEnemyUnit) (a : addr) : Prop :=
  let id := e_id (data u) in
  if IsAttacker u then
    peaceUnits mm' = peaceUnits mm ∧
    hostileUnits mm' = match hostileUnits mm !! id with
                       | Some _ => hostileUnits mm | None => <[id := a]> (hostileUnits mm) end
  else if fgtb (threat (data u)) f0 then
    hostileUnits mm' = delete id (hostileUnits mm) ∧ peaceUnits mm' = <[id := a]> (peaceUnits mm)
  else
    hostileUnits mm' = hostileUnits mm ∧
    peaceUnits mm' = match peaceUnits mm !! id with
                     | Some _ => peaceUnits mm | None => <[id := a]> (peaceUnits mm) end.

Lemma EnemyEnterLOS_ok mm h lastFrame v a u isNew mm' h' :
  h !! a = Some u → EnemyEnterLOS mm h lastFrame v a = Some (isNew, mm', h') →
  isNew = negb (IsKnown u lastFrame) ∧ sighted mm mm' u a ∧
  ∃ u', h' = assign h a u' ∧ e_id (data u') = e_id (data u) ∧
    knownFrame u' = if knownFrame u =? -1 then lastFrame else knownFrame u.
Proof.
  intros Hu H. unfold EnemyEnterLOS, deref in H. rewrite Hu in H. cbn [mbind option_bind] in H.
  assert (∀ w r, same_id u w → let w' := SetKnown (UpdateInLosData (UpdateInRadarData w (r_pos r) (r_vel r)) r) lastFrame in
    e_id (data w') = e_id (data u) ∧
    knownFrame w' = if knownFrame u =? -1 then lastFrame else knownFrame u) as Hfin.
  { intros w r [Hk Hi]. simpl. split; [done|]. rewrite Hk. by destruct (knownFrame u =? -1). }
  unfold sighted. change (IsAttacker (on_data SetInLOS u)) with (IsAttacker u) in H.
  change (threat (data (on_data SetInLOS u))) with (threat (data u)) in H.
  destruct (IsAttacker u); cbn [negb] in H.
  - assert (∃ w, same_id u w ∧ ∃ mm1,
      match hostileUnits mm !! e_id (data u) with
      | None => (set_units mm (<[e_id (data u) := a]> (hostileUnits mm)) (peaceUnits mm), on_data SetInLOS u)
      | Some _ => (mm, clear_if_hidden (on_data SetInLOS u))
      end = (mm1, w) ∧ peaceUnits mm1 = peaceUnits mm ∧ threatMap mm1 = threatMap mm ∧
      hostileUnits mm1 = match hostileUnits mm !! e_id (data u) with
                         | Some _ => hostileUnits mm
                         | None => <[e_id (data u) := a]> (hostileUnits mm) end)
      as (w & Hw & mm1 & Hm & Hp & Htm & Hh).
    { destruct (hostileUnits mm !! _); eexists; (split; [|eauto 10]); [|done].
      exact (same_id_trans _ (on_data SetInLOS u) _ (conj eq_refl eq_refl) (clear_if_hidden_id _)). }
    rewrite Hm in H. bind_inv H. simplify_eq.
    apply set_ranges_id in E0. apply SetEnemyUnitThreat_id in E1.
    split; [done|]. split; [done|]. eexists. split; [done|].
    destruct (same_id_trans _ _ _ E0 E1) as [Hk Hi]. destruct Hw as [Hk' Hi']. simpl in *.
    split; [congruence|]. rewrite Hk, Hk'. by destruct (knownFrame u =? -1).
  - destruct (fgtb _ _).
    + bind_inv H. destruct x as [mm1 w]. bind_inv E0. simplify_eq. apply set_ranges_id in E1.
      split; [done|]. split; [done|]. eexists. split; [done|]. apply Hfin.
      eapply same_id_trans; [|exact E1]. exact (clear_if_hidden_id (on_data SetInLOS u)).
    + destruct (peaceUnits mm !! _) eqn:Hp; cbn [mbind option_bind] in H.
      * simplify_eq. split; [done|]. split; [done|]. eexists. split; [done|]. apply Hfin.
        exact (same_id_trans _ (on_data SetInLOS u) _ (conj eq_refl eq_refl) (clear_if_hidden_id _)).
      * bind_inv H. destruct x as [mm1 w]. bind_inv E0. simplify_eq. apply set_ranges_id in E1.
        split; [done|]. split; [done|]. eexists. split; [done|]. apply Hfin.
        by eapply same_id_trans; [|exact E1].
Qed.

(** ** Properties *)

(** A sighting files the enemy. Whenever EnemyEnterLOS succeeds, the enemy is afterwards listed as
    hostile if it counts as an attacker (unknown units do) and as peaceful otherwise; a harmless enemy
    that was feared before (positive threat) is moved from the hostile to the peaceful list; no other
    unit's entry changes; and the result says whether the enemy was unknown before this frame. *)
Theorem EnemyEnterLOS_files mm h lastFrame v a u isNew mm' h'
    (Hu : h !! a = Some u)
    (H : EnemyEnterLOS mm h lastFrame v a = Some (isNew, mm', h')) :
  let id := e_id (data u) in
  isNew = negb (IsKnown u lastFrame) ∧
  (if IsAttacker u then is_Some (hostileUnits mm' !! id) else is_Some (peaceUnits mm' !! id)) ∧
  (IsAttacker u = false → fgtb (threat (data u)) f0 = true →
     hostileUnits mm' !! id = None ∧ peaceUnits mm' !! id = Some a) ∧
  (∀ id', id' ≠ id → hostileUnits mm' !! id' = hostileUnits mm !! id' ∧
                     peaceUnits mm' !! id' = peaceUnits mm !! id').
Proof.
  cbv zeta. destruct (EnemyEnterLOS_ok _ _ _ _ _ _ _ _ _ Hu H) as (-> & Hs & _).
  split; [done|]. unfold sighted in Hs.
  destruct (IsAttacker u); [|destruct (fgtb _ _)]; destruct Hs as [-> ->];
    repeat match goal with |- context [match ?m with Some _ => _ | None => _ end] => destruct m eqn:? end;
    (split; [rewrite ?lookup_insert_eq; eauto|]); split; try done.
  all: try (intros id' Hne; by rewrite ?lookup_insert_ne, ?lookup_delete_ne by done).
  all: intros _ _; split; [apply lookup_delete_eq|apply lookup_insert_eq].
Qed.

(** EnemyDestroyed takes an enemy off one list: it is hostile no more, and still listed as peaceful exactly
    when it was on both lists.  The example below shows that a sighting of a peaceful enemy that has
    turned into an attacker puts it on both. *)
Theorem EnemyDestroyed_forgets mm h lastFrame a u known mm'
    (Hu : h !! a = Some u)
    (H : EnemyDestroyed mm h lastFrame a = Some (known, mm')) :
  let id := e_id (data u) in
  known = IsKnown u lastFrame ∧
  hostileUnits mm' !! id = None ∧
  (is_Some (peaceUnits mm' !! id) ↔ is_Some (hostileUnits mm !! id) ∧ is_Some (peaceUnits mm !! id)).
Proof.
  cbv zeta. unfold EnemyDestroyed, deref in H. rewrite Hu in H. cbn [mbind option_bind] in H.
  destruct (hostileUnits mm !! _) eqn:Hh; simplify_eq; simpl.
  - rewrite lookup_delete_eq. split; [done|]. split; [done|].
    split; [intros Hp; split; [eauto|done]|by intros [_ ?]].
  - rewrite Hh, lookup_delete_eq. split; [done|]. split; [done|].
    split; [intros [? [=]]|intros [[? [=]] _]].
Qed.
End map_manager.

(** ** Witnesses *)

#[local] Existing Instance example_engine.

Definition peaceful_def (attacker : bool) : CCircuitDef :=
  MkDef 1 4 4 0 0 0 None f1 f0 f1 f1 RANGE_LAND [f0; f0; f0] [1; 1; 1; 1; 0]
        f0 f0 false attacker false false false false false false (f_of_Z 100) f1 (f_of_Z 50) 0 (-1) false.
Definition example_view : enemy_view :=
  MkView (MkReport (F3 (f_of_Z 100) f0 (f_of_Z 70)) ZeroVector f0 (f_of_Z 100) false false f0)
         (λ _, f_of_Z (-1)) f1.
Definition example_mm : option CMapManager :=
  '(tm, _) ← map_example;
  Some (new_CMapManager tm 64 0 0 [] []).
(** Enemy 7, at address 1, known as a definition that is or is not an attacker. *)
Definition example_store (attacker : bool) : store :=
  {[1 := new_CEnemyUnit 7 (Some (peaceful_def attacker))]}.

Definition sighting (mm : CMapManager) (attacker : bool) (frame : Z)
    : option (bool * CMapManager * store) :=
  EnemyEnterLOS (λ _, None) mm (example_store attacker) frame example_view 1.

Lemma EnemyEnterLOS_files_witness :
  match example_mm with
  | Some mm =>
      match sighting mm false 10 with
      | Some (isNew, mm', _) => isNew = true ∧ is_Some (peaceUnits mm' !! 7)
      | None => False
      end
  | None => False
  end.
Proof.
  destruct example_mm as [mm|] eqn:Hmm; [|by vm_compute in Hmm]. vm_compute in Hmm. injection Hmm as <-.
  destruct (sighting _ false 10) as [[[isNew mm'] h']|] eqn:Hs; [|by vm_compute in Hs].
  unfold sighting in Hs.
  assert (example_store false !! 1 = Some (new_CEnemyUnit 7 (Some (peaceful_def false)))) as Hu by done.
  destruct (EnemyEnterLOS_files _ _ _ _ _ _ _ _ _ _ Hu Hs) as (Hn & Hp & _).
  split; [rewrite Hn; done|exact Hp].
Defined.

Lemma EnemyDestroyed_forgets_witness :
  match example_mm with
  | Some mm =>
      (* seen while harmless, then as an attacker, then destroyed: still listed as peaceful *)
      match (s1 ← sighting mm false 10; s2 ← sighting s1.1.2 true 20;
             EnemyDestroyed s2.1.2 s2.2 30 1) with
      | Some (known, mm') => known = true ∧ is_Some (peaceUnits mm' !! 7)
      | None => False
      end
  | None => False
  end.
Proof.
  destruct example_mm as [mm|] eqn:Hmm; [|by vm_compute in Hmm]. vm_compute in Hmm. injection Hmm as <-.
  destruct (sighting _ false 10) as [s1|] eqn:Hs1; [|by vm_compute in Hs1]. cbn [mbind option_bind].
  vm_compute in Hs1. injection Hs1 as <-. cbn [fst snd].
  destruct (sighting _ true 20) as [s2|] eqn:Hs2; [|by vm_compute in Hs2]. cbn [mbind option_bind].
  vm_compute in Hs2. injection Hs2 as <-. cbn [fst snd].
  destruct (EnemyDestroyed _ _ 30 1) as [[known mm']|] eqn:Hd; [|by vm_compute in Hd].
  match type of Hd with EnemyDestroyed _ ?h _ _ = _ =>
    destruct (deref h 1) as [u|] eqn:Hu; [|by vm_compute in Hu] end.
  destruct (EnemyDestroyed_forgets _ _ _ _ _ _ _ Hu Hd) as (Hk & _ & Hp).
  vm_compute in Hu. injection Hu as <-.
  split; [rewrite Hk; by vm_compute|]. apply Hp. split; vm_compute; eauto.
Defined.
