(* ===== verification/EnemyManager.v ===== *)
(** * EnemyManager: the registry of enemies and their costs

    Models [src/src/circuit/unit/enemy/EnemyManager.h/.cpp] (its k-means part is [EnemyGroups])
    and the operations of [src/src/circuit/unit/ally/AllyTeam.cpp] that connect it with the map
    manager.  Objects are owned by the store of records: [new] takes an address that is not
    live, [delete] makes the address dead. *)

From S2P Require Import Prelude Float32 EnemyUnit SectorGrid ThreatMap MapManager EnemyGroups.

Open Scope circuit_scope.

Record SEnemyInfo : Type := MkInfo { i_cost : float; i_threat : float }.

Record CEnemyManager : Type := MkEnemyManager {
  enemyUnits : gmap Z addr;
  em_fakes : gset addr;
  enemyUpdates : list addr;
  enemyIterator : Z;
  enemyGarbage : list Z;
  hostileDatas : list SEnemyData;
  peaceDatas : list SEnemyData;
  enemyMobileCost : float;
  mobileThreat : float;
  staticThreat : float;
  initThrMod : SInitThreatMod;
  maxAAThreat : float;
  enemyInfos : list SEnemyInfo
}.

Definition set_registry (em : CEnemyManager) (us : gmap Z addr) (ups : list addr) (it : Z) (gb : list Z)
    : CEnemyManager :=
  MkEnemyManager us (em_fakes em) ups it gb (hostileDatas em) (peaceDatas em) (enemyMobileCost em)
    (mobileThreat em) (staticThreat em) (initThrMod em) (maxAAThreat em) (enemyInfos em).
Definition set_em_fakes (em : CEnemyManager) (f : gset addr) : CEnemyManager :=
  MkEnemyManager (enemyUnits em) f (enemyUpdates em) (enemyIterator em) (enemyGarbage em)
    (hostileDatas em) (peaceDatas em) (enemyMobileCost em) (mobileThreat em) (staticThreat em)
    (initThrMod em) (maxAAThreat em) (enemyInfos em).
Definition set_datas (em : CEnemyManager) (hs ps : list SEnemyData) : CEnemyManager :=
  MkEnemyManager (enemyUnits em) (em_fakes em) (enemyUpdates em) (enemyIterator em) (enemyGarbage em)
    hs ps (enemyMobileCost em) (mobileThreat em) (staticThreat em) (initThrMod em) (maxAAThreat em)
    (enemyInfos em).
Definition set_costs (em : CEnemyManager) (mc mt st : float) (infos : list SEnemyInfo) : CEnemyManager :=
  MkEnemyManager (enemyUnits em) (em_fakes em) (enemyUpdates em) (enemyIterator em) (enemyGarbage em)
    (hostileDatas em) (peaceDatas em) mc mt st (initThrMod em) (maxAAThreat em) infos.

Section enemy_manager.
Context {E : Engine}.
Context (weapon : Z → option (float * float)).
(** [CCircuitAI::GetCircuitDef] *)
Context (circuitDef : Z → option CCircuitDef).

(** [CEnemyManager::CEnemyManager] and [ReadConfig], from the configured modifiers. *)
Definition new_CEnemyManager (mods : SInitThreatMod) (aa_threat : float) : CEnemyManager :=
  MkEnemyManager ∅ ∅ [] 0 [] [] [] f0 f0 f0 mods aa_threat
    (replicate (Z.to_nat MaxMasks) (MkInfo f0 f0)).

Definition GetEnemyUnit (em : CEnemyManager) (unitId : Z) : option addr := enemyUnits em !! unitId.

(** ** Registration *)

(** What the engine says about a unit that is being registered. *)
Record reg_view : Type := MkReg {
  rv_exists : bool;           (** [WrappUnit::GetInstance] is not [nullptr] *)
  rv_neutral : bool;
  rv_ignored : float;         (** [GetRulesParamFloat("ignoredByAI", 0.f)] *)
  rv_defId : Z;               (** [Unit_GetDefId], -1 when unknown *)
  rv_comm_cost : float → float (** [GetRulesParamFloat("comm_cost", default)] *)
}.

Definition UnitInLOS (h : store) (v : reg_view) (a : addr) : option (bool * store) :=
  u ← deref h a;
  let unitDefId := rv_defId v in
  if unitDefId =? -1 then Some (false, h)
  else
    let known := match e_cdef (data u) with Some d => def_id d =? unitDefId | None => false end in
    if known then Some (true, h)
    else
      let cdef := circuitDef unitDefId in
      let u := SetCircuitDef u cdef in
      let u := on_data (λ d, SetCost d (rv_comm_cost v (cost d))) u in
      cdef ← cdef;
      if isIgnore cdef then Some (false, assign h a (on_data SetIgnore u))
      else Some (true, assign h a u).

(** The object is created at the address [fresh]; the result is the object, if any, and the
    code's second component ("true error" or not). *)
Definition RegisterEnemyUnit (em : CEnemyManager) (h : store) (fresh : addr) (unitId : Z)
    (isInLOS : bool) (v : reg_view) : option (option addr * bool * CEnemyManager * store) :=
  if negb (rv_exists v) then Some (None, true, em, h)
  else
    let isIgnored := rv_neutral v || fgtb (rv_ignored v) f0 in
    let create (cdef : option CCircuitDef) (ign : bool) :=
      let u := new_CEnemyUnit unitId cdef in
      let em := set_registry em (<[unitId := fresh]> (enemyUnits em)) (enemyUpdates em ++ [fresh])
                             (enemyIterator em) (enemyGarbage em) in
      let u := if ign then on_data SetIgnore u else u in
      Some (Some fresh, true, em, assign h fresh u) in
    if isInLOS then
      if rv_defId v =? -1 then Some (None, false, em, h)
      else
        cdef ← circuitDef (rv_defId v);
        create (Some cdef) (isIgnored || isIgnore cdef)
    else create None isIgnored.

(** The overload for a unit the engine lists ([v] describes it). *)
Definition RegisterEnemyUnit_listed (em : CEnemyManager) (h : store) (fresh : addr) (unitId : Z)
    (v : reg_view) : option (addr * CEnemyManager * store) :=
  let unitDefId := rv_defId v in
  let isIgnored := rv_neutral v || fgtb (rv_ignored v) f0 in
  match GetEnemyUnit em unitId with
  | Some a =>
      u ← deref h a;
      let known := match e_cdef (data u) with Some d => def_id d =? unitDefId | None => false end in
      '(u, ign) ←
        (if known then Some (u, isIgnored)
         else
           let cdef := circuitDef unitDefId in
           let u := SetCircuitDef u cdef in
           let u := on_data (λ d, SetCost d (rv_comm_cost v (cost d))) u in
           cdef ← cdef;
           Some (u, isIgnored || isIgnore cdef));
      Some (a, em, assign h a (if ign : bool then on_data SetIgnore u else u))
  | None =>
      let cdef := circuitDef unitDefId in
      let ign := isIgnored || match cdef with Some d => isIgnore d | None => false end in
      let u := new_CEnemyUnit unitId cdef in
      let em := set_registry em (<[unitId := fresh]> (enemyUnits em)) (enemyUpdates em ++ [fresh])
                             (enemyIterator em) (enemyGarbage em) in
      Some (fresh, em, assign h fresh (if ign then on_data SetIgnore u else u))
  end.

Definition UnregisterEnemyUnit (em : CEnemyManager) (h : store) (a : addr)
    : option (CEnemyManager * store) :=
  u ← deref h a;
  let em := set_registry em (delete (e_id (data u)) (enemyUnits em)) (enemyUpdates em)
                         (enemyIterator em) (enemyGarbage em) in
  Some (em, assign h a (on_data SetDead u)).

(** [new CEnemyFake(cdef, pos, timeout)] inserted; the timeout is the caller's. *)
Definition RegisterEnemyFake (em : CEnemyManager) (h : store) (fresh : addr) (cdef : CCircuitDef)
    (pos : AIFloat3) : CEnemyManager * store :=
  (set_em_fakes em ({[fresh]} ∪ em_fakes em), assign h fresh (new_fake cdef pos)).
Definition UnregisterEnemyFake (em : CEnemyManager) (h : store) (a : addr) : CEnemyManager * store :=
  (set_em_fakes em (em_fakes em ∖ {[a]}), delete a h).

(** ** The staggered update *)

(** [enemyUpdates[enemyIterator] = enemyUpdates.back(); pop_back(); delete data] *)
Definition DeleteEnemyUnit (em : CEnemyManager) (h : store) (a : addr) : option (CEnemyManager * store) :=
  b ← last (enemyUpdates em);
  ups ← (enemyUpdates em).[enemyIterator em <- b];
  Some (set_registry em (enemyUnits em) (take (length ups - 1) ups) (enemyIterator em) (enemyGarbage em),
        delete a h).

Definition GarbageEnemy (em : CEnemyManager) (h : store) (a : addr) : option (CEnemyManager * store) :=
  u ← deref h a;
  let em := set_registry em (enemyUnits em) (enemyUpdates em) (enemyIterator em)
                         (enemyGarbage em ++ [e_id (data u)]) in
  '(em, h) ← UnregisterEnemyUnit em h a;
  Some (set_registry em (enemyUnits em) (enemyUpdates em) (enemyIterator em + 1) (enemyGarbage em), h).

(** One pass of the [while] loop for the enemy at the iterator; the second component says
    whether [n] is decremented.  [CQuadField::MovedEnemyUnit] is the caller's quad field. *)
Definition update_step (maxFrame : Z) (view : addr → enemy_view) (em : CEnemyManager) (h : store)
    : option (CEnemyManager * store * bool) :=
  a ← (enemyUpdates em).[enemyIterator em];
  u ← deref h a;
  if IsDead (data u) then
    '(em, h) ← DeleteEnemyUnit em h a; Some (em, h, false)
  else
    let frame := lastSeen u in
    if negb (frame =? -1) && (frame <=? maxFrame) then
      '(em, h) ← GarbageEnemy em h a; Some (em, h, false)
    else
      let next h := Some (set_registry em (enemyUnits em) (enemyUpdates em) (enemyIterator em + 1)
                            (enemyGarbage em), h, true) in
      if IsInRadarOrLOS (data u) then
        let r := v_report (view a) in
        if IsNotInBounds (r_pos r) then
          '(em, h) ← GarbageEnemy em h a; Some (em, h, false)
        else
          let u := UpdateInRadarData u (r_pos r) (r_vel r) in
          let u := if IsInLOS (data u) then UpdateInLosData u r else u in
          next (assign h a u)
      else next h.

(** The loop, with fuel for its passes; [None] is undefined behaviour or too little fuel. *)
Fixpoint update_loop (fuel : nat) (maxFrame : Z) (view : addr → enemy_view) (n : Z)
    (em : CEnemyManager) (h : store) : option (CEnemyManager * store) :=
  if negb ((enemyIterator em <? zlen (enemyUpdates em)) && negb (n =? 0)) then Some (em, h)
  else
    match fuel with
    | O => None
    | S fuel =>
        '(em, h, counted) ← update_step maxFrame view em h;
        update_loop fuel maxFrame view (if counted : bool then n - 1 else n) em h
    end.

Definition UpdateEnemyDatas (fuel : nat) (lastFrame : Z) (view : addr → enemy_view)
    (em : CEnemyManager) (h : store) : option (CEnemyManager * store) :=
  let it := if zlen (enemyUpdates em) <=? enemyIterator em then 0 else enemyIterator em in
  let em := set_registry em (enemyUnits em) (enemyUpdates em) it [] in
  q ← idiv (zlen (enemyUpdates em)) (THREAT_UPDATE_RATE - 1);
  let n := q + 1 in
  let maxFrame := lastFrame - FRAMES_PER_SEC * 60 * 20 in
  update_loop fuel maxFrame view n em h.

(** ** Costs *)

(** [CCircuitDef::GetMask(type)] *)
Definition role_mask (type : Z) : Z := Z.shiftl 1 type.

(** The loop over [roleSize] roles that both cost functions have. *)
Definition for_roles (roleSize : Z) (cdef : CCircuitDef) (f : SEnemyInfo → SEnemyInfo)
    (infos : list SEnemyInfo) : option (list SEnemyInfo) :=
  zfor 0 roleSize (λ type infos,
    if IsEnemyRoleAny cdef (role_mask type) then
      info ← infos.[type];
      infos.[type <- f info]
    else Some infos) infos.

Definition AddEnemyCost (roleSize : Z) (em : CEnemyManager) (u : CEnemyUnit) : option CEnemyManager :=
  cdef ← e_cdef (data u);
  let c := cost (data u) in
  let t := def_threat cdef in
  infos ← for_roles roleSize cdef (λ info, MkInfo (fadd (i_cost info) c) (fadd (i_threat info) t))
            (enemyInfos em);
  if IsMobile cdef then
    Some (set_costs em (fadd (enemyMobileCost em) c)
            (fadd (mobileThreat em) (fmul t (inMobile (initThrMod em)))) (staticThreat em) infos)
  else
    Some (set_costs em (enemyMobileCost em) (mobileThreat em)
            (fadd (staticThreat em) (fmul t (inStatic (initThrMod em)))) infos).

Definition DelEnemyCost (roleSize : Z) (em : CEnemyManager) (u : CEnemyUnit) : option CEnemyManager :=
  cdef ← e_cdef (data u);
  let c := cost (data u) in
  let t := def_threat cdef in
  infos ← for_roles roleSize cdef
            (λ info, MkInfo (fmax (fsub (i_cost info) c) f0) (fmax (fsub (i_threat info) t) f0))
            (enemyInfos em);
  if IsMobile cdef then
    Some (set_costs em (fmax (fsub (enemyMobileCost em) c) f0)
            (fmax (fsub (mobileThreat em) (fmul t (inMobile (initThrMod em)))) f0) (staticThreat em) infos)
  else
    Some (set_costs em (enemyMobileCost em) (mobileThreat em)
            (fmax (fsub (staticThreat em) (fmul t (inStatic (initThrMod em)))) f0) infos).

Definition GetEnemyThreat_role (em : CEnemyManager) (type : Z) : option float :=
  i ← (enemyInfos em).[type]; Some (i_threat i).
Definition ROLE_AA : Z := 7.
Definition IsAirValid (em : CEnemyManager) : option bool :=
  t ← GetEnemyThreat_role em ROLE_AA; Some (fleb t (maxAAThreat em)).

(** [GetEnemyThreat()] *)
Definition GetEnemyThreat (em : CEnemyManager) : float := fadd (mobileThreat em) (staticThreat em).

(** ** Snapshots for the worker thread *)

(** The two loops of [PrepareUpdate] over a unit map, in its iteration order. *)
Definition collect (test : store → addr → option (bool * store)) (h : store) (as_ : list addr)
    : option (store * list SEnemyData) :=
  foldM (λ '(h, ds) a,
    '(keep, h) ← test h a;
    u ← deref h a;
    Some (h, if keep : bool then ds ++ [data u] else ds)) (h, []) as_.

(** [PrepareUpdate]: the order of the [unordered_map]s and of the fake set, and the fakes'
    timeouts, are arguments. *)
Definition EnemyPrepareUpdate (mm : CMapManager) (em : CEnemyManager) (h : store) (lastFrame : Z)
    (hostile_order fake_order peace_order : list addr) (timeout : addr → Z)
    : option (CMapManager * CEnemyManager * store) :=
  '(h, hs) ← collect (λ h a, HostileInLOS mm h a) h hostile_order;
  '(fs, dead) ← foldM (λ '(fs, dead) a,
      u ← deref h a;
      seen ← IsInLOS_at mm (e_pos (data u));
      if (seen : bool) || (timeout a <=? lastFrame) then Some (fs, dead ++ [a])
      else Some (fs ++ [data u], dead)) ([], []) fake_order;
  let mm := foldl DelFakeEnemy mm dead in
  let '(em, h) := foldl (λ '(em, h) a, UnregisterEnemyFake em h a) (em, h) dead in
  '(h, ps) ← collect (λ h a, PeaceInLOS mm h a) h peace_order;
  Some (mm, set_datas em (hs ++ fs) ps, h).

(** ** AllyTeam: one sighting, one kill *)

Definition Ally_EnemyEnterLOS (roleSize : Z) (mm : CMapManager) (em : CEnemyManager) (h : store)
    (lastFrame : Z) (v : enemy_view) (a : addr) : option (CMapManager * CEnemyManager * store) :=
  '(isNew, mm, h) ← EnemyEnterLOS weapon mm h lastFrame v a;
  u ← deref h a;
  em ← (if isNew : bool then AddEnemyCost roleSize em u else Some em);
  Some (mm, em, h).

Definition Ally_EnemyDestroyed (roleSize : Z) (mm : CMapManager) (em : CEnemyManager) (h : store)
    (lastFrame : Z) (a : addr) : option (CMapManager * CEnemyManager) :=
  '(isKnown, mm) ← EnemyDestroyed mm h lastFrame a;
  u ← deref h a;
  em ← (if isKnown : bool then DelEnemyCost roleSize em u else Some em);
  Some (mm, em).

(** ** The staggered update sweeps the list *)

(** Every listed enemy is a live object, listed once. *)
Record reg_ok (em : CEnemyManager) (h : store) : Prop := {
  reg_live : ∀ a, a ∈ enemyUpdates em → is_Some (h !! a);
  reg_nodup : NoDup (enemyUpdates em);
  reg_iter : 0 <= enemyIterator em
}.

Definition unvisited (em : CEnemyManager) : list addr := drop (Z.to_nat (enemyIterator em)) (enemyUpdates em).

Lemma elem_of_drop_in {A} (x : A) n l : x ∈ drop n l → x ∈ l.
Proof. intros Hx. rewrite <-(take_drop n l). apply elem_of_app. by right. Qed.

(** What one pass of the loop does. *)
Definition step_effect (em em' : CEnemyManager) (h h' : store) (a : addr) (u : CEnemyUnit) : Prop :=
  zlen (enemyUpdates em') - enemyIterator em' = zlen (enemyUpdates em) - enemyIterator em - 1 ∧
  reg_ok em' h' ∧
  (∀ b, b ≠ a → h' !! b = h !! b) ∧
  (∀ b, b ∈ unvisited em' → b ∈ unvisited em ∧ b ≠ a) ∧
  (enemyUpdates em' = enemyUpdates em ∧ enemyIterator em' = enemyIterator em + 1 ∧ IsDead (data u) = false ∧ is_Some (h' !! a) ∨
   IsDead (data u) = true ∧ enemyUpdates em ≡ₚ a :: enemyUpdates em' ∧ enemyIterator em' = enemyIterator em ∧ h' !! a = None ∧
   take (Z.to_nat (enemyIterator em)) (enemyUpdates em') = take (Z.to_nat (enemyIterator em)) (enemyUpdates em)) ∧
  (∀ id, enemyUnits em !! id = None → enemyUnits em' !! id = None) ∧
  (enemyGarbage em' = enemyGarbage em ∨
   enemyGarbage em' = enemyGarbage em ++ [e_id (data u)] ∧ enemyUnits em' !! e_id (data u) = None).

Lemma visit_next em h a u u' gb us :
  reg_ok em h → 0 <= enemyIterator em → (enemyUpdates em).[enemyIterator em] = Some a → h !! a = Some u → IsDead (data u) = false →
  (∀ id, enemyUnits em !! id = None → us !! id = None) →
  (gb = enemyGarbage em ∨ gb = enemyGarbage em ++ [e_id (data u)] ∧ us !! e_id (data u) = None) →
  step_effect em (set_registry em us (enemyUpdates em) (enemyIterator em + 1) gb) h (assign h a u') a u.
Proof.
  intros [Hl Hnd _] Hit Ha Hu Hd Hus Hgb. unfold zget in Ha. rewrite decide_True in Ha by done.
  split; [simpl; lia|]. split; [|split; [|split; [|split; [left; split_and!; try done; unfold assign; rewrite lookup_insert_eq; eauto|split; [done|done]]]]].
  - constructor; simpl; [|done|lia]. intros b Hb. unfold assign.
    destruct (decide (b = a)) as [->|]; [rewrite lookup_insert_eq; eauto|rewrite lookup_insert_ne by done; by apply Hl].
  - intros b Hb. by apply lookup_insert_ne.
  - intros b. unfold unvisited. simpl. replace (Z.to_nat (enemyIterator em + 1)) with (S (Z.to_nat (enemyIterator em))) by lia.
    intros Hb. rewrite (drop_S _ a) by done. split; [by right|]. intros ->.
    rewrite <-(take_drop_middle _ _ _ Ha) in Hnd. apply NoDup_app in Hnd as (_ & _ & Hnd).
    by apply NoDup_cons in Hnd as [? _].
Qed.

Lemma GarbageEnemy_effect em h a u :
  reg_ok em h → (enemyUpdates em).[enemyIterator em] = Some a → h !! a = Some u → IsDead (data u) = false →
  ∃ em' h', GarbageEnemy em h a = Some (em', h') ∧ step_effect em em' h h' a u.
Proof.
  intros Hr Ha Hu Hd. unfold GarbageEnemy, UnregisterEnemyUnit, deref. rewrite Hu. simpl.
  do 2 eexists. split; [done|]. apply (visit_next em h a u); [done|apply Hr|done..| |].
  - intros id. rewrite lookup_delete_None. auto.
  - right. split; [done|]. apply lookup_delete_eq.
Qed.

Lemma DeleteEnemyUnit_effect em h a u :
  reg_ok em h → (enemyUpdates em).[enemyIterator em] = Some a → h !! a = Some u → IsDead (data u) = true →
  ∃ em' h', DeleteEnemyUnit em h a = Some (em', h') ∧ step_effect em em' h h' a u.
Proof.
  intros [Hl Hnd Hit] Ha Hu Hdead. unfold DeleteEnemyUnit.
  pose proof (zget_Some_bound _ _ _ Ha) as Hb. unfold zget in Ha. rewrite decide_True in Ha by done.
  destruct (last (enemyUpdates em)) as [b|] eqn:Hlast.
  2:{ apply last_None in Hlast. rewrite Hlast in Hb. unfold zlen in Hb. simpl in Hb. lia. }
  simpl. rewrite zset_Some by done. simpl.
  destruct (swap_back_perm _ _ _ _ Ha Hlast) as (Hp & Hsub & Hlen & Htk). rewrite length_insert.
  set (l' := take _ _) in *. do 2 eexists. split; [done|].
  assert (a ∉ l') as Hna.
  { rewrite Hp in Hnd. by apply NoDup_cons in Hnd as [? _]. }
  split; [simpl; unfold zlen in *; rewrite Hlen; lia|].
  split; [|split; [|split; [|split; [right; split_and!; [done..|apply lookup_delete_eq|exact Htk]|split; [done|by left]]]]].
  - constructor; simpl; [| |done].
    + intros c Hc. rewrite lookup_delete_ne by (intros ->; done). apply Hl. rewrite Hp. by right.
    + rewrite Hp in Hnd. by apply NoDup_cons in Hnd as [_ ?].
  - intros c Hc. by apply lookup_delete_ne.
  - intros c. unfold unvisited. simpl. intros Hc. split; [by apply Hsub|].
    intros ->. apply Hna. by eapply elem_of_drop_in.
Qed.

Lemma update_step_ok maxFrame view em h :
  reg_ok em h → enemyIterator em < zlen (enemyUpdates em) →
  ∃ em' h' c a u, update_step maxFrame view em h = Some (em', h', c) ∧
    (enemyUpdates em).[enemyIterator em] = Some a ∧ h !! a = Some u ∧ step_effect em em' h h' a u ∧ (c = true → IsDead (data u) = false).
Proof.
  intros Hr Hlt. pose proof (reg_iter _ _ Hr) as Hit.
  destruct (zget_is_Some (enemyUpdates em) (enemyIterator em)) as [a Ha]; [done|].
  destruct (reg_live _ _ Hr a) as [u Hu].
  { unfold zget in Ha. rewrite decide_True in Ha by done. by eapply list_elem_of_lookup_2. }
  unfold update_step. rewrite Ha. cbn [mbind option_bind]. unfold deref at 1. rewrite Hu.
  cbn [mbind option_bind].
  assert (IsDead (data u) = false → ∀ u', step_effect em (set_registry em (enemyUnits em) (enemyUpdates em) (enemyIterator em + 1)
                                  (enemyGarbage em)) h (assign h a u') a u) as Hnext.
  { intros Hd u'. apply visit_next; auto. }
  assert (assign h a u = h) as Hid by (by apply insert_id).
  destruct (IsDead (data u)) eqn:Hdead.
  { destruct (DeleteEnemyUnit_effect em h a u Hr Ha Hu Hdead) as (em' & h' & -> & He).
    exists em', h', false, a, u. by split_and!. }
  destruct (negb (lastSeen u =? -1) && (lastSeen u <=? maxFrame)).
  { destruct (GarbageEnemy_effect em h a u Hr Ha Hu Hdead) as (em' & h' & -> & He).
    exists em', h', false, a, u. by split_and!. }
  destruct (IsInRadarOrLOS (data u)).
  2:{ eexists _, h, true, a, u. split; [done|]. split; [done|]. split; [done|].
      specialize (Hnext eq_refl u). rewrite Hid in Hnext. done. }
  destruct (IsNotInBounds _).
  { destruct (GarbageEnemy_effect em h a u Hr Ha Hu Hdead) as (em' & h' & -> & He).
    exists em', h', false, a, u. by split_and!. }
  eexists _, _, true, a, u. split; [done|]. split; [done|]. split; [done|]. split; [by apply Hnext|done].
Qed.

(** The whole loop, from the store [h] on: the removed objects, and what the loop left.  [h0] is the store
    the objects ahead were not changed since. *)
Record swept (h0 : store) (n : Z) (em em' : CEnemyManager) (h h' : store) (removed : list addr) : Prop := {
  sw_list : enemyUpdates em ≡ₚ enemyUpdates em' ++ removed;
  sw_dead : Forall (λ a, ∃ u, h0 !! a = Some u ∧ IsDead (data u) = true) removed;
  sw_reg : reg_ok em' h';
  sw_iter : enemyIterator em <= enemyIterator em' <= zlen (enemyUpdates em');
  sw_store : ∀ a, is_Some (h' !! a) ↔ is_Some (h !! a) ∧ a ∉ removed;
  sw_behind : take (Z.to_nat (enemyIterator em)) (enemyUpdates em') = take (Z.to_nat (enemyIterator em)) (enemyUpdates em);
  sw_visited : ∀ i, enemyIterator em <= i < enemyIterator em' →
    ∃ a u, (enemyUpdates em').[i] = Some a ∧ h0 !! a = Some u ∧ IsDead (data u) = false;
  sw_far : enemyIterator em' = zlen (enemyUpdates em') ∨ n <= enemyIterator em' - enemyIterator em;
  sw_units : ∀ id, enemyUnits em !! id = None → enemyUnits em' !! id = None;
  sw_garbage : ∃ gb, enemyGarbage em' = enemyGarbage em ++ gb ∧ Forall (λ id, enemyUnits em' !! id = None) gb
}.

Lemma swept_refl h h0 n em : reg_ok em h → enemyIterator em <= zlen (enemyUpdates em) →
  enemyIterator em = zlen (enemyUpdates em) ∨ n <= 0 → swept h0 n em em h h [].
Proof.
  intros Hr Hle Hn. split; [by rewrite app_nil_r|done|done|lia| |done|lia| |done|exists []; by rewrite app_nil_r].
  - intros a. split; [|by intros [? _]]. intros Ha. split; [done|apply not_elem_of_nil].
  - destruct Hn; [by left|right; lia].
Qed.

Lemma swept_garbage (us1 us' : gmap Z addr) (g g1 g' gb : list Z) id :
  g1 = g ∨ g1 = g ++ [id] ∧ us1 !! id = None →
  (∀ i, us1 !! i = None → us' !! i = None) →
  g' = g1 ++ gb → Forall (λ i, us' !! i = None) gb →
  ∃ gb', g' = g ++ gb' ∧ Forall (λ i, us' !! i = None) gb'.
Proof.
  intros [->|[-> Hn]] Hus -> Hgn; [eauto|]. exists (id :: gb). rewrite <-app_assoc. auto.
Qed.

(** What stays in place up to [i + 1] stays up to [i], and so does the entry [i]. *)
Lemma kept_entry {A} (i : Z) (l l' : list A) x : 0 <= i → take (Z.to_nat (i + 1)) l' = take (Z.to_nat (i + 1)) l → l.[i] = Some x →
  take (Z.to_nat i) l' = take (Z.to_nat i) l ∧ l'.[i] = Some x.
Proof.
  intros Hi Ht Hx. replace (Z.to_nat (i + 1)) with (S (Z.to_nat i)) in Ht by lia. unfold zget in *. rewrite decide_True in Hx |- * by done. split.
  - replace (Z.to_nat i) with (Z.to_nat i `min` S (Z.to_nat i))%nat by lia. by rewrite <-!take_take, Ht.
  - assert (take (S (Z.to_nat i)) l' !! Z.to_nat i = Some x) as H by (by rewrite Ht, lookup_take_lt by lia). by rewrite lookup_take_lt in H by lia.
Qed.

Lemma swept_step h0 n (c : bool) em em1 em' h h1 h' a u removed :
  reg_ok em h → (enemyUpdates em).[enemyIterator em] = Some a → h !! a = Some u → step_effect em em1 h h1 a u → h0 !! a = Some u →
  (c = true → IsDead (data u) = false) → swept h0 (if c then n - 1 else n) em1 em' h1 h' removed →
  swept h0 n em em' h h' (if IsDead (data u) then a :: removed else removed).
Proof.
  clear weapon circuitDef. intros Hr Hat Hha (_ & _ & Hh & _ & Hup & Hus & Hgb) Ha Hc [Hp Hdead Hr' Hit Hst Hbe Hvi Hfar Hus' (gb & Hg & Hgn)]. pose proof (reg_iter _ _ Hr) as H0.
  assert (∃ gb', enemyGarbage em' = enemyGarbage em ++ gb' ∧ Forall (λ id, enemyUnits em' !! id = None) gb') as Hgb' by (by eapply swept_garbage).
  destruct Hup as [(Hup & Hi & Hd & Hs)|(Hd & Hup & Hi & Hn & Htk)]; rewrite Hd.
  - rewrite Hup, ?Hi in *. destruct (kept_entry _ _ _ _ H0 Hbe Hat) as [Hbe' Hgeta]. split; try done; [lia| | | |auto].
    + intros b. rewrite Hst. destruct (decide (b = a)) as [->|Hb]; [|by rewrite Hh]. rewrite Hha. naive_solver.
    + intros i Hi'. destruct (decide (i = enemyIterator em)) as [->|]; [by exists a, u|apply Hvi; lia].
    + destruct Hfar as [?|?]; [by left|right]. destruct c; lia.
  - rewrite Hi in *. split; try done; [|by constructor; [exists u|]| |congruence| |auto].
    + rewrite Hup, Hp. solve_Permutation.
    + intros b. rewrite Hst, not_elem_of_cons. destruct (decide (b = a)) as [->|Hb]; [rewrite Hn; split; [by intros [[? [=]] _]|naive_solver]|]. rewrite Hh by done. naive_solver.
    + destruct Hfar as [?|?]; [by left|right]. destruct c; [by specialize (Hc eq_refl); congruence|lia].
Qed.

Lemma update_loop_ok h0 fuel maxFrame view n em h :
  reg_ok em h → enemyIterator em <= zlen (enemyUpdates em) → 0 <= n →
  zlen (enemyUpdates em) - enemyIterator em <= Z.of_nat fuel →
  (∀ a, a ∈ unvisited em → h !! a = h0 !! a) →
  ∃ em' h' removed, update_loop fuel maxFrame view n em h = Some (em', h') ∧ swept h0 n em em' h h' removed.
Proof.
  revert n em h. induction fuel as [|fuel IH]; intros n em h Hr Hle H0 Hf Hun; simpl.
  { rewrite (proj2 (Z.ltb_ge _ _)) by lia. simpl. do 3 eexists. split; [done|]. apply swept_refl; [done..|]. left. lia. }
  destruct (_ && _) eqn:Hc; simpl.
  2:{ do 3 eexists. split; [done|]. apply swept_refl; [done..|]. apply andb_false_iff in Hc as [?%Z.ltb_ge|Hn]; [left; lia|right].
      destruct (Z.eqb_spec n 0); [lia|done]. }
  apply andb_true_iff in Hc as [Hlt%Z.ltb_lt Hn].
  destruct (update_step_ok maxFrame view em h Hr Hlt) as (em1 & h1 & c & a & u & -> & Ha & Hu & He & Hcd).
  pose proof He as (Hm & Hr1 & Hh & Hun1 & _).
  cbn [mbind option_bind].
  destruct (IH (if c then n - 1 else n) em1 h1 Hr1) as (em' & h' & rm & -> & Hs); [lia| |lia| |].
  - destruct (Z.eqb_spec n 0); [done|]. destruct c; lia.
  - intros b Hb. destruct (Hun1 b Hb) as [Hb0 Hne]. rewrite Hh by done. by apply Hun.
  - do 3 eexists. split; [done|]. eapply swept_step; [done..| |exact Hcd|exact Hs].
    rewrite <-Hun; [done|]. unfold unvisited. unfold zget in Ha.
    rewrite decide_True in Ha by apply Hr. rewrite (drop_S _ _ _ Ha). by left.
Qed.

(** ** Properties *)

(** C37: The staggered update is total, sweeps its part of the list and deletes the dead.  If every listed enemy
    is a live object listed once and THREAT_UPDATE_RATE - 1 is positive, then UpdateEnemyDatas, with fuel for
    one pass per listed enemy, returns.  The objects it took off the list are exactly those it deletes (they are
    gone from the store, and no other object is), and all of them were dead before.  It goes on from where the last update
    stopped, or from the front after the end: what is behind stays in place, nobody it passed was dead, and it
    stops at the end of the list or when it has passed a share of one in THREAT_UPDATE_RATE - 1, and one more; every object
    that stays on the list is still live and listed once; and no id it reports as garbage is registered any more. *)
Theorem UpdateEnemyDatas_sweep lastFrame view em h
    (Hr : reg_ok em h) (Hrate : 1 < THREAT_UPDATE_RATE) :
  let it := if zlen (enemyUpdates em) <=? enemyIterator em then 0 else enemyIterator em in
  let share := zlen (enemyUpdates em) `quot` (THREAT_UPDATE_RATE - 1) + 1 in
  ∃ em' h' removed,
    UpdateEnemyDatas (length (enemyUpdates em)) lastFrame view em h = Some (em', h') ∧
    enemyUpdates em ≡ₚ enemyUpdates em' ++ removed ∧
    (∀ a, is_Some (h' !! a) ↔ is_Some (h !! a) ∧ a ∉ removed) ∧
    Forall (λ a, ∃ u, h !! a = Some u ∧ IsDead (data u) = true) removed ∧
    take (Z.to_nat it) (enemyUpdates em') = take (Z.to_nat it) (enemyUpdates em) ∧
    (∀ i, it <= i < enemyIterator em' → ∃ a u, (enemyUpdates em').[i] = Some a ∧ h !! a = Some u ∧ IsDead (data u) = false) ∧
    (enemyIterator em' = zlen (enemyUpdates em') ∨ it + share <= enemyIterator em') ∧
    reg_ok em' h' ∧ 0 <= enemyIterator em' <= zlen (enemyUpdates em') ∧
    Forall (λ id, GetEnemyUnit em' id = None) (enemyGarbage em').
Proof.
  intros it share. unfold UpdateEnemyDatas. rewrite idiv_ok by lia. cbn [mbind option_bind].
  pose proof (zlen_nonneg (enemyUpdates em)). pose proof (reg_iter _ _ Hr) as Hit. fold it.
  assert (0 <= it <= zlen (enemyUpdates em)) as Hb by (unfold it; destruct (Z.leb_spec (zlen (enemyUpdates em)) (enemyIterator em)); lia).
  assert (0 <= zlen (enemyUpdates em) `quot` (THREAT_UPDATE_RATE - 1)) by (apply Z.quot_pos; lia).
  destruct (update_loop_ok h (length (enemyUpdates em)) (lastFrame - FRAMES_PER_SEC * 60 * 20) view share
    (set_registry em (enemyUnits em) (enemyUpdates em) it []) h) as (em' & h' & rm & Hf & S).
  - destruct Hr. constructor; simpl; auto. lia.
  - simpl. lia.
  - unfold share. lia.
  - simpl. unfold zlen. lia.
  - done.
  - exists em', h', rm. destruct S as [Hp Hd Hr' Hi Hst Hbe Hvi Hfar _ (gb & Hg & Hgn)]. simpl in *. split_and!; try done; [destruct Hfar; [by left|right; lia]|lia|lia|by rewrite Hg].
Qed.

(** Costs are booked per frame, not per enemy. For an enemy seen for the first time in frame f, the
    sighting adds its cost. In any later frame another sighting adds nothing and its destruction
    subtracts the cost; but in the same frame f a second sighting adds the cost once more, and its
    destruction subtracts nothing, so the cost stays booked for ever. *)
Theorem cost_booked_per_frame roleSize mm em h f v a u mm1 em1 h1
    (Hu : h !! a = Some u) (Hnew : knownFrame u = -1) (Hf : f ≠ -1)
    (H1 : Ally_EnemyEnterLOS roleSize mm em h f v a = Some (mm1, em1, h1)) :
  ∃ u1, h1 !! a = Some u1 ∧ AddEnemyCost roleSize em u1 = Some em1 ∧
  (∀ g v' mm2 em2 h2, Ally_EnemyEnterLOS roleSize mm1 em1 h1 g v' a = Some (mm2, em2, h2) →
     if g =? f then ∃ u2, h2 !! a = Some u2 ∧ AddEnemyCost roleSize em1 u2 = Some em2 else em2 = em1) ∧
  (∀ g mm2 em2, Ally_EnemyDestroyed roleSize mm1 em1 h1 g a = Some (mm2, em2) →
     if g =? f then em2 = em1 else DelEnemyCost roleSize em1 u1 = Some em2).
Proof.
  unfold Ally_EnemyEnterLOS in H1. bind_inv H1. destruct x as [[isNew mm'] h'].
  destruct (EnemyEnterLOS_ok weapon _ _ _ _ _ _ _ _ _ Hu E0) as (-> & _ & u1 & -> & Hid & Hk).
  assert (IsKnown u f = false) as Hkn by (unfold IsKnown; by rewrite Hnew). rewrite Hkn in H1.
  unfold deref, assign in H1. rewrite lookup_insert_eq in H1. cbn [negb mbind option_bind] in H1.
  bind_inv H1. simplify_eq. exists u1. rewrite Hnew in Hk. simpl in Hk.
  assert (<[a := u1]> h !! a = Some u1) as Hu1 by apply lookup_insert_eq.
  assert (∀ g, IsKnown u1 g = negb (g =? f)) as Hkg.
  { intros g. unfold IsKnown. rewrite Hk, Z.eqb_sym.
    destruct (Z.eqb_spec (-1) f); [lia|]. simpl. by rewrite Z.eqb_sym. }
  unfold assign. split; [done|]. split; [done|]. split.
  - intros g v' mm2 em2 h2 H. unfold Ally_EnemyEnterLOS in H. bind_inv H. destruct x as [[isNew mm'] h''].
    destruct (EnemyEnterLOS_ok weapon _ _ _ _ _ _ _ _ _ Hu1 E2) as (-> & _ & u2 & -> & _).
    rewrite Hkg in H. unfold deref, assign in H. rewrite lookup_insert_eq in H.
    cbn [mbind option_bind] in H. destruct (g =? f); simpl in H; bind_inv H; simplify_eq; [|done]. exists u2. split; [apply lookup_insert_eq|done].
  - intros g mm2 em2 H. unfold Ally_EnemyDestroyed, EnemyDestroyed, deref in H. rewrite Hu1 in H.
    cbn [mbind option_bind] in H. rewrite Hkg in H.
    destruct (hostileUnits mm1 !! _), (g =? f); simpl in H; bind_inv H; simplify_eq; eauto.
Qed.

End enemy_manager.

(** ** Witnesses *)

#[local] Existing Instance example_engine.

Definition em_example : CEnemyManager := new_CEnemyManager mods_example (f_of_Z 42).

(** Three listed enemies: 1 and 3 alive, 2 dead. *)
Definition sweep_store : store :=
  {[1 := new_CEnemyUnit 11 None]} ∪ {[2 := on_data SetDead (new_CEnemyUnit 12 None)]} ∪
  {[3 := new_CEnemyUnit 13 None]}.
Definition sweep_manager : CEnemyManager := set_registry em_example {[11 := 1; 13 := 3]} [1; 2; 3] 0 [].

Lemma UpdateEnemyDatas_sweep_witness :
  ∃ em' h' removed, UpdateEnemyDatas 3 100 (λ _, example_view) sweep_manager sweep_store = Some (em', h') ∧
    [1; 2; 3] ≡ₚ enemyUpdates em' ++ removed ∧ reg_ok em' h'.
Proof.
  destruct (UpdateEnemyDatas_sweep 100 (λ _, example_view) sweep_manager sweep_store)
    as (em' & h' & removed & H1 & H2 & _ & _ & _ & _ & _ & H4 & _).
  - constructor.
    + intros b Hb. simpl in Hb. repeat (apply elem_of_cons in Hb as [->|Hb]; [by eexists|]).
      by apply elem_of_nil in Hb.
    + simpl. repeat constructor; set_solver.
    + done.
  - done.
  - exists em', h', removed. auto.
Defined.

Definition mm0 : CMapManager :=
  ltac:(let v := eval vm_compute in example_mm in match v with Some ?m => exact m end).

Lemma cost_booked_per_frame_witness :
  match Ally_EnemyEnterLOS (λ _, None) 20 mm0 em_example (example_store true) 10 example_view 1 with
  | Some (mm1, em1, h1) =>
      ∀ mm2 em2, Ally_EnemyDestroyed 20 mm1 em1 h1 10 1 = Some (mm2, em2) → em2 = em1
  | None => False
  end.
Proof.
  destruct (Ally_EnemyEnterLOS _ _ _ _ _ _ _ _) as [[[mm1 em1] h1]|] eqn:Hs; [|by vm_compute in Hs].
  assert (example_store true !! 1 = Some (new_CEnemyUnit 7 (Some (peaceful_def true)))) as Hu by done.
  destruct (cost_booked_per_frame (λ _, None) 20 mm0 em_example (example_store true) 10 example_view 1
    (new_CEnemyUnit 7 (Some (peaceful_def true))) mm1 em1 h1 Hu eq_refl ltac:(done) Hs)
    as (u1 & _ & _ & _ & Hd).
  intros mm2 em2 H. exact (Hd 10 mm2 em2 H).
Defined.

