(* ===== verification/MultiQueue.v ===== *)
(** * MultiQueue: the locked FIFO queue between the threads

    Models [src/src/circuit/util/MultiQueue.h/.hpp].  Every operation holds the queue's mutex
    for its whole body (but for the call of [process] in [PopAndProcess], after the item is
    out), so each one is one atomic function on the contents.  A [Pop] of an empty queue waits:
    it has no result. *)

From S2P Require Import Prelude.

Open Scope circuit_scope.

Section queue.
Context {T W : Type}.
Implicit Types (q : list T) (w : W).

Definition Pop q : option (T * list T) :=
  match q with [] => None | val :: q => Some (val, q) end.
Definition Push q (item : T) : list T := q ++ [item].
Definition IsEmpty q : bool := match q with [] => true | _ => false end.
Definition Size q : Z := zlen q.
Definition Clear (_ : list T) : list T := [].

(** [process] changes the rest of the world. *)
Definition PopAndProcess (process : T → W → W) q w : bool * list T * W :=
  match q with
  | [] => (false, [], w)
  | item :: q => (true, q, process item w)
  end.

(** The lock is held throughout, so [process] cannot reach this queue. *)
Fixpoint PopAndProcessAll (process : T → W → W) q w : list T * W :=
  match q with
  | [] => ([], w)
  | item :: q => PopAndProcessAll process q (process item w)
  end.

(** [RemoveAllIf]: the loop with its iterator as an index; a removed element is overwritten with
    the last one.  [fuel] bounds the passes. *)
Fixpoint remove_loop (fuel : nat) (condition : T → bool) (i : nat) q : option (list T) :=
  match q !! i with
  | None => Some q
  | Some x =>
      match fuel with
      | O => None
      | S fuel =>
          if condition x then
            b ← last q;
            remove_loop fuel condition i (take (length q - 1) (<[i := b]> q))
          else remove_loop fuel condition (i + 1) q
      end
  end.
Definition RemoveAllIf (condition : T → bool) q : option (list T) :=
  remove_loop (length q) condition 0 q.

Lemma PopAndProcessAll_fold process q w :
  PopAndProcessAll process q w = ([], foldl (λ w x, process x w) w q).
Proof. revert w. induction q; intros w; simpl; auto. Qed.

End queue.

Section queue_proofs.
Context {T : Type}.
Implicit Types (q : list T).

Lemma remove_loop_ok (condition : T → bool) fuel i q :
  (length q - i <= fuel)%nat → (∀ x, x ∈ take i q → condition x = false) →
  ∃ q', remove_loop fuel condition i q = Some q' ∧
    q' ≡ₚ filter (λ x, condition x = false) q ∧ (∀ x, x ∈ q' → condition x = false).
Proof.
  revert i q. induction fuel as [|fuel IH]; intros i q Hf Hpre; simpl.
  all: destruct (q !! i) as [x|] eqn:Hx.
  all: try (pose proof (lookup_lt_Some _ _ _ Hx)); try lia.
  1, 3: apply lookup_ge_None in Hx; rewrite take_ge in Hpre by lia; exists q; split; [done|]; split; [|done];
    by rewrite filter_all.
  destruct (condition x) eqn:Hc.
  - destruct (last q) as [b|] eqn:Hb; [|by apply last_None in Hb as ->]. simpl.
    destruct (swap_back_perm q i x b Hx Hb) as (Hp & _ & Hl & Ht). simpl in *.
    destruct (IH i (take (length q - 1) (<[i:=b]> q))) as (q' & Hf' & Hq & Ha); [lia|by rewrite Ht|].
    exists q'. split; [done|]. split; [|done]. rewrite Hq. symmetry. rewrite Hp at 1.
    rewrite filter_cons_False; [done|]. by rewrite Hc.
  - apply (IH (i + 1)%nat q); [lia|]. intros y Hy. replace (i + 1)%nat with (S i) in Hy by lia.
    rewrite (take_S_r _ _ x Hx) in Hy. apply elem_of_app in Hy as [Hy|Hy%list_elem_of_singleton]; [auto|].
    by subst.
Qed.

Lemma RemoveAllIf_ok (condition : T → bool) q :
  ∃ q', RemoveAllIf condition q = Some q' ∧ q' ≡ₚ filter (λ x, condition x = false) q.
Proof.
  destruct (remove_loop_ok condition (length q) 0 q) as (q' & ? & ? & _); [lia|set_solver|eauto].
Qed.

(** RemoveAllIf removes exactly the matching items: the loop, which overwrites a removed item with
    the last one, terminates within one pass per item and leaves a permutation of the items for which
    the condition is false. *)
Theorem RemoveAllIf_filter (condition : T → bool) q :
  ∃ q', RemoveAllIf condition q = Some q' ∧ q' ≡ₚ filter (λ x, condition x = false) q.
Proof. apply RemoveAllIf_ok. Qed.
End queue_proofs.
