(* ===== verification/Scheduler.v ===== *)
(** * Scheduler: frame tasks and their completions

    Models the main thread's half of [src/src/circuit/util/Scheduler.h/.cpp]: the task lists.
    Tasks are functions of the outside world [W] that may call the scheduler again, so a
    task returns the list of scheduler calls it makes.  The protocol between [Release] and the worker
    and path threads is in SchedulerThreads. *)

From S2P Require Import Prelude MultiQueue.

Open Scope circuit_scope.

(** A [shared_ptr<CGameTask>], by identity: a task of the program, or the closure that
    [RunTaskEvery] makes for a delayed start. *)
Inductive task : Type :=
| Task (id : Z)
| Deferred (t : task) (frameInterval : Z).
#[export] Instance task_eq_dec : EqDecision task.
Proof. solve_decision. Defined.

Record OnceTask : Type := Once { o_task : task; o_frame : Z }.
Record RepeatTask : Type := Repeat { r_task : task; r_interval : Z; r_lastFrame : Z }.
Record WorkTask : Type := Work { w_task : task; w_onComplete : option task }.
(** A finished path query and its callback. *)
Record PathedTask : Type := Pathed { p_query : Z; p_onComplete : task }.

Record CScheduler : Type := MkScheduler {
  lastFrame : Z;
  isProcessing : bool;
  onceTasks : list OnceTask;
  repeatTasks : list RepeatTask;
  removeTasks : list task;
  workTasks : list WorkTask;
  finishTasks : list task;
  pathedTasks : list PathedTask;
  initTasks : list task;
  releaseTasks : list task
}.

Definition set_once (s : CScheduler) l : CScheduler :=
  MkScheduler (lastFrame s) (isProcessing s) l (repeatTasks s) (removeTasks s) (workTasks s)
    (finishTasks s) (pathedTasks s) (initTasks s) (releaseTasks s).
Definition set_repeat (s : CScheduler) l : CScheduler :=
  MkScheduler (lastFrame s) (isProcessing s) (onceTasks s) l (removeTasks s) (workTasks s)
    (finishTasks s) (pathedTasks s) (initTasks s) (releaseTasks s).
Definition set_remove (s : CScheduler) l : CScheduler :=
  MkScheduler (lastFrame s) (isProcessing s) (onceTasks s) (repeatTasks s) l (workTasks s)
    (finishTasks s) (pathedTasks s) (initTasks s) (releaseTasks s).
Definition set_work (s : CScheduler) l : CScheduler :=
  MkScheduler (lastFrame s) (isProcessing s) (onceTasks s) (repeatTasks s) (removeTasks s) l
    (finishTasks s) (pathedTasks s) (initTasks s) (releaseTasks s).
Definition set_finish (s : CScheduler) f p : CScheduler :=
  MkScheduler (lastFrame s) (isProcessing s) (onceTasks s) (repeatTasks s) (removeTasks s)
    (workTasks s) f p (initTasks s) (releaseTasks s).
Definition set_processing (s : CScheduler) (b : bool) (frame : Z) : CScheduler :=
  MkScheduler frame b (onceTasks s) (repeatTasks s) (removeTasks s) (workTasks s)
    (finishTasks s) (pathedTasks s) (initTasks s) (releaseTasks s).
Definition set_lists (s : CScheduler) i r : CScheduler :=
  MkScheduler (lastFrame s) (isProcessing s) (onceTasks s) (repeatTasks s) (removeTasks s)
    (workTasks s) (finishTasks s) (pathedTasks s) i r.

Definition new_CScheduler : CScheduler := MkScheduler (-1) false [] [] [] [] [] [] [] [].

(** ** The calls *)

Definition RunTaskAt (s : CScheduler) (t : task) (frame : Z) : CScheduler :=
  set_once s (onceTasks s ++ [Once t frame]).
Definition RunTaskAfter (s : CScheduler) (t : task) (frame : Z) : CScheduler :=
  set_once s (onceTasks s ++ [Once t (lastFrame s + frame)]).
Definition push_repeat (s : CScheduler) (t : task) (frameInterval : Z) : CScheduler :=
  set_repeat s (repeatTasks s ++ [Repeat t frameInterval (lastFrame s)]).
Definition RunTaskEvery (s : CScheduler) (t : task) (frameInterval frameOffset : Z) : CScheduler :=
  if frameOffset >? 0 then RunTaskAfter s (Deferred t frameInterval) frameOffset
  else push_repeat s t frameInterval.
Definition RunParallelTask (s : CScheduler) (t : task) (onComplete : option task) : CScheduler :=
  set_work s (Push (workTasks s) (Work t onComplete)).

(** [std::list::remove] of everything equal to [t], in both lists. *)
Definition erase_task (s : CScheduler) (t : task) : CScheduler :=
  let s := set_once s (filter (λ o, o_task o ≠ t) (onceTasks s)) in
  set_repeat s (filter (λ r, r_task r ≠ t) (repeatTasks s)).
Definition RemoveTask (s : CScheduler) (t : task) : CScheduler :=
  if isProcessing s then set_remove s (removeTasks s ++ [t]) else erase_task s t.
Definition RunOnInit (s : CScheduler) (t : task) : CScheduler :=
  set_lists s (initTasks s ++ [t]) (releaseTasks s).
Definition RunOnRelease (s : CScheduler) (t : task) : CScheduler :=
  set_lists s (initTasks s) (releaseTasks s ++ [t]).

(** What a running task may ask of the scheduler. *)
Inductive call : Type :=
| CRunTaskAt (t : task) (frame : Z)
| CRunTaskAfter (t : task) (frame : Z)
| CRunTaskEvery (t : task) (frameInterval frameOffset : Z)
| CRemoveTask (t : task)
| CRunParallelTask (t : task) (onComplete : option task)
| CRunOnRelease (t : task).

Definition do_call (s : CScheduler) (c : call) : CScheduler :=
  match c with
  | CRunTaskAt t f => RunTaskAt s t f
  | CRunTaskAfter t f => RunTaskAfter s t f
  | CRunTaskEvery t i o => RunTaskEvery s t i o
  | CRemoveTask t => RemoveTask s t
  | CRunParallelTask t c => RunParallelTask s t c
  | CRunOnRelease t => RunOnRelease s t
  end.

Section process.
Context {W : Type}.
(** What the tasks of the program do. *)
Context (run : Z → W → W * list call).
(** [query.lock() != nullptr] *)
Context (alive : Z → W → bool).

(** [CGameTask::Run] *)
Definition Run (t : task) (sw : CScheduler * W) : CScheduler * W :=
  let '(s, w) := sw in
  match t with
  | Task id => let '(w, calls) := run id w in (foldl do_call s calls, w)
  | Deferred t frameInterval => (push_repeat s t frameInterval, w)
  end.

(** The loop over [onceTasks]: the iterator as an index; running a task may append. *)
Fixpoint once_loop (fuel : nat) (frame : Z) (i : nat) (sw : CScheduler * W)
    : option (CScheduler * W) :=
  match onceTasks sw.1 !! i with
  | None => Some sw
  | Some o =>
      match fuel with
      | O => None
      | S fuel =>
          if o_frame o <=? frame then
            let '(s, w) := Run (o_task o) sw in
            once_loop fuel frame i (set_once s (delete i (onceTasks s)), w)
          else once_loop fuel frame (S i) sw
      end
  end.

(** The loop over [repeatTasks], which also visits what is appended meanwhile. *)
Fixpoint repeat_loop (fuel : nat) (frame : Z) (i : nat) (sw : CScheduler * W)
    : option (CScheduler * W) :=
  match repeatTasks sw.1 !! i with
  | None => Some sw
  | Some r =>
      match fuel with
      | O => None
      | S fuel =>
          if frame - r_lastFrame r >=? r_interval r then
            let '(s, w) := Run (r_task r) sw in
            repeat_loop fuel frame (S i)
              (set_repeat s (<[i := Repeat (r_task r) (r_interval r) frame]> (repeatTasks s)), w)
          else repeat_loop fuel frame (S i) sw
      end
  end.

(** One finished parallel task, or else all finished path queries. *)
Definition complete_parallel (sw : CScheduler * W) : CScheduler * W :=
  let '(s, w) := sw in
  match finishTasks s with
  | t :: f => Run t (set_finish s f (pathedTasks s), w)
  | [] =>
      let items := pathedTasks s in
      foldl (λ '(s, w) item,
        if alive (p_query item) w then Run (p_onComplete item) (s, w) else (s, w))
        (set_finish s [] [], w) items
  end.

Definition ProcessTasks (fuel : nat) (frame : Z) (s : CScheduler) (w : W) : option (CScheduler * W) :=
  let s := set_processing s true frame in
  sw ← once_loop fuel frame 0 (s, w);
  sw ← repeat_loop fuel frame 0 sw;
  let '(s, w) := complete_parallel sw in
  let s := set_remove (foldl erase_task s (removeTasks s)) [] in
  Some (set_processing s false (lastFrame s), w).

Definition ProcessInit (s : CScheduler) (w : W) : CScheduler * W :=
  foldl (λ sw t, Run t sw) (s, w) (initTasks s).
(** The tasks of [ProcessRelease], which goes on with [Release].  A vector must not grow while it is
    walked: a release task that calls [RunOnRelease] is outside the model. *)
Definition ProcessRelease (s : CScheduler) (w : W) : CScheduler * W :=
  foldl (λ sw t, Run t sw) (s, w) (releaseTasks s).

(** ** Termination with tasks that schedule tasks

    A task is polite in a frame when what it schedules is due later than this frame. *)

Definition polite_call (frame : Z) (c : call) : Prop :=
  match c with
  | CRunTaskAt _ f => frame < f
  | CRunTaskAfter _ k => 0 < k
  | CRunTaskEvery _ i _ => 0 < i
  | _ => True
  end.
Definition polite (frame : Z) : Prop := ∀ id w c, c ∈ (run id w).2 → polite_call frame c.
Fixpoint deferred_ok (t : task) : Prop :=
  match t with Task _ => True | Deferred t i => 0 < i ∧ deferred_ok t end.

(** During processing, the lists only grow at their ends, by entries that are not due. *)
Record grows (frame : Z) (s s' : CScheduler) : Prop := {
  gr_frame : lastFrame s' = lastFrame s;
  gr_proc : isProcessing s' = isProcessing s;
  gr_once : ∃ l, onceTasks s' = onceTasks s ++ l ∧ Forall (λ o, frame < o_frame o) l;
  gr_repeat : ∃ l, repeatTasks s' = repeatTasks s ++ l ∧
                Forall (λ r, r_lastFrame r = frame ∧ 0 < r_interval r) l;
  gr_done : finishTasks s' = finishTasks s ∧ pathedTasks s' = pathedTasks s
}.

Lemma grows_refl frame s : grows frame s s.
Proof. constructor; try done; exists []; by rewrite app_nil_r. Qed.

Lemma grows_trans frame s1 s2 s3 : grows frame s1 s2 → grows frame s2 s3 → grows frame s1 s3.
Proof.
  intros [F1 P1 (l1 & O1 & G1) (k1 & R1 & H1) [D1 E1]] [F2 P2 (l2 & O2 & G2) (k2 & R2 & H2) [D2 E2]].
  constructor; try congruence; [| |by rewrite D2, E2].
  - exists (l1 ++ l2). rewrite O2, O1, app_assoc. split; [done|]. by apply Forall_app.
  - exists (k1 ++ k2). rewrite R2, R1, app_assoc. split; [done|]. by apply Forall_app.
Qed.

Definition in_frame (frame : Z) (s : CScheduler) : Prop :=
  lastFrame s = frame ∧ isProcessing s = true ∧
  Forall (λ o, frame < o_frame o ∨ deferred_ok (o_task o)) (onceTasks s).

Lemma do_call_grows frame s c :
  lastFrame s = frame → isProcessing s = true → polite_call frame c → grows frame s (do_call s c).
Proof.
  intros Hf Hp Hc. destruct c; simpl in *.
  - constructor; try done; simpl; [eexists; split; [done|by repeat constructor]|].
    exists []. by rewrite app_nil_r.
  - constructor; try done; simpl; [eexists; split; [done|constructor; [simpl; lia|done]]|].
    exists []. by rewrite app_nil_r.
  - unfold RunTaskEvery. destruct (Z.gtb_spec frameOffset 0).
    + constructor; try done; simpl; [eexists; split; [done|constructor; [simpl; lia|done]]|].
      exists []. by rewrite app_nil_r.
    + constructor; try done; simpl; [exists []; by rewrite app_nil_r|].
      eexists. split; [done|]. by repeat constructor.
  - unfold RemoveTask. rewrite Hp. constructor; try done; exists []; by rewrite app_nil_r.
  - constructor; try done; exists []; by rewrite app_nil_r.
  - constructor; try done; exists []; by rewrite app_nil_r.
Qed.

Lemma calls_grow frame s cs :
  lastFrame s = frame → isProcessing s = true → (∀ c, c ∈ cs → polite_call frame c) →
  grows frame s (foldl do_call s cs).
Proof.
  revert s. induction cs as [|c cs IH]; intros s Hf Hp Hc; [apply grows_refl|]. simpl.
  assert (grows frame s (do_call s c)) as G by (apply do_call_grows; [done|done|apply Hc; by left]).
  eapply grows_trans; [exact G|]. destruct G. apply IH; [congruence|congruence|].
  intros c' ?. apply Hc. by right.
Qed.

Lemma Run_grows frame t s w :
  polite frame → lastFrame s = frame → isProcessing s = true → deferred_ok t →
  grows frame s (Run t (s, w)).1.
Proof.
  intros Hpol Hf Hp Ht. destruct t as [id|t i]; simpl.
  - destruct (run id w) as [w' cs] eqn:Hr. simpl. apply calls_grow; [done|done|].
    intros c Hc. apply (Hpol id w). by rewrite Hr.
  - constructor; try done; simpl; [exists []; by rewrite app_nil_r|].
    eexists. split; [done|]. repeat constructor; [done|]. apply Ht.
Qed.

#[local] Arguments Run : simpl never.

(** ** The loops return *)

Definition once_due (frame : Z) (o : OnceTask) : Prop := o_frame o <= frame.
Definition repeat_due (frame : Z) (r : RepeatTask) : Prop := r_interval r <= frame - r_lastFrame r.
#[local] Instance once_due_dec frame o : Decision (once_due frame o).
Proof. unfold once_due. apply _. Defined.
#[local] Instance repeat_due_dec frame r : Decision (repeat_due frame r).
Proof. unfold repeat_due. apply _. Defined.

(** The completed work that a frame finds. *)
Definition completions_ok (s : CScheduler) : Prop :=
  Forall deferred_ok (finishTasks s) ∧ Forall (λ p, deferred_ok (p_onComplete p)) (pathedTasks s).

(** Every delayed start waiting in the lists has a positive interval. *)
Definition tasks_ok (frame : Z) (s : CScheduler) : Prop :=
  lastFrame s = frame ∧ isProcessing s = true ∧
  Forall (λ o, frame < o_frame o ∨ deferred_ok (o_task o)) (onceTasks s) ∧
  Forall (λ r, ¬ repeat_due frame r ∨ deferred_ok (r_task r)) (repeatTasks s) ∧
  completions_ok s.

Lemma grows_tasks_ok frame s s' : tasks_ok frame s → grows frame s s' → tasks_ok frame s'.
Proof.
  intros (Hf & Hp & Ho & Hr & Hc) [F P (l & Hl & Gl) (k & Hk & Gk) [D1 D2]].
  split; [congruence|]. split; [congruence|]. unfold completions_ok. rewrite Hl, Hk, D1, D2.
  split; [|split; [|done]]; apply Forall_app; (split; [done|]).
  - eapply Forall_impl; [exact Gl|]. intros ??. by left.
  - eapply Forall_impl; [exact Gk|]. intros r [? ?]. left. unfold repeat_due. lia.
Qed.

Lemma filter_none {A} (P : A → Prop) `{∀ x, Decision (P x)} (l : list A) :
  Forall (λ x, ¬ P x) l → filter P l = [].
Proof. induction 1; [done|]. by rewrite filter_cons_False. Qed.

Lemma once_loop_returns frame n m i s w :
  polite frame → tasks_ok frame s →
  length (filter (once_due frame) (drop i (onceTasks s))) = n →
  length (drop i (onceTasks s)) = m →
  Forall (λ o, ¬ once_due frame o) (take i (onceTasks s)) →
  ∃ fuel s' w', once_loop fuel frame i (s, w) = Some (s', w') ∧ tasks_ok frame s' ∧
    Forall (λ o, ¬ once_due frame o) (onceTasks s').
Proof.
  intros Hpol. revert m i s w. induction n as [n IHn] using lt_wf_ind.
  intros m. induction m as [m IHm] using lt_wf_ind. intros i s w Hok Hn Hm Hpre.
  destruct (onceTasks s !! i) as [o|] eqn:Ho.
  - pose proof (lookup_lt_Some _ _ _ Ho) as Hlt. rewrite (drop_S _ _ _ Ho) in Hn.
    destruct (decide (once_due frame o)) as [Hd|Hd].
    + rewrite filter_cons_True in Hn by done. simpl in Hn.
      destruct (Run (o_task o) (s, w)) as [s1 w1] eqn:Hr.
      assert (grows frame s s1) as G.
      { pose proof Hok as (? & ? & Hoo & _). replace s1 with (Run (o_task o) (s, w)).1 by by rewrite Hr.
        apply Run_grows; [done|done|done|]. rewrite Forall_lookup in Hoo.
        destruct (Hoo _ _ Ho); [unfold once_due in Hd; lia|done]. }
      pose proof (grows_tasks_ok _ _ _ Hok G) as (Hf1 & Hp1 & Ho1 & Hr1 & Hc1).
      destruct (gr_once _ _ _ G) as (l & Hl & Gl).
      assert (delete i (onceTasks s1) = take i (onceTasks s) ++ drop (S i) (onceTasks s) ++ l) as Hdel.
      { rewrite Hl, delete_take_drop, take_app_le, drop_app_le by lia. done. }
      assert (length (take i (onceTasks s)) = i) as Hti by (rewrite length_take; lia).
      edestruct (IHn (n - 1)%nat ltac:(lia) (length (drop i (delete i (onceTasks s1)))) i
        (set_once s1 (delete i (onceTasks s1))) w1)
        as (fuel & s' & w' & Hfl & Hs'); [| |reflexivity| |].
      * split; [done|]. split; [done|]. split; [|done]. simpl. rewrite delete_take_drop.
        apply Forall_app. split; [by apply Forall_take|by apply Forall_drop].
      * simpl. rewrite Hdel, drop_app_length' by done. rewrite filter_app, length_app.
        rewrite (filter_none _ l); [simpl; lia|]. eapply Forall_impl; [exact Gl|].
        unfold once_due. simpl. lia.
      * simpl. by rewrite Hdel, take_app_length' by done.
      * exists (S fuel), s', w'. split; [|done]. simpl. rewrite Ho.
        rewrite (proj2 (Z.leb_le _ _) Hd), Hr. done.
    + rewrite filter_cons_False in Hn by done.
      edestruct (IHm (m - 1)%nat) as (fuel & s' & w' & Hfl & Hs'); [| |exact Hn| | |].
      * rewrite (drop_S _ _ _ Ho) in Hm. simpl in Hm. lia.
      * exact Hok.
      * rewrite (drop_S _ _ _ Ho) in Hm. simpl in Hm. lia.
      * rewrite (take_S_r _ _ _ Ho). apply Forall_app. split; [done|]. by repeat constructor.
      * exists (S fuel), s', w'. split; [|done]. simpl. rewrite Ho.
        rewrite (proj2 (Z.leb_gt _ _)); [exact Hfl|]. unfold once_due in Hd. lia.
  - exists O, s, w. split; [simpl; by rewrite Ho|]. split; [done|].
    apply lookup_ge_None in Ho. by rewrite take_ge in Hpre by lia.
Qed.
Lemma repeat_loop_returns frame n m i s w :
  polite frame → tasks_ok frame s →
  length (filter (repeat_due frame) (drop i (repeatTasks s))) = n →
  length (drop i (repeatTasks s)) = m →
  Forall (λ o, ¬ once_due frame o) (onceTasks s) →
  ∃ fuel s' w', repeat_loop fuel frame i (s, w) = Some (s', w') ∧ tasks_ok frame s' ∧
    Forall (λ o, ¬ once_due frame o) (onceTasks s').
Proof.
  intros Hpol. revert m i s w. induction n as [n IHn] using lt_wf_ind.
  intros m. induction m as [m IHm] using lt_wf_ind. intros i s w Hok Hn Hm Hpre.
  destruct (repeatTasks s !! i) as [r|] eqn:Hi.
  - pose proof (lookup_lt_Some _ _ _ Hi) as Hlt. rewrite (drop_S _ _ _ Hi) in Hn, Hm. simpl in Hm.
    destruct (decide (repeat_due frame r)) as [Hd|Hd].
    + rewrite filter_cons_True in Hn by done. simpl in Hn.
      destruct (Run (r_task r) (s, w)) as [s1 w1] eqn:Hr.
      assert (grows frame s s1) as G.
      { pose proof Hok as (? & ? & _ & Hrr & _). replace s1 with (Run (r_task r) (s, w)).1 by by rewrite Hr.
        apply Run_grows; [done|done|done|]. rewrite Forall_lookup in Hrr. by destruct (Hrr _ _ Hi). }
      pose proof (grows_tasks_ok _ _ _ Hok G) as (Hf1 & Hp1 & Ho1 & Hr1 & Hc1).
      destruct (gr_once _ _ _ G) as (l & Hl & Gl). destruct (gr_repeat _ _ _ G) as (k & Hk & Gk).
      set (r' := Repeat (r_task r) (r_interval r) frame).
      assert (drop (S i) (<[i := r']> (repeatTasks s1)) = drop (S i) (repeatTasks s) ++ k) as Hdrop.
      { rewrite drop_insert_lt by lia. rewrite Hk. apply drop_app_le. lia. }
      edestruct (IHn (n - 1)%nat ltac:(lia) (length (drop (S i) (<[i := r']> (repeatTasks s1)))) (S i)
        (set_repeat s1 (<[i := r']> (repeatTasks s1))) w1) as (fuel & s' & w' & Hfl & Hs');
        [| |reflexivity| |].
      * split; [done|]. split; [done|]. split; [done|]. split; [|done]. simpl. apply Forall_insert; [done|].
        subst r'. simpl. rewrite Forall_lookup in Hr1.
        destruct (Hr1 i r) as [Hnd|]; [by rewrite Hk, lookup_app_l|by destruct Hnd|by right].
      * cbn [repeatTasks set_repeat]. rewrite Hdrop. rewrite filter_app, length_app.
        rewrite (filter_none _ k); [simpl; lia|]. eapply Forall_impl; [exact Gk|].
        intros x [??]. unfold repeat_due. lia.
      * simpl. rewrite Hl. apply Forall_app. split; [done|]. eapply Forall_impl; [exact Gl|].
        unfold once_due. simpl. lia.
      * exists (S fuel), s', w'. split; [|done]. simpl. rewrite Hi.
        rewrite (proj2 (Z.geb_le _ _)) by (unfold repeat_due in Hd; lia). by rewrite Hr.
    + rewrite filter_cons_False in Hn by done.
      edestruct (IHm (m - 1)%nat ltac:(lia) (S i) s w) as (fuel & s' & w' & Hfl & Hs'); [done|done|lia|done|].
      exists (S fuel), s', w'. split; [|done]. simpl. rewrite Hi.
      rewrite Z.geb_leb, (proj2 (Z.leb_gt _ _)); [exact Hfl|]. unfold repeat_due in Hd. lia.
  - exists O, s, w. split; [simpl; by rewrite Hi|]. done.
Qed.

(** More fuel gives the same result. *)
Lemma once_loop_more fuel fuel' frame i sw r :
  (fuel <= fuel')%nat → once_loop fuel frame i sw = Some r → once_loop fuel' frame i sw = Some r.
Proof.
  revert fuel' i sw. induction fuel as [|fuel IH]; intros [|fuel'] i sw Hle; simpl; try lia;
    destruct (_ !! i); try done.
  destruct (_ <=? _); [destruct (Run _ _)|]; apply IH; lia.
Qed.
Lemma repeat_loop_more fuel fuel' frame i sw r :
  (fuel <= fuel')%nat → repeat_loop fuel frame i sw = Some r → repeat_loop fuel' frame i sw = Some r.
Proof.
  revert fuel' i sw. induction fuel as [|fuel IH]; intros [|fuel'] i sw Hle; simpl; try lia;
    destruct (_ !! i); try done.
  destruct (_ >=? _); [destruct (Run _ _)|]; apply IH; lia.
Qed.

Lemma complete_parallel_grows frame s w :
  polite frame → tasks_ok frame s →
  ∃ f p, grows frame (set_finish s f p) (complete_parallel (s, w)).1.
Proof.
  intros Hpol Hok. pose proof Hok as (? & ? & _ & _ & Hfin & Hpath). unfold complete_parallel.
  destruct (finishTasks s) as [|t f].
  - exists [], []. remember (set_finish s [] []) as s0 eqn:Hs0.
    assert (lastFrame s0 = frame ∧ isProcessing s0 = true) as [Hf Hp] by by subst.
    clear Hs0 Hok. revert s0 w Hf Hp.
    induction Hpath as [|p ps Hp1 _ IH]; intros s0 w Hf Hp; simpl; [apply grows_refl|].
    destruct (alive (p_query p) w); [|by apply IH].
    pose proof (Run_grows frame (p_onComplete p) s0 w Hpol Hf Hp Hp1) as G.
    destruct (Run _ _) as [s1 w1]. simpl in *. eapply grows_trans; [exact G|].
    destruct G. apply IH; congruence.
  - exists f, (pathedTasks s). apply Run_grows; [done|done|done|]. by inversion Hfin.
Qed.

(** What the update of the lists at the end of a frame leaves. *)
Lemma erase_all rm s :
  onceTasks (foldl erase_task s rm) = filter (λ o, o_task o ∉ rm) (onceTasks s) ∧
  repeatTasks (foldl erase_task s rm) = filter (λ r, r_task r ∉ rm) (repeatTasks s) ∧
  lastFrame (foldl erase_task s rm) = lastFrame s.
Proof.
  revert s. induction rm as [|t rm IH]; intros s; simpl.
  - rewrite !filter_all; [done| |]; intros; apply not_elem_of_nil.
  - destruct (IH (erase_task s t)) as (-> & -> & ->). simpl.
    rewrite !list_filter_filter. split; [|split; [|done]]; apply list_filter_iff; intros x;
      rewrite not_elem_of_cons; tauto.
Qed.

(** C39: A frame ends.  When every task that runs schedules only for later frames (a RunTaskAt beyond this
    frame, a positive RunTaskAfter or RunTaskEvery interval) and the waiting delayed starts have positive
    intervals, ProcessTasks returns although tasks append to the lists it walks; afterwards no once task
    that was due is left, no removal is pending and removals take effect at once again. *)
Theorem ProcessTasks_returns frame s w :
  polite frame → tasks_ok frame (set_processing s true frame) →
  ∃ fuel s' w', ProcessTasks fuel frame s w = Some (s', w') ∧
    lastFrame s' = frame ∧ isProcessing s' = false ∧ removeTasks s' = [] ∧
    Forall (λ o, frame < o_frame o) (onceTasks s').
Proof.
  intros Hpol Hok.
  destruct (once_loop_returns frame _ _ 0 _ w Hpol Hok eq_refl eq_refl) as (f1 & s1 & w1 & H1 & Hok1 & Hd1);
    [constructor|].
  destruct (repeat_loop_returns frame _ _ 0 _ w1 Hpol Hok1 eq_refl eq_refl Hd1)
    as (f2 & s2 & w2 & H2 & Hok2 & Hd2).
  destruct (complete_parallel_grows frame s2 w2 Hpol Hok2) as (f & p & G).
  unfold ProcessTasks. exists (f1 + f2)%nat.
  rewrite (once_loop_more f1 (f1 + f2)%nat _ _ _ _ ltac:(lia) H1). cbn [mbind option_bind].
  rewrite (repeat_loop_more f2 (f1 + f2)%nat _ _ _ _ ltac:(lia) H2). cbn [mbind option_bind].
  destruct (complete_parallel (s2, w2)) as [s3 w3]. simpl in G. do 2 eexists. split; [done|].
  destruct G as [F _ (l & Hl & Gl) _ _]. destruct Hok2 as (Hf & _). simpl in F, Hl.
  destruct (erase_all (removeTasks s3) s3) as (Ho & _ & Hlf). simpl. rewrite Hlf, Ho, Hl.
  split; [congruence|]. split; [done|]. split; [done|].
  apply Forall_forall. intros o [_ Ho']%list_elem_of_filter.
  apply elem_of_app in Ho' as [Ho'|Ho'].
  - rewrite Forall_forall in Hd2. specialize (Hd2 _ Ho'). unfold once_due in Hd2. simpl in Hd2. lia.
  - rewrite Forall_forall in Gl. auto.
Qed.

End process.

(** ** What a frame does, for tasks that leave the scheduler alone *)

Section quiet.
Context {W : Type}.
Context (act : Z → W → W) (alive : Z → W → bool).
#[local] Arguments Run : simpl never.

Definition quiet_run (id : Z) (w : W) : W * list call := (act id w, []).
Definition effect (t : task) (w : W) : W := match t with Task id => act id w | Deferred _ _ => w end.
Definition plain (t : task) : Prop := match t with Task _ => True | Deferred _ _ => False end.
Definition effects (ts : list task) (w : W) : W := foldl (λ w t, effect t w) w ts.

#[local] Instance once_due_decision frame o : Decision (once_due frame o).
Proof. unfold once_due. apply _. Defined.
#[local] Instance repeat_due_decision frame r : Decision (repeat_due frame r).
Proof. unfold repeat_due. apply _. Defined.

(** The frame as a specification. *)
Definition due_once (frame : Z) (s : CScheduler) : list task :=
  o_task <$> filter (once_due frame) (onceTasks s).
Definition due_repeat (frame : Z) (s : CScheduler) : list task :=
  r_task <$> filter (repeat_due frame) (repeatTasks s).
Definition touch (frame : Z) (r : RepeatTask) : RepeatTask :=
  if decide (repeat_due frame r) then Repeat (r_task r) (r_interval r) frame else r.
Definition frame_spec (frame : Z) (s : CScheduler) (w : W) : CScheduler * W :=
  let w := effects (due_repeat frame s) (effects (due_once frame s) w) in
  (MkScheduler frame false
     (filter (λ o, ¬ once_due frame o) (onceTasks s)) (touch frame <$> repeatTasks s) []
     (workTasks s) (tail (finishTasks s))
     (match finishTasks s with [] => [] | _ => pathedTasks s end) (initTasks s) (releaseTasks s),
   match finishTasks s with
   | t :: _ => effect t w
   | [] => foldl (λ w p, if alive (p_query p) w then effect (p_onComplete p) w else w) w (pathedTasks s)
   end).

Lemma Run_quiet t s w : plain t → Run quiet_run t (s, w) = (s, effect t w).
Proof. by destruct t. Qed.

Lemma once_loop_quiet frame l pre s w :
  onceTasks s = pre ++ l → Forall (λ o, plain (o_task o)) l →
  once_loop quiet_run (length l) frame (length pre) (s, w) =
    Some (set_once s (pre ++ filter (λ o, ¬ once_due frame o) l),
          effects (o_task <$> filter (once_due frame) l) w).
Proof.
  revert pre s w. induction l as [|o l IH]; intros pre s w Hs Hpl; simpl; rewrite Hs.
  - rewrite app_nil_r, (proj2 (lookup_ge_None pre _)) by lia. destruct s; simpl in *. by subst.
  - inversion Hpl as [|? ? Hp Hpl']; subst. rewrite list_lookup_middle by done.
    destruct (Z.leb_spec (o_frame o) frame) as [Hd|Hd].
    + rewrite Run_quiet by done. rewrite Hs, (filter_cons_True (once_due frame)) by done.
      rewrite filter_cons_False by (intros Hn; by apply Hn).
      rewrite delete_middle. by rewrite IH.
    + rewrite (filter_cons_False (once_due frame)) by (unfold once_due; lia).
      rewrite filter_cons_True by (unfold once_due; lia).
      replace (S (length pre)) with (length (pre ++ [o])) by (rewrite length_app; simpl; lia).
      rewrite IH by (rewrite ?Hs, <-?app_assoc; done). by rewrite <-app_assoc.
Qed.

Lemma repeat_loop_quiet frame l pre s w :
  repeatTasks s = pre ++ l → Forall (λ r, plain (r_task r)) l →
  repeat_loop quiet_run (length l) frame (length pre) (s, w) =
    Some (set_repeat s (pre ++ (touch frame <$> l)),
          effects (r_task <$> filter (repeat_due frame) l) w).
Proof.
  revert pre s w. induction l as [|r l IH]; intros pre s w Hs Hpl; simpl; rewrite Hs.
  - rewrite app_nil_r in *. rewrite (proj2 (lookup_ge_None pre _)) by lia. by destruct s; simpl in *; subst.
  - inversion Hpl as [|? ? Hp Hpl']; subst. rewrite list_lookup_middle by done.
    rewrite Z.geb_leb. unfold touch at 1. fold (touch frame).
    assert (∀ x : RepeatTask, S (length pre) = length (pre ++ [x])) as Hlen
      by (intros; rewrite length_app; simpl; lia).
    destruct (Z.leb_spec (r_interval r) (frame - r_lastFrame r)) as [Hd|Hd].
    + rewrite Run_quiet by done. rewrite Hs, (filter_cons_True (repeat_due frame)) by done.
      rewrite decide_True by done. rewrite insert_app_r_alt, Nat.sub_diag by lia. simpl.
      erewrite Hlen, IH by (simpl; rewrite <-?app_assoc; done). by rewrite <-app_assoc.
    + rewrite (filter_cons_False (repeat_due frame)) by (unfold repeat_due; lia).
      rewrite decide_False by (unfold repeat_due; lia).
      erewrite Hlen, IH by (rewrite ?Hs, <-?app_assoc; done). by rewrite <-app_assoc.
Qed.

Lemma completions_quiet ps s w :
  Forall (λ p, plain (p_onComplete p)) ps →
  foldl (λ '(s, w) item, if alive (p_query item) w then Run quiet_run (p_onComplete item) (s, w)
    else (s, w)) (s, w) ps =
  (s, foldl (λ w p, if alive (p_query p) w then effect (p_onComplete p) w else w) w ps).
Proof.
  intros Hp. revert w. induction Hp as [|p ps Hp _ IH]; intros w; simpl; [done|].
  destruct (alive (p_query p) w); [rewrite Run_quiet by done|]; apply IH.
Qed.

(** C38: One frame, exactly.  With tasks that do not call the scheduler, ProcessTasks runs every due once
    task in the order of scheduling and drops it, then every repeat task whose interval has elapsed,
    stamping it with this frame, then the completion of one parallel task, or, when there is none, the
    callbacks of all finished path queries that are still alive; nothing else changes. *)
Theorem ProcessTasks_frame frame s w :
  removeTasks s = [] →
  Forall (λ o, plain (o_task o)) (onceTasks s) → Forall (λ r, plain (r_task r)) (repeatTasks s) →
  Forall plain (finishTasks s) → Forall (λ p, plain (p_onComplete p)) (pathedTasks s) →
  ∃ fuel, ProcessTasks quiet_run alive fuel frame s w = Some (frame_spec frame s w).
Proof.
  intros Hrm Ho Hr Hf Hp. exists (length (onceTasks s) + length (repeatTasks s))%nat. unfold ProcessTasks.
  set (s0 := set_processing s true frame).
  erewrite (once_loop_more _ (length (onceTasks s)));
    [|lia|exact (once_loop_quiet frame (onceTasks s) [] s0 w eq_refl Ho)]. cbn [mbind option_bind].
  erewrite (repeat_loop_more _ (length (repeatTasks s)));
    [|lia|exact (repeat_loop_quiet frame (repeatTasks s) [] (set_once s0 _) _ eq_refl Hr)].
  cbn [mbind option_bind]. unfold complete_parallel, frame_spec. destruct s. simpl in *. subst.
  destruct finishTasks0 as [|t f]; simpl.
  - rewrite completions_quiet by done. done.
  - rewrite Run_quiet by by inversion Hf. done.
Qed.
End quiet.

Definition demo_scheduler : CScheduler :=
  MkScheduler 6 false [Once (Task 1) 7; Once (Task 2) 9; Once (Task 3) 0]
    [Repeat (Task 4) 30 (-23); Repeat (Task 5) 30 0] [] [] [] [Pathed 1 (Task 6); Pathed 2 (Task 7)] [] [].

Lemma ProcessTasks_frame_witness :
  ∃ fuel, ProcessTasks (quiet_run (λ id w, w ++ [id])) (λ q _, q =? 2) fuel 7 demo_scheduler [] =
    Some (MkScheduler 7 false [Once (Task 2) 9] [Repeat (Task 4) 30 7; Repeat (Task 5) 30 0] [] [] [] []
            [] [], [1; 3; 4; 7]).
Proof.
  destruct (ProcessTasks_frame (λ id w, w ++ [id]) (λ q _, q =? 2) 7 demo_scheduler []) as [fuel Hf];
    [reflexivity|repeat constructor..|]. exists fuel. rewrite Hf. vm_compute. reflexivity.
Defined.

(** A task that restarts itself and a repeat task that starts a delayed one. *)
Definition demo_run (id : Z) (w : list Z) : list Z * list call :=
  (w ++ [id], if id =? 1 then [CRunTaskAfter (Task 1) 5] else [CRunTaskEvery (Task 9) 30 3]).

Lemma ProcessTasks_returns_witness :
  ∃ fuel s' w', ProcessTasks demo_run (λ _ _, true) fuel 7 demo_scheduler [] = Some (s', w') ∧
    lastFrame s' = 7 ∧ isProcessing s' = false ∧ removeTasks s' = [] ∧
    Forall (λ o, 7 < o_frame o) (onceTasks s').
Proof.
  apply ProcessTasks_returns.
  - intros id w c. unfold demo_run. simpl. destruct (id =? 1); intros ->%list_elem_of_singleton; simpl; lia.
  - split; [reflexivity|]. split; [reflexivity|].
    split; [repeat constructor; right; simpl; done|].
    split; [repeat constructor; right; simpl; done|]. split; repeat constructor.
Defined.

(** ** Removal *)

Lemma deferred_ne t i : t ≠ Deferred t i.
Proof. induction t; [done|]. intros [= H ->]. by apply IHt. Qed.

(** Outside a frame, RemoveTask takes every once and repeat entry of the task out at once and nothing
    else; but a task that was started with RunTaskEvery and a positive offset is wrapped in a closure of
    its own until the offset has passed, so RemoveTask in that time does not find it: the wrapper stays in
    onceTasks and will still start the task. *)
Theorem RemoveTask_misses_delayed_start s t i off :
  isProcessing s = false → 0 < off →
  let s1 := RunTaskEvery s t i off in
  let s2 := RemoveTask s1 t in
  (∀ o, o ∈ onceTasks s2 ↔ o ∈ onceTasks s1 ∧ o_task o ≠ t) ∧
  (∀ r, r ∈ repeatTasks s2 ↔ r ∈ repeatTasks s1 ∧ r_task r ≠ t) ∧
  Once (Deferred t i) (lastFrame s + off) ∈ onceTasks s2 ∧
  ∀ W (run : Z → W → W * list call) w, ∃ s3,
    Run run (Deferred t i) (s2, w) = (s3, w) ∧ Repeat t i (lastFrame s) ∈ repeatTasks s3.
Proof.
  intros Hp Hoff s1 s2. pose proof (deferred_ne t i) as Hne. subst s1 s2. unfold RunTaskEvery.
  rewrite (proj2 (Z.gtb_lt off 0)) by lia. unfold RemoveTask. simpl. rewrite Hp. simpl.
  split; [|split; [|split]].
  - intros o. rewrite list_elem_of_filter. tauto.
  - intros r. rewrite list_elem_of_filter. tauto.
  - rewrite filter_app, elem_of_app. right. rewrite list_elem_of_filter. split; [simpl; congruence|by left].
  - intros W run w. eexists. split; [done|]. simpl. apply elem_of_app. right. by left.
Qed.

Lemma RemoveTask_misses_delayed_start_witness :
  Once (Deferred (Task 3) 30) (-1 + 10) ∈
    onceTasks (RemoveTask (RunTaskEvery new_CScheduler (Task 3) 30 10) (Task 3)).
Proof.
  destruct (RemoveTask_misses_delayed_start new_CScheduler (Task 3) 30 10) as (_ & _ & H & _);
    [reflexivity|lia|exact H].
Defined.
