(* ===== verification/SchedulerThreads.v ===== *)
(** * SchedulerThreads: shutdown of a scheduler against its worker threads

    Models the concurrent half of [src/src/circuit/util/Scheduler.h/.cpp]: the static queues, the one
    worker thread ([WorkerThread]) and the path threads ([PatherThread]) shared by all schedulers, and
    the main thread that starts them ([StartThreads]), gives them work and shuts a scheduler down
    ([Release]).  One step is one operation under a mutex, one access of an atomic, or the execution of
    a task with the push of its completion; steps of different threads interleave freely. *)

From stdpp Require Import functions relations.
From S2P Require Import Prelude MultiQueue.

Open Scope circuit_scope.

(** ** State *)

Inductive kind : Type := KWork | KPath.

(** A [WorkTask] or [PathTask]: the scheduler it belongs to, the function (null in the items that only
    wake a thread) and the completion. *)
Record item : Type := Item { it_owner : Z; it_task : option Z; it_onComplete : option Z }.

(** What the threads see of a scheduler; [s_alive]: its weak pointers can be locked, [s_released]:
    [Release] has returned. *)
Record sched : Type := Sched {
  s_alive : bool;
  s_released : bool;
  isRunning : bool;
  isWorkProcess : bool;
  numPathProcess : Z;
  finishQ : list Z;
  pathedQ : list Z
}.
Definition unborn : sched := Sched false false false false 0 [] [].
Definition newborn : sched := Sched true false true false 0 [] [].

Record shared : Type := Shared {
  scheds : Z → sched;
  workQ : list item;
  pathQ : list item;
  workerRunning : bool;
  counterInstance : Z
}.

(** Where a thread is in its loop. *)
Inductive pc : Type :=
| AtCheck                  (** [while (workerRunning.load())] *)
| AtPop                    (** waiting in [Pop] *)
| Popped (it : item)
| Marked (it : item)       (** counted in [isWorkProcess] or [numPathProcess] *)
| Executing (it : item)
| Leaving (it : item)
| Exited.
#[export] Instance item_eq_dec : EqDecision item.
Proof. solve_decision. Defined.
#[export] Instance pc_eq_dec : EqDecision pc.
Proof. solve_decision. Defined.

Definition queue (k : kind) (sh : shared) : list item :=
  match k with KWork => workQ sh | KPath => pathQ sh end.
Definition set_queue (k : kind) (sh : shared) (q : list item) : shared :=
  match k with
  | KWork => Shared (scheds sh) q (pathQ sh) (workerRunning sh) (counterInstance sh)
  | KPath => Shared (scheds sh) (workQ sh) q (workerRunning sh) (counterInstance sh)
  end.
Definition upd (sh : shared) (id : Z) (f : sched → sched) : shared :=
  Shared (<[id := f (scheds sh id)]> (scheds sh)) (workQ sh) (pathQ sh) (workerRunning sh)
    (counterInstance sh).
Definition set_running (sh : shared) (b : bool) : shared :=
  Shared (scheds sh) (workQ sh) (pathQ sh) b (counterInstance sh).
Definition add_counter (sh : shared) (d : Z) : shared :=
  Shared (scheds sh) (workQ sh) (pathQ sh) (workerRunning sh) (u32 (counterInstance sh + d)).

Definition set_flags (s : sched) (work : bool) (path : Z) : sched :=
  Sched (s_alive s) (s_released s) (isRunning s) work path (finishQ s) (pathedQ s).
Definition set_done (s : sched) (f p : list Z) : sched :=
  Sched (s_alive s) (s_released s) (isRunning s) (isWorkProcess s) (numPathProcess s) f p.
Definition set_life (s : sched) (alive released running : bool) : sched :=
  Sched alive released running (isWorkProcess s) (numPathProcess s) (finishQ s) (pathedQ s).

(** [barrier.NotifyOne] before and after the work, and the push of a completion. *)
Definition mark (k : kind) (s : sched) : sched :=
  match k with
  | KWork => set_flags s true (numPathProcess s)
  | KPath => set_flags s (isWorkProcess s) (numPathProcess s + 1)
  end.
Definition unmark (k : kind) (s : sched) : sched :=
  match k with
  | KWork => set_flags s false (numPathProcess s)
  | KPath => set_flags s (isWorkProcess s) (numPathProcess s - 1)
  end.
Definition push_done (k : kind) (c : option Z) (s : sched) : sched :=
  match c, k with
  | None, _ => s
  | Some c, KWork => set_done s (Push (finishQ s) c) (pathedQ s)
  | Some c, KPath => set_done s (finishQ s) (Push (pathedQ s) c)
  end.

(** ** The threads *)

(** A path item without a query (the wake-up item, or an expired one) is dropped before the scheduler
    is looked at. *)
Inductive tstep (k : kind) : shared → pc → shared → pc → Prop :=
| T_go sh : workerRunning sh = true → tstep k sh AtCheck sh AtPop
| T_exit sh : workerRunning sh = false → tstep k sh AtCheck sh Exited
| T_pop sh it q : Pop (queue k sh) = Some (it, q) → tstep k sh AtPop (set_queue k sh q) (Popped it)
| T_no_query sh it : k = KPath → tstep k sh (Popped it) sh AtCheck
| T_expired sh it : s_alive (scheds sh (it_owner it)) = false → tstep k sh (Popped it) sh AtCheck
| T_mark sh it :
    s_alive (scheds sh (it_owner it)) = true → (k = KPath → it_task it ≠ None) →
    tstep k sh (Popped it) (upd sh (it_owner it) (mark k)) (Marked it)
| T_run sh it : isRunning (scheds sh (it_owner it)) = true → tstep k sh (Marked it) sh (Executing it)
| T_skip sh it : isRunning (scheds sh (it_owner it)) = false → tstep k sh (Marked it) sh (Leaving it)
| T_done sh it :
    tstep k sh (Executing it) (upd sh (it_owner it) (push_done k (it_onComplete it))) (Leaving it)
| T_leave sh it : tstep k sh (Leaving it) (upd sh (it_owner it) (unmark k)) AtCheck.

(** ** The main thread *)

(** The points of [Release]. *)
Inductive phase : Type :=
| RemoveWork | RemovePath | CheckLast
| PushWork | JoinWorker | ClearWork | PushPath (n : nat) | JoinPath
| Wait | ClearFinish | ClearPathed.
Inductive main_pc : Type := MFree | MRelease (id : Z) (ph : phase).

Record state : Type := State { sh : shared; worker : pc; pathers : list pc; main : main_pc }.

Definition mine (id : Z) (it : item) : bool := it_owner it =? id.
Definition wake (id : Z) : item := Item id None None.

Section protocol.
Context (maxPathThreads : nat).

Inductive mstep : state → state → Prop :=
| M_create s w p id :
    scheds s id = unborn →
    mstep (State s w p MFree) (State (add_counter (upd s id (λ _, newborn)) 1) w p MFree)
| M_start s w p :
    workerRunning s = false →
    mstep (State s w p MFree)
      (State (set_running s true) AtCheck (p ++ replicate maxPathThreads AtCheck) MFree)
| M_work s w p id t c :
    workerRunning s = true → s_alive (scheds s id) = true →
    mstep (State s w p MFree) (State (set_queue KWork s (Push (workQ s) (Item id (Some t) c))) w p MFree)
| M_path s w p id t c :
    workerRunning s = true → s_alive (scheds s id) = true →
    mstep (State s w p MFree) (State (set_queue KPath s (Push (pathQ s) (Item id (Some t) c))) w p MFree)
| M_process_finish s w p id c q :
    isRunning (scheds s id) = true → Pop (finishQ (scheds s id)) = Some (c, q) →
    mstep (State s w p MFree) (State (upd s id (λ x, set_done x q (pathedQ x))) w p MFree)
| M_process_pathed s w p id :
    isRunning (scheds s id) = true →
    mstep (State s w p MFree) (State (upd s id (λ x, set_done x (finishQ x) [])) w p MFree)
| M_destroy s w p id :
    s_released (scheds s id) = true →
    isWorkProcess (scheds s id) = false → numPathProcess (scheds s id) = 0 →
    mstep (State s w p MFree) (State (upd s id (λ x, set_life x false true (isRunning x))) w p MFree)
| M_release s w p id :
    s_alive (scheds s id) = true → isRunning (scheds s id) = true →
    mstep (State s w p MFree)
      (State (add_counter (upd s id (λ x, set_life x true false false)) (-1)) w p (MRelease id RemoveWork))
| M_remove_work s w p id q :
    RemoveAllIf (mine id) (workQ s) = Some q →
    mstep (State s w p (MRelease id RemoveWork)) (State (set_queue KWork s q) w p (MRelease id RemovePath))
| M_remove_path s w p id q :
    RemoveAllIf (mine id) (pathQ s) = Some q →
    mstep (State s w p (MRelease id RemovePath)) (State (set_queue KPath s q) w p (MRelease id CheckLast))
| M_last s w p id :
    counterInstance s = 0 → workerRunning s = true →
    mstep (State s w p (MRelease id CheckLast)) (State (set_running s false) w p (MRelease id PushWork))
| M_not_last s w p id :
    (counterInstance s ≠ 0 ∨ workerRunning s = false) →
    mstep (State s w p (MRelease id CheckLast)) (State s w p (MRelease id Wait))
| M_push_work s w p id :
    mstep (State s w p (MRelease id PushWork))
      (State (set_queue KWork s (Push (workQ s) (wake id))) w p (MRelease id JoinWorker))
| M_join_worker s p id :
    mstep (State s Exited p (MRelease id JoinWorker)) (State s Exited p (MRelease id ClearWork))
| M_clear_work s w p id :
    mstep (State s w p (MRelease id ClearWork))
      (State (set_queue KWork s (Clear (workQ s))) w p (MRelease id (PushPath (length p))))
| M_push_path s w p id n :
    mstep (State s w p (MRelease id (PushPath (S n))))
      (State (set_queue KPath s (Push (pathQ s) (wake id))) w p (MRelease id (PushPath n)))
| M_pushed_path s w p id :
    mstep (State s w p (MRelease id (PushPath 0))) (State s w p (MRelease id JoinPath))
| M_join_path s w p id :
    Forall (eq Exited) p →
    mstep (State s w p (MRelease id JoinPath))
      (State (set_queue KPath s (Clear (pathQ s))) w [] (MRelease id Wait))
| M_wait s w p id :
    isWorkProcess (scheds s id) = false → numPathProcess (scheds s id) = 0 →
    mstep (State s w p (MRelease id Wait)) (State s w p (MRelease id ClearFinish))
| M_clear_finish s w p id :
    mstep (State s w p (MRelease id ClearFinish))
      (State (upd s id (λ x, set_done x (Clear (finishQ x)) (pathedQ x))) w p (MRelease id ClearPathed))
| M_clear_pathed s w p id :
    mstep (State s w p (MRelease id ClearPathed))
      (State (upd s id (λ x, set_life (set_done x (finishQ x) (Clear (pathedQ x))) true true (isRunning x)))
         w p MFree).

Inductive step : state → state → Prop :=
| S_main st st' : mstep st st' → step st st'
| S_worker s w p m s' w' : tstep KWork s w s' w' → step (State s w p m) (State s' w' p m)
| S_pather s w p m s' i c c' :
    p !! i = Some c → tstep KPath s c s' c' → step (State s w p m) (State s' w (<[i := c']> p) m).

(** Before the first scheduler. *)
Definition init : state := State (Shared (λ _, unborn) [] [] false 0) Exited [] MFree.
Definition reachable (st : state) : Prop := rtc step init st.

(** ** Invariant *)

Definition busy (id : Z) (c : pc) : Z :=
  match c with
  | Marked it | Executing it | Leaving it => if decide (it_owner it = id) then 1 else 0
  | _ => 0
  end.
Definition executes (id : Z) (c : pc) : Prop := match c with Executing it => it_owner it = id | _ => False end.
Definition holds (c : pc) : option item :=
  match c with Popped it | Marked it | Executing it | Leaving it => Some it | _ => None end.
Definition at_pop (c : pc) : Z := match c with AtPop => 1 | _ => 0 end.

(** [Release] of [id] is past its wait. *)
Definition past_wait (st : state) (id : Z) : Prop :=
  s_released (scheds (sh st) id) = true ∨ main st = MRelease id ClearFinish ∨
  main st = MRelease id ClearPathed.

(** What any step of a thread does to what the others see. *)
Definition flag (k : kind) (s : sched) : Z :=
  match k with KWork => if isWorkProcess s then 1 else 0 | KPath => numPathProcess s end.
Definition other (k : kind) : kind := match k with KWork => KPath | KPath => KWork end.
Definition life (s : sched) : bool * bool * bool := (s_alive s, s_released s, isRunning s).

Record tfacts (k : kind) (s : shared) (c : pc) (s' : shared) (c' : pc) : Prop := {
  tf_life : ∀ id, life (scheds s' id) = life (scheds s id);
  tf_other : ∀ id, flag (other k) (scheds s' id) = flag (other k) (scheds s id);
  tf_flag : ∀ id, (k = KWork → flag k (scheds s id) = busy id c) →
    flag k (scheds s' id) = flag k (scheds s id) + busy id c' - busy id c;
  tf_done : ∀ id, ¬ executes id c → finishQ (scheds s' id) = finishQ (scheds s id) ∧
    pathedQ (scheds s' id) = pathedQ (scheds s id);
  tf_exec : ∀ id, executes id c' → isRunning (scheds s id) = true;
  tf_busy : ∀ id, busy id c' ≠ 0 → busy id c ≠ 0 ∨ s_alive (scheds s id) = true;
  tf_queue : queue (other k) s' = queue (other k) s ∧ (∀ it, it ∈ queue k s' → it ∈ queue k s);
  tf_hold : ∀ it, holds c' = Some it → holds c = Some it ∨ c = AtPop ∧ it ∈ queue k s;
  tf_static : workerRunning s' = workerRunning s ∧ counterInstance s' = counterInstance s;
  tf_pop : workerRunning s = false →
    at_pop c' + zlen (queue k s) <= at_pop c + zlen (queue k s') ∧ at_pop c' <= at_pop c
}.

Lemma fn_upd (f : Z → sched) i j x : (<[i := x]> f) j = if decide (i = j) then x else f j.
Proof.
  unfold insert, fn_insert. by repeat case_decide.
Qed.

Lemma tstep_facts k s c s' c' : tstep k s c s' c' → tfacts k s c s' c'.
Proof.
  destruct 1 as [sh H|sh H|sh it q H|sh it H|sh it H|sh it H H'|sh it H|sh it H|sh it|sh it].
  3: { assert (queue k sh = it :: q) as Hq by (by destruct (queue k sh); simpl in H; simplify_eq).
    constructor; destruct k; simpl in *; intros; rewrite ?Hq; unfold zlen; simpl; try done; try lia.
    all: try (split; [done|]; intros; by right).
    all: right; split; [done|]; simplify_eq; by left. }
  all: constructor; intros; simpl in *; unfold upd; simpl; rewrite ?fn_upd; try done; try lia; try auto.
  all: repeat case_decide; subst; try done; try lia; try auto.
  all: destruct k; simpl in *; try done; try lia; try congruence; try auto.
  all: try (destruct (it_onComplete it); simpl; done || lia).
  all: repeat match goal with H : KWork = KWork → _ |- _ => specialize (H eq_refl) end; try lia.
  all: destruct (it_onComplete it); simpl; lia.
Qed.

(** A scheduler whose release has begun. *)
Definition ended (x : sched) : Prop := isRunning x = false ∧ (s_alive x = true ∨ s_released x = true).

(** Which threads exist at each point of the main thread, and that a thread waiting in [Pop] while
    it is joined has an item to wake it. *)
Definition static_ok (st : state) : Prop :=
  match main st with
  | MFree | MRelease _ (RemoveWork | RemovePath | CheckLast | Wait | ClearFinish | ClearPathed) =>
      workerRunning (sh st) = false → worker st = Exited ∧ pathers st = []
  | MRelease _ (PushWork | JoinWorker) => workerRunning (sh st) = false
  | MRelease _ (ClearWork | PushPath _ | JoinPath) => workerRunning (sh st) = false ∧ worker st = Exited
  end.
Definition join_ok (st : state) : Prop :=
  match main st with
  | MRelease _ JoinWorker => at_pop (worker st) <= zlen (workQ (sh st))
  | MRelease _ (PushPath n) => lsum at_pop (pathers st) <= zlen (pathQ (sh st)) + Z.of_nat n
  | MRelease _ JoinPath => lsum at_pop (pathers st) <= zlen (pathQ (sh st))
  | _ => True
  end.

(** The invariant of the protocol. *)
Definition threads (st : state) : list pc := worker st :: pathers st.
Record Inv (st : state) : Prop := {
  i_work : ∀ id, flag KWork (scheds (sh st) id) = busy id (worker st);
  i_path : ∀ id, flag KPath (scheds (sh st) id) = lsum (busy id) (pathers st);
  i_unborn : ∀ id, s_alive (scheds (sh st) id) = false → s_released (scheds (sh st) id) = false →
    scheds (sh st) id = unborn;
  i_release : ∀ id ph, main st = MRelease id ph →
    isRunning (scheds (sh st) id) = false ∧ s_alive (scheds (sh st) id) = true;
  i_stopped : ∀ id, s_released (scheds (sh st) id) = true → isRunning (scheds (sh st) id) = false;
  i_past : ∀ id, past_wait st id → Forall (λ c, ¬ executes id c) (threads st);
  i_finish : ∀ id, s_released (scheds (sh st) id) = true ∨ main st = MRelease id ClearPathed →
    finishQ (scheds (sh st) id) = [];
  i_pathed : ∀ id, s_released (scheds (sh st) id) = true → pathedQ (scheds (sh st) id) = [];
  i_wake : ∀ it, it ∈ workQ (sh st) ∨ holds (worker st) = Some it → it_task it = None →
    ended (scheds (sh st) (it_owner it));
  i_wake_run : ∀ it, Executing it ∈ threads st → it_task it ≠ None;
  i_path_task : ∀ it, Marked it ∈ pathers st → it_task it ≠ None;
  i_static : static_ok st;
  i_join : join_ok st
}.

Lemma init_Inv : Inv init.
Proof.
  constructor; simpl; try done.
  - intros id [H|[H|H]]; discriminate H.
  - intros it [Hc|Hc]; [by apply not_elem_of_nil in Hc|done].
  - intros it Hc. by apply list_elem_of_singleton in Hc.
  - intros it Hc. by apply not_elem_of_nil in Hc.
Qed.

(** The part of a thread step that both kinds of thread share. *)
Lemma tstep_task k s c s' c' :
  tstep k s c s' c' → ∀ it,
  (c' = Executing it → c = Marked it ∧ isRunning (scheds s (it_owner it)) = true) ∧
  (c' = Marked it → k = KPath → it_task it ≠ None).
Proof. destruct 1; intros it'; split; intros; simplify_eq; auto. Qed.

Lemma life_proj s s' id :
  life (scheds s' id) = life (scheds s id) →
  s_alive (scheds s' id) = s_alive (scheds s id) ∧ s_released (scheds s' id) = s_released (scheds s id) ∧
  isRunning (scheds s' id) = isRunning (scheds s id).
Proof. unfold life. by intros [= -> -> ->]. Qed.

Lemma busy_executes id c : executes id c → busy id c = 1.
Proof. destruct c; simpl; try done. intros ->. by rewrite decide_True. Qed.

Lemma busy_range id c : 0 <= busy id c <= 1.
Proof. destruct c; simpl; repeat case_decide; lia. Qed.

Lemma lsum_nonneg_le {A} (f : A → Z) l x :
  (∀ y, 0 <= f y) → x ∈ l → f x <= lsum f l.
Proof.
  intros Hf. induction l as [|y l IH]; intros Hx; [by apply not_elem_of_nil in Hx|]. simpl.
  assert (0 <= lsum f l) by (clear -Hf; induction l as [|z l IH]; simpl; [done|pose proof (Hf z); lia]).
  apply elem_of_cons in Hx as [->|Hx]; [lia|]. pose proof (Hf y). specialize (IH Hx). lia.
Qed.

Lemma lsum_insert {A} (f : A → Z) l i x y :
  l !! i = Some x → lsum f (<[i := y]> l) = lsum f l - f x + f y.
Proof.
  revert i. induction l as [|z l IH]; intros [|i] Hi; simpl in *; [done|done| |].
  - injection Hi as ->. lia.
  - rewrite (IH i Hi). lia.
Qed.

Lemma sched_eq s s' :
  life s' = life s → flag KWork s' = flag KWork s → flag KPath s' = flag KPath s →
  finishQ s' = finishQ s → pathedQ s' = pathedQ s → s' = s.
Proof.
  destruct s, s'. unfold life. simpl. intros [= -> -> ->] Hw -> -> ->.
  f_equal. by destruct isWorkProcess0, isWorkProcess1.
Qed.

Lemma tfacts_unborn k s c s' c' id :
  tfacts k s c s' c' → scheds s id = unborn →
  flag k (scheds s id) <> 0 ∨ busy id c = 0 → (k = KWork → flag k (scheds s id) = busy id c) →
  scheds s' id = unborn.
Proof.
  intros F Hu Hb Hk. assert (flag k (scheds s id) = 0) as H0 by (rewrite Hu; by destruct k).
  destruct Hb as [|Hb]; [done|].
  assert (busy id c' = 0) as Hb'.
  { destruct (decide (busy id c' = 0)) as [|Hn]; [done|]. apply (tf_busy _ _ _ _ _ F) in Hn as [|Ha]; [done|].
    by rewrite Hu in Ha. }
  pose proof (tf_flag _ _ _ _ _ F id Hk) as Hf. pose proof (tf_other _ _ _ _ _ F id) as Ho.
  destruct (tf_done _ _ _ _ _ F id) as [Hfin Hpath].
  { intros He%busy_executes. lia. }
  rewrite <-Hu. apply sched_eq; [apply F| | |done|done]; destruct k; simpl in *; lia.
Qed.

(** A thread's step, whichever thread it is. *)
Section thread_step.
Context (k : kind) (st : state) (s' : shared) (c c' : pc) (ts : list pc).
Hypothesis (HI : Inv st) (F : tfacts k (sh st) c s' c').
Hypothesis (Hc : c ∈ threads st).
Hypothesis (Hk : ∀ id, k = KWork → flag k (scheds (sh st) id) = busy id c).
Hypothesis (Hbusy : ∀ id, flag k (scheds (sh st) id) = 0 → busy id c = 0).

Lemma thread_unborn id :
  s_alive (scheds s' id) = false → s_released (scheds s' id) = false → scheds s' id = unborn.
Proof.
  destruct (life_proj _ _ _ (tf_life _ _ _ _ _ F id)) as (-> & -> & _). intros Ha Hr.
  pose proof (i_unborn _ HI id Ha Hr) as Hu. eapply tfacts_unborn; [exact F|done| |apply Hk].
  right. apply Hbusy. rewrite Hu. by destruct k.
Qed.

Lemma thread_release id ph :
  main st = MRelease id ph → isRunning (scheds s' id) = false ∧ s_alive (scheds s' id) = true.
Proof.
  destruct (life_proj _ _ _ (tf_life _ _ _ _ _ F id)) as (-> & _ & ->). apply (i_release _ HI).
Qed.

Lemma thread_stopped id : s_released (scheds s' id) = true → isRunning (scheds s' id) = false.
Proof.
  destruct (life_proj _ _ _ (tf_life _ _ _ _ _ F id)) as (_ & -> & ->). apply (i_stopped _ HI).
Qed.

Lemma past_stopped id : past_wait st id → isRunning (scheds (sh st) id) = false.
Proof.
  intros [|[Hm|Hm]]; [by apply (i_stopped _ HI)| |]; by apply (i_release _ HI) in Hm as [? _].
Qed.

Lemma thread_past w p id :
  past_wait (State s' w p (main st)) id → past_wait st id ∧ ¬ executes id c ∧ ¬ executes id c'.
Proof.
  unfold past_wait at 1. simpl. destruct (life_proj _ _ _ (tf_life _ _ _ _ _ F id)) as (_ & -> & _).
  intros Hp. assert (past_wait st id) as Hp' by done. split; [done|]. split.
  - pose proof (i_past _ HI id Hp') as Hall. rewrite Forall_forall in Hall. by apply Hall.
  - intros He%(tf_exec _ _ _ _ _ F). rewrite (past_stopped id Hp') in He. done.
Qed.

Lemma thread_queues id :
  past_wait st id → finishQ (scheds s' id) = finishQ (scheds (sh st) id) ∧
    pathedQ (scheds s' id) = pathedQ (scheds (sh st) id).
Proof.
  intros Hp. apply (tf_done _ _ _ _ _ F). pose proof (i_past _ HI id Hp) as Hall.
  rewrite Forall_forall in Hall. by apply Hall.
Qed.

Lemma thread_finish id :
  s_released (scheds s' id) = true ∨ main st = MRelease id ClearPathed → finishQ (scheds s' id) = [].
Proof.
  destruct (life_proj _ _ _ (tf_life _ _ _ _ _ F id)) as (_ & -> & _). intros Hp.
  destruct (thread_queues id) as [-> _]; [destruct Hp; [by left|by right; right]|]. by apply (i_finish _ HI).
Qed.

Lemma thread_pathed id : s_released (scheds s' id) = true → pathedQ (scheds s' id) = [].
Proof.
  destruct (life_proj _ _ _ (tf_life _ _ _ _ _ F id)) as (_ & -> & _). intros Hp.
  destruct (thread_queues id) as [_ ->]; [by left|]. by apply (i_pathed _ HI).
Qed.
End thread_step.

Lemma worker_Inv s w p m s' w' :
  Inv (State s w p m) → tstep KWork s w s' w' → Inv (State s' w' p m).
Proof.
  intros HI HT. pose proof (tstep_facts _ _ _ _ _ HT) as F.
  assert (w ∈ threads (State s w p m)) as Hc by (by left).
  assert (∀ id, KWork = KWork → flag KWork (scheds s id) = busy id w) as Hk
    by (intros id _; apply (i_work _ HI)).
  constructor; simpl.
  - intros id. pose proof (tf_flag _ _ _ _ _ F id (Hk id)) as Hf. pose proof (Hk id eq_refl). simpl in *. lia.
  - intros id. pose proof (tf_other _ _ _ _ _ F id) as Ho. pose proof (i_path _ HI id). simpl in *. congruence.
  - apply (thread_unborn _ _ _ _ _ HI F Hk). intros id H0. simpl in *. rewrite <-Hk by done. done.
  - apply (thread_release _ _ _ _ _ HI F).
  - apply (thread_stopped _ _ _ _ _ HI F).
  - intros id Hp. apply (thread_past _ _ _ _ _ HI F Hc) in Hp as (Hp & _ & He).
    constructor; [done|]. pose proof (i_past _ HI id Hp) as Hall. by inversion Hall.
  - apply (thread_finish _ _ _ _ _ HI F Hc).
  - apply (thread_pathed _ _ _ _ _ HI F Hc).
  - intros it Hit Ht. unfold ended.
    destruct (life_proj _ _ _ (tf_life _ _ _ _ _ F (it_owner it))) as (-> & -> & ->).
    apply (i_wake _ HI); [|done]. destruct Hit as [Hq|Hh].
    + left. by apply (tf_queue _ _ _ _ _ F).
    + apply (tf_hold _ _ _ _ _ F) in Hh as [|[_ ?]]; [by right|by left].
  - intros it [He|Hit]%elem_of_cons; [|apply (i_wake_run _ HI); by right].
    destruct (proj1 (tstep_task _ _ _ _ _ HT it) (eq_sym He)) as [-> Hrun]. intros Ht.
    pose proof (i_wake _ HI it (or_intror eq_refl) Ht) as [Hw _]. simpl in Hw. congruence.
  - apply (i_path_task _ HI).
  - pose proof (i_static _ HI) as Hst. unfold static_ok in Hst |- *. simpl in Hst |- *. destruct (tf_static _ _ _ _ _ F) as [-> _].
    assert (w = Exited → w' = Exited) as Hex by (intros ->; inversion HT).
    destruct m as [|id []]; tauto.
  - pose proof (i_join _ HI) as Hj. pose proof (i_static _ HI) as Hst. unfold join_ok, static_ok in *. simpl in Hj, Hst |- *.
    destruct (tf_queue _ _ _ _ _ F) as [Hq _]. simpl in Hq. destruct m as [|id []]; rewrite ?Hq; try done.
    destruct (tf_pop _ _ _ _ _ F Hst). simpl in *. lia.
Qed.

Lemma pather_Inv s w p m s' i c c' :
  Inv (State s w p m) → p !! i = Some c → tstep KPath s c s' c' → Inv (State s' w (<[i := c']> p) m).
Proof.
  intros HI Hi HT. pose proof (tstep_facts _ _ _ _ _ HT) as F.
  assert (c ∈ p) as Hcp by (by eapply list_elem_of_lookup_2).
  assert (c ∈ threads (State s w p m)) as Hc by (by right).
  assert (∀ id, KPath = KWork → flag KPath (scheds s id) = busy id c) as Hk by done.
  assert (∀ x, x ∈ <[i := c']> p → x = c' ∨ x ∈ p) as Hin.
  { intros x [j Hj]%list_elem_of_lookup. destruct (decide (i = j)) as [->|].
    - rewrite list_lookup_insert_eq in Hj by (by eapply lookup_lt_Some). left. congruence.
    - rewrite list_lookup_insert_ne in Hj by done. right. by eapply list_elem_of_lookup_2. }
  constructor; simpl.
  - intros id. pose proof (tf_other _ _ _ _ _ F id) as Ho. pose proof (i_work _ HI id). simpl in *. congruence.
  - intros id. pose proof (tf_flag _ _ _ _ _ F id (Hk id)) as Hf. rewrite (lsum_insert _ _ _ _ _ Hi).
    pose proof (i_path _ HI id) as Hp. simpl in *. lia.
  - apply (thread_unborn _ _ _ _ _ HI F Hk). intros id H0. pose proof (i_path _ HI id) as Hp. simpl in *.
    pose proof (lsum_nonneg_le (busy id) p c (λ y, proj1 (busy_range id y)) Hcp). pose proof (busy_range id c). lia.
  - apply (thread_release _ _ _ _ _ HI F).
  - apply (thread_stopped _ _ _ _ _ HI F).
  - intros id Hp. apply (thread_past _ _ _ _ _ HI F Hc) in Hp as (Hp & _ & He).
    pose proof (i_past _ HI id Hp) as Hall. inversion Hall; subst. constructor; [done|].
    by apply Forall_insert.
  - apply (thread_finish _ _ _ _ _ HI F Hc).
  - apply (thread_pathed _ _ _ _ _ HI F Hc).
  - intros it Hit Ht. unfold ended.
    destruct (life_proj _ _ _ (tf_life _ _ _ _ _ F (it_owner it))) as (-> & -> & ->).
    destruct (tf_queue _ _ _ _ _ F) as [Hq _]. simpl in Hq. rewrite Hq in Hit. by apply (i_wake _ HI).
  - intros it [He|Hit]%elem_of_cons; [apply (i_wake_run _ HI); rewrite He; by left|].
    apply Hin in Hit as [He|Hit]; [|apply (i_wake_run _ HI); by right].
    destruct (proj1 (tstep_task _ _ _ _ _ HT it) (eq_sym He)) as [-> _]. by apply (i_path_task _ HI).
  - intros it Hit. apply Hin in Hit as [He|Hit]; [|by apply (i_path_task _ HI)].
    by apply (proj2 (tstep_task _ _ _ _ _ HT it) (eq_sym He)).
  - pose proof (i_static _ HI) as Hst. unfold static_ok in Hst |- *. simpl in Hst |- *. destruct (tf_static _ _ _ _ _ F) as [-> _].
    assert (p ≠ []) by (intros ->; done). destruct m as [|id []]; tauto.
  - pose proof (i_join _ HI) as Hj. pose proof (i_static _ HI) as Hst. unfold join_ok, static_ok in *. simpl in Hj, Hst |- *.
    destruct (tf_queue _ _ _ _ _ F) as [Hq _]. simpl in Hq.
    pose proof (lsum_insert at_pop _ _ _ c' Hi) as Hs. pose proof (tf_pop _ _ _ _ _ F) as Hpop. simpl in Hpop.
    destruct m as [|id []]; rewrite ?Hq; try done; rewrite Hs; destruct Hst as [Hst _]; specialize (Hpop Hst); lia.
Qed.

(** The invariant seen from one scheduler [x] that is at [rel] of its release. *)
Definition rel_of (m : main_pc) (id : Z) : option phase :=
  match m with MRelease id' ph => if decide (id' = id) then Some ph else None | MFree => None end.
Definition past (rel : option phase) (x : sched) : Prop :=
  s_released x = true ∨ match rel with Some (ClearFinish | ClearPathed) => True | _ => False end.
Record sched_inv (rel : option phase) (x : sched) (w : pc) (p : list pc) (id : Z) : Prop := {
  si_work : flag KWork x = busy id w;
  si_path : flag KPath x = lsum (busy id) p;
  si_unborn : s_alive x = false → s_released x = false → x = unborn;
  si_release : rel ≠ None → isRunning x = false ∧ s_alive x = true;
  si_stopped : s_released x = true → isRunning x = false;
  si_past : past rel x → Forall (λ c, ¬ executes id c) (w :: p);
  si_finish : s_released x = true ∨ rel = Some ClearPathed → finishQ x = [];
  si_pathed : s_released x = true → pathedQ x = []
}.

Lemma rel_of_Some m id ph : rel_of m id = Some ph ↔ m = MRelease id ph.
Proof. destruct m as [|id' ph']; simpl; [naive_solver|]. case_decide; naive_solver. Qed.

Lemma past_rel st id :
  past (rel_of (main st) id) (scheds (sh st) id) ↔ past_wait st id.
Proof.
  unfold past, past_wait. rewrite <-!rel_of_Some.
  destruct (rel_of (main st) id) as [[]|]; intuition congruence.
Qed.

Lemma Inv_sched st id :
  Inv st → sched_inv (rel_of (main st) id) (scheds (sh st) id) (worker st) (pathers st) id.
Proof.
  intros HI. constructor; try apply HI.
  - destruct (rel_of (main st) id) as [ph|] eqn:Hr; [intros _|done].
    by apply (i_release _ HI id ph), rel_of_Some.
  - rewrite past_rel. apply (i_past _ HI).
  - rewrite rel_of_Some. apply (i_finish _ HI).
Qed.

Lemma lsum_zero {A} (f : A → Z) l : (∀ x, x ∈ l → f x = 0) → lsum f l = 0.
Proof.
  induction l as [|x l IH]; intros H; [done|]. simpl. rewrite (H x) by left. rewrite IH; [done|].
  intros ??. apply H. by right.
Qed.

Lemma exited_idle id p : Forall (eq Exited) p → lsum (busy id) p = 0 ∧ Forall (λ c, ¬ executes id c) p.
Proof.
  intros He. split; [|eapply Forall_impl; [exact He|intros ? <-; simpl; tauto]].
  apply lsum_zero. intros c Hc. rewrite Forall_forall in He. by rewrite <-(He c Hc).
Qed.

Lemma flags_idle id w p :
  busy id w = 0 → lsum (busy id) p = 0 → Forall (λ c, ¬ executes id c) (w :: p).
Proof.
  intros Hw Hp. constructor; [intros He%busy_executes; lia|]. apply Forall_forall. intros c Hc He%busy_executes.
  pose proof (lsum_nonneg_le (busy id) p c (λ y, proj1 (busy_range id y)) Hc). lia.
Qed.

Lemma fresh_idle id n :
  lsum (busy id) (replicate n AtCheck) = 0 ∧ Forall (λ c, ¬ executes id c) (AtCheck :: replicate n AtCheck).
Proof.
  split.
  - apply lsum_zero. by intros c [-> _]%elem_of_replicate.
  - constructor; [simpl; tauto|]. apply Forall_forall. intros c [-> _]%elem_of_replicate. simpl. tauto.
Qed.

(** A main step changes at most one scheduler, and no flag of it. *)
Lemma mstep_sched st st' id :
  mstep st st' → (∀ i, sched_inv (rel_of (main st) i) (scheds (sh st) i) (worker st) (pathers st) i) →
  (workerRunning (sh st) = false → main st = MFree → worker st = Exited ∧ pathers st = []) →
  sched_inv (rel_of (main st') id) (scheds (sh st') id) (worker st') (pathers st') id.
Proof.
  intros HM HI Hst. specialize (HI id). destruct HM; simpl in *; rewrite ?fn_upd.
  all: try case_decide; subst; destruct HI as [K1 K2 K3 K4 K5 K6 K7 K8].
  all: constructor; unfold past in *; simpl in *; try done; try (intuition (congruence || done); fail).
  - by rewrite H in K1.
  - by rewrite H in K2.
  - destruct Hst as [-> ->]; done.
  - destruct Hst as [-> ->]; [done..|]. rewrite K2. simpl. by rewrite (proj1 (fresh_idle _ _)).
  - destruct Hst as [-> ->]; [done..|]. intros _. apply fresh_idle.
  - intros Ha Hr. by rewrite (K3 Ha Hr) in H.
  - intros Ha Hr. by rewrite (K3 Ha Hr) in H.
  - rewrite K2. by apply exited_idle.
  - intros Hp. specialize (K6 Hp). inversion K6; subst. by constructor.
  - rewrite K2. by apply exited_idle.
  - intros Hp. specialize (K6 Hp). inversion K6; subst. by constructor.
  - intros _. apply flags_idle; [|lia]. rewrite <-K1. by rewrite H.
Qed.

Lemma RemoveAllIf_sub (f : item → bool) q q' it : RemoveAllIf f q = Some q' → it ∈ q' → it ∈ q.
Proof.
  intros Hq Hit. destruct (RemoveAllIf_ok f q) as (q2 & H2 & Hp). rewrite Hq in H2. injection H2 as <-.
  rewrite Hp in Hit. by apply list_elem_of_filter in Hit as [_ ?].
Qed.

Lemma ended_upd (f : Z → sched) id x i : ended (f i) → (ended (f id) → ended x) → ended ((<[id := x]> f) i).
Proof. rewrite fn_upd. case_decide; subst; auto. Qed.

Lemma mstep_wake st st' it :
  mstep st st' → Inv st → it ∈ workQ (sh st') ∨ holds (worker st') = Some it → it_task it = None →
  ended (scheds (sh st') (it_owner it)).
Proof.
  intros HM HI. pose proof (i_wake _ HI it) as Hw. pose proof (i_release _ HI) as Hr.
  destruct HM; simpl in Hw, Hr |- *; intros Hin Ht.
  all: try (apply ended_upd; [by apply Hw|]; unfold ended; simpl; tauto).
  all: try (by apply Hw).
  - apply ended_upd; [by apply Hw|]. rewrite H. unfold ended. simpl. by intros [_ [|]].
  - apply Hw; [|done]. destruct Hin as [Hin|]; [by left|done].
  - apply Hw; [|done]. destruct Hin as [[Hin|Hin]%elem_of_app|]; [by left| |by right].
    apply list_elem_of_singleton in Hin as ->. done.
  - apply Hw; [|done]. destruct Hin as [Hin|]; [|by right]. left. by eapply RemoveAllIf_sub.
  - destruct Hin as [[Hin|Hin]%elem_of_app|]; [apply Hw; [by left|done]| |apply Hw; [by right|done]].
    apply list_elem_of_singleton in Hin as ->. simpl. destruct (Hr id _ eq_refl). split; [done|by left].
  - apply Hw; [|done]. destruct Hin as [Hin|]; [|by right]. by apply not_elem_of_nil in Hin.
Qed.

Lemma mstep_tasks st st' it :
  mstep st st' → Inv st →
  (Executing it ∈ threads st' → it_task it ≠ None) ∧ (Marked it ∈ pathers st' → it_task it ≠ None).
Proof.
  intros HM HI. pose proof (i_wake_run _ HI it) as Hw. pose proof (i_path_task _ HI it) as Hp.
  destruct HM; unfold threads in *; simpl in *; try done.
  - split; [intros [He|Hin]%elem_of_cons; [done|]|intros Hin]; apply elem_of_app in Hin as [Hin|Hin].
    + apply Hw. by right.
    + by apply elem_of_replicate in Hin as [? _].
    + by apply Hp.
    + by apply elem_of_replicate in Hin as [? _].
  - split; [|by intros ?%not_elem_of_nil]. intros [He|?%not_elem_of_nil]%elem_of_cons; [|done].
    apply Hw. rewrite He. by left.
Qed.

Lemma mstep_static st st' : mstep st st' → static_ok st → static_ok st'.
Proof. intros HM Hst. destruct HM; unfold static_ok in *; simpl in *; try done; try tauto; intuition congruence. Qed.

Lemma at_pop_le c : at_pop c <= 1.
Proof. destruct c; simpl; lia. Qed.

Lemma mstep_join st st' : mstep st st' → join_ok st → join_ok st'.
Proof.
  intros HM Hj. destruct HM; unfold join_ok in *; simpl in *; try done; try lia.
  - unfold Push. rewrite zlen_app. pose proof (at_pop_le w). pose proof (zlen_nonneg (workQ s)). unfold zlen at 2. simpl. lia.
  - pose proof (zlen_nonneg (pathQ s)).
    assert (lsum at_pop p <= Z.of_nat (length p)); [|lia].
    induction p as [|c p IH]; simpl; [lia|]. pose proof (at_pop_le c). lia.
  - unfold Push. rewrite zlen_app. unfold zlen at 2. simpl. lia.
Qed.

Lemma step_Inv st st' : step st st' → Inv st → Inv st'.
Proof.
  destruct 1 as [st st' HM|s w p m s' w' HT|s w p m s' i c c' Hi HT]; intros HI.
  - assert (∀ id, sched_inv (rel_of (main st') id) (scheds (sh st') id) (worker st') (pathers st') id) as HS.
    { intros id. apply (mstep_sched _ _ _ HM); [intros; by apply Inv_sched|].
      intros Hr Hm. pose proof (i_static _ HI) as Hst. unfold static_ok in Hst. rewrite Hm in Hst. auto. }
    constructor; try apply HS.
    + intros id ph Hm%rel_of_Some. apply (HS id). by rewrite Hm.
    + intros id Hp%past_rel. by apply (HS id).
    + intros id Hp. apply (HS id). by rewrite rel_of_Some.
    + intros it. by apply (mstep_wake _ _ it HM HI).
    + intros it. by apply (mstep_tasks _ _ it HM HI).
    + intros it. by apply (mstep_tasks _ _ it HM HI).
    + apply (mstep_static _ _ HM), HI.
    + apply (mstep_join _ _ HM), HI.
  - by eapply worker_Inv.
  - by eapply pather_Inv.
Qed.

Lemma steps_Inv st st' : rtc step st st' → Inv st → Inv st'.
Proof. induction 1 as [|st1 st2 st3 Hs _ IH]; [done|]. intros HI. apply IH. by eapply step_Inv. Qed.

Lemma reachable_Inv st : reachable st → Inv st.
Proof.
  intros Hr. apply (steps_Inv _ _ Hr). apply init_Inv.
Qed.

(** ** Safety *)

(** C25: Shutdown is safe in every interleaving of the main thread, the worker and the path threads: once
    Release of a scheduler is past its wait no thread executes a task of it and none will push a
    completion into it, so that after Release its finish and pathed queues are and stay empty; a wake-up
    item, whose function is null, is never executed; and the threads are only started anew after the
    old ones were joined. *)
Theorem Release_safe st id :
  reachable st →
  (past_wait st id → Forall (λ c, ¬ executes id c) (threads st)) ∧
  (s_released (scheds (sh st) id) = true →
     finishQ (scheds (sh st) id) = [] ∧ pathedQ (scheds (sh st) id) = []) ∧
  (∀ it, Executing it ∈ threads st → it_task it ≠ None) ∧
  (main st = MFree → workerRunning (sh st) = false → worker st = Exited ∧ pathers st = []).
Proof.
  intros HI%reachable_Inv. split; [apply (i_past _ HI)|]. split; [|split; [apply (i_wake_run _ HI)|]].
  - intros Hr. split; [apply (i_finish _ HI); by left|by apply (i_pathed _ HI)].
  - intros Hm. pose proof (i_static _ HI) as Hst. unfold static_ok in Hst. by rewrite Hm in Hst.
Qed.

(** ** Release can always finish *)

Definition trun (k : kind) (a b : shared * pc) : Prop := tstep k a.1 a.2 b.1 b.2.

(** A thread runs down what it holds and comes back to the check of its loop. *)
Lemma thread_drains k s c :
  holds c ≠ None → ∃ s', rtc (trun k) (s, c) (s', AtCheck).
Proof.
  assert (∀ s it, ∃ s', rtc (trun k) (s, Leaving it) (s', AtCheck)) as HL.
  { intros s0 it. eexists. apply rtc_once. apply T_leave. }
  assert (∀ s it, ∃ s', rtc (trun k) (s, Executing it) (s', AtCheck)) as HE.
  { intros s0 it. edestruct HL as [s' Hs]. exists s'. eapply rtc_l; [|exact Hs]. apply T_done. }
  assert (∀ s it, ∃ s', rtc (trun k) (s, Marked it) (s', AtCheck)) as HM.
  { intros s0 it. destruct (isRunning (scheds s0 (it_owner it))) eqn:Hr.
    - edestruct HE as [s' Hs]. exists s'. eapply rtc_l; [|exact Hs]. by apply T_run.
    - edestruct HL as [s' Hs]. exists s'. eapply rtc_l; [|exact Hs]. by apply T_skip. }
  destruct c as [| |it|it|it|it|]; simpl; try done; intros _; auto.
  destruct k.
  - destruct (s_alive (scheds s (it_owner it))) eqn:Ha.
    + edestruct HM as [s' Hs]. exists s'. eapply rtc_l; [|exact Hs]. by apply T_mark.
    + exists s. apply rtc_once. by apply T_expired.
  - exists s. apply rtc_once. by apply T_no_query.
Qed.

Lemma lift_worker s w s' w' p m :
  rtc (trun KWork) (s, w) (s', w') → rtc step (State s w p m) (State s' w' p m).
Proof.
  intros H. apply (rtc_congruence (R := trun KWork) (λ a, State a.1 a.2 p m) step (s, w) (s', w')); [|exact H].
  intros [a b] [a' b'] Ht. by apply S_worker.
Qed.

Lemma lift_pather s c s' c' w p i m :
  p !! i = Some c → rtc (trun KPath) (s, c) (s', c') →
  rtc step (State s w p m) (State s' w (<[i := c']> p) m).
Proof.
  intros Hi H. assert (i < length p)%nat as Hlt by (by eapply lookup_lt_Some).
  rewrite <-(list_insert_id p i c Hi) at 1.
  apply (rtc_congruence (R := trun KPath) (λ a, State a.1 w (<[i := a.2]> p) m) step (s, c) (s', c')); [|exact H].
  intros [a b] [a' b'] Ht. simpl.
  replace (<[i := b']> p) with (<[i := b']> (<[i := b]> p)) by apply list_insert_insert_eq.
  eapply S_pather; [by apply list_lookup_insert_eq|exact Ht].
Qed.

(** A thread that is being joined ends: it finds [workerRunning] false, or it is woken in [Pop]. *)
Lemma thread_exits k s c :
  workerRunning s = false → (c = AtPop → queue k s ≠ []) →
  ∃ s', rtc (trun k) (s, c) (s', Exited).
Proof.
  intros Hr Hq.
  assert (∀ s c s' c', rtc (trun k) (s, c) (s', c') → workerRunning s' = workerRunning s) as Hk.
  { intros s1 c1 s2 c2 H. remember (s1, c1) as a. remember (s2, c2) as b.
    change s1 with (fst (s1, c1)). change s2 with (fst (s2, c2)). rewrite <-Heqa, <-Heqb.
    clear Heqa Heqb. induction H as [|x y z Hxy _ IH]; [done|]. rewrite IH.
    apply tstep_facts in Hxy. apply (tf_static _ _ _ _ _ Hxy). }
  assert (∀ s c, workerRunning s = false → holds c ≠ None → ∃ s', rtc (trun k) (s, c) (s', Exited)) as Hd.
  { intros s1 c1 H1 Hh. destruct (thread_drains k s1 c1 Hh) as [s2 H2]. exists s2.
    eapply rtc_r; [exact H2|]. apply T_exit. simpl. by rewrite (Hk _ _ _ _ H2). }
  destruct c as [| |it|it|it|it|]; try by apply Hd.
  - exists s. apply rtc_once. by apply T_exit.
  - destruct (queue k s) as [|it q] eqn:Hqe; [by destruct (Hq eq_refl)|].
    destruct (Hd (set_queue k s q) (Popped it)) as [s' Hs']; [by destruct k|done|].
    exists s'. eapply rtc_l; [|exact Hs']. apply T_pop. by rewrite Hqe.
  - by exists s.
Qed.

(** Bringing every path thread to a point, one after another. *)
Lemma all_pathers (Q : pc → Prop) w m s p :
  Inv (State s w p m) →
  (∀ s p i c, Inv (State s w p m) → p !! i = Some c → ∃ s' c', rtc (trun KPath) (s, c) (s', c') ∧ Q c') →
  ∃ s' p', rtc step (State s w p m) (State s' w p' m) ∧ Forall Q p' ∧ length p' = length p.
Proof.
  intros HI Hone.
  assert (∀ n, (n <= length p)%nat → ∃ s' p', rtc step (State s w p m) (State s' w p' m) ∧
    Forall Q (take n p') ∧ length p' = length p) as Hn.
  { induction n as [|n IH]; intros Hle; [exists s, p; by split|].
    destruct IH as (s1 & p1 & H1 & Hq & Hl); [lia|].
    destruct (lookup_lt_is_Some_2 p1 n) as [c Hc]; [lia|].
    destruct (Hone s1 p1 n c) as (s2 & c2 & H2 & Hq2); [by eapply steps_Inv|done|].
    exists s2, (<[n := c2]> p1). split; [|split; [|by rewrite length_insert]].
    - etrans; [exact H1|]. by eapply lift_pather.
    - rewrite (take_S_r _ _ c2) by (apply list_lookup_insert_eq; lia).
      rewrite take_insert_ge by lia. apply Forall_app. split; [done|]. by constructor. }
  destruct (Hn (length p)) as (s' & p' & H & Hq & Hl); [lia|]. exists s', p'.
  split; [done|]. split; [|done]. by rewrite take_ge in Hq by lia.
Qed.

Definition idle (c : pc) : Prop := holds c = None.
Lemma idle_busy id c : idle c → busy id c = 0.
Proof. by destruct c. Qed.

Lemma drain_one k s c : ∃ s' c', rtc (trun k) (s, c) (s', c') ∧ idle c'.
Proof.
  destruct (holds c) as [it|] eqn:Hh; [|exists s, c; split; [reflexivity|exact Hh]].
  destruct (thread_drains k s c) as [s' Hs']; [congruence|]. by exists s', AtCheck.
Qed.

Definition finishes (st : state) (id : Z) : Prop :=
  ∃ st', rtc step st st' ∧ main st' = MFree ∧ s_released (scheds (sh st') id) = true.

Lemma finishes_steps st st' id : rtc step st st' → finishes st' id → finishes st id.
Proof. intros H (st2 & H2 & ?). exists st2. split; [by etrans|done]. Qed.

Lemma finishes_step st st' id : mstep st st' → finishes st' id → finishes st id.
Proof. intros H. apply finishes_steps, rtc_once, S_main, H. Qed.

Lemma finish_wait s w p id : Inv (State s w p (MRelease id Wait)) → finishes (State s w p (MRelease id Wait)) id.
Proof.
  intros HI. destruct (drain_one KWork s w) as (s1 & w1 & H1 & Hw1).
  pose proof (lift_worker _ _ _ _ p (MRelease id Wait) H1) as L1. pose proof (steps_Inv _ _ L1 HI) as I1.
  destruct (all_pathers idle w1 (MRelease id Wait) s1 p I1) as (s2 & p2 & L2 & Hp2 & _).
  { intros s3 p3 i c _ _. apply drain_one. }
  pose proof (steps_Inv _ _ L2 I1) as I2. eapply finishes_steps; [exact L1|]. eapply finishes_steps; [exact L2|].
  eapply finishes_step.
  { apply M_wait.
    - pose proof (i_work _ I2 id) as Hf. simpl in Hf. rewrite (idle_busy id w1 Hw1) in Hf.
      by destruct (isWorkProcess _).
    - pose proof (i_path _ I2 id) as Hf. simpl in Hf. rewrite Hf. apply lsum_zero. intros c Hc.
      rewrite Forall_forall in Hp2. by apply idle_busy, Hp2. }
  eapply finishes_step; [apply M_clear_finish|]. eapply finishes_step; [apply M_clear_pathed|].
  eexists. split; [reflexivity|]. split; [done|]. simpl. by rewrite fn_upd, decide_True.
Qed.

Lemma finish_join_path s w p id :
  Inv (State s w p (MRelease id JoinPath)) → finishes (State s w p (MRelease id JoinPath)) id.
Proof.
  intros HI. destruct (all_pathers (eq Exited) w (MRelease id JoinPath) s p HI) as (s2 & p2 & L2 & Hp2 & _).
  - intros s3 p3 i c I3 Hc. destruct (i_static _ I3) as [Hr _]. pose proof (i_join _ I3) as Hj.
    unfold join_ok in Hj. simpl in *. destruct (thread_exits KPath s3 c Hr) as [s4 H4]; [|by exists s4, Exited].
    intros -> Hq. simpl in Hq. rewrite Hq in Hj. pose proof (lsum_nonneg_le at_pop p3 AtPop) as Hn. simpl in Hn.
    assert (1 <= lsum at_pop p3); [|unfold zlen in Hj; simpl in Hj; lia].
    apply Hn; [intros []; simpl; lia|]. by eapply list_elem_of_lookup_2.
  - eapply finishes_steps; [exact L2|].
    assert (mstep (State s2 w p2 (MRelease id JoinPath)) (State (set_queue KPath s2 (Clear (pathQ s2))) w [] (MRelease id Wait)))
      as HM by by apply M_join_path.
    eapply finishes_step; [exact HM|]. apply finish_wait.
    eapply step_Inv; [apply S_main, HM|]. by eapply steps_Inv.
Qed.

Lemma finish_push_path n s w p id :
  Inv (State s w p (MRelease id (PushPath n))) → finishes (State s w p (MRelease id (PushPath n))) id.
Proof.
  revert s. induction n as [|n IH]; intros s HI.
  - eapply finishes_step; [apply M_pushed_path|]. apply finish_join_path.
    eapply step_Inv; [apply S_main, M_pushed_path|done].
  - eapply finishes_step; [apply M_push_path|]. apply IH. eapply step_Inv; [apply S_main, M_push_path|done].
Qed.

Lemma finish_join_worker s w p id :
  Inv (State s w p (MRelease id JoinWorker)) → finishes (State s w p (MRelease id JoinWorker)) id.
Proof.
  intros HI. pose proof (i_static _ HI) as Hr. pose proof (i_join _ HI) as Hj. unfold static_ok, join_ok in *.
  simpl in *. destruct (thread_exits KWork s w Hr) as [s1 H1].
  { intros -> Hq. simpl in Hq. rewrite Hq in Hj. unfold zlen in Hj. simpl in Hj. lia. }
  pose proof (lift_worker _ _ _ _ p (MRelease id JoinWorker) H1) as L1. pose proof (steps_Inv _ _ L1 HI) as I1.
  eapply finishes_steps; [exact L1|]. eapply finishes_step; [apply M_join_worker|].
  eapply finishes_step; [apply M_clear_work|]. apply finish_push_path.
  eapply step_Inv; [apply S_main, M_clear_work|]. eapply step_Inv; [apply S_main, M_join_worker|done].
Qed.

Lemma finish_check s w p id :
  Inv (State s w p (MRelease id CheckLast)) → finishes (State s w p (MRelease id CheckLast)) id.
Proof.
  intros HI. destruct (decide (counterInstance s = 0 ∧ workerRunning s = true)) as [[Hc Hr]|Hn].
  - eapply finishes_step; [by apply M_last|]. eapply finishes_step; [apply M_push_work|].
    apply finish_join_worker. eapply step_Inv; [apply S_main, M_push_work|].
    eapply step_Inv; [apply S_main; by apply M_last|done].
  - assert (counterInstance s ≠ 0 ∨ workerRunning s = false) as Hd.
    { destruct (workerRunning s); [|by right]. left. intros ?. by apply Hn. }
    eapply finishes_step; [by apply M_not_last|]. apply finish_wait.
    eapply step_Inv; [apply S_main; by apply M_not_last|done].
Qed.

Lemma release_finishes st id ph : Inv st → main st = MRelease id ph → finishes st id.
Proof.
  intros HI Hm. destruct st as [s w p m]. simpl in Hm. subst m.
  assert (∀ s, Inv (State s w p (MRelease id RemovePath)) → finishes (State s w p (MRelease id RemovePath)) id) as HP.
  { intros s1 I1. destruct (RemoveAllIf_ok (mine id) (pathQ s1)) as (q & Hq & _).
    eapply finishes_step; [by apply M_remove_path|]. apply finish_check.
    eapply step_Inv; [apply S_main; by apply M_remove_path|done]. }
  destruct ph.
  - destruct (RemoveAllIf_ok (mine id) (workQ s)) as (q & Hq & _).
    eapply finishes_step; [by apply M_remove_work|]. apply HP.
    eapply step_Inv; [apply S_main; by apply M_remove_work|done].
  - by apply HP.
  - by apply finish_check.
  - eapply finishes_step; [apply M_push_work|]. apply finish_join_worker.
    eapply step_Inv; [apply S_main, M_push_work|done].
  - by apply finish_join_worker.
  - eapply finishes_step; [apply M_clear_work|]. apply finish_push_path.
    eapply step_Inv; [apply S_main, M_clear_work|done].
  - by apply finish_push_path.
  - by apply finish_join_path.
  - by apply finish_wait.
  - eapply finishes_step; [apply M_clear_finish|]. eapply finishes_step; [apply M_clear_pathed|].
    eexists. split; [reflexivity|]. split; [done|]. simpl. by rewrite fn_upd, decide_True.
  - eapply finishes_step; [apply M_clear_pathed|].
    eexists. split; [reflexivity|]. split; [done|]. simpl. by rewrite fn_upd, decide_True.
Qed.

(** C29: Shutdown does not get stuck: from every reachable state in the middle of Release of a scheduler,
    at any of its points and with the threads anywhere in their loops, the threads and the main thread
    can go on to the end of Release; in particular the items pushed to wake the threads are enough to
    get every thread that is joined out of Pop. *)
Theorem Release_can_finish st id ph :
  reachable st → main st = MRelease id ph →
  ∃ st', rtc step st st' ∧ main st' = MFree ∧ s_released (scheds (sh st') id) = true.
Proof. intros HI%reachable_Inv Hm. by apply (release_finishes st id ph). Qed.

End protocol.

(** A task is executing when its scheduler is released. *)
Lemma demo_reachable :
  ∃ st, reachable 2 st ∧ main st = MRelease 0 RemoveWork ∧ worker st = Executing (Item 0 (Some 7) (Some 8)).
Proof.
  eexists. split; [|split; [|]].
  - unfold reachable, init.
    eapply rtc_l; [apply S_main, (M_create 2 _ _ _ 0); reflexivity|].
    eapply rtc_l; [apply S_main, M_start; reflexivity|].
    eapply rtc_l; [apply S_main, (M_work 2 _ _ _ 0 7 (Some 8)); reflexivity|].
    eapply rtc_l; [apply S_worker, T_go; reflexivity|].
    eapply rtc_l; [apply S_worker, T_pop; reflexivity|].
    eapply rtc_l; [apply S_worker, T_mark; [reflexivity|discriminate]|].
    eapply rtc_l; [apply S_worker, T_run; reflexivity|].
    eapply rtc_l; [apply S_main, (M_release 2 _ _ _ 0); reflexivity|]. apply rtc_refl.
  - reflexivity.
  - reflexivity.
Qed.

Lemma Release_can_finish_witness :
  ∃ st st', main st = MRelease 0 RemoveWork ∧ worker st = Executing (Item 0 (Some 7) (Some 8)) ∧
    rtc (step 2) st st' ∧ main st' = MFree ∧ s_released (scheds (sh st') 0) = true.
Proof.
  destruct demo_reachable as (st & Hr & Hm & Hw).
  destruct (Release_can_finish 2 st 0 RemoveWork Hr Hm) as (st' & H & ?). by exists st, st'.
Defined.

Lemma Release_safe_witness :
  ∃ st, reachable 2 st ∧ main st = MFree ∧ s_released (scheds (sh st) 0) = true ∧
    finishQ (scheds (sh st) 0) = [] ∧ Forall (λ c, ¬ executes 0 c) (threads st).
Proof.
  destruct demo_reachable as (st & Hr & Hm & _).
  destruct (release_finishes 2 st 0 RemoveWork (reachable_Inv 2 st Hr) Hm) as (st' & H & ? & Hrel). exists st'.
  assert (reachable 2 st') as Hr' by (unfold reachable; by etrans).
  destruct (Release_safe 2 st' 0 Hr') as (Hp & Hq & _). split; [done|]. split; [done|]. split; [done|].
  split; [by apply Hq|]. apply Hp. by left.
Defined.
