(* ===== verification/TerrainManager.v ===== *)
(** * TerrainManager: where buildings stand and where a new one fits

    Models the building side of [src/src/circuit/terrain/TerrainManager.h/.cpp]: marking
    structures in the blocking map, following the buildings of the allies, the static tables of
    search offsets, and the four searches of [FindBuildSite].  The engine's map queries are
    parameters; [std::sort] is a parameter with its specification. *)

From stdpp Require Import sorting.
From S2P Require Import Prelude Float32 BlockingMap BlockMask EnemyUnit SectorGrid ThreatMap.

Open Scope circuit_scope.

Class TerrainEngine : Type := {
  RgtVector : AIFloat3;
  f3_neg : AIFloat3 → AIFloat3;
  IsPossibleToBuildAt : CCircuitDef → AIFloat3 → Z → bool;
  GetElevationAt : float → float → float
}.

(** [std::sort] with a comparator that compares an [int] member. *)
Class CxxStd : Type := {
  std_sort : ∀ {A : Type}, (A → Z) → list A → list A;
  std_sort_perm : ∀ {A : Type} (key : A → Z) l, std_sort key l ≡ₚ l;
  std_sort_sorted : ∀ {A : Type} (key : A → Z) l,
    StronglySorted (λ a b, key a <= key b) (std_sort key l)
}.

Definition THREAT_MIN : float := f1.

(** The parts of [CTerrainData] and [SAreaData] that the build tests read: of a mobile type, whether
    each [sector[i].S] is set; of an immobile type, the keys of [sector]. *)
Record STerrain : Type := MkTerrain {
  convertStoP : Z;
  sectorXSize : Z;
  mobileType : list (list bool);
  immobileType : list (gset Z)
}.

Record SStructure : Type := MkStructure {
  unitId : Z;
  s_cdef : CCircuitDef;
  s_pos : AIFloat3;
  s_facing : Z
}.

Record SSearchOffset : Type := MkOfs { dx : Z; dy : Z; qdist : Z }.
Record SSearchOffsetLow : Type := MkOfsLow { ofs : list SSearchOffset; dxLow : Z; dyLow : Z; qdistLow : Z }.
Definition no_ofs : SSearchOffset := MkOfs 0 0 0.
Definition no_ofsLow : SSearchOffsetLow := MkOfsLow [] 0 0 0.

Record CTerrainManager : Type := MkTM {
  markFrame : Z;
  markedAllies : list SStructure;
  blockingMap : SBlockingMap;
  blockInfos : gmap Z IBlockMask
}.
Definition set_blockingMap (tm : CTerrainManager) (m : SBlockingMap) : CTerrainManager :=
  MkTM (markFrame tm) (markedAllies tm) m (blockInfos tm).

(** What [MarkAllyBuildings] reads of a friendly unit in this frame. *)
Record SFriendly : Type := MkFriendly {
  fr_id : Z;
  fr_cdef : CCircuitDef;
  fr_pos : AIFloat3;
  fr_facing : Z;
  fr_team : Z
}.

Section terrain.
Context {E : Engine}.

(** ** Marking *)

(** [int(pos.x / (SQUARE_SIZE * 2))], the column of a position in the blocking map; [k] is the
    number of map squares of a cell. *)
Definition to_cell (v : float) (k : Z) : option Z := f_to_int (fdiv v (f_of_Z (SQUARE_SIZE * k))).

(** [corner.x = int(pos.x / (SQUARE_SIZE * 2)) - (xsize / 2)] and the same for [y]. *)
Definition corner_of (pos : AIFloat3) (size : int2) : option int2 :=
  x ← to_cell (px pos) 2;
  z ← to_cell (pz pos) 2;
  Some (x - Z.quot size.1 2, z - Z.quot size.2 2).

(** The size of a building in blocking-map cells: [facing & 1] in the default code, a [switch] in the
    code with masks. *)
Definition default_size (cdef : CCircuitDef) (facing : Z) : int2 :=
  (Z.quot (if Z.land facing 1 =? 0 then def_xsize cdef else def_zsize cdef) 2,
   Z.quot (if Z.land facing 1 =? 1 then def_xsize cdef else def_zsize cdef) 2).
Definition mask_ssize (cdef : CCircuitDef) (facing : Z) : int2 :=
  if is_sideways facing then (Z.quot (def_zsize cdef) 2, Z.quot (def_xsize cdef) 2)
  else (Z.quot (def_xsize cdef) 2, Z.quot (def_zsize cdef) 2).

(** [for (z = m1.y; z < m2.y; z++) for (x = m1.x; x < m2.x; x++) body] *)
Definition for_rect {S : Type} (m1 m2 : int2) (f : Z → Z → S → option S) (s : S) : option S :=
  zfor m1.2 m2.2 (λ z s, zfor m1.1 m2.1 (λ x s, f x z s) s) s.
(** The same with [x] as the outer loop. *)
Definition for_rect_x {S : Type} (m1 m2 : int2) (f : Z → Z → S → option S) (s : S) : option S :=
  zfor m1.1 m2.1 (λ x s, zfor m1.2 m2.2 (λ z s, f x z s) s) s.

(** One cell of [DECLARE_MARKER]. *)
Definition mark_cell (block : bool) (t : StructType) (notIgnore : Z) (bt : BlockType)
    (x z : Z) (m : SBlockingMap) : option SBlockingMap :=
  match bt with
  | BLOCK => if block then BlockingMap.AddBlocker m x z t else BlockingMap.DelBlocker m x z t
  | STRUCT => if block then AddStruct m x z t notIgnore else DelStruct m x z t notIgnore
  | OPEN => Some m
  end.

(** The mask is read at the cell's place in the unbounded rectangle: [zm], [xm] run along from
    [om = m1 - om]. *)
Definition MarkBlockerByMask (m : SBlockingMap) (building : SStructure) (block : bool) (bm : IBlockMask)
    : option SBlockingMap :=
  let facing := s_facing building in
  corner ← corner_of (s_pos building) (mask_ssize (s_cdef building) facing);
  let m1 := i2sub corner (GetStructOffset bm facing) in
  let m2 := (m1.1 + facing_xsize facing bm, m1.2 + facing_zsize facing bm) in
  let '(b1, b2) := Bound m m1 m2 in
  let om := i2sub b1 m1 in
  let notIgnore := u16 (Z.lnot (ignoreMask bm)) in
  for_rect b1 b2 (λ x z m,
    bt ← GetType facing bm (om.1 + (x - b1.1)) (om.2 + (z - b1.2));
    mark_cell block (structType bm) notIgnore bt x z m) m.

Definition MarkBlocker (tm : CTerrainManager) (building : SStructure) (block : bool)
    : option CTerrainManager :=
  let m := blockingMap tm in
  match blockInfos tm !! def_id (s_cdef building) with
  | Some bm => m ← MarkBlockerByMask m building block bm; Some (set_blockingMap tm m)
  | None =>
      let size := default_size (s_cdef building) (s_facing building) in
      m1 ← corner_of (s_pos building) size;
      let '(b1, b2) := Bound m m1 (i2add m1 size) in
      m ← for_rect_x b1 b2 (λ x z m,
        if block then AddStruct m x z UNKNOWN Mask.ALL else DelStruct m x z UNKNOWN Mask.ALL) m;
      Some (set_blockingMap tm m)
  end.

Definition AddBlocker (tm : CTerrainManager) (cdef : CCircuitDef) (pos : AIFloat3) (facing : Z) :=
  MarkBlocker tm (MkStructure (-1) cdef pos facing) true.
Definition DelBlocker (tm : CTerrainManager) (cdef : CCircuitDef) (pos : AIFloat3) (facing : Z) :=
  MarkBlocker tm (MkStructure (-1) cdef pos facing) false.

(** [Init]: the metal spots, which only an extractor may use, and the edges of the map, left to
    extractors and factories. *)
Definition mark_spot (tm : CTerrainManager) (size : int2) (m : SBlockingMap) (spot : AIFloat3)
    : option SBlockingMap :=
  x ← to_cell (px spot) 2;
  z ← to_cell (pz spot) 2;
  let m1 := (x - Z.shiftr size.1 1, z - Z.shiftr size.2 1) in
  let '(b1, b2) := Bound m m1 (i2add m1 size) in
  for_rect b1 b2 (λ x z m, BlockingMap.MarkBlocker m x z TERRA (u16 (Z.lnot Mask.MEX))) m.
Definition mark_edges (m : SBlockingMap) : option SBlockingMap :=
  let notIgnoreMask := u16 (Z.lnot (Z.lor Mask.MEX Mask.FACTORY)) in
  m ← zfor 0 7 (λ j m, zfor 8 (columns m - 8) (λ i m,
        m ← BlockingMap.MarkBlocker m i j TERRA notIgnoreMask;
        BlockingMap.MarkBlocker m i (rows m - j - 1) TERRA notIgnoreMask) m) m;
  zfor 8 (rows m - 8) (λ j m, zfor 0 7 (λ i m,
        m ← BlockingMap.MarkBlocker m i j TERRA notIgnoreMask;
        BlockingMap.MarkBlocker m (columns m - i - 1) j TERRA notIgnoreMask) m) m.
Definition Init (tm : CTerrainManager) (mexDef : CCircuitDef) (spots : list AIFloat3)
    : option CTerrainManager :=
  let size := match blockInfos tm !! def_id mexDef with
              | Some bm => (xsize bm, zsize bm)
              | None => (Z.quot (def_xsize mexDef) 2, Z.quot (def_zsize mexDef) 2)
              end in
  m ← foldM (mark_spot tm size) (blockingMap tm) spots;
  m ← mark_edges m;
  Some (set_blockingMap tm m).

(** ** Buildings of the allies *)

Definition ResetBuildFrame (tm : CTerrainManager) : CTerrainManager :=
  MkTM (- FRAMES_PER_SEC) (markedAllies tm) (blockingMap tm) (blockInfos tm).

(** [ResignAllyBuilding] erases the first entry of the unit. *)
Fixpoint resign (id : Z) (l : list SStructure) : option (list SStructure) :=
  match l with
  | [] => None
  | s :: l => if unitId s =? id then Some l else l' ← resign id l; Some (s :: l')
  end.
Definition ResignAllyBuilding (tm : CTerrainManager) (id : Z) : bool * CTerrainManager :=
  match resign id (markedAllies tm) with
  | Some l => (true, MkTM (markFrame tm) l (blockingMap tm) (blockInfos tm))
  | None => (false, tm)
  end.

Definition structure_of (u : SFriendly) : SStructure :=
  MkStructure (fr_id u) (fr_cdef u) (fr_pos u) (fr_facing u).
Definition mark_unless_mex (tm : CTerrainManager) (b : SStructure) (block : bool) : option CTerrainManager :=
  if isMex (s_cdef b) then Some tm else MarkBlocker tm b block.
Definition push_marked (tm : CTerrainManager) (b : SStructure) : CTerrainManager :=
  MkTM (markFrame tm) (markedAllies tm ++ [b]) (blockingMap tm) (blockInfos tm).
Definition addStructure (tm : CTerrainManager) (u : SFriendly) : option CTerrainManager :=
  mark_unless_mex (push_marked tm (structure_of u)) (structure_of u) true.
Definition delStructure (tm : CTerrainManager) (b : SStructure) : option CTerrainManager :=
  mark_unless_mex tm b false.

Definition is_foreign_building (teamId : Z) (u : SFriendly) : bool :=
  negb (IsMobile (fr_cdef u) || (fr_team u =? teamId)).

(** The merge of the friendly units with the structures marked before; it returns what is left of
    [prevUnits].  Each pass advances one of the two iterators. *)
Fixpoint merge_allies (fuel : nat) (teamId : Z) (first1 : list SFriendly) (first2 : list SStructure)
    (tm : CTerrainManager) : option (CTerrainManager * list SStructure) :=
  match first1 with
  | [] => Some (tm, first2)
  | unit :: next1 =>
      match fuel with
      | O => None
      | S fuel =>
          if negb (is_foreign_building teamId unit) then merge_allies fuel teamId next1 first2 tm
          else match first2 with
          | [] =>
              tm ← addStructure tm unit;
              tm ← foldM (λ tm u, if is_foreign_building teamId u then addStructure tm u else Some tm) tm next1;
              Some (tm, [])
          | b :: next2 =>
              if fr_id unit <? unitId b then
                tm ← addStructure tm unit; merge_allies fuel teamId next1 first2 tm
              else if unitId b <? fr_id unit then
                tm ← delStructure tm b; merge_allies fuel teamId first1 next2 tm
              else merge_allies fuel teamId next1 next2 (push_marked tm b)
          end
      end
  end.

Definition MarkAllyBuildings (tm : CTerrainManager) (lastFrame teamId : Z) (friendlies : list SFriendly)
    : option CTerrainManager :=
  if markFrame tm >=? lastFrame then Some tm
  else
    let prevUnits := markedAllies tm in
    let tm := MkTM lastFrame [] (blockingMap tm) (blockInfos tm) in
    '(tm, rest) ← merge_allies (length friendlies + length prevUnits) teamId friendlies prevUnits tm;
    foldM delStructure tm rest.

(** ** The tables of search offsets: static variables, so they are passed and returned *)

Section tables.
Context {CS : CxxStd}.

(** [v.resize(size)] of a vector that is not longer. *)
Definition resize {A : Type} (v : list A) (size : Z) (a : A) : list A :=
  v ++ replicate (Z.to_nat (size - zlen v)) a.

(** The offset written at [x], [y] of a square of side [radius * 2]; [shift] is 0 or half a coarse cell. *)
Definition offset_at (radius shift x y : Z) : SSearchOffset :=
  let dx := x - radius + shift in
  let dy := y - radius + shift in
  MkOfs dx dy (dx * dx + dy * dy).
Definition fill_offsets (radius shift : Z) (l : list SSearchOffset) : option (list SSearchOffset) :=
  zfor 0 (radius * 2) (λ y l, zfor 0 (radius * 2) (λ x l,
    l.[y * radius * 2 + x <- offset_at radius shift x y]) l) l.

Definition GetSearchOffsetTable (searchOffsets : list SSearchOffset) (radius : Z)
    : option (list SSearchOffset) :=
  let size := u32 (radius * radius * 4) in
  if size >? zlen searchOffsets then
    l ← fill_offsets radius 0 (resize searchOffsets size no_ofs);
    Some (std_sort qdist l)
  else Some searchOffsets.

(** The body of the loop over the coarse cells: the offsets of the cell are pushed to what [il.ofs]
    holds already. *)
Definition push_cell (searchOffsets : list SSearchOffset) (radius xl yl : Z) (il : list SSearchOffset)
    : option (list SSearchOffset) :=
  zfor (yl * GRID_RATIO_LOW) ((yl + 1) * GRID_RATIO_LOW) (λ y il,
    zfor (xl * GRID_RATIO_LOW) (xl * GRID_RATIO_LOW + GRID_RATIO_LOW) (λ x il,
      o ← searchOffsets.[y * radius * 2 + x]; Some (il ++ [o])) il) il.
Definition fill_low_cell (searchOffsets : list SSearchOffset) (radius radiusLow xl yl : Z)
    (l : list SSearchOffsetLow) : option (list SSearchOffsetLow) :=
  il ← l.[yl * radiusLow * 2 + xl];
  let dx := xl - radiusLow in
  let dy := yl - radiusLow in
  o ← push_cell searchOffsets radius xl yl (ofs il);
  l.[yl * radiusLow * 2 + xl <- MkOfsLow (std_sort qdist o) dx dy (dx * dx + dy * dy)].
Definition GetSearchOffsetTableLow (searchOffsetsLow : list SSearchOffsetLow) (radius : Z)
    : option (list SSearchOffsetLow) :=
  let radiusLow := Z.quot radius GRID_RATIO_LOW in
  let sizeLow := u32 (radiusLow * radiusLow * 4) in
  if sizeLow >? zlen searchOffsetsLow then
    searchOffsets ← fill_offsets radius (Z.quot GRID_RATIO_LOW 2)
                      (resize [] (radius * radius * 4) no_ofs);
    l ← zfor 0 (radiusLow * 2) (λ yl l, zfor 0 (radiusLow * 2) (λ xl l,
          fill_low_cell searchOffsets radius radiusLow xl yl l) l)
        (resize searchOffsetsLow sizeLow no_ofsLow);
    Some (std_sort qdistLow l)
  else Some searchOffsetsLow.
End tables.

(** ** Where a building may be built *)

Section sites.
Context {TE : TerrainEngine} {CS : CxxStd}.
Context (ta : STerrain) (threatMap : CThreatMap).

Definition GetSectorIndex (pos : AIFloat3) : option Z :=
  fz ← f_to_int (pz pos);
  z ← idiv fz (convertStoP ta);
  fx ← f_to_int (px pos);
  x ← idiv fx (convertStoP ta);
  Some (sectorXSize ta * z + x).

Definition GetMobileTypeById (id : Z) : option (option (list bool)) :=
  if id <? 0 then Some None else mt ← (mobileType ta).[id]; Some (Some mt).
Definition GetImmobileTypeById (id : Z) : option (option (gset Z)) :=
  if id <? 0 then Some None else it ← (immobileType ta).[id]; Some (Some it).

Definition CanBeBuiltAt (cdef : CCircuitDef) (position : AIFloat3) : option bool :=
  iS ← GetSectorIndex position;
  mt ← GetMobileTypeById (mobileId cdef);
  it ← GetImmobileTypeById (immobileId cdef);
  match mt with
  | Some sector =>
      s ← sector.[iS];
      if negb s then Some false
      else match it with
           | Some keys => Some (bool_decide (iS ∈ keys))
           | None => Some true
           end
  | None =>
      match it with
      | Some keys => Some (bool_decide (iS ∈ keys))
      | None => Some true
      end
  end.

Definition CanBeBuiltAtSafe (cdef : CCircuitDef) (position : AIFloat3) : option bool :=
  t ← GetAllThreatAt threatMap position;
  if fgtb t THREAT_MIN then Some false else CanBeBuiltAt cdef position.

(** ** The searches *)

(** Whether no cell of a rectangle is hit: the loops [return false] at the first one. *)
Definition scan_rect (m1 m2 : int2) (hit : Z → Z → option bool) : option bool :=
  r ← zfor_exit m1.2 m2.2 (λ z _,
        r ← zfor_exit m1.1 m2.1 (λ x _, h ← hit x z; Some (if h : bool then Done false else Next tt)) tt;
        Some (match r with Done b => Done b | Next _ => Next tt end)) tt;
  Some (match r with Done b => b | Next _ => true end).

Definition isOpenSite (m : SBlockingMap) (s1 s2 : int2) : option bool :=
  scan_rect s1 s2 (λ x z, IsBlocked m x z Mask.ALL).

(** [DECLARE_TEST] *)
Definition isOpenMask (m : SBlockingMap) (bm : IBlockMask) (facing : Z) (m1 m2 om : int2) : option bool :=
  let notIgnore := u16 (Z.lnot (ignoreMask bm)) in
  let structMask := GetStructMask (structType bm) in
  scan_rect m1 m2 (λ x z,
    bt ← GetType facing bm (om.1 + (x - m1.1)) (om.2 + (z - m1.2));
    match bt with
    | BLOCK => IsStructed m x z structMask
    | STRUCT => IsBlocked m x z notIgnore
    | OPEN => Some false
    end).

(** The mask test at [maskCorner] shifted by an offset. *)
Definition mask_fits (m : SBlockingMap) (bm : IBlockMask) (facing : Z) (m1 : int2) : option bool :=
  let m2 := (m1.1 + facing_xsize facing bm, m1.2 + facing_zsize facing bm) in
  let '(b1, b2) := Bound m m1 m2 in
  isOpenMask m bm facing b1 b2 (i2sub b1 m1).

(** [probePos.x = (s1.x + s2.x) * SQUARE_SIZE] and the same for [z]; [y] keeps what the last probe
    left there. *)
Definition probe_at (s1 s2 : int2) (y : float) : AIFloat3 :=
  F3 (f_of_Z ((s1.1 + s2.1) * SQUARE_SIZE)) y (f_of_Z ((s1.2 + s2.2) * SQUARE_SIZE)).

Section search.
Context (tm : CTerrainManager) (cdef : CCircuitDef) (facing : Z) (predicate : AIFloat3 → bool).

(** The end of every loop body: the engine's test, then the caller's. *)
Definition try_build (p : AIFloat3) : flow float AIFloat3 :=
  if IsPossibleToBuildAt cdef p facing then
    let p' := F3 (px p) (GetElevationAt (px p) (pz p)) (pz p) in
    if predicate p' then Done p' else Next (py p')
  else Next (py p).

(** One probe of the default search. *)
Definition probe_default (corner size : int2) (y : float) (o : SSearchOffset) : option (flow float AIFloat3) :=
  let m := blockingMap tm in
  let s1 := (corner.1 + dx o, corner.2 + dy o) in
  let s2 := i2add s1 size in
  if negb (IsInBounds m s1 s2) then Some (Next y) else
  open ← isOpenSite m s1 s2;
  if negb open then Some (Next y) else
  let p := probe_at s1 s2 y in
  safe ← CanBeBuiltAtSafe cdef p;
  Some (if negb safe then Next (py p) else try_build p).

(** One probe of the searches with a mask; [structCorner] and [maskCorner] before the offset. *)
Definition probe_mask (bm : IBlockMask) (structCorner maskCorner size : int2) (y : float) (o : SSearchOffset)
    : option (flow float AIFloat3) :=
  let m := blockingMap tm in
  let s1 := (structCorner.1 + dx o, structCorner.2 + dy o) in
  let s2 := i2add s1 size in
  if negb (IsInBounds m s1 s2) then Some (Next y) else
  let p := probe_at s1 s2 y in
  safe ← CanBeBuiltAtSafe cdef p;
  if negb safe then Some (Next (py p)) else
  fits ← mask_fits m bm facing (maskCorner.1 + dx o, maskCorner.2 + dy o);
  Some (if negb fits then Next (py p) else try_build p).

(** [for (so = 0; so < n; so++)] over a table of offsets. *)
Definition probe_loop {A : Type} (probe : float → A → option (flow float AIFloat3)) (tbl : list A) (n : Z)
    (y : float) : option (flow float AIFloat3) :=
  zfor_exit 0 n (λ so y, o ← tbl.[so]; probe y o) y.

(** One coarse cell: skipped when it is full or unsafe, else its 64 offsets are probed. *)
Definition probe_low (probe : float → SSearchOffset → option (flow float AIFloat3)) (center : int2)
    (notIgnore : Z) (y : float) (il : SSearchOffsetLow) : option (flow float AIFloat3) :=
  let m := blockingMap tm in
  let xlow := center.1 + dxLow il in
  let zlow := center.2 + dyLow il in
  if negb (IsInBoundsLow m xlow zlow) then Some (Next y) else
  blocked ← IsBlockedLow m xlow zlow notIgnore;
  if blocked : bool then Some (Next y) else
  let p := F3 (f_of_Z ((xlow * 2 + 1) * SQUARE_SIZE * GRID_RATIO_LOW)) y
              (f_of_Z ((zlow * 2 + 1) * SQUARE_SIZE * GRID_RATIO_LOW)) in
  safe ← CanBeBuiltAtSafe cdef p;
  if negb safe then Some (Next (py p))
  else probe_loop probe (ofs il) (GRID_RATIO_LOW * GRID_RATIO_LOW) (py p).

Definition search_result (r : flow float AIFloat3) : AIFloat3 :=
  match r with Done p => p | Next _ => f3_neg RgtVector end.

(** The static tables. *)
Definition tables : Type := list SSearchOffset * list SSearchOffsetLow.

Definition search_radius (searchRadius : float) : option Z :=
  f_to_int (fdiv searchRadius (f_of_Z (SQUARE_SIZE * 2))).
Definition low_center (pos : AIFloat3) : option int2 :=
  x ← to_cell (px pos) (2 * GRID_RATIO_LOW);
  z ← to_cell (pz pos) (2 * GRID_RATIO_LOW);
  Some (x, z).

(** The end of [FindBuildSite]: the default search. *)
Definition FindBuildSiteDefault (tbls : tables) (pos : AIFloat3) (searchRadius : float)
    : option (AIFloat3 * tables) :=
  let size := default_size cdef facing in
  endr ← search_radius searchRadius;
  tbl ← GetSearchOffsetTable tbls.1 endr;
  corner ← corner_of pos size;
  r ← probe_loop (probe_default corner size) tbl (endr * endr * 4) f0;
  Some (search_result r, (tbl, tbls.2)).

Definition FindBuildSiteLow (tbls : tables) (pos : AIFloat3) (searchRadius : float)
    : option (AIFloat3 * tables) :=
  let size := default_size cdef facing in
  endr ← search_radius searchRadius;
  tbl ← GetSearchOffsetTableLow tbls.2 endr;
  let endrLow := Z.quot endr GRID_RATIO_LOW in
  center ← low_center pos;
  corner ← corner_of pos size;
  r ← probe_loop (probe_low (probe_default corner size) center Mask.ALL) tbl (endrLow * endrLow * 4) f0;
  Some (search_result r, (tbls.1, tbl)).

Definition FindBuildSiteByMaskLow (tbls : tables) (pos : AIFloat3) (searchRadius : float) (bm : IBlockMask)
    : option (AIFloat3 * tables) :=
  let size := mask_ssize cdef facing in
  endr ← search_radius searchRadius;
  tbl ← GetSearchOffsetTableLow tbls.2 endr;
  let endrLow := Z.quot endr GRID_RATIO_LOW in
  structCorner ← corner_of pos size;
  let maskCorner := i2sub structCorner (GetStructOffset bm facing) in
  center ← low_center pos;
  r ← probe_loop (probe_low (probe_mask bm structCorner maskCorner size) center (u16 (Z.lnot (ignoreMask bm))))
        tbl (endrLow * endrLow * 4) f0;
  Some (search_result r, (tbls.1, tbl)).

Definition FindBuildSiteByMask (tbls : tables) (pos : AIFloat3) (searchRadius : float) (bm : IBlockMask)
    : option (AIFloat3 * tables) :=
  if fgtb searchRadius (f_of_Z (SQUARE_SIZE * 2 * 100))
     || (xsize bm * zsize bm >? GRID_RATIO_LOW * GRID_RATIO_LOW * 9)
  then FindBuildSiteByMaskLow tbls pos searchRadius bm
  else
    let size := mask_ssize cdef facing in
    endr ← search_radius searchRadius;
    tbl ← GetSearchOffsetTable tbls.1 endr;
    structCorner ← corner_of pos size;
    let maskCorner := i2sub structCorner (GetStructOffset bm facing) in
    r ← probe_loop (probe_mask bm structCorner maskCorner size) tbl (endr * endr * 4) f0;
    Some (search_result r, (tbl, tbls.2)).

(** The dispatch of [FindBuildSite], after the buildings of the allies have been marked. *)
Definition find_site (tbls : tables) (pos : AIFloat3) (searchRadius : float) : option (AIFloat3 * tables) :=
  match blockInfos tm !! def_id cdef with
  | Some bm => FindBuildSiteByMask tbls pos searchRadius bm
  | None =>
      if fgtb searchRadius (f_of_Z (SQUARE_SIZE * 2 * 100)) then FindBuildSiteLow tbls pos searchRadius
      else FindBuildSiteDefault tbls pos searchRadius
  end.
End search.

(** [FindBuildSite]; [ally]: the last frame, the team and the friendly units, when the AI is ally
    aware. *)
Definition FindBuildSite (tm : CTerrainManager) (tbls : tables) (ally : option (Z * Z * list SFriendly))
    (cdef : CCircuitDef) (pos : AIFloat3) (searchRadius : float) (facing : Z) (predicate : AIFloat3 → bool)
    : option (AIFloat3 * CTerrainManager * tables) :=
  tm ← match ally with
       | Some (lastFrame, teamId, friendlies) => MarkAllyBuildings tm lastFrame teamId friendlies
       | None => Some tm
       end;
  '(p, tbls) ← find_site tm cdef facing predicate tbls pos searchRadius;
  Some (p, tm, tbls).
(** The overload without a predicate. *)
Definition FindBuildSite_any (tm : CTerrainManager) (tbls : tables) (ally : option (Z * Z * list SFriendly))
    (cdef : CCircuitDef) (pos : AIFloat3) (searchRadius : float) (facing : Z) :=
  FindBuildSite tm tbls ally cdef pos searchRadius facing (λ _, true).
End sites.
End terrain.
