(* ===== verification/BuildSearch.v ===== *)
(** * BuildSearch: what the build site searches of TerrainManager find

    The tables of search offsets, the soundness of every route of [FindBuildSite], and the default
    search as a search for the nearest site. *)

From stdpp Require Import sorting.
From S2P Require Import Prelude Float32 BlockingMap BlockMask EnemyUnit SectorGrid ThreatMap TerrainManager.

Open Scope circuit_scope.

(** ** The table of offsets *)

(** The offsets of the square [-R, R) x [-R, R), row by row. *)
Definition offset_nth (R shift i : Z) : SSearchOffset := offset_at R shift (i `mod` (R * 2)) (i `div` (R * 2)).
Definition square (R : Z) : list SSearchOffset := offset_nth R 0 <$> seqZ 0 (R * R * 4).
Definition table_ok (R : Z) (tbl : list SSearchOffset) : Prop :=
  tbl ≡ₚ square R ∧ StronglySorted (λ a b, qdist a <= qdist b) tbl.

Lemma zlen_seqZ b n : 0 <= n → zlen (seqZ b n) = n.
Proof. unfold zlen. intros ?. rewrite length_seqZ. lia. Qed.
Lemma zget_seqZ n i : 0 <= i < n → zget (seqZ 0 n) i = Some i.
Proof. intros ?. unfold zget. rewrite decide_True by lia. apply lookup_seqZ. lia. Qed.
Lemma zlen_grown {A} (v : list A) n a : zlen v <= n → zlen (resize v n a) = n.
Proof. unfold resize, zlen. intros ?. rewrite length_app, length_replicate. lia. Qed.

(** A doubly nested loop that writes every index of an array of [w * h] places once. *)
Lemma fill_grid {A} (w h : Z) (idx : Z → Z → Z) (f : Z → Z → list A → option (list A))
    (Q : list A → Z → A → Prop) (l0 : list A) :
  0 <= w → 0 <= h → (∀ x y, idx x y = y * w + x) → zlen l0 = w * h →
  (∀ x y l, 0 <= x < w → 0 <= y < h → zlen l = w * h → zget l (y * w + x) = zget l0 (y * w + x) →
     ∃ a, f x y l = l.[idx x y <- a] ∧ Q l0 (y * w + x) a) →
  ∃ l, zfor 0 h (λ y l, zfor 0 w (λ x l, f x y l) l) l0 = Some l ∧ zlen l = w * h ∧
    ∀ i, 0 <= i < w * h → ∃ a, zget l i = Some a ∧ Q l0 i a.
Proof.
  intros Hw Hh Hidx Hl0 Hf.
  destruct (zfor_ind (λ y l, zlen l = w * h ∧
    (∀ i, 0 <= i < y * w → ∃ a, zget l i = Some a ∧ Q l0 i a) ∧
    (∀ i, y * w <= i → zget l i = zget l0 i)) 0 h
    (λ y l, zfor 0 w (λ x l, f x y l) l) l0) as (l & Hl & Hlen & Hq & _); [done| | |].
  - split; [done|]. split; [intros; lia|done].
  - intros y l Hy (Hlen & Hq & Hrest).
    destruct (zfor_ind (λ x l, zlen l = w * h ∧
      (∀ i, 0 <= i < y * w + x → ∃ a, zget l i = Some a ∧ Q l0 i a) ∧
      (∀ i, y * w + x <= i → zget l i = zget l0 i)) 0 w (λ x l, f x y l) l)
      as (l' & Hl' & Hlen' & Hq' & Hrest'); [done| | |].
    + split; [done|]. rewrite Z.add_0_r. done.
    + intros x l1 Hx (Hlen1 & Hq1 & Hrest1).
      destruct (Hf x y l1) as (a & Ha & Hqa); [done|done|done|apply Hrest1; lia|].
      rewrite Ha, Hidx. assert (0 <= y * w + x < w * h) as Hb by nia.
      rewrite zset_Some by lia. eexists. split; [reflexivity|].
      assert (zset l1 (y * w + x) a = Some (<[Z.to_nat (y * w + x):=a]> l1)) as Hs by (apply zset_Some; lia).
      rewrite (zlen_zset _ _ _ _ Hs). split; [done|]. split.
      * intros i Hi. rewrite (zget_zset _ _ _ _ _ Hs). case_decide; [subst; eauto|]. apply Hq1. lia.
      * intros i Hi. rewrite (zget_zset_ne _ _ _ _ _ Hs) by lia. apply Hrest1. lia.
    + exists l'. split; [exact Hl'|]. split; [done|]. split; [intros; apply Hq'; lia|].
      intros; apply Hrest'. lia.
  - exists l. split; [exact Hl|]. split; [done|]. intros. apply Hq. lia.
Qed.

Lemma fill_offsets_ok R shift l :
  0 <= R → zlen l = R * R * 4 →
  fill_offsets R shift l = Some (offset_nth R shift <$> seqZ 0 (R * R * 4)).
Proof.
  intros HR Hl. unfold fill_offsets.
  destruct (fill_grid (R * 2) (R * 2) (λ x y, y * R * 2 + x)
    (λ x y l, l.[y * R * 2 + x <- offset_at R shift x y])
    (λ _ i a, a = offset_nth R shift i) l) as (l' & Hl' & Hlen & Hq); [lia|lia|intros; lia|lia| |].
  - intros x y l1 Hx Hy _ _. eexists. split; [reflexivity|]. unfold offset_nth.
    rewrite (Z.add_comm (y * (R * 2)) x), Z.mod_add, Z.div_add by lia.
    by rewrite Z.mod_small, (Z.div_small x) by lia.
  - rewrite Hl'. f_equal. apply zget_ext; [rewrite zlen_fmap, zlen_seqZ by lia; lia|].
    intros i. rewrite zget_fmap. destruct (decide (0 <= i < R * R * 4)).
    + destruct (Hq i) as (v & Hv & Hvq); [lia|]. rewrite Hv, Hvq. by rewrite zget_seqZ.
    + destruct (zget l' i) eqn:H1; [apply zget_Some_bound in H1; lia|].
      destruct (zget (seqZ 0 (R * R * 4)) i) eqn:H2; [|done].
      apply zget_Some_bound in H2. rewrite zlen_seqZ in H2 by lia. lia.
Qed.

Definition ofs_of (x y : Z) : SSearchOffset := MkOfs x y (x * x + y * y).

Lemma elem_of_square R o :
  0 <= R → o ∈ square R ↔ ∃ x y, - R <= x < R ∧ - R <= y < R ∧ o = ofs_of x y.
Proof.
  intros HR. unfold square. rewrite list_elem_of_fmap. split.
  - intros (i & -> & Hi%elem_of_seqZ). destruct (decide (R = 0)) as [->|]; [lia|].
    unfold offset_nth, offset_at, ofs_of. rewrite !Z.add_0_r. eexists _, _. split; [|split; [|reflexivity]].
    + pose proof (Z.mod_pos_bound i (R * 2)). lia.
    + pose proof (Z.div_le_lower_bound i (R * 2) 0). assert (i `div` (R * 2) < R * 2); [|lia].
      apply Z.div_lt_upper_bound; lia.
  - intros (x & y & Hx & Hy & ->). exists ((y + R) * (R * 2) + (x + R)). split.
    + unfold offset_nth, offset_at, ofs_of. rewrite (Z.add_comm _ (x + R)), Z.mod_add, Z.div_add by lia.
      rewrite Z.mod_small, (Z.div_small (x + R)) by lia. f_equal; [lia|lia|].
      replace (x + R - R + 0) with x by lia. by replace (0 + (y + R) - R + 0) with y by lia.
    + apply elem_of_seqZ. nia.
Qed.

Lemma square_NoDup R : 0 <= R → NoDup (square R).
Proof.
  intros HR. unfold square. apply NoDup_fmap_2_strong; [|apply NoDup_seqZ].
  intros i j Hi%elem_of_seqZ Hj%elem_of_seqZ [= Hx Hy _].
  destruct (decide (R = 0)) as [->|]; [lia|].
  rewrite (Z.div_mod i (R * 2)), (Z.div_mod j (R * 2)) by lia.
  replace (i `mod` (R * 2)) with (j `mod` (R * 2)) by lia.
  by replace (i `div` (R * 2)) with (j `div` (R * 2)) by lia.
Qed.

Lemma square_length R : 0 <= R → length (square R) = Z.to_nat (R * R * 4).
Proof. intros. unfold square. by rewrite length_fmap, length_seqZ. Qed.

Lemma table_zlen R tbl : 0 <= R → table_ok R tbl → zlen tbl = R * R * 4.
Proof. intros HR [Hp _]. unfold zlen. rewrite Hp, square_length by done. lia. Qed.

(** An earlier entry of the table is not farther. *)
Lemma sorted_lookup (tbl : list SSearchOffset) i j a b :
  StronglySorted (λ a b, qdist a <= qdist b) tbl → tbl !! i = Some a → tbl !! j = Some b → (i <= j)%nat →
  qdist a <= qdist b.
Proof.
  intros Hs. revert i j. induction Hs as [|c l Hs IH Hall]; intros i j Ha Hb Hij; [done|].
  destruct i as [|i], j as [|j]; simpl in *; simplify_eq; [lia| |lia|].
  - rewrite Forall_forall in Hall. apply Hall. by eapply list_elem_of_lookup_2.
  - eapply IH; [exact Ha|exact Hb|lia].
Qed.

(** The first [r * r * 4] entries hold every offset that is nearer than [r]. *)
Lemma near_early R tbl r o :
  0 <= r <= R → table_ok R tbl → o ∈ tbl → qdist o < r * r →
  ∃ i : nat, tbl !! i = Some o ∧ Z.of_nat i < r * r * 4.
Proof.
  intros Hr [Hp Hs] [i Hi]%list_elem_of_lookup Hd. exists i. split; [done|].
  assert (NoDup (take (S i) tbl)) as Hnd.
  { assert (NoDup tbl) as Hn by (rewrite Hp; apply square_NoDup; lia).
    rewrite <-(take_drop (S i) tbl) in Hn. by apply NoDup_app in Hn as (? & _ & _). }
  assert (take (S i) tbl ⊆+ square r) as Hsub.
  { apply NoDup_submseteq; [done|]. intros a Ha. apply elem_of_take in Ha as (j & Hj & Hlt).
    pose proof (sorted_lookup _ _ _ _ _ Hs Hj Hi ltac:(lia)) as Hle.
    assert (a ∈ square R) as Ha by (rewrite <-Hp; by eapply list_elem_of_lookup_2).
    apply elem_of_square in Ha as (x & y & Hx & Hy & ->); [|lia]. simpl in Hle.
    apply elem_of_square; [lia|]. exists x, y. split; [nia|]. split; [nia|done]. }
  apply submseteq_length in Hsub. rewrite length_take, square_length in Hsub by lia.
  apply lookup_lt_Some in Hi. lia.
Qed.

Section table.
Context {CS : CxxStd}.

Lemma GetSearchOffsetTable_ok R tbl r :
  0 <= R → table_ok R tbl → 0 <= r → r * r * 4 < 2 ^ 32 →
  ∃ R' tbl', GetSearchOffsetTable tbl r = Some tbl' ∧ table_ok R' tbl' ∧ 0 <= r <= R' ∧ R <= R'.
Proof.
  intros HR Ht Hr Hs. unfold GetSearchOffsetTable. rewrite u32_small by lia.
  rewrite (table_zlen R) by done. destruct (Z.gtb_spec (r * r * 4) (R * R * 4)).
  - rewrite fill_offsets_ok by (rewrite ?zlen_grown; rewrite ?(table_zlen R); lia || done).
    cbn [mbind option_bind]. exists r. eexists. split; [reflexivity|]. split; [|nia].
    split; [apply std_sort_perm|apply std_sort_sorted].
  - exists R, tbl. split; [done|]. split; [done|]. nia.
Qed.
End table.

(** ** Loops with an early exit *)

Lemma zfor_exit_done {S R} b e (f : Z → S → option (flow S R)) s r :
  zfor_exit b e f s = Some (Done r) → ∃ i s', b <= i < e ∧ f i s' = Some (Done r).
Proof.
  intros H. destruct (foldX_done (λ _, True) _ _ _ _ I (λ _ _ _ _ _ _, I) H) as (i & s' & Hi & _ & Hf).
  apply elem_of_seqZ in Hi. exists i, s'. split; [lia|done].
Qed.

(** Every iteration before the exit, or all of them, went on. *)
Lemma zfor_exit_passed {S R} b e (f : Z → S → option (flow S R)) s r :
  b <= e → zfor_exit b e f s = Some r →
  ∃ k, b <= k <= e ∧ (∀ i, b <= i < k → ∃ s1 s2, f i s1 = Some (Next s2)) ∧
    match r with Next _ => k = e | Done a => k < e ∧ ∃ s', f k s' = Some (Done a) end.
Proof.
  intros Hbe. remember (Z.to_nat (e - b)) as n eqn:Hn.
  revert b s Hbe Hn. induction n as [|n IH]; intros b s Hbe Hn.
  - rewrite zfor_exit_nil by lia. intros [= <-]. exists b. split; [lia|]. split; [lia|lia].
  - rewrite zfor_exit_cons by lia. destruct (f b s) as [[s'|a]|] eqn:Hf; [| |done]; cbn [mbind option_bind].
    + intros Hr. destruct (IH (b + 1) s') as (k & Hk & Hpre & Hend); [lia|lia|done|].
      exists k. split; [lia|]. split; [|done]. intros i Hi. destruct (decide (i = b)) as [->|]; [eauto|].
      apply Hpre. lia.
    + intros [= <-]. exists b. split; [lia|]. split; [lia|]. split; [lia|eauto].
Qed.

Lemma zfor_exit_total {S R} b e (f : Z → S → option (flow S R)) s :
  (∀ i s, b <= i < e → is_Some (f i s)) → is_Some (zfor_exit b e f s).
Proof.
  intros Hf. unfold zfor_exit. apply (foldX_total (λ _, True)); [done|].
  intros s' i Hi%elem_of_seqZ _. destruct (Hf i s') as [[s2|r] Hr]; [lia|left|right]; eauto.
Qed.

(** A rectangle that passes a scan has no cell that is hit. *)
Lemma scan_rect_free m1 m2 hit :
  scan_rect m1 m2 hit = Some true →
  ∀ x z, m1.1 <= x < m2.1 → m1.2 <= z < m2.2 → hit x z = Some false.
Proof.
  unfold scan_rect. intros H x z Hx Hz.
  destruct (zfor_exit m1.2 m2.2 _ tt) as [r|] eqn:Ho; [cbn [mbind option_bind] in H|done].
  destruct (zfor_exit_passed m1.2 m2.2 _ _ _ ltac:(lia) Ho) as (k & Hk & Hpre & Hend).
  destruct r as [[]|b].
  - subst k. destruct (Hpre z) as (s1 & s2 & Hi); [lia|].
    destruct (zfor_exit m1.1 m2.1 _ tt) as [r|] eqn:Hr; [cbn [mbind option_bind] in Hi|done].
    destruct (zfor_exit_passed m1.1 m2.1 _ _ _ ltac:(lia) Hr) as (k & Hk' & Hpre' & Hend').
    destruct r as [[]|b]; [|done]. subst k. destruct (Hpre' x) as (s3 & s4 & Hh); [lia|].
    destruct (hit x z) as [[]|]; [done|done|done].
  - destruct Hend as (_ & s' & Hi). injection H as ->.
    destruct (zfor_exit m1.1 m2.1 _ tt) as [r|] eqn:Hr; [cbn [mbind option_bind] in Hi|done].
    destruct r as [[]|b]; [done|]. injection Hi as ->.
    apply zfor_exit_done in Hr as (x' & [] & _ & Hh). destruct (hit x' k) as [[]|]; done.
Qed.

Section find.
Context {E : Engine} {TE : TerrainEngine} {CS : CxxStd}.
Context (ta : STerrain) (threatMap : CThreatMap).
Context (tm : CTerrainManager) (cdef : CCircuitDef) (facing : Z) (predicate : AIFloat3 → bool).

(** ** Soundness *)

(** The size of the building in cells, and that its cells (with a mask: the cells of the mask) are
    free.  The last row and column are outside what the mask test reads. *)
Definition site_size : int2 :=
  match blockInfos tm !! def_id cdef with
  | Some _ => mask_ssize cdef facing
  | None => default_size cdef facing
  end.
Definition site_free (s1 : int2) : Prop :=
  let m := blockingMap tm in
  match blockInfos tm !! def_id cdef with
  | None => ∀ x z, s1.1 <= x < s1.1 + site_size.1 → s1.2 <= z < s1.2 + site_size.2 →
              IsBlocked m x z Mask.ALL = Some false
  | Some bm =>
      let m1 := i2sub s1 (GetStructOffset bm facing) in
      ∀ x z, 0 <= x < columns m - 1 → 0 <= z < rows m - 1 →
        m1.1 <= x < m1.1 + facing_xsize facing bm → m1.2 <= z < m1.2 + facing_zsize facing bm →
        match GetType facing bm (x - m1.1) (z - m1.2) with
        | Some BLOCK => IsStructed m x z (GetStructMask (structType bm)) = Some false
        | Some STRUCT => IsBlocked m x z (u16 (Z.lnot (ignoreMask bm))) = Some false
        | Some OPEN => True
        | None => False
        end
  end.
Definition valid_site (p : AIFloat3) : Prop :=
  ∃ s1 y, let p0 := probe_at s1 (i2add s1 site_size) y in
    p = F3 (px p0) (GetElevationAt (px p0) (pz p0)) (pz p0) ∧
    IsInBounds (blockingMap tm) s1 (i2add s1 site_size) = true ∧ site_free s1 ∧
    CanBeBuiltAtSafe ta threatMap cdef p0 = Some true ∧
    IsPossibleToBuildAt cdef p0 facing = true ∧ predicate p = true.

Lemma try_build_done p r :
  try_build cdef facing predicate p = Done r →
  IsPossibleToBuildAt cdef p facing = true ∧ r = F3 (px p) (GetElevationAt (px p) (pz p)) (pz p) ∧
  predicate r = true.
Proof.
  unfold try_build. destruct (IsPossibleToBuildAt cdef p facing); [|done].
  destruct (predicate _) eqn:Hp; [|done]. by intros [= <-].
Qed.

Lemma probe_default_done corner y o r :
  blockInfos tm !! def_id cdef = None →
  probe_default ta threatMap tm cdef facing predicate corner (default_size cdef facing) y o = Some (Done r) →
  valid_site r.
Proof.
  intros Hbi. unfold probe_default. set (s1 := (corner.1 + dx o, corner.2 + dy o)).
  destruct (IsInBounds _ s1 _) eqn:Hb; [simpl|done].
  destruct (isOpenSite _ s1 _) as [[]|] eqn:Ho; [simpl|done|done].
  destruct (CanBeBuiltAtSafe _ _ _ _) as [[]|] eqn:Hs; [simpl|done|done].
  intros Ht. injection Ht as Ht. apply try_build_done in Ht as (Hp & -> & Hpr). exists s1, y. unfold site_free, site_size. rewrite Hbi.
  split; [done|]. split; [done|]. split; [|done].
  intros x z Hx Hz. by apply (scan_rect_free _ _ _ Ho).
Qed.

Lemma mask_fits_free bm m1 :
  mask_fits (blockingMap tm) bm facing m1 = Some true →
  ∀ x z, 0 <= x < columns (blockingMap tm) - 1 → 0 <= z < rows (blockingMap tm) - 1 →
    m1.1 <= x < m1.1 + facing_xsize facing bm → m1.2 <= z < m1.2 + facing_zsize facing bm →
    match GetType facing bm (x - m1.1) (z - m1.2) with
    | Some BLOCK => IsStructed (blockingMap tm) x z (GetStructMask (structType bm)) = Some false
    | Some STRUCT => IsBlocked (blockingMap tm) x z (u16 (Z.lnot (ignoreMask bm))) = Some false
    | Some OPEN => True
    | None => False
    end.
Proof.
  unfold mask_fits, Bound, isOpenMask. intros H x z Hx Hz Hx' Hz'. simpl in H.
  pose proof (scan_rect_free _ _ _ H x z) as Hf. simpl in Hf. specialize (Hf ltac:(lia) ltac:(lia)).
  replace (Z.max m1.1 0 - m1.1 + (x - Z.max m1.1 0)) with (x - m1.1) in Hf by lia.
  replace (Z.max m1.2 0 - m1.2 + (z - Z.max m1.2 0)) with (z - m1.2) in Hf by lia.
  by destruct (GetType facing bm (x - m1.1) (z - m1.2)) as [[]|].
Qed.

Lemma probe_mask_done bm corner y o r :
  blockInfos tm !! def_id cdef = Some bm →
  probe_mask ta threatMap tm cdef facing predicate bm corner (i2sub corner (GetStructOffset bm facing))
    (mask_ssize cdef facing) y o = Some (Done r) →
  valid_site r.
Proof.
  intros Hbi. unfold probe_mask. set (s1 := (corner.1 + dx o, corner.2 + dy o)).
  destruct (IsInBounds _ s1 _) eqn:Hb; [simpl|done].
  destruct (CanBeBuiltAtSafe _ _ _ _) as [[]|] eqn:Hs; [simpl|done|done].
  destruct (mask_fits _ _ _ _) as [[]|] eqn:Ho; [simpl|done|done].
  intros Ht. injection Ht as Ht. apply try_build_done in Ht as (Hp & -> & Hpr). exists s1, y. unfold site_free, site_size. rewrite Hbi.
  split; [done|]. split; [done|]. split; [|done].
  intros x z. unfold s1 at 1 2 3 4 5 6, i2sub. simpl.
  replace (corner.1 + dx o - (GetStructOffset bm facing).1) with (corner.1 - (GetStructOffset bm facing).1 + dx o) by lia.
  replace (corner.2 + dy o - (GetStructOffset bm facing).2) with (corner.2 - (GetStructOffset bm facing).2 + dy o) by lia.
  apply (mask_fits_free _ _ Ho).
Qed.

Lemma probe_loop_done {A} (probe : float → A → option (flow float AIFloat3)) tbl n y r :
  probe_loop probe tbl n y = Some (Done r) → ∃ y' o, probe y' o = Some (Done r).
Proof.
  unfold probe_loop. intros (i & y' & _ & Hf)%zfor_exit_done.
  destruct (zget tbl i) as [o|]; [|done]. by exists y', o.
Qed.

Lemma probe_low_done probe center ni y il r :
  probe_low ta threatMap tm cdef probe center ni y il = Some (Done r) → ∃ y' o, probe y' o = Some (Done r).
Proof.
  unfold probe_low. destruct (negb _); [done|]. destruct (IsBlockedLow _ _ _ _) as [[]|]; [done| |done].
  simpl. destruct (CanBeBuiltAtSafe _ _ _ _) as [[]|]; [simpl|done|done]. apply probe_loop_done.
Qed.

Lemma find_site_valid tbls pos radius p tbls' :
  find_site ta threatMap tm cdef facing predicate tbls pos radius = Some (p, tbls') →
  p = f3_neg RgtVector ∨ valid_site p.
Proof.
  unfold find_site. destruct (blockInfos tm !! def_id cdef) as [bm|] eqn:Hbi.
  - unfold FindBuildSiteByMask, FindBuildSiteByMaskLow. destruct (_ || _); intros H; bind_inv H; simplify_eq.
    + destruct x3 as [y|r]; [by left|right]. apply probe_loop_done in E4 as (? & ? & (? & ? & ?)%probe_low_done).
      by eapply probe_mask_done.
    + destruct x2 as [y|r]; [by left|right]. apply probe_loop_done in E3 as (? & ? & ?).
      by eapply probe_mask_done.
  - unfold FindBuildSiteLow, FindBuildSiteDefault. destruct (fgtb _ _); intros H; bind_inv H; simplify_eq.
    + destruct x3 as [y|r]; [by left|right]. apply probe_loop_done in E4 as (? & ? & (? & ? & ?)%probe_low_done).
      by eapply probe_default_done.
    + destruct x2 as [y|r]; [by left|right]. apply probe_loop_done in E3 as (? & ? & ?).
      by eapply probe_default_done.
Qed.

(** ** The searches without the coarse grid return, and find the nearest site *)

(** The probe of the route for [cdef], at an offset from the corner at the wanted position. *)
Definition probe_of (corner : int2) : float → SSearchOffset → option (flow float AIFloat3) :=
  match blockInfos tm !! def_id cdef with
  | Some bm => probe_mask ta threatMap tm cdef facing predicate bm corner
                 (i2sub corner (GetStructOffset bm facing)) (mask_ssize cdef facing)
  | None => probe_default ta threatMap tm cdef facing predicate corner (default_size cdef facing)
  end.
(** The position a probe at offset [(x, z)] would return. *)
Definition site_at (corner : int2) (x z : Z) : option AIFloat3 :=
  match probe_of corner f0 (ofs_of x z) with Some (Done p) => Some p | _ => None end.

(** The engine's test does not depend on the height it is given. *)
Definition height_blind : Prop :=
  ∀ p y, IsPossibleToBuildAt cdef (F3 (px p) y (pz p)) facing = IsPossibleToBuildAt cdef p facing.

Lemma try_build_y x z y y' r :
  height_blind → try_build cdef facing predicate (F3 x y z) = Done r →
  try_build cdef facing predicate (F3 x y' z) = Done r.
Proof.
  intros Hy. unfold try_build.
  pose proof (Hy (F3 x y' z) y) as H. simpl in H. rewrite H.
  destruct (IsPossibleToBuildAt cdef (F3 x y' z) facing); [|done]. by destruct (predicate _).
Qed.

Lemma probe_of_y corner y y' o r :
  height_blind → probe_of corner y o = Some (Done r) → probe_of corner y' o = Some (Done r).
Proof.
  intros Hy. unfold probe_of. destruct (blockInfos tm !! def_id cdef) as [bm|].
  - unfold probe_mask. destruct (negb _); [done|].
    change (CanBeBuiltAtSafe ta threatMap cdef (probe_at ?a ?b y')) with
      (CanBeBuiltAtSafe ta threatMap cdef (probe_at a b y)).
    destruct (CanBeBuiltAtSafe _ _ _ _) as [[]|]; [simpl|done|done].
    destruct (mask_fits _ _ _ _) as [[]|]; [simpl|done|done].
    intros H. injection H as H. f_equal. by eapply try_build_y.
  - unfold probe_default. destruct (negb _); [done|].
    destruct (isOpenSite _ _ _) as [[]|]; [simpl|done|done].
    change (CanBeBuiltAtSafe ta threatMap cdef (probe_at ?a ?b y')) with
      (CanBeBuiltAtSafe ta threatMap cdef (probe_at a b y)).
    destruct (CanBeBuiltAtSafe _ _ _ _) as [[]|]; [simpl|done|done].
    intros H. injection H as H. f_equal. by eapply try_build_y.
Qed.

Lemma zget_lookup {A} (l : list A) (i : nat) a : l !! i = Some a → zget l (Z.of_nat i) = Some a.
Proof. intros. unfold zget. rewrite decide_True by lia. by rewrite Nat2Z.id. Qed.

Lemma probe_loop_nearest (probe : float → SSearchOffset → option (flow float AIFloat3)) tbl R r res :
  0 <= r <= R → table_ok R tbl →
  (∀ y y' o p, probe y o = Some (Done p) → probe y' o = Some (Done p)) →
  probe_loop probe tbl (r * r * 4) f0 = Some res →
  match res with
  | Done p => ∃ o, o ∈ square R ∧ probe f0 o = Some (Done p) ∧
                ∀ o', o' ∈ square R → qdist o' < qdist o → ∀ y p', probe y o' ≠ Some (Done p')
  | Next _ => ∀ o', o' ∈ square R → qdist o' < r * r → ∀ y p', probe y o' ≠ Some (Done p')
  end.
Proof.
  intros Hr Ht Hy Hl. pose proof Ht as [Hp Hs]. unfold probe_loop in Hl.
  destruct (zfor_exit_passed 0 (r * r * 4) _ _ _ ltac:(nia) Hl) as (k & Hk & Hpre & Hend).
  assert (∀ o' (j : nat), tbl !! j = Some o' → Z.of_nat j < k → ∀ y p', probe y o' ≠ Some (Done p')) as Hno.
  { intros o' j Hj Hlt y p' Hd. destruct (Hpre (Z.of_nat j)) as (s1 & s2 & Hf); [lia|].
    rewrite (zget_lookup _ _ _ Hj) in Hf. simpl in Hf. rewrite (Hy y s1 o' p' Hd) in Hf. done. }
  destruct res as [yr|p].
  - subst k. intros o' Ho' Hd. rewrite <-Hp in Ho'.
    destruct (near_early R tbl r o' Hr Ht Ho' Hd) as (j & Hj & Hlt). by apply (Hno o' j).
  - destruct Hend as (Hlt & y & Hf). destruct (zget tbl k) as [o|] eqn:Hg; [simpl in Hf|done].
    unfold zget in Hg. rewrite decide_True in Hg by lia. exists o.
    split; [rewrite <-Hp; by eapply list_elem_of_lookup_2|]. split; [by eapply Hy|].
    intros o' Ho' Hd. rewrite <-Hp in Ho'. apply list_elem_of_lookup in Ho' as [j Hj].
    apply (Hno o' j); [done|]. destruct (decide (Z.of_nat j < k)); [done|].
    pose proof (sorted_lookup _ _ _ _ _ Hs Hg Hj ltac:(lia)). lia.
Qed.

(** The loops have no undefined behaviour. *)
Lemma scan_rect_total m1 m2 hit :
  (∀ x z, m1.1 <= x < m2.1 → m1.2 <= z < m2.2 → is_Some (hit x z)) → is_Some (scan_rect m1 m2 hit).
Proof.
  intros Hh. unfold scan_rect.
  match goal with |- context [zfor_exit ?b ?e ?f ?s] => destruct (zfor_exit_total b e f s) as [r ->]; [|eauto] end.
  intros z [] Hz.
  match goal with |- context [zfor_exit ?b ?e ?f ?s] => destruct (zfor_exit_total b e f s) as [r ->]; [|eauto] end.
  intros x [] Hx. destruct (Hh x z) as [b ->]; [done|done|]. eauto.
Qed.

(** The threat and terrain queries are defined at the centre of every footprint inside the map. *)
Definition safe_defined : Prop :=
  ∀ s1 y, IsInBounds (blockingMap tm) s1 (i2add s1 site_size) = true →
    is_Some (CanBeBuiltAtSafe ta threatMap cdef (probe_at s1 (i2add s1 site_size) y)).

Lemma IsBlocked_total m x z ni : map_wf m → in_map m x z → is_Some (IsBlocked m x z ni).
Proof. intros H Hin. destruct (get_cell_ok m x z H Hin) as (c & Hc & _). unfold IsBlocked. rewrite Hc. eauto. Qed.
Lemma IsStructed_total m x z sm : map_wf m → in_map m x z → is_Some (IsStructed m x z sm).
Proof. intros H Hin. destruct (get_cell_ok m x z H Hin) as (c & Hc & _). unfold IsStructed. rewrite Hc. eauto. Qed.

Lemma probe_of_total corner y o :
  map_wf (blockingMap tm) → map_Forall (λ _ bm, mask_wf bm) (blockInfos tm) → safe_defined →
  is_Some (probe_of corner y o).
Proof.
  intros Hm Hbm Hsafe. unfold safe_defined, site_size in Hsafe. unfold probe_of. destruct (blockInfos tm !! def_id cdef) as [bm|] eqn:Hbi.
  - unfold probe_mask. destruct (negb _) eqn:Hb; [eauto|]. apply negb_false_iff in Hb.
    destruct (Hsafe _ y Hb) as [b ->]. cbn [mbind option_bind]. destruct b; [|eauto]. simpl negb.
    unfold mask_fits, Bound. cbn [fst snd].
    match goal with |- context [isOpenMask ?m ?bm ?f ?b1 ?b2 ?om] =>
      assert (is_Some (isOpenMask m bm f b1 b2 om)) as [fits ->]; [|simpl; eauto] end.
    apply scan_rect_total. cbn [fst snd i2sub]. intros x z Hx Hz.
    edestruct (GetType_is_Some facing bm) as [bt Hbt]; [by eapply Hbm| | |rewrite Hbt]; [lia|lia|].
    assert (in_map (blockingMap tm) x z) by (unfold in_map; lia). simpl.
    destruct bt; eauto using IsBlocked_total, IsStructed_total.
  - unfold probe_default. destruct (negb _) eqn:Hb; [eauto|]. apply negb_false_iff in Hb.
    match goal with |- context [isOpenSite ?m ?a ?b] => assert (is_Some (isOpenSite m a b)) as [op ->] end.
    { apply scan_rect_total. intros x z Hx Hz. apply IsBlocked_total; [done|].
      unfold IsInBounds in Hb. unfold in_map. lia. }
    simpl. destruct op; [simpl|eauto]. destruct (Hsafe _ y Hb) as [b ->]. simpl. eauto.
Qed.

Lemma probe_loop_total {A} (probe : float → A → option (flow float AIFloat3)) tbl n y :
  n <= zlen tbl → (∀ y o, is_Some (probe y o)) → is_Some (probe_loop probe tbl n y).
Proof.
  intros Hn Hp. apply zfor_exit_total. intros i y' Hi.
  destruct (zget_is_Some tbl i) as [o ->]; [lia|]. apply Hp.
Qed.

(** The route of [find_site] that uses the fine table. *)
Definition fine_route (radius : float) : Prop :=
  fgtb radius (f_of_Z (SQUARE_SIZE * 2 * 100)) = false ∧
  ∀ bm, blockInfos tm !! def_id cdef = Some bm →
    xsize bm * zsize bm <= GRID_RATIO_LOW * GRID_RATIO_LOW * 9.

Lemma find_site_fine tbls pos radius :
  fine_route radius →
  find_site ta threatMap tm cdef facing predicate tbls pos radius =
    endr ← search_radius radius;
    tbl ← GetSearchOffsetTable tbls.1 endr;
    corner ← corner_of pos site_size;
    r ← probe_loop (probe_of corner) tbl (endr * endr * 4) f0;
    Some (search_result r, (tbl, tbls.2)).
Proof.
  intros [Hf Hm]. unfold find_site, FindBuildSiteByMask, FindBuildSiteDefault, probe_of, site_size.
  rewrite Hf. destruct (blockInfos tm !! def_id cdef) as [bm|]; [|done]. simpl.
  rewrite Z.gtb_ltb, (proj2 (Z.ltb_ge _ _)) by (by apply Hm). done.
Qed.
End find.

Section claims.
Context {E : Engine} {TE : TerrainEngine} {CS : CxxStd}.

(** C31: Soundness of FindBuildSite on every route (default or mask, fine or coarse tables, ally aware or
    not): a position it returns, when it is not the failure value, is the centre of a footprint inside
    the map whose cells are free (with a mask: structure cells unblocked, blocking cells on no foreign
    structure), which is safe and buildable terrain, where the engine accepts the building and where the
    caller's predicate holds. *)
Theorem FindBuildSite_sound ta threatMap tm tbls ally cdef pos radius facing predicate p tm' tbls' :
  FindBuildSite ta threatMap tm tbls ally cdef pos radius facing predicate = Some (p, tm', tbls') →
  p = f3_neg RgtVector ∨ valid_site ta threatMap tm' cdef facing predicate p.
Proof.
  unfold FindBuildSite. intros H.
  destruct (match ally with Some _ => _ | None => _ end) as [tm1|]; [cbn [mbind option_bind] in H|done].
  destruct (find_site _ _ _ _ _ _ _ _ _) as [[p1 t1]|] eqn:Hf; [|done]. simpl in H. simplify_eq.
  by eapply find_site_valid.
Qed.

(** C21: The fine search is total and finds the nearest site of its table.  Assume a search by the fine table (a
    radius of at most 200 squares, a small mask), a well-formed map and masks, a static table of some radius, an engine test that does not look at the height of the probe, and that the
    threat and terrain queries are defined at every footprint inside the map.  Then the search returns, and the table
    it leaves is the sorted square of offsets [-R', R') x [-R', R') of a radius R' that is at least the search
    radius.  Either it returns the site at some offset, and no offset of that square strictly nearer to the wanted
    position has a site, hence no offset at all when the site is within R'; or it returns the failure value, and then no offset nearer than the
    search radius has a site. *)
Theorem find_site_nearest ta threatMap tm cdef facing predicate tbls pos radius R endr corner
    (HR : 0 <= R) (Ht : table_ok R tbls.1)
    (Hm : map_wf (blockingMap tm)) (Hbm : map_Forall (λ _ bm, mask_wf bm) (blockInfos tm))
    (Hsafe : safe_defined ta threatMap tm cdef facing) (Hblind : height_blind cdef facing)
    (Hfine : fine_route tm cdef radius)
    (Hendr : search_radius radius = Some endr) (Hb : 0 <= endr ∧ endr * endr * 4 < 2 ^ 32)
    (Hcorner : corner_of pos (site_size tm cdef facing) = Some corner) :
  ∃ p tbls' R',
    find_site ta threatMap tm cdef facing predicate tbls pos radius = Some (p, tbls') ∧
    table_ok R' tbls'.1 ∧ endr <= R' ∧
    ((∃ x z, site_at ta threatMap tm cdef facing predicate corner x z = Some p ∧
        (∀ x' z', - R' <= x' < R' → - R' <= z' < R' → x' * x' + z' * z' < x * x + z * z →
          site_at ta threatMap tm cdef facing predicate corner x' z' = None) ∧
        (x * x + z * z <= R' * R' → ∀ x' z', x' * x' + z' * z' < x * x + z * z →
          site_at ta threatMap tm cdef facing predicate corner x' z' = None)) ∨
     p = f3_neg RgtVector ∧
       ∀ x z, x * x + z * z < endr * endr →
         site_at ta threatMap tm cdef facing predicate corner x z = None).
Proof.
  destruct Hb as [H0 Hb]. destruct (GetSearchOffsetTable_ok R tbls.1 endr HR Ht H0 Hb) as (R' & tbl & Hg & Ht' & Hr & _).
  rewrite find_site_fine by done. rewrite Hendr. simpl. rewrite Hg. simpl. rewrite Hcorner. simpl.
  destruct (probe_loop_total (probe_of ta threatMap tm cdef facing predicate corner) tbl (endr * endr * 4) f0)
    as [res Hres].
  { rewrite (table_zlen R') by (done || lia). nia. }
  { intros. by apply probe_of_total. }
  rewrite Hres. simpl. eexists _, _, R'. split; [reflexivity|]. split; [done|]. split; [lia|].
  assert (∀ x z, (∀ y p', probe_of ta threatMap tm cdef facing predicate corner y (ofs_of x z) ≠ Some (Done p')) →
    site_at ta threatMap tm cdef facing predicate corner x z = None) as Hnone.
  { intros x z Hn. unfold site_at. destruct (probe_of _ _ _ _ _ _ _ _ _) as [[|p']|] eqn:Hp; [done| |done].
    by destruct (Hn _ _ Hp). }
  pose proof (probe_loop_nearest (probe_of ta threatMap tm cdef facing predicate corner) tbl R' endr res Hr Ht'
    (λ y y' o p, probe_of_y ta threatMap tm cdef facing predicate corner y y' o p Hblind) Hres) as Hnear.
  destruct res as [y|p]; [right|left].
  - split; [done|]. intros x z Hd. apply Hnone. apply Hnear; [|done].
    apply elem_of_square; [lia|]. exists x, z. split; [nia|]. split; [nia|done].
  - destruct Hnear as (o & Ho & Hp & Hlt). apply elem_of_square in Ho as (x & z & Hx & Hz & ->); [|lia].
    exists x, z. split; [unfold site_at; by rewrite Hp|].
    assert (∀ x' z', - R' <= x' < R' → - R' <= z' < R' → x' * x' + z' * z' < x * x + z * z →
      site_at ta threatMap tm cdef facing predicate corner x' z' = None) as Hnear.
    { intros x' z' Hx' Hz' Hd. apply Hnone. apply Hlt; [|done]. apply elem_of_square; [lia|]. by exists x', z'. }
    split; [exact Hnear|]. intros HR' x' z' Hd. apply Hnear; nia.
Qed.
End claims.

(** ** Witnesses *)

(** [std::sort] as merge sort. *)
Definition key_le {A} (key : A → Z) (a b : A) : Prop := key a <= key b.
#[local] Instance key_le_dec {A} (key : A → Z) a b : Decision (key_le key a b).
Proof. unfold key_le. apply _. Defined.
#[local] Instance key_le_trans {A} (key : A → Z) : Transitive (key_le key).
Proof. intros a b c. unfold key_le. lia. Qed.
#[local] Instance key_le_total {A} (key : A → Z) : Total (key_le key).
Proof. intros a b. unfold key_le. lia. Qed.
Definition example_std : CxxStd.
Proof.
  refine {| std_sort A key l := merge_sort (key_le key) l |}.
  - intros A key l. apply merge_sort_Permutation.
  - intros A key l. apply (StronglySorted_merge_sort (key_le key)).
Defined.

Definition example_terrain_engine : TerrainEngine := {|
  RgtVector := F3 f1 f0 f0;
  f3_neg v := F3 (fneg (px v)) (fneg (py v)) (fneg (pz v));
  IsPossibleToBuildAt _ _ _ := true;
  GetElevationAt _ _ := f_of_Z 3
|}.

(** ** The coarse table *)

Section low_table.
Context {CS : CxxStd}.

Definition ofs_len (il : SSearchOffsetLow) : Z := zlen (ofs il).

Lemma push_cell_ok tbl r k xl yl il :
  zlen tbl = r * r * 4 → 0 <= k → k * GRID_RATIO_LOW <= r → 0 <= xl < k * 2 → 0 <= yl < k * 2 →
  ∃ o, push_cell tbl r xl yl il = Some o ∧ zlen o = zlen il + 64.
Proof.
  intros Ht Hk Hr Hx Hy. unfold GRID_RATIO_LOW in Hr. unfold push_cell, GRID_RATIO_LOW.
  destruct (zfor_ind (λ y l, zlen l = zlen il + 8 * (y - yl * 8)) (yl * 8) ((yl + 1) * 8)
    (λ y l, zfor (xl * 8) (xl * 8 + 8) (λ x l, o ← tbl.[y * r * 2 + x]; Some (l ++ [o])) l) il)
    as (o & Ho & Hlen); [lia|lia| |exists o; split; [exact Ho|lia]].
  intros y l Hyr Hl.
  destruct (zfor_ind (λ x l', zlen l' = zlen l + (x - xl * 8)) (xl * 8) (xl * 8 + 8)
    (λ x l, o ← tbl.[y * r * 2 + x]; Some (l ++ [o])) l) as (l' & Hl' & Hlen'); [lia|lia| |].
  - intros x l1 Hxr Hl1. destruct (zget_is_Some tbl (y * r * 2 + x)) as [a ->]; [rewrite Ht; nia|].
    simpl. eexists. split; [reflexivity|]. rewrite zlen_app. unfold zlen at 2. simpl. lia.
  - exists l'. split; [exact Hl'|]. lia.
Qed.

Lemma low_growth tbl r :
  let k := Z.quot r GRID_RATIO_LOW in
  0 <= r → zlen tbl < k * k * 4 → k * k * 4 < 2 ^ 32 →
  ∃ tbl', GetSearchOffsetTableLow tbl r = Some tbl' ∧
    ofs_len <$> tbl' ≡ₚ ((λ n, n + 64) <$> (ofs_len <$> tbl)) ++ replicate (Z.to_nat (k * k * 4 - zlen tbl)) 64.
Proof.
  intros k Hr Hlt Hs. assert (0 <= k) as Hk by (apply Z.quot_pos; unfold GRID_RATIO_LOW; lia).
  assert (k * GRID_RATIO_LOW <= r) as Hkr.
  { unfold k, GRID_RATIO_LOW. pose proof (Z.quot_rem' r 8). pose proof (Z.rem_bound_pos r 8). lia. }
  unfold GetSearchOffsetTableLow. fold k. rewrite u32_small by lia.
  rewrite Z.gtb_ltb, (proj2 (Z.ltb_lt _ _)) by done.
  rewrite fill_offsets_ok by (lia || (rewrite zlen_grown; [done|unfold zlen; simpl; nia])).
  cbn [mbind option_bind]. set (tblf := offset_nth r _ <$> _).
  assert (zlen tblf = r * r * 4) as Hf by (unfold tblf; rewrite zlen_fmap, zlen_seqZ; nia).
  set (l0 := resize tbl (k * k * 4) no_ofsLow).
  assert (zlen l0 = k * k * 4) as Hl0 by (apply zlen_grown; lia).
  destruct (fill_grid (k * 2) (k * 2) (λ x y, y * k * 2 + x) (λ x y l, fill_low_cell tblf r k x y l)
    (λ l0 i a, ∃ il, zget l0 i = Some il ∧ ofs_len a = ofs_len il + 64) l0)
    as (l & Hl & Hlen & Hq); [lia|lia|intros; lia|lia| |].
  - intros x y l1 Hx Hy Hlen1 Hget. unfold fill_low_cell. replace (y * k * 2 + x) with (y * (k * 2) + x) by lia.
    destruct (zget_is_Some l1 (y * (k * 2) + x)) as [il Hil]; [nia|]. rewrite Hil. cbn [mbind option_bind].
    destruct (push_cell_ok tblf r k x y (ofs il)) as (o & -> & Ho); [done..|]. cbn [mbind option_bind].
    eexists. split; [reflexivity|]. exists il. split; [by rewrite <-Hget|].
    unfold ofs_len. simpl. unfold zlen in *. by rewrite std_sort_perm.
  - rewrite Hl. cbn [mbind option_bind]. eexists. split; [reflexivity|]. rewrite std_sort_perm.
    assert (ofs_len <$> l = (λ n, n + 64) <$> (ofs_len <$> l0)) as ->.
    { apply zget_ext; [rewrite !zlen_fmap; lia|]. intros i. rewrite !zget_fmap.
      destruct (decide (0 <= i < k * k * 4)) as [Hi|Hi].
      - destruct (Hq i) as (a & -> & il & -> & Ha); [lia|]. simpl. by rewrite Ha.
      - destruct (zget l i) eqn:H1; [apply zget_Some_bound in H1; lia|].
        destruct (zget l0 i) eqn:H2; [apply zget_Some_bound in H2; lia|done]. }
    unfold l0, resize. rewrite !fmap_app, !fmap_replicate. done.
Qed.

(** The coarse table when it grows: after a first search of radius r1 and a larger one of radius r2, the
    static table has its full number of coarse cells, but as many of them as the first table had hold
    128 offsets instead of 64, because the offsets are pushed to a vector that is not cleared. *)
Theorem low_table_stale r1 r2 :
  let k1 := Z.quot r1 GRID_RATIO_LOW in
  let k2 := Z.quot r2 GRID_RATIO_LOW in
  0 <= r1 → 0 <= r2 → 0 < k1 < k2 → k2 * k2 * 4 < 2 ^ 32 →
  ∃ t1 t2, GetSearchOffsetTableLow [] r1 = Some t1 ∧ GetSearchOffsetTableLow t1 r2 = Some t2 ∧
    (∀ il, il ∈ t1 → ofs_len il = 64) ∧
    ofs_len <$> t2 ≡ₚ
      replicate (Z.to_nat (k1 * k1 * 4)) 128 ++ replicate (Z.to_nat (k2 * k2 * 4 - k1 * k1 * 4)) 64.
Proof.
  intros k1 k2 H1 H2 Hk Hs.
  destruct (low_growth [] r1) as (t1 & Ht1 & Hl1); [done|fold k1; unfold zlen; simpl; nia|fold k1; nia|].
  fold k1 in Hl1. change (zlen []) with 0 in Hl1. simpl in Hl1. rewrite Z.sub_0_r in Hl1.
  assert (zlen t1 = k1 * k1 * 4) as Hz.
  { apply Permutation_length in Hl1. rewrite length_fmap, length_replicate in Hl1. unfold zlen. nia. }
  destruct (low_growth t1 r2) as (t2 & Ht2 & Hl2); [done|fold k2; nia|fold k2; nia|].
  fold k2 in Hl2. exists t1, t2. split; [done|]. split; [done|]. split.
  - intros il Hil. assert (ofs_len il ∈ ofs_len <$> t1) as Hin by (apply list_elem_of_fmap; eauto).
    rewrite Hl1 in Hin. by apply elem_of_replicate in Hin as [? _].
  - etrans; [exact Hl2|]. rewrite Hz. apply Permutation_app; [|done].
    rewrite Hl1, fmap_replicate. done.
Qed.

End low_table.

Lemma low_table_stale_witness :
  ∃ t1 t2 il, @GetSearchOffsetTableLow example_std [] 100 = Some t1 ∧
    @GetSearchOffsetTableLow example_std t1 200 = Some t2 ∧ il ∈ t2 ∧ ofs_len il = 128.
Proof.
  destruct (@low_table_stale example_std 100 200) as (t1 & t2 & H1 & H2 & _ & H);
    [lia|lia|vm_compute; split; reflexivity|vm_compute; reflexivity|].
  assert (128 ∈ ofs_len <$> t2) as Hin.
  { rewrite H. apply elem_of_app. left. apply elem_of_replicate. split; [reflexivity|discriminate]. }
  apply list_elem_of_fmap in Hin as (il & Hl & Hil).
  exists t1, t2, il. exact (conj H1 (conj H2 (conj Hil (eq_sym Hl)))).
Defined.

#[local] Existing Instance example_engine.
#[local] Existing Instance example_std.
#[local] Existing Instance example_terrain_engine.

Definition building_def : CCircuitDef :=
  MkDef 7 4 4 0 0 0 None f0 f0 f0 f0 RANGE_LAND [f0; f0; f0] [0; 0; 0; 0; 0]
        f0 f0 false false false false false false false false (f_of_Z 100) f0 (f_of_Z 50) (-1) 0 false.
(** One sector of 256 squares, all of it buildable. *)
Definition example_ta : STerrain := MkTerrain 256 1 [] [{[0]}].
Definition example_threat : option CThreatMap := fst <$> map_example.
(** A structure stands on the wanted place of an empty map of 8 x 8 cells. *)
Definition example_tm : option CTerrainManager :=
  m ← AddStruct m16 3 3 UNKNOWN 0; Some (MkTM (-1) [] m ∅).
Definition example_pos : AIFloat3 := F3 (f_of_Z 64) f0 (f_of_Z 64).

Definition example_found : AIFloat3 := F3 (f_of_Z 80) (f_of_Z 3) (f_of_Z 64).
Lemma example_search :
  (thr ← example_threat; tm ← example_tm;
   r ← FindBuildSite example_ta thr tm ([], []) None building_def example_pos (f_of_Z 48) 0 (λ _, true);
   Some r.1.1) = Some example_found.
Proof. vm_compute. reflexivity. Qed.

Lemma FindBuildSite_sound_witness :
  ∃ thr tm, example_threat = Some thr ∧ valid_site example_ta thr tm building_def 0 (λ _, true) example_found.
Proof.
  pose proof example_search as Hs. destruct example_threat as [thr|]; [|discriminate Hs].
  destruct example_tm as [tm|]; [|discriminate Hs]. cbn [mbind option_bind] in Hs.
  destruct (FindBuildSite example_ta thr tm ([], []) None building_def example_pos (f_of_Z 48) 0 (λ _, true))
    as [[[p tm'] t']|] eqn:Hf; [|discriminate Hs].
  cbn [mbind option_bind fst] in Hs. assert (p = example_found) as -> by congruence.
  destruct (FindBuildSite_sound _ _ _ _ _ _ _ _ _ _ _ _ _ Hf) as [H|H].
  - exfalso. vm_compute in H. discriminate H.
  - exists thr, tm'. split; [reflexivity|exact H].
Defined.

Lemma example_safe thr tm :
  example_threat = Some thr → example_tm = Some tm → safe_defined example_ta thr tm building_def 0.
Proof.
  intros Ht Hm. assert (columns (blockingMap tm) = 8 ∧ rows (blockingMap tm) = 8 ∧ blockInfos tm = ∅) as (Hc & Hr & Hbi).
  { vm_compute in Hm. by simplify_eq. }
  intros [x z] y Hb. unfold site_size in *. rewrite Hbi, lookup_empty in *. unfold IsInBounds in Hb.
  rewrite Hc, Hr in Hb. cbn [i2add fst snd default_size building_def def_xsize def_zsize] in *.
  change (Z.quot (if Z.land 0 1 =? 0 then 4 else 4) 2) with 2 in *.
  change (Z.quot (if Z.land 0 1 =? 1 then 4 else 4) 2) with 2 in *.
  assert (forallb (λ x, forallb (λ z, match (thr ← example_threat; CanBeBuiltAtSafe example_ta thr building_def
    (probe_at (x, z) (x + 2, z + 2) f0)) with Some _ => true | None => false end) (seqZ 0 6)) (seqZ 0 6) = true) as Hall
    by (vm_compute; reflexivity).
  rewrite Ht, forallb_forall in Hall. specialize (Hall x). rewrite forallb_forall in Hall.
  specialize (Hall ltac:(apply list_elem_of_In, elem_of_seqZ; lia) z ltac:(apply list_elem_of_In, elem_of_seqZ; lia)).
  cbn [mbind option_bind] in Hall.
  change (is_Some (CanBeBuiltAtSafe example_ta thr building_def (probe_at (x, z) (x + 2, z + 2) f0))).
  destruct (CanBeBuiltAtSafe _ _ _ _); [eauto|done].
Qed.

Lemma example_tm_wf tm :
  example_tm = Some tm → map_wf (blockingMap tm) ∧ blockInfos tm = ∅.
Proof.
  unfold example_tm. intros Hm.
  destruct (AddStruct_ok m16 3 3 UNKNOWN 0 0 0) as (m' & Heq & Hw & _).
  - exact (proj1 m16_refines).
  - split; vm_compute; split; congruence.
  - reflexivity.
  - reflexivity.
  - reflexivity.
  - rewrite Heq in Hm. simpl in Hm. by simplify_eq.
Qed.

Lemma find_site_nearest_witness :
  ∃ thr tm p tbls' R', example_threat = Some thr ∧ example_tm = Some tm ∧
    find_site example_ta thr tm building_def 0 (λ _, true) ([], []) example_pos (f_of_Z 48) = Some (p, tbls') ∧
    table_ok R' tbls'.1 ∧ 3 <= R'.
Proof.
  destruct example_threat as [thr|] eqn:Ht; [|by vm_compute in Ht].
  destruct example_tm as [tm|] eqn:Hm; [|by vm_compute in Hm].
  destruct (example_tm_wf tm Hm) as [Hw Hbi].
  destruct (find_site_nearest example_ta thr tm building_def 0 (λ _, true) ([], []) example_pos (f_of_Z 48) 0 3 (3, 3))
    as (p & tbls' & R' & Hf & Htab & Hr & _).
  - lia.
  - split; [reflexivity|constructor].
  - exact Hw.
  - rewrite Hbi. apply map_Forall_empty.
  - by apply example_safe.
  - intros q y. reflexivity.
  - split; [vm_compute; reflexivity|]. rewrite Hbi. intros bm. rewrite lookup_empty. discriminate.
  - vm_compute. reflexivity.
  - lia.
  - unfold site_size. rewrite Hbi, lookup_empty. vm_compute. reflexivity.
  - exists thr, tm, p, tbls', R'. by repeat (split; [done|]).
Defined.
