(* ===== verification/AllyBuildings.v ===== *)
(** * AllyBuildings: following the buildings of the allies, and what marking a building does

    Theorems about [MarkAllyBuildings] and [MarkBlockerByMask] of TerrainManager. *)

From stdpp Require Import sorting.
From S2P Require Import Prelude Float32 BlockingMap BlockMask EnemyUnit TerrainManager.

Open Scope circuit_scope.

Lemma filter_ext_in {A} (P Q : A → Prop) `{∀ x, Decision (P x)} `{∀ x, Decision (Q x)} (l : list A) :
  (∀ x, x ∈ l → P x ↔ Q x) → filter P l = filter Q l.
Proof.
  induction l as [|x l IH]; intros Hl; [done|].
  assert (filter P l = filter Q l) as Hr by (apply IH; intros y ?; apply Hl; by right).
  destruct (decide (P x)) as [Hp|Hp].
  - rewrite !filter_cons_True; [by rewrite Hr| |done]. apply Hl; [by left|done].
  - rewrite !filter_cons_False; [done| |done]. intros Hq. apply Hp, Hl; [by left|done].
Qed.

Section allies.
Context {E : Engine}.
Context (infos : gmap Z IBlockMask) (teamId : Z).

(** ** The merge *)

(** The effect of one marking on the blocking map. *)
Definition mark_map (m : SBlockingMap) (c : SStructure * bool) : option SBlockingMap :=
  tm ← mark_unless_mex (MkTM 0 [] m infos) c.1 c.2; Some (blockingMap tm).

Definition wanted (fr : list SFriendly) : list SFriendly :=
  filter (λ u, is_foreign_building teamId u = true) fr.
(** The entry of a unit: the one it had, or a new one. *)
Definition entry_of (prev : list SStructure) (u : SFriendly) : SStructure :=
  default (structure_of u) (head (filter (λ b, unitId b = fr_id u) prev)).
Definition new_calls (fr : list SFriendly) (prev : list SStructure) : list (SStructure * bool) :=
  (λ u, (structure_of u, true)) <$> filter (λ u, fr_id u ∉ unitId <$> prev) (wanted fr).
Definition dead_calls (fr : list SFriendly) (prev : list SStructure) : list (SStructure * bool) :=
  (λ b, (b, false)) <$> filter (λ b, unitId b ∉ fr_id <$> wanted fr) prev.

Definition by_id (fr : list SFriendly) : Prop := StronglySorted (λ a b, fr_id a < fr_id b) fr.
Definition by_unit (l : list SStructure) : Prop := StronglySorted (λ a b, unitId a < unitId b) l.

Lemma mark_unless_mex_map f l m b block :
  mark_unless_mex (MkTM f l m infos) b block = m' ← mark_map m (b, block); Some (MkTM f l m' infos).
Proof.
  unfold mark_map, mark_unless_mex, MarkBlocker. simpl. destruct (isMex (s_cdef b)); [done|].
  destruct (infos !! _) as [bm|].
  - by destruct (MarkBlockerByMask _ _ _ _).
  - destruct (corner_of _ _); [|done]. simpl. by destruct (for_rect_x _ _ _ _).
Qed.

Lemma delStructure_map f l m b :
  delStructure (MkTM f l m infos) b = m' ← mark_map m (b, false); Some (MkTM f l m' infos).
Proof. apply mark_unless_mex_map. Qed.
Lemma addStructure_map f l m u :
  addStructure (MkTM f l m infos) u =
    m' ← mark_map m (structure_of u, true); Some (MkTM f (l ++ [structure_of u]) m' infos).
Proof. apply mark_unless_mex_map. Qed.

Lemma add_rest f l m fr :
  foldM (λ tm u, if is_foreign_building teamId u then addStructure tm u else Some tm) (MkTM f l m infos) fr =
    m' ← foldM mark_map m ((λ u, (structure_of u, true)) <$> wanted fr);
    Some (MkTM f (l ++ (structure_of <$> wanted fr)) m' infos).
Proof.
  revert l m. induction fr as [|u fr IH]; intros l m; simpl; [by rewrite app_nil_r|].
  unfold wanted in *. destruct (is_foreign_building teamId u) eqn:Hf.
  - rewrite filter_cons_True by done. rewrite addStructure_map. simpl.
    destruct (mark_map m (structure_of u, true)) as [m'|]; [|done]. simpl.
    rewrite IH. by rewrite <-app_assoc.
  - rewrite filter_cons_False by congruence. simpl. apply IH.
Qed.

Lemma del_rest f l m bs :
  foldM delStructure (MkTM f l m infos) bs =
    m' ← foldM mark_map m ((λ b, (b, false)) <$> bs); Some (MkTM f l m' infos).
Proof.
  revert m. induction bs as [|b bs IH]; intros m; simpl; [done|].
  rewrite delStructure_map.
  destruct (mark_map m (b, false)) as [m'|]; [|done]. simpl. apply IH.
Qed.

Lemma entry_of_ne b prev u : unitId b ≠ fr_id u → entry_of (b :: prev) u = entry_of prev u.
Proof. intros Hne. unfold entry_of. by rewrite filter_cons_False. Qed.

Lemma entry_of_none prev u : (∀ b, b ∈ prev → unitId b ≠ fr_id u) → entry_of prev u = structure_of u.
Proof.
  intros Hne. unfold entry_of. destruct (filter _ prev) as [|b l] eqn:Hf; [done|].
  assert (b ∈ filter (λ b, unitId b = fr_id u) prev) as Hb by (rewrite Hf; by left).
  apply list_elem_of_filter in Hb as [? ?]. by destruct (Hne b).
Qed.

Lemma wanted_sub fr u : u ∈ wanted fr → u ∈ fr.
Proof. unfold wanted. by intros [_ ?]%list_elem_of_filter. Qed.

(** What the merge leaves: the calls it made, with the removals it left over. *)
Definition merged (fr : list SFriendly) (prev : list SStructure) (calls : list (SStructure * bool))
    (rest : list SStructure) : Prop :=
  calls ++ ((λ b, (b, false)) <$> rest) ≡ₚ new_calls fr prev ++ dead_calls fr prev.

(** The four ways a pass goes on. *)
Section passes.
Context (u : SFriendly) (fr : list SFriendly) (fuel : nat).
Hypothesis (Hw : wanted (u :: fr) = u :: wanted fr).
Hypothesis (Hwall : ∀ v, v ∈ wanted fr → fr_id u < fr_id v).

Lemma merge_end :
  ∃ calls rest, merged (u :: fr) [] calls rest ∧ ∀ f l m,
    (tm ← addStructure (MkTM f l m infos) u;
     tm ← foldM (λ tm u, if is_foreign_building teamId u then addStructure tm u else Some tm) tm fr;
     Some (tm, [])) =
      m' ← foldM mark_map m calls; Some (MkTM f (l ++ (entry_of [] <$> u :: wanted fr)) m' infos, rest).
Proof.
  exists ((λ u, (structure_of u, true)) <$> (u :: wanted fr)), []. split.
  - unfold merged, new_calls, dead_calls. rewrite Hw. simpl. rewrite !app_nil_r.
    rewrite filter_all; [done|]. intros. apply not_elem_of_nil.
  - intros f l m. rewrite addStructure_map. simpl.
    destruct (mark_map m (structure_of u, true)) as [m1|]; [|done]. simpl. rewrite add_rest.
    destruct (foldM mark_map m1 _) as [m2|]; [|done]. simpl. by rewrite <-app_assoc.
Qed.

Lemma merged_new b prev calls rest :
  (∀ b', b' ∈ prev → unitId b < unitId b') → fr_id u < unitId b →
  merged fr (b :: prev) calls rest → merged (u :: fr) (b :: prev) ((structure_of u, true) :: calls) rest.
Proof.
  intros Hpall Hlt Hm.
  assert (∀ b', b' ∈ b :: prev → fr_id u < unitId b') as Hnew.
  { intros b' [->|Hb']%elem_of_cons; [done|]. specialize (Hpall b' Hb'). lia. }
  unfold merged, new_calls, dead_calls in *. rewrite Hw.
  rewrite filter_cons_True; [|intros (b' & Heq & Hb')%list_elem_of_fmap; specialize (Hnew b' Hb'); lia].
  cbn [app fmap list_fmap]. rewrite Hm. apply Permutation_skip, Permutation_app_head, Permutation_refl'.
  f_equal. apply filter_ext_in. intros b' Hb'. rewrite not_elem_of_cons. specialize (Hnew b' Hb').
  split; [intros ?; split; [lia|done]|tauto].
Qed.

Lemma merged_dead b prev calls rest :
  unitId b < fr_id u →
  merged (u :: fr) prev calls rest → merged (u :: fr) (b :: prev) ((b, false) :: calls) rest.
Proof.
  intros Hlt Hm. unfold merged, new_calls, dead_calls in *. rewrite Hw in *.
  rewrite (filter_cons_True _ b); [|intros [Heq|(v & Heq & Hv)%list_elem_of_fmap]%elem_of_cons;
    [lia|specialize (Hwall v Hv); lia]].
  cbn [app fmap list_fmap]. rewrite Hm. rewrite <-Permutation_middle.
  apply Permutation_skip, Permutation_app_tail, Permutation_refl'. f_equal. apply filter_ext_in.
  intros v Hv. rewrite not_elem_of_cons. assert (fr_id v ≠ unitId b).
  { apply elem_of_cons in Hv as [->|Hv]; [lia|]. specialize (Hwall v Hv). lia. }
  tauto.
Qed.

Lemma merged_kept b prev calls rest :
  unitId b = fr_id u → (∀ b', b' ∈ prev → unitId b < unitId b') →
  merged fr prev calls rest → merged (u :: fr) (b :: prev) calls rest.
Proof.
  intros Hid Hpall Hm. unfold merged, new_calls, dead_calls in *. rewrite Hw, Hm.
  rewrite (filter_cons_False _ u) by (rewrite fmap_cons, not_elem_of_cons; intros [? _]; congruence).
  rewrite (filter_cons_False _ b) by (rewrite fmap_cons, not_elem_of_cons; intros [? _]; congruence).
  apply Permutation_app; apply Permutation_refl'; f_equal; apply filter_ext_in.
  - intros v Hv. rewrite fmap_cons, not_elem_of_cons. specialize (Hwall v Hv). split; [|tauto].
    intros ?. split; [lia|done].
  - intros b' Hb'. rewrite fmap_cons, not_elem_of_cons. specialize (Hpall b' Hb'). split; [|tauto].
    intros ?. split; [lia|done].
Qed.
End passes.

Lemma merge_ok fuel fr prev :
  (length fr + length prev <= fuel)%nat → by_id fr → by_unit prev →
  ∃ calls rest, merged fr prev calls rest ∧ ∀ f l m,
    merge_allies fuel teamId fr prev (MkTM f l m infos) =
      m' ← foldM mark_map m calls; Some (MkTM f (l ++ (entry_of prev <$> wanted fr)) m' infos, rest).
Proof.
  revert fr prev. induction fuel as [|fuel IH]; intros [|u fr] prev Hf Hfr Hprev; simpl in Hf; try lia.
  1, 2: exists [], prev; (split; [|intros; simpl; by rewrite app_nil_r]);
    unfold merged, new_calls, dead_calls, wanted; simpl; rewrite filter_all; [done|intros; apply not_elem_of_nil].
  inversion Hfr as [|? ? Hfr' Hall]; subst. rewrite Forall_forall in Hall. simpl.
  destruct (is_foreign_building teamId u) eqn:Hu; simpl.
  2: { destruct (IH fr prev) as (calls & rest & Hm & Heq); [lia|done|done|]. exists calls, rest.
    assert (wanted (u :: fr) = wanted fr) as Hw by (unfold wanted; rewrite filter_cons_False by congruence; done).
    unfold merged, new_calls, dead_calls in *. by rewrite Hw. }
  assert (wanted (u :: fr) = u :: wanted fr) as Hw by (unfold wanted; by rewrite filter_cons_True).
  assert (∀ v, v ∈ wanted fr → fr_id u < fr_id v) as Hwall by (intros v Hv; by apply Hall, wanted_sub).
  rewrite Hw. destruct prev as [|b prev].
  { by apply merge_end. }
  inversion Hprev as [|? ? Hprev' Hpall]; subst. rewrite Forall_forall in Hpall.
  destruct (Z.ltb_spec (fr_id u) (unitId b)) as [Hlt|Hge]; [|destruct (Z.ltb_spec (unitId b) (fr_id u)) as [Hlt'|Hge']].
  - destruct (IH fr (b :: prev)) as (calls & rest & Hm & Heq); [simpl in *; lia|done|done|].
    exists ((structure_of u, true) :: calls), rest. split; [by apply merged_new|]. intros f l m.
    rewrite addStructure_map. simpl.
    destruct (mark_map m (structure_of u, true)) as [m1|]; [|done]. simpl. rewrite Heq, <-app_assoc. simpl.
    rewrite (entry_of_none (b :: prev) u); [done|].
    intros b' [->|Hb']%elem_of_cons; [lia|]. specialize (Hpall b' Hb'). simpl in Hpall. lia.
  - destruct (IH (u :: fr) prev) as (calls & rest & Hm & Heq); [simpl in *; lia|done|done|].
    exists ((b, false) :: calls), rest. split; [by apply merged_dead|]. intros f l m.
    assert (entry_of (b :: prev) <$> u :: wanted fr = entry_of prev <$> u :: wanted fr) as ->.
    { apply Forall_fmap_ext_1, Forall_forall. intros v [->|Hv]%elem_of_cons; apply entry_of_ne; [lia|].
      specialize (Hwall v Hv). lia. }
    rewrite delStructure_map. cbn [foldM].
    destruct (mark_map m (b, false)) as [m1|]; [|done]. cbn [mbind option_bind]. by rewrite Heq, Hw.
  - assert (unitId b = fr_id u) as Hid by lia.
    destruct (IH fr prev) as (calls & rest & Hm & Heq); [simpl in *; lia|done|done|].
    exists calls, rest. split; [by apply merged_kept|]. intros f l m.
    assert (entry_of (b :: prev) <$> u :: wanted fr = b :: (entry_of prev <$> wanted fr)) as ->.
    { rewrite fmap_cons. f_equal; [unfold entry_of; by rewrite filter_cons_True|].
      apply Forall_fmap_ext_1, Forall_forall. intros v Hv. apply entry_of_ne. specialize (Hwall v Hv). lia. }
    unfold push_marked. cbn [markFrame markedAllies blockingMap blockInfos].
    rewrite Heq. by rewrite <-app_assoc.
Qed.

Lemma entry_of_id prev u : unitId (entry_of prev u) = fr_id u.
Proof.
  unfold entry_of. destruct (filter _ prev) as [|b l] eqn:Hf; [done|]. simpl.
  assert (b ∈ filter (λ b, unitId b = fr_id u) prev) as Hb by (rewrite Hf; by left).
  by apply list_elem_of_filter in Hb as [? _].
Qed.
End allies.

Section ally_claims.
Context {E : Engine}.

(** C34: MarkAllyBuildings follows the allies exactly.  Given the friendly units in the order of their ids
    (a std::map) and the entries of the last update in the same order, the merge ends and leaves one
    entry per immobile unit of another team, in that order, the old entry where there was one; it marks
    exactly the buildings without an entry and unmarks exactly the entries without a building (extractors
    are recorded but not marked), and changes nothing else.  In a frame that was already processed it
    does nothing. *)
Theorem MarkAllyBuildings_follows tm lastFrame teamId friendlies :
  by_id friendlies → by_unit (markedAllies tm) →
  let prev := markedAllies tm in
  let marked := entry_of prev <$> wanted teamId friendlies in
  (lastFrame <= markFrame tm → MarkAllyBuildings tm lastFrame teamId friendlies = Some tm) ∧
  (markFrame tm < lastFrame →
   unitId <$> marked = fr_id <$> wanted teamId friendlies ∧ by_unit marked ∧
   ∃ calls, calls ≡ₚ new_calls teamId friendlies prev ++ dead_calls teamId friendlies prev ∧
     MarkAllyBuildings tm lastFrame teamId friendlies =
       m ← foldM (mark_map (blockInfos tm)) (blockingMap tm) calls;
       Some (MkTM lastFrame marked m (blockInfos tm))).
Proof.
  intros Hfr Hprev prev marked. unfold MarkAllyBuildings. rewrite Z.geb_leb. split.
  - intros Hle. by rewrite (proj2 (Z.leb_le _ _) Hle).
  - intros Hlt. rewrite (proj2 (Z.leb_gt _ _) Hlt).
    assert (unitId <$> marked = fr_id <$> wanted teamId friendlies) as Hids.
    { unfold marked. rewrite <-list_fmap_compose. apply Forall_fmap_ext_1, Forall_forall. intros u _.
      apply entry_of_id. }
    split; [done|]. split.
    + unfold by_unit, by_id in *. unfold marked, wanted. clear Hids marked.
      induction Hfr as [|u fr Hfr IH Hall]; [constructor|].
      destruct (is_foreign_building teamId u) eqn:Hu.
      * rewrite filter_cons_True by done. simpl. constructor; [done|]. rewrite Forall_forall in Hall. apply Forall_forall.
        intros b (v & -> & Hv)%list_elem_of_fmap. rewrite !entry_of_id. apply Hall.
        by apply list_elem_of_filter in Hv as [_ ?].
      * by rewrite filter_cons_False by congruence.
    + destruct (merge_ok (blockInfos tm) teamId (length friendlies + length prev) friendlies prev)
        as (calls & rest & Hm & Heq); [lia|done|done|].
      exists (calls ++ ((λ b, (b, false)) <$> rest)). split; [exact Hm|].
      rewrite Heq, foldM_app. destruct (foldM _ (blockingMap tm) calls) as [m1|]; [|done].
      cbn [mbind option_bind]. by rewrite del_rest.
Qed.
End ally_claims.

(** ** The footprint of a building *)

Section footprint.

Lemma for_rect_cells {S} m1 m2 (f : Z → Z → S → option S) s :
  for_rect m1 m2 f s = foldM (λ s p, f p.1 p.2 s) s (rect_cells m1 m2).
Proof. apply zfor_rect. Qed.

(** The other part of a cell does not change. *)
Lemma AddBlocker_struct m x z t m' x' z' :
  BlockingMap.AddBlocker m x z t = Some m' → struct_at m' x' z' = struct_at m x' z'.
Proof.
  unfold BlockingMap.AddBlocker, put_cell, upd_low. intros H.
  destruct ((grid m).[cell_idx m x z]) as [cell|] eqn:Hg; [cbn [mbind option_bind] in H|done].
  assert (∀ g cell', (grid m).[cell_idx m x z <- cell'] = Some g →
    notIgnoreMask cell' = notIgnoreMask cell → structMask cell' = structMask cell →
    (c ← g.[cell_idx m x' z']; Some (notIgnoreMask c, structMask c)) = struct_at m x' z') as Hk.
  { intros g cell' Hs Hn Hm. unfold struct_at. rewrite (zget_zset _ _ _ _ _ Hs).
    decide_goal as [Heq|]; [|done]. rewrite <-Heq, Hg. simpl. by rewrite Hn, Hm. }
  bind_inv H. destruct (x0 =? 0).
  - destruct ((grid m).[cell_idx m x z <- _]) as [g|] eqn:Hs; [cbn [mbind option_bind] in H|done].
    bind_inv H. subst m'. unfold struct_at at 1. simpl. by eapply Hk.
  - destruct ((grid m).[cell_idx m x z <- _]) as [g|] eqn:Hs; [cbn [mbind option_bind] in H|done].
    bind_inv H. subst m'. unfold struct_at at 1. simpl. by eapply Hk.
Qed.

Lemma AddStruct_struct m x z t ni m' x' z' :
  AddStruct m x z t ni = Some m' → in_map m x z → in_map m x' z' → (x', z') ≠ (x, z) →
  struct_at m' x' z' = struct_at m x' z'.
Proof.
  unfold AddStruct, put_cell. intros H Hin Hin' Hne.
  destruct ((grid m).[cell_idx m x z]) as [cell|] eqn:Hg; [cbn [mbind option_bind] in H|done].
  destruct ((blockerCounts cell).[ST t]) as [c|]; [cbn [mbind option_bind] in H|done].
  destruct (if c =? 0 then _ else _) as [m1|] eqn:Hm1; [cbn [mbind option_bind] in H|done].
  assert (grid m1 = grid m ∧ columns m1 = columns m) as [Hgr Hc].
  { destruct (c =? 0); [|by simplify_eq]. unfold upd_low in Hm1. bind_inv Hm1. by subst m1. }
  destruct ((grid m1).[_ <- _]) as [g|] eqn:Hs; [cbn [mbind option_bind] in H|done].
  injection H as <-. unfold struct_at, cell_idx in *. simpl. rewrite Hgr, Hc in *.
  rewrite (zget_zset_ne _ _ _ _ _ Hs); [done|]. intros Heq.
  destruct (cell_idx_inj m x z x' z' Hin Hin' Heq) as [-> ->]. done.
Qed.
(** Marking a list of distinct cells, cell by cell: [bt] is the type of a cell of the building. *)
Section mark_cells.
Context (t : StructType) (ni : Z) (bt : Z * Z → BlockType).

(** The map after the cells of [pre] have been marked, seen from the map [m] before. *)
Record marked_cells (m : SBlockingMap) (pre : list (Z * Z)) (m' : SBlockingMap) : Prop := {
  mk_wf : map_wf m';
  mk_dims : same_dims m m';
  mk_counts : ∀ x z t', in_map m x z →
    blocker_count m' x z t' =
      (λ c, if decide ((x, z) ∈ pre ∧ bt (x, z) = BLOCK ∧ t' = t) then c + 1 else c) <$> blocker_count m x z t';
  mk_struct : ∀ x z, in_map m x z →
    struct_at m' x z = if decide ((x, z) ∈ pre ∧ bt (x, z) = STRUCT) then Some (ni, GetStructMask t)
                       else struct_at m x z;
  mk_low : ∀ j l', low_counter m' j t = Some l' → ∃ l, low_counter m j t = Some l ∧ l' <= l + zlen pre
}.

Lemma marked_nil m : map_wf m → marked_cells m [] m.
Proof.
  intros H. constructor; [done|done| | |].
  - intros x z t' _. rewrite <-option_fmap_id at 1. apply option_fmap_ext. intros c.
    rewrite decide_False; [done|]. by intros [?%not_elem_of_nil _].
  - intros x z _. rewrite decide_False; [done|]. by intros [?%not_elem_of_nil _].
  - intros j l' Hl. exists l'. split; [done|]. unfold zlen. simpl. lia.
Qed.

Lemma low_upd_grows m m1 m' pre x z l (b : bool) :
  (∀ j l', low_counter m1 j t = Some l' → ∃ l, low_counter m j t = Some l ∧ l' <= l + zlen pre) →
  low_count m1 x z t = Some l → low_upd m1 m' x z t (if b then l + 1 else l) →
  ∀ j l', low_counter m' j t = Some l' → ∃ l, low_counter m j t = Some l ∧ l' <= l + zlen (pre ++ [(x, z)]).
Proof.
  intros Hlow Hl Hu j l' Hj. rewrite zlen_app. change (zlen [(x, z)]) with 1. rewrite Hu in Hj.
  case_decide as Heq.
  - injection Heq as ->. destruct (Hlow _ _ Hl) as (l0 & ? & ?). exists l0. split; [done|].
    simplify_eq. destruct b; lia.
  - destruct (Hlow _ _ Hj) as (l0 & ? & ?). exists l0. split; [done|lia].
Qed.

Lemma mark_cell_ok m pre m1 x z c l :
  marked_cells m pre m1 → in_map m x z → (x, z) ∉ pre →
  blocker_count m x z t = Some c → c < UINT16_MAX →
  low_count m1 x z t = Some l → l < UINT16_MAX →
  ∃ m', mark_cell true t ni (bt (x, z)) x z m1 = Some m' ∧ marked_cells m (pre ++ [(x, z)]) m'.
Proof.
  intros [Hwf Hd Hc Hs Hlow] Hin Hnew Hcnt Hcm Hl Hlm.
  assert (in_map m1 x z) as Hin1 by (by apply (in_map_dims m)).
  assert (blocker_count m1 x z t = Some c) as Hc1.
  { rewrite Hc, Hcnt by done. simpl. by rewrite decide_False by tauto. }
  assert ((x, z) ∈ pre ++ [(x, z)]) as Hthere by (apply elem_of_app; right; by left).
  assert (∀ x' z', (x', z') ≠ (x, z) → (x', z') ∈ pre ++ [(x, z)] ↔ (x', z') ∈ pre) as Hmem.
  { intros x' z' Hne. rewrite elem_of_app, list_elem_of_singleton. tauto. }
  destruct (bt (x, z)) eqn:Hbt; simpl.
  - (* OPEN *)
    exists m1. split; [done|]. constructor; [done|done| | |].
    + intros x' z' t' Hin'. rewrite Hc by done. apply option_fmap_ext. intros c'. apply decide_ext.
      destruct (decide ((x', z') = (x, z))) as [[= -> ->]|Hne]; [rewrite Hbt; intuition congruence|by rewrite Hmem].
    + intros x' z' Hin'. rewrite Hs by done. apply decide_ext.
      destruct (decide ((x', z') = (x, z))) as [[= -> ->]|Hne]; [rewrite Hbt; intuition congruence|by rewrite Hmem].
    + eapply (low_upd_grows m m1 m1 pre x z l false); [done|done|]. by apply low_upd_refl.
  - (* BLOCK *)
    destruct (AddBlocker_ok m1 x z t c l Hwf Hin1 Hc1 Hl Hcm Hlm) as (m' & Hm' & Hwf' & Hd' & Hcu & Hlu).
    exists m'. split; [done|]. constructor; [done|by etrans| | |].
    + intros x' z' t' Hin'. rewrite Hcu by (by apply (in_map_dims m)).
      destruct (decide ((x', z') = (x, z))) as [[= -> ->]|Hne].
      * decide_goal as [[= ->]|Hne]; [rewrite Hcnt; simpl; by rewrite decide_True|].
        rewrite Hc by done. apply option_fmap_ext. intros c'. apply decide_ext. intuition congruence.
      * rewrite decide_False by congruence. rewrite Hc by done. apply option_fmap_ext. intros c'.
        apply decide_ext. by rewrite Hmem.
    + intros x' z' Hin'. rewrite (AddBlocker_struct _ _ _ _ _ _ _ Hm'), Hs by done. apply decide_ext.
      destruct (decide ((x', z') = (x, z))) as [[= -> ->]|Hne]; [rewrite Hbt; intuition congruence|by rewrite Hmem].
    + by eapply (low_upd_grows m m1 m' pre x z l (c =? 0)).
  - (* STRUCT *)
    destruct (AddStruct_ok m1 x z t ni c l Hwf Hin1 Hc1 Hl Hlm) as (m' & Hm' & Hwf' & Hd' & Hck & Hlu & Hsa).
    exists m'. split; [done|]. constructor; [done|by etrans| | |].
    + intros x' z' t' Hin'. rewrite Hck by (by apply (in_map_dims m)). rewrite Hc by done.
      apply option_fmap_ext. intros c'. apply decide_ext.
      destruct (decide ((x', z') = (x, z))) as [[= -> ->]|Hne]; [rewrite Hbt; intuition congruence|by rewrite Hmem].
    + intros x' z' Hin'. destruct (decide ((x', z') = (x, z))) as [[= -> ->]|Hne].
      * by rewrite decide_True.
      * rewrite (AddStruct_struct _ _ _ _ _ _ _ _ Hm') by (done || by apply (in_map_dims m)).
        rewrite Hs by done. apply decide_ext. by rewrite Hmem.
    + by eapply (low_upd_grows m m1 m' pre x z l (c =? 0)).
Qed.
End mark_cells.
End footprint.

Section claims_footprint.
Context {E : Engine}.

(** The type of a map cell in the mask placed with its corner at [m1]; [None] outside, and in the last
    column and row, which [Bound] cuts off. *)
Definition footprint_type (m : SBlockingMap) (facing : Z) (bm : IBlockMask) (m1 : int2) (x z : Z)
    : option BlockType :=
  if decide (x < columns m - 1 ∧ z < rows m - 1 ∧ m1.1 <= x < m1.1 + facing_xsize facing bm ∧
             m1.2 <= z < m1.2 + facing_zsize facing bm)
  then GetType facing bm (x - m1.1) (z - m1.2) else None.

Lemma mark_rect_ok m bm facing m1 ni :
  let t := structType bm in
  let '(b1, b2) := Bound m m1 (m1.1 + facing_xsize facing bm, m1.2 + facing_zsize facing bm) in
  map_wf m → mask_wf bm →
  (∀ x z c, in_map m x z → blocker_count m x z t = Some c → c < UINT16_MAX) →
  (∀ j l, low_counter m j t = Some l → l + facing_xsize facing bm * facing_zsize facing bm < UINT16_MAX) →
  ∃ m', foldM (λ m p, bt ← GetType facing bm (b1.1 - m1.1 + (p.1 - b1.1)) (b1.2 - m1.2 + (p.2 - b1.2));
                      mark_cell true t ni bt p.1 p.2 m) m (rect_cells b1 b2) = Some m' ∧
    marked_cells t ni (λ p, default OPEN (GetType facing bm (p.1 - m1.1) (p.2 - m1.2))) m (rect_cells b1 b2) m'.
Proof.
  intros t. simpl. set (b1 := (Z.max m1.1 0, Z.max m1.2 0)). set (b2 := (_, _)).
  intros Hwf Hbm Hcnt Hlow.
  apply foldM_ind; [by apply marked_nil|]. intros pre [x z] post m1' Heq Hmk.
  assert ((x, z) ∈ rect_cells b1 b2) as Hin by (rewrite Heq; apply elem_of_app; right; by left).
  apply elem_of_rect in Hin as Hr. simpl in Hr.
  assert (in_map m x z) as Hmap by (unfold in_map; lia).
  assert ((x, z) ∉ pre) as Hnew.
  { pose proof (rect_cells_NoDup b1 b2) as Hnd. rewrite Heq in Hnd. apply NoDup_app in Hnd as (_ & Hd & _).
    intros Hp. apply (Hd _ Hp). by left. }
  assert (zlen pre < facing_xsize facing bm * facing_zsize facing bm) as Hlen.
  { pose proof (rect_cells_length b1 b2) as Hl. rewrite Heq, length_app in Hl. simpl in Hl. unfold zlen. nia. }
  destruct (GetType_is_Some facing bm (x - m1.1) (z - m1.2)) as [bt Hbt]; [done|lia|lia|].
  cbn [fst snd]. replace (Z.max m1.1 0 - m1.1 + (x - Z.max m1.1 0)) with (x - m1.1) by lia.
  replace (Z.max m1.2 0 - m1.2 + (z - Z.max m1.2 0)) with (z - m1.2) by lia.
  rewrite Hbt. cbn [mbind option_bind].
  destruct (get_cell_ok m x z Hwf Hmap) as (cell & Hg & Hcw). destruct (mc_get _ _ _ t Hcw) as (c & Hc & _).
  assert (blocker_count m x z t = Some c) as Hbc by (unfold blocker_count; rewrite Hg; exact Hc).
  assert (in_map m1' x z) as Hmap' by (apply (in_map_dims m); [apply Hmk|done]).
  destruct (get_low_ok m1' x z (mk_wf _ _ _ _ _ _ Hmk) Hmap') as (low & Hgl & Hlw).
  destruct (mc_get _ _ _ t Hlw) as (l & Hl & _).
  assert (low_count m1' x z t = Some l) as Hlc by (unfold low_count, low_counter; rewrite Hgl; exact Hl).
  destruct (mk_low _ _ _ _ _ _ Hmk _ _ Hlc) as (l0 & Hl0 & Hle). specialize (Hlow _ _ Hl0).
  destruct (mark_cell_ok t ni (λ p, default OPEN (GetType facing bm (p.1 - m1.1) (p.2 - m1.2))) m pre m1' x z c l)
    as (m' & Hm' & Hmk'); [done|done|done|done|by eapply Hcnt|done|lia|].
  exists m'. simpl in Hm'. rewrite Hbt in Hm'. done.
Qed.

(** C36: Marking a building with a mask changes the blocking map in exactly its footprint.  For a well-formed map and
    mask, a position whose corner can be computed, and counters of the building's type that cannot overflow (each of them, and
    each coarse one with the whole mask added, stays below 65535), the call returns
    (the mask is never read outside its array and no cell outside the map is touched, whatever the
    facing and however the mask overlaps the border), the counter of the building's type is one higher
    in every blocking cell of the rotated mask and unchanged elsewhere, every structure cell carries the
    building's type and the complement of its ignore mask as an unsigned short, and the structure part of all other cells is unchanged. *)
Theorem MarkBlocker_footprint m building bm corner :
  let facing := s_facing building in
  let t := structType bm in
  map_wf m → mask_wf bm →
  corner_of (s_pos building) (mask_ssize (s_cdef building) facing) = Some corner →
  (∀ x z c, in_map m x z → blocker_count m x z t = Some c → c < UINT16_MAX) →
  (∀ j l, low_counter m j t = Some l → l + facing_xsize facing bm * facing_zsize facing bm < UINT16_MAX) →
  let cell := footprint_type m facing bm (i2sub corner (GetStructOffset bm facing)) in
  ∃ m', MarkBlockerByMask m building true bm = Some m' ∧ map_wf m' ∧ same_dims m m' ∧
    ∀ x z, in_map m x z →
      (∀ t', blocker_count m' x z t' =
         (λ c, if decide (cell x z = Some BLOCK ∧ t' = t) then c + 1 else c) <$> blocker_count m x z t') ∧
      struct_at m' x z = if decide (cell x z = Some STRUCT) then Some (u16 (Z.lnot (ignoreMask bm)), GetStructMask t)
                         else struct_at m x z.
Proof.
  intros facing t Hwf Hbm Hcorner Hcnt Hlow cell. unfold MarkBlockerByMask. fold facing t. rewrite Hcorner.
  cbn [mbind option_bind]. set (m1 := i2sub corner (GetStructOffset bm facing)) in *.
  pose proof (mark_rect_ok m bm facing m1 (u16 (Z.lnot (ignoreMask bm)))) as Hok. fold t in Hok.
  unfold Bound in *. cbn [fst snd i2sub] in *. destruct (Hok Hwf Hbm Hcnt Hlow) as (m' & Hm' & [Hw Hd Hc Hs _]).
  exists m'. split; [rewrite for_rect_cells; exact Hm'|]. split; [done|]. split; [done|]. intros x z Hin.
  clearbody m1.
  assert (∀ b, (x, z) ∈ rect_cells (Z.max m1.1 0, Z.max m1.2 0)
      (Z.min (m1.1 + facing_xsize facing bm) (columns m - 1), Z.min (m1.2 + facing_zsize facing bm) (rows m - 1)) ∧
      default OPEN (GetType facing bm (x - m1.1) (z - m1.2)) = b ↔
    (b = OPEN → cell x z ≠ None) ∧ default OPEN (cell x z) = b) as Hcell.
  { intros b. rewrite elem_of_rect. cbn [fst snd]. destruct Hin as [Hx Hz]. unfold cell, footprint_type.
    decide_goal as [Hp|Hp].
    - destruct (GetType_is_Some facing bm (x - m1.1) (z - m1.2)) as [bt ->]; [done|lia|lia|]. simpl. split.
      + intros [_ ?]. done.
      + intros [_ ?]. split; [|done]. destruct Hp as (? & ? & ? & ?). lia.
    - simpl. split; [intros [? _]; destruct Hp; lia|]. intros [Hn <-]. by destruct (Hn eq_refl). }
  split.
  - intros t'. rewrite Hc by done. apply option_fmap_ext. intros c. apply decide_ext.
    rewrite (assoc (∧)), Hcell. destruct (cell x z) as [[]|]; simpl; intuition congruence.
  - rewrite Hs by done. apply decide_ext. rewrite Hcell.
    destruct (cell x z) as [[]|]; simpl; intuition congruence.
Qed.
End claims_footprint.

#[local] Existing Instance example_engine.
Definition tower_def : CCircuitDef :=
  MkDef 7 4 4 0 0 0 None f0 f0 f0 f0 RANGE_LAND [f0; f0; f0] [0; 0; 0; 0; 0]
        f0 f0 false false false false false false false false (f_of_Z 100) f0 (f_of_Z 50) (-1) 0 false.
Definition at_64 : AIFloat3 := F3 (f_of_Z 64) f0 (f_of_Z 64).
Definition old_tower : SStructure := MkStructure 3 tower_def at_64 0.
Definition friendlies_example : list SFriendly :=
  [MkFriendly 2 tower_def at_64 0 1; MkFriendly 5 tower_def at_64 0 4].
Definition tm_example : CTerrainManager := MkTM (-1) [old_tower] m16 ∅.

(** Unit 2 is new, the tower 3 is gone, unit 5 is our own. *)
Lemma MarkAllyBuildings_follows_witness :
  ∃ calls, calls ≡ₚ [(MkStructure 2 tower_def at_64 0, true); (old_tower, false)] ∧
    MarkAllyBuildings tm_example 10 4 friendlies_example =
      m ← foldM (mark_map ∅) m16 calls; Some (MkTM 10 [MkStructure 2 tower_def at_64 0] m ∅).
Proof.
  destruct (MarkAllyBuildings_follows tm_example 10 4 friendlies_example) as [_ H].
  - repeat constructor.
  - repeat constructor.
  - destruct (H ltac:(reflexivity)) as (_ & _ & calls & Hp & Heq). exists calls. split.
    + etrans; [exact Hp|]. vm_compute. reflexivity.
    + exact Heq.
Defined.

Definition guard_mask : IBlockMask :=
  match mask_example with Some bm => bm | None => new_IBlockMask DEF_LOW 0 end.
Definition guard_tower : SStructure :=
  MkStructure 9 (MkDef 8 6 6 0 0 0 None f0 f0 f0 f0 RANGE_LAND [f0; f0; f0] [0; 0; 0; 0; 0]
    f0 f0 false false false false false false false false (f_of_Z 100) f0 (f_of_Z 50) (-1) 0 false) at_64 1.

(** The cell (3, 3) under the tower carries its structure, the cell (2, 4) beside it is blocked. *)
Lemma MarkBlocker_footprint_witness :
  ∃ m', MarkBlockerByMask m16 guard_tower true guard_mask = Some m' ∧
    struct_at m' 3 3 = Some (65535, GetStructMask DEF_LOW) ∧ blocker_count m' 2 4 DEF_LOW = Some 1.
Proof.
  destruct m16_refines as (Hwf & _ & Hnet).
  destruct (MarkBlocker_footprint m16 guard_tower guard_mask (3, 3)) as (m' & Hm & _ & _ & Hcells).
  - exact Hwf.
  - vm_compute. split; [discriminate|]. split; [discriminate|reflexivity].
  - vm_compute. reflexivity.
  - intros x z c Hin Hc. rewrite Hnet in Hc by exact Hin. injection Hc as <-. reflexivity.
  - intros j l Hl. unfold low_counter in Hl.
    destruct ((gridLow m16).[j]) as [low|] eqn:Hj; [|discriminate Hl].
    assert (j = 0) as -> by (apply zget_Some_bound in Hj; change (zlen (gridLow m16)) with 1 in Hj; lia).
    vm_compute in Hj. injection Hj as <-. vm_compute in Hl. injection Hl as <-. vm_compute. reflexivity.
  - exists m'. split; [exact Hm|]. split.
    + destruct (Hcells 3 3) as [_ ->]; [split; vm_compute; split; congruence|]. vm_compute. reflexivity.
    + destruct (Hcells 2 4) as [H _]; [split; vm_compute; split; congruence|]. rewrite H. vm_compute. reflexivity.
Defined.
