(* ===== verification/TerrainAreas.v ===== *)
(** * TerrainAreas: sectors, types of movement and the areas of a map

    The data of [src/src/circuit/terrain/TerrainData.h] and the part of
    [src/src/circuit/terrain/TerrainData.cpp] that [CTerrainData::Init] and
    [CTerrainData::UpdateAreas] share (the source has it twice): which sectors a type of unit can
    enter or be built on, the flood fill that groups the sectors into areas, and the figures
    computed from the areas.

    A [std::set<int>] or the keys of a [std::map<int, T*>] whose pointers follow from the key are a
    [gset Z], walked in ascending order; a pointer to a sector is its index, a pointer to an area or
    to a type its position in its vector. *)

From Stdlib Require Import SpecFloat.
From stdpp Require Import sorting gmap.
From S2P Require Import Prelude Float32.

Local Open Scope circuit_scope.

(** ** Data *)

Record STerrainMapSector : Type := mkSec {
  isWater : bool;
  position : AIFloat3;
  percentLand : float;
  minElevation : float;
  maxElevation : float;
  maxSlope : float
}.

(** [sectorAlternativeM] and [sectorAlternativeI]: the answers that were computed before. *)
Record STerrainMapAreaSector : Type := mkAreaSec {
  as_area : option nat;
  sectorAlternativeM : gmap nat (option Z);
  sectorAlternativeI : gmap nat (option Z)
}.
Definition new_area_sector : STerrainMapAreaSector := mkAreaSec None ∅ ∅.

Record STerrainMapArea : Type := mkArea {
  areaUsable : bool;
  area_sector : gset Z;
  sectorClosest : gmap Z (option Z);
  percentOfMap : float
}.
Definition new_area (sectors : gset Z) : STerrainMapArea := mkArea false sectors ∅ f0.

Record STerrainMapMobileType : Type := mkMT {
  typeUsable : bool;
  mt_sector : list STerrainMapAreaSector;
  area : list STerrainMapArea;
  areaLargest : option nat;
  mt_maxSlope : float;
  mt_maxElevation : float;
  mt_minElevation : float;
  mt_canHover : bool;
  mt_canFloat : bool;
  crushStrength : float;          (* of [moveData] *)
  mt_udCount : Z
}.

Record STerrainMapImmobileType : Type := mkIT {
  it_usable : bool;
  it_sector : gset Z;
  it_closest : gmap Z (option Z);
  it_minElevation : float;
  it_maxElevation : float;
  it_canHover : bool;
  it_canFloat : bool;
  it_udCount : Z
}.

(** The order in which a [std::set<int>] or [std::map<int, _>] is walked. *)
Definition ascending (X : gset Z) : list Z := merge_sort Z.le (elements X).

(** ** Which sectors a type can use *)

Section map.
(** [waterIsHarmful], [waterIsAVoid], [sectorXSize], [sectorZSize] and [convertStoP]. *)
Context (waterIsHarmful waterIsAVoid : bool) (sectorXSize sectorZSize convertStoP : Z).

Definition passable (mt : STerrainMapMobileType) (s : STerrainMapSector) : bool :=
  let dry := fleb (maxElevation s) f0 || fgeb (mt_maxSlope mt) (maxSlope s) in
  (mt_canHover mt && fgeb (mt_maxElevation mt) (maxElevation s) && negb waterIsAVoid && dry) ||
  (mt_canFloat mt && fgeb (mt_maxElevation mt) (maxElevation s) && negb waterIsHarmful && dry) ||
  (fgeb (mt_maxSlope mt) (maxSlope s) && fleb (mt_minElevation mt) (minElevation s) &&
   fgeb (mt_maxElevation mt) (maxElevation s) && (negb waterIsHarmful || fgeb (minElevation s) f0)).

Definition buildable (it : STerrainMapImmobileType) (s : STerrainMapSector) : bool :=
  (it_canHover it && fgeb (it_maxElevation it) (maxElevation s) && negb waterIsAVoid) ||
  (it_canFloat it && fgeb (it_maxElevation it) (maxElevation s) && negb waterIsHarmful) ||
  (fleb (it_minElevation it) (minElevation s) && fgeb (it_maxElevation it) (maxElevation s) &&
   (negb waterIsHarmful || fgeb (minElevation s) f0)).

(** ** The flood fill *)

Definition MAP_AREA_LIST_SIZE : Z := 50.
Definition MAMinimalSectors : Z := 8.

Definition total : Z := sectorXSize * sectorZSize.

(** Eight sectors, or half a percent of the map; the percentage is a [double]. *)
Definition too_small (n : Z) : bool :=
  (n <=? MAMinimalSectors) ||
  fleb (ddiv (dmul (d_of_Z 100) (d_of_f (f_of_Z n))) (d_of_f (f_of_Z total))) (d_of_f (flit 1 2)).

Definition sizeZ (X : gset Z) : Z := Z.of_nat (size X).

(** [mt.area], [areaSize], [sectorSearch] and [sectorsRemaining]. *)
Record Grouping : Type := mkGroup {
  g_area : list (gset Z);
  areaSize : Z;
  sectorSearch : list Z;
  sectorsRemaining : gset Z
}.

(** One of the four neighbours: queued and no longer remaining. *)
Definition search (inside : bool) (j : Z) (s : list Z * gset Z) : list Z * gset Z :=
  if decide (j ∈ s.2 ∧ inside = true) then (s.1 ++ [j], s.2 ∖ {[j]}) else s.

(** [mt.area.back().sector[i] = ...] *)
Definition add_back (i : Z) (areas : list (gset Z)) : option (list (gset Z)) :=
  last areas ≫= λ a, Some (take (length areas - 1) areas ++ [{[i]} ∪ a]).

Definition expand_sector (i : Z) (s : list Z * gset Z) : list Z * gset Z :=
  let iX := Z.rem i sectorXSize in
  let iZ := Z.quot i sectorXSize in
  search (bool_decide (iZ < sectorZSize - 1)) (i + sectorXSize)
    (search (bool_decide (iZ > 0)) (i - sectorXSize)
       (search (bool_decide (iX < sectorXSize - 1)) (i + 1)
          (search (bool_decide (iX > 0)) (i - 1) s))).

(** The position of the first of the smallest areas. *)
Fixpoint smallest_from (k best : nat) (bestSize : Z) (areas : list (gset Z)) : nat :=
  match areas with
  | [] => best
  | a :: areas => if decide (sizeZ a < bestSize) then smallest_from (S k) k (sizeZ a) areas else smallest_from (S k) best bestSize areas
  end.
Definition smallest (areas : list (gset Z)) : nat :=
  match areas with [] => 0%nat | a :: areas => smallest_from 1 0 (sizeZ a) areas end.

(** "Too many areas detected. Find, erase & ignore the smallest one that was found so far" *)
Definition drop_area (g : Grouping) : option Grouping :=
  if decide (areaSize g <= 0) then Some g else
  back ← last (g_area g);
  if bool_decide (areaSize g = MAP_AREA_LIST_SIZE) || too_small (sizeZ back) then
    Some (mkGroup (delete (smallest (g_area g)) (g_area g)) (areaSize g - 1) (sectorSearch g) (sectorsRemaining g))
  else Some g.

(** One round of the loop. *)
Definition group_step (g : Grouping) : option Grouping :=
  match sectorSearch g with
  | i :: rest =>
      areas ← add_back i (g_area g);
      let '(searching, remaining) := expand_sector i (rest, sectorsRemaining g) in
      Some (mkGroup areas (areaSize g) searching remaining)
  | [] =>
      g ← drop_area g;
      i ← head (ascending (sectorsRemaining g));
      Some (mkGroup (g_area g ++ [∅]) (areaSize g + 1) [i] (sectorsRemaining g ∖ {[i]}))
  end.

Fixpoint group_loop (fuel : nat) (g : Grouping) : option Grouping :=
  match fuel with
  | O => None
  | S fuel =>
      if decide (sectorsRemaining g = ∅ ∧ sectorSearch g = []) then Some g
      else g ← group_step g; group_loop fuel g
  end.

(** The last area found is dropped, too, if it is too small. *)
Definition drop_last (g : Grouping) : option (list (gset Z)) :=
  if decide (areaSize g <= 0) then Some (g_area g) else
  back ← last (g_area g);
  Some (if too_small (sizeZ back) then take (length (g_area g) - 1) (g_area g) else g_area g).

(** The areas of the sectors [P]: every round moves a sector out of the remaining ones or out of the queue. *)
Definition group_areas (P : gset Z) : option (list (gset Z)) :=
  g ← group_loop (S (2 * size P)) (mkGroup [] 0 [] P);
  drop_last g.

(** ** The figures of the areas *)

Definition area_percent (n : Z) : float := f_of_d (ddiv (dmul (d_of_Z 100) (d_of_Z n)) (d_of_Z total)).

Definition set_as_area (a : option nat) (s : STerrainMapAreaSector) : STerrainMapAreaSector :=
  mkAreaSec a (sectorAlternativeM s) (sectorAlternativeI s).

(** [iS.second->area = &area] for the sectors of one area. *)
Definition mark_area (j : nat) (sectors : gset Z) (l : list STerrainMapAreaSector) : option (list STerrainMapAreaSector) :=
  foldM (λ l i, s ← l.[i]; l.[i <- set_as_area (Some j) s]) l (ascending sectors).

(** "A map area occupying 20% of the map" *)
Definition usable_percent (p : float) : bool := fleb (d_of_Z 20) (d_of_f p).

Definition calc_area (j : nat) (mt : STerrainMapMobileType) : option STerrainMapMobileType :=
  a ← area mt !! j;
  sectors ← mark_area j (area_sector a) (mt_sector mt);
  let p := area_percent (sizeZ (area_sector a)) in
  let a := mkArea (usable_percent p) (area_sector a) (sectorClosest a) p in
  let areas := <[j := a]> (area mt) in
  largest ← match areaLargest mt with
            | None => Some j
            | Some k => b ← areas !! k; Some (if fltb (percentOfMap b) p then j else k)
            end;
  Some (mkMT (typeUsable mt || usable_percent p) sectors areas (Some largest) (mt_maxSlope mt) (mt_maxElevation mt) (mt_minElevation mt)
          (mt_canHover mt) (mt_canFloat mt) (crushStrength mt) (mt_udCount mt)).

Definition calculations (mt : STerrainMapMobileType) : option STerrainMapMobileType :=
  foldM (λ mt j, calc_area j mt) mt (seq 0 (length (area mt))).

Definition set_areas (areas : list (gset Z)) (mt : STerrainMapMobileType) : STerrainMapMobileType :=
  mkMT (typeUsable mt) (mt_sector mt) (new_area <$> areas) (areaLargest mt) (mt_maxSlope mt) (mt_maxElevation mt) (mt_minElevation mt)
    (mt_canHover mt) (mt_canFloat mt) (crushStrength mt) (mt_udCount mt).

(** The sectors a type can enter. *)
Definition passable_set (sectors : list STerrainMapSector) (mt : STerrainMapMobileType) : gset Z :=
  list_to_set (filter (λ i, passable mt <$> sectors.[i] = Some true) (seqZ 0 total)).

(** "Determine areas per mobileType" *)
Definition determine_areas (sectors : list STerrainMapSector) (mt : STerrainMapMobileType) : option STerrainMapMobileType :=
  areas ← group_areas (passable_set sectors mt);
  calculations (set_areas areas mt).

(** [typeUsable] of an immobile type: a fifth of the map or a fixed size. *)
Definition it_percent_ok (n : Z) : bool :=
  fleb (d_of_Z 20) (ddiv (dmul (d_of_Z 100) (d_of_Z n)) (d_of_f (f_of_Z total))) ||
  fleb (d_of_Z 18000000) (dmul (dmul (d_of_Z convertStoP) (d_of_Z convertStoP)) (d_of_Z n)).
End map.
