(* ===== verification/AreaTheory.v ===== *)
(** * AreaTheory: the flood fill finds the connected components of a map

    Theory of [group_areas] of [TerrainAreas]: the areas kept are whole connected components, none of
    them too small, and a component that is large enough is missing only when the limit of fifty areas
    forced it out in favour of areas that are no smaller. *)

From stdpp Require Import relations sorting gmap.
From S2P Require Import Prelude TerrainAreas.

Local Open Scope circuit_scope.

Lemma elem_of_ascending X i : i ∈ ascending X ↔ i ∈ X.
Proof. unfold ascending. by rewrite merge_sort_Permutation, elem_of_elements. Qed.

Lemma NoDup_ascending X : NoDup (ascending X).
Proof. unfold ascending. rewrite merge_sort_Permutation. apply NoDup_elements. Qed.

Lemma sizeZ_mono (X Y : gset Z) : X ⊆ Y → sizeZ X <= sizeZ Y.
Proof. intros H. unfold sizeZ. apply subseteq_size in H. lia. Qed.

(** ** The smallest area *)

Lemma smallest_from_spec areas k best bestSize (pre : list (gset Z)) :
  length pre = k → (best < k)%nat →
  (∃ a, pre !! best = Some a ∧ sizeZ a = bestSize) → (∀ a, a ∈ pre → bestSize <= sizeZ a) →
  ∃ j a, smallest_from k best bestSize areas = j ∧ (pre ++ areas) !! j = Some a ∧ ∀ b, b ∈ pre ++ areas → sizeZ a <= sizeZ b.
Proof.
  revert k best bestSize pre. induction areas as [|x areas IH]; intros k best bestSize pre Hk Hb (a & Ha & Has) Hmin; simpl.
  - exists best, a. rewrite app_nil_r. split_and!; [done|done|]. intros b Hbin. rewrite Has. by apply Hmin.
  - rewrite cons_middle, app_assoc. decide_goal as [Hlt|Hge]; apply IH; try (rewrite ?length_app; simpl; lia).
    + exists x. split; [|done]. by rewrite list_lookup_middle.
    + intros b [Hbin| ->%list_elem_of_singleton]%elem_of_app; [|lia]. specialize (Hmin b Hbin). lia.
    + exists a. split; [|done]. by rewrite lookup_app_l by lia.
    + intros b [Hbin| ->%list_elem_of_singleton]%elem_of_app; [by apply Hmin|lia].
Qed.

Lemma smallest_spec areas :
  areas ≠ [] → ∃ a, areas !! smallest areas = Some a ∧ ∀ b, b ∈ areas → sizeZ a <= sizeZ b.
Proof.
  destruct areas as [|x areas]; [done|]. intros _. unfold smallest.
  destruct (smallest_from_spec areas 1 0 (sizeZ x) [x]) as (j & a & <- & Ha & Hmin); [done|lia|by exists x| |by exists a].
  intros b ->%list_elem_of_singleton. lia.
Qed.

(** ** Components *)

Section components.
Context (w h : Z).
Hypothesis Hw : 0 < w.

(** Sectors with a side in common. *)
Definition adjacent (i j : Z) : Prop := Z.abs (i `mod` w - j `mod` w) + Z.abs (i / w - j / w) = 1.

#[local] Instance adjacent_dec i j : Decision (adjacent i j).
Proof. unfold adjacent. apply _. Defined.

Lemma adjacent_sym i j : adjacent i j → adjacent j i.
Proof. unfold adjacent. lia. Qed.

(** From sector to sector within [P]. *)
Definition edge (P : gset Z) (i j : Z) : Prop := adjacent i j ∧ i ∈ P ∧ j ∈ P.

Definition component (P C : gset Z) : Prop := ∃ s, s ∈ P ∧ ∀ j, j ∈ C ↔ rtc (edge P) s j.

Lemma edge_sym P i j : edge P i j → edge P j i.
Proof. intros (? & ? & ?). split; [by apply adjacent_sym|done]. Qed.

#[local] Instance reach_symmetric P : Symmetric (rtc (edge P)).
Proof. intros i j. induction 1 as [|i k j Hik _ IH]; [reflexivity|]. eapply rtc_r; [exact IH|by apply edge_sym]. Qed.

Lemma reach_in P i j : i ∈ P → rtc (edge P) i j → j ∈ P.
Proof. intros Hi. induction 1 as [|i k j (_ & _ & Hk) _ IH]; auto. Qed.

Lemma component_subseteq P C : component P C → C ⊆ P.
Proof. intros (s & Hs & HC) j Hj%HC. by eapply reach_in. Qed.

Lemma component_nonempty P C : component P C → ∃ s, s ∈ C.
Proof. intros (s & Hs & HC). exists s. by apply HC. Qed.

Lemma component_closed P C i j : component P C → i ∈ C → edge P i j → j ∈ C.
Proof. intros (s & Hs & HC) Hi%HC Hij. apply HC. by eapply rtc_r. Qed.

Lemma component_reach P C i : component P C → i ∈ C → ∀ j, j ∈ C ↔ rtc (edge P) i j.
Proof.
  intros (s & Hs & HC) Hi%HC j. rewrite HC. split; intros Hj; [|by etrans].
  etrans; [symmetry; exact Hi|done].
Qed.

Lemma components_meet P C D i : component P C → component P D → i ∈ C → i ∈ D → C = D.
Proof.
  intros HC HD Hi Hj. apply set_eq. intros k.
  by rewrite (component_reach P C i HC Hi k), (component_reach P D i HD Hj k).
Qed.

(** A set that is connected and closed is a component. *)
Lemma component_intro P C s :
  s ∈ P → s ∈ C → (∀ j, j ∈ C → rtc (edge P) s j) → (∀ i j, i ∈ C → edge P i j → j ∈ C) → component P C.
Proof.
  intros Hs HsC Hr Hcl. exists s. split; [done|]. intros j. split; [apply Hr|].
  intros Hj. revert HsC. clear Hs Hr. induction Hj as [|i k j Hik _ IH]; eauto.
Qed.

(** ** One sector of the flood fill *)

Definition in_map (i : Z) : Prop := 0 <= i < w * h.

Lemma adjacent_cases i j :
  in_map i → in_map j →
  adjacent i j ↔ (i `mod` w > 0 ∧ j = i - 1) ∨ (i `mod` w < w - 1 ∧ j = i + 1) ∨ (i / w > 0 ∧ j = i - w) ∨ (i / w < h - 1 ∧ j = i + w).
Proof.
  intros Hi Hj. unfold adjacent, in_map in *.
  pose proof (Z.div_mod i w ltac:(lia)) as Di. pose proof (Z.mod_pos_bound i w Hw) as Mi.
  pose proof (Z.div_mod j w ltac:(lia)) as Dj. pose proof (Z.mod_pos_bound j w Hw) as Mj.
  set (xi := i `mod` w) in *. set (zi := i / w) in *. set (xj := j `mod` w) in *. set (zj := j / w) in *.
  assert (0 <= zi < h) as Zi by nia. assert (0 <= zj < h) as Zj by nia. split.
  - intros H. assert (zi = zj ∧ (xj = xi - 1 ∨ xj = xi + 1) ∨ xi = xj ∧ (zj = zi - 1 ∨ zj = zi + 1)) as Hc by lia.
    destruct Hc as [[E [E'|E']]|[E [E'|E']]].
    + left. rewrite Di, Dj, E, E'. lia.
    + right. left. rewrite Di, Dj, E, E'. lia.
    + do 2 right. left. rewrite Di, Dj, E, E'. split; [lia|ring].
    + do 3 right. rewrite Di, Dj, E, E'. split; [lia|ring].
  - assert (∀ z x, 0 <= x < w → j = w * z + x → zj = z ∧ xj = x) as Huniq.
    { intros z x Hx E. assert (zj = z) by nia. split; [done|]. subst z. lia. }
    intros [[Hc E]|[[Hc E]|[[Hc E]|[Hc E]]]].
    + destruct (Huniq zi (xi - 1)) as [-> ->]; lia.
    + destruct (Huniq zi (xi + 1)) as [-> ->]; lia.
    + destruct (Huniq (zi - 1) xi) as [-> ->]; [lia|lia|lia].
    + destruct (Huniq (zi + 1) xi) as [-> ->]; [lia|lia|lia].
Qed.

Lemma search_sector_ok inside j rest rem :
  ∃ l, search inside j (rest, rem) = (rest ++ l, rem ∖ list_to_set l) ∧ NoDup l ∧
    ∀ k, k ∈ l ↔ k ∈ rem ∧ inside = true ∧ k = j.
Proof.
  unfold search. cbn [fst snd]. case_decide as Hd; [destruct Hd as [Hj Hi]|].
  - exists [j]. split; [f_equal; set_solver|]. split; [apply NoDup_singleton|]. intros k. rewrite list_elem_of_singleton.
    split; [intros ->; done|tauto].
  - exists []. rewrite app_nil_r. split; [f_equal; set_solver|]. split; [constructor|]. intros k. rewrite elem_of_nil.
    split; [done|]. intros (? & ? & ->). destruct Hd. done.
Qed.

Lemma search_chain c1 j1 c2 j2 c3 j3 c4 j4 rest rem :
  NoDup [j1; j2; j3; j4] →
  ∃ l, search c4 j4 (search c3 j3 (search c2 j2 (search c1 j1 (rest, rem)))) = (rest ++ l, rem ∖ list_to_set l) ∧ NoDup l ∧
    ∀ k, k ∈ l ↔ k ∈ rem ∧ (c1 = true ∧ k = j1 ∨ c2 = true ∧ k = j2 ∨ c3 = true ∧ k = j3 ∨ c4 = true ∧ k = j4).
Proof.
  intros Hnd. destruct (search_sector_ok c1 j1 rest rem) as (l1 & -> & N1 & H1).
  destruct (search_sector_ok c2 j2 (rest ++ l1) (rem ∖ list_to_set l1)) as (l2 & -> & N2 & H2).
  destruct (search_sector_ok c3 j3 ((rest ++ l1) ++ l2) (rem ∖ list_to_set l1 ∖ list_to_set l2)) as (l3 & -> & N3 & H3).
  destruct (search_sector_ok c4 j4 (((rest ++ l1) ++ l2) ++ l3) (rem ∖ list_to_set l1 ∖ list_to_set l2 ∖ list_to_set l3)) as (l4 & -> & N4 & H4).
  exists (l1 ++ l2 ++ l3 ++ l4). split; [by rewrite !app_assoc, !list_to_set_app_L, !difference_difference_l_L, !(assoc_L (∪))|].
  rewrite !NoDup_cons in Hnd. destruct Hnd as (D1 & D2 & D3 & _). rewrite !elem_of_cons, elem_of_nil in *.
  split.
  - rewrite !NoDup_app. split_and!; try done; intros k; rewrite ?elem_of_app, ?H1, ?H2, ?H3, ?H4; intros ?; intuition congruence.
  - intros k. rewrite !elem_of_app.
    repeat first [rewrite elem_of_difference|rewrite elem_of_list_to_set|rewrite H1|rewrite H2|rewrite H3|rewrite H4].
    split; [intuition|]. intros (Hk & Hc).
    destruct Hc as [[-> ->]|[[-> ->]|[[-> ->]|[-> ->]]]]; intuition congruence.
Qed.

Lemma expand_area_ok i rest rem :
  in_map i → (∀ j, j ∈ rem → in_map j) →
  ∃ l, expand_sector w h i (rest, rem) = (rest ++ l, rem ∖ list_to_set l) ∧ NoDup l ∧ ∀ j, j ∈ l ↔ j ∈ rem ∧ adjacent i j.
Proof.
  intros Hi Hrem. unfold expand_sector. rewrite Z.rem_mod_nonneg, Z.quot_div_nonneg by (unfold in_map in *; lia).
  destruct (decide (w = 1)) as [Hw1|Hw1].
  - (* one column: the neighbours to the left and the right are never inside *)
    assert (i `mod` w = 0) as Hm by (rewrite Hw1; apply Z.mod_1_r).
    rewrite (bool_decide_eq_false_2 (i `mod` w > 0)), (bool_decide_eq_false_2 (i `mod` w < w - 1)) by lia.
    destruct (search_sector_ok false (i - 1) rest rem) as (l1 & -> & N1 & H1).
    destruct (search_sector_ok false (i + 1) (rest ++ l1) (rem ∖ list_to_set l1)) as (l2 & -> & N2 & H2).
    assert (l1 = []) as -> by (apply elem_of_nil_inv; intros k; rewrite H1; by intros (? & ? & ?)).
    assert (l2 = []) as -> by (apply elem_of_nil_inv; intros k; rewrite H2; by intros (? & ? & ?)).
    rewrite !app_nil_r, list_to_set_nil, !difference_empty_L.
    destruct (search_sector_ok (bool_decide (i / w > 0)) (i - w) rest rem) as (l3 & -> & N3 & H3).
    destruct (search_sector_ok (bool_decide (i / w < h - 1)) (i + w) (rest ++ l3) (rem ∖ list_to_set l3)) as (l4 & -> & N4 & H4).
    exists (l3 ++ l4). split; [by rewrite app_assoc, list_to_set_app_L, difference_difference_l_L|]. split.
    + apply NoDup_app. split_and!; [done| |done]. intros k. rewrite H3, H4, elem_of_difference. lia.
    + intros j. rewrite elem_of_app, H3, H4, elem_of_difference, elem_of_list_to_set, H3, !bool_decide_eq_true.
      split.
      * intros [(Hj & ? & ->)|((Hj & _) & ? & ->)]; (split; [done|]); apply adjacent_cases; auto.
      * intros [Hj Ha]. apply adjacent_cases in Ha; auto. intuition lia.
  - destruct (search_chain (bool_decide (i `mod` w > 0)) (i - 1) (bool_decide (i `mod` w < w - 1)) (i + 1)
      (bool_decide (i / w > 0)) (i - w) (bool_decide (i / w < h - 1)) (i + w) rest rem) as (l & -> & Hnd & Hl).
    { rewrite !NoDup_cons, !elem_of_cons, !elem_of_nil. split_and!; try lia. constructor. }
    exists l. split; [done|]. split; [done|]. intros j. rewrite Hl, !bool_decide_eq_true.
    split; intros [Hj Hc]; (split; [done|]); apply adjacent_cases in Hc || apply adjacent_cases; auto.
Qed.

(** ** The loop *)

Section grouping.
Context (P : gset Z).
Hypothesis Hh : 0 < h.
Hypothesis HP : ∀ i, i ∈ P → in_map i.

Abbreviation small := (too_small w h).

(** The test for small areas is a [double] comparison; whether it is monotone on the sizes that a map of
    this size can have is decided by computation. *)
Hypothesis Hsmall : ∀ n m, 0 <= n <= m → m <= w * h → small m = true → small n = true.

Lemma sizeZ_le (C : gset Z) : C ⊆ P → 0 <= sizeZ C <= w * h.
Proof.
  intros HC. split; [unfold sizeZ; lia|]. etrans; [apply sizeZ_mono, HC|].
  etrans; [apply (sizeZ_mono P (list_to_set (seqZ 0 (w * h))))|].
  - intros i Hi%HP. apply elem_of_list_to_set, elem_of_seqZ. unfold in_map in Hi. lia.
  - unfold sizeZ. rewrite size_list_to_set by apply NoDup_seqZ. rewrite length_seqZ.
    nia.
Qed.

(** What is known of a list of areas when the flood fill is over. *)
Record areas_spec (areas : list (gset Z)) : Prop := {
  as_component : Forall (component P) areas;
  as_distinct : NoDup areas;
  as_large : Forall (λ A, small (sizeZ A) = false) areas;
  as_limit : Z.of_nat (length areas) <= MAP_AREA_LIST_SIZE;
  as_complete : ∀ C, component P C → small (sizeZ C) = false → C ∈ areas ∨
    (MAP_AREA_LIST_SIZE - 1 <= Z.of_nat (length (filter (λ A, sizeZ C <= sizeZ A) areas)))
}.

(** A component that was dropped, against the complete areas that were kept. *)
Definition dropped (front : list (gset Z)) (C : gset Z) : Prop :=
  small (sizeZ C) = true ∨ MAP_AREA_LIST_SIZE - 1 <= Z.of_nat (length front) ∧ ∀ A, A ∈ front → sizeZ C <= sizeZ A.

(** The state of the loop: complete areas [front], the area [cur] that grows, the sectors [search] of it
    that are queued, the sectors that remain, and the components [drp] that are gone. *)
Record grouping_ok (g : Grouping) (front : list (gset Z)) (cur : gset Z) (drp : list (gset Z)) : Prop := {
  gi_area : g_area g = front ++ [cur];
  gi_size : areaSize g = Z.of_nat (length front) + 1 ∧ areaSize g <= MAP_AREA_LIST_SIZE;
  gi_comp : Forall (component P) (front ++ drp);
  gi_distinct : NoDup front;
  gi_large : Forall (λ A, small (sizeZ A) = false) front;
  gi_dropped : Forall (dropped front) drp;
  gi_seed : ∃ s, s ∈ P ∧ s ∈ cur ∪ list_to_set (sectorSearch g) ∧ ∀ j, j ∈ cur ∪ list_to_set (sectorSearch g) → rtc (edge P) s j;
  gi_closed : ∀ i j, i ∈ cur → edge P i j → j ∈ cur ∪ list_to_set (sectorSearch g);
  gi_cover : ∀ i, i ∈ P → i ∈ sectorsRemaining g ∨ i ∈ cur ∪ list_to_set (sectorSearch g) ∨ ∃ C, C ∈ front ++ drp ∧ i ∈ C;
  gi_rem : ∀ i, i ∈ sectorsRemaining g → i ∈ P ∧ i ∉ cur ∪ list_to_set (sectorSearch g) ∧ ∀ C, C ∈ front ++ drp → i ∉ C;
  gi_apart : ∀ i, i ∈ cur ∪ list_to_set (sectorSearch g) → ∀ C, C ∈ front ++ drp → i ∉ C
}.

Lemma add_back_ok i front cur : add_back i (front ++ [cur]) = Some (front ++ [{[i]} ∪ cur]).
Proof.
  unfold add_back. rewrite last_snoc. cbn [mbind option_bind]. f_equal. f_equal.
  rewrite length_app. simpl. replace (length front + 1 - 1)%nat with (length front) by lia. apply take_app_length.
Qed.

(** A round that takes a sector from the queue. *)
Lemma step_search g front cur drp i rest :
  grouping_ok g front cur drp → sectorSearch g = i :: rest →
  ∃ g', group_step w h g = Some g' ∧ grouping_ok g' front ({[i]} ∪ cur) drp ∧
    (2 * size (sectorsRemaining g') + length (sectorSearch g') < 2 * size (sectorsRemaining g) + length (sectorSearch g))%nat.
Proof.
  intros [G1 G2 G3 G4 G5 G6 G7 G8 G9 G10 G11] Hs. rewrite Hs in *. unfold group_step. rewrite Hs, G1, add_back_ok. cbn [mbind option_bind].
  destruct G7 as (s & HsP & Hseed & Hreach).
  assert (i ∈ P) as HiP by (eapply reach_in; [exact HsP|apply Hreach; set_solver-]).
  destruct (expand_area_ok i rest (sectorsRemaining g)) as (l & -> & Hnd & Hl); [by apply HP|intros j Hj; apply HP; by apply G10|].
  assert (list_to_set l ⊆ sectorsRemaining g) as Hsub by (intros j Hj%elem_of_list_to_set; by apply Hl).
  assert (∀ j, j ∈ {[i]} ∪ cur ∪ list_to_set (rest ++ l) ↔ j ∈ cur ∪ list_to_set (i :: rest) ∨ j ∈ l) as HV.
  { intros j. rewrite list_to_set_app_L. set_solver-. }
  assert (i ∈ cur ∪ list_to_set (i :: rest)) as HiV by set_solver-.
  eexists. split; [reflexivity|]. split.
  - split; cbn [g_area areaSize sectorSearch sectorsRemaining]; try done.
    + exists s. split; [done|]. split; [apply HV; by left|]. intros j [Hj|Hj]%HV; [by apply Hreach|].
      apply (rtc_r s i j); [by apply Hreach|]. apply Hl in Hj as [Hr Ha]. split; [exact Ha|]. split; [done|]. by apply G10.
    + intros a b Ha Hab. apply HV. apply elem_of_union in Ha as [->%elem_of_singleton|Ha]; [|left; by eapply G8].
      destruct Hab as (Hadj & _ & HbP). destruct (G9 b HbP) as [Hb|[Hb|(C & HC & Hb)]]; [right; by apply Hl|by left|].
      exfalso. assert (component P C) as HCC by (rewrite Forall_forall in G3; by apply G3).
      apply (G11 i HiV C HC). apply (component_closed P C b i HCC Hb). split; [by apply adjacent_sym|done].
    + intros a Ha. rewrite HV, elem_of_difference, elem_of_list_to_set. destruct (G9 a Ha) as [Hr|[Hr|Hr]]; [|by auto|by auto].
      destruct (decide (a ∈ l)); auto.
    + intros a [Ha Hal]%elem_of_difference. rewrite elem_of_list_to_set in Hal. destruct (G10 a Ha) as (? & ? & ?). split; [done|].
      split; [|done]. rewrite HV. tauto.
    + intros a [Ha|Ha]%HV C HC; [by apply G11|]. apply Hl in Ha as [Ha _]. by apply G10.
  - cbn [sectorSearch sectorsRemaining]. rewrite size_difference, size_list_to_set, length_app by done. simpl.
    apply subseteq_size in Hsub. rewrite size_list_to_set in Hsub by done. lia.
Qed.

Lemma closed_component g front cur drp :
  grouping_ok g front cur drp → sectorSearch g = [] → component P cur ∧ cur ∉ front.
Proof.
  intros G Hs. destruct (gi_seed _ _ _ _ G) as (s & HsP & Hseed & Hreach). pose proof (gi_closed _ _ _ _ G) as Hcl.
  rewrite Hs in *. rewrite list_to_set_nil, union_empty_r_L in *. split; [by eapply component_intro|].
  intros Hin. pose proof (gi_apart _ _ _ _ G s) as Hap. rewrite Hs, list_to_set_nil, union_empty_r_L in Hap.
  apply (Hap Hseed cur); [apply elem_of_app; by left|done].
Qed.
(** The areas that stay when the queue is empty, and the components that are gone then. *)
Record settled (g : Grouping) (kept drp : list (gset Z)) : Prop := {
  st_area : g_area g = kept;
  st_size : areaSize g = Z.of_nat (length kept) ∧ areaSize g < MAP_AREA_LIST_SIZE;
  st_search : sectorSearch g = [];
  st_comp : Forall (component P) (kept ++ drp);
  st_distinct : NoDup kept;
  st_large : Forall (λ A, small (sizeZ A) = false) kept;
  st_dropped : Forall (dropped kept) drp;
  st_cover : ∀ i, i ∈ P → i ∈ sectorsRemaining g ∨ ∃ C, C ∈ kept ++ drp ∧ i ∈ C;
  st_rem : ∀ i, i ∈ sectorsRemaining g → i ∈ P ∧ ∀ C, C ∈ kept ++ drp → i ∉ C
}.

Lemma settled_perm g front cur drp kept drp' :
  grouping_ok g front cur drp → sectorSearch g = [] → kept ++ drp' ≡ₚ cur :: front ++ drp →
  Forall (component P) (kept ++ drp') ∧
  (∀ i, i ∈ P → i ∈ sectorsRemaining g ∨ ∃ C, C ∈ kept ++ drp' ∧ i ∈ C) ∧
  (∀ i, i ∈ sectorsRemaining g → i ∈ P ∧ ∀ C, C ∈ kept ++ drp' → i ∉ C).
Proof.
  intros G Hs Hp. destruct (closed_component _ _ _ _ G Hs) as [Hcur _].
  pose proof (gi_cover _ _ _ _ G) as Hcov. pose proof (gi_rem _ _ _ _ G) as Hrem. rewrite Hs, list_to_set_nil, union_empty_r_L in *.
  split_and!.
  - rewrite Hp. constructor; [done|]. apply (gi_comp _ _ _ _ G).
  - intros i Hi. setoid_rewrite Hp. setoid_rewrite elem_of_cons. destruct (Hcov i Hi) as [?|[?|(C & ? & ?)]]; [by left|right; eauto..].
  - intros i Hi. destruct (Hrem i Hi) as (? & Hno & HC). split; [done|]. intros C. rewrite Hp, elem_of_cons. intros [->|?]; auto.
Qed.

Lemma delete_snoc {A} (l : list A) x : delete (length l) (l ++ [x]) = l.
Proof. rewrite delete_take_drop, take_app_length, drop_ge by (rewrite length_app; simpl; lia). apply app_nil_r. Qed.

(** Dropping the smallest area leaves the state settled; an area that is too small is the smallest itself. *)
Lemma drop_settled g front cur drp :
  grouping_ok g front cur drp → sectorSearch g = [] →
  ∃ g' kept drp', drop_area w h g = Some g' ∧ settled g' kept drp' ∧ sectorsRemaining g' = sectorsRemaining g.
Proof.
  intros G Hs. destruct (closed_component _ _ _ _ G Hs) as [Hcur Hnew]. destruct (gi_size _ _ _ _ G) as [Hsz Hlim].
  unfold drop_area. rewrite decide_False by lia. rewrite (gi_area _ _ _ _ G), last_snoc. cbn [mbind option_bind].
  pose proof (gi_large _ _ _ _ G) as Hlarge. rewrite Forall_forall in Hlarge.
  destruct (smallest_spec (front ++ [cur])) as (D & HD & Hmin); [by destruct front|].
  destruct (small (sizeZ cur)) eqn:Hsm.
  - (* the area just found is too small *)
    rewrite orb_true_r. assert (smallest (front ++ [cur]) = length front) as ->.
    { destruct (decide (smallest (front ++ [cur]) < length front)%nat) as [Hlt|Hge].
      - exfalso. rewrite lookup_app_l in HD by done. apply list_elem_of_lookup_2 in HD.
        assert (small (sizeZ D) = true); [|by rewrite Hlarge in *].
        apply (Hsmall _ (sizeZ cur)); [|by apply sizeZ_le, component_subseteq|done].
        split; [unfold sizeZ; lia|]. apply Hmin, elem_of_app. right. by left.
      - apply lookup_lt_Some in HD. rewrite length_app in HD. simpl in HD. lia. }
    rewrite delete_snoc. eexists _, front, (cur :: drp). split; [reflexivity|]. split; [|done].
    destruct (settled_perm g front cur drp front (cur :: drp) G Hs) as (C1 & C2 & C3); [by rewrite <-Permutation_middle|].
    split; cbn [g_area areaSize sectorSearch sectorsRemaining]; try done; [lia|apply (gi_distinct _ _ _ _ G)|apply (gi_large _ _ _ _ G)|].
    constructor; [by left|apply (gi_dropped _ _ _ _ G)].
  - rewrite orb_false_r. assert (Forall (λ A, small (sizeZ A) = false) (front ++ [cur])) as Hall.
    { apply Forall_app. split; [apply (gi_large _ _ _ _ G)|by constructor]. }
    assert (NoDup (front ++ [cur])) as Hnd.
    { apply NoDup_app. split; [apply (gi_distinct _ _ _ _ G)|]. split; [|apply NoDup_singleton]. by intros A HA ->%list_elem_of_singleton. }
    case_bool_decide as Hfull.
    + (* the limit: the smallest one goes *)
      set (k := smallest (front ++ [cur])) in *. pose proof (delete_Permutation _ _ _ HD) as Hp.
      assert (length (delete k (front ++ [cur])) = length front) as Hlen.
      { rewrite length_delete by (by eexists). rewrite length_app. simpl. lia. }
      eexists _, (delete k (front ++ [cur])), (D :: drp). split; [reflexivity|]. split; [|done].
      destruct (settled_perm g front cur drp (delete k (front ++ [cur])) (D :: drp) G Hs) as (C1 & C2 & C3).
      { rewrite <-Permutation_middle, app_comm_cons, <-Hp, <-app_assoc. simpl. by rewrite <-Permutation_middle. }
      split; cbn [g_area areaSize sectorSearch sectorsRemaining]; try done; [lia|..].
      * rewrite Hp in Hnd. by apply NoDup_cons in Hnd as [_ ?].
      * rewrite Hp in Hall. by apply Forall_cons in Hall as [_ ?].
      * assert (∀ A, A ∈ delete k (front ++ [cur]) → A ∈ front ++ [cur]) as Hin by (intros A HA; rewrite Hp; by right).
        constructor.
        -- right. rewrite Hlen. unfold MAP_AREA_LIST_SIZE in *. split; [lia|]. intros A HA. by apply Hmin, Hin.
        -- pose proof (gi_dropped _ _ _ _ G) as Hdr. eapply Forall_impl; [exact Hdr|]. intros C [HC|[HC1 HC2]]; [by left|right].
           rewrite Hlen. split; [done|]. intros A HA. destruct (decide (A ∈ front)) as [?|Hnf]; [by apply HC2|].
           assert (A = cur) as -> by (specialize (Hin A HA); apply elem_of_app in Hin as [?|?%list_elem_of_singleton]; done).
           etrans; [|apply Hmin, elem_of_app; right; by left]. apply HC2.
           assert (D ∈ front ++ [cur]) as [?| ->%list_elem_of_singleton]%elem_of_app by (by eapply list_elem_of_lookup_2); [done|].
           exfalso. rewrite Hp in Hnd. by apply NoDup_cons in Hnd as [? _].
    + eexists _, (front ++ [cur]), drp. split; [reflexivity|]. split; [|done].
      destruct (settled_perm g front cur drp (front ++ [cur]) drp G Hs) as (C1 & C2 & C3).
      { rewrite <-app_assoc. simpl. by rewrite <-Permutation_middle. }
      split; try done; [apply (gi_area _ _ _ _ G)|rewrite length_app; simpl; lia|].
      pose proof (gi_dropped _ _ _ _ G) as Hdr. eapply Forall_impl; [exact Hdr|]. intros C [HC|[HC1 HC2]]; [by left|].
      exfalso. unfold MAP_AREA_LIST_SIZE in *. lia.
Qed.

(** A new area starts from the first sector that remains. *)
Lemma seed_ok g kept drp :
  settled g kept drp → sectorsRemaining g ≠ ∅ →
  ∃ i, head (ascending (sectorsRemaining g)) = Some i ∧ i ∈ sectorsRemaining g ∧
    grouping_ok (mkGroup (g_area g ++ [∅]) (areaSize g + 1) [i] (sectorsRemaining g ∖ {[i]})) kept ∅ drp.
Proof.
  intros [S1 S2 S3 S4 S5 S6 S7 S8 S9] Hne. destruct (ascending (sectorsRemaining g)) as [|i l] eqn:Ha.
  { exfalso. apply Hne. apply set_eq. intros j. rewrite <-elem_of_ascending, Ha, elem_of_nil. set_solver. }
  assert (i ∈ sectorsRemaining g) as Hi by (rewrite <-elem_of_ascending, Ha; by left).
  exists i. split; [done|]. split; [done|]. destruct (S9 i Hi) as [HiP Hno].
  assert (∀ j, j ∈ (∅ : gset Z) ∪ list_to_set [i] ↔ j = i) as HV by (intros j; set_solver-).
  split; cbn [g_area areaSize sectorSearch sectorsRemaining]; try done.
  - by rewrite S1.
  - lia.
  - exists i. split; [done|]. split; [by apply HV|]. intros j ->%HV. reflexivity.
  - intros j Hj. rewrite HV, elem_of_difference, elem_of_singleton. destruct (S8 j Hj) as [?|?]; [|by auto].
    destruct (decide (j = i)); auto.
  - intros j [Hj Hji]%elem_of_difference. rewrite elem_of_singleton in Hji. destruct (S9 j Hj) as [? ?]. split; [done|]. by rewrite HV.
  - intros j ->%HV. done.
Qed.

Definition measure (g : Grouping) : nat := (2 * size (sectorsRemaining g) + length (sectorSearch g))%nat.

(** Either nothing was found yet, or an area is under way. *)
Definition looping (g : Grouping) : Prop :=
  g = mkGroup [] 0 [] P ∨ ∃ front cur drp, grouping_ok g front cur drp.

Lemma initial_settled : settled (mkGroup [] 0 [] P) [] [].
Proof.
  split; cbn [g_area areaSize sectorSearch sectorsRemaining]; try done; try apply Forall_nil_2; try apply NoDup_nil_2; [by left|].
  intros i Hi. split; [done|]. by intros C ?%not_elem_of_nil.
Qed.

Lemma group_loop_ok fuel g :
  looping g → (measure g < fuel)%nat →
  ∃ g', group_loop w h fuel g = Some g' ∧ looping g' ∧ sectorsRemaining g' = ∅ ∧ sectorSearch g' = [].
Proof.
  revert g. induction fuel as [|fuel IH]; intros g Hg Hf; [lia|]. simpl. decide_goal as [[Hr Hs]|Hne]; [by exists g|].
  assert (∃ g', group_step w h g = Some g' ∧ looping g' ∧ (measure g' < measure g)%nat) as (g' & -> & Hg' & Hm).
  2:{ cbn [mbind option_bind]. apply IH; [done|lia]. }
  destruct (sectorSearch g) as [|i rest] eqn:Hs.
  - assert (sectorsRemaining g ≠ ∅) as Hrem by (intros E; by apply Hne).
    assert (∃ g1 kept drp, drop_area w h g = Some g1 ∧ settled g1 kept drp ∧ sectorsRemaining g1 = sectorsRemaining g) as (g1 & kept & drp & Hd & Hst & Hr1).
    { destruct Hg as [->|(front & cur & drp & G)]; [|by eapply drop_settled].
      exists (mkGroup [] 0 [] P), [], []. split; [done|]. split; [exact initial_settled|done]. }
    destruct (seed_ok g1 kept drp Hst) as (i & Hi & Hin & G); [by rewrite Hr1|].
    unfold group_step. rewrite Hs, Hd. cbn [mbind option_bind]. rewrite Hi. cbn [mbind option_bind].
    eexists. split; [reflexivity|]. split; [right; eauto|]. unfold measure. cbn [sectorsRemaining sectorSearch]. rewrite Hr1 in *.
    rewrite Hs, size_difference, size_singleton by set_solver. simpl.
    assert (size (sectorsRemaining g) ≠ 0%nat) by (intros E%size_empty_inv; apply Hrem; by apply leibniz_equiv). lia.
  - destruct Hg as [->|(front & cur & drp & G)]; [done|]. destruct (step_search g front cur drp i rest G Hs) as (g' & H1 & H2 & H3).
    exists g'. split; [done|]. split; [right; eauto|exact H3].
Qed.

(** The whole: [group_areas] returns, and what it returns meets the specification. *)
Lemma group_areas_ok : ∃ areas, group_areas w h P = Some areas ∧ areas_spec areas.
Proof.
  unfold group_areas. destruct (group_loop_ok (S (2 * size P)) (mkGroup [] 0 [] P)) as (g & -> & Hg & Hr & Hs); [by left|unfold measure; simpl; lia|].
  cbn [mbind option_bind]. destruct Hg as [->|(front & cur & drp & G)].
  - unfold drop_last. rewrite decide_True by done. exists []. split; [done|]. simpl in Hr. split; try apply Forall_nil_2; try apply NoDup_nil_2; [done|].
    intros C (s & Hs' & _). rewrite Hr in Hs'. by apply not_elem_of_empty in Hs'.
  - destruct (closed_component _ _ _ _ G Hs) as [Hcur Hnew]. destruct (gi_size _ _ _ _ G) as [Hsz Hlim].
    assert (∃ areas, drop_last w h g = Some areas ∧ Forall (λ A, small (sizeZ A) = false) areas ∧
      (areas = front ++ [cur] ∨ small (sizeZ cur) = true ∧ areas = front)) as (areas & -> & Hlarge & Hareas).
    { unfold drop_last. rewrite decide_False by lia. rewrite (gi_area _ _ _ _ G), last_snoc. cbn [mbind option_bind].
      pose proof (gi_large _ _ _ _ G) as Hl. destruct (small (sizeZ cur)) eqn:Hsm; eexists; (split; [reflexivity|]).
      - rewrite length_app. simpl. replace (length front + 1 - 1)%nat with (length front) by lia. rewrite take_app_length. auto.
      - split; [|by left]. apply Forall_app. split; [done|by constructor]. }
    exists areas. split; [done|]. pose proof (gi_comp _ _ _ _ G) as Hcomp. apply Forall_app in Hcomp as [Hcf Hcd].
    assert (front ⊆ areas) as Hsub by (intros A HA; destruct Hareas as [->|[_ ->]]; [apply elem_of_app; by left|done]).
    split.
    + destruct Hareas as [->|[_ ->]]; [|done]. apply Forall_app. split; [done|by constructor].
    + destruct Hareas as [->|[_ ->]]; [|apply (gi_distinct _ _ _ _ G)]. apply NoDup_app. split; [apply (gi_distinct _ _ _ _ G)|].
      split; [|apply NoDup_singleton]. by intros A HA ->%list_elem_of_singleton.
    + done.
    + destruct Hareas as [->|[_ ->]]; rewrite ?length_app; simpl; lia.
    + intros C HC Hsm. destruct (component_nonempty _ _ HC) as [s Hs'].
      assert (∀ D, component P D → s ∈ D → C = D) as Heq by (intros D HD HsD; by eapply components_meet).
      pose proof (gi_cover _ _ _ _ G s ltac:(by eapply component_subseteq)) as Hc. rewrite Hr, Hs, list_to_set_nil, union_empty_r_L in Hc.
      destruct Hc as [?%not_elem_of_empty|[Hin|(D & [HD|HD]%elem_of_app & Hin)]]; [done|..].
      * rewrite (Heq cur Hcur Hin) in *. left. destruct Hareas as [->|[Hsm' _]]; [apply elem_of_app; right; by left|congruence].
      * rewrite Forall_forall in Hcf. rewrite (Heq D (Hcf D HD) Hin). left. by apply Hsub.
      * rewrite Forall_forall in Hcd. rewrite (Heq D (Hcd D HD) Hin) in *. right. pose proof (gi_dropped _ _ _ _ G) as Hdr.
        rewrite Forall_forall in Hdr. destruct (Hdr D HD) as [?|[Hf Hbig]]; [congruence|]. etrans; [exact Hf|]. apply inj_le.
        assert (front = filter (λ A, sizeZ D <= sizeZ A) front) as -> by (symmetry; by apply filter_all).
        destruct Hareas as [->|[_ ->]]; [|done]. rewrite filter_app, length_app. lia.
Qed.
End grouping.

(** ** Areas that survive a change of the map

    When every sector that changed is usable exactly if it belongs to one of the areas, the areas are
    those of the new map, too: nothing was cut, joined or grown, and what was lost was in no area. *)

(** A subset of a finite set; its existence is enough for a decidable goal. *)
Lemma subset_not_not (Q : Z → Prop) (X : gset Z) : ¬ ¬ ∃ C : gset Z, ∀ j, j ∈ C ↔ j ∈ X ∧ Q j.
Proof.
  induction X as [|x X Hx IH] using set_ind_L; intros Hno.
  - apply Hno. exists ∅. set_solver.
  - apply IH. intros (C & HC). assert (¬ ¬ (Q x ∨ ¬ Q x)) as Hem by tauto. apply Hem. intros [Hq|Hq]; apply Hno.
    + exists ({[x]} ∪ C). intros j. rewrite !elem_of_union, !elem_of_singleton, HC. intuition congruence.
    + exists C. intros j. rewrite HC, elem_of_union, elem_of_singleton. intuition congruence.
Qed.

Lemma length_filter_mono {A} (P Q : A → Prop) `{∀ x, Decision (P x), ∀ x, Decision (Q x)} (l : list A) :
  (∀ x, P x → Q x) → (length (filter P l) <= length (filter Q l))%nat.
Proof. intros H1. induction l as [|x l IH]; [done|]. rewrite !filter_cons. repeat case_decide; simpl; naive_solver lia. Qed.

Lemma edge_mono (P P' : gset Z) i j : P ⊆ P' → edge P i j → edge P' i j.
Proof. intros HS (? & ? & ?). split_and!; auto. Qed.

Section stable.
Context (P P' changed : gset Z) (areas : list (gset Z)).
Hypothesis HP : ∀ i, i ∈ P → in_map i.
Hypothesis Hh : 0 < h.
Hypothesis Hsmall : ∀ n m, 0 <= n <= m → m <= w * h → too_small w h m = true → too_small w h n = true.
Hypothesis Hspec : areas_spec P areas.
Hypothesis Hsame : ∀ i, i ∉ changed → i ∈ P ↔ i ∈ P'.
Hypothesis Hchanged : ∀ i, i ∈ changed → i ∈ P' ↔ ∃ A, A ∈ areas ∧ i ∈ A.

Lemma kept_in_old A i : A ∈ areas → i ∈ A → i ∈ P.
Proof.
  intros HA Hi. pose proof (as_component _ _ Hspec) as Hc. rewrite Forall_forall in Hc. by eapply component_subseteq; [apply Hc|].
Qed.

Lemma stable_subseteq : P' ⊆ P.
Proof.
  intros i Hi. destruct (decide (i ∈ changed)) as [Hc|Hc]; [|by apply Hsame].
  apply Hchanged in Hi as (A & HA & Hi); [|done]. by eapply kept_in_old.
Qed.

Lemma kept_in_new A i : A ∈ areas → i ∈ A → i ∈ P'.
Proof.
  intros HA Hi. destruct (decide (i ∈ changed)) as [Hc|Hc]; [apply Hchanged; eauto|]. apply Hsame; [done|]. by eapply kept_in_old.
Qed.

Lemma stable_component A : A ∈ areas → component P' A.
Proof.
  intros HA. pose proof (as_component _ _ Hspec) as Hc. rewrite Forall_forall in Hc. specialize (Hc A HA).
  destruct (component_nonempty _ _ Hc) as [s Hs]. apply (component_intro P' A s); [by eapply kept_in_new|done| |].
  - intros j Hj. apply (component_reach P A s Hc Hs) in Hj. revert Hs. induction Hj as [i|i k j Hik Hkj IH]; intros Hi; [reflexivity|].
    assert (k ∈ A) as Hk by (by eapply component_closed).
    eapply rtc_l; [|by apply IH]. destruct Hik as (Hadj & _ & _). split_and!; [done| |]; by eapply kept_in_new.
  - intros i j Hi Hij. eapply component_closed; [done..|]. eapply edge_mono; [apply stable_subseteq|done].
Qed.

Lemma areas_spec_stable : areas_spec P' areas.
Proof.
  split; try apply Hspec.
  - apply Forall_forall. apply stable_component.
  - intros C' HC' Hbig. destruct (component_nonempty _ _ HC') as [s Hs].
    apply dec_stable. intros Hno. apply (subset_not_not (rtc (edge P) s) P). intros (C & HC).
    assert (s ∈ P) as HsP by (apply stable_subseteq; by eapply component_subseteq).
    assert (component P C) as HCc.
    { exists s. split; [done|]. intros j. rewrite HC. split; [by intros [_ ?]|]. intros Hj. split; [by eapply reach_in|done]. }
    assert (C' ⊆ C) as Hsub.
    { intros j Hj. apply HC. split; [apply stable_subseteq; by eapply component_subseteq|].
      apply (component_reach P' C' s HC' Hs) in Hj. eapply rtc_subrel; [|exact Hj]. intros i k. apply edge_mono, stable_subseteq. }
    apply sizeZ_mono in Hsub. pose proof (sizeZ_le P Hh HP C (component_subseteq _ _ HCc)) as Hle.
    destruct (as_complete _ _ Hspec C HCc) as [HA|Hmany].
    + destruct (too_small w h (sizeZ C)) eqn:E; [|done]. rewrite (Hsmall (sizeZ C') (sizeZ C)) in Hbig; [done| |lia|done].
      split; [unfold sizeZ; lia|done].
    + apply Hno. left. assert (C' = C) as ->; [|done]. eapply (components_meet P' _ _ s HC'); [by apply stable_component|done|].
      apply HC. split; [done|reflexivity].
    + apply Hno. right. etrans; [exact Hmany|]. apply inj_le, length_filter_mono. intros A. lia.
Qed.
End stable.

(** Below the limit the specification determines the areas. *)
Lemma areas_spec_unique (P : gset Z) l k :
  areas_spec P l → areas_spec P k → Z.of_nat (length l) < MAP_AREA_LIST_SIZE - 1 → l ≡ₚ k.
Proof.
  intros Hl Hk Hlen.
  assert (∀ a b, areas_spec P a → areas_spec P b → Z.of_nat (length b) < MAP_AREA_LIST_SIZE - 1 → a ⊆ b) as Hsub.
  { intros a b Ha Hb Hn A HA. pose proof (as_component _ _ Ha) as Hc. pose proof (as_large _ _ Ha) as Hg. rewrite Forall_forall in Hc, Hg.
    destruct (as_complete _ _ Hb A (Hc A HA) (Hg A HA)) as [?|Hmany]; [done|].
    pose proof (length_filter (λ B, sizeZ A <= sizeZ B) b). lia. }
  pose proof (Hsub k l Hk Hl Hlen) as Hkl.
  assert (length k <= length l)%nat as Hle by (apply submseteq_length, NoDup_submseteq; [apply Hk|done]).
  apply NoDup_Permutation; [apply Hl|apply Hk|]. intros A. split; [|apply Hkl]. apply Hsub; [done|done|lia].
Qed.
End components.

(** ** Which sizes are too small

    The test computes in [double]; on the sizes that a map can have it holds for the least ones. *)

Definition sizes_ok (w h : Z) : bool := forallb (λ n, implb (too_small w h (n + 1)) (too_small w h n)) (seqZ 0 (w * h)).

Lemma sizes_ok_mono w h :
  sizes_ok w h = true → ∀ n m, 0 <= n <= m → m <= w * h → too_small w h m = true → too_small w h n = true.
Proof.
  intros Hok n m Hnm Hm Hs. unfold sizes_ok in Hok. rewrite forallb_forall in Hok.
  assert (∀ d, 0 <= d → 0 <= m - d → too_small w h (m - d) = true) as Hd; [|replace n with (m - (m - n)) by lia; apply Hd; lia].
  intros d Hd0. pattern d. apply natlike_ind; [by rewrite Z.sub_0_r| |done]. intros e He IH Hle.
  assert (m - Z.succ e ∈ seqZ 0 (w * h)) as Hin%list_elem_of_In by (apply elem_of_seqZ; lia).
  specialize (Hok _ Hin). replace (m - Z.succ e + 1) with (m - e) in Hok by lia. rewrite IH in Hok by lia. by destruct (too_small w h _).
Qed.

Example sizes_ok_32 : sizes_ok 32 32 = true.
Proof. vm_compute. reflexivity. Qed.
