(* ===== verification/AreaMarks.v ===== *)
(** * AreaMarks: the areas of a type, their marks and figures

    [determine_areas] of [TerrainAreas] as a whole: the areas are the components of the sectors the type
    can enter ([AreaTheory]), every sector knows its area, and the shares of the map, the flags and the
    largest area follow from the areas. *)

From stdpp Require Import gmap.
From S2P Require Import Prelude Float32 TerrainAreas AreaTheory.

Local Open Scope circuit_scope.

(** ** Marking the sectors of one area *)

Lemma mark_area_ok j A l :
  (∀ i, i ∈ A → 0 <= i < zlen l) →
  ∃ l', mark_area j A l = Some l' ∧ zlen l' = zlen l ∧
    ∀ i, l'.[i] = if decide (i ∈ A) then set_as_area (Some j) <$> l.[i] else l.[i].
Proof.
  intros HA. destruct (foldM_ind (λ pre l', zlen l' = zlen l ∧
    ∀ i, l'.[i] = if decide (i ∈ pre) then set_as_area (Some j) <$> l.[i] else l.[i])
    (λ l i, s ← l.[i]; l.[i <- set_as_area (Some j) s]) (ascending A) l) as (l' & Hl' & Hlen & Hget).
  - split; [done|]. intros i. by rewrite decide_False by apply not_elem_of_nil.
  - intros pre a post s Hpre [Hlen Hget]. assert (a ∈ A) as Ha.
    { rewrite <-elem_of_ascending, Hpre. apply elem_of_app. right. by left. }
    assert (a ∉ pre) as Hnew.
    { pose proof (NoDup_ascending A) as Hnd. rewrite Hpre in Hnd. apply NoDup_app in Hnd as (_ & Hnd & _).
      intros Hin. apply (Hnd a Hin). by left. }
    pose proof (HA a Ha) as Hr. destruct (zget_is_Some l a Hr) as [x Hx].
    pose proof (Hget a) as Hga. rewrite decide_False in Hga by done. rewrite Hga, Hx. cbn [mbind option_bind].
    rewrite zset_Some by lia. eexists. split; [reflexivity|].
    assert (s.[a <- set_as_area (Some j) x] = Some (<[Z.to_nat a := set_as_area (Some j) x]> s)) as Hset by (apply zset_Some; lia).
    split; [by rewrite (zlen_zset _ _ _ _ Hset)|]. intros i. rewrite (zget_zset _ _ _ _ i Hset), Hget.
    destruct (decide (a = i)) as [->|Hne].
    + rewrite decide_True by (apply elem_of_app; right; by left). by rewrite Hx.
    + destruct (decide (i ∈ pre)).
      * by rewrite decide_True by (apply elem_of_app; by left).
      * rewrite decide_False; [done|]. by intros [?|?%list_elem_of_singleton]%elem_of_app.
  - exists l'. split; [exact Hl'|]. split; [done|]. intros i. rewrite Hget. destruct (decide (i ∈ A)) as [Hi|Hi].
    + rewrite decide_True; [done|]. by apply elem_of_ascending.
    + rewrite decide_False; [done|]. by rewrite elem_of_ascending.
Qed.

(** ** Types of movement *)

(** What [passable] reads of a type stays. *)
Record same_type (mt mt' : STerrainMapMobileType) : Prop := {
  sy_slope : mt_maxSlope mt' = mt_maxSlope mt;
  sy_max : mt_maxElevation mt' = mt_maxElevation mt;
  sy_min : mt_minElevation mt' = mt_minElevation mt;
  sy_hover : mt_canHover mt' = mt_canHover mt;
  sy_float : mt_canFloat mt' = mt_canFloat mt
}.

#[export] Instance same_type_equivalence : Equivalence same_type.
Proof.
  split.
  - intros mt. done.
  - intros a b []. split; congruence.
  - intros a b c [] []. split; congruence.
Qed.

Lemma passable_same harmful void mt mt' s : same_type mt mt' → passable harmful void mt' s = passable harmful void mt s.
Proof. intros [E1 E2 E3 E4 E5]. unfold passable. by rewrite E1, E2, E3, E4, E5. Qed.

Section marks.
Context (harmful void : bool) (w h : Z).

Lemma passable_set_same sectors mt mt' :
  same_type mt mt' → passable_set harmful void w h sectors mt' = passable_set harmful void w h sectors mt.
Proof.
  intros Hs. unfold passable_set. apply set_eq. intros i. rewrite !elem_of_list_to_set, !list_elem_of_filter.
  destruct (sectors.[i]); simpl; [by rewrite (passable_same _ _ _ _ _ Hs)|done].
Qed.

Lemma elem_of_passable_set sectors mt i :
  i ∈ passable_set harmful void w h sectors mt ↔ 0 <= i < w * h ∧ ∃ s, sectors.[i] = Some s ∧ passable harmful void mt s = true.
Proof.
  unfold passable_set. rewrite elem_of_list_to_set, list_elem_of_filter, elem_of_seqZ, fmap_Some. unfold total.
  split; [intros [(s & Hs & E) ?]|intros [? (s & Hs & E)]]; (split; [|lia || eauto]); [lia|eauto].
Qed.

(** What is known of a type once its areas are determined. *)
Record mobile_ok (sectors : list STerrainMapSector) (mt : STerrainMapMobileType) : Prop := {
  mo_areas : areas_spec w h (passable_set harmful void w h sectors mt) (area_sector <$> area mt);
  mo_sector : zlen (mt_sector mt) = w * h;
  mo_marked : ∀ i s j, (mt_sector mt).[i] = Some s →
    as_area s = Some j ↔ ∃ a, area mt !! j = Some a ∧ i ∈ area_sector a;
  mo_percent : ∀ a, a ∈ area mt →
    percentOfMap a = area_percent w h (sizeZ (area_sector a)) ∧ areaUsable a = usable_percent (percentOfMap a);
  mo_usable : ∀ a, a ∈ area mt → areaUsable a = true → typeUsable mt = true;
  mo_largest : match areaLargest mt with
    | None => area mt = []
    | Some k => ∃ a, area mt !! k = Some a ∧ ∀ b, b ∈ area mt → fltb (percentOfMap a) (percentOfMap b) = false
    end
}.

Section figures.
Context (areas : list (gset Z)) (mt0 : STerrainMapMobileType).
Hypothesis Hlen : zlen (mt_sector mt0) = w * h.
Hypothesis Hinside : ∀ A i, A ∈ areas → i ∈ A → 0 <= i < w * h.
Hypothesis Hdisjoint : ∀ j k A B i, areas !! j = Some A → areas !! k = Some B → i ∈ A → i ∈ B → j = k.
Hypothesis Hareas : area_sector <$> area mt0 = areas.
Hypothesis Hfresh : ∀ i s, (mt_sector mt0).[i] = Some s → as_area s = None.
Hypothesis Hnone : areaLargest mt0 = None.

(** After the first [k] areas. *)
Record figured (k : nat) (mt : STerrainMapMobileType) : Prop := {
  fi_areas : area_sector <$> area mt = areas;
  fi_len : zlen (mt_sector mt) = w * h;
  fi_type : same_type mt0 mt;
  fi_marked : ∀ i s j, (mt_sector mt).[i] = Some s → as_area s = Some j ↔ (j < k)%nat ∧ ∃ A, areas !! j = Some A ∧ i ∈ A;
  fi_percent : ∀ j a, (j < k)%nat → area mt !! j = Some a →
    percentOfMap a = area_percent w h (sizeZ (area_sector a)) ∧ areaUsable a = usable_percent (percentOfMap a) ∧
    (areaUsable a = true → typeUsable mt = true);
  fi_largest : match areaLargest mt with
    | None => k = 0%nat
    | Some m => (m < k)%nat ∧ ∃ a, area mt !! m = Some a ∧
        ∀ j b, (j < k)%nat → area mt !! j = Some b → fltb (percentOfMap a) (percentOfMap b) = false
    end
}.

Lemma calc_area_ok k mt : figured k mt → (k < length areas)%nat → ∃ mt', calc_area w h k mt = Some mt' ∧ figured (S k) mt'.
Proof.
  intros [F1 F2 F3 F4 F5 F6] Hk. unfold calc_area.
  destruct (lookup_lt_is_Some_2 (area mt) k) as [a Ha]; [by rewrite <-(length_fmap area_sector), F1|].
  assert (areas !! k = Some (area_sector a)) as HA by (by rewrite <-F1, list_lookup_fmap, Ha).
  rewrite Ha. cbn [mbind option_bind].
  destruct (mark_area_ok k (area_sector a) (mt_sector mt)) as (l & -> & Hl & Hget).
  { intros i Hi. rewrite F2. eapply Hinside; [by eapply list_elem_of_lookup_2|done]. }
  cbn [mbind option_bind]. set (p := area_percent w h (sizeZ (area_sector a))).
  set (a' := mkArea (usable_percent p) (area_sector a) (sectorClosest a) p).
  assert (∀ j b, (j < S k)%nat → <[k:=a']> (area mt) !! j = Some b → j = k ∧ b = a' ∨ (j < k)%nat ∧ area mt !! j = Some b) as Hlook.
  { intros j b Hj Hb. destruct (decide (j = k)) as [->|Hne].
    - rewrite list_lookup_insert_eq in Hb by (by eapply lookup_lt_Some). left. by injection Hb as <-.
    - rewrite list_lookup_insert_ne in Hb by done. right. split; [lia|done]. }
  assert (∃ m, match areaLargest mt with
            | None => Some k
            | Some m => b ← <[k:=a']> (area mt) !! m; Some (if fltb (percentOfMap b) p then k else m)
            end = Some m ∧ (m < S k)%nat ∧ ∃ b, <[k:=a']> (area mt) !! m = Some b ∧
          ∀ j c, (j < S k)%nat → <[k:=a']> (area mt) !! j = Some c → fltb (percentOfMap b) (percentOfMap c) = false)
    as (m & -> & Hm & b & Hb & Hbest).
  { destruct (areaLargest mt) as [m|].
    - destruct F6 as (Hm & b & Hb & Hbest). rewrite list_lookup_insert_ne by lia. rewrite Hb. cbn [mbind option_bind].
      destruct (fltb (percentOfMap b) p) eqn:Hlt; eexists; (split; [reflexivity|]); (split; [lia|]).
      + exists a'. rewrite list_lookup_insert_eq by (by eapply lookup_lt_Some). split; [done|].
        intros j c Hj [[-> ->]|[Hjk Hc]]%Hlook; [apply fltb_irrefl| |done].
        destruct (fltb (percentOfMap a') (percentOfMap c)) eqn:E; [|done]. exfalso.
        assert (fltb (percentOfMap b) (percentOfMap c) = true) as E2 by (by eapply fltb_trans). by rewrite (Hbest j c Hjk Hc) in E2.
      + exists b. rewrite list_lookup_insert_ne by lia. split; [done|].
        intros j c Hj [[-> ->]|[Hjk Hc]]%Hlook; [done|by eapply Hbest|done].
    - subst k. exists 0%nat. split; [done|]. split; [lia|]. exists a'. rewrite list_lookup_insert_eq by (by eapply lookup_lt_Some).
      split; [done|]. intros j c Hj [[-> ->]|[Hjk Hc]]%Hlook; [apply fltb_irrefl|lia|done]. }
  cbn [mbind option_bind]. eexists. split; [reflexivity|].
  split; cbn [area mt_sector typeUsable areaLargest].
  - rewrite list_fmap_insert, F1. cbn [area_sector a']. by apply list_insert_id.
  - by rewrite Hl.
  - destruct F3. by split.
  - intros i s j. rewrite Hget. destruct (decide (i ∈ area_sector a)) as [Hi|Hi].
    + destruct (mt_sector mt).[i] as [s0|] eqn:Hs0; [|done]. intros [= <-]. cbn [set_as_area as_area]. split.
      * intros [= <-]. split; [lia|eauto].
      * intros (_ & A & HAj & HiA). f_equal. by eapply Hdisjoint.
    + intros Hs. rewrite (F4 i s j Hs). split; [intros [? ?]; split; [lia|done]|].
      intros (Hj & A & HAj & HiA). split; [|eauto]. destruct (decide (j = k)) as [->|]; [|lia]. exfalso. congruence.
  - intros j c Hj [[-> ->]|[Hjk Hc]]%Hlook; [|destruct (F5 j c Hjk Hc) as (-> & -> & Ht)|done].
    + cbn. split_and!; [done|done|]. intros ->. by destruct (typeUsable mt).
    + split_and!; [done|done|]. intros Hu. by rewrite Ht.
  - split; [done|]. eauto.
Qed.

Lemma calculations_figured : ∃ mt, calculations w h mt0 = Some mt ∧ figured (length areas) mt.
Proof.
  assert (length areas = length (area mt0)) as -> by (by rewrite <-Hareas, length_fmap). unfold calculations.
  destruct (foldM_ind (λ pre mt, figured (length pre) mt) (λ mt j, calc_area w h j mt) (seq 0 (length (area mt0))) mt0) as (mt & Hmt & Hf).
  - split; try done.
    + intros i s j Hs. rewrite (Hfresh i s Hs). split; [done|]. intros [? _]. simpl in *. lia.
    + intros j a Hj. simpl in Hj. lia.
    + by rewrite Hnone.
  - intros pre k post mt Hpre Hf. rewrite length_app, Nat.add_1_r. assert (k = length pre) as ->.
    { assert (seq 0 (length (area mt0)) !! length pre = Some k) as Hlk by (by rewrite Hpre, list_lookup_middle). apply lookup_seq in Hlk. lia. }
    apply calc_area_ok; [done|]. replace (length areas) with (length (area mt0)) by (by rewrite <-Hareas, length_fmap). rewrite <-(length_seq (length (area mt0)) 0), Hpre, length_app. simpl. lia.
  - rewrite length_seq in Hf. eauto.
Qed.
End figures.

(** The figures of areas that meet the specification. *)
Lemma calculations_ok sectors mt :
  areas_spec w h (passable_set harmful void w h sectors mt) (area_sector <$> area mt) →
  zlen (mt_sector mt) = w * h → (∀ i s, (mt_sector mt).[i] = Some s → as_area s = None) → areaLargest mt = None →
  ∃ mt', calculations w h mt = Some mt' ∧ mobile_ok sectors mt' ∧ same_type mt mt' ∧ area_sector <$> area mt' = area_sector <$> area mt.
Proof.
  intros Hspec Hlen Hfresh Hnone. pose proof (as_component _ _ _ _ Hspec) as Hcomp. rewrite Forall_forall in Hcomp.
  destruct (calculations_figured (area_sector <$> area mt) mt) as (mt' & Hmt' & F); try done.
  - intros A i HA Hi. apply (component_subseteq _ _ _ (Hcomp A HA)), elem_of_passable_set in Hi. by destruct Hi.
  - intros j k A B i HA HB HiA HiB. assert (A = B) as ->.
    { eapply components_meet; [apply Hcomp|apply Hcomp|done..]; by eapply list_elem_of_lookup_2. }
    eapply NoDup_lookup; [apply Hspec|done..].
  - exists mt'. destruct F as [F1 F2 F3 F4 F5 F6]. split; [done|]. split; [|done].
    assert (length (area_sector <$> area mt) = length (area mt')) as HL by (by rewrite <-F1, length_fmap). rewrite HL in *. split.
    + by rewrite F1, (passable_set_same _ _ _ F3).
    + done.
    + intros i s j Hs. rewrite (F4 i s j Hs), <-F1. split.
      * intros (_ & A & HA & Hi). rewrite list_lookup_fmap in HA. destruct (area mt' !! j) as [a|]; [|done]. injection HA as <-. eauto.
      * intros (a & Ha & Hi). rewrite list_lookup_fmap, Ha. split; [|eauto]. by eapply lookup_lt_Some.
    + intros a [j Ha]%list_elem_of_lookup_1. destruct (F5 j a) as (? & ? & _); [|done|done].
      by eapply lookup_lt_Some.
    + intros a [j Ha]%list_elem_of_lookup_1. apply (F5 j a); [|done]. by eapply lookup_lt_Some.
    + destruct (areaLargest mt') as [m|].
      * destruct F6 as (_ & a & Ha & Hbest). exists a. split; [done|]. intros b [j Hb]%list_elem_of_lookup_1. apply (Hbest j); [|done]. by eapply lookup_lt_Some.
      * by apply nil_length_inv.
Qed.

Lemma passable_set_in_map sectors mt i : i ∈ passable_set harmful void w h sectors mt → in_map w h i.
Proof. rewrite elem_of_passable_set. by intros [? _]. Qed.

Lemma set_areas_sectors areas mt : area_sector <$> area (set_areas areas mt) = areas.
Proof. simpl. rewrite <-list_fmap_compose. by apply list_fmap_id. Qed.

Lemma set_areas_type areas mt : same_type mt (set_areas areas mt).
Proof. done. Qed.

(** A type before its areas are known. *)
Record fresh_mobile (mt : STerrainMapMobileType) : Prop := {
  fm_len : zlen (mt_sector mt) = w * h;
  fm_area : ∀ i s, (mt_sector mt).[i] = Some s → as_area s = None;
  fm_largest : areaLargest mt = None
}.

Lemma determine_fresh sectors mt :
  0 < w → 0 < h → sizes_ok w h = true → fresh_mobile mt →
  ∃ mt', determine_areas harmful void w h sectors mt = Some mt' ∧ mobile_ok sectors mt' ∧ same_type mt mt'.
Proof.
  intros Hw Hh Hsz [Hlen Hfresh Hnone]. unfold determine_areas.
  destruct (group_areas_ok w h Hw (passable_set harmful void w h sectors mt) Hh) as (areas & -> & Hspec);
    [apply passable_set_in_map|by apply sizes_ok_mono|].
  cbn [mbind option_bind]. destruct (calculations_ok sectors (set_areas areas mt)) as (mt' & -> & Hok & Hs & _); try done.
  - by rewrite set_areas_sectors, (passable_set_same _ _ _ (set_areas_type areas mt)).
  - eexists. split; [done|]. split; [done|]. etrans; [apply set_areas_type|done].
Qed.
End marks.

(** C19: From a type without areas, on a map whose size passes [sizes_ok] (the float test that calls an area too small is monotone for its sizes), [determine_areas] always produces its areas: each is a whole connected component of the sectors the type can enter, none is too small, there are at most fifty and a large component is missing only if at least 49 kept ones are no smaller; every sector points to exactly the area that contains it; the shares of the map and the usable flags follow from the sizes; and no area has a larger share than the largest one. *)
Theorem determine_areas_ok harmful void w h sectors mt :
  0 < w → 0 < h → sizes_ok w h = true → fresh_mobile w h mt →
  ∃ mt', determine_areas harmful void w h sectors mt = Some mt' ∧ mobile_ok harmful void w h sectors mt' ∧ same_type mt mt'.
Proof. apply determine_fresh. Qed.

(** A map of five by five sectors that a steep column cuts in two. *)
Definition demo_sectors : list STerrainMapSector :=
  (λ i, mkSec false (F3 f0 f0 f0) f1 f1 f1 (if bool_decide (i `mod` 5 = 2) then f_of_Z 2 else f0)) <$> seqZ 0 25.
Definition demo_type : STerrainMapMobileType :=
  mkMT false (replicate 25 new_area_sector) [] None f1 (f_of_Z 100) (f_of_Z (-10)) false false f0 1.

Lemma demo_fresh : fresh_mobile 5 5 demo_type.
Proof. split; try done. intros i s. cbn [mt_sector demo_type]. unfold zget. case_decide; [|done]. by intros [-> _]%lookup_replicate_1. Qed.

Example demo_areas : size <$> from_option id [] (group_areas 5 5 (passable_set false false 5 5 demo_sectors demo_type)) = [10; 10]%nat.
Proof. vm_compute. reflexivity. Qed.

Lemma determine_areas_ok_witness :
  ∃ mt', determine_areas false false 5 5 demo_sectors demo_type = Some mt' ∧
    mobile_ok false false 5 5 demo_sectors mt' ∧ same_type demo_type mt'.
Proof.
  apply determine_areas_ok.
  - lia.
  - lia.
  - vm_compute. reflexivity.
  - exact demo_fresh.
Defined.
