(* ===== verification/TerrainData.v ===== *)
(** * TerrainData: the analysis of the map's terrain

    Models [src/src/circuit/terrain/TerrainData.cpp]: [Init] detects the types of movement among the
    unit definitions, reads every sector's slope, elevation and share of land from the maps of the
    engine and groups the sectors into areas; [UpdateAreas] does it again on the other of two
    buffers for the sectors whose heights have changed.  The two share the reading of a sector
    ([scan_slope], [scan_heights]) and the areas ([TerrainAreas]).  The engine's maps and unit
    definitions are arguments. *)

From Stdlib Require Import SpecFloat.
From stdpp Require Import gmap.
From S2P Require Import Prelude Float32 EnemyUnit SectorGrid TerrainAreas.

Local Open Scope circuit_scope.

Record SAreaData : Type := mkAreaData {
  mobileType : list STerrainMapMobileType;
  immobileType : list STerrainMapImmobileType;
  sectorAirType : list STerrainMapAreaSector;
  sector : list STerrainMapSector;
  ad_minElevation : float;
  ad_maxElevation : float;
  ad_percentLand : float;
  heightMap : list float
}.

Record CTerrainData : Type := mkTerrainData {
  areaData0 : SAreaData;
  areaData1 : SAreaData;
  pAreaData : buf;
  udMobileType : gmap Z Z;
  udImmobileType : gmap Z Z;
  waterIsHarmful : bool;
  waterIsAVoid : bool;
  sectorXSize : Z;
  sectorZSize : Z;
  convertStoP : Z;
  slopeMap : list float;
  isUpdating : bool
}.

Definition area_data (td : CTerrainData) (b : buf) : SAreaData := match b with Data0 => areaData0 td | Data1 => areaData1 td end.
Definition GetNextAreaData (td : CTerrainData) : buf := other (pAreaData td).

Definition FLT_MIN : float := S754_finite false 8388608 (-149).

(** ** Types of movement *)

(** What [Init] reads of a unit definition and of its move data. *)
Record MoveData : Type := mkMove { md_maxSlope : float; md_depth : float; md_ship : bool; md_crush : float }.
Record UnitDef : Type := mkUnitDef {
  ud_id : Z;
  IsAbleToFly : bool;
  GetSpeed : float;
  GetMinWaterDepth : float;
  GetMaxWaterDepth : float;
  IsAbleToHover : bool;
  IsFloater : bool;
  GetMoveData : MoveData
}.

Definition same_mobile (d : UnitDef) (mt : STerrainMapMobileType) : bool :=
  let md := GetMoveData d in
  let minWaterDepth := if md_ship md then md_depth md else GetMinWaterDepth d in
  (feqb (mt_maxElevation mt) (fneg minWaterDepth) && feqb (mt_maxSlope mt) (md_maxSlope md) &&
   eqb (mt_canHover mt) (IsAbleToHover d) && eqb (mt_canFloat mt) (IsFloater d)) &&
  (feqb (mt_minElevation mt) (fneg (md_depth md)) ||
   (mt_canHover mt || mt_canFloat mt) && fleb (mt_minElevation mt) f0 && fleb (fneg (GetMaxWaterDepth d)) f0).

Definition new_mobile (d : UnitDef) (total : Z) : STerrainMapMobileType :=
  let md := GetMoveData d in
  let minWaterDepth := if md_ship md then md_depth md else GetMinWaterDepth d in
  mkMT false (replicate (Z.to_nat total) new_area_sector) [] None (md_maxSlope md) (fneg minWaterDepth) (fneg (md_depth md))
    (IsAbleToHover d) (IsFloater d) (md_crush md) 0.

(** The greatest crush strength stays; one more unit definition uses the type. *)
Definition use_mobile (d : UnitDef) (mt : STerrainMapMobileType) : STerrainMapMobileType :=
  let crush := if fltb (crushStrength mt) (md_crush (GetMoveData d)) then md_crush (GetMoveData d) else crushStrength mt in
  mkMT (typeUsable mt) (mt_sector mt) (area mt) (areaLargest mt) (mt_maxSlope mt) (mt_maxElevation mt) (mt_minElevation mt)
    (mt_canHover mt) (mt_canFloat mt) crush (mt_udCount mt + 1).

Definition same_immobile (d : UnitDef) (it : STerrainMapImmobileType) : bool :=
  (feqb (it_maxElevation it) (fneg (GetMinWaterDepth d)) && eqb (it_canHover it) (IsAbleToHover d) && eqb (it_canFloat it) (IsFloater d)) &&
  (feqb (it_minElevation it) (fneg (GetMaxWaterDepth d)) ||
   (it_canHover it || it_canFloat it) && fleb (it_minElevation it) f0 && fleb (fneg (GetMaxWaterDepth d)) f0).

Definition new_immobile (d : UnitDef) : STerrainMapImmobileType :=
  mkIT false ∅ ∅ (fneg (GetMaxWaterDepth d)) (fneg (GetMinWaterDepth d)) (IsAbleToHover d) (IsFloater d) 0.

Definition use_immobile (it : STerrainMapImmobileType) : STerrainMapImmobileType :=
  mkIT (it_usable it) (it_sector it) (it_closest it) (it_minElevation it) (it_maxElevation it) (it_canHover it) (it_canFloat it) (it_udCount it + 1).

Record Types : Type := mkTypes {
  t_mobile : list STerrainMapMobileType;
  t_immobile : list STerrainMapImmobileType;
  t_udMobile : gmap Z Z;
  t_udImmobile : gmap Z Z
}.

(** The first type that matches, or a new one at the end. *)
Definition find_or_add {A} (same : A → bool) (use : A → A) (new : A) (l : list A) : list A * Z :=
  match list_find (λ a, same a = true) l with
  | Some (i, a) => (<[i := use a]> l, Z.of_nat i)
  | None => (l ++ [use new], zlen l)
  end.

Definition detect (total : Z) (t : Types) (d : UnitDef) : Types :=
  if IsAbleToFly d then
    mkTypes (t_mobile t) (t_immobile t) (<[ud_id d := -1]> (t_udMobile t)) (t_udImmobile t)
  else if fgtb (GetSpeed d) f0 then
    let '(l, i) := find_or_add (same_mobile d) (use_mobile d) (new_mobile d total) (t_mobile t) in
    mkTypes l (t_immobile t) (<[ud_id d := i]> (t_udMobile t)) (t_udImmobile t)
  else
    let '(l, i) := find_or_add (same_immobile d) use_immobile (new_immobile d) (t_immobile t) in
    mkTypes (t_mobile t) l (t_udMobile t) (<[ud_id d := i]> (t_udImmobile t)).

(** ** Reading a sector *)

(** The cells of a block of [conv] by [conv] entries at [iMap] of a map with rows of [xSize] entries. *)
Definition for_block {S} (conv iMap xSize : Z) (f : Z → S → option S) (s : S) : option S :=
  zfor 0 conv (λ zB s, zfor 0 conv (λ xB s, f (iMap + zB * xSize + xB) s) s) s.

(** [maxSlope], raised to the steepest entry of the block. *)
Definition scan_slope (slopes : list float) (conv iMap xSize : Z) (slope : float) : option float :=
  for_block conv iMap xSize (λ i s, v ← slopes.[i]; Some (if fltb s v then v else s)) slope.

(** Of a sector: the number of entries that are land, the lowest and the highest; and the extremes of the map. *)
Record Heights : Type := mkHeights { h_land : float; h_min : float; h_max : float; g_min : float; g_max : float }.

Definition scan_height (v : float) (s : Heights) : Heights :=
  let land := if fgeb v f0 then fadd (h_land s) f1 else h_land s in
  if fgtb (h_min s) v then
    mkHeights land v (h_max s) (if fgtb (g_min s) v then v else g_min s) (g_max s)
  else if fltb (h_max s) v then
    mkHeights land (h_min s) v (g_min s) (if fltb (g_max s) v then v else g_max s)
  else mkHeights land (h_min s) (h_max s) (g_min s) (g_max s).

(** The scan starts from the first entry, which no comparison with the map's extremes sees. *)
Definition scan_heights (heights : list float) (conv iMap xSize : Z) (gmin gmax : float) : option Heights :=
  v ← heights.[iMap];
  for_block conv iMap xSize (λ i s, v ← heights.[i]; Some (scan_height v s)) (mkHeights f0 v v gmin gmax).

(** [*= 100.0 / n], in [double]. *)
Definition to_percent (land : float) (n : Z) : float := f_of_d (dmul (d_of_f land) (ddiv (d_of_Z 100) (d_of_Z n))).
Definition water_percent (p : float) : bool := fleb (d_of_f p) (d_of_Z 50).

(** [std::round]: halves go away from zero. *)
Definition dround (x : double) : double :=
  match x with
  | S754_finite s m e =>
      if decide (0 <= e) then x
      else let n := (2 * Zpos m + 2 ^ (- e)) / 2 ^ (1 - e) in
           let r := d_of_Z n in if s then SFopp r else r
  | _ => x
  end.

(** [std::round(p * n / 100.0)]: the number of entries behind a percentage; the product is in [float]. *)
Definition from_percent (p : float) (n : Z) : float := f_of_d (dround (ddiv (d_of_f (fmul p (f_of_Z n))) (d_of_Z 100))).

(** ** Init *)

Section sizes.
Context {E : Engine}.
Context (harmful void : bool) (xSize zSize stoP : Z).

Definition convertStoSM : Z := Z.quot stoP 16.
Definition convertStoHM : Z := Z.quot stoP 8.
Definition slopeMapXSize : Z := xSize * convertStoSM.
Definition heightMapXSize : Z := xSize * convertStoHM.

(** The state of the loop over the sectors. *)
Record Analysis : Type := mkAnalysis {
  a_immobile : list STerrainMapImmobileType;
  a_sector : list STerrainMapSector;
  a_min : float;
  a_max : float;
  a_land : float
}.

Definition set_buildable (i : Z) (s : STerrainMapSector) (it : STerrainMapImmobileType) : STerrainMapImmobileType :=
  if buildable harmful void it s then
    mkIT (it_usable it) ({[i]} ∪ it_sector it) (it_closest it) (it_minElevation it) (it_maxElevation it) (it_canHover it) (it_canFloat it) (it_udCount it)
  else it.

(** [percentLand++] for the map is one step per entry that is land, as for the sector. *)
Definition count_land (heights : list float) (iMap : Z) (land : float) : option float :=
  for_block convertStoHM iMap heightMapXSize (λ i s, v ← heights.[i]; Some (if fgeb v f0 then fadd s f1 else s)) land.

(** The centre of sector [(x, z)], without the height. *)
Definition sector_centre (x z : Z) : Z * Z := (x * stoP + Z.quot stoP 2, z * stoP + Z.quot stoP 2).

Definition init_sector (elevation : float → float → float) (slopes heights : list float) (z x : Z) (a : Analysis) : option Analysis :=
  let i := z * xSize + x in
  let '(cx, cz) := sector_centre x z in
  let pos := F3 (f_of_Z cx) (elevation (f_of_Z cx) (f_of_Z cz)) (f_of_Z cz) in
  slope ← scan_slope slopes convertStoSM (z * convertStoSM * slopeMapXSize + x * convertStoSM) slopeMapXSize f0;
  let iMap := z * convertStoHM * heightMapXSize + x * convertStoHM in
  h ← scan_heights heights convertStoHM iMap heightMapXSize (a_min a) (a_max a);
  land ← count_land heights iMap (a_land a);
  let p := to_percent (h_land h) (convertStoHM * convertStoHM) in
  let s := mkSec (water_percent p) pos p (h_min h) (h_max h) slope in
  sectors ← (a_sector a).[i <- s];
  Some (mkAnalysis (set_buildable i s <$> a_immobile a) sectors (g_min h) (g_max h) land).

Definition set_it_usable (it : STerrainMapImmobileType) : STerrainMapImmobileType :=
  mkIT (it_percent_ok xSize zSize stoP (sizeZ (it_sector it))) (it_sector it) (it_closest it) (it_minElevation it) (it_maxElevation it)
    (it_canHover it) (it_canFloat it) (it_udCount it).

Definition map_percent (land : float) : float := to_percent land (xSize * convertStoHM * zSize * convertStoHM).

Definition empty_sector : STerrainMapSector := mkSec false (F3 f0 f0 f0) f0 f0 f0 f0.

Definition init_area_data (elevation : float → float → float) (slopes heights : list float) (t : Types) : option SAreaData :=
  let n := xSize * zSize in
  a ← zfor 0 zSize (λ z a, zfor 0 xSize (λ x a, init_sector elevation slopes heights z x a) a)
        (mkAnalysis (t_immobile t) (replicate (Z.to_nat n) empty_sector) FLT_MAX FLT_MIN f0);
  mts ← mapM (determine_areas harmful void xSize zSize (a_sector a)) (t_mobile t);
  Some (mkAreaData mts (set_it_usable <$> a_immobile a) (replicate (Z.to_nat n) new_area_sector) (a_sector a) (a_min a) (a_max a)
          (map_percent (a_land a)) heights).

(** "Duplicate areaData": the pointers are set again for the copy, the largest area is looked for again;
    the height map is not copied. *)
Definition duplicate_mt (mt : STerrainMapMobileType) : option STerrainMapMobileType :=
  sectors ← foldM (λ l j, a ← area mt !! j; mark_area j (area_sector a) l) (mt_sector mt) (seq 0 (length (area mt)));
  largest ← foldM (λ (k : option nat) j, a ← area mt !! j;
              match k with
              | None => Some (Some j)
              | Some i => b ← area mt !! i; Some (Some (if fltb (percentOfMap b) (percentOfMap a) then j else i))
              end) None (seq 0 (length (area mt)));
  Some (mkMT (typeUsable mt) sectors (area mt) largest (mt_maxSlope mt) (mt_maxElevation mt) (mt_minElevation mt)
          (mt_canHover mt) (mt_canFloat mt) (crushStrength mt) (mt_udCount mt)).

Definition duplicate_data (d : SAreaData) : option SAreaData :=
  mts ← mapM duplicate_mt (mobileType d);
  let its := (λ it, foldl (λ it '(i, s), set_buildable (Z.of_nat i) s it) it (imap (λ i s, (i, s)) (sector d))) <$> immobileType d in
  Some (mkAreaData mts its (sectorAirType d) (sector d) f0 f0 f0 []).
End sizes.

(** Sectors of 64 elmos, of 32 on small maps, of 128 on large ones. *)
Definition sector_size {E : Engine} (mapWidth mapHeight : Z) : Z :=
  let n := Z.quot mapWidth 64 * Z.quot mapHeight 64 in
  if decide (n < 8 * 8) then Z.quot DEFAULT_SLACK 2 else if decide (n > 16 * 16) then DEFAULT_SLACK * 2 else DEFAULT_SLACK.

Definition Init {E : Engine} (waterDamage : float) (mapWidth mapHeight : Z) (elevation : float → float → float)
    (slopes heights : list float) (defs : list UnitDef) : option CTerrainData :=
  let harmful := fgtb waterDamage f0 in
  let stoP := sector_size mapWidth mapHeight in
  let xSize := Z.quot (SQUARE_SIZE * mapWidth) stoP in
  let zSize := Z.quot (SQUARE_SIZE * mapHeight) stoP in
  let t := foldl (detect (xSize * zSize)) (mkTypes [] [] ∅ ∅) defs in
  d ← init_area_data harmful harmful xSize zSize stoP elevation slopes heights t;
  d' ← duplicate_data harmful harmful d;
  Some (mkTerrainData d d' Data0 (t_udMobile t) (t_udImmobile t) harmful harmful xSize zSize stoP slopes false).

(** ** The update of the areas *)

(** [map->GetHeightMap(GetNextAreaData()->heightMap)] and [map->GetSlopeMap(slopeMap)]; nothing while an update is running. *)
Definition set_heightMap (h : list float) (d : SAreaData) : SAreaData :=
  mkAreaData (mobileType d) (immobileType d) (sectorAirType d) (sector d) (ad_minElevation d) (ad_maxElevation d) (ad_percentLand d) h.
Definition set_area_data (b : buf) (d : SAreaData) (td : CTerrainData) : CTerrainData :=
  mkTerrainData (match b with Data0 => d | Data1 => areaData0 td end) (match b with Data1 => d | Data0 => areaData1 td end)
    (pAreaData td) (udMobileType td) (udImmobileType td) (waterIsHarmful td) (waterIsAVoid td) (sectorXSize td) (sectorZSize td)
    (convertStoP td) (slopeMap td) (isUpdating td).
Definition set_slopes (s : list float) (updating : bool) (td : CTerrainData) : CTerrainData :=
  mkTerrainData (areaData0 td) (areaData1 td) (pAreaData td) (udMobileType td) (udImmobileType td) (waterIsHarmful td)
    (waterIsAVoid td) (sectorXSize td) (sectorZSize td) (convertStoP td) s updating.

Definition EnqueueUpdate (heights slopes : list float) (td : CTerrainData) : CTerrainData :=
  if isUpdating td then td else
  let b := GetNextAreaData td in
  set_slopes slopes true (set_area_data b (set_heightMap heights (area_data td b)) td).

Section update.
Context {E : Engine}.
Context (harmful void : bool) (xSize zSize stoP : Z).

Abbreviation conv := (convertStoHM stoP).
Abbreviation hmX := (heightMapXSize xSize stoP).
Abbreviation cells := (convertStoHM stoP * convertStoHM stoP).

(** "Reset areaData" *)
Definition reset_mt (mt : STerrainMapMobileType) : STerrainMapMobileType :=
  mkMT (typeUsable mt) (const new_area_sector <$> mt_sector mt) [] None (mt_maxSlope mt) (mt_maxElevation mt) (mt_minElevation mt)
    (mt_canHover mt) (mt_canFloat mt) (crushStrength mt) (mt_udCount mt).
Definition reset_it (prev it : STerrainMapImmobileType) : STerrainMapImmobileType :=
  mkIT (it_usable it) (it_sector prev) ∅ (it_minElevation it) (it_maxElevation it) (it_canHover it) (it_canFloat it) (it_udCount it).

(** The lambda [isSectorHeightChanged]. *)
Fixpoint differ (heights prev : list float) (cells : list Z) : option bool :=
  match cells with
  | [] => Some false
  | i :: cells =>
      v ← heights.[i];
      v' ← prev.[i];
      if feqb v v' then differ heights prev cells else Some true
  end.
Definition block_cells (conv iMap xSize : Z) : list Z :=
  zB ← seqZ 0 conv; (λ xB, iMap + zB * xSize + xB) <$> seqZ 0 conv.
Definition isSectorHeightChanged (heights prev : list float) (iMap : Z) : option bool :=
  differ heights prev (block_cells conv iMap hmX).

Definition update_buildable (i : Z) (s : STerrainMapSector) (it : STerrainMapImmobileType) : STerrainMapImmobileType :=
  mkIT (it_usable it) (if buildable harmful void it s then {[i]} ∪ it_sector it else it_sector it ∖ {[i]}) (it_closest it)
    (it_minElevation it) (it_maxElevation it) (it_canHover it) (it_canFloat it) (it_udCount it).

(** One sector whose heights have changed; [land] is [tmpPercentLand]. *)
Definition update_sector (slopes heights : list float) (z x : Z) (a : Analysis) : option Analysis :=
  let i := z * xSize + x in
  s ← (a_sector a).[i];
  xi ← f_to_int (fdiv (px (position s)) (f_of_Z SQUARE_SIZE));
  zi ← f_to_int (fdiv (pz (position s)) (f_of_Z SQUARE_SIZE));
  y ← heights.[zi * hmX + xi];
  slope ← scan_slope slopes (convertStoSM stoP) (z * convertStoSM stoP * slopeMapXSize xSize stoP + x * convertStoSM stoP)
            (slopeMapXSize xSize stoP) f0;
  let prevPercentLand := from_percent (percentLand s) cells in
  h ← scan_heights heights conv (z * conv * hmX + x * conv) hmX (a_min a) (a_max a);
  let land := if feqb (h_land h) prevPercentLand then a_land a else fadd (a_land a) (fsub (h_land h) prevPercentLand) in
  let p := to_percent (h_land h) cells in
  let s' := mkSec (water_percent p) (F3 (px (position s)) y (pz (position s))) p (h_min h) (h_max h) slope in
  sectors ← (a_sector a).[i <- s'];
  Some (mkAnalysis (update_buildable i s' <$> a_immobile a) sectors (g_min h) (g_max h) land).

(** The loop over the sectors, with [changedSectors]. *)
Definition visit_sector (slopes heights prev : list float) (z x : Z) (s : Analysis * gset Z) : option (Analysis * gset Z) :=
  changed ← isSectorHeightChanged heights prev (z * conv * hmX + x * conv);
  if (changed : bool) then
    a ← update_sector slopes heights z x s.1;
    Some (a, {[z * xSize + x]} ∪ s.2)
  else Some s.

(** [prev] is the type in the published buffer, [sectors] are the new ones. *)
Fixpoint shouldRebuild (prev : STerrainMapMobileType) (sectors : list STerrainMapSector) (changed : list Z) : option bool :=
  match changed with
  | [] => Some false
  | i :: changed =>
      s ← sectors.[i];
      a ← (mt_sector prev).[i];
      if eqb (passable harmful void prev s) (bool_decide (is_Some (as_area a))) then shouldRebuild prev sectors changed
      else Some true
  end.

(** "Copy mt.area from previous areaData" *)
Definition copy_areas (prev mt : STerrainMapMobileType) : STerrainMapMobileType :=
  set_areas (area_sector <$> area prev) mt.

Definition update_mt (sectors : list STerrainMapSector) (changed : gset Z) (prev mt : STerrainMapMobileType) : option STerrainMapMobileType :=
  rebuild ← shouldRebuild prev sectors (ascending changed);
  if (rebuild : bool) then determine_areas harmful void xSize zSize sectors mt
  else calculations xSize zSize (copy_areas prev mt).

(** Two vectors walked together. *)
Fixpoint zip_withM {A B C} (f : A → B → option C) (l : list A) (k : list B) : option (list C) :=
  match l, k with
  | [], [] => Some []
  | a :: l, b :: k => c ← f a b; cs ← zip_withM f l k; Some (c :: cs)
  | _, _ => None
  end.

(** [tmpPercentLand * 100.0 / n]: another order of the same operations than in [Init]. *)
Definition map_percent_again (land : float) : float :=
  f_of_d (ddiv (dmul (d_of_f land) (d_of_Z 100)) (d_of_Z (xSize * conv * zSize * conv))).

(** [UpdateAreas] from the published data [prev] to the next data [d], whose height map is new. *)
Definition update_area_data (slopes : list float) (prev d : SAreaData) : option SAreaData :=
  let its := zip_with reset_it (immobileType prev) (immobileType d) in
  let mts := reset_mt <$> mobileType d in
  let land := from_percent (ad_percentLand prev) (xSize * conv * zSize * conv) in
  '(a, changed) ← zfor 0 zSize (λ z s, zfor 0 xSize (λ x s, visit_sector slopes (heightMap d) (heightMap prev) z x s) s)
        (mkAnalysis its (sector prev) (ad_minElevation prev) (ad_maxElevation prev) land, ∅);
  mts ← zip_withM (update_mt (a_sector a) changed) (mobileType prev) mts;
  Some (mkAreaData mts (set_it_usable xSize zSize stoP <$> a_immobile a) (sectorAirType d) (a_sector a) (a_min a) (a_max a)
          (map_percent_again (a_land a)) (heightMap d)).
End update.

Definition UpdateAreas {E : Engine} (td : CTerrainData) : option CTerrainData :=
  let b := GetNextAreaData td in
  d ← update_area_data (waterIsHarmful td) (waterIsAVoid td) (sectorXSize td) (sectorZSize td) (convertStoP td) (slopeMap td)
        (area_data td (pAreaData td)) (area_data td b);
  Some (set_area_data b d td).

(** The published buffer is swapped when the last AI is done, see [AreaPublish]. *)
Definition publish_areas (td : CTerrainData) : CTerrainData :=
  mkTerrainData (areaData0 td) (areaData1 td) (GetNextAreaData td) (udMobileType td) (udImmobileType td) (waterIsHarmful td)
    (waterIsAVoid td) (sectorXSize td) (sectorZSize td) (convertStoP td) (slopeMap td) false.
