(* ===== verification/LandShare.v ===== *)
(** * LandShare: the share of land survives its way through a percentage

    A sector keeps its share of land as a percentage in [float]; the update needs the number of land
    entries again, to correct the map's total, and gets it back by rounding.  For the three sizes of
    sectors the number is exact. *)

From Stdlib Require Import SpecFloat.
From S2P Require Import Prelude Float32 TerrainAreas TerrainData.

Local Open Scope circuit_scope.

(** Two nested loops over a block visit its cells one after the other. *)
Lemma for_block_cells {S} conv iMap xSize (f : Z → S → option S) s :
  for_block conv iMap xSize f s = foldM (λ s i, f i s) s (block_cells conv iMap xSize).
Proof.
  unfold for_block, block_cells, zfor. rewrite Z.sub_0_r. generalize (seqZ 0 conv) at 2 4 as zs. intros zs. revert s.
  induction zs as [|z zs IH]; intros s; simpl; [done|]. rewrite foldM_app, foldM_fmap.
  destruct (foldM _ s (seqZ 0 conv)); simpl; [apply IH|done].
Qed.

Lemma length_block_cells conv iMap xSize : 0 <= conv → Z.of_nat (length (block_cells conv iMap xSize)) = conv * conv.
Proof.
  intros Hc. unfold block_cells.
  assert (∀ zs : list Z, length (zB ← zs; (λ xB, iMap + zB * xSize + xB) <$> seqZ 0 conv) = (length zs * Z.to_nat conv)%nat) as Hl.
  { intros zs. induction zs as [|z zs IH]; [done|]. rewrite bind_cons, length_app, length_fmap, length_seqZ, IH. simpl. lia. }
  rewrite Hl, length_seqZ. lia.
Qed.

(** The entries of a block that are land. *)
Definition land_cells (heights : list float) (cells : list Z) : list Z :=
  filter (λ i, (λ v, fgeb v f0) <$> heights.[i] = Some true) cells.

Lemma count_up : forallb (λ c, bool_decide (fadd (f_of_Z c) f1 = f_of_Z (c + 1))) (seqZ 0 256) = true.
Proof. vm_compute. reflexivity. Qed.

Lemma fadd_count c : 0 <= c < 256 → fadd (f_of_Z c) f1 = f_of_Z (c + 1).
Proof.
  intros Hc. pose proof count_up as H. rewrite forallb_forall in H. apply (bool_decide_eq_true_1 (_ = _)), H.
  apply list_elem_of_In, elem_of_seqZ. lia.
Qed.

Lemma scan_height_land v s : h_land (scan_height v s) = if fgeb v f0 then fadd (h_land s) f1 else h_land s.
Proof. unfold scan_height. by repeat case_match. Qed.

Lemma scan_land heights cells s s' c :
  0 <= c → c + Z.of_nat (length cells) <= 256 → h_land s = f_of_Z c →
  foldM (λ s i, v ← heights.[i]; Some (scan_height v s)) s cells = Some s' →
  h_land s' = f_of_Z (c + zlen (land_cells heights cells)).
Proof.
  revert s c. induction cells as [|i cells IH]; intros s c Hc Hle Hs; simpl foldM.
  - intros [= <-]. by rewrite Z.add_0_r.
  - destruct (heights.[i]) as [v|] eqn:Hv; [|done]. cbn [mbind option_bind]. intros Hrun.
    simpl length in Hle. unfold land_cells. rewrite filter_cons, Hv. cbn [fmap option_fmap option_map].
    case_decide as Hd; pose proof (scan_height_land v s) as Hl.
    + injection Hd as Hd. rewrite Hd, Hs, fadd_count in Hl by lia.
      rewrite (IH _ (c + 1) ltac:(lia) ltac:(lia) Hl Hrun). f_equal. unfold zlen. simpl. fold (land_cells heights cells). lia.
    + destruct (fgeb v f0) eqn:Hf; [done|]. rewrite Hs in Hl. by rewrite (IH _ c Hc ltac:(lia) Hl Hrun).
Qed.

(** Every count comes back from its percentage. *)
Definition counts_ok (n : Z) : bool := forallb (λ c, bool_decide (from_percent (to_percent (f_of_Z c) n) n = f_of_Z c)) (seqZ 0 (n + 1)).

Lemma all_counts_ok : forallb counts_ok [16; 64; 256] = true.
Proof. vm_compute. reflexivity. Qed.

(** For each size of sector (4, 8 or 16 entries a side) the share of land that a scan of the heights stores is exact: the scan counts the entries of the sector that are not below zero, and the count that the next update recovers from the stored percentage (a float, rounded) is that very number, so that the difference it adds to the map's total is exact. *)
Theorem land_count_recovered heights conv iMap xSize gmin gmax hs :
  conv ∈ [4; 8; 16] → scan_heights heights conv iMap xSize gmin gmax = Some hs →
  h_land hs = f_of_Z (zlen (land_cells heights (block_cells conv iMap xSize))) ∧
  from_percent (to_percent (h_land hs) (conv * conv)) (conv * conv) = h_land hs.
Proof.
  intros Hconv Hscan. unfold scan_heights in Hscan. destruct (heights.[iMap]) as [v|]; [|done]. cbn [mbind option_bind] in Hscan.
  rewrite for_block_cells in Hscan. assert (4 <= conv <= 16 ∧ counts_ok (conv * conv) = true) as [Hc Hok].
  { pose proof all_counts_ok as Hall. rewrite forallb_forall in Hall.
    rewrite !elem_of_cons, elem_of_nil in Hconv.
    destruct Hconv as [->|[->|[->|[]]]]; (split; [lia|apply Hall; simpl; tauto]). }
  pose proof (length_block_cells conv iMap xSize ltac:(lia)) as Hlen.
  set (cells := block_cells conv iMap xSize) in *.
  assert (h_land hs = f_of_Z (0 + zlen (land_cells heights cells))) as Hl.
  { refine (scan_land heights cells _ hs 0 _ _ _ Hscan); [lia|nia|reflexivity]. }
  split; [exact Hl|]. rewrite Hl. assert (0 <= zlen (land_cells heights cells) <= conv * conv) as Hb.
  { unfold zlen, land_cells. pose proof (length_filter (λ i, (λ v, fgeb v f0) <$> heights.[i] = Some true) cells). lia. }
  unfold counts_ok in Hok. rewrite forallb_forall in Hok. apply (bool_decide_eq_true_1 (_ = _)), Hok.
  apply list_elem_of_In, elem_of_seqZ. lia.
Qed.

Lemma land_count_recovered_witness :
  ∃ hs, scan_heights ((λ i, f_of_Z (i - 5)) <$> seqZ 0 16) 4 0 4 f0 f0 = Some hs ∧ h_land hs = f_of_Z 11 ∧
    from_percent (to_percent (h_land hs) 16) 16 = h_land hs.
Proof.
  destruct (scan_heights ((λ i, f_of_Z (i - 5)) <$> seqZ 0 16) 4 0 4 f0 f0) as [hs|] eqn:Hs; [|vm_compute in Hs; discriminate].
  destruct (land_count_recovered _ 4 _ _ _ _ hs ltac:(left) Hs) as [H1 H2].
  exists hs. split_and!; [reflexivity| |exact H2]. rewrite H1. vm_compute. reflexivity.
Defined.
