(* ===== verification/TerrainUpdate.v ===== *)
(** * TerrainUpdate: the update of the areas agrees with an analysis from scratch

    [UpdateAreas] of [TerrainData] looks only at sectors whose heights have changed, rebuilds the areas of
    a type only if a changed sector contradicts them, and copies them otherwise.  An invariant of the
    published data, which [Init] establishes, says what an analysis from scratch would find; the update
    establishes it for the other buffer, for any new maps of the right size, and does not touch the
    published one. *)

From Stdlib Require Import SpecFloat.
From stdpp Require Import gmap.
From S2P Require Import Prelude Float32 FloatRound FloatDiv EnemyUnit SectorGrid TerrainAreas AreaTheory AreaMarks TerrainData.

Local Open Scope circuit_scope.

(** ** Indices of the finer maps *)

Lemma block_index w h c z x zB xB :
  0 <= z < h → 0 <= x < w → 0 <= zB < c → 0 <= xB < c →
  0 <= z * c * (w * c) + x * c + zB * (w * c) + xB < w * c * (h * c).
Proof.
  intros Hz Hx HzB HxB. replace (z * c * (w * c) + x * c + zB * (w * c) + xB) with ((z * c + zB) * (w * c) + (x * c + xB)) by ring.
  assert (0 <= z * c + zB < h * c) by nia. assert (0 <= x * c + xB < w * c) by nia. nia.
Qed.

Lemma sector_index w h z x : 0 <= z < h → 0 <= x < w → 0 <= z * w + x < w * h.
Proof. nia. Qed.

(** The height at the centre of a sector. *)
Lemma div_exact q : 0 <= q < 2 ^ 21 → f_to_int (fdiv (f_of_Z (8 * q)) (f_of_Z 8)) = Some q.
Proof.
  intros Hq. destruct (f_of_Z_val (8 * q) ltac:(lia)) as [Hx Hxv]. destruct (f_of_Z_val 8 ltac:(lia)) as [Hy Hyv].
  destruct (f_of_Z_val q ltac:(lia)) as [Hc Hcv].
  pose proof (small_val _ (8 * q) ltac:(lia) Hxv) as Hxf. pose proof (small_val _ 8 ltac:(lia) Hyv) as Hyf.
  pose proof (small_val _ q ltac:(lia) Hcv) as Hcf.
  assert (0 < fval (f_of_Z 8) < 2 ^ 277) as Hyb by (rewrite Hyv; split; [lia|done]).
  destruct (fdiv_cases _ _ Hx Hy Hxf Hyb _ Hc Hcf) as [Hle Hge]. rewrite Hxv, Hyv, Hcv in Hle, Hge.
  assert (fval (fdiv (f_of_Z (8 * q)) (f_of_Z 8)) = q * 2 ^ 149) as Hv.
  { apply Z.le_antisymm; [apply Hge|apply Hle]; nia. }
  rewrite f_to_int_val; [|exact (fdiv_costf _ _ Hx Hy Hxf Hyb)|rewrite Hv; nia].
  by rewrite Hv, Z.div_mul by lia.
Qed.

(** ** Loops over blocks *)

Lemma for_block_total {S} w h c z x (f : Z → S → option S) s :
  0 <= z < h → 0 <= x < w → (∀ i s, 0 <= i < w * c * (h * c) → is_Some (f i s)) →
  is_Some (for_block c (z * c * (w * c) + x * c) (w * c) f s).
Proof.
  intros Hz Hx Hf. unfold for_block.
  destruct (zfor_keep (λ _ : S, True) 0 c (λ zB s, zfor 0 c (λ xB s, f (z * c * (w * c) + x * c + zB * (w * c) + xB) s) s) s)
    as (s' & -> & _); [done| |by eexists].
  intros zB s1 HzB _. apply zfor_keep; [done|]. intros xB s2 HxB _.
  destruct (Hf (z * c * (w * c) + x * c + zB * (w * c) + xB) s2) as [s' ->]; [by apply block_index|eauto].
Qed.

Section reading.
Context (w h : Z).

Lemma scan_slope_total slopes c z x s :
  zlen slopes = w * c * (h * c) → 0 <= z < h → 0 <= x < w →
  is_Some (scan_slope slopes c (z * c * (w * c) + x * c) (w * c) s).
Proof.
  intros Hl Hz Hx. unfold scan_slope. apply (for_block_total w h); [done..|].
  intros i s1 Hi. destruct (zget_is_Some slopes i ltac:(lia)) as [v ->]. by eexists.
Qed.

Lemma scan_heights_total heights c z x gmin gmax :
  zlen heights = w * c * (h * c) → 0 < c → 0 <= z < h → 0 <= x < w →
  is_Some (scan_heights heights c (z * c * (w * c) + x * c) (w * c) gmin gmax).
Proof.
  intros Hl Hc Hz Hx. unfold scan_heights. pose proof (block_index w h c z x 0 0 Hz Hx ltac:(lia) ltac:(lia)) as Hb.
  rewrite Z.mul_0_l, !Z.add_0_r in Hb. destruct (zget_is_Some heights _ (eq_ind_r (λ n, 0 <= _ < n) Hb Hl)) as [v ->]. cbn [mbind option_bind].
  apply (for_block_total w h); [done..|].
  intros i s1 Hi. destruct (zget_is_Some heights i ltac:(lia)) as [v' ->]. by eexists.
Qed.

Lemma differ_total heights prev cells :
  (∀ i, i ∈ cells → 0 <= i < zlen heights ∧ 0 <= i < zlen prev) → is_Some (differ heights prev cells).
Proof.
  induction cells as [|i cells IH]; intros Hb; simpl; [by eexists|]. destruct (Hb i ltac:(by left)) as [H1 H2].
  destruct (zget_is_Some heights i H1) as [v ->], (zget_is_Some prev i H2) as [v' ->]. cbn [mbind option_bind].
  destruct (feqb v v'); [|by eexists]. apply IH. intros j Hj. apply Hb. by right.
Qed.

Lemma changed_total heights prev stoP z x :
  zlen heights = w * convertStoHM stoP * (h * convertStoHM stoP) → zlen prev = zlen heights → 0 <= z < h → 0 <= x < w →
  is_Some (isSectorHeightChanged w stoP heights prev (z * convertStoHM stoP * heightMapXSize w stoP + x * convertStoHM stoP)).
Proof.
  intros Hl Hp Hz Hx. unfold isSectorHeightChanged, block_cells, heightMapXSize. apply differ_total. intros i Hi. rewrite Hp, Hl.
  apply list_elem_of_bind in Hi as (zB & (xB & -> & HxB%elem_of_seqZ)%list_elem_of_fmap & HzB%elem_of_seqZ).
  pose proof (block_index w h (convertStoHM stoP) z x zB xB Hz Hx ltac:(lia) ltac:(lia)). lia.
Qed.
End reading.

(** ** The invariant of the data *)

Record same_immobile_type (it it' : STerrainMapImmobileType) : Prop := {
  si_min : it_minElevation it' = it_minElevation it;
  si_max : it_maxElevation it' = it_maxElevation it;
  si_hover : it_canHover it' = it_canHover it;
  si_float : it_canFloat it' = it_canFloat it
}.

#[export] Instance same_immobile_type_equivalence : Equivalence same_immobile_type.
Proof.
  split.
  - intros it. done.
  - intros a b []. split; congruence.
  - intros a b c [] []. split; congruence.
Qed.

Lemma buildable_same harmful void it it' s : same_immobile_type it it' → buildable harmful void it' s = buildable harmful void it s.
Proof. intros [E1 E2 E3 E4]. unfold buildable. by rewrite E1, E2, E3, E4. Qed.

(** The sectors of an immobile type are the ones it can be built on. *)
Definition built_on (harmful void : bool) (sectors : list STerrainMapSector) (it : STerrainMapImmobileType) : Prop :=
  ∀ i, i ∈ it_sector it ↔ ∃ s, sectors.[i] = Some s ∧ buildable harmful void it s = true.

Section update.
Context {E : Engine}.
Context (harmful void : bool) (w h stoP : Z).

Abbreviation conv := (convertStoHM stoP).
Abbreviation mobile_ok := (mobile_ok harmful void w h).
Abbreviation built_on := (built_on harmful void).

(** The map has sectors of a multiple of 16 elmos, and indices that fit a [float]. *)
Record grid_ok : Prop := {
  gr_w : 0 < w;
  gr_h : 0 < h;
  gr_step : ∃ k, 0 < k ∧ stoP = 16 * k;
  gr_wide : w * stoP < 2 ^ 24;
  gr_high : h * stoP < 2 ^ 24;
  gr_square : SQUARE_SIZE = 8;
  gr_sizes : sizes_ok w h = true
}.

(** The position is the centre of the sector, its height aside. *)
Definition centred (i : Z) (s : STerrainMapSector) : Prop :=
  ∃ z x, 0 <= z < h ∧ 0 <= x < w ∧ i = z * w + x ∧
    px (position s) = f_of_Z (x * stoP + Z.quot stoP 2) ∧ pz (position s) = f_of_Z (z * stoP + Z.quot stoP 2).

Record data_ok (d : SAreaData) : Prop := {
  do_sectors : zlen (sector d) = w * h;
  do_centred : ∀ i s, (sector d).[i] = Some s → centred i s;
  do_mobile : Forall (mobile_ok (sector d)) (mobileType d);
  do_immobile : Forall (λ it, built_on (sector d) it ∧ it_usable it = it_percent_ok w h stoP (sizeZ (it_sector it))) (immobileType d);
  do_heights : zlen (heightMap d) = w * conv * (h * conv)
}.

(** The other buffer has the same types, and its vectors the right sizes; its height map is filled before it is read. *)
Record twin (p d : SAreaData) : Prop := {
  tw_mobile : Forall2 (λ a b, same_type a b ∧ zlen (mt_sector b) = w * h) (mobileType p) (mobileType d);
  tw_immobile : Forall2 same_immobile_type (immobileType p) (immobileType d)
}.

Hypothesis Hgrid : grid_ok.

Lemma step_halves : ∃ k, 0 < k ∧ stoP = 16 * k ∧ conv = 2 * k ∧ Z.quot stoP 2 = 8 * k.
Proof.
  destruct (gr_step Hgrid) as (k & Hk & Hs). exists k. unfold convertStoHM. rewrite Hs. split_and!; [done|done|..].
  - replace (16 * k) with (2 * k * 8) by ring. by rewrite Z.quot_mul.
  - replace (16 * k) with (8 * k * 2) by ring. by rewrite Z.quot_mul.
Qed.

Lemma conv_pos : 0 < conv.
Proof. destruct step_halves as (k & Hk & _ & -> & _). lia. Qed.

(** The height at the centre of a sector can be read. *)
Lemma centre_index z x (heights : list float) :
  0 <= z < h → 0 <= x < w → zlen heights = w * conv * (h * conv) →
  ∃ xi zi v, f_to_int (fdiv (f_of_Z (x * stoP + Z.quot stoP 2)) (f_of_Z SQUARE_SIZE)) = Some xi ∧
    f_to_int (fdiv (f_of_Z (z * stoP + Z.quot stoP 2)) (f_of_Z SQUARE_SIZE)) = Some zi ∧ heights.[zi * heightMapXSize w stoP + xi] = Some v.
Proof.
  intros Hz Hx Hl. destruct step_halves as (k & Hk & Hs & Hc & ->). rewrite (gr_square Hgrid).
  pose proof (gr_wide Hgrid) as Hwide. pose proof (gr_high Hgrid) as Hhigh.
  replace (x * stoP + 8 * k) with (8 * (x * (2 * k) + k)) by (rewrite Hs; ring). replace (z * stoP + 8 * k) with (8 * (z * (2 * k) + k)) by (rewrite Hs; ring).
  rewrite !div_exact by nia. assert (0 <= (z * (2 * k) + k) * heightMapXSize w stoP + (x * (2 * k) + k) < zlen heights) as Hb.
  { rewrite Hl. unfold heightMapXSize. rewrite Hc.
    pose proof (block_index w h (2 * k) z x k k Hz Hx ltac:(lia) ltac:(lia)). lia. }
  destruct (zget_is_Some heights _ Hb) as [v Hv]. eauto 7.
Qed.

(** ** The loop over the sectors *)

Section loop.
Context (slopes heights : list float) (p : SAreaData).
Hypothesis Hp : data_ok p.
Hypothesis Hheights : zlen heights = w * conv * (h * conv).
Hypothesis Hslopes : zlen slopes = w * convertStoSM stoP * (h * convertStoSM stoP).

Record scanned (s : Analysis * gset Z) : Prop := {
  sn_len : zlen (a_sector s.1) = w * h;
  sn_centred : ∀ i t, (a_sector s.1).[i] = Some t → centred i t;
  sn_same : ∀ i, i ∉ s.2 → (a_sector s.1).[i] = (sector p).[i];
  sn_inside : ∀ i, i ∈ s.2 → 0 <= i < w * h;
  sn_types : Forall2 same_immobile_type (immobileType p) (a_immobile s.1);
  sn_built : Forall (built_on (a_sector s.1)) (a_immobile s.1)
}.

Lemma update_buildable_ok i t it sectors sectors' :
  built_on sectors it → sectors.[i <- t] = Some sectors' →
  built_on sectors' (update_buildable harmful void i t it).
Proof.
  intros Hb Hset j. unfold built_on in Hb. rewrite (zget_zset _ _ _ _ j Hset).
  assert (∀ s, buildable harmful void (update_buildable harmful void i t it) s = buildable harmful void it s) as Hsame.
  { intros s. by apply buildable_same. }
  setoid_rewrite Hsame. unfold update_buildable. cbn [it_sector]. destruct (decide (i = j)) as [->|Hne].
  - destruct (buildable harmful void it t) eqn:Ht; split; intros Hj.
    + eauto.
    + set_solver.
    + set_solver.
    + destruct Hj as (s & [= <-] & Hs). congruence.
  - rewrite <-Hb. destruct (buildable harmful void it t); set_solver.
Qed.

Lemma visit_sector_ok z x s :
  0 <= z < h → 0 <= x < w → scanned s →
  ∃ s', visit_sector harmful void w stoP slopes heights (heightMap p) z x s = Some s' ∧ scanned s'.
Proof.
  intros Hz Hx [S1 S2 S3 S4 S5 S6]. unfold visit_sector. pose proof conv_pos as Hc.
  destruct (changed_total w h heights (heightMap p) stoP z x) as [b ->]; [done|by rewrite (do_heights _ Hp)|done|done|].
  cbn [mbind option_bind]. destruct b; [|by eexists]. pose proof (sector_index w h z x Hz Hx) as Hi.
  destruct (zget_is_Some (a_sector s.1) (z * w + x) ltac:(lia)) as [t Ht].
  destruct (S2 _ _ Ht) as (z' & x' & Hz' & Hx' & Hzx & Hpx & Hpz).
  destruct (Z.div_mod_unique w z' z x' x) as [-> ->]; [by left|by left|lia|].
  destruct (centre_index z x heights Hz Hx Hheights) as (xi & zi & v & Hxi & Hzi & Hv).
  unfold update_sector. rewrite Ht. cbn [mbind option_bind]. rewrite Hpx, Hpz, Hxi, Hzi. cbn [mbind option_bind]. rewrite Hv. cbn [mbind option_bind].
  unfold slopeMapXSize. destruct (scan_slope_total w h slopes (convertStoSM stoP) z x f0 Hslopes Hz Hx) as [sl ->].
  cbn [mbind option_bind]. unfold heightMapXSize.
  destruct (scan_heights_total w h heights conv z x (a_min s.1) (a_max s.1) Hheights Hc Hz Hx) as [hs ->]. cbn [mbind option_bind].
  set (t' := mkSec _ _ _ _ _ _).
  assert ((a_sector s.1).[z * w + x <- t'] = Some (<[Z.to_nat (z * w + x) := t']> (a_sector s.1))) as Hset by (apply zset_Some; lia).
  rewrite Hset. cbn [mbind option_bind]. eexists. split; [reflexivity|].
  split; cbn [fst snd a_sector a_immobile].
  - by rewrite (zlen_zset _ _ _ _ Hset).
  - intros j u. rewrite (zget_zset _ _ _ _ j Hset). case_decide as Hj; [|apply S2]. intros [= <-]. exists z, x. subst j. done.
  - intros j Hj. rewrite (zget_zset_ne _ _ _ _ j Hset) by set_solver. apply S3. set_solver.
  - intros j. rewrite elem_of_union, elem_of_singleton. intros [->|Hj]; [done|by apply S4].
  - apply Forall2_fmap_r. eapply Forall2_impl; [exact S5|]. intros a b []. by split.
  - apply Forall_fmap. eapply Forall_impl; [exact S6|]. intros it Hit. by eapply update_buildable_ok.
Qed.

Lemma scan_loop_ok a0 :
  a_sector a0 = sector p → Forall2 same_immobile_type (immobileType p) (a_immobile a0) → Forall (built_on (sector p)) (a_immobile a0) →
  ∃ s, zfor 0 h (λ z s, zfor 0 w (λ x s, visit_sector harmful void w stoP slopes heights (heightMap p) z x s) s) (a0, ∅) = Some s ∧ scanned s.
Proof.
  intros Ha Ht Hb. apply zfor_keep.
  - split; cbn [fst snd]; rewrite ?Ha; try done; [apply Hp|apply Hp].
  - intros z s Hz Hs. apply zfor_keep; [done|]. intros x s' Hx Hs'. by apply visit_sector_ok.
Qed.
End loop.

(** ** Rebuild or copy *)

Lemma shouldRebuild_total prev sectors l :
  (∀ i, i ∈ l → 0 <= i < zlen sectors ∧ 0 <= i < zlen (mt_sector prev)) →
  ∃ b, shouldRebuild harmful void prev sectors l = Some b ∧
    (b = false → ∀ i, i ∈ l → ∃ s a, sectors.[i] = Some s ∧ (mt_sector prev).[i] = Some a ∧
      (passable harmful void prev s = true ↔ is_Some (as_area a))).
Proof.
  induction l as [|i l IH]; intros Hb; simpl; [eexists; split; [done|]; by intros _ i ?%not_elem_of_nil|].
  destruct (Hb i ltac:(by left)) as [H1 H2]. destruct (zget_is_Some sectors i H1) as [s Hs], (zget_is_Some (mt_sector prev) i H2) as [a Ha].
  rewrite Hs, Ha. cbn [mbind option_bind]. destruct IH as (b & Hrest & Hall); [intros j Hj; apply Hb; by right|].
  destruct (eqb _ _) eqn:He; [|by eexists].
  exists b. split; [done|]. intros -> j [->|Hj]%elem_of_cons; [|by apply Hall]. exists s, a. split_and!; [done|done|].
  apply eqb_prop in He. rewrite He. apply bool_decide_eq_true.
Qed.

Lemma Forall2_right {A B} (P : A → B → Prop) (Q : B → Prop) l k : Forall2 P l k → (∀ a b, P a b → Q b) → Forall Q k.
Proof. intros HP HQ. induction HP; constructor; eauto. Qed.

(** Two vectors whose elements correspond. *)
Lemma zip_withM_ok {A B C} (R : A → B → Prop) (Q : A → C → Prop) (f : A → B → option C) l k :
  Forall2 R l k → (∀ a b, R a b → a ∈ l → ∃ c, f a b = Some c ∧ Q a c) → ∃ cs, zip_withM f l k = Some cs ∧ Forall2 Q l cs.
Proof.
  induction 1 as [|a b l k Hab _ IH]; intros Hf; simpl; [eauto|]. destruct (Hf a b Hab) as (c & -> & Hc); [by left|].
  destruct IH as (cs & -> & Hcs); [intros; apply Hf; [done|by right]|]. eexists. split; [done|]. by constructor.
Qed.

(** [prev] fits the old sectors, [mt] has been reset: either way the result fits the new ones. *)
Lemma update_mt_ok old new changed prev mt :
  mobile_ok old prev → same_type prev mt → fresh_mobile w h mt →
  zlen old = w * h → zlen new = w * h → (∀ i, i ∈ changed → 0 <= i < w * h) → (∀ i, i ∉ changed → new.[i] = old.[i]) →
  ∃ mt', update_mt harmful void w h new changed prev mt = Some mt' ∧ mobile_ok new mt' ∧ same_type prev mt'.
Proof.
  intros Hprev Hsame Hf Hold Hnew Hin Hkeep. destruct Hgrid as [Hw Hh _ _ _ _ Hsz]. destruct (Hf) as [Hlen Hfresh Hnone]. unfold update_mt.
  destruct (shouldRebuild_total prev new (ascending changed)) as (b & -> & Hb).
  { intros i Hi%elem_of_ascending%Hin. rewrite Hnew, (mo_sector _ _ _ _ _ _ Hprev). lia. }
  cbn [mbind option_bind]. destruct b.
  - destruct (determine_fresh harmful void w h new mt) as (mt' & -> & Hok & Hs); [done..|].
    eexists. split; [done|]. split; [done|]. etrans; [exact Hsame|exact Hs].
  - specialize (Hb eq_refl).
    destruct (calculations_ok harmful void w h new (copy_areas prev mt)) as (mt' & Hmt' & Hok & Hs & _); try done.
    2:{ exists mt'. split; [done|]. split; [done|]. etrans; [exact Hsame|]. etrans; [apply set_areas_type|exact Hs]. }
    unfold copy_areas. rewrite set_areas_sectors, (passable_set_same _ _ _ _ _ _ _ (set_areas_type _ mt)),
      (passable_set_same _ _ _ _ _ _ _ Hsame).
    apply (areas_spec_stable w h Hw (passable_set harmful void w h old prev) _ changed).
    + apply passable_set_in_map.
    + done.
    + by apply sizes_ok_mono.
    + apply Hprev.
    + intros i Hi. by rewrite !elem_of_passable_set, Hkeep.
    + intros i Hi. destruct (Hb i) as (s & a & Hs & Ha & Hiff); [by apply elem_of_ascending|].
      rewrite elem_of_passable_set. split.
      * intros (_ & s' & Hs' & Hpass). assert (s' = s) as -> by congruence. apply Hiff in Hpass as [j Hj].
        apply (mo_marked _ _ _ _ _ _ Hprev i a j Ha) in Hj as (c & Hc & Hic). exists (area_sector c). split; [|done].
        apply list_elem_of_fmap. exists c. split; [done|]. by eapply list_elem_of_lookup_2.
      * intros (A & (c & -> & [j Hc]%list_elem_of_lookup_1)%list_elem_of_fmap & Hic). split; [by apply Hin|]. exists s. split; [done|].
        apply Hiff. exists j. apply (mo_marked _ _ _ _ _ _ Hprev i a j Ha). eauto.
Qed.

Lemma reset_it_ok sectors a b :
  same_immobile_type a b → built_on sectors a → same_immobile_type a (reset_it a b) ∧ built_on sectors (reset_it a b).
Proof.
  intros Hs Hb. assert (same_immobile_type a (reset_it a b)) as Hs'; [by destruct Hs|]. split; [done|].
  intros i. cbn [reset_it it_sector]. rewrite (Hb i). by setoid_rewrite (buildable_same _ _ _ _ _ Hs').
Qed.

Lemma reset_mt_fresh mt : zlen (mt_sector mt) = w * h → fresh_mobile w h (reset_mt mt).
Proof.
  intros Hl. split; [unfold zlen in *; cbn [reset_mt mt_sector]; by rewrite length_fmap| |done].
  intros i s. cbn [reset_mt mt_sector]. unfold zget. case_decide; [|done]. rewrite list_lookup_fmap. destruct (mt_sector mt !! _); [|done]. by intros [= <-].
Qed.

Lemma update_area_data_ok slopes p d :
  data_ok p → twin p d → zlen (heightMap d) = w * conv * (h * conv) → zlen slopes = w * convertStoSM stoP * (h * convertStoSM stoP) →
  ∃ d', update_area_data harmful void w h stoP slopes p d = Some d' ∧ data_ok d' ∧ twin d' p ∧ heightMap d' = heightMap d.
Proof.
  intros Hp Hd Hheights Hslopes. unfold update_area_data.
  pose proof (do_immobile _ Hp) as Hbuilt. rewrite Forall_forall in Hbuilt.
  assert (Forall2 (λ a it, same_immobile_type a it ∧ built_on (sector p) it) (immobileType p) (zip_with reset_it (immobileType p) (immobileType d))) as Hits.
  { pose proof (tw_immobile _ _ Hd) as Ht. induction Ht as [|a b la lb Hab _ IH]; simpl; [constructor|]. constructor.
    - apply reset_it_ok; [done|]. apply Hbuilt. by left.
    - apply IH. intros x Hx. apply Hbuilt. by right. }
  destruct (scan_loop_ok slopes (heightMap d) p Hp Hheights Hslopes
    (mkAnalysis (zip_with reset_it (immobileType p) (immobileType d)) (sector p) (ad_minElevation p) (ad_maxElevation p)
       (from_percent (ad_percentLand p) (w * conv * h * conv)))) as ([a changed] & -> & [S1 S2 S3 S4 S5 S6]).
  { done. }
  { eapply Forall2_impl; [exact Hits|]. by intros ?? [? _]. }
  { eapply Forall2_right; [exact Hits|]. by intros ?? [_ ?]. }
  cbn [mbind option_bind fst snd] in *.
  destruct (zip_withM_ok (λ m b, same_type m b ∧ fresh_mobile w h b)
    (λ m m', mobile_ok (a_sector a) m' ∧ same_type m m') (update_mt harmful void w h (a_sector a) changed)
    (mobileType p) (reset_mt <$> mobileType d)) as (mts & -> & Hmts).
  { apply Forall2_fmap_r. eapply Forall2_impl; [apply (tw_mobile _ _ Hd)|]. intros m b [[] Hl]. split; [by split|]. by apply reset_mt_fresh. }
  { intros m b [Hs Hf] Hm. pose proof (do_mobile _ Hp) as Hmob. rewrite Forall_forall in Hmob.
    destruct (update_mt_ok (sector p) (a_sector a) changed m b) as (mt' & ? & ? & ?); try done; [by apply Hmob|apply Hp|].
    eauto. }
  cbn [mbind option_bind]. eexists. split; [reflexivity|]. split; [|split; [|done]].
  - split; cbn [sector mobileType immobileType heightMap]; [done|done| | |done].
    + eapply Forall2_right; [exact Hmts|]. by intros ?? [? _].
    + apply Forall_fmap. eapply Forall_impl; [exact S6|]. intros it Hit. split; [|done]. intros i. rewrite (Hit i).
      by setoid_rewrite (buildable_same harmful void it (set_it_usable w h stoP it)); [|done].
  - split; cbn [mobileType immobileType].
    + apply Forall2_flip. pose proof (do_mobile _ Hp) as Hmob. rewrite Forall_forall in Hmob.
      apply Forall2_same_length_lookup. split; [by apply Forall2_length in Hmts|]. intros i m m' Hm Hm'.
      pose proof (Forall2_lookup_lr _ _ _ _ _ _ Hmts Hm Hm') as [_ Hs]. split; [by symmetry|].
      apply (mo_sector harmful void w h (sector p)), Hmob. by eapply list_elem_of_lookup_2.
    + apply Forall2_fmap_l, Forall2_flip. eapply Forall2_impl; [exact S5|]. intros x y []. by split.
Qed.
End update.

(** ** The published and the other buffer together *)

Record terrain_ok {E : Engine} (td : CTerrainData) : Prop := {
  to_grid : grid_ok (sectorXSize td) (sectorZSize td) (convertStoP td);
  to_data : data_ok (waterIsHarmful td) (waterIsAVoid td) (sectorXSize td) (sectorZSize td) (convertStoP td) (area_data td (pAreaData td));
  to_twin : twin (sectorXSize td) (sectorZSize td) (area_data td (pAreaData td)) (area_data td (GetNextAreaData td));
  to_slopes : zlen (slopeMap td) = sectorXSize td * convertStoSM (convertStoP td) * (sectorZSize td * convertStoSM (convertStoP td));
  to_heights : isUpdating td = true → zlen (heightMap (area_data td (GetNextAreaData td))) =
    sectorXSize td * convertStoHM (convertStoP td) * (sectorZSize td * convertStoHM (convertStoP td))
}.

(** Filling the other buffer's height map, and the slopes, before an update. *)
Lemma EnqueueUpdate_ok `{E : Engine} heights slopes td :
  terrain_ok td → zlen heights = sectorXSize td * convertStoHM (convertStoP td) * (sectorZSize td * convertStoHM (convertStoP td)) →
  zlen slopes = sectorXSize td * convertStoSM (convertStoP td) * (sectorZSize td * convertStoSM (convertStoP td)) →
  terrain_ok (EnqueueUpdate heights slopes td).
Proof.
  intros Hok Hh Hs. unfold EnqueueUpdate. destruct (isUpdating td) eqn:Hu; [exact Hok|]. destruct Hok as [T1 T2 T3 T4 T5].
  unfold GetNextAreaData, area_data, set_area_data in *. destruct (pAreaData td) eqn:Hb; cbn in *.
  - split; cbn; rewrite ?Hb; cbn; try done. by destruct T3.
  - split; cbn; rewrite ?Hb; cbn; try done. by destruct T3.
Qed.

(** The sizes and flags of a map do not change. *)
Definition same_map (td td' : CTerrainData) : Prop :=
  sectorXSize td' = sectorXSize td ∧ sectorZSize td' = sectorZSize td ∧ convertStoP td' = convertStoP td ∧
  waterIsHarmful td' = waterIsHarmful td ∧ waterIsAVoid td' = waterIsAVoid td.

Lemma UpdateAreas_keeps `{E : Engine} td :
  terrain_ok td → isUpdating td = true →
  ∃ td', UpdateAreas td = Some td' ∧ terrain_ok td' ∧ pAreaData td' = pAreaData td ∧ same_map td td' ∧ isUpdating td' = true ∧
    area_data td' (pAreaData td) = area_data td (pAreaData td) ∧
    data_ok (waterIsHarmful td) (waterIsAVoid td) (sectorXSize td) (sectorZSize td) (convertStoP td) (area_data td' (GetNextAreaData td)) ∧
    twin (sectorXSize td) (sectorZSize td) (area_data td' (GetNextAreaData td)) (area_data td (pAreaData td)) ∧
    heightMap (area_data td' (GetNextAreaData td)) = heightMap (area_data td (GetNextAreaData td)).
Proof.
  intros [T1 T2 T3 T4 T5] Hu. specialize (T5 Hu). unfold UpdateAreas.
  destruct (update_area_data_ok _ _ _ _ _ T1 (slopeMap td) _ _ T2 T3 T5 T4) as (d & -> & Hd & Htw & Hh).
  cbn [mbind option_bind]. eexists. split; [reflexivity|].
  assert (twin (sectorXSize td) (sectorZSize td) (area_data td (pAreaData td)) d) as Htw'.
  { destruct Htw as [Hm Hi]. split.
    - pose proof (do_mobile _ _ _ _ _ _ Hd) as Hok. rewrite Forall_forall in Hok. apply Forall2_flip.
      apply Forall2_same_length_lookup. split; [by apply Forall2_length in Hm|]. intros i a b Ha Hb.
      destruct (Forall2_lookup_lr _ _ _ _ _ _ Hm Ha Hb) as [Hs _]. split; [by symmetry|].
      eapply (mo_sector (waterIsHarmful td) (waterIsAVoid td)), Hok. by eapply list_elem_of_lookup_2.
    - apply Forall2_flip. eapply Forall2_impl; [exact Hi|]. by symmetry. }
  unfold GetNextAreaData, area_data, set_area_data in *. destruct (pAreaData td) eqn:Hb; cbn in *;
    (split; [split; cbn; unfold GetNextAreaData, area_data; cbn; rewrite ?Hb; cbn; try done; by rewrite Hh|]);
    rewrite ?Hb; by split_and!.
Qed.

Lemma publish_areas_ok `{E : Engine} td :
  terrain_ok td →
  data_ok (waterIsHarmful td) (waterIsAVoid td) (sectorXSize td) (sectorZSize td) (convertStoP td) (area_data td (GetNextAreaData td)) →
  twin (sectorXSize td) (sectorZSize td) (area_data td (GetNextAreaData td)) (area_data td (pAreaData td)) →
  terrain_ok (publish_areas td).
Proof.
  intros [T1 T2 T3 T4 T5] Hd Ht. unfold publish_areas, GetNextAreaData, area_data in *.
  destruct (pAreaData td) eqn:Hb; split; cbn; unfold area_data; cbn; try done; by rewrite ?Hb.
Qed.

(** C26: Copying the areas is as good as rebuilding them.  On a grid of sectors whose sizes fit ([grid_ok]), from the areas a type has on the old sectors, and when only the sectors listed as changed differ: whichever of the two the update chooses for the type, both return, and as long as the updated type has fewer than 49 areas these are, sector for sector, the areas that the flood fill finds on the new sectors. *)
Theorem update_is_rebuild `{E : Engine} harmful void w h stoP old new changed prev mt :
  grid_ok w h stoP → mobile_ok harmful void w h old prev → same_type prev mt → fresh_mobile w h mt →
  zlen old = w * h → zlen new = w * h → (∀ i, i ∈ changed → 0 <= i < w * h) → (∀ i, i ∉ changed → new.[i] = old.[i]) →
  ∃ updated rebuilt, update_mt harmful void w h new changed prev mt = Some updated ∧
    determine_areas harmful void w h new mt = Some rebuilt ∧
    (Z.of_nat (length (area updated)) < 49 → area_sector <$> area updated ≡ₚ area_sector <$> area rebuilt).
Proof.
  intros Hgrid Hprev Hsame Hfresh Hold Hnew Hin Hkeep.
  destruct (update_mt_ok harmful void w h stoP Hgrid old new changed prev mt) as (updated & Hu & Hok & Hs); try done.
  destruct (determine_fresh harmful void w h new mt) as (rebuilt & Hr & Hrok & Hrs); [apply Hgrid|apply Hgrid|apply Hgrid|done|].
  exists updated, rebuilt. split; [done|]. split; [done|]. intros Hfew.
  apply (areas_spec_unique w h (passable_set harmful void w h new mt)).
  - rewrite (passable_set_same _ _ _ _ _ _ _ Hsame), <-(passable_set_same _ _ _ _ _ _ _ Hs). apply Hok.
  - rewrite <-(passable_set_same _ _ _ _ _ _ _ Hrs). apply Hrok.
  - rewrite length_fmap. unfold MAP_AREA_LIST_SIZE. lia.
Qed.

(** The sector in the corner of the map of [AreaMarks] becomes too steep. *)
Definition demo_steep : list STerrainMapSector := <[0%nat := mkSec false (F3 f0 f0 f0) f1 f1 f1 (f_of_Z 2)]> demo_sectors.

Lemma demo_grid5 : grid_ok (E := example_engine) 5 5 32.
Proof. split; try done; try lia. exists 2. lia. Qed.

Lemma update_is_rebuild_witness :
  ∃ prev updated rebuilt, determine_areas false false 5 5 demo_sectors demo_type = Some prev ∧
    update_mt false false 5 5 demo_steep {[0]} prev demo_type = Some updated ∧
    determine_areas false false 5 5 demo_steep demo_type = Some rebuilt ∧
    (Z.of_nat (length (area updated)) < 49 → area_sector <$> area updated ≡ₚ area_sector <$> area rebuilt).
Proof.
  destruct (determine_fresh false false 5 5 demo_sectors demo_type) as (prev & Hprev & Hok & Hs);
    [lia|lia|vm_compute; reflexivity|exact demo_fresh|].
  exists prev. destruct (update_is_rebuild (E := example_engine) false false 5 5 32 demo_sectors demo_steep {[0]} prev demo_type)
    as (updated & rebuilt & Hall).
  - exact demo_grid5.
  - exact Hok.
  - symmetry. exact Hs.
  - exact demo_fresh.
  - reflexivity.
  - reflexivity.
  - intros i Hi. apply elem_of_singleton in Hi. lia.
  - intros i Hi. rewrite not_elem_of_singleton in Hi. unfold demo_steep, zget. case_decide; [|reflexivity].
    apply list_lookup_insert_ne. lia.
  - exists updated, rebuilt. split; [exact Hprev|exact Hall].
Defined.
