(* ===== verification/TerrainInit.v ===== *)
(** * TerrainInit: the analysis of the terrain at the start

    [Init] of [TerrainData] returns for maps of the right size and establishes the invariant of
    [TerrainUpdate] for the buffer it publishes; the other buffer gets the same types.  Every unit
    definition that cannot fly is filed under a type. *)

From Stdlib Require Import SpecFloat.
From stdpp Require Import gmap.
From S2P Require Import Prelude Float32 EnemyUnit SectorGrid TerrainAreas AreaTheory AreaMarks TerrainData TerrainUpdate.

Local Open Scope circuit_scope.

(** ** Types *)

Lemma find_or_add_ok {A} (P : A → Prop) same use new (l : list A) :
  Forall P l → P (use new) → (∀ a, P a → P (use a)) → Forall P (find_or_add same use new l).1.
Proof.
  intros Hl Hn Hu. unfold find_or_add. destruct (list_find _ l) as [[i a]|] eqn:Hf; simpl.
  - apply list_find_Some in Hf as (Ha & _). apply Forall_insert; [done|]. apply Hu. by eapply Forall_lookup_1.
  - apply Forall_app. by repeat constructor.
Qed.

(** The index that is returned is the one of a type that matched, or of the new one. *)
Lemma find_or_add_index {A} (same : A → bool) use new (l : list A) :
  let '(l', i) := find_or_add same use new l in
  ∃ a, l'.[i] = Some (use a) ∧ ((same a = true ∧ a ∈ l ∧ length l' = length l) ∨ (a = new ∧ length l' = S (length l))).
Proof.
  unfold find_or_add, zget, zlen. destruct (list_find _ l) as [[i a]|] eqn:Hf.
  - apply list_find_Some in Hf as (Ha & Hs & _). exists a. rewrite decide_True, Nat2Z.id by lia.
    rewrite list_lookup_insert_eq by (by eapply lookup_lt_Some). split; [done|]. left. rewrite length_insert.
    split_and!; [done|by eapply list_elem_of_lookup_2|done].
  - exists new. rewrite decide_True, Nat2Z.id by lia. rewrite lookup_app_r, Nat.sub_diag by lia. split; [done|]. right.
    rewrite length_app. simpl. split; [done|lia].
Qed.

Definition types_fresh (w h : Z) (t : Types) : Prop :=
  Forall (fresh_mobile w h) (t_mobile t) ∧ Forall (λ it, it_sector it = ∅) (t_immobile t).

Lemma detect_fresh w h t d : 0 <= w * h → types_fresh w h t → types_fresh w h (detect (w * h) t d).
Proof.
  intros Hn [Hm Hi]. unfold detect. destruct (IsAbleToFly d); [done|]. destruct (fgtb (GetSpeed d) f0).
  - pose proof (find_or_add_ok (fresh_mobile w h) (same_mobile d) (use_mobile d) (new_mobile d (w * h)) (t_mobile t) Hm) as Hok.
    destruct (find_or_add _ _ _ _) as [l i]. split; [apply Hok|done].
    + split; cbn; [by rewrite zlen_replicate| |done]. intros j s. unfold zget. case_decide; [|done].
      by intros [-> _]%lookup_replicate_1.
    + intros a []. by split.
  - pose proof (find_or_add_ok (λ it, it_sector it = ∅) (same_immobile d) use_immobile (new_immobile d) (t_immobile t) Hi) as Hok.
    destruct (find_or_add _ _ _ _) as [l i]. split; [done|]. by apply Hok.
Qed.

Lemma detect_all_fresh w h defs t : 0 <= w * h → types_fresh w h t → types_fresh w h (foldl (detect (w * h)) t defs).
Proof. intros Hn. revert t. induction defs as [|d defs IH]; intros t Ht; simpl; [done|]. by apply IH, detect_fresh. Qed.

Section init.
Context {E : Engine}.
Context (harmful void : bool) (w h stoP : Z).
Hypothesis Hgrid : grid_ok w h stoP.

Abbreviation conv := (convertStoHM stoP).
Abbreviation buildable := (buildable harmful void).

Section scan.
Context (elevation : float → float → float) (slopes heights : list float).
Hypothesis Hheights : zlen heights = w * conv * (h * conv).
Hypothesis Hslopes : zlen slopes = w * convertStoSM stoP * (h * convertStoSM stoP).

Lemma set_buildable_type i s it : same_immobile_type it (set_buildable harmful void i s it).
Proof. unfold set_buildable. destruct (buildable it s); [|reflexivity]. constructor; reflexivity. Qed.

(** After the first [n] sectors. *)
Record built_to (its : list STerrainMapImmobileType) (n : Z) (a : Analysis) : Prop := {
  bt_len : zlen (a_sector a) = w * h;
  bt_centred : ∀ i s, i < n → (a_sector a).[i] = Some s → centred w h stoP i s;
  bt_types : Forall2 same_immobile_type its (a_immobile a);
  bt_built : Forall (λ it, ∀ i, i ∈ it_sector it ↔ i < n ∧ ∃ s, (a_sector a).[i] = Some s ∧ buildable it s = true) (a_immobile a)
}.

Lemma init_sector_ok its z x a :
  0 <= z < h → 0 <= x < w → built_to its (z * w + x) a →
  ∃ a', init_sector harmful void w stoP elevation slopes heights z x a = Some a' ∧ built_to its (z * w + (x + 1)) a'.
Proof.
  intros Hz Hx [B1 B2 B3 B4]. unfold init_sector, sector_centre. cbv beta iota zeta. unfold slopeMapXSize.
  pose proof (conv_pos w h stoP Hgrid) as Hc.
  destruct (scan_slope_total w h slopes (convertStoSM stoP) z x f0 Hslopes Hz Hx) as [sl ->]. cbn [mbind option_bind].
  unfold heightMapXSize. destruct (scan_heights_total w h heights conv z x (a_min a) (a_max a) Hheights Hc Hz Hx) as [hs ->]. cbn [mbind option_bind].
  unfold count_land, heightMapXSize.
  destruct (for_block_total w h conv z x (λ i s, v ← heights.[i]; Some (if fgeb v f0 then fadd s f1 else s)) (a_land a) Hz Hx) as [land ->].
  { intros i s Hi. destruct (zget_is_Some heights i ltac:(lia)) as [v ->]. by eexists. }
  cbn [mbind option_bind]. pose proof (sector_index w h z x Hz Hx) as Hi. set (t := mkSec _ _ _ _ _ _).
  assert ((a_sector a).[z * w + x <- t] = Some (<[Z.to_nat (z * w + x) := t]> (a_sector a))) as Hset by (apply zset_Some; lia).
  rewrite Hset. cbn [mbind option_bind]. eexists. split; [reflexivity|]. split; cbn [a_sector a_immobile].
  - by rewrite (zlen_zset _ _ _ _ Hset).
  - intros i s Hlt. rewrite (zget_zset _ _ _ _ i Hset). case_decide as He; [|apply B2; lia]. intros [= <-]. exists z, x. by subst i.
  - apply Forall2_fmap_r. eapply Forall2_impl; [exact B3|]. intros b c Hbc. unfold compose. etrans; [exact Hbc|apply set_buildable_type].
  - apply Forall_fmap. eapply Forall_impl; [exact B4|]. intros it Hit i. specialize (Hit i).
    assert (∀ s, buildable (set_buildable harmful void (z * w + x) t it) s = buildable it s) as Hsame.
    { intros s. apply buildable_same, set_buildable_type. }
    setoid_rewrite Hsame. rewrite (zget_zset _ _ _ _ i Hset). unfold set_buildable.
    destruct (decide (z * w + x = i)) as [<-|Hne].
    + destruct (buildable it t) eqn:Ht; cbn [it_sector].
      * split; [intros _; split; [lia|eauto]|]. intros _. apply elem_of_union. left. by apply elem_of_singleton.
      * rewrite Hit. split; [lia|]. intros (_ & s & [= <-] & Hs). congruence.
    + assert (i < z * w + (x + 1) ↔ i < z * w + x) as -> by lia. rewrite <-Hit.
      destruct (buildable it t); cbn [it_sector]; [|done]. rewrite elem_of_union, elem_of_singleton.
      split; [by intros [?|?]|by right].
Qed.

Lemma init_loop_ok its a :
  built_to its 0 a →
  ∃ a', zfor 0 h (λ z a, zfor 0 w (λ x a, init_sector harmful void w stoP elevation slopes heights z x a) a) a = Some a' ∧ built_to its (w * h) a'.
Proof.
  intros H0. pose proof (gr_w _ _ _ Hgrid). pose proof (gr_h _ _ _ Hgrid).
  destruct (zfor_ind (λ z a, built_to its (z * w) a) 0 h
    (λ z a, zfor 0 w (λ x a, init_sector harmful void w stoP elevation slopes heights z x a) a) a) as (a' & Ha & Hb); [lia|done| |].
  - intros z s Hz Hs. destruct (zfor_ind (λ x a, built_to its (z * w + x) a) 0 w
      (λ x a, init_sector harmful void w stoP elevation slopes heights z x a) s) as (s' & Hs' & Hb'); [lia|by rewrite Z.add_0_r| |].
    + intros x s1 Hx Hs1. by apply init_sector_ok.
    + exists s'. split; [done|]. by replace ((z + 1) * w) with (z * w + w) by ring.
  - exists a'. split; [done|]. by rewrite Z.mul_comm.
Qed.

Lemma determine_all_ok sectors mts :
  Forall (fresh_mobile w h) mts →
  ∃ mts', mapM (determine_areas harmful void w h sectors) mts = Some mts' ∧
    Forall (mobile_ok harmful void w h sectors) mts' ∧ Forall2 same_type mts mts'.
Proof.
  induction 1 as [|mt mts Hf _ IH]; [by exists []|]. destruct IH as (mts' & Hmts & Hok & Hs).
  destruct (determine_fresh harmful void w h sectors mt) as (mt' & Hmt' & Hmok & Hms); [apply Hgrid|apply Hgrid|apply Hgrid|done|].
  exists (mt' :: mts'). simpl. rewrite Hmt'. simpl. rewrite Hmts. split; [done|]. by split; constructor.
Qed.

Lemma init_area_data_ok t :
  types_fresh w h t →
  ∃ d, init_area_data harmful void w h stoP elevation slopes heights t = Some d ∧ data_ok harmful void w h stoP d ∧ heightMap d = heights.
Proof.
  intros [Hm Hi]. unfold init_area_data. pose proof (gr_w _ _ _ Hgrid). pose proof (gr_h _ _ _ Hgrid).
  destruct (init_loop_ok (t_immobile t) (mkAnalysis (t_immobile t) (replicate (Z.to_nat (w * h)) empty_sector) FLT_MAX FLT_MIN f0))
    as (a & -> & [B1 B2 B3 B4]).
  { split; cbn [a_sector a_immobile].
    - rewrite zlen_replicate; nia.
    - intros i s Hlt Hs%zget_Some_bound. lia.
    - by apply Forall_Forall2_diag, Forall_forall.
    - eapply Forall_impl; [exact Hi|]. intros it -> i. rewrite elem_of_empty. split; [done|]. intros (Hlt & s & Hs%zget_Some_bound & _). lia. }
  cbn [mbind option_bind]. destruct (determine_all_ok (a_sector a) (t_mobile t) Hm) as (mts & -> & Hok & _).
  cbn [mbind option_bind]. eexists. split; [reflexivity|]. split; [|done]. split; cbn [sector mobileType immobileType heightMap]; [done| |done| |done].
  - intros i s Hs. apply B2; [|done]. apply zget_Some_bound in Hs. lia.
  - apply Forall_fmap. eapply Forall_impl; [exact B4|]. intros it Hit. split; [|done]. intros i. cbn [set_it_usable it_sector].
    rewrite (Hit i). setoid_rewrite (buildable_same harmful void it (set_it_usable w h stoP it)); [|done].
    split; [by intros [_ ?]|]. intros (s & Hs & Hb). split; [apply zget_Some_bound in Hs; lia|eauto].
Qed.
End scan.

(** ** The other buffer *)

Lemma duplicate_mt_ok sectors mt :
  mobile_ok harmful void w h sectors mt → ∃ mt', duplicate_mt mt = Some mt' ∧ same_type mt mt' ∧ zlen (mt_sector mt') = w * h.
Proof.
  intros Hok. pose proof (as_component _ _ _ _ (mo_areas _ _ _ _ _ _ Hok)) as Hcomp. rewrite Forall_forall in Hcomp.
  assert (∀ pre j post, seq 0 (length (area mt)) = pre ++ j :: post → ∃ a, area mt !! j = Some a ∧ ∀ i, i ∈ area_sector a → 0 <= i < w * h) as Hseq.
  { intros pre j post Hpre. assert (j ∈ seq 0 (length (area mt))) as Hj by (rewrite Hpre; apply elem_of_app; right; by left).
    apply elem_of_seq in Hj. destruct (lookup_lt_is_Some_2 (area mt) j) as [a Ha]; [lia|]. exists a. split; [done|]. intros i Hi.
    assert (area_sector a ∈ area_sector <$> area mt) as Hin by (apply list_elem_of_fmap; exists a; split; [done|by eapply list_elem_of_lookup_2]).
    apply (component_subseteq _ _ _ (Hcomp _ Hin)), elem_of_passable_set in Hi. by destruct Hi. }
  unfold duplicate_mt.
  destruct (foldM_ind (λ _ l, zlen l = w * h) (λ l j, a ← area mt !! j; mark_area j (area_sector a) l) (seq 0 (length (area mt))) (mt_sector mt))
    as (l & -> & Hl); [apply Hok| |].
  { intros pre j post s Hpre Hs. destruct (Hseq pre j post Hpre) as (a & -> & Ha). cbn [mbind option_bind].
    destruct (mark_area_ok j (area_sector a) s) as (l & Hl & Hlen & _); [by rewrite Hs|]. exists l. by rewrite Hlen. }
  cbn [mbind option_bind].
  destruct (foldM_ind (λ _ k, match k with None => True | Some i => is_Some (area mt !! i) end) (λ (k : option nat) j, a ← area mt !! j;
      match k with
      | None => Some (Some j)
      | Some i => b ← area mt !! i; Some (Some (if fltb (percentOfMap b) (percentOfMap a) then j else i))
      end) (seq 0 (length (area mt))) None) as (k & -> & _); [done| |].
  { intros pre j post s Hpre Hs. destruct (Hseq pre j post Hpre) as (a & Ha & _). rewrite Ha. cbn [mbind option_bind].
    destruct s as [i|]; [|by exists (Some j)]. destruct Hs as [b Hb]. rewrite Hb. cbn [mbind option_bind]. eexists. split; [done|].
    destruct (fltb _ _); [by exists a|by exists b]. }
  cbn [mbind option_bind]. eexists. split; [done|]. by split.
Qed.

Lemma duplicate_data_ok d : data_ok harmful void w h stoP d → ∃ d', duplicate_data harmful void d = Some d' ∧ twin w h d d'.
Proof.
  intros Hd. unfold duplicate_data. assert (∃ mts, mapM duplicate_mt (mobileType d) = Some mts ∧
    Forall2 (λ a b, same_type a b ∧ zlen (mt_sector b) = w * h) (mobileType d) mts) as (mts & -> & Hmts).
  { pose proof (do_mobile _ _ _ _ _ _ Hd) as Hm. induction Hm as [|mt mts Hmt _ IH]; [by exists []|].
    destruct IH as (mts' & Hmts & HF), (duplicate_mt_ok _ _ Hmt) as (mt' & Hmt' & Hs). exists (mt' :: mts').
    simpl. rewrite Hmt'. simpl. rewrite Hmts. split; [done|]. by constructor. }
  cbn [mbind option_bind]. eexists. split; [done|]. split; cbn [mobileType immobileType]; [done|].
  apply Forall2_fmap_r, Forall_Forall2_diag, Forall_forall. intros it _. unfold compose.
  generalize (imap (λ i s, (i, s)) (sector d)). intros l. generalize (reflexivity it : same_immobile_type it it). generalize it at 2 4.
  induction l as [|[i s] l IH]; intros it' Hit; simpl; [done|]. apply IH. etrans; [exact Hit|apply set_buildable_type].
Qed.
End init.

(** ** Init *)

(** The analysis of the terrain always returns for height and slope maps of the right size, and establishes the invariant: every type of movement has exactly the connected areas of the sectors it can enter, with their marks and figures; every immobile type has exactly the sectors it can be built on; the second buffer has the same types; and no update is running. *)
Theorem Init_ok `{E : Engine} waterDamage mapWidth mapHeight elevation slopes heights defs :
  let stoP := sector_size mapWidth mapHeight in
  let w := Z.quot (SQUARE_SIZE * mapWidth) stoP in
  let h := Z.quot (SQUARE_SIZE * mapHeight) stoP in
  grid_ok w h stoP → zlen heights = w * convertStoHM stoP * (h * convertStoHM stoP) →
  zlen slopes = w * convertStoSM stoP * (h * convertStoSM stoP) →
  ∃ td, Init waterDamage mapWidth mapHeight elevation slopes heights defs = Some td ∧ terrain_ok td ∧ isUpdating td = false ∧
    heightMap (area_data td (pAreaData td)) = heights ∧ sectorXSize td = w ∧ sectorZSize td = h ∧ convertStoP td = stoP.
Proof.
  intros stoP w h Hgrid Hheights Hslopes. unfold Init. fold stoP w h. pose proof (gr_w _ _ _ Hgrid). pose proof (gr_h _ _ _ Hgrid).
  set (harmful := fgtb waterDamage f0).
  destruct (init_area_data_ok harmful harmful w h stoP Hgrid elevation slopes heights Hheights Hslopes
    (foldl (detect (w * h)) (mkTypes [] [] ∅ ∅) defs)) as (d & -> & Hd & Hhm).
  { apply detect_all_fresh; [nia|]. by split; constructor. }
  cbn [mbind option_bind]. destruct (duplicate_data_ok harmful harmful w h stoP d Hd) as (d' & -> & Htw).
  cbn [mbind option_bind]. eexists. split; [reflexivity|]. split; [|done]. by split.
Qed.

(** ** A small map *)

(** Eight by eight sectors of 32 elmos: a plain, with water in the west and a cliff. *)
Definition demo_heights : list float := (λ i, if bool_decide (i `mod` 32 < 8) then f_of_Z (-30) else f_of_Z 20) <$> seqZ 0 1024.
Definition demo_flooded : list float := (λ i, if bool_decide (i `mod` 32 < 16) then f_of_Z (-30) else f_of_Z 20) <$> seqZ 0 1024.
Definition demo_slopes : list float := (λ i, if bool_decide (i `div` 16 = 8) then f1 else f0) <$> seqZ 0 256.
Definition demo_tank : UnitDef := mkUnitDef 1 false f1 (f_of_Z (-1000)) f0 false false (mkMove (flit 1 2) (f_of_Z 10) false f0).
Definition demo_tower : UnitDef := mkUnitDef 2 false f0 (f_of_Z (-1000)) f0 false false (mkMove f0 f0 false f0).

Lemma demo_grid `{E : Engine} : SQUARE_SIZE = 8 → grid_ok 8 8 32.
Proof.
  intros HS. split; try done; try lia. exists 2. lia.
Qed.

(** Two areas of the tank, on both sides of the cliff; the flood leaves a third less of each. *)
Example demo_Init :
  (λ td, (λ mt, (λ a, size (area_sector a)) <$> area mt) <$> mobileType (areaData0 td)) <$>
    Init (E := example_engine) f0 32 32 (λ _ _, f0) demo_slopes demo_heights [demo_tank; demo_tower] = Some [[24; 18]%nat].
Proof. vm_compute. reflexivity. Qed.

Example demo_Update :
  (td ← Init (E := example_engine) f0 32 32 (λ _ _, f0) demo_slopes demo_heights [demo_tank; demo_tower];
   td ← UpdateAreas (E := example_engine) (EnqueueUpdate demo_flooded demo_slopes td);
   Some ((λ mt, (λ a, size (area_sector a)) <$> area mt) <$> mobileType (areaData1 td))) = Some [[16; 12]%nat].
Proof. vm_compute. reflexivity. Qed.



(** A type that has lost its last area is still called usable. *)
Example usable_stays :
  (td ← Init (E := example_engine) f0 32 32 (λ _ _, f0) demo_slopes demo_heights [demo_tank; demo_tower];
   td ← UpdateAreas (E := example_engine) (EnqueueUpdate (replicate 1024 (f_of_Z (-30))) demo_slopes td);
   Some ((λ mt, (length (area mt), typeUsable mt)) <$> mobileType (areaData1 td))) = Some [(0%nat, true)].
Proof. vm_compute. reflexivity. Qed.

(** On a flat map no entry is compared with the extremes of the map. *)
Example flat_extremes :
  (λ td, (ad_minElevation (areaData0 td), ad_maxElevation (areaData0 td))) <$>
    Init (E := example_engine) f0 32 32 (λ _ _, f0) (replicate 256 f0) (replicate 1024 (f_of_Z 20)) [demo_tank] = Some (FLT_MAX, FLT_MIN).
Proof. vm_compute. reflexivity. Qed.
