(* ===== verification/AreaPublish.v ===== *)
(** * AreaPublish: how new areas reach the AIs

    Models the periodic update of the areas as a whole ([EnqueueUpdate], [ScheduleUsersUpdate],
    [OnAreaUsersUpdated] and [DelegateAuthority] of [src/src/circuit/terrain/TerrainData.cpp],
    [UpdateAreaUsers] of [src/src/circuit/terrain/TerrainManager.cpp] and the part of
    [CCircuitAI::Release] that takes part in it).  The worker thread fills the other buffer; then every
    AI moves over to it, in tasks of its own; when the last one is done the buffers are swapped.
    A run is any sequence of events; [fire] is [None] where an event cannot happen. *)

From stdpp Require Import gmap.
From S2P Require Import Prelude Float32 EnemyUnit SectorGrid TerrainAreas AreaTheory AreaMarks TerrainData TerrainUpdate TerrainInit.

Local Open Scope circuit_scope.

(** A task of one AI: [CTerrainManager::UpdateAreaUsers], and the one it schedules. *)
Inductive UsersTask := UpdateAreaUsers | UsersUpdated.
#[export] Instance users_task_eq_dec : EqDecision UsersTask.
Proof. solve_decision. Defined.

(** [UpdateAreas] waits for the worker thread, or [ScheduleUsersUpdate] for the main thread. *)
Inductive Work := Queued | Finished.

(** [circuits] are the AIs that are initialised, with the buffer their terrain manager reads
    ([areaData]); [pending] their tasks; [scheduler] the AI whose scheduler runs the update. *)
Record AreaUpdate : Type := mkUpdate {
  terrain : CTerrainData;
  aiToUpdate : Z;
  circuits : gmap nat buf;
  pending : list (nat * UsersTask);
  scheduler : option nat;
  work : option Work
}.

Definition OnAreaUsersUpdated (s : AreaUpdate) : AreaUpdate :=
  let n := aiToUpdate s - 1 in
  if decide (n ≠ 0) then mkUpdate (terrain s) n (circuits s) (pending s) (scheduler s) (work s)
  else mkUpdate (publish_areas (terrain s)) n (circuits s) (pending s) (scheduler s) (work s).

Definition start_update (heights slopes : list float) (s : AreaUpdate) : AreaUpdate :=
  if isUpdating (terrain s) then s
  else mkUpdate (EnqueueUpdate heights slopes (terrain s)) (aiToUpdate s) (circuits s) (pending s) (scheduler s) (Some Queued).

Definition ScheduleUsersUpdate (s : AreaUpdate) : AreaUpdate :=
  let users := (λ kv, (kv.1, UpdateAreaUsers)) <$> map_to_list (circuits s) in
  OnAreaUsersUpdated (mkUpdate (terrain s) (0 + zlen users + 1) (circuits s) (pending s ++ users) (scheduler s) None).

(** A task of AI [i] runs; [k] is its place among the pending ones. *)
Definition run_users_task (k i : nat) (t : UsersTask) (s : AreaUpdate) : AreaUpdate :=
  let rest := delete k (pending s) in
  match t with
  | UpdateAreaUsers =>
      mkUpdate (terrain s) (aiToUpdate s) (<[i := GetNextAreaData (terrain s)]> (circuits s)) (rest ++ [(i, UsersUpdated)]) (scheduler s) (work s)
  | UsersUpdated => OnAreaUsersUpdated (mkUpdate (terrain s) (aiToUpdate s) (circuits s) rest (scheduler s) (work s))
  end.

(** The terrain manager of a new AI starts with the published buffer. *)
Definition join (i : nat) (s : AreaUpdate) : AreaUpdate :=
  mkUpdate (terrain s) (aiToUpdate s) (<[i := pAreaData (terrain s)]> (circuits s)) (pending s) (scheduler s) (work s).

Definition DelegateAuthority (others : gmap nat buf) : option nat := head (map_to_list others).*1.

(** [Release]: the counter goes down, then the AI's scheduler drops its tasks; if it ran the update,
    another AI takes over. *)
Definition Release (i : nat) (s : AreaUpdate) : AreaUpdate :=
  let s := OnAreaUsersUpdated s in
  let others := delete i (circuits s) in
  let owns := bool_decide (scheduler s = Some i) in
  mkUpdate (terrain s) (aiToUpdate s) others (filter (λ t, t.1 ≠ i) (pending s))
    (if owns then DelegateAuthority others else scheduler s) (if owns then None else work s).

Inductive event :=
  | Join (i : nat)
  | Leave (i : nat)
  | Start (heights slopes : list float)
  | RunUpdate
  | RunSchedule
  | RunTask (k : nat).

Definition fire {E : Engine} (e : event) (s : AreaUpdate) : option AreaUpdate :=
  match e with
  | Join i => if decide (circuits s !! i = None) then Some (join i s) else None
  | Leave i => if decide (circuits s !! i = None) then None else Some (Release i s)
  | Start heights slopes => _ ← scheduler s; Some (start_update heights slopes s)
  | RunUpdate =>
      match work s with
      | Some Queued => td ← UpdateAreas (terrain s);
          Some (mkUpdate td (aiToUpdate s) (circuits s) (pending s) (scheduler s) (Some Finished))
      | _ => None
      end
  | RunSchedule => match work s with Some Finished => Some (ScheduleUsersUpdate s) | _ => None end
  | RunTask k => '(i, t) ← pending s !! k; Some (run_users_task k i t s)
  end.

Definition run {E : Engine} : AreaUpdate → list event → option AreaUpdate := foldM (λ s e, fire e s).

(** The first AI has analysed the terrain. *)
Definition begin (td : CTerrainData) (i : nat) : AreaUpdate := mkUpdate td 0 {[i := pAreaData td]} [] (Some i) None.

(** An AI comes or goes only while the others are not moving over, or has not done so itself when it
    goes; the one that runs the update does not go in the middle of it; the engine's maps keep their sizes. *)
Definition orderly (e : event) (s : AreaUpdate) : Prop :=
  let td := terrain s in
  match e with
  | Join _ => aiToUpdate s <= 0
  | Leave i => (aiToUpdate s <= 0 ∨ i ∈ (pending s).*1) ∧ (scheduler s = Some i → work s = None)
  | Start heights slopes =>
      zlen heights = sectorXSize td * convertStoHM (convertStoP td) * (sectorZSize td * convertStoHM (convertStoP td)) ∧
      zlen slopes = sectorXSize td * convertStoSM (convertStoP td) * (sectorZSize td * convertStoSM (convertStoP td))
  | _ => True
  end.

Inductive orderly_run {E : Engine} (s0 : AreaUpdate) : AreaUpdate → Prop :=
  | orderly_refl : orderly_run s0 s0
  | orderly_step s e s' : orderly_run s0 s → orderly e s → fire e s = Some s' → orderly_run s0 s'.

(** ** The invariant *)

Section theory.
Context {E : Engine}.

Definition good_data (td : CTerrainData) (b : buf) : Prop :=
  data_ok (waterIsHarmful td) (waterIsAVoid td) (sectorXSize td) (sectorZSize td) (convertStoP td) (area_data td b).

(** The other buffer holds new areas. *)
Definition next_ok (td : CTerrainData) : Prop :=
  good_data td (GetNextAreaData td) ∧
  twin (sectorXSize td) (sectorZSize td) (area_data td (GetNextAreaData td)) (area_data td (pAreaData td)).

(** No AI is moving over. *)
Record at_rest (s : AreaUpdate) : Prop := {
  ar_count : aiToUpdate s <= 0;
  ar_pending : pending s = [];
  ar_buffers : ∀ i b, circuits s !! i = Some b → b = pAreaData (terrain s);
  ar_updating : isUpdating (terrain s) = true ↔ is_Some (work s);
  ar_next : work s = Some Finished → next_ok (terrain s)
}.

(** Some AIs still have to move over, or to say so. *)
Record moving (s : AreaUpdate) : Prop := {
  mv_count : aiToUpdate s = zlen (pending s) ∧ pending s ≠ [];
  mv_distinct : NoDup (pending s).*1;
  mv_known : ∀ i, i ∈ (pending s).*1 → is_Some (circuits s !! i);
  mv_buffers : ∀ i b, circuits s !! i = Some b →
    b = if decide ((i, UpdateAreaUsers) ∈ pending s) then pAreaData (terrain s) else GetNextAreaData (terrain s);
  mv_updating : isUpdating (terrain s) = true ∧ work s = None;
  mv_next : next_ok (terrain s)
}.

Definition update_inv (s : AreaUpdate) : Prop := terrain_ok (terrain s) ∧ (at_rest s ∨ moving s).

Lemma begin_inv td i : terrain_ok td → isUpdating td = false → update_inv (begin td i).
Proof.
  intros Hok Hu. split; [done|]. left. split; cbn; try done.
  - intros j b Hb. by apply lookup_singleton_Some in Hb as [_ <-].
  - rewrite Hu. split; [done|]. by intros [? ?].
Qed.

Lemma next_published td : GetNextAreaData (publish_areas td) = pAreaData td.
Proof. unfold GetNextAreaData. simpl. unfold GetNextAreaData. by destruct (pAreaData td). Qed.

(** The last AI is done. *)
Lemma publish_inv s n :
  terrain_ok (terrain s) → next_ok (terrain s) → work s = None → n = 0 → pending s = [] →
  (∀ i b, circuits s !! i = Some b → b = GetNextAreaData (terrain s)) →
  update_inv (mkUpdate (publish_areas (terrain s)) n (circuits s) (pending s) (scheduler s) (work s)).
Proof.
  intros Hok [Hn Ht] Hw -> Hp Hb. split; [by apply publish_areas_ok|]. left. split; cbn; try done.
  - rewrite Hw. split; [done|]. by intros [? ?].
  - by rewrite Hw.
Qed.

(** One task less: the next state is still moving, or the buffers are swapped. *)
Lemma task_done_inv s pend n circ sch :
  terrain_ok (terrain s) → next_ok (terrain s) → isUpdating (terrain s) = true → n = zlen pend + 1 →
  NoDup pend.*1 → (∀ i, i ∈ pend.*1 → is_Some (circ !! i)) →
  (∀ i b, circ !! i = Some b → b = if decide ((i, UpdateAreaUsers) ∈ pend) then pAreaData (terrain s) else GetNextAreaData (terrain s)) →
  update_inv (OnAreaUsersUpdated (mkUpdate (terrain s) n circ pend sch None)).
Proof.
  intros Hok Hn Hu -> Hnd Hk Hb. unfold OnAreaUsersUpdated. cbn [aiToUpdate terrain circuits pending scheduler work].
  destruct (decide (pend = [])) as [->|Hne].
  - rewrite decide_False by (unfold zlen; simpl; lia).
    apply (publish_inv (mkUpdate (terrain s) 0 circ [] sch None)); done.
  - assert (zlen pend ≠ 0) as Hz by (unfold zlen; destruct pend; [done|simpl; lia]).
    rewrite decide_True by lia. split; [done|]. right. split; cbn; try done. split; [lia|done].
Qed.

Lemma join_inv i s : update_inv s → orderly (Join i) s → update_inv (join i s).
Proof.
  intros [Hok [Hr|Hm]] Hq; cbn in Hq.
  - split; [done|]. left. destruct Hr as [R1 R2 R3 R4 R5]. split; try done. cbn. intros j b.
    intros [[-> <-]|[_ Hj]]%lookup_insert_Some; [done|by apply R3 in Hj].
  - destruct (mv_count _ Hm) as [Hc Hne]. exfalso. rewrite Hc in Hq. unfold zlen in Hq. destruct (pending s); [done|simpl in Hq; lia].
Qed.

Lemma filter_fst_length (l : list (nat * UsersTask)) i :
  NoDup l.*1 → i ∈ l.*1 → (length l = S (length (filter (λ t, t.1 ≠ i) l)))%nat.
Proof.
  induction l as [|[j t] l IH]; cbn [fmap list_fmap fst]; [by intros _ ?%not_elem_of_nil|].
  intros [Hj Hnd]%NoDup_cons Hi. rewrite filter_cons. case_decide as Hd; cbn [fst] in Hd.
  - apply elem_of_cons in Hi as [->|Hi]; [done|]. simpl. by rewrite <-IH.
  - assert (j = i) as -> by (by destruct (decide (j = i))). simpl. f_equal. symmetry. f_equal. apply filter_all.
    intros [k u] Hin Hk. cbn in Hk. subst k. apply Hj. apply list_elem_of_fmap. by exists (i, u).
Qed.

Lemma filter_fst_NoDup (l : list (nat * UsersTask)) i : NoDup l.*1 → NoDup (filter (λ t, t.1 ≠ i) l).*1.
Proof.
  induction l as [|[j t] l IH]; cbn [fmap list_fmap fst]; [done|]. intros [Hj Hnd]%NoDup_cons. rewrite filter_cons.
  case_decide; [|by apply IH]. cbn [fmap list_fmap fst]. apply NoDup_cons. split; [|by apply IH].
  intros ([k u] & -> & [_ Hin]%list_elem_of_filter)%list_elem_of_fmap. apply Hj, list_elem_of_fmap. by exists (k, u).
Qed.

Lemma leave_inv i s : update_inv s → orderly (Leave i) s → update_inv (Release i s).
Proof.
  intros [Hok Hs] [Hlate Howner]. unfold Release. destruct Hs as [Hr|Hm].
  - destruct Hr as [R1 R2 R3 R4 R5]. assert ((if bool_decide (scheduler s = Some i) then None else work s) = work s) as Hw.
    { case_bool_decide as Ho; [|done]. by rewrite Howner. }
    unfold OnAreaUsersUpdated. rewrite decide_True by lia. cbn. rewrite Hw, R2. split; [done|]. left. split; cbn; try done; [lia|].
    intros j b [_ Hj]%lookup_delete_Some. by apply R3 in Hj.
  - destruct Hm as [[M1 M1'] M2 M3 M4 [M5 M5'] M6]. destruct Hlate as [Hle|Hin].
    { exfalso. unfold zlen in M1. destruct (pending s); [done|]. simpl in M1. lia. }
    pose proof (filter_fst_length (pending s) i M2 Hin) as Hlen.
    assert (update_inv (OnAreaUsersUpdated (mkUpdate (terrain s) (aiToUpdate s) (delete i (circuits s)) (filter (λ t, t.1 ≠ i) (pending s))
      (if bool_decide (scheduler s = Some i) then DelegateAuthority (delete i (circuits s)) else scheduler s) None))) as Hinv.
    { apply task_done_inv; try done.
      - unfold zlen in *. lia.
      - by apply filter_fst_NoDup.
      - intros j Hj. apply list_elem_of_fmap in Hj as ([k t] & -> & [Hk Hin']%list_elem_of_filter). cbn in *.
        rewrite lookup_delete_ne by done. apply M3. apply list_elem_of_fmap. by exists (k, t).
      - intros j b [Hne Hj]%lookup_delete_Some. rewrite (M4 j b Hj).
        assert ((j, UpdateAreaUsers) ∈ pending s ↔ (j, UpdateAreaUsers) ∈ filter (λ t, t.1 ≠ i) (pending s)) as Hiff.
        { rewrite list_elem_of_filter. cbn. split; [by intros ?|tauto]. }
        repeat case_decide; tauto || done. }
    revert Hinv. unfold OnAreaUsersUpdated. cbn. case_decide; cbn; rewrite M5'; by case_bool_decide.
Qed.

Lemma schedule_inv s : update_inv s → work s = Some Finished → update_inv (ScheduleUsersUpdate s).
Proof.
  intros [Hok [Hr|Hm]] Hw; [|by destruct (mv_updating _ Hm) as [_ ?]; congruence].
  destruct Hr as [R1 R2 R3 R4 R5]. unfold ScheduleUsersUpdate. rewrite R2. simpl app.
  assert (((λ kv : nat * buf, (kv.1, UpdateAreaUsers)) <$> map_to_list (circuits s)).*1 = (map_to_list (circuits s)).*1) as Hfst.
  { rewrite <-list_fmap_compose. by apply list_fmap_ext. }
  apply task_done_inv; try done.
  - by apply R5.
  - apply R4. by rewrite Hw.
  - rewrite Hfst. apply NoDup_fst_map_to_list.
  - intros i. rewrite Hfst. intros ([j b] & -> & Hj)%list_elem_of_fmap. apply elem_of_map_to_list in Hj. by eexists.
  - intros i b Hi. rewrite decide_True; [by apply R3 in Hi|]. apply list_elem_of_fmap. exists (i, b). split; [done|].
    by apply elem_of_map_to_list.
Qed.

Lemma task_inv k i t s : update_inv s → pending s !! k = Some (i, t) → update_inv (run_users_task k i t s).
Proof.
  intros [Hok [Hr|Hm]] Hk; [by rewrite (ar_pending _ Hr) in Hk|].
  destruct Hm as [[M1 M1'] M2 M3 M4 [M5 M5'] M6]. pose proof (delete_Permutation _ _ _ Hk) as Hp.
  assert (i ∉ (delete k (pending s)).*1 ∧ NoDup (delete k (pending s)).*1) as [Hi Hnd].
  { pose proof M2 as Hnd. rewrite Hp in Hnd. cbn in Hnd. by apply NoDup_cons in Hnd. }
  assert (∀ j, (j, UpdateAreaUsers) ∈ delete k (pending s) → j ≠ i) as Hne.
  { intros j Hj ->. apply Hi, list_elem_of_fmap. by eexists (_, UpdateAreaUsers). }
  assert (∀ j, j ≠ i → (j, UpdateAreaUsers) ∈ pending s ↔ (j, UpdateAreaUsers) ∈ delete k (pending s)) as Hother.
  { intros j Hj. rewrite Hp at 1. rewrite elem_of_cons. split; [|by right]. intros [[= -> _]|?]; done. }
  assert (zlen (pending s) = zlen (delete k (pending s)) + 1) as Hlen.
  { unfold zlen. rewrite (Permutation_length Hp). simpl. lia. }
  assert (is_Some (circuits s !! i)) as Hin by (apply M3; rewrite Hp; by left).
  destruct t; unfold run_users_task.
  - split; [done|]. right. split; cbn.
    + rewrite M1, Hlen. split; [unfold zlen; rewrite length_app; simpl; lia|]. by destruct (delete k (pending s)).
    + rewrite fmap_app. apply NoDup_app. split; [done|]. split; [|apply NoDup_singleton]. by intros j Hj ->%list_elem_of_singleton.
    + intros j. rewrite fmap_app, elem_of_app. destruct (decide (j = i)) as [->|Hji]; [by rewrite lookup_insert_eq|].
      rewrite lookup_insert_ne by done. intros [Hj|?%list_elem_of_singleton]; [|done]. apply M3. rewrite Hp. cbn. by right.
    + intros j b [[<- <-]|[Hji Hj]]%lookup_insert_Some.
      * rewrite decide_False; [done|]. intros [Hj|?%list_elem_of_singleton]%elem_of_app; [by apply Hne in Hj|done].
      * rewrite (M4 j b Hj). assert ((j, UpdateAreaUsers) ∈ pending s ↔ (j, UpdateAreaUsers) ∈ delete k (pending s) ++ [(i, UsersUpdated)]) as Hiff.
        { rewrite elem_of_app, list_elem_of_singleton, Hother by done. split; [by left|]. by intros [?|?]. }
        repeat case_decide; tauto || done.
    + done.
    + done.
  - rewrite M5'. apply task_done_inv; try done.
    + by rewrite M1.
    + intros j Hj. apply M3. rewrite Hp. cbn. by right.
    + intros j b Hj. rewrite (M4 j b Hj). destruct (decide (j = i)) as [->|Hji].
      * rewrite !decide_False; [done| |].
        -- intros Hx. by apply Hne in Hx.
        -- rewrite Hp, elem_of_cons. intros [?|Hx]; [done|]. by apply Hne in Hx.
      * specialize (Hother j Hji). repeat case_decide; tauto || done.
Qed.

Lemma start_inv heights slopes s : update_inv s → orderly (Start heights slopes) s → update_inv (start_update heights slopes s).
Proof.
  intros [Hok Hs] [Hh Hsl]. unfold start_update. destruct (isUpdating (terrain s)) eqn:Hu; [done|].
  destruct Hs as [Hr|Hm]; [|by destruct (mv_updating _ Hm); congruence]. destruct Hr as [R1 R2 R3 R4 R5].
  assert (pAreaData (EnqueueUpdate heights slopes (terrain s)) = pAreaData (terrain s) ∧
    isUpdating (EnqueueUpdate heights slopes (terrain s)) = true) as [Hb Hu'] by (unfold EnqueueUpdate; by rewrite Hu).
  split; cbn; [by apply EnqueueUpdate_ok|]. left. split; cbn; try done.
  - intros i b Hi. rewrite Hb. by eapply R3.
Qed.

Lemma work_inv s :
  update_inv s → work s = Some Queued →
  ∃ td, UpdateAreas (terrain s) = Some td ∧
    update_inv (mkUpdate td (aiToUpdate s) (circuits s) (pending s) (scheduler s) (Some Finished)).
Proof.
  intros [Hok [Hr|Hm]] Hw; [|by destruct (mv_updating _ Hm); congruence]. destruct Hr as [R1 R2 R3 R4 R5].
  assert (isUpdating (terrain s) = true) as Hu by (apply R4; by rewrite Hw).
  destruct (UpdateAreas_keeps (terrain s) Hok Hu) as (td & -> & Hok' & Hb & (E1 & E2 & E3 & E4 & E5) & Hu' & Hpub & Hd & Htw & _).
  exists td. split; [done|]. split; [done|]. left. split; cbn; try done.
  - intros i b Hi. rewrite Hb. by eapply R3.
  - intros _. unfold next_ok, good_data. assert (GetNextAreaData td = GetNextAreaData (terrain s)) as -> by (unfold GetNextAreaData; by rewrite Hb).
    by rewrite E1, E2, E3, E4, E5, Hb, Hpub.
Qed.

Lemma fire_inv e s s' : update_inv s → orderly e s → fire e s = Some s' → update_inv s'.
Proof.
  intros Hinv Hq. destruct e as [i|i|heights slopes| | |k]; cbn [fire].
  - case_decide; [|done]. intros [= <-]. by apply join_inv.
  - case_decide; [done|]. intros [= <-]. by apply leave_inv.
  - destruct (scheduler s); [|done]. intros [= <-]. by apply start_inv.
  - destruct (work s) as [[]|] eqn:Hw; [|done..]. destruct (work_inv s Hinv Hw) as (td & -> & Hi). by intros [= <-].
  - destruct (work s) as [[]|] eqn:Hw; [done| |done]. intros [= <-]. by apply schedule_inv.
  - destruct (pending s !! k) as [[i t]|] eqn:Hk; [|done]. intros [= <-]. by apply task_inv.
Qed.

Lemma orderly_inv s0 s : update_inv s0 → orderly_run s0 s → update_inv s.
Proof. intros H0. induction 1; [done|]. by eapply fire_inv. Qed.

Lemma inv_buffers s i b :
  update_inv s → circuits s !! i = Some b →
  good_data (terrain s) b ∧ (is_Some (work s) → b = pAreaData (terrain s)).
Proof.
  intros [Hok [Hr|Hm]] Hi.
  - rewrite (ar_buffers _ Hr i b Hi). split; [apply Hok|done].
  - split; [|by destruct (mv_updating _ Hm) as [_ ->]; intros [? ?]].
    rewrite (mv_buffers _ Hm i b Hi). case_decide; [apply Hok|apply (mv_next _ Hm)].
Qed.

(** ** Progress *)

(** Only what the program does by itself. *)
Definition internal (e : event) : Prop := match e with RunUpdate | RunSchedule | RunTask _ => True | _ => False end.

Definition can_publish (s : AreaUpdate) (b : buf) : Prop :=
  ∃ es s', Forall internal es ∧ run s es = Some s' ∧ update_inv s' ∧ isUpdating (terrain s') = false ∧ pAreaData (terrain s') = b ∧
    dom (circuits s') = dom (circuits s).

Lemma can_publish_step e s s1 b :
  internal e → fire e s = Some s1 → dom (circuits s1) = dom (circuits s) → can_publish s1 b → can_publish s b.
Proof.
  intros Hi Hf Hd (es & s' & Hes & Hrun & H1 & H2 & H3 & H4). exists (e :: es), s'. split; [by constructor|].
  unfold run. simpl. rewrite Hf. split; [exact Hrun|]. by rewrite H4.
Qed.

Lemma published_now s b : update_inv s → isUpdating (terrain s) = false → pAreaData (terrain s) = b → can_publish s b.
Proof. intros. exists [], s. split; [constructor|]. by split_and!. Qed.

Definition task_weight (t : nat * UsersTask) : nat := match t.2 with UpdateAreaUsers => 2 | UsersUpdated => 1 end.

Lemma moving_publishes n s :
  update_inv s → moving s → (sum_list_with task_weight (pending s) <= n)%nat → can_publish s (GetNextAreaData (terrain s)).
Proof.
  revert s. induction n as [|n IH]; intros s Hinv Hm Hn; destruct (mv_count _ Hm) as [Hc Hne];
    (destruct (pending s) as [|[i t] l] eqn:Hp; [done|]); [destruct t; simpl in Hn; lia|].
  assert (is_Some (circuits s !! i)) as Hin by (apply (mv_known _ Hm); rewrite Hp; by left).
  assert (fire (RunTask 0) s = Some (run_users_task 0 i t s)) as Hf by (cbn [fire]; by rewrite Hp).
  pose proof (fire_inv (RunTask 0) s _ Hinv I Hf) as Hinv'. destruct t.
  - eapply (can_publish_step (RunTask 0)); [done|exact Hf| |].
    + cbn. rewrite dom_insert_L. apply elem_of_dom in Hin. set_solver.
    + apply (IH (run_users_task 0 i UpdateAreaUsers s)); [done| |].
      * destruct Hinv' as [_ [Hr|?]]; [|done]. pose proof (ar_pending _ Hr) as Hpe. cbn in Hpe. rewrite Hp in Hpe. by destruct l.
      * cbn. rewrite Hp. simpl in Hn |- *. rewrite sum_list_with_app. simpl. lia.
  - eapply (can_publish_step (RunTask 0)); [done|exact Hf| |].
    + unfold run_users_task, OnAreaUsersUpdated. cbn. by case_decide.
    + unfold run_users_task, OnAreaUsersUpdated in *. cbn [aiToUpdate terrain circuits pending scheduler work] in *. rewrite Hp in *. simpl delete in *.
      destruct (decide (aiToUpdate s - 1 ≠ 0)) as [Hz|Hz].
      * apply (IH (mkUpdate (terrain s) (aiToUpdate s - 1) (circuits s) l (scheduler s) (work s))); [done| |].
        -- destruct Hinv' as [_ [Hr|?]]; [|done]. exfalso. pose proof (ar_pending _ Hr) as Hpe. cbn in Hpe. subst l.
           apply Hz. rewrite Hc. done.
        -- cbn. simpl in Hn. lia.
      * by apply published_now.
Qed.

Lemma finished_publishes s : update_inv s → work s = Some Finished → can_publish s (GetNextAreaData (terrain s)).
Proof.
  intros Hinv Hw. assert (fire RunSchedule s = Some (ScheduleUsersUpdate s)) as Hf by (cbn [fire]; by rewrite Hw).
  pose proof (fire_inv RunSchedule s _ Hinv I Hf) as Hinv'. eapply (can_publish_step RunSchedule); [done|exact Hf| |].
  - unfold ScheduleUsersUpdate, OnAreaUsersUpdated. by case_decide.
  - revert Hinv'. unfold ScheduleUsersUpdate, OnAreaUsersUpdated. cbn [aiToUpdate terrain circuits pending scheduler work]. case_decide as Hz.
    + intros Hinv'. eapply (moving_publishes _ (mkUpdate _ _ _ _ _ _)); [done| |done].
      destruct Hinv' as [_ [Hr|?]]; [|done]. exfalso. pose proof (ar_pending _ Hr) as Hp. cbn in Hp.
      apply app_nil in Hp as [_ Hp]. apply Hz. rewrite Hp. done.
    + intros Hinv'. by apply published_now.
Qed.

Lemma updating_publishes s : update_inv s → isUpdating (terrain s) = true → can_publish s (GetNextAreaData (terrain s)).
Proof.
  intros Hinv Hu. destruct Hinv as [Hok [Hr|Hm]]; [|eapply moving_publishes; [split; [done|by right]|done|done]].
  assert (update_inv s) as Hinv by (split; [done|by left]). pose proof (proj1 (ar_updating _ Hr) Hu) as [[] Hw]; [|by apply finished_publishes].
  destruct (work_inv s Hinv Hw) as (td & Htd & Hinv').
  assert (fire RunUpdate s = Some (mkUpdate td (aiToUpdate s) (circuits s) (pending s) (scheduler s) (Some Finished))) as Hf.
  { cbn [fire]. by rewrite Hw, Htd. }
  eapply (can_publish_step RunUpdate); [done|exact Hf|done|].
  destruct (UpdateAreas_keeps (terrain s) Hok Hu) as (td' & Htd' & _ & Hb & _). assert (td' = td) as -> by congruence.
  replace (GetNextAreaData (terrain s)) with (GetNextAreaData td) by (unfold GetNextAreaData; by rewrite Hb).
  by apply (finished_publishes (mkUpdate _ _ _ _ _ _)).
Qed.
End theory.

(** ** The theorems *)

(** C30: From a consistent terrain without an update under way, through any orderly sequence of updates, AIs that come or go, and their tasks in any order, every AI reads areas that are complete and right (those of the published buffer, or of the new one once it has moved over), and while the worker thread may be writing the other buffer no AI reads it; the terrain stays consistent. *)
Theorem areas_in_use_ok `{E : Engine} td i s :
  terrain_ok td → isUpdating td = false → orderly_run (begin td i) s →
  terrain_ok (terrain s) ∧ ∀ j b, circuits s !! j = Some b →
    good_data (terrain s) b ∧ (work s = Some Queued → b ≠ GetNextAreaData (terrain s)).
Proof.
  intros Hok Hu Hrun. pose proof (orderly_inv _ _ (begin_inv td i Hok Hu) Hrun) as Hinv.
  split; [apply Hinv|]. intros j b Hb. destruct (inv_buffers s j b Hinv Hb) as [Hg Hw]. split; [done|].
  intros Hq. rewrite Hw by (by rewrite Hq). unfold GetNextAreaData. by destruct (pAreaData (terrain s)).
Qed.

(** An update that was started can always be finished by what the program does by itself: in any state of an orderly run in which an update is under way, the remaining work and tasks can run, after which the new buffer is published, no update is under way and every AI has moved over. *)
Theorem update_can_finish `{E : Engine} td i s :
  terrain_ok td → isUpdating td = false → orderly_run (begin td i) s → isUpdating (terrain s) = true →
  ∃ es s', Forall internal es ∧ run s es = Some s' ∧ isUpdating (terrain s') = false ∧
    pAreaData (terrain s') = GetNextAreaData (terrain s) ∧ dom (circuits s') = dom (circuits s) ∧
    ∀ j b, circuits s' !! j = Some b → b = pAreaData (terrain s').
Proof.
  intros Hok Hu Hrun Hup. pose proof (orderly_inv _ _ (begin_inv td i Hok Hu) Hrun) as Hinv.
  destruct (updating_publishes s Hinv Hup) as (es & s' & Hes & Hr & [_ Hinv'] & H1 & H2 & H3).
  exists es, s'. split_and!; try done. destruct Hinv' as [Ha|Hm]; [apply Ha|].
  destruct (mv_updating _ Hm). congruence.
Qed.

(** The counter never reaches zero again, and nothing resets it. *)
Lemma fire_stalled `{E : Engine} e s s' :
  isUpdating (terrain s) = true → aiToUpdate s <= 0 → work s = None → fire e s = Some s' →
  isUpdating (terrain s') = true ∧ aiToUpdate s' <= 0 ∧ work s' = None ∧ terrain s' = terrain s.
Proof.
  intros Hu Hc Hw. assert (∀ s, aiToUpdate s <= 0 → OnAreaUsersUpdated s = mkUpdate (terrain s) (aiToUpdate s - 1) (circuits s) (pending s) (scheduler s) (work s)) as Hon.
  { intros s1 Hs1. unfold OnAreaUsersUpdated. rewrite decide_True by lia. done. }
  destruct e as [i|i|heights slopes| | |k]; cbn [fire]; rewrite ?Hw; try done.
  - case_decide; [|done]. by intros [= <-].
  - case_decide; [done|]. intros [= <-]. unfold Release. rewrite Hon by done. cbn. rewrite Hw. case_bool_decide; split_and!; done || lia.
  - destruct (scheduler s); [|done]. intros [= <-]. unfold start_update. by rewrite Hu.
  - destruct (pending s !! k) as [[i []]|]; [..|done]; intros [= <-]; [done|]. unfold run_users_task. rewrite Hon by done. cbn. split_and!; done || lia.
Qed.

(** When the AI whose scheduler runs the update is released while the update waits for the worker thread or for its turn on the main thread, its scheduler drops the update, another AI takes over the periodic task, but the flag isUpdating stays set: whatever happens afterwards, no update is ever started again and the published areas stay those of before. *)
Theorem owner_leaves_update_stalls `{E : Engine} i s s1 :
  isUpdating (terrain s) = true → aiToUpdate s <= 0 → scheduler s = Some i → fire (Leave i) s = Some s1 →
  ∀ es s2, run s1 es = Some s2 → isUpdating (terrain s2) = true ∧ work s2 = None ∧ terrain s2 = terrain s.
Proof.
  intros Hu Hc Ho Hl. assert (isUpdating (terrain s1) = true ∧ aiToUpdate s1 <= 0 ∧ work s1 = None ∧ terrain s1 = terrain s) as (H1 & H2 & H3 & H4).
  { revert Hl. cbn [fire]. case_decide; [done|]. intros [= <-]. unfold Release, OnAreaUsersUpdated. rewrite decide_True by lia.
    cbn. rewrite bool_decide_eq_true_2 by done. split_and!; done || lia. }
  intros es. clear Hl Hc Ho. revert s1 H1 H2 H3 H4. induction es as [|e es IH]; intros s1 H1 H2 H3 H4 s2; unfold run; simpl.
  - intros [= <-]. done.
  - destruct (fire e s1) as [s3|] eqn:Hf; [|done]. simpl.
    destruct (fire_stalled e s1 s3 H1 H2 H3 Hf) as (? & ? & ? & ?). apply IH; try done. congruence.
Qed.

(** An AI that has moved over and leaves is counted twice: the buffers are swapped before the last one has
    updated its path finder. *)
Lemma late_leaver_publishes_early `{E : Engine} s i j b :
  aiToUpdate s = 1 → pending s = [(j, UsersUpdated)] → circuits s !! i = Some b → i ≠ j →
  ∃ s', fire (Leave i) s = Some s' ∧ pAreaData (terrain s') = GetNextAreaData (terrain s) ∧ isUpdating (terrain s') = false ∧
    pending s' = [(j, UsersUpdated)].
Proof.
  intros Hc Hp Hi Hne. cbn [fire]. rewrite Hi, decide_False by done. eexists. split; [done|].
  unfold Release, OnAreaUsersUpdated. rewrite Hc, decide_False by lia. cbn. rewrite Hp. split_and!; try done.
  rewrite filter_cons, decide_True by (cbn; congruence). done.
Qed.

(** An AI that joins while the others move over reads the old buffer when it is no longer published, and
    may be written by the next update. *)
Lemma late_joiner_stays_behind `{E : Engine} s i j :
  aiToUpdate s = 1 → pending s = [(j, UsersUpdated)] → circuits s !! i = None →
  ∃ s', run s [Join i; RunTask 0] = Some s' ∧ circuits s' !! i = Some (GetNextAreaData (terrain s')).
Proof.
  intros Hc Hp Hi. unfold run. simpl. rewrite decide_True by done. simpl. rewrite Hp. simpl. eexists. split; [reflexivity|].
  unfold run_users_task, OnAreaUsersUpdated. cbn. rewrite Hc, decide_False by lia. cbn. rewrite lookup_insert_eq. f_equal.
  unfold GetNextAreaData. cbn. unfold GetNextAreaData. by destruct (pAreaData (terrain s)).
Qed.

(** ** A run on the small map *)

(** A second AI joins, and a flood starts an update. *)
Lemma demo_run :
  ∃ td s, terrain_ok (E := example_engine) td ∧ isUpdating td = false ∧ orderly_run (E := example_engine) (begin td 1) s ∧
    isUpdating (terrain s) = true ∧ work s = Some Queued ∧ is_Some (circuits s !! 1%nat) ∧ circuits s !! 2%nat = Some (pAreaData td) ∧
    aiToUpdate s = 0 ∧ scheduler s = Some 1%nat.
Proof.
  destruct (Init_ok (E := example_engine) f0 32 32 (λ _ _, f0) demo_slopes demo_heights [demo_tank; demo_tower])
    as (td & _ & Hok & Hu & _ & Hw & Hh & HP);
    [exact (demo_grid (E := example_engine) eq_refl)|vm_compute; reflexivity|vm_compute; reflexivity|].
  exists td, (start_update demo_flooded demo_slopes (join 2 (begin td 1))). split_and!; try done.
  - apply (orderly_step _ (join 2 (begin td 1)) (Start demo_flooded demo_slopes)); [|split|done].
    + apply (orderly_step _ (begin td 1) (Join 2)); [constructor|cbn; lia|]. cbn [fire]. rewrite decide_True; [done|]. cbn.
      by rewrite lookup_singleton_ne.
    + cbn. rewrite Hw, Hh, HP. vm_compute. reflexivity.
    + cbn. rewrite Hw, Hh, HP. vm_compute. reflexivity.
  - unfold start_update. cbn. rewrite Hu. unfold EnqueueUpdate. by rewrite Hu.
  - unfold start_update. cbn. by rewrite Hu.
  - unfold start_update. cbn. rewrite Hu. cbn. by eexists.
  - unfold start_update. cbn. by rewrite Hu.
  - unfold start_update. cbn. by rewrite Hu.
  - unfold start_update. cbn. by rewrite Hu.
Qed.

Lemma areas_in_use_ok_witness :
  ∃ s b, work s = Some Queued ∧ circuits s !! 2%nat = Some b ∧ good_data (terrain s) b ∧ b ≠ GetNextAreaData (terrain s).
Proof.
  destruct demo_run as (td & s & Hok & Hu & Hrun & _ & Hw & _ & Hb & _).
  destruct (areas_in_use_ok (E := example_engine) td 1 s Hok Hu Hrun) as [_ Hall]. destruct (Hall 2%nat _ Hb) as [Hg Hne].
  exists s, (pAreaData td). split_and!; [exact Hw|exact Hb|exact Hg|exact (Hne Hw)].
Defined.

Lemma update_can_finish_witness :
  ∃ s es s', isUpdating (terrain s) = true ∧ Forall internal es ∧ run (E := example_engine) s es = Some s' ∧ isUpdating (terrain s') = false ∧
    pAreaData (terrain s') = GetNextAreaData (terrain s).
Proof.
  destruct demo_run as (td & s & Hok & Hu & Hrun & Hup & _).
  destruct (update_can_finish (E := example_engine) td 1 s Hok Hu Hrun Hup) as (es & s' & H1 & H2 & H3 & H4 & _).
  exists s, es, s'. split_and!; [exact Hup|exact H1|exact H2|exact H3|exact H4].
Defined.

(** The first AI leaves; the second one goes on, and tries to start an update again. *)
Lemma owner_leaves_update_stalls_witness :
  ∃ s s1 s2, fire (E := example_engine) (Leave 1) s = Some s1 ∧ run (E := example_engine) s1 [Start demo_heights demo_slopes] = Some s2 ∧
    isUpdating (terrain s2) = true ∧ work s2 = None.
Proof.
  destruct demo_run as (td & s & Hok & Hu & Hrun & Hup & Hw & [b Hfirst] & Hb & Hc & Ho).
  assert (∃ s1, fire (E := example_engine) (Leave 1) s = Some s1 ∧ is_Some (scheduler s1)) as (s1 & Hs1 & Hsch).
  { cbn [fire]. rewrite decide_False by (rewrite Hfirst; discriminate).
    eexists. split; [reflexivity|]. unfold Release. cbn [scheduler]. unfold OnAreaUsersUpdated. rewrite Hc. simpl.
    rewrite bool_decide_eq_true_2 by exact Ho. unfold DelegateAuthority.
    destruct (map_to_list (delete 1%nat (circuits s))) as [|[k c] l] eqn:Hl; [|by eexists].
    apply map_to_list_empty_iff in Hl. exfalso. assert (delete 1%nat (circuits s) !! 2%nat = None) as Hn by (rewrite Hl; apply lookup_empty).
    rewrite lookup_delete_ne in Hn by discriminate. rewrite Hb in Hn. discriminate. }
  destruct Hsch as [j Hj]. exists s, s1.
  assert (run (E := example_engine) s1 [Start demo_heights demo_slopes] = Some (start_update demo_heights demo_slopes s1)) as Hr.
  { unfold run. simpl. rewrite Hj. reflexivity. }
  exists (start_update demo_heights demo_slopes s1).
  destruct (owner_leaves_update_stalls (E := example_engine) 1%nat s s1 Hup ltac:(lia) Ho Hs1 _ _ Hr) as (H1 & H2 & _).
  split_and!; [exact Hs1|exact Hr|exact H1|exact H2].
Defined.
