(* ===== verification/TerrainQueries.v ===== *)
(** * TerrainQueries: questions about the sectors and areas

    The queries of [src/src/circuit/terrain/TerrainManager.cpp] on the areas of [TerrainData]: the
    closest sector of an area or of an immobile type, the best sector of another type of movement, and
    the questions built on them (where a unit may go, be built or reach).  The answers are kept in the
    areas, types and sectors, so every query takes the data and returns them with the caches filled.

    A pointer to an area is its type and its place there; [None] is the null pointer, also where a
    dereference of it makes the query undefined. *)

From Stdlib Require Import SpecFloat.
From stdpp Require Import gmap.
From S2P Require Import Prelude Float32 EnemyUnit TerrainAreas AreaTheory TerrainData.

Local Open Scope circuit_scope.

Definition area_ptr : Type := (nat * nat)%type.

Section queries.
Context {E : Engine}.
(** [AIFloat3::distance2D], [sectorXSize] and [convertStoP]. *)
Context (distance2D : AIFloat3 → AIFloat3 → float) (sectorXSize convertStoP : Z).

Definition GetSectorIndex (pos : AIFloat3) : option Z :=
  z ← f_to_int (pz pos);
  x ← f_to_int (px pos);
  Some (sectorXSize * Z.quot z convertStoP + Z.quot x convertStoP).

Definition GetMobileTypeById (id : Z) : option nat := if decide (id < 0) then None else Some (Z.to_nat id).
Definition GetImmobileTypeById (id : Z) : option nat := if decide (id < 0) then None else Some (Z.to_nat id).

Definition position_of (d : SAreaData) (i : Z) : option AIFloat3 := s ← (sector d).[i]; Some (position s).

Definition get_area (d : SAreaData) (p : area_ptr) : option STerrainMapArea := mt ← mobileType d !! p.1; area mt !! p.2.

(** The vectors a query writes to. *)
Definition set_mobile (d : SAreaData) (l : list STerrainMapMobileType) : SAreaData :=
  mkAreaData l (immobileType d) (sectorAirType d) (sector d) (ad_minElevation d) (ad_maxElevation d) (ad_percentLand d) (heightMap d).
Definition set_immobile (d : SAreaData) (l : list STerrainMapImmobileType) : SAreaData :=
  mkAreaData (mobileType d) l (sectorAirType d) (sector d) (ad_minElevation d) (ad_maxElevation d) (ad_percentLand d) (heightMap d).
Definition set_air (d : SAreaData) (l : list STerrainMapAreaSector) : SAreaData :=
  mkAreaData (mobileType d) (immobileType d) l (sector d) (ad_minElevation d) (ad_maxElevation d) (ad_percentLand d) (heightMap d).
Definition with_areas (mt : STerrainMapMobileType) (l : list STerrainMapArea) : STerrainMapMobileType :=
  mkMT (typeUsable mt) (mt_sector mt) l (areaLargest mt) (mt_maxSlope mt) (mt_maxElevation mt) (mt_minElevation mt)
    (mt_canHover mt) (mt_canFloat mt) (crushStrength mt) (mt_udCount mt).
Definition with_sectors (mt : STerrainMapMobileType) (l : list STerrainMapAreaSector) : STerrainMapMobileType :=
  mkMT (typeUsable mt) l (area mt) (areaLargest mt) (mt_maxSlope mt) (mt_maxElevation mt) (mt_minElevation mt)
    (mt_canHover mt) (mt_canFloat mt) (crushStrength mt) (mt_udCount mt).

Definition GetSectorList (d : SAreaData) (p : option area_ptr) : option (list STerrainMapAreaSector) :=
  match p with
  | None => Some (sectorAirType d)
  | Some p => mt ← mobileType d !! p.1; Some (mt_sector mt)
  end.
Definition set_sector_list (d : SAreaData) (p : option area_ptr) (l : list STerrainMapAreaSector) : SAreaData :=
  match p with
  | None => set_air d l
  | Some p => set_mobile d (alter (λ mt, with_sectors mt l) p.1 (mobileType d))
  end.

(** ** The closest sector *)

(** The first of the sectors with the least distance. *)
Definition nearest_step (d : SAreaData) (destination : AIFloat3) (s : option Z * float) (i : Z) : option (option Z * float) :=
  pos ← position_of d i;
  let sqDist := SqDistance2D pos destination in
  Some (if fltb sqDist s.2 then (Some i, sqDist) else s).
Definition nearest (d : SAreaData) (destination : AIFloat3) (sectors : gset Z) : option (option Z) :=
  s ← foldM (nearest_step d destination) (None, FLT_MAX) (ascending sectors);
  Some s.1.

Definition keep_closest (p : area_ptr) (dest : Z) (r : option Z) (d : SAreaData) : SAreaData :=
  set_mobile d (alter (λ mt, with_areas mt (alter (λ a,
    mkArea (areaUsable a) (area_sector a) (<[dest := r]> (sectorClosest a)) (percentOfMap a)) p.2 (area mt))) p.1 (mobileType d)).

Definition GetClosestSector (p : area_ptr) (destinationSIndex : Z) (d : SAreaData) : option (option Z * SAreaData) :=
  a ← get_area d p;
  match sectorClosest a !! destinationSIndex with
  | Some r => Some (r, d)
  | None =>
      sectors ← GetSectorList d (Some p);
      s ← sectors.[destinationSIndex];
      if decide (as_area s = Some p.2) then
        Some (Some destinationSIndex, keep_closest p destinationSIndex (Some destinationSIndex) d)
      else
        destination ← position_of d destinationSIndex;
        r ← nearest d destination (area_sector a);
        Some (r, keep_closest p destinationSIndex r d)
  end.

Definition keep_it_closest (k : nat) (dest : Z) (r : option Z) (d : SAreaData) : SAreaData :=
  set_immobile d (alter (λ it, mkIT (it_usable it) (it_sector it) (<[dest := r]> (it_closest it)) (it_minElevation it) (it_maxElevation it)
    (it_canHover it) (it_canFloat it) (it_udCount it)) k (immobileType d)).

Definition GetClosestSector_it (k : nat) (destinationSIndex : Z) (d : SAreaData) : option (option Z * SAreaData) :=
  it ← immobileType d !! k;
  match it_closest it !! destinationSIndex with
  | Some r => Some (r, d)
  | None =>
      if decide (destinationSIndex ∈ it_sector it) then
        Some (Some destinationSIndex, keep_it_closest k destinationSIndex (Some destinationSIndex) d)
      else
        destination ← position_of d destinationSIndex;
        r ← nearest d destination (it_sector it);
        Some (r, keep_it_closest k destinationSIndex r d)
  end.

(** ** The best sector of another type *)

Definition keep_alternative (p : option area_ptr) (i : Z) (m : nat) (r : option Z) (d : SAreaData) : option SAreaData :=
  sectors ← GetSectorList d p;
  s ← sectors.[i];
  sectors ← sectors.[i <- mkAreaSec (as_area s) (<[m := r]> (sectorAlternativeM s)) (sectorAlternativeI s)];
  Some (set_sector_list d p sectors).

(** [bestAS], [bestDistance], [bestMidDistance] and the data, with the caches. *)
Record Best : Type := mkBest { bestAS : option Z; bestDistance : float; bestMidDistance : float; b_data : SAreaData }.

(** One area of the destination's type. *)
Definition alternative_step (sourceArea : option area_ptr) (sourceSIndex : Z) (pos : AIFloat3) (m : nat) (s : Best) (j : nat) : option Best :=
  a ← get_area (b_data s) (m, j);
  usable ← (if areaUsable a then Some true else
              mt ← mobileType (b_data s) !! m;
              k ← areaLargest mt;
              largest ← area mt !! k;
              Some (negb (areaUsable largest)));
  if (usable : bool) then
    '(CAS, d) ← GetClosestSector (m, j) sourceSIndex (b_data s);
    c ← CAS;
    cpos ← position_of d c;
    '(midDistance, d) ← match sourceArea with
      | None => Some (f0, d)
      | Some p =>
          sectors ← GetSectorList d (Some p);
          ci ← GetSectorIndex cpos;
          t ← sectors.[ci];
          if decide (as_area t = Some p.2) then Some (f0, d)
          else '(r, d) ← GetClosestSector p ci d;
               r ← r;
               rpos ← position_of d r;
               Some (distance2D cpos rpos, d)
      end;
    let '(best, distance, mid) :=
      if fltb (bestMidDistance s) f0 || fltb midDistance (bestMidDistance s) then (None, fneg f1, midDistance)
      else (bestAS s, bestDistance s, bestMidDistance s) in
    if feqb midDistance mid then
      let newDistance := distance2D pos cpos in
      better ← match best with
        | None => Some true
        | Some b =>
            mt ← mobileType d !! m;
            t ← (mt_sector mt).[b];
            k ← as_area t;
            ba ← area mt !! k;
            Some (fltb (fmul newDistance (percentOfMap a)) (fmul distance (percentOfMap ba)))
        end;
      Some (if (better : bool) then mkBest (Some c) newDistance mid d else mkBest best distance mid d)
    else Some (mkBest best distance mid d)
  else Some s.

(** [destinationMT] is [None] for flying units; [fuel] bounds the recursion, see [alternative_terminates]. *)
Fixpoint GetAlternativeSector (fuel : nat) (sourceArea : option area_ptr) (sourceSIndex : Z) (destinationMT : option nat) (d : SAreaData) :
    option (option Z * SAreaData) :=
  match fuel with
  | O => None
  | S fuel =>
      sectors ← GetSectorList d sourceArea;
      s ← sectors.[sourceSIndex];
      match destinationMT with
      | None => Some (Some sourceSIndex, d)
      | Some m =>
          match sectorAlternativeM s !! m with
          | Some r => Some (r, d)
          | None =>
              if decide (is_Some sourceArea ∧ as_area s ≠ snd <$> sourceArea) then
                p ← sourceArea;
                '(r, d) ← GetClosestSector p sourceSIndex d;
                r ← r;
                pos ← position_of d r;
                i ← GetSectorIndex pos;
                GetAlternativeSector fuel sourceArea i destinationMT d
              else
                pos ← position_of d sourceSIndex;
                mt ← mobileType d !! m;
                b ← foldM (alternative_step sourceArea sourceSIndex pos m) (mkBest None (fneg f1) (fneg f1) d) (seq 0 (length (area mt)));
                d ← keep_alternative sourceArea sourceSIndex m (bestAS b) (b_data b);
                Some (bestAS b, d)
          end
      end
  end.

(** The sector of an area to build on; the immobile type is only the key of the answer. *)
Definition keep_alternative_it (p : option area_ptr) (i : Z) (k : nat) (r : option Z) (d : SAreaData) : option SAreaData :=
  sectors ← GetSectorList d p;
  s ← sectors.[i];
  sectors ← sectors.[i <- mkAreaSec (as_area s) (sectorAlternativeM s) (<[k := r]> (sectorAlternativeI s))];
  Some (set_sector_list d p sectors).

Fixpoint GetAlternativeSector_it (fuel : nat) (destinationArea : option area_ptr) (sourceSIndex : Z) (k : nat) (d : SAreaData) :
    option (option Z * SAreaData) :=
  match fuel with
  | O => None
  | S fuel =>
      sectors ← GetSectorList d destinationArea;
      s ← sectors.[sourceSIndex];
      match sectorAlternativeI s !! k with
      | Some r => Some (r, d)
      | None =>
          '(closestS, d) ← match destinationArea with
            | None => Some (None, d)
            | Some p =>
                if decide (as_area s ≠ Some p.2) then
                  '(r, d) ← GetClosestSector p sourceSIndex d;
                  r ← r;
                  pos ← position_of d r;
                  i ← GetSectorIndex pos;
                  GetAlternativeSector_it fuel destinationArea i k d
                else
                  pos ← position_of d sourceSIndex;
                  a ← get_area d p;
                  r ← nearest d pos (area_sector a);
                  Some (r, d)
            end;
          d ← keep_alternative_it destinationArea sourceSIndex k closestS d;
          Some (closestS, d)
      end
  end.

(** ** Questions of the managers *)

(** [sectorZSize], and the vector that says that there is no position ([-RgtVector]). *)
Context (sectorZSize : Z) (noPosition : AIFloat3).

Definition IsSectorValid (sIndex : Z) : bool := bool_decide (0 <= sIndex < sectorXSize * sectorZSize).

Definition GetCurrentMapArea (mobileId : Z) (position : AIFloat3) (d : SAreaData) : option (option area_ptr * bool * SAreaData) :=
  match GetMobileTypeById mobileId with
  | None => Some (None, true, d)
  | Some m =>
      iS ← GetSectorIndex position;
      mt ← mobileType d !! m;
      s ← (mt_sector mt).[iS];
      '(a, d) ← match as_area s with
        | Some a => Some (Some a, d)
        | None =>
            '(r, d) ← GetAlternativeSector 2 None iS (Some m) d;
            match r with
            | None => Some (None, d)
            | Some i => mt ← mobileType d !! m; t ← (mt_sector mt).[i]; Some (as_area t, d)
            end
        end;
      Some ((λ a, (m, a)) <$> a, bool_decide (is_Some a), d)
  end.

Definition CanMoveToPos (a : option area_ptr) (destination : AIFloat3) (d : SAreaData) : option bool :=
  iS ← GetSectorIndex destination;
  if IsSectorValid iS then
    match a with
    | None => Some true
    | Some p => sectors ← GetSectorList d a; s ← sectors.[iS]; Some (bool_decide (as_area s = Some p.2))
    end
  else Some false.

(** The area of a sector that was found for a type of movement. *)
Definition area_of (d : SAreaData) (m : nat) (i : Z) : option (option area_ptr) :=
  mt ← mobileType d !! m;
  t ← (mt_sector mt).[i];
  Some ((λ a, (m, a)) <$> as_area t).

Definition GetBuildPosition (mobileId immobileId : Z) (pos : AIFloat3) (d : SAreaData) : option (AIFloat3 * SAreaData) :=
  iS ← GetSectorIndex pos;
  match GetMobileTypeById mobileId, GetImmobileTypeById immobileId with
  | Some m, immobileType =>
      '(AS, d) ← GetAlternativeSector 2 None iS (Some m) d;
      AS ← AS;
      match immobileType with
      | Some k =>
          a ← area_of d m AS;
          '(r, d) ← GetAlternativeSector_it 2 a iS k d;
          match r with
          | None => Some (noPosition, d)
          | Some r => p ← position_of d r; Some (p, d)
          end
      | None => p ← position_of d AS; Some (p, d)
      end
  | None, Some k =>
      '(r, d) ← GetClosestSector_it k iS d;
      r ← r;
      p ← position_of d r;
      Some (p, d)
  | None, None => Some (pos, d)
  end.

Definition GetMovePosition (sourceArea : option area_ptr) (pos : AIFloat3) (d : SAreaData) : option (AIFloat3 * SAreaData) :=
  iS ← GetSectorIndex pos;
  match sourceArea with
  | None => Some (pos, d)
  | Some p => '(r, d) ← GetClosestSector p iS d; r ← r; q ← position_of d r; Some (q, d)
  end.

Definition CanBeBuiltAt (mobileId immobileId : Z) (pos : AIFloat3) (range : float) (d : SAreaData) : option (bool * SAreaData) :=
  iS ← GetSectorIndex pos;
  '(found, d) ← match GetMobileTypeById mobileId, GetImmobileTypeById immobileId with
    | Some m, immobileType =>
        '(AS, d) ← GetAlternativeSector 2 None iS (Some m) d;
        match AS, immobileType with
        | None, _ => Some (Some None, d)
        | Some AS, Some k =>
            a ← area_of d m AS;
            '(r, d) ← GetAlternativeSector_it 2 a iS k d;
            Some (Some r, d)
        | Some AS, None => Some (Some (Some AS), d)
        end
    | None, Some k => '(r, d) ← GetClosestSector_it k iS d; Some (Some r, d)
    | None, None => Some (None, d)
    end;
  match found with
  | None => Some (true, d)                      (* flying units *)
  | Some None => Some (false, d)
  | Some (Some r) =>
      if decide (r = iS) then Some (true, d) else
      p ← position_of d r;
      q ← position_of d iS;
      Some (fltb (distance2D p q) range, d)
  end.

Definition CanMobileReachAt (a : option area_ptr) (destination : AIFloat3) (range : float) (d : SAreaData) : option (bool * SAreaData) :=
  match a with
  | None => Some (true, d)
  | Some p =>
      iS ← GetSectorIndex destination;
      ar ← get_area d p;
      if decide (iS ∈ area_sector ar) then Some (true, d)
      else '(r, d) ← GetClosestSector p iS d; r ← r; q ← position_of d r; Some (fltb (distance2D q destination) range, d)
  end.

(** [immobileId], position and area are those of the unit. *)
Definition CanReachAt (immobileId : Z) (unitPos : AIFloat3) (a : option area_ptr) (destination : AIFloat3) (range : float) (d : SAreaData) :
    option (bool * SAreaData) :=
  if decide (immobileId ≠ -1) then Some (fltb (distance2D unitPos destination) range, d)
  else CanMobileReachAt a destination range d.

End queries.
