(* ===== verification/AreaQueries.v ===== *)
(** * AreaQueries: answers from the caches are the right ones

    Theory of [TerrainQueries].  The closest sector and the best alternative are defined once more
    without any cache; a query on data whose caches are right gives that answer, changes nothing but
    caches, and leaves them right.  The update of the areas, however, keeps the answers for units
    without an area. *)

From Stdlib Require Import SpecFloat.
From stdpp Require Import gmap.
From S2P Require Import Prelude Float32 EnemyUnit SectorGrid TerrainAreas AreaTheory AreaMarks TerrainData TerrainUpdate TerrainInit TerrainQueries.

Local Open Scope circuit_scope.

(** ** Data without the caches *)

Definition bare_sector (s : STerrainMapAreaSector) : STerrainMapAreaSector := mkAreaSec (as_area s) ∅ ∅.
Definition bare_area (a : STerrainMapArea) : STerrainMapArea := mkArea (areaUsable a) (area_sector a) ∅ (percentOfMap a).
Definition bare_mt (mt : STerrainMapMobileType) : STerrainMapMobileType :=
  with_areas (with_sectors mt (bare_sector <$> mt_sector mt)) (bare_area <$> area mt).
Definition bare_it (it : STerrainMapImmobileType) : STerrainMapImmobileType :=
  mkIT (it_usable it) (it_sector it) ∅ (it_minElevation it) (it_maxElevation it) (it_canHover it) (it_canFloat it) (it_udCount it).
Definition bare (d : SAreaData) : SAreaData :=
  set_air (set_immobile (set_mobile d (bare_mt <$> mobileType d)) (bare_it <$> immobileType d)) (bare_sector <$> sectorAirType d).

Lemma fmap_alter_same {A B} (f : A → B) (g : A → A) n (l : list A) : (∀ x, f (g x) = f x) → f <$> alter g n l = f <$> l.
Proof.
  intros Hfg. apply list_eq. intros i. rewrite !list_lookup_fmap. destruct (decide (n = i)) as [->|Hne].
  - rewrite list_lookup_alter_eq. by destruct (l !! i); simpl; [rewrite Hfg|].
  - by rewrite list_lookup_alter_ne.
Qed.

Section queries.
Context {E : Engine}.
Context (w stoP : Z).

Lemma bare_keep_closest p i r d : bare (keep_closest p i r d) = bare d.
Proof.
  unfold bare, keep_closest, set_air, set_immobile, set_mobile. cbn. f_equal. apply fmap_alter_same.
  intros mt. unfold bare_mt, with_areas, with_sectors. cbn. f_equal. by apply fmap_alter_same.
Qed.

(** ** The closest sector, without a cache *)

Definition closest_value (d : SAreaData) (p : area_ptr) (i : Z) : option (option Z) :=
  a ← get_area d p;
  mt ← mobileType d !! p.1;
  s ← (mt_sector mt).[i];
  if decide (as_area s = Some p.2) then Some (Some i)
  else destination ← position_of d i; nearest d destination (area_sector a).

Lemma get_area_bare d p : get_area (bare d) p = bare_area <$> get_area d p.
Proof.
  unfold get_area. cbn. rewrite list_lookup_fmap. destruct (mobileType d !! p.1) as [mt|]; [|done]. cbn.
  by rewrite list_lookup_fmap.
Qed.

Lemma closest_value_bare d p i : closest_value (bare d) p i = closest_value d p i.
Proof.
  unfold closest_value. rewrite get_area_bare. destruct (get_area d p) as [a|]; [|done]. cbn [fmap option_fmap option_map mbind option_bind].
  cbn [mobileType bare set_air set_immobile set_mobile]. rewrite list_lookup_fmap. destruct (mobileType d !! p.1) as [mt|]; [|done].
  cbn [fmap option_fmap option_map mbind option_bind]. cbn [mt_sector bare_mt with_areas with_sectors]. rewrite zget_fmap.
  destruct (mt_sector mt).[i]; done.
Qed.

Lemma closest_value_same d d' p i : bare d' = bare d → closest_value d' p i = closest_value d p i.
Proof. intros Hb. by rewrite <-closest_value_bare, Hb, closest_value_bare. Qed.

(** Every answer that is kept is the right one. *)
Definition closest_right (d : SAreaData) : Prop :=
  ∀ p a i r, get_area d p = Some a → sectorClosest a !! i = Some r → closest_value d p i = Some r.

Lemma get_area_keep p q i r d :
  get_area (keep_closest p i r d) q =
    if decide (p = q) then (λ a, mkArea (areaUsable a) (area_sector a) (<[i := r]> (sectorClosest a)) (percentOfMap a)) <$> get_area d q
    else get_area d q.
Proof.
  unfold get_area, keep_closest. cbn. destruct p as [pm pa], q as [qm qa]. cbn. destruct (decide (pm = qm)) as [->|Hm].
  - rewrite list_lookup_alter_eq. destruct (mobileType d !! qm) as [mt|]; [|by case_decide]. cbn.
    destruct (decide (pa = qa)) as [->|Ha].
    + by rewrite list_lookup_alter_eq, decide_True.
    + rewrite list_lookup_alter_ne, decide_False by congruence. done.
  - rewrite list_lookup_alter_ne, decide_False by congruence. done.
Qed.

Lemma keep_closest_right p i r d : closest_right d → closest_value d p i = Some r → closest_right (keep_closest p i r d).
Proof.
  intros Hd Hr q a j r' Hq Hj. rewrite (closest_value_same d) by apply bare_keep_closest. rewrite get_area_keep in Hq.
  destruct (decide (p = q)) as [->|Hne]; [|by eapply Hd].
  destruct (get_area d q) as [a0|] eqn:Ha; [|done]. injection Hq as <-. cbn in Hj.
  apply lookup_insert_Some in Hj as [[<- <-]|[_ Hj]]; [done|by eapply Hd].
Qed.

(** With right caches the query answers the same. *)
Lemma closest_transparent d p i :
  closest_right d →
  match closest_value d p i with
  | Some r => ∃ d', GetClosestSector p i d = Some (r, d') ∧ bare d' = bare d ∧ closest_right d' ∧ sectorAirType d' = sectorAirType d
  | None => GetClosestSector p i d = None
  end.
Proof.
  intros Hd. unfold GetClosestSector. destruct (get_area d p) as [a|] eqn:Ha; [|unfold closest_value; by rewrite Ha].
  cbn [mbind option_bind]. destruct (sectorClosest a !! i) as [r|] eqn:Hr.
  { rewrite (Hd p a i r Ha Hr). by exists d. }
  destruct (closest_value d p i) as [r|] eqn:Hv; unfold closest_value in Hv; rewrite Ha in Hv; cbn [mbind option_bind] in Hv.
  - assert (closest_value d p i = Some r) as Hv' by (unfold closest_value; by rewrite Ha).
    unfold GetSectorList. destruct (mobileType d !! p.1) as [mt|]; [|done]. cbn [mbind option_bind] in *.
    destruct (mt_sector mt).[i] as [s|]; [|done]. cbn [mbind option_bind] in *. destruct (decide (as_area s = Some p.2)).
    + injection Hv as <-. eexists. split; [done|]. split; [apply bare_keep_closest|]. split; [by apply keep_closest_right|done].
    + destruct (position_of d i) as [pos|]; [|done]. cbn [mbind option_bind] in *. rewrite Hv. cbn [mbind option_bind].
      eexists. split; [done|]. split; [apply bare_keep_closest|]. split; [by apply keep_closest_right|done].
  - unfold GetSectorList. destruct (mobileType d !! p.1) as [mt|]; [|done]. cbn [mbind option_bind] in *.
    destruct (mt_sector mt).[i] as [s|]; [|done]. cbn [mbind option_bind] in *. destruct (decide (as_area s = Some p.2)); [done|].
    destruct (position_of d i) as [pos|]; [|done]. cbn [mbind option_bind] in *. by rewrite Hv.
Qed.

(** ** The closest sector is the nearest one *)

(** Distances that a [float] can tell from "nothing found yet". *)
Definition all_near (d : SAreaData) : bool :=
  forallb (λ s, forallb (λ t, fltb (SqDistance2D (position s) (position t)) FLT_MAX) (sector d)) (sector d).

Lemma all_near_spec d i j pi pj :
  all_near d = true → position_of d i = Some pi → position_of d j = Some pj → fltb (SqDistance2D pi pj) FLT_MAX = true.
Proof.
  unfold all_near, position_of. intros Hn Hi Hj. destruct ((sector d).[i]) as [s|] eqn:Hs; [|done]. destruct ((sector d).[j]) as [t|] eqn:Ht; [|done].
  injection Hi as <-. injection Hj as <-. rewrite forallb_forall in Hn.
  assert (∀ k u, (sector d).[k] = Some u → In u (sector d)) as Hin.
  { intros k u. unfold zget. case_decide; [|done]. intros Hu. apply list_elem_of_In. by eapply list_elem_of_lookup_2. }
  specialize (Hn s (Hin _ _ Hs)). rewrite forallb_forall in Hn. by apply Hn, (Hin j).
Qed.

Lemma nearest_sector_ok d dest X :
  X ≠ ∅ → (∀ i, i ∈ X → ∃ pos, position_of d i = Some pos ∧ fltb (SqDistance2D pos dest) FLT_MAX = true) →
  ∃ r pr, nearest d dest X = Some (Some r) ∧ r ∈ X ∧ position_of d r = Some pr ∧
    ∀ j pj, j ∈ X → position_of d j = Some pj → fltb (SqDistance2D pj dest) (SqDistance2D pr dest) = false.
Proof.
  intros HX Hnear. unfold nearest.
  destruct (foldM_ind (λ pre s, match s.1 with
      | None => pre = [] ∧ s.2 = FLT_MAX
      | Some i => i ∈ pre ∧ ∃ pos, position_of d i = Some pos ∧ s.2 = SqDistance2D pos dest ∧
          ∀ j pj, j ∈ pre → position_of d j = Some pj → fltb (SqDistance2D pj dest) (SqDistance2D pos dest) = false
      end) (nearest_step d dest) (ascending X) (None, FLT_MAX)) as (s & -> & HI); [done| |].
  - intros pre a post s Hpre HI. destruct (Hnear a) as (pa & Hpa & Hlt).
    { rewrite <-elem_of_ascending, Hpre. apply elem_of_app. right. by left. }
    unfold nearest_step. rewrite Hpa. cbn [mbind option_bind]. destruct (fltb (SqDistance2D pa dest) s.2) eqn:Hf; eexists; (split; [reflexivity|]).
    + cbn [fst]. split; [apply elem_of_app; right; by left|]. exists pa. split; [done|]. split; [done|]. intros j pj.
      intros [Hj| ->%list_elem_of_singleton]%elem_of_app Hpj; [|replace pj with pa by congruence; apply fltb_irrefl].
      destruct s.1 as [b|]; [|destruct HI as [-> _]; by apply not_elem_of_nil in Hj]. destruct HI as (_ & pos & Hpos & Hs2 & Hall).
      destruct (fltb (SqDistance2D pj dest) (SqDistance2D pa dest)) eqn:Hc; [|done]. rewrite <-(Hall j pj Hj Hpj). symmetry.
      rewrite Hs2 in Hf. by eapply fltb_trans.
    + destruct s.1 as [b|] eqn:Hs1; [|destruct HI as [_ Hs2]; by rewrite Hs2, Hlt in Hf]. destruct HI as (Hb & pos & Hpos & Hs2 & Hall).
      split; [apply elem_of_app; by left|]. exists pos. split; [done|]. split; [done|]. intros j pj.
      intros [Hj| ->%list_elem_of_singleton]%elem_of_app Hpj; [by eapply Hall|]. replace pj with pa by congruence. by rewrite Hs2 in Hf.
  - cbn [mbind option_bind]. destruct s.1 as [r|].
    + destruct HI as (Hr & pos & Hpos & _ & Hall). exists r, pos. split; [done|]. split; [by apply elem_of_ascending|]. split; [done|].
      intros j pj Hj. apply Hall. by apply elem_of_ascending.
    + destruct HI as [Hnil _]. exfalso. apply HX. apply set_eq. intros i. rewrite <-elem_of_ascending, Hnil, elem_of_nil. set_solver.
Qed.

Section closest.
Context (harmful void : bool) (h : Z) (d : SAreaData).
Hypothesis Hd : data_ok harmful void w h stoP d.
Hypothesis Hnear : all_near d = true.

Lemma area_known p a :
  get_area d p = Some a → ∃ mt, mobileType d !! p.1 = Some mt ∧ area mt !! p.2 = Some a ∧ mobile_ok harmful void w h (sector d) mt ∧
    area_sector a ≠ ∅ ∧ ∀ i, i ∈ area_sector a → 0 <= i < w * h.
Proof.
  unfold get_area. intros Ha. destruct (mobileType d !! p.1) as [mt|] eqn:Hmt; [|done]. exists mt.
  pose proof (do_mobile _ _ _ _ _ _ Hd) as Hm. rewrite Forall_forall in Hm. pose proof (Hm mt (list_elem_of_lookup_2 _ _ _ Hmt)) as Hok.
  pose proof (as_component _ _ _ _ (mo_areas _ _ _ _ _ _ Hok)) as Hc. rewrite Forall_forall in Hc.
  assert (area_sector a ∈ area_sector <$> area mt) as Hin by (apply list_elem_of_fmap; exists a; split; [done|by eapply list_elem_of_lookup_2]).
  split_and!; try done.
  - destruct (component_nonempty _ _ _ (Hc _ Hin)) as [s Hs]. intros He. rewrite He in Hs. by apply not_elem_of_empty in Hs.
  - intros i Hi. apply (component_subseteq _ _ _ (Hc _ Hin)), elem_of_passable_set in Hi. by destruct Hi.
Qed.

Lemma position_known i : 0 <= i < w * h → ∃ pos, position_of d i = Some pos.
Proof.
  intros Hi. unfold position_of. destruct (zget_is_Some (sector d) i) as [s ->]; [by rewrite (do_sectors _ _ _ _ _ _ Hd)|]. by eexists.
Qed.

Lemma closest_value_spec p a i dest :
  get_area d p = Some a → 0 <= i < w * h → position_of d i = Some dest →
  ∃ r, closest_value d p i = Some (Some r) ∧ r ∈ area_sector a ∧ (i ∈ area_sector a → r = i) ∧
    (i ∉ area_sector a → ∃ pr, position_of d r = Some pr ∧
      ∀ j pj, j ∈ area_sector a → position_of d j = Some pj → fltb (SqDistance2D pj dest) (SqDistance2D pr dest) = false).
Proof.
  intros Ha Hi Hdest. destruct (area_known p a Ha) as (mt & Hmt & Hma & Hok & Hne & Hin).
  destruct (zget_is_Some (mt_sector mt) i) as [s Hs]; [by rewrite (mo_sector _ _ _ _ _ _ Hok)|].
  assert (as_area s = Some p.2 ↔ i ∈ area_sector a) as Hmark.
  { rewrite (mo_marked _ _ _ _ _ _ Hok i s p.2 Hs). split; [|eauto]. intros (b & Hb & Hib). by replace a with b by congruence. }
  unfold closest_value. rewrite Ha, Hmt. cbn [mbind option_bind]. rewrite Hs. cbn [mbind option_bind].
  destruct (decide (as_area s = Some p.2)) as [He|He].
  - exists i. apply Hmark in He. split_and!; done.
  - rewrite Hdest. cbn [mbind option_bind]. rewrite Hmark in He. destruct (nearest_sector_ok d dest (area_sector a)) as (r & pr & -> & Hr & Hpr & Hall); [done| |].
    { intros j Hj. destruct (position_known j (Hin j Hj)) as [pj Hpj]. exists pj. split; [done|]. by eapply all_near_spec. }
    exists r. split; [done|]. split; [done|]. split; [done|]. intros _. by exists pr.
Qed.
End closest.

(** ** The best alternative for a unit without an area, without a cache *)

Context (distance2D : AIFloat3 → AIFloat3 → float).

Definition usable_area (d : SAreaData) (m : nat) (a : STerrainMapArea) : option bool :=
  if areaUsable a then Some true
  else mt ← mobileType d !! m; k ← areaLargest mt; largest ← area mt !! k; Some (negb (areaUsable largest)).

(** The share of the map of the area that a sector belongs to. *)
Definition share_of (d : SAreaData) (m : nat) (i : Z) : option float :=
  mt ← mobileType d !! m; t ← (mt_sector mt).[i]; k ← as_area t; a ← area mt !! k; Some (percentOfMap a).

Definition pick_step (d : SAreaData) (i : Z) (pos : AIFloat3) (m : nat) (best : option (Z * float)) (j : nat) : option (option (Z * float)) :=
  a ← get_area d (m, j);
  usable ← usable_area d m a;
  if (usable : bool) then
    c ← closest_value d (m, j) i;
    c ← c;
    cpos ← position_of d c;
    let distance := distance2D pos cpos in
    better ← match best with
      | None => Some true
      | Some (b, bd) => share ← share_of d m b; Some (fltb (fmul distance (percentOfMap a)) (fmul bd share))
      end;
    Some (if (better : bool) then Some (c, distance) else best)
  else Some best.

Definition alternative_value (d : SAreaData) (i : Z) (m : nat) : option (option Z) :=
  pos ← position_of d i;
  mt ← mobileType d !! m;
  best ← foldM (pick_step d i pos m) None (seq 0 (length (area mt)));
  Some (from_option (λ b, Some b.1) None best).

Lemma lookup_bare_mt d m : mobileType (bare d) !! m = bare_mt <$> mobileType d !! m.
Proof. cbn. apply list_lookup_fmap. Qed.

Lemma position_of_bare d i : position_of (bare d) i = position_of d i.
Proof. done. Qed.

Lemma usable_area_bare d m a : usable_area (bare d) m (bare_area a) = usable_area d m a.
Proof.
  unfold usable_area. cbn [areaUsable bare_area]. rewrite lookup_bare_mt. destruct (areaUsable a); [done|].
  destruct (mobileType d !! m) as [mt|]; [|done]. cbn [fmap option_fmap option_map mbind option_bind]. cbn [areaLargest bare_mt with_areas with_sectors].
  destruct (areaLargest mt) as [k|]; [|done]. cbn [mbind option_bind area bare_mt with_areas with_sectors]. rewrite list_lookup_fmap.
  by destruct (area mt !! k).
Qed.

Lemma share_of_bare d m i : share_of (bare d) m i = share_of d m i.
Proof.
  unfold share_of. rewrite lookup_bare_mt. destruct (mobileType d !! m) as [mt|]; [|done].
  cbn [fmap option_fmap option_map mbind option_bind area mt_sector bare_mt with_areas with_sectors]. rewrite zget_fmap.
  destruct (mt_sector mt).[i] as [t|]; [|done]. cbn [fmap option_fmap option_map mbind option_bind as_area bare_sector].
  destruct (as_area t) as [k|]; [|done]. cbn [mbind option_bind]. rewrite list_lookup_fmap. by destruct (area mt !! k).
Qed.

Lemma pick_step_bare d i pos m best j : pick_step (bare d) i pos m best j = pick_step d i pos m best j.
Proof.
  unfold pick_step. rewrite get_area_bare, closest_value_bare. destruct (get_area d (m, j)) as [a|]; [|done].
  cbn [fmap option_fmap option_map mbind option_bind]. rewrite usable_area_bare. destruct (usable_area d m a) as [[]|]; [|done..].
  cbn [mbind option_bind]. destruct (closest_value d (m, j) i) as [[c|]|]; [|done..]. cbn [mbind option_bind]. rewrite position_of_bare.
  destruct (position_of d c); [|done]. cbn [mbind option_bind percentOfMap bare_area]. destruct best as [[b bd]|]; [|done]. by rewrite share_of_bare.
Qed.

Lemma foldM_ext {S A} (f g : S → A → option S) s l : (∀ s a, f s a = g s a) → foldM f s l = foldM g s l.
Proof. intros Hfg. revert s. induction l as [|a l IH]; intros s; simpl; [done|]. rewrite Hfg. destruct (g s a); simpl; auto. Qed.

Lemma alternative_value_bare d i m : alternative_value (bare d) i m = alternative_value d i m.
Proof.
  unfold alternative_value. rewrite position_of_bare, lookup_bare_mt. destruct (position_of d i) as [pos|]; [|done].
  destruct (mobileType d !! m) as [mt|]; [|done]. cbn [fmap option_fmap option_map mbind option_bind].
  cbn [area bare_mt with_areas with_sectors]. rewrite length_fmap. by rewrite (foldM_ext _ _ _ _ (pick_step_bare d i pos m)).
Qed.

Lemma alternative_value_same d d' i m : bare d' = bare d → alternative_value d' i m = alternative_value d i m.
Proof. intros Hb. by rewrite <-alternative_value_bare, Hb, alternative_value_bare. Qed.

(** The answers that are kept for units without an area. *)
Definition air_right (d : SAreaData) : Prop :=
  ∀ i s m r, (sectorAirType d).[i] = Some s → sectorAlternativeM s !! m = Some r → alternative_value d i m = Some r.

(** The loop of the query follows the one without caches. *)
Definition follows (d : SAreaData) (s : Best) (best : option (Z * float)) : Prop :=
  bestAS s = from_option (λ b, Some b.1) None best ∧
  match best with None => bestMidDistance s = fneg f1 | Some (_, bd) => bestDistance s = bd ∧ bestMidDistance s = f0 end ∧
  bare (b_data s) = bare d ∧ closest_right (b_data s) ∧ sectorAirType (b_data s) = sectorAirType d.

Lemma alternative_step_follows d i pos m s best j :
  follows d s best →
  match pick_step d i pos m best j with
  | Some best' => ∃ s', alternative_step distance2D w stoP None i pos m s j = Some s' ∧ follows d s' best'
  | None => alternative_step distance2D w stoP None i pos m s j = None
  end.
Proof.
  intros (H1 & H2 & H3 & H4 & H5). rewrite <-pick_step_bare, <-H3, pick_step_bare. unfold pick_step, alternative_step.
  destruct (get_area (b_data s) (m, j)) as [a|]; [|done]. cbn [mbind option_bind]. fold (usable_area (b_data s) m a).
  destruct (usable_area (b_data s) m a) as [[]|]; cbn [mbind option_bind]; [|by exists s|done].
  pose proof (closest_transparent (b_data s) (m, j) i H4) as Hc.
  destruct (closest_value (b_data s) (m, j) i) as [c|]; [|by rewrite Hc]. destruct Hc as (d' & -> & Hb & Hr & Hair). cbn [mbind option_bind].
  destruct c as [c|]; [|done]. cbn [mbind option_bind]. rewrite <-(position_of_bare (b_data s)), <-Hb, position_of_bare.
  destruct (position_of d' c) as [cpos|]; [|done]. cbn [mbind option_bind].
  assert (∀ b, share_of d' m b = share_of (b_data s) m b) as Hshare by (intros b; by rewrite <-share_of_bare, Hb, share_of_bare).
  assert (∀ r bd, follows d (mkBest (Some r) bd f0 d') (Some (r, bd))) as Hnew by (intros r bd; split_and!; cbn; done || congruence).
  destruct best as [[b bd]|]; cbn [from_option fst] in H1.
  - destruct H2 as [H2 ->]. change (fltb f0 f0) with false. cbn [orb]. cbv beta iota. rewrite H1, H2.
    change (feqb f0 f0) with true. cbv beta iota. rewrite <-Hshare. unfold share_of.
    destruct (mobileType d' !! m) as [mt|]; [|done]. cbn [mbind option_bind]. destruct ((mt_sector mt).[b]) as [t|]; [|done]. cbn [mbind option_bind].
    destruct (as_area t) as [k|]; [|done]. cbn [mbind option_bind]. destruct (area mt !! k) as [ba|]; [|done]. cbn [mbind option_bind].
    destruct (fltb _ _); eexists; (split; [reflexivity|apply Hnew]).
  - rewrite H2. change (fltb (fneg f1) f0) with true. cbn [orb]. cbv beta iota. change (feqb f0 f0) with true. cbv beta iota.
    cbn [mbind option_bind]. eexists. split; [reflexivity|apply Hnew].
Qed.

Lemma bare_set_air d i s x sectors :
  (sectorAirType d).[i] = Some s → (sectorAirType d).[i <- x] = Some sectors → bare_sector x = bare_sector s → bare (set_air d sectors) = bare d.
Proof.
  intros Hs Hset Hx. unfold bare, set_air, set_immobile, set_mobile. cbn. f_equal. apply zget_ext.
  - unfold zlen. rewrite !length_fmap. apply zlen_zset in Hset. unfold zlen in Hset. lia.
  - intros j. rewrite !zget_fmap, (zget_zset _ _ _ _ j Hset). case_decide as Hj; [|done]. subst j. rewrite Hs. simpl. by rewrite Hx.
Qed.

Lemma alternative_transparent d i m s :
  closest_right d → air_right d → (sectorAirType d).[i] = Some s →
  match alternative_value d i m with
  | Some r => ∃ d', GetAlternativeSector distance2D w stoP 2 None i (Some m) d = Some (r, d') ∧ bare d' = bare d ∧ closest_right d' ∧ air_right d'
  | None => GetAlternativeSector distance2D w stoP 2 None i (Some m) d = None
  end.
Proof.
  intros Hc Hair Hs. cbn [GetAlternativeSector GetSectorList mbind option_bind]. rewrite Hs. cbn [mbind option_bind].
  destruct (sectorAlternativeM s !! m) as [r|] eqn:Hr.
  { rewrite (Hair i s m r Hs Hr). by exists d. }
  rewrite decide_False by (intros [[? ?] _]; done). unfold alternative_value. destruct (position_of d i) as [pos|] eqn:Hpos; [|done].
  destruct (mobileType d !! m) as [mt|] eqn:Hmt; [|done]. cbn [mbind option_bind].
  assert (∀ l s best, follows d s best → match foldM (pick_step d i pos m) best l with
    | Some best' => ∃ s', foldM (alternative_step distance2D w stoP None i pos m) s l = Some s' ∧ follows d s' best'
    | None => foldM (alternative_step distance2D w stoP None i pos m) s l = None end) as Hfold.
  { intros l. induction l as [|j l IH]; intros b best Hb; simpl; [eauto|]. pose proof (alternative_step_follows d i pos m b best j Hb) as Hstep.
    destruct (pick_step d i pos m best j) as [best'|]; [|by rewrite Hstep]. destruct Hstep as (b' & -> & Hb'). simpl. by apply IH. }
  specialize (Hfold (seq 0 (length (area mt))) (mkBest None (fneg f1) (fneg f1) d) None). destruct (foldM (pick_step d i pos m) None _) as [best|] eqn:Hbest.
  2:{ rewrite Hfold; [done|]. by split_and!. }
  cbn [mbind option_bind]. destruct Hfold as (b & -> & H1 & _ & H3 & H4 & H5); [by split_and!|]. cbn [mbind option_bind].
  unfold keep_alternative. cbn [GetSectorList mbind option_bind]. rewrite H5, Hs. cbn [mbind option_bind]. pose proof (zget_Some_bound _ _ _ Hs) as Hi.
  set (x := mkAreaSec _ _ _).
  assert ((sectorAirType d).[i <- x] = Some (<[Z.to_nat i := x]> (sectorAirType d))) as Hset by (apply zset_Some; lia).
  rewrite Hset. cbn [mbind option_bind]. rewrite <-H1. eexists. split; [reflexivity|]. cbn [set_sector_list].
  assert (bare (set_air (b_data b) (<[Z.to_nat i := x]> (sectorAirType d))) = bare d) as Hb.
  { rewrite <-H3. eapply bare_set_air; rewrite ?H5; done. }
  split; [exact Hb|]. split.
  - intros p a j r Ha Hj. rewrite (closest_value_same (b_data b)); [by apply (H4 p a j r)|]. by rewrite Hb, H3.
  - intros j t m' r Ht Hm'. rewrite (alternative_value_same d) by done. cbn [sectorAirType set_air] in Ht.
    rewrite (zget_zset _ _ _ _ j Hset) in Ht. destruct (decide (i = j)) as [<-|Hne]; [|by eapply Hair].
    injection Ht as <-. cbn in Hm'. apply lookup_insert_Some in Hm' as [[<- <-]|[_ Hm']]; [|by eapply Hair].
    unfold alternative_value. rewrite Hpos, Hmt. cbn [mbind option_bind]. rewrite Hbest. cbn [mbind option_bind]. by rewrite H1.
Qed.

(** ** There is an alternative *)

Section alternative.
Context (harmful void : bool) (h : Z) (d : SAreaData).
Hypothesis Hd : data_ok harmful void w h stoP d.
Hypothesis Hnear : all_near d = true.
Context (i : Z) (m : nat) (mt : STerrainMapMobileType).
Hypothesis Hi : 0 <= i < w * h.
Hypothesis Hmt : mobileType d !! m = Some mt.
Hypothesis Hsome : area mt ≠ [].

Lemma type_ok : mobile_ok harmful void w h (sector d) mt.
Proof. pose proof (do_mobile _ _ _ _ _ _ Hd) as Hm. rewrite Forall_forall in Hm. apply Hm. by eapply list_elem_of_lookup_2. Qed.

Lemma share_known k a c : area mt !! k = Some a → c ∈ area_sector a → share_of d m c = Some (percentOfMap a).
Proof.
  intros Ha Hc. assert (get_area d (m, k) = Some a) as Hga by (unfold get_area; cbn; by rewrite Hmt).
  destruct (area_known harmful void h d Hd (m, k) a Hga) as (_ & _ & _ & _ & _ & Hin).
  destruct (zget_is_Some (mt_sector mt) c) as [t Ht]; [rewrite (mo_sector _ _ _ _ _ _ type_ok); by apply Hin|].
  unfold share_of. rewrite Hmt. cbn [mbind option_bind]. rewrite Ht. cbn [mbind option_bind].
  rewrite (proj2 (mo_marked _ _ _ _ _ _ type_ok c t k Ht)) by eauto. cbn [mbind option_bind]. by rewrite Ha.
Qed.

Lemma alternative_found :
  ∃ c k a, alternative_value d i m = Some (Some c) ∧ area mt !! k = Some a ∧ c ∈ area_sector a.
Proof.
  pose proof (mo_largest _ _ _ _ _ _ type_ok) as Hl. destruct (areaLargest mt) as [kl|] eqn:Hkl; [|done]. destruct Hl as (largest & Hlk & _).
  destruct (position_known harmful void h d Hd i Hi) as [pos Hpos].
  assert (∀ a, usable_area d m a = Some (areaUsable a || negb (areaUsable largest))) as Hus.
  { intros a. unfold usable_area. destruct (areaUsable a); [done|]. rewrite Hmt. cbn [mbind option_bind]. rewrite Hkl. cbn [mbind option_bind].
    rewrite Hlk. done. }
  unfold alternative_value. rewrite Hpos, Hmt. cbn [mbind option_bind].
  destruct (foldM_ind (λ pre best, match best with
      | None => ∀ j a, j ∈ pre → area mt !! j = Some a → areaUsable a || negb (areaUsable largest) = false
      | Some (b, _) => ∃ k a, area mt !! k = Some a ∧ b ∈ area_sector a
      end) (pick_step d i pos m) (seq 0 (length (area mt))) None) as (best & -> & HI).
  - by intros j a ?%not_elem_of_nil.
  - intros pre j post best Hpre HI. assert (j ∈ seq 0 (length (area mt))) as Hj by (rewrite Hpre; apply elem_of_app; right; by left).
    apply elem_of_seq in Hj. destruct (lookup_lt_is_Some_2 (area mt) j) as [a Ha]; [lia|].
    assert (get_area d (m, j) = Some a) as Hga by (unfold get_area; cbn; by rewrite Hmt).
    unfold pick_step. rewrite Hga. cbn [mbind option_bind]. rewrite Hus. cbn [mbind option_bind].
    destruct (areaUsable a || negb (areaUsable largest)) eqn:Hu.
    + destruct (closest_value_spec harmful void h d Hd Hnear (m, j) a i pos Hga Hi Hpos) as (c & -> & Hc & _). cbn [mbind option_bind].
      destruct (area_known harmful void h d Hd (m, j) a Hga) as (_ & _ & _ & _ & _ & Hin).
      destruct (position_known harmful void h d Hd c (Hin c Hc)) as [cpos ->]. cbn [mbind option_bind].
      destruct best as [[b bd]|].
      * destruct HI as (k & ka & Hk & Hb). rewrite (share_known k ka b Hk Hb). cbn [mbind option_bind].
        destruct (fltb _ _); eexists; (split; [reflexivity|]); cbn; [by exists j, a|by exists k, ka].
      * cbn [mbind option_bind]. eexists. split; [reflexivity|]. cbn. by exists j, a.
    + exists best. split; [done|]. destruct best as [[b bd]|]; [done|]. intros k b [Hk| ->%list_elem_of_singleton]%elem_of_app Hb; [by eapply HI|].
      by replace b with a by congruence.
  - cbn [mbind option_bind]. destruct best as [[b bd]|].
    + destruct HI as (k & a & Hk & Hb). exists b, k, a. by cbn.
    + exfalso. assert (kl ∈ seq 0 (length (area mt))) as Hin by (apply elem_of_seq; apply lookup_lt_Some in Hlk; lia).
      specialize (HI kl largest Hin Hlk). by destruct (areaUsable largest).
Qed.
End alternative.
End queries.

(** The closest sector of an area: on analysed data, with right answers in the caches, the query always returns a sector of the area: the asked one if it belongs to the area, and else one to which no sector of the area is nearer; it changes nothing but caches and leaves them right. *)
Theorem GetClosestSector_nearest `{E : Engine} harmful void w h stoP d p a i dest :
  data_ok harmful void w h stoP d → all_near d = true → closest_right d →
  get_area d p = Some a → 0 <= i < w * h → position_of d i = Some dest →
  ∃ r d', GetClosestSector p i d = Some (Some r, d') ∧ r ∈ area_sector a ∧ (i ∈ area_sector a → r = i) ∧
    (i ∉ area_sector a → ∃ pr, position_of d r = Some pr ∧
      ∀ j pj, j ∈ area_sector a → position_of d j = Some pj → fltb (SqDistance2D pj dest) (SqDistance2D pr dest) = false) ∧
    bare d' = bare d ∧ closest_right d'.
Proof.
  intros Hd Hnear Hc Ha Hi Hdest. destruct (closest_value_spec w stoP harmful void h d Hd Hnear p a i dest Ha Hi Hdest) as (r & Hr & H1 & H2 & H3).
  pose proof (closest_transparent d p i Hc) as Ht. rewrite Hr in Ht. destruct Ht as (d' & Hq & Hb & Hc' & _). exists r, d'. by split_and!.
Qed.

(** The caches of the best alternative are transparent: for a unit without an area the query with its caches (those of the unit's sector, of the areas and those that other queries have filled) answers exactly what the computation without any cache answers, is undefined exactly when that is, changes nothing but caches and leaves all of them right. *)
Theorem GetAlternativeSector_cached `{E : Engine} distance2D w stoP d i m s :
  closest_right d → air_right distance2D d → (sectorAirType d).[i] = Some s →
  match alternative_value distance2D d i m with
  | Some r => ∃ d', GetAlternativeSector distance2D w stoP 2 None i (Some m) d = Some (r, d') ∧ bare d' = bare d ∧
      closest_right d' ∧ air_right distance2D d'
  | None => GetAlternativeSector distance2D w stoP 2 None i (Some m) d = None
  end.
Proof. apply alternative_transparent. Qed.

(** On analysed data every position on the map has an area for a type of movement that has any: if the sector belongs to an area it is that one, and else the query for an alternative succeeds and its sector belongs to an existing area; only caches change. *)
Theorem GetCurrentMapArea_finds `{E : Engine} distance2D harmful void w h stoP d id mt pos i :
  data_ok harmful void w h stoP d → all_near d = true → closest_right d → air_right distance2D d → zlen (sectorAirType d) = w * h →
  0 <= id → mobileType d !! Z.to_nat id = Some mt → area mt ≠ [] → GetSectorIndex w stoP pos = Some i → 0 <= i < w * h →
  ∃ k a d', GetCurrentMapArea distance2D w stoP id pos d = Some (Some (Z.to_nat id, k), true, d') ∧
    area mt !! k = Some a ∧ (∀ j b, area mt !! j = Some b → i ∈ area_sector b → j = k) ∧ bare d' = bare d.
Proof.
  intros Hd Hnear Hc Hair Hlen Hid Hmt Hne Hpos Hi. pose proof (type_ok _ _ _ _ _ _ Hd _ _ Hmt) as Hok.
  unfold GetCurrentMapArea, GetMobileTypeById. rewrite decide_False by lia. rewrite Hpos. cbn [mbind option_bind]. rewrite Hmt. cbn [mbind option_bind].
  destruct (zget_is_Some (mt_sector mt) i) as [s Hs]; [by rewrite (mo_sector _ _ _ _ _ _ Hok)|]. rewrite Hs. cbn [mbind option_bind].
  pose proof (mo_marked _ _ _ _ _ _ Hok i s) as Hmark. destruct (as_area s) as [k|] eqn:Hk.
  - destruct (proj1 (Hmark k Hs) eq_refl) as (a & Ha & Hia). exists k, a, d. cbn [mbind option_bind]. split; [done|]. split; [done|]. split; [|done].
    intros j b Hb Hib. assert (Some k = Some j) as [= ->]; [|done]. apply (Hmark j Hs). eauto.
  - destruct (alternative_found w stoP distance2D harmful void h d Hd Hnear i (Z.to_nat id) mt Hi Hmt Hne) as (c & k & a & Hv & Ha & Hca).
    destruct (zget_is_Some (sectorAirType d) i) as [t Ht]; [by rewrite Hlen|].
    pose proof (alternative_transparent w stoP distance2D d i (Z.to_nat id) t Hc Hair Ht) as Hq. rewrite Hv in Hq.
    destruct Hq as (d' & -> & Hb & _). cbn [mbind option_bind].
    assert (∃ u, (mt' ← mobileType d' !! Z.to_nat id; (mt_sector mt').[c]) = Some u ∧ as_area u = Some k) as (u & Hu & Huk).
    { assert (get_area d (Z.to_nat id, k) = Some a) as Hga by (unfold get_area; cbn; by rewrite Hmt).
      destruct (area_known w stoP harmful void h d Hd (Z.to_nat id, k) a Hga) as (_ & _ & _ & _ & _ & Hin).
      destruct (zget_is_Some (mt_sector mt) c) as [v Hvc]; [rewrite (mo_sector _ _ _ _ _ _ Hok); by apply Hin|].
      pose proof (proj2 (mo_marked _ _ _ _ _ _ Hok c v k Hvc) ltac:(eauto)) as Hvk.
      assert (bare_mt <$> mobileType d' !! Z.to_nat id = Some (bare_mt mt)) as Hbm by (by rewrite <-lookup_bare_mt, Hb, lookup_bare_mt, Hmt).
      destruct (mobileType d' !! Z.to_nat id) as [mt'|]; [|done]. cbn [mbind option_bind]. apply (inj Some) in Hbm.
      assert (bare_sector <$> (mt_sector mt').[c] = Some (bare_sector v)) as Hbs.
      { rewrite <-zget_fmap. change (bare_sector <$> mt_sector mt') with (mt_sector (bare_mt mt')). rewrite Hbm.
        cbn [mt_sector bare_mt with_areas with_sectors]. by rewrite zget_fmap, Hvc. }
      destruct ((mt_sector mt').[c]) as [u|]; [|done]. exists u. split; [done|]. apply (inj Some), (f_equal as_area) in Hbs. by rewrite <-Hvk. }
    destruct (mobileType d' !! Z.to_nat id) as [mt'|]; [|done]. cbn [mbind option_bind] in *. rewrite Hu. cbn [mbind option_bind].
    exists k, a, d'. rewrite Huk. cbn. split; [done|]. split; [done|]. split; [|done].
    intros j b Hbj Hib. assert (None = Some j); [|done]. apply (Hmark j Hs). eauto.
Qed.

(** ** On the small map *)

Definition demo_dist (a b : AIFloat3) : float := fsqrt (@SqDistance2D example_engine a b).
Definition demo_data : SAreaData :=
  from_option areaData0 (mkAreaData [] [] [] [] f0 f0 f0 [])
    (Init (E := example_engine) f0 32 32 (λ _ _, f0) demo_slopes demo_heights [demo_tank; demo_tower]).

(** What the theorems ask of the data holds after the analysis. *)
Lemma demo_data_ok : data_ok false false 8 8 32 demo_data.
Proof.
  destruct (Init_ok (E := example_engine) f0 32 32 (λ _ _, f0) demo_slopes demo_heights [demo_tank; demo_tower])
    as (td & Htd & Hok & _); [exact (demo_grid (E := example_engine) eq_refl)|vm_compute; reflexivity|vm_compute; reflexivity|].
  pose proof (to_data _ Hok) as Hd. unfold demo_data. rewrite Htd. cbn [from_option].
  assert (pAreaData td = Data0 ∧ waterIsHarmful td = false ∧ waterIsAVoid td = false ∧ sectorXSize td = 8 ∧ sectorZSize td = 8 ∧ convertStoP td = 32)
    as (E1 & E2 & E3 & E4 & E5 & E6).
  { assert ((λ td, (pAreaData td, waterIsHarmful td, waterIsAVoid td, sectorXSize td, sectorZSize td, convertStoP td)) <$>
      Init (E := example_engine) f0 32 32 (λ _ _, f0) demo_slopes demo_heights [demo_tank; demo_tower] = Some (Data0, false, false, 8, 8, 32)) as H
      by (vm_compute; reflexivity).
    rewrite Htd in H. clear -H. cbn in H. injection H as -> -> -> -> -> ->. repeat split. }
  rewrite E1, E2, E3, E4, E5, E6 in Hd. exact Hd.
Qed.

Definition no_answers (d : SAreaData) : bool :=
  forallb (λ mt, forallb (λ a, bool_decide (sectorClosest a = ∅)) (area mt)) (mobileType d) &&
  forallb (λ s, bool_decide (sectorAlternativeM s = ∅)) (sectorAirType d).

Lemma no_answers_right `{E : Engine} distance2D d : no_answers d = true → closest_right d ∧ air_right distance2D d.
Proof.
  unfold no_answers. rewrite andb_true_iff, !forallb_forall. intros [Hm Ha]. split.
  - intros p a i r Hga Hr. unfold get_area in Hga. destruct (mobileType d !! p.1) as [mt|] eqn:Hmt; [|done]. cbn in Hga.
    apply list_elem_of_lookup_2, list_elem_of_In in Hmt. specialize (Hm mt Hmt). rewrite forallb_forall in Hm.
    apply list_elem_of_lookup_2, list_elem_of_In in Hga. specialize (Hm a Hga). apply bool_decide_eq_true_1 in Hm. by rewrite Hm in Hr.
  - intros i s m r Hs Hr. unfold zget in Hs. case_decide; [|done]. apply list_elem_of_lookup_2, list_elem_of_In in Hs.
    specialize (Ha s Hs). apply bool_decide_eq_true_1 in Ha. by rewrite Ha in Hr.
Qed.

Lemma demo_answers : closest_right (E := example_engine) demo_data ∧ air_right (E := example_engine) demo_dist demo_data.
Proof. apply no_answers_right. vm_compute. reflexivity. Qed.

Lemma GetClosestSector_nearest_witness :
  ∃ a dest r d', get_area demo_data (0, 0)%nat = Some a ∧ position_of demo_data 0 = Some dest ∧
    GetClosestSector (E := example_engine) (0, 0)%nat 0 demo_data = Some (Some r, d') ∧ r ∈ area_sector a.
Proof.
  assert (is_Some (get_area demo_data (0, 0)%nat)) as [a Ha] by (vm_compute; eexists; reflexivity).
  assert (is_Some (position_of demo_data 0)) as [dest Hdest] by (vm_compute; eexists; reflexivity).
  destruct (GetClosestSector_nearest (E := example_engine) false false 8 8 32 demo_data (0, 0)%nat a 0 dest) as (r & d' & Hr & Hin & _).
  - exact demo_data_ok.
  - vm_compute. reflexivity.
  - exact (proj1 demo_answers).
  - exact Ha.
  - lia.
  - exact Hdest.
  - exists a, dest, r, d'. split_and!; [exact Ha|exact Hdest|exact Hr|exact Hin].
Defined.

Lemma GetAlternativeSector_cached_witness :
  ∃ r d', alternative_value (E := example_engine) demo_dist demo_data 0 0 = Some r ∧
    GetAlternativeSector (E := example_engine) demo_dist 8 32 2 None 0 (Some 0%nat) demo_data = Some (r, d').
Proof.
  assert (is_Some ((sectorAirType demo_data).[0])) as [s Hs] by (vm_compute; eexists; reflexivity).
  pose proof (GetAlternativeSector_cached (E := example_engine) demo_dist 8 32 demo_data 0 0 s (proj1 demo_answers) (proj2 demo_answers) Hs) as H.
  assert (is_Some (alternative_value (E := example_engine) demo_dist demo_data 0 0)) as [r Hr] by (vm_compute; eexists; reflexivity).
  rewrite Hr in H. destruct H as (d' & Hq & _). exists r, d'. split; [exact Hr|exact Hq].
Defined.

(** A tank in the water of the west. *)
Definition demo_wet : AIFloat3 := F3 (f_of_Z 16) (f_of_Z (-30)) (f_of_Z 16).

Lemma GetCurrentMapArea_finds_witness :
  ∃ k d', GetCurrentMapArea (E := example_engine) demo_dist 8 32 0 demo_wet demo_data = Some (Some (0%nat, k), true, d').
Proof.
  assert (is_Some (mobileType demo_data !! 0%nat)) as [mt Hmt] by (vm_compute; eexists; reflexivity).
  destruct (GetCurrentMapArea_finds (E := example_engine) demo_dist false false 8 8 32 demo_data 0 mt demo_wet 0) as (k & a & d' & Hq & _).
  - exact demo_data_ok.
  - vm_compute. reflexivity.
  - exact (proj1 demo_answers).
  - exact (proj2 demo_answers).
  - vm_compute. reflexivity.
  - lia.
  - exact Hmt.
  - intros Hnil. assert (length <$> (area <$> mobileType demo_data !! 0%nat) = Some 2%nat) as H by (vm_compute; reflexivity).
    rewrite Hmt in H. cbn in H. rewrite Hnil in H. discriminate.
  - vm_compute. reflexivity.
  - lia.
  - exists k, d'. exact Hq.
Defined.

(** ** Answers that outlive an update *)

Lemma update_keeps_air `{E : Engine} harmful void w h stoP slopes p d d' :
  update_area_data harmful void w h stoP slopes p d = Some d' → sectorAirType d' = sectorAirType d.
Proof.
  unfold update_area_data. destruct (zfor 0 h _ _) as [[a changed]|]; [|done]. cbn [mbind option_bind].
  destruct (zip_withM _ _ _); [|done]. cbn [mbind option_bind]. by intros [= <-].
Qed.

(** The tank asks in the water, the first buffer keeps the answer; the land where the answer lies is flooded,
    and after two updates the first buffer is published again: the query answers the flooded sector, which
    belongs to no area, and the tank has no area, although the computation without caches finds one. *)
Example stale_alternative :
  (td ← Init (E := example_engine) f0 32 32 (λ _ _, f0) demo_slopes demo_heights [demo_tank; demo_tower];
   '(_, _, d) ← GetCurrentMapArea (E := example_engine) demo_dist 8 32 0 demo_wet (areaData0 td);
   td ← UpdateAreas (E := example_engine) (EnqueueUpdate demo_flooded demo_slopes (set_area_data Data0 d td));
   td ← UpdateAreas (E := example_engine) (EnqueueUpdate demo_flooded demo_slopes (publish_areas td));
   let d := areaData0 (publish_areas td) in
   '(a, found, _) ← GetCurrentMapArea (E := example_engine) demo_dist 8 32 0 demo_wet d;
   '(b, found', _) ← GetCurrentMapArea (E := example_engine) demo_dist 8 32 0 demo_wet (bare d);
   Some (a, found, b, found')) = Some (None, false, Some (0%nat, 0%nat), true).
Proof. vm_compute. reflexivity. Qed.
