(* ===== verification/LineWalk.v ===== *)
(** * LineWalk: the line drawing of the path queries

    [CMicroPather::RefinePath] ([terrain/path/MicroPather.cpp], the lambda [IsStraightLine]) and
    [CQueryLineMap::IsSafeLine] ([terrain/path/QueryLineMap.cpp]) walk from one cell to another
    with the same incremental loop, Bresenham's for all octants, and test every cell they enter.
    This file has the loop once, with the test as an argument, and proves that the cells it enters
    are those of the ideal line, rounded. *)

From S2P Require Import Prelude.

Section draw.
(** The test of a cell: [None] when it is undefined, [true] when the walk goes on. *)
Context (ok : Z → Z → option bool).

(** The [for] loop; [dy] is not positive, [err] is the error value. *)
Fixpoint draw (fuel : nat) (dx dy sx sy x1 y1 x y err : Z) : option bool :=
  match fuel with
  | O => None
  | S fuel =>
      let e2 := 2 * err in
      if decide (e2 >= dy ∧ x = x1) then Some true else
      let '(err', x') := if decide (e2 >= dy) then (err + dy, x + sx) else (err, x) in
      if decide (e2 <= dx ∧ y = y1) then Some true else
      let '(err', y') := if decide (e2 <= dx) then (err' + dx, y + sy) else (err', y) in
      good ← ok x' y';
      if (good : bool) then draw fuel dx dy sx sy x1 y1 x' y' err' else Some false
  end.

(** The line from [(x0, y0)] to [(x1, y1)]: one iteration per cell, and one that leaves the loop. *)
Definition line (x0 y0 x1 y1 : Z) : option bool :=
  let dx := Z.abs (x1 - x0) in
  let sx := if decide (x0 < x1) then 1 else -1 in
  let dy := - Z.abs (y1 - y0) in
  let sy := if decide (y0 < y1) then 1 else -1 in
  draw (S (Z.to_nat (Z.max dx (- dy)))) dx dy sx sy x1 y1 x0 y0 (dx + dy).

(** ** The ideal line *)

(** The cells are tested in order, up to the first that fails. *)
Fixpoint all_ok (l : list (Z * Z)) : option bool :=
  match l with
  | [] => Some true
  | (x, y) :: l => good ← ok x y; if (good : bool) then all_ok l else Some false
  end.
End draw.

(** [k * m / n] rounded to the nearest integer, halves up. *)
Definition nearest (k m n : Z) : Z := (2 * k * m + n) / (2 * n).

(** Cell [k] of the line: on each axis the rounded share of the way. *)
Definition line_cell (x0 y0 x1 y1 k : Z) : Z * Z :=
  let dx := Z.abs (x1 - x0) in
  let dy := Z.abs (y1 - y0) in
  let n := Z.max dx dy in
  (x0 + Z.sgn (x1 - x0) * nearest k dx n, y0 + Z.sgn (y1 - y0) * nearest k dy n).

Definition line_cells (x0 y0 x1 y1 : Z) : list (Z * Z) :=
  line_cell x0 y0 x1 y1 <$> seqZ 1 (Z.max (Z.abs (x1 - x0)) (Z.abs (y1 - y0))).

Lemma nearest_spec k m n : 0 < n → 2 * n * nearest k m n <= 2 * k * m + n < 2 * n * (nearest k m n + 1).
Proof. intros Hn. unfold nearest. pose proof (Z.div_mod (2 * k * m + n) (2 * n)). pose proof (Z.mod_pos_bound (2 * k * m + n) (2 * n)). nia. Qed.

Lemma nearest_eq k m n v : 0 < n → 2 * n * v <= 2 * k * m + n < 2 * n * (v + 1) → nearest k m n = v.
Proof. intros Hn Hv. pose proof (nearest_spec k m n Hn). nia. Qed.

Lemma nearest_range k m n : 0 <= k <= n → 0 < n → 0 <= m → 0 <= nearest k m n <= m.
Proof. intros Hk Hn Hm. pose proof (nearest_spec k m n Hn). set (v := nearest k m n) in *. nia. Qed.

Lemma nearest_full k n : 0 < n → nearest k n n = k.
Proof. intros Hn. apply nearest_eq; nia. Qed.

Lemma nearest_end m n : 0 < n → nearest n m n = m.
Proof. intros Hn. apply nearest_eq; nia. Qed.

(** The share grows by at most one with every step, and does so when the error says so. *)
Lemma nearest_next k m n : 0 < n → 0 <= m <= n →
  nearest (k + 1) m n = (if decide ((2 * nearest k m n + 1) * n <= 2 * (k + 1) * m) then nearest k m n + 1 else nearest k m n).
Proof.
  intros Hn Hm. pose proof (nearest_spec k m n Hn). set (v := nearest k m n) in *.
  case_decide; apply nearest_eq; nia.
Qed.

Section line.
Context (ok : Z → Z → option bool).
Context (x0 y0 x1 y1 : Z).

Abbreviation D := (Z.abs (x1 - x0)).
Abbreviation E := (Z.abs (y1 - y0)).
Abbreviation n := (Z.max D E).
Abbreviation sx := (if decide (x0 < x1) then 1 else -1).
Abbreviation sy := (if decide (y0 < y1) then 1 else -1).

Lemma step_sgn u v d : 0 <= d <= Z.abs (v - u) → Z.sgn (v - u) * d = (if decide (u < v) then 1 else -1) * d.
Proof. intros Hd. case_decide; [rewrite Z.sgn_pos by lia; lia|]. destruct (decide (u = v)) as [->|]; [lia|]. rewrite Z.sgn_neg by lia. lia. Qed.

(** Both axes: the step is taken exactly when the rounded share grows. *)
Lemma both_steps k a b :
  0 < n → 0 <= k → a = nearest k D n → b = nearest k E n →
  let e2 := 2 * ((b + 1) * D - (a + 1) * E) in
  (k < n → nearest (k + 1) D n = (if decide (e2 >= - E) then a + 1 else a) ∧
           nearest (k + 1) E n = (if decide (e2 <= D) then b + 1 else b) ∧
           ¬ (e2 >= - E ∧ a = D) ∧ ¬ (e2 <= D ∧ b = E)) ∧
  (k = n → (e2 >= - E ∧ a = D) ∨ (e2 <= D ∧ b = E)).
Proof.
  intros Hn Hk Ha Hb. cbv zeta.
  pose proof (nearest_spec k D n Hn) as HsD. rewrite <-Ha in HsD. pose proof (nearest_spec k E n Hn) as HsE. rewrite <-Hb in HsE.
  rewrite (nearest_next k D n Hn ltac:(lia)), (nearest_next k E n Hn ltac:(lia)), <-Ha, <-Hb.
  destruct (Z.le_ge_cases E D) as [Hle|Hle].
  - replace n with D in * by lia. rewrite nearest_full in Ha by lia. subst a. split.
    + intros Hkn. split_and!; repeat case_decide; try nia; try lia.
    + intros ->. left. nia.
  - replace n with E in * by lia. rewrite nearest_full in Hb by lia. subst b. split.
    + intros Hkn. split_and!; repeat case_decide; try nia; try lia.
    + intros ->. rewrite nearest_end in Ha by lia. subst a. nia.
Qed.

Lemma draw_cells k fuel :
  0 < n → 0 <= k <= n → (Z.to_nat (n - k) < fuel)%nat →
  draw ok fuel D (- E) sx sy x1 y1 (x0 + sx * nearest k D n) (y0 + sy * nearest k E n)
    ((nearest k E n + 1) * D - (nearest k D n + 1) * E) =
  all_ok ok (line_cell x0 y0 x1 y1 <$> seqZ (k + 1) (n - k)).
Proof.
  intros Hn. revert k. induction fuel as [|fuel IH]; intros k Hk Hf; [lia|].
  destruct (both_steps k _ _ Hn ltac:(lia) eq_refl eq_refl) as [Hstep Hend].
  set (a := nearest k D n) in *. set (b := nearest k E n) in *.
  assert (0 <= a <= D) as Hab by (apply nearest_range; lia). assert (0 <= b <= E) as Hbb by (apply nearest_range; lia).
  assert (x0 + sx * a = x1 ↔ a = D) as Hxe by (clear - Hab; case_decide; lia).
  assert (y0 + sy * b = y1 ↔ b = E) as Hye by (clear - Hbb; case_decide; lia).
  rewrite <-Hxe, <-Hye in Hend. rewrite <-Hxe, <-Hye in Hstep. simpl draw. destruct (decide (k = n)) as [->|Hkn].
  - rewrite Z.sub_diag. simpl all_ok. specialize (Hend eq_refl). decide_goal as [_|Hx]; [done|].
    destruct (decide (2 * ((b + 1) * D - (a + 1) * E) >= - E)); rewrite decide_True by tauto; done.
  - destruct (Hstep ltac:(lia)) as (Ha & Hb & Hxn & Hyn). rewrite decide_False by done.
    rewrite seqZ_cons by lia. replace (Z.succ (k + 1)) with (k + 1 + 1) by lia.
    replace (Z.pred (n - k)) with (n - (k + 1)) by lia. cbn [fmap list_fmap all_ok].
    assert (line_cell x0 y0 x1 y1 (k + 1) = (x0 + sx * nearest (k + 1) D n, y0 + sy * nearest (k + 1) E n)) as ->.
    { unfold line_cell. f_equal; f_equal; apply step_sgn, nearest_range; lia. }
    rewrite <-(IH (k + 1)) by lia. rewrite Ha, Hb.
    replace (x0 + sx * a + sx) with (x0 + sx * (a + 1)) by ring. replace (y0 + sy * b + sy) with (y0 + sy * (b + 1)) by ring.
    repeat (case_decide; try tauto); destruct (ok _ _) as [[]|]; try done; cbn [mbind option_bind]; f_equal; ring.
Qed.

(** The loop ends, enters the cells of the ideal line in order, and answers whether all of them pass. *)
Lemma line_ideal : line ok x0 y0 x1 y1 = all_ok ok (line_cells x0 y0 x1 y1).
Proof.
  unfold line, line_cells. destruct (decide (n = 0)) as [H0|H0].
  - rewrite H0. assert (x1 = x0) as -> by lia. assert (y1 = y0) as -> by lia. rewrite !Z.sub_diag. simpl.
    rewrite decide_True by lia. done.
  - rewrite Z.opp_involutive. transitivity (all_ok ok (line_cell x0 y0 x1 y1 <$> seqZ (0 + 1) (n - 0))).
    2:{ by rewrite Z.sub_0_r. }
    rewrite <-(draw_cells 0 (S (Z.to_nat n))) by lia.
    assert (∀ m, 0 <= m <= n → nearest 0 m n = 0) as Hz by (intros; apply nearest_eq; lia).
    rewrite !Hz by lia. f_equal; ring.
Qed.
End line.

(** The line ends in its end cell. *)
Lemma line_cells_last x0 y0 x1 y1 : (x0, y0) ≠ (x1, y1) → last (line_cells x0 y0 x1 y1) = Some (x1, y1).
Proof.
  intros Hne. unfold line_cells. set (n := Z.max _ _).
  assert (0 < n) as Hn by (destruct (decide (x0 = x1)), (decide (y0 = y1)); subst; [done|lia..]).
  replace n with ((n - 1) + 1) by lia. rewrite seqZ_app, fmap_app, last_app by lia. simpl.
  f_equal. unfold line_cell. cbv zeta. fold n. replace (1 + (n - 1)) with n by lia. rewrite !nearest_end by done. f_equal; lia.
Qed.

(** Every cell of the line lies in the rectangle of its end points. *)
Lemma line_cells_box x0 y0 x1 y1 x y :
  (x, y) ∈ line_cells x0 y0 x1 y1 →
  Z.min x0 x1 <= x <= Z.max x0 x1 ∧ Z.min y0 y1 <= y <= Z.max y0 y1.
Proof.
  unfold line_cells. set (n := Z.max _ _). intros (k & [= -> ->] & Hk%elem_of_seqZ)%list_elem_of_fmap. fold n.
  assert (0 < n) as Hn by lia.
  assert (∀ u v, Z.abs (v - u) <= n → Z.min u v <= u + Z.sgn (v - u) * nearest k (Z.abs (v - u)) n <= Z.max u v) as H.
  { intros u v Hm. pose proof (nearest_range k (Z.abs (v - u)) n ltac:(lia) Hn ltac:(lia)).
    rewrite step_sgn by done. case_decide; lia. }
  split; apply H; lia.
Qed.

(** Two consecutive cells of the walk, the start included, are neighbours. *)
Lemma line_cells_adjacent x0 y0 x1 y1 k :
  let n := Z.max (Z.abs (x1 - x0)) (Z.abs (y1 - y0)) in
  0 <= k < n →
  let c := line_cell x0 y0 x1 y1 k in
  let d := line_cell x0 y0 x1 y1 (k + 1) in
  Z.max (Z.abs (d.1 - c.1)) (Z.abs (d.2 - c.2)) = 1.
Proof.
  cbv zeta. intros Hk. set (n := Z.max _ _) in *. unfold line_cell. fold n. simpl fst. simpl snd. assert (0 < n) as Hn by lia.
  rewrite (nearest_next k (Z.abs (x1 - x0)) n), (nearest_next k (Z.abs (y1 - y0)) n) by lia.
  pose proof (nearest_spec k (Z.abs (x1 - x0)) n Hn). pose proof (nearest_spec k (Z.abs (y1 - y0)) n Hn).
  destruct (Z.le_ge_cases (Z.abs (y1 - y0)) (Z.abs (x1 - x0))).
  - replace n with (Z.abs (x1 - x0)) in * by lia. rewrite nearest_full in * by lia. rewrite decide_True by nia. case_decide; lia.
  - replace n with (Z.abs (y1 - y0)) in * by lia. rewrite (nearest_full _ (Z.abs (y1 - y0))) in * by lia.
    rewrite (decide_True (P := (2 * k + 1) * _ <= _)) by nia. case_decide; lia.
Qed.

Lemma all_ok_true ok l : all_ok ok l = Some true ↔ Forall (λ c, ok c.1 c.2 = Some true) l.
Proof.
  induction l as [|[x y] l IH]; simpl; [done|]. rewrite Forall_cons, <-IH. simpl.
  destruct (ok x y) as [[]|]; cbn [mbind option_bind]; intuition congruence.
Qed.

Lemma all_ok_total ok l : (∀ x y, (x, y) ∈ l → ∃ b, ok x y = Some b) → ∃ b, all_ok ok l = Some b.
Proof.
  induction l as [|[x y] l IH]; simpl; intros H; [by exists true|].
  destruct (H x y) as [[] ->]; [by left| |by exists false]. cbn [mbind option_bind]. apply IH. intros. apply H. by right.
Qed.
