(* ===== verification/PathGraph.v ===== *)
(** * PathGraph: positions, cells and nodes of the path finder

    The conversions of [src/src/circuit/terrain/path/PathFinder.cpp] between positions, cells of the
    path map (no border), cells of the move map (a border of one cell), node indices of the move map
    and indices of the path map, and [CTerrainData::CorrectPosition]
    ([src/src/circuit/terrain/TerrainData.cpp]), which every position goes through first. *)

From Stdlib Require Import SpecFloat.
From S2P Require Import Prelude Float32 FloatRound FloatDiv EnemyUnit.

Local Open Scope circuit_scope.

(** The sizes of a [CPathFinder]: [terrainData->convertStoP], [sectorXSize], [sectorZSize] and the two
    move map sizes derived from them. *)
Record PathGraph : Type := mkGraph {
  squareSize : Z;
  moveMapXSize : Z;
  moveMapYSize : Z;
  pathMapXSize : Z;
  pathMapYSize : Z
}.

Definition new_graph (convertStoP sectorXSize sectorZSize : Z) : PathGraph :=
  mkGraph convertStoP (sectorXSize + 2) (sectorZSize + 2) sectorXSize sectorZSize.

Section conversions.
Context (g : PathGraph).

(** Nodes are [void*] made of [intptr_t]; they are read back as [size_t]. *)
Definition u64 (z : Z) : Z := z `mod` 2 ^ 64.

Definition MoveXY2MoveNode (x y : Z) : Z := y * moveMapXSize g + x.
Definition MoveNode2MoveXY (node : Z) : Z * Z :=
  let y := Z.quot node (moveMapXSize g) in
  (node - y * moveMapXSize g, y).

(** The arithmetic is that of [size_t]. *)
Definition MoveNode2Pos (node : Z) : AIFloat3 :=
  let z := Z.quot node (moveMapXSize g) in
  let half := Z.quot (squareSize g) 2 in
  F3 (f_of_Z (u64 ((node - z * moveMapXSize g - 1) * squareSize g + half))) f0
     (f_of_Z (u64 ((z - 1) * squareSize g + half))).

(** [int(pos.z / squareSize + 1)]: the one is added before the truncation ... *)
Definition pos_cell1 (v : float) : option Z := f_to_int (fadd (fdiv v (f_of_Z (squareSize g))) f1).
Definition Pos2MoveNode (pos : AIFloat3) : option Z :=
  z ← pos_cell1 (pz pos);
  x ← pos_cell1 (px pos);
  Some (z * moveMapXSize g + x).

(** ... and [int(pos.x / squareSize) + 1]: here after it. *)
Definition pos_cell (v : float) : option Z := f_to_int (fdiv v (f_of_Z (squareSize g))).
Definition Pos2MoveXY (pos : AIFloat3) : option (Z * Z) :=
  x ← pos_cell (px pos);
  y ← pos_cell (pz pos);
  Some (x + 1, y + 1).
Definition Pos2PathXY (pos : AIFloat3) : option (Z * Z) :=
  x ← pos_cell (px pos);
  y ← pos_cell (pz pos);
  Some (x, y).

Definition PathXY2PathIndex (x y : Z) : Z := y * pathMapXSize g + x.
Definition PathIndex2PathXY (index : Z) : Z * Z :=
  let y := Z.quot index (pathMapXSize g) in
  (index - y * pathMapXSize g, y).
Definition PathIndex2MoveXY (index : Z) : Z * Z :=
  let ty := Z.quot index (pathMapXSize g) in
  (index - ty * pathMapXSize g + 1, ty + 1).

(** The height is not set here. *)
Definition PathIndex2Pos (index : Z) : AIFloat3 :=
  let z := Z.quot index (pathMapXSize g) in
  let half := Z.quot (squareSize g) 2 in
  F3 (f_of_Z ((index - z * pathMapXSize g) * squareSize g + half)) f0 (f_of_Z (z * squareSize g + half)).

Definition IsInPathMap (x y : Z) : bool :=
  (0 <=? x) && (x <=? pathMapXSize g - 1) && ((0 <=? y) && (y <=? pathMapYSize g - 1)).
Definition IsInPathMap_radius (x y radius : Z) : bool :=
  (radius <=? x) && (x <=? pathMapXSize g - 1 - radius) && ((radius <=? y) && (y <=? pathMapYSize g - 1 - radius)).
End conversions.

(** [CTerrainData::CorrectPosition(AIFloat3&)]; the comparisons and the subtraction are in [float]. *)
Definition correct_axis (v maxpos : float) : float :=
  if fltb v f1 then f1
  else let m := fsub maxpos (f_of_Z 2) in if fgtb v m then m else v.
Definition CorrectPosition {E : Engine} (p : AIFloat3) : AIFloat3 :=
  F3 (correct_axis (px p) maxxpos) (py p) (correct_axis (pz p) maxzpos).

(** ** What the conversions guarantee *)

Lemma numf_costf x : numf x = true → fltb x f1 = false → costf x = true ∧ 2 ^ 149 <= fval x.
Proof.
  intros Hn Hlt. assert (costf x = true) as Hc.
  { destruct x as [s|[]| |[] m e]; try done. }
  split; [done|]. rewrite fltb_val in Hlt by done. change (fval f1) with (2 ^ 149) in Hlt. lia.
Qed.

Section axis.
Context (m : float).
Hypothesis Hm : costf m = true.
Hypothesis Hm3 : 3 * 2 ^ 149 <= fval m < 2 ^ 277.

Lemma fsub_two : costf (fsub m (f_of_Z 2)) = true ∧ 2 ^ 149 <= fval (fsub m (f_of_Z 2)) <= fval m.
Proof.
  destruct (fsub_val m (f_of_Z 2) Hm ltac:(done)) as [Hc Hv]; [by apply costf_finite; [|lia]|change (fval (f_of_Z 2)) with (2 * 2 ^ 149); lia|].
  split; [done|]. rewrite Hv. change (fval (f_of_Z 2)) with (2 * 2 ^ 149).
  pose proof (rnd_mono (1 * 2 ^ 149) (fval m - 2 * 2 ^ 149) ltac:(lia)) as H1. rewrite rnd_exact in H1 by lia.
  pose proof (rnd_mono (fval m - 2 * 2 ^ 149) (fval m) ltac:(lia)) as H2. rewrite (rnd_fval m Hm) in H2. lia.
Qed.

(** A corrected coordinate lies between 1 and two less than the map's size, infinities included. *)
Lemma correct_axis_ok v :
  numf v = true → costf (correct_axis v m) = true ∧ 2 ^ 149 <= fval (correct_axis v m) <= fval (fsub m (f_of_Z 2)).
Proof.
  intros Hv. destruct fsub_two as [Hc Hb]. unfold correct_axis.
  destruct (fltb v f1) eqn:H1; [change (fval f1) with (2 ^ 149); split; [done|lia]|].
  destruct (numf_costf v Hv H1) as [Hcv Hlow]. unfold fgtb. change (SFltb (fsub m (f_of_Z 2)) v) with (fltb (fsub m (f_of_Z 2)) v).
  destruct (fltb _ v) eqn:H2; [split; [done|lia]|]. rewrite fltb_val in H2 by done. split; [done|lia].
Qed.
End axis.

Section cells.
Context (g : PathGraph).
Hypothesis Hsq : 0 < squareSize g < 2 ^ 24.

Abbreviation sq := (squareSize g).

Lemma sq_val : costf (f_of_Z sq) = true ∧ fval (f_of_Z sq) = sq * 2 ^ 149 ∧ 0 < fval (f_of_Z sq) < 2 ^ 277.
Proof.
  destruct (f_of_Z_val sq ltac:(lia)) as [Hc Hv]. pose proof (small_val _ sq ltac:(lia) Hv). split_and!; try done. lia.
Qed.

(** The quotient between two fractions with a denominator of two. *)
Lemma fdiv_between v a b :
  costf v = true → fval v < 2 ^ 277 → 0 <= a <= b → b < 2 ^ 24 →
  a * sq * 2 ^ 149 <= 2 * fval v <= b * sq * 2 ^ 149 →
  costf (fdiv v (f_of_Z sq)) = true ∧ a * 2 ^ 148 <= fval (fdiv v (f_of_Z sq)) <= b * 2 ^ 148.
Proof.
  intros Hc Hf Hab Hb Hv. destruct sq_val as (Hsc & Hsv & Hsf).
  destruct (dyadic a 1 ltac:(lia) ltac:(lia)) as (ca & Hca & Hva & Hfa). destruct (dyadic b 1 ltac:(lia) ltac:(lia)) as (cb & Hcb & Hvb & Hfb).
  replace (149 - 1) with 148 in * by lia. split; [by apply fdiv_costf|].
  destruct (fdiv_cases v (f_of_Z sq) Hc Hsc Hf Hsf ca Hca Hfa) as [Hge _].
  destruct (fdiv_cases v (f_of_Z sq) Hc Hsc Hf Hsf cb Hcb Hfb) as [_ Hle].
  rewrite Hva, Hsv in Hge. rewrite Hvb, Hsv in Hle. change (2 ^ 149) with (2 * 2 ^ 148) in *.
  split; [apply Hge|apply Hle]; lia.
Qed.

Lemma pos_cell1_between v a b :
  costf v = true → 0 <= a <= b → b < 2 ^ 23 → a * sq * 2 ^ 149 <= 2 * fval v <= b * sq * 2 ^ 149 →
  ∃ c, pos_cell1 g v = Some c ∧ (a + 2) / 2 <= c <= (b + 2) / 2.
Proof.
  intros Hc Hab Hb Hv. assert (fval v < 2 ^ 277) as Hf.
  { change (2 ^ 277) with (2 ^ 128 * 2 ^ 149). nia. }
  destruct (fdiv_between v a b Hc Hf Hab ltac:(lia) Hv) as [Hdc Hd].
  destruct (fadd_val (fdiv v (f_of_Z sq)) f1 Hdc ltac:(done)) as [Hac Hav].
  change (fval f1) with (2 * 2 ^ 148) in Hav. set (d := fval (fdiv v (f_of_Z sq))) in *.
  pose proof (rnd_mono ((a + 2) * 2 ^ 148) (d + 2 * 2 ^ 148) ltac:(lia)) as H1. rewrite rnd_exact in H1 by lia.
  pose proof (rnd_mono (d + 2 * 2 ^ 148) ((b + 2) * 2 ^ 148) ltac:(lia)) as H2. rewrite rnd_exact in H2 by lia.
  change (2 ^ 277) with (2 ^ 129 * 2 ^ 148) in Hav.
  exists (fval (fadd (fdiv v (f_of_Z sq)) f1) / 2 ^ 149). unfold pos_cell1. split.
  - apply f_to_int_val; [done|]. change (2 ^ 149) with (2 * 2 ^ 148). lia.
  - change (2 ^ 149) with (2 ^ 148 * 2). rewrite <-Z.div_div by lia.
    assert (a + 2 <= fval (fadd (fdiv v (f_of_Z sq)) f1) / 2 ^ 148 <= b + 2).
    { split; [apply Z.div_le_lower_bound; lia|]. apply Z.lt_succ_r, Z.div_lt_upper_bound; lia. }
    split; apply Z.div_le_mono; lia.
Qed.

(** The centre of cell [c] lies in cell [c]. *)
Lemma centre_val c : 0 <= c → (c + 1) * sq <= 2 ^ 24 →
  costf (f_of_Z (c * sq + sq ÷ 2)) = true ∧ fval (f_of_Z (c * sq + sq ÷ 2)) = (c * sq + sq / 2) * 2 ^ 149.
Proof.
  intros Hc Hs. rewrite Z.quot_div_nonneg by lia. assert (0 <= sq / 2 < sq) by dlia. apply f_of_Z_val. nia.
Qed.

Lemma centre_cell1 c : 0 <= c → (c + 1) * sq <= 2 ^ 22 → pos_cell1 g (f_of_Z (c * sq + sq ÷ 2)) = Some (c + 1).
Proof.
  intros Hc Hs. destruct (centre_val c Hc ltac:(lia)) as [Hcc Hv].
  destruct (pos_cell1_between _ (2 * c) (2 * c + 1) Hcc) as (k & -> & Hk); [lia|nia| |f_equal; dlia].
  rewrite Hv. assert (0 <= 2 * (sq / 2) <= sq) by dlia. nia.
Qed.

(** A position on the map lies in a cell of the map or on its far border. *)
Lemma pos_cell1_range v M : costf v = true → 0 <= M < 2 ^ 22 → fval v <= M * sq * 2 ^ 149 → ∃ c, pos_cell1 g v = Some c ∧ 1 <= c <= M + 1.
Proof.
  intros Hc HM Hv. pose proof (fval_bounds v Hc).
  destruct (pos_cell1_between v 0 (2 * M) Hc) as (c & Hp & Hr); [lia|lia|nia|]. exists c. split; [done|dlia].
Qed.

Lemma path_index_cells i :
  0 < pathMapXSize g → 0 <= i < pathMapXSize g * pathMapYSize g →
  let x := i `mod` pathMapXSize g in
  let y := i / pathMapXSize g in
  PathIndex2PathXY g i = (x, y) ∧ PathIndex2MoveXY g i = (x + 1, y + 1) ∧ 0 <= x < pathMapXSize g ∧ 0 <= y < pathMapYSize g ∧
  PathXY2PathIndex g x y = i.
Proof.
  intros Hx Hi. cbv zeta. unfold PathIndex2PathXY, PathIndex2MoveXY, PathXY2PathIndex.
  rewrite Z.quot_div_nonneg by lia. pose proof (Z.div_mod i (pathMapXSize g)). pose proof (Z.mod_pos_bound i (pathMapXSize g)).
  assert (0 <= i / pathMapXSize g) by (apply Z.div_pos; lia).
  assert (i / pathMapXSize g < pathMapYSize g) by (apply Z.div_lt_upper_bound; lia). split_and!; try lia; f_equal; lia.
Qed.

(** The round trip: the centre of a path cell is on the move node of that cell. *)
Lemma centre_node i :
  0 < pathMapXSize g → 0 <= i < pathMapXSize g * pathMapYSize g → pathMapXSize g * sq <= 2 ^ 22 → pathMapYSize g * sq <= 2 ^ 22 →
  Pos2MoveNode g (PathIndex2Pos g i) =
    Some (let '(x, y) := PathIndex2MoveXY g i in MoveXY2MoveNode g x y).
Proof.
  intros Hpx Hi Hx Hy. destruct (path_index_cells i Hpx Hi) as (HP & -> & Hbx & Hby & _). unfold PathIndex2PathXY in HP. injection HP as HPx HPy.
  unfold Pos2MoveNode, PathIndex2Pos. cbn [px pz]. rewrite HPx, HPy, !centre_cell1 by nia. done.
Qed.
End cells.
