(* ===== verification/OpenQueue.v ===== *)
(** * OpenQueue: the path nodes and the binary heap of the path finder

    [terrain/path/MicroPather.h] ([PathNode]) and the class [OpenQueueBH] of
    [terrain/path/MicroPather.cpp].  Nodes live in one array, [pathNodeMem]; a pointer to a
    node is its index there.  The heap is an array of such pointers, used from index 1, and
    every node in it knows its place ([myIndex]).  Memory that comes from [malloc] is
    indeterminate until it is written: such a place is [None] and reading it is undefined.

    The second half states what the heap promises, a priority queue of pointers keyed by
    [totalCost], and proves the three operations against it: they stay in bounds, keep the
    heap order and the places, and [Pop] returns a least element. *)

From S2P Require Import Prelude Float32.

Local Open Scope circuit_scope.

(** [FLT_BIG] is [FLT_MAX / 2.0]; both it and its half are exact floats. *)
Definition FLT_BIG : float := fdiv FLT_MAX (f_of_Z 2).
Definition FLT_BIG_2 : float := fdiv FLT_BIG (f_of_Z 2).
Definition COST_BASE : float := f1.

Record PathNode : Type := mkPathNode {
  myIndex : option Z;      (* not set by [Init] *)
  x2 : Z;
  y2 : Z;
  index2 : Z;
  costFromStart : float;
  totalCost : float;
  parent : option Z;       (* [None] is the null pointer *)
  inOpen : bool;
  inClosed : bool;
  isEndNode : bool;
  pn_frame : Z             (* 16 bits *)
}.

#[export] Instance PathNode_eq_dec : EqDecision PathNode.
Proof. solve_decision. Defined.

(** [PathNode::Init] on memory whose [myIndex] is [garbage]. *)
Definition Init (x y i2 frm : Z) (cost : float) (par : option Z) (garbage : option Z) : PathNode :=
  mkPathNode garbage x y i2 cost cost par false false false (u16 frm).

Definition Reuse (frm : Z) (n : PathNode) : PathNode :=
  mkPathNode (myIndex n) (x2 n) (y2 n) (index2 n) FLT_BIG_2 (totalCost n) None false false (isEndNode n) (u16 frm).

(** Assignments to one field. *)
Definition set_myIndex (k : Z) (n : PathNode) : PathNode :=
  mkPathNode (Some k) (x2 n) (y2 n) (index2 n) (costFromStart n) (totalCost n) (parent n) (inOpen n) (inClosed n)
    (isEndNode n) (pn_frame n).
Definition set_inOpen (b : bool) (n : PathNode) : PathNode :=
  mkPathNode (myIndex n) (x2 n) (y2 n) (index2 n) (costFromStart n) (totalCost n) (parent n) b (inClosed n)
    (isEndNode n) (pn_frame n).
Definition set_inClosed (b : bool) (n : PathNode) : PathNode :=
  mkPathNode (myIndex n) (x2 n) (y2 n) (index2 n) (costFromStart n) (totalCost n) (parent n) (inOpen n) b
    (isEndNode n) (pn_frame n).
Definition set_isEndNode (b : bool) (n : PathNode) : PathNode :=
  mkPathNode (myIndex n) (x2 n) (y2 n) (index2 n) (costFromStart n) (totalCost n) (parent n) (inOpen n) (inClosed n)
    b (pn_frame n).
(** [parent], [costFromStart] and [totalCost] assigned together. *)
Definition set_costs (par : option Z) (cost total : float) (n : PathNode) : PathNode :=
  mkPathNode (myIndex n) (x2 n) (y2 n) (index2 n) cost total par (inOpen n) (inClosed n) (isEndNode n) (pn_frame n).

(** The queue with the memory its pointers refer to. *)
Record OpenQueueBH : Type := mkQueue {
  pathNodeMem : list PathNode;
  heapArray : list (option Z);
  size : Z
}.

Definition node_at (q : OpenQueueBH) (p : Z) : option PathNode := zget (pathNodeMem q) p.
Definition heap_at (q : OpenQueueBH) (k : Z) : option Z := p ← zget (heapArray q) k; p.
Definition put_heap (q : OpenQueueBH) (k : Z) (p : option Z) : option OpenQueueBH :=
  h ← zset (heapArray q) k p; Some (mkQueue (pathNodeMem q) h (size q)).
Definition upd_node (f : PathNode → PathNode) (q : OpenQueueBH) (p : Z) : option OpenQueueBH :=
  n ← node_at q p;
  m ← zset (pathNodeMem q) p (f n);
  Some (mkQueue m (heapArray q) (size q)).
Definition set_size (q : OpenQueueBH) (s : Z) : OpenQueueBH := mkQueue (pathNodeMem q) (heapArray q) s.

(** [heapArray[k]->totalCost] *)
Definition key (q : OpenQueueBH) (k : Z) : option float :=
  p ← heap_at q k; n ← node_at q p; Some (totalCost n).

(** "swap them": the pointers at [hi] and [lo] with their [myIndex]. *)
Definition swap (q : OpenQueueBH) (hi lo : Z) : option OpenQueueBH :=
  temp ← heap_at q hi;
  c ← heap_at q lo;
  q ← put_heap q hi (Some c);
  q ← put_heap q lo (Some temp);
  q ← upd_node (set_myIndex lo) q temp;
  c ← heap_at q hi;
  upd_node (set_myIndex hi) q c.

(** The loop of [Push] and of [Update]; [i] halves, so [i] iterations are enough. *)
Fixpoint sift_up (fuel : nat) (q : OpenQueueBH) (i : Z) : option OpenQueueBH :=
  match fuel with
  | O => None
  | S fuel =>
      if decide (1 < i) then
        a ← key q (Z.shiftr i 1);
        b ← key q i;
        if fgtb a b then
          q ← swap q (Z.shiftr i 1) i;
          sift_up fuel q (Z.shiftr i 1)
        else Some q
      else Some q
  end.

Definition Push (q : OpenQueueBH) (pNode : Z) : option OpenQueueBH :=
  q ← upd_node (set_inOpen true) q pNode;
  if decide (0 < size q) then
    let q := set_size q (size q + 1) in
    q ← put_heap q (size q) (Some pNode);
    q ← upd_node (set_myIndex (size q)) q pNode;
    sift_up (Z.to_nat (size q)) q (size q)
  else
    let q := set_size q (size q + 1) in
    q ← put_heap q 1 (Some pNode);
    upd_node (set_myIndex (size q)) q pNode.

Definition Update (q : OpenQueueBH) (pNode : Z) : option OpenQueueBH :=
  if decide (1 < size q) then
    n ← node_at q pNode;
    i ← myIndex n;
    sift_up (Z.to_nat (size q)) q i
  else Some q.

(** [left <= size && heapArray[left]->totalCost < heapArray[index]->totalCost], and the same for [right]. *)
Definition smaller (q : OpenQueueBH) (c best : Z) : option Z :=
  if decide (c <= size q) then
    a ← key q c;
    b ← key q best;
    Some (if fltb a b then c else best)
  else Some best.

(** "fix the heap": each iteration goes down one level. *)
Fixpoint sift_down (fuel : nat) (q : OpenQueueBH) (index : Z) : option OpenQueueBH :=
  match fuel with
  | O => None
  | S fuel =>
      let left := Z.shiftl index 1 in
      let right := Z.shiftl index 1 + 1 in
      smalest ← smaller q left index;
      smalest ← smaller q right smalest;
      if decide (smalest ≠ index) then
        q ← swap q index smalest;
        sift_down fuel q smalest
      else Some q
  end.

Definition Pop (q : OpenQueueBH) : option (Z * OpenQueueBH) :=
  m ← heap_at q 1;
  q ← upd_node (set_inOpen false) q m;
  lst ← zget (heapArray q) (size q);
  q ← put_heap q 1 lst;
  let q := set_size q (size q - 1) in
  if decide (size q = 0) then Some (m, q) else
  c ← heap_at q 1;
  q ← upd_node (set_myIndex 1) q c;
  q ← sift_down (Z.to_nat (size q)) q 1;
  Some (m, q).

Definition Empty (q : OpenQueueBH) : bool := bool_decide (size q = 0).

(** ** The memory operations *)


Lemma half i : Z.shiftr i 1 = i / 2.
Proof. by rewrite Z.shiftr_div_pow2 by lia. Qed.
Lemma double i : Z.shiftl i 1 = 2 * i.
Proof. rewrite Z.shiftl_mul_pow2 by lia. lia. Qed.

Lemma upd_node_ok f q p n :
  node_at q p = Some n →
  ∃ q', upd_node f q p = Some q' ∧ size q' = size q ∧ heapArray q' = heapArray q ∧
    zlen (pathNodeMem q') = zlen (pathNodeMem q) ∧
    ∀ p', node_at q' p' = if decide (p = p') then Some (f n) else node_at q p'.
Proof.
  intros Hn. unfold upd_node. rewrite Hn. cbn [mbind option_bind].
  pose proof (zget_Some_bound _ _ _ Hn) as Hb.
  destruct (zset (pathNodeMem q) p (f n)) as [m|] eqn:Hm; [|by rewrite zset_Some in Hm].
  cbn [mbind option_bind]. eexists. split; [done|]. simpl. repeat split.
  - by eapply zlen_zset.
  - intros p'. by apply zget_zset.
Qed.

Lemma put_heap_ok q k p :
  0 <= k < zlen (heapArray q) →
  ∃ q', put_heap q k p = Some q' ∧ size q' = size q ∧ pathNodeMem q' = pathNodeMem q ∧
    zlen (heapArray q') = zlen (heapArray q) ∧
    ∀ k', heap_at q' k' = if decide (k = k') then p else heap_at q k'.
Proof.
  intros Hk. unfold put_heap. destruct (zset (heapArray q) k p) as [h|] eqn:Hh; [|by rewrite zset_Some in Hh].
  cbn [mbind option_bind]. eexists. split; [done|]. simpl. repeat split.
  - by eapply zlen_zset.
  - intros k'. unfold heap_at. simpl. rewrite (zget_zset _ _ _ _ _ Hh). by case_decide.
Qed.

(** A node without its place. *)
Definition bare (n : PathNode) : PathNode :=
  mkPathNode None (x2 n) (y2 n) (index2 n) (costFromStart n) (totalCost n) (parent n) (inOpen n) (inClosed n)
    (isEndNode n) (pn_frame n).

(** Two queues over memories that differ at most in the places. *)
Record sames (q q' : OpenQueueBH) : Prop := {
  sm_size : size q' = size q;
  sm_hlen : zlen (heapArray q') = zlen (heapArray q);
  sm_mlen : zlen (pathNodeMem q') = zlen (pathNodeMem q);
  sm_bare : ∀ p, bare <$> node_at q' p = bare <$> node_at q p
}.

#[export] Instance sames_preorder : PreOrder sames.
Proof.
  split; [done|]. intros q1 q2 q3 [] []. split; try congruence; try lia.
Qed.

Definition key_of (q : OpenQueueBH) (p : Z) : option float := totalCost <$> node_at q p.

Lemma key_heap q k : key q k = p ← heap_at q k; key_of q p.
Proof. unfold key, key_of. destruct (heap_at q k); simpl; [|done]. by destruct (node_at q z). Qed.

Lemma sames_key_of q q' p : sames q q' → key_of q' p = key_of q p.
Proof.
  intros [_ _ _ Hb]. specialize (Hb p). unfold key_of.
  destruct (node_at q p) as [n|], (node_at q' p) as [n'|]; simpl in *; try done.
  by injection Hb as _ _ _ _ -> _.
Qed.

(** ** Places: the heap and [myIndex] agree *)

Record places (q : OpenQueueBH) : Prop := {
  pl_size : 0 <= size q < zlen (heapArray q);
  pl_at : ∀ k, 1 <= k <= size q →
    ∃ p n, heap_at q k = Some p ∧ node_at q p = Some n ∧ myIndex n = Some k
}.

Definition mem (q : OpenQueueBH) (p : Z) : Prop := ∃ k, 1 <= k <= size q ∧ heap_at q k = Some p.

Lemma places_inj q k k' p :
  places q → 1 <= k <= size q → 1 <= k' <= size q → heap_at q k = Some p → heap_at q k' = Some p → k = k'.
Proof.
  intros Hp Hk Hk' H H'. destruct (pl_at q Hp k Hk) as (p1 & n1 & ? & ? & ?).
  destruct (pl_at q Hp k' Hk') as (p2 & n2 & ? & ? & ?). congruence.
Qed.

Lemma mem_myIndex q p n :
  places q → mem q p → node_at q p = Some n →
  ∃ i, myIndex n = Some i ∧ 1 <= i <= size q ∧ heap_at q i = Some p.
Proof.
  intros Hp (k & Hk & Hh) Hn. destruct (pl_at q Hp k Hk) as (p1 & n1 & ? & ? & ?).
  simplify_eq. eauto.
Qed.

(** The place that a swap of [hi] and [lo] moves to [k]. *)
Definition tr (hi lo k : Z) : Z := if decide (k = hi) then lo else if decide (k = lo) then hi else k.

Lemma swap_ok q hi lo :
  places q → 1 <= hi <= size q → 1 <= lo <= size q → hi ≠ lo →
  ∃ q', swap q hi lo = Some q' ∧ sames q q' ∧ places q' ∧ ∀ k, heap_at q' k = heap_at q (tr hi lo k).
Proof.
  intros Hp Hhi Hlo Hne. pose proof (pl_size q Hp) as Hs.
  destruct (pl_at q Hp hi Hhi) as (a & na & Ha & Hna & Hia).
  destruct (pl_at q Hp lo Hlo) as (b & nb & Hb & Hnb & Hib).
  assert (a ≠ b) as Hab by (intros ->; congruence).
  unfold swap. rewrite Ha, Hb. cbn [mbind option_bind].
  destruct (put_heap_ok q hi (Some b)) as (q1 & -> & Hs1 & Hm1 & Hl1 & Hh1); [lia|]. cbn [mbind option_bind].
  destruct (put_heap_ok q1 lo (Some a)) as (q2 & -> & Hs2 & Hm2 & Hl2 & Hh2); [lia|]. cbn [mbind option_bind].
  destruct (upd_node_ok (set_myIndex lo) q2 a na) as (q3 & -> & Hs3 & Hh3 & Hl3 & Hn3).
  { unfold node_at in *. by rewrite Hm2, Hm1. }
  cbn [mbind option_bind].
  assert (∀ k, heap_at q3 k = heap_at q (tr hi lo k)) as Hheap.
  { intros k. unfold heap_at at 1. rewrite Hh3. fold (heap_at q2 k). rewrite Hh2, Hh1. unfold tr.
    repeat case_decide; subst; try done; lia. }
  assert (heap_at q3 hi = Some b) as ->.
  { rewrite Hheap. unfold tr. by rewrite decide_True. }
  cbn [mbind option_bind].
  assert (∀ p, node_at q2 p = node_at q p) as Hq2 by (intros p; unfold node_at; by rewrite Hm2, Hm1).
  destruct (upd_node_ok (set_myIndex hi) q3 b nb) as (q4 & -> & Hs4 & Hh4 & Hl4 & Hn4).
  { rewrite Hn3, decide_False by done. by rewrite Hq2. }
  assert (∀ k, heap_at q4 k = heap_at q (tr hi lo k)) as Hheap'.
  { intros k. rewrite <-Hheap. unfold heap_at. by rewrite Hh4. }
  exists q4. split; [done|]. split; [|split; [|done]].
  - split; [congruence|congruence|congruence|].
    intros p. rewrite Hn4, Hn3, Hq2. repeat case_decide; subst; try done; [by rewrite Hnb|by rewrite Hna].
  - split; [by rewrite Hs4, Hs3, Hs2, Hs1, Hh4, Hh3, Hl2, Hl1|]. intros k Hk. rewrite Hheap'. unfold tr.
    assert (1 <= k <= size q) as Hk' by lia. destruct (pl_at q Hp k Hk') as (p & n & Hpk & Hnp & Hip).
    destruct (decide (k = hi)) as [->|]; [|destruct (decide (k = lo)) as [->|]].
    + exists b. eexists. split; [done|]. by rewrite Hn4, decide_True.
    + exists a. eexists. split; [done|]. rewrite Hn4, decide_False, Hn3, decide_True by done. done.
    + exists p, n. split; [done|]. split; [|done].
      rewrite Hn4, decide_False, Hn3, decide_False, Hq2 by (intros ->; congruence). done.
Qed.

Lemma swap_mem q q' hi lo p :
  sames q q' → 1 <= hi <= size q → 1 <= lo <= size q → (∀ k, heap_at q' k = heap_at q (tr hi lo k)) →
  mem q' p ↔ mem q p.
Proof.
  intros Hsm Hhi Hlo Hh. pose proof (sm_size _ _ Hsm) as Hs. unfold mem. rewrite Hs. split.
  - intros (k & Hk & Hp). exists (tr hi lo k). rewrite <-Hh. split; [|done]. unfold tr. repeat case_decide; lia.
  - intros (k & Hk & Hp). exists (tr hi lo k). rewrite Hh. split; [unfold tr; repeat case_decide; lia|].
    replace (tr hi lo (tr hi lo k)) with k; [done|]. unfold tr. repeat case_decide; lia.
Qed.

Lemma swap_key q q' hi lo k :
  sames q q' → (∀ k, heap_at q' k = heap_at q (tr hi lo k)) → key q' k = key q (tr hi lo k).
Proof.
  intros Hsm Hh. rewrite !key_heap, Hh. destruct (heap_at q _); [|done]. simpl. by apply sames_key_of.
Qed.

(** ** The heap order *)

Definition kle (q : OpenQueueBH) (a b : Z) : Prop :=
  ∃ x y, key q a = Some x ∧ key q b = Some y ∧ fleb x y = true.

Lemma kle_trans q a b c : kle q a b → kle q b c → kle q a c.
Proof. intros (x & y & ? & ? & ?) (y' & z & ? & ? & ?). simplify_eq. exists x, z. eauto using fleb_trans. Qed.

Definition ordered (q : OpenQueueBH) : Prop := ∀ k, 2 <= k <= size q → kle q (k / 2) k.
Definition keyed (q : OpenQueueBH) : Prop :=
  ∀ k, 1 <= k <= size q → ∃ x, key q k = Some x ∧ is_nan x = false.

(** The order holds except between [i] and its parent, whose key is below those of [i]'s children. *)
Definition up_ok (q : OpenQueueBH) (i : Z) : Prop :=
  (∀ k, 2 <= k <= size q → k ≠ i → kle q (k / 2) k) ∧
  (2 <= i → ∀ k, 2 <= k <= size q → k / 2 = i → kle q (i / 2) k).
(** The order holds except between [i] and its children, whose keys are above that of [i]'s parent. *)
Definition dn_ok (q : OpenQueueBH) (i : Z) : Prop :=
  (∀ k, 2 <= k <= size q → k / 2 ≠ i → kle q (k / 2) k) ∧
  (2 <= i → ∀ k, 2 <= k <= size q → k / 2 = i → kle q (i / 2) k).

Lemma kle_swapped q q' hi lo a b :
  sames q q' → (∀ k, heap_at q' k = heap_at q (tr hi lo k)) →
  kle q (tr hi lo a) (tr hi lo b) → kle q' a b.
Proof. intros Hsm Hh. unfold kle. by rewrite !(swap_key q q' hi lo) by done. Qed.

Lemma keyed_swapped q q' hi lo :
  sames q q' → 1 <= hi <= size q → 1 <= lo <= size q → (∀ k, heap_at q' k = heap_at q (tr hi lo k)) →
  keyed q → keyed q'.
Proof.
  intros Hsm ? ? Hh Hk k Hr. rewrite (swap_key q q' hi lo) by done. apply Hk.
  rewrite (sm_size _ _ Hsm) in Hr. unfold tr. repeat case_decide; lia.
Qed.

(** Simplify the transposed places that linear arithmetic decides. *)
Ltac tr_simpl :=
  unfold tr; repeat first
    [ rewrite decide_True by dlia | rewrite decide_False by dlia ].

(** What the sifting loops establish. *)
Definition resifted (q q' : OpenQueueBH) : Prop :=
  sames q q' ∧ places q' ∧ ordered q' ∧ ∀ p, mem q' p ↔ mem q p.

Lemma sift_up_ok fuel q i :
  places q → keyed q → 1 <= i <= size q → i <= Z.of_nat fuel → up_ok q i →
  ∃ q', sift_up fuel q i = Some q' ∧ resifted q q'.
Proof.
  revert q i. induction fuel as [|fuel IH]; intros q i Hp Hk Hi Hf [Hup Hgp]; [lia|]. simpl.
  decide_goal as [Hi1|Hi1].
  2:{ exists q. split; [done|]. repeat split; try done; try apply Hp. intros k ?. apply Hup; lia. }
  rewrite !half. assert (1 <= i / 2 < i) as Hh by dlia.
  destruct (Hk (i / 2)) as (x & Hx & Hnx); [lia|]. destruct (Hk i) as (y & Hy & Hny); [lia|].
  rewrite Hx, Hy. cbn [mbind option_bind]. unfold fgtb. fold fltb. destruct (fltb y x) eqn:Hlt.
  - assert (kle q i (i / 2)) as Hle by (exists y, x; eauto using fltb_le).
    destruct (swap_ok q (i / 2) i) as (q1 & -> & Hsm & Hp1 & Hh1); [done|lia|lia|lia|]. cbn [mbind option_bind].
    pose proof (sm_size _ _ Hsm) as Hs1.
    destruct (IH q1 (i / 2)) as (q2 & Hq2 & Hsm2 & Hp2 & Ho2 & Hm2).
    + done.
    + apply (keyed_swapped q q1 (i / 2) i); done || lia.
    + lia.
    + dlia.
    + split.
      * intros k Hkr Hki. apply (kle_swapped q q1 (i / 2) i); [done|done|].
        destruct (decide (k = i)) as [->|]; [by tr_simpl|].
        destruct (decide (k / 2 = i)) as [E|]; [rewrite E; tr_simpl; apply Hgp; lia|].
        destruct (decide (k / 2 = i / 2)) as [E|]; [rewrite E|]; tr_simpl.
        -- eapply kle_trans; [done|]. rewrite <-E. apply Hup; lia.
        -- apply Hup; lia.
      * intros ? k Hkr Hki. apply (kle_swapped q q1 (i / 2) i); [done|done|].
        assert (kle q (i / 2 / 2) (i / 2)) as Hpp by (apply Hup; lia).
        destruct (decide (k = i)) as [->|]; tr_simpl; [done|].
        eapply kle_trans; [done|]. rewrite <-Hki. apply Hup; lia.
    + exists q2. split; [done|]. split; [by transitivity q1|]. split; [done|]. split; [done|].
      intros p. rewrite Hm2. apply (swap_mem q q1 (i / 2) i); done || lia.
  - exists q. split; [done|]. repeat split; try done; try apply Hp. intros k ?.
    destruct (decide (k = i)) as [->|]; [|by apply Hup]. exists x, y. split; [done|]. split; [done|].
    rewrite fltb_fleb in Hlt by done. by apply negb_false_iff in Hlt.
Qed.

Lemma smaller_ok q c best :
  keyed q → 1 <= c → 1 <= best <= size q →
  ∃ s, smaller q c best = Some s ∧ 1 <= s <= size q ∧ (s = c ∨ s = best) ∧ kle q s best ∧
    (c <= size q → kle q s c).
Proof.
  intros Hk Hc Hb. unfold smaller. destruct (Hk best Hb) as (y & Hy & Hny).
  decide_goal.
  - destruct (Hk c) as (x & Hx & Hnx); [lia|]. rewrite Hx, Hy. cbn [mbind option_bind].
    eexists. split; [done|]. destruct (fltb x y) eqn:Hlt.
    + split; [lia|]. split; [by left|]. split; [exists x, y|intros _; exists x, x]; eauto using fltb_le, fleb_refl.
    + rewrite fltb_fleb in Hlt by done. apply negb_false_iff in Hlt.
      split; [lia|]. split; [by right|]. split; [exists y, y|intros _; exists y, x]; eauto using fleb_refl.
  - exists best. split; [done|]. split; [lia|]. split; [by right|]. split; [|lia].
    exists y, y. eauto using fleb_refl.
Qed.

Lemma sift_down_ok fuel q i :
  places q → keyed q → 1 <= i <= size q → size q < i + Z.of_nat fuel → dn_ok q i →
  ∃ q', sift_down fuel q i = Some q' ∧ resifted q q'.
Proof.
  revert q i. induction fuel as [|fuel IH]; intros q i Hp Hk Hi Hf [Hdn Hgp]; [lia|]. simpl.
  rewrite !double.
  destruct (smaller_ok q (2 * i) i) as (s1 & -> & Hs1 & Hs1' & Hle1 & Hl1); [done|lia|lia|]. cbn [mbind option_bind].
  destruct (smaller_ok q (2 * i + 1) s1) as (s & -> & Hs & Hs' & Hle & Hl); [done|lia|lia|]. cbn [mbind option_bind].
  assert (∀ k, 2 <= k <= size q → k / 2 = i → kle q s k) as Hch.
  { intros k Hkr Hki. assert (k = 2 * i ∨ k = 2 * i + 1) as [->| ->] by dlia; [|apply Hl; lia].
    eapply kle_trans; [done|apply Hl1; lia]. }
  assert (kle q s i) as Hsi by (by eapply kle_trans).
  assert (s = i ∨ s / 2 = i ∧ i < s) as Hsc by dlia. clear Hs1' Hle1 Hl1 Hs' Hle Hl Hs1 s1.
  decide_goal as [Hne|Hne].
  - destruct Hsc as [|[Hsc Hgt]]; [done|].
    destruct (swap_ok q i s) as (q1 & -> & Hsm & Hp1 & Hh1); [done|lia|lia|lia|]. cbn [mbind option_bind].
    pose proof (sm_size _ _ Hsm) as Hs1.
    destruct (IH q1 s) as (q2 & Hq2 & Hsm2 & Hp2 & Ho2 & Hm2).
    + done.
    + apply (keyed_swapped q q1 i s); done || lia.
    + lia.
    + lia.
    + split.
      * intros k Hkr Hks. apply (kle_swapped q q1 i s); [done|done|].
        destruct (decide (k = s)) as [->|]; [rewrite Hsc; by tr_simpl|].
        destruct (decide (k / 2 = i)) as [E|]; [rewrite E; tr_simpl; apply Hch; lia|].
        destruct (decide (k = i)) as [->|]; tr_simpl; [apply Hgp; lia|apply Hdn; lia].
      * intros ? k Hkr Hks. apply (kle_swapped q q1 i s); [done|done|]. rewrite Hsc. tr_simpl.
        rewrite <-Hks. apply Hdn; lia.
    + exists q2. split; [done|]. split; [by transitivity q1|]. split; [done|]. split; [done|].
      intros p. rewrite Hm2. apply (swap_mem q q1 i s); done || lia.
  - exists q. split; [done|]. assert (s = i) as -> by lia. repeat split; try done; try apply Hp.
    intros k ?. destruct (decide (k / 2 = i)) as [E|]; [rewrite E; by apply Hch|by apply Hdn].
Qed.

(** ** The three operations *)

Record heap_ok (q : OpenQueueBH) : Prop := {
  ho_places : places q;
  ho_keyed : keyed q;
  ho_ordered : ordered q
}.

(** The memory after an operation: [f] was applied to the node [p], and places may have changed. *)
Record changed (f : PathNode → PathNode) (p : Z) (q q' : OpenQueueBH) : Prop := {
  ch_hlen : zlen (heapArray q') = zlen (heapArray q);
  ch_mlen : zlen (pathNodeMem q') = zlen (pathNodeMem q);
  ch_bare : ∀ p', bare <$> node_at q' p' = bare <$> (if decide (p = p') then f <$> node_at q p' else node_at q p')
}.

Lemma changed_sames f p q q1 q2 : changed f p q q1 → sames q1 q2 → changed f p q q2.
Proof. intros [? ? Hb] [_ ? ? Hb']. split; [congruence|congruence|]. intros p'. by rewrite Hb', Hb. Qed.

Lemma keyed_mem q : keyed q ↔ (∀ k, 1 <= k <= size q → is_Some (heap_at q k)) ∧
  ∀ p, mem q p → ∃ x, key_of q p = Some x ∧ is_nan x = false.
Proof.
  split.
  - intros Hk. split.
    + intros k Hr. destruct (Hk k Hr) as (x & Hx & _). rewrite key_heap in Hx. destruct (heap_at q k); [eauto|done].
    + intros p (k & Hr & Hh). destruct (Hk k Hr) as (x & Hx & ?). rewrite key_heap, Hh in Hx. eauto.
  - intros [Hh Hk] k Hr. destruct (Hh k Hr) as [p Hp]. destruct (Hk p) as (x & Hx & ?); [by exists k|].
    exists x. by rewrite key_heap, Hp.
Qed.

Lemma places_heap q k : places q → 1 <= k <= size q → is_Some (heap_at q k).
Proof. intros Hp Hk. destruct (pl_at q Hp k Hk) as (? & ? & ? & _). eauto. Qed.

Lemma resifted_ok q q' : keyed q → resifted q q' → heap_ok q'.
Proof.
  intros [_ Hk]%keyed_mem (Hsm & Hp & Ho & Hm). split; [done| |done]. apply keyed_mem.
  split; [intros; by apply places_heap|]. intros p [x Hx]%Hm%Hk. exists x. by rewrite (sames_key_of q q').
Qed.

Lemma bare_key_of q q' p f p' :
  changed f p q q' → key_of q' p' = if decide (p = p') then totalCost ∘ f <$> node_at q p' else key_of q p'.
Proof.
  intros [_ _ Hb]. specialize (Hb p'). unfold key_of.
  destruct (node_at q' p') as [n'|] eqn:E', (node_at q p') as [n|] eqn:E; repeat case_decide; simpl in *; try done.
  - by injection Hb as _ _ _ _ -> _.
  - by injection Hb as _ _ _ _ -> _.
Qed.

(** Every key is at least the root's. *)
Lemma root_least q k : keyed q → ordered q → 1 <= k <= size q → kle q 1 k.
Proof.
  intros Hk Ho. induction (Z.lt_wf 1 k) as [k _ IH]. intros Hr. destruct (decide (k = 1)) as [->|].
  - destruct (Hk 1) as (x & Hx & Hn); [lia|]. exists x, x. auto using fleb_refl.
  - eapply kle_trans; [apply (IH (k / 2))|apply Ho]; dlia.
Qed.

(** [q'] is [q] with [p] stored in the first free place and marked open. *)
Record appended (q : OpenQueueBH) (p : Z) (n : PathNode) (q' : OpenQueueBH) : Prop := {
  ap_size : size q' = size q + 1;
  ap_hlen : zlen (heapArray q') = zlen (heapArray q);
  ap_mlen : zlen (pathNodeMem q') = zlen (pathNodeMem q);
  ap_heap : ∀ k, heap_at q' k = if decide (size q + 1 = k) then Some p else heap_at q k;
  ap_node : ∀ p', node_at q' p' =
    if decide (p = p') then Some (set_myIndex (size q + 1) (set_inOpen true n)) else node_at q p'
}.

Lemma append_ok q p n :
  node_at q p = Some n → 0 <= size q → size q + 1 < zlen (heapArray q) →
  ∃ q1 q3 q4, upd_node (set_inOpen true) q p = Some q1 ∧ size q1 = size q ∧
    put_heap (set_size q1 (size q + 1)) (size q + 1) (Some p) = Some q3 ∧ size q3 = size q + 1 ∧
    upd_node (set_myIndex (size q + 1)) q3 p = Some q4 ∧ appended q p n q4.
Proof.
  intros Hn Hs Hlen.
  destruct (upd_node_ok (set_inOpen true) q p n Hn) as (q1 & Hq1 & Hs1 & Hh1 & Hl1 & Hn1).
  set (q2 := set_size q1 (size q + 1)).
  destruct (put_heap_ok q2 (size q + 1) (Some p)) as (q3 & Hq3 & Hs3 & Hm3 & Hl3 & Hh3);
    [unfold q2; simpl; rewrite Hh1; lia|].
  destruct (upd_node_ok (set_myIndex (size q + 1)) q3 p (set_inOpen true n)) as (q4 & Hq4 & Hs4 & Hh4 & Hl4 & Hn4).
  { unfold node_at. rewrite Hm3. unfold q2. simpl. fold (node_at q1 p). by rewrite Hn1, decide_True. }
  exists q1, q3, q4. repeat (split; [done|]). split; [by rewrite Hs4, Hs3|by rewrite Hh4, Hl3; unfold q2; simpl; rewrite Hh1| | |].
  - rewrite Hl4, Hm3. unfold q2. simpl. done.
  - intros k. unfold heap_at at 1. rewrite Hh4. fold (heap_at q3 k). rewrite Hh3.
    case_decide; [done|]. unfold heap_at, q2. simpl. by rewrite Hh1.
  - intros p'. rewrite Hn4. case_decide; [done|].
    unfold node_at. rewrite Hm3. unfold q2. simpl. fold (node_at q1 p'). by rewrite Hn1, decide_False.
Qed.

Lemma appended_ok q p n q' :
  heap_ok q → node_at q p = Some n → ¬ mem q p → is_nan (totalCost n) = false →
  size q + 1 < zlen (heapArray q) → appended q p n q' →
  places q' ∧ keyed q' ∧ up_ok q' (size q') ∧ changed (set_inOpen true) p q q' ∧
  ∀ p', mem q' p' ↔ p' = p ∨ mem q p'.
Proof.
  intros [Hp Hk Ho] Hn Hnm Hnan Hlen [Hs4 Hlh4 Hlm4 Hh4 Hn4]. pose proof (pl_size q Hp) as Hs.
  assert (places q') as Hp4.
  { split; [lia|]. intros k Hkr. rewrite Hh4. destruct (decide (size q + 1 = k)) as [<-|].
    - exists p. eexists. split; [done|]. by rewrite Hn4, decide_True.
    - destruct (pl_at q Hp k) as (p' & n' & Hpk & Hn' & Hi); [lia|]. exists p', n'. split; [done|].
      split; [|done]. rewrite Hn4, decide_False; [done|]. intros ->. apply Hnm. exists k. split; [lia|done]. }
  assert (∀ p', mem q' p' ↔ p' = p ∨ mem q p') as Hm4.
  { intros p'. unfold mem. rewrite Hs4. split.
    - intros (k & Hkr & Hkp). rewrite Hh4 in Hkp. case_decide; [left; by simplify_eq|].
      right. exists k. split; [lia|done].
    - intros [->|(k & Hkr & Hkp)]; [exists (size q + 1)|exists k]; rewrite Hh4.
      + rewrite decide_True by done. split; [lia|done].
      + rewrite decide_False by lia. split; [lia|done]. }
  assert (changed (set_inOpen true) p q q') as Hc4.
  { split; [done|done|]. intros p'. rewrite Hn4. case_decide; [subst; by rewrite Hn|done]. }
  split; [done|]. split; [|split; [|done]].
  - apply keyed_mem. split; [intros; by apply places_heap|]. intros p' Hm'.
    rewrite (bare_key_of q q' p (set_inOpen true)) by done. apply Hm4 in Hm'. case_decide as E.
    + subst p'. rewrite Hn. eexists. split; [done|]. done.
    + destruct Hm' as [->|Hm']; [done|]. apply (proj2 (proj1 (keyed_mem q) Hk)); done.
  - rewrite Hs4. split; [|intros _ k Hkr Hki; exfalso; dlia]. intros k Hkr Hks.
    assert (∀ k, 1 <= k <= size q → key q' k = key q k) as Hkey.
    { intros k' Hkr'. rewrite !key_heap, Hh4, decide_False by lia.
      destruct (heap_at q k') as [p'|] eqn:E; [|done]. simpl.
      rewrite (bare_key_of q q' p (set_inOpen true)) by done. rewrite decide_False; [done|].
      intros ->. apply Hnm. exists k'. split; [lia|done]. }
    unfold kle. rewrite !Hkey by dlia. apply Ho. lia.
Qed.

Lemma oq_Push_ok q p n :
  heap_ok q → node_at q p = Some n → ¬ mem q p → is_nan (totalCost n) = false →
  size q + 1 < zlen (heapArray q) →
  ∃ q', Push q p = Some q' ∧ heap_ok q' ∧ changed (set_inOpen true) p q q' ∧ size q' = size q + 1 ∧
    ∀ p', mem q' p' ↔ p' = p ∨ mem q p'.
Proof.
  intros Hok Hn Hnm Hnan Hlen. pose proof (pl_size q (ho_places q Hok)) as Hs. unfold Push.
  destruct (append_ok q p n) as (q1 & q3 & q4 & -> & Hs1 & Hq3 & Hs3 & Hq4 & Ha); [done|lia|done|].
  destruct (appended_ok q p n q4) as (Hp4 & Hk4 & Hu4 & Hc4 & Hm4); [done..|].
  cbn [mbind option_bind]. rewrite Hs1. cbn [size set_size]. pose proof (ap_size _ _ _ _ Ha) as Hs4.
  decide_goal as [Hpos|Hpos].
  - rewrite Hq3. cbn [mbind option_bind]. rewrite Hs3, Hq4. cbn [mbind option_bind].
    destruct (sift_up_ok (Z.to_nat (size q4)) q4 (size q4)) as (q5 & Hq5 & Hr5); [done|done|lia|lia|done|].
    exists q5. split; [done|]. split; [by eapply resifted_ok|]. destruct Hr5 as (Hsm5 & _ & _ & Hm5).
    split; [by eapply changed_sames|]. split; [by rewrite (sm_size _ _ Hsm5)|]. intros p'. by rewrite Hm5, Hm4.
  - replace (put_heap _ 1 _) with (Some q3) by (rewrite <-Hq3; f_equal; lia). cbn [mbind option_bind]. rewrite Hs3, Hq4.
    exists q4. split; [done|]. split; [|done]. split; [done|done|]. intros k Hkr. apply Hu4; lia.
Qed.

(** Lowering the key of an open node and [Update] restore the heap. *)
Lemma oq_Update_ok q p n par c t :
  heap_ok q → node_at q p = Some n → mem q p → fleb t (totalCost n) = true →
  ∃ q1 q', upd_node (set_costs par c t) q p = Some q1 ∧ Update q1 p = Some q' ∧ heap_ok q' ∧
    changed (set_costs par c t) p q q' ∧ size q' = size q ∧ ∀ p', mem q' p' ↔ mem q p'.
Proof.
  intros [Hp Hk Ho] Hn Hm Ht.
  destruct (upd_node_ok (set_costs par c t) q p n Hn) as (q1 & Hq1 & Hs1 & Hh1 & Hl1 & Hn1).
  destruct (mem_myIndex q p n Hp Hm Hn) as (i & Hi & Hir & Hip).
  assert (∀ k, heap_at q1 k = heap_at q k) as Hheap by (intros k; unfold heap_at; by rewrite Hh1).
  assert (changed (set_costs par c t) p q q1) as Hc1.
  { split; [by rewrite Hh1|done|]. intros p'. rewrite Hn1. case_decide; [subst; by rewrite Hn|done]. }
  assert (∀ p', mem q1 p' ↔ mem q p') as Hm1 by (intros p'; unfold mem; by setoid_rewrite Hheap; rewrite Hs1).
  assert (places q1) as Hp1.
  { split; [rewrite Hs1, Hh1; apply Hp|]. intros k Hkr. rewrite Hheap.
    destruct (pl_at q Hp k) as (p' & n' & ? & Hn' & ?); [lia|]. destruct (decide (p = p')) as [->|Hne].
    - exists p'. eexists. split; [done|]. rewrite Hn1, decide_True by done. split; [done|]. simpl. by simplify_eq.
    - exists p', n'. split; [done|]. by rewrite Hn1, decide_False. }
  assert (∀ k, 1 <= k <= size q → key q1 k = if decide (k = i) then Some t else key q k) as Hkey.
  { intros k Hkr. rewrite !key_heap, Hheap. destruct (decide (k = i)) as [->|Hki].
    - rewrite Hip. simpl. unfold key_of. by rewrite Hn1, decide_True.
    - destruct (pl_at q Hp k Hkr) as (p' & n' & Hpk & Hn' & _). rewrite Hpk. simpl. unfold key_of.
      rewrite Hn1, decide_False; [done|]. intros ->. apply Hki. by apply (places_inj q k i p'). }
  assert (key q i = Some (totalCost n)) as Hki by (rewrite key_heap, Hip; simpl; unfold key_of; by rewrite Hn).
  assert (keyed q1) as Hk1.
  { intros k Hkr. rewrite Hkey by lia. decide_goal; [|apply Hk; lia]. exists t. split; [done|].
    by apply fleb_rank in Ht as (? & _ & _). }
  assert (∀ a b, 1 <= a <= size q → 1 <= b <= size q → b ≠ i → kle q a b → kle q1 a b) as Hkle.
  { intros a b Har Hbr Hb (x & y & Hx & Hy & Hxy). unfold kle. rewrite !Hkey by lia.
    rewrite (decide_False (P := b = i)) by done. decide_goal as [->|]; [|by eauto].
    exists t, y. rewrite Hki in Hx. simplify_eq. eauto using fleb_trans. }
  assert (up_ok q1 i) as Hu1.
  { split; rewrite Hs1.
    - intros k Hkr Hk'. apply Hkle; [dlia|lia|done|]. apply Ho. lia.
    - intros Hi2 k Hkr Hk'. apply Hkle; [dlia|lia|dlia|].
      apply kle_trans with i; [apply Ho; lia|]. rewrite <-Hk'. apply Ho. lia. }
  exists q1. unfold Update. rewrite Hs1, Hn1, (decide_True (P := p = p)) by done. cbn [mbind option_bind].
  change (myIndex (set_costs par c t n)) with (myIndex n). rewrite Hi. cbn [mbind option_bind].
  decide_goal as [Hgt|Hle].
  - destruct (sift_up_ok (Z.to_nat (size q)) q1 i) as (q2 & -> & Hr2); [done|done|lia|lia|done|].
    exists q2. split; [done|]. split; [done|]. split; [by eapply resifted_ok|]. destruct Hr2 as (Hsm2 & _ & _ & Hm2).
    split; [by eapply changed_sames|]. split; [rewrite (sm_size _ _ Hsm2); lia|]. intros p'. by rewrite Hm2, Hm1.
  - exists q1. split; [done|]. split; [done|]. split; [|done]. split; [done|done|]. intros k Hkr. lia.
Qed.

(** The queue after the root was replaced by the last element. *)
Lemma pop_root_ok q :
  heap_ok q → 0 < size q →
  ∃ m q1 lst q2, heap_at q 1 = Some m ∧ upd_node (set_inOpen false) q m = Some q1 ∧
    zget (heapArray q1) (size q1) = Some lst ∧ put_heap q1 1 lst = Some q2 ∧ size q2 = size q ∧
    heap_at q2 1 = heap_at q (size q) ∧ (∀ k, k ≠ 1 → heap_at q2 k = heap_at q k) ∧
    changed (set_inOpen false) m q q2 ∧
    ∀ p n, node_at q p = Some n →
      ∃ n', node_at q2 p = Some n' ∧ myIndex n' = myIndex n ∧ totalCost n' = totalCost n.
Proof.
  intros [Hp Hk Ho] Hpos. pose proof (pl_size q Hp) as Hs.
  destruct (pl_at q Hp 1) as (m & nm & Hm & Hnm & _); [lia|].
  destruct (upd_node_ok (set_inOpen false) q m nm Hnm) as (q1 & Hq1 & Hs1 & Hh1 & Hl1 & Hn1).
  destruct (zget_is_Some (heapArray q1) (size q1)) as [lst Hlst]; [rewrite Hh1; lia|].
  destruct (put_heap_ok q1 1 lst) as (q2 & Hq2 & Hs2 & Hm2 & Hl2 & Hh2); [rewrite Hh1; lia|].
  assert (∀ p, node_at q2 p = node_at q1 p) as Hn2 by (intros; unfold node_at; by rewrite Hm2).
  exists m, q1, lst, q2. repeat (split; [done|]). split; [lia|]. split.
  { rewrite Hh2, decide_True by done. unfold heap_at. rewrite Hh1, Hs1 in Hlst. by rewrite Hlst. }
  split; [|split; [split|]].
  - intros k Hne. rewrite Hh2, decide_False by done. unfold heap_at. by rewrite Hh1.
  - by rewrite Hl2, Hh1.
  - by rewrite Hm2.
  - intros p. rewrite Hn2, Hn1. case_decide; [subst; by rewrite Hnm|done].
  - intros p n Hn. rewrite Hn2, Hn1. case_decide; [subst; simplify_eq|]; eauto.
Qed.

(** The rest of the queue is found, with its keys, after the root has been replaced. *)
Lemma popped_ok q m q2 q4 :
  heap_ok q → 1 < size q → heap_at q 1 = Some m → changed (set_inOpen false) m q q2 →
  heap_at q2 1 = heap_at q (size q) → (∀ k, k ≠ 1 → heap_at q2 k = heap_at q k) →
  (∀ p n, node_at q p = Some n → ∃ n', node_at q2 p = Some n' ∧ myIndex n' = myIndex n ∧ totalCost n' = totalCost n) →
  ∀ c, heap_at q (size q) = Some c → upd_node (set_myIndex 1) (set_size q2 (size q - 1)) c = Some q4 →
  places q4 ∧ keyed q4 ∧ dn_ok q4 1 ∧ changed (set_inOpen false) m q q4 ∧ size q4 = size q - 1 ∧
  ∀ p', mem q4 p' ↔ mem q p' ∧ p' ≠ m.
Proof.
  intros [Hp Hk Ho] Hs Hm Hc2 Hh1 Hh Hn2 c Hc Hq4. pose proof (pl_size q Hp) as Hsz.
  destruct (pl_at q Hp (size q)) as (c' & nc & Hc' & Hnc & Hic); [lia|]. assert (c' = c) as -> by congruence.
  destruct (Hn2 c nc Hnc) as (nc' & Hnc' & _ & Htc).
  destruct (upd_node_ok (set_myIndex 1) (set_size q2 (size q - 1)) c nc') as (q4' & Hq4' & Hs4 & Hh4 & Hl4 & Hn4); [done|].
  rewrite Hq4' in Hq4. injection Hq4 as ->. simpl in Hs4, Hh4, Hl4.
  assert (∀ k, heap_at q4 k = if decide (k = 1) then Some c else heap_at q k) as Hheap.
  { intros k. unfold heap_at at 1. rewrite Hh4. change (heap_at q2 k = if decide (k = 1) then Some c else heap_at q k).
    case_decide; [subst; congruence|by apply Hh]. }
  assert (changed (set_inOpen false) m q q4) as Hc4.
  { destruct Hc2 as [? ? Hb]. split; [by rewrite Hh4|by rewrite Hl4|]. intros p. rewrite <-Hb, Hn4.
    case_decide; [|done]. subst. rewrite Hnc'. done. }
  assert (∀ p, key_of q4 p = key_of q p) as Hko.
  { intros p. rewrite (bare_key_of q q4 m _ p Hc4). unfold key_of. case_decide; [|done]. by destruct (node_at q p). }
  assert (∀ k, 2 <= k <= size q - 1 → heap_at q4 k ≠ Some c) as Hnc4.
  { intros k Hkr. rewrite Hheap, decide_False by lia. intros E.
    pose proof (places_inj q k (size q) c Hp ltac:(lia) ltac:(lia) E Hc). lia. }
  assert (places q4) as Hp4.
  { split; [rewrite Hs4, (ch_hlen _ _ _ _ Hc4); lia|]. intros k Hkr. rewrite Hheap.
    destruct (decide (k = 1)) as [->|Hk1].
    - exists c. eexists. split; [done|]. by rewrite Hn4, decide_True.
    - destruct (pl_at q Hp k) as (p & n & Hpk & Hn & Hi); [lia|]. destruct (Hn2 p n Hn) as (n' & Hn' & Hi' & _).
      exists p, n'. split; [done|]. rewrite Hn4, decide_False; [split; [done|congruence]|].
      intros <-. apply (Hnc4 k); [lia|]. by rewrite Hheap, decide_False. }
  assert (∀ p, mem q4 p ↔ mem q p ∧ p ≠ m) as Hmem.
  { intros p. unfold mem. rewrite Hs4. split.
    - intros (k & Hkr & Hkp). rewrite Hheap in Hkp. case_decide as Hk1.
      + simplify_eq. split; [exists (size q); split; [lia|done]|]. intros ->.
        pose proof (places_inj q 1 (size q) m Hp ltac:(lia) ltac:(lia) Hm Hc). lia.
      + split; [exists k; split; [lia|done]|]. intros ->.
        pose proof (places_inj q 1 k m Hp ltac:(lia) ltac:(lia) Hm Hkp). lia.
    - intros ((k & Hkr & Hkp) & Hne). destruct (decide (k = size q)) as [->|].
      + exists 1. rewrite Hheap, decide_True by done. split; [lia|congruence].
      + exists k. rewrite Hheap, decide_False by (intros ->; congruence). split; [|done].
        assert (k ≠ 1) by (intros ->; congruence). lia. }
  split; [done|]. split; [|split; [split|]].
  - apply keyed_mem. split; [intros; by apply places_heap|]. intros p [Hmp _]%Hmem. rewrite Hko.
    by apply (proj2 (proj1 (keyed_mem q) Hk)).
  - rewrite Hs4. intros k Hkr Hk1. assert (∀ k, 2 <= k <= size q - 1 → key q4 k = key q k) as Hkey.
    { intros k' Hk'. rewrite !key_heap, Hheap, decide_False by lia. destruct (heap_at q k'); [apply Hko|done]. }
    unfold kle. rewrite !Hkey by dlia. apply Ho. lia.
  - lia.
  - auto.
Qed.

Lemma oq_Pop_ok q :
  heap_ok q → 0 < size q →
  ∃ m q', Pop q = Some (m, q') ∧ heap_ok q' ∧ changed (set_inOpen false) m q q' ∧ size q' = size q - 1 ∧
    mem q m ∧ (∀ p, mem q' p ↔ mem q p ∧ p ≠ m) ∧
    ∀ p x y, mem q p → key_of q m = Some x → key_of q p = Some y → fleb x y = true.
Proof.
  intros Hok Hpos. pose proof Hok as [Hp Hk Ho]. pose proof (pl_size q Hp) as Hs. unfold Pop.
  destruct (pop_root_ok q Hok Hpos) as (m & q1 & lst & q2 & Hm & Hq1 & Hlst & Hq2 & Hs2 & Hh1 & Hh & Hc2 & Hn2).
  assert (mem q m) as Hmm by (exists 1; split; [lia|done]).
  assert (∀ p x y, mem q p → key_of q m = Some x → key_of q p = Some y → fleb x y = true) as Hmin.
  { intros p x y (k & Hkr & Hkp) Hx Hy. destruct (root_least q k Hk Ho Hkr) as (x' & y' & Hx' & Hy' & Hle).
    rewrite key_heap, Hm in Hx'. rewrite key_heap, Hkp in Hy'. simpl in Hx', Hy'. by simplify_eq. }
  rewrite Hm. cbn [mbind option_bind]. rewrite Hq1. cbn [mbind option_bind]. rewrite Hlst. cbn [mbind option_bind].
  rewrite Hq2. cbn [mbind option_bind]. cbn [size set_size]. rewrite Hs2. exists m. decide_goal as [Hz|Hz].
  - eexists. split; [done|]. simpl. assert (∀ p, ¬ mem (set_size q2 (size q - 1)) p) as Hno.
    { intros p (k & Hkr & _). simpl in Hkr. lia. }
    split; [split|split; [by destruct Hc2; split|]].
    + split; simpl; [rewrite (ch_hlen _ _ _ _ Hc2); lia|]. intros k ?. lia.
    + intros k Hkr. simpl in Hkr. lia.
    + intros k Hkr. simpl in Hkr. lia.
    + split; [done|]. split; [done|]. split; [|done]. intros p. split; [intros []%Hno|].
      intros [(k & Hkr & Hkp) Hne]. assert (k = 1) as -> by lia. congruence.
  - destruct (places_heap q (size q) Hp) as [c Hc]; [lia|].
    change (heap_at (set_size q2 (size q - 1)) 1) with (heap_at q2 1). rewrite Hh1, Hc. cbn [mbind option_bind].
    destruct (pl_at q Hp (size q)) as (c' & nc & Hc' & Hnc & _); [lia|]. assert (c' = c) as -> by congruence.
    destruct (Hn2 c nc Hnc) as (nc' & Hnc' & _ & _).
    destruct (upd_node_ok (set_myIndex 1) (set_size q2 (size q - 1)) c nc') as (q4 & Hq4 & _); [done|].
    rewrite Hq4. cbn [mbind option_bind].
    destruct (popped_ok q m q2 q4) with (c := c) as (Hp4 & Hk4 & Hd4 & Hc4 & Hs4 & Hm4); [done|lia|done..|].
    destruct (sift_down_ok (Z.to_nat (size q4)) q4 1) as (q5 & -> & Hr5); [done|done|lia|lia|done|].
    cbn [mbind option_bind]. exists q5. split; [done|]. split; [by eapply resifted_ok|].
    destruct Hr5 as (Hsm5 & _ & _ & Hm5). split; [by eapply changed_sames|].
    split; [by rewrite (sm_size _ _ Hsm5)|]. split; [done|]. split; [|done]. intros p. by rewrite Hm5, Hm4.
Qed.

(** The heap never holds more than the nodes that can be in it. *)
Lemma size_bound q (l : list Z) : places q → (∀ p, mem q p → p ∈ l) → size q <= zlen l.
Proof.
  intros Hp Hl. pose proof (pl_size q Hp) as Hs.
  assert (∀ n : nat, Z.of_nat n <= size q → ∃ ps, length ps = n ∧ NoDup ps ∧
    ∀ p, p ∈ ps → ∃ k, 1 <= k <= Z.of_nat n ∧ heap_at q k = Some p) as Hps.
  { induction n as [|n IH]; intros Hn.
    - exists []. split; [done|]. split; [constructor|]. intros p Hnil. by apply not_elem_of_nil in Hnil.
    - destruct IH as (ps & Hlen & Hnd & Hin); [lia|]. destruct (places_heap q (Z.of_nat (S n)) Hp) as [p Hk]; [lia|].
      exists (p :: ps). split; [simpl; lia|]. split.
      + constructor; [|done]. intros (k & Hkr & Hkp)%Hin.
        pose proof (places_inj q k (Z.of_nat (S n)) p Hp ltac:(lia) ltac:(lia) Hkp Hk). lia.
      + intros p' [->|Hp']%elem_of_cons; [exists (Z.of_nat (S n)); split; [lia|done]|].
        destruct (Hin p' Hp') as (k & Hkr & Hkp). exists k. split; [lia|done]. }
  destruct (Hps (Z.to_nat (size q))) as (ps & Hlen & Hnd & Hin); [lia|].
  assert (length ps <= length l)%nat; [|unfold zlen; lia].
  apply submseteq_length, NoDup_submseteq; [done|]. intros p (k & Hkr & Hkp)%Hin. apply Hl.
  exists k. split; [lia|done].
Qed.

(** ** The abstract queue: a finite map from open nodes to keys *)

Inductive qop : Type :=
| OPush (p : Z) (par : option Z) (cost total : float)    (** store the costs of a node that is not open, [Push] it *)
| OLower (p : Z) (par : option Z) (cost total : float)   (** lower the costs of an open node, [Update] it *)
| OPop.

Definition run_qop (q : OpenQueueBH) (op : qop) : option (option Z * OpenQueueBH) :=
  match op with
  | OPush p par c t => q ← upd_node (set_costs par c t) q p; q ← Push q p; Some (None, q)
  | OLower p par c t => q ← upd_node (set_costs par c t) q p; q ← Update q p; Some (None, q)
  | OPop => '(m, q) ← Pop q; Some (Some m, q)
  end.

(** When the operation may be called; [cells] nodes exist, one of which is never pushed. *)
Definition enabled (cells : Z) (K : gmap Z float) (op : qop) : Prop :=
  match op with
  | OPush p _ _ t => 0 <= p < cells ∧ K !! p = None ∧ is_nan t = false ∧ Z.of_nat (base.size K) + 1 < cells
  | OLower p _ _ t => ∃ t0, K !! p = Some t0 ∧ fleb t t0 = true
  | OPop => K ≠ ∅
  end.

(** What it may do: [Pop] takes any node with a least key. *)
Inductive astep (K : gmap Z float) : qop → option Z → gmap Z float → Prop :=
| astep_push p par c t : astep K (OPush p par c t) None (<[p := t]> K)
| astep_lower p par c t : astep K (OLower p par c t) None (<[p := t]> K)
| astep_pop p t : K !! p = Some t → (∀ p' t', K !! p' = Some t' → fleb t t' = true) →
    astep K OPop (Some p) (delete p K).

Record represents (cells : Z) (q : OpenQueueBH) (K : gmap Z float) : Prop := {
  rp_heap : heap_ok q;
  rp_cells : zlen (pathNodeMem q) = cells ∧ zlen (heapArray q) = cells;
  rp_size : size q = Z.of_nat (base.size K);
  rp_mem : ∀ p, mem q p ↔ is_Some (K !! p);
  rp_key : ∀ p x, K !! p = Some x → key_of q p = Some x;
  rp_open : ∀ p n, node_at q p = Some n → inOpen n = bool_decide (is_Some (K !! p))
}.

Lemma changed_node f p q q' p' n' :
  changed f p q q' → node_at q' p' = Some n' →
  ∃ n, node_at q p' = Some n ∧ bare n' = bare (if decide (p = p') then f n else n).
Proof.
  intros [_ _ Hb] Hn. specialize (Hb p'). rewrite Hn in Hb. simpl in Hb.
  destruct (node_at q p') as [n|]; [|by case_decide]. exists n. split; [done|].
  case_decide; by apply (inj Some) in Hb.
Qed.

Lemma bare_inOpen n n' : bare n = bare n' → inOpen n = inOpen n'.
Proof. by injection 1. Qed.

(** A change of a node that is not in the heap. *)
Lemma upd_outside_ok f q p n :
  heap_ok q → node_at q p = Some n → ¬ mem q p →
  ∃ q1, upd_node f q p = Some q1 ∧ heap_ok q1 ∧ changed f p q q1 ∧
    size q1 = size q ∧ heapArray q1 = heapArray q ∧ node_at q1 p = Some (f n) ∧
    ∀ p', mem q1 p' ↔ mem q p'.
Proof.
  intros [Hp Hk Ho] Hn Hm.
  destruct (upd_node_ok f q p n Hn) as (q1 & Hq1 & Hs1 & Hh1 & Hl1 & Hn1).
  assert (∀ k, heap_at q1 k = heap_at q k) as Hheap by (intros k; unfold heap_at; by rewrite Hh1).
  assert (∀ k, 1 <= k <= size q → key q1 k = key q k) as Hkey.
  { intros k Hkr. rewrite !key_heap, Hheap. destruct (heap_at q k) as [p'|] eqn:E; [|done]. simpl. unfold key_of.
    rewrite Hn1, decide_False; [done|]. intros ->. apply Hm. by exists k. }
  exists q1. split; [done|]. split; [split|].
  - split; [rewrite Hs1, Hh1; apply Hp|]. intros k Hkr.
    destruct (pl_at q Hp k) as (p' & n' & Hpk & Hn' & Hi); [lia|].
    exists p', n'. rewrite Hheap. split; [done|]. split; [|done]. rewrite Hn1, decide_False; [done|].
    intros ->. apply Hm. exists k. split; [lia|done].
  - intros k Hkr. rewrite Hkey by lia. apply Hk. lia.
  - intros k Hkr. unfold kle. rewrite !Hkey by dlia. apply Ho. lia.
  - split; [split; [by rewrite Hh1|done|]|]; [|split; [done|]; split; [done|]; split].
    + intros p'. rewrite Hn1. case_decide; [subst; by rewrite Hn|done].
    + by rewrite Hn1, decide_True.
    + intros p'. unfold mem. setoid_rewrite Hheap. by rewrite Hs1.
Qed.

(** The heap only looks at its array and at the places and keys of the nodes. *)
Lemma heap_ok_ext q q' :
  size q' = size q → heapArray q' = heapArray q →
  (∀ p, (λ n, (myIndex n, totalCost n)) <$> node_at q' p = (λ n, (myIndex n, totalCost n)) <$> node_at q p) →
  heap_ok q → heap_ok q' ∧ ∀ p, mem q' p ↔ mem q p.
Proof.
  intros Hs Hh Hn [Hp Hk Ho].
  assert (∀ k, heap_at q' k = heap_at q k) as Hheap by (intros k; unfold heap_at; by rewrite Hh).
  assert (∀ k, key q' k = key q k) as Hkey.
  { intros k. rewrite !key_heap, Hheap. destruct (heap_at q k) as [p|]; [|done]. simpl. unfold key_of.
    specialize (Hn p). destruct (node_at q' p), (node_at q p); simpl in *; congruence. }
  split; [split|].
  - split; [rewrite Hs, Hh; apply Hp|]. intros k Hkr.
    destruct (pl_at q Hp k) as (p & n & Hpk & Hnp & Hi); [lia|]. specialize (Hn p). rewrite Hnp in Hn.
    destruct (node_at q' p) as [n'|] eqn:E; [|done]. injection Hn as Hi' _.
    exists p, n'. rewrite Hheap. split; [done|]. split; congruence.
  - intros k Hkr. rewrite Hkey. apply Hk. lia.
  - intros k Hkr. unfold kle. rewrite !Hkey. apply Ho. lia.
  - intros p. unfold mem. setoid_rewrite Hheap. by rewrite Hs.
Qed.

Lemma open_set (K : gmap Z float) p t : bool_decide (is_Some (<[p := t]> K !! p)) = true.
Proof. apply bool_decide_eq_true_2. rewrite lookup_insert_eq. eauto. Qed.
Lemma open_unset (K : gmap Z float) p : bool_decide (is_Some (delete p K !! p)) = false.
Proof. apply bool_decide_eq_false_2. rewrite lookup_delete_eq. by intros []. Qed.
Lemma open_insert (K : gmap Z float) p t p' : is_Some (<[p := t]> K !! p') ↔ p' = p ∨ is_Some (K !! p').
Proof. rewrite lookup_insert_is_Some. destruct (decide (p = p')) as [->|]; intuition congruence. Qed.

Section simulation.
Context (cells : Z) (q : OpenQueueBH) (K : gmap Z float).
Hypothesis Hrep : represents cells q K.

(** What each operation owes the refinement theorem. *)
Definition simulated (op : qop) : Prop :=
  ∃ out q' K', run_qop q op = Some (out, q') ∧ astep K op out K' ∧ represents cells q' K'.

Lemma push_simulated p par c t : enabled cells K (OPush p par c t) → simulated (OPush p par c t).
Proof.
  destruct Hrep as [Hok [Hcm Hch] Hsz Hmem Hkey Hop]. intros (Hp & HK & Hnan & Hcap). unfold simulated, run_qop.
  destruct (zget_is_Some (pathNodeMem q) p) as [n Hn]; [lia|].
  assert (¬ mem q p) as Hnm by (rewrite Hmem, HK; by intros []).
  destruct (upd_outside_ok (set_costs par c t) q p n) as (q1 & -> & Hok1 & Hc1 & Hs1 & Hh1 & Hn1 & Hm1); [done..|].
  destruct (oq_Push_ok q1 p (set_costs par c t n)) as (q2 & E2 & Hok2 & Hc2 & Hs2 & Hm2);
    [done|done|by rewrite Hm1|done|rewrite Hs1, Hh1, Hch; lia|].
  cbn [mbind option_bind]. rewrite E2. cbn [mbind option_bind].
  eexists _, _, _. split; [done|]. split; [constructor|]. split.
  - done.
  - rewrite (ch_mlen _ _ _ _ Hc2), (ch_mlen _ _ _ _ Hc1), (ch_hlen _ _ _ _ Hc2), Hh1. done.
  - rewrite map_size_insert_None by done. lia.
  - intros p'. by rewrite Hm2, Hm1, Hmem, open_insert.
  - intros p' x Hx. rewrite (bare_key_of q1 q2 p _ p' Hc2). unfold key_of.
    destruct (decide (p = p')) as [<-|Hne].
    + rewrite lookup_insert_eq in Hx. rewrite Hn1. by simplify_eq.
    + rewrite lookup_insert_ne in Hx by done. fold (key_of q1 p').
      rewrite (bare_key_of q q1 p _ p' Hc1), decide_False by done. by apply Hkey.
  - intros p' n2 Hn2. destruct (changed_node _ _ _ _ _ _ Hc2 Hn2) as (n1 & Hn1' & ->%bare_inOpen).
    destruct (changed_node _ _ _ _ _ _ Hc1 Hn1') as (n0 & Hn0 & Hb1%bare_inOpen).
    destruct (decide (p = p')) as [<-|Hne]; [by rewrite open_set|].
    rewrite lookup_insert_ne, Hb1 by done. by apply Hop.
Qed.

Lemma lower_simulated p par c t : enabled cells K (OLower p par c t) → simulated (OLower p par c t).
Proof.
  destruct Hrep as [Hok [Hcm Hch] Hsz Hmem Hkey Hop]. intros (t0 & HK & Ht). unfold simulated, run_qop.
  assert (mem q p) as Hm by (apply Hmem; eauto).
  pose proof (Hkey p t0 HK) as Hk0. unfold key_of in Hk0. apply fmap_Some in Hk0 as (n & Hn & ->).
  destruct (oq_Update_ok q p n par c t) as (q1 & q2 & -> & E2 & Hok2 & Hc2 & Hs2 & Hm2); [done..|].
  cbn [mbind option_bind]. rewrite E2. cbn [mbind option_bind].
  eexists _, _, _. split; [done|]. split; [constructor|]. split.
  - done.
  - by rewrite (ch_mlen _ _ _ _ Hc2), (ch_hlen _ _ _ _ Hc2).
  - rewrite map_size_insert_Some by eauto. lia.
  - intros p'. rewrite Hm2, Hmem, open_insert. split; [auto|]. intros [->|]; eauto.
  - intros p' x Hx. rewrite (bare_key_of q q2 p _ p' Hc2). destruct (decide (p = p')) as [<-|Hne].
    + rewrite lookup_insert_eq in Hx. rewrite Hn. by simplify_eq.
    + rewrite lookup_insert_ne in Hx by done. by apply Hkey.
  - intros p' n2 Hn2. destruct (changed_node _ _ _ _ _ _ Hc2 Hn2) as (n1 & Hn1' & ->%bare_inOpen).
    destruct (decide (p = p')) as [<-|Hne]; [|rewrite lookup_insert_ne by done; by apply Hop].
    rewrite open_set. simpl. rewrite (Hop p) by done. apply bool_decide_eq_true_2. eauto.
Qed.

Lemma pop_simulated : enabled cells K OPop → simulated OPop.
Proof.
  destruct Hrep as [Hok [Hcm Hch] Hsz Hmem Hkey Hop]. intros Hne. unfold simulated, run_qop.
  assert (0 < size q) as Hpos.
  { rewrite Hsz. destruct (base.size K) eqn:E; [|lia]. by apply map_size_empty_iff in E. }
  destruct (oq_Pop_ok q Hok Hpos) as (m & q2 & -> & Hok2 & Hc2 & Hs2 & Hm & Hm2 & Hmin).
  cbn [mbind option_bind]. apply Hmem in Hm as [t Ht].
  eexists _, _, _. split; [done|]. split; [|split].
  - apply (astep_pop _ m t); [done|]. intros p' t' Ht'. apply (Hmin p'); [apply Hmem; eauto|by apply Hkey..].
  - done.
  - by rewrite (ch_mlen _ _ _ _ Hc2), (ch_hlen _ _ _ _ Hc2).
  - rewrite Hs2, Hsz, <-(insert_delete_id K m t Ht) at 1. rewrite map_size_insert_None by apply lookup_delete_eq. lia.
  - intros p'. rewrite Hm2, Hmem, lookup_delete_is_Some. intuition congruence.
  - intros p' x Hx. apply lookup_delete_Some in Hx as [Hmp Hx]. rewrite (bare_key_of q q2 m _ p' Hc2).
    rewrite decide_False by done. by apply Hkey.
  - intros p' n2 Hn2. destruct (changed_node _ _ _ _ _ _ Hc2 Hn2) as (n1 & Hn1' & ->%bare_inOpen).
    destruct (decide (m = p')) as [<-|Hmp]; [by rewrite open_unset|].
    rewrite lookup_delete_ne by done. by apply Hop.
Qed.
End simulation.

(** C17: [OpenQueueBH] implements a priority queue.  An empty queue over fresh nodes represents the empty
    map, and whenever the array heap represents a map of open nodes to keys, every operation the search
    performs on it, storing a node's costs and pushing it, lowering an open node's costs and updating it,
    popping, runs without leaving the arrays or reading an indeterminate place, does what the abstract
    queue does (a pop returns a node with a least key), and represents the resulting map. *)
Theorem open_queue_refines (cells : Z) :
  (∀ mem0 heap0, 0 < cells → zlen mem0 = cells → zlen heap0 = cells → Forall (λ n, inOpen n = false) mem0 →
     represents cells (mkQueue mem0 heap0 0) ∅) ∧
  ∀ q K op, represents cells q K → enabled cells K op →
    ∃ out q' K', run_qop q op = Some (out, q') ∧ astep K op out K' ∧ represents cells q' K'.
Proof.
  split.
  - intros mem0 heap0 Hc Hm Hh Hf. split; simpl; try done.
    + split; [split; simpl; [lia|intros; lia]|intros k ?; simpl in *; lia..].
    + intros p. rewrite lookup_empty. split; [intros (k & Hk & _); simpl in Hk; lia|by intros []].
    + intros p n Hn. rewrite lookup_empty, bool_decide_eq_false_2 by (by intros []).
      unfold node_at, zget in Hn. simpl in Hn. case_decide; [|done]. by eapply Forall_lookup_1 in Hf.
  - intros q K op Hrep Hen. destruct op as [p par c t|p par c t|].
    + by apply push_simulated.
    + by apply lower_simulated.
    + by apply pop_simulated.
Qed.

Definition three_nodes : list PathNode := (λ i, Init i 0 i 0 FLT_BIG None None) <$> [0; 1; 2].

Lemma open_queue_refines_witness :
  represents 3 (mkQueue three_nodes [None; None; None] 0) ∅ ∧
  ∃ out q' K', run_qop (mkQueue three_nodes [None; None; None] 0) (OPush 1 None f0 f1) = Some (out, q') ∧
    astep ∅ (OPush 1 None f0 f1) out K' ∧ represents 3 q' K'.
Proof.
  assert (represents 3 (mkQueue three_nodes [None; None; None] 0) ∅) as Hr.
  { apply (proj1 (open_queue_refines 3)); [lia|reflexivity|reflexivity|by repeat constructor]. }
  split; [exact Hr|]. apply (proj2 (open_queue_refines 3)); [exact Hr|].
  split; [lia|]. split; [reflexivity|]. split; [reflexivity|]. vm_compute. reflexivity.
Defined.
