(* ===== verification/MicroPather.v ===== *)
(** * MicroPather: the path finder's searches

    [terrain/path/MicroPather.cpp] (class [CMicroPather]): the searches; the conversions of positions are in
    [PathGraph], the end of a run in [PathInfo].  The map is a grid with one extra row and column
    of cells on every side; a node is an index of that grid, [index2] the index of the same
    cell without the border.  The three searches share one loop (pop, test, relax the eight
    neighbours, close); what differs between them is the value of type [Rules] (which cells
    are skipped, what a step costs, which key the queue uses) and the test made on a popped
    node.  A search runs on the nodes and the heap array of the pather ([OpenQueueBH]) and
    writes them back.  The loop takes fuel; [None] is undefined behaviour or lack of fuel.  The
  searches' first line, [assert(!isRunning)], is not a guard of the model: it always holds, since
  [isRunning] is part of the invariant ([pw_running] of [BestPath]). *)

From S2P Require Import Prelude Float32 OpenQueue.

Local Open Scope circuit_scope.

Definition SQRT_2 : float := flit 14142 10000.
Definition THREAT_EPSILON : float := flit 1 100.
Definition MOVE_EPSILON : float := flit 1 10.

Definition CostFunc : Type := Z → option float.
Definition TestFunc : Type := Z * Z → Z * Z → bool.

Inductive Outcome : Type := SOLVED | NO_SOLUTION | START_END_SAME.

(** What [SetMapData] stores. *)
Record MapData : Type := mkMapData {
  canMoveArray : list bool;
  threatArray : list float;
  moveFun : CostFunc;
  threatFun : CostFunc;
  heightMap : list float
}.

Record CMicroPather : Type := mkPather {
  mapData : MapData;
  mapSizeX : Z;
  mapSizeY : Z;
  offsets : list Z;
  xEndNode : Z;                      (* not initialised; every search that reads them sets them *)
  yEndNode : Z;
  isRunning : bool;
  heightMapSizeX : Z;
  nodeMem : list PathNode;           (* [pathNodeMem] *)
  heapArrayMem : list (option Z);
  pathNodeCount : Z;
  frame : Z
}.

Definition set_nodes (m : list PathNode) (mp : CMicroPather) : CMicroPather :=
  mkPather (mapData mp) (mapSizeX mp) (mapSizeY mp) (offsets mp) (xEndNode mp) (yEndNode mp) (isRunning mp)
    (heightMapSizeX mp) m (heapArrayMem mp) (pathNodeCount mp) (frame mp).
Definition set_heap (h : list (option Z)) (mp : CMicroPather) : CMicroPather :=
  mkPather (mapData mp) (mapSizeX mp) (mapSizeY mp) (offsets mp) (xEndNode mp) (yEndNode mp) (isRunning mp)
    (heightMapSizeX mp) (nodeMem mp) h (pathNodeCount mp) (frame mp).
Definition set_running (b : bool) (mp : CMicroPather) : CMicroPather :=
  mkPather (mapData mp) (mapSizeX mp) (mapSizeY mp) (offsets mp) (xEndNode mp) (yEndNode mp) b
    (heightMapSizeX mp) (nodeMem mp) (heapArrayMem mp) (pathNodeCount mp) (frame mp).
Definition set_frame (f : Z) (mp : CMicroPather) : CMicroPather :=
  mkPather (mapData mp) (mapSizeX mp) (mapSizeY mp) (offsets mp) (xEndNode mp) (yEndNode mp) (isRunning mp)
    (heightMapSizeX mp) (nodeMem mp) (heapArrayMem mp) (pathNodeCount mp) f.
Definition set_end (x y : Z) (mp : CMicroPather) : CMicroPather :=
  mkPather (mapData mp) (mapSizeX mp) (mapSizeY mp) (offsets mp) x y (isRunning mp)
    (heightMapSizeX mp) (nodeMem mp) (heapArrayMem mp) (pathNodeCount mp) (frame mp).

Definition SetMapData (md : MapData) (mp : CMicroPather) : CMicroPather :=
  mkPather md (mapSizeX mp) (mapSizeY mp) (offsets mp) (xEndNode mp) (yEndNode mp) (isRunning mp)
    (heightMapSizeX mp) (nodeMem mp) (heapArrayMem mp) (pathNodeCount mp) (frame mp).

(** [ALLOCATE] *)
Definition cells (mp : CMicroPather) : Z := mapSizeX mp * mapSizeY mp.

(** The node at index [i] of a grid of width [w], as [AllocatePathNode] initialises it. *)
Definition fresh_node (w i : Z) : PathNode :=
  let y := Z.quot i w in
  let x := i - y * w in
  Init x y ((y - 1) * (w - 2) + x - 1) 0 FLT_BIG None None.

(** [AllocatePathNode]: the nodes, and the heap array still indeterminate. *)
Definition AllocatePathNode (w h : Z) : list PathNode * list (option Z) :=
  (fresh_node w <$> seqZ 0 (w * h), replicate (Z.to_nat (w * h)) None).

Definition make_offsets (w : Z) : list Z := [-1; 1; w; - w; - w - 1; - w + 1; w - 1; w + 1].

(** The constructor; [md] stands for the map pointers before the first [SetMapData]. *)
Definition new_CMicroPather (md : MapData) (sizeX sizeY heightSizeX : Z) : CMicroPather :=
  let w := sizeX + 2 in
  let h := sizeY + 2 in
  let '(nodes, heap) := AllocatePathNode w h in
  mkPather md w h (make_offsets w) 0 0 false heightSizeX nodes heap (w * h) 0.

Definition Reset (mp : CMicroPather) : CMicroPather :=
  set_frame 1 (set_nodes (Reuse 0 <$> nodeMem mp) mp).

(** "no node can be at the edge!": a coordinate on the border moves one cell inwards. *)
Definition off_edge (x size : Z) : Z :=
  if decide (x = 0) then 1 else if decide (x = size - 1) then size - 2 else x.

Definition fix_xy (w h index : Z) : Z * Z :=
  let y := Z.quot index w in
  let x := index - y * w in
  (off_edge x w, off_edge y h).

Definition FixNode (mp : CMicroPather) (node : Z) : Z :=
  let '(x, y) := fix_xy (mapSizeX mp) (mapSizeY mp) node in
  y * mapSizeX mp + x.

Definition FixStartEndNode (mp : CMicroPather) (startNode endNode : Z) : CMicroPather * Z * Z :=
  let '(xs, ys) := fix_xy (mapSizeX mp) (mapSizeY mp) startNode in
  let '(xe, ye) := fix_xy (mapSizeX mp) (mapSizeY mp) endNode in
  (set_end xe ye mp, ys * mapSizeX mp + xs, ye * mapSizeX mp + xe).

Definition DiagonalDistance (xStart yStart xEnd yEnd : Z) : float :=
  let dx := Z.abs (xStart - xEnd) in
  let dy := Z.abs (yStart - yEnd) in
  fsub (f_of_Z (dx + dy)) (fmul (flit 5858 10000) (f_of_Z (Z.min dx dy))).

(** [LeastCostEstimateLocal], by coordinates and by node. *)
Definition LeastCostEstimateXY (mp : CMicroPather) (xStart yStart : Z) : float :=
  DiagonalDistance xStart yStart (xEndNode mp) (yEndNode mp).
Definition LeastCostEstimateLocal (mp : CMicroPather) (nodeStartIndex : Z) : float :=
  let yStart := Z.quot nodeStartIndex (mapSizeX mp) in
  let xStart := nodeStartIndex - yStart * mapSizeX mp in
  LeastCostEstimateXY mp xStart yStart.

(** ** The shared loop *)

Record Rules : Type := mkRules {
  skips : Z → option bool;              (* by [index2]: the neighbour is not considered *)
  nodeCost : Z → option float;          (* by [index2]: the cost of entering the cell *)
  queueKey : PathNode → float → float   (* the new [totalCost] for a new [costFromStart] *)
}.

(** What the loops read of the pather. *)
Record Grid : Type := mkGrid {
  g_canMove : list bool;
  g_offsets : list Z;
  g_frame : Z
}.

Definition grid_of (mp : CMicroPather) : Grid := mkGrid (canMoveArray (mapData mp)) (offsets mp) (frame mp).

(** The cost of the step in direction [i]: the last four offsets are the diagonals. *)
Definition step_cost (i : Z) (c : float) : float := if decide (3 < i) then fmul c SQRT_2 else c.

(** One iteration of the [for] loop over the neighbours of [node], whose cost is [nodeCostFromStart]. *)
Definition relax (R : Rules) (g : Grid) (node : Z) (nodeCostFromStart : float) (i : Z) (q : OpenQueueBH) :
    option OpenQueueBH :=
  off ← zget (g_offsets g) i;
  let indexEnd := off + node in
  canMove ← zget (g_canMove g) indexEnd;
  if negb canMove then Some q else
  directNode ← node_at q indexEnd;
  let idx2 := index2 directNode in
  skip ← skips R idx2;
  if (skip : bool) then Some q else
  q ← (if decide (pn_frame directNode ≠ g_frame g) then upd_node (Reuse (g_frame g)) q indexEnd else Some q);
  c ← nodeCost R idx2;
  let newCost := fadd nodeCostFromStart (step_cost i c) in
  directNode ← node_at q indexEnd;
  if fleb (costFromStart directNode) newCost then Some q else
  q ← upd_node (set_costs (Some node) newCost (queueKey R directNode newCost)) q indexEnd;
  if inOpen directNode then Update q indexEnd
  else
    q ← upd_node (set_inClosed false) q indexEnd;
    Push q indexEnd.

Definition expand (R : Rules) (g : Grid) (q : OpenQueueBH) (node : Z) : option OpenQueueBH :=
  n ← node_at q node;
  q ← zfor 0 8 (relax R g node (costFromStart n)) q;
  upd_node (set_inClosed true) q node.

(** The [while] loop; [visit] is what it does with a popped node, [true] when the goal is reached. *)
Section search.
Context {V : Type}.

Fixpoint search (fuel : nat) (R : Rules) (g : Grid) (visit : Z → PathNode → V → option (V * bool))
    (q : OpenQueueBH) (v : V) : option (OpenQueueBH * V * option Z) :=
  match fuel with
  | O => None
  | S fuel =>
      if Empty q then Some (q, v, None) else
      '(node, q) ← Pop q;
      n ← node_at q node;
      '(v, goal) ← visit node n v;
      if (goal : bool) then Some (q, v, Some node) else
      q ← expand R g q node;
      search fuel R g visit q v
  end.
End search.

(** The head of every search: the frame counter, the queue and the start node, keyed [key]. *)
Definition next_frame (mp : CMicroPather) : CMicroPather :=
  let mp := set_frame (u32 (frame mp + 1)) mp in
  if decide (65534 < frame mp) then Reset mp else mp.

Definition start_queue (mp : CMicroPather) (startNode : Z) (key : float) : option OpenQueueBH :=
  q ← upd_node (λ n, set_costs (parent (Reuse (frame mp) n)) f0 key (Reuse (frame mp) n))
        (mkQueue (nodeMem mp) (heapArrayMem mp) 0) startNode;
  Push q startNode.

(** The pather after a search, its memory written back. *)
Definition leave (mp : CMicroPather) (q : OpenQueueBH) : CMicroPather :=
  set_running false (set_heap (heapArray q) (set_nodes (pathNodeMem q) mp)).

(** ** The path of a solved search *)

(** [while (it->parent) { ++count; it = it->parent; }] *)
Fixpoint count_parents (fuel : nat) (q : OpenQueueBH) (it count : Z) : option Z :=
  match fuel with
  | O => None
  | S fuel =>
      n ← node_at q it;
      match parent n with
      | None => Some count
      | Some p => count_parents fuel q p (count + 1)
      end
  end.

(** [while (it->parent) { path[count] = it->index2; it = it->parent; --count; }] *)
Fixpoint fill_parents (fuel : nat) (q : OpenQueueBH) (it count : Z) (path : list Z) : option (list Z) :=
  match fuel with
  | O => None
  | S fuel =>
      n ← node_at q it;
      match parent n with
      | None => Some path
      | Some p =>
          path ← zset path count (index2 n);
          fill_parents fuel q p (count - 1) path
      end
  end.

(** The parents of a node are at most all nodes, so their number is enough fuel. *)
Definition GoalReached (q : OpenQueueBH) (node start end_ : Z) : option (list Z) :=
  s ← node_at q start;
  if decide (start = end_) then Some [index2 s] else
  let fuel := S (length (pathNodeMem q)) in
  count ← count_parents fuel q node 1;
  n ← node_at q node;
  if decide (count < 3) then Some [index2 s; index2 n] else
  let path := replicate (Z.to_nat count) 0 in
  path ← zset path 0 (index2 s);
  path ← zset path (count - 1) (index2 n);
  p ← parent n;
  fill_parents fuel q p (count - 2) path.

(** ** [FindBestPathToAnyGivenPoint] *)

(** [threatArray[index2] > maxThreat] and [COST_BASE + moveFun(index2) + threatFun(index2)] *)
Definition too_dangerous (md : MapData) (maxThreat : float) (idx2 : Z) : option bool :=
  t ← zget (threatArray md) idx2; Some (fgtb t maxThreat).
Definition move_cost (md : MapData) (idx2 : Z) : option float :=
  a ← moveFun md idx2;
  b ← threatFun md idx2;
  Some (fadd (fadd COST_BASE a) b).

Definition path_rules (mp : CMicroPather) (maxThreat : float) : Rules :=
  mkRules (too_dangerous (mapData mp) maxThreat) (move_cost (mapData mp))
    (λ n newCost, fadd newCost (LeastCostEstimateXY mp (x2 n) (y2 n))).

(** "select best goal node": the targets are moved off the border, the nearest one guides the search. *)
Definition nearest_target (mp : CMicroPather) (startNode : Z) (acc : float * Z) (target : Z) : float * Z :=
  let '(leastCost, endNode) := acc in
  let yStart := Z.quot startNode (mapSizeX mp) in
  let xStart := startNode - yStart * mapSizeX mp in
  let y := Z.quot target (mapSizeX mp) in
  let x := target - y * mapSizeX mp in
  let cost := DiagonalDistance xStart yStart x y in
  if fgtb leastCost cost then (cost, target) else (leastCost, endNode).

Definition mark_end (b : bool) (q : OpenQueueBH) (node : Z) : option OpenQueueBH := upd_node (set_isEndNode b) q node.

Definition any_visit (_ : Z) (n : PathNode) (v : unit) : option (unit * bool) := Some (v, isEndNode n).

(** The outcome of a search: the pather, the result, and the outputs [path] and [cost]. *)
Record Answer : Type := mkAnswer {
  an_mp : CMicroPather;
  an_outcome : Outcome;
  an_path : list Z;
  an_cost : float
}.

(** [endNodes] and [targets] are changed in place: the third and fourth results. *)
Definition FindBestPathToAnyGivenPoint (fuel : nat) (mp : CMicroPather) (startNode : Z) (endNodes targets : list Z)
    (maxThreat : float) (path : list Z) : option (Answer * list Z * list Z) :=
  match endNodes with
  | [] => Some (mkAnswer (set_running false mp) NO_SOLUTION path f0, endNodes, targets)
  | firstEnd :: _ =>
      let mp := set_running true mp in
      let targets := FixNode mp <$> targets in
      let '(_, endNode) := foldl (nearest_target mp startNode) (FLT_MAX, firstEnd) targets in
      let '(mp, startNode, _) := FixStartEndNode mp startNode endNode in
      let mp := next_frame mp in
      q ← start_queue mp startNode (LeastCostEstimateLocal mp startNode);
      let endNodes := FixNode mp <$> endNodes in
      q ← foldM (mark_end true) q endNodes;
      '(q, _, found) ← search fuel (path_rules mp maxThreat) (grid_of mp) any_visit q tt;
      match found with
      | Some node =>
          path ← GoalReached q node startNode node;
          n ← node_at q node;
          q ← foldM (mark_end false) q endNodes;
          Some (mkAnswer (leave mp q) SOLVED path (costFromStart n), endNodes, targets)
      | None =>
          q ← foldM (mark_end false) q endNodes;
          Some (mkAnswer (leave mp q) NO_SOLUTION path f0, endNodes, targets)
      end
  end.

(** ** [FindBestPathToPointOnRadius] *)

(** [xend[a]]: the half width of the circle in row [a] of its bounding box. *)
Definition circle_row (radius a : Z) : option Z :=
  let z := f_of_Z (a - radius) in
  let floatsqrradius := f_of_Z (radius * radius) in
  f_to_int (fsqrt (fsub floatsqrradius (fmul z z))).

Definition circle_rows (radius : Z) : option (list Z) :=
  foldM (λ acc a, r ← circle_row radius a; Some (acc ++ [r])) [] (seqZ 0 (2 * radius + 1)).

(** The box test, the row test and [hitTest], made on the popped node. *)
Definition radius_visit (mp : CMicroPather) (x y radius : Z) (xend : list Z) (hitTest : TestFunc)
    (node : Z) (_ : PathNode) (v : unit) : option (unit * bool) :=
  let ystart := Z.quot node (mapSizeX mp) in
  let xstart := node - ystart * mapSizeX mp in
  if decide ((y - radius <= ystart ∧ ystart <= y + radius) ∧ (x - radius <= xstart ∧ xstart <= x + radius)) then
    let relativeY := ystart - (yEndNode mp - radius) in
    let relativeX := Z.abs (xstart - xEndNode mp) in
    r ← zget xend relativeY;
    if decide (relativeX <= r) then Some (v, hitTest (xstart - 1, ystart - 1) (x - 1, y - 1))
    else Some (v, false)
  else Some (v, false).

Definition FindBestPathToPointOnRadius (fuel : nat) (mp : CMicroPather) (startNode endNode radius : Z)
    (maxThreat : float) (hitTest : TestFunc) (path : list Z) : option Answer :=
  if decide (radius <= 0) then Some (mkAnswer (set_running false mp) NO_SOLUTION path f0) else
  let mp := set_running true mp in
  let '(mp, startNode, endNode) := FixStartEndNode mp startNode endNode in
  let mp := next_frame mp in
  q ← start_queue mp startNode (LeastCostEstimateLocal mp startNode);
  let y := Z.quot endNode (mapSizeX mp) in
  let x := endNode - y * mapSizeX mp in
  xend ← circle_rows radius;
  '(q, _, found) ← search fuel (path_rules mp maxThreat) (grid_of mp) (radius_visit mp x y radius xend hitTest) q tt;
  match found with
  | Some node =>
      path ← GoalReached q node startNode node;
      n ← node_at q node;
      Some (mkAnswer (leave mp q) SOLVED path (costFromStart n))
  | None => Some (mkAnswer (leave mp q) NO_SOLUTION path f0)
  end.

(** ** [MakeCostMap] *)

Definition cost_rules (mp : CMicroPather) : Rules :=
  mkRules (λ _, Some false) (λ idx2, t ← zget (threatArray (mapData mp)) idx2; Some (fadd COST_BASE t))
    (λ _ newCost, newCost).

Definition cost_visit (_ : Z) (n : PathNode) (costMap : list float) : option (list float * bool) :=
  costMap ← zset costMap (index2 n) (costFromStart n);
  Some (costMap, false).

Definition MakeCostMap (fuel : nat) (mp : CMicroPather) (startNode : Z) (costMap : list float) :
    option (CMicroPather * list float) :=
  let mp := set_running true mp in
  let startNode := FixNode mp startNode in
  let mp := next_frame mp in
  q ← start_queue mp startNode f0;
  '(q, costMap, _) ← search fuel (cost_rules mp) (grid_of mp) cost_visit q costMap;
  Some (leave mp q, costMap).

(** ** A small map: a wall with a gap, and a dangerous cell *)

Definition small_move : list bool :=
  [ false; false; false; false; false;
    false; true;  true;  true;  false;
    false; false; false; true;  false;
    false; true;  true;  true;  false;
    false; false; false; false; false ].
Definition small_map : MapData :=
  mkMapData small_move (replicate 9 f0) (λ _, Some f0) (λ _, Some f0) (replicate 9 f0).
Definition small_pather : CMicroPather := new_CMicroPather small_map 3 3 3.

Example small_path :
  (λ r, (an_outcome r.1.1, an_path r.1.1)) <$> FindBestPathToAnyGivenPoint 20 small_pather 6 [16] [16] f1 [] =
    Some (SOLVED, [0; 1; 5; 7; 6]).
Proof. vm_compute. reflexivity. Qed.
