(* ===== verification/PathSearch.v ===== *)
(** * PathSearch: what the shared search loop computes

    The loop of [MicroPather] is verified once, for any rules whose costs are non-negative
    [float] values.  The specification is a graph: an edge leads from a cell to one of its
    eight neighbours that can be entered, and a walk adds up the step costs in [float]
    arithmetic, from the start.  The invariant says that the cost of every reached node is
    that of a walk, that parents lead back to the start along edges without a cycle, and
    that closed nodes have been relaxed; the sum of the costs, as integers, decreases with
    every relaxation, so the loop ends. *)

From S2P Require Import Prelude Float32 FloatRound OpenQueue MicroPather.

Local Open Scope circuit_scope.

(** The value [Reuse] gives to [costFromStart]: a node whose cost reaches it is never entered. *)
Definition BIG : Z := fval FLT_BIG_2.

Lemma FLT_BIG_2_costf : costf FLT_BIG_2 = true.
Proof. reflexivity. Qed.
Lemma BIG_val : BIG = 16777215 * 2 ^ 251.
Proof. reflexivity. Qed.
Lemma SQRT_2_costf c : costf c = true → costf (fmul c SQRT_2) = true.
Proof. intros Hc. change SQRT_2 with (SpecFloat.S754_finite false 11863169 (-23)). by apply fmul_costf. Qed.
Lemma step_cost_costf i c : costf c = true → costf (step_cost i c) = true.
Proof. intros Hc. unfold step_cost. case_decide; [by apply SQRT_2_costf|done]. Qed.

(** What the search reads of a node: its place is the heap's, and [inClosed] is only written. *)
Definition core (n : PathNode) : PathNode := set_inClosed false (bare n).
Definition view (q : OpenQueueBH) (p : Z) : option PathNode := core <$> node_at q p.

(** An update that does not depend on what [core] forgets. *)
Definition core_fun (f : PathNode → PathNode) : Prop := ∀ n, core (f n) = core (f (core n)).

Lemma view_changed f q q' p p' :
  core_fun f → changed f p q q' →
  view q' p' = if decide (p = p') then core ∘ f <$> view q p' else view q p'.
Proof.
  intros Hf [_ _ Hb]. specialize (Hb p'). unfold view.
  assert (∀ m : option PathNode, core <$> m = set_inClosed false <$> (bare <$> m)) as Hc by (by intros []).
  rewrite Hc, Hb, <-Hc. case_decide; [|done]. destruct (node_at q p'); [|done]. simpl. by rewrite Hf.
Qed.

Lemma view_node q p n : node_at q p = Some n → view q p = Some (core n).
Proof. unfold view. by intros ->. Qed.
Lemma node_view q p n : view q p = Some n → ∃ n', node_at q p = Some n' ∧ n = core n'.
Proof. unfold view. intros (n' & ? & ?)%fmap_Some. eauto. Qed.

(** ** The graph *)

Section graph.
Context (R : Rules) (g : Grid) (w h s : Z).

Definition interior (p : Z) : Prop := 0 < p `mod` w < w - 1 ∧ 0 < p / w < h - 1.
(** The index of a cell without the border. *)
Definition i2 (p : Z) : Z := (p / w - 1) * (w - 2) + p `mod` w - 1.

(** The eight directions of a step, and what a step costs: a diagonal one costs [SQRT_2] times more. *)
Definition directions : list (Z * Z) := [(-1, 0); (1, 0); (0, 1); (0, -1); (-1, -1); (1, -1); (-1, 1); (1, 1)].
Definition entering (dir : Z * Z) (c : float) : float := if decide (dir.1 ≠ 0 ∧ dir.2 ≠ 0) then fmul c SQRT_2 else c.

(** A step from [u] to [d] in direction [i] of the list, entering costs [c]. *)
Definition edge (u d i : Z) (c : float) : Prop :=
  ∃ dir nc, zget directions i = Some dir ∧ d = u + dir.2 * w + dir.1 ∧ zget (g_canMove g) d = Some true ∧
    skips R (i2 d) = Some false ∧ nodeCost R (i2 d) = Some nc ∧ c = entering dir nc.

(** A walk from the start, with its cost added up in [float]. *)
Inductive walk : Z → float → Prop :=
| walk_start : walk s f0
| walk_step u c d i wt : walk u c → edge u d i wt → walk d (fadd c wt).

(** What the grid and the rules must satisfy: the arrays have the size of the grid, the border
    cannot be entered, costs are not negative, and keys grow with the cost. *)
Record rules_ok : Prop := {
  ro_w : 3 <= w;
  ro_h : 3 <= h;
  ro_frame : 0 <= g_frame g < 65536;
  ro_offsets : g_offsets g = make_offsets w;
  ro_len : zlen (g_canMove g) = w * h;
  ro_border : ∀ p, zget (g_canMove g) p = Some true → interior p;
  ro_start : interior s;
  ro_skips : ∀ p, interior p → ∃ b, skips R (i2 p) = Some b;
  ro_cost : ∀ p, interior p → ∃ c, nodeCost R (i2 p) = Some c ∧ costf c = true;
  ro_key : ∀ p n c, interior p → x2 n = p `mod` w → y2 n = p / w → costf c = true → costf (queueKey R n c) = true;
  ro_mono : ∀ p n c c', interior p → x2 n = p `mod` w → y2 n = p / w → costf c = true → costf c' = true →
    fval c <= fval c' → fval (queueKey R n c) <= fval (queueKey R n c');
  ro_same : ∀ n n' c, x2 n = x2 n' → y2 n = y2 n' → queueKey R n c = queueKey R n' c
}.

Hypothesis Hok : rules_ok.
Let fr : Z := g_frame g.

Lemma interior_range p : interior p → 0 < p < w * h - 1.
Proof.
  intros [Hx Hy]. pose proof (ro_w Hok). pose proof (Z.div_mod p w ltac:(lia)). nia.
Qed.

(** The eight neighbours of an interior cell are cells, other than itself. *)
Lemma offset_range u i off :
  interior u → zget (make_offsets w) i = Some off → 0 <= off + u < w * h ∧ off ≠ 0.
Proof.
  intros [Hx Hy] Hoff. pose proof (ro_w Hok) as Hw. pose proof (Z.div_mod u w ltac:(lia)) as Hu.
  assert (w * 1 <= w * (u / w) <= w * (h - 2)) as Hb by nia.
  pose proof (zget_Some_bound _ _ _ Hoff) as Hi. change (zlen (make_offsets w)) with 8 in Hi.
  assert (off ∈ make_offsets w) as Hin.
  { unfold zget in Hoff. rewrite decide_True in Hoff by lia. by apply list_elem_of_lookup_2 in Hoff. }
  unfold make_offsets in Hin. rewrite !elem_of_cons, elem_of_nil in Hin.
  destruct Hin as [->|[->|[->|[->|[->|[->|[->|[->|[]]]]]]]]]; lia.
Qed.

(** The code's table of offsets and its test [i > 3] say the same. *)
Lemma edge_offset u d i c :
  edge u d i c ↔ ∃ off nc, zget (make_offsets w) i = Some off ∧ d = off + u ∧ zget (g_canMove g) d = Some true ∧
    skips R (i2 d) = Some false ∧ nodeCost R (i2 d) = Some nc ∧ c = step_cost i nc.
Proof.
  unfold edge. split; intros (x & nc & Hx & -> & Hm & Hs & Hc & ->); pose proof (zget_Some_bound _ _ _ Hx) as Hi;
    [change (zlen directions) with 8 in Hi|change (zlen (make_offsets w)) with 8 in Hi];
    unfold zget in Hx; rewrite decide_True in Hx by lia;
    assert (i = 0 ∨ i = 1 ∨ i = 2 ∨ i = 3 ∨ i = 4 ∨ i = 5 ∨ i = 6 ∨ i = 7) as Hcase by lia;
    destruct_or! Hcase; subst i; simpl in Hx; injection Hx as <-;
    (eexists _, nc; split; [reflexivity|]; split; [simpl; lia|done]).
Qed.

Lemma edge_costf u d i c : edge u d i c → costf c = true.
Proof.
  intros (off & nc & _ & _ & Hm & _ & Hc & ->)%edge_offset. apply step_cost_costf.
  destruct (ro_cost Hok d) as (nc' & Hc' & ?); [by apply (ro_border Hok)|]. congruence.
Qed.
Lemma edge_interior u d i c : edge u d i c → interior d.
Proof. intros (off & nc & _ & _ & Hm & _). by apply (ro_border Hok). Qed.
Lemma edge_ne u d i c : interior u → edge u d i c → d ≠ u.
Proof. intros Hu (off & nc & Hoff & -> & _)%edge_offset. pose proof (offset_range u i off Hu Hoff). lia. Qed.

Lemma walk_costf p c : walk p c → costf c = true.
Proof. induction 1; [done|]. apply fadd_costf; [done|by eapply edge_costf]. Qed.
Lemma walk_interior p c : walk p c → interior p.
Proof. destruct 1; [apply (ro_start Hok)|by eapply edge_interior]. Qed.

(** ** The invariant of the loop *)

Section invariant.
Context (isEnd : Z → bool).

Abbreviation state := (Z → option PathNode).
Implicit Types (S : Z → option PathNode) (O : Z → Prop).

(** The cost of a node in this search, as an integer; nodes of earlier searches count as not reached. *)
Definition label S (p : Z) : Z :=
  match S p with
  | Some n => if decide (pn_frame n = fr) then fval (costFromStart n) else BIG
  | None => BIG
  end.

(** The node [n] was reached in this search. *)
Definition reached S (p : Z) (n : PathNode) : Prop :=
  S p = Some n ∧ pn_frame n = fr ∧ fval (costFromStart n) < BIG.

(** Following [parent] from [p] passes the nodes of the list and ends at a node without one. *)
Inductive chain S : Z → list Z → Prop :=
| chain_root p n : S p = Some n → parent n = None → chain S p [p]
| chain_up p n u l : S p = Some n → parent n = Some u → chain S u l → chain S p (p :: l).

Record Inv S O : Prop := {
  iv_dom : ∀ p, is_Some (S p) ↔ 0 <= p < w * h;
  iv_geo : ∀ p n, S p = Some n → x2 n = p `mod` w ∧ y2 n = p / w ∧ index2 n = i2 p ∧ isEndNode n = isEnd p;
  iv_frame : ∀ p n, S p = Some n → 0 <= pn_frame n <= fr;
  iv_open : ∀ p n, S p = Some n → (O p ↔ pn_frame n = fr ∧ inOpen n = true);
  iv_open_key : ∀ p n, O p → S p = Some n →
    fval (costFromStart n) < BIG ∧ totalCost n = queueKey R n (costFromStart n);
  iv_start : ∃ n, reached S s n ∧ costFromStart n = f0 ∧ parent n = None;
  iv_live : ∀ p n, S p = Some n → pn_frame n = fr →
    costFromStart n = FLT_BIG_2 ∨ fval (costFromStart n) < BIG ∧ walk p (costFromStart n);
  iv_parent : ∀ p n, reached S p n → p ≠ s →
    ∃ u m i wt, parent n = Some u ∧ reached S u m ∧ edge u p i wt ∧
      fval (fadd (costFromStart m) wt) <= fval (costFromStart n);
  iv_chain : ∀ p n, reached S p n → ∃ l, chain S p l
}.

(** Closed nodes are relaxed, except for the edges in [exc], those not looked at yet. *)
Definition relaxed S O (exc : Z → Z → Prop) : Prop :=
  ∀ u n d i wt, reached S u n → ¬ O u → edge u d i wt → ¬ exc u i →
    label S d <= fval (fadd (costFromStart n) wt).

Lemma reached_label S p n : reached S p n → label S p = fval (costFromStart n) ∧ label S p < BIG.
Proof. intros (H1 & H2 & H3). unfold label. rewrite H1, decide_True by done. done. Qed.
Lemma label_reached S p : label S p < BIG → ∃ n, reached S p n.
Proof.
  unfold label, reached. destruct (S p) as [n|]; [|lia]. case_decide; [|lia]. intros ?. by exists n.
Qed.
Lemma label_le S O p : Inv S O → 0 <= label S p <= BIG.
Proof.
  intros HI. unfold label. assert (0 <= BIG) by (rewrite BIG_val; done). destruct (S p) as [n|] eqn:E; [|lia].
  case_decide as Hf; [|lia]. destruct (iv_live _ _ HI p n E Hf) as [->|[? Hw]].
  - change (fval FLT_BIG_2) with BIG. lia.
  - pose proof (fval_bounds _ (walk_costf _ _ Hw)). lia.
Qed.
Lemma reached_walk S O p n : Inv S O → reached S p n → walk p (costFromStart n).
Proof.
  intros HI (H1 & H2 & H3). destruct (iv_live _ _ HI p n H1 H2) as [E|[_ ?]]; [|done].
  rewrite E in H3. change (fval FLT_BIG_2) with BIG in H3. lia.
Qed.
Lemma reached_costf S O p n : Inv S O → reached S p n → costf (costFromStart n) = true.
Proof. intros HI Hr. by eapply walk_costf, reached_walk. Qed.
Lemma reached_interior S O p n : Inv S O → reached S p n → interior p.
Proof. intros HI Hr. by eapply walk_interior, reached_walk. Qed.
Lemma open_reached S O p : Inv S O → O p → (∃ n, S p = Some n) → ∃ n, reached S p n.
Proof.
  intros HI Ho [n Hn]. exists n. destruct (iv_open_key _ _ HI p n Ho Hn) as [? _].
  pose proof (proj1 (iv_open _ _ HI p n Hn) Ho) as [? _]. done.
Qed.

(** Costs do not increase towards the start. *)
Lemma chain_label S O p l :
  Inv S O → chain S p l → label S p < BIG → ∀ x, x ∈ l → label S x <= label S p.
Proof.
  intros HI Hch. induction Hch as [p n Hp Hpar|p n u l Hp Hpar Hch IH]; intros Hlab x Hx.
  - apply list_elem_of_singleton in Hx as ->. done.
  - apply elem_of_cons in Hx as [->|Hx]; [done|].
    destruct (label_reached S p Hlab) as [n' Hr]. assert (n' = n) as -> by (destruct Hr; congruence).
    assert (p ≠ s) as Hps. { intros ->. destruct (iv_start _ _ HI) as (n0 & (? & _) & _ & ?). congruence. }
    destruct (iv_parent _ _ HI p n Hr Hps) as (u' & m & i & wt & Hu & Hrm & He & Hle).
    assert (u' = u) as -> by congruence. destruct (reached_label S u m Hrm) as [Hlu Hlu'].
    pose proof (fadd_grows (costFromStart m) wt (reached_costf S O u m HI Hrm) (edge_costf _ _ _ _ He)).
    destruct (reached_label S p n Hr) as [Hlp _]. specialize (IH Hlu' x Hx). lia.
Qed.

(** A chain that does not pass [d] survives a change of [d]; one that does is redirected. *)
Lemma chain_keep S S' d p l : (∀ p, p ≠ d → S' p = S p) → chain S p l → d ∉ l → chain S' p l.
Proof.
  intros Hs Hch. induction Hch as [p n Hp Hpar|p n u l Hp Hpar Hch IH]; intros Hd.
  - apply (chain_root _ _ n); [|done]. rewrite Hs; [done|]. intros ->. apply Hd. by left.
  - apply not_elem_of_cons in Hd as [Hd Hl]. apply (chain_up _ _ n u); [by rewrite Hs|done|by apply IH].
Qed.
Lemma chain_redirect S S' d p l ld :
  (∀ p, p ≠ d → S' p = S p) → chain S' d ld → chain S p l → ∃ l', chain S' p l'.
Proof.
  intros Hs Hd Hch. induction Hch as [p n Hp Hpar|p n u l Hp Hpar Hch [l' IH]];
    (destruct (decide (p = d)) as [->|Hne]; [by exists ld|]).
  - exists [p]. apply (chain_root _ _ n); [by rewrite Hs|done].
  - exists (p :: l'). apply (chain_up _ _ n u); [by rewrite Hs|done|done].
Qed.

(** [S'] is [S] with a better cost for [d], found through [u]. *)
Record relabel S O (u d : Z) (c : float) (n : PathNode) S' O' : Prop := {
  rl_other : ∀ p, p ≠ d → S' p = S p;
  rl_node : S' d = Some n;
  rl_geo : x2 n = d `mod` w ∧ y2 n = d / w ∧ index2 n = i2 d ∧ isEndNode n = isEnd d;
  rl_live : pn_frame n = fr ∧ inOpen n = true;
  rl_parent : parent n = Some u;
  rl_cost : costFromStart n = c;
  rl_key : totalCost n = queueKey R n c;
  rl_open : ∀ p, O' p ↔ p = d ∨ O p
}.

Section one_relabel.
Context S O S' O' (u : Z) (m : PathNode) (d i : Z) (wt : float) (n : PathNode).
Hypothesis HI : Inv S O.
Hypothesis Hu : reached S u m.
Hypothesis He : edge u d i wt.
Hypothesis Hbetter : fval (fadd (costFromStart m) wt) < label S d.
Hypothesis Hre : relabel S O u d (fadd (costFromStart m) wt) n S' O'.

Lemma relabel_cost : walk d (fadd (costFromStart m) wt) ∧ fval (fadd (costFromStart m) wt) < BIG.
Proof.
  split; [eapply walk_step; [by eapply reached_walk|done]|]. pose proof (label_le S O d HI). lia.
Qed.

Lemma relabel_ne : d ≠ u ∧ d ≠ s.
Proof.
  split; [eapply edge_ne; [by eapply reached_interior|done]|]. intros Hds. pose proof Hbetter as Hb. rewrite Hds in Hb.
  destruct (iv_start _ _ HI) as (n0 & Hn0 & Hc0 & _). destruct (reached_label S s n0 Hn0) as [Hl _].
  rewrite Hc0 in Hl. change (fval f0) with 0 in Hl.
  pose proof (fval_bounds _ (walk_costf _ _ (proj1 relabel_cost))). lia.
Qed.

Lemma relabel_reached p m' : p ≠ d → reached S' p m' ↔ reached S p m'.
Proof. intros Hp. unfold reached. by rewrite (rl_other _ _ _ _ _ _ _ _ Hre p Hp). Qed.

Lemma relabel_d : reached S' d n.
Proof.
  split; [apply Hre|]. split; [apply Hre|]. rewrite (rl_cost _ _ _ _ _ _ _ _ Hre). apply relabel_cost.
Qed.

Lemma relabel_label p : label S' p = if decide (p = d) then fval (fadd (costFromStart m) wt) else label S p.
Proof.
  case_decide as E.
  - subst p. destruct (reached_label _ _ _ relabel_d) as [-> _]. by rewrite (rl_cost _ _ _ _ _ _ _ _ Hre).
  - unfold label. by rewrite (rl_other _ _ _ _ _ _ _ _ Hre p E).
Qed.

Lemma relabel_chain p m' : reached S' p m' → ∃ l, chain S' p l.
Proof.
  intros Hr. destruct (iv_chain _ _ HI u m Hu) as [lu Hlu]. destruct relabel_ne as [Hdu _].
  assert (d ∉ lu) as Hd.
  { intros Hin. pose proof (chain_label S O u lu HI Hlu (proj2 (reached_label S u m Hu)) d Hin) as Hle.
    destruct (reached_label S u m Hu) as [Hl _].
    pose proof (fadd_grows (costFromStart m) wt (reached_costf S O u m HI Hu) (edge_costf _ _ _ _ He)). lia. }
  assert (chain S' d (d :: lu)) as Hcd.
  { apply (chain_up _ _ n u); [apply Hre|apply Hre|]. by apply (chain_keep S S' d); [apply Hre| |]. }
  destruct (decide (p = d)) as [->|Hp]; [eauto|]. apply (relabel_reached p m' Hp) in Hr.
  destruct (iv_chain _ _ HI p m' Hr) as [l Hl]. by apply (chain_redirect S S' d p l (d :: lu)); [apply Hre| |].
Qed.

Lemma Inv_relabel : Inv S' O'.
Proof.
  destruct relabel_ne as [Hdu Hds]. destruct relabel_cost as [Hwalk Hbig]. pose proof Hre as [Ho Hn Hg [Hf Hop] Hpa Hc Hk HO].
  split.
  - intros p. destruct (decide (p = d)) as [->|Hp]; [|rewrite Ho by done; apply HI].
    rewrite Hn. split; [|eauto]. intros _. pose proof (interior_range d (edge_interior _ _ _ _ He)). lia.
  - intros p m' Hm. destruct (decide (p = d)) as [->|Hp]; [|rewrite Ho in Hm by done; by apply (iv_geo _ _ HI)].
    assert (m' = n) as -> by congruence. done.
  - intros p m' Hm. destruct (decide (p = d)) as [->|Hp]; [|rewrite Ho in Hm by done; by apply (iv_frame _ _ HI p m')].
    assert (m' = n) as -> by congruence. pose proof (ro_frame Hok) as Hfr. change (g_frame g) with fr in Hfr. lia.
  - intros p m' Hm. rewrite HO. destruct (decide (p = d)) as [->|Hp].
    + assert (m' = n) as -> by congruence. tauto.
    + rewrite Ho in Hm by done. rewrite <-(iv_open _ _ HI p m' Hm). tauto.
  - intros p m' [->|Hp]%HO Hm.
    + assert (m' = n) as -> by congruence. rewrite Hc. auto.
    + destruct (decide (p = d)) as [->|Hpd]; [assert (m' = n) as -> by congruence; rewrite Hc; auto|].
      rewrite Ho in Hm by done. by apply (iv_open_key _ _ HI p m').
  - destruct (iv_start _ _ HI) as (n0 & Hn0 & Hc0 & Hp0). exists n0. split; [|done]. by apply relabel_reached.
  - intros p m' Hm Hfr. destruct (decide (p = d)) as [->|Hp].
    + assert (m' = n) as -> by congruence. right. rewrite Hc. auto.
    + rewrite Ho in Hm by done. by apply (iv_live _ _ HI p m').
  - intros p m' Hr Hps. destruct (decide (p = d)) as [->|Hp].
    + destruct Hr as (Hm & _). assert (m' = n) as -> by congruence. exists u, m, i, wt.
      split; [done|]. split; [by apply relabel_reached|]. split; [done|]. rewrite Hc. lia.
    + apply (relabel_reached p m' Hp) in Hr.
      destruct (iv_parent _ _ HI p m' Hr Hps) as (u' & k & j & wt' & Hpu & Hru & Heu & Hle).
      destruct (decide (u' = d)) as [->|Hu'd].
      * exists d, n, j, wt'. split; [done|]. split; [apply relabel_d|]. split; [done|]. etrans; [|exact Hle].
        rewrite Hc. destruct (reached_label S d k Hru) as [Hlk _].
        apply fadd_mono; [by eapply walk_costf|by eapply reached_costf|by eapply edge_costf|lia].
      * exists u', k, j, wt'. split; [done|]. split; [by apply relabel_reached|]. done.
  - intros p m' Hr. by apply (relabel_chain p m').
Qed.

Lemma relaxed_relabel exc :
  relaxed S O exc → relaxed S' O' (λ u' i', exc u' i' ∧ ¬ (u' = u ∧ i' = i)).
Proof.
  intros Hrel u' k d' j wt' Hr Hop He' Hexc. rewrite (rl_open _ _ _ _ _ _ _ _ Hre) in Hop.
  assert (u' ≠ d) as Hne by (intros ->; apply Hop; by left). apply (relabel_reached u' k Hne) in Hr.
  rewrite relabel_label. destruct (decide (u' = u ∧ j = i)) as [[-> ->]|Hnot].
  - assert (k = m) as -> by (destruct Hr, Hu; congruence).
    destruct He as (off & nc & Ho1 & -> & Hm1 & Hs1 & Hc1 & ->), He' as (off' & nc' & Ho2 & -> & Hm2 & Hs2 & Hc2 & ->).
    simplify_eq. by rewrite decide_True.
  - assert (label S d' <= fval (fadd (costFromStart k) wt')) as Hle.
    { apply (Hrel u' k d' j wt'); try done; intros ?; [apply Hop; by right|apply Hexc; by split]. }
    case_decide; [subst; lia|done].
Qed.
End one_relabel.

(** [S'] is [S] with the node [d], which this search has not reached, made fresh by [Reuse]. *)
Lemma Inv_fresh S O S' O' d n :
  Inv S O → S d = Some n → pn_frame n ≠ fr →
  (∀ p, p ≠ d → S' p = S p) → S' d = Some (core (Reuse fr n)) → (∀ p, O' p ↔ O p) →
  Inv S' O' ∧ (∀ p, label S' p = label S p) ∧ ∀ exc, relaxed S O exc → relaxed S' O' exc.
Proof.
  intros HI Hd Hf Ho Hn HO. pose proof (ro_frame Hok) as Hfr.
  assert (pn_frame (core (Reuse fr n)) = fr) as Hf' by (simpl; by apply u16_small).
  assert (∀ p, label S' p = label S p) as Hlab.
  { intros p. unfold label. destruct (decide (p = d)) as [->|Hp]; [|by rewrite Ho].
    rewrite Hn, Hd, decide_True, decide_False by done. done. }
  assert (∀ p m, reached S' p m ↔ reached S p m) as Hr.
  { intros p m. destruct (decide (p = d)) as [->|Hp]; [|unfold reached; by rewrite Ho].
    unfold reached. rewrite Hn, Hd. split; [|by intros (? & ? & _); simplify_eq].
    intros ([= <-] & _ & Hb). change (fval _) with BIG in Hb. lia. }
  split; [|split; [done|]].
  - split.
    + intros p. destruct (decide (p = d)) as [->|Hp]; [|rewrite Ho by done; apply (iv_dom _ _ HI)].
      rewrite Hn, <-(iv_dom _ _ HI d), Hd. done.
    + intros p m Hm. destruct (decide (p = d)) as [->|Hp]; [|rewrite Ho in Hm by done; by apply (iv_geo _ _ HI)].
      rewrite Hn in Hm. simplify_eq. apply (iv_geo _ _ HI d n Hd).
    + intros p m Hm. destruct (decide (p = d)) as [->|Hp]; [|rewrite Ho in Hm by done; by apply (iv_frame _ _ HI p m)].
      rewrite Hn in Hm. simplify_eq. rewrite Hf'. change (g_frame g) with fr in Hfr. lia.
    + intros p m Hm. rewrite HO. destruct (decide (p = d)) as [->|Hp];
        [|rewrite Ho in Hm by done; by apply (iv_open _ _ HI)].
      rewrite Hn in Hm. simplify_eq. rewrite (iv_open _ _ HI d n Hd). simpl. split; intros [? ?]; done.
    + intros p m Hop%HO Hm. destruct (decide (p = d)) as [->|Hp];
        [|rewrite Ho in Hm by done; by apply (iv_open_key _ _ HI p m)].
      apply (iv_open _ _ HI d n Hd) in Hop as [? _]. done.
    + destruct (iv_start _ _ HI) as (n0 & Hn0 & ?). exists n0. by rewrite Hr.
    + intros p m Hm Hfm. destruct (decide (p = d)) as [->|Hp];
        [|rewrite Ho in Hm by done; by apply (iv_live _ _ HI p m)].
      rewrite Hn in Hm. simplify_eq. by left.
    + intros p m Hm%Hr Hps. destruct (iv_parent _ _ HI p m Hm Hps) as (u & k & i & wt & ? & ? & ?).
      exists u, k, i, wt. by rewrite Hr.
    + intros p m Hm%Hr. destruct (iv_chain _ _ HI p m Hm) as [l Hl]. exists l.
      apply (chain_keep S S' d); [done|done|]. intros Hin.
      pose proof (chain_label S O p l HI Hl (proj2 (reached_label S p m Hm)) d Hin) as Hle.
      destruct (reached_label S p m Hm) as [_ ?]. unfold label in Hle at 1.
      rewrite Hd, decide_False in Hle by done. lia.
  - intros exc Hrel u m x i wt Hm%Hr Hop He Hexc. rewrite Hlab. apply (Hrel u m x i wt); [done|by rewrite <-HO|done..].
Qed.

(** [S'] is [S] after the open node [u] was popped. *)
Lemma Inv_popped S O S' O' u n :
  Inv S O → S u = Some n → O u →
  (∀ p, p ≠ u → S' p = S p) → S' u = Some (core (set_inOpen false n)) → (∀ p, O' p ↔ O p ∧ p ≠ u) →
  Inv S' O' ∧ (∀ p, label S' p = label S p) ∧ (relaxed S O (λ _ _, False) → relaxed S' O' (λ u' _, u' = u)) ∧
  reached S' u (core (set_inOpen false n)) ∧ ∀ p m, p ≠ u → reached S' p m ↔ reached S p m.
Proof.
  intros HI Hu Hou Ho Hn HO. destruct (iv_open_key _ _ HI u n Hou Hu) as [Hc _].
  pose proof (proj1 (iv_open _ _ HI u n Hu) Hou) as [Hf _].
  assert (∀ p, label S' p = label S p) as Hlab.
  { intros p. unfold label. destruct (decide (p = u)) as [->|Hp]; [|by rewrite Ho]. by rewrite Hn, Hu. }
  assert (∀ p m, p ≠ u → reached S' p m ↔ reached S p m) as Hr by (intros p m Hp; unfold reached; by rewrite Ho).
  assert (reached S u n) as Hru by done.
  assert (reached S' u (core (set_inOpen false n))) as Hru' by done.
  assert (∀ p m, reached S' p m → ∃ m', reached S p m' ∧ costFromStart m = costFromStart m' ∧ parent m = parent m') as Hr1.
  { intros p m Hm. destruct (decide (p = u)) as [->|Hp]; [|exists m; by rewrite <-Hr].
    exists n. split; [done|]. destruct Hm as (Hm & _). rewrite Hn in Hm. by simplify_eq. }
  assert (∀ p m, reached S p m → ∃ m', reached S' p m' ∧ costFromStart m = costFromStart m' ∧ parent m = parent m') as Hr2.
  { intros p m Hm. destruct (decide (p = u)) as [->|Hp]; [|exists m; by rewrite Hr].
    eexists. split; [done|]. destruct Hm as (Hm & _). rewrite Hu in Hm. by simplify_eq. }
  split; [|split; [done|split; [|done]]].
  - split.
    + intros p. destruct (decide (p = u)) as [->|Hp]; [|rewrite Ho by done; apply (iv_dom _ _ HI)].
      rewrite Hn, <-(iv_dom _ _ HI u), Hu. done.
    + intros p m Hm. destruct (decide (p = u)) as [->|Hp]; [|rewrite Ho in Hm by done; by apply (iv_geo _ _ HI)].
      rewrite Hn in Hm. simplify_eq. apply (iv_geo _ _ HI u n Hu).
    + intros p m Hm. destruct (decide (p = u)) as [->|Hp]; [|rewrite Ho in Hm by done; by apply (iv_frame _ _ HI p m)].
      rewrite Hn in Hm. simplify_eq. apply (iv_frame _ _ HI u n Hu).
    + intros p m Hm. rewrite HO. destruct (decide (p = u)) as [->|Hp].
      * rewrite Hn in Hm. simplify_eq. simpl. split; intros [? ?]; done.
      * rewrite Ho in Hm by done. rewrite (iv_open _ _ HI p m Hm). tauto.
    + intros p m [Hop Hp]%HO Hm. rewrite Ho in Hm by done. by apply (iv_open_key _ _ HI p m).
    + destruct (iv_start _ _ HI) as (n0 & Hn0 & Hc0 & Hp0). destruct (Hr2 s n0 Hn0) as (m' & ? & ? & ?).
      exists m'. split; [done|]. split; congruence.
    + intros p m Hm Hfm. destruct (decide (p = u)) as [->|Hp];
        [|rewrite Ho in Hm by done; by apply (iv_live _ _ HI p m)].
      rewrite Hn in Hm. simplify_eq. apply (iv_live _ _ HI u n Hu Hf).
    + intros p m Hm Hps. destruct (Hr1 p m Hm) as (m1 & Hm1 & -> & ->).
      destruct (iv_parent _ _ HI p m1 Hm1 Hps) as (x & k & i & wt & Hpx & Hk & He & Hle).
      destruct (Hr2 x k Hk) as (k' & Hk' & Hck & _). exists x, k', i, wt. rewrite <-Hck. done.
    + intros p m Hm. destruct (Hr1 p m Hm) as (m1 & Hm1 & _). destruct (iv_chain _ _ HI p m1 Hm1) as [l Hl].
      exists l. clear Hm Hm1. induction Hl as [p k Hp Hpar|p k x l Hp Hpar Hch IH].
      * destruct (decide (p = u)) as [->|Hpu]; [|apply (chain_root _ _ k); [by rewrite Ho|done]].
        apply (chain_root _ _ _ Hn). by simplify_eq.
      * destruct (decide (p = u)) as [->|Hpu]; [|apply (chain_up _ _ k x); [by rewrite Ho|done|done]].
        apply (chain_up _ _ _ x _ Hn); [by simplify_eq|done].
  - intros Hrel x m y i wt Hm Hop He Hexc. rewrite Hlab. apply (Hr x m Hexc) in Hm.
    apply (Hrel x m y i wt); [done| |done|tauto]. intros ?. apply Hop, HO. done.
Qed.

(** ** The loop keeps the invariant *)

Record QInv (q : OpenQueueBH) (exc : Z → Z → Prop) : Prop := {
  qi_heap : heap_ok q;
  qi_len : zlen (pathNodeMem q) = w * h ∧ zlen (heapArray q) = w * h;
  qi_inv : Inv (view q) (mem q);
  qi_relaxed : relaxed (view q) (mem q) exc
}.

(** Twice the sum of the costs and the number of open nodes. *)
Definition measure (q : OpenQueueBH) : Z := 2 * lsum (label (view q)) (seqZ 0 (w * h)) + size q.

Lemma QInv_node q exc p : QInv q exc → 0 <= p < w * h → ∃ n, node_at q p = Some n.
Proof. intros HQ Hp. apply zget_is_Some. by rewrite (proj1 (qi_len _ _ HQ)). Qed.

Lemma QInv_size q exc : QInv q exc → size q + 1 < zlen (heapArray q).
Proof.
  intros HQ. destruct (qi_len _ _ HQ) as [_ ->]. pose proof (ro_w Hok). pose proof (ro_h Hok).
  pose proof (size_bound q (seqZ 1 (w * h - 2)) (ho_places _ (qi_heap _ _ HQ))) as Hb.
  unfold zlen in Hb. rewrite length_seqZ in Hb. assert (∀ p, mem q p → p ∈ seqZ 1 (w * h - 2)) as Hm; [|specialize (Hb Hm); nia].
  intros p Hp. assert (∃ n, view q p = Some n) as Hv.
  { destruct (ho_places _ (qi_heap _ _ HQ)) as [_ Hat]. destruct Hp as (k & Hk & Hkp).
    destruct (Hat k Hk) as (p' & n & ? & ? & _). simplify_eq. eexists. by apply view_node. }
  destruct (open_reached _ _ p (qi_inv _ _ HQ) Hp Hv) as [n Hr].
  pose proof (interior_range p (reached_interior _ _ _ _ (qi_inv _ _ HQ) Hr)). apply elem_of_seqZ. lia.
Qed.

Lemma relaxed_weaken S O u i exc :
  relaxed S O exc →
  (∀ n d wt, reached S u n → edge u d i wt → label S d <= fval (fadd (costFromStart n) wt)) →
  relaxed S O (λ u' i', exc u' i' ∧ ¬ (u' = u ∧ i' = i)).
Proof.
  intros Hrel Hdone u' n d j wt Hr Ho He Hexc. destruct (decide (u' = u ∧ j = i)) as [[-> ->]|Hne]; [by apply Hdone|].
  apply (Hrel u' n d j wt); try done. intros ?. apply Hexc. by split.
Qed.

(** The tail of [relax]: the better costs are stored and the node is put at its place in the queue. *)
Lemma node_stored_ok q exc d n u c key :
  QInv q exc → node_at q d = Some n → pn_frame n = fr → costf key = true →
  (inOpen n = true → fleb key (totalCost n) = true) →
  ∃ q', (q1 ← upd_node (set_costs (Some u) c key) q d;
         if inOpen n then Update q1 d else q1 ← upd_node (set_inClosed false) q1 d; Push q1 d) = Some q' ∧
    heap_ok q' ∧ zlen (pathNodeMem q') = w * h ∧ zlen (heapArray q') = w * h ∧
    (∀ p, view q' p = if decide (d = p) then Some (core (set_inOpen true (set_costs (Some u) c key n))) else view q p) ∧
    (∀ p, mem q' p ↔ p = d ∨ mem q p) ∧ size q' <= size q + 1.
Proof.
  intros HQ Hn Hf Hkey Hlow. destruct (qi_len _ _ HQ) as [Hlm Hlh]. pose proof (QInv_size _ _ HQ) as Hcap.
  pose proof (iv_open _ _ (qi_inv _ _ HQ) d (core n) (view_node _ _ _ Hn)) as Hopen. simpl in Hopen.
  assert (core_fun (set_costs (Some u) c key)) as Hcf by done.
  destruct (inOpen n) eqn:Hin.
  - assert (mem q d) as Hm by tauto.
    destruct (oq_Update_ok q d n (Some u) c key) as (q1 & q2 & -> & E & Hok2 & Hc2 & Hs2 & Hm2);
      [apply HQ|done|done|by apply Hlow|]. cbn [mbind option_bind]. exists q2. split; [done|].
    split; [done|]. split; [by rewrite (ch_mlen _ _ _ _ Hc2)|]. split; [by rewrite (ch_hlen _ _ _ _ Hc2)|].
    split; [|split; [|lia]].
    + intros p. rewrite (view_changed _ _ _ _ p Hcf Hc2). case_decide; [subst p|done]. rewrite (view_node _ _ _ Hn).
      simpl. unfold core, set_inClosed, set_inOpen, set_costs, bare. simpl. by rewrite Hin.
    + intros p. rewrite Hm2. split; [tauto|]. intros [->|]; done.
  - assert (¬ mem q d) as Hm by (intros [_ ?]%Hopen; done).
    destruct (upd_outside_ok (set_costs (Some u) c key) q d n) as (q1 & -> & Hok1 & Hc1 & Hs1 & Hh1 & Hn1 & Hm1);
      [apply HQ|done|done|]. cbn [mbind option_bind].
    destruct (upd_outside_ok (set_inClosed false) q1 d _ Hok1 Hn1) as (q2 & E2 & Hok2 & Hc2 & Hs2 & Hh2 & Hn2 & Hm2);
      [by rewrite Hm1|]. rewrite E2. cbn [mbind option_bind].
    destruct (oq_Push_ok q2 d _ Hok2 Hn2) as (q3 & -> & Hok3 & Hc3 & Hs3 & Hm3);
      [by rewrite Hm2, Hm1|by apply costf_not_nan|rewrite Hs2, Hs1, Hh2, Hh1; lia|].
    exists q3. split; [done|]. split; [done|].
    split; [by rewrite (ch_mlen _ _ _ _ Hc3), (ch_mlen _ _ _ _ Hc2), (ch_mlen _ _ _ _ Hc1)|].
    split; [by rewrite (ch_hlen _ _ _ _ Hc3), (ch_hlen _ _ _ _ Hc2), (ch_hlen _ _ _ _ Hc1)|].
    split; [|split; [|lia]].
    + intros p. rewrite (view_changed (set_inOpen true) q2 q3 d p) by done.
      rewrite (view_changed (set_inClosed false) q1 q2 d p) by done.
      rewrite (view_changed (set_costs (Some u) c key) q q1 d p) by done.
      case_decide; [subst p|done]. by rewrite (view_node _ _ _ Hn).
    + intros p. by rewrite Hm3, Hm2, Hm1.
Qed.

(** The node is made part of this search. *)
Lemma reuse_ok q exc d n :
  QInv q exc → node_at q d = Some n →
  ∃ q1 n1, (if decide (pn_frame n ≠ fr) then upd_node (Reuse fr) q d else Some q) = Some q1 ∧
    QInv q1 exc ∧ node_at q1 d = Some n1 ∧ pn_frame n1 = fr ∧ size q1 = size q ∧
    (∀ p, label (view q1) p = label (view q) p) ∧ (∀ p, p ≠ d → view q1 p = view q p) ∧ (∀ p, mem q1 p ↔ mem q p) ∧
    (reached (view q1) d (core n1) → n1 = n ∧ reached (view q) d (core n)).
Proof.
  intros HQ Hn. pose proof (ro_frame Hok) as Hfr. decide_goal as [Hf|Hf].
  - pose proof (iv_open _ _ (qi_inv _ _ HQ) d (core n) (view_node _ _ _ Hn)) as Hopen.
    destruct (upd_outside_ok (Reuse fr) q d n) as (q1 & -> & Hok1 & Hc1 & Hs1 & Hh1 & Hn1 & Hm1);
      [apply HQ|done|by intros [? _]%Hopen|].
    assert (core_fun (Reuse fr)) as Hcf by done.
    assert (∀ p, p ≠ d → view q1 p = view q p) as Hv.
    { intros p Hp. rewrite (view_changed _ _ _ _ p Hcf Hc1). by rewrite decide_False. }
    destruct (Inv_fresh (view q) (mem q) (view q1) (mem q1) d (core n)) as (HI1 & Hlab & Hrel);
      [apply HQ|by apply view_node|done|done|by rewrite (view_node _ _ _ Hn1)|done|].
    assert (pn_frame (Reuse fr n) = fr) as Hf1 by (by apply u16_small).
    exists q1, (Reuse fr n). split; [done|]. split; [|split_and!; try done].
    + destruct (qi_len _ _ HQ). split; [done| |done|apply Hrel, HQ].
      by rewrite (ch_mlen _ _ _ _ Hc1), (ch_hlen _ _ _ _ Hc1).
    + intros (_ & _ & Hb). change (fval _) with BIG in Hb. lia.
  - exists q, n. split; [done|]. split_and!; try done. by destruct (decide (pn_frame n = fr)).
Qed.

(** The closed nodes after a step were closed before it, unchanged. *)
Definition closed_kept (q q' : OpenQueueBH) : Prop :=
  (∀ p n, reached (view q') p n → ¬ mem q' p → reached (view q) p n ∧ ¬ mem q p) ∧
  (∀ p n, reached (view q) p n → ∃ n', reached (view q') p n').

Lemma closed_kept_refl q : closed_kept q q.
Proof. split; eauto. Qed.
Lemma closed_kept_trans q1 q2 q3 : closed_kept q1 q2 → closed_kept q2 q3 → closed_kept q1 q3.
Proof.
  intros [H1 H2] [H3 H4]. split.
  - intros p n Hr Hm. destruct (H3 p n Hr Hm). by apply H1.
  - intros p n Hr. destruct (H2 p n Hr) as [n' Hr']. by apply H4 in Hr'.
Qed.

(** What one step of the [for] loop establishes. *)
Record stepped (q : OpenQueueBH) (u : Z) (q' : OpenQueueBH) : Prop := {
  st_node : view q' u = view q u;
  st_closed : ¬ mem q' u;
  st_kept : closed_kept q q';
  st_label : ∀ p, label (view q') p = label (view q) p ∨
    label (view q) u <= label (view q') p < label (view q) p;
  st_open : ∀ p, mem q' p → mem q p ∨ label (view q') p < label (view q) p;
  st_measure : measure q' <= measure q
}.

Lemma stepped_refl q u : ¬ mem q u → stepped q u q.
Proof. intros ?. split; [done|done|apply closed_kept_refl|auto|auto|lia]. Qed.

Lemma stepped_trans q1 u q2 q3 : stepped q1 u q2 → stepped q2 u q3 → stepped q1 u q3.
Proof.
  intros [Hn1 _ Hk1 Hl1 Ho1 ?] [Hn2 ? Hk2 Hl2 Ho2 ?]. split; [congruence|done|by eapply closed_kept_trans| | |lia].
  - intros p. assert (label (view q2) u = label (view q1) u) as E by (unfold label; by rewrite Hn1).
    destruct (Hl1 p), (Hl2 p); lia.
  - intros p Hm. destruct (Hl1 p), (Hl2 p), (Ho2 p Hm) as [Hm2|]; try (destruct (Ho1 p Hm2)); auto; right; lia.
Qed.

(** Making a node part of this search changes nothing that counts. *)
Lemma reuse_stepped q exc u d n :
  QInv q exc → ¬ mem q u → d ≠ u → node_at q d = Some n →
  ∃ q1 n1, (if decide (pn_frame n ≠ fr) then upd_node (Reuse fr) q d else Some q) = Some q1 ∧
    QInv q1 exc ∧ node_at q1 d = Some n1 ∧ pn_frame n1 = fr ∧ stepped q u q1.
Proof.
  intros HQ Hmu Hdu Hn. destruct (reuse_ok q exc d n HQ Hn) as (q1 & n1 & Hq1 & HQ1 & Hn1 & Hf1 & Hs1 & Hl1 & Hv1 & Hm1 & Hr1).
  exists q1, n1. split_and!; [done..|]. split; [by apply Hv1|by rewrite Hm1| |auto|intros p; rewrite Hm1; auto|].
  - split.
    + intros p m Hr Hm. rewrite <-Hm1. split; [|done]. destruct (decide (p = d)) as [->|Hp].
      * pose proof Hr as (Hvd & _). rewrite (view_node _ _ _ Hn1) in Hvd. simplify_eq. by destruct (Hr1 Hr) as [-> ?].
      * unfold reached in *. by rewrite <-Hv1.
    + intros p m Hr. apply (label_reached (view q1) p). rewrite Hl1. by apply (reached_label _ _ _ Hr).
  - apply Z.eq_le_incl. unfold measure. rewrite Hs1. f_equal. f_equal. by apply lsum_ext.
Qed.

(** The key of an open node does not grow when its cost does not. *)
Lemma lower_key q exc d n c :
  QInv q exc → node_at q d = Some n → pn_frame n = fr → interior d → costf c = true → costf (costFromStart n) = true →
  fval c <= fval (costFromStart n) → inOpen n = true → fleb (queueKey R n c) (totalCost n) = true.
Proof.
  intros HQ Hn Hf Hint Hc Hcn Hle Hop. pose proof (qi_inv _ _ HQ) as HI.
  destruct (iv_geo _ _ HI d (core n) (view_node _ _ _ Hn)) as (Hx & Hy & _ & _). simpl in Hx, Hy.
  destruct (iv_open_key _ _ HI d (core n)) as [_ Hk].
  - apply (iv_open _ _ HI d _ (view_node _ _ _ Hn)). done.
  - by apply view_node.
  - simpl in Hk. rewrite Hk, (ro_same Hok (core n) n) by done.
    rewrite fleb_val by (done || by apply (ro_key Hok d)). by apply Z.leb_le, (ro_mono Hok d).
Qed.

(** A cheaper way to a node of this search is stored. *)
Lemma lower_ok q exc u nu d i wt n :
  QInv q exc → reached (view q) u (core nu) → ¬ mem q u → edge u d i wt → costf wt = true →
  node_at q d = Some n → pn_frame n = fr → costf (costFromStart n) = true →
  let c := fadd (costFromStart nu) wt in
  fval c < fval (costFromStart n) →
  ∃ q', (q1 ← upd_node (set_costs (Some u) c (queueKey R n c)) q d;
         if inOpen n then Update q1 d else q1 ← upd_node (set_inClosed false) q1 d; Push q1 d) = Some q' ∧
    QInv q' (λ u' i', exc u' i' ∧ ¬ (u' = u ∧ i' = i)) ∧ stepped q u q'.
Proof.
  intros HQ Hru Hmu He Hwt Hn Hf Hcn c Hlt. pose proof (qi_inv _ _ HQ) as HI.
  pose proof (edge_interior _ _ _ _ He) as Hintd. pose proof (edge_ne _ _ _ _ (reached_interior _ _ _ _ HI Hru) He) as Hdu.
  pose proof (reached_costf _ _ _ _ HI Hru) as Hcu. simpl in Hcu. assert (costf c = true) as Hcc by (by apply fadd_costf).
  destruct (iv_geo _ _ HI d (core n) (view_node _ _ _ Hn)) as (Hx & Hy & Hi2 & HE). simpl in Hx, Hy, Hi2, HE.
  destruct (node_stored_ok q exc d n u c (queueKey R n c)) as (q2 & Hq2 & Hok2 & Hlm2 & Hlh2 & Hv2 & Hm2 & Hs2);
    [done..|by apply (ro_key Hok d)|intros; eapply lower_key; try done; lia|].
  exists q2. split; [exact Hq2|]. set (n2 := core (set_inOpen true (set_costs (Some u) c (queueKey R n c) n))) in *.
  assert (relabel (view q) (mem q) u d c n2 (view q2) (mem q2)) as Hre.
  { split; try done; [intros p Hp; by rewrite Hv2, decide_False|by rewrite Hv2, decide_True|simpl; by apply (ro_same Hok)]. }
  assert (label (view q) d = fval (costFromStart n)) as Hld by (unfold label; rewrite (view_node _ _ _ Hn), decide_True by done; done).
  assert (fval c < label (view q) d) as Hbetter by lia.
  pose proof (Inv_relabel _ _ _ _ u (core nu) d i wt n2 HI Hru He Hbetter Hre) as HI2.
  pose proof (relaxed_relabel _ _ _ _ u (core nu) d i wt n2 HI Hru He Hbetter Hre) as Hrel2.
  pose proof (relabel_label _ _ _ _ u (core nu) d i wt n2 HI Hru He Hbetter Hre) as Hl2. simpl in Hl2. fold c in Hl2.
  split; [split; [done|done|done|apply Hrel2, HQ]|]. split.
  - by rewrite Hv2, decide_False.
  - rewrite Hm2. intros [?|?]; [congruence|done].
  - split.
    + intros p m Hr Hm. rewrite Hm2 in Hm. split; [|tauto]. unfold reached in *.
      rewrite Hv2, decide_False in Hr by (intros ->; tauto). done.
    + intros p m Hr. apply label_reached. rewrite Hl2. pose proof (label_le _ _ d HI).
      case_decide; [lia|]. by apply (reached_label _ _ _ Hr).
  - intros p. rewrite Hl2. case_decide; [subst p|by left]. right. split; [|done].
    rewrite (proj1 (reached_label _ _ _ Hru)). by apply fadd_grows.
  - intros p. rewrite Hm2, Hl2. intros [->|?]; [right|by left]. by rewrite decide_True.
  - unfold measure. rewrite (lsum_update (label (view q)) (label (view q2)) _ d);
      [rewrite (Hl2 d), decide_True by done; lia|apply NoDup_seqZ|apply elem_of_seqZ; pose proof (interior_range d Hintd); lia|].
    intros p _ Hp. by rewrite Hl2, decide_False.
Qed.

(** Without an edge, or when the edge leads nowhere cheaper, there is nothing to relax. *)
Lemma no_relax q exc u nu i d :
  QInv q exc → reached (view q) u (core nu) → (∀ off, zget (make_offsets w) i = Some off → off + u = d) →
  (∀ wt, edge u d i wt → label (view q) d <= fval (fadd (costFromStart nu) wt)) →
  QInv q (λ u' i', exc u' i' ∧ ¬ (u' = u ∧ i' = i)).
Proof.
  intros [H1 H2 H3 H4] Hru Hoff Hle. split; [done..|]. apply relaxed_weaken; [done|]. intros m d' wt Hm He.
  pose proof He as (off & nc & Ho & Hd & _)%edge_offset. assert (d' = d) as -> by (rewrite <-(Hoff off Ho); done).
  assert (m = core nu) as -> by (destruct Hm, Hru; congruence). by apply Hle.
Qed.

Lemma relax_ok q exc u nu i :
  QInv q exc → node_at q u = Some nu → reached (view q) u (core nu) → ¬ mem q u → 0 <= i < 8 →
  ∃ q', relax R g u (costFromStart nu) i q = Some q' ∧
    QInv q' (λ u' i', exc u' i' ∧ ¬ (u' = u ∧ i' = i)) ∧ stepped q u q'.
Proof.
  intros HQ Hnu Hru Hmu Hi. pose proof (qi_inv _ _ HQ) as HI. pose proof (reached_interior _ _ _ _ HI Hru) as Hint.
  unfold relax. rewrite (ro_offsets Hok).
  destruct (zget_is_Some (make_offsets w) i) as [off Hoff]; [done|]. rewrite Hoff. cbn [mbind option_bind].
  destruct (offset_range u i off Hint Hoff) as [Hdr Hoff0]. set (d := off + u) in *.
  assert (∀ off', zget (make_offsets w) i = Some off' → off' + u = d) as Hd by (intros ? ?; subst d; congruence).
  destruct (zget_is_Some (g_canMove g) d) as [b Hb]; [by rewrite (ro_len Hok)|]. rewrite Hb. cbn [mbind option_bind].
  pose proof (stepped_refl q u Hmu) as Hsame. pose proof (no_relax q exc u nu i d HQ Hru Hd) as Hno.
  destruct b; simpl negb.
  2:{ exists q. split; [done|]. split; [|done]. apply Hno. intros wt (off' & nc & Hoff' & _ & Hcan & _)%edge_offset. congruence. }
  pose proof (ro_border Hok d Hb) as Hintd. destruct (QInv_node _ _ d HQ Hdr) as [n Hn]. rewrite Hn.
  cbn [mbind option_bind]. destruct (iv_geo _ _ HI d (core n) (view_node _ _ _ Hn)) as (_ & _ & Hi2 & _). simpl in Hi2.
  rewrite Hi2. destruct (ro_skips Hok d Hintd) as [b Hskip]. rewrite Hskip. cbn [mbind option_bind]. destruct b.
  { exists q. split; [done|]. split; [|done]. apply Hno. intros wt (off' & nc & _ & _ & _ & Hs & _)%edge_offset. congruence. }
  destruct (ro_cost Hok d Hintd) as (nc & Hnc & Hcnc).
  assert (edge u d i (step_cost i nc)) as He by (apply edge_offset; exists off, nc; done).
  destruct (reuse_stepped q exc u d n HQ Hmu (edge_ne _ _ _ _ Hint He) Hn) as (q1 & n1 & Hq1 & HQ1 & Hn1 & Hf1 & St1).
  change (g_frame g) with fr. rewrite Hq1. cbn [mbind option_bind]. rewrite Hnc. cbn [mbind option_bind].
  rewrite Hn1. cbn [mbind option_bind]. pose proof (qi_inv _ _ HQ1) as HI1.
  assert (reached (view q1) u (core nu)) as Hru1 by (unfold reached; by rewrite (st_node _ _ _ St1)).
  pose proof (reached_costf _ _ _ _ HI Hru) as Hcu. simpl in Hcu. pose proof (step_cost_costf i nc Hcnc) as Hws.
  assert (costf (costFromStart n1) = true) as Hcn1.
  { destruct (iv_live _ _ HI1 d (core n1) (view_node _ _ _ Hn1) Hf1) as [E|[_ Hw]]; [simpl in E; by rewrite E|].
    by apply walk_costf in Hw. }
  destruct (fleb (costFromStart n1) _) eqn:Hcmp; rewrite fleb_val in Hcmp by (done || by apply fadd_costf).
  - (* not better than the existing path *)
    exists q1. split; [done|]. split; [|done]. apply (no_relax q1 exc u nu i d HQ1 Hru1 Hd).
    intros x (off' & nc' & _ & _ & _ & _ & Hnc' & ->)%edge_offset. assert (nc' = nc) as -> by congruence.
    unfold label. rewrite (view_node _ _ _ Hn1), decide_True by done. simpl. lia.
  - destruct (lower_ok q1 exc u nu d i (step_cost i nc) n1) as (q2 & Hq2 & HQ2 & St2);
      [done|done|by apply (st_closed _ _ _ St1)|done..|lia|].
    exists q2. split; [exact Hq2|]. split; [done|by eapply stepped_trans].
Qed.

(** The invariant only looks at the view and the open nodes. *)
Lemma QInv_ext q q' exc :
  heap_ok q' → zlen (pathNodeMem q') = zlen (pathNodeMem q) → zlen (heapArray q') = zlen (heapArray q) →
  (∀ p, view q' p = view q p) → (∀ p, mem q' p ↔ mem q p) → QInv q exc → QInv q' exc.
Proof.
  intros Hok' Hl1 Hl2 Hv Hm [_ [Hq1 Hq2] HI Hrel].
  assert (∀ p n, reached (view q') p n ↔ reached (view q) p n) as Hr by (intros; unfold reached; by rewrite Hv).
  assert (∀ p, label (view q') p = label (view q) p) as Hl by (intros; unfold label; by rewrite Hv).
  split; [done|split; congruence| |].
  - split.
    + intros p. rewrite Hv. apply (iv_dom _ _ HI).
    + intros p n. rewrite Hv. apply (iv_geo _ _ HI).
    + intros p n. rewrite Hv. apply (iv_frame _ _ HI).
    + intros p n. rewrite Hv, Hm. apply (iv_open _ _ HI).
    + intros p n. rewrite Hv, Hm. apply (iv_open_key _ _ HI).
    + destruct (iv_start _ _ HI) as (n & Hn & ?). exists n. by rewrite Hr.
    + intros p n. rewrite Hv. apply (iv_live _ _ HI).
    + intros p n Hn%Hr Hp. destruct (iv_parent _ _ HI p n Hn Hp) as (u & m & i & wt & ? & ? & ?).
      exists u, m, i, wt. by rewrite Hr.
    + intros p n Hn%Hr. destruct (iv_chain _ _ HI p n Hn) as [l Hch]. exists l. clear Hn.
      induction Hch as [x k Hx Hpar|x k y l Hx Hpar Hch IH].
      * apply (chain_root _ _ k); [by rewrite Hv|done].
      * apply (chain_up _ _ k y); [by rewrite Hv|done|done].
  - intros u n d i wt Hn Ho He Hexc. rewrite Hl. apply (Hrel u n d i wt); [by apply Hr|by rewrite <-Hm|done|done].
Qed.

Lemma expand_ok q u nu :
  QInv q (λ u' _, u' = u) → node_at q u = Some nu → reached (view q) u (core nu) → ¬ mem q u →
  ∃ q', expand R g q u = Some q' ∧ QInv q' (λ _ _, False) ∧ stepped q u q'.
Proof.
  intros HQ Hnu Hru Hmu. unfold expand. rewrite Hnu. cbn [mbind option_bind].
  destruct (zfor_ind (λ k q1, QInv q1 (λ u' i', u' = u ∧ k <= i') ∧ stepped q u q1) 0 8
    (relax R g u (costFromStart nu)) q) as (q1 & -> & HQ1 & Hst1); [lia| | |].
  - split; [|by apply stepped_refl]. destruct HQ as [H1 H2 H3 H4]. split; [done..|].
    intros u' n d i wt Hr Ho He Hexc. apply (H4 u' n d i wt); [done..|]. intros ->. apply Hexc. split; [done|].
    destruct He as (off & nc & Hoff & _). apply zget_Some_bound in Hoff. lia.
  - intros k q1 Hk [HQ1 Hst1].
    assert (view q1 u = Some (core nu)) as Hv1 by (rewrite (st_node _ _ _ Hst1); by apply view_node).
    destruct (node_view q1 u _ Hv1) as (nu1 & Hn1 & Hcore).
    assert (costFromStart nu1 = costFromStart nu) as Hc.
    { change (costFromStart (core nu1) = costFromStart (core nu)). by rewrite Hcore. }
    destruct (relax_ok q1 _ u nu1 k HQ1 Hn1) as (q2 & Hq2 & HQ2 & Hst2).
    + rewrite <-Hcore. split; [done|apply Hru].
    + apply Hst1.
    + done.
    + rewrite <-Hc. exists q2. split; [done|]. split; [|by eapply stepped_trans].
      destruct HQ2 as [H1 H2 H3 H4]. split; [done..|]. intros u' n d i wt Hr Ho He Hexc.
      apply (H4 u' n d i wt); [done..|]. intros [[-> Hle] Hne]. apply Hexc. split; [done|].
      assert (i ≠ k) by (intros ->; apply Hne; done). lia.
  - cbn [mbind option_bind].
    assert (view q1 u = Some (core nu)) as Hv1 by (rewrite (st_node _ _ _ Hst1); by apply view_node).
    destruct (node_view q1 u _ Hv1) as (nu1 & Hn1 & Hcore).
    destruct (upd_outside_ok (set_inClosed true) q1 u nu1) as (q2 & -> & Hok2 & Hc2 & Hs2 & Hh2 & Hn2 & Hm2);
      [apply HQ1|done|apply Hst1|].
    assert (∀ p, view q2 p = view q1 p) as Hv2.
    { intros p. assert (core_fun (set_inClosed true)) as Hcf by done. rewrite (view_changed _ _ _ _ p Hcf Hc2).
      case_decide; [subst p|done]. by rewrite (view_node _ _ _ Hn1). }
    assert (∀ p, label (view q2) p = label (view q1) p) as Hl by (intros p; unfold label; by rewrite Hv2).
    exists q2. split; [done|]. split.
    + apply (QInv_ext q1); [done|apply Hc2|apply Hc2|done|done|]. destruct HQ1 as [H1 H2 H3 H4]. split; [done..|].
      intros u' n d i wt Hr Ho He _. apply (H4 u' n d i wt); [done..|]. intros [_ Hle].
      destruct He as (off & nc & Hoff & _). apply zget_Some_bound in Hoff. change (zlen _) with 8 in Hoff. lia.
    + eapply stepped_trans; [exact Hst1|]. split.
      * done.
      * rewrite Hm2. apply Hst1.
      * split; [intros p n; unfold reached; rewrite Hv2, Hm2; auto|].
        intros p n Hr. exists n. unfold reached in *. by rewrite Hv2.
      * intros p. left. apply Hl.
      * intros p. rewrite Hm2. auto.
      * unfold measure. rewrite Hs2.
        rewrite (lsum_ext (label (view q2)) (label (view q1))) by (intros; apply Hl). lia.
Qed.

Lemma pop_ok q :
  QInv q (λ _ _, False) → 0 < size q →
  ∃ u q1 n1, Pop q = Some (u, q1) ∧ QInv q1 (λ u' _, u' = u) ∧ node_at q1 u = Some n1 ∧
    reached (view q1) u (core n1) ∧ ¬ mem q1 u ∧ measure q1 = measure q - 1 ∧
    (∀ p, label (view q1) p = label (view q) p) ∧
    (∃ n, reached (view q) u n ∧ costFromStart n1 = costFromStart n ∧ totalCost n1 = totalCost n) ∧ mem q u ∧
    (∀ p n, p ≠ u → reached (view q1) p n ↔ reached (view q) p n) ∧ (∀ p, mem q1 p ↔ mem q p ∧ p ≠ u) ∧
    ∀ p n, mem q p → view q p = Some n → fleb (totalCost n1) (totalCost n) = true.
Proof.
  intros HQ Hpos. destruct (qi_len _ _ HQ) as [Hlm Hlh].
  destruct (oq_Pop_ok q (qi_heap _ _ HQ) Hpos) as (u & q1 & -> & Hok1 & Hc1 & Hs1 & Hmu & Hm1 & Hmin).
  assert (∃ n, node_at q u = Some n) as [n Hn].
  { destruct Hmu as (k & Hk & Hku). destruct (pl_at q (ho_places _ (qi_heap _ _ HQ)) k Hk) as (p & n & ? & ? & _).
    exists n. congruence. }
  assert (core_fun (set_inOpen false)) as Hcf by done.
  assert (∀ p, p ≠ u → view q1 p = view q p) as Hv.
  { intros p Hp. rewrite (view_changed _ _ _ _ p Hcf Hc1). by rewrite decide_False. }
  assert (view q1 u = Some (core (set_inOpen false (core n)))) as Hvu.
  { rewrite (view_changed _ _ _ _ u Hcf Hc1), decide_True by done. by rewrite (view_node _ _ _ Hn). }
  destruct (Inv_popped (view q) (mem q) (view q1) (mem q1) u (core n)) as (HI1 & Hl1 & Hrel1 & Hru & Hr1);
    [apply HQ|by apply view_node|done|done|done|done|].
  destruct (node_view q1 u _ Hvu) as (n1 & Hn1 & Hcore).
  assert (costFromStart n1 = costFromStart n ∧ totalCost n1 = totalCost n) as [Hcost Htot].
  { change (costFromStart (core n1) = costFromStart n ∧ totalCost (core n1) = totalCost n). by rewrite <-Hcore. }
  exists u, q1, n1. split; [done|]. split_and!; try done.
  - split; [done|by rewrite (ch_mlen _ _ _ _ Hc1), (ch_hlen _ _ _ _ Hc1)|done|apply Hrel1, HQ].
  - by rewrite <-Hcore.
  - rewrite Hm1. tauto.
  - unfold measure. rewrite (lsum_ext (label (view q1)) (label (view q))) by (intros; apply Hl1). lia.
  - exists (core n). split; [|done]. destruct (iv_open_key _ _ (qi_inv _ _ HQ) u (core n) Hmu (view_node _ _ _ Hn)) as [? _].
    destruct (proj1 (iv_open _ _ (qi_inv _ _ HQ) u (core n) (view_node _ _ _ Hn)) Hmu) as [? _]. split; [by apply view_node|done].
  - intros p m Hmp Hp. rewrite Htot. apply (Hmin p); [done|unfold key_of; by rewrite Hn|].
    destruct (node_view _ _ _ Hp) as (m' & Hm' & ->). unfold key_of. by rewrite Hm'.
Qed.

(** ** The whole loop *)

Section visits.
Context {V : Type} (visit : Z → PathNode → V → option (V * bool)).
(** [W] holds of the loop's extra state, [Q] of every closed node. *)
Context (W : V → Prop) (Q : Z → PathNode → V → Prop).

Definition visit_ok : Prop := ∀ p n v,
  W v → interior p → x2 n = p `mod` w ∧ y2 n = p / w ∧ index2 n = i2 p ∧ isEndNode n = isEnd p →
  walk p (costFromStart n) → fval (costFromStart n) < BIG →
  ∃ v' b, visit p n v = Some (v', b) ∧
    (b = false → W v' ∧ Q p (core n) v' ∧ ∀ p' n', interior p' → p' ≠ p → Q p' n' v → Q p' n' v').

Hypothesis Hvisit : visit_ok.

(** Closed nodes have been visited. *)
Definition visited (q : OpenQueueBH) (v : V) : Prop :=
  ∀ p n, reached (view q) p n → ¬ mem q p → Q p n v.

(** How the loop ends. *)
Definition search_end (q : OpenQueueBH) (v : V) (r : option Z) : Prop :=
  match r with
  | None => QInv q (λ _ _, False) ∧ (∀ p, ¬ mem q p) ∧ visited q v ∧ W v
  | Some u =>
      heap_ok q ∧ zlen (pathNodeMem q) = w * h ∧ zlen (heapArray q) = w * h ∧ Inv (view q) (mem q) ∧
      ∃ n v0, node_at q u = Some n ∧ reached (view q) u (core n) ∧ visit u n v0 = Some (v, true)
  end.

Lemma measure_nonneg q exc : QInv q exc → 0 <= measure q.
Proof.
  intros HQ. unfold measure. pose proof (pl_size q (ho_places _ (qi_heap _ _ HQ))).
  pose proof (lsum_bound (label (view q)) (seqZ 0 (w * h)) 0 BIG) as Hb.
  assert (0 * zlen (seqZ 0 (w * h)) <= lsum (label (view q)) (seqZ 0 (w * h))); [|lia].
  apply Hb. intros p _. by eapply label_le, HQ.
Qed.

(** One iteration of the [while] loop. *)
Lemma iteration_ok q v :
  QInv q (λ _ _, False) → visited q v → W v → 0 < size q →
  ∃ u q1 n1 v1 b, Pop q = Some (u, q1) ∧ node_at q1 u = Some n1 ∧ visit u n1 v = Some (v1, b) ∧
    measure q1 = measure q - 1 ∧ reached (view q1) u (core n1) ∧ mem q u ∧
    (∀ p, label (view q1) p = label (view q) p) ∧ (∀ p, mem q1 p ↔ mem q p ∧ p ≠ u) ∧
    (∀ p n, mem q p → view q p = Some n → fleb (totalCost n1) (totalCost n) = true) ∧
    (∃ n, reached (view q) u n ∧ costFromStart n1 = costFromStart n ∧ totalCost n1 = totalCost n) ∧
    if b then search_end q1 v1 (Some u)
    else ∃ q2, expand R g q1 u = Some q2 ∧ QInv q2 (λ _ _, False) ∧ visited q2 v1 ∧ W v1 ∧ stepped q1 u q2.
Proof.
  intros HQ Hvis HW Hpos.
  destruct (pop_ok q HQ Hpos) as (u & q1 & n1 & -> & HQ1 & Hn1 & Hru & Hmu & Hme & Hl1 & Hold & Hqu & Hr1 & Hm1 & Hmin).
  pose proof (reached_interior _ _ _ _ (qi_inv _ _ HQ1) Hru) as Hint.
  destruct (iv_geo _ _ (qi_inv _ _ HQ1) u (core n1) (view_node _ _ _ Hn1)) as (Hx & Hy & Hi2 & HE).
  pose proof (reached_walk _ _ _ _ (qi_inv _ _ HQ1) Hru) as Hwalk.
  destruct (Hvisit u n1 v HW Hint) as (v1 & b & Hvv & Hb); [done|done|apply Hru|].
  exists u, q1, n1, v1, b. split; [done|]. split_and!; try done. destruct b.
  - destruct (qi_len _ _ HQ1). simpl. split_and!; try done; [apply HQ1..|]. by exists n1, v.
  - destruct (Hb eq_refl) as (HW1 & HQu & Hkeep).
    destruct (expand_ok q1 u n1 HQ1 Hn1 Hru Hmu) as (q2 & -> & HQ2 & Hst). exists q2. split_and!; try done.
    intros p n Hr Hm. destruct (proj1 (st_kept _ _ _ Hst) p n Hr Hm) as [Hr' Hm'].
    destruct (decide (p = u)) as [->|Hp].
    + assert (n = core n1) as -> by (destruct Hr', Hru; congruence). done.
    + apply Hkeep; [by apply (reached_interior _ _ _ _ (qi_inv _ _ HQ1) Hr')|done|].
      apply Hvis; [by apply Hr1|]. rewrite Hm1 in Hm'. tauto.
Qed.

Lemma search_empty fuel q v :
  QInv q (λ _ _, False) → visited q v → W v → size q = 0 →
  search (Datatypes.S fuel) R g visit q v = Some (q, v, None) ∧ search_end q v None.
Proof.
  intros HQ Hvis HW Hsz. simpl. unfold Empty. rewrite bool_decide_eq_true_2 by done. split; [done|].
  split; [done|]. split; [|done]. intros p (k & Hk & _). lia.
Qed.

Lemma search_ok fuel q v :
  QInv q (λ _ _, False) → visited q v → W v → measure q < Z.of_nat fuel →
  ∃ q' v' r, search fuel R g visit q v = Some (q', v', r) ∧ search_end q' v' r.
Proof.
  revert q v. induction fuel as [|fuel IH]; intros q v HQ Hvis HW Hf; [pose proof (measure_nonneg _ _ HQ); lia|].
  pose proof (pl_size q (ho_places _ (qi_heap _ _ HQ))) as Hs. destruct (decide (size q = 0)) as [Hz|Hz].
  { exists q, v, None. by apply search_empty. }
  destruct (iteration_ok q v HQ Hvis HW) as (u & q1 & n1 & v1 & b & HP & Hn1 & Hv1 & Hme & _ & _ & _ & _ & _ & _ & Hb); [lia|].
  simpl. unfold Empty. rewrite bool_decide_eq_false_2, HP by done. cbn [mbind option_bind].
  rewrite Hn1. cbn [mbind option_bind]. rewrite Hv1. cbn [mbind option_bind]. destruct b.
  - by exists q1, v1, (Some u).
  - destruct Hb as (q2 & -> & HQ2 & Hvis2 & HW2 & Hst). cbn [mbind option_bind].
    apply IH; [done..|]. pose proof (st_measure _ _ _ Hst). lia.
Qed.

(** ** When the key is the cost, no cell is visited twice *)

Section monotone.
Hypothesis Hkey : ∀ n c, queueKey R n c = c.

Definition closed (q : OpenQueueBH) (p : Z) : Prop := label (view q) p < BIG ∧ ¬ mem q p.
Definition closedb (q : OpenQueueBH) (p : Z) : bool :=
  match view q p with
  | Some n => bool_decide (label (view q) p < BIG) && negb (inOpen n)
  | None => false
  end.

(** The cells still to be visited. *)
Definition remaining (q : OpenQueueBH) : Z := lsum (λ p, if closedb q p then 0 else 1) (seqZ 0 (w * h)).

(** Closed nodes are not farther than open ones. *)
Definition frontier (q : OpenQueueBH) : Prop := ∀ p p', closed q p → mem q p' → label (view q) p <= label (view q) p'.

Lemma closedb_spec q exc p : QInv q exc → closedb q p = true ↔ closed q p.
Proof.
  intros HQ. unfold closedb, closed. destruct (view q p) as [n|] eqn:E.
  - rewrite andb_true_iff, bool_decide_eq_true, negb_true_iff. split; intros [Hl Hin]; (split; [done|]);
      destruct (label_reached _ _ Hl) as [m Hr]; assert (m = n) as -> by (destruct Hr; congruence); destruct Hr as (_ & Hf & _);
      rewrite (iv_open _ _ (qi_inv _ _ HQ) p n E) in *.
    + intros [_ ?]. congruence.
    + apply not_true_iff_false. tauto.
  - split; [done|]. intros [Hl _]. apply label_reached in Hl as (n & Hn & _). congruence.
Qed.

Lemma remaining_bounds q : 0 <= remaining q <= w * h.
Proof.
  pose proof (ro_w Hok). pose proof (ro_h Hok).
  pose proof (lsum_bound (λ p, if closedb q p then 0 else 1) (seqZ 0 (w * h)) 0 1) as Hb.
  unfold zlen in Hb. rewrite length_seqZ in Hb. unfold remaining.
  assert (∀ a, a ∈ seqZ 0 (w * h) → 0 <= (if closedb q a then 0 else 1) <= 1) as Ha by (intros; case_match; lia).
  specialize (Hb Ha). nia.
Qed.

(** A node that is closed before the iteration and one more are closed after it. *)
Lemma remaining_drops q q2 exc exc2 u :
  QInv q exc → QInv q2 exc2 → ¬ closed q u → closed q2 u → 0 <= u < w * h → (∀ p, closed q p → closed q2 p) →
  remaining q2 <= remaining q - 1.
Proof.
  intros HQ HQ2 Hu Hu2 Hr Hsub. unfold remaining.
  set (f2 := λ p, if closedb q2 p then 0 else 1). set (f := λ p, if closedb q p then 0 else 1).
  assert (f u = 1 ∧ f2 u = 0) as [Hfu Hfu2].
  { unfold f, f2. rewrite <-(closedb_spec q exc) in Hu by done. rewrite <-(closedb_spec q2 exc2) in Hu2 by done.
    rewrite Hu2. by destruct (closedb q u). }
  assert (lsum f2 (seqZ 0 (w * h)) <= lsum (λ p, if decide (p = u) then 0 else f p) (seqZ 0 (w * h))) as Hle.
  { generalize (seqZ 0 (w * h)). intros l. induction l as [|p l IH]; simpl; [lia|].
    assert (f2 p <= if decide (p = u) then 0 else f p); [|lia]. case_decide as E; [subst; lia|]. unfold f, f2.
    destruct (closedb q p) eqn:Ec; [|case_match; lia]. apply (closedb_spec q exc p HQ), Hsub, (closedb_spec q2 exc2 p HQ2) in Ec.
    by rewrite Ec. }
  rewrite (lsum_update f (λ p, if decide (p = u) then 0 else f p) (seqZ 0 (w * h)) u) in Hle.
  - rewrite decide_True in Hle by done. lia.
  - apply NoDup_seqZ.
  - apply elem_of_seqZ. lia.
  - intros p _ Hp. by rewrite decide_False.
Qed.

(** One iteration keeps the frontier and closes a new node for good. *)
Lemma frontier_step q u q1 n1 q2 exc :
  QInv q (λ _ _, False) → QInv q2 exc → frontier q → mem q u →
  (∃ n, reached (view q) u n ∧ costFromStart n1 = costFromStart n ∧ totalCost n1 = totalCost n) →
  (∀ p, label (view q1) p = label (view q) p) → (∀ p, mem q1 p ↔ mem q p ∧ p ≠ u) →
  (∀ p n, mem q p → view q p = Some n → fleb (totalCost n1) (totalCost n) = true) → stepped q1 u q2 →
  frontier q2 ∧ remaining q2 <= remaining q - 1.
Proof.
  intros HQ HQ2 Hfr Hqu (nu & Hru & Hcu & Htu) Hl1 Hm1 Hmin [Hnode Hcl Hkept Hlab Hopen _].
  pose proof (qi_inv _ _ HQ) as HI. destruct (reached_label _ _ _ Hru) as [Hlu Hlub].
  assert (∀ p n, mem q p → view q p = Some n → totalCost n = costFromStart n) as Htot.
  { intros p n Hm Hv. destruct (iv_open_key _ _ HI p n Hm Hv) as [_ ->]. apply Hkey. }
  assert (∀ p, mem q p → label (view q) u <= label (view q) p) as Hleast.
  { intros p Hm. assert (∃ n, view q p = Some n) as Hv.
    { destruct Hm as (k & Hk & Hkp). destruct (pl_at q (ho_places _ (qi_heap _ _ HQ)) k Hk) as (p' & n & ? & ? & _).
      simplify_eq. eexists. by apply view_node. }
    destruct (open_reached _ _ p HI Hm Hv) as [n Hr]. destruct (reached_label _ _ _ Hr) as [-> _].
    pose proof Hr as (Hvp & _). pose proof (Hmin p n Hm Hvp) as Hle.
    rewrite Htu, (Htot u nu Hqu (proj1 Hru)), (Htot p n Hm Hvp) in Hle.
    rewrite fleb_val in Hle by (by eapply reached_costf). rewrite Hlu. lia. }
  assert (∀ p, closed q p → label (view q) p <= label (view q) u) as Hcl0 by (intros p Hp; by apply Hfr).
  assert (∀ p, closed q p ∨ p = u → label (view q2) p = label (view q) p ∧ closed q2 p) as Hstay.
  { intros p Hp. assert (label (view q) p <= label (view q) u) as Hle by (destruct Hp as [Hp| ->]; [by apply Hcl0|lia]).
    assert (¬ mem q1 p) as Hnm by (rewrite Hm1; destruct Hp as [[_ ?]| ->]; tauto).
    assert (label (view q2) p = label (view q1) p) as E by (destruct (Hlab p) as [|Hlt]; [done|rewrite !Hl1 in Hlt; lia]).
    rewrite E, Hl1. split; [done|]. split; [rewrite E, Hl1; lia|]. intros Hm. destruct (Hopen p Hm); [done|lia]. }
  split.
  - intros p p' [Hlp Hmp] Hmp'. destruct (label_reached _ _ Hlp) as [n Hr].
    destruct (proj1 Hkept p n Hr Hmp) as [Hr1 Hmp1].
    assert (closed q p ∨ p = u) as Hcp.
    { destruct (decide (p = u)) as [|Hne]; [by right|left]. split; [|rewrite Hm1 in Hmp1; tauto].
      rewrite <-Hl1. by apply (reached_label _ _ _ Hr1). }
    destruct (Hstay p Hcp) as [-> _].
    assert (label (view q) p <= label (view q) u) as Hle by (destruct Hcp as [?| ->]; [by apply Hcl0|lia]).
    destruct (Hlab p') as [E|Hlt]; [|rewrite Hl1 in Hlt; lia]. rewrite E, Hl1. etrans; [exact Hle|]. apply Hleast.
    destruct (Hopen p' Hmp') as [Hm|Hlt]; [|lia]. by apply Hm1 in Hm as [? _].
  - apply (remaining_drops q q2 (λ _ _, False) exc u); [done|done|intros [_ ?]; done|apply Hstay; by right| |].
    + apply (iv_dom _ _ HI). destruct Hru as (-> & _). eauto.
    + intros p Hp. apply Hstay. by left.
Qed.

Lemma search_once fuel q v :
  QInv q (λ _ _, False) → visited q v → W v → frontier q → remaining q < Z.of_nat fuel →
  ∃ q' v' r, search fuel R g visit q v = Some (q', v', r) ∧ search_end q' v' r.
Proof.
  revert q v. induction fuel as [|fuel IH]; intros q v HQ Hvis HW Hfr Hf; [pose proof (remaining_bounds q); lia|].
  pose proof (pl_size q (ho_places _ (qi_heap _ _ HQ))) as Hs. destruct (decide (size q = 0)) as [Hz|Hz].
  { exists q, v, None. by apply search_empty. }
  destruct (iteration_ok q v HQ Hvis HW) as (u & q1 & n1 & v1 & b & HP & Hn1 & Hv1 & _ & _ & Hqu & Hl1 & Hm1 & Hmin & Hold & Hb); [lia|].
  simpl. unfold Empty. rewrite bool_decide_eq_false_2, HP by done. cbn [mbind option_bind].
  rewrite Hn1. cbn [mbind option_bind]. rewrite Hv1. cbn [mbind option_bind]. destruct b.
  - by exists q1, v1, (Some u).
  - destruct Hb as (q2 & -> & HQ2 & Hvis2 & HW2 & Hst). cbn [mbind option_bind].
    destruct (frontier_step q u q1 n1 q2 (λ _ _, False)) as [Hfr2 Hrem]; [done..|]. apply IH; [done..|]. lia.
Qed.
End monotone.
End visits.

(** When the queue ran empty, every walk is at least as long as the cost of its last node. *)
Lemma walks_bound q :
  QInv q (λ _ _, False) → (∀ p, ¬ mem q p) → ∀ p c, walk p c → label (view q) p <= fval c ∨ BIG <= fval c.
Proof.
  intros HQ Hempty p c Hw. pose proof (qi_inv _ _ HQ) as HI. induction Hw as [|u c d i wt Hw IH He].
  - left. destruct (iv_start _ _ HI) as (n & Hn & Hc & _). destruct (reached_label _ _ _ Hn) as [-> _]. by rewrite Hc.
  - pose proof (walk_costf _ _ Hw) as Hcf. pose proof (edge_costf _ _ _ _ He) as Hwf.
    pose proof (fadd_grows c wt Hcf Hwf) as Hgrow. destruct IH as [IH|IH]; [|right; lia].
    destruct (decide (BIG <= fval c)) as [|Hlt]; [right; lia|]. left.
    destruct (label_reached (view q) u) as [n Hr]; [lia|]. destruct (reached_label _ _ _ Hr) as [Hl _].
    pose proof (qi_relaxed _ _ HQ u n d i wt Hr (Hempty u) He ltac:(auto)) as Hrel. etrans; [exact Hrel|].
    apply fadd_mono; [by eapply reached_costf|done|done|lia].
Qed.

(** ** The path *)

(** A route from the start, listed backwards from its last cell, with its cost added up. *)
Inductive rroute : list Z → float → Prop :=
| rroute_start : rroute [s] f0
| rroute_step u l c d i wt : rroute (u :: l) c → edge u d i wt → rroute (d :: u :: l) (fadd c wt).

Lemma rroute_walk l c : rroute l c → ∃ p l', l = p :: l' ∧ walk p c.
Proof.
  induction 1 as [|u l c d i wt Hr (p & l' & [= -> ->] & Hw) He]; [exists s, []; split; [done|constructor]|].
  eexists d, _. split; [done|]. by eapply walk_step.
Qed.

Lemma chain_route S O p l :
  Inv S O → chain S p l → label S p < BIG → ∃ l' c, l = p :: l' ∧ rroute l c ∧ fval c <= label S p.
Proof.
  intros HI Hch. induction Hch as [p n Hp Hpar|p n u l Hp Hpar Hch IH]; intros Hlab.
  - destruct (label_reached S p Hlab) as [n' Hr]. assert (n' = n) as -> by (destruct Hr; congruence).
    destruct (decide (p = s)) as [->|Hps].
    + exists [], f0. split; [done|]. split; [constructor|]. change (fval f0) with 0. pose proof (label_le S O s HI). lia.
    + destruct (iv_parent _ _ HI p n Hr Hps) as (u & m & i & wt & Hu & _). congruence.
  - destruct (label_reached S p Hlab) as [n' Hr]. assert (n' = n) as -> by (destruct Hr; congruence).
    assert (p ≠ s) as Hps. { intros ->. destruct (iv_start _ _ HI) as (n0 & (? & _) & _ & ?). congruence. }
    destruct (iv_parent _ _ HI p n Hr Hps) as (u' & m & i & wt & Hu & Hrm & He & Hle).
    assert (u' = u) as -> by congruence. destruct (reached_label S u m Hrm) as [Hlu Hlu'].
    destruct (IH Hlu') as (l' & c & -> & Hrr & Hc). exists (u :: l'), (fadd c wt). split; [done|].
    split; [by eapply rroute_step|]. destruct (reached_label S p n Hr) as [-> _]. etrans; [|exact Hle].
    destruct (rroute_walk _ _ Hrr) as (x & l'' & [= <- <-] & Hw).
    apply fadd_mono; [by eapply walk_costf|by eapply reached_costf|by eapply edge_costf|lia].
Qed.

Lemma chain_fun S p l l' : chain S p l → chain S p l' → l = l'.
Proof.
  intros Hch. revert l'. induction Hch as [p n Hp Hpar|p n u l Hp Hpar Hch IH]; intros l' H'; inversion H'; simplify_eq; try done.
  f_equal. by apply IH.
Qed.
Lemma chain_suffix S p l1 x l2 : chain S p (l1 ++ x :: l2) → chain S x (x :: l2).
Proof.
  revert p. induction l1 as [|y l1 IH]; intros p H; simpl in H.
  - inversion H; simplify_eq; done.
  - inversion H; simplify_eq; [by destruct l1|]. by eapply IH.
Qed.
Lemma chain_NoDup S p l : chain S p l → NoDup l.
Proof.
  intros Hch. induction Hch as [p n Hp Hpar|p n u l Hp Hpar Hch IH]; [apply NoDup_singleton|].
  constructor; [|done]. intros (l1 & l2 & ->)%list_elem_of_split.
  pose proof (chain_suffix S u l1 p l2 Hch) as H2.
  assert (chain S p (p :: l1 ++ p :: l2)) as H1 by (by eapply chain_up).
  pose proof (chain_fun S p _ _ H1 H2) as E. apply (f_equal length) in E. simpl in E. rewrite length_app in E. simpl in E. lia.
Qed.
Lemma chain_length S O p l : Inv S O → chain S p l → Z.of_nat (length l) <= w * h.
Proof.
  intros HI Hch. pose proof (ro_w Hok). pose proof (ro_h Hok).
  assert (length l <= length (seqZ 0 (w * h)))%nat as Hl; [|rewrite length_seqZ in Hl; nia].
  apply submseteq_length, NoDup_submseteq; [by eapply chain_NoDup|]. intros x Hx. apply elem_of_seqZ.
  assert (is_Some (S x)) as Hs; [|apply (iv_dom _ _ HI) in Hs; lia].
  clear HI. induction Hch as [p n Hp Hpar|p n u l Hp Hpar Hch IH].
  - apply list_elem_of_singleton in Hx as ->. eauto.
  - apply elem_of_cons in Hx as [->|Hx]; [eauto|by apply IH].
Qed.

Section path.
Context (q : OpenQueueBH).
Hypothesis HI : Inv (view q) (mem q).

Lemma chain_inv p l :
  chain (view q) p l →
  ∃ n, node_at q p = Some n ∧ index2 n = i2 p ∧
    match parent n with None => l = [p] | Some u => ∃ l', l = p :: l' ∧ chain (view q) u l' end.
Proof.
  intros Hch. inversion Hch as [p' n Hp Hpar|p' n u l' Hp Hpar Hch']; simplify_eq;
    destruct (node_view _ _ _ Hp) as (n' & Hn' & ->); exists n'; (split; [done|]);
    (split; [by apply (iv_geo _ _ HI _ _ Hp)|]); simpl in Hpar; rewrite Hpar; eauto.
Qed.

Lemma count_parents_ok fuel p l k :
  chain (view q) p l → (length l <= fuel)%nat → count_parents fuel q p k = Some (k + zlen l - 1).
Proof.
  revert p l k. induction fuel as [|fuel IH]; intros p l k Hch Hf.
  - inversion Hch; simplify_eq; simpl in Hf; lia.
  - destruct (chain_inv p l Hch) as (n & Hn & _ & Hpar). simpl. rewrite Hn. cbn [mbind option_bind].
    destruct (parent n) as [u|].
    + destruct Hpar as (l' & -> & Hch'). rewrite (IH u l') by (done || (simpl in Hf; lia)). f_equal. unfold zlen. simpl. lia.
    + rewrite Hpar. f_equal. unfold zlen. simpl. lia.
Qed.

Lemma fill_parents_ok fuel p l k path :
  chain (view q) p l → (length l <= fuel)%nat → zlen l - 2 <= k < zlen path →
  ∃ path', fill_parents fuel q p k path = Some path' ∧ zlen path' = zlen path ∧
    ∀ j, zget path' j = if decide (k - (zlen l - 2) <= j <= k) then i2 <$> zget l (k - j) else zget path j.
Proof.
  revert p l k path. induction fuel as [|fuel IH]; intros p l k path Hch Hf Hk.
  - inversion Hch; simplify_eq; simpl in Hf; lia.
  - destruct (chain_inv p l Hch) as (n & Hn & Hi & Hpar). simpl. rewrite Hn. cbn [mbind option_bind].
    destruct (parent n) as [u|].
    2:{ rewrite Hpar. exists path. split; [done|]. split; [done|]. intros j. unfold zlen. simpl.
        by rewrite decide_False by lia. }
    destruct Hpar as (l' & -> & Hch').
    assert (1 <= zlen l') as Hl' by (inversion Hch'; unfold zlen; simpl; lia).
    assert (zlen (p :: l') = zlen l' + 1) as Hz by (unfold zlen; simpl; lia). rewrite Hz in *.
    destruct (zset path k (index2 n)) as [path1|] eqn:Hs; [|rewrite zset_Some in Hs by lia; done]. cbn [mbind option_bind].
    destruct (IH u l' (k - 1) path1) as (path2 & -> & Hlen & Hg);
      [done|simpl in Hf; lia|rewrite (zlen_zset _ _ _ _ Hs); lia|].
    exists path2. split; [done|]. split; [by rewrite Hlen, (zlen_zset _ _ _ _ Hs)|]. intros j. rewrite Hg.
    destruct (decide (j = k)) as [->|Hj].
    + rewrite decide_False, decide_True by lia. rewrite (zget_zset_eq _ _ _ _ Hs), Hi.
      replace (k - k) with 0 by lia. done.
    + rewrite (zget_zset_ne _ _ _ _ j Hs) by done.
      destruct (decide (k - (zlen l' + 1 - 2) <= j <= k)) as [Hr|Hr]; [|by rewrite decide_False by lia].
      rewrite decide_True by lia. f_equal. unfold zget. rewrite !decide_True by lia.
      replace (Z.to_nat (k - j)) with (Datatypes.S (Z.to_nat (k - 1 - j))) by lia. done.
Qed.

Lemma zget_reverse {A} (l : list A) j : 0 <= j < zlen l → zget (reverse l) j = zget l (zlen l - 1 - j).
Proof.
  unfold zlen. intros Hj. unfold zget. rewrite !decide_True by lia. rewrite reverse_lookup by lia. f_equal. lia.
Qed.

Lemma GoalReached_ok u n l :
  reached (view q) u n → chain (view q) u l → zlen (pathNodeMem q) = w * h →
  GoalReached q u s u = Some (i2 <$> reverse l).
Proof.
  intros Hr Hch Hlen. destruct (iv_start _ _ HI) as (n0 & Hr0 & _ & Hp0).
  pose proof Hr0 as (Hv0 & _). destruct (node_view _ _ _ Hv0) as (ns & Hns & ->). simpl in Hp0.
  destruct (iv_geo _ _ HI _ _ Hv0) as (_ & _ & Hi0 & _). simpl in Hi0.
  unfold GoalReached. rewrite Hns. cbn [mbind option_bind]. decide_goal as [<-|Hne].
  - destruct (chain_inv s l Hch) as (n1 & Hn1 & _ & Hl). assert (n1 = ns) as -> by congruence. rewrite Hp0 in Hl.
    rewrite Hl. simpl. by rewrite Hi0.
  - pose proof (chain_length _ _ u l HI Hch) as Hll.
    rewrite (count_parents_ok _ u l) by (done || (unfold zlen in Hlen; lia)). cbn [mbind option_bind].
    replace (1 + zlen l - 1) with (zlen l) by lia.
    destruct (chain_inv u l Hch) as (nu & Hnu & Hiu & Hl). rewrite Hnu. cbn [mbind option_bind].
    destruct (chain_route _ _ u l HI Hch) as (l1 & c & -> & Hrr & _); [by apply (reached_label _ _ _ Hr)|].
    destruct (parent nu) as [x|]; [|simplify_eq; inversion Hrr; congruence].
    destruct Hl as (l2 & [= <-] & Hch1). assert (zlen (u :: l1) = zlen l1 + 1) as Hz by (unfold zlen; simpl; lia).
    assert (last (u :: l1) = Some s) as Hlast.
    { clear - Hrr. remember (u :: l1) as l eqn:E. clear E u l1. induction Hrr as [|u l c d i wt Hr IH He]; [done|]. simpl in *. done. }
    decide_goal as [Hshort|Hlong].
    + destruct l1 as [|y [|z l3]]; [inversion Hch1| |unfold zlen in Hshort; simpl in Hshort; lia].
      simpl in Hlast. simplify_eq. simpl. by rewrite Hiu, Hi0.
    + destruct (zset (replicate (Z.to_nat (zlen (u :: l1))) 0) 0 (index2 ns)) as [p1|] eqn:E1;
        [|rewrite zset_Some in E1 by (rewrite zlen_replicate; lia); done]. cbn [mbind option_bind].
      pose proof (zlen_zset _ _ _ _ E1) as L1. rewrite zlen_replicate in L1 by lia.
      destruct (zset p1 (zlen (u :: l1) - 1) (index2 nu)) as [p2|] eqn:E2; [|rewrite zset_Some in E2 by lia; done].
      pose proof (zlen_zset _ _ _ _ E2) as L2. cbn [mbind option_bind].
      destruct (fill_parents_ok (Datatypes.S (length (pathNodeMem q))) x l1 (zlen (u :: l1) - 2) p2) as (p3 & -> & L3 & Hg);
        [done|unfold zlen in Hlen; simpl in Hll; lia|lia|].
      f_equal. apply zget_ext.
      * unfold zlen in *. rewrite length_fmap, length_reverse. lia.
      * intros j. destruct (decide (0 <= j < zlen (u :: l1))) as [Hj|Hj].
        2:{ destruct (zget p3 j) eqn:G1; [apply zget_Some_bound in G1; lia|].
            destruct (zget (i2 <$> reverse (u :: l1)) j) eqn:G2; [|done]. apply zget_Some_bound in G2.
            unfold zlen in G2, Hj. rewrite length_fmap, length_reverse in G2. lia. }
        rewrite Hg. assert (zget (i2 <$> reverse (u :: l1)) j = i2 <$> zget (u :: l1) (zlen (u :: l1) - 1 - j)) as ->.
        { rewrite <-zget_reverse by done. unfold zget. case_decide; [|done]. by rewrite list_lookup_fmap. }
        decide_goal as [Hmid|Hends].
        -- f_equal. unfold zget. rewrite !decide_True by lia.
           replace (Z.to_nat (zlen (u :: l1) - 1 - j)) with (Datatypes.S (Z.to_nat (zlen (u :: l1) - 2 - j))) by lia. done.
        -- destruct (decide (j = 0)) as [->|Hj0].
           ++ rewrite (zget_zset_ne _ _ _ _ 0 E2), (zget_zset_eq _ _ _ _ E1) by lia.
              rewrite last_lookup in Hlast. unfold zget. rewrite decide_True by lia.
              replace (Z.to_nat (zlen (u :: l1) - 1 - 0)) with (pred (length (u :: l1))) by (unfold zlen; lia).
              rewrite Hlast. simpl. by rewrite Hi0.
           ++ assert (j = zlen (u :: l1) - 1) as -> by lia. rewrite (zget_zset_eq _ _ _ _ E2).
              replace (zlen (u :: l1) - 1 - (zlen (u :: l1) - 1)) with 0 by lia. simpl. by rewrite Hiu.
Qed.
End path.

End invariant.
End graph.

(** More fuel gives the same result. *)
Lemma search_fuel {V} R g (visit : Z → PathNode → V → option (V * bool)) fuel k q v r :
  search fuel R g visit q v = Some r → search (fuel + k) R g visit q v = Some r.
Proof.
  revert q v. induction fuel as [|fuel IH]; intros q v; [done|]. simpl. destruct (Empty q); [done|].
  destruct (Pop q) as [[u q1]|]; [|done]. cbn [mbind option_bind]. destruct (node_at q1 u) as [n|]; [|done].
  cbn [mbind option_bind]. destruct (visit u n v) as [[v1 []]|]; cbn [mbind option_bind]; [done| |done].
  destruct (expand R g q1 u) as [q2|]; [|done]. cbn [mbind option_bind]. apply IH.
Qed.

(** Walks and routes only depend on what can be entered and at which cost. *)
Section congruence.
Context (R R' : Rules) (g g' : Grid) (w s : Z).
Hypothesis Hskips : skips R = skips R'.
Hypothesis Hcost : nodeCost R = nodeCost R'.
Hypothesis Hmove : g_canMove g = g_canMove g'.

Lemma edge_congr u d i c : edge R g w u d i c → edge R' g' w u d i c.
Proof. unfold edge. by rewrite Hskips, Hcost, Hmove. Qed.
Lemma walk_congr p c : walk R g w s p c → walk R' g' w s p c.
Proof. induction 1; [constructor|]. eapply walk_step; [done|by apply edge_congr]. Qed.
Lemma rroute_congr l c : rroute R g w s l c → rroute R' g' w s l c.
Proof. induction 1; [constructor|]. eapply rroute_step; [done|by apply edge_congr]. Qed.
End congruence.
