(* ===== verification/BestPath.v ===== *)
(** * BestPath: the three searches of the path finder

    The results of [PathSearch] for [FindBestPathToAnyGivenPoint],
    [FindBestPathToPointOnRadius] and [MakeCostMap].  [pather_wf] is what the constructor
    establishes and every search keeps; [map_ok] is what [SetMapData] must be given: arrays
    of the size of the map, borders that cannot be entered, and costs that are not negative
    ("make sure that moveThreatFun doesn't return values below 0.0"). *)

From S2P Require Import Prelude Float32 FloatRound FloatDiv OpenQueue MicroPather PathSearch.

Local Open Scope circuit_scope.
#[local] Arguments fadd : simpl never.
#[local] Arguments fmul : simpl never.

(** ** The pather between searches *)

Record pather_wf (mp : CMicroPather) : Prop := {
  pw_x : 3 <= mapSizeX mp < 2 ^ 30;
  pw_y : 3 <= mapSizeY mp < 2 ^ 30;
  pw_offsets : offsets mp = make_offsets (mapSizeX mp);
  pw_nodes : zlen (nodeMem mp) = mapSizeX mp * mapSizeY mp;
  pw_heap : zlen (heapArrayMem mp) = mapSizeX mp * mapSizeY mp;
  pw_frame : 0 <= frame mp <= 65534;
  pw_running : isRunning mp = false;
  pw_node : ∀ p n, zget (nodeMem mp) p = Some n →
    x2 n = p `mod` mapSizeX mp ∧ y2 n = p / mapSizeX mp ∧ index2 n = i2 (mapSizeX mp) p ∧ isEndNode n = false ∧
    0 <= pn_frame n <= frame mp
}.

(** The cells of the map proper, without the border. *)
Definition inner (mp : CMicroPather) : Z → Prop := interior (mapSizeX mp) (mapSizeY mp).
(** A cell of the grid. *)
Definition in_grid (mp : CMicroPather) (p : Z) : Prop := 0 <= p < mapSizeX mp * mapSizeY mp.

Record map_ok (mp : CMicroPather) : Prop := {
  mk_len : zlen (canMoveArray (mapData mp)) = mapSizeX mp * mapSizeY mp;
  mk_border : ∀ p, zget (canMoveArray (mapData mp)) p = Some true → inner mp p;
  mk_threat : ∀ p, inner mp p → is_Some (zget (threatArray (mapData mp)) (i2 (mapSizeX mp) p));
  mk_move : ∀ p, inner mp p → ∃ c, moveFun (mapData mp) (i2 (mapSizeX mp) p) = Some c ∧ costf c = true;
  mk_threat_cost : ∀ p, inner mp p → ∃ c, threatFun (mapData mp) (i2 (mapSizeX mp) p) = Some c ∧ costf c = true
}.

Lemma zget_fmap_range {A} (f : Z → A) n p : zget (f <$> seqZ 0 n) p = if decide (0 <= p < n) then Some (f p) else None.
Proof.
  unfold zget. destruct (decide (0 <= p)); [|by rewrite decide_False by lia]. rewrite list_lookup_fmap.
  destruct (decide (0 <= p < n)) as [?|?].
  - rewrite (lookup_seqZ_lt 0 n (Z.to_nat p)) by lia. simpl. f_equal. f_equal. lia.
  - by rewrite (proj2 (lookup_ge_None (seqZ 0 n) (Z.to_nat p))) by (rewrite length_seqZ; lia).
Qed.

Lemma new_CMicroPather_wf md sizeX sizeY hX :
  1 <= sizeX < 2 ^ 29 → 1 <= sizeY < 2 ^ 29 → pather_wf (new_CMicroPather md sizeX sizeY hX).
Proof.
  intros Hx Hy. split; simpl; try lia; try done.
  - unfold zlen. rewrite length_fmap, length_seqZ. nia.
  - apply zlen_replicate. nia.
  - intros p n Hn. rewrite zget_fmap_range in Hn. case_decide as Hp; [|done]. injection Hn as <-.
    unfold fresh_node. rewrite (Z.quot_div_nonneg p) by lia. simpl. rewrite (Z.mod_eq p) by lia.
    unfold i2. rewrite (Z.mod_eq p) by lia. split_and!; try lia; done.
Qed.

(** ** The corrected start and end *)

Lemma fix_xy_interior w h p :
  3 <= w → 3 <= h → 0 <= p < w * h →
  ∃ x y, fix_xy w h p = (x, y) ∧ 0 < x < w - 1 ∧ 0 < y < h - 1 ∧ interior w h (y * w + x) ∧
    (y * w + x) / w = y ∧ (y * w + x) `mod` w = x.
Proof.
  intros Hw Hh Hp. unfold fix_xy. rewrite Z.quot_div_nonneg by lia.
  assert (0 <= p / w < h) as Hy by (split; [apply Z.div_pos; lia|apply Z.div_lt_upper_bound; lia]).
  assert (0 <= p - p / w * w < w) as Hx.
  { pose proof (Z.mod_pos_bound p w ltac:(lia)) as Hm. rewrite Z.mod_eq in Hm by lia. lia. }
  assert (∀ v size, 3 <= size → 0 <= v < size → 0 < off_edge v size < size - 1) as He.
  { intros v size ? ?. unfold off_edge. repeat case_decide; lia. }
  set (x := off_edge (p - p / w * w) w). set (y := off_edge (p / w) h).
  assert (0 < x < w - 1 ∧ 0 < y < h - 1) as [Hxr Hyr] by (split; apply He; done).
  assert ((y * w + x) / w = y) as Hd by (rewrite Z.add_comm, Z.div_add, Z.div_small by lia; lia).
  assert ((y * w + x) `mod` w = x) as Hm by (rewrite Z.add_comm, Z.mod_add, Z.mod_small by lia; lia).
  exists x, y. split_and!; try done; try lia. unfold interior. rewrite Hd, Hm. done.
Qed.

Lemma FixNode_inner mp p : pather_wf mp → in_grid mp p → inner mp (FixNode mp p).
Proof.
  intros Hwf Hp. unfold FixNode, inner. pose proof (pw_x _ Hwf). pose proof (pw_y _ Hwf).
  destruct (fix_xy_interior (mapSizeX mp) (mapSizeY mp) p) as (x & y & -> & _ & _ & Hi & _); [lia|lia|done|]. done.
Qed.

Lemma inner_in_grid mp p : pather_wf mp → inner mp p → in_grid mp p.
Proof.
  intros Hwf [Hx Hy]. pose proof (pw_x _ Hwf). unfold in_grid.
  pose proof (Z.div_mod p (mapSizeX mp) ltac:(lia)). nia.
Qed.

Lemma FixStartEndNode_ok mp s e :
  3 <= mapSizeX mp → 3 <= mapSizeY mp → in_grid mp s → in_grid mp e →
  ∃ xe ye, FixStartEndNode mp s e = (set_end xe ye mp, FixNode mp s, FixNode mp e) ∧
    0 < xe < mapSizeX mp - 1 ∧ 0 < ye < mapSizeY mp - 1 ∧
    FixNode mp e / mapSizeX mp = ye ∧ FixNode mp e `mod` mapSizeX mp = xe.
Proof.
  intros Hw Hh Hs He. unfold FixStartEndNode, FixNode.
  destruct (fix_xy_interior (mapSizeX mp) (mapSizeY mp) s) as (xs & ys & -> & _); [lia|lia|done|].
  destruct (fix_xy_interior (mapSizeX mp) (mapSizeY mp) e) as (xe & ye & -> & Hx & Hy & _ & Hd & Hm); [lia|lia|done|].
  by exists xe, ye.
Qed.

(** ** The distance estimate is not negative *)

Lemma DiagonalDistance_costf xs ys xe ye :
  Z.abs (xs - xe) < 2 ^ 30 → Z.abs (ys - ye) < 2 ^ 30 →
  costf (DiagonalDistance xs ys xe ye) = true ∧ DiagonalDistance xs ys xe ye ≠ SpecFloat.S754_zero true.
Proof.
  intros Hx Hy. unfold DiagonalDistance.
  set (d := Z.abs (xs - xe) + Z.abs (ys - ye)). set (m := Z.min (Z.abs (xs - xe)) (Z.abs (ys - ye))).
  change (flit 5858 10000) with (SpecFloat.S754_finite false 9828093 (-24)).
  destruct (fmul_fraction_le 9828093 m) as [Hc Hle]; [done|lia|].
  destruct (f_of_Z_costf d) as [Hd Hvd]; [lia|]. destruct (f_of_Z_costf m) as [Hm Hvm]; [lia|].
  assert (is_finite (f_of_Z d) = true) as Hf by (apply f_of_Z_finite; lia).
  assert (fval (fmul (SpecFloat.S754_finite false 9828093 (-24)) (f_of_Z m)) <= fval (f_of_Z d)) as Hle'.
  { etrans; [exact Hle|]. rewrite Hvd, Hvm. pose proof (rnd_mono (m * 2 ^ 149) (d * 2 ^ 149)). lia. }
  split; [by apply fsub_costf|]. apply fsub_sign; try done. apply f_of_Z_sign. lia.
Qed.

Lemma costf_one : costf COST_BASE = true.
Proof. reflexivity. Qed.

(** ** The rules of the searches *)

Section one_search.
Context (mp : CMicroPather).
Hypothesis Hwf : pather_wf mp.
Hypothesis Hmap : map_ok mp.
Abbreviation w := (mapSizeX mp).
Abbreviation h := (mapSizeY mp).

(** The pather inside a search: the end is set and the frame was advanced. *)
Record started (mp' : CMicroPather) : Prop := {
  sd_map : mapData mp' = mapData mp;
  sd_x : mapSizeX mp' = w;
  sd_y : mapSizeY mp' = h;
  sd_hx : heightMapSizeX mp' = heightMapSizeX mp;
  sd_offsets : offsets mp' = offsets mp;
  sd_nodes : zlen (nodeMem mp') = w * h;
  sd_heap : heapArrayMem mp' = heapArrayMem mp;
  sd_frame : 1 <= frame mp' <= 65534;
  sd_node : ∀ p n, zget (nodeMem mp') p = Some n →
    x2 n = p `mod` w ∧ y2 n = p / w ∧ index2 n = i2 w p ∧ isEndNode n = false ∧ 0 <= pn_frame n < frame mp';
  sd_end : 0 < xEndNode mp' < w - 1 ∧ 0 < yEndNode mp' < h - 1 ∨
    xEndNode mp' = xEndNode mp ∧ yEndNode mp' = yEndNode mp
}.

Lemma next_frame_started mp1 :
  mapData mp1 = mapData mp → mapSizeX mp1 = w → mapSizeY mp1 = h → heightMapSizeX mp1 = heightMapSizeX mp → offsets mp1 = offsets mp →
  nodeMem mp1 = nodeMem mp → heapArrayMem mp1 = heapArrayMem mp → frame mp1 = frame mp →
  (0 < xEndNode mp1 < w - 1 ∧ 0 < yEndNode mp1 < h - 1 ∨ xEndNode mp1 = xEndNode mp ∧ yEndNode mp1 = yEndNode mp) →
  started (next_frame mp1) ∧ xEndNode (next_frame mp1) = xEndNode mp1 ∧ yEndNode (next_frame mp1) = yEndNode mp1.
Proof.
  intros H1 H2 H3 Hhx H4 H5 H6 H7 H8. pose proof (pw_frame _ Hwf) as Hf. unfold next_frame.
  rewrite H7, u32_small by lia. cbn [frame set_frame]. decide_goal as [Hbig|Hsmall]; simpl.
  - split; [|done]. split; simpl; try done; try lia.
    + rewrite H5. unfold zlen. rewrite length_fmap. apply (pw_nodes _ Hwf).
    + intros p n Hn. assert (∃ n0, zget (nodeMem mp) p = Some n0 ∧ n = Reuse 0 n0) as (n0 & Hn0 & ->).
      { rewrite H5 in Hn. unfold zget in *. case_decide; [|done]. rewrite list_lookup_fmap in Hn.
        apply fmap_Some in Hn as (n0 & ? & ->). eauto. }
      destruct (pw_node _ Hwf p n0 Hn0) as (? & ? & ? & ? & _). simpl. change (u16 0) with 0. split_and!; try done; lia.
  - split; [|done]. split; simpl; try done; try lia.
    + rewrite H5. apply (pw_nodes _ Hwf).
    + rewrite H5. intros p n Hn. destruct (pw_node _ Hwf p n Hn) as (? & ? & ? & ? & ?). split_and!; try done; lia.
Qed.

Lemma rules_ok_intro mp' R s :
  started mp' → inner mp s →
  (∀ p, inner mp p → ∃ b, skips R (i2 w p) = Some b) →
  (∀ p, inner mp p → ∃ c, nodeCost R (i2 w p) = Some c ∧ costf c = true) →
  (∀ p n c, inner mp p → x2 n = p `mod` w → y2 n = p / w → costf c = true → costf (queueKey R n c) = true) →
  (∀ p n c c', inner mp p → x2 n = p `mod` w → y2 n = p / w → costf c = true → costf c' = true →
    fval c <= fval c' → fval (queueKey R n c) <= fval (queueKey R n c')) →
  (∀ n n' c, x2 n = x2 n' → y2 n = y2 n' → queueKey R n c = queueKey R n' c) →
  rules_ok R (grid_of mp') w h s.
Proof.
  intros Hst Hs H1 H2 H3 H4 H5. pose proof (pw_x _ Hwf). pose proof (pw_y _ Hwf). pose proof (sd_frame _ Hst).
  split; try done; try lia.
  - simpl. lia.
  - simpl. rewrite (sd_offsets _ Hst). apply (pw_offsets _ Hwf).
  - simpl. rewrite (sd_map _ Hst). apply (mk_len _ Hmap).
  - simpl. rewrite (sd_map _ Hst). apply (mk_border _ Hmap).
Qed.

Lemma path_rules_ok mp' maxThreat s :
  started mp' → inner mp s → 0 < xEndNode mp' < w - 1 ∧ 0 < yEndNode mp' < h - 1 →
  rules_ok (path_rules mp' maxThreat) (grid_of mp') w h s.
Proof.
  intros Hst Hs [Hxe Hye]. pose proof (pw_x _ Hwf). pose proof (pw_y _ Hwf).
  assert (∀ p n, inner mp p → x2 n = p `mod` w → y2 n = p / w →
    costf (LeastCostEstimateXY mp' (x2 n) (y2 n)) = true) as Hest.
  { intros p n [Hx Hy] Hx2 Hy2. apply DiagonalDistance_costf; lia. }
  apply rules_ok_intro; [done|done|..]; simpl.
  - intros p Hp. unfold too_dangerous. rewrite (sd_map _ Hst). destruct (mk_threat _ Hmap p Hp) as [t ->]. simpl. eauto.
  - intros p Hp. unfold move_cost. rewrite (sd_map _ Hst). destruct (mk_move _ Hmap p Hp) as (a & -> & Ha).
    destruct (mk_threat_cost _ Hmap p Hp) as (b & -> & Hb). simpl. eexists. split; [done|].
    apply fadd_costf; [by apply fadd_costf|done].
  - intros p n c Hp Hx Hy Hc. apply fadd_costf; [done|by eapply Hest].
  - intros p n c c' Hp Hx Hy Hc Hc' Hle. apply fadd_mono; [done|done|by eapply Hest|done].
  - intros n n' c -> ->. done.
Qed.

Lemma cost_rules_ok mp' s :
  started mp' → inner mp s → (∀ p t, inner mp p → zget (threatArray (mapData mp)) (i2 w p) = Some t → costf t = true) →
  rules_ok (cost_rules mp') (grid_of mp') w h s.
Proof.
  intros Hst Hs Ht. apply rules_ok_intro; [done|done|..]; simpl; try done.
  - eauto.
  - intros p Hp. rewrite (sd_map _ Hst). destruct (mk_threat _ Hmap p Hp) as [t E]. rewrite E. simpl. eexists. split; [done|].
    apply fadd_costf; [done|by eapply Ht].
Qed.

(** ** Entering and leaving a search *)

Definition ends (l : list Z) (p : Z) : bool := bool_decide (p ∈ l).

Lemma marks_ok b q l :
  (∀ p, p ∈ l → 0 <= p < zlen (pathNodeMem q)) →
  ∃ q', foldM (mark_end b) q l = Some q' ∧ size q' = size q ∧ heapArray q' = heapArray q ∧
    zlen (pathNodeMem q') = zlen (pathNodeMem q) ∧
    ∀ p, node_at q' p = (λ n, if decide (p ∈ l) then set_isEndNode b n else n) <$> node_at q p.
Proof.
  intros Hl. destruct (foldM_ind (λ pre q', size q' = size q ∧ heapArray q' = heapArray q ∧
    zlen (pathNodeMem q') = zlen (pathNodeMem q) ∧
    ∀ p, node_at q' p = (λ n, if decide (p ∈ pre) then set_isEndNode b n else n) <$> node_at q p) (mark_end b) l q)
    as (q' & ? & ?); [| |by exists q'].
  - split_and!; try done. intros p. destruct (node_at q p); [|done]. cbn [fmap option_fmap option_map].
    case_decide as Hnil; [by apply not_elem_of_nil in Hnil|done].
  - intros pre p post q1 -> (Hs & Hh & Hz & Hn).
    destruct (zget_is_Some (pathNodeMem q1) p) as [n1 Hn1].
    { rewrite Hz. apply Hl. apply elem_of_app. right. by left. }
    destruct (upd_node_ok (set_isEndNode b) q1 p n1 Hn1) as (q2 & Hq2 & Hs2 & Hh2 & Hz2 & Hn2).
    exists q2. split; [done|]. split_and!; try congruence. intros x. rewrite Hn2.
    destruct (decide (p = x)) as [<-|Hx].
    + fold (node_at q1 p) in Hn1. rewrite Hn in Hn1. destruct (node_at q p) as [n|]; [|done].
      cbn [fmap option_fmap option_map] in Hn1 |- *.
      rewrite (decide_True (P := p ∈ pre ++ [p])) by (apply elem_of_app; right; by left).
      injection Hn1 as <-. by case_decide.
    + rewrite Hn. destruct (node_at q x); [|done]. cbn [fmap option_fmap option_map]. f_equal.
      assert (x ∈ pre ++ [p] ↔ x ∈ pre) as E by (rewrite elem_of_app, list_elem_of_singleton; intuition congruence).
      destruct (decide (x ∈ pre)), (decide (x ∈ pre ++ [p])); tauto.
Qed.

(** The start node as [start_queue] leaves it. *)
Definition entered (fr : Z) (key : float) (n : PathNode) : PathNode :=
  set_inOpen true (set_costs (parent (Reuse fr n)) f0 key (Reuse fr n)).

Lemma start_queue_ok mp' s key :
  started mp' → inner mp s → is_nan key = false →
  ∃ q, start_queue mp' s key = Some q ∧ heap_ok q ∧ size q = 1 ∧ zlen (pathNodeMem q) = w * h ∧
    zlen (heapArray q) = w * h ∧ (∀ p, mem q p ↔ p = s) ∧
    ∀ p, view q p = (λ n, core (if decide (p = s) then entered (frame mp') key n else n)) <$> zget (nodeMem mp') p.
Proof.
  intros Hst Hs Hkey. pose proof (pw_x _ Hwf). pose proof (pw_y _ Hwf). unfold start_queue.
  set (q0 := mkQueue (nodeMem mp') (heapArrayMem mp') 0).
  assert (zlen (heapArray q0) = w * h) as Hh0 by (simpl; rewrite (sd_heap _ Hst); apply (pw_heap _ Hwf)).
  assert (heap_ok q0) as Hok0.
  { split; [split; [rewrite Hh0; simpl; nia|simpl; lia]|intros k Hk; simpl in Hk; lia..]. }
  assert (∀ p, ¬ mem q0 p) as Hm0 by (intros p (k & Hk & _); simpl in Hk; lia).
  destruct (zget_is_Some (nodeMem mp') s) as [n Hn]; [rewrite (sd_nodes _ Hst); by apply inner_in_grid|].
  set (f := λ n, set_costs (parent (Reuse (frame mp') n)) f0 key (Reuse (frame mp') n)).
  destruct (upd_outside_ok f q0 s n Hok0 Hn (Hm0 s)) as (q1 & -> & Hok1 & Hc1 & Hs1 & Hh1 & Hn1 & Hm1).
  cbn [mbind option_bind].
  destruct (oq_Push_ok q1 s (f n) Hok1 Hn1) as (q2 & -> & Hok2 & Hc2 & Hs2 & Hm2);
    [rewrite Hm1; apply Hm0|done|rewrite Hs1, Hh1, Hh0; simpl; nia|].
  exists q2. split; [done|]. split; [done|]. split; [rewrite Hs2, Hs1; done|].
  split; [rewrite (ch_mlen _ _ _ _ Hc2), (ch_mlen _ _ _ _ Hc1); apply (sd_nodes _ Hst)|].
  split; [by rewrite (ch_hlen _ _ _ _ Hc2), Hh1|]. split.
  - intros p. rewrite Hm2, Hm1. split; [intros [?|[]%Hm0]; done|by left].
  - intros p. rewrite (view_changed (set_inOpen true) q1 q2 s p) by done.
    assert (core_fun f) as Hcf by done. rewrite (view_changed f q0 q1 s p) by done.
    change (view q0 p) with (core <$> zget (nodeMem mp') p). unfold entered. fold (f n).
    destruct (zget (nodeMem mp') p) as [np|]; [|by case_decide]. cbn [fmap option_fmap option_map].
    destruct (decide (s = p)) as [->|]; [by rewrite decide_True|by rewrite decide_False].
Qed.

(** The invariant when the loop is entered. *)
Lemma enter_ok mp' R s key l :
  started mp' → inner mp s → rules_ok R (grid_of mp') w h s → is_nan key = false →
  (∀ n, x2 n = s `mod` w → y2 n = s / w → queueKey R n f0 = key) → (∀ p, p ∈ l → inner mp p) →
  ∃ q q1, start_queue mp' s key = Some q ∧ foldM (mark_end true) q l = Some q1 ∧
    QInv R (grid_of mp') w h s (ends l) q1 (λ _ _, False) ∧
    (∀ p n, reached (grid_of mp') (view q1) p n → mem q1 p) ∧ frontier (grid_of mp') q1.
Proof.
  intros Hst Hs Hrules Hnan Hkey Hl. pose proof (sd_frame _ Hst) as Hfr.
  destruct (start_queue_ok mp' s key Hst Hs Hnan) as (q & Hq & Hok & Hsz & Hz & Hhz & Hm & Hv).
  destruct (marks_ok true q l) as (q1 & Hq1 & Hs1 & Hh1 & Hz1 & Hn1).
  { intros p Hp. rewrite Hz. by apply inner_in_grid, Hl. }
  destruct (heap_ok_ext q q1) as [Hok1 Hm1]; [done|done| |done|].
  { intros p. rewrite Hn1. destruct (node_at q p) as [n|]; [|done]. simpl. by case_decide. }
  exists q, q1. split; [done|]. split; [done|].
  assert (∀ p, view q1 p = (λ n, set_isEndNode (ends l p) (core (if decide (p = s) then entered (frame mp') key n else n)))
    <$> zget (nodeMem mp') p) as Hv1.
  { intros p. unfold view. rewrite Hn1. specialize (Hv p). unfold view in Hv.
    destruct (node_at q p) as [n|], (zget (nodeMem mp') p) as [n0|] eqn:E; cbn [fmap option_fmap option_map] in *; try done.
    apply (inj Some) in Hv. f_equal.
    rewrite <-Hv. destruct (sd_node _ Hst p n0 E) as (_ & _ & _ & HE & _).
    assert (isEndNode n = false) as HE'.
    { change (isEndNode (core n) = false). rewrite Hv. case_decide; exact HE. }
    unfold ends. destruct (decide (p ∈ l)) as [Hp|Hp]; [by rewrite bool_decide_eq_true_2 by done|rewrite bool_decide_eq_false_2 by done].
    unfold core, set_isEndNode, set_inClosed, bare. simpl. by rewrite HE'. }
  assert (∀ p, mem q1 p ↔ p = s) as Hm' by (intros p; by rewrite Hm1).
  assert (∀ p n, reached (grid_of mp') (view q1) p n → p = s) as Honly.
  { intros p n (Hp & Hf & _). destruct (decide (p = s)) as [|Hne]; [done|]. rewrite Hv1 in Hp.
    destruct (zget (nodeMem mp') p) as [n0|] eqn:E; [|done]. simpl in Hp. rewrite decide_False in Hp by done. injection Hp as <-.
    destruct (sd_node _ Hst p n0 E) as (_ & _ & _ & _ & Hlt). simpl in Hf. lia. }
  destruct (zget_is_Some (nodeMem mp') s) as [ns Hns]; [rewrite (sd_nodes _ Hst); by apply inner_in_grid|].
  assert (view q1 s = Some (set_isEndNode (ends l s) (core (entered (frame mp') key ns)))) as Hvs.
  { rewrite Hv1, Hns. simpl. by rewrite decide_True. }
  assert (reached (grid_of mp') (view q1) s (set_isEndNode (ends l s) (core (entered (frame mp') key ns)))) as Hrs.
  { split; [done|]. simpl. split; [apply u16_small; lia|]. change (fval f0) with 0. by rewrite BIG_val. }
  destruct (sd_node _ Hst s ns Hns) as (Hxs & Hys & Hi2s & _).
  split; [split; [done|split; congruence| |]|split].
  - split.
    + intros p. rewrite Hv1, fmap_is_Some, zget_is_Some_iff. by rewrite (sd_nodes _ Hst).
    + intros p n Hp. rewrite Hv1 in Hp. destruct (zget (nodeMem mp') p) as [n0|] eqn:E; [|done]. injection Hp as <-.
      destruct (sd_node _ Hst p n0 E) as (? & ? & ? & ? & _). by case_decide.
    + intros p n Hp. rewrite Hv1 in Hp. destruct (zget (nodeMem mp') p) as [n0|] eqn:E; [|done]. injection Hp as <-.
      destruct (sd_node _ Hst p n0 E) as (_ & _ & _ & _ & ?). case_decide; simpl; [|lia]. rewrite u16_small by lia. lia.
    + intros p n Hp. rewrite Hm'. split.
      * intros ->. rewrite Hvs in Hp. injection Hp as <-. simpl. split; [apply u16_small; lia|done].
      * intros [Hf _]. destruct (decide (p = s)) as [|Hne]; [done|]. rewrite Hv1 in Hp.
        destruct (zget (nodeMem mp') p) as [n0|] eqn:E; [|done]. simpl in Hp. rewrite decide_False in Hp by done. injection Hp as <-.
        destruct (sd_node _ Hst p n0 E) as (_ & _ & _ & _ & Hlt). simpl in Hf. lia.
    + intros p n ->%Hm' Hp. rewrite Hvs in Hp. injection Hp as <-. split; [apply Hrs|]. symmetry. by apply Hkey.
    + eexists. split; [exact Hrs|]. done.
    + intros p n Hp Hf. destruct (decide (p = s)) as [->|Hne].
      * rewrite Hvs in Hp. injection Hp as <-. right. split; [apply Hrs|apply walk_start].
      * rewrite Hv1 in Hp. destruct (zget (nodeMem mp') p) as [n0|] eqn:E; [|done]. simpl in Hp. rewrite decide_False in Hp by done.
        injection Hp as <-. destruct (sd_node _ Hst p n0 E) as (_ & _ & _ & _ & Hlt). simpl in Hf. lia.
    + intros p n Hr Hne. by apply Honly in Hr.
    + intros p n Hr. rewrite (Honly p n Hr). exists [s]. by eapply chain_root.
  - intros u n d i wt Hr Ho. exfalso. apply Ho, Hm', (Honly u n Hr).
  - intros p n Hr. apply Hm', (Honly p n Hr).
  - intros p p' [Hl1 Ho] _. exfalso. apply label_reached in Hl1 as [n Hr]. apply Ho, Hm', (Honly p n Hr).
Qed.

(** The pather is well formed again when the search has left. *)
Lemma leave_wf mp' R s q l q' :
  started mp' → rules_ok R (grid_of mp') w h s → Inv R (grid_of mp') w h s (ends l) (view q) (mem q) →
  zlen (pathNodeMem q) = w * h → zlen (heapArray q) = w * h → foldM (mark_end false) q l = Some q' →
  (∀ p, p ∈ l → inner mp p) → pather_wf (leave mp' q').
Proof.
  intros Hst Hrules HI Hz Hhz Hq' Hl. pose proof (sd_frame _ Hst).
  destruct (marks_ok false q l) as (q1 & Hq1 & Hs1 & Hh1 & Hz1 & Hn1).
  { intros p Hp. rewrite Hz. by apply inner_in_grid, Hl. }
  assert (q1 = q') as -> by congruence.
  split; simpl; try done; rewrite ?(sd_x _ Hst), ?(sd_y _ Hst).
  - apply Hwf.
  - apply Hwf.
  - rewrite (sd_offsets _ Hst). apply Hwf.
  - congruence.
  - congruence.
  - lia.
  - intros p n Hn. fold (node_at q' p) in Hn. rewrite Hn1 in Hn. destruct (node_at q p) as [n0|] eqn:E; [|done].
    injection Hn as <-. pose proof (view_node _ _ _ E) as Hv.
    destruct (iv_geo _ _ _ _ _ _ _ _ HI p _ Hv) as (Hx & Hy & Hi2 & HE).
    pose proof (iv_frame _ _ _ _ _ _ _ _ HI p _ Hv) as Hf. simpl in Hx, Hy, Hi2, HE, Hf. unfold ends in HE.
    case_decide as Hp; simpl; [done|]. rewrite bool_decide_eq_false_2 in HE by done. done.
Qed.

(** The key of the start node is its distance estimate. *)
Lemma start_key_ok mp' s :
  started mp' → inner mp s → 0 < xEndNode mp' < w - 1 ∧ 0 < yEndNode mp' < h - 1 →
  costf (LeastCostEstimateLocal mp' s) = true ∧
  ∀ maxThreat n, x2 n = s `mod` w → y2 n = s / w →
    queueKey (path_rules mp' maxThreat) n f0 = LeastCostEstimateLocal mp' s.
Proof.
  intros Hst Hs [Hxe Hye]. pose proof (pw_x _ Hwf). pose proof (pw_y _ Hwf).
  pose proof (inner_in_grid _ _ Hwf Hs) as Hg. unfold in_grid in Hg. destruct Hs as [Hsx Hsy].
  assert (LeastCostEstimateLocal mp' s = LeastCostEstimateXY mp' (s `mod` w) (s / w)) as E.
  { unfold LeastCostEstimateLocal. rewrite (sd_x _ Hst), Z.quot_div_nonneg, Z.mod_eq by lia. f_equal. lia. }
  rewrite E. unfold LeastCostEstimateXY.
  destruct (DiagonalDistance_costf (s `mod` w) (s / w) (xEndNode mp') (yEndNode mp')) as [Hc Hz]; [lia|lia|].
  split; [done|]. intros maxThreat n Hx Hy. simpl. rewrite Hx, Hy. by apply fadd_0_l.
Qed.

(** ** The end of a path search *)

Section path_end.
Context (mp' : CMicroPather) (maxThreat : float) (s : Z) (l : list Z).
Context {V : Type} (visit : Z → PathNode → V → option (V * bool)) (W : V → Prop) (Q : Z → PathNode → V → Prop).
Hypothesis Hst : started mp'.
Hypothesis Hs : inner mp s.
Hypothesis Hend : 0 < xEndNode mp' < w - 1 ∧ 0 < yEndNode mp' < h - 1.
Hypothesis Hl : ∀ p, p ∈ l → inner mp p.

Abbreviation ended := (search_end (path_rules mp' maxThreat) (grid_of mp') w h s (ends l) visit W Q).
(** Edges, walks and routes as the caller sees them. *)
Abbreviation cheap_route := (rroute (path_rules mp maxThreat) (grid_of mp) w s).
Abbreviation cheap_walk := (walk (path_rules mp maxThreat) (grid_of mp) w s).

Lemma end_marks q v r : ended q v r → ∃ q', foldM (mark_end false) q l = Some q'.
Proof.
  intros Hse. assert (zlen (pathNodeMem q) = w * h) as Hz.
  { destruct r as [u|]; [by destruct Hse as (_ & ? & _)|]. destruct Hse as (HQ & _). by apply (qi_len _ _ _ _ _ _ _ _ HQ). }
  destruct (marks_ok false q l) as (q' & Hq' & _); [|by exists q']. intros p Hp. rewrite Hz. by apply inner_in_grid, Hl.
Qed.

Lemma end_wf q v r q' :
  ended q v r → foldM (mark_end false) q l = Some q' →
  pather_wf (leave mp' q') ∧ mapData (leave mp' q') = mapData mp ∧ mapSizeX (leave mp' q') = w ∧ mapSizeY (leave mp' q') = h ∧
  heightMapSizeX (leave mp' q') = heightMapSizeX mp.
Proof.
  intros Hse Hq'. pose proof (path_rules_ok mp' maxThreat s Hst Hs Hend) as Hrules.
  assert (zlen (pathNodeMem q) = w * h ∧ zlen (heapArray q) = w * h ∧
    Inv (path_rules mp' maxThreat) (grid_of mp') w h s (ends l) (view q) (mem q)) as (Hz & Hhz & HI).
  { destruct r as [u|]; [by destruct Hse as (_ & ? & ? & ? & _)|]. destruct Hse as (HQ & _).
    destruct (qi_len _ _ _ _ _ _ _ _ HQ). split; [done|]. split; [done|]. apply HQ. }
  split; [by apply (leave_wf mp' _ s q l q' Hst Hrules HI Hz Hhz Hq' Hl)|].
  simpl. by rewrite (sd_map _ Hst), (sd_x _ Hst), (sd_y _ Hst), (sd_hx _ Hst).
Qed.

(** A popped goal yields the path of a route, whose cost is at most the cost reported. *)
Lemma end_solved q v u :
  ended q v (Some u) →
  ∃ n v0 l' c, GoalReached q u s u = Some (i2 w <$> reverse (u :: l')) ∧ node_at q u = Some n ∧
    visit u n v0 = Some (v, true) ∧ inner mp u ∧ isEndNode n = ends l u ∧ cheap_route (u :: l') c ∧
    fleb c (costFromStart n) = true ∧ fltb (costFromStart n) FLT_BIG_2 = true.
Proof.
  intros (Hok & Hz & Hhz & HI & n & v0 & Hn & Hr & Hvis).
  pose proof (path_rules_ok mp' maxThreat s Hst Hs Hend) as Hrules.
  destruct (iv_chain _ _ _ _ _ _ _ _ HI u _ Hr) as [ch Hch]. destruct (reached_label _ _ _ _ Hr) as [Hlab Hbig].
  destruct (chain_route _ _ _ _ _ Hrules _ _ _ u ch HI Hch Hbig) as (l' & c & -> & Hrr & Hc).
  pose proof (reached_costf _ _ _ _ _ Hrules _ _ _ _ _ HI Hr) as Hcn. simpl in Hcn, Hlab.
  exists n, v0, l', c. split; [by apply (GoalReached_ok _ _ _ _ _ Hrules _ q HI u _ _ Hr Hch)|].
  assert (costf c = true) as Hcc.
  { destruct (rroute_walk _ _ _ _ _ _ Hrr) as (x & l2 & [= <- <-] & Hw). by eapply (walk_costf _ _ _ _ _ Hrules). }
  split_and!; try done.
  - by apply (reached_interior _ _ _ _ _ Hrules _ _ _ _ _ HI Hr).
  - by apply (iv_geo _ _ _ _ _ _ _ _ HI u _ (view_node _ _ _ Hn)).
  - eapply rroute_congr; [..|exact Hrr]; simpl; by rewrite (sd_map _ Hst).
  - rewrite fleb_val by done. lia.
  - rewrite fltb_val by done. change (fval FLT_BIG_2) with BIG. lia.
Qed.

(** When the queue runs empty, every walk to a cell that was not a goal when visited is too long. *)
Lemma end_unsolved q v (T : Z → Prop) :
  ended q v None → (∀ p n, Q p n v → ¬ T p) → ∀ p c, T p → cheap_walk p c → fleb FLT_BIG_2 c = true.
Proof.
  intros (HQ & Hempty & Hvis & _) HT p c Hp Hw. pose proof (path_rules_ok mp' maxThreat s Hst Hs Hend) as Hrules.
  assert (walk (path_rules mp' maxThreat) (grid_of mp') w s p c) as Hw'.
  { eapply walk_congr; [..|exact Hw]; simpl; by rewrite (sd_map _ Hst). }
  pose proof (walk_costf _ _ _ _ _ Hrules _ _ Hw') as Hc. rewrite fleb_val by done. change (fval FLT_BIG_2) with BIG.
  destruct (walks_bound _ _ _ _ _ Hrules _ q HQ Hempty p c Hw') as [Hle|]; [|lia].
  destruct (decide (label (grid_of mp') (view q) p < BIG)) as [Hlt|]; [|lia].
  destruct (label_reached _ _ _ Hlt) as [n Hr]. by destruct (HT p n (Hvis p n Hr (Hempty p))).
Qed.
End path_end.

End one_search.

(** ** [FindBestPathToAnyGivenPoint] *)

Section any_point.
Context (mp : CMicroPather) (startNode firstEnd : Z) (rest targets : list Z) (maxThreat : float) (path : list Z).
Abbreviation endNodes := (firstEnd :: rest).
Hypothesis Hwf : pather_wf mp.
Hypothesis Hmap : map_ok mp.
Hypothesis Hstart : in_grid mp startNode.
Hypothesis Hends : ∀ p, p ∈ endNodes → in_grid mp p.
Hypothesis Htargets : ∀ p, p ∈ targets → in_grid mp p.

Abbreviation s := (FixNode mp startNode).
Abbreviation ends' := (FixNode mp <$> endNodes).

Lemma nearest_in_grid acc l :
  in_grid mp acc.2 → (∀ p, p ∈ l → in_grid mp p) → in_grid mp (foldl (nearest_target mp startNode) acc l).2.
Proof.
  revert acc. induction l as [|p l IH]; intros [c e] Hacc Hl; [done|]. simpl. apply IH.
  - unfold nearest_target. case_match; [apply Hl; by left|done].
  - intros x ?. apply Hl. by right.
Qed.

Lemma ends_inner p : p ∈ ends' → inner mp p.
Proof. intros (x & -> & Hx)%list_elem_of_fmap. by apply FixNode_inner, Hends. Qed.

Lemma any_visit_ok R g :
  visit_ok R g (mapSizeX mp) (mapSizeY mp) s (ends ends') any_visit (λ _, True) (λ p _ _, p ∉ ends').
Proof.
  intros p n [] _ _ (_ & _ & _ & HE) _ _. exists tt, (isEndNode n). split; [done|]. intros Hf. split; [done|].
  split; [|done]. rewrite HE in Hf. by apply bool_decide_eq_false in Hf.
Qed.

(** What an answer promises. *)
Definition any_answer (a : Answer) : Prop :=
  pather_wf (an_mp a) ∧ mapData (an_mp a) = mapData mp ∧
  mapSizeX (an_mp a) = mapSizeX mp ∧ mapSizeY (an_mp a) = mapSizeY mp ∧
  heightMapSizeX (an_mp a) = heightMapSizeX mp ∧
  match an_outcome a with
  | SOLVED => ∃ u l c, u ∈ ends' ∧ rroute (path_rules mp maxThreat) (grid_of mp) (mapSizeX mp) s (u :: l) c ∧
      an_path a = i2 (mapSizeX mp) <$> reverse (u :: l) ∧ fleb c (an_cost a) = true ∧ fltb (an_cost a) FLT_BIG_2 = true
  | NO_SOLUTION => an_path a = path ∧ an_cost a = f0 ∧
      ∀ p c, p ∈ ends' → walk (path_rules mp maxThreat) (grid_of mp) (mapSizeX mp) s p c → fleb FLT_BIG_2 c = true
  | START_END_SAME => False
  end.

(** The search phase, from a pather whose end node and frame are set. *)
Lemma any_search mp' :
  started mp mp' → 0 < xEndNode mp' < mapSizeX mp - 1 ∧ 0 < yEndNode mp' < mapSizeY mp - 1 →
  ∃ q q1, start_queue mp' s (LeastCostEstimateLocal mp' s) = Some q ∧ foldM (mark_end true) q ends' = Some q1 ∧
    ∃ N, ∀ fuel, (N <= fuel)%nat →
      ∃ q2 r, search fuel (path_rules mp' maxThreat) (grid_of mp') any_visit q1 tt = Some (q2, tt, r) ∧
        search_end (path_rules mp' maxThreat) (grid_of mp') (mapSizeX mp) (mapSizeY mp) s (ends ends')
          any_visit (λ _, True) (λ p _ _, p ∉ ends') q2 tt r.
Proof.
  intros Hst Hend. assert (inner mp s) as Hs by (by apply FixNode_inner).
  destruct (start_key_ok mp Hwf mp' s Hst Hs Hend) as [Hkey Hkey'].
  pose proof (path_rules_ok mp Hwf Hmap mp' maxThreat s Hst Hs Hend) as Hrules.
  destruct (enter_ok mp Hwf mp' (path_rules mp' maxThreat) s (LeastCostEstimateLocal mp' s) ends')
    as (q & q1 & Hq & Hq1 & HQ & Hnone & _); [done|done|done|by apply costf_not_nan|by apply Hkey'|apply ends_inner|].
  exists q, q1. split; [done|]. split; [done|]. exists (Z.to_nat (measure (grid_of mp') (mapSizeX mp) (mapSizeY mp) q1 + 1)).
  intros fuel Hf.
  destruct (search_ok _ _ _ _ _ Hrules (ends ends') any_visit (λ _, True) (λ p _ _, p ∉ ends') (any_visit_ok _ _) fuel q1 tt)
    as (q2 & [] & r & Hsr & Hse); [done| |done|lia|by exists q2, r].
  intros p n Hr Hm. by apply Hnone in Hr.
Qed.

Lemma any_point_ok :
  ∃ N, ∀ fuel, (N <= fuel)%nat →
    ∃ a, FindBestPathToAnyGivenPoint fuel mp startNode endNodes targets maxThreat path =
           Some (a, ends', FixNode mp <$> targets) ∧ any_answer a.
Proof.
  pose proof (pw_x _ Hwf) as Hx. pose proof (pw_y _ Hwf) as Hy.
  set (mp1 := set_running true mp).
  destruct (foldl (nearest_target mp1 startNode) (FLT_MAX, firstEnd) (FixNode mp1 <$> targets)) as [lc en] eqn:Hacc.
  assert (in_grid mp en) as Hen.
  { change en with (lc, en).2. rewrite <-Hacc. apply nearest_in_grid; [apply Hends; by left|].
    intros p (x & -> & Hx')%list_elem_of_fmap. change (FixNode mp1 x) with (FixNode mp x).
    apply inner_in_grid; [done|]. by apply FixNode_inner, Htargets. }
  destruct (FixStartEndNode_ok mp1 startNode en) as (xe & ye & Hfix & Hxe & Hye & _); [simpl; lia|simpl; lia|done|done|].
  destruct (next_frame_started mp Hwf (set_end xe ye mp1)) as (Hst & Hxe' & Hye'); [done..|by left|].
  set (mp' := next_frame (set_end xe ye mp1)) in *. simpl in Hxe', Hye'.
  assert (0 < xEndNode mp' < mapSizeX mp - 1 ∧ 0 < yEndNode mp' < mapSizeY mp - 1) as Hend by (rewrite Hxe', Hye'; done).
  assert (inner mp s) as Hs by (by apply FixNode_inner).
  destruct (any_search mp' Hst Hend) as (q & q1 & Hq & Hq1 & N & HN). exists N. intros fuel Hf.
  destruct (HN fuel Hf) as (q2 & r & Hsr & Hse). unfold FindBestPathToAnyGivenPoint. fold mp1. rewrite Hacc, Hfix.
  cbv beta iota. fold mp'. change (FixNode mp1 startNode) with s. rewrite Hq. cbn [mbind option_bind].
  assert (FixNode mp' <$> endNodes = ends') as ->.
  { apply list_fmap_ext. intros i x _. unfold FixNode. by rewrite (sd_x _ _ Hst), (sd_y _ _ Hst). }
  rewrite Hq1. cbn [mbind option_bind]. rewrite Hsr. cbn [mbind option_bind]. destruct r as [u|].
  - destruct (end_solved mp Hwf Hmap mp' maxThreat s ends' _ _ _ Hst Hs Hend q2 tt u Hse)
      as (n & v0 & l & c & -> & Hn & Hv & _ & HE & Hrr & Hle & Hlt). cbn [mbind option_bind].
    rewrite Hn. cbn [mbind option_bind].
    destruct (end_marks mp Hwf mp' maxThreat s ends' _ _ _ ends_inner q2 tt (Some u) Hse) as [q3 Hq3].
    rewrite Hq3. cbn [mbind option_bind]. eexists. split; [reflexivity|].
    destruct (end_wf mp Hwf Hmap mp' maxThreat s ends' _ _ _ Hst Hs Hend ends_inner q2 tt (Some u) q3 Hse Hq3) as (? & ? & ? & ? & ?).
    split_and!; try done. simpl. exists u, l, c. split_and!; try done.
    unfold any_visit in Hv. injection Hv as _ Hv. rewrite HE in Hv. by apply bool_decide_eq_true in Hv.
  - destruct (end_marks mp Hwf mp' maxThreat s ends' _ _ _ ends_inner q2 tt None Hse) as [q3 Hq3].
    rewrite Hq3. cbn [mbind option_bind]. eexists. split; [reflexivity|].
    destruct (end_wf mp Hwf Hmap mp' maxThreat s ends' _ _ _ Hst Hs Hend ends_inner q2 tt None q3 Hse Hq3) as (? & ? & ? & ? & ?).
    split_and!; try done. simpl. split_and!; try done. intros p c Hp Hw.
    by apply (end_unsolved mp Hwf Hmap mp' maxThreat s ends' _ _ _ Hst Hs Hend q2 tt (λ p, p ∈ ends') Hse (λ _ _ H, H) p c).
Qed.
End any_point.

(** ** [FindBestPathToPointOnRadius] *)

(** The table of the circle holds the exact half widths, for radii below 1024 path squares; further
    out a [float] square root can round up to the next integer. *)
Lemma circle_rows_ok r :
  0 < r < 2 ^ 10 →
  ∃ xend, circle_rows r = Some xend ∧
    ∀ a, 0 <= a <= 2 * r → zget xend a = Some (Z.sqrt (r * r - (a - r) * (a - r))).
Proof.
  intros Hr. set (row := λ a, Z.sqrt (r * r - (a - r) * (a - r))).
  assert (∀ a, 0 <= a <= 2 * r → circle_row r a = Some (row a)) as Hrow.
  { intros a Ha. apply circle_half_width; lia. }
  destruct (foldM_ind (λ pre acc, acc = row <$> pre)
    (λ acc a, x ← circle_row r a; Some (acc ++ [x])) (seqZ 0 (2 * r + 1)) []) as (xend & Hx & ->); [done| |].
  - intros pre a post acc Hl ->. rewrite Hrow.
    + cbn [mbind option_bind]. eexists. split; [done|]. by rewrite fmap_app.
    + assert (a ∈ seqZ 0 (2 * r + 1)) as Ha by (rewrite Hl; apply elem_of_app; right; by left).
      apply elem_of_seqZ in Ha. lia.
  - exists (row <$> seqZ 0 (2 * r + 1)). split; [done|]. intros a Ha. rewrite zget_fmap_range.
    by rewrite decide_True by lia.
Qed.

Section on_radius.
Context (mp : CMicroPather) (startNode endNode radius : Z) (maxThreat : float) (hitTest : TestFunc) (path : list Z).
Hypothesis Hwf : pather_wf mp.
Hypothesis Hmap : map_ok mp.
Hypothesis Hstart : in_grid mp startNode.
Hypothesis Hendn : in_grid mp endNode.
Hypothesis Hradius : 0 < radius < 2 ^ 10.

Abbreviation s := (FixNode mp startNode).
Abbreviation w := (mapSizeX mp).
Abbreviation ex := (FixNode mp endNode `mod` mapSizeX mp).
Abbreviation ey := (FixNode mp endNode / mapSizeX mp).

(** A cell the search may stop at: in the disc around the end node, and accepted by [hitTest]. *)
Definition on_target (p : Z) : Prop :=
  (p `mod` w - ex) * (p `mod` w - ex) + (p / w - ey) * (p / w - ey) <= radius * radius ∧
  hitTest (p `mod` w - 1, p / w - 1) (ex - 1, ey - 1) = true.

Lemma sqrt_le_iff a b : 0 <= a → 0 <= b → a <= Z.sqrt b ↔ a * a <= b.
Proof.
  intros Ha Hb. pose proof (Z.sqrt_spec b Hb) as [H1 H2]. pose proof (Z.sqrt_nonneg b).
  split; intros ?; [nia|]. destruct (decide (a <= Z.sqrt b)); [done|nia].
Qed.

Lemma radius_visit_ok mp' xend :
  started mp mp' → circle_rows radius = Some xend → xEndNode mp' = ex → yEndNode mp' = ey →
  ∀ p n v, inner mp p → ∃ b, radius_visit mp' ex ey radius xend hitTest p n v = Some (v, b) ∧ (b = true ↔ on_target p).
Proof.
  intros Hst Hrows Hxe Hye p n v Hp. pose proof (pw_x _ Hwf). unfold radius_visit. rewrite (sd_x _ _ Hst), Hxe, Hye.
  pose proof (inner_in_grid _ _ Hwf Hp) as Hg. unfold in_grid in Hg. rewrite Z.quot_div_nonneg by lia.
  replace (p - p / w * w) with (p `mod` w) by (rewrite Z.mod_eq by lia; lia).
  destruct (circle_rows_ok radius Hradius) as (xend' & Hrows' & Hget). assert (xend' = xend) as -> by congruence.
  unfold on_target. set (dx := p `mod` w - ex). set (dy := p / w - ey). decide_goal as [Hbox|Hbox].
  - rewrite Hget by lia. cbn [mbind option_bind]. replace (p / w - (ey - radius) - radius) with dy by lia.
    assert (Z.abs dx <= Z.sqrt (radius * radius - dy * dy) ↔ dx * dx + dy * dy <= radius * radius) as Hiff.
    { assert (0 <= radius * radius - dy * dy) by nia. rewrite sqrt_le_iff by lia. lia. }
    decide_goal as [Hin|Hout].
    + eexists. split; [done|]. tauto.
    + eexists. split; [done|]. split; [done|]. tauto.
  - eexists. split; [done|]. split; [done|]. intros [Hd _]. exfalso. apply Hbox.
    assert (Z.abs dy <= radius ∧ Z.abs dx <= radius) by nia. lia.
Qed.

(** What an answer promises. *)
Definition radius_answer (a : Answer) : Prop :=
  pather_wf (an_mp a) ∧ mapData (an_mp a) = mapData mp ∧
  mapSizeX (an_mp a) = mapSizeX mp ∧ mapSizeY (an_mp a) = mapSizeY mp ∧
  heightMapSizeX (an_mp a) = heightMapSizeX mp ∧
  match an_outcome a with
  | SOLVED => ∃ u l c, on_target u ∧ rroute (path_rules mp maxThreat) (grid_of mp) w s (u :: l) c ∧
      an_path a = i2 w <$> reverse (u :: l) ∧ fleb c (an_cost a) = true ∧ fltb (an_cost a) FLT_BIG_2 = true
  | NO_SOLUTION => an_path a = path ∧ an_cost a = f0 ∧
      ∀ p c, on_target p → walk (path_rules mp maxThreat) (grid_of mp) w s p c → fleb FLT_BIG_2 c = true
  | START_END_SAME => False
  end.

Lemma on_radius_ok :
  ∃ N, ∀ fuel, (N <= fuel)%nat →
    ∃ a, FindBestPathToPointOnRadius fuel mp startNode endNode radius maxThreat hitTest path = Some a ∧ radius_answer a.
Proof.
  pose proof (pw_x _ Hwf) as Hx. pose proof (pw_y _ Hwf) as Hy. set (mp1 := set_running true mp).
  destruct (FixStartEndNode_ok mp1 startNode endNode) as (xe & ye & Hfix & Hxe & Hye & Hey & Hex); [simpl; lia|simpl; lia|done|done|].
  destruct (next_frame_started mp Hwf (set_end xe ye mp1)) as (Hst & Hxe' & Hye'); [done..|by left|].
  set (mp' := next_frame (set_end xe ye mp1)) in *. simpl in Hxe', Hye'.
  assert (0 < xEndNode mp' < w - 1 ∧ 0 < yEndNode mp' < mapSizeY mp - 1) as Hend by (rewrite Hxe', Hye'; done).
  assert (xEndNode mp' = ex) as Hxex by (rewrite Hxe'; symmetry; exact Hex).
  assert (yEndNode mp' = ey) as Hyey by (rewrite Hye'; symmetry; exact Hey).
  destruct (circle_rows_ok radius Hradius) as (xend & Hrows & _).
  pose proof (radius_visit_ok mp' xend Hst Hrows Hxex Hyey) as Hvisit.
  assert (inner mp s) as Hs by (by apply FixNode_inner).
  destruct (start_key_ok mp Hwf mp' s Hst Hs Hend) as [Hkey Hkey'].
  pose proof (path_rules_ok mp Hwf Hmap mp' maxThreat s Hst Hs Hend) as Hrules.
  assert (∀ p, p ∈ ([] : list Z) → inner mp p) as Hnil by (intros p Hp; by apply not_elem_of_nil in Hp).
  destruct (enter_ok mp Hwf mp' (path_rules mp' maxThreat) s (LeastCostEstimateLocal mp' s) [])
    as (q & q1 & Hq & Hq1 & HQ & Hnone & _); [done|done|done|by apply costf_not_nan|by apply Hkey'|done|].
  injection Hq1 as <-.
  exists (Z.to_nat (measure (grid_of mp') w (mapSizeY mp) q + 1)). intros fuel Hf.
  destruct (search_ok _ _ _ _ _ Hrules (ends []) (radius_visit mp' ex ey radius xend hitTest) (λ _, True) (λ p _ _, ¬ on_target p))
    with (fuel := fuel) (q := q) (v := tt) as (q2 & [] & r & Hsr & Hse).
  { intros p n [] _ Hp _ _ _. destruct (Hvisit p n tt Hp) as (b & Hb & Hiff). exists tt, b. split; [done|].
    intros ->. split; [done|]. split; [|done]. intros ?%Hiff. done. }
  { done. }
  { intros p n Hr Hm. by apply Hnone in Hr. }
  { done. }
  { lia. }
  unfold FindBestPathToPointOnRadius. rewrite decide_False by lia. fold mp1. rewrite Hfix. cbv beta iota. fold mp'.
  change (FixNode mp1 startNode) with s. rewrite Hq. cbn [mbind option_bind]. rewrite Hrows. cbn [mbind option_bind].
  change (FixNode mp1 endNode) with (FixNode mp endNode).
  assert (in_grid mp (FixNode mp endNode)) as Hg by (apply inner_in_grid; [done|by apply FixNode_inner]). unfold in_grid in Hg.
  rewrite (sd_x _ _ Hst), (Z.quot_div_nonneg (FixNode mp endNode)) by lia.
  replace (FixNode mp endNode - ey * w) with ex by (rewrite Z.mod_eq by lia; lia).
  rewrite Hsr. cbn [mbind option_bind]. destruct r as [u|].
  - destruct (end_solved mp Hwf Hmap mp' maxThreat s [] _ _ _ Hst Hs Hend q2 tt u Hse)
      as (n & v0 & l & c & -> & Hn & Hv & Hu & _ & Hrr & Hle & Hlt). cbn [mbind option_bind].
    rewrite Hn. cbn [mbind option_bind]. eexists. split; [reflexivity|].
    destruct (end_wf mp Hwf Hmap mp' maxThreat s [] _ _ _ Hst Hs Hend Hnil q2 tt (Some u) q2 Hse) as (? & ? & ? & ? & ?); [done|].
    split_and!; try done. simpl. exists u, l, c. split_and!; try done.
    destruct (Hvisit u n v0 Hu) as (b & Hb & Hiff). apply Hiff. congruence.
  - eexists. split; [reflexivity|].
    destruct (end_wf mp Hwf Hmap mp' maxThreat s [] _ _ _ Hst Hs Hend Hnil q2 tt None q2 Hse) as (? & ? & ? & ? & ?); [done|].
    split_and!; try done. simpl. split_and!; try done. intros p c Hp Hw.
    by apply (end_unsolved mp Hwf Hmap mp' maxThreat s [] _ _ _ Hst Hs Hend q2 tt on_target Hse (λ _ _ H, H) p c).
Qed.
End on_radius.

(** ** [MakeCostMap] *)

Lemma i2_range w h p : interior w h p → 0 <= i2 w p < (w - 2) * (h - 2).
Proof. intros [Hx Hy]. unfold i2. nia. Qed.

Lemma i2_inj w h p p' : 0 < w → interior w h p → interior w h p' → i2 w p = i2 w p' → p = p'.
Proof.
  intros Hw [Hx Hy] [Hx' Hy'] E. unfold i2 in E.
  assert (p / w = p' / w ∧ p `mod` w = p' `mod` w) as [Ed Em].
  { assert (p / w - 1 = p' / w - 1 ∧ p `mod` w - 1 = p' `mod` w - 1); [|lia].
    apply (Z.div_mod_unique (w - 2)); lia. }
  rewrite (Z.div_mod p w), (Z.div_mod p' w) by lia. congruence.
Qed.

Section cost_map.
Context (mp : CMicroPather) (startNode : Z) (costMap : list float).
Hypothesis Hwf : pather_wf mp.
Hypothesis Hmap : map_ok mp.
Hypothesis Hthreat : ∀ p t, inner mp p → zget (threatArray (mapData mp)) (i2 (mapSizeX mp) p) = Some t → costf t = true.
Hypothesis Hstart : in_grid mp startNode.
Hypothesis Hlen : zlen costMap = (mapSizeX mp - 2) * (mapSizeY mp - 2).

Abbreviation s := (FixNode mp startNode).
Abbreviation w := (mapSizeX mp).
Abbreviation h := (mapSizeY mp).
Abbreviation a_walk := (walk (cost_rules mp) (grid_of mp) w s).

(** Entries are costs of cells within reach, or what was there before. *)
Definition partial_map (R : Rules) (g : Grid) (m : list float) : Prop :=
  zlen m = (w - 2) * (h - 2) ∧
  ∀ p, inner mp p → zget m (i2 w p) = zget costMap (i2 w p) ∨ ∃ c, walk R g w s p c ∧ fval c < BIG.

Lemma cost_visit_ok R g isEnd :
  visit_ok R g w h s isEnd cost_visit (partial_map R g) (λ p n m, zget m (i2 w p) = Some (costFromStart n)).
Proof.
  intros p n m [Hz Hm] Hp (_ & _ & Hi2 & _) Hw Hb. unfold cost_visit. rewrite Hi2.
  destruct (zset m (i2 w p) (costFromStart n)) as [m'|] eqn:E;
    [|rewrite zset_Some in E by (rewrite Hz; by apply i2_range); done].
  cbn [mbind option_bind]. exists m', false. split; [done|]. intros _. pose proof (pw_x _ Hwf). split; [split|split].
  - by rewrite (zlen_zset _ _ _ _ E).
  - intros x Hx. destruct (decide (x = p)) as [->|Hne]; [right; eauto|].
    rewrite (zget_zset_ne _ _ _ _ _ E); [by apply Hm|]. intros Ei. apply Hne. symmetry. by apply (i2_inj w h); [lia|..].
  - apply (zget_zset_eq _ _ _ _ E).
  - intros x k Hx Hne Hk. rewrite (zget_zset_ne _ _ _ _ _ E); [done|]. intros Ei. apply Hne. symmetry. by apply (i2_inj w h); [lia|..].
Qed.

(** The finished map: shortest walks, and untouched entries where there is none. *)
Definition exact_map (m : list float) : Prop :=
  zlen m = zlen costMap ∧
  ∀ p, inner mp p →
    (∃ c, zget m (i2 w p) = Some c ∧ a_walk p c ∧ fltb c FLT_BIG_2 = true ∧ ∀ c', a_walk p c' → fleb c c' = true) ∨
    (zget m (i2 w p) = zget costMap (i2 w p) ∧ ∀ c', a_walk p c' → fleb FLT_BIG_2 c' = true).

Lemma cost_map_end mp' q m :
  started mp mp' →
  search_end (cost_rules mp') (grid_of mp') w h s (ends []) cost_visit (partial_map (cost_rules mp') (grid_of mp'))
    (λ p n m, zget m (i2 w p) = Some (costFromStart n)) q m None →
  pather_wf (leave mp' q) ∧ exact_map m.
Proof.
  intros Hst (HQ & Hempty & Hvis & [Hz Hpart]). assert (inner mp s) as Hs by (by apply FixNode_inner).
  pose proof (cost_rules_ok mp Hwf Hmap mp' s Hst Hs Hthreat) as Hrules. pose proof (qi_inv _ _ _ _ _ _ _ _ HQ) as HI.
  destruct (qi_len _ _ _ _ _ _ _ _ HQ) as [Hzq Hhz].
  assert (skips (cost_rules mp') = skips (cost_rules mp) ∧ nodeCost (cost_rules mp') = nodeCost (cost_rules mp) ∧
    g_canMove (grid_of mp') = g_canMove (grid_of mp)) as (E1 & E2 & E3) by (simpl; by rewrite (sd_map _ _ Hst)).
  assert (∀ p c, a_walk p c ↔ walk (cost_rules mp') (grid_of mp') w s p c) as Hiff.
  { intros p c. split; apply walk_congr; done. }
  split.
  - apply (leave_wf mp Hwf mp' _ s q [] q Hst Hrules HI Hzq Hhz); [done|]. intros p Hp. by apply not_elem_of_nil in Hp.
  - split; [by rewrite Hlen|]. intros p Hp.
    assert (∀ c', a_walk p c' → costf c' = true ∧ (label (grid_of mp') (view q) p <= fval c' ∨ BIG <= fval c')) as Hbound.
    { intros c' Hw%Hiff. split; [by apply (walk_costf _ _ _ _ _ Hrules _ _ Hw)|].
      by apply (walks_bound _ _ _ _ _ Hrules _ q HQ Hempty). }
    destruct (decide (label (grid_of mp') (view q) p < BIG)) as [Hlt|Hge].
    + left. destruct (label_reached _ _ _ Hlt) as [n Hr]. destruct (reached_label _ _ _ _ Hr) as [Hl _].
      pose proof (reached_costf _ _ _ _ _ Hrules _ _ _ _ _ HI Hr) as Hcf.
      exists (costFromStart n). split; [apply (Hvis p n Hr (Hempty p))|].
      split; [apply Hiff, (reached_walk _ _ _ _ _ _ _ _ _ _ HI Hr)|].
      split; [rewrite fltb_val by done; change (fval FLT_BIG_2) with BIG; lia|].
      intros c' Hw. destruct (Hbound c' Hw) as [Hc' Hb]. rewrite fleb_val by done. lia.
    + right. split.
      * destruct (Hpart p Hp) as [|(c & Hw & Hb)]; [done|]. destruct (walks_bound _ _ _ _ _ Hrules _ q HQ Hempty p c Hw); lia.
      * intros c' Hw. destruct (Hbound c' Hw) as [Hc' Hb]. rewrite fleb_val by done. change (fval FLT_BIG_2) with BIG. lia.
Qed.

Lemma cost_map_ok fuel :
  w * h < Z.of_nat fuel →
  ∃ mp' m, MakeCostMap fuel mp startNode costMap = Some (mp', m) ∧ pather_wf mp' ∧ exact_map m.
Proof.
  intros Hf. set (mp1 := set_running true mp).
  destruct (next_frame_started mp Hwf mp1) as (Hst & _ & _); [done..|by right|]. set (mp' := next_frame mp1) in *.
  assert (inner mp s) as Hs by (by apply FixNode_inner).
  pose proof (cost_rules_ok mp Hwf Hmap mp' s Hst Hs Hthreat) as Hrules.
  assert (∀ p, p ∈ ([] : list Z) → inner mp p) as Hnil by (intros p Hp; by apply not_elem_of_nil in Hp).
  destruct (enter_ok mp Hwf mp' (cost_rules mp') s f0 []) as (q & q1 & Hq & Hq1 & HQ & Hnone & Hfr); [done..|].
  injection Hq1 as <-. pose proof (remaining_bounds _ _ _ _ _ Hrules q).
  destruct (search_once _ _ _ _ _ Hrules (ends []) cost_visit _ _ (cost_visit_ok _ _ (ends [])) ltac:(done) fuel q costMap)
    as (q2 & m & r & Hsr & Hse); [done| | |done|lia|].
  - intros p n Hr Hm. by apply Hnone in Hr.
  - split; [done|]. by left.
  - unfold MakeCostMap. fold mp1. change (FixNode mp1 startNode) with s. fold mp'. rewrite Hq. cbn [mbind option_bind].
    rewrite Hsr. cbn [mbind option_bind]. destruct r as [u|].
    + exfalso. destruct Hse as (_ & _ & _ & _ & n & v0 & _ & _ & Hv). unfold cost_visit in Hv. by bind_inv Hv.
    + eexists _, _. split; [reflexivity|]. by apply (cost_map_end mp' q2 m).
Qed.
End cost_map.

(** ** The guarantees *)

Lemma any_fuel mp startNode endNodes targets maxThreat path fuel k r :
  FindBestPathToAnyGivenPoint fuel mp startNode endNodes targets maxThreat path = Some r →
  FindBestPathToAnyGivenPoint (fuel + k) mp startNode endNodes targets maxThreat path = Some r.
Proof.
  unfold FindBestPathToAnyGivenPoint. destruct endNodes as [|e rest]; [done|].
  destruct (foldl _ _ _) as [lc en]. destruct (FixStartEndNode _ _ _) as [[mp1 s1] e1]. cbv beta iota zeta.
  destruct (start_queue _ _ _) as [q|]; [|done]. cbn [mbind option_bind].
  destruct (foldM (mark_end true) _ _) as [q1|]; [|done]. cbn [mbind option_bind].
  destruct (search fuel _ _ _ _ _) as [x|] eqn:E; [|done]. by rewrite (search_fuel _ _ _ _ _ _ _ _ E).
Qed.

Section guarantees.
Context (mp : CMicroPather) (startNode : Z) (endNodes targets : list Z) (maxThreat : float) (path : list Z).
Hypothesis Hwf : pather_wf mp.
Hypothesis Hmap : map_ok mp.
Hypothesis Hstart : in_grid mp startNode.
Hypothesis Hends : Forall (in_grid mp) endNodes.
Hypothesis Htargets : Forall (in_grid mp) targets.

Abbreviation FindBestPath fuel := (FindBestPathToAnyGivenPoint fuel mp startNode endNodes targets maxThreat path).

Lemma set_running_wf : pather_wf (set_running false mp).
Proof. destruct Hwf. by split. Qed.

(** The answer of every run that returns. *)
Lemma any_returns :
  ∃ N, ∀ fuel, (N <= fuel)%nat → ∃ a,
    FindBestPath fuel = Some (a, FixNode mp <$> endNodes, FixNode mp <$> targets) ∧
      (∃ f r, endNodes = f :: r ∧ any_answer mp startNode f r maxThreat path a) ∨
    FindBestPath fuel = Some (a, endNodes, targets) ∧ endNodes = [] ∧ a = mkAnswer (set_running false mp) NO_SOLUTION path f0.
Proof.
  rewrite !Forall_forall in *. destruct endNodes as [|f r] eqn:E.
  - exists O. intros fuel _. eexists. right. done.
  - destruct (any_point_ok mp startNode f r targets maxThreat path Hwf Hmap Hstart Hends Htargets) as [N HN].
    exists N. intros fuel Hf. destruct (HN fuel Hf) as (a & Ha & Hans). exists a. left. split; [done|]. by exists f, r.
Qed.

Lemma any_result fuel a e t :
  FindBestPath fuel = Some (a, e, t) →
  (∃ f r, endNodes = f :: r ∧ any_answer mp startNode f r maxThreat path a) ∨
  endNodes = [] ∧ a = mkAnswer (set_running false mp) NO_SOLUTION path f0.
Proof.
  intros H. destruct any_returns as [N HN]. apply (any_fuel _ _ _ _ _ _ fuel N) in H.
  destruct (HN (fuel + N)%nat ltac:(lia)) as (a' & [[Ha Hans]|(Ha & He & Hans)]); rewrite Ha in H; simplify_eq; eauto.
Qed.
End guarantees.

(** C22: [FindBestPathToAnyGivenPoint] always returns.  For a well-formed pather, a map whose arrays have its
    size and whose costs are not negative, and nodes of the grid, there is a number of loop iterations
    that is enough whatever the floating-point costs are; no access leaves an array, no indeterminate
    memory is read, and the pather is well formed again: not running, no node still marked as an end. *)
Theorem FindBestPath_terminates mp startNode endNodes targets maxThreat path :
  pather_wf mp → map_ok mp → in_grid mp startNode → Forall (in_grid mp) endNodes → Forall (in_grid mp) targets →
  ∃ N, ∀ fuel, (N <= fuel)%nat → ∃ a endNodes' targets',
    FindBestPathToAnyGivenPoint fuel mp startNode endNodes targets maxThreat path = Some (a, endNodes', targets') ∧
    pather_wf (an_mp a) ∧ mapData (an_mp a) = mapData mp.
Proof.
  intros Hwf Hmap Hs He Ht. destruct (any_returns mp startNode endNodes targets maxThreat path) as [N HN]; [done..|].
  exists N. intros fuel Hf. destruct (HN fuel Hf) as (a & [[Ha (f & r & _ & Hans)]|(Ha & _ & ->)]).
  - eexists a, _, _. split; [exact Ha|]. by destruct Hans as (? & ? & _).
  - eexists _, _, _. split; [exact Ha|]. split; [by apply set_running_wf|done].
Qed.

(** C13: A path that [FindBestPathToAnyGivenPoint] returns is a walk: it starts at the start cell, ends at one of
    the (corrected) end cells, every step goes to one of the eight neighbours, which can be entered and
    whose threat is at most maxThreat, and the cost reported is at least the cost of the path, added up
    in float, and below FLT_BIG / 2. *)
Theorem FindBestPath_solved mp startNode endNodes targets maxThreat path fuel a e t :
  pather_wf mp → map_ok mp → in_grid mp startNode → Forall (in_grid mp) endNodes → Forall (in_grid mp) targets →
  FindBestPathToAnyGivenPoint fuel mp startNode endNodes targets maxThreat path = Some (a, e, t) →
  an_outcome a = SOLVED →
  ∃ u l c, u ∈ FixNode mp <$> endNodes ∧
    rroute (path_rules mp maxThreat) (grid_of mp) (mapSizeX mp) (FixNode mp startNode) (u :: l) c ∧
    an_path a = i2 (mapSizeX mp) <$> reverse (u :: l) ∧ fleb c (an_cost a) = true ∧ fltb (an_cost a) FLT_BIG_2 = true.
Proof.
  intros Hwf Hmap Hs He Ht H Ho. destruct (any_result mp startNode endNodes targets maxThreat path) with fuel a e t
    as [(f & r & -> & (_ & _ & _ & _ & _ & Hans))|[_ ->]]; [done..| |done].
  by rewrite Ho in Hans.
Qed.

(** C20: [FindBestPathToAnyGivenPoint] fails exactly when there is nothing to find: it answers NO_SOLUTION if and
    only if every walk from the start to an end cell, over cells that can be entered and are not too
    dangerous, costs at least FLT_BIG / 2 (in particular when there is no such walk, or no end cell);
    the path is then left as it was and the cost is zero. *)
Theorem FindBestPath_no_solution mp startNode endNodes targets maxThreat path fuel a e t :
  pather_wf mp → map_ok mp → in_grid mp startNode → Forall (in_grid mp) endNodes → Forall (in_grid mp) targets →
  FindBestPathToAnyGivenPoint fuel mp startNode endNodes targets maxThreat path = Some (a, e, t) →
  (an_outcome a = NO_SOLUTION ↔
    ∀ p c, p ∈ FixNode mp <$> endNodes →
      walk (path_rules mp maxThreat) (grid_of mp) (mapSizeX mp) (FixNode mp startNode) p c → fleb FLT_BIG_2 c = true) ∧
  (an_outcome a = NO_SOLUTION → an_path a = path ∧ an_cost a = f0).
Proof.
  intros Hwf Hmap Hs He Ht H. destruct (any_result mp startNode endNodes targets maxThreat path) with fuel a e t
    as [(f & r & -> & (_ & _ & _ & _ & _ & Hans))|[-> ->]]; [done..| |].
  - destruct (an_outcome a).
    + destruct Hans as (u & l & c & Hu & Hrr & _ & Hle & Hlt). split; [|done]. split; [done|]. intros Hall. exfalso.
      destruct (rroute_walk _ _ _ _ _ _ Hrr) as (x & l' & [= <- <-] & Hw). specialize (Hall u c Hu Hw).
      pose proof (fleb_trans _ _ _ Hall Hle) as Hb. apply fltb_rank in Hlt as (_ & _ & Hlt).
      apply fleb_rank in Hb as (_ & _ & Hb). done.
    + destruct Hans as (? & ? & ?). done.
    + done.
  - split; [|done]. split; [|done]. intros _ p c Hp. by apply not_elem_of_nil in Hp.
Qed.

(** C24: [FindBestPathToPointOnRadius] always returns and is exact about its target.  For a radius below 1024
    path squares, the answer is a walk to a cell inside the disc around the (corrected) end cell
    that the hit test accepts, with a cost that covers the walk's, or it is NO_SOLUTION and every walk to
    such a cell costs at least FLT_BIG / 2; the pather is well formed again. *)
Theorem FindBestPathToPointOnRadius_exact mp startNode endNode radius maxThreat hitTest path :
  pather_wf mp → map_ok mp → in_grid mp startNode → in_grid mp endNode → 0 < radius < 2 ^ 10 →
  ∃ N, ∀ fuel, (N <= fuel)%nat → ∃ a,
    FindBestPathToPointOnRadius fuel mp startNode endNode radius maxThreat hitTest path = Some a ∧
    radius_answer mp startNode endNode radius maxThreat hitTest path a.
Proof. intros. by apply on_radius_ok. Qed.

(** C11: [MakeCostMap] computes shortest walks, exactly.  With one loop iteration per cell (no cell is visited
    twice) it returns; afterwards the entry of every cell that can be reached at a cost below FLT_BIG / 2
    is the cost, in float arithmetic, of a walk from the start, and no walk to the cell costs less; the
    entries of the other cells are untouched. *)
Theorem MakeCostMap_shortest mp startNode costMap fuel :
  pather_wf mp → map_ok mp →
  (∀ p t, inner mp p → zget (threatArray (mapData mp)) (i2 (mapSizeX mp) p) = Some t → costf t = true) →
  in_grid mp startNode → zlen costMap = (mapSizeX mp - 2) * (mapSizeY mp - 2) →
  mapSizeX mp * mapSizeY mp < Z.of_nat fuel →
  ∃ mp' m, MakeCostMap fuel mp startNode costMap = Some (mp', m) ∧ pather_wf mp' ∧ exact_map mp startNode costMap m.
Proof. intros. by apply cost_map_ok. Qed.

(** ** A pather serves any number of requests *)

(** One request of [CPathFinder]: the map it was prepared with and the search. *)
Inductive request : Type :=
| AnyPoint (md : MapData) (startNode : Z) (endNodes targets : list Z) (maxThreat : float)
| OnRadius (md : MapData) (startNode endNode radius : Z) (maxThreat : float) (hitTest : TestFunc)
| CostMap (md : MapData) (startNode : Z) (costMap : list float).

Definition run_request (fuel : nat) (mp : CMicroPather) (r : request) : option CMicroPather :=
  match r with
  | AnyPoint md s e t m =>
      '(a, _, _) ← FindBestPathToAnyGivenPoint fuel (SetMapData md mp) s e t m []; Some (an_mp a)
  | OnRadius md s e rad m hit =>
      a ← FindBestPathToPointOnRadius fuel (SetMapData md mp) s e rad m hit []; Some (an_mp a)
  | CostMap md s c => '(mp, _) ← MakeCostMap fuel (SetMapData md mp) s c; Some mp
  end.

(** The request fits a pather of this size. *)
Definition request_ok (mp : CMicroPather) (r : request) : Prop :=
  match r with
  | AnyPoint md s e t _ =>
      map_ok (SetMapData md mp) ∧ in_grid mp s ∧ Forall (in_grid mp) e ∧ Forall (in_grid mp) t
  | OnRadius md s e rad _ _ =>
      map_ok (SetMapData md mp) ∧ in_grid mp s ∧ in_grid mp e ∧ rad < 2 ^ 10
  | CostMap md s c =>
      map_ok (SetMapData md mp) ∧ in_grid mp s ∧ zlen c = (mapSizeX mp - 2) * (mapSizeY mp - 2) ∧
      ∀ p t, inner mp p → zget (threatArray md) (i2 (mapSizeX mp) p) = Some t → costf t = true
  end.

Lemma SetMapData_wf md mp : pather_wf mp → pather_wf (SetMapData md mp).
Proof. intros []. by split. Qed.

Lemma request_ok_size mp mp' r :
  mapSizeX mp' = mapSizeX mp → mapSizeY mp' = mapSizeY mp → request_ok mp r → request_ok mp' r.
Proof.
  intros Hx Hy. assert (∀ p, in_grid mp' p ↔ in_grid mp p) as Hg by (intros; unfold in_grid; by rewrite Hx, Hy).
  assert (∀ md, map_ok (SetMapData md mp) → map_ok (SetMapData md mp')) as Hm.
  { intros md []. split; unfold inner in *; simpl in *; by rewrite ?Hx, ?Hy. }
  destruct r; simpl; unfold inner; rewrite ?Hx, ?Hy, ?Hg; intuition eauto;
    (eapply Forall_impl; [done|]; intros; by apply Hg).
Qed.

Lemma run_request_ok mp r :
  pather_wf mp → request_ok mp r →
  ∃ N, ∀ fuel, (N <= fuel)%nat → ∃ mp', run_request fuel mp r = Some mp' ∧ pather_wf mp' ∧
    mapSizeX mp' = mapSizeX mp ∧ mapSizeY mp' = mapSizeY mp.
Proof.
  intros Hwf Hr. destruct r as [md s e t m|md s e rad m hit|md s c]; pose proof (SetMapData_wf md mp Hwf) as Hwf'; simpl in *.
  - destruct Hr as (Hm & Hs & He & Ht). destruct (any_returns (SetMapData md mp) s e t m []) as [N HN]; [done..|].
    exists N. intros fuel Hf. destruct (HN fuel Hf) as (a & [[-> (f & r & _ & (? & _ & ? & ? & _))]|(-> & _ & ->)]);
      cbn [mbind option_bind]; eexists; (split; [reflexivity|]); [done|]. split; [by apply set_running_wf|done].
  - destruct Hr as (Hm & Hs & He & Hrad). destruct (decide (rad <= 0)) as [Hle|Hgt].
    + exists O. intros fuel _. unfold FindBestPathToPointOnRadius. rewrite decide_True by done. cbn [mbind option_bind].
      eexists. split; [reflexivity|]. split; [by apply set_running_wf|done].
    + destruct (on_radius_ok (SetMapData md mp) s e rad m hit [] Hwf' Hm Hs He) as [N HN]; [lia|].
      exists N. intros fuel Hf. destruct (HN fuel Hf) as (a & -> & (? & _ & ? & ? & _)). cbn [mbind option_bind]. by eexists.
  - destruct Hr as (Hm & Hs & Hc & Ht). exists (Z.to_nat (mapSizeX mp * mapSizeY mp + 1)). intros fuel Hf.
    destruct (cost_map_ok (SetMapData md mp) s c Hwf' Hm Ht Hs Hc fuel) as (mp' & m & E & Hwf2 & Hex); [simpl; lia|].
    rewrite E. cbn [mbind option_bind]. eexists. split; [reflexivity|]. split; [done|].
    unfold MakeCostMap in E. bind_inv E. destruct x0 as [[q2 m2] r2]. cbn in E. injection E as <- _.
    simpl. unfold next_frame. by case_decide.
Qed.

Lemma run_request_fuel fuel k mp r mp' : run_request fuel mp r = Some mp' → run_request (fuel + k) mp r = Some mp'.
Proof.
  destruct r as [md s e t m|md s e rad m hit|md s c]; simpl; intros H.
  - destruct (FindBestPathToAnyGivenPoint fuel _ _ _ _ _ _) as [x|] eqn:E; [|done]. by rewrite (any_fuel _ _ _ _ _ _ _ k _ E).
  - unfold FindBestPathToPointOnRadius in *. case_decide; [done|]. destruct (FixStartEndNode _ _ _) as [[mp1 s1] e1].
    cbv beta iota zeta in *. destruct (start_queue _ _ _) as [q|]; [|done]. cbn [mbind option_bind] in *.
    destruct (circle_rows rad) as [xend|]; [|done]. cbn [mbind option_bind] in *.
    destruct (search fuel _ _ _ _ _) as [x|] eqn:E; [|done]. by rewrite (search_fuel _ _ _ _ _ _ _ _ E).
  - unfold MakeCostMap in *. cbv zeta in *. destruct (start_queue _ _ _) as [q|]; [|done]. cbn [mbind option_bind] in *.
    destruct (search fuel _ _ _ _ _) as [x|] eqn:E; [|done]. by rewrite (search_fuel _ _ _ _ _ _ _ _ E).
Qed.

(** Enough fuel fixes the result. *)
Lemma run_request_fixed mp r :
  pather_wf mp → request_ok mp r →
  ∃ N mp', pather_wf mp' ∧ mapSizeX mp' = mapSizeX mp ∧ mapSizeY mp' = mapSizeY mp ∧
    ∀ fuel, (N <= fuel)%nat → run_request fuel mp r = Some mp'.
Proof.
  intros Hwf Hr. destruct (run_request_ok mp r Hwf Hr) as [N HN]. destruct (HN N ltac:(lia)) as (mp' & Hrun & ? & ? & ?).
  exists N, mp'. split_and!; try done. intros fuel Hf. replace fuel with (N + (fuel - N))%nat by lia.
  by apply run_request_fuel.
Qed.

(** C27: A pather stays well formed whatever it is asked.  From the constructor on, any sequence of requests that
    fit its size, each with its own map, runs to the end, none of them leaving an array or reading
    indeterminate memory, also when the frame counter passes 65534 and all nodes are reset; in between
    the pather satisfies its invariant: coordinates and indexes of the nodes as initialised, frames of
    nodes not beyond the counter, no node marked, not running. *)
Theorem requests_keep_pather md0 sizeX sizeY heightSizeX reqs :
  1 <= sizeX < 2 ^ 29 → 1 <= sizeY < 2 ^ 29 →
  Forall (request_ok (new_CMicroPather md0 sizeX sizeY heightSizeX)) reqs →
  ∃ N, ∀ fuel, (N <= fuel)%nat → ∃ mp,
    foldM (run_request fuel) (new_CMicroPather md0 sizeX sizeY heightSizeX) reqs = Some mp ∧ pather_wf mp.
Proof.
  intros Hx Hy Hreqs. pose proof (new_CMicroPather_wf md0 sizeX sizeY heightSizeX Hx Hy) as Hwf.
  revert Hwf Hreqs. generalize (new_CMicroPather md0 sizeX sizeY heightSizeX). clear.
  induction reqs as [|r reqs IH]; intros mp Hwf Hreqs; [exists O; intros; by exists mp|].
  apply Forall_cons in Hreqs as [Hr Hreqs]. destruct (run_request_fixed mp r Hwf Hr) as (N1 & mp1 & Hwf1 & Hx & Hy & H1).
  destruct (IH mp1 Hwf1) as [N2 H2].
  { eapply Forall_impl; [exact Hreqs|]. intros x. by apply request_ok_size. }
  exists (N1 + N2)%nat. intros fuel Hf. simpl. rewrite H1 by lia. cbn [mbind option_bind]. apply H2. lia.
Qed.

(** ** Witnesses on the small map *)

Lemma range_check (P : Z → Prop) (f : Z → bool) n :
  (∀ p, f p = true → P p) → forallb f (seqZ 0 n) = true → ∀ p, 0 <= p < n → P p.
Proof.
  intros HP Hf p Hp. apply HP, (proj1 (forallb_forall _ _) Hf), list_elem_of_In, elem_of_seqZ. lia.
Qed.

#[local] Instance interior_dec w h p : Decision (interior w h p).
Proof. unfold interior. apply _. Defined.

Lemma small_wf : pather_wf small_pather.
Proof. apply new_CMicroPather_wf; lia. Qed.

Lemma small_map_ok : map_ok small_pather.
Proof.
  split; try (by vm_compute); try (by eauto).
  - intros p Hp. pose proof (zget_Some_bound _ _ _ Hp) as Hb. change (zlen _) with 25 in Hb.
    revert Hp. pattern p. revert p Hb.
    apply (range_check _ (λ p, bool_decide (zget small_move p = Some true → interior 5 5 p))); [|by vm_compute].
    intros p Hp. by apply bool_decide_eq_true in Hp.
  - intros p Hp. apply zget_is_Some_iff. change (zlen _) with ((5 - 2) * (5 - 2)). by apply i2_range.
Qed.

Lemma small_threat p t : inner small_pather p → zget (threatArray small_map) (i2 5 p) = Some t → costf t = true.
Proof.
  intros _ Ht. change (threatArray small_map) with (replicate (Z.to_nat 9) f0) in Ht. rewrite zget_replicate in Ht.
  case_decide; [|done]. by injection Ht as <-.
Qed.

Lemma small_in_grid p : 0 <= p < 25 → in_grid small_pather p.
Proof. done. Qed.
Lemma small_ends : Forall (in_grid small_pather) [16].
Proof. repeat constructor; done. Qed.

Lemma FindBestPath_terminates_witness :
  ∃ N, ∀ fuel, (N <= fuel)%nat → ∃ a endNodes' targets',
    FindBestPathToAnyGivenPoint fuel small_pather 6 [16] [16] f1 [] = Some (a, endNodes', targets') ∧
    pather_wf (an_mp a) ∧ mapData (an_mp a) = mapData small_pather.
Proof.
  apply (FindBestPath_terminates small_pather 6 [16] [16] f1 []).
  - exact small_wf.
  - exact small_map_ok.
  - apply small_in_grid. lia.
  - exact small_ends.
  - exact small_ends.
Defined.

Lemma small_found :
  ∃ a e t, FindBestPathToAnyGivenPoint 20 small_pather 6 [16] [16] f1 [] = Some (a, e, t) ∧
    an_outcome a = SOLVED ∧ an_path a = [0; 1; 5; 7; 6].
Proof.
  pose proof small_path as H. apply fmap_Some in H as ([[a e] t] & Hr & Ho). exists a, e, t.
  split; [exact Hr|]. simpl in Ho. split; congruence.
Qed.

Lemma FindBestPath_solved_witness :
  ∃ a e t, FindBestPathToAnyGivenPoint 20 small_pather 6 [16] [16] f1 [] = Some (a, e, t) ∧
  ∃ u l c, u ∈ FixNode small_pather <$> [16] ∧
    rroute (path_rules small_pather f1) (grid_of small_pather) 5 (FixNode small_pather 6) (u :: l) c ∧
    an_path a = i2 5 <$> reverse (u :: l) ∧ fleb c (an_cost a) = true ∧ fltb (an_cost a) FLT_BIG_2 = true.
Proof.
  destruct small_found as (a & e & t & Hr & Ho & _). exists a, e, t. refine (conj Hr _).
  apply (FindBestPath_solved small_pather 6 [16] [16] f1 [] 20 a e t).
  - exact small_wf.
  - exact small_map_ok.
  - apply small_in_grid. lia.
  - exact small_ends.
  - exact small_ends.
  - exact Hr.
  - exact Ho.
Defined.

(** With a negative threat limit nothing but the start can be entered. *)
Lemma small_not_found :
  ∃ a e t, FindBestPathToAnyGivenPoint 20 small_pather 6 [16] [16] (fneg f1) [9] = Some (a, e, t) ∧
    an_outcome a = NO_SOLUTION.
Proof.
  assert ((λ r, an_outcome r.1.1) <$> FindBestPathToAnyGivenPoint 20 small_pather 6 [16] [16] (fneg f1) [9] = Some NO_SOLUTION)
    as H by (vm_compute; reflexivity).
  apply fmap_Some in H as ([[a e] t] & Hr & Ho). exists a, e, t. split; [exact Hr|]. by symmetry.
Qed.

Lemma FindBestPath_no_solution_witness :
  ∃ a e t, FindBestPathToAnyGivenPoint 20 small_pather 6 [16] [16] (fneg f1) [9] = Some (a, e, t) ∧
    an_path a = [9] ∧ an_cost a = f0 ∧
    ∀ p c, p ∈ FixNode small_pather <$> [16] →
      walk (path_rules small_pather (fneg f1)) (grid_of small_pather) 5 (FixNode small_pather 6) p c →
      fleb FLT_BIG_2 c = true.
Proof.
  destruct small_not_found as (a & e & t & Hr & Ho). exists a, e, t.
  destruct (FindBestPath_no_solution small_pather 6 [16] [16] (fneg f1) [9] 20 a e t) as [Hiff Hpath].
  - exact small_wf.
  - exact small_map_ok.
  - apply small_in_grid. lia.
  - exact small_ends.
  - exact small_ends.
  - exact Hr.
  - exact (conj Hr (conj (proj1 (Hpath Ho)) (conj (proj2 (Hpath Ho)) (proj1 Hiff Ho)))).
Defined.

Lemma FindBestPathToPointOnRadius_exact_witness :
  ∃ N, ∀ fuel, (N <= fuel)%nat → ∃ a,
    FindBestPathToPointOnRadius fuel small_pather 6 18 1 f1 (λ _ _, true) [] = Some a ∧
    radius_answer small_pather 6 18 1 f1 (λ _ _, true) [] a.
Proof.
  apply (FindBestPathToPointOnRadius_exact small_pather 6 18 1 f1 (λ _ _, true) []).
  - exact small_wf.
  - exact small_map_ok.
  - apply small_in_grid. lia.
  - apply small_in_grid. lia.
  - lia.
Defined.

Lemma MakeCostMap_shortest_witness :
  ∃ mp' m, MakeCostMap 26 small_pather 6 (replicate 9 f0) = Some (mp', m) ∧ pather_wf mp' ∧
    exact_map small_pather 6 (replicate 9 f0) m.
Proof.
  apply (MakeCostMap_shortest small_pather 6 (replicate 9 f0) 26).
  - exact small_wf.
  - exact small_map_ok.
  - exact small_threat.
  - apply small_in_grid. lia.
  - reflexivity.
  - reflexivity.
Defined.

Lemma requests_keep_pather_witness :
  ∃ N, ∀ fuel, (N <= fuel)%nat → ∃ mp,
    foldM (run_request fuel) small_pather
      [AnyPoint small_map 6 [16] [16] f1; OnRadius small_map 6 18 1 f1 (λ _ _, true); CostMap small_map 6 (replicate 9 f0)] =
      Some mp ∧ pather_wf mp.
Proof.
  apply (requests_keep_pather small_map 3 3 3).
  - lia.
  - lia.
  - apply Forall_cons. split; [|apply Forall_cons; split; [|apply Forall_cons; split; [|apply Forall_nil; exact I]]].
    + exact (conj small_map_ok (conj (small_in_grid 6 ltac:(lia)) (conj small_ends small_ends))).
    + exact (conj small_map_ok (conj (small_in_grid 6 ltac:(lia)) (conj (small_in_grid 18 ltac:(lia)) eq_refl))).
    + exact (conj small_map_ok (conj (small_in_grid 6 ltac:(lia)) (conj eq_refl small_threat))).
Defined.
