(* ===== verification/PathInfo.v ===== *)
(** * PathInfo: what a solved path is turned into

    The end of [src/src/circuit/terrain/path/MicroPather.cpp]: [RefinePath] skips the first cells of
    a path that can be crossed in a straight line, by a binary search for the last such cell, and
    [FillPathInfo] turns the cells from there on into positions ([PathInfo] of
    [src/src/circuit/util/Defines.h]).  The pather reads the conversions of its [CPathFinder]. *)

From S2P Require Import Prelude Float32 FloatRound FloatDiv EnemyUnit PathGraph LineWalk OpenQueue MicroPather PathSearch BestPath.

Local Open Scope circuit_scope.

Record PathInfo : Type := mkInfo {
  posPath : list AIFloat3;
  info_path : list Z;
  start : Z;
  isEndPos : bool
}.
Definition new_PathInfo (last : bool) : PathInfo := mkInfo [] [] 0 last.
Definition Clear (i : PathInfo) : PathInfo := mkInfo [] [] (start i) (isEndPos i).

Section info.
Context {E : Engine}.
Context (g : PathGraph) (mp : CMicroPather).

(** The elevation is returned as an [int]: the fraction is cut off. *)
Definition GetElevationAt (posX posZ : float) : option Z :=
  z ← f_to_int posZ;
  x ← f_to_int posX;
  z ← idiv z SQUARE_SIZE;
  x ← idiv x SQUARE_SIZE;
  v ← (heightMap (mapData mp)).[z * heightMapSizeX mp + x];
  f_to_int v.

Definition CanMoveNode2Index (node : Z) : option Z :=
  canMove ← (canMoveArray (mapData mp)).[node];
  if (canMove : bool) then n ← (nodeMem mp).[node]; Some (index2 n) else Some (-1).

(** The test of a cell of the line: can be entered, is safe, and not much harder than the first cell. *)
Definition crossable (moveCost : float) (x y : Z) : option bool :=
  idx ← CanMoveNode2Index (MoveXY2MoveNode g x y);
  if decide (idx < 0) then Some false else
  t ← (threatArray (mapData mp)).[idx];
  if fgtb t THREAT_EPSILON then Some false else
  c ← moveFun (mapData mp) idx;
  Some (negb (fgtb c moveCost)).

Definition IsStraightLine (x0 y0 : Z) (moveCost : float) (index : Z) : option bool :=
  let '(x1, y1) := PathIndex2MoveXY g index in
  line (crossable moveCost) x0 y0 x1 y1.

(** The binary search; the interval gets shorter in every round, so the length of the path is enough. *)
Fixpoint bisect (fuel : nat) (straight : Z → option bool) (path : list Z) (l r : Z) : option Z :=
  match fuel with
  | O => None
  | S fuel =>
      if decide (l <= r) then
        let m := Z.quot (l + r) 2 in
        index ← path.[m];
        b ← straight index;
        if (b : bool) then bisect fuel straight path (m + 1) r else bisect fuel straight path l (m - 1)
      else Some (l - 1)
  end.

Definition RefinePath (path : list Z) : option Z :=
  p0 ← path.[0];
  t ← (threatArray (mapData mp)).[p0];
  if fgtb t THREAT_EPSILON then Some 0 else
  let '(x0, y0) := PathIndex2MoveXY g p0 in
  c ← moveFun (mapData mp) p0;
  let moveCost := fadd c MOVE_EPSILON in
  bisect (S (length path)) (IsStraightLine x0 y0 moveCost) path 1 (zlen path - 1).

(** [graph.PathIndex2Pos] with the elevation of the place. *)
Definition waypoint (index : Z) : option AIFloat3 :=
  let pos := PathIndex2Pos g index in
  y ← GetElevationAt (px pos) (pz pos);
  Some (F3 (px pos) (f_of_Z y) (pz pos)).

Definition FillPathInfo (iPath : PathInfo) : option PathInfo :=
  if isEndPos iPath then
    index ← last (info_path iPath);
    pos ← waypoint index;
    Some (mkInfo (posPath iPath ++ [pos]) (info_path iPath) (start iPath) true)
  else
    from ← RefinePath (info_path iPath);
    poss ← zfor from (zlen (info_path iPath)) (λ i poss,
             index ← (info_path iPath).[i];
             pos ← waypoint index;
             Some (poss ++ [pos])) (posPath iPath);
    Some (mkInfo poss (info_path iPath) from false).
End info.

(** ** The refinement of a path *)

(** The conversions are those of the grid the pather was made for. *)
Definition graph_fits (g : PathGraph) (mp : CMicroPather) : Prop :=
  moveMapXSize g = mapSizeX mp ∧ pathMapXSize g = mapSizeX mp - 2 ∧ pathMapYSize g = mapSizeY mp - 2.

Section refine.
Context (g : PathGraph) (mp : CMicroPather).
Hypothesis Hfit : graph_fits g mp.
Hypothesis Hwf : pather_wf mp.
Hypothesis Hmap : map_ok mp.

Abbreviation w := (mapSizeX mp).
Abbreviation h := (mapSizeY mp).

(** An index of the path map. *)
Definition on_map (i : Z) : Prop := 0 <= i < pathMapXSize g * pathMapYSize g.

(** What makes a cell of the move map crossable at the cost of the first cell. *)
Definition clear_cell (moveCost : float) (c : Z * Z) : Prop :=
  let i := PathXY2PathIndex g (c.1 - 1) (c.2 - 1) in
  (canMoveArray (mapData mp)).[MoveXY2MoveNode g c.1 c.2] = Some true ∧
  ∃ t cost, (threatArray (mapData mp)).[i] = Some t ∧ fgtb t THREAT_EPSILON = false ∧
    moveFun (mapData mp) i = Some cost ∧ fgtb cost moveCost = false.

(** Every cell of the ideal line between two cells of the path map, the first aside, is clear. *)
Definition sees (moveCost : float) (i j : Z) : Prop :=
  let '(x0, y0) := PathIndex2MoveXY g i in
  let '(x1, y1) := PathIndex2MoveXY g j in
  Forall (clear_cell moveCost) (line_cells x0 y0 x1 y1).

Lemma node_of_xy x y :
  0 < x < w - 1 → 0 < y < h - 1 →
  inner mp (y * w + x) ∧ (y * w + x) `mod` w = x ∧ (y * w + x) / w = y ∧
  i2 w (y * w + x) = PathXY2PathIndex g (x - 1) (y - 1).
Proof.
  intros Hx Hy. destruct Hfit as (_ & Hpx & _).
  assert ((y * w + x) / w = y) as Hd by (rewrite Z.add_comm, Z.div_add, Z.div_small; lia).
  assert ((y * w + x) `mod` w = x) as Hm by (rewrite Z.add_comm, Z.mod_add, Z.mod_small; lia).
  unfold inner, interior, i2, PathXY2PathIndex. rewrite Hd, Hm, Hpx. split_and!; lia.
Qed.

Lemma crossable_ok moveCost x y :
  0 < x < w - 1 → 0 < y < h - 1 →
  ∃ b, crossable g mp moveCost x y = Some b ∧ (b = true ↔ clear_cell moveCost (x, y)).
Proof.
  intros Hx Hy. destruct (node_of_xy x y Hx Hy) as (Hin & Hm & Hd & Hi2). destruct Hfit as (Hmx & _).
  unfold crossable, CanMoveNode2Index, clear_cell, MoveXY2MoveNode. cbn [fst snd]. rewrite Hmx, <-Hi2. set (p := y * w + x) in *.
  assert (0 <= p < w * h) as Hp by (by apply inner_in_grid).
  destruct (zget_is_Some (canMoveArray (mapData mp)) p) as [b Hb]; [by rewrite (mk_len _ Hmap)|]. rewrite Hb. cbn [mbind option_bind].
  destruct b; cbn [mbind option_bind]; [|exists false; rewrite decide_True by lia; split; [done|split; [done|intros [? _]; congruence]]].
  destruct (zget_is_Some (nodeMem mp) p) as [n Hn]; [by rewrite (pw_nodes _ Hwf)|]. rewrite Hn. cbn [mbind option_bind].
  destruct (pw_node _ Hwf p n Hn) as (_ & _ & -> & _). destruct (mk_threat _ Hmap p Hin) as [t Ht].
  destruct (mk_move _ Hmap p Hin) as (c & Hc & _). rewrite Ht, Hc. cbn [mbind option_bind].
  rewrite decide_False by (apply zget_Some_bound in Ht; lia).
  destruct (fgtb t THREAT_EPSILON) eqn:Et.
  - exists false. split; [done|]. split; [done|]. intros (_ & t' & c' & Ht' & Ef & _). simplify_eq. congruence.
  - eexists. split; [done|]. rewrite negb_true_iff. split; [intros Ec; split; [done|by exists t, c]|].
    intros (_ & t' & c' & _ & _ & Hc' & Ef). by simplify_eq.
Qed.

Lemma on_map_xy i : on_map i → ∃ x y, PathIndex2MoveXY g i = (x, y) ∧ 0 < x < w - 1 ∧ 0 < y < h - 1.
Proof.
  intros Hi. destruct Hfit as (_ & Hpx & Hpy). pose proof (pw_x _ Hwf). destruct (path_index_cells g i) as (_ & -> & Hx & Hy & _); [lia|done|].
  eexists _, _. split; [done|]. lia.
Qed.

Lemma IsStraightLine_ok moveCost i j :
  on_map i → on_map j → let '(x0, y0) := PathIndex2MoveXY g i in
  ∃ b, IsStraightLine g mp x0 y0 moveCost j = Some b ∧ (b = true ↔ sees moveCost i j).
Proof.
  intros Hi Hj. unfold IsStraightLine, sees. destruct (on_map_xy i Hi) as (x0 & y0 & -> & Hx0 & Hy0).
  destruct (on_map_xy j Hj) as (x1 & y1 & -> & Hx1 & Hy1). rewrite line_ideal.
  assert (∀ x y, (x, y) ∈ line_cells x0 y0 x1 y1 → 0 < x < w - 1 ∧ 0 < y < h - 1) as Hbox.
  { intros x y [? ?]%line_cells_box. lia. }
  destruct (all_ok_total (crossable g mp moveCost) (line_cells x0 y0 x1 y1)) as [b Hb].
  { intros x y [Hx Hy]%Hbox. destruct (crossable_ok moveCost x y Hx Hy) as (b & Hb & _). by exists b. }
  exists b. split; [done|]. assert (b = true ↔ all_ok (crossable g mp moveCost) (line_cells x0 y0 x1 y1) = Some true) as ->.
  { rewrite Hb. split; congruence. }
  rewrite all_ok_true, !Forall_forall. split; intros H [x y] Hc; destruct (Hbox x y Hc) as [Hx Hy];
    destruct (crossable_ok moveCost x y Hx Hy) as (b' & Hb' & Hiff); specialize (H _ Hc); cbn [fst snd] in *.
  - apply Hiff. congruence.
  - rewrite Hb'. f_equal. by apply Hiff.
Qed.

Lemma bisect_ok straight path fuel l r :
  (∀ k i, path.[k] = Some i → ∃ b, straight i = Some b) →
  let seen k := ∃ i, path.[k] = Some i ∧ straight i = Some true in
  1 <= l <= r + 1 → r < zlen path → (Z.to_nat (r + 1 - l) < fuel)%nat →
  (l = 1 ∨ seen (l - 1)) → (r + 1 = zlen path ∨ ¬ seen (r + 1)) →
  ∃ k, bisect fuel straight path l r = Some k ∧ 0 <= k < zlen path ∧ (k = 0 ∨ seen k) ∧ (k + 1 = zlen path ∨ ¬ seen (k + 1)).
Proof.
  intros Htot seen. revert l r. induction fuel as [|fuel IH]; intros l r Hl Hr Hf Hlo Hhi; [lia|].
  simpl bisect. decide_goal as [Hle|Hgt].
  - rewrite Z.quot_div_nonneg by lia. set (m := (l + r) / 2). assert (l <= m <= r) as Hm by (unfold m; dlia).
    destruct (zget_is_Some path m) as [i Hi]; [lia|]. rewrite Hi. destruct (Htot m i Hi) as [b Hb]. cbn [mbind option_bind].
    rewrite Hb. cbn [mbind option_bind]. destruct b; apply IH; try lia; try done.
    + right. replace (m + 1 - 1) with m by lia. by exists i.
    + right. replace (m - 1 + 1) with m by lia. intros (i' & Hi' & Hs). congruence.
  - exists (l - 1). assert (r + 1 = l) as <- by lia. replace (r + 1 - 1 + 1) with (r + 1) by lia. split; [done|].
    split; [lia|]. split; [destruct Hlo; [left; lia|by right]|done].
Qed.

(** [RefinePath] is total; its result is seen from the first cell, and the next cell is not. *)
Definition refined (path : list Z) (k : Z) : Prop :=
  0 <= k < zlen path ∧
  ∃ p0 t, path.[0] = Some p0 ∧ (threatArray (mapData mp)).[p0] = Some t ∧
  if fgtb t THREAT_EPSILON then k = 0
  else ∃ cost, moveFun (mapData mp) p0 = Some cost ∧ let moveCost := fadd cost MOVE_EPSILON in
    (k = 0 ∨ ∃ i, path.[k] = Some i ∧ sees moveCost p0 i) ∧
    (k + 1 = zlen path ∨ ∃ i, path.[k + 1] = Some i ∧ ¬ sees moveCost p0 i).

Lemma RefinePath_ok path : path ≠ [] → Forall on_map path → ∃ k, RefinePath g mp path = Some k ∧ refined path k.
Proof.
  intros Hne Hall. assert (0 < zlen path) as Hlen by (destruct path; [done|unfold zlen; simpl; lia]).
  assert (∀ k i, path.[k] = Some i → on_map i) as Hon.
  { intros k i Hi. rewrite Forall_forall in Hall. apply Hall. unfold zget in Hi. case_decide; [|done]. by apply list_elem_of_lookup_2 in Hi. }
  destruct (zget_is_Some path 0) as [p0 Hp0]; [lia|]. pose proof (Hon _ _ Hp0) as Hm0.
  destruct (on_map_xy p0 Hm0) as (x0 & y0 & Hxy & Hx0 & Hy0).
  assert (inner mp (y0 * w + x0) ∧ i2 w (y0 * w + x0) = p0) as [Hin Hi2].
  { destruct (node_of_xy x0 y0 Hx0 Hy0) as (? & _ & _ & ->). split; [done|]. destruct Hfit as (_ & Hpx & _).
    pose proof (pw_x _ Hwf). destruct (path_index_cells g p0) as (_ & E1 & _ & _ & E2); [lia|done|]. rewrite E1 in Hxy. simplify_eq.
    rewrite <-E2 at 3. f_equal; lia. }
  destruct (mk_threat _ Hmap _ Hin) as [t Ht]. destruct (mk_move _ Hmap _ Hin) as (c & Hc & _). rewrite Hi2 in Ht, Hc.
  unfold RefinePath. rewrite Hp0. cbn [mbind option_bind]. rewrite Ht. cbn [mbind option_bind]. destruct (fgtb t THREAT_EPSILON) eqn:Et.
  { exists 0. split; [done|]. split; [lia|]. exists p0, t. by rewrite Et. }
  rewrite Hxy, Hc. cbn [mbind option_bind]. set (mc := fadd c MOVE_EPSILON).
  assert (∀ j, on_map j → ∃ b, IsStraightLine g mp x0 y0 mc j = Some b ∧ (b = true ↔ sees mc p0 j)) as Hsl.
  { intros j Hj. pose proof (IsStraightLine_ok mc p0 j Hm0 Hj) as H. by rewrite Hxy in H. }
  destruct (bisect_ok (IsStraightLine g mp x0 y0 mc) path (S (length path)) 1 (zlen path - 1)) as (k & Hk & Hb & Hs & Hn).
  - intros k i Hi. destruct (Hsl i) as (b & Hb & _); [by eapply Hon|]. by exists b.
  - lia.
  - lia.
  - unfold zlen. lia.
  - by left.
  - left. lia.
  - exists k. split; [done|]. split; [done|]. exists p0, t. rewrite Et. split; [done|]. split; [done|]. exists c. split; [done|]. split.
    + destruct Hs as [->|(i & Hi & Hst)]; [by left|right]. exists i. split; [done|].
      destruct (Hsl i) as (b & Hb' & Hiff); [by eapply Hon|]. apply Hiff. congruence.
    + destruct Hn as [?|Hn]; [by left|]. destruct (decide (k + 1 = zlen path)) as [?|Hk1]; [by left|right].
      destruct (zget_is_Some path (k + 1)) as [i Hi]; [lia|]. exists i. split; [done|]. intros Hsee. apply Hn. exists i. split; [done|].
      destruct (Hsl i) as (b & Hb' & Hiff); [by eapply Hon|]. rewrite Hb'. f_equal. by apply Hiff.
Qed.
End refine.

(** ** The positions *)

Section waypoints.
Context {E : Engine}.
Context (g : PathGraph) (mp : CMicroPather).

(** The sizes of the path map, of the engine's height map and of the engine's squares fit together. *)
Record heights_ok : Prop := {
  ho_sq : 0 < SQUARE_SIZE;
  ho_size : 0 < squareSize g < 2 ^ 24 ∧ 0 < pathMapXSize g ∧ 0 < pathMapYSize g;
  ho_far : pathMapXSize g * squareSize g <= 2 ^ 22 ∧ pathMapYSize g * squareSize g <= 2 ^ 22;
  ho_rows : ∃ rows, zlen (heightMap (mapData mp)) = rows * heightMapSizeX mp ∧
    pathMapXSize g * squareSize g <= heightMapSizeX mp * SQUARE_SIZE ∧ pathMapYSize g * squareSize g <= rows * SQUARE_SIZE;
  ho_int : ∀ i v, (heightMap (mapData mp)).[i] = Some v → is_Some (f_to_int v)
}.
Hypothesis Hh : heights_ok.

(** The centre of cell [i], at the elevation found there, is a position of cell [i]. *)
Definition waypoint_of (i : Z) (p : AIFloat3) : Prop :=
  px p = px (PathIndex2Pos g i) ∧ pz p = pz (PathIndex2Pos g i) ∧
  (∃ e, GetElevationAt mp (px p) (pz p) = Some e ∧ py p = f_of_Z e) ∧
  Pos2MoveNode g p = Some (let '(x, y) := PathIndex2MoveXY g i in MoveXY2MoveNode g x y).

Lemma centre_int c : 0 <= c → (c + 1) * squareSize g <= 2 ^ 22 →
  f_to_int (f_of_Z (c * squareSize g + squareSize g ÷ 2)) = Some (c * squareSize g + squareSize g / 2).
Proof.
  intros Hc Hs. destruct (ho_size Hh) as (Hsq & _). destruct (centre_val g Hsq c Hc ltac:(lia)) as [Hcf Hv].
  assert (0 <= squareSize g / 2 < squareSize g) by dlia. rewrite f_to_int_val; [|done|rewrite Hv; nia].
  rewrite Hv, Z.div_mul by done. done.
Qed.

Lemma waypoint_ok i : on_map g i → ∃ p, waypoint g mp i = Some p ∧ waypoint_of i p.
Proof.
  intros Hi. destruct (ho_size Hh) as (Hsq & Hpx & Hpy). destruct (ho_far Hh) as [Hfx Hfy].
  pose proof (centre_node g Hsq i Hpx Hi Hfx Hfy) as Hnode. destruct (path_index_cells g i Hpx Hi) as (HP & HM & Hx & Hy & _).
  destruct (ho_rows Hh) as (rows & Hlen & Hwx & Hwy). pose proof (ho_sq Hh) as Hss.
  unfold PathIndex2PathXY in HP. injection HP as HPx HPy. set (x := i `mod` pathMapXSize g) in *. set (y := i / pathMapXSize g) in *.
  assert (px (PathIndex2Pos g i) = f_of_Z (x * squareSize g + squareSize g ÷ 2)) as Epx by (unfold PathIndex2Pos; simpl; by rewrite HPx).
  assert (pz (PathIndex2Pos g i) = f_of_Z (y * squareSize g + squareSize g ÷ 2)) as Epz by (unfold PathIndex2Pos; simpl; by rewrite HPy).
  assert (∃ e, GetElevationAt mp (px (PathIndex2Pos g i)) (pz (PathIndex2Pos g i)) = Some e) as [e He].
  { unfold GetElevationAt. rewrite Epx, Epz, !centre_int by nia. cbn [mbind option_bind].
    rewrite !idiv_ok by lia. cbn [mbind option_bind].
    assert (0 <= squareSize g / 2 < squareSize g) as Hhalf by dlia. rewrite !Z.quot_div_nonneg by nia.
    set (cx := (x * squareSize g + squareSize g / 2) / SQUARE_SIZE). set (cz := (y * squareSize g + squareSize g / 2) / SQUARE_SIZE).
    assert (0 <= cx < heightMapSizeX mp) as Hcx by (split; [apply Z.div_pos; nia|apply Z.div_lt_upper_bound; nia]).
    assert (0 <= cz < rows) as Hcz by (split; [apply Z.div_pos; nia|apply Z.div_lt_upper_bound; nia]).
    destruct (zget_is_Some (heightMap (mapData mp)) (cz * heightMapSizeX mp + cx)) as [v Hv]; [rewrite Hlen; nia|].
    rewrite Hv. cbn [mbind option_bind]. destruct (ho_int Hh _ _ Hv) as [e He]. by exists e. }
  unfold waypoint. rewrite He. cbn [mbind option_bind]. eexists. split; [done|].
  unfold waypoint_of. cbn [px py pz]. split_and!; [done|done|by exists e|exact Hnode].
Qed.

Lemma waypoints_ok path from acc :
  Forall (on_map g) path → 0 <= from <= zlen path →
  ∃ ps, zfor from (zlen path) (λ i poss, index ← path.[i]; pos ← waypoint g mp index; Some (poss ++ [pos])) acc = Some (acc ++ ps) ∧
    Forall2 waypoint_of (drop (Z.to_nat from) path) ps.
Proof.
  intros Hall Hf. destruct (zfor_ind (λ k poss, ∃ ps, poss = acc ++ ps ∧ Forall2 waypoint_of (take (Z.to_nat (k - from)) (drop (Z.to_nat from) path)) ps)
    from (zlen path) (λ i poss, index ← path.[i]; pos ← waypoint g mp index; Some (poss ++ [pos])) acc)
    as (poss & Hz & ps & -> & Hps); [lia| | |].
  - exists []. rewrite app_nil_r, Z.sub_diag. split; [done|constructor].
  - intros k poss Hk (ps & -> & Hps). destruct (zget_is_Some path k) as [i Hi]; [lia|]. rewrite Hi. cbn [mbind option_bind].
    assert (path !! Z.to_nat k = Some i) as Hl by (unfold zget in Hi; by rewrite decide_True in Hi by lia).
    destruct (waypoint_ok i) as (p & Hp & Hw); [by eapply Forall_lookup_1|]. rewrite Hp. cbn [mbind option_bind].
    eexists. split; [done|]. exists (ps ++ [p]). split; [by rewrite app_assoc|].
    replace (Z.to_nat (k + 1 - from)) with (S (Z.to_nat (k - from))) by lia.
    rewrite (take_S_r _ _ i) by (rewrite lookup_drop; rewrite <-Hl; f_equal; lia). apply Forall2_app; [done|]. by constructor.
  - exists ps. split; [exact Hz|]. rewrite take_ge in Hps; [done|]. rewrite length_drop. unfold zlen. lia.
Qed.
End waypoints.

(** C28: [FillPathInfo] turns a path into positions.  For a non-empty path of indices of the path map, on a grid, a pather
    and height maps that fit together, it returns, keeps the path and appends positions to those it is given, each the
    centre of its cell, which the pather's own conversion maps back to the cell's move node.  When only the end is asked for
    (isEndPos) that is one position, of the last cell, and the start is left alone.  Otherwise it stores where to start
    (cell 0 when the first cell is dangerous; else the first cell, or one that it sees in a straight line of cells that can
    be entered, are safe and not much harder than the first, while the cell after it, if there is one, is not seen) and appends the positions of the path's cells from there on, in
    order. *)
Theorem FillPathInfo_waypoints {E : Engine} g mp iPath :
  graph_fits g mp → pather_wf mp → map_ok mp → heights_ok g mp →
  info_path iPath ≠ [] → Forall (on_map g) (info_path iPath) →
  ∃ i ps, FillPathInfo g mp iPath = Some i ∧ info_path i = info_path iPath ∧ isEndPos i = isEndPos iPath ∧
    posPath i = posPath iPath ++ ps ∧
    if isEndPos iPath
    then start i = start iPath ∧ ∃ index p, last (info_path iPath) = Some index ∧ ps = [p] ∧ waypoint_of g mp index p
    else refined g mp (info_path iPath) (start i) ∧
         Forall2 (waypoint_of g mp) (drop (Z.to_nat (start i)) (info_path iPath)) ps.
Proof.
  intros Hfit Hwf Hmap Hh Hne Hall. unfold FillPathInfo. destruct (isEndPos iPath) eqn:Hend.
  - destruct (last (info_path iPath)) as [index|] eqn:Hl; [|by apply last_None in Hl].
    destruct (waypoint_ok g mp Hh index) as (p & Hp & Hw); [eapply Forall_forall; [exact Hall|by apply last_Some_elem_of]|].
    cbn [mbind option_bind]. rewrite Hp. cbn [mbind option_bind]. eexists _, [p]. do 4 (split; [done|]). split; [done|]. by exists index, p.
  - destruct (RefinePath_ok g mp Hfit Hwf Hmap _ Hne Hall) as (k & Hk & Href). pose proof Href as [Hb _].
    destruct (waypoints_ok g mp Hh (info_path iPath) k (posPath iPath) Hall ltac:(lia)) as (ps & Hps & Hw).
    rewrite Hk. cbn [mbind option_bind]. rewrite Hps. cbn [mbind option_bind]. eexists _, ps. by split_and!.
Qed.

(** ** Witness *)

#[local] Existing Instance example_engine.

(** The small map again, with squares of 8 elmos and a height map of the same grid. *)
Definition small_graph : PathGraph := new_graph 8 3 3.

Lemma small_heights : heights_ok small_graph small_pather.
Proof.
  split.
  - reflexivity.
  - by vm_compute.
  - by vm_compute.
  - exists 3. by vm_compute.
  - intros i v Hv. unfold zget in Hv. case_decide; [|done].
    change (heightMap (mapData small_pather)) with (replicate 9 f0) in Hv. apply lookup_replicate in Hv as [-> _]. exists 0. reflexivity.
Qed.

(** The same path, all of it and only its end. *)
Lemma FillPathInfo_waypoints_witness :
  (∃ i, FillPathInfo small_graph small_pather (mkInfo [] [0; 1; 5; 7; 6] 0 false) = Some i ∧ start i = 1 ∧
    Forall2 (waypoint_of small_graph small_pather) [1; 5; 7; 6] (posPath i)) ∧
  ∃ i p, FillPathInfo small_graph small_pather (mkInfo [] [0; 1; 5; 7; 6] 0 true) = Some i ∧ posPath i = [p] ∧ waypoint_of small_graph small_pather 6 p.
Proof.
  assert (Forall (on_map small_graph) [0; 1; 5; 7; 6]) as Hall by (repeat constructor; vm_compute; first [reflexivity|discriminate]).
  assert (graph_fits small_graph small_pather) as Hfit by (by vm_compute). split.
  - destruct (FillPathInfo_waypoints small_graph small_pather (mkInfo [] [0; 1; 5; 7; 6] 0 false) Hfit small_wf small_map_ok small_heights ltac:(discriminate) Hall)
      as (i & ps & Hi & _ & _ & Hp & _ & Hps).
    exists i. split; [exact Hi|]. assert (start i = 1) as Hst by (vm_compute in Hi; injection Hi as <-; reflexivity).
    split; [exact Hst|]. rewrite Hst in Hps. rewrite Hp. exact Hps.
  - destruct (FillPathInfo_waypoints small_graph small_pather (mkInfo [] [0; 1; 5; 7; 6] 0 true) Hfit small_wf small_map_ok small_heights ltac:(discriminate) Hall)
      as (i & ps & Hi & _ & _ & Hp & _ & index & p & [= <-] & -> & Hw).
    exists i, p. split; [exact Hi|]. split; [exact Hp|exact Hw].
Defined.
