(* ===== verification/PathFinder.v ===== *)
(** * PathFinder: move arrays and path queries

    Models [src/src/circuit/terrain/path/PathFinder.h/.cpp] and the query classes beside it
    ([PathQuery], [QueryPathSingle], [QueryPathMulti], [QueryCostMap], [QueryLineMap]): the arrays of
    cells that can be entered, one per move type, in two buffers of which one is published; the
    queries, which keep pointers to the published array, to a layer of the threat map and to the
    terrain data of the moment they are made; and the three kinds of run on a pather.  An array
    that comes from [new bool[]] holds anything until it is written: its content is an argument. *)

From S2P Require Import Prelude Float32 EnemyUnit SectorGrid ThreatMap BlockingMap.
From S2P Require Import PathGraph LineWalk OpenQueue MicroPather PathInfo.

Local Open Scope circuit_scope.

(** ** Terrain data *)

(** The fields of [STerrainMapSector] that path costs read. *)
Record PathSector : Type := mkSector { sec_isWater : bool; sec_maxElevation : float; sec_maxSlope : float }.

(** Of [STerrainMapMobileType]: whether each [sector[k].area] is set, and the steepest slope. *)
Record MobileType : Type := mkMobile { hasArea : list bool; mt_maxSlope : float }.

Record SAreaData : Type := mkArea {
  mobileTypes : list MobileType;
  sectors : list PathSector;
  minElevation : float;
  maxElevation : float;
  area_heightMap : list float
}.

(** ** The finder *)

Record CPathFinder : Type := mkFinder {
  graph : PathGraph;
  micropathers : list CMicroPather;
  moveData0 : list (list bool);        (* [moveArrays] of each [SMoveData] *)
  moveData1 : list (list bool);
  pMoveData : buf;
  airMoveArray : list bool;
  areaData : buf;                      (* one of the two [SAreaData] of the terrain data *)
  isAreaUpdated : bool;
  queryId : Z
}.

Definition move_data (pf : CPathFinder) (b : buf) : list (list bool) :=
  match b with Data0 => moveData0 pf | Data1 => moveData1 pf end.
Definition set_move_data (b : buf) (arrays : list (list bool)) (pf : CPathFinder) : CPathFinder :=
  mkFinder (graph pf) (micropathers pf)
    (match b with Data0 => arrays | Data1 => moveData0 pf end) (match b with Data1 => arrays | Data0 => moveData1 pf end)
    (pMoveData pf) (airMoveArray pf) (areaData pf) (isAreaUpdated pf) (queryId pf).
Definition GetNextMoveData (pf : CPathFinder) : buf := other (pMoveData pf).

(** The interior of a move array, [k] running over the sectors. *)
Definition fill_moves (w h : Z) (free : Z → option bool) (moveArray : list bool) : option (list bool) :=
  '(a, _) ← zfor 1 (h - 1) (λ z s, zfor 1 (w - 1) (λ x '(a, k),
      b ← free k;
      a ← a.[z * w + x <- b];
      Some (a, k + 1)) s) (moveArray, 0);
  Some a.

(** "make sure that the edges are no-go" *)
Definition close_edges (w h : Z) (moveArray : list bool) : option (list bool) :=
  a ← zfor 0 w (λ i a, a ← a.[i <- false]; a.[w * (h - 1) + i <- false]) moveArray;
  zfor 0 h (λ i a, a ← a.[i * w <- false]; a.[i * w + w - 1 <- false]) a.

Definition new_moves (w h : Z) (mt : MobileType) (raw : list bool) : option (list bool) :=
  a ← fill_moves w h (λ k, (hasArea mt).[k]) raw;
  close_edges w h a.

Definition new_air_moves (w h : Z) (raw : list bool) : option (list bool) :=
  a ← zfor 0 (w * h) (λ i a, a.[i <- true]) raw;
  close_edges w h a.

(** The constructor: one pather per path thread, two equal arrays per move type, the array for aircraft.
    [raw0], [raw1] and [rawAir] are what the allocated arrays hold, [md] what the pathers hold before they
    are given a map. *)
Definition new_CPathFinder (md : MapData) (convertStoP sectorXSize sectorZSize mapWidth numThreads : Z)
    (areas : buf → SAreaData) (pAreaData : buf) (raw0 raw1 : nat → list bool) (rawAir : list bool) : option CPathFinder :=
  let g := new_graph convertStoP sectorXSize sectorZSize in
  let w := moveMapXSize g in
  let h := moveMapYSize g in
  let pathers := replicate (Z.to_nat numThreads) (new_CMicroPather md (pathMapXSize g) (pathMapYSize g) mapWidth) in
  let types := imap (λ j mt, (j, mt)) (mobileTypes (areas pAreaData)) in
  arrays0 ← mapM (λ '(j, mt), new_moves w h mt (raw0 j)) types;
  arrays1 ← mapM (λ '(j, mt), new_moves w h mt (raw1 j)) types;
  air ← new_air_moves w h rawAir;
  Some (mkFinder g pathers arrays0 arrays1 Data0 air pAreaData true 0).

Definition SetAreaUpdated (value : bool) (pf : CPathFinder) : CPathFinder :=
  mkFinder (graph pf) (micropathers pf) (moveData0 pf) (moveData1 pf) (pMoveData pf) (airMoveArray pf) (areaData pf)
    value (queryId pf).

(** ** The update after a change of the terrain *)

Section update.
Context {E : Engine}.

(** How many cells of the blocking map each sector has that belong to a structure. *)
Definition count_structs (blockMap : SBlockingMap) (granularity sectorXSize : Z) (blockArray : list Z) : option (list Z) :=
  zfor 0 (rows blockMap) (λ z a, zfor 0 (columns blockMap) (λ x a,
    s ← IsStruct blockMap x z;
    if (s : bool) then
      moveX ← idiv x granularity;
      moveY ← idiv z granularity;
      let i := moveY * sectorXSize + moveX in
      n ← a.[i];
      a.[i <- n + 1]
    else Some a) a) blockArray.

(** [areas nextArea] is [*terrainData->GetNextAreaData()]; [blockArray] is static, shared by the finders. *)
Definition UpdateAreaUsers (areas : buf → SAreaData) (nextArea : buf) (blockMap : SBlockingMap)
    (pf : CPathFinder) (blockArray : list Z) : option (CPathFinder * list Z) :=
  if isAreaUpdated pf then Some (pf, blockArray) else
  let g := graph pf in
  granularity ← idiv (squareSize g) (SQUARE_SIZE * 2);
  blockArray ← count_structs blockMap granularity (pathMapXSize g) (const 0 <$> blockArray);
  let next := GetNextMoveData pf in
  let blockThreshold := Z.quot (granularity * granularity) 4 in
  arrays ← foldM (λ arrays '(j, mt),
    a ← arrays.[j];
    a ← fill_moves (moveMapXSize g) (moveMapYSize g) (λ k,
          area ← (hasArea mt).[k];
          if (area : bool) then n ← blockArray.[k]; Some (bool_decide (n < blockThreshold)) else Some false) a;
    arrays.[j <- a]) (move_data pf next) (imap (λ j mt, (Z.of_nat j, mt)) (mobileTypes (areas nextArea)));
  let pf := set_move_data next arrays pf in
  Some (mkFinder g (micropathers pf) (moveData0 pf) (moveData1 pf) next (airMoveArray pf) nextArea true (queryId pf),
        blockArray).
End update.
