(* ===== verification/PathQuery.v ===== *)
(** * PathQuery: the queries of the path finder and how they run

    The query half of [src/src/circuit/terrain/path/PathFinder.cpp] and the classes [IPathQuery],
    [CQueryPathSingle], [CQueryPathMulti], [CQueryCostMap] and [CQueryLineMap] beside it.  A query keeps
    pointers: to a move array of the buffer published when it was made, to a layer of the threat map, and
    to the terrain data its cost functions and its height map come from ([deref] reads them when it runs).
    The lambdas for the costs are the values of [MoveFun] and [ThreatFun] with what they capture. *)

From S2P Require Import Prelude Float32 EnemyUnit SectorGrid ThreatMap.
From S2P Require Import PathGraph LineWalk OpenQueue MicroPather PathInfo PathFinder.

Local Open Scope circuit_scope.

Inductive QueryType : Type := SINGLE | MULTI | COST | LINE.
Inductive QueryState : Type := NONE | PROCESS | READY.

Inductive MovePtr : Type := AirMoves | Moves (b : buf) (j : Z).

Inductive MoveFun : Type :=
| MoveWater (maxSlope : float)
| MoveCloaked (maxSlope : float)
| MoveAir
| MoveSpider (minElev elevLen : float)
| MoveLand (maxSlope : float).
Inductive ThreatFun : Type := ThreatOnce | ThreatTwice.

Record IPathQuery : Type := mkQuery {
  q_id : Z;
  q_type : QueryType;
  q_state : QueryState;
  q_canMove : MovePtr;
  q_threat : tptr;
  q_moveFun : MoveFun;
  q_threatFun : ThreatFun;
  q_area : buf
}.
Definition SetState (s : QueryState) (q : IPathQuery) : IPathQuery :=
  mkQuery (q_id q) (q_type q) s (q_canMove q) (q_threat q) (q_moveFun q) (q_threatFun q) (q_area q).

Definition f2 : float := f_of_Z 2.
Definition SPIDER_SLOPE : float := flit 99 100.
(** [1e-3f] *)
Definition EPS : float := flit 1 1000.

(** ** The costs *)

Definition run_move (sectors : list PathSector) (f : MoveFun) (index : Z) : option float :=
  match f with
  | MoveAir => Some f0
  | _ =>
      s ← sectors.[index];
      let water := if sec_isWater s then f2 else f0 in
      Some (match f with
            | MoveWater m => fadd water (fdiv (fmul f2 (sec_maxSlope s)) m)
            | MoveCloaked m => fdiv (sec_maxSlope s) m
            | MoveSpider lo len => fadd (fmul f2 (fsub f1 (fdiv (fsub (sec_maxElevation s) lo) len))) water
            | MoveLand m => if sec_isWater s then f0 else fdiv (fmul f2 (sec_maxSlope s)) m
            | MoveAir => f0
            end)
  end.

Definition run_threat (threatArray : list float) (f : ThreatFun) (index : Z) : option float :=
  t ← threatArray.[index];
  Some (match f with ThreatTwice => fmul f2 t | ThreatOnce => t end).

(** What [FillMapData] reads of a unit: its position in this frame and the engine's [IsCloaked]. *)
Record PathUnit : Type := mkUnit { u_cdef : CCircuitDef; u_sonarStealth : bool; u_posY : float; u_cloaked : bool }.

(** The layer of the threat map and the two cost functions for a unit, in the order of the tests. *)
Definition pick_costs (area : SAreaData) (tm : CThreatMap) (u : PathUnit) (maxSlope : float) : tptr * MoveFun * ThreatFun :=
  let cdef := u_cdef u in
  if fltb (u_posY u) f0 && negb (u_sonarStealth u) then (amphThreat tm, MoveWater maxSlope, ThreatTwice)
  else if u_cloaked u then (cloakThreat tm, MoveCloaked maxSlope, ThreatOnce)
  else if isAbleToFly cdef then (airThreat tm, MoveAir, ThreatTwice)
  else if isAmphibious cdef then
    if fgtb maxSlope SPIDER_SLOPE then
      (amphThreat tm, MoveSpider (minElevation area) (fmax (fsub (maxElevation area) (minElevation area)) EPS), ThreatTwice)
    else (amphThreat tm, MoveWater maxSlope, ThreatTwice)
  else (surfThreat tm, MoveLand maxSlope, ThreatTwice).

(** [CreatePath...Query]: the new query's id, the counter, and what [FillMapData] puts in. *)
Definition FillMapData (areas : buf → SAreaData) (pf : CPathFinder) (tm : CThreatMap) (u : PathUnit) (t : QueryType)
    : option (IPathQuery * CPathFinder) :=
  let mobileTypeId := mobileId (u_cdef u) in
  let area := areas (areaData pf) in
  '(moves, maxSlope) ← (if decide (mobileTypeId < 0) then Some (AirMoves, f1)
     else _ ← (move_data pf (pMoveData pf)).[mobileTypeId];
          mt ← (mobileTypes area).[mobileTypeId];
          Some (Moves (pMoveData pf) mobileTypeId, fmax (mt_maxSlope mt) EPS));
  let '(threat, moveFun, threatFun) := pick_costs area tm u maxSlope in
  let q := mkQuery (queryId pf) t NONE moves threat moveFun threatFun (areaData pf) in
  Some (q, mkFinder (graph pf) (micropathers pf) (moveData0 pf) (moveData1 pf) (pMoveData pf) (airMoveArray pf)
             (areaData pf) (isAreaUpdated pf) (queryId pf + 1)).

(** ** Running a query *)

Definition move_array (pf : CPathFinder) (p : MovePtr) : option (list bool) :=
  match p with AirMoves => Some (airMoveArray pf) | Moves b j => (move_data pf b).[j] end.

(** The map data behind the pointers of a query, as they are when the query runs. *)
Definition deref (areas : buf → SAreaData) (pf : CPathFinder) (tm : CThreatMap) (q : IPathQuery) : option MapData :=
  canMove ← move_array pf (q_canMove q);
  let threat := get_layer (q_threat q).2 (buf_data (ThreatMap.mem tm) (q_threat q).1) in
  let area := areas (q_area q) in
  Some (mkMapData canMove threat (run_move (sectors area) (q_moveFun q)) (run_threat threat (q_threatFun q))
          (area_heightMap area)).

(** The default test of [Prepare] accepts everything. *)
Definition prepared (hitTest : option TestFunc) : TestFunc := default (λ _ _, true) hitTest.

(** The result of a path query: [pPath] and [pathCost]. *)
Record Found : Type := mkFound { f_info : PathInfo; f_cost : float; f_mp : CMicroPather }.

Section run.
Context {E : Engine}.
Context (areas : buf → SAreaData) (pf : CPathFinder) (tm : CThreatMap).

Record CQueryPathSingle : Type := mkSingle {
  s_query : IPathQuery;
  s_startPos : AIFloat3;
  s_endPos : AIFloat3;
  s_maxRange : float;
  s_hitTest : option TestFunc;
  s_maxThreat : float;
  s_endPosOnly : bool
}.

(** The end of both path runs: the path of a solved search becomes positions. *)
Definition finish (endPosOnly : bool) (a : Answer) : option Found :=
  let i := mkInfo [] (an_path a) 0 endPosOnly in
  i ← (match an_outcome a with SOLVED => FillPathInfo (graph pf) (an_mp a) i | _ => Some i end);
  Some (mkFound i (an_cost a) (an_mp a)).

(** [MakePath] with [Prepare]; the corrected positions are stored in the query again. *)
Definition MakePath (fuel : nat) (q : CQueryPathSingle) (mp : CMicroPather) : option (Found * AIFloat3 * AIFloat3) :=
  md ← deref areas pf tm (s_query q);
  radius ← f_to_int (fdiv (s_maxRange q) (f_of_Z (PathGraph.squareSize (graph pf))));
  let startPos := CorrectPosition (s_startPos q) in
  let endPos := CorrectPosition (s_endPos q) in
  let mp := SetMapData md mp in
  s ← Pos2MoveNode (graph pf) startPos;
  e ← Pos2MoveNode (graph pf) endPos;
  a ← FindBestPathToPointOnRadius fuel mp s e radius (s_maxThreat q) (prepared (s_hitTest q)) [];
  r ← finish (s_endPosOnly q) a;
  Some (r, startPos, endPos).

Record CQueryPathMulti : Type := mkMulti {
  m_query : IPathQuery;
  m_startPos : AIFloat3;
  m_targets : list AIFloat3;
  m_maxRange : float;
  m_hitTest : option TestFunc;
  m_maxThreat : float;
  m_endPosOnly : bool
}.

(** [offsets[index] = p; index++], where [index] is the number of entries so far. *)
Definition put (size : Z) (l : list (Z * Z)) (p : Z * Z) : option (list (Z * Z)) :=
  if decide (zlen l < size) then Some (l ++ [p]) else None.

(** "make a list with the points that will count as end nodes": the outline of a disc, first its upper
    right quarter row by row, then the lower right one, then the left half, then moved to the centre. *)
Definition circle_outline (radius : Z) : option (list (Z * Z)) :=
  let DoubleRadius := radius * 2 in
  let size := DoubleRadius * 5 in
  xend ← circle_rows radius;
  l ← put size [] (0, 0);
  l ← zfor 1 (radius + 1) (λ a l,
    endPosIdx ← xend.[a];
    startPosIdx ← xend.[a - 1];
    zfor startPosIdx (endPosIdx + 1) (λ x l, put size l (x, a)) l) l;
  l ← zfor 0 (zlen l - 2) (λ a l, o ← l.[a]; put size l (o.1, DoubleRadius - o.2)) l;
  l ← zfor 0 (zlen l) (λ a l, o ← l.[a]; put size l (- o.1, o.2)) l;
  Some (map (λ o : Z * Z, (o.1, o.2 - radius)) l).

(** The end nodes around the target cell [(x, y)]. *)
Definition nodes_around (hitTest : TestFunc) (offsets : list (Z * Z)) (x y : Z) : list Z :=
  let g := graph pf in
  let near := filter (λ c, (c.1 >= 1 ∧ c.1 < moveMapXSize g - 1 ∧ c.2 >= 1 ∧ c.2 < moveMapYSize g - 1) ∧
                           hitTest (c.1 - 1, c.2 - 1) (x - 1, y - 1) = true)
                ((λ o : Z * Z, (x + o.1, y + o.2)) <$> offsets) in
  ((λ c : Z * Z, MoveXY2MoveNode g c.1 c.2) <$> near) ++ [MoveXY2MoveNode g x y].

(** One target: targets on a node that is already taken are left out. *)
Definition add_target (hitTest : TestFunc) (offsets : list (Z * Z)) (s : CMicroPather * list Z * list Z) (target : AIFloat3)
    : option (CMicroPather * list Z * list Z) :=
  let '(mp, endNodes, nodeTargets) := s in
  node ← Pos2MoveNode (graph pf) (CorrectPosition target);
  pn ← (nodeMem mp).[node];
  if isEndNode pn then Some s else
  nodes ← (nodeMem mp).[node <- set_isEndNode true pn];
  let '(x, y) := MoveNode2MoveXY (graph pf) node in
  Some (set_nodes nodes mp, endNodes ++ nodes_around hitTest offsets x y, nodeTargets ++ [node]).

Definition clear_target (mp : CMicroPather) (node : Z) : option CMicroPather :=
  pn ← (nodeMem mp).[node];
  nodes ← (nodeMem mp).[node <- set_isEndNode false pn];
  Some (set_nodes nodes mp).

(** [FindBestPath] with [Prepare]: without a result when [maxRange] is below the size of a square. *)
Definition FindBestPath (fuel : nat) (q : CQueryPathMulti) (mp : CMicroPather) : option Found :=
  md ← deref areas pf tm (m_query q);
  let sq := f_of_Z (PathGraph.squareSize (graph pf)) in
  if fltb (m_maxRange q) sq then Some (mkFound (new_PathInfo (m_endPosOnly q)) f0 mp) else
  radius ← f_to_int (fdiv (m_maxRange q) sq);
  offsets ← circle_outline radius;
  '(mp, endNodes, nodeTargets) ← foldM (add_target (prepared (m_hitTest q)) offsets) (mp, [], []) (m_targets q);
  mp ← foldM clear_target mp nodeTargets;
  let mp := SetMapData md mp in
  s ← Pos2MoveNode (graph pf) (CorrectPosition (m_startPos q));
  '(a, _, _) ← FindBestPathToAnyGivenPoint fuel mp s endNodes nodeTargets (m_maxThreat q) [];
  finish (m_endPosOnly q) a.

(** ** The cost map *)

Record CQueryCostMap : Type := mkCost { c_query : IPathQuery; c_startPos : AIFloat3; c_costMap : list float }.

(** [costMap.resize(n, -1.f)]: entries that are there already are kept. *)
Definition Prepare_cost (q : CQueryCostMap) : list float :=
  let n := Z.to_nat (pathMapXSize (graph pf) * pathMapYSize (graph pf)) in
  take n (c_costMap q) ++ replicate (n - length (c_costMap q)) (fneg f1).

(** "startPos must be correct": it is not corrected. *)
Definition MakeCostMap (fuel : nat) (q : CQueryCostMap) (mp : CMicroPather) : option (CMicroPather * list float) :=
  let costMap := Prepare_cost q in
  md ← deref areas pf tm (c_query q);
  s ← Pos2MoveNode (graph pf) (c_startPos q);
  MicroPather.MakeCostMap fuel (SetMapData md mp) s costMap.

(** One of the eight points of [GetCostAt]; a negative entry is a cell that was not reached. *)
Definition minCost (costMap : list float) (inside : bool) (cost : float) (x y : Z) : option float :=
  if negb inside && negb (IsInPathMap (graph pf) x y) then Some cost else
  costR ← costMap.[PathXY2PathIndex (graph pf) x y];
  Some (if fltb cost f0 then costR else if fltb costR f0 then cost else fmin cost costR).

(** [radius * ISQRT_2 + 1] *)
Definition diagonal_reach (radius : Z) : option Z :=
  f_to_int (fadd (fmul (f_of_Z radius) (fdiv f1 SQRT_2)) f1).

Definition GetCostAt (costMap : list float) (endPos : AIFloat3) (radius : Z) : option float :=
  radius ← idiv radius (PathGraph.squareSize (graph pf));
  '(xm, ym) ← Pos2PathXY (graph pf) endPos;
  let inside := IsInPathMap_radius (graph pf) xm ym radius in
  r2 ← diagonal_reach radius;
  foldM (λ cost p, minCost costMap inside cost p.1 p.2) (fneg f1)
    [(xm - radius, ym); (xm + radius, ym); (xm, ym - radius); (xm, ym + radius);
     (xm - r2, ym - r2); (xm + r2, ym - r2); (xm - r2, ym + r2); (xm + r2, ym + r2)].
End run.

(** ** The line map *)

Record CQueryLineMap : Type := mkLine { l_query : IPathQuery; threatXSize : Z; l_squareSize : Z }.

Definition InitQuery_line (tm : CThreatMap) (q : IPathQuery) : CQueryLineMap := mkLine q (width tm) (ThreatMap.squareSize tm).

(** [canMoveArray] and [threatArray] are what the query's pointers lead to. *)
Definition safe_cell (q : CQueryLineMap) (canMoveArray : list bool) (threatArray : list float) (x y : Z) : option bool :=
  canMove ← canMoveArray.[(y + 1) * (threatXSize q + 2) + x + 1];
  if negb canMove then Some false else
  t ← threatArray.[y * threatXSize q + x];
  Some (negb (fgtb t THREAT_BASE)).

Definition IsSafeLine (q : CQueryLineMap) (canMoveArray : list bool) (threatArray : list float)
    (startPos endPos : AIFloat3) : option bool :=
  let sq := f_of_Z (l_squareSize q) in
  x0 ← f_to_int (fdiv (px startPos) sq);
  y0 ← f_to_int (fdiv (pz startPos) sq);
  x1 ← f_to_int (fdiv (px endPos) sq);
  y1 ← f_to_int (fdiv (pz endPos) sq);
  line (safe_cell q canMoveArray threatArray) x0 y0 x1 y1.
