(* ===== verification/MoveArrays.v ===== *)
(** * MoveArrays: which cells the path finder lets units enter

    Theorems about [PathFinder]: the arrays the constructor makes, the invariant [finder_wf] of the
    finder, and what [UpdateAreaUsers] publishes.  Every array has a closed border, which is what
    the searches of the pathers need to stay inside it. *)

From S2P Require Import Prelude Float32 EnemyUnit SectorGrid BlockingMap.
From S2P Require Import PathGraph OpenQueue MicroPather PathSearch BestPath PathInfo PathFinder.

Local Open Scope circuit_scope.

#[export] Instance interior_dec w h p : Decision (interior w h p).
Proof. unfold interior. apply _. Defined.

(** ** The loops over an array *)

Section arrays.
Context (w h : Z).
Hypothesis Hw : 3 <= w.
Hypothesis Hh : 3 <= h.

Lemma interior_range_wh p : interior w h p → 0 <= p < w * h.
Proof. intros [Hx Hy]. pose proof (Z.div_mod p w ltac:(lia)). nia. Qed.

Lemma cell_unique x z p : 0 <= x < w → p = z * w + x → p / w = z ∧ p `mod` w = x.
Proof.
  intros Hx ->. rewrite Z.add_comm, Z.div_add, Z.mod_add, Z.div_small, Z.mod_small by lia. lia.
Qed.

(** The cells the fill loop has passed when it is at [(z, x)]. *)
Definition passed (z x p : Z) : Prop := interior w h p ∧ (p / w < z ∨ p / w = z ∧ p `mod` w < x).
#[local] Instance passed_dec z x p : Decision (passed z x p).
Proof. unfold passed. apply _. Defined.

Lemma fill_moves_ok free f a :
  zlen a = w * h → (∀ k, 0 <= k < (w - 2) * (h - 2) → free k = Some (f k)) →
  ∃ a', fill_moves w h free a = Some a' ∧ zlen a' = w * h ∧
    ∀ p, a'.[p] = if decide (interior w h p) then Some (f (i2 w p)) else a.[p].
Proof.
  intros Hlen Hfree. unfold fill_moves.
  set (I := λ z x (s : list bool * Z), zlen s.1 = w * h ∧ s.2 = (z - 1) * (w - 2) + (x - 1) ∧
    ∀ p, s.1.[p] = if decide (passed z x p) then Some (f (i2 w p)) else a.[p]).
  edestruct (zfor_ind (λ z s, I z 1 s) 1 (h - 1)) as ([a' k'] & Hz & HI); [lia| | |rewrite Hz].
  - split; [done|]. split; [simpl; lia|]. intros p. rewrite decide_False; [done|]. unfold passed, interior. lia.
  - intros z [a1 k1] Hzr HI1. edestruct (zfor_ind (λ x s, I z x s) 1 (w - 1)) as ([a2 k2] & Hx & HI2); [lia|exact HI1| |rewrite Hx].
    + intros x [a3 k3] Hxr (Hl3 & Hk3 & Hc3). cbn [fst snd] in *. rewrite Hfree by nia. cbn [mbind option_bind].
      destruct (zset a3 (z * w + x) (f k3)) as [a4|] eqn:E4; [|rewrite zset_Some in E4 by nia; done].
      cbn [mbind option_bind]. eexists. split; [done|]. pose proof (zlen_zset _ _ _ _ E4). split; [cbn [fst]; lia|].
      split; [cbn [snd]; lia|]. cbn [fst]. intros p. rewrite (zget_zset _ _ _ _ _ E4), Hc3. destruct (decide (z * w + x = p)) as [Hp|Hp].
      * symmetry in Hp. destruct (cell_unique x z p ltac:(lia) Hp) as [Hd Hm].
        rewrite decide_True by (unfold passed, interior; lia). unfold i2. rewrite Hd, Hm. do 2 f_equal. lia.
      * assert (passed z (x + 1) p ↔ passed z x p) as Hiff.
        { unfold passed. split; intros [Hin Hc]; (split; [done|]); [|lia]. destruct Hc as [?|[Hd ?]]; [lia|].
          destruct (decide (p `mod` w = x)); [|lia]. exfalso. apply Hp. pose proof (Z.div_mod p w). nia. }
        repeat case_decide; tauto || done.
    + eexists. split; [done|]. destruct HI2 as (Hl2 & Hk2 & Hc2). split; [done|]. split; [lia|]. intros p. rewrite Hc2.
      assert (passed z (w - 1) p ↔ passed (z + 1) 1 p) as Hiff by (unfold passed, interior; lia).
      repeat case_decide; tauto || done.
  - destruct HI as (Hl & _ & Hc). cbn [fst] in *. cbn [mbind option_bind]. eexists. split; [done|]. split; [done|]. intros p. rewrite Hc.
    assert (passed (h - 1) 1 p ↔ interior w h p) as Hiff by (unfold passed, interior; lia).
    repeat case_decide; tauto || done.
Qed.

(** A loop that writes [v] at two places per round. *)
Lemma write_two_ok (n : Z) (f1 f2 : Z → Z) (v : bool) a :
  0 <= n → zlen a = w * h → (∀ i, 0 <= i < n → 0 <= f1 i < w * h ∧ 0 <= f2 i < w * h) →
  ∃ a', zfor 0 n (λ i a, a ← a.[f1 i <- v]; a.[f2 i <- v]) a = Some a' ∧ zlen a' = w * h ∧
    ∀ p, (∀ i, 0 <= i < n → f1 i ≠ p ∧ f2 i ≠ p) ∧ a'.[p] = a.[p] ∨ (∃ i, 0 <= i < n ∧ (f1 i = p ∨ f2 i = p)) ∧ a'.[p] = Some v.
Proof.
  intros Hn Hlen Hf. apply (zfor_ind (λ m a', zlen a' = w * h ∧
    ∀ p, (∀ i, 0 <= i < m → f1 i ≠ p ∧ f2 i ≠ p) ∧ a'.[p] = a.[p] ∨ (∃ i, 0 <= i < m ∧ (f1 i = p ∨ f2 i = p)) ∧ a'.[p] = Some v)); [done| |].
  - split; [done|]. intros p. left. split; [lia|done].
  - intros i a1 Hi (Hl1 & Hc1). destruct (Hf i Hi) as [H1 H2].
    destruct (zset a1 (f1 i) v) as [a2|] eqn:E2; [|rewrite zset_Some in E2 by lia; done]. cbn [mbind option_bind].
    pose proof (zlen_zset _ _ _ _ E2). destruct (zset a2 (f2 i) v) as [a3|] eqn:E3; [|rewrite zset_Some in E3 by lia; done].
    pose proof (zlen_zset _ _ _ _ E3). exists a3. split; [done|]. split; [lia|]. intros p.
    rewrite (zget_zset _ _ _ _ _ E3), (zget_zset _ _ _ _ _ E2).
    destruct (decide (f2 i = p)) as [?|?]; [right; split; [exists i; split; [lia|by right]|done]|].
    destruct (decide (f1 i = p)) as [?|?]; [right; split; [exists i; split; [lia|by left]|done]|].
    destruct (Hc1 p) as [[Hno Hp]|[(j & Hj & Hjp) Hp]]; [left|right].
    + split; [|done]. intros j Hj. destruct (decide (j = i)) as [->|]; [done|]. apply Hno. lia.
    + split; [|done]. exists j. split; [lia|done].
Qed.

Lemma close_edges_ok a :
  zlen a = w * h →
  ∃ a', close_edges w h a = Some a' ∧ zlen a' = w * h ∧
    ∀ p, 0 <= p < w * h → a'.[p] = if decide (interior w h p) then a.[p] else Some false.
Proof.
  intros Hlen. unfold close_edges.
  destruct (write_two_ok w (λ i, i) (λ i, w * (h - 1) + i) false a ltac:(lia) Hlen) as (a1 & H1 & Hl1 & Hc1); [intros; nia|].
  destruct (write_two_ok h (λ i, i * w) (λ i, i * w + w - 1) false a1 ltac:(lia) Hl1) as (a2 & H2 & Hl2 & Hc2); [intros; nia|].
  rewrite H1. cbn [mbind option_bind]. exists a2. split; [exact H2|]. split; [done|]. intros p Hp.
  pose proof (Z.div_mod p w ltac:(lia)) as Hdm. pose proof (Z.mod_pos_bound p w ltac:(lia)) as Hm.
  assert (0 <= p / w < h) as Hd by (split; [apply Z.div_pos; lia|apply Z.div_lt_upper_bound; lia]).
  case_decide as Hin.
  - destruct Hin as [Hx Hy]. destruct (Hc2 p) as [[_ ->]|[(i & Hi & Hip) _]].
    + destruct (Hc1 p) as [[_ ->]|[(i & Hi & Hip) _]]; [done|]. exfalso. destruct Hip as [->|Hip]; [nia|].
      destruct (cell_unique i (h - 1) p ltac:(lia) ltac:(lia)). lia.
    + exfalso. destruct Hip as [Hip|Hip].
      * destruct (cell_unique 0 i p ltac:(lia) ltac:(lia)). lia.
      * destruct (cell_unique (w - 1) i p ltac:(lia) ltac:(lia)). lia.
  - assert (p / w = 0 ∨ p / w = h - 1 ∨ p `mod` w = 0 ∨ p `mod` w = w - 1) as Hb by (unfold interior in Hin; lia).
    destruct (Hc2 p) as [[Hno ->]|[_ ->]]; [|done]. destruct (Hc1 p) as [[Hno1 _]|[_ ->]]; [|done]. exfalso.
    destruct Hb as [Hb|[Hb|[Hb|Hb]]].
    + destruct (Hno1 (p `mod` w) Hm) as [Hne _]. apply Hne. nia.
    + destruct (Hno1 (p `mod` w) Hm) as [_ Hne]. apply Hne. nia.
    + destruct (Hno (p / w) Hd) as [Hne _]. apply Hne. nia.
    + destruct (Hno (p / w) Hd) as [_ Hne]. apply Hne. nia.
Qed.

(** The content of a finished array: [f] of the sector inside, closed on the border. *)
Definition moves (f : Z → bool) (a : list bool) : Prop :=
  zlen a = w * h ∧ ∀ p, 0 <= p < w * h → a.[p] = Some (if decide (interior w h p) then f (i2 w p) else false).

Lemma moves_closed f a p : moves f a → a.[p] = Some true → interior w h p.
Proof.
  intros [Hl Hc] Hp. pose proof (zget_Some_bound _ _ _ Hp) as Hr. rewrite Hl in Hr. rewrite Hc in Hp by done.
  by case_decide.
Qed.

Lemma new_moves_ok mt raw :
  zlen raw = w * h → zlen (hasArea mt) = (w - 2) * (h - 2) →
  ∃ a, new_moves w h mt raw = Some a ∧ moves (λ k, default false (hasArea mt).[k]) a.
Proof.
  intros Hraw Harea. unfold new_moves.
  destruct (fill_moves_ok (λ k, (hasArea mt).[k]) (λ k, default false (hasArea mt).[k]) raw Hraw) as (a1 & -> & Hl1 & Hc1).
  { intros k Hk. destruct (zget_is_Some (hasArea mt) k) as [b Hb]; [lia|]. by rewrite Hb. }
  cbn [mbind option_bind]. destruct (close_edges_ok a1 Hl1) as (a2 & -> & Hl2 & Hc2). exists a2. split; [done|]. split; [done|].
  intros p Hp. rewrite Hc2, Hc1 by done. by case_decide.
Qed.

Lemma new_air_moves_ok raw :
  zlen raw = w * h → ∃ a, new_air_moves w h raw = Some a ∧ moves (λ _, true) a.
Proof.
  intros Hraw. unfold new_air_moves.
  destruct (zfor_ind (λ m a, zlen a = w * h ∧ ∀ p, 0 <= p < m → a.[p] = Some true) 0 (w * h) (λ i a, a.[i <- true]) raw)
    as (a1 & -> & Hl1 & Hc1); [nia|by split; [|lia]| |].
  { intros i a Hi [Hl Hc]. destruct (zset a i true) as [a2|] eqn:E; [|rewrite zset_Some in E by lia; done].
    exists a2. split; [done|]. pose proof (zlen_zset _ _ _ _ E). split; [lia|]. intros p Hp. rewrite (zget_zset _ _ _ _ _ E).
    case_decide; [done|]. apply Hc. lia. }
  cbn [mbind option_bind]. destruct (close_edges_ok a1 Hl1) as (a2 & -> & Hl2 & Hc2). exists a2. split; [done|]. split; [done|].
  intros p Hp. rewrite Hc2, Hc1 by done. by case_decide.
Qed.

(** Writing the interior of a closed array again keeps it closed. *)
Lemma refill_ok free f g a :
  moves g a → (∀ k, 0 <= k < (w - 2) * (h - 2) → free k = Some (f k)) →
  ∃ a', fill_moves w h free a = Some a' ∧ moves f a'.
Proof.
  intros [Hl Hc] Hfree. destruct (fill_moves_ok free f a Hl Hfree) as (a' & Ha & Hl' & Hc'). exists a'. split; [done|].
  split; [done|]. intros p Hp. rewrite Hc', Hc by done. by case_decide.
Qed.
End arrays.

(** ** Counting the structures of a sector *)

Section counting.
Context (blockMap : SBlockingMap) (granularity : Z).

(** Whether cell [c] of the blocking map belongs to a structure. *)
Definition is_struct_at (c : Z * Z) : bool := default false (IsStruct blockMap c.1 c.2).

(** The number of such cells in sector [k] of a map of [sx] sectors per row. *)
Definition structs_in (sx k : Z) : Z :=
  lsum (λ c, if decide (is_struct_at c = true ∧ c.2 / granularity * sx + c.1 / granularity = k) then 1 else 0)
    (rect_cells (0, 0) (columns blockMap, rows blockMap)).

(** The blocking map has its full size, and lies on the [sx] times [sz] sectors. *)
Definition block_fits (sx sz : Z) : Prop :=
  zlen (BlockingMap.grid blockMap) = columns blockMap * rows blockMap ∧ 0 < granularity ∧
  0 <= columns blockMap <= sx * granularity ∧ 0 <= rows blockMap <= sz * granularity.

Lemma count_structs_ok sx sz arr :
  block_fits sx sz → 0 < sx → zlen arr = sx * sz → (∀ k, 0 <= k < sx * sz → arr.[k] = Some 0) →
  ∃ arr', count_structs blockMap granularity sx arr = Some arr' ∧ zlen arr' = sx * sz ∧
    ∀ k, 0 <= k < sx * sz → arr'.[k] = Some (structs_in sx k).
Proof.
  intros (Hgrid & Hg & Hc & Hr) Hsx Hlen H0. unfold count_structs, structs_in.
  set (cells := rect_cells (0, 0) (columns blockMap, rows blockMap)).
  set (body := λ x z a, s ← IsStruct blockMap x z; if (s : bool) then moveX ← idiv x granularity; moveY ← idiv z granularity;
    n ← a.[moveY * sx + moveX]; a.[moveY * sx + moveX <- n + 1] else Some a).
  change (∃ arr', zfor (0, 0).2 (columns blockMap, rows blockMap).2 (λ z a, zfor (0, 0).1 (columns blockMap, rows blockMap).1
    (λ x a, body x z a) a) arr = Some arr' ∧ zlen arr' = sx * sz ∧ ∀ k, 0 <= k < sx * sz → arr'.[k] = Some (lsum
      (λ c, if decide (is_struct_at c = true ∧ c.2 / granularity * sx + c.1 / granularity = k) then 1 else 0) cells)).
  rewrite zfor_rect. fold cells.
  apply (foldM_ind (λ pre a, zlen a = sx * sz ∧ ∀ k, 0 <= k < sx * sz → a.[k] = Some (lsum
      (λ c, if decide (is_struct_at c = true ∧ c.2 / granularity * sx + c.1 / granularity = k) then 1 else 0) pre))).
  { by split. }
  intros pre [x z] post a Hl [Hla Hca]. cbn [fst snd]. unfold body.
  assert ((x, z) ∈ cells) as Hin by (rewrite Hl; apply elem_of_app; right; by left).
  apply elem_of_rect in Hin. cbn [fst snd] in Hin.
  assert (∃ s, IsStruct blockMap x z = Some s) as [s Hs].
  { unfold IsStruct, cell_idx. destruct (zget_is_Some (BlockingMap.grid blockMap) (z * columns blockMap + x)) as [c Hgc]; [nia|].
    rewrite Hgc. by eexists. }
  rewrite Hs. cbn [mbind option_bind]. assert (is_struct_at (x, z) = s) as His by (unfold is_struct_at; cbn [fst snd]; by rewrite Hs).
  destruct s.
  - rewrite !idiv_ok by lia. cbn [mbind option_bind]. rewrite !Z.quot_div_nonneg by lia.
    assert (0 <= x / granularity < sx) by (split; [apply Z.div_pos; lia|apply Z.div_lt_upper_bound; nia]).
    assert (0 <= z / granularity < sz) by (split; [apply Z.div_pos; lia|apply Z.div_lt_upper_bound; nia]).
    set (i := z / granularity * sx + x / granularity). assert (0 <= i < sx * sz) as Hi by (unfold i; nia).
    rewrite (Hca i Hi). cbn [mbind option_bind]. edestruct (zset a i) as [a'|] eqn:E; [|rewrite zset_Some in E by lia; done].
    exists a'. split; [done|]. pose proof (zlen_zset _ _ _ _ E). split; [lia|]. intros k Hk.
    rewrite (zget_zset _ _ _ _ _ E), lsum_app. simpl. rewrite His. fold i. destruct (decide (i = k)) as [<-|Hne].
    + rewrite decide_True by done. f_equal; lia.
    + rewrite decide_False by tauto. rewrite Hca by done. f_equal; lia.
  - exists a. split; [done|]. split; [done|]. intros k Hk. rewrite lsum_app, Hca by done. simpl. rewrite His.
    rewrite decide_False by (intros [? _]; done). f_equal; lia.
Qed.
End counting.

(** ** The finder *)

Section finder.
Context (areas : buf → SAreaData).

Abbreviation gw pf := (moveMapXSize (graph pf)).
Abbreviation gh pf := (moveMapYSize (graph pf)).

(** What the constructor establishes and the update keeps: pathers of the size of the map, and per buffer
    and move type an array with a closed border. *)
Record finder_wf (pf : CPathFinder) : Prop := {
  fw_size : 1 <= pathMapXSize (graph pf) < 2 ^ 29 ∧ 1 <= pathMapYSize (graph pf) < 2 ^ 29;
  fw_move : gw pf = pathMapXSize (graph pf) + 2 ∧ gh pf = pathMapYSize (graph pf) + 2;
  fw_pathers : Forall (λ mp, pather_wf mp ∧ graph_fits (graph pf) mp) (micropathers pf);
  fw_arrays : ∀ b j a, (move_data pf b).[j] = Some a → ∃ f, moves (gw pf) (gh pf) f a;
  fw_types : ∀ b c, length (move_data pf b) = length (mobileTypes (areas c));
  fw_air : moves (gw pf) (gh pf) (λ _, true) (airMoveArray pf)
}.

(** The sector lists of an area have the size of the map. *)
Definition area_fits (pf : CPathFinder) (c : buf) : Prop :=
  Forall (λ mt, zlen (hasArea mt) = pathMapXSize (graph pf) * pathMapYSize (graph pf)) (mobileTypes (areas c)).

Lemma mapM_new_moves w h (raw : nat → list bool) types :
  3 <= w → 3 <= h → (∀ j, zlen (raw j) = w * h) → Forall (λ mt, zlen (hasArea mt) = (w - 2) * (h - 2)) types →
  ∃ arrays, mapM (λ '(j, mt), new_moves w h mt (raw j)) (imap (λ j mt, (j, mt)) types) = Some arrays ∧
    Forall2 (λ mt a, moves w h (λ k, default false (hasArea mt).[k]) a) types arrays.
Proof.
  intros Hw Hh Hraw Hall.
  assert (∀ d : nat, ∃ arrays, mapM (λ '(j, mt), new_moves w h mt (raw j)) (imap (λ j mt, ((d + j)%nat, mt)) types) = Some arrays ∧
    Forall2 (λ mt a, moves w h (λ k, default false (hasArea mt).[k]) a) types arrays) as H; [|exact (H 0%nat)].
  induction Hall as [|mt types Hmt Hall IH]; intros d; [by exists []|].
  destruct (new_moves_ok w h Hw Hh mt (raw (d + 0)%nat) (Hraw _) Hmt) as (a & Ha & Hm).
  destruct (IH (S d)) as (arrays & Harr & Hf). exists (a :: arrays). split; [|by constructor].
  simpl. rewrite Ha. cbn [mbind option_bind].
  assert (imap ((λ (j : nat) (mt0 : MobileType), ((d + j)%nat, mt0)) ∘ S) types = imap (λ j mt0, ((S d + j)%nat, mt0)) types) as ->.
  { apply imap_ext. intros i x _. simpl. f_equal. lia. }
  by rewrite Harr.
Qed.

Lemma new_finder_ok md sq sx sz mapWidth n pAreaData raw0 raw1 rawAir :
  1 <= sx < 2 ^ 29 → 1 <= sz < 2 ^ 29 →
  (∀ j, zlen (raw0 j) = (sx + 2) * (sz + 2)) → (∀ j, zlen (raw1 j) = (sx + 2) * (sz + 2)) → zlen rawAir = (sx + 2) * (sz + 2) →
  Forall (λ mt, zlen (hasArea mt) = sx * sz) (mobileTypes (areas pAreaData)) →
  (∀ c c', length (mobileTypes (areas c)) = length (mobileTypes (areas c'))) →
  ∃ pf, new_CPathFinder md sq sx sz mapWidth n areas pAreaData raw0 raw1 rawAir = Some pf ∧ finder_wf pf ∧
    graph pf = new_graph sq sx sz ∧ pMoveData pf = Data0 ∧ areaData pf = pAreaData ∧
    ∀ b, Forall2 (λ mt a, moves (sx + 2) (sz + 2) (λ k, default false (hasArea mt).[k]) a)
           (mobileTypes (areas pAreaData)) (move_data pf b).
Proof.
  intros Hsx Hsz H0 H1 Ha Hall Hsame. unfold new_CPathFinder. simpl moveMapXSize. simpl moveMapYSize.
  assert (Forall (λ mt, zlen (hasArea mt) = (sx + 2 - 2) * (sz + 2 - 2)) (mobileTypes (areas pAreaData))) as Hall'.
  { eapply Forall_impl; [exact Hall|]. intros mt Hmt. cbv beta in *. rewrite Hmt. f_equal; lia. }
  destruct (mapM_new_moves (sx + 2) (sz + 2) raw0 _ ltac:(lia) ltac:(lia) H0 Hall') as (arr0 & -> & Hf0).
  destruct (mapM_new_moves (sx + 2) (sz + 2) raw1 _ ltac:(lia) ltac:(lia) H1 Hall') as (arr1 & -> & Hf1).
  destruct (new_air_moves_ok (sx + 2) (sz + 2) ltac:(lia) ltac:(lia) rawAir Ha) as (air & -> & Hair).
  cbn [mbind option_bind]. eexists. split; [done|]. split_and!; try done; [|by intros []].
  split; simpl; try done.
  - apply Forall_replicate. split; [apply new_CMicroPather_wf; lia|]. unfold graph_fits. simpl. lia.
  - intros b j a Hj. assert (∃ i : nat, (match b with Data0 => arr0 | Data1 => arr1 end) !! i = Some a) as [i Hi].
    { unfold zget in Hj. case_decide; [|done]. destruct b; by eexists. }
    destruct b.
    + destruct (Forall2_lookup_r _ _ _ _ _ Hf0 Hi) as (mt & _ & Hm). by eexists.
    + destruct (Forall2_lookup_r _ _ _ _ _ Hf1 Hi) as (mt & _ & Hm). by eexists.
  - intros [] c; rewrite (Hsame c pAreaData); symmetry; by eapply Forall2_length.
Qed.

(** A new finder is well formed and its arrays say where units may go.  For a map of at least one sector and area
    data of its size, whatever the freshly allocated arrays hold, the constructor returns a finder that satisfies
    [finder_wf]; in both buffers, the array of each move type opens exactly the sectors that belong to an area of
    that type, and the whole border around them is closed. *)
Theorem new_CPathFinder_ok md sq sx sz mapWidth n pAreaData raw0 raw1 rawAir :
  1 <= sx < 2 ^ 29 → 1 <= sz < 2 ^ 29 →
  (∀ j, zlen (raw0 j) = (sx + 2) * (sz + 2)) → (∀ j, zlen (raw1 j) = (sx + 2) * (sz + 2)) → zlen rawAir = (sx + 2) * (sz + 2) →
  Forall (λ mt, zlen (hasArea mt) = sx * sz) (mobileTypes (areas pAreaData)) →
  (∀ c c', length (mobileTypes (areas c)) = length (mobileTypes (areas c'))) →
  ∃ pf, new_CPathFinder md sq sx sz mapWidth n areas pAreaData raw0 raw1 rawAir = Some pf ∧ finder_wf pf ∧
    graph pf = new_graph sq sx sz ∧ pMoveData pf = Data0 ∧ areaData pf = pAreaData ∧
    ∀ b, Forall2 (λ mt a, moves (sx + 2) (sz + 2) (λ k, default false (hasArea mt).[k]) a)
           (mobileTypes (areas pAreaData)) (move_data pf b).
Proof. exact (new_finder_ok md sq sx sz mapWidth n pAreaData raw0 raw1 rawAir). Qed.

Section update.
Context {E : Engine}.
Context (pf : CPathFinder) (blockMap : SBlockingMap) (nextArea : buf) (blockArray : list Z).

Abbreviation sx := (pathMapXSize (graph pf)).
Abbreviation sz := (pathMapYSize (graph pf)).
Definition granularity : Z := squareSize (graph pf) ÷ (SQUARE_SIZE * 2).

(** Sector [k] can be entered: it belongs to an area, and under a quarter of its cells (truncated) are built on. *)
Definition sector_free (mt : MobileType) (k : Z) : bool :=
  default false (hasArea mt).[k] && bool_decide (structs_in blockMap granularity sx k < (granularity * granularity) ÷ 4).

Lemma refill_arrays counts types arrays :
  finder_wf pf → Forall (λ mt, zlen (hasArea mt) = sx * sz) types → length arrays = length types →
  (∀ k, 0 <= k < sx * sz → counts.[k] = Some (structs_in blockMap granularity sx k)) →
  (∀ j a, arrays.[j] = Some a → ∃ f, moves (gw pf) (gh pf) f a) →
  ∃ arrays', foldM (λ arrays '(j, mt),
      a ← arrays.[j];
      a ← fill_moves (gw pf) (gh pf) (λ k, area ← (hasArea mt).[k];
            if (area : bool) then n ← counts.[k]; Some (bool_decide (n < (granularity * granularity) ÷ 4)) else Some false) a;
      arrays.[j <- a]) arrays (imap (λ j mt, (Z.of_nat j, mt)) types) = Some arrays' ∧
    length arrays' = length types ∧
    ∀ (j : nat) mt, types !! j = Some mt → ∃ a, arrays'.[Z.of_nat j] = Some a ∧ moves (gw pf) (gh pf) (sector_free mt) a.
Proof.
  intros Hwf Htypes Hlen Hcounts Harr. destruct (fw_size _ Hwf) as [Hsx Hsz]. destruct (fw_move _ Hwf) as [Hgw Hgh].
  destruct (foldM_ind (λ pre (arrays' : list (list bool)), length arrays' = length types ∧
      (∀ (j : nat) mt, (j < length pre)%nat → types !! j = Some mt → ∃ a, arrays'.[Z.of_nat j] = Some a ∧ moves (gw pf) (gh pf) (sector_free mt) a) ∧
      (∀ j a, arrays'.[j] = Some a → ∃ f, moves (gw pf) (gh pf) f a))
    (λ arrays '(j, mt), a ← arrays.[j];
      a ← fill_moves (gw pf) (gh pf) (λ k, area ← (hasArea mt).[k];
            if (area : bool) then n ← counts.[k]; Some (bool_decide (n < (granularity * granularity) ÷ 4)) else Some false) a;
      arrays.[j <- a]) (imap (λ j mt, (Z.of_nat j, mt)) types) arrays) as (arrays' & Hf & Hl' & Hdone & _).
  - split; [done|]. split; [intros j mt Hj; simpl in Hj; lia|done].
  - intros pre [j mt] post arr Hl (Hla & Hdone & Hall).
    assert (imap (λ j mt, (Z.of_nat j, mt)) types !! length pre = Some (j, mt)) as Hlk by (rewrite Hl; by rewrite list_lookup_middle).
    rewrite list_lookup_imap in Hlk. destruct (types !! length pre) as [mt'|] eqn:Hmt; simplify_eq/=.
    pose proof (lookup_lt_Some _ _ _ Hmt) as Hlt.
    destruct (zget_is_Some arr (Z.of_nat (length pre))) as [a Ha]; [unfold zlen; lia|]. rewrite Ha. cbn [mbind option_bind].
    destruct (Hall _ _ Ha) as [f Hm]. pose proof (Forall_lookup_1 _ _ _ _ Htypes Hmt) as Hsz'. cbv beta in Hsz'.
    destruct (refill_ok (gw pf) (gh pf) ltac:(lia) ltac:(lia) (λ k, area ← (hasArea mt).[k];
            if (area : bool) then n ← counts.[k]; Some (bool_decide (n < (granularity * granularity) ÷ 4)) else Some false)
            (sector_free mt) f a Hm) as (a' & -> & Hm').
    { intros k Hk. destruct (zget_is_Some (hasArea mt) k) as [b Hb]; [nia|]. unfold sector_free. rewrite Hb. cbn [mbind option_bind].
      destruct b; [|done]. rewrite Hcounts by nia. done. }
    cbn [mbind option_bind]. destruct (zset arr (Z.of_nat (length pre)) a') as [arr'|] eqn:E'; [|rewrite zset_Some in E' by (unfold zlen; lia); done].
    exists arr'. split; [done|]. pose proof (zlen_zset _ _ _ _ E') as Hz. split; [unfold zlen in Hz; lia|]. split.
    + intros j mt0 Hj Hmt0. rewrite length_app in Hj. simpl in Hj. rewrite (zget_zset _ _ _ _ _ E'). case_decide as Hjp.
      * assert (j = length pre) as -> by lia. rewrite Hmt in Hmt0. simplify_eq. by exists a'.
      * apply Hdone; [lia|done].
    + intros j a0. rewrite (zget_zset _ _ _ _ _ E'). case_decide; [intros [= <-]; by eexists|apply Hall].
  - exists arrays'. split; [done|]. split; [done|]. intros j mt Hmt. apply Hdone; [|done]. rewrite length_imap. by eapply lookup_lt_Some.
Qed.

(** C14: An update of the terrain publishes exact move arrays without touching the ones in use.  For a well-formed
    finder that has not seen the current area data and a blocking map that lies on its sectors, UpdateAreaUsers
    returns; the other buffer is published, and in it the array of each move type opens a sector exactly when the
    sector belongs to an area of that type and fewer than a quarter of its cells (granularity^2 / 4, truncated) hold structures, every border cell
    being closed; the buffer published before, which running queries still read, is unchanged, and the finder stays
    well formed. *)
Theorem UpdateAreaUsers_publishes :
  finder_wf pf → isAreaUpdated pf = false → area_fits pf nextArea → block_fits blockMap granularity sx sz →
  0 < SQUARE_SIZE → zlen blockArray = sx * sz →
  ∃ pf' blockArray', UpdateAreaUsers areas nextArea blockMap pf blockArray = Some (pf', blockArray') ∧
    finder_wf pf' ∧ zlen blockArray' = sx * sz ∧ isAreaUpdated pf' = true ∧ areaData pf' = nextArea ∧
    pMoveData pf' = other (pMoveData pf) ∧ move_data pf' (pMoveData pf) = move_data pf (pMoveData pf) ∧
    graph pf' = graph pf ∧ micropathers pf' = micropathers pf ∧ airMoveArray pf' = airMoveArray pf ∧
    ∀ (j : nat) mt, mobileTypes (areas nextArea) !! j = Some mt →
      ∃ a, (move_data pf' (pMoveData pf')).[Z.of_nat j] = Some a ∧ moves (gw pf) (gh pf) (sector_free mt) a.
Proof.
  intros Hwf Hupd Harea Hblock Hss Hlen. destruct (fw_size _ Hwf) as [Hsx Hsz].
  unfold UpdateAreaUsers. rewrite Hupd, idiv_ok by lia. cbn [mbind option_bind]. fold granularity.
  destruct (count_structs_ok blockMap granularity sx sz (const 0 <$> blockArray) Hblock ltac:(lia)) as (counts & -> & Hlc & Hcc).
  { unfold zlen in *. by rewrite length_fmap. }
  { intros k Hk. destruct (zget_is_Some blockArray k) as [v Hv]; [lia|]. unfold zget in *. case_decide; [|done].
    rewrite list_lookup_fmap, Hv. done. }
  cbn [mbind option_bind]. destruct (refill_arrays counts (mobileTypes (areas nextArea)) (move_data pf (GetNextMoveData pf)) Hwf Harea)
    as (arrays & -> & Hla & Hmv); [apply (fw_types _ Hwf)|done|apply (fw_arrays _ Hwf)|].
  cbn [mbind option_bind]. eexists _, counts. split; [done|]. unfold GetNextMoveData.
  split; [|split_and!; try done; by destruct (pMoveData pf)].
  destruct Hwf as [W1 W2 W3 W4 W5 W6].
  assert (∀ j a, arrays.[j] = Some a → ∃ f, moves (gw pf) (gh pf) f a) as Hcl.
  { intros j a Hj. assert (0 <= j) as Hj0 by (apply zget_Some_bound in Hj; lia).
    assert (is_Some (mobileTypes (areas nextArea) !! Z.to_nat j)) as [mt Hmt].
    { apply lookup_lt_is_Some. apply zget_Some_bound in Hj. unfold zlen in Hj. lia. }
    destruct (Hmv _ _ Hmt) as (a' & Ha' & Hm). rewrite Z2Nat.id in Ha' by done. simplify_eq. by eexists. }
  assert (∀ c, length arrays = length (mobileTypes (areas c))) as Hlen'.
  { intros c. rewrite Hla, <-(W5 Data0 nextArea). apply W5. }
  split; try done.
  - intros b j a. specialize (W4 b j a). destruct b, (pMoveData pf); simpl in *; auto; apply Hcl.
  - intros b c. specialize (W5 b c). destruct b, (pMoveData pf); simpl in *; auto.
Qed.
End update.
End finder.

(** On a path map of the smallest squares (16 elmos, one blocking cell each) no sector counts as free: a quarter of one
    blocking cell is no cell at all. *)
Lemma smallest_squares_closed {E : Engine} pf blockMap mt k :
  granularity pf = 1 → sector_free pf blockMap mt k = false.
Proof.
  intros Hg. unfold sector_free. rewrite Hg. apply andb_false_iff. right. apply bool_decide_eq_false.
  change (1 * 1 ÷ 4) with 0. unfold structs_in. apply Z.le_ngt.
  etrans; [|apply (lsum_bound _ _ 0 1); intros c _; case_decide; lia]. lia.
Qed.

(** ** Witnesses *)

#[local] Existing Instance example_engine.

(** A map of four by four sectors of 128 elmos; one of two move types cannot use the first sector. *)
Definition example_types : list MobileType :=
  [mkMobile (replicate 16 true) f1; mkMobile (false :: replicate 15 true) f0].
Definition example_areas : buf → SAreaData :=
  λ _, mkArea example_types (replicate 16 (mkSector false f0 f0)) f0 (f_of_Z 100) (replicate 4096 f0).
Definition example_raw : list bool := replicate 36 true.
Definition example_pather : CMicroPather := new_CMicroPather (mkMapData [] [] (λ _, None) (λ _, None) []) 4 4 64.

(** What the constructor makes of them. *)
Definition example_moves (first : bool) : list bool :=
  replicate 7 false ++ [first; true; true; true] ++ [false; false; true; true; true; true] ++ [false; false; true; true; true; true] ++
  [false; false; true; true; true; true] ++ replicate 7 false.
Definition example_finder : CPathFinder :=
  mkFinder (new_graph 128 4 4) [example_pather] [example_moves true; example_moves false] [example_moves true; example_moves false]
    Data0 (example_moves true) Data0 true 0.

Lemma example_made :
  new_CPathFinder (mkMapData [] [] (λ _, None) (λ _, None) []) 128 4 4 64 1 example_areas Data0 (λ _, example_raw) (λ _, example_raw) example_raw =
    Some example_finder.
Proof. vm_compute. reflexivity. Qed.

Lemma example_finder_wf : finder_wf example_areas example_finder.
Proof.
  edestruct (new_finder_ok example_areas (mkMapData [] [] (λ _, None) (λ _, None) []) 128 4 4 64 1 Data0 (λ _, example_raw)
    (λ _, example_raw) example_raw) as (pf & Hpf & Hwf & _); [lia|lia|done|done|done| |done|].
  - repeat constructor.
  - rewrite example_made in Hpf. by injection Hpf as <-.
Qed.

Lemma new_CPathFinder_ok_witness :
  ∃ pf, new_CPathFinder (mkMapData [] [] (λ _, None) (λ _, None) []) 128 4 4 64 1 example_areas Data0 (λ _, example_raw) (λ _, example_raw)
    example_raw = Some pf ∧ finder_wf example_areas pf.
Proof.
  edestruct (new_CPathFinder_ok example_areas (mkMapData [] [] (λ _, None) (λ _, None) []) 128 4 4 64 1 Data0 (λ _, example_raw)
    (λ _, example_raw) example_raw) as (pf & Hpf & Hwf & _).
  - lia.
  - lia.
  - intros j. reflexivity.
  - intros j. reflexivity.
  - reflexivity.
  - repeat constructor.
  - reflexivity.
  - exists pf. split; [exact Hpf|exact Hwf].
Defined.

(** The update after a structure of 16 by 16 squares fills a quarter of the second sector. *)
Definition example_blocks : SBlockingMap :=
  default (init_blockingMap 64 64)
    (foldM (λ m c, AddStruct m c.1 c.2 UNKNOWN 0) (init_blockingMap 64 64) (rect_cells (8, 0) (12, 4))).

Lemma example_block_fits : block_fits example_blocks 8 4 4.
Proof. split; [vm_compute; reflexivity|]. split; [lia|]. by vm_compute. Qed.

Lemma UpdateAreaUsers_publishes_witness :
  ∃ pf' counts, UpdateAreaUsers example_areas Data1 example_blocks (SetAreaUpdated false example_finder) (replicate 16 0) = Some (pf', counts) ∧
    finder_wf example_areas pf' ∧ pMoveData pf' = Data1 ∧ moveData0 pf' = moveData0 example_finder ∧
    ∃ a, (moveData1 pf').[0] = Some a ∧ a.[7] = Some true ∧ a.[8] = Some false.
Proof.
  destruct (UpdateAreaUsers_publishes example_areas (SetAreaUpdated false example_finder) example_blocks Data1 (replicate 16 0))
    as (pf' & counts & Hu & Hwf & _ & _ & _ & Hp & Hold & _ & _ & _ & Hnew).
  - destruct example_finder_wf. split; assumption.
  - reflexivity.
  - repeat constructor.
  - exact example_block_fits.
  - reflexivity.
  - reflexivity.
  - exists pf', counts. split; [exact Hu|]. split; [exact Hwf|]. split; [exact Hp|]. split; [exact Hold|].
    destruct (Hnew 0%nat _ eq_refl) as (a & Ha & _ & Hm). rewrite Hp in Ha. exists a. split; [exact Ha|].
    rewrite !Hm by (cbn; lia). split; vm_compute; reflexivity.
Defined.
