(* ===== verification/PathRuns.v ===== *)
(** * PathRuns: the queries of the path finder, from the data of the map to the positions of a path

    Theorems about [PathQuery]: the cost functions that [FillMapData] picks are never negative, so a
    query of a well-formed finder hands its pather a map that fits ([map_ok]), and the three runs and
    the line query are total and answer what the searches of [BestPath] promise. *)

From S2P Require Import Prelude Float32 FloatRound FloatDiv EnemyUnit SectorGrid ThreatMap BlockingMap.
From S2P Require Import PathGraph LineWalk OpenQueue MicroPather PathSearch BestPath PathInfo PathFinder PathQuery MoveArrays.

Local Open Scope circuit_scope.
#[local] Arguments fadd : simpl never.
#[local] Arguments fmul : simpl never.
#[local] Arguments fsub : simpl never.
#[local] Arguments fdiv : simpl never.

(** ** The cost functions *)

(** What the terrain data guarantees: slopes are not negative, and the elevations of the sectors lie
    between the finite extremes of the map. *)
Record area_ok (n : Z) (a : SAreaData) : Prop := {
  ao_sectors : zlen (sectors a) = n;
  ao_slope : ∀ i s, (sectors a).[i] = Some s → costf (sec_maxSlope s) = true;
  ao_high : ∀ i s, (sectors a).[i] = Some s → numf (sec_maxElevation s) = true ∧ is_finite (sec_maxElevation s) = true ∧
    fleb (minElevation a) (sec_maxElevation s) = true ∧ fleb (sec_maxElevation s) (maxElevation a) = true;
  ao_extremes : numf (minElevation a) = true ∧ is_finite (minElevation a) = true ∧
    numf (maxElevation a) = true ∧ is_finite (maxElevation a) = true ∧
    is_finite (fsub (maxElevation a) (minElevation a)) = true;
  ao_types : Forall (λ mt, numf (mt_maxSlope mt) = true ∧ is_finite (mt_maxSlope mt) = true) (mobileTypes a);
  ao_areas : Forall (λ mt, zlen (hasArea mt) = n) (mobileTypes a)
}.

Lemma EPS_ok : costf EPS = true ∧ 0 < fval EPS < 2 ^ 277.
Proof. by vm_compute. Qed.

Lemma fmax_EPS x : numf x = true → is_finite x = true → costf (fmax x EPS) = true ∧ 0 < fval (fmax x EPS) < 2 ^ 277.
Proof. intros Hn Hf. destruct EPS_ok as [He Hb]. destruct (fmax_costf x EPS He Hb Hf Hn) as (? & ? & _). done. Qed.

(** A slope measure the lambdas can divide by. *)
Definition divisor (m : float) : Prop := costf m = true ∧ 0 < fval m < 2 ^ 277.

Definition move_ok (a : SAreaData) (f : MoveFun) : Prop :=
  match f with
  | MoveWater m | MoveCloaked m | MoveLand m => divisor m
  | MoveAir => True
  | MoveSpider lo len => lo = minElevation a ∧ len = fmax (fsub (maxElevation a) (minElevation a)) EPS
  end.

Section move.
Context (n : Z) (a : SAreaData).
Hypothesis Ha : area_ok n a.

Lemma twice_slope m s : divisor m → costf s = true → costf (fdiv (fmul f2 s) m) = true.
Proof. intros [Hm Hb] Hs. apply fdiv_inf_costf; [by apply fmul_two_costf|done|done]. Qed.

Lemma water_costf (b : bool) : costf (if b then f2 else f0) = true.
Proof. by destruct b. Qed.

(** The share of the elevation is at most one, also after the rounding of both differences. *)
Lemma spider_costf i s :
  (sectors a).[i] = Some s →
  costf (fmul f2 (fsub f1 (fdiv (fsub (sec_maxElevation s) (minElevation a)) (fmax (fsub (maxElevation a) (minElevation a)) EPS)))) = true.
Proof.
  intros Hs. destruct (ao_high _ _ Ha i s Hs) as (Hn & Hf & Hlo & Hhi).
  destruct (ao_extremes _ _ Ha) as (Hnl & Hfl & Hnh & Hfh & Hd).
  pose proof (fleb_sval _ _ Hnl Hn Hfl Hf Hlo) as Slo. pose proof (fleb_sval _ _ Hn Hnh Hf Hfh Hhi) as Shi.
  destruct (fsub_sval _ _ Hn Hnl Hf Hfl Slo) as [Hc1 Hv1].
  destruct (fsub_sval _ _ Hnh Hnl Hfh Hfl ltac:(lia)) as [Hc2 Hv2].
  destruct EPS_ok as [He Hb].
  assert (numf (fsub (maxElevation a) (minElevation a)) = true) as Hn2 by (destruct (fsub (maxElevation a) _) as [|[]| |[]]; done).
  destruct (fmax_costf _ EPS He Hb Hd Hn2) as (Hc3 & Hb3 & Hle3). specialize (Hle3 Hc2).
  set (x := fsub (sec_maxElevation s) _) in *. set (y := fmax _ EPS) in *.
  assert (fval x <= fval y) as Hxy.
  { etrans; [|exact Hle3]. rewrite Hv1, Hv2.
    pose proof (rnd_mono (sval (sec_maxElevation s) - sval (minElevation a)) (sval (maxElevation a) - sval (minElevation a)) ltac:(lia)). lia. }
  destruct (fdiv_le_one x y Hc1 Hc3 Hb3 Hxy) as [Hdc Hdl].
  apply fmul_two_costf, fsub_costf; done.
Qed.

Lemma run_move_ok f i : move_ok a f → 0 <= i < n → ∃ c, run_move (sectors a) f i = Some c ∧ costf c = true.
Proof.
  intros Hf Hi. destruct (zget_is_Some (sectors a) i) as [s Hs]; [by rewrite (ao_sectors _ _ Ha)|].
  pose proof (ao_slope _ _ Ha i s Hs) as Hsl. unfold run_move. rewrite Hs. cbn [mbind option_bind].
  destruct f as [m|m| |lo len|m]; simpl in Hf; eexists; (split; [reflexivity|]).
  - apply fadd_costf; [apply water_costf|by apply twice_slope].
  - destruct Hf. by apply fdiv_inf_costf.
  - done.
  - destruct Hf as [-> ->]. apply fadd_costf; [by eapply spider_costf|apply water_costf].
  - destruct (sec_isWater s); [done|by apply twice_slope].
Qed.
End move.

(** ** A query and the map it stands for *)

Section queries.
Context (areas : buf → SAreaData) (pf : CPathFinder) (tm : CThreatMap).

Abbreviation g := (graph pf).
Abbreviation n := (pathMapXSize (graph pf) * pathMapYSize (graph pf)).

(** A layer of the threat map has one value per sector, and none is negative. *)
Definition threat_layer_ok (p : tptr) : Prop :=
  let t := get_layer p.2 (buf_data (ThreatMap.mem tm) p.1) in
  zlen t = n ∧ ∀ i v, t.[i] = Some v → costf v = true.

Record query_fits (q : IPathQuery) : Prop := {
  qf_moves : match q_canMove q with AirMoves => True | Moves b j => is_Some (move_data pf b).[j] end;
  qf_threat : threat_layer_ok (q_threat q);
  qf_area : area_ok n (areas (q_area q));
  qf_fun : move_ok (areas (q_area q)) (q_moveFun q)
}.

(** [FillMapData] of a unit whose move type exists makes a query that fits the finder, with the next id,
    and only the id counter of the finder moves on. *)
Lemma FillMapData_ok u t :
  finder_wf areas pf → area_ok n (areas (areaData pf)) → (∀ p, threat_layer_ok p) →
  mobileId (u_cdef u) < zlen (mobileTypes (areas (areaData pf))) →
  ∃ q pf', FillMapData areas pf tm u t = Some (q, pf') ∧ query_fits q ∧
    q_type q = t ∧ q_state q = NONE ∧ q_id q = queryId pf ∧ queryId pf' = queryId pf + 1 ∧
    q_canMove q = (if decide (mobileId (u_cdef u) < 0) then AirMoves else Moves (pMoveData pf) (mobileId (u_cdef u))) ∧
    (∀ b, move_data pf' b = move_data pf b) ∧ graph pf' = graph pf ∧ micropathers pf' = micropathers pf ∧
    airMoveArray pf' = airMoveArray pf.
Proof.
  intros Hwf Ha Ht Hid. unfold FillMapData.
  assert (∃ mv ms, (if decide (mobileId (u_cdef u) < 0) then Some (AirMoves, f1)
     else _ ← (move_data pf (pMoveData pf)).[mobileId (u_cdef u)];
          mt ← (mobileTypes (areas (areaData pf))).[mobileId (u_cdef u)];
          Some (Moves (pMoveData pf) (mobileId (u_cdef u)), fmax (mt_maxSlope mt) EPS)) = Some (mv, ms) ∧ divisor ms ∧
    (match mv with AirMoves => True | Moves b j => is_Some (move_data pf b).[j] end) ∧
    mv = (if decide (mobileId (u_cdef u) < 0) then AirMoves else Moves (pMoveData pf) (mobileId (u_cdef u)))) as (mv & ms & -> & Hms & Hmv & Heq).
  { case_decide as Hneg; [eexists _, _; split; [done|]; by vm_compute|].
    destruct (zget_is_Some (move_data pf (pMoveData pf)) (mobileId (u_cdef u))) as [m Hm].
    { unfold zlen in *. rewrite (fw_types _ _ Hwf _ (areaData pf)). lia. }
    destruct (zget_is_Some (mobileTypes (areas (areaData pf))) (mobileId (u_cdef u))) as [mt Hmt]; [lia|].
    rewrite Hm, Hmt. cbn [mbind option_bind]. eexists _, _. split; [done|]. split; [|by rewrite Hm].
    assert (mt ∈ mobileTypes (areas (areaData pf))) as Hin.
    { unfold zget in Hmt. case_decide; [|done]. by apply list_elem_of_lookup_2 in Hmt. }
    pose proof (ao_types _ _ Ha) as Hty. rewrite Forall_forall in Hty. destruct (Hty mt Hin) as [Hnum Hfin]. by apply fmax_EPS. }
  cbn [mbind option_bind].
  set (choice := pick_costs _ tm u ms). assert (threat_layer_ok choice.1.1 ∧ move_ok (areas (areaData pf)) choice.1.2) as [Hlayer Hfun].
  { split; [apply Ht|]. unfold choice, pick_costs. repeat case_match; done. }
  destruct choice as [[threat mf] tf]. cbn [fst snd] in Hlayer, Hfun. eexists _, _. split; [reflexivity|].
  split; [by split|]. split_and!; done.
Qed.

Lemma deref_ok q mp :
  finder_wf areas pf → query_fits q → pather_wf mp → graph_fits g mp →
  ∃ md, deref areas pf tm q = Some md ∧ map_ok (SetMapData md mp) ∧ heightMap md = area_heightMap (areas (q_area q)) ∧
    threatArray md = get_layer (q_threat q).2 (buf_data (ThreatMap.mem tm) (q_threat q).1).
Proof.
  intros Hwf [Hmv [Hlen Hcost] Harea Hfun] Hmp (Hgx & Hpx & Hpy). destruct (fw_move _ _ Hwf) as [Hmx Hmy].
  assert (moveMapYSize g = mapSizeY mp) as Hgy by lia.
  assert (∃ a f, move_array pf (q_canMove q) = Some a ∧ moves (mapSizeX mp) (mapSizeY mp) f a) as (a & f & Harr & Hm).
  { rewrite <-Hgx, <-Hgy. destruct (q_canMove q) as [|b j]; simpl in *; [eexists _, _; split; [done|apply (fw_air _ _ Hwf)]|].
    destruct Hmv as [a Ha]. destruct (fw_arrays _ _ Hwf _ _ _ Ha) as [f Hf]. by exists a, f. }
  unfold deref. rewrite Harr. cbn [mbind option_bind]. eexists. split; [reflexivity|]. split; [|done].
  assert (∀ p, inner mp p → 0 <= i2 (mapSizeX mp) p < n) as Hi2.
  { intros p Hp. rewrite Hpx, Hpy. by apply i2_range. }
  split; cbn [mapData SetMapData canMoveArray threatArray moveFun threatFun mapSizeX mapSizeY].
  - apply Hm.
  - intros p Hp. by eapply moves_closed.
  - intros p Hp. apply zget_is_Some_iff. rewrite Hlen. by apply Hi2.
  - intros p Hp. apply (run_move_ok n); [done|done|by apply Hi2].
  - intros p Hp. unfold run_threat. destruct (zget_is_Some (get_layer (q_threat q).2 (buf_data (ThreatMap.mem tm) (q_threat q).1)) (i2 (mapSizeX mp) p)) as [v Hv];
      [by rewrite Hlen; apply Hi2|].
    rewrite Hv. cbn [mbind option_bind]. eexists. split; [done|]. specialize (Hcost _ _ Hv).
    destruct (q_threatFun q); [done|]. by apply fmul_two_costf.
Qed.
End queries.

(** ** The outline of a disc *)

Lemma put_ok size l p : zlen l < size → put size l p = Some (l ++ [p]).
Proof. intros H. unfold put. by rewrite decide_True. Qed.

Lemma zlen_snoc {A} (l : list A) x : zlen (l ++ [x]) = zlen l + 1.
Proof. rewrite zlen_app. done. Qed.

Lemma zget_snoc {A} (l : list A) x : (l ++ [x]).[zlen l] = Some x.
Proof. unfold zget, zlen. rewrite decide_True by lia. rewrite Nat2Z.id. by rewrite lookup_app_r, Nat.sub_diag. Qed.
Lemma zget_keep {A} (l l' : list A) i x : l.[i] = Some x → (l ++ l').[i] = Some x.
Proof. unfold zget. case_decide; [|done]. intros Hx. by apply lookup_app_l_Some. Qed.
Lemma zget_in {A} (l : list A) x : x ∈ l ↔ ∃ i, l.[i] = Some x.
Proof.
  split.
  - intros [i Hi]%list_elem_of_lookup. exists (Z.of_nat i). unfold zget. rewrite decide_True by lia. by rewrite Nat2Z.id.
  - intros [i Hi]. unfold zget in Hi. case_decide; [|done]. by eapply list_elem_of_lookup_2.
Qed.

(** A loop that appends a copy of each of the first [m] entries. *)
Lemma copy_ok (f : Z * Z → Z * Z) size m l :
  0 <= m <= zlen l → zlen l + m <= size →
  ∃ l', zfor 0 m (λ a l, o ← l.[a]; put size l (f o)) l = Some (l ++ l') ∧ zlen l' = m ∧
    ∀ o, o ∈ l' ↔ ∃ i o', i < m ∧ l.[i] = Some o' ∧ o = f o'.
Proof.
  intros Hm Hs. destruct (zfor_ind (λ a lx, ∃ l', lx = l ++ l' ∧ zlen l' = a ∧ ∀ o, o ∈ l' ↔ ∃ i o', i < a ∧ l.[i] = Some o' ∧ o = f o')
    0 m (λ a l, o ← l.[a]; put size l (f o)) l) as (lx & Hx & l' & -> & Hz & Hin); [lia| | |].
  - exists []. rewrite app_nil_r. split; [done|]. split; [done|]. intros o. split; [by intros ?%elem_of_nil|].
    intros (i & o' & Hi & Hl & _). pose proof (zget_Some_bound _ _ _ Hl). lia.
  - intros a lx Ha (l' & -> & Hz & Hin). destruct (zget_is_Some l a) as [o Ho]; [lia|]. rewrite (zget_keep _ _ _ _ Ho). cbn [mbind option_bind].
    rewrite put_ok by (rewrite zlen_app; lia). eexists. split; [done|]. exists (l' ++ [f o]). rewrite app_assoc. split; [done|].
    rewrite zlen_snoc. split; [lia|]. intros p. rewrite elem_of_app, list_elem_of_singleton, Hin. split.
    + intros [(i & o' & Hi & Hl & ->)| ->]; [by exists i, o'; split; [lia|]|]. exists a, o. split; [lia|done].
    + intros (i & o' & Hi & Hl & ->). destruct (decide (i = a)) as [->|]; [right; congruence|]. left. exists i, o'. split; [lia|done].
  - by exists l'.
Qed.

(** A cell in the disc of radius [r] whose outer diagonal neighbour is not in it. *)
Definition on_outline (r : Z) (x y : Z) : Prop :=
  x * x + y * y <= r * r < (Z.abs x + 1) * (Z.abs x + 1) + (Z.abs y + 1) * (Z.abs y + 1).

(** The half width of row [a] of the disc, counted from its top. *)
Definition half_width (r a : Z) : Z := Z.sqrt (r * r - (a - r) * (a - r)).
Lemma half_width_spec r a : 0 <= a <= 2 * r →
  0 <= half_width r a ∧ half_width r a * half_width r a <= r * r - (a - r) * (a - r) < (half_width r a + 1) * (half_width r a + 1).
Proof. intros Ha. unfold half_width. assert (0 <= r * r - (a - r) * (a - r)) by nia. split; [apply Z.sqrt_nonneg|]. by apply Z.sqrt_spec. Qed.
Lemma half_width_top r : half_width r 0 = 0.
Proof. unfold half_width. by replace (r * r - (0 - r) * (0 - r)) with 0 by ring. Qed.
Lemma half_width_middle r : 0 <= r → half_width r r = r.
Proof. intros Hr. unfold half_width. replace (r * r - (r - r) * (r - r)) with (r * r) by ring. by apply Z.sqrt_square. Qed.

(** The entries of row [a] in the upper right quarter. *)
Definition in_row (r x a : Z) : Prop := (if decide (a = 0) then 0 else half_width r (a - 1)) <= x <= half_width r a.
Lemma in_row_outline r x a : 0 <= a <= r → 0 <= x → in_row r x a ↔ on_outline r x (a - r).
Proof.
  intros Ha Hx. unfold in_row, on_outline. rewrite (Z.abs_eq x), (Z.abs_neq (a - r)) by lia.
  destruct (half_width_spec r a ltac:(lia)) as [H0 H1]. destruct (decide (a = 0)) as [->|Hn].
  - rewrite half_width_top in *. split; [intros ?; assert (x = 0) as -> by lia; nia|intros [? _]; nia].
  - destruct (half_width_spec r (a - 1) ltac:(lia)) as [Hb0 Hb1]. replace (- (a - r) + 1) with (- (a - 1 - r)) by ring.
    rewrite Z.mul_opp_opp. split; [intros [? ?]; split; nia|intros [? ?]]. split; [|nia].
    destruct (decide (half_width r (a - 1) <= x)); [done|nia].
Qed.

(** The upper right quarter: the cell [(x, a)] is entry [a + x]. *)
Lemma quarter_ok r xend : 0 < r < 2 ^ 10 → (∀ a, 0 <= a <= 2 * r → xend.[a] = Some (half_width r a)) →
  ∃ l, zfor 1 (r + 1) (λ a l, endPosIdx ← xend.[a]; startPosIdx ← xend.[a - 1];
         zfor startPosIdx (endPosIdx + 1) (λ x l, put (r * 2 * 5) l (x, a)) l) [(0, 0)] = Some l ∧ zlen l = 2 * r + 1 ∧
    ∀ i o, l.[i] = Some o ↔ i = o.2 + o.1 ∧ 0 <= o.2 <= r ∧ 0 <= o.1 ∧ in_row r o.1 o.2.
Proof.
  intros Hr Hget.
  destruct (zfor_ind (λ a (l : list (Z * Z)), zlen l = a + half_width r (a - 1) ∧ ∀ i o, l.[i] = Some o ↔ i = o.2 + o.1 ∧ 0 <= o.2 < a ∧ 0 <= o.1 ∧ in_row r o.1 o.2) 1 (r + 1) (λ a l,
    endPosIdx ← xend.[a]; startPosIdx ← xend.[a - 1]; zfor startPosIdx (endPosIdx + 1) (λ x l, put (r * 2 * 5) l (x, a)) l) [(0, 0)])
    as (l & Hl & Hz & Hin); [lia| | |].
  - rewrite Z.sub_diag, half_width_top. split; [done|]. intros i [x b]. cbn [fst snd]. split.
    + intros Hi. pose proof (zget_Some_bound _ _ _ Hi) as Hb. unfold zlen in Hb. simpl in Hb. assert (i = 0) as -> by lia. vm_compute in Hi. injection Hi as <- <-.
      split; [done|]. split; [lia|]. split; [lia|]. unfold in_row. simpl. rewrite half_width_top. lia.
    + intros (-> & Hb & Hx & Hrow). assert (b = 0) as -> by lia. unfold in_row in Hrow. simpl in Hrow. rewrite half_width_top in Hrow. by assert (x = 0) as -> by lia.
  - intros a l Ha [Hz Hin]. rewrite !Hget by lia. cbn [mbind option_bind].
    destruct (half_width_spec r a ltac:(lia)) as [Ha0 Ha1]. destruct (half_width_spec r (a - 1) ltac:(lia)) as [Hb0 Hb1].
    assert (half_width r (a - 1) <= half_width r a) as Hm by (apply Z.sqrt_le_mono; nia). assert (half_width r a <= r) as Hle by nia.
    destruct (zfor_ind (λ x (l' : list (Z * Z)), zlen l' = a + x ∧ ∀ i o, l'.[i] = Some o ↔ i = o.2 + o.1 ∧ (0 <= o.2 < a ∧ 0 <= o.1 ∧ in_row r o.1 o.2 ∨ o.2 = a ∧ half_width r (a - 1) <= o.1 < x))
      (half_width r (a - 1)) (half_width r a + 1) (λ x l, put (r * 2 * 5) l (x, a)) l) as (l2 & Hl2 & Hz2 & Hin2); [lia| | |].
    + split; [done|]. intros i o. rewrite Hin. naive_solver lia.
    + intros x l' Hx [Hz' Hin']. rewrite put_ok by lia. eexists. split; [done|]. rewrite zlen_snoc. split; [lia|]. intros i [y b]. cbn [fst snd].
      destruct (decide (i = zlen l')) as [->|Hi].
      * rewrite zget_snoc, Hz'. split.
        -- intros [= <- <-]. split; [lia|]. right. lia.
        -- intros [He [(Hb & Hy & [_ Hrow])|[-> Hy]]]; [|f_equal; f_equal; lia]. exfalso. cbn [fst snd] in *. enough (half_width r b <= half_width r (a - 1)) by lia.
           apply Z.sqrt_le_mono. nia.
      * assert ((l' ++ [(x, a)]).[i] = Some (y, b) ↔ l'.[i] = Some (y, b)) as ->.
        { split; [|apply zget_keep]. intros Hi'. pose proof (zget_Some_bound _ _ _ Hi') as Hb'. rewrite zlen_snoc in Hb'. unfold zget in *. unfold zlen in *.
          rewrite decide_True in Hi' |- * by lia. by rewrite lookup_app_l in Hi' by lia. }
        rewrite Hin'. cbn [fst snd]. split; [naive_solver lia|]. intros [-> [?|[-> ?]]]; [naive_solver|]. split; [done|]. right. split; [done|lia].
    + exists l2. split; [exact Hl2|]. split; [replace (a + 1 - 1) with a by lia; lia|]. intros i [x b]. rewrite Hin2. cbn [fst snd]. split.
      * intros [-> [(?&?&?)|[-> ?]]]; [split_and!; try done; lia|]. split_and!; try done; try lia. unfold in_row. rewrite decide_False by lia. lia.
      * intros (-> & Hb & Hx & Hrow). split; [done|]. destruct (decide (b = a)) as [->|]; [|left; split_and!; try done; lia].
        right. unfold in_row in Hrow. rewrite decide_False in Hrow by lia. split; [done|lia].
  - exists l. split; [exact Hl|]. rewrite Z.add_simpl_r, half_width_middle in Hz by lia. split; [lia|]. intros i o. rewrite Hin. naive_solver lia.
Qed.

(** The offsets are the cells of the outline, all of them; those on the axis are there twice. *)
Lemma circle_outline_ok r :
  0 < r < 2 ^ 10 → ∃ l, circle_outline r = Some l ∧ zlen l = 8 * r ∧ ∀ o, o ∈ l ↔ on_outline r o.1 o.2.
Proof.
  intros Hr. destruct (circle_rows_ok r Hr) as (xend & Hrows & Hget). unfold circle_outline. rewrite Hrows. cbn [mbind option_bind].
  rewrite put_ok by (unfold zlen; simpl; lia). cbn [mbind option_bind app].
  destruct (quarter_ok r xend Hr Hget) as (l1 & -> & Hz1 & Hin1). cbn [mbind option_bind].
  destruct (copy_ok (λ o, (o.1, r * 2 - o.2)) (r * 2 * 5) (zlen l1 - 2) l1) as (l2 & -> & Hz2 & Hin2); [lia|lia|]. cbn [mbind option_bind].
  destruct (copy_ok (λ o, (- o.1, o.2)) (r * 2 * 5) (zlen (l1 ++ l2)) (l1 ++ l2)) as (l3 & -> & Hz3 & Hin3); [rewrite zlen_app in *; lia..|].
  cbn [mbind option_bind]. eexists. split; [done|]. split; [unfold zlen in *; rewrite length_map, !length_app in *; lia|].
  assert (∀ x b, (x, b) ∈ l1 ++ l2 ↔ 0 <= x ∧ on_outline r x (b - r)) as Hhalf.
  { intros x b. rewrite elem_of_app, Hin2, zget_in. split.
    - intros [[i (_ & Hb & Hx & Hrow)%Hin1]|(i & [y a] & Hi & (-> & Ha & Hy & Hrow)%Hin1 & [= -> ->])]; cbn [fst snd] in *; (split; [done|]); [by apply in_row_outline|].
      apply in_row_outline in Hrow; [|done..]. unfold on_outline in *. replace (r * 2 - a - r) with (- (a - r)) by ring. by rewrite Z.abs_opp, Z.mul_opp_opp.
    - intros [Hx Ho]. assert (0 <= b <= 2 * r) as Hb by (unfold on_outline in Ho; nia). destruct (decide (b <= r)) as [Hle|Hgt].
      + left. exists (b + x). apply Hin1. cbn [fst snd]. split; [done|]. split; [lia|]. split; [done|]. by apply in_row_outline; [lia|..].
      + right. exists (r * 2 - b + x), (x, r * 2 - b). cbn [fst snd].
        assert (in_row r x (r * 2 - b)) as Hrow.
        { apply in_row_outline; [lia|done|]. unfold on_outline in *. replace (r * 2 - b - r) with (- (b - r)) by ring. by rewrite Z.abs_opp, Z.mul_opp_opp. }
        split_and!; [|apply Hin1; cbn [fst snd]; split_and!; [done|lia|lia|done|done]|f_equal; lia].
        destruct (half_width_spec r (r * 2 - b) ltac:(lia)) as [? ?]. unfold in_row in Hrow. assert (half_width r (r * 2 - b) < r) by nia. lia. }
  intros [x y]. cbn [fst snd]. rewrite list_elem_of_fmap. split.
  - intros ([x' b] & [= -> ->] & Ho). rewrite elem_of_app, Hin3 in Ho. destruct Ho as [Ho|(i & [x'' b'] & _ & Hi & [= -> ->])]; [by apply Hhalf|].
    assert ((x'', b') ∈ l1 ++ l2) as [_ Ho]%Hhalf by (apply zget_in; eauto). unfold on_outline in *. cbn [fst snd]. by rewrite Z.abs_opp, Z.mul_opp_opp.
  - intros Ho. exists (x, y + r). cbn [fst snd]. split; [f_equal; lia|]. rewrite elem_of_app. destruct (decide (0 <= x)) as [Hx|Hx].
    + left. apply Hhalf. by replace (y + r - r) with y by ring.
    + right. apply Hin3. assert ((- x, y + r) ∈ l1 ++ l2) as Hmem.
      { apply Hhalf. split; [lia|]. unfold on_outline in *. replace (y + r - r) with y by ring. by rewrite Z.abs_opp, Z.mul_opp_opp. }
      apply zget_in in Hmem as [i Hi]. exists i, (- x, y + r). pose proof (zget_Some_bound _ _ _ Hi). cbn [fst snd]. split; [lia|]. split; [done|]. f_equal; lia.
Qed.

(** ** Positions on the map *)

(** The engine's map size, the path map and the two height maps fit together. *)
Record world_ok {E : Engine} (g : PathGraph) (mp : CMicroPather) (heights : list float) : Prop := {
  wo_x : costf maxxpos = true ∧ 3 * 2 ^ 149 <= fval maxxpos < 2 ^ 277;
  wo_z : costf maxzpos = true ∧ 3 * 2 ^ 149 <= fval maxzpos < 2 ^ 277;
  wo_far : fval (fsub maxxpos (f_of_Z 2)) <= pathMapXSize g * PathGraph.squareSize g * 2 ^ 149 ∧
           fval (fsub maxzpos (f_of_Z 2)) <= pathMapYSize g * PathGraph.squareSize g * 2 ^ 149;
  wo_sq : 0 < PathGraph.squareSize g < 2 ^ 24;
  wo_size : 0 < pathMapXSize g < 2 ^ 22 ∧ 0 < pathMapYSize g < 2 ^ 22;
  wo_heights : ∀ md, heightMap md = heights → heights_ok g (SetMapData md mp)
}.

(** A position without a NaN; it need not be on the map. *)
Definition posf (p : AIFloat3) : Prop := numf (px p) = true ∧ numf (pz p) = true.

Section runs.
Context {E : Engine}.
Context (areas : buf → SAreaData) (pf : CPathFinder) (tm : CThreatMap) (mp : CMicroPather).
Hypothesis Hwf : finder_wf areas pf.
Hypothesis Hmp : pather_wf mp.
Hypothesis Hfit : graph_fits (graph pf) mp.

Abbreviation g := (graph pf).

Lemma corrected_node heights pos :
  world_ok g mp heights → posf pos → ∃ node, Pos2MoveNode g (CorrectPosition pos) = Some node ∧ in_grid mp node.
Proof.
  intros Hw [Hx Hz]. destruct (wo_x _ _ _ Hw) as [Cx Bx], (wo_z _ _ _ Hw) as [Cz Bz], (wo_far _ _ _ Hw) as [Fx Fz], (wo_size _ _ _ Hw) as [Sx Sz].
  destruct (correct_axis_ok maxxpos Cx Bx (px pos) Hx) as [Hcx Hbx], (correct_axis_ok maxzpos Cz Bz (pz pos) Hz) as [Hcz Hbz].
  pose proof (wo_sq _ _ _ Hw) as Hsq.
  destruct (pos_cell1_range g Hsq _ (pathMapXSize g) Hcx ltac:(lia) ltac:(lia)) as (x & Hpx & Rx).
  destruct (pos_cell1_range g Hsq _ (pathMapYSize g) Hcz ltac:(lia) ltac:(lia)) as (z & Hpz & Rz).
  unfold Pos2MoveNode, CorrectPosition. cbn [px pz]. rewrite Hpz, Hpx. cbn [mbind option_bind]. eexists. split; [done|].
  destruct Hfit as (-> & Ex & Ey). unfold in_grid. nia.
Qed.

Lemma route_inner md R s l c :
  map_ok (SetMapData md mp) → inner mp s → rroute R (grid_of (SetMapData md mp)) (mapSizeX mp) s l c → ∀ p, p ∈ l → inner mp p.
Proof.
  intros Hmap Hs. induction 1 as [|u l c d i wt Hr IH He]; intros p; rewrite !elem_of_cons.
  - intros [->|?%not_elem_of_nil]; done.
  - intros [->|Hp]; [|apply IH; by rewrite elem_of_cons]. destruct He as (dir & nc & _ & _ & Hm & _). apply (mk_border _ Hmap d Hm).
Qed.

(** The cells of a solved path are indices of the path map. *)
Lemma route_on_map md R s u l c :
  map_ok (SetMapData md mp) → inner mp s → rroute R (grid_of (SetMapData md mp)) (mapSizeX mp) s (u :: l) c →
  Forall (on_map g) (i2 (mapSizeX mp) <$> reverse (u :: l)) ∧ i2 (mapSizeX mp) <$> reverse (u :: l) ≠ [].
Proof.
  intros Hmap Hs Hr. split.
  - apply Forall_forall. intros i (p & -> & Hp)%list_elem_of_fmap. rewrite elem_of_reverse in Hp.
    destruct Hfit as (_ & Ex & Ey). unfold on_map. rewrite Ex, Ey. apply i2_range. eapply (route_inner md R s); [done|done|exact Hr|done].
  - rewrite reverse_cons, fmap_app. intros [_ ?]%app_eq_nil. done.
Qed.

(** ** The end of a run *)

(** What a path query reports of a solved path: the positions of its cells from the last cell in sight
    on, or only the last one. *)
Definition positions (endPosOnly : bool) (mp' : CMicroPather) (i : PathInfo) : Prop :=
  if endPosOnly then ∃ idx p, last (info_path i) = Some idx ∧ posPath i = [p] ∧ waypoint_of g mp' idx p
  else refined g mp' (info_path i) (start i) ∧ Forall2 (waypoint_of g mp') (drop (Z.to_nat (start i)) (info_path i)) (posPath i).

(** The pather after a search over the map [md]. *)
Definition searched (md : MapData) (mp' : CMicroPather) : Prop :=
  pather_wf mp' ∧ mapData mp' = md ∧ mapSizeX mp' = mapSizeX mp ∧ mapSizeY mp' = mapSizeY mp ∧ heightMapSizeX mp' = heightMapSizeX mp.

Lemma searched_fits md mp' : searched md mp' → map_ok (SetMapData md mp) → heights_ok g (SetMapData md mp) →
  graph_fits g mp' ∧ map_ok mp' ∧ heights_ok g mp'.
Proof.
  intros (Hwf' & Hmd & Hx & Hy & Hhx) Hmap Hh. split; [unfold graph_fits; by rewrite Hx, Hy|]. split.
  - destruct Hmap. split; unfold inner in *; cbn [mapData SetMapData mapSizeX mapSizeY] in *; by rewrite ?Hmd, ?Hx, ?Hy.
  - destruct Hh. split; cbn [mapData SetMapData heightMapSizeX] in *; by rewrite ?Hmd, ?Hhx.
Qed.

Lemma finish_ok md endPosOnly a :
  searched md (an_mp a) → map_ok (SetMapData md mp) → heights_ok g (SetMapData md mp) →
  (an_outcome a = SOLVED → Forall (on_map g) (an_path a) ∧ an_path a ≠ []) →
  ∃ r, finish pf endPosOnly a = Some r ∧ f_mp r = an_mp a ∧ f_cost r = an_cost a ∧ info_path (f_info r) = an_path a ∧
    match an_outcome a with SOLVED => positions endPosOnly (an_mp a) (f_info r) | _ => posPath (f_info r) = [] end.
Proof.
  intros Hs Hmap Hh Hsol. destruct (searched_fits md _ Hs Hmap Hh) as (Hf & Hm & Hh'). destruct Hs as (Hwf' & _).
  unfold finish. destruct (an_outcome a); [|eexists; split; [reflexivity|]; done..]. destruct (Hsol eq_refl) as [Hall Hne].
  unfold FillPathInfo, positions. cbn [isEndPos info_path posPath start]. destruct endPosOnly.
  - destruct (last (an_path a)) as [idx|] eqn:El; [|by apply last_None in El]. cbn [mbind option_bind].
    assert (on_map g idx) as Hidx by (rewrite Forall_forall in Hall; apply Hall; by apply last_Some_elem_of).
    destruct (waypoint_ok g (an_mp a) Hh' idx Hidx) as (p & -> & Hp). cbn [mbind option_bind].
    eexists. split; [reflexivity|]. split_and!; try done. by exists idx, p.
  - destruct (RefinePath_ok g (an_mp a) Hf Hwf' Hm (an_path a) Hne Hall) as (k & -> & Hk). cbn [mbind option_bind].
    pose proof Hk as [Hb _]. destruct (waypoints_ok g (an_mp a) Hh' (an_path a) k [] Hall ltac:(lia)) as (ps & -> & Hps).
    cbn [mbind option_bind]. eexists. split; [reflexivity|]. done.
Qed.

(** ** [MakePath] *)

(** The answer of a single-target query whose map is [md], from node [s] to the disc of [radius] around node [e]. *)
Definition single_answer (q : CQueryPathSingle) (md : MapData) (s e radius : Z) (r : Found) : Prop :=
  searched md (f_mp r) ∧
  if decide (radius <= 0) then info_path (f_info r) = [] ∧ posPath (f_info r) = [] ∧ f_cost r = f0
  else ∃ a, radius_answer (SetMapData md mp) s e radius (s_maxThreat q) (prepared (s_hitTest q)) [] a ∧
    f_mp r = an_mp a ∧ f_cost r = an_cost a ∧ info_path (f_info r) = an_path a ∧
    match an_outcome a with SOLVED => positions (s_endPosOnly q) (an_mp a) (f_info r) | _ => posPath (f_info r) = [] end.

(** C16: A query with one target answers with a way to its target disc, as positions.  For a well-formed finder,
    a query that fits it, positions that are not NaN (they may be off the map, or infinite) and a range below 1024 squares,
    the run is total given enough fuel: the start and the end are corrected onto the map, and the map data is what the
    query's pointers lead to.  When the range is below one square the answer is empty, with cost 0.  Otherwise a path
    is a walk over the map to a cell of the disc of the converted range around the end which the hit test accepts,
    with a reported cost that covers the walk's (it need not be the cheapest), and its positions are the centres of its cells from the last one in sight on,
    or only of the last cell when just the end is asked; there is none when every walk to such a cell costs at least
    FLT_BIG / 2. *)
Theorem MakePath_answers q radius :
  query_fits areas pf tm (s_query q) → world_ok g mp (area_heightMap (areas (q_area (s_query q)))) →
  posf (s_startPos q) → posf (s_endPos q) →
  f_to_int (fdiv (s_maxRange q) (f_of_Z (PathGraph.squareSize g))) = Some radius → radius < 2 ^ 10 →
  ∃ md s e N, deref areas pf tm (s_query q) = Some md ∧
    Pos2MoveNode g (CorrectPosition (s_startPos q)) = Some s ∧ Pos2MoveNode g (CorrectPosition (s_endPos q)) = Some e ∧
    ∀ fuel, (N <= fuel)%nat → ∃ r,
      MakePath areas pf tm fuel q mp = Some (r, CorrectPosition (s_startPos q), CorrectPosition (s_endPos q)) ∧
      single_answer q md s e radius r.
Proof.
  intros Hq Hw Hs He Hr Hrad. destruct (deref_ok areas pf tm _ mp Hwf Hq Hmp Hfit) as (md & Hmd & Hmap & Hhm & _).
  destruct (corrected_node _ _ Hw Hs) as (s & Hsn & Hsg). destruct (corrected_node _ _ Hw He) as (e & Hen & Heg).
  pose proof (wo_heights _ _ _ Hw md Hhm) as Hh. pose proof (SetMapData_wf md mp Hmp) as Hwf'.
  unfold MakePath. rewrite Hmd, Hr. cbn [mbind option_bind]. rewrite Hsn, Hen. cbn [mbind option_bind]. unfold single_answer.
  destruct (decide (radius <= 0)) as [Hle|Hgt].
  - exists md, s, e, O. do 3 (split; [done|]). intros fuel _. unfold FindBestPathToPointOnRadius. rewrite decide_True by done.
    cbn [mbind option_bind finish an_outcome]. eexists. split; [reflexivity|]. split; [|done].
    split_and!; try done. by apply set_running_wf.
  - destruct (on_radius_ok (SetMapData md mp) s e radius (s_maxThreat q) (prepared (s_hitTest q)) [] Hwf' Hmap Hsg Heg ltac:(lia)) as [N HN].
    exists md, s, e, N. do 3 (split; [done|]). intros fuel Hf. destruct (HN fuel Hf) as (a & -> & Ha). cbn [mbind option_bind].
    pose proof Ha as (Hw1 & Hw2 & Hw3 & Hw4 & Hw5 & Hans).
    destruct (finish_ok md (s_endPosOnly q) a) as (r & -> & Hfm & Hfc & Hfp & Hpos); [done|done|done| |].
    { intros Ho. rewrite Ho in Hans. destruct Hans as (u & l & c & _ & Hrr & -> & _). eapply route_on_map; [done| |exact Hrr].
      by apply (FixNode_inner (SetMapData md mp)). }
    cbn [mbind option_bind]. eexists. split; [reflexivity|]. split; [by rewrite Hfm|]. by exists a.
Qed.

(** ** [FindBestPath] *)

Section targets.
Context (heights : list float) (hitTest : TestFunc) (offsets : list (Z * Z)).
Hypothesis Hw : world_ok g mp heights.

(** The end nodes of a target: the cells of the outline around it that lie on the path map and pass the
    test, and the target itself. *)
Definition ends_of (node : Z) : list Z := let '(x, y) := MoveNode2MoveXY g node in nodes_around pf hitTest offsets x y.

Lemma ends_of_grid node : in_grid mp node → Forall (in_grid mp) (ends_of node).
Proof.
  intros Hn. pose proof (pw_x _ Hmp) as Hx. pose proof (pw_y _ Hmp) as Hy. destruct (fw_move _ _ Hwf) as [Hgx Hgy].
  destruct Hfit as (Ex & Ey & Ez). unfold ends_of, MoveNode2MoveXY, nodes_around.
  apply Forall_app. split; [|constructor; [|done]].
  - apply Forall_fmap, Forall_forall. intros [x y] [[Hr _] _]%list_elem_of_filter. cbn [fst snd] in Hr. simpl.
    unfold MoveXY2MoveNode, in_grid. rewrite Ex in *. nia.
  - unfold MoveXY2MoveNode. replace (_ * _ + _) with node by lia. done.
Qed.

(** The pather while targets are collected: their nodes are marked, everything else is untouched. *)
Definition marked (mp' : CMicroPather) (nodes : list Z) : Prop :=
  mp' = set_nodes (nodeMem mp') mp ∧ zlen (nodeMem mp') = zlen (nodeMem mp) ∧
  ∀ p, (nodeMem mp').[p] = (λ n, if decide (p ∈ nodes) then set_isEndNode true n else n) <$> (nodeMem mp).[p].

Definition collected (done : list AIFloat3) (s : CMicroPather * list Z * list Z) : Prop :=
  let '(mp', endNodes, nodeTargets) := s in
  marked mp' nodeTargets ∧ NoDup nodeTargets ∧ Forall (in_grid mp) nodeTargets ∧ endNodes = nodeTargets ≫= ends_of ∧
  ∀ node, node ∈ nodeTargets ↔ ∃ t, t ∈ done ∧ Pos2MoveNode g (CorrectPosition t) = Some node.

Lemma collect_ok targets :
  Forall posf targets →
  ∃ s, foldM (add_target pf hitTest offsets) (mp, [], []) targets = Some s ∧ collected targets s.
Proof.
  intros Hall. apply (foldM_ind (λ pre s, collected pre s)).
  - split; [split; [by destruct mp|split; [done|]]; intros p; by destruct ((nodeMem mp).[p])|].
    split_and!; try done; [constructor|]. intros node. split; [by intros ?%not_elem_of_nil|by intros (t & ?%not_elem_of_nil & _)].
  - intros pre t post [[mp' endNodes] nodeTargets] Hl (Hmk & Hnd & Hg & He & Hin). unfold add_target.
    assert (posf t) as Ht by (rewrite Forall_forall in Hall; apply Hall; rewrite Hl; apply elem_of_app; right; by left).
    destruct (corrected_node _ _ Hw Ht) as (node & Hnode & Hgrid). rewrite Hnode. cbn [mbind option_bind].
    destruct (zget_is_Some (nodeMem mp) node) as [n Hn]; [by rewrite (pw_nodes _ Hmp)|]. destruct Hmk as (Hmp' & Hlen & Hget).
    rewrite Hget, Hn. cbn [fmap option_fmap option_map mbind option_bind].
    destruct (pw_node _ Hmp node n Hn) as (_ & _ & _ & Hend & _).
    case_decide as Hnew.
    + cbn [isEndNode set_isEndNode]. eexists. split; [reflexivity|]. split; [done|]. split_and!; try done.
      intros node'. rewrite Hin. split; [intros (t' & ? & ?); exists t'; split; [apply elem_of_app; by left|done]|].
      intros (t' & [?|Ht']%elem_of_app & Hn'); [by exists t'|]. apply list_elem_of_singleton in Ht' as ->.
      assert (node' = node) as -> by congruence. by apply Hin.
    + rewrite Hend. destruct (zset (nodeMem mp') node (set_isEndNode true n)) as [nodes|] eqn:E'.
      2:{ rewrite zset_Some in E' by (rewrite Hlen; by eapply zget_Some_bound). done. }
      cbn [mbind option_bind]. unfold ends_of in He. destruct (MoveNode2MoveXY g node) as [x y] eqn:Exy. eexists. split; [reflexivity|].
      split; [|split_and!].
      * split; [rewrite Hmp' at 1; done|]. cbn [nodeMem set_nodes]. split; [rewrite <-Hlen; by eapply zlen_zset|]. intros p.
        rewrite (zget_zset _ _ _ _ _ E'), Hget. destruct (decide (node = p)) as [<-|Hne].
        -- rewrite Hn. simpl. rewrite decide_True; [done|]. apply elem_of_app. right. by left.
        -- destruct ((nodeMem mp).[p]); [|done]. simpl. f_equal. repeat case_decide; try done; exfalso.
           ++ rewrite elem_of_app in *. tauto.
           ++ rewrite elem_of_app, list_elem_of_singleton in *. intuition congruence.
      * apply NoDup_app. split; [done|]. split; [|apply NoDup_singleton]. intros z Hz ->%list_elem_of_singleton. done.
      * apply Forall_app. split; [done|]. by constructor.
      * rewrite bind_app, He. f_equal. simpl. rewrite app_nil_r. unfold ends_of. by rewrite Exy.
      * intros node'. rewrite elem_of_app, list_elem_of_singleton, Hin. split.
        -- intros [(t' & ? & ?)| ->]; [exists t'|exists t]; (split; [|done]); apply elem_of_app; [by left|right; by left].
        -- intros (t' & [?| ->%list_elem_of_singleton]%elem_of_app & Hn'); [left; by exists t'|right; congruence].
Qed.

(** Clearing the marks gives the pather back as it was. *)
Lemma clear_ok mp' nodes :
  marked mp' nodes → NoDup nodes → Forall (in_grid mp) nodes → foldM clear_target mp' nodes = Some mp.
Proof.
  revert mp'. induction nodes as [|node nodes IH]; intros mp' (Hmp' & Hlen & Hget) Hnd Hg.
  - simpl. f_equal. rewrite Hmp'. assert (nodeMem mp' = nodeMem mp) as ->; [|by destruct mp].
    apply zget_ext; [done|]. intros p. rewrite Hget. by destruct ((nodeMem mp).[p]).
  - apply NoDup_cons in Hnd as [Hnew Hnd]. apply Forall_cons in Hg as [Hgn Hg]. simpl. unfold clear_target.
    destruct (zget_is_Some (nodeMem mp) node) as [n Hn]; [by rewrite (pw_nodes _ Hmp)|].
    destruct (pw_node _ Hmp node n Hn) as (_ & _ & _ & Hend & _).
    rewrite Hget, Hn. cbn [fmap option_fmap option_map mbind option_bind]. rewrite decide_True by by left.
    destruct (zset (nodeMem mp') node _) as [m|] eqn:E'; [|rewrite zset_Some in E' by (rewrite Hlen; by eapply zget_Some_bound); done].
    cbn [mbind option_bind]. apply IH; [|done|done]. split; [rewrite Hmp' at 1; done|]. cbn [nodeMem set_nodes].
    split; [rewrite <-Hlen; by eapply zlen_zset|]. intros p. rewrite (zget_zset _ _ _ _ _ E'), Hget.
    destruct (decide (node = p)) as [<-|Hne].
    + rewrite Hn. simpl. rewrite decide_False by done. f_equal. destruct n. simpl in *. by rewrite Hend.
    + destruct ((nodeMem mp).[p]); [|done]. simpl. f_equal. repeat case_decide; try done; exfalso; rewrite elem_of_cons in *; intuition congruence.
Qed.
End targets.

(** The answer of a query with many targets, from node [s] to any of the nodes [ends]. *)
Definition multi_answer (q : CQueryPathMulti) (md : MapData) (s : Z) (ends : list Z) (r : Found) : Prop :=
  searched md (f_mp r) ∧
  match ends with
  | [] => info_path (f_info r) = [] ∧ posPath (f_info r) = [] ∧ f_cost r = f0
  | first :: rest => ∃ a, any_answer (SetMapData md mp) s first rest (m_maxThreat q) [] a ∧
      f_mp r = an_mp a ∧ f_cost r = an_cost a ∧ info_path (f_info r) = an_path a ∧
      match an_outcome a with SOLVED => positions (m_endPosOnly q) (an_mp a) (f_info r) | _ => posPath (f_info r) = [] end
  end.

(** An end node of the target at [node]: the target itself, or a cell of the map on the outline of the disc
    around it that passes the test. *)
Definition end_cell (hitTest : TestFunc) (radius node p : Z) : Prop :=
  let '(x0, y0) := MoveNode2MoveXY g node in
  p = node ∨ ∃ x y, 1 <= x < moveMapXSize g - 1 ∧ 1 <= y < moveMapYSize g - 1 ∧ on_outline radius (x - x0) (y - y0) ∧
    hitTest (x - 1, y - 1) (x0 - 1, y0 - 1) = true ∧ p = MoveXY2MoveNode g x y.
Lemma ends_of_cells hitTest radius offsets node p : (∀ o, o ∈ offsets ↔ on_outline radius o.1 o.2) → in_grid mp node →
  p ∈ ends_of hitTest offsets node ↔ end_cell hitTest radius node p.
Proof.
  intros Hoff Hn. pose proof (pw_x _ Hmp) as Hx. destruct Hfit as (Ex & Ey & Ez). destruct (fw_move _ _ Hwf) as [Hgx Hgy].
  unfold ends_of, end_cell, nodes_around. destruct (MoveNode2MoveXY g node) as [x0 y0] eqn:Hxy. unfold in_grid in Hn.
  assert (MoveXY2MoveNode g x0 y0 = node) as Hback.
  { unfold MoveNode2MoveXY in Hxy. injection Hxy as <- <-. unfold MoveXY2MoveNode. lia. }
  rewrite elem_of_app, list_elem_of_singleton, Hback, list_elem_of_fmap. split.
  - intros [([x y] & -> & Hf)| ->]; [right|by left]. apply list_elem_of_filter in Hf as [[Hr Ht] Hin]. cbn [fst snd] in Hr, Ht.
    apply list_elem_of_fmap in Hin as (o & [= -> ->] & Ho%Hoff). exists (x0 + o.1), (y0 + o.2).
    replace (x0 + o.1 - x0) with o.1 by ring. replace (y0 + o.2 - y0) with o.2 by ring. split_and!; try done; lia.
  - intros [->|(x & y & Hrx & Hry & Ho & Ht & ->)]; [by right|left]. exists (x, y). split; [done|]. apply list_elem_of_filter. cbn [fst snd].
    split; [split; [lia|done]|]. apply list_elem_of_fmap. exists (x - x0, y - y0). cbn [fst snd]. split; [f_equal; lia|]. by apply Hoff.
Qed.

(** C18: A query with many targets searches to the outlines around all of them and leaves the pather clean.  For a
    well-formed finder and a fitting query with a range of at least one square, the run is total given enough fuel:
    every target's node is collected once; the end nodes are exactly the collected nodes and, around each of them, the
    cells of the map on the outline of the disc of the converted range (the cells of the disc whose outer diagonal
    neighbour is not in it) that pass the hit test; the marks used to find duplicates are all taken back; and the
    answer is what the search to any of the end nodes promises: a walk to one of them with a cost that covers the walk's,
    its path turned into positions as for one target, or nothing when every walk to one of them costs at least
    FLT_BIG / 2. *)
Theorem FindBestPath_answers q radius :
  query_fits areas pf tm (m_query q) → world_ok g mp (area_heightMap (areas (q_area (m_query q)))) →
  posf (m_startPos q) → Forall posf (m_targets q) → fltb (m_maxRange q) (f_of_Z (PathGraph.squareSize g)) = false →
  f_to_int (fdiv (m_maxRange q) (f_of_Z (PathGraph.squareSize g))) = Some radius → 0 < radius < 2 ^ 10 →
  ∃ md s nodes ends N, deref areas pf tm (m_query q) = Some md ∧
    Pos2MoveNode g (CorrectPosition (m_startPos q)) = Some s ∧ NoDup nodes ∧
    (∀ node, node ∈ nodes ↔ ∃ t, t ∈ m_targets q ∧ Pos2MoveNode g (CorrectPosition t) = Some node) ∧
    (∀ p, p ∈ ends ↔ ∃ node, node ∈ nodes ∧ end_cell (prepared (m_hitTest q)) radius node p) ∧
    ∀ fuel, (N <= fuel)%nat → ∃ r, FindBestPath areas pf tm fuel q mp = Some r ∧ multi_answer q md s ends r.
Proof.
  intros Hq Hw Hs Ht Hrange Hr Hrad. destruct (deref_ok areas pf tm _ mp Hwf Hq Hmp Hfit) as (md & Hmd & Hmap & Hhm & _).
  destruct (corrected_node _ _ Hw Hs) as (s & Hsn & Hsg). pose proof (wo_heights _ _ _ Hw md Hhm) as Hh.
  pose proof (SetMapData_wf md mp Hmp) as Hwf'. destruct (circle_outline_ok radius Hrad) as (offsets & Hoff & _ & Hout).
  destruct (collect_ok _ (prepared (m_hitTest q)) offsets Hw (m_targets q) Ht) as ([[mp' endNodes] nodes] & Hc & Hmk & Hnd & Hg & -> & Hin).
  pose proof (clear_ok _ Hw mp' nodes Hmk Hnd Hg) as Hclear. set (ends := nodes ≫= ends_of (prepared (m_hitTest q)) offsets) in *.
  assert (Forall (in_grid (SetMapData md mp)) ends) as Hends.
  { apply Forall_bind. eapply Forall_impl; [exact Hg|]. intros node Hnode. by apply ends_of_grid. }
  destruct (any_returns (SetMapData md mp) s ends nodes (m_maxThreat q) []) as [N HN]; [done..|].
  exists md, s, nodes, ends, N. do 4 (split; [done|]). split.
  { intros p. unfold ends. rewrite list_elem_of_bind. rewrite Forall_forall in Hg. split; intros (node & H1 & H2).
    - exists node. split; [done|]. eapply ends_of_cells; [exact Hout|by apply Hg|done].
    - exists node. split; [eapply ends_of_cells; [exact Hout|by apply Hg|done]|done]. }
  intros fuel Hf.
  unfold FindBestPath. rewrite Hmd. cbn [mbind option_bind]. rewrite Hrange, Hr. cbn [mbind option_bind]. rewrite Hoff. cbn [mbind option_bind].
  rewrite Hc. cbn [mbind option_bind]. rewrite Hclear. cbn [mbind option_bind]. rewrite Hsn. cbn [mbind option_bind].
  fold ends. unfold multi_answer. destruct (HN fuel Hf) as (a & [[-> (first & rest & He & Ha)]|(-> & He & ->)]); cbn [mbind option_bind].
  - pose proof Ha as (H1 & H2 & H3 & H4 & H5 & Hans). fold ends. rewrite He.
    destruct (finish_ok md (m_endPosOnly q) a) as (r & -> & Hfm & Hfc & Hfp & Hpos); [done|done|done| |].
    { intros Ho. rewrite Ho in Hans. destruct Hans as (u & l & c & _ & Hrr & -> & _). eapply route_on_map; [done| |exact Hrr].
      by apply (FixNode_inner (SetMapData md mp)). }
    eexists. split; [reflexivity|]. split; [by rewrite Hfm|]. by exists a.
  - rewrite He. eexists. split; [reflexivity|]. split; [|done]. split_and!; try done. by apply set_running_wf.
Qed.

(** ** [MakeCostMap] *)

Lemma Prepare_cost_len q :
  zlen (Prepare_cost pf q) = Z.of_nat (Z.to_nat (pathMapXSize g * pathMapYSize g)).
Proof. unfold Prepare_cost, zlen. rewrite length_app, length_take, length_replicate. lia. Qed.

Lemma MakeCostMap_ok q s fuel :
  query_fits areas pf tm (c_query q) → Pos2MoveNode g (c_startPos q) = Some s → in_grid mp s →
  mapSizeX mp * mapSizeY mp < Z.of_nat fuel →
  ∃ md mp' m, deref areas pf tm (c_query q) = Some md ∧ MakeCostMap areas pf tm fuel q mp = Some (mp', m) ∧
    pather_wf mp' ∧ exact_map (SetMapData md mp) s (Prepare_cost pf q) m.
Proof.
  intros Hq Hs Hg Hf. destruct (deref_ok areas pf tm _ mp Hwf Hq Hmp Hfit) as (md & Hmd & Hmap & _ & Hthr).
  pose proof (SetMapData_wf md mp Hmp) as Hwf'. destruct (fw_size _ _ Hwf) as [Hx Hy].
  destruct (cost_map_ok (SetMapData md mp) s (Prepare_cost pf q) Hwf' Hmap) with (fuel := fuel) as (mp' & m & Hm & Hmw & Hex).
  - intros p t _ Ht. cbn [mapData SetMapData] in Ht. rewrite Hthr in Ht. by apply (proj2 (qf_threat _ _ _ _ Hq)) in Ht.
  - done.
  - rewrite Prepare_cost_len. destruct Hfit as (_ & Ex & Ey). cbn [mapSizeX mapSizeY SetMapData]. rewrite <-Ex, <-Ey. nia.
  - done.
  - exists md, mp', m. unfold MakeCostMap. rewrite Hmd. cbn [mbind option_bind]. rewrite Hs. cbn [mbind option_bind]. done.
Qed.
End runs.

(** ** Witnesses *)

#[local] Existing Instance example_engine.

Definition example_threats : CThreatMap :=
  MkThreatMap flat_area 128 4 4 16 2 1 (MkSlack f1 f1 (fdiv f1 f2) 0) (Mem (base_data 16) (base_data 16)) Data0
    (Data1, AirL) (Data1, SurfL) (Data1, AmphL) (Data1, CloakL) (Data1, ShieldL) false
    (Data0, AirL) (Data0, SurfL) (Data0, AmphL) (Data0, CloakL) (Data0, ShieldL) (Data0, SurfL).
Lemma example_threats_made : new_CThreatMap flat_area 128 4 4 (f_of_Z 100) f1 f1 f1 0 [] = Some (example_threats, []).
Proof. vm_compute. reflexivity. Qed.

Definition example_query (t : QueryType) : IPathQuery :=
  mkQuery 0 t NONE (Moves Data0 0) (surfThreat example_threats) (MoveLand f1) ThreatTwice Data0.

Lemma zget_replicate_Some {A} (n : nat) (x y : A) i : zget (replicate n x) i = Some y → y = x.
Proof. unfold zget. case_decide; [|done]. intros [-> _]%lookup_replicate. done. Qed.

Lemma example_area_ok : area_ok 16 (example_areas Data0).
Proof.
  split.
  - reflexivity.
  - intros i s Hs. apply zget_replicate_Some in Hs as ->. by vm_compute.
  - intros i s Hs. apply zget_replicate_Some in Hs as ->. by vm_compute.
  - by vm_compute.
  - repeat constructor.
  - repeat constructor.
Qed.

Lemma example_fits t : query_fits example_areas example_finder example_threats (example_query t).
Proof.
  split.
  - by eexists.
  - split; [by vm_compute|]. intros i v Hv.
    change (zget (replicate 16 THREAT_BASE) i = Some v) in Hv. apply zget_replicate_Some in Hv as ->. by vm_compute.
  - exact example_area_ok.
  - by vm_compute.
Qed.

Lemma example_heights md : heightMap md = replicate 4096 f0 → heights_ok (graph example_finder) (SetMapData md example_pather).
Proof.
  intros Hmd. split.
  - reflexivity.
  - by vm_compute.
  - by vm_compute.
  - exists 64. cbn [mapData SetMapData]. rewrite Hmd. by vm_compute.
  - cbn [mapData SetMapData]. rewrite Hmd. intros i v Hv. apply zget_replicate_Some in Hv as ->. exists 0. reflexivity.
Qed.

Lemma example_world : world_ok (graph example_finder) example_pather (area_heightMap (example_areas Data0)).
Proof.
  split.
  - by vm_compute.
  - by vm_compute.
  - by vm_compute.
  - by vm_compute.
  - by vm_compute.
  - exact example_heights.
Qed.

Lemma example_pather_wf : pather_wf example_pather.
Proof. apply new_CMicroPather_wf; lia. Qed.
Lemma example_graph_fits : graph_fits (graph example_finder) example_pather.
Proof. done. Qed.

Definition example_single : CQueryPathSingle :=
  mkSingle (example_query SINGLE) (F3 (fneg f1) f0 (f_of_Z 64)) (F3 (f_of_Z 450) f0 (f_of_Z 450)) (f_of_Z 150) None f1 false.

Lemma MakePath_answers_witness :
  ∃ md N, deref example_areas example_finder example_threats (example_query SINGLE) = Some md ∧ ∀ fuel, (N <= fuel)%nat → ∃ r,
    MakePath example_areas example_finder example_threats fuel example_single example_pather =
      Some (r, F3 f1 f0 (f_of_Z 64), F3 (f_of_Z 450) f0 (f_of_Z 450)) ∧
    single_answer example_finder example_pather example_single md 7 28 1 r.
Proof.
  destruct (MakePath_answers example_areas example_finder example_threats example_pather example_finder_wf example_pather_wf
    example_graph_fits example_single 1) as (md & s & e & N & Hmd & Hs & He & HN).
  - exact (example_fits SINGLE).
  - exact example_world.
  - split; reflexivity.
  - split; reflexivity.
  - vm_compute. reflexivity.
  - lia.
  - assert (s = 7) as Hs7 by (vm_compute in Hs; congruence). assert (e = 28) as He28 by (vm_compute in He; congruence).
    exists md, N. split; [exact Hmd|]. intros fuel Hf. rewrite <-Hs7, <-He28. exact (HN fuel Hf).
Defined.

Definition example_multi : CQueryPathMulti :=
  mkMulti (example_query MULTI) (F3 f1 f0 (f_of_Z 64)) [F3 (f_of_Z 450) f0 (f_of_Z 450); F3 (f_of_Z 460) f0 (f_of_Z 430)]
    (f_of_Z 150) None f1 false.

Lemma FindBestPath_answers_witness :
  ∃ md ends N, (∀ p, p ∈ ends ↔ end_cell example_finder (prepared None) 1 28 p) ∧ ∀ fuel, (N <= fuel)%nat → ∃ r,
    FindBestPath example_areas example_finder example_threats fuel example_multi example_pather = Some r ∧
    multi_answer example_finder example_pather example_multi md 7 ends r.
Proof.
  destruct (FindBestPath_answers example_areas example_finder example_threats example_pather example_finder_wf example_pather_wf
    example_graph_fits example_multi 1) as (md & s & nodes & ends & N & _ & Hs & Hnd & Hin & Hends & HN).
  - exact (example_fits MULTI).
  - exact example_world.
  - split; reflexivity.
  - repeat constructor.
  - vm_compute. reflexivity.
  - vm_compute. reflexivity.
  - lia.
  - assert (s = 7) as Hs7 by (vm_compute in Hs; congruence).
    assert (nodes = [28]) as Hnodes.
    { assert (∀ node, node ∈ nodes ↔ node = 28) as Hiff.
      { intros node. rewrite Hin. split.
        - intros (t & Ht & Hp). apply elem_of_cons in Ht as [->|Ht]; [|apply elem_of_cons in Ht as [->|Ht]; [|by apply not_elem_of_nil in Ht]];
            vm_compute in Hp; congruence.
        - intros ->. exists (F3 (f_of_Z 450) f0 (f_of_Z 450)). split; [by left|by vm_compute]. }
      destruct nodes as [|a [|b l]].
      - exfalso. by apply (not_elem_of_nil 28), Hiff.
      - f_equal. apply Hiff. by left.
      - exfalso. assert (a = 28) as -> by (apply Hiff; by left). assert (b = 28) as -> by (apply Hiff; right; by left).
        apply NoDup_cons in Hnd as [Hnd _]. apply Hnd. by left. }
    exists md, ends, N. split.
    { intros p. rewrite Hends, Hnodes. split; [|intros Hp; exists 28; split; [by left|done]].
      intros (node & ->%list_elem_of_singleton & Hp). exact Hp. }
    intros fuel Hf. destruct (HN fuel Hf) as (r & Hr & Ha). exists r. split; [exact Hr|]. by rewrite Hs7 in Ha.
Defined.
