(* ===== verification/QueryMaps.v ===== *)
(** * QueryMaps: what the cost map and the line map answer

    Theorems about [CQueryCostMap::GetCostAt] and [CQueryLineMap::IsSafeLine] of [PathQuery]. *)

From Stdlib Require Import SpecFloat.
From S2P Require Import Prelude Float32 FloatRound FloatDiv EnemyUnit SectorGrid ThreatMap.
From S2P Require Import PathGraph LineWalk MicroPather BestPath PathFinder PathQuery MoveArrays.

Local Open Scope circuit_scope.
#[local] Arguments fadd : simpl never.
#[local] Arguments fmul : simpl never.
#[local] Arguments fdiv : simpl never.

(** A position of the path map, at least one below its far edge, lies in one of its cells. *)
Lemma pos_cell_range sq v M :
  0 < sq <= 2 ^ 12 → 0 < M < 2 ^ 12 → costf v = true → fval v <= (M * sq - 1) * 2 ^ 149 →
  ∃ c, f_to_int (fdiv v (f_of_Z sq)) = Some c ∧ 0 <= c < M.
Proof.
  intros Hsq HM Hv Hb. pose proof (fval_bounds v Hv) as Hv0. destruct (f_of_Z_val sq ltac:(lia)) as [Hsc Hsv].
  pose proof (small_val _ sq ltac:(lia) Hsv) as Hsf. assert (fval v < 2 ^ 277) as Hvf by (change (2 ^ 277) with (2 ^ 128 * 2 ^ 149); nia).
  destruct (dyadic (M * 2 ^ 12 - 1) 12 ltac:(lia) ltac:(lia)) as (d & Hdc & Hdv & Hdf). replace (149 - 12) with 137 in Hdv by done.
  destruct (fdiv_cases v (f_of_Z sq) Hv Hsc Hvf ltac:(lia) d Hdc Hdf) as [_ Hle].
  assert (fval (fdiv v (f_of_Z sq)) <= fval d) as Hq.
  { apply Hle. rewrite Hdv, Hsv. change (2 ^ 149) with (2 ^ 12 * 2 ^ 137) in *. nia. }
  assert (costf (fdiv v (f_of_Z sq)) = true) as Hqc by (apply fdiv_costf; done || lia).
  rewrite Hdv in Hq. exists (fval (fdiv v (f_of_Z sq)) / 2 ^ 149). pose proof (fval_bounds _ Hqc) as Hq0. split.
  - apply f_to_int_val; [done|]. change (2 ^ 149) with (2 ^ 12 * 2 ^ 137). lia.
  - split; [apply Z.div_pos; lia|]. apply Z.div_lt_upper_bound; [lia|]. change (2 ^ 149) with (2 ^ 12 * 2 ^ 137). lia.
Qed.

(** ** The line map *)

Section line_map.
Context (q : CQueryLineMap) (ySize : Z) (canMoveArray : list bool) (threatArray : list float).

(** A cell the unit can enter and no enemy reaches. *)
Definition safe_at (c : Z * Z) : Prop :=
  canMoveArray.[(c.2 + 1) * (threatXSize q + 2) + c.1 + 1] = Some true ∧
  ∃ t, threatArray.[c.2 * threatXSize q + c.1] = Some t ∧ fgtb t THREAT_BASE = false.

(** A position at least one before the far edges of the map. *)
Definition inside_map (p : AIFloat3) : Prop :=
  costf (px p) = true ∧ fval (px p) <= (threatXSize q * l_squareSize q - 1) * 2 ^ 149 ∧
  costf (pz p) = true ∧ fval (pz p) <= (ySize * l_squareSize q - 1) * 2 ^ 149.

Hypothesis Hsq : 0 < l_squareSize q <= 2 ^ 12.
Hypothesis Hx : 0 < threatXSize q < 2 ^ 12.
Hypothesis Hy : 0 < ySize < 2 ^ 12.
Hypothesis Hmove : zlen canMoveArray = (threatXSize q + 2) * (ySize + 2).
Hypothesis Hthreat : zlen threatArray = threatXSize q * ySize.

Lemma safe_cell_ok x y :
  0 <= x < threatXSize q → 0 <= y < ySize → ∃ b, safe_cell q canMoveArray threatArray x y = Some b ∧ (b = true ↔ safe_at (x, y)).
Proof.
  intros Hxr Hyr. unfold safe_cell, safe_at. cbn [fst snd].
  destruct (zget_is_Some canMoveArray ((y + 1) * (threatXSize q + 2) + x + 1)) as [m Hm]; [rewrite Hmove; nia|]. rewrite Hm. cbn [mbind option_bind].
  destruct (zget_is_Some threatArray (y * threatXSize q + x)) as [t Ht]; [rewrite Hthreat; nia|].
  destruct m; simpl negb; [rewrite Ht; cbn [mbind option_bind]|exists false; split; [done|split; [done|intros [? _]; congruence]]].
  eexists. split; [done|]. rewrite negb_true_iff. split; [intros E; split; [done|by exists t]|].
  intros (_ & t' & Ht' & E). by simplify_eq.
Qed.

(** C32: A line is safe exactly when every cell of the ideal line is.  For positions at least one elmo from the far
    edges and arrays of the size of the map, IsSafeLine returns, and it answers true if and only if each cell of the
    ideal line between the two cells can be entered by the unit (in the move array with its border) and has no more
    than the base threat (in the threat array without a border). *)
Theorem IsSafeLine_ideal startPos endPos :
  inside_map startPos → inside_map endPos →
  ∃ x0 y0 x1 y1 b,
    f_to_int (fdiv (px startPos) (f_of_Z (l_squareSize q))) = Some x0 ∧ f_to_int (fdiv (pz startPos) (f_of_Z (l_squareSize q))) = Some y0 ∧
    f_to_int (fdiv (px endPos) (f_of_Z (l_squareSize q))) = Some x1 ∧ f_to_int (fdiv (pz endPos) (f_of_Z (l_squareSize q))) = Some y1 ∧
    IsSafeLine q canMoveArray threatArray startPos endPos = Some b ∧ (b = true ↔ Forall safe_at (line_cells x0 y0 x1 y1)).
Proof.
  intros (Sx & Sx' & Sz & Sz') (Ex & Ex' & Ez & Ez').
  destruct (pos_cell_range _ _ _ Hsq Hx Sx Sx') as (x0 & H0 & R0). destruct (pos_cell_range _ _ _ Hsq Hy Sz Sz') as (y0 & H1 & R1).
  destruct (pos_cell_range _ _ _ Hsq Hx Ex Ex') as (x1 & H2 & R2). destruct (pos_cell_range _ _ _ Hsq Hy Ez Ez') as (y1 & H3 & R3).
  assert (∀ x y, (x, y) ∈ line_cells x0 y0 x1 y1 → 0 <= x < threatXSize q ∧ 0 <= y < ySize) as Hbox.
  { intros x y [? ?]%line_cells_box. lia. }
  unfold IsSafeLine. rewrite H0, H1, H2, H3. cbn [mbind option_bind]. rewrite line_ideal.
  destruct (all_ok_total (safe_cell q canMoveArray threatArray) (line_cells x0 y0 x1 y1)) as [b Hb].
  { intros x y [? ?]%Hbox. destruct (safe_cell_ok x y) as (b & Hb & _); [done..|]. by exists b. }
  exists x0, y0, x1, y1, b. do 5 (split; [done|]).
  assert (b = true ↔ all_ok (safe_cell q canMoveArray threatArray) (line_cells x0 y0 x1 y1) = Some true) as -> by (rewrite Hb; split; congruence).
  rewrite all_ok_true, !Forall_forall. split; intros H [x y] Hc; destruct (Hbox x y Hc) as [Rx Ry];
    destruct (safe_cell_ok x y Rx Ry) as (b' & Hb' & Hiff); specialize (H _ Hc); cbn [fst snd] in *.
  - apply Hiff. congruence.
  - rewrite Hb'. f_equal. by apply Hiff.
Qed.
End line_map.

(** ** The cost map *)

Section cost_map.
Context (pf : CPathFinder) (costMap : list float).

Abbreviation g := (graph pf).
Abbreviation sx := (pathMapXSize (graph pf)).
Abbreviation sy := (pathMapYSize (graph pf)).

(** Entries are costs, or -1 for cells that were not reached. *)
Definition entries_ok : Prop :=
  zlen costMap = sx * sy ∧ ∀ i c, costMap.[i] = Some c → c = fneg f1 ∨ costf c = true.

Definition entry (p : Z * Z) : option float :=
  if IsInPathMap g p.1 p.2 then costMap.[PathXY2PathIndex g p.1 p.2] else None.

(** The least cost of the points that were reached, or -1 when none was. *)
Definition least_cost (points : list (Z * Z)) (v : float) : Prop :=
  (v = fneg f1 ∧ ∀ p c, p ∈ points → entry p = Some c → c = fneg f1) ∨
  (costf v = true ∧ (∃ p, p ∈ points ∧ entry p = Some v) ∧
   ∀ p c, p ∈ points → entry p = Some c → costf c = true → fval v <= fval c).

Hypothesis Hentries : entries_ok.

Lemma entry_inside x y : IsInPathMap g x y = true → ∃ c, costMap.[PathXY2PathIndex g x y] = Some c ∧ entry (x, y) = Some c.
Proof.
  intros Hin. unfold entry. cbn [fst snd]. rewrite Hin. destruct Hentries as [Hlen _]. unfold IsInPathMap in Hin.
  destruct (zget_is_Some costMap (PathXY2PathIndex g x y)) as [c Hc]; [|by exists c].
  rewrite Hlen. unfold PathXY2PathIndex. nia.
Qed.

Lemma neg_one_lt : fltb (fneg f1) f0 = true.
Proof. done. Qed.

Lemma costf_not_neg c : costf c = true → fltb c f0 = false.
Proof. intros Hc. rewrite fltb_val by done. pose proof (fval_bounds c Hc). change (fval f0) with 0. lia. Qed.

Lemma minCost_ok inside pre cost x y :
  (inside = true → IsInPathMap g x y = true) → least_cost pre cost →
  ∃ cost', minCost pf costMap inside cost x y = Some cost' ∧ least_cost (pre ++ [(x, y)]) cost'.
Proof.
  intros Hguard Hpre. unfold minCost. destruct (IsInPathMap g x y) eqn:Hin.
  - rewrite andb_false_r. destruct (entry_inside x y Hin) as (c & Hc & Hec). rewrite Hc. cbn [mbind option_bind]. eexists. split; [done|].
    pose proof (proj2 Hentries _ _ Hc) as Hcase.
    destruct Hpre as [[-> Hnone]|(Hcost & (p & Hp & Hep) & Hmin)].
    + rewrite neg_one_lt. destruct Hcase as [->|Hcc].
      * left. split; [done|]. intros p' c' [Hp'| ->%list_elem_of_singleton]%elem_of_app He; [by eapply Hnone|congruence].
      * right. split; [done|]. split; [exists (x, y); split; [apply elem_of_app; right; by left|done]|].
        intros p' c' [Hp'| ->%list_elem_of_singleton]%elem_of_app He Hc'; [|simplify_eq; lia].
        rewrite (Hnone _ _ Hp' He) in Hc'. done.
    + rewrite (costf_not_neg _ Hcost). destruct Hcase as [->|Hcc].
      * rewrite neg_one_lt. right. split; [done|]. split; [exists p; split; [apply elem_of_app; by left|done]|].
        intros p' c' [Hp'| ->%list_elem_of_singleton]%elem_of_app He Hc'; [by eapply Hmin|]. assert (c' = fneg f1) as -> by congruence. done.
      * rewrite (costf_not_neg _ Hcc). unfold fmin. rewrite fltb_val by done. right. destruct (Z.ltb_spec (fval c) (fval cost)).
        -- split; [done|]. split; [exists (x, y); split; [apply elem_of_app; right; by left|done]|].
           intros p' c' [Hp'| ->%list_elem_of_singleton]%elem_of_app He Hc'; [specialize (Hmin _ _ Hp' He Hc'); lia|]. assert (c' = c) as -> by congruence. lia.
        -- split; [done|]. split; [exists p; split; [apply elem_of_app; by left|done]|].
           intros p' c' [Hp'| ->%list_elem_of_singleton]%elem_of_app He Hc'; [by eapply Hmin|]. assert (c' = c) as -> by congruence. lia.
  - destruct inside; [by discriminate Hguard|]. simpl. eexists. split; [done|].
    assert (entry (x, y) = None) as Hno by (unfold entry; cbn [fst snd]; by rewrite Hin).
    destruct Hpre as [[-> Hnone]|(Hcost & (p & Hp & Hep) & Hmin)]; [left|right].
    + split; [done|]. intros p' c' [Hp'| ->%list_elem_of_singleton]%elem_of_app He; [by eapply Hnone|congruence].
    + split; [done|]. split; [exists p; split; [apply elem_of_app; by left|done]|].
      intros p' c' [Hp'| ->%list_elem_of_singleton]%elem_of_app He Hc'; [by eapply Hmin|congruence].
Qed.

(** The eight points around [(xm, ym)]: four at distance [r], four at distance [r2] on the diagonals. *)
Definition ring (xm ym r r2 : Z) : list (Z * Z) :=
  [(xm - r, ym); (xm + r, ym); (xm, ym - r); (xm, ym + r);
   (xm - r2, ym - r2); (xm + r2, ym - r2); (xm - r2, ym + r2); (xm + r2, ym + r2)].

Lemma ring_ok inside xm ym r r2 :
  (inside = true → ∀ p, p ∈ ring xm ym r r2 → IsInPathMap g p.1 p.2 = true) →
  ∃ v, foldM (λ cost p, minCost pf costMap inside cost p.1 p.2) (fneg f1) (ring xm ym r r2) = Some v ∧
    least_cost (ring xm ym r r2) v.
Proof.
  intros Hguard. apply (foldM_ind (λ pre cost, least_cost pre cost)).
  - left. split; [done|]. by intros p c ?%not_elem_of_nil.
  - intros pre [x y] post cost Hl Hpre. cbn [fst snd]. apply minCost_ok; [|done]. intros Hi.
    apply (Hguard Hi (x, y)). rewrite Hl. apply elem_of_app. right. by left.
Qed.

(** The diagonal points are not further out than the others, once the radius is a path square. *)
Lemma diagonal_checked : forallb (λ r, match diagonal_reach r with Some r2 => (0 <=? r2) && (r2 <=? r) | None => false end) (seqZ 1 512) = true.
Proof. vm_compute. reflexivity. Qed.

Lemma diagonal_reach_ok r : 1 <= r <= 512 → ∃ r2, diagonal_reach r = Some r2 ∧ 0 <= r2 <= r.
Proof.
  intros Hr. assert (In r (seqZ 1 512)) as Hin by (apply list_elem_of_In, elem_of_seqZ; lia).
  pose proof (proj1 (forallb_forall _ _) diagonal_checked r Hin) as H. cbv beta in H.
  destruct (diagonal_reach r) as [r2|]; [exists r2; split; [done|]; lia|]. discriminate H.
Qed.

(** The cost at a position is the least one around it.  For a cost map of the full size and a radius of at least
    one path square, GetCostAt returns the least cost of those of the eight points around the position's cell that lie
    on the map and were reached, and -1 exactly when none was, whether or not the whole disc lies inside the map. *)
Theorem GetCostAt_least endPos radius xm ym :
  PathGraph.squareSize g ≠ 0 → Pos2PathXY g endPos = Some (xm, ym) → 1 <= radius ÷ PathGraph.squareSize g <= 512 →
  ∃ r2 v, diagonal_reach (radius ÷ PathGraph.squareSize g) = Some r2 ∧
    GetCostAt pf costMap endPos radius = Some v ∧ least_cost (ring xm ym (radius ÷ PathGraph.squareSize g) r2) v.
Proof.
  intros Hsq Hpos Hr. set (r := radius ÷ PathGraph.squareSize g) in *. destruct (diagonal_reach_ok r Hr) as (r2 & Hr2 & Hb).
  unfold GetCostAt. rewrite idiv_ok by done. fold r. cbn [mbind option_bind]. rewrite Hpos. cbn [mbind option_bind]. rewrite Hr2. cbn [mbind option_bind].
  destruct (ring_ok (IsInPathMap_radius g xm ym r) xm ym r r2) as (v & Hv & Hl).
  - unfold IsInPathMap_radius, IsInPathMap, ring. intros Hin p Hp. rewrite !elem_of_cons, elem_of_nil in Hp.
    destruct_or! Hp; subst; cbn [fst snd]; try done; lia.
  - exists r2, v. split; [done|]. split; [exact Hv|done].
Qed.
End cost_map.

(** Below one square the diagonal points are one cell out while the test of the border looks at the cell
    itself: in the first cell of the map the points read are before the cost map. *)
Lemma GetCostAt_corner_undefined pf costMap endPos radius :
  0 < PathGraph.squareSize (graph pf) → 0 <= radius < PathGraph.squareSize (graph pf) →
  1 <= pathMapXSize (graph pf) → 1 <= pathMapYSize (graph pf) → Pos2PathXY (graph pf) endPos = Some (0, 0) →
  GetCostAt pf costMap endPos radius = None.
Proof.
  intros Hsq Hr Hx Hy Hpos. unfold GetCostAt. rewrite idiv_ok by lia. cbn [mbind option_bind].
  rewrite Hpos, Z.quot_small by done. cbn [mbind option_bind]. change (diagonal_reach 0) with (Some 1). cbn [mbind option_bind].
  assert (IsInPathMap_radius (graph pf) 0 0 0 = true) as -> by (unfold IsInPathMap_radius; lia).
  unfold minCost. cbn [foldM fst snd negb andb].
  assert (costMap.[PathXY2PathIndex (graph pf) (0 - 1) (0 - 1)] = None) as Hnone.
  { unfold zget. rewrite decide_False; [done|]. unfold PathXY2PathIndex. lia. }
  destruct (costMap.[PathXY2PathIndex (graph pf) (0 - 0) 0]); [|done]. cbn [mbind option_bind].
  destruct (costMap.[PathXY2PathIndex (graph pf) (0 + 0) 0]); [|done]. cbn [mbind option_bind].
  destruct (costMap.[PathXY2PathIndex (graph pf) 0 (0 - 0)]); [|done]. cbn [mbind option_bind].
  destruct (costMap.[PathXY2PathIndex (graph pf) 0 (0 + 0)]); [|done]. cbn [mbind option_bind].
  by rewrite Hnone.
Qed.

(** ** Witnesses *)

Definition line_example : CQueryLineMap := mkLine (mkQuery 0 LINE NONE AirMoves (Data0, AirL) MoveAir ThreatTwice Data0) 4 128.
(** One cell, in the middle of the map, is dangerous. *)
Definition line_threat : list float := replicate 5 f0 ++ [f1] ++ replicate 10 f0.
Definition corner : AIFloat3 := F3 (f_of_Z 64) f0 (f_of_Z 64).
Definition far_corner : AIFloat3 := F3 (f_of_Z 450) f0 (f_of_Z 450).

Lemma IsSafeLine_ideal_witness :
  IsSafeLine line_example (example_moves true) line_threat corner far_corner = Some false ∧
  ¬ Forall (safe_at line_example (example_moves true) line_threat) (line_cells 0 0 3 3).
Proof.
  destruct (IsSafeLine_ideal line_example 4 (example_moves true) line_threat) with (startPos := corner) (endPos := far_corner)
    as (x0 & y0 & x1 & y1 & b & H0 & H1 & H2 & H3 & Hs & Hiff).
  - vm_compute. split; [reflexivity|discriminate].
  - vm_compute. split; reflexivity.
  - vm_compute. split; reflexivity.
  - reflexivity.
  - reflexivity.
  - vm_compute. repeat split; discriminate.
  - vm_compute. repeat split; discriminate.
  - vm_compute in H0, H1, H2, H3. injection H0 as <-. injection H1 as <-. injection H2 as <-. injection H3 as <-.
    assert (b = false) as -> by (vm_compute in Hs; congruence). split; [exact Hs|]. intros Hall. discriminate (proj2 Hiff Hall).
Defined.

(** Costs grow with the distance from a corner; the last row was not reached. *)
Definition cost_example : list float := (f_of_Z <$> seqZ 1 12) ++ replicate 4 (fneg f1).

Lemma cost_example_ok : entries_ok example_finder cost_example.
Proof.
  split; [reflexivity|]. intros i c Hi. pose proof (zget_Some_bound _ _ _ Hi) as Hb. change (zlen cost_example) with 16 in Hb.
  revert c Hi. apply (range_check (λ i, ∀ c, cost_example.[i] = Some c → c = fneg f1 ∨ costf c = true)
    (λ i, match cost_example.[i] with Some c => feqb c (fneg f1) || costf c | None => true end) 16); [|by vm_compute|done].
  intros p Hp c Hc. rewrite Hc in Hp. apply orb_true_iff in Hp as [Hp|Hp]; [left|by right].
  assert (c ∈ cost_example) as Hin by (unfold zget in Hc; case_decide; [|done]; by apply list_elem_of_lookup_2 in Hc).
  repeat (apply elem_of_cons in Hin as [->|Hin]; [first [reflexivity|vm_compute in Hp; discriminate]|]). by apply not_elem_of_nil in Hin.
Qed.

Lemma GetCostAt_least_witness :
  GetCostAt example_finder cost_example far_corner 128 = Some (f_of_Z 11) ∧
  least_cost example_finder cost_example (ring 3 3 1 1) (f_of_Z 11).
Proof.
  destruct (GetCostAt_least example_finder cost_example cost_example_ok far_corner 128 3 3) as (r2 & v & Hr2 & Hv & Hl).
  - vm_compute. discriminate.
  - vm_compute. reflexivity.
  - vm_compute. split; discriminate.
  - assert (r2 = 1) as -> by (vm_compute in Hr2; congruence). assert (v = f_of_Z 11) as -> by (vm_compute in Hv; vm_compute; congruence).
    split; [exact Hv|exact Hl].
Defined.
