(* ===== verification/ActionList.v ===== *)
(** * ActionList: the actions of a unit

    Models [src/src/circuit/util/Action.*], [util/ActionList.*], the ends of the actions in
    [unit/action/] and the small operations of [unit/CircuitUnit.*].  What an action's own
    [Update] does (orders to the engine) is the argument [act] of the list's [Update]: a
    function on the flags of the action; the loop around it is the source's. *)

From S2P Require Import Prelude Float32 EnemyUnit.

Open Scope circuit_scope.

(** ** IAction *)

Inductive AState : Type := A_NONE | A_WAIT | A_ACTIVE | A_FINISH | A_HALT.
#[export] Instance AState_eq_dec : EqDecision AState.
Proof. solve_decision. Defined.

(** The classes of actions, told apart by their [OnEnd]: travelling ([MoveAction], [FightAction],
    [JumpAction]), waiting, and the others ([DGunAction], [SupportAction], [IdleAction]). *)
Inductive AClass : Type := TRAVEL | WAITING | DGUN | SUPPORTING.
#[export] Instance AClass_eq_dec : EqDecision AClass.
Proof. solve_decision. Defined.

(** [a_addr] is the object's address: pointers to actions are addresses. *)
Record IAction : Type := MkAction {
  a_addr : Z;
  a_class : AClass;
  a_isBlocking : bool;
  a_state : AState
}.
Definition set_state (s : AState) (a : IAction) : IAction := MkAction (a_addr a) (a_class a) (a_isBlocking a) s.

Definition IsBlocking (a : IAction) : bool := a_isBlocking a.
Definition StateWait (a : IAction) : IAction := set_state A_WAIT a.
Definition StateActivate (a : IAction) : IAction := set_state A_ACTIVE a.
Definition StateFinish (a : IAction) : IAction := set_state A_FINISH a.
Definition IsActive (a : IAction) : bool := bool_decide (a_state a = A_ACTIVE).
Definition IsFinishing (a : IAction) : bool := bool_decide (a_state a = A_FINISH).
(** [state >= State::FINISH] *)
Definition IsFinished (a : IAction) : bool := match a_state a with A_FINISH | A_HALT => true | _ => false end.

Definition new_IAction (addr : Z) (c : AClass) : IAction :=
  MkAction addr c (bool_decide (c = SUPPORTING)) A_ACTIVE.

(** [OnEnd]: [IAction] halts the action; [ITravelAction] does the same and tells the task that the
    unit has arrived (the second component); [CWaitAction] overrides it with an empty body. *)
Definition OnEnd (a : IAction) : IAction * bool :=
  match a_class a with
  | TRAVEL => (set_state A_HALT a, true)
  | WAITING => (a, false)
  | DGUN | SUPPORTING => (set_state A_HALT a, false)
  end.

(** ** CActionList *)

Record CActionList : Type := MkActionList {
  actions : list IAction;
  blocker : option Z
}.

Definition new_CActionList : CActionList := MkActionList [] None.
Definition PushFront (a : IAction) (l : CActionList) : CActionList := MkActionList (a :: actions l) (blocker l).
Definition PushBack (a : IAction) (l : CActionList) : CActionList := MkActionList (actions l ++ [a]) (blocker l).
Definition IsEmpty (l : CActionList) : bool := bool_decide (actions l = []).
(** [utils::free_clear(actions)]: the actions are deleted. *)
Definition Clear (l : CActionList) : CActionList := MkActionList [] (blocker l).

Section update.
(** What the [Update] of an action does to the action. *)
Context (act : IAction → IAction).

(** One round of the loop: [i] is the iterator, [n] counts the arrivals reported to the task.  The
    commented out [Remove] leaves a finished action in the list, so the round that ends an action
    does not move the iterator. *)
Fixpoint update_loop (fuel : nat) (i : nat) (l : list IAction) (n : nat) : option (CActionList * nat) :=
  match fuel with
  | O => None
  | S fuel =>
      match l !! i with
      | None => Some (MkActionList l None, n)
      | Some action =>
          let action := if IsActive action then act action else action in
          if IsFinishing action
          then
            let '(action, arrived) := OnEnd action in
            update_loop fuel i (<[i := action]> l) (if arrived : bool then S n else n)
          else if IsBlocking action
          then Some (MkActionList (<[i := action]> l) (Some (a_addr action)), n)
          else update_loop fuel (S i) (<[i := action]> l) n
      end
  end.

(** Two rounds for every action and one for the end. *)
Definition Update (l : CActionList) : option (CActionList * nat) :=
  update_loop (2 * length (actions l) + 1) 0 (actions l) 0.

(** What happens to one action, and whether the list stops at it. *)
Definition worked (a : IAction) : IAction := if IsActive a then act a else a.
Definition ended (a : IAction) : IAction := if IsFinishing (worked a) then (OnEnd (worked a)).1 else worked a.
Definition arrivals (l : list IAction) : nat :=
  length (filter (λ a, IsFinishing (worked a) = true ∧ a_class (worked a) = TRAVEL) l).

(** The list as a whole: every action up to the first one that blocks. *)
Fixpoint run_list (l : list IAction) : list IAction * option Z * list IAction :=
  match l with
  | [] => ([], None, [])
  | a :: l =>
      if IsBlocking (ended a) then (ended a :: l, Some (a_addr (ended a)), [a])
      else let '(l', b, done) := run_list l in (ended a :: l', b, a :: done)
  end.
End update.

(** [IAction]'s protocol: a finished action is ended for good.  [CWaitAction]s break it. *)
Definition no_wait (act : IAction → IAction) (l : list IAction) : Prop :=
  ∀ a, a ∈ l → a_class (worked act a) = WAITING → IsFinishing (worked act a) = false.

(** ** CCircuitUnit: flags *)

(** [int] converted to [bool]: the type of [execFrame]. *)
Definition bool_of_int (z : Z) : bool := negb (z =? 0).
Definition int_of_bool (b : bool) : Z := if b then 1 else 0.

Definition TASK_RETRIES : Z := 10.

Record SFlags : Type := MkFlags {
  moveFails : Z;
  failFrame : Z;
  execFrame : bool
}.
Definition new_SFlags : SFlags := MkFlags 0 (-1) (bool_of_int (-1)).

(** [ForceUpdate] *)
Definition ForceUpdate (frame : Z) (u : SFlags) : SFlags := MkFlags (moveFails u) (failFrame u) (bool_of_int frame).

(** [IsForceUpdate]: the answer and the new flags. *)
Definition IsForceUpdate (frame : Z) (u : SFlags) : bool * SFlags :=
  if bool_decide (int_of_bool (execFrame u) > 0)
  then if bool_decide (int_of_bool (execFrame u) <= frame)
       then (true, MkFlags (moveFails u) (failFrame u) (bool_of_int (-1)))
       else (false, u)
  else (false, u).

(** [IsMoveFailed] *)
Definition IsMoveFailed `{E : Engine} (frame : Z) (u : SFlags) : bool * SFlags :=
  let fails := if bool_decide (frame - failFrame u >= FRAMES_PER_SEC * 3) then 0 else moveFails u in
  (bool_decide (fails + 1 > TASK_RETRIES * 2), MkFlags (fails + 1) frame (execFrame u)).

(** Requests ([ForceUpdate]) and questions ([IsForceUpdate]), and the answers. *)
Inductive force_op : Type := Request (frame : Z) | Ask (frame : Z).
Definition op_frame (op : force_op) : Z := match op with Request f | Ask f => f end.
Fixpoint force_answers (ops : list force_op) (u : SFlags) : list bool :=
  match ops with
  | [] => []
  | Request f :: ops => force_answers ops (ForceUpdate f u)
  | Ask f :: ops => let '(b, u) := IsForceUpdate f u in b :: force_answers ops u
  end.

(** A run of failed moves, one at each of the [frames]: the answers. *)
Fixpoint move_fails `{E : Engine} (frames : list Z) (u : SFlags) : list bool * SFlags :=
  match frames with
  | [] => ([], u)
  | f :: frames => let '(b, u) := IsMoveFailed f u in let '(bs, u) := move_fails frames u in (b :: bs, u)
  end.

(** ** Theorems *)

Section update_theory.
Context (act : IAction → IAction).

Lemma OnEnd_settles a : a_class a ≠ WAITING → IsFinishing (OnEnd a).1 = false ∧ IsActive (OnEnd a).1 = false ∧ IsBlocking (OnEnd a).1 = IsBlocking a.
Proof. unfold OnEnd. by destruct (a_class a). Qed.

Lemma settled_again a : IsActive a = false → IsFinishing a = false → worked act a = a ∧ ended act a = a.
Proof. unfold ended, worked. intros -> ->. done. Qed.

(** From the iterator on, the loop does what [run_list] does to the rest of the list. *)
Lemma blocker_loop_ok l pre n fuel :
  no_wait act l → (2 * length l + 1 <= fuel)%nat →
  update_loop act fuel (length pre) (pre ++ l) n =
    let '(l', b, done) := run_list act l in Some (MkActionList (pre ++ l') b, (n + arrivals act done)%nat).
Proof.
  revert pre n fuel. induction l as [|a l IH]; intros pre n fuel Hw Hf.
  - destruct fuel as [|fuel]; [simpl in Hf; lia|]. simpl. rewrite app_nil_r, lookup_ge_None_2 by lia. by rewrite Nat.add_0_r.
  - assert (no_wait act l) as Hwl by (intros b Hb; apply Hw; by right).
    assert (∀ b m k, (2 * length l + 1 <= k)%nat → update_loop act k (S (length pre)) (pre ++ b :: l) m =
      let '(l', bl, done) := run_list act l in Some (MkActionList (pre ++ b :: l') bl, (m + arrivals act done)%nat)) as Hnext.
    { intros b m k Hk. pose proof (IH (pre ++ [b]) m k Hwl Hk) as HI. rewrite length_app, Nat.add_comm, <-app_assoc in HI. simpl in HI.
      rewrite HI. destruct (run_list act l) as [[l' bl] dn]. by rewrite <-app_assoc. }
    assert (∀ b, <[length pre := b]> (pre ++ a :: l) = pre ++ b :: l) as Hins.
    { intros b. rewrite insert_app_r_alt by lia. by rewrite Nat.sub_diag. }
    destruct fuel as [|fuel]; [simpl in Hf; lia|]. cbn [update_loop]. rewrite list_lookup_middle by done. fold (worked act a).
    rewrite !Hins. specialize (Hw a ltac:(left)). simpl length in Hf.
    destruct (IsFinishing (worked act a)) eqn:Hfin.
    + assert (a_class (worked act a) ≠ WAITING) as Hc by (intros Hc; specialize (Hw Hc); congruence).
      destruct (OnEnd_settles _ Hc) as (Hf1 & Ha1 & Hb1). destruct (OnEnd (worked act a)) as [a1 ar] eqn:Hoe. simpl in Hf1, Ha1, Hb1.
      cbv iota beta. rewrite Hins. destruct fuel as [|fuel]; [lia|]. cbn [update_loop]. rewrite list_lookup_middle by done. rewrite Ha1, Hf1.
      assert (∀ b, <[length pre := b]> (pre ++ a1 :: l) = pre ++ b :: l) as Hins1.
      { intros b. rewrite insert_app_r_alt by lia. by rewrite Nat.sub_diag. }
      rewrite !Hins1.
      cbn [run_list]. unfold ended. rewrite Hfin, Hoe. simpl fst.
      assert (ar = bool_decide (a_class (worked act a) = TRAVEL)) as ->.
      { unfold OnEnd in Hoe. destruct (a_class (worked act a)); by injection Hoe as <- <-. }
      assert (∀ dn, arrivals act (a :: dn) = ((if bool_decide (a_class (worked act a) = TRAVEL) then 1 else 0) + arrivals act dn)%nat) as Harr.
      { intros dn. unfold arrivals. case_bool_decide as Hcl; [rewrite filter_cons_True by done; done|].
        rewrite filter_cons_False; [done|]. by intros [_ ?]. }
      destruct (IsBlocking a1).
      * rewrite Harr. unfold arrivals at 1. simpl. do 2 f_equal. case_bool_decide; lia.
      * rewrite Hnext by lia. destruct (run_list act l) as [[l' bl] dn]. rewrite Harr. do 2 f_equal. case_bool_decide; lia.
    + assert (∀ dn, arrivals act (a :: dn) = arrivals act dn) as Harr.
      { intros dn. unfold arrivals. rewrite filter_cons_False; [done|]. intros [Hx _]. by rewrite Hfin in Hx. }
      cbn [run_list]. unfold ended. rewrite Hfin. destruct (IsBlocking (worked act a)).
      * rewrite Harr. unfold arrivals. simpl. by rewrite Nat.add_0_r.
      * rewrite Hnext by lia. destruct (run_list act l) as [[l' bl] dn]. by rewrite Harr.
Qed.
End update_theory.

(** The update of a unit's actions always returns, with the actions in order up to the first one that blocks: each of them is updated if it is active and ended for good if it has finished, the blocking one is remembered and nothing behind it is touched; the task is told of an arrival once for every travelling action that has just finished. *)
Theorem Update_to_blocker act l l' b done :
  no_wait act (actions l) → run_list act (actions l) = (l', b, done) →
  Update act l = Some (MkActionList l' b, arrivals act done) ∧
  (∃ rest, actions l = done ++ rest ∧ l' = (ended act <$> done) ++ rest ∧ (b = None → rest = [])) ∧
  (∀ a, a ∈ done → b = Some (a_addr (ended act a)) ∧ IsBlocking (ended act a) = true ∨ IsBlocking (ended act a) = false).
Proof.
  intros Hw Hr. split.
  - unfold Update. pose proof (blocker_loop_ok act (actions l) [] 0 (2 * length (actions l) + 1) Hw ltac:(lia)) as H.
    simpl in H. rewrite Hr in H. exact H.
  - clear Hw. revert l' b done Hr. induction (actions l) as [|a r IH]; intros l' b dn; simpl.
    + intros [= <- <- <-]. split; [by exists []|]. intros a Ha. by apply not_elem_of_nil in Ha.
    + destruct (IsBlocking (ended act a)) eqn:Hb.
      * intros [= <- <- <-]. split; [by exists r|]. intros a' Ha%list_elem_of_singleton. subst. by left.
      * destruct (run_list act r) as [[l1 b1] d1] eqn:Hr1. intros [= <- <- <-].
        destruct (IH _ _ _ eq_refl) as [(rest & -> & -> & Hn) Hall]. split; [by exists rest|].
        intros a' [->|Ha]%elem_of_cons; [by right|by apply Hall].
Qed.

Example travel_list : CActionList :=
  MkActionList [MkAction 1 DGUN false A_ACTIVE; MkAction 2 TRAVEL false A_ACTIVE; MkAction 3 SUPPORTING true A_ACTIVE; MkAction 4 TRAVEL false A_ACTIVE] None.
(** Every travelling action arrives. *)
Example arrive (a : IAction) : IAction := match a_class a with TRAVEL => StateFinish a | _ => a end.

Lemma Update_to_blocker_witness :
  Update arrive travel_list =
    Some (MkActionList [MkAction 1 DGUN false A_ACTIVE; MkAction 2 TRAVEL false A_HALT; MkAction 3 SUPPORTING true A_ACTIVE; MkAction 4 TRAVEL false A_ACTIVE] (Some 3), 1%nat).
Proof.
  apply (Update_to_blocker arrive travel_list _ _ (take 3 (actions travel_list))); [|done].
  intros a Ha. repeat (apply elem_of_cons in Ha as [->|Ha]; [done|]). by apply not_elem_of_nil in Ha.
Defined.

(** A [CWaitAction] that finishes is never ended: the update of its list does not return. *)
Example finished_wait_hangs act fuel b addr l n : update_loop act fuel 0 (MkAction addr WAITING b A_FINISH :: l) n = None.
Proof. induction fuel as [|fuel IH]; [done|]. exact IH. Qed.

(** [Clear] deletes the actions and keeps the pointer to the blocking one. *)
Example Clear_keeps_blocker l : blocker (Clear l) = blocker l ∧ actions (Clear l) = [].
Proof. done. Qed.

(** ** The flags of a unit *)

(** The request to update a unit out of turn is stored in a [bool], where its initial value -1 and its reset value -1 both read as set: at any positive frame every unit asks for an update, whatever was requested or answered before. *)
Theorem IsForceUpdate_always ops :
  Forall (λ op, 0 < op_frame op) ops → Forall (eq true) (force_answers ops new_SFlags).
Proof.
  assert (execFrame new_SFlags = true) as Hu by done. revert Hu. generalize new_SFlags as u. intros u Hu Hops.
  revert u Hu. induction Hops as [|[r|f] ops Hf Hops IH]; intros u Hu; simpl in *.
  - constructor.
  - apply IH. simpl. unfold bool_of_int. destruct (Z.eqb_spec r 0); [lia|done].
  - unfold IsForceUpdate. rewrite Hu. simpl. rewrite bool_decide_true by lia. constructor; [done|]. by apply IH.
Qed.

Lemma IsForceUpdate_always_witness : Forall (eq true) (force_answers [Ask 1; Ask 2; Request 9; Ask 3; Ask 4] new_SFlags).
Proof. apply IsForceUpdate_always. repeat (constructor; [simpl; lia|]). constructor. Defined.

(** Moves that keep failing within three seconds of each other are given up at the twenty-first; a
    pause of three seconds starts the count again. *)
Example moves_given_up :
  (move_fails (E := example_engine) (replicate 21 7) new_SFlags).1 = replicate 20 false ++ [true] ∧
  (move_fails (E := example_engine) (replicate 20 7 ++ [97; 97]) new_SFlags).1 = replicate 22 false.
Proof. vm_compute. done. Qed.
