(* ===== verification/TaskData.v ===== *)
(** * TaskData: units, tasks and managers

    The state that [src/src/circuit/task/], [module/MilitaryManager.*] and the part of
    [module/BuilderManager.*] that repairs retreating units share: the objects [CCircuitUnit],
    [IUnitTask] with its subclasses, and the two managers, in a [World] where a pointer is an
    address and following a pointer to a deleted object is [None]. *)

From stdpp Require Import sorting.
From S2P Require Import Prelude Float32 EnemyUnit ActionList.

Open Scope circuit_scope.

(** [operator new]: any address that is not in use. *)
Class Heap : Type := {
  alloc : gset Z → Z;
  alloc_fresh : ∀ X, alloc X ∉ X
}.
Definition example_heap : Heap := {| alloc := fresh; alloc_fresh := is_fresh |}.

(** [std::set] of pointers is walked in the order of the addresses. *)
Definition in_order (X : gset Z) : list Z := merge_sort Z.le (elements X).

(** ** Units *)

(** What the tasks read of a unit's definition. *)
Record SUnitDef : Type := MkUnitDef {
  d_cdef : CCircuitDef;
  d_attr : Z;
  d_respRole : Z;
  d_losRadius : float;
  d_jumpRange : float;
  d_isPlane : bool;
  d_isLander : bool;
  d_isFloater : bool;
  d_isAbleToJump : bool;
  d_isAbleToCloak : bool;
  d_isOpenFire : bool;
  d_isAbleToRepair : bool
}.
Definition has_bit (z mask : Z) : bool := negb (Z.land z mask =? 0).
Definition IsRoleScout (d : SUnitDef) : bool := has_bit (role (d_cdef d)) 0x00000002.
Definition IsRoleSupport (d : SUnitDef) : bool := has_bit (role (d_cdef d)) 0x00000800.
Definition IsRoleMine (d : SUnitDef) : bool := has_bit (role (d_cdef d)) 0x00001000.
Definition IsAttrBoost (d : SUnitDef) : bool := has_bit (d_attr d) 0x00000002.
Definition IsAttrNoJump (d : SUnitDef) : bool := has_bit (d_attr d) 0x00000004.
Definition IsAttrSiege (d : SUnitDef) : bool := has_bit (d_attr d) 0x00000020.
Definition IsAttrRetFight (d : SUnitDef) : bool := has_bit (d_attr d) 0x00000080.
Definition IsRespRoleAny (d : SUnitDef) (value : Z) : bool := has_bit (d_respRole d) value.

Inductive ManagerId : Type := Military | Builder.
#[export] Instance ManagerId_eq_dec : EqDecision ManagerId.
Proof. solve_decision. Defined.

Record CCircuitUnit : Type := MkUnit {
  u_id : Z;                       (** the engine's id *)
  u_def : SUnitDef;
  u_task : option Z;
  u_taskFrame : Z;
  u_manager : option ManagerId;
  u_area : option float;          (** the area pointer, as the [percentOfMap] behind it *)
  u_hasDGun : bool;
  u_hasShield : bool;
  u_buildSpeed : float;
  u_acts : CActionList;
  u_dgunAct : option Z;
  u_travelAct : option Z;
  u_flags : SFlags;
  u_isDead : bool;
  u_isMorphing : bool;
  u_target : option Z;            (** the enemy it was last sent after, and the cell of the map *)
  u_targetTile : Z
}.

(** [CCircuitUnit::CCircuitUnit]; what the engine says of the unit is given. *)
Definition new_CCircuitUnit (id : Z) (d : SUnitDef) (area : option float) (hasDGun hasShield : bool) (buildSpeed : float) : CCircuitUnit :=
  MkUnit id d None (-1) None area hasDGun hasShield buildSpeed new_CActionList None None new_SFlags false false None (-1).

Definition unit_with_task (t : option Z) (frame : Z) (U : CCircuitUnit) : CCircuitUnit :=
  MkUnit (u_id U) (u_def U) t frame (u_manager U) (u_area U) (u_hasDGun U) (u_hasShield U) (u_buildSpeed U)
         (u_acts U) (u_dgunAct U) (u_travelAct U) (u_flags U) (u_isDead U) (u_isMorphing U) (u_target U) (u_targetTile U).
Definition unit_with_acts (l : CActionList) (dgun travel : option Z) (U : CCircuitUnit) : CCircuitUnit :=
  MkUnit (u_id U) (u_def U) (u_task U) (u_taskFrame U) (u_manager U) (u_area U) (u_hasDGun U) (u_hasShield U) (u_buildSpeed U)
         l dgun travel (u_flags U) (u_isDead U) (u_isMorphing U) (u_target U) (u_targetTile U).
Definition SetManager (m : ManagerId) (U : CCircuitUnit) : CCircuitUnit :=
  MkUnit (u_id U) (u_def U) (u_task U) (u_taskFrame U) (Some m) (u_area U) (u_hasDGun U) (u_hasShield U) (u_buildSpeed U)
         (u_acts U) (u_dgunAct U) (u_travelAct U) (u_flags U) (u_isDead U) (u_isMorphing U) (u_target U) (u_targetTile U).
Definition unit_with_flags (f : SFlags) (dead : bool) (U : CCircuitUnit) : CCircuitUnit :=
  MkUnit (u_id U) (u_def U) (u_task U) (u_taskFrame U) (u_manager U) (u_area U) (u_hasDGun U) (u_hasShield U) (u_buildSpeed U)
         (u_acts U) (u_dgunAct U) (u_travelAct U) f dead (u_isMorphing U) (u_target U) (u_targetTile U).
(** [SetTaskFrame]; [Attack] with an enemy and a cell remembers them. *)
Definition SetTaskFrame (frame : Z) (U : CCircuitUnit) : CCircuitUnit := unit_with_task (u_task U) frame U.
Definition unit_with_target (e : option Z) (tile : Z) (U : CCircuitUnit) : CCircuitUnit :=
  MkUnit (u_id U) (u_def U) (u_task U) (u_taskFrame U) (u_manager U) (u_area U) (u_hasDGun U) (u_hasShield U) (u_buildSpeed U)
         (u_acts U) (u_dgunAct U) (u_travelAct U) (u_flags U) (u_isDead U) (u_isMorphing U) e tile.
(** [CCircuitUnit::Dead] *)
Definition unit_Dead (U : CCircuitUnit) : CCircuitUnit := unit_with_flags (u_flags U) true U.

(** [CActionList::Clear] on a unit: the pointers [dgunAct], [travelAct] are left as they are. *)
Definition unit_Clear (U : CCircuitUnit) : CCircuitUnit := unit_with_acts (Clear (u_acts U)) (u_dgunAct U) (u_travelAct U) U.
(** [ClearAct] *)
Definition ClearAct (U : CCircuitUnit) : CCircuitUnit := unit_with_acts (Clear (u_acts U)) None None U.

Section actions.
Context {H : Heap}.
Definition act_addrs (U : CCircuitUnit) : gset Z := list_to_set (a_addr <$> actions (u_acts U)).
(** [PushDGunAct(new CDGunAction)], [PushBack(new CSupportAction)] *)
Definition PushDGunAct (U : CCircuitUnit) : CCircuitUnit :=
  let a := alloc (act_addrs U) in
  unit_with_acts (PushBack (new_IAction a DGUN) (u_acts U)) (Some a) (u_travelAct U) U.
Definition PushSupportAct (U : CCircuitUnit) : CCircuitUnit :=
  let a := alloc (act_addrs U) in
  unit_with_acts (PushBack (new_IAction a SUPPORTING) (u_acts U)) (u_dgunAct U) (u_travelAct U) U.
(** [PushTravelAct] of a new [CMoveAction], [CFightAction] or [CJumpAction]; [wait]: [StateWait] after it. *)
Definition PushTravelAct (wait : bool) (U : CCircuitUnit) : CCircuitUnit :=
  let a := alloc (act_addrs U) in
  let action := new_IAction a TRAVEL in
  unit_with_acts (PushBack (if wait then StateWait action else action) (u_acts U)) (u_dgunAct U) (Some a) U.
(** An operation on the action a pointer leads to: [None] for a null or dangling pointer. *)
Definition on_action (p : option Z) (f : IAction → IAction) (U : CCircuitUnit) : option CCircuitUnit :=
  a ← p;
  if bool_decide (a ∈ act_addrs U)
  then Some (unit_with_acts (MkActionList ((λ x, if bool_decide (a_addr x = a) then f x else x) <$> actions (u_acts U)) (blocker (u_acts U)))
                            (u_dgunAct U) (u_travelAct U) U)
  else None.
Definition get_action (p : option Z) (U : CCircuitUnit) : option IAction :=
  a ← p; x ← list_find (λ x, a_addr x = a) (actions (u_acts U)); Some x.2.
End actions.

(** ** Tasks *)

Inductive FightType : Type :=
| RALLY | GUARD | DEFEND | SCOUT | RAID | ATTACK | BOMB | MELEE | ARTY | AA | AH | SUPPORT | SUPER.
#[export] Instance FightType_eq_dec : EqDecision FightType.
Proof. solve_decision. Defined.
(** [static_cast<FT>] *)
Definition FT (f : FightType) : Z :=
  match f with
  | RALLY => 0 | GUARD => 1 | DEFEND => 2 | SCOUT => 3 | RAID => 4 | ATTACK => 5 | BOMB => 6 | MELEE => 7
  | ARTY => 8 | AA => 9 | AH => 10 | SUPPORT => 11 | SUPER => 12
  end.
Definition FT_SIZE : Z := 13.

Inductive TState : Type := ROAM | ENGAGE | DISENGAGE | REGROUP.
#[export] Instance TState_eq_dec : EqDecision TState.
Proof. solve_decision. Defined.

(** [ISquadTask]'s fields *)
Record Squad : Type := MkSquad {
  lowestRange : float;
  highestRange : float;
  lowestSpeed : float;
  highestSpeed : float;
  leader : option Z
}.
(** What a query of the path finder answers: [PathInfo]'s positions, and how many cells the path has. *)
Record Route : Type := MkRoute { posPath : list AIFloat3; path_size : Z }.
Definition no_route : Route := MkRoute [] 0.
(** Where a fighter task is about to go: [IFighterTask]'s [position] and [attackFrame], [ISquadTask]'s
    [groupPos], [prevGroupPos], [groupFrame] and [pPath], [CSuperTask]'s [targetFrame] and [targetPos]. *)
Record Plan : Type := MkPlan {
  position : AIFloat3;
  attackFrame : Z;
  groupPos : AIFloat3;
  prevGroupPos : AIFloat3;
  groupFrame : Z;
  pPath : Route;
  targetFrame : Z;
  targetPos : AIFloat3
}.
(** [-RgtVector]: no position. *)
Definition no_pos : AIFloat3 := F3 (fneg f1) (fneg f0) (fneg f0).
Definition new_Plan (pos : AIFloat3) : Plan := MkPlan pos (-1) no_pos no_pos 0 no_route 0 no_pos.
(** [IFighterTask]'s fields; [limit] is [minPower] of [CAttackTask] and [maxPower] of the classes that
    have one, [check] and [promote] are [CDefendTask]'s, [vipId] is [CFGuardTask]'s; [squad] is used by the subclasses of [ISquadTask]. *)
Record Fighter : Type := MkFighter {
  fightType : FightType;
  attackPower : float;
  powerMod : float;
  target : option Z;
  cowards : gset Z;
  shields : gset Z;
  limit : float;
  f_check : FightType;
  promote : FightType;
  vipId : Z;
  squad : Squad;
  plan : Plan
}.
(** [IBuilderTask] and [IRepairTask]: [r_building] is [buildDef != nullptr], [r_next] the iterator
    [unitIt] ([None] for [end()]). *)
Record Repair : Type := MkRepair {
  r_target : option Z;
  r_targetId : Z;
  r_building : bool;
  r_buildPower : float;
  r_traveled : gset Z;
  r_next : option Z
}.
Inductive Kind : Type :=
| NilTask
| PlayerTask
| IdleTask (updateUnits : gset Z) (updateSlice : Z)
| RetreatTask (repairer : option Z)
| RepairTask (r : Repair)
| FighterTask (f : Fighter).

Record IUnitTask : Type := MkTask {
  manager : ManagerId;
  kind : Kind;
  t_units : gset Z;
  pathQueries : gmap Z Z;      (** the unit's query, by its id *)
  t_state : TState;
  lastTouched : Z;
  timeout : Z;
  updCount : Z;
  isDead : bool
}.
Definition with_kind (k : Kind) (T : IUnitTask) : IUnitTask :=
  MkTask (manager T) k (t_units T) (pathQueries T) (t_state T) (lastTouched T) (timeout T) (updCount T) (isDead T).
Definition with_units (X : gset Z) (T : IUnitTask) : IUnitTask :=
  MkTask (manager T) (kind T) X (pathQueries T) (t_state T) (lastTouched T) (timeout T) (updCount T) (isDead T).
Definition with_queries (q : gmap Z Z) (T : IUnitTask) : IUnitTask :=
  MkTask (manager T) (kind T) (t_units T) q (t_state T) (lastTouched T) (timeout T) (updCount T) (isDead T).
Definition with_state (s : TState) (T : IUnitTask) : IUnitTask :=
  MkTask (manager T) (kind T) (t_units T) (pathQueries T) s (lastTouched T) (timeout T) (updCount T) (isDead T).
Definition with_touched (f : Z) (T : IUnitTask) : IUnitTask :=
  MkTask (manager T) (kind T) (t_units T) (pathQueries T) (t_state T) f (timeout T) (updCount T) (isDead T).
Definition with_updCount (n : Z) (T : IUnitTask) : IUnitTask :=
  MkTask (manager T) (kind T) (t_units T) (pathQueries T) (t_state T) (lastTouched T) (timeout T) n (isDead T).
(** [Dead] *)
Definition Dead (T : IUnitTask) : IUnitTask :=
  MkTask (manager T) (kind T) (t_units T) (pathQueries T) (t_state T) (lastTouched T) (timeout T) (updCount T) true.

(** [IUnitTask::IUnitTask] *)
Definition new_IUnitTask (m : ManagerId) (k : Kind) (timeout frame : Z) : IUnitTask :=
  MkTask m k ∅ ∅ ROAM frame timeout 0 false.

Definition fighter_of (T : IUnitTask) : option Fighter := match kind T with FighterTask f => Some f | _ => None end.
Definition leader_of (T : IUnitTask) : option Z := f ← fighter_of T; leader (squad f).
(** The subclasses of [ISquadTask]. *)
Definition is_squad (f : FightType) : bool := match f with DEFEND | RAID | ATTACK | AA | AH => true | _ => false end.

(** What the engine and the other parts answer about a unit or a query. *)
Class TaskEngine : Type := {
  TEAM_SLOWUPDATE_RATE : Z;  (** the engine's constant *)
  IsBeingBuilt : Z → bool;
  QueryReady : Z → bool      (** whether a query is in the state [READY] *)
}.
Definition example_task_engine : TaskEngine :=
  {| TEAM_SLOWUPDATE_RATE := 15; IsBeingBuilt _ := false; QueryReady _ := true |}.

(** [IsQueryReady] *)
Definition IsQueryReady `{TaskEngine} (T : IUnitTask) (unit : Z) : bool :=
  match pathQueries T !! unit with None => true | Some q => QueryReady q end.
(** [IsQueryAlive]: the answer of a path query is used only while its unit still waits for it. *)
Definition IsQueryAlive (T : IUnitTask) (unit id : Z) : bool :=
  negb (isDead T) && bool_decide (pathQueries T !! unit = Some id).

(** ** Managers *)

Record CMilitaryManager : Type := MkMilitary {
  m_nilTask : Z;
  m_idleTask : Z;
  m_playerTask : Z;
  fightTasks : list (gset Z);
  fightUpdates : list Z;
  fightIterator : Z;
  roleInfos : list (float * gset Z);   (** [cost], [units] of each role *)
  army : gset Z;
  armyCost : float;
  guardTasks : gmap Z Z
}.
Record CBuilderManager : Type := MkBuilder {
  b_nilTask : Z;
  b_idleTask : Z;
  b_playerTask : Z;
  b_metalPull : float;
  repairTasks : gset Z;                (** [buildTasks[REPAIR]] *)
  buildTasksCount : Z;
  buildUpdates : list Z;
  buildIterator : Z;
  repairedUnits : gmap Z Z             (** by the engine's id of the unit that is repaired *)
}.

Record World : Type := MkWorld {
  units : gmap Z CCircuitUnit;
  tasks : gmap Z IUnitTask;
  enemies : gmap Z (gset Z);           (** [CEnemyInfo::tasks] *)
  military : CMilitaryManager;
  builder : CBuilderManager;
  lastFrame : Z;
  garbage : gset Z;
  engine : list bool;                  (** whether the next orders to the engine throw *)
  teamUnits : gmap Z Z;                (** [CCircuitAI::teamUnits]: the unit with an engine's id *)
  queryId : Z                          (** the path finder's next query *)
}.
Definition set_units x w := MkWorld x (tasks w) (enemies w) (military w) (builder w) (lastFrame w) (garbage w) (engine w) (teamUnits w) (queryId w).
Definition set_tasks x w := MkWorld (units w) x (enemies w) (military w) (builder w) (lastFrame w) (garbage w) (engine w) (teamUnits w) (queryId w).
Definition set_enemies x w := MkWorld (units w) (tasks w) x (military w) (builder w) (lastFrame w) (garbage w) (engine w) (teamUnits w) (queryId w).
Definition set_military x w := MkWorld (units w) (tasks w) (enemies w) x (builder w) (lastFrame w) (garbage w) (engine w) (teamUnits w) (queryId w).
Definition set_builder x w := MkWorld (units w) (tasks w) (enemies w) (military w) x (lastFrame w) (garbage w) (engine w) (teamUnits w) (queryId w).
Definition set_lastFrame x w := MkWorld (units w) (tasks w) (enemies w) (military w) (builder w) x (garbage w) (engine w) (teamUnits w) (queryId w).
Definition set_teamUnits x w := MkWorld (units w) (tasks w) (enemies w) (military w) (builder w) (lastFrame w) (garbage w) (engine w) x (queryId w).
Definition set_queryId x w := MkWorld (units w) (tasks w) (enemies w) (military w) (builder w) (lastFrame w) (garbage w) (engine w) (teamUnits w) x.
Definition set_garbage x e w := MkWorld (units w) (tasks w) (enemies w) (military w) (builder w) (lastFrame w) x e (teamUnits w) (queryId w).

Definition upd_unit (u : Z) (f : CCircuitUnit → CCircuitUnit) (w : World) : option World :=
  U ← units w !! u; Some (set_units (<[u := f U]> (units w)) w).
Definition upd_task (t : Z) (f : IUnitTask → IUnitTask) (w : World) : option World :=
  T ← tasks w !! t; Some (set_tasks (<[t := f T]> (tasks w)) w).

Definition nilTask (w : World) (m : ManagerId) : Z := match m with Military => m_nilTask (military w) | Builder => b_nilTask (builder w) end.
Definition idleTask (w : World) (m : ManagerId) : Z := match m with Military => m_idleTask (military w) | Builder => b_idleTask (builder w) end.
Definition playerTask (w : World) (m : ManagerId) : Z := match m with Military => m_playerTask (military w) | Builder => b_playerTask (builder w) end.

(** [TRY_UNIT]: the orders between its parentheses, which change nothing the model has; a unit whose
    orders throw is garbage. *)
Definition TRY_UNIT (u : Z) (w : World) : World :=
  match engine w with
  | true :: e => set_garbage ({[u]} ∪ garbage w) e w
  | false :: e => set_garbage (garbage w) e w
  | [] => w
  end.
