(* ===== verification/TaskCore.v ===== *)
(** * TaskCore: assigning units to tasks

    Models [src/src/circuit/task/UnitTask.cpp], [NilTask.cpp], [IdleTask.cpp], [PlayerTask.cpp],
    [RetreatTask.cpp], [task/fighter/FighterTask.cpp], [SquadTask.cpp] and the subclasses'
    [AssignTo], [RemoveAssignee], [task/common/RepairTask.cpp] with the part of
    [task/builder/BuilderTask.cpp] it inherits, [task/TaskManager.cpp] and the [DequeueTask],
    [AbortTask] and [DoneTask] of the two managers.  A virtual call is a [match] on the [kind].
    Orders to the engine have no effect here but the exception [TRY_UNIT] catches; the paths that
    travel actions follow are left out. *)

From S2P Require Import Prelude Float32 EnemyUnit ActionList TaskData.

Open Scope circuit_scope.

Section core.
Context {E : Engine} {H : Heap} {TE : TaskEngine}.

(** ** [CCircuitUnit::SetTask]: the unit must have a manager *)

Definition unit_SetTask (t u : Z) (w : World) : option World :=
  U ← units w !! u;
  _ ← u_manager U;
  upd_unit u (unit_with_task (Some t) (lastFrame w)) w.

(** ** CIdleTask *)

Definition insert_unit (u : Z) (T : IUnitTask) : IUnitTask := with_units ({[u]} ∪ t_units T) T.
Definition Idle_AssignTo (t u : Z) (w : World) : option World :=
  w ← unit_SetTask t u w;
  upd_task t (insert_unit u) w.

Definition erase_idle (u : Z) (T : IUnitTask) : IUnitTask :=
  if bool_decide (u ∈ t_units T)
  then with_kind (match kind T with IdleTask X n => IdleTask (X ∖ {[u]}) n | k => k end) (with_units (t_units T ∖ {[u]}) T)
  else T.
Definition Idle_RemoveAssignee (t u : Z) (w : World) : option World :=
  w ← upd_task t (erase_idle u) w;
  upd_unit u ClearAct w.

(** ** IUnitTask *)

Definition IUnitTask_AssignTo (t u : Z) (w : World) : option World :=
  T ← tasks w !! t;
  w ← upd_task t (with_touched (-1)) w;
  w ← Idle_RemoveAssignee (idleTask w (manager T)) u w;
  w ← unit_SetTask t u w;
  upd_task t (insert_unit u) w.

Definition erase_unit (u : Z) (T : IUnitTask) : IUnitTask :=
  with_units (t_units T ∖ {[u]}) (with_queries (delete u (pathQueries T)) T).
Definition touch_empty (frame : Z) (T : IUnitTask) : IUnitTask :=
  if bool_decide (t_units T = ∅) then with_touched frame T else T.
Definition IUnitTask_RemoveAssignee (t u : Z) (w : World) : option World :=
  T ← tasks w !! t;
  w ← upd_task t (erase_unit u) w;
  w ← upd_unit u unit_Clear w;
  w ← Idle_AssignTo (idleTask w (manager T)) u w;
  upd_task t (touch_empty (lastFrame w)) w.

(** ** IRepairTask and IBuilderTask *)

Definition upd_repair (t : Z) (f : Repair → Repair) (w : World) : option World :=
  T ← tasks w !! t;
  match kind T with
  | RepairTask r => upd_task t (with_kind (RepairTask (f r))) w
  | _ => None
  end.
Definition repair_of (T : IUnitTask) : option Repair := match kind T with RepairTask r => Some r | _ => None end.
Definition with_buildPower (p : float) (r : Repair) : Repair :=
  MkRepair (r_target r) (r_targetId r) (r_building r) p (r_traveled r) (r_next r).
Definition with_next (n : option Z) (r : Repair) : Repair :=
  MkRepair (r_target r) (r_targetId r) (r_building r) (r_buildPower r) (r_traveled r) n.
Definition with_traveled (X : gset Z) (r : Repair) : Repair :=
  MkRepair (r_target r) (r_targetId r) (r_building r) (r_buildPower r) X (r_next r).
Definition with_metalPull (p : float) (b : CBuilderManager) : CBuilderManager :=
  MkBuilder (b_nilTask b) (b_idleTask b) (b_playerTask b) p (repairTasks b) (buildTasksCount b) (buildUpdates b)
            (buildIterator b) (repairedUnits b).
(** [AddMetalPull], [DelMetalPull] of the builder manager *)
Definition add_pull (p : float) (w : World) : World := set_builder (with_metalPull (fadd (b_metalPull (builder w)) p) (builder w)) w.
Definition del_pull (p : float) (w : World) : World := set_builder (with_metalPull (fsub (b_metalPull (builder w)) p) (builder w)) w.

(** [ShowAssignee], [HideAssignee]; [IsIgnorePull] is false for repairs. *)
Definition ShowAssignee (t u : Z) (w : World) : option World :=
  U ← units w !! u; T ← tasks w !! t; r ← repair_of T;
  w ← upd_repair t (λ r, with_buildPower (fadd (r_buildPower r) (u_buildSpeed U)) r) w;
  Some (if r_building r then add_pull (u_buildSpeed U) w else w).
Definition HideAssignee (t u : Z) (w : World) : option World :=
  U ← units w !! u; T ← tasks w !! t; r ← repair_of T;
  w ← upd_repair t (λ r, with_buildPower (fsub (r_buildPower r) (u_buildSpeed U)) r) w;
  Some (if r_building r then del_pull (u_buildSpeed U) w else w).

(** [IBuilderTask::AssignTo] *)
Definition Builder_AssignTo (t u : Z) (w : World) : option World :=
  w ← IUnitTask_AssignTo t u w;
  w ← ShowAssignee t u w;
  U ← units w !! u;
  w ← (if u_hasDGun U then upd_unit u PushDGunAct w else Some w);
  upd_unit u (PushTravelAct true) w.

(** [++it] on a [std::set]. *)
Definition next_after (X : gset Z) (u : Z) : option Z := head (filter (λ v, u < v) (in_order X)).

(** [CRetreatTask::CheckRepairer] dereferences the first unit; the cost query it starts is not part of
    the model, its answer is [ApplyCostMap]. *)
Definition CheckRepairer (t : Z) (w : World) : option World :=
  T ← tasks w !! t; if bool_decide (t_units T = ∅) then None else Some w.

Definition set_repairer (t : Z) (r : option Z) (w : World) : option World :=
  T ← tasks w !! t;
  match kind T with RetreatTask _ => upd_task t (with_kind (RetreatTask r)) w | _ => None end.

(** The retreat task of the unit that the repair task [T] repairs, if there is one.  A friendly unit
    that is not the AI's own has no task. *)
Definition retreat_of_target (T : IUnitTask) (w : World) : option (option (Z * option Z)) :=
  match r_target <$> repair_of T with
  | Some (Some v) =>
      V ← units w !! v;
      match u_task V with
      | None => Some None
      | Some t' =>
          T' ← tasks w !! t';
          Some (match kind T' with RetreatTask r => Some (t', r) | _ => None end)
      end
  | Some None => Some None
  | None => None
  end.

(** [IRepairTask::RemoveAssignee], [IBuilderTask::RemoveAssignee] *)
Definition Repair_RemoveAssignee (t u : Z) (w : World) : option World :=
  T ← tasks w !! t; r ← repair_of T;
  w ← (if bool_decide (u ∈ t_units T ∧ r_next r = Some u)
       then upd_repair t (with_next (next_after (t_units T) u)) w else Some w);
  w ← IUnitTask_RemoveAssignee t u w;
  w ← upd_repair t (λ r, with_traveled (r_traveled r ∖ {[u]}) r) w;
  w ← HideAssignee t u w;
  T ← tasks w !! t;
  x ← retreat_of_target T w;
  match x with
  | Some (t', Some r') =>
      if bool_decide (r' = u)
      then
        w ← set_repairer t' None w;
        if bool_decide (t_units T = ∅) then Some w else CheckRepairer t' w
      else Some w
  | _ => Some w
  end.

(** ** The managers' [DequeueTask] *)

Definition with_fightTasks (l : list (gset Z)) (m : CMilitaryManager) : CMilitaryManager :=
  MkMilitary (m_nilTask m) (m_idleTask m) (m_playerTask m) l (fightUpdates m) (fightIterator m) (roleInfos m)
             (army m) (armyCost m) (guardTasks m).
Definition erase_fight (f : FightType) (t : Z) (m : CMilitaryManager) : option CMilitaryManager :=
  X ← (fightTasks m).[FT f];
  l ← (fightTasks m).[FT f <- X ∖ {[t]}];
  Some (with_fightTasks l m).
Definition insert_fight (f : FightType) (t : Z) (m : CMilitaryManager) : option CMilitaryManager :=
  X ← (fightTasks m).[FT f];
  l ← (fightTasks m).[FT f <- {[t]} ∪ X];
  Some (with_fightTasks l m).
Definition with_repairs (X : gset Z) (n : Z) (l : list Z) (ru : gmap Z Z) (b : CBuilderManager) : CBuilderManager :=
  MkBuilder (b_nilTask b) (b_idleTask b) (b_playerTask b) (b_metalPull b) X n l (buildIterator b) ru.

(** The part of [DequeueTask] that depends on the manager. *)
Definition forget_task (t : Z) (T : IUnitTask) (w : World) : option World :=
  match manager T, kind T with
  | Military, FighterTask f => m ← erase_fight (fightType f) t (military w); Some (set_military m w)
  | Builder, RepairTask r =>
      let b := builder w in
      Some (if bool_decide (t ∈ repairTasks b)
            then set_builder (with_repairs (repairTasks b ∖ {[t]}) (buildTasksCount b - 1) (buildUpdates b)
                                           (delete (r_targetId r) (repairedUnits b)) b) w
            else w)
  | _, _ => Some w
  end.

(** One round of the loop in [IUnitTask::Stop]. *)
Definition to_idle (idle u : Z) (w : World) : option World :=
  w ← upd_unit u unit_Clear w;
  Idle_AssignTo idle u w.

(** [Cancel], and [Finish] where it calls it, with the manager's [AbortTask] given. *)
Definition Cancel (abort : Z → World → option World) (t : Z) (w : World) : option World :=
  T ← tasks w !! t;
  match kind T with
  | RetreatTask (Some r) =>
      U ← units w !! r;
      t' ← u_task U;
      abort t' w
  | RepairTask _ =>
      x ← retreat_of_target T w;
      match x with
      | Some (t', Some r') => if bool_decide (r' ∈ t_units T) then set_repairer t' None w else Some w
      | _ => Some w
      end
  | _ => Some w
  end.

(** [Stop] *)
Definition clear_units (T : IUnitTask) : IUnitTask := with_units ∅ (with_queries ∅ T).
Definition Stop (abort : Z → World → option World) (t : Z) (w : World) : option World :=
  T ← tasks w !! t;
  match kind T with
  | NilTask => Some w
  | IdleTask _ n => upd_task t (λ T, with_kind (IdleTask ∅ n) (with_units ∅ T)) w
  | _ =>
      w ← Cancel abort t w;
      T ← tasks w !! t;
      let idle := idleTask w (manager T) in
      w ← foldM (λ w u, to_idle idle u w) w (in_order (t_units T));
      w ← upd_task t clear_units w;
      Some (match kind T with RepairTask r => if r_building r then del_pull (r_buildPower r) w else w | _ => w end)
  end.

(** [DequeueTask]: whether the task is done or aborted makes no difference to the classes of the model.
    A retreat that is stopped aborts the task of its repairer, which may be stopped in turn, so the
    recursion has fuel. *)
Fixpoint DequeueTask (fuel : nat) (t : Z) (w : World) : option World :=
  match fuel with
  | O => None
  | S fuel =>
      T ← tasks w !! t;
      w ← forget_task t T w;
      w ← upd_task t Dead w;
      Stop (DequeueTask fuel) t w
  end.
(** A retreat, and the repair it aborts. *)
Definition AbortTask (t : Z) (w : World) : option World := DequeueTask 2 t w.
Definition DoneTask (t : Z) (w : World) : option World := DequeueTask 2 t w.
End core.
