(* ===== verification/TaskClasses.v ===== *)
(** * TaskClasses: the virtual functions of the tasks

    [AssignTo] and [RemoveAssignee] of every class of the model with the dispatch on the class,
    [ITaskManager::AssignTask], the squads ([task/fighter/SquadTask.cpp]: leader, ranges, merging),
    targets ([IFighterTask::SetTarget]) and the reactions of tasks to events of their units. *)

From S2P Require Import Prelude Float32 EnemyUnit ActionList TaskData TaskCore.

Open Scope circuit_scope.

Section classes.
Context {E : Engine} {H : Heap} {TE : TaskEngine}.

(** ** IFighterTask *)

Definition upd_fighter (t : Z) (g : Fighter → Fighter) (w : World) : option World :=
  T ← tasks w !! t;
  f ← fighter_of T;
  upd_task t (with_kind (FighterTask (g f))) w.
Definition with_power (p : float) (f : Fighter) : Fighter :=
  MkFighter (fightType f) p (powerMod f) (target f) (cowards f) (shields f) (limit f) (f_check f) (promote f) (vipId f) (squad f) (plan f).
Definition with_target (e : option Z) (f : Fighter) : Fighter :=
  MkFighter (fightType f) (attackPower f) (powerMod f) e (cowards f) (shields f) (limit f) (f_check f) (promote f) (vipId f) (squad f) (plan f).
Definition with_sets (c s : gset Z) (f : Fighter) : Fighter :=
  MkFighter (fightType f) (attackPower f) (powerMod f) (target f) c s (limit f) (f_check f) (promote f) (vipId f) (squad f) (plan f).
Definition with_limit (l : float) (f : Fighter) : Fighter :=
  MkFighter (fightType f) (attackPower f) (powerMod f) (target f) (cowards f) (shields f) l (f_check f) (promote f) (vipId f) (squad f) (plan f).
Definition with_squad (s : Squad) (f : Fighter) : Fighter :=
  MkFighter (fightType f) (attackPower f) (powerMod f) (target f) (cowards f) (shields f) (limit f) (f_check f) (promote f) (vipId f) s (plan f).
Definition with_plan (x : Plan) (f : Fighter) : Fighter :=
  MkFighter (fightType f) (attackPower f) (powerMod f) (target f) (cowards f) (shields f) (limit f) (f_check f) (promote f) (vipId f) (squad f) x.
Definition with_leader (l : option Z) (s : Squad) : Squad := MkSquad (lowestRange s) (highestRange s) (lowestSpeed s) (highestSpeed s) l.
Definition raise_range (r : float) (s : Squad) : Squad := MkSquad (lowestRange s) (fmax (highestRange s) r) (lowestSpeed s) (highestSpeed s) (leader s).

Definition IFighter_AssignTo (t u : Z) (w : World) : option World :=
  w ← IUnitTask_AssignTo t u w;
  U ← units w !! u;
  w ← upd_fighter t (λ f, with_power (fadd (attackPower f) (power (d_cdef (u_def U)))) f) w;
  w ← (if u_hasShield U then upd_fighter t (λ f, with_sets (cowards f) ({[u]} ∪ shields f) f) w else Some w);
  if u_hasDGun U then upd_unit u PushDGunAct w else Some w.

Definition IFighter_RemoveAssignee (t u : Z) (w : World) : option World :=
  w ← IUnitTask_RemoveAssignee t u w;
  U ← units w !! u;
  w ← upd_fighter t (λ f, with_power (fsub (attackPower f) (power (d_cdef (u_def U)))) f) w;
  w ← upd_fighter t (λ f, with_sets (cowards f ∖ {[u]}) (shields f) f) w;
  if u_hasShield U then upd_fighter t (λ f, with_sets (cowards f) (shields f ∖ {[u]}) f) w else Some w.

(** [SetTarget]: the target knows the tasks that are after it. *)
Definition unbind (t e : Z) (w : World) : option World :=
  X ← enemies w !! e; Some (set_enemies (<[e := X ∖ {[t]}]> (enemies w)) w).
Definition bind_task (t e : Z) (w : World) : option World :=
  X ← enemies w !! e; Some (set_enemies (<[e := {[t]} ∪ X]> (enemies w)) w).
Definition SetTarget (t : Z) (e : option Z) (w : World) : option World :=
  T ← tasks w !! t; f ← fighter_of T;
  w ← (match target f with Some e0 => unbind t e0 w | None => Some w end);
  w ← (match e with Some e1 => bind_task t e1 w | None => Some w end);
  upd_fighter t (with_target e) w.
(** [~CEnemyInfo]: [ClearTarget] for every task that is after the enemy. *)
Definition delete_CEnemyInfo (e : Z) (w : World) : option World :=
  X ← enemies w !! e;
  w ← foldM (λ w t, upd_fighter t (with_target None) w) w (in_order X);
  Some (set_enemies (delete e (enemies w)) w).

(** ** ISquadTask *)

Definition unit_speed (U : CCircuitUnit) : float := def_speed (d_cdef (u_def U)).
Definition unit_range (U : CCircuitUnit) : option float := GetMaxRange_any (d_cdef (u_def U)).

(** The minima and maxima with one more unit. *)
Definition widen (U : CCircuitUnit) (s : Squad) : option Squad :=
  r ← unit_range U;
  Some (MkSquad (fmin (lowestRange s) r) (fmax (highestRange s) r)
                (fmin (lowestSpeed s) (unit_speed U)) (fmax (highestSpeed s) (unit_speed U)) (leader s)).

(** Whether [U] takes the lead from [L]. *)
Definition better_leader (L U : CCircuitUnit) : bool :=
  match u_area L with
  | None => true
  | Some pl =>
      IsRoleSupport (u_def L) || match u_area U with Some pu => fltb pu pl | None => false end
  end.

Definition ISquad_AssignTo (t u : Z) (w : World) : option World :=
  w ← IFighter_AssignTo t u w;
  U ← units w !! u; T ← tasks w !! t; f ← fighter_of T;
  match leader (squad f) with
  | None =>
      r ← unit_range U;
      upd_fighter t (with_squad (MkSquad r r (unit_speed U) (unit_speed U) (Some u))) w
  | Some l =>
      s ← widen U (squad f);
      w ← upd_fighter t (with_squad s) w;
      if IsRoleSupport (u_def U) then Some w
      else
        L ← units w !! l;
        if better_leader L U then upd_fighter t (with_squad (with_leader (Some u) s)) w else Some w
  end.

(** [FindLeader], first loop: up to the first unit that is not a supporter. *)
Fixpoint find_first (l : list Z) (s : Squad) (w : World) : option (Squad * list Z) :=
  match l with
  | [] => Some (s, [])
  | u :: l =>
      U ← units w !! u;
      s ← widen U s;
      if IsRoleSupport (u_def U) then find_first l s w else Some (with_leader (Some u) s, l)
  end.
(** Second loop *)
Definition find_next (w : World) (s : Squad) (u : Z) : option Squad :=
  U ← units w !! u;
  s ← widen U s;
  if IsRoleSupport (u_def U) || bool_decide (u_area U = None) then Some s
  else
    l ← leader s; L ← units w !! l;
    Some (if better_leader L U then with_leader (Some u) s else s).
Definition FindLeader (l : list Z) (s : Squad) (w : World) : option Squad :=
  '(s, l) ← (if bool_decide (leader s = None) then find_first l s w else Some (s, l));
  foldM (find_next w) s l.

Definition no_squad : Squad := MkSquad FLT_MAX f0 FLT_MAX f0 None.
Definition ISquad_RemoveAssignee (t u : Z) (w : World) : option World :=
  w ← IFighter_RemoveAssignee t u w;
  w ← upd_fighter t (with_squad no_squad) w;
  T ← tasks w !! t;
  if bool_decide (t_units T = ∅) then Some w
  else
    s ← FindLeader (in_order (t_units T)) no_squad w;
    upd_fighter t (with_squad s) w.

(** ** Builder repairs *)

(** [EnqueueRepair]: the repair of a unit, if there is one already, or a new one. *)
Definition EnqueueRepair (v : Z) (w : World) : option (Z * World) :=
  V ← units w !! v;
  let b := builder w in
  match repairedUnits b !! u_id V with
  | Some t => Some (t, w)
  | None =>
      let t := alloc (dom (tasks w)) in
      let r := MkRepair (teamUnits w !! u_id V) (u_id V) (IsBeingBuilt v) f0 ∅ None in
      let T := new_IUnitTask Builder (RepairTask r) (FRAMES_PER_SEC * 300) (lastFrame w) in
      let w := set_tasks (<[t := T]> (tasks w)) w in
      Some (t, set_builder (with_repairs ({[t]} ∪ repairTasks b) (buildTasksCount b + 1) (buildUpdates b ++ [t])
                                         (<[u_id V := t]> (repairedUnits b)) b) w)
  end.

(** ** CRetreatTask *)

Definition Retreat_AssignTo (t u : Z) (w : World) : option World :=
  w ← IUnitTask_AssignTo t u w;
  U ← units w !! u;
  w ← (if u_hasDGun U then upd_unit u PushDGunAct w else Some w);
  let w := TRY_UNIT u w in
  if IsAttrBoost (u_def U) then Some (TRY_UNIT u w)
  else
    w ← upd_unit u (PushTravelAct false) w;
    if d_isPlane (u_def U) then Some w
    else '(_, w) ← EnqueueRepair u w; Some w.

Definition Retreat_RemoveAssignee (t u : Z) (w : World) : option World :=
  w ← IUnitTask_RemoveAssignee t u w;
  T ← tasks w !! t;
  w ← (if bool_decide (t_units T = ∅) then DoneTask t w else Some w);
  Some (TRY_UNIT u w).

(** ** The dispatch *)

(** What the subclass of [IFighterTask] adds to [AssignTo]. *)
Definition squad_range (f : FightType) (d : SUnitDef) (s : Squad) : Squad :=
  match f with
  | ATTACK | DEFEND => raise_range (d_losRadius d) s
  | RAID | AH => raise_range (d_jumpRange d) (raise_range (d_losRadius d) s)
  | _ => s
  end.
Definition Fighter_AssignTo (ft : FightType) (t u : Z) (w : World) : option World :=
  match ft with
  | DEFEND | RAID | ATTACK | AA | AH =>
      w ← ISquad_AssignTo t u w;
      U ← units w !! u; T ← tasks w !! t; f ← fighter_of T;
      w ← upd_fighter t (λ f, with_squad (squad_range ft (u_def U) (squad f)) f) w;
      w ← (match ft with
           | ATTACK => if IsRoleSupport (u_def U) then upd_unit u PushSupportAct w else Some w
           | DEFEND => if IsRoleSupport (u_def U) && negb (bool_decide (leader (squad f) = Some u))
                       then upd_unit u PushSupportAct w else Some w
           | AH =>
               let w := if d_isAbleToCloak (u_def U) && negb (d_isOpenFire (u_def U)) then TRY_UNIT u w else w in
               match u_dgunAct U with Some _ => U ← on_action (u_dgunAct U) StateWait U; upd_unit u (λ _, U) w | None => Some w end
           | _ => Some w
           end);
      upd_unit u (PushTravelAct true) w
  | SCOUT | BOMB | ARTY =>
      w ← IFighter_AssignTo t u w;
      upd_unit u (PushTravelAct true) w
  | _ => IFighter_AssignTo t u w
  end.

Definition AssignTo (t u : Z) (w : World) : option World :=
  T ← tasks w !! t;
  match kind T with
  | NilTask => unit_SetTask t u w
  | IdleTask _ _ => Idle_AssignTo t u w
  | PlayerTask => IUnitTask_AssignTo t u w
  | RetreatTask _ => Retreat_AssignTo t u w
  | RepairTask _ => Builder_AssignTo t u w
  | FighterTask f => Fighter_AssignTo (fightType f) t u w
  end.

(** What the subclass of [ISquadTask] does when a unit has left. *)
Definition leaderless (ft : FightType) (f : Fighter) : bool :=
  match ft with ATTACK => fltb (attackPower f) (limit f) | _ => false end || bool_decide (leader (squad f) = None).
Definition leader_range (ft : FightType) (d : SUnitDef) (s : Squad) : Squad :=
  match ft with
  | ATTACK => raise_range (d_losRadius d) s
  | RAID | AH => raise_range (d_jumpRange d) (raise_range (d_losRadius d) s)
  | _ => s
  end.
Definition Fighter_RemoveAssignee (ft : FightType) (t u : Z) (w : World) : option World :=
  match ft with
  | DEFEND | RAID | ATTACK | AA | AH =>
      w ← ISquad_RemoveAssignee t u w;
      T ← tasks w !! t; f ← fighter_of T;
      w ← (if leaderless ft f then AbortTask t w
           else l ← leader (squad f); L ← units w !! l;
                upd_fighter t (with_squad (leader_range ft (u_def L) (squad f))) w);
      match ft with
      | AH => U ← units w !! u; Some (if d_isAbleToCloak (u_def U) then TRY_UNIT u w else w)
      | _ => Some w
      end
  | SCOUT | BOMB | ARTY | SUPPORT | SUPER =>
      w ← IFighter_RemoveAssignee t u w;
      T ← tasks w !! t;
      if bool_decide (t_units T = ∅) then AbortTask t w else Some w
  | RALLY | GUARD | MELEE => IFighter_RemoveAssignee t u w
  end.

Definition RemoveAssignee (t u : Z) (w : World) : option World :=
  T ← tasks w !! t;
  match kind T with
  | NilTask => Some w
  | IdleTask _ _ => Idle_RemoveAssignee t u w
  | PlayerTask => IUnitTask_RemoveAssignee t u w
  | RetreatTask _ => Retreat_RemoveAssignee t u w
  | RepairTask _ => Repair_RemoveAssignee t u w
  | FighterTask f => Fighter_RemoveAssignee (fightType f) t u w
  end.
End classes.
