(* ===== verification/TaskTheory.v ===== *)
(** * TaskTheory: who owns which unit

    The invariant of units and tasks ([owned_ok]): the sets of units the tasks keep are exactly what
    the units' own pointers say, and nothing points to a task that is gone.
    It is stated on skeletons, the part of a task and of a unit that ownership is about, so that the
    operations on the rest keep it for nothing. *)

From stdpp Require Import sorting.
From S2P Require Import Prelude Float32 EnemyUnit ActionList TaskData TaskCore TaskClasses.

Open Scope circuit_scope.

(** ** Skeletons *)

Inductive TClass : Type := C_NIL | C_PLAYER | C_IDLE | C_RETREAT | C_REPAIR | C_FIGHTER (f : FightType).
#[export] Instance TClass_eq_dec : EqDecision TClass.
Proof. solve_decision. Defined.
Definition class_of (k : Kind) : TClass :=
  match k with
  | NilTask => C_NIL | PlayerTask => C_PLAYER | IdleTask _ _ => C_IDLE | RetreatTask _ => C_RETREAT
  | RepairTask _ => C_REPAIR | FighterTask f => C_FIGHTER (fightType f)
  end.
Definition waiting_of (k : Kind) : gset Z := match k with IdleTask X _ => X | _ => ∅ end.

Record TSkel : Type := MkTSkel {
  s_manager : ManagerId;
  s_class : TClass;
  s_dead : bool;
  s_units : gset Z;
  s_waiting : gset Z    (** [updateUnits] *)
}.
Definition task_skel (T : IUnitTask) : TSkel :=
  MkTSkel (manager T) (class_of (kind T)) (isDead T) (t_units T) (waiting_of (kind T)).
Record USkel : Type := MkUSkel {
  s_task : option Z;
  s_owner : option ManagerId;
  s_gone : bool
}.
Definition unit_skel (U : CCircuitUnit) : USkel := MkUSkel (u_task U) (u_manager U) (u_isDead U).

Definition TS (w : World) : gmap Z TSkel := task_skel <$> tasks w.
Definition US (w : World) : gmap Z USkel := unit_skel <$> units w.

(** The managers' own tasks do not change. *)
Definition same_heads (w w' : World) : Prop :=
  ∀ m, idleTask w' m = idleTask w m ∧ nilTask w' m = nilTask w m ∧ playerTask w' m = playerTask w m.
Record same_skel (w w' : World) : Prop := {
  same_tasks : TS w' = TS w;
  same_units : US w' = US w;
  same_head : same_heads w w'
}.
Lemma same_heads_refl w : same_heads w w.
Proof. done. Qed.
Lemma same_heads_trans w1 w2 w3 : same_heads w1 w2 → same_heads w2 w3 → same_heads w1 w3.
Proof. intros H1 H2 m. destruct (H1 m) as (? & ? & ?), (H2 m) as (? & ? & ?). split_and!; congruence. Qed.
Lemma same_skel_refl w : same_skel w w.
Proof. by split. Qed.
Lemma same_skel_trans w1 w2 w3 : same_skel w1 w2 → same_skel w2 w3 → same_skel w1 w3.
Proof. intros [A1 B1 C1] [A2 B2 C2]. split; [congruence|congruence|by eapply same_heads_trans]. Qed.

Lemma TS_lookup w t : TS w !! t = task_skel <$> tasks w !! t.
Proof. apply lookup_fmap. Qed.
Lemma US_lookup w u : US w !! u = unit_skel <$> units w !! u.
Proof. apply lookup_fmap. Qed.

(** An update that keeps the skeletons. *)
Lemma upd_task_same t f w T :
  tasks w !! t = Some T → task_skel (f T) = task_skel T →
  ∃ w', upd_task t f w = Some w' ∧ same_skel w w' ∧ tasks w' = <[t := f T]> (tasks w) ∧ units w' = units w.
Proof.
  intros Ht Hs. unfold upd_task. rewrite Ht. simpl. eexists. split; [done|]. split; [|done]. split; [|done|done].
  unfold TS. simpl. rewrite fmap_insert, Hs. apply insert_id. by rewrite lookup_fmap, Ht.
Qed.
Lemma upd_unit_same u f w U :
  units w !! u = Some U → unit_skel (f U) = unit_skel U →
  ∃ w', upd_unit u f w = Some w' ∧ same_skel w w' ∧ units w' = <[u := f U]> (units w) ∧ tasks w' = tasks w.
Proof.
  intros Hu Hs. unfold upd_unit. rewrite Hu. simpl. eexists. split; [done|]. split; [|done]. split; [done| |done].
  unfold US. simpl. rewrite fmap_insert, Hs. apply insert_id. by rewrite lookup_fmap, Hu.
Qed.

(** ** Ownership *)

(** [lost] are the living units whose task does not know them. *)
Record owned_ok (lost : gset Z) (w : World) : Prop := {
  own_idle m : ∃ S, TS w !! idleTask w m = Some S ∧ s_class S = C_IDLE ∧ s_manager S = m ∧ s_dead S = false;
  own_nil m : ∃ S, TS w !! nilTask w m = Some S ∧ s_class S = C_NIL ∧ s_manager S = m;
  own_player m : ∃ S, TS w !! playerTask w m = Some S ∧ s_class S = C_PLAYER ∧ s_manager S = m ∧ s_dead S = false;
  own_head t S : TS w !! t = Some S → s_class S = C_IDLE → t = idleTask w (s_manager S);
  own_member t S u : TS w !! t = Some S → u ∈ s_units S → ∃ U, US w !! u = Some U ∧ s_task U = Some t ∧ s_gone U = false;
  own_task u U t : US w !! u = Some U → s_task U = Some t →
    ∃ S, TS w !! t = Some S ∧ s_owner U = Some (s_manager S) ∧
         (u ∉ s_units S → s_class S = C_NIL ∨ s_class S = C_IDLE) ∧
         (s_gone U = false → u ∉ lost → s_class S = C_NIL ∨ u ∈ s_units S);
  own_none t S : TS w !! t = Some S → s_class S = C_NIL → s_units S = ∅;
  own_waiting t S : TS w !! t = Some S → s_waiting S ⊆ s_units S
}.

Lemma owned_same lost w w' : same_skel w w' → owned_ok lost w → owned_ok lost w'.
Proof.
  intros [HT HU HH] [O1 O2 O3 O4 O5 O6 O8 O9].
  split; rewrite ?HT, ?HU; try done.
  - intros m. destruct (HH m) as (-> & _ & _). apply O1.
  - intros m. destruct (HH m) as (_ & -> & _). apply O2.
  - intros m. destruct (HH m) as (_ & _ & ->). apply O3.
  - intros t S Ht Hc. destruct (HH (s_manager S)) as (-> & _ & _). by apply O4.
Qed.

(** A unit is in the set of at most one task. *)
Lemma owned_unique lost w t t' S S' u :
  owned_ok lost w → TS w !! t = Some S → TS w !! t' = Some S' → u ∈ s_units S → u ∈ s_units S' → t = t'.
Proof.
  intros O Ht Ht' Hu Hu'. destruct (own_member _ _ O _ _ _ Ht Hu) as (U & HU & H1 & _).
  destruct (own_member _ _ O _ _ _ Ht' Hu') as (U' & HU' & H2 & _). congruence.
Qed.

(** *** The units of [X] change to the task [tn] *)

Definition move_skels (X : gset Z) (tn t : Z) (S : TSkel) : TSkel :=
  MkTSkel (s_manager S) (s_class S) (s_dead S)
          (if bool_decide (t = tn) then X ∪ s_units S else s_units S ∖ X)
          (s_waiting S ∖ X).
Record moved_all (X : gset Z) (tn : Z) (w w' : World) : Prop := {
  moved_tasks t : TS w' !! t = move_skels X tn t <$> TS w !! t;
  moved_units v : US w' !! v = (λ U, if bool_decide (v ∈ X) then MkUSkel (Some tn) (s_owner U) (s_gone U) else U) <$> US w !! v;
  moved_heads : same_heads w w'
}.

Lemma owned_moved_all lost X tn S w w' :
  owned_ok lost w → moved_all X tn w w' → TS w !! tn = Some S → s_class S ≠ C_NIL →
  (∀ u, u ∈ X → ∃ U, US w !! u = Some U ∧ s_owner U = Some (s_manager S) ∧ s_gone U = false) →
  owned_ok (lost ∖ X) w'.
Proof.
  intros [O1 O2 O3 O4 O5 O6 O8 O9] [MT MU MH] Htn Hc HX. split.
  - intros m. destruct (O1 m) as (S1 & H1 & H2 & H3 & H4), (MH m) as (-> & _ & _). rewrite MT, H1. by eexists.
  - intros m. destruct (O2 m) as (S1 & H1 & H2 & H3), (MH m) as (_ & -> & _). rewrite MT, H1. by eexists.
  - intros m. destruct (O3 m) as (S1 & H1 & H2 & H3 & H4), (MH m) as (_ & _ & ->). rewrite MT, H1. by eexists.
  - intros t S1 Ht Hc1. rewrite MT in Ht. apply fmap_Some in Ht as (S0 & Ht & ->). simpl in *.
    destruct (MH (s_manager S0)) as (-> & _ & _). by apply O4.
  - intros t S1 v Ht Hv. rewrite MT in Ht. apply fmap_Some in Ht as (S0 & Ht & ->). simpl in *. rewrite MU.
    destruct (decide (v ∈ X)) as [Hin|Hne].
    + destruct (HX v Hin) as (U & HU & Ho & Hg). rewrite HU. simpl. rewrite bool_decide_true by done. eexists. split; [done|]. simpl.
      case_bool_decide as Hx; [by subst|]. set_solver.
    + assert (v ∈ s_units S0) as Hv0 by (case_bool_decide; set_solver).
      destruct (O5 _ _ _ Ht Hv0) as (V & -> & H1 & H2). simpl. rewrite bool_decide_false by done. by eexists.
  - intros v V t Hv Htask. rewrite MU in Hv. apply fmap_Some in Hv as (V0 & Hv & ->).
    destruct (decide (v ∈ X)) as [Hin|Hne].
    + destruct (HX v Hin) as (U & HU & Ho & Hg). rewrite bool_decide_true in Htask by done. injection Htask as <-. rewrite HU in Hv. injection Hv as <-.
      rewrite MT, Htn. simpl. eexists. split; [done|]. simpl. rewrite !bool_decide_true by done. simpl. split; [done|].
      split; [set_solver|]. intros _ _. right. set_solver.
    + rewrite bool_decide_false in Htask by done. rewrite bool_decide_false by done.
      destruct (O6 _ _ _ Hv Htask) as (S1 & H1 & H2 & H3 & H4). rewrite MT, H1. simpl. eexists. split; [done|]. simpl. split; [done|].
      split.
      * intros Hx. apply H3. intros Hin. apply Hx. case_bool_decide; set_solver.
      * intros Hg1 Hl. destruct H4 as [|Hin]; [done|set_solver|by left|right]. case_bool_decide; set_solver.
  - intros t S1 Ht Hd1. rewrite MT in Ht. apply fmap_Some in Ht as (S0 & Ht & ->). simpl in *.
    case_bool_decide as Hx.
    + subst. rewrite Htn in Ht. by injection Ht as <-.
    + rewrite (O8 _ _ Ht Hd1). set_solver.
  - intros t S1 Ht. rewrite MT in Ht. apply fmap_Some in Ht as (S0 & Ht & ->). simpl in *. pose proof (O9 _ _ Ht).
    case_bool_decide; set_solver.
Qed.

(** One unit. *)
Definition move_skel (u tn t : Z) (S : TSkel) : TSkel := move_skels {[u]} tn t S.
Record moved (u tn : Z) (w w' : World) : Prop := {
  moved_tasks1 t : TS w' !! t = move_skel u tn t <$> TS w !! t;
  moved_unit1 v : US w' !! v = (λ U, if bool_decide (v = u) then MkUSkel (Some tn) (s_owner U) (s_gone U) else U) <$> US w !! v;
  moved_heads1 : same_heads w w'
}.
Lemma owned_moved lost u tn U S w w' :
  owned_ok lost w → moved u tn w w' →
  TS w !! tn = Some S → s_class S ≠ C_NIL →
  US w !! u = Some U → s_owner U = Some (s_manager S) → s_gone U = false →
  owned_ok (lost ∖ {[u]}) w'.
Proof.
  intros O [MT MU MH] Htn Hc HU Ho Hg. eapply owned_moved_all; [done| |done|done|].
  - split; [done| |done]. intros v. rewrite MU. f_equal. by rewrite (bool_decide_ext (v ∈ {[u]}) (v = u)) by set_solver.
  - intros v ->%elem_of_singleton. by exists U.
Qed.

(** *** The unit [u] leaves its idle task and keeps pointing to it *)

Record dropped (u : Z) (w w' : World) : Prop := {
  dropped_tasks t : TS w' !! t = (λ S, MkTSkel (s_manager S) (s_class S) (s_dead S) (s_units S ∖ {[u]}) (s_waiting S ∖ {[u]})) <$> TS w !! t;
  dropped_units : US w' = US w;
  dropped_heads : same_heads w w'
}.

Lemma owned_dropped lost u U t S w w' :
  owned_ok lost w → dropped u w w' → US w !! u = Some U → s_task U = Some t → TS w !! t = Some S → s_class S = C_IDLE →
  owned_ok ({[u]} ∪ lost) w'.
Proof.
  intros [O1 O2 O3 O4 O5 O6 O8 O9] [MT MU MH] HU Htask HS Hc. split.
  - intros m. destruct (O1 m) as (S1 & H1 & H2 & H3 & H4), (MH m) as (-> & _ & _). rewrite MT, H1. by eexists.
  - intros m. destruct (O2 m) as (S1 & H1 & H2 & H3), (MH m) as (_ & -> & _). rewrite MT, H1. by eexists.
  - intros m. destruct (O3 m) as (S1 & H1 & H2 & H3 & H4), (MH m) as (_ & _ & ->). rewrite MT, H1. by eexists.
  - intros t1 S1 Ht Hc1. rewrite MT in Ht. apply fmap_Some in Ht as (S0 & Ht & ->). simpl in *.
    destruct (MH (s_manager S0)) as (-> & _ & _). by apply O4.
  - intros t1 S1 v Ht Hv. rewrite MT in Ht. apply fmap_Some in Ht as (S0 & Ht & ->). simpl in *. rewrite MU.
    apply (O5 t1 S0); [done|set_solver].
  - intros v V t1 Hv Ht1. rewrite MU in Hv. destruct (O6 _ _ _ Hv Ht1) as (S1 & H1 & H2 & H3 & H4).
    rewrite MT, H1. simpl. eexists. split; [done|]. simpl. split; [done|]. destruct (decide (v = u)) as [->|Hne].
    + assert (S1 = S) as -> by congruence. split; [by right|]. intros _ Hl. set_solver.
    + split; [intros Hx; apply H3; set_solver|]. intros Hg Hl. destruct H4 as [|Hin]; [done|set_solver|by left|right; set_solver].
  - intros t1 S1 Ht Hd1. rewrite MT in Ht. apply fmap_Some in Ht as (S0 & Ht & ->). simpl in *. rewrite (O8 _ _ Ht Hd1). set_solver.
  - intros t1 S1 Ht. rewrite MT in Ht. apply fmap_Some in Ht as (S0 & Ht & ->). simpl in *. pose proof (O9 _ _ Ht). set_solver.
Qed.

(** *** The task [t] is stopped: its units go to the idle task of its manager *)

Definition abort_skel (t idle : Z) (X : gset Z) (t' : Z) (S : TSkel) : TSkel :=
  MkTSkel (s_manager S) (s_class S) (if bool_decide (t' = t) then true else s_dead S)
          (if bool_decide (t' = t) then ∅ else if bool_decide (t' = idle) then X ∪ s_units S else s_units S)
          (s_waiting S).
Record aborted (t : Z) (S : TSkel) (w w' : World) : Prop := {
  aborted_tasks t' : TS w' !! t' = abort_skel t (idleTask w (s_manager S)) (s_units S) t' <$> TS w !! t';
  aborted_units v : US w' !! v =
    (λ U, if bool_decide (v ∈ s_units S) then MkUSkel (Some (idleTask w (s_manager S))) (s_owner U) (s_gone U) else U) <$> US w !! v;
  aborted_heads : same_heads w w'
}.

Lemma owned_aborted lost t S w w' :
  owned_ok lost w → TS w !! t = Some S → s_class S ≠ C_IDLE → s_class S ≠ C_NIL → s_class S ≠ C_PLAYER →
  aborted t S w w' → owned_ok lost w'.
Proof.
  intros O HS Hi Hn Hp [MT MU MH]. pose proof O as [O1 O2 O3 O4 O5 O6 O8 O9].
  destruct (O1 (s_manager S)) as (I & HI & Hic & Him & Hid).
  assert (t ≠ idleTask w (s_manager S)) as Hne by congruence. split.
  - intros m. destruct (O1 m) as (S1 & H1 & H2 & H3 & H4), (MH m) as (-> & _ & _). rewrite MT, H1. simpl. eexists. split; [done|].
    simpl. rewrite bool_decide_false by congruence. done.
  - intros m. destruct (O2 m) as (S1 & H1 & H2 & H3), (MH m) as (_ & -> & _). rewrite MT, H1. by eexists.
  - intros m. destruct (O3 m) as (S1 & H1 & H2 & H3 & H4), (MH m) as (_ & _ & ->). rewrite MT, H1. simpl. eexists. split; [done|].
    simpl. rewrite bool_decide_false by congruence. done.
  - intros t1 S1 Ht Hc1. rewrite MT in Ht. apply fmap_Some in Ht as (S0 & Ht & ->). simpl in *.
    destruct (MH (s_manager S0)) as (-> & _ & _). by apply O4.
  - intros t1 S1 v Ht Hv. rewrite MT in Ht. apply fmap_Some in Ht as (S0 & Ht & ->). simpl in Hv. rewrite MU.
    case_bool_decide as H1; [set_solver|]. case_bool_decide as H2.
    + subst t1. apply elem_of_union in Hv as [Hv|Hv].
      * destruct (O5 _ _ _ HS Hv) as (V & -> & HV1 & HV2). simpl. rewrite bool_decide_true by done. by eexists.
      * destruct (O5 _ _ _ Ht Hv) as (V & -> & HV1 & HV2). simpl. case_bool_decide; by eexists.
    + destruct (O5 _ _ _ Ht Hv) as (V & -> & HV1 & HV2). simpl. rewrite bool_decide_false; [by eexists|].
      intros Hx. apply H1. by eapply owned_unique.
  - intros v V t1 Hv Ht1. rewrite MU in Hv. apply fmap_Some in Hv as (V0 & Hv & ->). case_bool_decide as Hx.
    + injection Ht1 as <-. rewrite MT, HI. simpl. eexists. split; [done|]. simpl. destruct (O5 _ _ _ HS Hx) as (V1 & HV1 & HV2 & HV3).
      assert (V1 = V0) as -> by congruence. destruct (O6 _ _ _ Hv HV2) as (S1 & HS1 & HO & _). split; [congruence|].
      rewrite bool_decide_false by done. rewrite bool_decide_true by done. split; [set_solver|]. intros _ _. right. set_solver.
    + destruct (O6 _ _ _ Hv Ht1) as (S1 & H1 & H2 & H3 & H4). rewrite MT, H1. simpl. eexists. split; [done|]. simpl. split; [done|].
      case_bool_decide as Hy.
      * subst t1. assert (S1 = S) as -> by congruence. destruct (H3 Hx); done.
      * split.
        -- intros Hz. apply H3. intros Hin. apply Hz. case_bool_decide; set_solver.
        -- intros Hg Hl. destruct (H4 Hg Hl) as [|Hin]; [by left|right]. case_bool_decide; set_solver.
  - intros t1 S1 Ht Hd1. rewrite MT in Ht. apply fmap_Some in Ht as (S0 & Ht & ->). simpl in *. case_bool_decide as Hx; [done|].
    case_bool_decide as Hy; [|by apply (O8 t1)]. subst t1. congruence.
  - intros t1 S1 Ht. rewrite MT in Ht. apply fmap_Some in Ht as (S0 & Ht & ->). simpl in *. pose proof (O9 _ _ Ht).
    case_bool_decide as Hx; [|case_bool_decide; set_solver]. subst t1. assert (S0 = S) as -> by congruence.
    assert (s_waiting S = ∅) as ->; [|done].
    rewrite TS_lookup in HS. apply fmap_Some in HS as (T & _ & ->). simpl in *. by destruct (kind T).
Qed.

(** *** The task [t] is marked dead *)

Lemma owned_marked lost t w w' :
  owned_ok lost w → US w' = US w → same_heads w w' →
  (∀ t', TS w' !! t' = (λ S, MkTSkel (s_manager S) (s_class S) (if bool_decide (t' = t) then true else s_dead S) (s_units S) (s_waiting S)) <$> TS w !! t') →
  (∀ S, TS w !! t = Some S → s_class S ≠ C_IDLE ∧ s_class S ≠ C_PLAYER) →
  owned_ok lost w'.
Proof.
  intros [O1 O2 O3 O4 O5 O6 O8 O9] MU MH MT Hc. split.
  - intros m. destruct (O1 m) as (S1 & H1 & H2 & H3 & H4), (MH m) as (-> & _ & _). rewrite MT, H1. simpl. eexists. split; [done|].
    simpl. case_bool_decide as Hx; [|done]. subst. by destruct (Hc _ H1).
  - intros m. destruct (O2 m) as (S1 & H1 & H2 & H3), (MH m) as (_ & -> & _). rewrite MT, H1. by eexists.
  - intros m. destruct (O3 m) as (S1 & H1 & H2 & H3 & H4), (MH m) as (_ & _ & ->). rewrite MT, H1. simpl. eexists. split; [done|].
    simpl. case_bool_decide as Hx; [|done]. subst. by destruct (Hc _ H1).
  - intros t1 S1 Ht Hc1. rewrite MT in Ht. apply fmap_Some in Ht as (S0 & Ht & ->). simpl in *.
    destruct (MH (s_manager S0)) as (-> & _ & _). by apply O4.
  - intros t1 S1 v Ht Hv. rewrite MT in Ht. apply fmap_Some in Ht as (S0 & Ht & ->). rewrite MU. by eapply O5.
  - intros v V t1 Hv Ht1. rewrite MU in Hv. destruct (O6 _ _ _ Hv Ht1) as (S1 & H1 & H2 & H3 & H4). rewrite MT, H1. by eexists.
  - intros t1 S1 Ht Hn. rewrite MT in Ht. apply fmap_Some in Ht as (S0 & Ht & ->). by apply (O8 t1 S0).
  - intros t1 S1 Ht. rewrite MT in Ht. apply fmap_Some in Ht as (S0 & Ht & ->). by apply (O9 t1 S0).
Qed.

(** ** The operations of IUnitTask *)

Section base.
Context {E : Engine} {H : Heap} {TE : TaskEngine}.

(** Follows the lookups of a straight-line operation. *)
Ltac follow :=
  repeat (simpl; first
    [ rewrite lookup_insert_eq | rewrite lookup_insert_ne by done
    | match goal with Hx : _ = Some _ |- _ => rewrite Hx end ]); simpl.

(** Everything but units and tasks. *)
Definition rest_same (w w' : World) : Prop :=
  enemies w' = enemies w ∧ military w' = military w ∧ builder w' = builder w ∧ lastFrame w' = lastFrame w ∧
  garbage w' = garbage w ∧ engine w' = engine w ∧ teamUnits w' = teamUnits w ∧ queryId w' = queryId w.
Lemma rest_heads w w' : rest_same w w' → same_heads w w'.
Proof. intros (_ & HM & HB & _) m. unfold idleTask, nilTask, playerTask. rewrite HM, HB. by destruct m. Qed.

Definition assigned_unit (t frame : Z) (U : CCircuitUnit) : CCircuitUnit := unit_with_task (Some t) frame (ClearAct U).
Definition assigned_task (u : Z) (T : IUnitTask) : IUnitTask := insert_unit u (with_touched (-1) T).

Lemma IUnitTask_AssignTo_eq t u w T U I m :
  tasks w !! t = Some T → idleTask w (manager T) ≠ t → tasks w !! idleTask w (manager T) = Some I →
  units w !! u = Some U → u_manager U = Some m →
  IUnitTask_AssignTo t u w = Some
    (set_units (<[u := assigned_unit t (lastFrame w) U]> (units w))
       (set_tasks (<[t := assigned_task u T]> (<[idleTask w (manager T) := erase_idle u I]> (tasks w))) w)).
Proof.
  intros Ht Hne HI HU Hm. unfold IUnitTask_AssignTo, Idle_RemoveAssignee, unit_SetTask, upd_task, upd_unit. rewrite Ht. simpl.
  change (idleTask (set_tasks _ w) (manager T)) with (idleTask w (manager T)).
  follow. f_equal. unfold set_units, set_tasks. simpl. f_equal.
  - by rewrite insert_insert_eq.
  - rewrite (insert_insert_ne _ _ t) by done. by rewrite insert_insert_eq.
Qed.

Definition released_unit (idle frame : Z) (U : CCircuitUnit) : CCircuitUnit := unit_with_task (Some idle) frame (unit_Clear U).
Definition released_task (u frame : Z) (T : IUnitTask) : IUnitTask := touch_empty frame (erase_unit u T).

Lemma IUnitTask_RemoveAssignee_eq t u w T U I m :
  tasks w !! t = Some T → idleTask w (manager T) ≠ t → tasks w !! idleTask w (manager T) = Some I →
  units w !! u = Some U → u_manager U = Some m →
  IUnitTask_RemoveAssignee t u w = Some
    (set_units (<[u := released_unit (idleTask w (manager T)) (lastFrame w) U]> (units w))
       (set_tasks (<[t := released_task u (lastFrame w) T]> (<[idleTask w (manager T) := insert_unit u I]> (tasks w))) w)).
Proof.
  intros Ht Hne HI HU Hm. unfold IUnitTask_RemoveAssignee, Idle_AssignTo, unit_SetTask, upd_task, upd_unit. rewrite Ht. simpl.
  follow. change (idleTask (set_units _ _) (manager T)) with (idleTask w (manager T)). follow.
  f_equal. unfold set_units, set_tasks. simpl. f_equal.
  - by rewrite insert_insert_eq.
  - rewrite (insert_insert_ne _ _ t) by done. by rewrite insert_insert_eq.
Qed.

(** The idle task of a manager. *)
Lemma idle_task lost w m : owned_ok lost w →
  ∃ I X n, tasks w !! idleTask w m = Some I ∧ kind I = IdleTask X n ∧ manager I = m ∧ isDead I = false ∧ X ⊆ t_units I.
Proof.
  intros O. destruct (own_idle _ _ O m) as (S & HS & Hc & Hm & Hd). pose proof (own_waiting _ _ O _ _ HS) as Hw.
  rewrite TS_lookup in HS. apply fmap_Some in HS as (I & HI & ->). simpl in *. exists I.
  destruct (kind I) as [| |X n| | |] eqn:Hk; try discriminate. exists X, n. done.
Qed.

Lemma task_of_skel w t S : TS w !! t = Some S → ∃ T, tasks w !! t = Some T ∧ S = task_skel T.
Proof. rewrite TS_lookup. intros (T & ? & ->)%fmap_Some. by eexists. Qed.
Lemma unit_of_skel w u S : US w !! u = Some S → ∃ U, units w !! u = Some U ∧ S = unit_skel U.
Proof. rewrite US_lookup. intros (T & ? & ->)%fmap_Some. by eexists. Qed.
Lemma skel_of_task w t T : tasks w !! t = Some T → TS w !! t = Some (task_skel T).
Proof. rewrite TS_lookup. by intros ->. Qed.
Lemma skel_of_unit w u U : units w !! u = Some U → US w !! u = Some (unit_skel U).
Proof. rewrite US_lookup. by intros ->. Qed.

(** Where the unit [u] is: nowhere but in the idle task [i]. *)
Definition only_in (u i : Z) (w : World) : Prop := ∀ t S, TS w !! t = Some S → u ∈ s_units S → t = i.

Lemma difference_absent (u : Z) (X : gset Z) : u ∉ X → X ∖ {[u]} = X.
Proof. set_solver. Qed.

Lemma IUnitTask_AssignTo_ok lost t u w T U :
  owned_ok lost w → tasks w !! t = Some T → class_of (kind T) ≠ C_IDLE →
  units w !! u = Some U → u_manager U = Some (manager T) → only_in u (idleTask w (manager T)) w →
  ∃ w' I, IUnitTask_AssignTo t u w = Some w' ∧ moved u t w w' ∧ rest_same w w' ∧ tasks w !! idleTask w (manager T) = Some I ∧
    idleTask w (manager T) ≠ t ∧
    tasks w' = <[t := assigned_task u T]> (<[idleTask w (manager T) := erase_idle u I]> (tasks w)) ∧
    units w' = <[u := assigned_unit t (lastFrame w) U]> (units w).
Proof.
  intros O Ht Hc HU Hm Hon. destruct (idle_task _ _ (manager T) O) as (I & X & n & HI & HIk & HIm & HId & HX).
  assert (idleTask w (manager T) ≠ t) as Hne by (intros <-; assert (I = T) as <- by congruence; by rewrite HIk in Hc).
  rewrite (IUnitTask_AssignTo_eq t u w T U I (manager T)) by done. eexists _, I. split; [done|]. split; [|done]. split; [| |done].
  - intros t'. rewrite !TS_lookup. simpl. destruct (decide (t' = t)) as [->|Ht'].
    + rewrite lookup_insert_eq, Ht. simpl. unfold move_skel, move_skels, task_skel. rewrite bool_decide_true by done. simpl.
      f_equal. f_equal. destruct (kind T); try done; set_solver.
    + rewrite lookup_insert_ne by done. destruct (decide (t' = idleTask w (manager T))) as [->|Hi].
      * rewrite lookup_insert_eq, HI. simpl. unfold move_skel, move_skels, task_skel, erase_idle. rewrite (bool_decide_false (_ = t)) by done.
        case_bool_decide as Hin; simpl; rewrite HIk; simpl; [done|].
        rewrite !difference_absent; [done|set_solver|set_solver].
      * rewrite lookup_insert_ne by done. destruct (tasks w !! t') as [T'|] eqn:HT'; simpl; [|done].
        unfold move_skel, move_skels. rewrite bool_decide_false by done.
        assert (u ∉ s_units (task_skel T')) as Hx by (intros Hx; apply Hi; by eapply Hon; [apply skel_of_task|]).
        pose proof (own_waiting _ _ O t' _ (skel_of_task _ _ _ HT')) as Hw.
        rewrite !difference_absent by set_solver. done.
  - intros v. rewrite !US_lookup. simpl. destruct (decide (v = u)) as [->|Hv].
    + rewrite lookup_insert_eq, HU. simpl. by rewrite bool_decide_true.
    + rewrite lookup_insert_ne by done. destruct (units w !! v); simpl; [|done]. by rewrite bool_decide_false.
Qed.

Lemma IUnitTask_RemoveAssignee_ok lost t u w T U :
  owned_ok lost w → tasks w !! t = Some T → class_of (kind T) ≠ C_IDLE →
  units w !! u = Some U → u_task U = Some t → 
  ∃ w' I, IUnitTask_RemoveAssignee t u w = Some w' ∧ moved u (idleTask w (manager T)) w w' ∧ rest_same w w' ∧
    tasks w !! idleTask w (manager T) = Some I ∧ idleTask w (manager T) ≠ t ∧
    tasks w' = <[t := released_task u (lastFrame w) T]> (<[idleTask w (manager T) := insert_unit u I]> (tasks w)) ∧
    units w' = <[u := released_unit (idleTask w (manager T)) (lastFrame w) U]> (units w).
Proof.
  intros O Ht Hc HU Hm. destruct (idle_task _ _ (manager T) O) as (I & X & n & HI & HIk & HIm & HId & HX).
  assert (idleTask w (manager T) ≠ t) as Hne by (intros <-; assert (I = T) as <- by congruence; by rewrite HIk in Hc).
  destruct (own_task _ _ O _ _ _ (skel_of_unit _ _ _ HU) Hm) as (S & HS & Ho & _).
  rewrite (skel_of_task _ _ _ Ht) in HS. injection HS as <-. simpl in Ho.
  assert (∀ t' T', tasks w !! t' = Some T' → u ∈ t_units T' → t' = t) as Hu.
  { intros t' T' HT' Hin. destruct (own_member _ _ O t' (task_skel T') u) as (V & HV & Htk & _); [by apply skel_of_task|done|].
    rewrite (skel_of_unit _ _ _ HU) in HV. injection HV as <-. simpl in Htk. congruence. }
  rewrite (IUnitTask_RemoveAssignee_eq t u w T U I (manager T)) by done. eexists _, I. split; [done|]. split; [|done]. split; [| |done].
  - intros t'. rewrite !TS_lookup. simpl. destruct (decide (t' = t)) as [->|Ht'].
    + rewrite lookup_insert_eq, Ht. simpl. unfold move_skel, move_skels, task_skel, released_task, touch_empty. rewrite (bool_decide_false (t = idleTask w (manager T))) by congruence.
      assert (waiting_of (kind T) ∖ {[u]} = waiting_of (kind T)) as Hw by (destruct (kind T); try done; set_solver).
      case_bool_decide; simpl; by rewrite Hw.
    + rewrite lookup_insert_ne by done. destruct (decide (t' = idleTask w (manager T))) as [->|Hi].
      * rewrite lookup_insert_eq, HI. simpl. unfold move_skel, move_skels, task_skel. rewrite bool_decide_true by done. simpl. rewrite HIk. simpl.
        f_equal. f_equal. rewrite difference_absent; [done|]. intros Hx. apply Hne. apply (Hu _ _ HI). set_solver.
      * rewrite lookup_insert_ne by done. destruct (tasks w !! t') as [T'|] eqn:HT'; simpl; [|done].
        unfold move_skel, move_skels. rewrite bool_decide_false by done.
        assert (u ∉ t_units T') as Hx by (intros Hx; apply Ht'; by apply (Hu _ _ HT')).
        pose proof (own_waiting _ _ O t' _ (skel_of_task _ _ _ HT')) as Hw.
        rewrite !difference_absent by set_solver. done.
  - intros v. rewrite !US_lookup. simpl. destruct (decide (v = u)) as [->|Hv].
    + rewrite lookup_insert_eq, HU. simpl. by rewrite bool_decide_true.
    + rewrite lookup_insert_ne by done. destruct (units w !! v); simpl; [|done]. by rewrite bool_decide_false.
Qed.

(** *** Stopping a task *)

Lemma elem_of_in_order (X : gset Z) u : u ∈ in_order X ↔ u ∈ X.
Proof. unfold in_order. by rewrite merge_sort_Permutation, elem_of_elements. Qed.
Lemma in_order_NoDup (X : gset Z) : NoDup (in_order X).
Proof. unfold in_order. rewrite merge_sort_Permutation. apply NoDup_elements. Qed.
Lemma with_units_id T : with_units (t_units T) T = T.
Proof. by destruct T. Qed.
Lemma with_kind_id T : with_kind (kind T) T = T.
Proof. by destruct T. Qed.

Lemma rest_same_refl w : rest_same w w.
Proof. done. Qed.
Lemma rest_same_trans w1 w2 w3 : rest_same w1 w2 → rest_same w2 w3 → rest_same w1 w3.
Proof. unfold rest_same. intuition congruence. Qed.

Lemma to_idle_eq i u w U I m :
  units w !! u = Some U → u_manager U = Some m → tasks w !! i = Some I →
  to_idle i u w = Some (set_units (<[u := released_unit i (lastFrame w) U]> (units w))
                          (set_tasks (<[i := insert_unit u I]> (tasks w)) w)).
Proof.
  intros HU Hm HI. unfold to_idle, Idle_AssignTo, unit_SetTask, upd_task, upd_unit. follow.
  f_equal. unfold set_units, set_tasks. simpl. f_equal. by rewrite insert_insert_eq.
Qed.

Lemma to_idle_loop i l w I :
  NoDup l → tasks w !! i = Some I → (∀ u, u ∈ l → ∃ U m, units w !! u = Some U ∧ u_manager U = Some m) →
  ∃ w', foldM (λ w u, to_idle i u w) w l = Some w' ∧ rest_same w w' ∧
    tasks w' = <[i := with_units (list_to_set l ∪ t_units I) I]> (tasks w) ∧
    ∀ v, units w' !! v = if bool_decide (v ∈ l) then released_unit i (lastFrame w) <$> units w !! v else units w !! v.
Proof.
  revert w I. induction l as [|u l IH]; intros w I Hnd HI Hl; simpl.
  - eexists. split; [done|]. split; [done|]. split; [|done]. rewrite (union_empty_l_L (t_units I)), with_units_id. by rewrite insert_id.
  - apply NoDup_cons in Hnd as [Hu Hnd]. destruct (Hl u) as (U & m & HU & Hm); [by left|]. rewrite (to_idle_eq i u w U I m) by done. simpl.
    set (w1 := set_units _ _). destruct (IH w1 (insert_unit u I)) as (w' & HF & HR & HT & HV); [done|apply lookup_insert_eq| |].
    { intros v Hv. destruct (Hl v) as (V & mv & HV & Hmv); [by right|]. exists V, mv. split; [|done]. simpl.
      rewrite lookup_insert_ne; [done|]. by intros ->. }
    rewrite HF. exists w'. split; [done|]. split; [by eapply rest_same_trans; [|done]|]. split.
    + rewrite HT. simpl. rewrite insert_insert_eq. f_equal. unfold insert_unit, with_units. simpl. f_equal. set_solver.
    + intros v. rewrite HV. simpl. destruct (decide (v = u)) as [->|Hne].
      * rewrite bool_decide_false by done. rewrite bool_decide_true by (by left). by rewrite lookup_insert_eq, HU.
      * rewrite lookup_insert_ne by done. destruct (decide (v ∈ l)) as [Hin|Hin].
        -- rewrite !bool_decide_true; [done|by right|done].
        -- rewrite !bool_decide_false; [done| |done]. by intros [->|?]%elem_of_cons.
Qed.
End base.
