(* ===== verification/TaskInvariant.v ===== *)
(** * TaskInvariant: the invariant of the task system

    [world_ok] collects what holds of units, tasks, managers and targets between events: ownership
    ([TaskTheory]), what each task and each unit keeps about the others, the managers' lists, the links
    between a retreating unit, its task, its repairer and the repair task, and the enemies' lists of
    the tasks that are after them.  The parts that look at several objects are stated on cores, which
    assigning and removing units does not change; [world_ok_keeps] is the step all operations share. *)

From stdpp Require Import sorting.
From S2P Require Import Prelude Float32 EnemyUnit ActionList TaskData TaskCore TaskClasses TaskTheory.

Open Scope circuit_scope.

(** ** Cores: a task without what changes with its units *)

Inductive KCore : Type :=
| K_NIL | K_PLAYER | K_IDLE | K_RETREAT
| K_REPAIR (target : option Z) (targetId : Z)
| K_FIGHTER (f : FightType) (target : option Z) (prom : FightType).
Definition kcore (k : Kind) : KCore :=
  match k with
  | NilTask => K_NIL | PlayerTask => K_PLAYER | IdleTask _ _ => K_IDLE
  | RetreatTask _ => K_RETREAT
  | RepairTask r => K_REPAIR (r_target r) (r_targetId r)
  | FighterTask f => K_FIGHTER (fightType f) (target f) (promote f)
  end.
Definition kclass (k : KCore) : TClass :=
  match k with
  | K_NIL => C_NIL | K_PLAYER => C_PLAYER | K_IDLE => C_IDLE | K_RETREAT => C_RETREAT | K_REPAIR _ _ => C_REPAIR
  | K_FIGHTER f _ _ => C_FIGHTER f
  end.
Lemma kclass_kcore k : kclass (kcore k) = class_of k.
Proof. by destruct k. Qed.

Record TCore : Type := MkTCore { c_manager : ManagerId; c_dead : bool; c_kind : KCore }.
Definition task_core (T : IUnitTask) : TCore := MkTCore (manager T) (isDead T) (kcore (kind T)).
Record UCore : Type := MkUCore { c_id : Z; c_task : option Z; c_gone : bool; c_shield : bool }.
Definition unit_core (U : CCircuitUnit) : UCore := MkUCore (u_id U) (u_task U) (u_isDead U) (u_hasShield U).
Definition repairer_of (T : IUnitTask) : option Z := match kind T with RetreatTask r => r | _ => None end.
Definition TC (w : World) : gmap Z TCore := task_core <$> tasks w.
Definition UC (w : World) : gmap Z UCore := unit_core <$> units w.
Definition RP (w : World) : gmap Z Z := omap repairer_of (tasks w).

(** ** What a task keeps about its units *)

(** A squad with units has one of them as leader. *)
Definition led (T : IUnitTask) : Prop :=
  isDead T = false → ∀ f, kind T = FighterTask f → is_squad (fightType f) = true →
  match leader (squad f) with Some l => l ∈ t_units T | None => t_units T = ∅ end.
(** [X] are the tasks that are being changed. *)
Definition task_ok (X : gset Z) (U : gmap Z UCore) (t : Z) (T : IUnitTask) : Prop :=
  (t ∉ X → (isDead T = true → t_units T = ∅) ∧ led T) ∧
  (isDead T = false → dom (pathQueries T) ⊆ t_units T) ∧
  match kind T with
  | IdleTask _ _ => pathQueries T = ∅
  | RetreatTask _ => ∀ u v, u ∈ t_units T → v ∈ t_units T → u = v
  | FighterTask f => isDead T = false →
      cowards f ⊆ t_units T ∧ ∀ u, u ∈ shields f → u ∈ t_units T ∧ ∃ V, U !! u = Some V ∧ c_shield V = true
  | _ => True
  end.
(** ** What a unit keeps about its actions *)

Definition ptr_ok (p : option Z) (U : CCircuitUnit) : Prop := ∀ a, p = Some a → a ∈ act_addrs U.
(** Units of these tasks travel on paths. *)
Definition travels (c : TClass) : bool :=
  match c with
  | C_REPAIR => true
  | C_FIGHTER f => is_squad f || match f with SCOUT | BOMB | ARTY => true | _ => false end
  | _ => false
  end.
Definition acts_ok (c : TClass) (U : CCircuitUnit) : Prop :=
  c ≠ C_IDLE → ptr_ok (u_dgunAct U) U ∧ ptr_ok (u_travelAct U) U ∧ (travels c = true → is_Some (u_travelAct U)).

(** ** The managers' lists and the enemies' *)

(** The types that [EnqueueTask] makes tasks of; the others it files as rallies among tasks of another class. *)
Definition enqueues (type : FightType) : bool := match type with GUARD | DEFEND | MELEE => false | _ => true end.
(** The types of task that a defence is promoted to. *)
Definition promotes (type : FightType) : bool := enqueues type && negb (bool_decide (type = RALLY)).
(** The military manager updates its fighter tasks and its retreats. *)
Definition military_updates (c : TCore) : Prop :=
  c_manager c = Military ∧ match c_kind c with K_RETREAT | K_FIGHTER _ _ _ => True | _ => False end.
Record military_ok (C : gmap Z TCore) (m : CMilitaryManager) : Prop := {
  fight_size : zlen (fightTasks m) = FT_SIZE;
  fight_tasks i X t : (fightTasks m).[i] = Some X →
    t ∈ X ↔ ∃ c f e p, C !! t = Some c ∧ c_kind c = K_FIGHTER f e p ∧ FT f = i ∧ c_dead c = false;
  fight_nodup : NoDup (fightUpdates m);
  fight_updates t : t ∈ fightUpdates m → ∃ c, C !! t = Some c ∧ military_updates c;
  fight_living t c : C !! t = Some c → military_updates c → c_dead c = false → t ∈ fightUpdates m;
  fight_manager t c f e p : C !! t = Some c → c_kind c = K_FIGHTER f e p → c_manager c = Military ∧ (f = DEFEND → promotes p = true);
  fight_iter : 0 <= fightIterator m
}.
Record builder_ok (C : gmap Z TCore) (b : CBuilderManager) : Prop := {
  build_nodup : NoDup (buildUpdates b);
  build_updates t : t ∈ buildUpdates b ↔
    ∃ c, C !! t = Some c ∧ c_manager c = Builder ∧ match c_kind c with K_RETREAT | K_REPAIR _ _ => True | _ => False end;
  build_repairs t : t ∈ repairTasks b ↔ ∃ c v id, C !! t = Some c ∧ c_kind c = K_REPAIR v id ∧ c_dead c = false;
  build_count : buildTasksCount b = Z.of_nat (size (repairTasks b));
  build_repaired id t : repairedUnits b !! id = Some t ↔ ∃ c v, C !! t = Some c ∧ c_kind c = K_REPAIR v id ∧ c_dead c = false;
  build_manager t c v id : C !! t = Some c → c_kind c = K_REPAIR v id → c_manager c = Builder
}.
Record targets_ok (C : gmap Z TCore) (e : gmap Z (gset Z)) : Prop := {
  target_tasks x X t : e !! x = Some X → t ∈ X ↔ ∃ c f p, C !! t = Some c ∧ c_kind c = K_FIGHTER f (Some x) p;
  target_alive t c f x p : C !! t = Some c → c_kind c = K_FIGHTER f (Some x) p → is_Some (e !! x)
}.
Definition team_ok (U : gmap Z UCore) (team : gmap Z Z) : Prop :=
  ∀ id v, team !! id = Some v → ∃ V, U !! v = Some V ∧ c_id V = id ∧ c_gone V = false.

(** ** Retreating units and their repairers *)

(** The repairer [r] of a retreat has a live repair task, whose target is a unit of the retreat. *)
Definition helped (X : gset Z) (C : gmap Z TCore) (U : gmap Z UCore) (t r : Z) : Prop :=
  ∃ R tr c v id, U !! r = Some R ∧ c_task R = Some tr ∧ C !! tr = Some c ∧ c_dead c = false ∧
    c_kind c = K_REPAIR (Some v) id ∧ (t ∉ X → ∃ V, U !! v = Some V ∧ c_task V = Some t).
Record links_ok (X : gset Z) (C : gmap Z TCore) (RP : gmap Z Z) (U : gmap Z UCore) : Prop := {
  link_retreat t c r : C !! t = Some c → c_dead c = false → RP !! t = Some r → helped X C U t r;
  link_target t c v id : C !! t = Some c → c_dead c = false → c_kind c = K_REPAIR (Some v) id →
    ∃ V, U !! v = Some V ∧ c_id V = id ∧ c_gone V = false
}.

(** ** The invariant *)

Record world_ok (lost X : gset Z) (w : World) : Prop := {
  wo_owned : owned_ok lost w;
  wo_tasks t T : tasks w !! t = Some T → task_ok X (UC w) t T;
  wo_acts u U t c : units w !! u = Some U → u_task U = Some t → TC w !! t = Some c → acts_ok (kclass (c_kind c)) U;
  wo_military : military_ok (TC w) (military w);
  wo_builder : builder_ok (TC w) (builder w);
  wo_targets : targets_ok (TC w) (enemies w);
  wo_links : links_ok X (TC w) (RP w) (UC w);
  wo_team : team_ok (UC w) (teamUnits w);
  wo_defs u U : units w !! u = Some U → is_Some (unit_range U)
}.
(** ** Looking up cores *)

Lemma core_of_task w t T : tasks w !! t = Some T → TC w !! t = Some (task_core T).
Proof. unfold TC. rewrite lookup_fmap. by intros ->. Qed.
Lemma task_of_core w t c : TC w !! t = Some c → ∃ T, tasks w !! t = Some T ∧ c = task_core T.
Proof. unfold TC. rewrite lookup_fmap. intros (T & ? & ->)%fmap_Some. by eexists. Qed.
Lemma core_of_unit w u U : units w !! u = Some U → UC w !! u = Some (unit_core U).
Proof. unfold UC. rewrite lookup_fmap. by intros ->. Qed.
Lemma unit_of_core w u c : UC w !! u = Some c → ∃ U, units w !! u = Some U ∧ c = unit_core U.
Proof. unfold UC. rewrite lookup_fmap. intros (T & ? & ->)%fmap_Some. by eexists. Qed.
Lemma RP_lookup w t r : RP w !! t = Some r ↔ ∃ T, tasks w !! t = Some T ∧ kind T = RetreatTask (Some r).
Proof.
  unfold RP. rewrite lookup_omap_Some. unfold repairer_of. split.
  - intros (T & HT & Ht). exists T. split; [done|]. destruct (kind T) as [| | |r'| |]; try discriminate. by subst.
  - intros (T & HT & Hk). exists T. by rewrite Hk.
Qed.

(** Inserting a task with the same core. *)
Lemma TC_insert w w' t T T' : tasks w !! t = Some T → task_core T' = task_core T → tasks w' = <[t := T']> (tasks w) → TC w' = TC w.
Proof. intros Ht Hc Hw. unfold TC. rewrite Hw, fmap_insert, Hc. apply insert_id. by rewrite lookup_fmap, Ht. Qed.

(** ** Tasks without units *)

(** The tasks that end when their last unit leaves. *)
Definition ends_empty (c : TClass) : bool :=
  match c with C_RETREAT => true | C_FIGHTER f => match f with RALLY | GUARD | MELEE => false | _ => true end | _ => false end.
(** Such a task, alive without a unit. *)
Definition vacant (w : World) (t : Z) : Prop :=
  ∃ T, tasks w !! t = Some T ∧ isDead T = false ∧ ends_empty (class_of (kind T)) = true ∧ t_units T = ∅.
(** An operation leaves no such task that was not there. *)
Definition fills (w w' : World) : Prop := ∀ t, vacant w' t → vacant w t.
Lemma fills_refl w : fills w w.
Proof. by intros t. Qed.
Lemma fills_trans w1 w2 w3 : fills w1 w2 → fills w2 w3 → fills w1 w3.
Proof. intros H1 H2 t Ht. by apply H1, H2. Qed.
Lemma fills_same w w' : tasks w' = tasks w → fills w w'.
Proof. intros HT t (T & HR). exists T. by rewrite <-HT. Qed.

(** ** The step all operations share *)

(** What happens to the managers, the enemies and the team when units are assigned and removed. *)
Record lists_kept (w w' : World) : Prop := {
  lk_military : military w' = military w;
  lk_builder : ∃ p, builder w' = with_metalPull p (builder w);
  lk_enemies : enemies w' = enemies w;
  lk_team : teamUnits w' = teamUnits w
}.
Lemma with_metalPull_id b : with_metalPull (b_metalPull b) b = b.
Proof. by destruct b. Qed.
Lemma lists_kept_refl w : lists_kept w w.
Proof. split; try done. exists (b_metalPull (builder w)). by rewrite with_metalPull_id. Qed.
Lemma lists_kept_trans w1 w2 w3 : lists_kept w1 w2 → lists_kept w2 w3 → lists_kept w1 w3.
Proof. intros [A1 [p B1] C1 D1] [A2 [q B2] C2 D2]. split; try congruence. exists q. by rewrite B2, B1. Qed.
Lemma lists_kept_same w w' : military w' = military w → builder w' = builder w → enemies w' = enemies w → teamUnits w' = teamUnits w → lists_kept w w'.
Proof. intros H1 H2 H3 H4. split; try done. exists (b_metalPull (builder w)). by rewrite H2, with_metalPull_id. Qed.
Lemma rest_lists w w' : rest_same w w' → lists_kept w w'.
Proof. intros (H1 & H2 & H3 & _ & _ & _ & H4 & _). split; try done. exists (b_metalPull (builder w)). by rewrite H3, with_metalPull_id. Qed.
Lemma lists_heads w w' : lists_kept w w' → same_heads w w'.
Proof. intros [HM [p HB] _ _] m. unfold idleTask, nilTask, playerTask. rewrite HM, HB. by destruct m. Qed.

Lemma builder_ok_pull C p b : builder_ok C b → builder_ok C (with_metalPull p b).
Proof. intros [H1 H2 H3 H4 H5 H6]. by split. Qed.

(** A unit that changes its task is not a repairer of a retreat and does not leave a retreat. *)
Definition free_to_go (X : gset Z) (C : gmap Z TCore) (RP : gmap Z Z) (v : Z) (V : UCore) : Prop :=
  (∀ t c, C !! t = Some c → c_dead c = false → RP !! t ≠ Some v) ∧
  (∀ t c, c_task V = Some t → C !! t = Some c → c_dead c = false → RP !! t = None ∨ t ∈ X).

Lemma links_keeps X X' C R U R' U' :
  links_ok X C R U → (∀ t r, R' !! t = Some r → R !! t = Some r) → X ⊆ X' →
  (∀ v V, U !! v = Some V → ∃ V', U' !! v = Some V' ∧ c_id V' = c_id V ∧ c_gone V' = c_gone V ∧
     (c_task V' = c_task V ∨ free_to_go X' C R' v V)) →
  links_ok X' C R' U'.
Proof.
  intros [L1 L2] HR HX HU. split.
  - intros t c r Ht Hd Hr. destruct (L1 t c r) as (A & tr & c' & v & id & H1 & H2 & H3 & H4 & H5 & H6); [done|done|by apply HR|].
    destruct (HU _ _ H1) as (A' & HA & _ & _ & [HAt|[Hfree _]]); [|by destruct (Hfree t c)].
    exists A', tr, c', v, id. split_and!; try congruence. intros Htx. destruct H6 as (V & HV & HVt); [set_solver|].
    destruct (HU _ _ HV) as (V' & HV' & _ & _ & [HVt'|[_ Hfree]]); [exists V'; split; congruence|].
    destruct (Hfree t c HVt Ht Hd); [congruence|done].
  - intros t c v id Ht Hd Hk. destruct (L2 t c v id) as (V & HV & H1 & H2); [done..|].
    destruct (HU _ _ HV) as (V' & HV' & H1' & H2' & _). exists V'. split_and!; congruence.
Qed.

Lemma team_keeps U U' team :
  team_ok U team → (∀ v V, U !! v = Some V → ∃ V', U' !! v = Some V' ∧ c_id V' = c_id V ∧ c_gone V' = c_gone V) → team_ok U' team.
Proof.
  intros HT HU id v Hv. destruct (HT _ _ Hv) as (V & HV & H1 & H2). destruct (HU _ _ HV) as (V' & HV' & H1' & H2').
  exists V'. split_and!; congruence.
Qed.

(** A unit keeps its identity, and its task unless it is free to go. *)
Definition unit_kept (X : gset Z) (w w' : World) : Prop := ∀ v V, units w !! v = Some V →
  ∃ V', units w' !! v = Some V' ∧ u_id V' = u_id V ∧ u_isDead V' = u_isDead V ∧ u_hasShield V' = u_hasShield V ∧ u_def V' = u_def V ∧
    (u_task V' = u_task V ∨ free_to_go X (TC w) (RP w') v (unit_core V)).

Lemma task_ok_mono X X' U U' t T :
  task_ok X U t T → X ⊆ X' → (∀ u V, U !! u = Some V → c_shield V = true → ∃ V', U' !! u = Some V' ∧ c_shield V' = true) → task_ok X' U' t T.
Proof.
  intros (H1 & H2 & H3) HX HU. split_and!; [intros Hn; apply H1; set_solver|done|].
  destruct (kind T); try done. intros Hd. destruct (H3 Hd) as [H4 H5]. split; [done|]. intros u Hu.
  destruct (H5 u Hu) as [H6 (V & HV & Hs)]. split; [done|]. by eapply HU.
Qed.

Lemma world_ok_keeps lost X lost' X' w w' :
  world_ok lost X w → owned_ok lost' w' → TC w' = TC w → (∀ t r, RP w' !! t = Some r → RP w !! t = Some r) →
  lists_kept w w' → X ⊆ X' → unit_kept X' w w' →
  (∀ t T, tasks w' !! t = Some T → tasks w !! t = Some T ∨ task_ok X' (UC w') t T) →
  (∀ u U, units w' !! u = Some U → units w !! u = Some U ∨ is_Some (unit_range U) ∧
     ∀ t c, u_task U = Some t → TC w !! t = Some c → acts_ok (kclass (c_kind c)) U) →
  world_ok lost' X' w'.
Proof.
  intros W O HC HR [HM [p HB] HE HT] HX HU Htasks Hunits. destruct W as [W1 W2 W3 W4 W5 W6 W7 W8 W9].
  split; rewrite ?HC, ?HM, ?HB, ?HE, ?HT; try done.
  - intros t T Ht. destruct (Htasks _ _ Ht) as [Ht'|]; [|done]. eapply task_ok_mono; [by apply W2|done|]. intros u V Hu Hs.
    destruct (unit_of_core _ _ _ Hu) as (V0 & HV & ->). destruct (HU _ _ HV) as (V' & HV' & _ & _ & H3 & _).
    exists (unit_core V'). split; [by apply core_of_unit|]. simpl in *. congruence.
  - intros u U t c Hu. destruct (Hunits _ _ Hu) as [Hu'|[_ HA]]; [by eapply W3|by eapply HA].
  - by apply builder_ok_pull.
  - eapply links_keeps; [done..|]. intros v c Hv. destruct (unit_of_core _ _ _ Hv) as (V & HV & ->).
    destruct (HU _ _ HV) as (V' & HV' & H1 & H2 & _ & _ & H3). exists (unit_core V'). split; [by apply core_of_unit|done].
  - eapply team_keeps; [done|]. intros v c Hv. destruct (unit_of_core _ _ _ Hv) as (V & HV & ->).
    destruct (HU _ _ HV) as (V' & HV' & H1 & H2 & _ & _ & H3). exists (unit_core V'). split; [by apply core_of_unit|done].
  - intros u U Hu. destruct (Hunits _ _ Hu) as [Hu'|[HA _]]; [by eapply W9|done].
Qed.

(** A unit whose task is no repair and no retreat is free to go. *)
Lemma free_other lost X w R' u U t c :
  world_ok lost X w → (∀ t r, R' !! t = Some r → RP w !! t = Some r) → units w !! u = Some U → u_task U = Some t → TC w !! t = Some c →
  kclass (c_kind c) ≠ C_REPAIR → kclass (c_kind c) ≠ C_RETREAT → free_to_go X (TC w) R' u (unit_core U).
Proof.
  intros W HR HU Ht Hc H1 H2. split.
  - intros t' c' Hc' Hd Hr. apply HR in Hr. destruct (link_retreat _ _ _ _ (wo_links _ _ _ W) _ _ _ Hc' Hd Hr) as (R & tr & c1 & v & id & G1 & G2 & G3 & G4 & G5 & _).
    rewrite (core_of_unit _ _ _ HU) in G1. injection G1 as <-. simpl in G2. assert (t = tr) as <- by congruence.
    rewrite Hc in G3. injection G3 as <-. by rewrite G5 in H1.
  - intros t' c' Ht' Hc' _. simpl in Ht'. assert (t = t') as <- by congruence. left.
    destruct (R' !! t) as [r|] eqn:Hr; [|done]. apply HR in Hr. apply RP_lookup in Hr as (T & HT & Hk).
    rewrite (core_of_task _ _ _ HT) in Hc. injection Hc as <-. simpl in H2. by rewrite Hk in H2.
Qed.
