(* ===== verification/TaskSteps.v ===== *)
(** * TaskSteps: the steps the tasks' operations are made of

    An operation of a task is one of the three base steps (a unit leaves the idle task for a task,
    goes back to it, or all units of a task go back) followed by inner steps, which change one task and
    one unit but not what the other objects know of them.  The lemmas here carry the invariant
    through a base step with the inner steps behind it. *)

From stdpp Require Import sorting.
From S2P Require Import Prelude Float32 EnemyUnit ActionList TaskData TaskCore TaskClasses TaskTheory TaskInvariant.

Open Scope circuit_scope.

(** ** Inner steps *)

Definition sets_of (T : IUnitTask) : gset Z * gset Z :=
  match kind T with FighterTask f => (cowards f, shields f) | _ => (∅, ∅) end.

(** What an inner step keeps of the task, but for a fighter's [cowards] and [shields]. *)
Record tkept (T T' : IUnitTask) : Prop := {
  tk_manager : manager T' = manager T;
  tk_dead : isDead T' = isDead T;
  tk_units : t_units T' = t_units T;
  tk_queries : pathQueries T' = pathQueries T;
  tk_core : kcore (kind T') = kcore (kind T);
  tk_repairer : repairer_of T' = repairer_of T;
  tk_waiting : waiting_of (kind T') = waiting_of (kind T)
}.
Lemma tkept_refl T : tkept T T.
Proof. done. Qed.
Lemma tkept_trans T1 T2 T3 : tkept T1 T2 → tkept T2 T3 → tkept T1 T3.
Proof. intros [] []. split; congruence. Qed.
Lemma tkept_skel T T' : tkept T T' → task_skel T' = task_skel T.
Proof. intros []. unfold task_skel. rewrite <-!kclass_kcore. congruence. Qed.
Lemma tkept_core T T' : tkept T T' → task_core T' = task_core T.
Proof. intros []. unfold task_core. congruence. Qed.

Record ukept (U U' : CCircuitUnit) : Prop := {
  uk_id : u_id U' = u_id U;
  uk_def : u_def U' = u_def U;
  uk_task : u_task U' = u_task U;
  uk_manager : u_manager U' = u_manager U;
  uk_dead : u_isDead U' = u_isDead U;
  uk_shield : u_hasShield U' = u_hasShield U;
  uk_dgun : u_hasDGun U' = u_hasDGun U;
  uk_dgunAct : ptr_ok (u_dgunAct U) U → ptr_ok (u_dgunAct U') U';
  uk_travelAct : ptr_ok (u_travelAct U) U → ptr_ok (u_travelAct U') U';
  uk_travels : is_Some (u_travelAct U) → is_Some (u_travelAct U')
}.
Lemma ukept_refl U : ukept U U.
Proof. done. Qed.
Lemma ukept_trans U1 U2 U3 : ukept U1 U2 → ukept U2 U3 → ukept U1 U3.
Proof. intros [] []. split; solve [congruence|auto]. Qed.

Record inner (t u : Z) (T : IUnitTask) (U : CCircuitUnit) (T' : IUnitTask) (U' : CCircuitUnit) (w w' : World) : Prop := {
  in_tasks : tasks w' = <[t := T']> (tasks w);
  in_units : units w' = <[u := U']> (units w);
  in_lists : lists_kept w w';
  in_frame : lastFrame w' = lastFrame w;
  in_task : tkept T T';
  in_sets : sets_of T' = sets_of T;
  in_unit : ukept U U'
}.
Lemma inner_refl t u T U w : tasks w !! t = Some T → units w !! u = Some U → inner t u T U T U w w.
Proof. intros HT HU. split; try done; [by rewrite insert_id..|apply lists_kept_refl]. Qed.
Lemma inner_trans t u T U T1 U1 T2 U2 w w1 w2 :
  inner t u T U T1 U1 w w1 → inner t u T1 U1 T2 U2 w1 w2 → inner t u T U T2 U2 w w2.
Proof.
  intros [A1 A2 A3 A4 A5 A6 A7] [B1 B2 B3 B4 B5 B6 B7]. split; try congruence.
  - by rewrite B1, A1, insert_insert_eq.
  - by rewrite B2, A2, insert_insert_eq.
  - by eapply lists_kept_trans.
  - by eapply tkept_trans.
  - by eapply ukept_trans.
Qed.
Lemma inner_lookup t u T U T' U' w w' : inner t u T U T' U' w w' → tasks w' !! t = Some T' ∧ units w' !! u = Some U'.
Proof. intros [A1 A2 _ _ _ _ _]. rewrite A1, A2. by rewrite !lookup_insert_eq. Qed.

Section steps.
Context {E : Engine} {H : Heap} {TE : TaskEngine}.

(** *** The inner steps of the model *)

Lemma upd_unit_inner t u f w T U :
  tasks w !! t = Some T → units w !! u = Some U → ukept U (f U) →
  ∃ w', upd_unit u f w = Some w' ∧ inner t u T U T (f U) w w'.
Proof.
  intros HT HU Hk. unfold upd_unit. rewrite HU. simpl. eexists. split; [done|]. split; try done; [by rewrite (insert_id (tasks w))|by apply lists_kept_same].
Qed.
Lemma upd_fighter_inner t u g w T U f :
  tasks w !! t = Some T → units w !! u = Some U → kind T = FighterTask f →
  fightType (g f) = fightType f → (target (g f), promote (g f)) = (target f, promote f) → cowards (g f) = cowards f → shields (g f) = shields f →
  ∃ w', upd_fighter t g w = Some w' ∧ inner t u T U (with_kind (FighterTask (g f)) T) U w w'.
Proof.
  intros HT HU Hf G1 G2 G3 G4. unfold upd_fighter, fighter_of, upd_task. rewrite HT. simpl. rewrite Hf. simpl.
  eexists. split; [done|]. split; try done; [by rewrite (insert_id (units w))|by apply lists_kept_same| |].
  - split; try done; unfold repairer_of; simpl; rewrite Hf; simpl; congruence.
  - unfold sets_of. simpl. rewrite Hf. congruence.
Qed.
Lemma upd_repair_inner t u g w T U r :
  tasks w !! t = Some T → units w !! u = Some U → kind T = RepairTask r →
  r_target (g r) = r_target r → r_targetId (g r) = r_targetId r →
  ∃ w', upd_repair t g w = Some w' ∧ inner t u T U (with_kind (RepairTask (g r)) T) U w w'.
Proof.
  intros HT HU Hf G1 G2. unfold upd_repair, upd_task. rewrite HT. simpl. rewrite Hf. simpl.
  eexists. split; [done|]. split; try done; [by rewrite (insert_id (units w))|by apply lists_kept_same| |].
  - split; try done; unfold repairer_of; simpl; rewrite Hf; simpl; congruence.
  - unfold sets_of. simpl. by rewrite Hf.
Qed.
Lemma TRY_UNIT_rest u w : units (TRY_UNIT u w) = units w ∧ tasks (TRY_UNIT u w) = tasks w ∧ lists_kept w (TRY_UNIT u w) ∧ lastFrame (TRY_UNIT u w) = lastFrame w.
Proof. unfold TRY_UNIT. destruct (engine w) as [|[] e]; simpl; (split_and!; [done..| |done]; by apply lists_kept_same). Qed.
Lemma TRY_UNIT_inner t u v w T U :
  tasks w !! t = Some T → units w !! u = Some U → inner t u T U T U w (TRY_UNIT v w).
Proof.
  intros HT HU. destruct (TRY_UNIT_rest v w) as (H1 & H2 & H3 & H4).
  split; try done; rewrite ?H1, ?H2; by rewrite insert_id.
Qed.
Lemma pull_inner t u p w T U :
  tasks w !! t = Some T → units w !! u = Some U → inner t u T U T U w (set_builder (with_metalPull p (builder w)) w).
Proof. intros HT HU. split; try done; simpl; [by rewrite insert_id..|]. split; try done. by exists p. Qed.

Lemma act_addrs_push x l d v U : act_addrs (unit_with_acts (PushBack x l) d v U) = {[a_addr x]} ∪ act_addrs (unit_with_acts l d v U).
Proof. unfold act_addrs. simpl. rewrite fmap_app, list_to_set_app_L. simpl. set_solver. Qed.
Lemma PushTravelAct_kept b U : ukept U (PushTravelAct b U) ∧ ptr_ok (u_travelAct (PushTravelAct b U)) (PushTravelAct b U) ∧ is_Some (u_travelAct (PushTravelAct b U)).
Proof.
  unfold PushTravelAct. split_and!; [split; try done| |by eexists]; unfold ptr_ok; rewrite act_addrs_push; simpl.
  - intros HU a Ha. apply elem_of_union_r. by apply HU.
  - intros _ a [= <-]. destruct b; set_solver.
  - intros a [= <-]. destruct b; set_solver.
Qed.
Lemma PushDGunAct_kept U : ukept U (PushDGunAct U).
Proof.
  unfold PushDGunAct. split; try done; unfold ptr_ok; rewrite act_addrs_push; simpl.
  - intros HU a [= <-]. set_solver.
  - intros HU a Ha. apply elem_of_union_r. by apply HU.
Qed.
Lemma PushSupportAct_kept U : ukept U (PushSupportAct U).
Proof.
  unfold PushSupportAct. split; try done; unfold ptr_ok; rewrite act_addrs_push; simpl.
  - intros HU a Ha. apply elem_of_union_r. by apply HU.
  - intros HU a Ha. apply elem_of_union_r. by apply HU.
Qed.
Lemma on_action_kept p g U : (∀ x, a_addr (g x) = a_addr x) → ptr_ok p U → is_Some p → ∃ U', on_action p g U = Some U' ∧ ukept U U'.
Proof.
  intros Hg Hp [a ->]. unfold on_action. simpl. rewrite bool_decide_true by (by apply Hp). eexists. split; [done|].
  assert (∀ b, b ∈ act_addrs (unit_with_acts (MkActionList ((λ x, if bool_decide (a_addr x = a) then g x else x) <$> actions (u_acts U)) (blocker (u_acts U))) (u_dgunAct U) (u_travelAct U) U) ↔ b ∈ act_addrs U) as Hin.
  { intros b. unfold act_addrs. simpl. rewrite <-list_fmap_compose. rewrite (list_fmap_ext _ a_addr (actions (u_acts U))); [done|].
    intros i x _. simpl. case_bool_decide; [apply Hg|done]. }
  split; try done; intros HU b Hb; apply Hin; by apply HU.
Qed.

(** *** The invariant through inner steps *)

Definition travel_ok (c : TClass) (U : CCircuitUnit) : Prop := travels c = true → is_Some (u_travelAct U).

Lemma RP_insert_kept w w' t T T' : tasks w !! t = Some T → repairer_of T' = repairer_of T → tasks w' = <[t := T']> (tasks w) → RP w' = RP w.
Proof.
  intros HT HR Hw. apply map_eq. intros t'. unfold RP. rewrite Hw, !lookup_omap. destruct (decide (t' = t)) as [->|Hne].
  - rewrite lookup_insert_eq, HT. simpl. by rewrite HR.
  - by rewrite lookup_insert_ne.
Qed.

Lemma unit_kept_insert X w w' u U U' :
  units w !! u = Some U → units w' = <[u := U']> (units w) → u_id U' = u_id U → u_isDead U' = u_isDead U →
  u_hasShield U' = u_hasShield U → u_def U' = u_def U →
  (u_task U' = u_task U ∨ free_to_go X (TC w) (RP w') u (unit_core U)) → unit_kept X w w'.
Proof.
  intros HU Hw H1 H2 H3 H4 H5 v V Hv. rewrite Hw. destruct (decide (v = u)) as [->|Hne].
  - rewrite lookup_insert_eq. rewrite HU in Hv. injection Hv as <-. by exists U'.
  - rewrite lookup_insert_ne by done. exists V. split_and!; [done..|by left].
Qed.

(** What stays of [task_ok] when only the inside of a task changes. *)
Lemma task_ok_kept X U t T T' : task_ok X U t T → tkept T T' → sets_of T' = sets_of T → (t ∉ X → led T') → task_ok X U t T'.
Proof.
  intros (H1 & H2 & H3) [K1 K2 K3 K4 K5 K6 K7] Hs Hl. split_and!.
  - intros Hn. split; [|by apply Hl]. rewrite K2, K3. by apply H1.
  - by rewrite K2, K3, K4.
  - rewrite K2, K3, K4. unfold sets_of in Hs.
    destruct (kind T) as [| | | | |f], (kind T') as [| | | | |f']; try discriminate; try done.
    injection Hs as Hc Hs. simpl in *. by rewrite Hc, Hs.
Qed.

Lemma shields_kept X w w' v V : unit_kept X w w' → UC w !! v = Some V → c_shield V = true → ∃ V', UC w' !! v = Some V' ∧ c_shield V' = true.
Proof.
  intros HK Hv Hs. destruct (unit_of_core _ _ _ Hv) as (V0 & HV & ->). destruct (HK _ _ HV) as (V' & HV' & _ & _ & H3 & _).
  exists (unit_core V'). split; [by apply core_of_unit|]. simpl in *. congruence.
Qed.

Lemma inner_world lost X t u T U T' U' w w' :
  world_ok lost X w → tasks w !! t = Some T → units w !! u = Some U → u_task U = Some t →
  inner t u T U T' U' w w' → (t ∉ X → led T') → world_ok lost X w'.
Proof.
  intros W HT HU Hut [A1 A2 A3 A4 A5 A6 A7] Hl.
  assert (TC w' = TC w) as HC by (eapply TC_insert; [done| |done]; by apply tkept_core).
  assert (RP w' = RP w) as HR by (eapply RP_insert_kept; [done| |done]; by destruct A5).
  assert (unit_kept X w w') as Hkept by (destruct A7; eapply unit_kept_insert; [done..|by left]).
  eapply world_ok_keeps; [done| |done|by rewrite HR|done|done|done| |].
  - eapply owned_same; [|apply W]. split; [| |by apply lists_heads].
    + unfold TS. rewrite A1, fmap_insert, (tkept_skel _ _ A5). apply insert_id. by rewrite lookup_fmap, HT.
    + unfold US. rewrite A2, fmap_insert. apply insert_id. rewrite lookup_fmap, HU. simpl. destruct A7. unfold unit_skel. congruence.
  - intros t' T0 Ht'. rewrite A1 in Ht'. destruct (decide (t' = t)) as [->|Hne]; [|rewrite lookup_insert_ne in Ht' by done; by left].
    rewrite lookup_insert_eq in Ht'. injection Ht' as <-. right. eapply task_ok_kept; [|done..].
    eapply task_ok_mono; [by apply W|done|]. intros; by eapply shields_kept.
  - intros v V Hv. rewrite A2 in Hv. destruct (decide (v = u)) as [->|Hne]; [|rewrite lookup_insert_ne in Hv by done; by left].
    rewrite lookup_insert_eq in Hv. injection Hv as <-. right. split.
    + unfold unit_range. destruct A7 as [_ -> _]. apply (wo_defs _ _ _ W _ _ HU).
    + intros t' c Ht' Hc Hi. destruct A7 as [_ _ K3 _ _ _ _ K8 K9 K10]. rewrite K3 in Ht'.
      destruct (wo_acts _ _ _ W _ _ _ _ HU Ht' Hc Hi) as (P1 & P2 & P3). split_and!; auto.
Qed.

(** *** A unit leaves the idle task for [t] *)

Record assigns (t u : Z) (T : IUnitTask) (U : CCircuitUnit) (T' : IUnitTask) (U' : CCircuitUnit) (w w' : World) : Prop := {
  as_tasks : ∃ I, tasks w !! idleTask w (manager T) = Some I ∧ idleTask w (manager T) ≠ t ∧
    tasks w' = <[t := T']> (<[idleTask w (manager T) := erase_idle u I]> (tasks w));
  as_units : units w' = <[u := U']> (units w);
  as_lists : lists_kept w w';
  as_frame : lastFrame w' = lastFrame w;
  as_task : tkept (assigned_task u T) T';
  as_sets : (sets_of T').1 = (sets_of T).1 ∧ ∀ v, v ∈ (sets_of T').2 → v ∈ (sets_of T).2 ∨ v = u ∧ u_hasShield U = true;
  as_unit : ukept (assigned_unit t (lastFrame w) U) U'
}.
Lemma assigns_inner t u T U T1 U1 T2 U2 w w1 w2 :
  assigns t u T U T1 U1 w w1 → inner t u T1 U1 T2 U2 w1 w2 → assigns t u T U T2 U2 w w2.
Proof.
  intros [(I & H1 & H2 & A1) A2 A3 A4 A5 A6 A7] [B1 B2 B3 B4 B5 B6 B7]. split; try congruence.
  - exists I. split_and!; [done..|]. by rewrite B1, A1, insert_insert_eq.
  - by rewrite B2, A2, insert_insert_eq.
  - by eapply lists_kept_trans.
  - by eapply tkept_trans.
  - by rewrite B6.
  - by eapply ukept_trans.
Qed.
Lemma assigns_lookup t u T U T' U' w w' : assigns t u T U T' U' w w' → tasks w' !! t = Some T' ∧ units w' !! u = Some U'.
Proof. intros [(I & _ & _ & A1) A2 _ _ _ _ _]. rewrite A1, A2. by rewrite !lookup_insert_eq. Qed.

(** The unit [u] idles, and can be given to [t]. *)
Record may_assign (t u : Z) (T : IUnitTask) (U : CCircuitUnit) (w : World) : Prop := {
  ma_task : tasks w !! t = Some T;
  ma_unit : units w !! u = Some U;
  ma_idle : class_of (kind T) ≠ C_IDLE;
  ma_nil : class_of (kind T) ≠ C_NIL;
  ma_live : isDead T = false;
  ma_manager : u_manager U = Some (manager T);
  ma_gone : u_isDead U = false;
  ma_waits : u_task U = Some (idleTask w (manager T))
}.

Lemma task_is_unique lost w u U t t' T' :
  owned_ok lost w → units w !! u = Some U → u_task U = Some t → tasks w !! t' = Some T' → u ∈ t_units T' → t' = t.
Proof.
  intros O HU Ht HT' Hu. destruct (own_member _ _ O t' (task_skel T') u) as (V & HV & Htk & _); [by apply skel_of_task|done|].
  rewrite (skel_of_unit _ _ _ HU) in HV. injection HV as <-. simpl in Htk. congruence.
Qed.

Lemma erase_idle_facts u I : class_of (kind I) = C_IDLE →
  task_core (erase_idle u I) = task_core I ∧ repairer_of (erase_idle u I) = repairer_of I ∧ pathQueries (erase_idle u I) = pathQueries I.
Proof. unfold erase_idle, task_core, repairer_of. intros Hc. case_bool_decide; [|done]. simpl. by destruct (kind I). Qed.

(** The unit [u] and the idle task after it. *)
Lemma idle_changes lost X X' U' w i I I' :
  world_ok lost X w → tasks w !! i = Some I → class_of (kind I) = C_IDLE → manager I = manager I' → isDead I = false →
  kcore (kind I') = kcore (kind I) → isDead I' = isDead I → pathQueries I' = pathQueries I → task_ok X' U' i I'.
Proof.
  intros W HI Hc Hm Hd Hk Hd' Hq. destruct (wo_tasks _ _ _ W _ _ HI) as (_ & H2 & H3). destruct (kind I) eqn:HkI; try discriminate.
  split_and!.
  - intros _. split; [congruence|]. intros _ f Hf. by rewrite Hf in Hk.
  - rewrite Hq, H3. intros _. set_solver.
  - destruct (kind I'); try discriminate. congruence.
Qed.

Lemma TC_insert2 w w' t T T' i I I' :
  tasks w !! t = Some T → tasks w !! i = Some I → i ≠ t → task_core T' = task_core T → task_core I' = task_core I →
  tasks w' = <[t := T']> (<[i := I']> (tasks w)) → TC w' = TC w.
Proof.
  intros Ht Hi Hne H1 H2 Hw. transitivity (TC (set_tasks (<[i := I']> (tasks w)) w)).
  - eapply (TC_insert _ _ t T T'); [|done|done]. simpl. by rewrite lookup_insert_ne.
  - by eapply (TC_insert _ _ i I I').
Qed.
Lemma RP_insert2 w w' t T T' i I I' :
  tasks w !! t = Some T → tasks w !! i = Some I → i ≠ t → repairer_of T' = repairer_of T → repairer_of I' = repairer_of I →
  tasks w' = <[t := T']> (<[i := I']> (tasks w)) → RP w' = RP w.
Proof.
  intros Ht Hi Hne H1 H2 Hw. transitivity (RP (set_tasks (<[i := I']> (tasks w)) w)).
  - eapply (RP_insert_kept _ _ t T T'); [|done|done]. simpl. by rewrite lookup_insert_ne.
  - by eapply (RP_insert_kept _ _ i I I').
Qed.

(** What stays of [task_ok] when the unit [u] joins. *)
Lemma assigned_task_ok X C C' t u T T' (sh : bool) :
  task_ok X C t T → isDead T = false → tkept (assigned_task u T) T' →
  (sets_of T').1 = (sets_of T).1 → (∀ v, v ∈ (sets_of T').2 → v ∈ (sets_of T).2 ∨ v = u ∧ sh = true) →
  (t ∉ X → led T') → (class_of (kind T) = C_RETREAT → t_units T = ∅) →
  (sh = true → ∃ V, C' !! u = Some V ∧ c_shield V = true) →
  (∀ v V, C !! v = Some V → c_shield V = true → ∃ V', C' !! v = Some V' ∧ c_shield V' = true) →
  task_ok X C' t T'.
Proof.
  intros (G1 & G2 & G3) M5 [K1 K2 K3 K4 K5 K6 K7] S1 S2 Hled Hret Hsh HC. simpl in *. split_and!.
  - intros Hx. split; [congruence|by apply Hled].
  - intros _. rewrite K4, K3. specialize (G2 M5). set_solver.
  - unfold sets_of in S1, S2. destruct (kind T) as [| | | | |f] eqn:HkT, (kind T') as [| | | | |f']; try discriminate; try done.
    + congruence.
    + rewrite K3, Hret by done. intros x y. set_solver.
    + simpl in S1, S2. intros _. destruct (G3 M5) as [G4 G5]. rewrite S1, K3. split; [set_solver|].
      intros v Hv. destruct (S2 v Hv) as [Hv'|[-> Hs]]; [|split; [set_solver|by apply Hsh]].
      destruct (G5 v Hv') as [Hin (V & HV & Hs)]. split; [set_solver|by eapply HC].
Qed.

Lemma assigns_world lost X t u T U T' U' w w' :
  world_ok lost X w → may_assign t u T U w → assigns t u T U T' U' w w' →
  (t ∉ X → led T') → (class_of (kind T) = C_RETREAT → t_units T = ∅) → travel_ok (class_of (kind T)) U' →
  world_ok (lost ∖ {[u]}) X w'.
Proof.
  intros W [M1 M2 M3 M4 M5 M6 M7 M8] [(I & A0 & Hne & A1) A2 A3 A4 A5 A6 A7] Hled Hret Htrav.
  pose proof (wo_owned _ _ _ W) as O. destruct (idle_task _ _ (manager T) O) as (I0 & Y & n & HI & HIk & HIm & HId & _).
  assert (I0 = I) as -> by congruence. assert (class_of (kind I) = C_IDLE) as HIc by (by rewrite HIk).
  destruct (erase_idle_facts u I HIc) as (F1 & F2 & F3).
  assert (only_in u (idleTask w (manager T)) w) as Hon.
  { intros t' S HS Hin. destruct (task_of_skel _ _ _ HS) as (T0 & HT0 & ->). by eapply task_is_unique. }
  destruct (IUnitTask_AssignTo_ok lost t u w T U O M1 M3 M2 M6 Hon) as (w1 & I1 & _ & Hmv & _ & HI1 & _ & HT1 & HU1).
  assert (I1 = I) as -> by congruence.
  assert (TC w' = TC w) as HC by (apply (TC_insert2 w w' t T T' _ I _ M1 A0 Hne (tkept_core _ _ A5) F1 A1)).
  assert (RP w' = RP w) as HR by (apply (RP_insert2 w w' t T T' _ I _ M1 A0 Hne (tk_repairer _ _ A5) F2 A1)).
  assert (free_to_go X (TC w) (RP w') u (unit_core U)) as Hfree.
  { eapply free_other; [done|by rewrite HR|done|done|by apply core_of_task| |]; simpl; by rewrite kclass_kcore, HIc. }
  assert (unit_kept X w w') as Hkept by (destruct A7; eapply unit_kept_insert; [done..|by right]).
  eapply world_ok_keeps; [done| |done|by rewrite HR|done|done|done| |].
  - apply (owned_moved lost u t (unit_skel U) (task_skel T) w w'); [exact O| |by apply skel_of_task|exact M4|by apply skel_of_unit|exact M6|exact M7].
    destruct Hmv as [V1 V2 V3]. split.
    + intros t'. rewrite <-V1, !TS_lookup, A1, HT1. destruct (decide (t' = t)) as [->|Hn]; [|by rewrite !(lookup_insert_ne _ t)].
      rewrite !lookup_insert_eq. simpl. f_equal. by apply tkept_skel.
    + intros v. rewrite <-V2, !US_lookup, A2, HU1. destruct (decide (v = u)) as [->|Hn]; [|by rewrite !lookup_insert_ne].
      rewrite !lookup_insert_eq. simpl. f_equal. destruct A7. unfold unit_skel. congruence.
    + by apply lists_heads.
  - intros t' T0 Ht'. rewrite A1 in Ht'. destruct (decide (t' = t)) as [->|Hn].
    + rewrite lookup_insert_eq in Ht'. injection Ht' as <-. right. destruct A6 as [S1 S2].
      eapply (assigned_task_ok X (UC w) _ _ u T _ (u_hasShield U)); [by apply W|done..| |by intros; eapply shields_kept].
      intros Hs. eapply (shields_kept X w); [done|by apply core_of_unit|done].
    + rewrite lookup_insert_ne in Ht' by done. destruct (decide (t' = idleTask w (manager T))) as [->|Hn2].
      * rewrite lookup_insert_eq in Ht'. injection Ht' as <-. right. injection F1 as F11 F12 F13.
        eapply (idle_changes lost X X _ w); [done|exact HI|done..].
      * rewrite lookup_insert_ne in Ht' by done. by left.
  - intros v V Hv. rewrite A2 in Hv. destruct (decide (v = u)) as [->|Hn]; [|rewrite lookup_insert_ne in Hv by done; by left].
    rewrite lookup_insert_eq in Hv. injection Hv as <-. right. destruct A7 as [_ K2 K3 _ _ _ _ K8 K9 _]. split.
    + unfold unit_range. rewrite K2. apply (wo_defs _ _ _ W _ _ M2).
    + intros t' c Ht' Hc _. rewrite K3 in Ht'. injection Ht' as <-. rewrite (core_of_task _ _ _ M1) in Hc. injection Hc as <-. simpl.
      rewrite kclass_kcore. split_and!; [by apply K8|by apply K9|done].
Qed.

(** *** A unit goes back to the idle task *)

Record releases (t u : Z) (T : IUnitTask) (U : CCircuitUnit) (T' : IUnitTask) (U' : CCircuitUnit) (w w' : World) : Prop := {
  re_tasks : ∃ I, tasks w !! idleTask w (manager T) = Some I ∧ idleTask w (manager T) ≠ t ∧
    tasks w' = <[t := T']> (<[idleTask w (manager T) := insert_unit u I]> (tasks w));
  re_units : units w' = <[u := U']> (units w);
  re_lists : lists_kept w w';
  re_frame : lastFrame w' = lastFrame w;
  re_task : tkept (released_task u (lastFrame w) T) T';
  re_sets : (sets_of T').1 ⊆ (sets_of T).1 ∖ {[u]} ∧ (sets_of T').2 ⊆ (sets_of T).2 ∧ (u_hasShield U = true → u ∉ (sets_of T').2);
  re_unit : ukept (released_unit (idleTask w (manager T)) (lastFrame w) U) U'
}.
Lemma releases_inner t u T U T1 U1 T2 U2 w w1 w2 :
  releases t u T U T1 U1 w w1 → inner t u T1 U1 T2 U2 w1 w2 → releases t u T U T2 U2 w w2.
Proof.
  intros [(I & H1 & H2 & A1) A2 A3 A4 A5 A6 A7] [B1 B2 B3 B4 B5 B6 B7]. split; try congruence.
  - exists I. split_and!; [done..|]. by rewrite B1, A1, insert_insert_eq.
  - by rewrite B2, A2, insert_insert_eq.
  - by eapply lists_kept_trans.
  - by eapply tkept_trans.
  - by eapply ukept_trans.
Qed.
Lemma releases_lookup t u T U T' U' w w' : releases t u T U T' U' w w' → tasks w' !! t = Some T' ∧ units w' !! u = Some U'.
Proof. intros [(I & _ & _ & A1) A2 _ _ _ _ _]. rewrite A1, A2. by rewrite !lookup_insert_eq. Qed.

(** The unit [u] belongs to [t] and can leave it. *)
Record may_release (t u : Z) (T : IUnitTask) (U : CCircuitUnit) (w : World) : Prop := {
  mr_task : tasks w !! t = Some T;
  mr_unit : units w !! u = Some U;
  mr_idle : class_of (kind T) ≠ C_IDLE;
  mr_gone : u_isDead U = false;
  mr_here : u_task U = Some t
}.

Lemma released_kept u frame T : 
  manager (released_task u frame T) = manager T ∧ isDead (released_task u frame T) = isDead T ∧ kind (released_task u frame T) = kind T ∧
  t_units (released_task u frame T) = t_units T ∖ {[u]} ∧ pathQueries (released_task u frame T) = delete u (pathQueries T).
Proof. unfold released_task, touch_empty. by case_bool_decide. Qed.

Lemma released_task_ok X X' C C' t u T T' (sh : bool) frame :
  task_ok X C t T → X ⊆ X' → tkept (released_task u frame T) T' →
  (sets_of T').1 ⊆ (sets_of T).1 ∖ {[u]} → (sets_of T').2 ⊆ (sets_of T).2 → u ∉ (sets_of T').2 ∨ isDead T = true →
  (t ∉ X' → led T') →
  (∀ v V, C !! v = Some V → c_shield V = true → ∃ V', C' !! v = Some V' ∧ c_shield V' = true) →
  task_ok X' C' t T'.
Proof.
  intros (G1 & G2 & G3) HX [K1 K2 K3 K4 K5 K6 K7] S1 S2 S3 Hled HC.
  destruct (released_kept u frame T) as (F1 & F2 & F3 & F4 & F5). rewrite F4 in K3. rewrite F2 in K2. rewrite F3 in K5. rewrite F5 in K4.
  split_and!.
  - intros Hx. split; [|by apply Hled]. rewrite K2, K3. intros Hd. destruct (G1 ltac:(set_solver)) as [G _]. rewrite G by done. set_solver.
  - rewrite K2, K3, K4. intros Hd. specialize (G2 Hd). rewrite dom_delete_L. set_solver.
  - unfold sets_of in S1, S2, S3. destruct (kind T) as [| | | | |f] eqn:HkT, (kind T') as [| | | | |f']; try discriminate; try done.
    + rewrite K4, G3. apply delete_empty.
    + rewrite K3. intros x y. set_solver.
    + simpl in S1, S2, S3. rewrite K2, K3. intros Hd. destruct (G3 Hd) as [G4 G5]. split; [set_solver|].
      intros v Hv. destruct (G5 v) as [Hin (V & HV & Hs)]; [set_solver|]. destruct S3 as [S3|]; [|congruence].
      split; [set_solver|by eapply HC].
Qed.

Lemma releases_world lost X X' t u T U T' U' w w' :
  world_ok lost X w → X ⊆ X' → may_release t u T U w → releases t u T U T' U' w w' →
  free_to_go X' (TC w) (RP w) u (unit_core U) → (t ∉ X' → led T') → world_ok (lost ∖ {[u]}) X' w'.
Proof.
  intros W HX [M1 M2 M3 M4 M5] [(I & A0 & Hne & A1) A2 A3 A4 A5 A6 A7] Hfree Hled.
  pose proof (wo_owned _ _ _ W) as O. destruct (idle_task _ _ (manager T) O) as (I0 & Y & n & HI & HIk & HIm & HId & _).
  assert (I0 = I) as -> by congruence. assert (class_of (kind I) = C_IDLE) as HIc by (by rewrite HIk).
  destruct (IUnitTask_RemoveAssignee_ok lost t u w T U O M1 M3 M2 M5) as (w1 & I1 & _ & Hmv & _ & HI1 & _ & HT1 & HU1).
  assert (I1 = I) as -> by congruence. destruct (released_kept u (lastFrame w) T) as (F1 & F2 & F3 & F4 & F5).
  assert (task_core T' = task_core T) as HcT by (rewrite (tkept_core _ _ A5); unfold task_core; congruence).
  assert (repairer_of T' = repairer_of T) as HrT by (rewrite (tk_repairer _ _ A5); unfold repairer_of; by rewrite F3).
  assert (TC w' = TC w) as HC by (apply (TC_insert2 w w' t T T' _ I (insert_unit u I) M1 A0 Hne HcT eq_refl A1)).
  assert (RP w' = RP w) as HR by (apply (RP_insert2 w w' t T T' _ I (insert_unit u I) M1 A0 Hne HrT eq_refl A1)).
  assert (unit_kept X' w w') as Hkept.
  { destruct A7; eapply unit_kept_insert; [done..|right; by rewrite HR]. }
  eapply world_ok_keeps; [done| |done|by rewrite HR|done|done|done| |].
  - apply (owned_moved lost u (idleTask w (manager T)) (unit_skel U) (task_skel I) w w'); [exact O| |by apply skel_of_task|simpl; by rewrite HIk|by apply skel_of_unit| |exact M4].
    2:{ destruct (own_task _ _ O _ _ _ (skel_of_unit _ _ _ M2) M5) as (S & HS & -> & _). rewrite (skel_of_task _ _ _ M1) in HS. injection HS as <-. simpl. congruence. }
    destruct Hmv as [V1 V2 V3]. split.
    + intros t'. rewrite <-V1, !TS_lookup, A1, HT1. destruct (decide (t' = t)) as [->|Hn]; [|by rewrite !(lookup_insert_ne _ t)].
      rewrite !lookup_insert_eq. simpl. f_equal. by apply tkept_skel.
    + intros v. rewrite <-V2, !US_lookup, A2, HU1. destruct (decide (v = u)) as [->|Hn]; [|by rewrite !lookup_insert_ne].
      rewrite !lookup_insert_eq. simpl. f_equal. destruct A7. unfold unit_skel. congruence.
    + by apply lists_heads.
  - intros t' T0 Ht'. rewrite A1 in Ht'. destruct (decide (t' = t)) as [->|Hn].
    + rewrite lookup_insert_eq in Ht'. injection Ht' as <-. right. destruct A6 as (S1 & S2 & S3).
      eapply (released_task_ok X X' (UC w) _ _ u T _ (u_hasShield U)); [by apply W|done..| |done|by intros; eapply shields_kept].
      destruct (isDead T) eqn:Hd; [by right|left]. intros Hin. specialize (S2 _ Hin).
      destruct (u_hasShield U) eqn:Hs; [by apply S3|]. destruct (wo_tasks _ _ _ W _ _ M1) as (_ & _ & G). unfold sets_of in S2.
      destruct (kind T) as [| | | | |f]; [by apply not_elem_of_empty in S2..|]. destruct (G Hd) as [_ G5]. destruct (G5 _ S2) as [_ (V & HV & HVs)].
      rewrite (core_of_unit _ _ _ M2) in HV. injection HV as <-. simpl in HVs. congruence.
    + rewrite lookup_insert_ne in Ht' by done. destruct (decide (t' = idleTask w (manager T))) as [->|Hn2].
      * rewrite lookup_insert_eq in Ht'. injection Ht' as <-. right.
        apply (idle_changes lost X X' _ w _ I (insert_unit u I) W HI HIc eq_refl HId eq_refl eq_refl eq_refl).
      * rewrite lookup_insert_ne in Ht' by done. by left.
  - intros v V Hv. rewrite A2 in Hv. destruct (decide (v = u)) as [->|Hn]; [|rewrite lookup_insert_ne in Hv by done; by left].
    rewrite lookup_insert_eq in Hv. injection Hv as <-. right. destruct A7 as [_ K2 K3 _ _ _ _ _ _ _]. split.
    + unfold unit_range. rewrite K2. apply (wo_defs _ _ _ W _ _ M2).
    + intros t' c Ht' Hc Hi. rewrite K3 in Ht'. injection Ht' as <-. rewrite (core_of_task _ _ _ HI) in Hc. injection Hc as <-. simpl in Hi.
      by rewrite kclass_kcore, HIk in Hi.
Qed.
End steps.
