(* ===== verification/TaskStop.v ===== *)
(** * TaskStop: aborting tasks

    [DequeueTask], [AbortTask], [DoneTask] and [Stop] under the invariant: they return, the task is dead
    and empty, its units idle, and everything else is as [world_ok] wants it. *)

From stdpp Require Import sorting.
From S2P Require Import Prelude Float32 EnemyUnit ActionList TaskData TaskCore TaskClasses TaskTheory TaskInvariant TaskSteps.

Open Scope circuit_scope.

Section stop.
Context {E : Engine} {H : Heap} {TE : TaskEngine}.

(** Tasks that can be aborted. *)
Definition stoppable (c : TClass) : bool := match c with C_RETREAT | C_REPAIR | C_FIGHTER _ => true | _ => false end.

(** ** The task is marked dead and forgotten by its manager *)

Definition dead_core (c : TCore) : TCore := MkTCore (c_manager c) true (c_kind c).

Section dead.
Context (C : gmap Z TCore) (t : Z) (c : TCore) (Hc : C !! t = Some c).

(** Whatever does not depend on the mark stays; what is alive is what was, but for [t]. *)
Lemma dead_lookup t' c' : <[t := dead_core c]> C !! t' = Some c' →
  ∃ c0, C !! t' = Some c0 ∧ c_manager c' = c_manager c0 ∧ c_kind c' = c_kind c0 ∧ c_dead c' = (if bool_decide (t' = t) then true else c_dead c0).
Proof using Hc.
  destruct (decide (t' = t)) as [->|Hne].
  - rewrite lookup_insert_eq. intros [= <-]. exists c. by rewrite bool_decide_true.
  - rewrite lookup_insert_ne by done. intros Hc'. exists c'. by rewrite bool_decide_false.
Qed.
Lemma dead_lookup_back t' c0 : C !! t' = Some c0 →
  ∃ c', <[t := dead_core c]> C !! t' = Some c' ∧ c_manager c' = c_manager c0 ∧ c_kind c' = c_kind c0 ∧
        c_dead c' = (if bool_decide (t' = t) then true else c_dead c0).
Proof using Hc.
  destruct (decide (t' = t)) as [->|Hne]; intros Hc'.
  - exists (dead_core c). rewrite lookup_insert_eq, bool_decide_true by done. assert (c0 = c) as -> by congruence. done.
  - exists c0. by rewrite lookup_insert_ne, bool_decide_false.
Qed.
Lemma dead_iff (P : ManagerId → KCore → Prop) t' :
  (∃ c', <[t := dead_core c]> C !! t' = Some c' ∧ P (c_manager c') (c_kind c')) ↔ (∃ c', C !! t' = Some c' ∧ P (c_manager c') (c_kind c')).
Proof using Hc.
  split; intros (c' & H1 & H2).
  - destruct (dead_lookup _ _ H1) as (c0 & H3 & H4 & H5 & _). rewrite H4, H5 in H2. by exists c0.
  - destruct (dead_lookup_back _ _ H1) as (c0 & H3 & H4 & H5 & _). exists c0. by rewrite H4, H5.
Qed.
Lemma alive_iff (P : ManagerId → KCore → Prop) t' :
  (∃ c', <[t := dead_core c]> C !! t' = Some c' ∧ P (c_manager c') (c_kind c') ∧ c_dead c' = false) ↔
  t' ≠ t ∧ ∃ c', C !! t' = Some c' ∧ P (c_manager c') (c_kind c') ∧ c_dead c' = false.
Proof using Hc.
  split.
  - intros (c' & H1 & H2 & H3). destruct (dead_lookup _ _ H1) as (c0 & H4 & H5 & H6 & H7). rewrite H3 in H7. rewrite H5, H6 in H2.
    case_bool_decide; [done|]. split; [done|]. by exists c0.
  - intros (Hne & c' & H1 & H2 & H3). exists c'. by rewrite lookup_insert_ne.
Qed.

Lemma updates_dead t' : (∃ c', C !! t' = Some c' ∧ military_updates c') → ∃ c', <[t := dead_core c]> C !! t' = Some c' ∧ military_updates c'.
Proof using Hc. intros Hx. by apply (dead_iff (λ m k, m = Military ∧ match k with K_RETREAT | K_FIGHTER _ _ _ => True | _ => False end)). Qed.
Lemma living_dead m t' c' : military_ok C m →
  <[t := dead_core c]> C !! t' = Some c' → military_updates c' → c_dead c' = false → t' ∈ fightUpdates m.
Proof using Hc.
  intros M H1 H2 H3. destruct (dead_lookup _ _ H1) as (c0 & H4 & H5 & H6 & H7). case_bool_decide; [congruence|].
  eapply (fight_living _ _ M t' c0); [done| |congruence]. unfold military_updates in *. by rewrite <-H5, <-H6.
Qed.

Lemma military_dead m m' f e p :
  military_ok C m → c_kind c = K_FIGHTER f e p → erase_fight f t m = Some m' → military_ok (<[t := dead_core c]> C) m'.
Proof using Hc.
  intros [M1 M2 M3 M4 M6 M5 M7] Hk Hm. unfold erase_fight in Hm.
  destruct ((fightTasks m).[FT f]) as [X|] eqn:HX; simpl in Hm; [|done].
  destruct ((fightTasks m).[FT f <- X ∖ {[t]}]) as [l|] eqn:Hl; simpl in Hm; [|done]. injection Hm as <-.
  split; simpl.
  - rewrite <-M1. by rewrite (zlen_zset _ _ _ _ Hl).
  - intros i Y t' HY.
    assert (∃ Y0, (fightTasks m).[i] = Some Y0 ∧ (t' ∈ Y ↔ t' ∈ Y0 ∧ (i = FT f → t' ≠ t))) as (Y0 & HY0 & ->).
    { destruct (decide (i = FT f)) as [->|Hi].
      - rewrite (zget_zset_eq _ _ _ _ Hl) in HY. injection HY as <-. exists X. split; [done|]. set_solver.
      - rewrite (zget_zset_ne _ _ _ _ _ Hl) in HY by congruence. exists Y. split; [done|]. naive_solver. }
    rewrite (M2 _ _ t' HY0). split.
    + intros ((c' & f' & e' & p' & H1 & H2 & H3 & H4) & Hne). exists c', f', e', p'. rewrite lookup_insert_ne; [done|]. intros <-.
      assert (c' = c) as -> by congruence. rewrite Hk in H2. injection H2 as <- <- <-. by apply Hne.
    + intros (c' & f' & e' & p' & H1 & H2 & H3 & H4). destruct (dead_lookup _ _ H1) as (c0 & H5 & H6 & H7 & H8).
      case_bool_decide; [congruence|]. split; [|done]. exists c0, f', e', p'. split_and!; congruence.
  - done.
  - intros t' Hin. by apply updates_dead, M4.
  - intros t' c' H1 H2 H3. eapply (living_dead m t' c'); [by split|done..].
  - intros t' c' f' e' p' H1 H2. destruct (dead_lookup _ _ H1) as (c0 & H5 & -> & H7 & H8). apply (M5 t' c0 f' e'); congruence.
  - done.
Qed.
Lemma military_dead_other m :
  military_ok C m → (∀ f e p, c_kind c ≠ K_FIGHTER f e p) → military_ok (<[t := dead_core c]> C) m.
Proof using Hc.
  intros [M1 M2 M3 M4 M6 M5 M7] Hk. split; [done| |done| | | |done].
  - intros i Y t' HY. rewrite (M2 _ _ t' HY). split; intros (c' & f' & e' & p' & H1 & H2 & H3 & H4); exists c', f', e', p'.
    + rewrite lookup_insert_ne; [done|]. intros <-. assert (c' = c) as -> by congruence. by apply Hk in H2.
    + destruct (decide (t' = t)) as [->|Hne]; [rewrite lookup_insert_eq in H1; by injection H1 as <-|by rewrite lookup_insert_ne in H1].
  - intros t' Hin. by apply updates_dead, M4.
  - intros t' c' H1 H2 H3. eapply (living_dead m t' c'); [by split|done..].
  - intros t' c' f' e' p' H1 H2. destruct (dead_lookup _ _ H1) as (c0 & H5 & -> & H7 & H8). apply (M5 t' c0 f' e'); congruence.
Qed.

(** The repair tasks of a manager are filed under the units they repair. *)
Lemma builder_dead b v id (b' := with_repairs (repairTasks b ∖ {[t]}) (buildTasksCount b - 1) (buildUpdates b) (delete id (repairedUnits b)) b) :
  builder_ok C b → c_kind c = K_REPAIR v id → c_dead c = false → builder_ok (<[t := dead_core c]> C) b'.
Proof using Hc.
  intros [B1 B2 B3 B4 B5 B6] Hk Hd. assert (t ∈ repairTasks b) as Hin by (apply B3; by exists c, v, id).
  assert (repairedUnits b !! id = Some t) as Hid by (apply B5; by exists c, v). subst b'. split; simpl.
  - done.
  - intros t'. rewrite B2. symmetry. apply (dead_iff (λ m k, m = Builder ∧ match k with K_RETREAT | K_REPAIR _ _ => True | _ => False end)).
  - intros t'. rewrite elem_of_difference, B3, elem_of_singleton. split.
    + intros ((c' & v' & id' & H1 & H2 & H3) & Hne). exists c', v', id'. by rewrite lookup_insert_ne.
    + intros (c' & v' & id' & H1 & H2 & H3). destruct (dead_lookup _ _ H1) as (c0 & H5 & H6 & H7 & H8).
      case_bool_decide; [congruence|]. split; [|done]. exists c0, v', id'. split_and!; congruence.
  - rewrite B4, size_difference, size_singleton by set_solver.
    assert (size (repairTasks b) ≠ 0%nat); [|lia]. intros Hs. apply size_empty_inv in Hs. set_solver.
  - intros id' t'. destruct (decide (id' = id)) as [->|Hne].
    + rewrite lookup_delete_eq. split; [done|]. intros (c' & v' & H1 & H2 & H3). exfalso.
      destruct (dead_lookup _ _ H1) as (c0 & H5 & H6 & H7 & H8). case_bool_decide as Hx; [congruence|].
      apply Hx. assert (repairedUnits b !! id = Some t'); [|congruence]. apply B5. exists c0, v'. split_and!; congruence.
    + rewrite lookup_delete_ne by done. rewrite B5. split; intros (c' & v' & H1 & H2 & H3).
      * exists c', v'. rewrite lookup_insert_ne; [done|]. intros <-. congruence.
      * destruct (dead_lookup _ _ H1) as (c0 & H5 & H6 & H7 & H8). case_bool_decide as Hx; [congruence|]. exists c0, v'. split_and!; congruence.
  - intros t' c' v' id' H1 H2. destruct (dead_lookup _ _ H1) as (c0 & H5 & -> & H7 & H8). apply (B6 t' c0 v' id'); congruence.
Qed.
Lemma builder_dead_other b :
  builder_ok C b → (∀ v id, c_kind c = K_REPAIR v id → c_dead c = true) → builder_ok (<[t := dead_core c]> C) b.
Proof using Hc.
  intros [B1 B2 B3 B4 B5 B6] Hk.
  assert (∀ t' c' v id, C !! t' = Some c' → c_kind c' = K_REPAIR v id → c_dead c' = false → <[t := dead_core c]> C !! t' = Some c') as Hf.
  { intros t' c' v id H1 H2 H3. rewrite lookup_insert_ne; [done|]. intros <-. assert (c' = c) as -> by congruence. apply Hk in H2. congruence. }
  assert (∀ t' c', <[t := dead_core c]> C !! t' = Some c' → c_dead c' = false → C !! t' = Some c') as Hb.
  { intros t' c' H1 H2. destruct (decide (t' = t)) as [->|Hne]; [rewrite lookup_insert_eq in H1; by injection H1 as <-|by rewrite lookup_insert_ne in H1]. }
  split; try done.
  - intros t'. rewrite B2. symmetry. apply (dead_iff (λ m k, m = Builder ∧ match k with K_RETREAT | K_REPAIR _ _ => True | _ => False end)).
  - intros t'. rewrite B3. split; intros (c' & v' & id' & H1 & H2 & H3); exists c', v', id'; split_and!; eauto.
  - intros id' t'. rewrite B5. split; intros (c' & v' & H1 & H2 & H3); exists c', v'; split_and!; eauto.
  - intros t' c' v' id' H1 H2. destruct (dead_lookup _ _ H1) as (c0 & H5 & -> & H7 & H8). apply (B6 t' c0 v' id'); congruence.
Qed.

Lemma targets_dead e : targets_ok C e → targets_ok (<[t := dead_core c]> C) e.
Proof using Hc.
  intros [T1 T2]. split.
  - intros x X t' HX. rewrite (T1 _ _ _ HX). split; intros (c' & f & p & H1 & H2).
    + destruct (dead_lookup_back _ _ H1) as (c0 & H3 & H4 & H5 & _). exists c0, f, p. split; congruence.
    + destruct (dead_lookup _ _ H1) as (c0 & H3 & H4 & H5 & _). exists c0, f, p. split; congruence.
  - intros t' c' f x p H1 H2. destruct (dead_lookup _ _ H1) as (c0 & H3 & H4 & H5 & _). apply (T2 t' c0 f x p); congruence.
Qed.
Lemma links_dead X R R' U :
  links_ok X C R U → (∀ t' r, R' !! t' = Some r → R !! t' = Some r) →
  (∀ t' c' r V, C !! t' = Some c' → c_dead c' = false → t' ≠ t → R' !! t' = Some r → U !! r = Some V → c_task V ≠ Some t) →
  links_ok X (<[t := dead_core c]> C) R' U.
Proof using Hc.
  intros [L1 L2] HR Hfree. split.
  - intros t' c' r H1 H2 H3. destruct (dead_lookup _ _ H1) as (c0 & H4 & H5 & H6 & H7). case_bool_decide as Hx; [congruence|].
    destruct (L1 t' c0 r) as (V & tr & c1 & v & id & G1 & G2 & G3 & G4 & G5 & G6); [done|congruence|by apply HR|].
    exists V, tr, c1, v, id. split_and!; try done. rewrite lookup_insert_ne; [done|]. intros <-.
    eapply (Hfree t' c0); [done|congruence|done..].
  - intros t' c' v id H1 H2 H3. destruct (dead_lookup _ _ H1) as (c0 & H4 & H5 & H6 & H7). case_bool_decide as Hx; [congruence|].
    apply (L2 t' c0 v id); congruence.
Qed.
End dead.

Lemma FT_range f : 0 <= FT f < FT_SIZE.
Proof. destruct f; done. Qed.

(** What [forget_task] leaves alone. *)
Record forgotten (w w' : World) : Prop := {
  fg_units : units w' = units w;
  fg_tasks : tasks w' = tasks w;
  fg_enemies : enemies w' = enemies w;
  fg_frame : lastFrame w' = lastFrame w;
  fg_team : teamUnits w' = teamUnits w;
  fg_heads : same_heads w w'
}.
Lemma TC_dead w t T : TC (set_tasks (<[t := Dead T]> (tasks w)) w) = <[t := dead_core (task_core T)]> (TC w).
Proof. unfold TC. simpl. by rewrite fmap_insert. Qed.

(** The managers after [forget_task]. *)
Lemma forget_task_ok t T w :
  military_ok (TC w) (military w) → builder_ok (TC w) (builder w) → tasks w !! t = Some T → isDead T = false →
  ∃ w0, forget_task t T w = Some w0 ∧ forgotten w w0 ∧ (∀ x, forget_task t T (set_tasks x w) = Some (set_tasks x w0)) ∧
    military_ok (<[t := dead_core (task_core T)]> (TC w)) (military w0) ∧ builder_ok (<[t := dead_core (task_core T)]> (TC w)) (builder w0).
Proof.
  intros M B HT Hd. pose proof (core_of_task _ _ _ HT) as Hc.
  assert ((∀ f e p, c_kind (task_core T) ≠ K_FIGHTER f e p) → military_ok (<[t := dead_core (task_core T)]> (TC w)) (military w)) as HM0
    by (intros; by apply military_dead_other).
  assert ((∀ v id, c_kind (task_core T) ≠ K_REPAIR v id) → builder_ok (<[t := dead_core (task_core T)]> (TC w)) (builder w)) as HB0
    by (intros Hk; apply builder_dead_other; [done..|]; intros v id Hv; by apply Hk in Hv).
  unfold forget_task. simpl in HM0, HB0. destruct (kind T) as [| | | |r|f] eqn:HkT.
  5:{ assert (c_manager (task_core T) = Builder) as Hm by (eapply (build_manager _ _ B t); [done|simpl; by rewrite HkT]). simpl in Hm. rewrite Hm.
      rewrite bool_decide_true by (apply (build_repairs _ _ B); exists (task_core T); simpl; rewrite HkT; by eauto).
      eexists. split; [done|]. split; [|split; [|split; [by apply HM0|]]].
      - by split; [..|intros []].
      - intros x. simpl. rewrite bool_decide_true by (apply (build_repairs _ _ B); exists (task_core T); simpl; rewrite HkT; by eauto). done.
      - eapply builder_dead; [done..|simpl; by rewrite HkT|done]. }
  5:{ assert (c_manager (task_core T) = Military) as Hm by (eapply (fight_manager _ _ M t); [done|simpl; by rewrite HkT]). simpl in Hm. rewrite Hm.
      assert (∃ m', erase_fight (fightType f) t (military w) = Some m') as [m' Hm'].
      { unfold erase_fight. destruct (zget_is_Some (fightTasks (military w)) (FT (fightType f))) as [Y HY]; [rewrite (fight_size _ _ M); apply FT_range|].
        rewrite HY. simpl. rewrite zset_Some; [by eexists|]. rewrite (fight_size _ _ M); apply FT_range. }
      rewrite Hm'. simpl. rewrite Hm'. eexists. split; [done|]. split; [|split; [done|split; [|by apply HB0]]].
      - split; try done. intros m. unfold erase_fight in Hm'.
        destruct ((fightTasks (military w)).[FT (fightType f)]); simpl in Hm'; [|done].
        match type of Hm' with (zset ?a ?b ?c ≫= _) = _ => destruct (zset a b c); simpl in Hm'; [|done] end. injection Hm' as <-. by destruct m.
      - eapply military_dead; [done..| |done]. simpl. by rewrite HkT. }
  all: destruct (manager T); eexists; (split; [done|]; split; [done|]; split; [done|]; split; [by apply HM0|by apply HB0]).
Qed.

(** The task [t] is marked: no living retreat counts on its units. *)
Definition unhelpful (t : Z) (w : World) : Prop := ∀ t' T' r V, tasks w !! t' = Some T' → isDead T' = false → t' ≠ t →
  kind T' = RetreatTask (Some r) → units w !! r = Some V → u_task V ≠ Some t.

Lemma dead_world lost X t T w :
  world_ok lost X w → tasks w !! t = Some T → isDead T = false → stoppable (class_of (kind T)) = true → unhelpful t w →
  ∃ w0, forget_task t T w = Some w0 ∧ forgotten w w0 ∧ (∀ x, forget_task t T (set_tasks x w) = Some (set_tasks x w0)) ∧
    world_ok lost ({[t]} ∪ X) (set_tasks (<[t := Dead T]> (tasks w)) w0).
Proof.
  intros W HT Hd Hst Hun. pose proof (core_of_task _ _ _ HT) as Hc.
  destruct (forget_task_ok t T w (wo_military _ _ _ W) (wo_builder _ _ _ W) HT Hd) as (w0 & Hw0 & HF & Hcomm & HM & HB).
  exists w0. split_and!; [done..|]. destruct HF as [F1 F2 F3 F4 F5 F6]. set (w1 := set_tasks _ w0).
  assert (TC w1 = <[t := dead_core (task_core T)]> (TC w)) as HC by (unfold w1, TC; simpl; by rewrite fmap_insert).
  assert (UC w1 = UC w) as HU by (unfold w1, UC; simpl; by rewrite F1).
  assert (RP w1 = RP w) as HR by (eapply (RP_insert_kept w w1 t T (Dead T)); done).
  destruct W as [W1 W2 W3 W4 W5 W6 W7 W8 W9].
  split; rewrite ?HC, ?HU, ?HR; simpl; rewrite ?F1, ?F3, ?F5; try done.
  - eapply (owned_marked lost t w w1); [done|unfold w1, US; simpl; by rewrite F1|done| |].
    + intros t'. rewrite !TS_lookup. simpl. destruct (decide (t' = t)) as [->|Hne].
      * rewrite lookup_insert_eq, HT. simpl. by rewrite bool_decide_true.
      * rewrite lookup_insert_ne by done. rewrite bool_decide_false by done. by destruct (tasks w !! t') as [[]|].
    + intros S HS. rewrite (skel_of_task _ _ _ HT) in HS. injection HS as <-. simpl. by destruct (class_of (kind T)).
  - intros t' T' Ht'. destruct (decide (t' = t)) as [->|Hne].
    + rewrite lookup_insert_eq in Ht'. injection Ht' as <-. destruct (W2 _ _ HT) as (G1 & G2 & G3). split_and!; simpl; [set_solver|done|].
      by destruct (kind T).
    + rewrite lookup_insert_ne in Ht' by done. eapply task_ok_mono; [by apply W2|set_solver|by eauto].
  - intros u U t' c Hu Ht' Hcc. destruct (dead_lookup _ _ _ Hc _ _ Hcc) as (c0 & H1 & _ & -> & _). by eapply W3.
  - by apply targets_dead.
  - apply (links_dead _ _ _ Hc _ (RP w)); [|done|].
    + eapply links_keeps; [done|done|set_solver|]. intros v V Hv. exists V. by auto.
    + intros t' c' r V H1 H2 Hne H3 H4. destruct (task_of_core _ _ _ H1) as (T' & HT' & ->). destruct (unit_of_core _ _ _ H4) as (V' & HV' & ->).
      apply RP_lookup in H3 as (T0 & HT0 & Hk). simpl. eapply (Hun t' T'); try done. congruence.
Qed.

(** ** The units of a dead task go back to the idle task *)

Lemma world_ok_lists lost X w w' :
  world_ok lost X w → tasks w' = tasks w → units w' = units w → lists_kept w w' → world_ok lost X w'.
Proof.
  intros W HT HU HL. eapply world_ok_keeps; [done| |by unfold TC; rewrite HT|unfold RP; rewrite HT; by intros|done|done| |rewrite HT; by left|rewrite HU; by left].
  - eapply owned_same; [|apply W]. split; [unfold TS; by rewrite HT|unfold US; by rewrite HU|by apply lists_heads].
  - intros v V Hv. rewrite HU. exists V. split_and!; try done. by left.
Qed.

Lemma world_shrink lost X t T w :
  world_ok lost ({[t]} ∪ X) w → tasks w !! t = Some T → (isDead T = true → t_units T = ∅) → led T →
  (isDead T = false → repairer_of T = None) → world_ok lost X w.
Proof.
  intros [W1 W2 W3 W4 W5 W6 W7 W8 W9] HT Hu Hl Hr. split; try done.
  - intros t' T' Ht'. destruct (W2 _ _ Ht') as (G1 & G2 & G3). split_and!; [|done..]. intros Hn.
    destruct (decide (t' = t)) as [->|Hne]; [|apply G1; set_solver]. assert (T' = T) as -> by congruence. done.
  - destruct W7 as [L1 L2]. split; [|done]. intros t' c r H1 H2 H3. destruct (L1 _ _ _ H1 H2 H3) as (R & tr & c' & v & id & G1 & G2 & G3 & G4 & G5 & G6).
    exists R, tr, c', v, id. split_and!; try done. intros Hn. apply G6. destruct (decide (t' = t)) as [->|Hne]; [|set_solver].
    destruct (task_of_core _ _ _ H1) as (T' & HT' & ->). assert (T' = T) as -> by congruence. unfold RP in H3.
    rewrite lookup_omap, HT in H3. simpl in *. rewrite Hr in H3; done.
Qed.

Definition stopped_task (T : IUnitTask) (I : IUnitTask) : IUnitTask := with_units (t_units T ∪ t_units I) I.
Record stops (t : Z) (T : IUnitTask) (w w' : World) : Prop := {
  sp_tasks : ∃ I, tasks w !! idleTask w (manager T) = Some I ∧ idleTask w (manager T) ≠ t ∧
    tasks w' = <[t := clear_units T]> (<[idleTask w (manager T) := stopped_task T I]> (tasks w));
  sp_units v : units w' !! v = if bool_decide (v ∈ t_units T) then released_unit (idleTask w (manager T)) (lastFrame w) <$> units w !! v else units w !! v;
  sp_lists : lists_kept w w';
  sp_frame : lastFrame w' = lastFrame w
}.

Lemma stop_units_eq lost t T w :
  owned_ok lost w → tasks w !! t = Some T → stoppable (class_of (kind T)) = true →
  ∃ w', (w1 ← foldM (λ w0 u, to_idle (idleTask w (manager T)) u w0) w (in_order (t_units T)); upd_task t clear_units w1) = Some w' ∧ stops t T w w'.
Proof.
  intros O HT Hst. destruct (idle_task _ _ (manager T) O) as (I & X & n & HI & HIk & HIm & HId & HX).
  assert (idleTask w (manager T) ≠ t) as Hne by (intros <-; assert (I = T) as -> by congruence; by rewrite HIk in Hst).
  destruct (to_idle_loop (idleTask w (manager T)) (in_order (t_units T)) w I) as (w1 & HF & HR & HTs & HUs); [apply in_order_NoDup|done| |].
  { intros u Hu%elem_of_in_order. destruct (own_member _ _ O _ _ u (skel_of_task _ _ _ HT) Hu) as (S & HS & H1 & _).
    destruct (own_task _ _ O _ _ _ HS H1) as (S' & _ & H2 & _). destruct (unit_of_skel _ _ _ HS) as (U & HU & ->). exists U, (s_manager S'). done. }
  rewrite HF. simpl. unfold upd_task. rewrite HTs, lookup_insert_ne, HT by done. simpl. eexists. split; [done|].
  split; simpl.
  - exists I. split_and!; [done..|]. do 2 f_equal. unfold stopped_task. f_equal. f_equal. apply set_eq. intros v.
    rewrite elem_of_list_to_set. apply elem_of_in_order.
  - intros v. rewrite HUs. case_bool_decide as H1; case_bool_decide as H2; rewrite elem_of_in_order in H1; done.
  - by apply rest_lists.
  - by destruct HR as (_ & _ & _ & ? & _).
Qed.

(** The stop of a task that nobody counts on. *)
Lemma stops_world lost X t T w w' :
  world_ok lost ({[t]} ∪ X) w → tasks w !! t = Some T → isDead T = true → stoppable (class_of (kind T)) = true →
  (∀ t' T' r, tasks w !! t' = Some T' → isDead T' = false → kind T' = RetreatTask (Some r) → r ∉ t_units T) →
  stops t T w w' → world_ok lost X w'.
Proof.
  intros W HT Hd Hst Hun [(I & HI & Hne & A1) A2 A3 A4]. pose proof (wo_owned _ _ _ W) as O.
  destruct (idle_task _ _ (manager T) O) as (I0 & Y & n & HI0 & HIk & HIm & HId & _). assert (I0 = I) as -> by congruence.
  assert (class_of (kind I) = C_IDLE) as HIc by (by rewrite HIk).
  assert (TC w' = TC w) as HC by (apply (TC_insert2 w w' t T (clear_units T) _ I (stopped_task T I) HT HI Hne eq_refl eq_refl A1)).
  assert (RP w' = RP w) as HR by (apply (RP_insert2 w w' t T (clear_units T) _ I (stopped_task T I) HT HI Hne eq_refl eq_refl A1)).
  assert (∀ u U, units w !! u = Some U → u ∈ t_units T → u_task U = Some t) as Htask.
  { intros u U HU Hu. destruct (own_member _ _ O _ _ _ (skel_of_task _ _ _ HT) Hu) as (S & HS & H1 & _).
    rewrite (skel_of_unit _ _ _ HU) in HS. by injection HS as <-. }
  eapply world_shrink; [|rewrite A1; apply lookup_insert_eq|done|intros ?; simpl in *; congruence|simpl; congruence].
  eapply world_ok_keeps; [done| |done|by rewrite HR|done|done| | |].
  - eapply (owned_aborted lost t (task_skel T) w w'); [done|by apply skel_of_task|intros Hx; simpl in Hx; by rewrite Hx in Hst..|]. split; [| |by apply lists_heads].
    + intros t'. rewrite !TS_lookup, A1. unfold abort_skel. destruct (decide (t' = t)) as [->|Hn].
      * rewrite lookup_insert_eq, HT. simpl. rewrite !bool_decide_true by done. unfold task_skel. simpl. by rewrite Hd.
      * rewrite lookup_insert_ne by done. rewrite !(bool_decide_false (t' = t)) by done. simpl. destruct (decide (t' = idleTask w (manager T))) as [->|Hi].
        -- rewrite lookup_insert_eq, HI, bool_decide_true by done. done.
        -- rewrite lookup_insert_ne by done. rewrite bool_decide_false by done. by destruct (tasks w !! t') as [[]|].
    + intros v. rewrite !US_lookup, A2. simpl. case_bool_decide; by destruct (units w !! v) as [[]|].
  - intros v V Hv. rewrite A2. case_bool_decide as Hin.
    + rewrite Hv. simpl. eexists. split; [done|]. split_and!; [done..|]. right. rewrite HR. split.
      * intros t' c Hc Hd' Hr. destruct (task_of_core _ _ _ Hc) as (T' & HT' & ->). apply RP_lookup in Hr as (T0 & HT0 & Hk).
        assert (T0 = T') as -> by congruence. by apply (Hun t' T' v).
      * intros t' c Ht' Hc Hd'. simpl in Ht'. rewrite (Htask _ _ Hv Hin) in Ht'. injection Ht' as <-.
        rewrite (core_of_task _ _ _ HT) in Hc. injection Hc as <-. simpl in Hd'. congruence.
    + exists V. split_and!; try done. by left.
  - intros t' T0 Ht'. rewrite A1 in Ht'. destruct (decide (t' = t)) as [->|Hn].
    + rewrite lookup_insert_eq in Ht'. injection Ht' as <-. right. destruct (wo_tasks _ _ _ W _ _ HT) as (G1 & G2 & G3).
      split_and!; [set_solver|simpl; congruence|]. simpl. destruct (kind T); try done; simpl; first [congruence|set_solver].
    + rewrite lookup_insert_ne in Ht' by done. destruct (decide (t' = idleTask w (manager T))) as [->|Hi]; [|rewrite lookup_insert_ne in Ht' by done; by left].
      rewrite lookup_insert_eq in Ht'. injection Ht' as <-. right.
      apply (idle_changes lost ({[t]} ∪ X) _ _ w _ I (stopped_task T I) W HI HIc eq_refl HId eq_refl eq_refl eq_refl).
  - intros v V Hv. rewrite A2 in Hv. case_bool_decide as Hin; [|by left]. apply fmap_Some in Hv as (V0 & HV0 & ->). right. split.
    + unfold unit_range. simpl. apply (wo_defs _ _ _ W _ _ HV0).
    + intros t' c [= <-] Hc Hi. rewrite (core_of_task _ _ _ HI) in Hc. injection Hc as <-. simpl in Hi. by rewrite kclass_kcore, HIk in Hi.
Qed.

(** ** What aborting leaves alone *)

Record settles (w w' : World) : Prop := {
  st_task t T : tasks w !! t = Some T → ∃ T', tasks w' !! t = Some T' ∧ manager T' = manager T ∧ class_of (kind T') = class_of (kind T) ∧
    fighter_of T' = fighter_of T ∧ (isDead T = true → isDead T' = true) ∧
    (isDead T' = false → class_of (kind T) ≠ C_IDLE → t_units T' = t_units T ∧ pathQueries T' = pathQueries T) ∧
    kcore (kind T') = kcore (kind T);
  st_tasks t T' : tasks w' !! t = Some T' → is_Some (tasks w !! t) ∧
    ∀ u, u ∈ t_units T' → ∃ t0 T0, tasks w !! t0 = Some T0 ∧ u ∈ t_units T0;
  st_unit u U : units w !! u = Some U → ∃ U', units w' !! u = Some U' ∧ u_id U' = u_id U ∧ u_def U' = u_def U ∧
    u_manager U' = u_manager U ∧ u_isDead U' = u_isDead U ∧ u_hasShield U' = u_hasShield U ∧
    (u_task U' = u_task U ∨ ∃ m, u_manager U = Some m ∧ u_task U' = Some (idleTask w m));
  st_heads : same_heads w w';
  st_team : teamUnits w' = teamUnits w;
  st_frame : lastFrame w' = lastFrame w
}.
Lemma settles_refl w : settles w w.
Proof.
  split; try done.
  - intros t T HT. by exists T.
  - intros t T HT. split; [by exists T|]. intros u Hu. by exists t, T.
  - intros u U HU. exists U. split_and!; try done. by left.
Qed.
Lemma settles_trans w1 w2 w3 : settles w1 w2 → settles w2 w3 → settles w1 w3.
Proof.
  intros [A1 A2 A3 A4 A5 A6] [B1 B2 B3 B4 B5 B6]. split; try congruence.
  - intros t T HT. destruct (A1 _ _ HT) as (T2 & H2 & P1 & P2 & P3 & P4 & P5 & P6). destruct (B1 _ _ H2) as (T3 & H3 & Q1 & Q2 & Q3 & Q4 & Q5 & Q6).
    exists T3. split_and!; try congruence; [by auto|]. intros Hd Hc. destruct (Q5 Hd ltac:(congruence)) as [-> ->]. apply P5; [|done].
    destruct (isDead T2); [|done]. by rewrite Q4 in Hd.
  - intros t T3 H3. destruct (B2 _ _ H3) as [[T2 H2] Hin3]. split; [by apply (A2 t T2)|]. intros u Hu.
    destruct (Hin3 u Hu) as (t2 & T2' & H2' & Hu2). by apply (A2 t2 T2').
  - intros u U HU. destruct (A3 _ _ HU) as (U2 & H2 & P1 & P2 & P3 & P4 & P5 & P6). destruct (B3 _ _ H2) as (U3 & H3 & Q1 & Q2 & Q3 & Q4 & Q5 & Q6).
    exists U3. split_and!; try congruence. destruct Q6 as [Q6|(m & Q6 & Q7)]; [rewrite Q6; done|]. right. exists m. split; [congruence|].
    destruct (A4 m) as (<- & _ & _). done.
  - by eapply same_heads_trans.
Qed.

Lemma stops_settles lost t T w w' :
  owned_ok lost w → tasks w !! t = Some T → isDead T = true → stops t T w w' → settles w w'.
Proof.
  intros O HT Hd [(I & HI & Hne & A1) A2 A3 A4]. destruct (idle_task _ _ (manager T) O) as (I0 & Y & n & HI0 & HIk & _).
  assert (I0 = I) as -> by congruence. split.
  - intros t' T' HT'. rewrite A1. destruct (decide (t' = t)) as [->|Hn].
    + rewrite lookup_insert_eq. assert (T' = T) as -> by congruence. eexists. split_and!; try done. simpl. congruence.
    + rewrite lookup_insert_ne by done. destruct (decide (t' = idleTask w (manager T))) as [->|Hi].
      * rewrite lookup_insert_eq. assert (T' = I) as -> by congruence. eexists. split_and!; try done. by rewrite HIk.
      * rewrite lookup_insert_ne by done. by exists T'.
  - intros t' T'. rewrite A1. destruct (decide (t' = t)) as [->|Hn].
    { rewrite lookup_insert_eq. intros [= <-]. split; [by exists T|]. intros u Hu. by apply not_elem_of_empty in Hu. }
    rewrite lookup_insert_ne by done. destruct (decide (t' = idleTask w (manager T))) as [->|Hi].
    { rewrite lookup_insert_eq. intros [= <-]. split; [by exists I|]. intros u [Hu|Hu]%elem_of_union; [by exists t, T|by eexists _, I]. }
    rewrite lookup_insert_ne by done. intros HT'. split; [by exists T'|]. intros u Hu. by exists t', T'.
  - intros u U HU. rewrite A2, HU. case_bool_decide as Hin; eexists; (split; [done|]); split_and!; try done; [|by left].
    right. exists (manager T). split; [|done]. destruct (own_member _ _ O _ _ _ (skel_of_task _ _ _ HT) Hin) as (S & HS & H1 & _).
    destruct (own_task _ _ O _ _ _ HS H1) as (S' & HS' & H2 & _). rewrite (skel_of_unit _ _ _ HU) in HS. injection HS as <-.
    rewrite (skel_of_task _ _ _ HT) in HS'. by injection HS' as <-.
  - by apply lists_heads.
  - by destruct A3.
  - done.
Qed.
Lemma mark_settles t T w w0 :
  tasks w !! t = Some T → class_of (kind T) ≠ C_IDLE → forgotten w w0 → settles w (set_tasks (<[t := Dead T]> (tasks w)) w0).
Proof.
  intros HT Hc [F1 F2 F3 F4 F5 F6]. split; simpl; try done.
  - intros t' T' HT'. destruct (decide (t' = t)) as [->|Hn].
    + rewrite lookup_insert_eq. assert (T' = T) as -> by congruence. by eexists.
    + rewrite lookup_insert_ne by done. by exists T'.
  - intros t' T'. destruct (decide (t' = t)) as [->|Hn].
    { rewrite lookup_insert_eq. intros [= <-]. split; [by exists T|]. intros u Hu. by exists t, T. }
    rewrite lookup_insert_ne by done. intros HT'. split; [by exists T'|]. intros u Hu. by exists t', T'.
  - intros u U HU. rewrite F1. exists U. split_and!; try done. by left.
Qed.
Lemma lists_settles w w' : tasks w' = tasks w → units w' = units w → lists_kept w w' → lastFrame w' = lastFrame w → settles w w'.
Proof.
  intros H1 H2 H3 H4. split; rewrite ?H1, ?H2; try done.
  - intros t T HT. by exists T.
  - intros t T HT. split; [by exists T|]. intros u Hu. by exists t, T.
  - intros u U HU. exists U. split_and!; try done. by left.
  - by apply lists_heads.
  - by destruct H3.
Qed.

(** ** Aborting a task *)

Lemma unhelpful_other lost X t T w :
  world_ok lost X w → tasks w !! t = Some T → class_of (kind T) ≠ C_REPAIR → unhelpful t w.
Proof.
  intros W HT Hc t' T' r V HT' Hd Hne Hk HV Ht.
  destruct (link_retreat _ _ _ _ (wo_links _ _ _ W) t' (task_core T') r) as (R & tr & c1 & v & id & G1 & G2 & G3 & G4 & G5 & _);
    [by apply core_of_task|done|apply RP_lookup; by exists T'|].
  rewrite (core_of_unit _ _ _ HV) in G1. injection G1 as <-. simpl in G2. assert (tr = t) as -> by congruence.
  rewrite (core_of_task _ _ _ HT) in G3. injection G3 as <-. simpl in G5. rewrite <-kclass_kcore, G5 in Hc. done.
Qed.

(** The task [t] is alive or dead as before, with the units it had if it does not idle. *)
Definition rests (t : Z) (T : IUnitTask) (w' : World) : Prop :=
  ∃ T', tasks w' !! t = Some T' ∧ isDead T' = isDead T ∧ (class_of (kind T) ≠ C_IDLE → t_units T' = t_units T).
(** The task [t] has ended: it is dead and empty, its units idle, and no other task has died but the repair
    of a retreat's repairer. *)
Record ended (t : Z) (T : IUnitTask) (w w' : World) : Prop := {
  en_settles : settles w w';
  en_task : ∃ T', tasks w' !! t = Some T' ∧ isDead T' = true ∧ t_units T' = ∅;
  en_units u : u ∈ t_units T → ∃ U, units w' !! u = Some U ∧ u_task U = Some (idleTask w (manager T));
  en_rest t' T' : tasks w !! t' = Some T' → t' ≠ t → rests t' T' w' ∨ ∃ r, repairer_of T = Some r ∧ r ∈ t_units T'
}.

Lemma Dequeue_eq n t T w w0 :
  tasks w !! t = Some T → forget_task t T w = Some w0 → forgotten w w0 →
  DequeueTask (S n) t w = Stop (DequeueTask n) t (set_tasks (<[t := Dead T]> (tasks w)) w0).
Proof. intros HT H0 [_ HF _ _ _ _]. cbn [DequeueTask]. rewrite HT. simpl. rewrite H0. simpl. unfold upd_task. by rewrite HF, HT. Qed.
(** The rest of [Stop] after [Cancel]. *)
Definition release_pull (k : Kind) (w : World) : World :=
  match k with RepairTask r => if r_building r then del_pull (r_buildPower r) w else w | _ => w end.
Lemma Stop_eq abort t T w w2 T2 w3 :
  tasks w !! t = Some T → stoppable (class_of (kind T)) = true → Cancel abort t w = Some w2 → tasks w2 !! t = Some T2 →
  (w1 ← foldM (λ w0 u, to_idle (idleTask w2 (manager T2)) u w0) w2 (in_order (t_units T2)); upd_task t clear_units w1) = Some w3 →
  Stop abort t w = Some (release_pull (kind T2) w3).
Proof.
  intros HT Hst HC HT2 Hw3. unfold Stop. rewrite HT. simpl.
  transitivity (w2 ← Cancel abort t w; T2 ← tasks w2 !! t;
    w1 ← foldM (λ w0 u, to_idle (idleTask w2 (manager T2)) u w0) w2 (in_order (t_units T2)); w3 ← upd_task t clear_units w1;
    Some (release_pull (kind T2) w3)).
  - by destruct (kind T).
  - rewrite HC. simpl. rewrite HT2. simpl. destruct (foldM _ w2 (in_order (t_units T2))) as [w4|]; simpl in *; [|done]. by rewrite Hw3.
Qed.

Lemma ended_stop lost t T T2 w w2 w3 :
  owned_ok lost w2 → tasks w !! t = Some T → tasks w2 !! t = Some T2 → isDead T2 = true → t_units T2 = t_units T → settles w w2 →
  (∀ t' T', tasks w !! t' = Some T' → t' ≠ t → rests t' T' w2 ∨ ∃ r, repairer_of T = Some r ∧ r ∈ t_units T') →
  stops t T2 w2 w3 → ended t T w w3.
Proof.
  intros O HT HT2 Hd Hu Hst Hal Hsp. destruct (st_task _ _ Hst _ _ HT) as (T2' & HT2' & Hm & _).
  assert (T2' = T2) as -> by congruence. split.
  - eapply settles_trans; [done|]. by eapply stops_settles.
  - destruct Hsp as [(I & _ & _ & ->) _ _ _]. rewrite lookup_insert_eq. by eexists.
  - intros u Hin. destruct (own_member _ _ O _ _ u (skel_of_task _ _ _ HT2)) as (S & HS & _); [by rewrite <-Hu in Hin|].
    destruct (unit_of_skel _ _ _ HS) as (U & HU & ->). destruct Hsp as [_ HU' _ _].
    rewrite HU', bool_decide_true by (by rewrite Hu). rewrite HU. simpl. eexists. split; [done|]. simpl.
    destruct (st_heads _ _ Hst (manager T)) as (<- & _ & _). by rewrite Hm.
  - intros t' T' HT' Hne. destruct (Hal _ _ HT' Hne) as [(T1 & HT1 & Hd1 & Hu1)|]; [left|by right].
    destruct Hsp as [(I & HI & _ & HTs) _ _ _]. unfold rests. rewrite HTs, lookup_insert_ne by done.
    destruct (decide (t' = idleTask w2 (manager T2))) as [->|Hi].
    + rewrite lookup_insert_eq. assert (I = T1) as -> by congruence. eexists. split_and!; [done..|]. intros Hc. exfalso.
      destruct (st_task _ _ Hst _ _ HT') as (T1' & HT1' & _ & Hc1 & _). assert (T1' = T1) as -> by congruence.
      destruct (idle_task _ _ (manager T2) O) as (I0 & Y & n & HI0 & HIk & _). assert (I0 = T1) as -> by congruence. by rewrite HIk in Hc1.
    + rewrite lookup_insert_ne by done. by exists T1.
Qed.
Lemma ended_lists t T w w' w'' :
  ended t T w w' → tasks w'' = tasks w' → units w'' = units w' → lists_kept w' w'' → lastFrame w'' = lastFrame w' → ended t T w w''.
Proof.
  intros [E1 E2 E3 E4] H1 H2 H3 H4. split; rewrite ?H1, ?H2; try done.
  - eapply settles_trans; [done|]. by apply lists_settles.
  - intros t' T' HT' Hne. unfold rests. rewrite H1. by apply E4.
Qed.
Lemma release_pull_ok lost X k w : world_ok lost X w →
  world_ok lost X (release_pull k w) ∧ tasks (release_pull k w) = tasks w ∧ units (release_pull k w) = units w ∧
  lists_kept w (release_pull k w) ∧ lastFrame (release_pull k w) = lastFrame w.
Proof.
  intros W. assert (lists_kept w (release_pull k w)) as HL.
  { destruct k; try apply lists_kept_refl. unfold release_pull. destruct (r_building r); [|apply lists_kept_refl]. split; try done. by eexists. }
  split_and!; [|by destruct k as [| | | |r|]; try done; simpl; destruct (r_building r)..|done|by destruct k as [| | | |r|]; try done; simpl; destruct (r_building r)].
  eapply world_ok_lists; [done| | |done]; by destruct k as [| | | |r|]; try done; simpl; destruct (r_building r).
Qed.

(** No living retreat counts on a unit of a task nobody counts on. *)
Lemma unhelpful_units lost t T w : owned_ok lost w → tasks w !! t = Some T → unhelpful t w →
  ∀ t' T' r, tasks w !! t' = Some T' → isDead T' = false → t' ≠ t → kind T' = RetreatTask (Some r) → r ∉ t_units T.
Proof.
  intros O HT Hun t' T' r HT' Hd' Hne Hk' Hin.
  destruct (own_member _ _ O _ _ _ (skel_of_task _ _ _ HT) Hin) as (S & HS & Hs1 & _).
  destruct (unit_of_skel _ _ _ HS) as (U & HU & ->). by eapply (Hun t' T' r U).
Qed.

Lemma Dequeue_fighter lost X t T f w n :
  world_ok lost ({[t]} ∪ X) w → tasks w !! t = Some T → isDead T = false → kind T = FighterTask f →
  ∃ w', DequeueTask (S n) t w = Some w' ∧ world_ok lost X w' ∧ ended t T w w'.
Proof.
  intros W HT Hd Hk. assert (stoppable (class_of (kind T)) = true) as Hst by (by rewrite Hk).
  assert (unhelpful t w) as Hun by (eapply unhelpful_other; [done..|by rewrite Hk]).
  destruct (dead_world _ _ _ _ _ W HT Hd Hst Hun) as (w0 & H0 & HF & _ & W1). set (w1 := set_tasks _ w0) in *.
  replace ({[t]} ∪ ({[t]} ∪ X)) with ({[t]} ∪ X) in W1 by set_solver.
  assert (tasks w1 !! t = Some (Dead T)) as HT1 by apply lookup_insert_eq.
  destruct (stop_units_eq lost t (Dead T) w1) as (w' & Hw' & Hsp); [apply W1|done|done|].
  exists w'. split; [|split].
  - rewrite (Dequeue_eq n t T w w0) by done. fold w1.
    rewrite (Stop_eq _ t (Dead T) w1 w1 (Dead T) w') by (try done; unfold Cancel; rewrite HT1; simpl; by rewrite Hk). simpl. by rewrite Hk.
  - eapply (stops_world lost X t (Dead T) w1); try done. intros t' T' r HT' Hd' Hk'.
    assert (t' ≠ t) as Hne by (intros ->; assert (T' = Dead T) as -> by congruence; done).
    simpl in HT'. rewrite lookup_insert_ne in HT' by done. eapply (unhelpful_units lost t T w); [apply W|done..].
  - eapply (ended_stop lost t T (Dead T) w w1); [apply W1|done..| | |done]; [eapply mark_settles; [done|by rewrite Hk|done]|].
    intros t' T' HT' Hne. left. exists T'. simpl. by rewrite lookup_insert_ne.
Qed.

(** *** Repairs *)

Lemma clear_repairer_world lost X t r T w :
  world_ok lost X w → tasks w !! t = Some T → kind T = RetreatTask r →
  world_ok lost X (set_tasks (<[t := with_kind (RetreatTask None) T]> (tasks w)) w).
Proof.
  intros W HT Hk. set (w' := set_tasks _ w).
  assert (task_skel (with_kind (RetreatTask None) T) = task_skel T) as Hs by (unfold task_skel; simpl; by rewrite Hk).
  assert (TC w' = TC w) as HC.
  { eapply (TC_insert w w' t T (with_kind (RetreatTask None) T)); [done|unfold task_core; simpl; by rewrite Hk|done]. }
  eapply world_ok_keeps; [done| |done| |by apply lists_kept_same|done| | |by left].
  - eapply owned_same; [|apply W]. split; [|done|done]. unfold TS. simpl. rewrite fmap_insert, Hs. apply insert_id. by rewrite lookup_fmap, HT.
  - intros t' r' Hr. apply RP_lookup in Hr as (T' & HT' & Hk'). simpl in HT'. destruct (decide (t' = t)) as [->|Hne].
    + rewrite lookup_insert_eq in HT'. injection HT' as <-. discriminate Hk'.
    + rewrite lookup_insert_ne in HT' by done. apply RP_lookup. by exists T'.
  - intros v V HV. exists V. split_and!; try done. by left.
  - intros t' T' HT'. simpl in HT'. destruct (decide (t' = t)) as [->|Hne]; [|rewrite lookup_insert_ne in HT' by done; by left].
    rewrite lookup_insert_eq in HT'. injection HT' as <-. right. destruct (wo_tasks _ _ _ W _ _ HT) as (G1 & G2 & G3). rewrite Hk in G3.
    split_and!; [|done|done]. intros Hn. destruct (G1 Hn) as [G4 G5]. split; [done|]. intros _ f Hf. done.
Qed.

(** The living tasks in [X] are no retreats. *)
Definition quiet (X : gset Z) (w : World) : Prop := ∀ x T, x ∈ X → tasks w !! x = Some T → isDead T = true ∨ repairer_of T = None.

(** The target of a living repair, and its retreat. *)
Lemma retreat_of_target_ok lost X t T r w :
  world_ok lost X w → tasks w !! t = Some T → isDead T = false → kind T = RepairTask r →
  ∃ x, retreat_of_target T w = Some x ∧
    (∀ t' r', x = Some (t', r') → ∃ T', tasks w !! t' = Some T' ∧ kind T' = RetreatTask r') ∧
    (quiet X w → ∀ t' T' r' V, tasks w !! t' = Some T' → isDead T' = false → kind T' = RetreatTask (Some r') → units w !! r' = Some V →
       u_task V = Some t → x = Some (t', Some r')).
Proof.
  intros W HT Hd Hk. unfold retreat_of_target, repair_of. rewrite Hk. simpl.
  assert (quiet X w → ∀ t' T' r' V, tasks w !! t' = Some T' → isDead T' = false → kind T' = RetreatTask (Some r') → units w !! r' = Some V →
    u_task V = Some t → ∃ v V0, r_target r = Some v ∧ units w !! v = Some V0 ∧ u_task V0 = Some t') as Hq.
  { intros HQ t' T' r' V HT' Hd' Hk' HV Ht.
    destruct (link_retreat _ _ _ _ (wo_links _ _ _ W) t' (task_core T') r') as (R & tr & c1 & v & id & G1 & G2 & G3 & G4 & G5 & G6);
      [by apply core_of_task|done|apply RP_lookup; by exists T'|].
    rewrite (core_of_unit _ _ _ HV) in G1. injection G1 as <-. simpl in G2. assert (tr = t) as -> by congruence.
    rewrite (core_of_task _ _ _ HT) in G3. injection G3 as <-. simpl in G5. rewrite Hk in G5. injection G5 as G5 _.
    destruct G6 as (V0 & HV0 & Hv0).
    - intros Hx. destruct (HQ _ _ Hx HT') as [Hx'|Hx']; [congruence|]. unfold repairer_of in Hx'. by rewrite Hk' in Hx'.
    - destruct (unit_of_core _ _ _ HV0) as (V1 & HV1 & ->). by exists v, V1. }
  destruct (r_target r) as [v|] eqn:Hv.
  - destruct (link_target _ _ _ _ (wo_links _ _ _ W) t (task_core T) v (r_targetId r)) as (c & Hc & _);
      [by apply core_of_task|done|simpl; by rewrite Hk; simpl; rewrite Hv|].
    destruct (unit_of_core _ _ _ Hc) as (V & HV & ->). rewrite HV. simpl. destruct (u_task V) as [t'|] eqn:Ht'.
    + destruct (own_task _ _ (wo_owned _ _ _ W) _ _ _ (skel_of_unit _ _ _ HV) Ht') as (S & HS & _).
      destruct (task_of_skel _ _ _ HS) as (T' & HT' & ->). rewrite HT'. simpl. eexists. split; [done|]. split.
      * intros t1 r1. destruct (kind T') as [| | |r2| |] eqn:Hk2; try discriminate. intros [= <- <-]. by exists T'.
      * intros HQ t1 T1 r1 V1 H1 H2 H3 H4 H5. destruct (Hq HQ t1 T1 r1 V1 H1 H2 H3 H4 H5) as (v0 & V0 & [= <-] & G2 & G3).
        assert (V0 = V) as -> by congruence. assert (t1 = t') as -> by congruence. assert (T1 = T') as -> by congruence. by rewrite H3.
    + eexists. split; [done|]. split; [done|]. intros HQ t1 T1 r1 V1 H1 H2 H3 H4 H5.
      destruct (Hq HQ t1 T1 r1 V1 H1 H2 H3 H4 H5) as (v0 & V0 & [= <-] & G2 & G3). congruence.
  - eexists. split; [done|]. split; [done|]. intros HQ t1 T1 r1 V1 H1 H2 H3 H4 H5.
    destruct (Hq HQ t1 T1 r1 V1 H1 H2 H3 H4 H5) as (v0 & V0 & ? & _). done.
Qed.

(** A living repair forgets its retreat first: whether it does this before or after it is marked makes
    no difference. *)
Lemma Cancel_repair_ok lost X t T r w :
  world_ok lost X w → tasks w !! t = Some T → isDead T = false → kind T = RepairTask r → quiet X w →
  ∃ w1, world_ok lost X w1 ∧ unhelpful t w1 ∧ settles w w1 ∧ tasks w1 !! t = Some T ∧ units w1 = units w ∧
    w1 = set_tasks (tasks w1) w ∧ (∀ t' T', tasks w !! t' = Some T' → rests t' T' w1) ∧
    (∀ abort w0, forgotten w w0 → Cancel abort t (set_tasks (<[t := Dead T]> (tasks w)) w0) = Some (set_tasks (<[t := Dead T]> (tasks w1)) w0)).
Proof.
  intros W HT Hd Hk HQ. destruct (retreat_of_target_ok lost X t T r w W HT Hd Hk) as (x & Hx & Hx1 & Hx2). specialize (Hx2 HQ).
  assert (∀ w0, forgotten w w0 → retreat_of_target (Dead T) (set_tasks (<[t := Dead T]> (tasks w)) w0) = Some x) as Hx0.
  { intros w0 [F1 F2 _ _ _ _]. revert Hx. unfold retreat_of_target, repair_of. simpl. rewrite Hk, F1. simpl.
    destruct (r_target r) as [v|]; [|done]. destruct (units w !! v) as [V|]; [|done]. simpl. destruct (u_task V) as [t'|]; [|done].
    destruct (decide (t' = t)) as [->|Hne]; [|by rewrite lookup_insert_ne]. rewrite lookup_insert_eq, HT. simpl. by rewrite Hk. }
  assert ((∃ t' r', x = Some (t', Some r') ∧ r' ∈ t_units T) ∨ ¬ (∃ t' r', x = Some (t', Some r') ∧ r' ∈ t_units T)) as [(t' & r' & -> & Hin)|Hno].
  { destruct x as [[t' [r'|]]|]; [|by right; intros (? & ? & ? & _)..]. destruct (decide (r' ∈ t_units T)); [by left; exists t', r'|].
    right. by intros (? & ? & [= <- <-] & ?). }
  - destruct (Hx1 _ _ eq_refl) as (T' & HT' & Hk'). assert (t' ≠ t) as Hne by (intros ->; congruence).
    pose proof (clear_repairer_world lost X t' (Some r') T' w W HT' Hk') as W1. set (w1 := set_tasks (<[t' := with_kind (RetreatTask None) T']> (tasks w)) w) in *.
    assert (∀ t1 T1, tasks w1 !! t1 = Some T1 → t1 ≠ t' → tasks w !! t1 = Some T1) as Hb by (intros t1 T1 H1 H2; simpl in H1; by rewrite lookup_insert_ne in H1).
    exists w1. split_and!; try done.
    + intros t1 T1 r1 V H1 H2 H3 H4 H5 H6. destruct (decide (t1 = t')) as [->|Hn].
      * simpl in H1. rewrite lookup_insert_eq in H1. injection H1 as <-. done.
      * specialize (Hx2 t1 T1 r1 V (Hb _ _ H1 Hn) H2 H4 H5 H6). congruence.
    + split; simpl; try done.
      * intros t1 T1 HT1. destruct (decide (t1 = t')) as [->|Hn]; [|rewrite lookup_insert_ne by done; by exists T1].
        rewrite lookup_insert_eq. assert (T1 = T') as -> by congruence. exists (with_kind (RetreatTask None) T'). unfold fighter_of. split_and!; simpl; rewrite ?Hk'; done.
      * intros t1 T1. destruct (decide (t1 = t')) as [->|Hn].
        { rewrite lookup_insert_eq. intros [= <-]. split; [by exists T'|]. intros u Hu. by exists t', T'. }
        rewrite lookup_insert_ne by done. intros HT1. split; [by exists T1|]. intros u Hu. by exists t1, T1.
      * intros u U HU. exists U. split_and!; try done. by left.
    + simpl. by rewrite lookup_insert_ne.
    + intros t1 T1 HT1. unfold rests. simpl. destruct (decide (t1 = t')) as [->|Hn]; [|rewrite lookup_insert_ne by done; by exists T1].
      rewrite lookup_insert_eq. assert (T1 = T') as -> by congruence. by eexists.
    + intros abort w0 HF. unfold Cancel. simpl. rewrite lookup_insert_eq. simpl. rewrite Hk, Hx0 by done. simpl.
      rewrite bool_decide_true by done. unfold set_repairer, upd_task. simpl. rewrite lookup_insert_ne, HT' by done. simpl. rewrite Hk'.
      rewrite insert_insert_ne by done. done.
  - exists w. split_and!; try done; [|apply settles_refl|by destruct w|intros t' T' HT'; by exists T'|].
    + intros t' T' r' V H1 H2 H3 H4 H5 H6. apply Hno. exists t', r'. split; [by eapply Hx2|].
      destruct (own_task _ _ (wo_owned _ _ _ W) _ _ _ (skel_of_unit _ _ _ H5) H6) as (S & HS & _ & Hmem & _).
      rewrite (skel_of_task _ _ _ HT) in HS. injection HS as <-. simpl in Hmem.
      destruct (decide (r' ∈ t_units T)) as [|Hn]; [done|]. rewrite Hk in Hmem. by destruct (Hmem Hn).
    + intros abort w0 HF. unfold Cancel. simpl. rewrite lookup_insert_eq. simpl. rewrite Hk, Hx0 by done. simpl.
      destruct x as [[t' [r'|]]|]; [|done..]. rewrite bool_decide_false; [done|]. intros Hin. apply Hno. by exists t', r'.
Qed.

Lemma forgotten_tasks w w0 x : forgotten w w0 → forgotten (set_tasks x w) (set_tasks x w0).
Proof. intros [F1 F2 F3 F4 F5 F6]. by split. Qed.

Lemma Dequeue_repair lost X t T r w n :
  world_ok lost ({[t]} ∪ X) w → tasks w !! t = Some T → isDead T = false → kind T = RepairTask r → quiet X w →
  ∃ w', DequeueTask (S n) t w = Some w' ∧ world_ok lost X w' ∧ ended t T w w'.
Proof.
  intros W HT Hd Hk HQ. assert (stoppable (class_of (kind T)) = true) as Hst by (by rewrite Hk).
  destruct (Cancel_repair_ok lost ({[t]} ∪ X) t T r w W HT Hd Hk) as (w1 & W1 & Hun & Hse & HT1 & HU1 & Hw1 & Hal & HC).
  { intros x T' [->%elem_of_singleton|Hx]%elem_of_union HT'; [|by apply (HQ x)]. right. unfold repairer_of.
    assert (T' = T) as -> by congruence. by rewrite Hk. }
  destruct (forget_task_ok t T w (wo_military _ _ _ W) (wo_builder _ _ _ W) HT Hd) as (w0 & H0 & HF & Hcomm & _ & _).
  destruct (dead_world _ _ _ _ _ W1 HT1 Hd Hst Hun) as (w0' & H0' & HF' & _ & W2).
  rewrite Hw1, Hcomm in H0'. injection H0' as <-. rewrite Hw1 in HF'.
  set (w2 := set_tasks (<[t := Dead T]> (tasks w1)) w0).
  assert (world_ok lost ({[t]} ∪ X) w2) as W3.
  { replace ({[t]} ∪ X) with ({[t]} ∪ ({[t]} ∪ X)) by set_solver. exact W2. }
  clear W2. assert (tasks w2 !! t = Some (Dead T)) as HT2 by apply lookup_insert_eq.
  destruct (stop_units_eq lost t (Dead T) w2) as (w3 & Hw3 & Hsp); [apply W3|done|done|].
  assert (world_ok lost X w3) as W4.
  { eapply (stops_world lost X t (Dead T) w2); try done. intros t' T' r' HT' Hd' Hk'.
    assert (t' ≠ t) as Hne by (intros ->; assert (T' = Dead T) as -> by congruence; done).
    simpl in HT'. rewrite lookup_insert_ne in HT' by done. eapply (unhelpful_units lost t T w1); [apply W1|done..]. }
  destruct (release_pull_ok lost X (kind T) w3 W4) as (R1 & R2 & R3 & R4 & R5).
  exists (release_pull (kind T) w3). split; [|split; [done|]].
  - rewrite (Dequeue_eq n t T w w0) by done.
    rewrite (Stop_eq _ t (Dead T) _ w2 (Dead T) w3); [done|apply lookup_insert_eq|done|by apply HC|done|done].
  - eapply ended_lists; [|done..]. eapply (ended_stop lost t T (Dead T) w w2); [apply W3|done..| | |done].
    + eapply settles_trans; [exact Hse|]. rewrite <-Hw1 in HF'.
      change (settles w1 (set_tasks (<[t := Dead T]> (tasks w1)) (set_tasks (tasks w1) w0))). apply (mark_settles t T w1 _ HT1); [by rewrite Hk|exact HF'].
    + intros t' T' HT' Hne. left. destruct (Hal _ _ HT') as (T1 & HT1' & Hd1). exists T1. simpl. by rewrite lookup_insert_ne.
Qed.

(** *** Retreats *)

Lemma world_ok_weaken lost X X' w : world_ok lost X w → X ⊆ X' → world_ok lost X' w.
Proof.
  intros W HX. eapply world_ok_keeps; [done|apply W|done|done|apply lists_kept_refl|done| |by left|by left].
  intros v V HV. exists V. split_and!; try done. by left.
Qed.

Lemma Dequeue_retreat lost X t T rp w n :
  world_ok lost ({[t]} ∪ X) w → tasks w !! t = Some T → isDead T = false → kind T = RetreatTask rp → quiet X w →
  ∃ w', DequeueTask (S (S n)) t w = Some w' ∧ world_ok lost X w' ∧ ended t T w w'.
Proof.
  intros W HT Hd Hk HQ. assert (stoppable (class_of (kind T)) = true) as Hst by (by rewrite Hk).
  assert (unhelpful t w) as Hun by (eapply unhelpful_other; [done..|by rewrite Hk]).
  destruct (dead_world _ _ _ _ _ W HT Hd Hst Hun) as (w0 & H0 & HF & _ & W1).
  pose proof (mark_settles t T w w0 HT ltac:(by rewrite Hk) HF) as Hse1. set (w1 := set_tasks _ w0) in *.
  replace ({[t]} ∪ ({[t]} ∪ X)) with ({[t]} ∪ X) in W1 by set_solver.
  assert (tasks w1 !! t = Some (Dead T)) as HT1 by apply lookup_insert_eq.
  assert (∀ t' T', tasks w !! t' = Some T' → t' ≠ t → rests t' T' w1) as Hr1.
  { intros t' T' HT' Hne. exists T'. simpl. by rewrite lookup_insert_ne. }
  assert (∃ w2, Cancel (DequeueTask (S n)) t w1 = Some w2 ∧ world_ok lost ({[t]} ∪ X) w2 ∧ settles w1 w2 ∧ rests t (Dead T) w2 ∧
    ∀ t' T', tasks w !! t' = Some T' → t' ≠ t → rests t' T' w2 ∨ ∃ r, repairer_of T = Some r ∧ r ∈ t_units T') as (w2 & HC & W2 & Hse2 & HT2 & Hr2).
  { unfold Cancel. rewrite HT1. simpl. rewrite Hk. destruct rp as [r|].
    - destruct (link_retreat _ _ _ _ (wo_links _ _ _ W) t (task_core T) r) as (R & tr & c1 & v & id & G1 & G2 & G3 & G4 & G5 & _);
        [by apply core_of_task|done|apply RP_lookup; by exists T|].
      destruct (unit_of_core _ _ _ G1) as (U & HU & ->). destruct (task_of_core _ _ _ G3) as (Tr & HTr & ->). simpl in G2, G4, G5.
      assert (tr ≠ t) as Hne by (intros ->; assert (Tr = T) as -> by congruence; by rewrite Hk in G5).
      destruct (kind Tr) as [| | | |rr|] eqn:Hkr; try discriminate.
      assert (tasks w1 !! tr = Some Tr) as HTr1 by (simpl; by rewrite lookup_insert_ne).
      destruct (Dequeue_repair lost ({[t]} ∪ X) tr Tr rr w1 n) as (w2 & HD & W2 & [D1 D2 D3 D4]); [|done..| |].
      { eapply world_ok_weaken; [done|set_solver]. }
      { intros x T' [->%elem_of_singleton|Hx]%elem_of_union HT'; [left; by assert (T' = Dead T) as -> by congruence|].
        destruct (decide (x = t)) as [->|Hxt]; [left; by assert (T' = Dead T) as -> by congruence|].
        simpl in HT'. rewrite lookup_insert_ne in HT' by done. by apply (HQ x). }
      exists w2. split_and!; [|done..| |].
      + simpl. destruct HF as [-> _ _ _ _ _]. rewrite HU. simpl. by rewrite G2.
      + destruct (D4 t (Dead T)) as [?|(r' & Hr' & _)]; [done..|]. unfold repairer_of in Hr'. by rewrite Hkr in Hr'.
      + intros t' T' HT' Hne'. destruct (decide (t' = tr)) as [->|Hn2].
        * right. exists r. unfold repairer_of. rewrite Hk. split; [done|]. assert (T' = Tr) as -> by congruence.
          destruct (own_task _ _ (wo_owned _ _ _ W) _ _ _ (skel_of_unit _ _ _ HU) G2) as (S & HS & _ & Hmem & _).
          rewrite (skel_of_task _ _ _ HTr) in HS. injection HS as <-. simpl in Hmem. rewrite Hkr in Hmem.
          destruct (decide (r ∈ t_units Tr)) as [|Hni]; [done|]. by destruct (Hmem Hni).
        * left. destruct (D4 t' T') as [?|(r' & Hr' & _)]; [simpl; by rewrite lookup_insert_ne|done..|]. unfold repairer_of in Hr'. by rewrite Hkr in Hr'.
    - exists w1. split_and!; [done..|apply settles_refl|by exists (Dead T)|]. intros t' T' HT' Hne. left. by apply Hr1. }
  destruct HT2 as (T2 & HT2 & Hd2 & Hu2). specialize (Hu2 ltac:(simpl; by rewrite Hk)).
  destruct (st_task _ _ Hse2 _ _ HT1) as (T2' & HT2' & Hm2 & Hc2 & _). assert (T2' = T2) as -> by congruence. simpl in Hm2, Hc2, Hd2, Hu2.
  assert (stoppable (class_of (kind T2)) = true) as Hst2 by (by rewrite Hc2).
  destruct (stop_units_eq lost t T2 w2) as (w3 & Hw3 & Hsp); [apply W2|done|done|].
  assert (∀ k, class_of k = C_RETREAT → release_pull k w3 = w3) as Hpull by (by intros []).
  exists w3. split_and!.
  - rewrite (Dequeue_eq (S n) t T w w0) by done. rewrite (Stop_eq _ t (Dead T) w1 w2 T2 w3) by done. f_equal. apply Hpull. rewrite Hc2. by rewrite Hk.
  - eapply (stops_world lost X t T2 w2); try done. intros t' T' r HT' Hd' Hk'.
    assert (t' ≠ t) as Hne by (intros ->; assert (T' = T2) as -> by congruence; congruence).
    eapply (unhelpful_units lost t T2 w2); [apply W2|done| |done..]. eapply unhelpful_other; [done..|]. rewrite Hc2. by rewrite Hk.
  - eapply (ended_stop lost t T T2 w w2); [apply W2|done..| |done|done]. by eapply settles_trans.
Qed.

(** [AbortTask], [DoneTask]. *)
Lemma AbortTask_ok lost X t T w :
  world_ok lost ({[t]} ∪ X) w → tasks w !! t = Some T → isDead T = false → stoppable (class_of (kind T)) = true → quiet X w →
  ∃ w', AbortTask t w = Some w' ∧ world_ok lost X w' ∧ ended t T w w'.
Proof.
  intros W HT Hd Hst HQ. unfold AbortTask. destruct (kind T) as [| | |rp|r|f] eqn:Hk; try discriminate.
  - by eapply Dequeue_retreat.
  - by eapply Dequeue_repair.
  - by eapply Dequeue_fighter.
Qed.
End stop.
