(* ===== verification/TaskLeave.v ===== *)
(** * TaskLeave: a unit leaves its task

    [RemoveAssignee] of every class under the invariant: it returns, the unit idles, the invariant holds
    again (a squad has a new leader or is aborted, an empty retreat is done, a retreat whose repairer
    leaves looks for another), and no other task is touched but the idle task and what a finished retreat
    aborts. *)

From stdpp Require Import sorting.
From S2P Require Import Prelude Float32 EnemyUnit ActionList TaskData TaskCore TaskClasses TaskTheory TaskInvariant TaskSteps TaskStop.

Open Scope circuit_scope.

Section leave.
Context {E : Engine} {H : Heap} {TE : TaskEngine}.

(** ** What changes in the world at large *)

(** [P] are the tasks that may change. *)
Record changes (P : Z → Prop) (w w' : World) : Prop := {
  ch_task t T : tasks w !! t = Some T → ∃ T', tasks w' !! t = Some T' ∧ manager T' = manager T ∧ class_of (kind T') = class_of (kind T) ∧
    (isDead T = true → isDead T' = true) ∧ kcore (kind T') = kcore (kind T);
  ch_rest t T : tasks w !! t = Some T → ¬ P t → rests t T w';
  ch_fighter t T T' : tasks w !! t = Some T → ¬ P t → tasks w' !! t = Some T' → fighter_of T' = fighter_of T;
  ch_tasks t T' : tasks w' !! t = Some T' → is_Some (tasks w !! t);
  ch_unit u U : units w !! u = Some U → ∃ U', units w' !! u = Some U' ∧ u_id U' = u_id U ∧ u_def U' = u_def U ∧
    u_manager U' = u_manager U ∧ u_isDead U' = u_isDead U ∧ u_hasShield U' = u_hasShield U ∧
    (u_task U' = u_task U ∨ ∃ m, u_manager U = Some m ∧ u_task U' = Some (idleTask w m));
  ch_heads : same_heads w w';
  ch_team : teamUnits w' = teamUnits w;
  ch_frame : lastFrame w' = lastFrame w
}.
Lemma rests_trans t T T2 w2 w3 : tasks w2 !! t = Some T2 → class_of (kind T2) = class_of (kind T) → rests t T w2 → rests t T2 w3 → rests t T w3.
Proof.
  intros HT2 Hc (T2' & HT2' & H1 & H2) (T3 & HT3 & H3 & H4). assert (T2' = T2) as -> by congruence.
  exists T3. split_and!; [done|congruence|]. intros Hn. rewrite H4, H2 by congruence. done.
Qed.
Lemma changes_trans P Q w1 w2 w3 : changes P w1 w2 → changes Q w2 w3 → changes (λ t, P t ∨ Q t) w1 w3.
Proof.
  intros [A1 A2 AF A3 A4 A5 A6 A7] [B1 B2 BF B3 B4 B5 B6 B7]. split; try congruence.
  - intros t T HT. destruct (A1 _ _ HT) as (T2 & H2 & P1 & P2 & P3 & P4). destruct (B1 _ _ H2) as (T3 & H3 & Q1 & Q2 & Q3 & Q4).
    exists T3. split_and!; try congruence. auto.
  - intros t T HT Hn. destruct (A1 _ _ HT) as (T2 & H2 & P1 & P2 & P3). eapply rests_trans; [done|done|apply A2; auto|apply B2; auto].
  - intros t T T3 HT Hn H3. destruct (A1 _ _ HT) as (T2 & H2 & _). rewrite (BF t T2 T3), (AF t T T2); auto.
  - intros t T3 H3. destruct (B3 _ _ H3) as [T2 H2]. by eapply A3.
  - intros u U HU. destruct (A4 _ _ HU) as (U2 & H2 & P1 & P2 & P3 & P4 & P5 & P6). destruct (B4 _ _ H2) as (U3 & H3 & Q1 & Q2 & Q3 & Q4 & Q5 & Q6).
    exists U3. split_and!; try congruence. destruct Q6 as [->|(m & Hm & ->)]; [done|]. right. exists m. split; [congruence|].
    by destruct (A5 m) as (-> & _).
  - by eapply same_heads_trans.
Qed.
Lemma changes_mono (P Q : Z → Prop) w w' : (∀ t T, tasks w !! t = Some T → P t → Q t) → changes P w w' → changes Q w w'.
Proof.
  intros HPQ [A1 A2 AF A3 A4 A5 A6 A7]. split; try done.
  - intros t T HT Hn. apply A2; [done|]. intros HP. by eapply Hn, HPQ.
  - intros t T T' HT Hn. apply AF; [done|]. intros HP. by eapply Hn, HPQ.
Qed.
Lemma changes_refl w : changes (λ _, False) w w.
Proof.
  split; try done.
  - intros t T HT. by exists T.
  - intros t T HT _. by exists T.
  - intros t T T' HT _ HT'. congruence.
  - intros u U HU. exists U. split_and!; try done. by left.
Qed.
(** The tasks [AbortTask] may change. *)
Definition repairs_for (t : Z) (T : IUnitTask) (w : World) (t' : Z) : Prop :=
  t' = t ∨ ∃ r R, repairer_of T = Some r ∧ units w !! r = Some R ∧ u_task R = Some t'.
Lemma ended_changes lost t T w w' : owned_ok lost w → ended t T w w' → changes (repairs_for t T w) w w'.
Proof.
  intros O [[S1 S2 S3 S4 S5 S6] E2 E3 E4]. split; try done.
  - intros t' T' HT'. destruct (S1 _ _ HT') as (T1 & H1 & H2 & H3 & _ & H5 & _ & H6). by exists T1.
  - intros t' T' HT' Hn. destruct (E4 t' T' HT') as [?|(r & H1 & H2)]; [|done|]; [intros ->; apply Hn; by left|].
    destruct Hn. right. destruct (own_member _ _ O _ _ _ (skel_of_task _ _ _ HT') H2) as (S & HS & H3 & _).
    destruct (unit_of_skel _ _ _ HS) as (R & HR & ->). by exists r, R.
  - intros t' T1 T2 HT1 _ HT2. destruct (S1 _ _ HT1) as (T3 & H1 & _ & _ & H4 & _). congruence.
  - intros t' T' HT'. by apply (S2 t' T').
Qed.
Lemma inner_changes t u T U T' U' w w' : tasks w !! t = Some T → units w !! u = Some U → inner t u T U T' U' w w' → fighter_of T' = fighter_of T → changes (λ _, False) w w'.
Proof.
  intros HT HU [A1 A2 A3 A4 A5 A6 A7] HFi.
  assert (∀ t0 T0, tasks w !! t0 = Some T0 → ∃ T1, tasks w' !! t0 = Some T1 ∧ tkept T0 T1) as Hk.
  { intros t0 T0 HT0. rewrite A1. destruct (decide (t0 = t)) as [->|Hne]; [|rewrite lookup_insert_ne by done; by exists T0].
    rewrite lookup_insert_eq. exists T'. by assert (T0 = T) as -> by congruence. }
  split; try done.
  - intros t0 T0 HT0. destruct (Hk _ _ HT0) as (T1 & H1 & H2). exists T1. rewrite (tk_manager _ _ H2), (tk_dead _ _ H2).
    split_and!; try done; [|by apply (tk_core _ _ H2)]. rewrite <-!kclass_kcore. by rewrite (tk_core _ _ H2).
  - intros t0 T0 HT0 _. destruct (Hk _ _ HT0) as (T1 & H1 & H2). exists T1. by destruct H2.
  - intros t0 T0 T1 HT0 _. rewrite A1. destruct (decide (t0 = t)) as [->|Hne]; [|rewrite lookup_insert_ne by done; congruence].
    rewrite lookup_insert_eq. congruence.
  - intros t0 T1. rewrite A1. destruct (decide (t0 = t)) as [->|Hne]; [by rewrite HT|]. rewrite lookup_insert_ne by done. intros ?; by exists T1.
  - intros v V HV. rewrite A2. destruct (decide (v = u)) as [->|Hne]; [|rewrite lookup_insert_ne by done; exists V; split_and!; try done; by left].
    rewrite lookup_insert_eq. exists U'. assert (V = U) as -> by congruence. destruct A7. split_and!; try done. by left.
  - by apply lists_heads.
  - by destruct A3.
Qed.
Lemma base_changes t u i T U T' U' I I' w w' :
  tasks w !! t = Some T → units w !! u = Some U → tasks w !! i = Some I → i ≠ t →
  tasks w' = <[t := T']> (<[i := I']> (tasks w)) → units w' = <[u := U']> (units w) → lists_kept w w' → lastFrame w' = lastFrame w →
  manager T' = manager T → class_of (kind T') = class_of (kind T) → isDead T' = isDead T →
  kcore (kind T') = kcore (kind T) → kcore (kind I') = kcore (kind I) →
  manager I' = manager I → class_of (kind I') = class_of (kind I) → class_of (kind I) = C_IDLE → isDead I' = isDead I →
  u_id U' = u_id U → u_def U' = u_def U → u_manager U' = u_manager U → u_isDead U' = u_isDead U → u_hasShield U' = u_hasShield U →
  (u_task U' = u_task U ∨ ∃ m, u_manager U = Some m ∧ u_task U' = Some (idleTask w m)) →
  changes (eq t) w w'.
Proof.
  intros HT HU HI Hne A1 A2 A3 A4 B1 B2 B3 B4 B5 C1 C2 C3 C4 D1 D2 D3 D4 D5 D6. split; try done.
  - intros t0 T0 HT0. rewrite A1. destruct (decide (t0 = t)) as [->|Hn].
    + rewrite lookup_insert_eq. assert (T0 = T) as -> by congruence. exists T'. split_and!; congruence.
    + rewrite lookup_insert_ne by done. destruct (decide (t0 = i)) as [->|Hn2]; [|rewrite lookup_insert_ne by done; by exists T0].
      rewrite lookup_insert_eq. assert (T0 = I) as -> by congruence. exists I'. split_and!; congruence.
  - intros t0 T0 HT0 Hn. unfold rests. rewrite A1, lookup_insert_ne by done. destruct (decide (t0 = i)) as [->|Hn2]; [|rewrite lookup_insert_ne by done; by exists T0].
    rewrite lookup_insert_eq. assert (T0 = I) as -> by congruence. by exists I'.
  - intros t0 T0 T1 HT0 Hn. rewrite A1, lookup_insert_ne by done. destruct (decide (t0 = i)) as [->|Hn2]; [|rewrite lookup_insert_ne by done; congruence].
    rewrite lookup_insert_eq. intros [= <-]. assert (T0 = I) as -> by congruence. unfold fighter_of. by destruct (kind I), (kind I').
  - intros t0 T1. rewrite A1. destruct (decide (t0 = t)) as [->|Hn]; [by rewrite HT|]. rewrite lookup_insert_ne by done.
    destruct (decide (t0 = i)) as [->|Hn2]; [by rewrite HI|]. rewrite lookup_insert_ne by done. intros ?; by exists T1.
  - intros v V HV. rewrite A2. destruct (decide (v = u)) as [->|Hn]; [|rewrite lookup_insert_ne by done; exists V; split_and!; try done; by left].
    rewrite lookup_insert_eq. assert (V = U) as -> by congruence. by exists U'.
  - by apply lists_heads.
  - by destruct A3.
Qed.
Lemma releases_changes lost t u T U T' U' w w' :
  owned_ok lost w → tasks w !! t = Some T → units w !! u = Some U → u_task U = Some t → releases t u T U T' U' w w' → changes (eq t) w w'.
Proof.
  intros O HT HU Ht [(I & HI & Hne & A1) A2 A3 A4 A5 A6 A7]. destruct (idle_task _ _ (manager T) O) as (I0 & Y & n & HI0 & HIk & _).
  assert (I0 = I) as -> by congruence. destruct (released_kept u (lastFrame w) T) as (F1 & F2 & F3 & F4 & F5). destruct A7.
  eapply (base_changes t u _ T U T' U' I (insert_unit u I)); try done.
  - rewrite (tk_manager _ _ A5). done.
  - rewrite <-kclass_kcore, (tk_core _ _ A5), F3. apply kclass_kcore.
  - rewrite (tk_dead _ _ A5). done.
  - by rewrite (tk_core _ _ A5), F3.
  - by rewrite HIk.
  - right. exists (manager T). split; [|done]. destruct (own_task _ _ O _ _ _ (skel_of_unit _ _ _ HU) Ht) as (S & HS & Hm & _).
    rewrite (skel_of_task _ _ _ HT) in HS. by injection HS as <-.
Qed.

(** ** The parts of RemoveAssignee *)

(** The leader of a squad, if it has one, is one of [X]. *)
Definition led_by (X : gset Z) (T : IUnitTask) : Prop := ∀ f l, kind T = FighterTask f → is_squad (fightType f) = true → leader (squad f) = Some l → l ∈ X.
(** What [RemoveAssignee] promises: the unit [u] left [t], which has ended if it does without units. *)
Record left_task (lost : gset Z) (t u : Z) (T : IUnitTask) (w w' : World) : Prop := {
  lt_world : world_ok (lost ∖ {[u]}) ∅ w';
  lt_changes : changes (repairs_for t T w) w w';
  lt_unit : ∃ U, units w' !! u = Some U ∧ u_task U = Some (idleTask w (manager T));
  lt_task : ∃ T', tasks w' !! t = Some T' ∧
    (isDead T' = true ∧ ends_empty (class_of (kind T)) = true ∨
     isDead T' = isDead T ∧ t_units T' = t_units T ∖ {[u]} ∧ (ends_empty (class_of (kind T)) = true → t_units T' ≠ ∅));
  lt_leader T' : tasks w' !! t = Some T' → led_by (t_units T) T'
}.
Lemma ends_stoppable c : ends_empty c = true → stoppable c = true.
Proof. by destruct c. Qed.

Lemma member_of lost w u U t T : owned_ok lost w → units w !! u = Some U → u_task U = Some t → tasks w !! t = Some T →
  class_of (kind T) ≠ C_NIL → class_of (kind T) ≠ C_IDLE → u_manager U = Some (manager T) ∧ u ∈ t_units T.
Proof.
  intros O HU Ht HT H1 H2. destruct (own_task _ _ O _ _ _ (skel_of_unit _ _ _ HU) Ht) as (S & HS & Hm & Hmem & _).
  rewrite (skel_of_task _ _ _ HT) in HS. injection HS as <-. simpl in *. split; [done|].
  destruct (decide (u ∈ t_units T)) as [|Hx]; [done|by destruct (Hmem Hx)].
Qed.
Lemma may_release_facts lost X t u T U w :
  world_ok lost X w → may_release t u T U w → class_of (kind T) ≠ C_NIL →
  u_manager U = Some (manager T) ∧ u ∈ t_units T ∧ (t ∉ X → isDead T = false).
Proof.
  intros W [M1 M2 M3 M4 M5] Hn.
  destruct (member_of _ _ _ _ _ _ (wo_owned _ _ _ W) M2 M5 M1 Hn M3) as [Hm Hin].
  split_and!; [done..|]. intros Hx. destruct (isDead T) eqn:Hd; [|done].
  destruct (wo_tasks _ _ _ W _ _ M1) as [G _]. destruct (G Hx) as [G1 _]. rewrite G1 in Hin by done. set_solver.
Qed.

(** [IUnitTask::RemoveAssignee] of a task that is no fighter task. *)
Lemma IUnit_releases lost X t u T U w :
  world_ok lost X w → may_release t u T U w → sets_of T = (∅, ∅) →
  ∃ w1, IUnitTask_RemoveAssignee t u w = Some w1 ∧
    releases t u T U (released_task u (lastFrame w) T) (released_unit (idleTask w (manager T)) (lastFrame w) U) w w1.
Proof.
  intros W [M1 M2 M3 M4 M5] Hs.
  destruct (IUnitTask_RemoveAssignee_ok lost t u w T U (wo_owned _ _ _ W) M1 M3 M2 M5) as (w1 & I & H1 & _ & HR & HI & Hne & HT & HU).
  exists w1. split; [done|]. split; try done.
  - by exists I.
  - by apply rest_lists.
  - by destruct HR as (_ & _ & _ & ? & _).
  - rewrite Hs. destruct (released_kept u (lastFrame w) T) as (_ & _ & F3 & _). unfold sets_of in *. rewrite F3, Hs. simpl. set_solver.
Qed.

Lemma upd_fighter_eq t g w T f : tasks w !! t = Some T → kind T = FighterTask f →
  upd_fighter t g w = Some (set_tasks (<[t := with_kind (FighterTask (g f)) T]> (tasks w)) w).
Proof. intros HT Hk. unfold upd_fighter, fighter_of, upd_task. rewrite HT. simpl. rewrite Hk. simpl. done. Qed.

(** What a fighter task loses with the unit [U]. *)
Definition lose (u : Z) (U : CCircuitUnit) (f : Fighter) : Fighter :=
  let f := with_power (fsub (attackPower f) (power (d_cdef (u_def U)))) f in
  let f := with_sets (cowards f ∖ {[u]}) (shields f) f in
  if u_hasShield U then with_sets (cowards f) (shields f ∖ {[u]}) f else f.
Lemma lose_facts u U f : fightType (lose u U f) = fightType f ∧ (target (lose u U f), promote (lose u U f)) = (target f, promote f) ∧ squad (lose u U f) = squad f ∧
  limit (lose u U f) = limit f ∧ cowards (lose u U f) = cowards f ∖ {[u]} ∧ shields (lose u U f) ⊆ shields f ∧ (u_hasShield U = true → u ∉ shields (lose u U f)).
Proof. unfold lose. destruct (u_hasShield U); split_and!; simpl; try done; set_solver. Qed.

Definition lost_task (u frame : Z) (U : CCircuitUnit) (f : Fighter) (T : IUnitTask) : IUnitTask :=
  with_kind (FighterTask (lose u U f)) (released_task u frame T).

Lemma IFighter_releases lost X t u T U f w :
  world_ok lost X w → may_release t u T U w → kind T = FighterTask f →
  ∃ w1, IFighter_RemoveAssignee t u w = Some w1 ∧
    releases t u T U (lost_task u (lastFrame w) U f T) (released_unit (idleTask w (manager T)) (lastFrame w) U) w w1.
Proof.
  intros W [M1 M2 M3 M4 M5] Hk. unfold IFighter_RemoveAssignee.
  destruct (IUnitTask_RemoveAssignee_ok lost t u w T U (wo_owned _ _ _ W) M1 M3 M2 M5) as (w1 & I & H1 & _ & HR & HI & Hne & HT & HU).
  rewrite H1. simpl. rewrite HU, lookup_insert_eq. simpl.
  set (T1 := released_task u (lastFrame w) T) in *. destruct (released_kept u (lastFrame w) T) as (F1 & F2 & F3 & F4 & F5). fold T1 in F1, F2, F3, F4, F5.
  assert (tasks w1 !! t = Some T1) as HT1 by (by rewrite HT, lookup_insert_eq).
  rewrite (upd_fighter_eq t _ w1 T1 f) by congruence. simpl. erewrite upd_fighter_eq; [|simpl; apply lookup_insert_eq|done]. simpl.
  set (p := fsub _ _).
  destruct (lose_facts u U f) as (G1 & G2 & G3 & G4 & G5 & G6 & G7).
  assert (∀ w2, tasks w2 = <[t := lost_task u (lastFrame w) U f T]> (tasks w1) → units w2 = units w1 → lists_kept w1 w2 → lastFrame w2 = lastFrame w1 →
    releases t u T U (lost_task u (lastFrame w) U f T) (released_unit (idleTask w (manager T)) (lastFrame w) U) w w2) as Hfin.
  { intros w2 R1 R2 R3 R4. split.
    - exists I. split_and!; [done..|]. rewrite R1, HT, insert_insert_eq. done.
    - by rewrite R2.
    - eapply lists_kept_trans; [|exact R3]. by apply rest_lists.
    - rewrite R4. by destruct HR as (_ & _ & _ & ? & _).
    - unfold lost_task. fold T1. split; try done; unfold repairer_of; simpl; rewrite F3, Hk; simpl; congruence.
    - unfold sets_of. simpl. rewrite Hk, G5. simpl. done.
    - apply ukept_refl. }
  destruct (u_hasShield U) eqn:Hs.
  - erewrite upd_fighter_eq; [|simpl; apply lookup_insert_eq|done]. eexists. split; [done|]. apply Hfin; try done; [|by apply lists_kept_same].
    simpl. rewrite !insert_insert_eq. unfold lost_task, lose. rewrite Hs. done.
  - eexists. split; [done|]. apply Hfin; try done; [|by apply lists_kept_same]. simpl. rewrite !insert_insert_eq. unfold lost_task, lose. rewrite Hs. done.
Qed.

(** *** The leader of a squad *)

Lemma widen_leader U s s' : widen U s = Some s' → leader s' = leader s.
Proof. unfold widen. destruct (unit_range U); simpl; [|done]. by intros [= <-]. Qed.
Lemma widen_ok U s : is_Some (unit_range U) → ∃ s', widen U s = Some s' ∧ leader s' = leader s.
Proof. intros [r Hr]. unfold widen. rewrite Hr. simpl. by eexists. Qed.

(** Every unit of the list has a range, and so do the leaders. *)
Definition ranged (l : list Z) (w : World) : Prop := ∀ u, u ∈ l → ∃ U, units w !! u = Some U ∧ is_Some (unit_range U).

Lemma find_first_ok l s w : ranged l w →
  ∃ s' l', find_first l s w = Some (s', l') ∧ (∀ u, u ∈ l' → u ∈ l) ∧
    (leader s' = leader s ∧ l' = [] ∨ ∃ x, leader s' = Some x ∧ x ∈ l).
Proof.
  revert s. induction l as [|u l IH]; intros s Hr; simpl.
  - exists s, []. split; [done|]. split; [done|]. by left.
  - destruct (Hr u) as (U & HU & HUr); [by left|]. rewrite HU. simpl. destruct (widen_ok U s HUr) as (s1 & -> & Hl1). simpl.
    destruct (IsRoleSupport (u_def U)).
    + destruct (IH s1) as (s2 & l2 & -> & H1 & H2); [intros v Hv; apply Hr; by right|]. exists s2, l2. split; [done|].
      split; [intros v Hv; right; by apply H1|]. destruct H2 as [[H2 H3]|(x & H2 & H3)]; [left; split; [congruence|done]|right; exists x; split; [done|by right]].
    + eexists _, l. split; [done|]. split; [intros v Hv; by right|]. right. exists u. split; [done|by left].
Qed.
Lemma find_next_ok w s u (P : Z → Prop) x :
  leader s = Some x → P x → (∀ y, P y → is_Some (units w !! y)) → P u → (∃ U, units w !! u = Some U ∧ is_Some (unit_range U)) →
  ∃ s', find_next w s u = Some s' ∧ ∃ y, leader s' = Some y ∧ P y.
Proof.
  intros Hl Hx HP Hu (U & HU & HUr). unfold find_next. rewrite HU. simpl. destruct (widen_ok U s HUr) as (s1 & -> & Hl1). simpl.
  rewrite Hl in Hl1. destruct (_ || _); [by eauto|]. rewrite Hl1. simpl. destruct (HP _ Hx) as [L ->]. simpl.
  destruct (better_leader L U); by eauto.
Qed.
Lemma find_next_loop w l s (P : Z → Prop) x :
  leader s = Some x → P x → (∀ y, P y → is_Some (units w !! y)) → (∀ u, u ∈ l → P u) → ranged l w →
  ∃ s', foldM (find_next w) s l = Some s' ∧ ∃ y, leader s' = Some y ∧ P y.
Proof.
  revert s x. induction l as [|u l IH]; intros s x Hl Hx HP Hlp Hr; simpl; [by eauto|].
  destruct (find_next_ok w s u P x) as (s1 & -> & y & Hy & HPy); [done..|apply Hlp; by left|apply Hr; by left|]. simpl.
  apply (IH s1 y); [done..|intros v Hv; apply Hlp; by right|intros v Hv; apply Hr; by right].
Qed.
(** The leader found is a unit of the list, or the one there was. *)
Lemma FindLeader_ok l s w : ranged l w → (∀ x, leader s = Some x → is_Some (units w !! x)) →
  ∃ s', FindLeader l s w = Some s' ∧ (∀ x, leader s' = Some x → x ∈ l ∨ leader s = Some x) ∧ (is_Some (leader s) → is_Some (leader s')).
Proof.
  intros Hr Hs. unfold FindLeader. case_bool_decide as Hn.
  - destruct (find_first_ok l s w Hr) as (s1 & l1 & -> & H1 & [[H2 ->]|(x & H2 & H3)]); simpl.
    + exists s1. split; [done|]. rewrite H2, Hn. split; [done|]. by intros [].
    + destruct (find_next_loop w l1 s1 (λ y, y ∈ l) x) as (s2 & H4 & y & H5 & H6); [done..|intros y Hy|intros u Hu; by apply H1|intros u Hu; apply Hr, H1, Hu|].
      { destruct (Hr y Hy) as (U & HU & _). by eexists. }
      exists s2. split; [done|]. split; [intros z; rewrite H5; intros [= <-]; by left|]. rewrite Hn. by intros [].
  - simpl. destruct (leader s) as [x|] eqn:Hx; [|done].
    destruct (find_next_loop w l s (λ y, y ∈ l ∨ y = x) x) as (s2 & H4 & y & H5 & H6); [done|by right| |by left|done|].
    { intros y [Hy| ->]; [|by apply Hs]. destruct (Hr y Hy) as (U & HU & _). by eexists. }
    exists s2. split; [done|]. split; [intros z; rewrite H5; intros [= <-]; destruct H6 as [|<-]; [by left|by right]|]. intros _. by rewrite H5.
Qed.

(** The units of a task after an inner step or a release. *)
Lemma units_ranged lost X t T w w' l :
  world_ok lost X w → tasks w !! t = Some T → (∀ u, u ∈ l → u ∈ t_units T) →
  (∀ v V, units w !! v = Some V → ∃ V', units w' !! v = Some V' ∧ u_def V' = u_def V) → ranged l w'.
Proof.
  intros W HT Hl HU u Hu. destruct (own_member _ _ (wo_owned _ _ _ W) _ _ u (skel_of_task _ _ _ HT)) as (S & HS & _); [by apply Hl|].
  destruct (unit_of_skel _ _ _ HS) as (V & HV & _). destruct (HU _ _ HV) as (V' & HV' & Hd). exists V'. split; [done|].
  unfold unit_range. rewrite Hd. apply (wo_defs _ _ _ W _ _ HV).
Qed.
Lemma releases_defs t u T U T' U' w w' : units w !! u = Some U → releases t u T U T' U' w w' →
  ∀ v V, units w !! v = Some V → ∃ V', units w' !! v = Some V' ∧ u_def V' = u_def V.
Proof.
  intros HU [_ A2 _ _ _ _ A7] v V HV. rewrite A2. destruct (decide (v = u)) as [->|Hne]; [|rewrite lookup_insert_ne by done; by exists V].
  rewrite lookup_insert_eq. exists U'. assert (V = U) as -> by congruence. by destruct A7.
Qed.
Lemma releases_units t u T U T' U' w w' : releases t u T U T' U' w w' → t_units T' = t_units T ∖ {[u]} ∧ isDead T' = isDead T ∧ kcore (kind T') = kcore (kind T).
Proof.
  intros [_ _ _ _ A5 _ _]. destruct (released_kept u (lastFrame w) T) as (F1 & F2 & F3 & F4 & F5). destruct A5. split_and!; congruence.
Qed.

(** A fighter's own fields change: an inner step behind a release. *)
Lemma releases_fighter t u T U T1 U1 f1 g w w1 :
  releases t u T U T1 U1 w w1 → kind T1 = FighterTask f1 →
  fightType (g f1) = fightType f1 → (target (g f1), promote (g f1)) = (target f1, promote f1) → cowards (g f1) = cowards f1 → shields (g f1) = shields f1 →
  ∃ w2 T2, upd_fighter t g w1 = Some w2 ∧ releases t u T U T2 U1 w w2 ∧ kind T2 = FighterTask (g f1).
Proof.
  intros HR Hk G1 G2 G3 G4. destruct (releases_lookup _ _ _ _ _ _ _ _ HR) as [HT1 HU1].
  destruct (upd_fighter_inner t u g w1 T1 U1 f1) as (w2 & H2 & Hin); [done..|]. eexists w2, _. split; [done|]. split; [by eapply releases_inner|done].
Qed.

Lemma ISquad_releases lost X t u T U f w (U1 := released_unit (idleTask w (manager T)) (lastFrame w) U) :
  world_ok lost X w → may_release t u T U w → kind T = FighterTask f →
  ∃ w1 T1 f1, ISquad_RemoveAssignee t u w = Some w1 ∧ releases t u T U T1 U1 w w1 ∧ kind T1 = FighterTask f1 ∧
    fightType f1 = fightType f ∧ (∀ x, leader (squad f1) = Some x → x ∈ t_units T1).
Proof.
  intros W M Hk. unfold ISquad_RemoveAssignee. destruct (IFighter_releases lost X t u T U f w W M Hk) as (w1 & -> & R1). simpl.
  destruct (lose_facts u U f) as (G1 & _).
  destruct (releases_fighter t u T U _ _ (lose u U f) (with_squad no_squad) w w1 R1) as (w2 & T2 & -> & R2 & Hk2); [done..|]. simpl.
  destruct (releases_lookup _ _ _ _ _ _ _ _ R2) as [HT2 HU2]. rewrite HT2. simpl. case_bool_decide as Hemp.
  - exists w2, T2, (with_squad no_squad (lose u U f)). by split_and!.
  - destruct (FindLeader_ok (in_order (t_units T2)) no_squad w2) as (s & Hs & Hs1 & _); [|done|].
    { eapply (units_ranged lost X t T w); [done|apply M| |by eapply releases_defs; [apply M|]].
      intros v Hv%elem_of_in_order. destruct (releases_units _ _ _ _ _ _ _ _ R2) as (Hu & _). rewrite Hu in Hv. set_solver. }
    rewrite Hs. simpl.
    destruct (releases_fighter t u T U _ _ (with_squad no_squad (lose u U f)) (with_squad s) w w2 R2 Hk2) as (w3 & T3 & -> & R3 & Hk3); [done..|].
    eexists w3, T3, _. split_and!; [done..|]. intros x Hx. simpl in Hx. destruct (Hs1 x Hx) as [Hx1%elem_of_in_order|Hx1]; [|discriminate Hx1].
    destruct (releases_units _ _ _ _ _ _ _ _ R2) as (Hu2 & _), (releases_units _ _ _ _ _ _ _ _ R3) as (Hu3 & _). congruence.
Qed.

(** ** RemoveAssignee *)

Lemma free_leave lost X t u T U w :
  world_ok lost X w → may_release t u T U w → class_of (kind T) ≠ C_REPAIR → class_of (kind T) ≠ C_RETREAT → free_to_go X (TC w) (RP w) u (unit_core U).
Proof.
  intros W [M1 M2 M3 M4 M5] H1 H2. eapply free_other; [done|by intros|done|done|by apply core_of_task|by simpl; rewrite kclass_kcore..].
Qed.

(** A task that changes nothing more. *)
Lemma releases_left lost t u T U T1 U1 w w1 :
  world_ok lost ∅ w → may_release t u T U w → class_of (kind T) ≠ C_NIL → releases t u T U T1 U1 w w1 → free_to_go ∅ (TC w) (RP w) u (unit_core U) → led T1 →
  (ends_empty (class_of (kind T)) = true → t_units T1 ≠ ∅) →
  left_task lost t u T w w1.
Proof.
  intros W M Hnil R Hf Hl Hne. destruct (may_release_facts _ _ _ _ _ _ _ W M Hnil) as (_ & _ & Hd). specialize (Hd (not_elem_of_empty _)).
  destruct M as [M1 M2 M3 M4 M5]. split.
  - eapply releases_world; [done..|by intros].
  - eapply changes_mono; [|eapply releases_changes; [apply W|done..]]. intros t' T' _ <-. by left.
  - destruct (releases_lookup _ _ _ _ _ _ _ _ R) as [_ HU1]. exists U1. split; [done|]. destruct R as [_ _ _ _ _ _ []]. done.
  - destruct (releases_lookup _ _ _ _ _ _ _ _ R) as [HT1 _]. exists T1. split; [done|]. right. destruct (releases_units _ _ _ _ _ _ _ _ R) as (? & ? & _). by split_and!.
  - intros T' HT'. destruct (releases_lookup _ _ _ _ _ _ _ _ R) as [HT1 _]. assert (T' = T1) as -> by congruence. destruct (releases_units _ _ _ _ _ _ _ _ R) as (Hu1 & Hd1 & _).
    intros f l Hk Hs Hl1. specialize (Hl (eq_trans Hd1 Hd) f Hk Hs). rewrite Hl1, Hu1 in Hl. set_solver.
Qed.
(** A task that is aborted when the unit has left. *)
Lemma releases_abort lost t u T U T1 U1 w w1 :
  world_ok lost ∅ w → may_release t u T U w → ends_empty (class_of (kind T)) = true → releases t u T U T1 U1 w w1 →
  free_to_go {[t]} (TC w) (RP w) u (unit_core U) → led_by (t_units T) T1 →
  ∃ w2, AbortTask t w1 = Some w2 ∧ left_task lost t u T w w2.
Proof.
  intros W M Hend R Hf Hlb. pose proof M as [M1 M2 M3 M4 M5]. pose proof (ends_stoppable _ Hend) as Hst.
  assert (class_of (kind T) ≠ C_NIL) as Hn by (by intros Hx; rewrite Hx in Hst).
  destruct (may_release_facts _ _ _ _ _ _ _ W M Hn) as (Hm & Hin & Hd).
  destruct (releases_lookup _ _ _ _ _ _ _ _ R) as [HT1 HU1]. destruct (releases_units _ _ _ _ _ _ _ _ R) as (Hu1 & Hd1 & Hk1).
  assert (class_of (kind T1) = class_of (kind T)) as Hc1 by (rewrite <-!kclass_kcore; congruence).
  assert (manager T1 = manager T) as Hm1.
  { destruct R as [_ _ _ _ R5 _ _]. rewrite (tk_manager _ _ R5). by apply released_kept. }
  assert (repairer_of T1 = repairer_of T) as Hr1.
  { destruct R as [_ _ _ _ R5 _ _]. rewrite (tk_repairer _ _ R5). unfold repairer_of. by destruct (released_kept u (lastFrame w) T) as (_ & _ & -> & _). }
  assert (world_ok (lost ∖ {[u]}) {[t]} w1) as W1 by (eapply releases_world; [done|set_solver|done..|set_solver]).
  pose proof (releases_changes lost t u T U T1 U1 w w1 (wo_owned _ _ _ W) M1 M2 M5 R) as HC1.
  destruct (AbortTask_ok (lost ∖ {[u]}) ∅ t T1 w1) as (w2 & H2 & W2 & He); [|done|rewrite Hd1; by apply Hd|by rewrite Hc1|by intros ? ? ?%not_elem_of_empty|].
  { by rewrite union_empty_r_L. }
  exists w2. split; [done|]. split; [done| | | |].
  - eapply changes_mono; [|eapply changes_trans; [exact HC1|eapply ended_changes; [apply W1|done]]].
    intros t' T' HT' [<-|[->|(r & R0 & H3 & H4 & H5)]]; [by left..|]. right. exists r. rewrite Hr1 in H3.
    destruct R as [_ R2 _ _ _ _ _]. rewrite R2 in H4. destruct (decide (r = u)) as [->|Hne].
    + exfalso. assert (RP w !! t = Some u) as Hrp.
      { apply RP_lookup. exists T. split; [done|]. unfold repairer_of in H3. destruct (kind T); try discriminate. by subst. }
      destruct (link_retreat _ _ _ _ (wo_links _ _ _ W) t (task_core T) u) as (R1 & tr & c1 & v & id & G1 & G2 & G3 & G4 & G5 & _);
        [by apply core_of_task|by apply Hd|done|].
      rewrite (core_of_unit _ _ _ M2) in G1. injection G1 as <-. simpl in G2. assert (tr = t) as -> by congruence.
      rewrite (core_of_task _ _ _ M1) in G3. injection G3 as <-. simpl in G5. apply RP_lookup in Hrp as (T0 & HT0 & Hk0).
      assert (T0 = T) as -> by congruence. by rewrite Hk0 in G5.
    + rewrite lookup_insert_ne in H4 by done. by exists R0.
  - destruct (st_unit _ _ (en_settles _ _ _ _ He) _ _ HU1) as (U2 & HU2 & _ & _ & _ & _ & _ & Ht2). exists U2. split; [done|].
    destruct R as [_ _ _ _ _ _ R7]. destruct Ht2 as [->|(m & Hm2 & ->)].
    + by rewrite (uk_task _ _ R7).
    + rewrite (uk_manager _ _ R7) in Hm2. simpl in Hm2. assert (m = manager T) as -> by congruence. by destruct (ch_heads _ _ _ HC1 (manager T)) as (-> & _).
  - destruct (en_task _ _ _ _ He) as (T2 & HT2 & Hd2 & _). exists T2. auto.
  - intros T' HT' f l Hk Hs Hl. destruct (st_task _ _ (en_settles _ _ _ _ He) _ _ HT1) as (T2 & HT2 & _ & _ & Hfi & _). assert (T2 = T') as -> by congruence.
    unfold fighter_of in Hfi. rewrite Hk in Hfi. destruct (kind T1) as [| | | | |f1] eqn:Hk1'; try discriminate. injection Hfi as ->. by eapply Hlb.
Qed.

Lemma left_TRY lost t u v T w w' : left_task lost t u T w w' → left_task lost t u T w (TRY_UNIT v w').
Proof.
  destruct (TRY_UNIT_rest v w') as (Q1 & Q2 & Q3 & Q4). intros [L1 L2 L3 L4 L5].
  assert (settles w' (TRY_UNIT v w')) as [S1 S2 S3 S4 S5 S6] by (by apply lists_settles).
  split; rewrite ?Q1, ?Q2; try done; [by eapply world_ok_lists|].
  destruct L2 as [A1 A2 AF A3 A4 A5 A6 A7]. split; unfold rests; rewrite ?Q1, ?Q2; try done; [by eapply same_heads_trans|congruence..].
Qed.

Lemma squad_leaves ft t u w : is_squad ft = true → Fighter_RemoveAssignee ft t u w =
  (w ← ISquad_RemoveAssignee t u w;
   w ← (T ← tasks w !! t; f0 ← fighter_of T;
        if leaderless ft f0 then AbortTask t w
        else l ← leader (squad f0); L ← units w !! l; upd_fighter t (with_squad (leader_range ft (u_def L) (squad f0))) w);
   match ft with AH => U ← units w !! u; Some (if d_isAbleToCloak (u_def U) then TRY_UNIT u w else w) | _ => Some w end).
Proof.
  intros Hs. unfold Fighter_RemoveAssignee. destruct ft; try discriminate; (destruct (ISquad_RemoveAssignee t u w) as [w1|]; simpl; [|done]);
    (destruct (tasks w1 !! t) as [T|]; simpl; [|done]); by destruct (fighter_of T).
Qed.

Lemma Fighter_leaves lost t u T U f w :
  world_ok lost ∅ w → may_release t u T U w → kind T = FighterTask f →
  ∃ w', Fighter_RemoveAssignee (fightType f) t u w = Some w' ∧ left_task lost t u T w w'.
Proof.
  intros W M Hk. pose proof M as [M1 M2 M3 M4 M5].
  assert (∀ X, free_to_go X (TC w) (RP w) u (unit_core U)) as Hf.
  { intros X. eapply free_leave; [eapply world_ok_weaken; [done|apply empty_subseteq]|done|by rewrite Hk..]. }
  destruct (is_squad (fightType f)) eqn:Hsq.
  - destruct (ISquad_releases lost ∅ t u T U f w W M Hk) as (w1 & T1 & f1 & H1 & R1 & Hk1 & Hft & Hl1).
    assert (∃ w2, (T ← tasks w1 !! t; f0 ← fighter_of T;
      if leaderless (fightType f) f0 then AbortTask t w1
      else l ← leader (squad f0); L ← units w1 !! l; upd_fighter t (with_squad (leader_range (fightType f) (u_def L) (squad f0))) w1) = Some w2 ∧ left_task lost t u T w w2) as (w2 & H2 & L2).
    { destruct (releases_lookup _ _ _ _ _ _ _ _ R1) as [HT1 HU1]. rewrite HT1. simpl. unfold fighter_of. rewrite Hk1. simpl.
      destruct (leaderless (fightType f) f1) eqn:Hle.
      - eapply (releases_abort lost t u T U T1); [done..| |done|done|]; [rewrite Hk; simpl; by destruct (fightType f)|].
        intros f2 l Hk2 _ Hl2. rewrite Hk1 in Hk2. injection Hk2 as <-. specialize (Hl1 l Hl2). destruct (releases_units _ _ _ _ _ _ _ _ R1) as (Hu1 & _). rewrite Hu1 in Hl1. set_solver.
      - unfold leaderless in Hle. apply orb_false_iff in Hle as [_ Hle]. apply bool_decide_eq_false in Hle.
        destruct (leader (squad f1)) as [l|] eqn:Hl; [|done]. simpl. specialize (Hl1 l eq_refl).
        destruct (releases_units _ _ _ _ _ _ _ _ R1) as (Hu1 & _).
        assert (ranged [l] w1) as Hrg.
        { eapply (units_ranged lost ∅ t T w w1 [l] W M1); [intros x ->%list_elem_of_singleton; set_solver|by eapply releases_defs]. }
        destruct (Hrg l) as (L & HL & _); [by left|].
        rewrite HL. simpl.
        destruct (releases_fighter t u T U T1 _ f1 (with_squad (leader_range (fightType f) (u_def L) (squad f1))) w w1 R1 Hk1) as (w2 & T2 & -> & R2 & Hk2); [done..|].
        exists w2. split; [done|]. eapply (releases_left lost t u T U T2); [done..|by rewrite Hk|exact R2|by apply Hf| |].
        + intros _ f2 Hf2 _. rewrite Hk2 in Hf2. injection Hf2 as <-. simpl.
          assert (leader (leader_range (fightType f) (u_def L) (squad f1)) = Some l) as -> by (by destruct (fightType f)).
          destruct (releases_units _ _ _ _ _ _ _ _ R2) as (Hu2 & _). congruence.
        + intros _ He. destruct (releases_units _ _ _ _ _ _ _ _ R2) as (Hu2 & _). rewrite Hu2, <-Hu1 in He. set_solver. }
    rewrite squad_leaves by done. rewrite H1. simpl. rewrite H2. simpl. destruct (fightType f); try (by exists w2).
    destruct (lt_unit _ _ _ _ _ _ L2) as (U2 & HU2 & HUt). rewrite HU2. simpl. eexists. split; [done|].
    destruct (d_isAbleToCloak (u_def U2)); [|done]. by apply left_TRY.
  - destruct (IFighter_releases lost ∅ t u T U f w W M Hk) as (w1 & H1 & R1).
    assert (led (lost_task u (lastFrame w) U f T)) as Hl.
    { intros _ f2 [= <-]. destruct (lose_facts u U f) as (-> & _). by rewrite Hsq. }
    assert (ends_empty (class_of (kind T)) = true → ∃ w2, (T ← tasks w1 !! t; if bool_decide (t_units T = ∅) then AbortTask t w1 else Some w1) = Some w2 ∧ left_task lost t u T w w2) as Hab.
    { intros Hend. destruct (releases_lookup _ _ _ _ _ _ _ _ R1) as [-> _]. simpl. case_bool_decide.
      - eapply (releases_abort lost t u T U); [done..|exact R1|done|]. intros f2 l [= <-] Hs2. destruct (lose_facts u U f) as (Hft2 & _). congruence.
      - exists w1. split; [done|]. eapply releases_left; [done..|by rewrite Hk|exact R1|done|done|done]. }
    unfold Fighter_RemoveAssignee. destruct (fightType f) eqn:Hft; try discriminate; rewrite H1; simpl; try (apply Hab; by rewrite Hk; simpl; rewrite Hft).
    all: exists w1; split; [done|]; eapply releases_left; [done..|by rewrite Hk|exact R1|done|done|by rewrite Hk; simpl; rewrite Hft].
Qed.

Lemma Player_leaves lost t u T U w :
  world_ok lost ∅ w → may_release t u T U w → kind T = PlayerTask →
  ∃ w', IUnitTask_RemoveAssignee t u w = Some w' ∧ left_task lost t u T w w'.
Proof.
  intros W M Hk. destruct (IUnit_releases lost ∅ t u T U w W M) as (w1 & H1 & R1); [unfold sets_of; by rewrite Hk|].
  exists w1. split; [done|]. eapply releases_left; [done..|by rewrite Hk|exact R1|by eapply free_leave; [..|rewrite Hk|rewrite Hk]| |by rewrite Hk].
  intros _ f Hf. destruct (released_kept u (lastFrame w) T) as (_ & _ & Hk1 & _). congruence.
Qed.

Lemma Retreat_leaves lost t u T U rp w :
  world_ok lost ∅ w → may_release t u T U w → kind T = RetreatTask rp →
  ∃ w', Retreat_RemoveAssignee t u w = Some w' ∧ left_task lost t u T w w'.
Proof.
  intros W M Hk. pose proof M as [M1 M2 M3 M4 M5].
  destruct (IUnit_releases lost ∅ t u T U w W M) as (w1 & H1 & R1); [unfold sets_of; by rewrite Hk|].
  destruct (may_release_facts _ _ _ _ _ _ _ W M) as (Hm & Hin & Hd); [by rewrite Hk|].
  destruct (wo_tasks _ _ _ W _ _ M1) as (_ & _ & G3). rewrite Hk in G3.
  assert (free_to_go {[t]} (TC w) (RP w) u (unit_core U)) as Hf.
  { split.
    - intros t' c Hc Hdc Hr. destruct (link_retreat _ _ _ _ (wo_links _ _ _ W) t' c u Hc Hdc Hr) as (R & tr & c1 & v & id & Q1 & Q2 & Q3 & Q4 & Q5 & _).
      rewrite (core_of_unit _ _ _ M2) in Q1. injection Q1 as <-. simpl in Q2. assert (tr = t) as -> by congruence.
      rewrite (core_of_task _ _ _ M1) in Q3. injection Q3 as <-. simpl in Q5. by rewrite Hk in Q5.
    - intros t' c Ht' _ _. simpl in Ht'. right. set_solver. }
  destruct (releases_abort lost t u T U (released_task u (lastFrame w) T) (released_unit (idleTask w (manager T)) (lastFrame w) U) w w1 W M) as (w2 & H2 & L2); [by rewrite Hk|exact R1|done| |].
  { intros f l Hkf. destruct (released_kept u (lastFrame w) T) as (_ & _ & Hk1 & _). congruence. }
  unfold Retreat_RemoveAssignee. rewrite H1. simpl. destruct (releases_lookup _ _ _ _ _ _ _ _ R1) as [HT1 _]. rewrite HT1. simpl.
  destruct (releases_units _ _ _ _ _ _ _ _ R1) as (Hu1 & _). rewrite bool_decide_true.
  - change (DoneTask t w1) with (AbortTask t w1). rewrite H2. simpl. eexists. split; [done|]. by apply left_TRY.
  - rewrite Hu1. apply elem_of_equiv_empty_L. intros v Hv. assert (v = u) as -> by (apply G3; set_solver). set_solver.
Qed.

(** *** Repairs *)

(** The repairer's retreat is the same before and after. *)
Lemma retreat_of_target_releases lost t u T U T1 U1 T2 r r2 w w1 :
  owned_ok lost w → may_release t u T U w → kind T = RepairTask r → releases t u T U T1 U1 w w1 → kind T2 = RepairTask r2 → r_target r2 = r_target r →
  retreat_of_target T2 w1 = retreat_of_target T w.
Proof.
  intros O [M1 M2 M3 M4 M5] Hk R Hk2 Hr2. unfold retreat_of_target, repair_of. rewrite Hk, Hk2. simpl. rewrite Hr2.
  destruct (r_target r) as [v|]; [|done]. destruct (releases_units _ _ _ _ _ _ _ _ R) as (_ & _ & Hk1).
  destruct R as [(I & HI & Hne & A1) A2 _ _ A5 _ A7]. destruct (idle_task _ _ (manager T) O) as (I0 & Y & n & HI0 & HIk & _).
  assert (I0 = I) as -> by congruence.
  assert (∀ t', match tasks w1 !! t' with Some T' => Some (match kind T' with RetreatTask r => Some (t', r) | _ => None end) | None => None end =
    match tasks w !! t' with Some T' => Some (match kind T' with RetreatTask r => Some (t', r) | _ => None end) | None => None end) as Hsame.
  { intros t'. rewrite A1. destruct (decide (t' = t)) as [->|Hn].
    - rewrite lookup_insert_eq, M1. rewrite Hk in Hk1 |- *. by destruct (kind T1).
    - rewrite lookup_insert_ne by done. destruct (decide (t' = idleTask w (manager T))) as [->|Hn2]; [|by rewrite lookup_insert_ne].
      rewrite lookup_insert_eq, HI. simpl. by rewrite HIk. }
  rewrite A2. destruct (decide (v = u)) as [->|Hn].
  - rewrite lookup_insert_eq, M2. simpl. rewrite (uk_task _ _ A7), M5. simpl. rewrite M1, A1, lookup_insert_ne, lookup_insert_eq by done. simpl.
    by rewrite HIk, Hk.
  - rewrite lookup_insert_ne by done. destruct (units w !! v) as [V|]; [|done]. simpl. destruct (u_task V) as [t'|]; [|done]. exact (Hsame t').
Qed.

Lemma upd_repair_releases t u T U T1 U1 r g w w1 :
  releases t u T U T1 U1 w w1 → kind T1 = RepairTask r → r_target (g r) = r_target r → r_targetId (g r) = r_targetId r →
  ∃ w2 T2, upd_repair t g w1 = Some w2 ∧ releases t u T U T2 U1 w w2 ∧ kind T2 = RepairTask (g r) ∧ t_units T2 = t_units T1.
Proof.
  intros HR Hk G1 G2. destruct (releases_lookup _ _ _ _ _ _ _ _ HR) as [HT1 HU1].
  destruct (upd_repair_inner t u g w1 T1 U1 r) as (w2 & H2 & Hin); [done..|]. eexists w2, _. split; [done|]. split; [by eapply releases_inner|done].
Qed.
Lemma HideAssignee_releases t u T U T1 U1 r w w1 :
  releases t u T U T1 U1 w w1 → kind T1 = RepairTask r →
  ∃ w2 T2 r2, HideAssignee t u w1 = Some w2 ∧ releases t u T U T2 U1 w w2 ∧ kind T2 = RepairTask r2 ∧ r_target r2 = r_target r ∧ t_units T2 = t_units T1.
Proof.
  intros HR Hk. destruct (releases_lookup _ _ _ _ _ _ _ _ HR) as [HT1 HU1]. unfold HideAssignee. rewrite HU1. simpl. rewrite HT1. simpl.
  unfold repair_of. rewrite Hk. simpl.
  destruct (upd_repair_releases t u T U T1 U1 r (λ r, with_buildPower (fsub (r_buildPower r) (u_buildSpeed U1)) r) w w1) as (w2 & T2 & -> & R2 & Hk2 & Hu2); [done..|].
  simpl. destruct (releases_lookup _ _ _ _ _ _ _ _ R2) as [HT2 HU2].
  eexists _, T2, _. split; [done|]. split_and!; [|done..]. destruct (r_building r); [|done]. eapply releases_inner; [exact R2|]. by apply pull_inner.
Qed.

Lemma retreat_of_target_inv T w t' r' : retreat_of_target T w = Some (Some (t', r')) →
  ∃ v V T', units w !! v = Some V ∧ u_task V = Some t' ∧ tasks w !! t' = Some T' ∧ kind T' = RetreatTask r'.
Proof.
  unfold retreat_of_target. destruct (r_target <$> repair_of T) as [[v|]|]; try done.
  destruct (units w !! v) as [V|] eqn:HV; simpl; [|done]. destruct (u_task V) as [t0|] eqn:Ht; [|done].
  destruct (tasks w !! t0) as [T'|] eqn:HT'; simpl; [|done]. destruct (kind T') as [| | |r0| |] eqn:Hk; try done.
  intros [= <- <-]. by exists v, V, T'.
Qed.

(** A repairer leaves, and its retreat, if it has one, forgets it. *)
Lemma repairer_leaves lost t u T U T1 U1 r x w w1 :
  world_ok lost ∅ w → may_release t u T U w → kind T = RepairTask r → releases t u T U T1 U1 w w1 → kcore (kind T1) = kcore (kind T) →
  retreat_of_target T w = Some x →
  ∃ w2, match x with
        | Some (t', Some r') =>
            if bool_decide (r' = u)
            then w2 ← set_repairer t' None w1; if bool_decide (t_units T1 = ∅) then Some w2 else CheckRepairer t' w2
            else Some w1
        | _ => Some w1
        end = Some w2 ∧ left_task lost t u T w w2.
Proof.
  intros W M Hk R Hk1 Hx. pose proof M as [M1 M2 M3 M4 M5]. destruct (may_release_facts _ _ _ _ _ _ _ W M) as (Hm & Hin & Hd); [by rewrite Hk|].
  specialize (Hd ltac:(set_solver)).
  destruct (retreat_of_target_ok lost ∅ t T r w W M1 Hd Hk) as (x0 & Hx0 & _ & Hq). assert (x0 = x) as -> by congruence. clear Hx0.
  specialize (Hq ltac:(by intros ? ? ?%not_elem_of_empty)).
  assert (∀ t', RP w !! t = Some t' → False) as Hnr.
  { intros t' (T0 & HT0 & Hk0)%RP_lookup. congruence. }
  assert (led T1) as Hl by (intros _ f Hf; rewrite Hf, Hk in Hk1; done).
  assert ((∃ t', x = Some (t', Some u)) ∨ ∀ t', x ≠ Some (t', Some u)) as [[t' ->]|Hno].
  { destruct x as [[t' [r'|]]|]; [|by right..]. destruct (decide (r' = u)) as [->|Hne]; [left; by exists t'|right; congruence]. }
  - rewrite bool_decide_true by done. destruct (retreat_of_target_inv _ _ _ _ Hx) as (v & V & T' & HV & HVt & HT' & Hk').
    assert (t' ≠ t) as Hne by (intros ->; congruence).
    pose proof (clear_repairer_world lost ∅ t' (Some u) T' w W HT' Hk') as Wa. set (wa := set_tasks _ w) in Wa.
    pose proof R as [(I & HI & Hni & A1) A2 A3 A4 A5 A6 A7]. destruct (idle_task _ _ (manager T) (wo_owned _ _ _ W)) as (I0 & Y & n & HI0 & HIk & _).
    assert (I0 = I) as -> by congruence. assert (t' ≠ idleTask w (manager T)) as Hni2 by (intros ->; congruence).
    assert (tasks w1 !! t' = Some T') as HT1' by (by rewrite A1, !lookup_insert_ne).
    unfold set_repairer. rewrite HT1'. simpl. rewrite Hk'. unfold upd_task. rewrite HT1'. simpl. set (w2 := set_tasks _ w1).
    assert (releases t u T U T1 U1 wa w2) as R2.
    { split; try done.
      - exists I. split_and!; [simpl; by rewrite lookup_insert_ne|done|]. simpl. rewrite A1.
        rewrite (insert_insert_ne _ t' t) by done. f_equal. by rewrite insert_insert_ne.
      - destruct A3 as [L1 L2 L3 L4]. by split. }
    assert (may_release t u T U wa) as Ma by (split; try done; simpl; by rewrite lookup_insert_ne).
    assert (left_task lost t u T wa w2) as [L1 L2 L3 L4 L5].
    { eapply releases_left; [done..|by rewrite Hk|done| |done|by rewrite Hk]. split.
      - intros t0 c Hc Hdc Hr. destruct (task_of_core _ _ _ Hc) as (T0 & HT0 & ->). apply RP_lookup in Hr as (T0' & HT0' & Hk0). assert (T0' = T0) as -> by congruence.
        simpl in HT0. destruct (decide (t0 = t')) as [->|Hn0]; [rewrite lookup_insert_eq in HT0; injection HT0 as <-; discriminate Hk0|].
        rewrite lookup_insert_ne in HT0 by done. specialize (Hq t0 T0 u U HT0 Hdc Hk0 M2 M5). congruence.
      - intros t0 c Ht0 Hc Hdc. simpl in Ht0. assert (t0 = t) as -> by congruence. left. destruct (RP wa !! t) as [r0|] eqn:Hr0; [|done]. exfalso.
        apply RP_lookup in Hr0 as (T0 & HT0 & Hk0). simpl in HT0. rewrite lookup_insert_ne in HT0 by done. congruence. }
    exists w2. split.
    + case_bool_decide; [done|]. unfold CheckRepairer. simpl. rewrite lookup_insert_eq. simpl. rewrite bool_decide_false; [done|].
      destruct (member_of _ _ _ _ _ _ (wo_owned _ _ _ W) HV HVt HT') as [_ Hv]; [by rewrite Hk'..|]. set_solver.
    + assert (changes (λ _, False) w wa) as HCa.
      { split; simpl; try done.
        - intros t0 T0 HT0. destruct (decide (t0 = t')) as [->|Hn0]; [|rewrite lookup_insert_ne by done; by exists T0].
          rewrite lookup_insert_eq. assert (T0 = T') as -> by congruence. eexists. split; [done|]. simpl. by rewrite Hk'.
        - intros t0 T0 HT0 _. unfold rests. simpl. destruct (decide (t0 = t')) as [->|Hn0]; [|rewrite lookup_insert_ne by done; by exists T0].
          rewrite lookup_insert_eq. assert (T0 = T') as -> by congruence. by eexists.
        - intros t0 T0 T2 HT0 _. destruct (decide (t0 = t')) as [->|Hn0]; [|rewrite lookup_insert_ne by done; congruence].
          rewrite lookup_insert_eq. intros [= <-]. assert (T0 = T') as -> by congruence. unfold fighter_of. simpl. by rewrite Hk'.
        - intros t0 T0. destruct (decide (t0 = t')) as [->|Hn0]; [rewrite HT'; intros ?; by eexists|]. rewrite lookup_insert_ne by done. intros ?; by eexists.
        - intros v0 V0 HV0. exists V0. split_and!; try done. by left. }
      split; [done| |done|done|done]. eapply changes_mono; [|eapply changes_trans; [exact HCa|exact L2]].
      intros t0 T0 _ [[]|[->|(r0 & R0 & Hr0 & _)]]; [by left|]. unfold repairer_of in Hr0. by rewrite Hk in Hr0.
  - exists w1. split.
    + destruct x as [[t' [r'|]]|]; [|done..]. rewrite bool_decide_false; [done|]. intros ->. by apply (Hno t').
    + eapply releases_left; [done..|by rewrite Hk|done| |done|by rewrite Hk]. split.
      * intros t0 c Hc Hdc Hr. destruct (task_of_core _ _ _ Hc) as (T0 & HT0 & ->). apply RP_lookup in Hr as (T0' & HT0' & Hk0). assert (T0' = T0) as -> by congruence.
        specialize (Hq t0 T0 u U HT0 Hdc Hk0 M2 M5). by apply (Hno t0).
      * intros t0 c Ht0 Hc Hdc. simpl in Ht0. assert (t0 = t) as -> by congruence. left. destruct (RP w !! t) as [r0|] eqn:Hr0; [|done]. by destruct (Hnr r0).
Qed.

Lemma Repair_leaves lost t u T U r w :
  world_ok lost ∅ w → may_release t u T U w → kind T = RepairTask r →
  ∃ w', Repair_RemoveAssignee t u w = Some w' ∧ left_task lost t u T w w'.
Proof.
  intros W M Hk. pose proof M as [M1 M2 M3 M4 M5].
  assert (∃ w0 T0 r0, (if bool_decide (u ∈ t_units T ∧ r_next r = Some u) then upd_repair t (with_next (next_after (t_units T) u)) w else Some w) = Some w0 ∧
    inner t u T U T0 U w w0 ∧ kind T0 = RepairTask r0) as (w0 & T0 & r0 & H0 & Hin & Hk0).
  { case_bool_decide; [|exists w, T, r; split; [done|]; split; [by apply inner_refl|done]].
    destruct (upd_repair_inner t u (with_next (next_after (t_units T) u)) w T U r) as (w0 & -> & Hin); [done..|]. by eexists w0, _, _. }
  destruct (inner_lookup _ _ _ _ _ _ _ _ Hin) as [HT0 HU0].
  assert (led T0) as Hl0 by (intros _ f Hf; congruence).
  assert (world_ok lost ∅ w0) as W0 by (eapply inner_world; [done..|by intros]).
  assert (may_release t u T0 U w0) as M0 by (split; try done; by rewrite Hk0).
  destruct (IUnit_releases lost ∅ t u T0 U w0 W0 M0) as (w1 & H1 & R1); [unfold sets_of; by rewrite Hk0|].
  destruct (released_kept u (lastFrame w0) T0) as (F1 & F2 & F3 & F4 & F5).
  destruct (upd_repair_releases t u T0 U _ _ r0 (λ r, with_traveled (r_traveled r ∖ {[u]}) r) w0 w1 R1) as (w2 & T2 & H2 & R2 & Hk2 & Hu2); [by rewrite F3|done..|].
  destruct (HideAssignee_releases t u T0 U T2 _ _ w0 w2 R2 Hk2) as (w3 & T3 & r3 & H3 & R3 & Hk3 & Ht3 & Hu3).
  destruct (releases_lookup _ _ _ _ _ _ _ _ R3) as [HT3 _].
  destruct (member_of _ _ _ _ _ _ (wo_owned _ _ _ W0) HU0 M5 HT0) as [_ Hmem]; [by rewrite Hk0..|].
  assert (isDead T0 = false) as Hd0.
  { destruct (isDead T0) eqn:Hd; [|done]. destruct (wo_tasks _ _ _ W0 _ _ HT0) as [G _]. destruct (G ltac:(set_solver)) as [G1 _]. rewrite G1 in Hmem by done. set_solver. }
  destruct (retreat_of_target_ok lost ∅ t T0 r0 w0 W0 HT0 Hd0 Hk0) as (x & Hx & _).
  assert (retreat_of_target T3 w3 = Some x) as Hx3.
  { rewrite <-Hx. eapply retreat_of_target_releases; [apply W0|done|done|exact R3|done|]. by rewrite Ht3. }
  destruct (repairer_leaves lost t u T0 U T3 _ r0 x w0 w3 W0 M0 Hk0 R3) as (w4 & H4 & [L1 L2 L3 L4 L5]); [|done|].
  { by destruct (releases_units _ _ _ _ _ _ _ _ R3) as (_ & _ & ?). }
  exists w4. split.
  - unfold Repair_RemoveAssignee. rewrite M1. simpl. unfold repair_of. rewrite Hk. simpl. rewrite H0. simpl. rewrite H1. simpl. rewrite H2. simpl.
    rewrite H3. simpl. rewrite HT3. simpl. rewrite Hx3. simpl. exact H4.
  - destruct (in_task _ _ _ _ _ _ _ _ Hin) as [K1 K2 K3 K4 K5 K6 K7]. split.
    + done.
    + eapply changes_mono; [|eapply changes_trans; [eapply inner_changes; [done..|exact Hin|unfold fighter_of; by rewrite Hk, Hk0]|exact L2]].
      intros t0 T1 _ [[]|[->|(r1 & R0 & Hr0 & _)]]; [by left|]. unfold repairer_of in Hr0. by rewrite Hk0 in Hr0.
    + destruct L3 as (U4 & HU4 & Ht4). exists U4. split; [done|]. rewrite Ht4, K1. f_equal. by apply (lists_heads _ _ (in_lists _ _ _ _ _ _ _ _ Hin)).
    + destruct L4 as (T4 & HT4 & Hu4). exists T4. split; [done|]. rewrite <-K3. destruct Hu4 as [[? Hxe]|(? & ? & _)]; [by rewrite Hk0 in Hxe|right]. split_and!; [congruence|done|by rewrite Hk].
    + rewrite <-K3. exact L5.
Qed.

(** [RemoveAssignee] of a unit that belongs to the task. *)
Lemma RemoveAssignee_leaves lost t u T U w :
  world_ok lost ∅ w → may_release t u T U w → class_of (kind T) ≠ C_NIL →
  ∃ w', RemoveAssignee t u w = Some w' ∧ left_task lost t u T w w'.
Proof.
  intros W M Hn. pose proof M as [M1 M2 M3 M4 M5]. unfold RemoveAssignee. rewrite M1. simpl.
  destruct (kind T) as [| |X n|rp|r|f] eqn:Hk; try done.
  - by eapply Player_leaves.
  - by eapply Retreat_leaves.
  - by eapply Repair_leaves.
  - by eapply Fighter_leaves.
Qed.
End leave.
