(* ===== verification/TaskNew.v ===== *)
(** * TaskNew: new tasks

    Creating a task under the invariant: the manager files it, nobody belongs to it yet.
    [EnqueueRepair] is here; [MilitaryTasks] has the fighters' and the retreats'. *)

From stdpp Require Import sorting.
From S2P Require Import Prelude Float32 EnemyUnit ActionList TaskData TaskCore TaskClasses TaskTheory TaskInvariant TaskSteps TaskStop TaskLeave.

Open Scope circuit_scope.

Section new.
Context {E : Engine} {H : Heap} {TE : TaskEngine}.

(** ** A new core *)

Section core.
Context (C : gmap Z TCore) (t : Z) (c : TCore) (Hc : C !! t = None) (Hd : c_dead c = false).

Lemma new_iff (P : TCore → Prop) t' :
  (∃ c', <[t := c]> C !! t' = Some c' ∧ P c') ↔ (∃ c', C !! t' = Some c' ∧ P c') ∨ t' = t ∧ P c.
Proof using Hc.
  destruct (decide (t' = t)) as [->|Hne].
  - rewrite lookup_insert_eq, Hc. split; [intros (c' & [= <-] & ?); by right|]. intros [(c' & ? & _)|[_ ?]]; [done|by exists c].
  - rewrite lookup_insert_ne by done. split; [by left|]. by intros [?|[? _]].
Qed.

(** [l] is the list of updates with the new task, if it belongs to it. *)
Lemma updates_new (P : TCore → Prop) l (b : bool) :
  NoDup l → (∀ t', t' ∈ l ↔ ∃ c', C !! t' = Some c' ∧ P c') → (b = true ↔ P c) →
  NoDup (if b then l ++ [t] else l) ∧ ∀ t', t' ∈ (if b then l ++ [t] else l) ↔ ∃ c', <[t := c]> C !! t' = Some c' ∧ P c'.
Proof using Hc.
  intros Hn Hl Hb. assert (t ∉ l) as Ht by (rewrite Hl; intros (c' & ? & _); congruence). split.
  - destruct b; [|done]. apply NoDup_app. split_and!; [done|by intros x Hx ->%list_elem_of_singleton|apply NoDup_singleton].
  - intros t'. rewrite new_iff. destruct b.
    + rewrite elem_of_app, Hl, list_elem_of_singleton. naive_solver.
    + rewrite Hl. naive_solver.
Qed.

(** The tasks of one type of fight. *)
Definition fights (i : Z) (c' : TCore) : Prop := ∃ f e p, c_kind c' = K_FIGHTER f e p ∧ FT f = i ∧ c_dead c' = false.
Lemma fights_iff (D : gmap Z TCore) i t' :
  (∃ c' f e p, D !! t' = Some c' ∧ c_kind c' = K_FIGHTER f e p ∧ FT f = i ∧ c_dead c' = false) ↔ ∃ c', D !! t' = Some c' ∧ fights i c'.
Proof. unfold fights. naive_solver. Qed.
Definition builder_updates (c' : TCore) : Prop := c_manager c' = Builder ∧ match c_kind c' with K_RETREAT | K_REPAIR _ _ => True | _ => False end.
Definition with_updates (l : list Z) (m : CMilitaryManager) : CMilitaryManager :=
  MkMilitary (m_nilTask m) (m_idleTask m) (m_playerTask m) (fightTasks m) l (fightIterator m) (roleInfos m) (army m) (armyCost m) (guardTasks m).

Lemma military_lists_new m (b : bool) :
  military_ok C m → (b = true ↔ military_updates c) →
  NoDup (if b then fightUpdates m ++ [t] else fightUpdates m) ∧
  (∀ t', t' ∈ (if b then fightUpdates m ++ [t] else fightUpdates m) → ∃ c', <[t := c]> C !! t' = Some c' ∧ military_updates c') ∧
  (∀ t' c', <[t := c]> C !! t' = Some c' → military_updates c' → c_dead c' = false → t' ∈ (if b then fightUpdates m ++ [t] else fightUpdates m)).
Proof using Hc.
  intros M Hb. assert (t ∉ fightUpdates m) as Ht by (intros (c' & ? & _)%(fight_updates _ _ M); congruence).
  assert (∀ t', t' ∈ fightUpdates m → ∃ c', <[t := c]> C !! t' = Some c' ∧ military_updates c') as Hold.
  { intros t' Hin. apply new_iff. left. by apply (fight_updates _ _ M). }
  assert (∀ t' c', <[t := c]> C !! t' = Some c' → military_updates c' → c_dead c' = false → t' ∈ fightUpdates m ∨ t' = t ∧ b = true) as Hliv.
  { intros t' c' H1 H2 H3. destruct (decide (t' = t)) as [->|Hne].
    - rewrite lookup_insert_eq in H1. injection H1 as <-. right. split; [done|by apply Hb].
    - rewrite lookup_insert_ne in H1 by done. left. by eapply (fight_living _ _ M). }
  destruct b.
  - split_and!.
    + apply NoDup_app. split_and!; [apply M|by intros x Hx ->%list_elem_of_singleton|apply NoDup_singleton].
    + intros t' [Hin | ->%list_elem_of_singleton]%elem_of_app; [by apply Hold|]. exists c. rewrite lookup_insert_eq. split; [done|by apply Hb].
    + intros t' c' H1 H2 H3. apply elem_of_app. destruct (Hliv t' c' H1 H2 H3) as [|[-> _]]; [by left|right; by apply list_elem_of_singleton].
  - split_and!; [apply M|done|]. intros t' c' H1 H2 H3. by destruct (Hliv t' c' H1 H2 H3) as [|[_ ?]].
Qed.

(** No fighter: the military manager has to file it only if it is one of its retreats. *)
Lemma military_new_other m (b : bool) :
  military_ok C m → (∀ f e p, c_kind c ≠ K_FIGHTER f e p) → (b = true ↔ c_manager c = Military ∧ c_kind c = K_RETREAT) →
  military_ok (<[t := c]> C) (with_updates (if b then fightUpdates m ++ [t] else fightUpdates m) m).
Proof using Hc.
  intros [M1 M2 M3 M4 M6 M5 M7] Hk Hm.
  destruct (military_lists_new m b) as (N1 & N2 & N3); [by split| |].
  { rewrite Hm. unfold military_updates. destruct (c_kind c) as [| | | | |f e p] eqn:Hkc; try naive_solver. }
  split; try done.
  - intros i X t' HX. rewrite (M2 i X t' HX), !fights_iff, new_iff. split; [by left|]. intros [|[_ (f & e & p & Hf & _)]]; [done|by apply Hk in Hf].
  - intros t' c' f e p H1 H2. destruct (decide (t' = t)) as [->|Hne]; [|rewrite lookup_insert_ne in H1 by done; by eapply M5].
    rewrite lookup_insert_eq in H1. injection H1 as <-. by apply Hk in H2.
Qed.
Lemma military_new_fighter m m' f e p :
  military_ok C m → c_kind c = K_FIGHTER f e p → (f = DEFEND → promotes p = true) → c_manager c = Military → insert_fight f t m = Some m' →
  military_ok (<[t := c]> C) (with_updates (fightUpdates m' ++ [t]) m').
Proof using Hc Hd.
  intros [M1 M2 M3 M4 M6 M5 M7] Hk Hp Hm Hi. unfold insert_fight in Hi.
  destruct ((fightTasks m).[FT f]) as [X|] eqn:HX; simpl in Hi; [|done].
  destruct ((fightTasks m).[FT f <- {[t]} ∪ X]) as [l|] eqn:Hl; simpl in Hi; [|done]. injection Hi as <-.
  destruct (military_lists_new m true) as (N1 & N2 & N3); [by split|unfold military_updates; by rewrite Hk|].
  split; simpl; try done.
  - rewrite <-M1. by rewrite (zlen_zset _ _ _ _ Hl).
  - intros i Y t' HY. rewrite fights_iff, new_iff. rewrite <-fights_iff. destruct (decide (i = FT f)) as [->|Hi].
    + rewrite (zget_zset_eq _ _ _ _ Hl) in HY. injection HY as <-. rewrite <-(M2 _ _ t' HX). unfold fights. rewrite Hk.
      rewrite elem_of_union, elem_of_singleton. split; [intros [->|]; [right; split; [done|by exists f, e, p]|by left]|]. intros [|[-> _]]; auto.
    + rewrite (zget_zset_ne _ _ _ _ _ Hl) in HY by congruence. rewrite <-(M2 _ _ t' HY). split; [by left|].
      intros [|[_ (f' & e' & p' & Hf & <- & _)]]; [done|]. rewrite Hk in Hf. by injection Hf as <- <- <-.
  - intros t' c' f' e' p' H1 H2. destruct (decide (t' = t)) as [->|Hne]; [|rewrite lookup_insert_ne in H1 by done; by eapply M5].
    rewrite lookup_insert_eq in H1. injection H1 as <-. rewrite Hk in H2. by injection H2 as <- <- <-.
Qed.

Definition with_build_updates (l : list Z) (b : CBuilderManager) : CBuilderManager :=
  with_repairs (repairTasks b) (buildTasksCount b) l (repairedUnits b) b.
Lemma builder_new_other m (b : bool) :
  builder_ok C m → (∀ v id, c_kind c ≠ K_REPAIR v id) → (b = true ↔ c_manager c = Builder ∧ c_kind c = K_RETREAT) →
  builder_ok (<[t := c]> C) (with_build_updates (if b then buildUpdates m ++ [t] else buildUpdates m) m).
Proof using Hc.
  intros [B1 B2 B3 B4 B5 B6] Hk Hm.
  destruct (updates_new builder_updates (buildUpdates m) b B1 B2) as [N1 N2].
  { rewrite Hm. unfold builder_updates. destruct (c_kind c) as [| | | |v id|] eqn:Hkc; try naive_solver. }
  assert (∀ t' c' v id, <[t := c]> C !! t' = Some c' → c_kind c' = K_REPAIR v id → C !! t' = Some c') as Hold.
  { intros t' c' v id H1 H2. destruct (decide (t' = t)) as [->|Hne]; [|by rewrite lookup_insert_ne in H1].
    rewrite lookup_insert_eq in H1. injection H1 as <-. by apply Hk in H2. }
  assert (∀ t' c', C !! t' = Some c' → <[t := c]> C !! t' = Some c') as Hnew by (intros t' c' H1; rewrite lookup_insert_ne; congruence).
  split; simpl; try done.
  - intros t'. rewrite B3. split; intros (c' & v & id & H1 & H2 & H3); exists c', v, id; split_and!; eauto.
  - intros id t'. rewrite B5. split; intros (c' & v & H1 & H2 & H3); exists c', v; split_and!; eauto.
  - intros t' c' v id H1 H2. by eapply B6; [eapply Hold|].
Qed.
Lemma builder_new_repair m v id :
  builder_ok C m → c_kind c = K_REPAIR v id → c_manager c = Builder → repairedUnits m !! id = None →
  builder_ok (<[t := c]> C) (with_repairs ({[t]} ∪ repairTasks m) (buildTasksCount m + 1) (buildUpdates m ++ [t]) (<[id := t]> (repairedUnits m)) m).
Proof using Hc Hd.
  intros [B1 B2 B3 B4 B5 B6] Hk Hm Hid.
  destruct (updates_new builder_updates (buildUpdates m) true B1 B2) as [N1 N2].
  { unfold builder_updates. by rewrite Hk. }
  assert (t ∉ repairTasks m) as Ht by (rewrite B3; intros (c' & ? & ? & ? & _); congruence).
  split; simpl; try done.
  - intros t'. rewrite elem_of_union, elem_of_singleton, B3. split.
    + intros [->|(c' & v' & id' & H1 & H2 & H3)]; [exists c, v, id; by rewrite lookup_insert_eq|]. exists c', v', id'. rewrite lookup_insert_ne; [done|congruence].
    + intros (c' & v' & id' & H1 & H2 & H3). destruct (decide (t' = t)) as [->|Hne]; [by left|right]. exists c', v', id'. by rewrite lookup_insert_ne in H1.
  - rewrite B4, size_union, size_singleton by set_solver. lia.
  - intros id' t'. destruct (decide (id' = id)) as [->|Hne].
    + rewrite lookup_insert_eq. split; [intros [= <-]; exists c, v; by rewrite lookup_insert_eq|].
      intros (c' & v' & H1 & H2 & H3). destruct (decide (t' = t)) as [->|Hn]; [done|]. rewrite lookup_insert_ne in H1 by done.
      assert (repairedUnits m !! id = Some t') by (apply B5; by exists c', v'). congruence.
    + rewrite lookup_insert_ne by done. rewrite B5. split; intros (c' & v' & H1 & H2 & H3).
      * exists c', v'. rewrite lookup_insert_ne; [done|congruence].
      * destruct (decide (t' = t)) as [->|Hn]; [|rewrite lookup_insert_ne in H1 by done; by exists c', v'].
        rewrite lookup_insert_eq in H1. injection H1 as <-. congruence.
  - intros t' c' v' id' H1 H2. destruct (decide (t' = t)) as [->|Hne]; [|rewrite lookup_insert_ne in H1 by done; by eapply B6].
    rewrite lookup_insert_eq in H1. by injection H1 as <-.
Qed.

Lemma targets_new e : targets_ok C e → (∀ f x p, c_kind c ≠ K_FIGHTER f (Some x) p) → targets_ok (<[t := c]> C) e.
Proof using Hc.
  intros [T1 T2] Hk. split.
  - intros x X t' HX. rewrite (T1 x X t' HX). split; intros (c' & f & p & H1 & H2).
    + exists c', f, p. rewrite lookup_insert_ne; [done|congruence].
    + exists c', f, p. destruct (decide (t' = t)) as [->|Hn]; [|by rewrite lookup_insert_ne in H1].
      rewrite lookup_insert_eq in H1. injection H1 as <-. by apply Hk in H2.
  - intros t' c' f x p H1 H2. destruct (decide (t' = t)) as [->|Hn]; [|rewrite lookup_insert_ne in H1 by done; by eapply T2].
    rewrite lookup_insert_eq in H1. injection H1 as <-. by apply Hk in H2.
Qed.
Lemma links_new X R U : links_ok X C R U → R !! t = None →
  (∀ v id, c_kind c = K_REPAIR (Some v) id → ∃ V, U !! v = Some V ∧ c_id V = id ∧ c_gone V = false) → links_ok X (<[t := c]> C) R U.
Proof using Hc.
  intros [L1 L2] HR Hk. split.
  - intros t' c' r H1 H2 H3. assert (t' ≠ t) as Hne by (intros ->; congruence). rewrite lookup_insert_ne in H1 by done.
    destruct (L1 t' c' r H1 H2 H3) as (V & tr & c1 & v & id & G1 & G2 & G3 & G4 & G5 & G6).
    exists V, tr, c1, v, id. split_and!; try done. rewrite lookup_insert_ne; [done|congruence].
  - intros t' c' v id H1 H2 H3. destruct (decide (t' = t)) as [->|Hn]; [|rewrite lookup_insert_ne in H1 by done; by apply (L2 t' c')].
    rewrite lookup_insert_eq in H1. injection H1 as <-. by apply Hk.
Qed.
End core.

(** ** A new task *)

Record fresh_task (T : IUnitTask) : Prop := {
  fr_units : t_units T = ∅;
  fr_queries : pathQueries T = ∅;
  fr_live : isDead T = false;
  fr_class : stoppable (class_of (kind T)) = true;
  fr_repairer : repairer_of T = None;
  fr_fighter f : kind T = FighterTask f → shields f = ∅ ∧ cowards f = ∅ ∧ leader (squad f) = None ∧ target f = None
}.
Lemma fresh_task_ok X U t T : fresh_task T → task_ok X U t T.
Proof.
  intros [F1 F2 F3 F4 F5 F6]. split_and!.
  - intros _. split; [congruence|]. intros _ f Hf _. destruct (F6 f Hf) as (_ & _ & -> & _). done.
  - rewrite F1, F2. intros _. set_solver.
  - destruct (kind T) as [| | | | |f] eqn:Hk; try done; [rewrite F1; intros ??; set_solver|].
    intros _. destruct (F6 f eq_refl) as (-> & -> & _). rewrite F1. set_solver.
Qed.

(** Tasks are only added. *)
Record grows (w w' : World) : Prop := {
  gr_tasks t T : tasks w !! t = Some T → tasks w' !! t = Some T;
  gr_new t T : tasks w' !! t = Some T → tasks w !! t = Some T ∨ tasks w !! t = None ∧ t_units T = ∅ ∧ isDead T = false ∧ stoppable (class_of (kind T)) = true;
  gr_units : units w' = units w;
  gr_heads : same_heads w w';
  gr_team : teamUnits w' = teamUnits w;
  gr_frame : lastFrame w' = lastFrame w
}.
Lemma grows_self w : grows w w.
Proof. split; try done. by left. Qed.
Lemma grows_insert t T w w' :
  tasks w !! t = None → fresh_task T → tasks w' = <[t := T]> (tasks w) → units w' = units w → same_heads w w' → teamUnits w' = teamUnits w →
  lastFrame w' = lastFrame w → grows w w'.
Proof.
  intros Ht [F1 _ F3 F4 _ _] HT HU HH HTm HF. split; try done.
  - intros t' T' HT'. rewrite HT, lookup_insert_ne; [done|congruence].
  - intros t' T'. rewrite HT. destruct (decide (t' = t)) as [->|Hn]; [|rewrite lookup_insert_ne by done; by left].
    rewrite lookup_insert_eq. intros [= <-]. by right.
Qed.

Lemma owned_new lost t T w w' :
  owned_ok lost w → tasks w !! t = None → fresh_task T → tasks w' = <[t := T]> (tasks w) → units w' = units w → same_heads w w' → owned_ok lost w'.
Proof.
  intros [O1 O2 O3 O4 O5 O6 O8 O9] Ht [F1 _ F3 F4 _ _] HT HU HH.
  assert (US w' = US w) as MU by (unfold US; by rewrite HU).
  assert (∀ t' S, TS w !! t' = Some S → TS w' !! t' = Some S) as Hold.
  { intros t' S HS. rewrite TS_lookup, HT, lookup_insert_ne, <-TS_lookup; [done|]. intros <-. rewrite TS_lookup, Ht in HS. done. }
  assert (∀ t' S, TS w' !! t' = Some S → TS w !! t' = Some S ∨ s_units S = ∅ ∧ s_waiting S = ∅ ∧ stoppable (s_class S) = true) as Hnew.
  { intros t' S. rewrite !TS_lookup, HT. destruct (decide (t' = t)) as [->|Hn]; [|rewrite lookup_insert_ne by done; by left].
    rewrite lookup_insert_eq. intros [= <-]. right. split_and!; [done| |done]. unfold task_skel. simpl. by destruct (kind T). }
  split; rewrite ?MU.
  - intros m. destruct (O1 m) as (S & HS & HR), (HH m) as (-> & _). exists S. auto.
  - intros m. destruct (O2 m) as (S & HS & HR), (HH m) as (_ & -> & _). exists S. auto.
  - intros m. destruct (O3 m) as (S & HS & HR), (HH m) as (_ & _ & ->). exists S. auto.
  - intros t' S HS Hc. destruct (Hnew _ _ HS) as [HS'|(_ & _ & Hx)]; [|by rewrite Hc in Hx]. destruct (HH (s_manager S)) as (-> & _). by apply O4.
  - intros t' S u HS Hu. destruct (Hnew _ _ HS) as [HS'|(Hx & _)]; [by eapply O5|]. set_solver.
  - intros u U t' HUu Ht'. destruct (O6 _ _ _ HUu Ht') as (S & HS & HR). exists S. auto.
  - intros t' S HS Hc. destruct (Hnew _ _ HS) as [HS'|(_ & _ & Hx)]; [by eapply O8|]. by rewrite Hc in Hx.
  - intros t' S HS. destruct (Hnew _ _ HS) as [HS'|(Hx & Hy & _)]; [by eapply O9|]. set_solver.
Qed.

Lemma new_task_world lost X t T w w' :
  world_ok lost X w → tasks w !! t = None → fresh_task T → tasks w' = <[t := T]> (tasks w) → units w' = units w → same_heads w w' →
  enemies w' = enemies w → teamUnits w' = teamUnits w →
  (∀ v id, kcore (kind T) = K_REPAIR (Some v) id → ∃ V, UC w !! v = Some V ∧ c_id V = id ∧ c_gone V = false) →
  military_ok (<[t := task_core T]> (TC w)) (military w') → builder_ok (<[t := task_core T]> (TC w)) (builder w') →
  world_ok lost X w'.
Proof.
  intros W Ht HF HT HU HH HE HTm Hrep HM HB. pose proof HF as [F1 F2 F3 F4 F5 F6].
  assert (TC w' = <[t := task_core T]> (TC w)) as HC by (unfold TC; by rewrite HT, fmap_insert).
  assert (UC w' = UC w) as HUC by (unfold UC; by rewrite HU).
  assert (TC w !! t = None) as Htc by (unfold TC; by rewrite lookup_fmap, Ht).
  assert (RP w' = RP w) as HR.
  { apply map_eq. intros t'. unfold RP. rewrite HT, !lookup_omap. destruct (decide (t' = t)) as [->|Hn].
    - rewrite lookup_insert_eq, Ht. simpl. done.
    - by rewrite lookup_insert_ne. }
  destruct W as [W1 W2 W3 W4 W5 W6 W7 W8 W9]. split; rewrite ?HC, ?HUC, ?HR, ?HE, ?HTm, ?HU; try done.
  - by eapply owned_new.
  - intros t' T' HT'. rewrite HT in HT'. destruct (decide (t' = t)) as [->|Hn]; [|rewrite lookup_insert_ne in HT' by done; by apply W2].
    rewrite lookup_insert_eq in HT'. injection HT' as <-. by apply fresh_task_ok.
  - intros u U t' c Hu Ht' Hc. eapply W3; [done..|]. destruct (own_task _ _ W1 _ _ _ (skel_of_unit _ _ _ Hu) Ht') as (S & HS & _).
    rewrite lookup_insert_ne in Hc; [done|]. intros <-. rewrite TS_lookup, Ht in HS. done.
  - apply targets_new; [done..|]. intros f x p Hk. simpl in Hk. destruct (kind T) as [| | | | |f0] eqn:Hk0; try discriminate.
    destruct (F6 f0 eq_refl) as (_ & _ & _ & Htg). simpl in Hk. congruence.
  - apply links_new; [done..| |done]. unfold RP. by rewrite lookup_omap, Ht.
Qed.

Lemma with_updates_id m : with_updates (fightUpdates m) m = m.
Proof. by destruct m. Qed.
Lemma with_build_updates_id b : with_build_updates (buildUpdates b) b = b.
Proof. by destruct b. Qed.

(** [EnqueueRepair] files a repair of the unit unless there is one. *)
Lemma EnqueueRepair_ok lost X v V w :
  world_ok lost X w → units w !! v = Some V →
  ∃ t w', EnqueueRepair v w = Some (t, w') ∧ world_ok lost X w' ∧ grows w w' ∧
    repairedUnits (builder w') !! u_id V = Some t ∧ military w' = military w ∧ fills w w'.
Proof.
  intros W HV. unfold EnqueueRepair. rewrite HV. simpl. destruct (repairedUnits (builder w) !! u_id V) as [t|] eqn:Hr.
  - exists t, w. split_and!; [done..|apply grows_self|done|done|apply fills_refl].
  - set (t := alloc (dom (tasks w))). assert (tasks w !! t = None) as Ht.
    { apply not_elem_of_dom. apply alloc_fresh. }
    set (T := new_IUnitTask _ _ _ _). set (w' := set_builder _ _).
    assert (fresh_task T) as HF by (by split).
    assert (same_heads w w') as HH by (by intros []).
    assert (TC w !! t = None) as Htc by (unfold TC; by rewrite lookup_fmap, Ht).
    exists t, w'. split_and!; [done| | |simpl; by rewrite lookup_insert_eq|done|].
    + eapply (new_task_world lost X t T w w'); try done.
      * intros x id. simpl. intros [= Hx <-]. destruct (wo_team _ _ _ W _ _ Hx) as (V0 & ? & ? & ?). by exists V0.
      * change (military w') with (military w). rewrite <-(with_updates_id (military w)).
        apply (military_new_other _ t _ Htc (military w) false); [apply W|done|split; [done|by intros [? _]]].
      * apply (builder_new_repair (TC w) t (task_core T) Htc eq_refl (builder w) (teamUnits w !! u_id V) (u_id V)); [apply W|done..].
    + by eapply (grows_insert t T).
    + intros t' (T' & HT' & Hd & Hc & He). simpl in HT'. destruct (decide (t' = t)) as [->|Hn]; [rewrite lookup_insert_eq in HT'; by injection HT' as <-|].
      rewrite lookup_insert_ne in HT' by done. by exists T'.
Qed.
End new.
