(* ===== verification/TaskJoin.v ===== *)
(** * TaskJoin: a unit joins a task

    [AssignTo] of every class under the invariant, for a unit that idles and a living task: it returns,
    the unit belongs to the task (and leads the squad if it should), and everything else is as before. *)

From stdpp Require Import sorting.
From S2P Require Import Prelude Float32 EnemyUnit ActionList TaskData TaskCore TaskClasses TaskTheory TaskInvariant TaskSteps TaskStop TaskLeave TaskNew.

Open Scope circuit_scope.

Section join.
Context {E : Engine} {H : Heap} {TE : TaskEngine}.

(** What [AssignTo] promises. *)
Record joined (lost : gset Z) (t u : Z) (T : IUnitTask) (U : CCircuitUnit) (w w' : World) : Prop := {
  jn_world : world_ok (lost ∖ {[u]}) ∅ w';
  jn_task : ∃ T', tasks w' !! t = Some T' ∧ manager T' = manager T ∧ class_of (kind T') = class_of (kind T) ∧ isDead T' = false ∧ t_units T' = {[u]} ∪ t_units T;
  jn_unit : ∃ U', units w' !! u = Some U' ∧ u_task U' = Some t ∧ u_id U' = u_id U ∧ u_def U' = u_def U ∧ u_manager U' = u_manager U ∧ u_isDead U' = u_isDead U ∧ u_hasShield U' = u_hasShield U;
  jn_rest t' T' : tasks w !! t' = Some T' → t' ≠ t → ∃ T1, tasks w' !! t' = Some T1 ∧ manager T1 = manager T' ∧ class_of (kind T1) = class_of (kind T') ∧
    isDead T1 = isDead T' ∧ (class_of (kind T') ≠ C_IDLE → T1 = T');
  jn_new t' T' : tasks w' !! t' = Some T' → is_Some (tasks w !! t') ∨ isDead T' = false ∧ t_units T' = ∅ ∧ stoppable (class_of (kind T')) = true;
  jn_fills : fills w w';
  jn_units v : v ≠ u → units w' !! v = units w !! v;
  jn_heads : same_heads w w';
  jn_team : teamUnits w' = teamUnits w;
  jn_frame : lastFrame w' = lastFrame w
}.

(** ** The parts of AssignTo *)

Lemma IUnit_assigns lost X t u T U w :
  world_ok lost X w → may_assign t u T U w →
  ∃ w1, IUnitTask_AssignTo t u w = Some w1 ∧ assigns t u T U (assigned_task u T) (assigned_unit t (lastFrame w) U) w w1.
Proof.
  intros W [M1 M2 M3 M4 M5 M6 M7 M8]. pose proof (wo_owned _ _ _ W) as O.
  assert (only_in u (idleTask w (manager T)) w) as Hon.
  { intros t' S HS Hin. destruct (task_of_skel _ _ _ HS) as (T0 & HT0 & ->). by eapply task_is_unique. }
  destruct (IUnitTask_AssignTo_ok lost t u w T U O M1 M3 M2 M6 Hon) as (w1 & I & H1 & _ & HR & HI & Hne & HT & HU).
  exists w1. split; [done|]. split; try done.
  - by exists I.
  - by apply rest_lists.
  - by destruct HR as (_ & _ & _ & ? & _).
  - split; [done|]. intros v Hv. by left.
Qed.
Lemma assigns_unit t u T U T1 U1 g w w1 :
  assigns t u T U T1 U1 w w1 → ukept U1 (g U1) → ∃ w2, upd_unit u g w1 = Some w2 ∧ assigns t u T U T1 (g U1) w w2.
Proof.
  intros HA Hk. destruct (assigns_lookup _ _ _ _ _ _ _ _ HA) as [HT1 HU1].
  destruct (upd_unit_inner t u g w1 T1 U1 HT1 HU1 Hk) as (w2 & -> & Hin). exists w2. split; [done|]. by eapply assigns_inner.
Qed.
Lemma assigns_fighter t u T U T1 U1 f1 g w w1 :
  assigns t u T U T1 U1 w w1 → kind T1 = FighterTask f1 →
  fightType (g f1) = fightType f1 → (target (g f1), promote (g f1)) = (target f1, promote f1) → cowards (g f1) = cowards f1 → shields (g f1) = shields f1 →
  ∃ w2 T2, upd_fighter t g w1 = Some w2 ∧ assigns t u T U T2 U1 w w2 ∧ kind T2 = FighterTask (g f1).
Proof.
  intros HA Hk G1 G2 G3 G4. destruct (assigns_lookup _ _ _ _ _ _ _ _ HA) as [HT1 HU1].
  destruct (upd_fighter_inner t u g w1 T1 U1 f1) as (w2 & H2 & Hin); [done..|]. eexists w2, _. split; [done|]. split; [by eapply assigns_inner|done].
Qed.
Lemma assigns_TRY t u v T U T1 U1 w w1 : assigns t u T U T1 U1 w w1 → assigns t u T U T1 U1 w (TRY_UNIT v w1).
Proof.
  intros HA. destruct (assigns_lookup _ _ _ _ _ _ _ _ HA) as [HT1 HU1]. eapply assigns_inner; [done|]. by apply TRY_UNIT_inner.
Qed.
(** [PushDGunAct] if the unit has one. *)
Lemma assigns_dgun t u T U T1 U1 w w1 (b : bool) :
  assigns t u T U T1 U1 w w1 → ∃ w2 U2, (if b then upd_unit u PushDGunAct w1 else Some w1) = Some w2 ∧ assigns t u T U T1 U2 w w2 ∧ u_def U2 = u_def U1.
Proof.
  intros HA. destruct b; [|by exists w1, U1]. destruct (assigns_unit t u T U T1 U1 PushDGunAct w w1 HA (PushDGunAct_kept U1)) as (w2 & H2 & HA2).
  by exists w2, (PushDGunAct U1).
Qed.
Lemma assigns_support t u T U T1 U1 w w1 (b : bool) :
  assigns t u T U T1 U1 w w1 → ∃ w2 U2, (if b then upd_unit u PushSupportAct w1 else Some w1) = Some w2 ∧ assigns t u T U T1 U2 w w2.
Proof.
  intros HA. destruct b; [|by exists w1, U1]. destruct (assigns_unit t u T U T1 U1 PushSupportAct w w1 HA (PushSupportAct_kept U1)) as (w2 & H2 & HA2).
  by exists w2, (PushSupportAct U1).
Qed.
(** [PushTravelAct]: from here on the unit travels. *)
Lemma assigns_travel t u T U T1 U1 w w1 (b : bool) :
  assigns t u T U T1 U1 w w1 → ∃ w2 U2, upd_unit u (PushTravelAct b) w1 = Some w2 ∧ assigns t u T U T1 U2 w w2 ∧ is_Some (u_travelAct U2).
Proof.
  intros HA. destruct (PushTravelAct_kept b U1) as (K1 & K2 & K3).
  destruct (assigns_unit t u T U T1 U1 (PushTravelAct b) w w1 HA K1) as (w2 & H2 & HA2). by exists w2, (PushTravelAct b U1).
Qed.
Lemma assigns_facts t u T U T1 U1 w w1 : assigns t u T U T1 U1 w w1 →
  manager T1 = manager T ∧ isDead T1 = isDead T ∧ t_units T1 = {[u]} ∪ t_units T ∧ class_of (kind T1) = class_of (kind T) ∧
  u_def U1 = u_def U ∧ u_task U1 = Some t ∧ ptr_ok (u_dgunAct U1) U1.
Proof.
  intros [_ _ _ _ A5 _ A7]. destruct A5 as [K1 K2 K3 K4 K5 K6 K7]. destruct A7 as [L1 L2 L3 L4 L5 L6 L7 L8 L9 L10]. split_and!; try done.
  - rewrite <-!kclass_kcore. by rewrite K5.
  - by apply L8.
Qed.

(** The end of every [AssignTo]. *)
Lemma assigns_joined lost t u T U T1 U1 w w1 :
  world_ok lost ∅ w → may_assign t u T U w → assigns t u T U T1 U1 w w1 → led T1 → (class_of (kind T) = C_RETREAT → t_units T = ∅) →
  travel_ok (class_of (kind T)) U1 → joined lost t u T U w w1.
Proof.
  intros W M A Hl Hr Htr. pose proof M as [M1 M2 M3 M4 M5 M6 M7 M8]. destruct (assigns_lookup _ _ _ _ _ _ _ _ A) as [HT1 HU1].
  destruct (assigns_facts _ _ _ _ _ _ _ _ A) as (F1 & F2 & F3 & F4 & F5 & F6 & _).
  assert (world_ok (lost ∖ {[u]}) ∅ w1) as W1 by (by eapply assigns_world).
  destruct A as [(I & HI & Hne & A1) A2 A3 A4 A5 A6 A7]. destruct (idle_task _ _ (manager T) (wo_owned _ _ _ W)) as (I0 & Y & n & HI0 & HIk & _).
  assert (I0 = I) as -> by congruence. split; try done.
  - exists T1. split_and!; try done. congruence.
  - exists U1. destruct A7. by split_and!.
  - intros t' T' HT' Hn. rewrite A1, lookup_insert_ne by done. destruct (decide (t' = idleTask w (manager T))) as [->|Hn2]; [|rewrite lookup_insert_ne by done; by exists T'].
    rewrite lookup_insert_eq. assert (T' = I) as -> by congruence. exists (erase_idle u I). unfold erase_idle.
    case_bool_decide; rewrite HIk; (split_and!; [done..|]); simpl; done.
  - intros t' T' HT'. rewrite A1 in HT'. left. destruct (decide (t' = t)) as [->|Hn]; [by rewrite M1|].
    rewrite lookup_insert_ne in HT' by done. destruct (decide (t' = idleTask w (manager T))) as [->|Hn2]; [by rewrite HI|].
    rewrite lookup_insert_ne in HT' by done. by eexists.
  - intros t' (T' & HT' & Hd' & Hc' & He'). rewrite A1 in HT'. destruct (decide (t' = t)) as [->|Hn].
    { rewrite lookup_insert_eq in HT'. injection HT' as <-. set_solver. }
    rewrite lookup_insert_ne in HT' by done. destruct (decide (t' = idleTask w (manager T))) as [->|Hn2]; [|rewrite lookup_insert_ne in HT' by done; by exists T'].
    rewrite lookup_insert_eq in HT'. injection HT' as <-. exfalso. revert Hc'. unfold erase_idle. case_bool_decide; simpl; by rewrite HIk.
  - intros v Hv. by rewrite A2, lookup_insert_ne.
  - by apply lists_heads.
  - by destruct A3.
Qed.

(** *** Fighters *)

(** What a fighter task gains with the unit [U]. *)
Definition gain (u : Z) (U : CCircuitUnit) (f : Fighter) : Fighter :=
  let f := with_power (fadd (attackPower f) (power (d_cdef (u_def U)))) f in
  if u_hasShield U then with_sets (cowards f) ({[u]} ∪ shields f) f else f.
Lemma gain_facts u U f : fightType (gain u U f) = fightType f ∧ (target (gain u U f), promote (gain u U f)) = (target f, promote f) ∧ squad (gain u U f) = squad f ∧
  cowards (gain u U f) = cowards f ∧ (∀ v, v ∈ shields (gain u U f) → v ∈ shields f ∨ v = u ∧ u_hasShield U = true).
Proof. unfold gain. destruct (u_hasShield U); split_and!; simpl; try done; set_solver. Qed.

Lemma IFighter_assigns lost X t u T U f w :
  world_ok lost X w → may_assign t u T U w → kind T = FighterTask f →
  ∃ w1 T1 U1, IFighter_AssignTo t u w = Some w1 ∧ assigns t u T U T1 U1 w w1 ∧ kind T1 = FighterTask (gain u U f).
Proof.
  intros W M Hk. unfold IFighter_AssignTo. destruct (IUnit_assigns lost X t u T U w W M) as (w1 & -> & A1). simpl.
  destruct (assigns_lookup _ _ _ _ _ _ _ _ A1) as [HT1 HU1]. rewrite HU1. simpl.
  erewrite upd_fighter_eq; [|exact HT1|exact Hk]. simpl. destruct (gain_facts u U f) as (G1 & G2 & G3 & G4 & G5).
  set (T1 := with_kind (FighterTask (gain u U f)) (assigned_task u T)). set (U1 := assigned_unit t (lastFrame w) U) in *.
  assert (∀ w2, tasks w2 = <[t := T1]> (tasks w1) → units w2 = units w1 → lists_kept w1 w2 → lastFrame w2 = lastFrame w1 →
    assigns t u T U T1 U1 w w2) as Hfin.
  { intros w2 R1 R2 R3 R4. destruct A1 as [(I & HI & Hne & B1) B2 B3 B4 B5 B6 B7]. split.
    - exists I. split_and!; [done..|]. by rewrite R1, B1, insert_insert_eq.
    - by rewrite R2.
    - by eapply lists_kept_trans.
    - by rewrite R4.
    - unfold T1. split; try done; unfold repairer_of; simpl; rewrite Hk; simpl; congruence.
    - unfold sets_of. simpl. rewrite Hk. done.
    - done. }
  assert (∃ w2, (if u_hasShield U
      then upd_fighter t (λ f, with_sets (cowards f) ({[u]} ∪ shields f) f) (set_tasks (<[t := with_kind (FighterTask (with_power (fadd (attackPower f) (power (d_cdef (u_def U)))) f)) (assigned_task u T)]> (tasks w1)) w1)
      else Some (set_tasks (<[t := with_kind (FighterTask (with_power (fadd (attackPower f) (power (d_cdef (u_def U)))) f)) (assigned_task u T)]> (tasks w1)) w1)) = Some w2 ∧
    assigns t u T U T1 U1 w w2) as (w2 & H2 & A2).
  { destruct (u_hasShield U) eqn:Hs.
    - erewrite upd_fighter_eq; [|simpl; apply lookup_insert_eq|done]. eexists. split; [done|]. apply Hfin; try done; [|by apply lists_kept_same].
      simpl. rewrite insert_insert_eq. unfold T1, gain. by rewrite Hs.
    - eexists. split; [done|]. apply Hfin; try done; [|by apply lists_kept_same]. simpl. unfold T1, gain. by rewrite Hs. }
  change (u_hasShield U1) with (u_hasShield U). change (u_def U1) with (u_def U). rewrite H2. simpl.
  destruct (assigns_dgun t u T U T1 U1 w w2 (u_hasDGun U) A2) as (w3 & U3 & H3 & A3 & _). rewrite H3. by exists w3, T1, U3.
Qed.

(** A squad's leader is one of its units. *)
Definition leads (s : Squad) (X : gset Z) : Prop := ∃ l, leader s = Some l ∧ l ∈ X.
Lemma ISquad_assigns lost t u T U f w :
  world_ok lost ∅ w → may_assign t u T U w → kind T = FighterTask f → is_squad (fightType f) = true →
  ∃ w1 T1 U1 f1, ISquad_AssignTo t u w = Some w1 ∧ assigns t u T U T1 U1 w w1 ∧ kind T1 = FighterTask f1 ∧
    fightType f1 = fightType f ∧ leads (squad f1) (t_units T1).
Proof.
  intros W M Hk Hsq. pose proof M as [M1 M2 M3 M4 M5 M6 M7 M8]. unfold ISquad_AssignTo.
  destruct (IFighter_assigns lost ∅ t u T U f w W M Hk) as (w1 & T1 & U1 & -> & A1 & Hk1). simpl.
  destruct (assigns_lookup _ _ _ _ _ _ _ _ A1) as [HT1 HU1]. rewrite HU1. simpl. rewrite HT1. simpl. unfold fighter_of. rewrite Hk1. simpl.
  destruct (gain_facts u U f) as (G1 & G2 & G3 & G4 & G5). rewrite G3.
  destruct (assigns_facts _ _ _ _ _ _ _ _ A1) as (F1 & F2 & F3 & F4 & F5 & F6 & _).
  assert (is_Some (unit_range U1)) as [r Hr].
  { unfold unit_range. rewrite F5. apply (wo_defs _ _ _ W _ _ M2). }
  assert (∀ w2 T2, assigns t u T U T2 U1 w w2 → t_units T2 = t_units T1) as Hun.
  { intros w2 T2 A2. destruct (assigns_facts _ _ _ _ _ _ _ _ A2) as (_ & _ & Q3 & _). congruence. }
  destruct (leader (squad f)) as [l|] eqn:Hl.
  - destruct (wo_tasks _ _ _ W _ _ M1) as (G & _). destruct (G ltac:(set_solver)) as [_ Hled]. specialize (Hled M5 f Hk Hsq). rewrite Hl in Hled.
    destruct (widen_ok U1 (squad f) ltac:(by eexists)) as (s & -> & Hls). simpl.
    destruct (assigns_fighter t u T U T1 U1 (gain u U f) (with_squad s) w w1 A1 Hk1) as (w2 & T2 & -> & A2 & Hk2); [done..|]. simpl.
    assert (leads s (t_units T2)) as Hlead by (exists l; split; [congruence|]; rewrite (Hun _ _ A2), F3; set_solver).
    destruct (IsRoleSupport (u_def U1)); [by eexists w2, T2, U1, _|].
    destruct (own_member _ _ (wo_owned _ _ _ W) _ _ l (skel_of_task _ _ _ M1) Hled) as (S & HS & _). destruct (unit_of_skel _ _ _ HS) as (L & HL & _).
    assert (∃ L', units w2 !! l = Some L') as [L' HL'].
    { rewrite (as_units _ _ _ _ _ _ _ _ A2). destruct (decide (l = u)) as [->|Hn]; [rewrite lookup_insert_eq; by eexists|rewrite lookup_insert_ne by done; by eexists]. }
    rewrite HL'. simpl. destruct (better_leader L' U1); [|by eexists w2, T2, U1, _].
    destruct (assigns_fighter t u T U T2 U1 (with_squad s (gain u U f)) (with_squad (with_leader (Some u) s)) w w2 A2 Hk2) as (w3 & T3 & -> & A3 & Hk3); [done..|].
    eexists w3, T3, U1, _. split_and!; [done..|]. exists u. split; [done|]. rewrite (Hun _ _ A3), F3. set_solver.
  - rewrite Hr. simpl.
    destruct (assigns_fighter t u T U T1 U1 (gain u U f) (with_squad (MkSquad r r (unit_speed U1) (unit_speed U1) (Some u))) w w1 A1 Hk1) as (w2 & T2 & -> & A2 & Hk2); [done..|].
    eexists w2, T2, U1, _. split_and!; [done..|]. exists u. split; [done|]. rewrite (Hun _ _ A2), F3. set_solver.
Qed.

Lemma squad_range_leader ft d s : leader (squad_range ft d s) = leader s.
Proof. by destruct ft. Qed.
Lemma leads_led f X T : kind T = FighterTask f → t_units T = X → leads (squad f) X → led T.
Proof. intros Hk <- (l & Hl & Hin) _ f' Hf' _. rewrite Hk in Hf'. injection Hf' as <-. by rewrite Hl. Qed.

Lemma squad_joins ft t u w : is_squad ft = true → Fighter_AssignTo ft t u w =
  (w ← ISquad_AssignTo t u w; U ← units w !! u; T ← tasks w !! t; f ← fighter_of T;
   w ← upd_fighter t (λ f, with_squad (squad_range ft (u_def U) (squad f)) f) w;
   w ← (match ft with
        | ATTACK => if IsRoleSupport (u_def U) then upd_unit u PushSupportAct w else Some w
        | DEFEND => if IsRoleSupport (u_def U) && negb (bool_decide (leader (squad f) = Some u)) then upd_unit u PushSupportAct w else Some w
        | AH =>
            let w := if d_isAbleToCloak (u_def U) && negb (d_isOpenFire (u_def U)) then TRY_UNIT u w else w in
            match u_dgunAct U with Some _ => U ← on_action (u_dgunAct U) StateWait U; upd_unit u (λ _, U) w | None => Some w end
        | _ => Some w
        end);
   upd_unit u (PushTravelAct true) w).
Proof. by destruct ft. Qed.

Lemma Fighter_joins lost t u T U f w :
  world_ok lost ∅ w → may_assign t u T U w → kind T = FighterTask f →
  ∃ w', Fighter_AssignTo (fightType f) t u w = Some w' ∧ joined lost t u T U w w'.
Proof.
  intros W M Hk. assert (class_of (kind T) = C_FIGHTER (fightType f)) as Hc by (by rewrite Hk).
  destruct (is_squad (fightType f)) eqn:Hsq.
  - rewrite squad_joins by done. destruct (ISquad_assigns lost t u T U f w W M Hk Hsq) as (w1 & T1 & U1 & f1 & -> & A1 & Hk1 & Hft & Hl1). simpl.
    destruct (assigns_lookup _ _ _ _ _ _ _ _ A1) as [HT1 HU1]. rewrite HU1. simpl. rewrite HT1. simpl. unfold fighter_of. rewrite Hk1. simpl.
    destruct (assigns_fighter t u T U T1 U1 f1 (λ f, with_squad (squad_range (fightType f1) (u_def U1) (squad f)) f) w w1 A1 Hk1) as (w2 & T2 & H2 & A2 & Hk2); [done..|].
    rewrite <-Hft, H2. simpl. destruct (assigns_facts _ _ _ _ _ _ _ _ A1) as (_ & _ & Q1 & _ & _ & _ & Hptr), (assigns_facts _ _ _ _ _ _ _ _ A2) as (_ & _ & Q2 & _).
    assert (led T2) as Hled2.
    { eapply leads_led; [exact Hk2|done|]. simpl. destruct Hl1 as (l & Hl & Hin). exists l. rewrite squad_range_leader. split; [done|congruence]. }
    match goal with |- ∃ w', (w0 ← ?X; _) = Some w' ∧ _ => assert (∃ w3 U3, X = Some w3 ∧ assigns t u T U T2 U3 w w3) as (w3 & U3 & H3 & A3) end.
    { destruct (fightType f1); try (by exists w2, U1); [by eapply assigns_support|by eapply assigns_support|].
      cbv zeta. match goal with |- context [if ?c then TRY_UNIT u w2 else w2] => set (w2' := if c then TRY_UNIT u w2 else w2) end. assert (assigns t u T U T2 U1 w w2') as A2'.
      { subst w2'. destruct (_ && _); [by apply assigns_TRY|done]. }
      simpl. destruct (u_dgunAct U1) as [a|] eqn:Ha; [|by exists w2', U1]. rewrite <-Ha. rewrite <-Ha in Hptr.
      destruct (on_action_kept (u_dgunAct U1) StateWait U1) as (U2 & HU2 & Hk'); [done..|by rewrite Ha|]. rewrite HU2. simpl.
      destruct (assigns_unit t u T U T2 U1 (λ _, U2) w w2' A2' Hk') as (w3 & -> & A3). by exists w3, U2. }
    rewrite H3. simpl. destruct (assigns_travel t u T U T2 U3 w w3 true A3) as (w4 & U4 & -> & A4 & Htr).
    exists w4. split; [done|]. eapply assigns_joined; [done..|by rewrite Hc|intros ?; done].
  - destruct (IFighter_assigns lost ∅ t u T U f w W M Hk) as (w1 & T1 & U1 & H1 & A1 & Hk1).
    assert (led T1) as Hled. { intros _ f' Hf'. rewrite Hk1 in Hf'. injection Hf' as <-. destruct (gain_facts u U f) as (-> & _). by rewrite Hsq. }
    destruct (assigns_travel t u T U T1 U1 w w1 true A1) as (w2 & U2 & H2 & A2 & Htr).
    unfold Fighter_AssignTo. destruct (fightType f) eqn:Hft; try discriminate; rewrite H1; simpl; rewrite ?H2; try (exists w2; split; [done|]; eapply assigns_joined; [done..|by rewrite Hc|intros ?; done]).
    all: exists w1; split; [done|]; eapply assigns_joined; [done..|by rewrite Hc|by rewrite Hc].
Qed.

(** *** The others *)

Lemma led_other T : (∀ f, kind T ≠ FighterTask f) → led T.
Proof. intros Hk _ f Hf. by apply Hk in Hf. Qed.
Lemma assigns_other t u T U T1 U1 w w1 : assigns t u T U T1 U1 w w1 → (∀ f, class_of (kind T) ≠ C_FIGHTER f) → led T1.
Proof.
  intros A Hc. apply led_other. intros f Hf. destruct (assigns_facts _ _ _ _ _ _ _ _ A) as (_ & _ & _ & F & _).
  rewrite Hf in F. by apply (Hc (fightType f)).
Qed.

Lemma Player_joins lost t u T U w :
  world_ok lost ∅ w → may_assign t u T U w → kind T = PlayerTask → ∃ w', IUnitTask_AssignTo t u w = Some w' ∧ joined lost t u T U w w'.
Proof.
  intros W M Hk. destruct (IUnit_assigns lost ∅ t u T U w W M) as (w1 & H1 & A1). exists w1. split; [done|].
  eapply assigns_joined; [done..|eapply assigns_other; [done|intros f0 Hf0; by rewrite Hk in Hf0]|by rewrite Hk|by rewrite Hk].
Qed.

Lemma Builder_joins lost t u T U r w :
  world_ok lost ∅ w → may_assign t u T U w → kind T = RepairTask r → ∃ w', Builder_AssignTo t u w = Some w' ∧ joined lost t u T U w w'.
Proof.
  intros W M Hk. unfold Builder_AssignTo. destruct (IUnit_assigns lost ∅ t u T U w W M) as (w1 & -> & A1). simpl.
  set (T1 := assigned_task u T) in *. set (U1 := assigned_unit t (lastFrame w) U) in *. assert (kind T1 = RepairTask r) as Hk1 by done.
  destruct (assigns_lookup _ _ _ _ _ _ _ _ A1) as [HT1 HU1].
  assert (∃ w2 T2, ShowAssignee t u w1 = Some w2 ∧ assigns t u T U T2 U1 w w2) as (w2 & T2 & H2 & A2).
  { unfold ShowAssignee. rewrite HU1. simpl. rewrite HT1. simpl. unfold repair_of. rewrite Hk1. simpl.
    destruct (upd_repair_inner t u (λ r, with_buildPower (fadd (r_buildPower r) (u_buildSpeed U)) r) w1 T1 U1 r) as (w2 & H2 & Hin); [done..|].
    rewrite H2. simpl. eexists _, _. split; [done|]. destruct (inner_lookup _ _ _ _ _ _ _ _ Hin) as [HT2 HU2].
    pose proof (assigns_inner _ _ _ _ _ _ _ _ _ _ _ A1 Hin) as A2. destruct (r_building r); [|exact A2].
    eapply assigns_inner; [exact A2|]. by apply pull_inner. }
  rewrite H2. simpl. destruct (assigns_lookup _ _ _ _ _ _ _ _ A2) as [HT2 HU2]. rewrite HU2. simpl.
  destruct (assigns_dgun t u T U T2 U1 w w2 (u_hasDGun U) A2) as (w3 & U3 & H3 & A3 & _). rewrite H3. simpl.
  destruct (assigns_travel t u T U T2 U3 w w3 true A3) as (w4 & U4 & -> & A4 & Htr). exists w4. split; [done|].
  eapply assigns_joined; [done..|eapply assigns_other; [done|intros f0 Hf0; by rewrite Hk in Hf0]|by rewrite Hk|by intros ?].
Qed.

Lemma joined_grows lost t u T U w w1 w2 :
  joined lost t u T U w w1 → world_ok (lost ∖ {[u]}) ∅ w2 → grows w1 w2 → fills w1 w2 → joined lost t u T U w w2.
Proof.
  intros [J1 J2 J3 J4 J5 JF J6 J7 J8 J9] W2 [G1 G2 G3 G4 G5 G6] HF. split; try done.
  - destruct J2 as (T' & HT' & HR). exists T'. auto.
  - by rewrite G3.
  - intros t' T' HT' Hn. destruct (J4 t' T' HT' Hn) as (T1 & HT1 & HR). exists T1. auto.
  - intros t' T' HT'. destruct (G2 t' T' HT') as [HT1|(_ & ? & ? & ?)]; [by apply J5|by right].
  - by eapply fills_trans.
  - intros v Hv. rewrite G3. by apply J6.
  - by eapply same_heads_trans.
  - congruence.
  - congruence.
Qed.

Lemma Retreat_joins lost t u T U rp w :
  world_ok lost ∅ w → may_assign t u T U w → kind T = RetreatTask rp → t_units T = ∅ → ∃ w', Retreat_AssignTo t u w = Some w' ∧ joined lost t u T U w w'.
Proof.
  intros W M Hk Hemp. unfold Retreat_AssignTo. destruct (IUnit_assigns lost ∅ t u T U w W M) as (w1 & -> & A1). simpl.
  set (T1 := assigned_task u T) in *. set (U1 := assigned_unit t (lastFrame w) U) in *.
  assert (∀ w2 U2, assigns t u T U T1 U2 w w2 → joined lost t u T U w w2) as Hj.
  { intros w2 U2 A2. eapply assigns_joined; [done..|eapply assigns_other; [done|intros f0 Hf0; by rewrite Hk in Hf0]|done|by rewrite Hk]. }
  destruct (assigns_lookup _ _ _ _ _ _ _ _ A1) as [HT1 HU1]. rewrite HU1. simpl.
  destruct (assigns_dgun t u T U T1 U1 w w1 (u_hasDGun U) A1) as (w2 & U2 & H2 & A2 & _). rewrite H2. simpl.
  pose proof (assigns_TRY t u u T U T1 U2 w w2 A2) as A3.
  destruct (IsAttrBoost (u_def U)); [eexists; split; [done|]; eapply Hj; by apply assigns_TRY|].
  destruct (assigns_travel t u T U T1 U2 w _ false A3) as (w4 & U4 & -> & A4 & _). simpl.
  destruct (d_isPlane (u_def U)); [exists w4; split; [done|]; by eapply Hj|].
  pose proof (Hj w4 U4 A4) as J4. destruct (assigns_lookup _ _ _ _ _ _ _ _ A4) as [_ HU4].
  destruct (EnqueueRepair_ok (lost ∖ {[u]}) ∅ u U4 w4) as (tr & w5 & -> & W5 & G5 & _ & _ & F5'); [apply J4|done|].
  simpl. exists w5. split; [done|]. by eapply joined_grows.
Qed.

(** [AssignTo] of a unit that idles, to a living task. *)
Lemma AssignTo_joins lost t u T U w :
  world_ok lost ∅ w → may_assign t u T U w → (class_of (kind T) = C_RETREAT → t_units T = ∅) →
  ∃ w', AssignTo t u w = Some w' ∧ joined lost t u T U w w'.
Proof.
  intros W M Hr. pose proof M as [M1 M2 M3 M4 M5 M6 M7 M8]. unfold AssignTo. rewrite M1. simpl.
  destruct (kind T) as [| |X n|rp|r|f] eqn:Hk; try done.
  - by apply Player_joins.
  - eapply Retreat_joins; [done..|by apply Hr].
  - by eapply Builder_joins.
  - by apply Fighter_joins.
Qed.
End join.
