(* ===== verification/MilitaryTasks.v ===== *)
(** * MilitaryTasks: making, giving and ending tasks

    Models the part of [src/src/circuit/module/MilitaryManager.*] that files tasks and gives them to
    units ([EnqueueTask] and its kin, [DefaultMakeTask], the handlers of units that are created,
    finished and destroyed), [ITaskManager::AssignTask] ([task/TaskManager.cpp]), the registration of
    units, the events about them and the player's commands ([CircuitAI.cpp]). *)

From S2P Require Import Prelude Float32 EnemyUnit ActionList TaskData TaskCore TaskClasses.

Open Scope circuit_scope.

(** What decisions read besides the tasks: configuration, random numbers, the enemy's strength. *)
Class Policy : Type := {
  attackMod : World → float;         (** [attackMod.min] with a random part of [attackMod.len] *)
  defenceMod : World → float;
  minAttackers : float;
  raid_min : float;
  raid_avg : float;
  maxScouts : Z;
  GetBindedRole : Z → Z;
  GetEnemyHeavyCost : World → float; (** [GetEnemyCost(ROLE_TYPE(HEAVY))] *)
  GetEnemyThreat : World → float;
  GetAliveSize : World → float;
  random_pos : World → AIFloat3;     (** a random position of the map, on its ground *)
  basePos : World → AIFloat3;        (** [GetSetupManager()->GetBasePos()] *)
  get_radial_pos : AIFloat3 → Z → AIFloat3 (** [utils::get_radial_pos]: a random position at a distance *)
}.
Definition example_policy : Policy := {|
  attackMod _ := f1; defenceMod _ := f1; minAttackers := f_of_Z 8; raid_min := f_of_Z 3; raid_avg := f_of_Z 5; maxScouts := 3;
  GetBindedRole r := r; GetEnemyHeavyCost _ := f0; GetEnemyThreat _ := f0; GetAliveSize _ := f1;
  random_pos _ := ZeroVector; basePos _ := ZeroVector; get_radial_pos p _ := p
|}.

Section military.
Context {E : Engine} {H : Heap} {TE : TaskEngine} {P : Policy}.

(** ** New tasks *)

Definition ASSIGN_TIMEOUT : Z := FRAMES_PER_SEC * 300.

(** [new] of a task and what every manager does with it. *)
Definition new_task (T : IUnitTask) (w : World) : Z * World :=
  let t := alloc (dom (tasks w)) in (t, set_tasks (<[t := T]> (tasks w)) w).

Definition with_fightUpdates (l : list Z) (m : CMilitaryManager) : CMilitaryManager :=
  MkMilitary (m_nilTask m) (m_idleTask m) (m_playerTask m) (fightTasks m) l (fightIterator m) (roleInfos m) (army m) (armyCost m) (guardTasks m).

(** The constructors of the classes of [IFighterTask]: the type, [powerMod] ([pm]), [minPower] or [maxPower]. *)
Definition new_Fighter (f : FightType) (pm lim : float) (chk prom : FightType) (vip : Z) (pos : AIFloat3) : Fighter :=
  MkFighter f f0 pm None ∅ ∅ lim chk prom vip no_squad (new_Plan pos).
Definition fighter_task (frame : Z) (f : Fighter) : IUnitTask := new_IUnitTask Military (FighterTask f) ASSIGN_TIMEOUT frame.
(** The constructors' [position]. *)
Definition initial_pos (f : FightType) (w : World) : AIFloat3 :=
  match f with
  | RAID | ATTACK | AA | AH => random_pos w
  | RALLY | SUPPORT => get_radial_pos (basePos w) (SQUARE_SIZE * 32)
  | ARTY | DEFEND => basePos w
  | GUARD | SCOUT | BOMB | MELEE | SUPER => no_pos
  end.
Definition fighter_by_type (type : FightType) (w : World) : Fighter :=
  let pm := attackMod w in
  let plain ft m lim := new_Fighter ft m lim RALLY RALLY (-1) (initial_pos ft w) in
  match type with
  | SCOUT => plain SCOUT (fdiv (flit 3 4) pm) f0
  | RAID => plain RAID (fdiv (flit 3 4) pm) raid_avg
  | ATTACK => plain ATTACK (fdiv (flit 4 5) pm) minAttackers
  | BOMB => plain BOMB (fdiv (f_of_Z 2) pm) f0
  | ARTY => plain ARTY f1 f0
  | AA => plain AA (fdiv f1 pm) f0
  | AH => plain AH (fdiv (f_of_Z 2) pm) f0
  | SUPPORT => plain SUPPORT f1 f0
  | SUPER => plain SUPER f1 f0
  | RALLY | GUARD | DEFEND | MELEE => plain RALLY f1 f1
  end.

(** A fighter task is filed under [type] and updated from now on. *)
Definition file_fighter (type : FightType) (f : Fighter) (w : World) : option (Z * World) :=
  let '(t, w) := new_task (fighter_task (lastFrame w) f) w in
  m ← insert_fight type t (military w);
  Some (t, set_military (with_fightUpdates (fightUpdates m ++ [t]) m) w).

Definition EnqueueTask (type : FightType) (w : World) : option (Z * World) := file_fighter type (fighter_by_type type w) w.
(** [EnqueueDefend(promote, power)] and [EnqueueDefend(check, promote, power)] *)
Definition EnqueueDefend_power (prom : FightType) (power : float) (w : World) : option (Z * World) :=
  let pm := fdiv f1 (defenceMod w) in
  file_fighter DEFEND (new_Fighter DEFEND pm (fmul power pm) prom prom (-1) (basePos w)) w.
Definition EnqueueDefend (chk prom : FightType) (power : float) (w : World) : option (Z * World) :=
  file_fighter DEFEND (new_Fighter DEFEND f1 (fmul power f1) chk prom (-1) (basePos w)) w.
Definition EnqueueGuard (vip : Z) (w : World) : option (Z * World) :=
  V ← units w !! vip;
  file_fighter GUARD (new_Fighter GUARD f1 f1 RALLY RALLY (u_id V) no_pos) w.
(** [EnqueueRetreat] of the two managers *)
Definition retreat_task (m : ManagerId) (frame : Z) : IUnitTask := new_IUnitTask m (RetreatTask None) ASSIGN_TIMEOUT frame.
Definition with_buildUpdates (l : list Z) (b : CBuilderManager) : CBuilderManager :=
  MkBuilder (b_nilTask b) (b_idleTask b) (b_playerTask b) (b_metalPull b) (repairTasks b) (buildTasksCount b) l (buildIterator b) (repairedUnits b).
Definition EnqueueRetreat (m : ManagerId) (w : World) : Z * World :=
  let '(t, w) := new_task (retreat_task m (lastFrame w)) w in
  match m with
  | Military => (t, set_military (with_fightUpdates (fightUpdates (military w) ++ [t]) (military w)) w)
  | Builder => (t, set_builder (with_buildUpdates (buildUpdates (builder w) ++ [t]) (builder w)) w)
  end.

(** ** [DefaultMakeTask] *)

Definition GetTasks (type : FightType) (w : World) : option (gset Z) := (fightTasks (military w)).[FT type].

(** [types]: the task of a role; the roles are numbered as in [CircuitDef.h]. *)
Definition types (role : Z) : option FightType :=
  match role with
  | 1 => Some SCOUT | 2 => Some RAID | 3 => Some DEFEND | 6 => Some ARTY | 7 => Some AA | 9 => Some AH | 10 => Some BOMB
  | 11 => Some SUPPORT | 12 => Some SCOUT | 18 => Some SUPER
  | _ => None
  end.

(** The first task of the type that has no units. *)
Fixpoint first_empty (l : list Z) (w : World) : option (option Z) :=
  match l with
  | [] => Some None
  | t :: l => T ← tasks w !! t; if bool_decide (t_units T = ∅) then Some (Some t) else first_empty l w
  end.
Definition free_guard (w : World) : option (option Z) := X ← GetTasks GUARD w; first_empty (in_order X) w.

Definition defend_power (w : World) : float := fmax minAttackers (fdiv (GetEnemyThreat w) (GetAliveSize w)).

(** The cases of the [switch]: [None] when the task is still to be made. *)
Definition make_special (d : SUnitDef) (type : FightType) (w : World) : option (option (Z * World)) :=
  match type with
  | RAID =>
      scouts ← GetTasks SCOUT w;
      if IsRoleScout d && bool_decide (Z.of_nat (size scouts) < maxScouts)
      then x ← EnqueueTask SCOUT w; Some (Some x)
      else
        g ← free_guard w;
        match g with
        | Some t => Some (Some (t, w))
        | None =>
            raids ← GetTasks RAID w;
            if bool_decide (raids = ∅) then x ← EnqueueDefend_power RAID raid_min w; Some (Some x) else Some None
        end
  | AH =>
      if negb (IsRoleMine d) && fltb (GetEnemyHeavyCost w) f1
      then x ← EnqueueTask ATTACK w; Some (Some x)
      else Some None
  | DEFEND =>
      g ← free_guard w;
      match g with
      | Some t => Some (Some (t, w))
      | None => x ← EnqueueDefend_power ATTACK (defend_power w) w; Some (Some x)
      end
  | _ => Some None
  end.

Definition DefaultMakeTask (u : Z) (w : World) : option (Z * World) :=
  U ← units w !! u;
  let d := u_def U in
  attacks ← GetTasks ATTACK w; defends ← GetTasks DEFEND w;
  if IsRoleSupport d
  then
    if bool_decide (attacks = ∅) && bool_decide (defends = ∅)
    then EnqueueDefend ATTACK SUPPORT minAttackers w
    else EnqueueTask SUPPORT w
  else
    match types (GetBindedRole (mainRole (d_cdef d))) with
    | Some type => x ← make_special d type w; match x with Some x => Some x | None => EnqueueTask type w end
    | None =>
        if bool_decide (attacks = ∅)
        then EnqueueDefend_power ATTACK (defend_power w) w
        else EnqueueTask ATTACK w
    end.

(** ** [ITaskManager::AssignTask] *)

(** [AssignTask(unit, task)]; [start] is the task's [Start]. *)
Definition AssignTask (start : Z → Z → World → option World) (u t : Z) (w : World) : option World :=
  U ← units w !! u;
  t0 ← u_task U;
  w ← RemoveAssignee t0 u w;
  w ← AssignTo t u w;
  start t u w.

(** ** Units come and go *)

(** [RegisterTeamUnit]; the area and what the engine says of the unit are given. *)
Definition RegisterTeamUnit (id : Z) (d : SUnitDef) (area : option float) (dgun shield : bool) (speed : float) (w : World) : Z * World :=
  let u := alloc (dom (units w)) in
  let U := new_CCircuitUnit id d area dgun shield speed in
  (u, set_teamUnits (<[id := u]> (teamUnits w)) (set_units (<[u := U]> (units w)) w)).

(** The created handlers of the two managers ([attackerCreatedHandler], [workerCreatedHandler]). *)
Definition created (m : ManagerId) (u : Z) (w : World) : option World :=
  U ← units w !! u;
  match u_task U with
  | None => w ← upd_unit u (SetManager m) w; unit_SetTask (nilTask w m) u w
  | Some _ => Some w
  end.

(** [AddResponse], [DelResponse]: the roles a unit answers to. *)
Definition respond (f : float → float) (g : gset Z → gset Z) (U : CCircuitUnit) (m : CMilitaryManager) : CMilitaryManager :=
  MkMilitary (m_nilTask m) (m_idleTask m) (m_playerTask m) (fightTasks m) (fightUpdates m) (fightIterator m)
    (imap (λ i '(c, X), if IsRespRoleAny (u_def U) (Z.shiftl 1 (Z.of_nat i)) then (f c, g X) else (c, X)) (roleInfos m))
    (army m) (armyCost m) (guardTasks m).
Definition AddResponse (u : Z) (U : CCircuitUnit) : CMilitaryManager → CMilitaryManager :=
  respond (λ c, fadd c (costM (d_cdef (u_def U)))) (λ X, {[u]} ∪ X) U.
Definition DelResponse (u : Z) (U : CCircuitUnit) : CMilitaryManager → CMilitaryManager :=
  respond (λ c, fmax (fsub c (costM (d_cdef (u_def U)))) f0) (λ X, X ∖ {[u]}) U.
Definition with_army (X : gset Z) (c : float) (m : CMilitaryManager) : CMilitaryManager :=
  MkMilitary (m_nilTask m) (m_idleTask m) (m_playerTask m) (fightTasks m) (fightUpdates m) (fightIterator m) (roleInfos m) X c (guardTasks m).
Definition AddArmyCost (u : Z) (U : CCircuitUnit) (m : CMilitaryManager) : CMilitaryManager :=
  let m := AddResponse u U m in with_army (army m) (fadd (armyCost m) (costM (d_cdef (u_def U)))) m.
Definition DelArmyCost (u : Z) (U : CCircuitUnit) (m : CMilitaryManager) : CMilitaryManager :=
  let m := DelResponse u U m in with_army (army m) (fmax (fsub (armyCost m) (costM (d_cdef (u_def U)))) f0) m.

(** [attackerFinishedHandler], and the task's part of [workerFinishedHandler]. *)
Definition finished (m : ManagerId) (u : Z) (w : World) : option World :=
  U ← units w !! u;
  w ← (match u_task U with None => upd_unit u (SetManager m) w | Some _ => Some w end);
  w ← Idle_AssignTo (idleTask w m) u w;
  Some (match m with
        | Military => TRY_UNIT u (set_military (AddArmyCost u U (with_army ({[u]} ∪ army (military w)) (armyCost (military w)) (military w))) w)
        | Builder => w
        end).

(** [OnUnitDestroyed] of the tasks *)
Definition OnUnitDestroyed (t u : Z) (w : World) : option World :=
  T ← tasks w !! t;
  match kind T with
  | NilTask | IdleTask _ _ => Some w
  | PlayerTask | RetreatTask _ | FighterTask _ => RemoveAssignee t u w
  | RepairTask _ =>
      w ← RemoveAssignee t u w;
      T ← tasks w !! t; r ← repair_of T; U ← units w !! u;
      if (bool_decide (r_target r = None) || bool_decide (t_units T = ∅)) && negb (u_isMorphing U) then AbortTask t w else Some w
  end.

(** [attackerDestroyedHandler], and the task's part of [workerDestroyedHandler]. *)
Definition destroyed (m : ManagerId) (u : Z) (w : World) : option World :=
  U ← units w !! u; t ← u_task U; T ← tasks w !! t;
  w ← OnUnitDestroyed t u w;
  U' ← units w !! u; t' ← u_task U';
  w ← RemoveAssignee t' u w;
  Some (match kind T, m with
        | NilTask, _ | _, Builder => w
        | _, Military => let mm := DelArmyCost u U (military w) in set_military (with_army (army mm ∖ {[u]}) (armyCost mm) mm) w
        end).

(** [CBuilderManager::UnitDestroyed], [UnitFinished]: the repair of the unit ends. *)
Definition end_repair (id : Z) (w : World) : option World :=
  match repairedUnits (builder w) !! id with Some t => AbortTask t w | None => Some w end.

(** [CCircuitAI::UnitFinished]: military, then builder.  The unit has the handlers of the manager [m]. *)
Definition UnitFinished (m : ManagerId) (u : Z) (w : World) : option World :=
  U ← units w !! u;
  if IsBeingBuilt u then Some w
  else
    let w := TRY_UNIT u w in
    match m with
    | Military => w ← finished Military u w; end_repair (u_id U) w
    | Builder => w ← end_repair (u_id U) w; finished Builder u w
    end.

(** [CCircuitAI::UnitDestroyed]; a unit without manager has no handlers here. *)
Definition UnitDestroyed (u : Z) (w : World) : option World :=
  U ← units w !! u;
  match u_manager U with
  | Some Military => w ← destroyed Military u w; end_repair (u_id U) w
  | Some Builder => w ← end_repair (u_id U) w; destroyed Builder u w
  | None => end_repair (u_id U) w
  end.

(** [DeleteTeamUnit], [UnregisterTeamUnit] *)
Definition DeleteTeamUnit (u : Z) (w : World) : World := set_garbage (garbage w ∖ {[u]}) (engine w) (set_units (delete u (units w)) w).
Definition UnregisterTeamUnit (u : Z) (w : World) : option World :=
  U ← units w !! u;
  let w := set_teamUnits (delete (u_id U) (teamUnits w)) w in
  match u_task U with None => Some (DeleteTeamUnit u w) | Some _ => upd_unit u unit_Dead w end.

(** [EVENT_UNIT_CREATED], [EVENT_UNIT_FINISHED], [EVENT_UNIT_DESTROYED]; [new] registers the unit. *)
Definition on_created (m : ManagerId) (id : Z) (new : World → Z * World) (w : World) : option World :=
  match teamUnits w !! id with
  | Some u => created m u w
  | None => let '(u, w) := new w in created m u w
  end.
Definition on_finished (m : ManagerId) (id : Z) (new : World → Z * World) (w : World) : option World :=
  match teamUnits w !! id with
  | Some u => UnitFinished m u w
  | None => let '(u, w) := new w in UnitFinished m u w
  end.
Definition on_destroyed (id : Z) (w : World) : option World :=
  match teamUnits w !! id with
  | Some u => w ← UnitDestroyed u w; UnregisterTeamUnit u w
  | None => Some w
  end.

(** [PlayerCommand] for one unit, [AssignPlayerTask] *)
Definition PlayerCommand (u : Z) (w : World) : option World :=
  U ← units w !! u;
  match u_task U with
  | None => Some w
  | Some t =>
      T ← tasks w !! t;
      match kind T with
      | NilTask | PlayerTask => Some w
      | _ => AssignTask (λ _ _ w, Some w) u (playerTask w (manager T)) w
      end
  end.

(** ** The start *)

(** [ITaskManager::Init]: the nil, the idle and the player's task of a manager. *)
Definition Init_tasks (m : ManagerId) (w : World) : Z * Z * Z * World :=
  let f := lastFrame w in
  let '(n, w) := new_task (new_IUnitTask m NilTask (-1) f) w in
  let '(i, w) := new_task (new_IUnitTask m (IdleTask ∅ 0) (-1) f) w in
  let '(p, w) := new_task (new_IUnitTask m PlayerTask (-1) f) w in
  (n, i, p, w).
(** The constructors of the two managers; [roles] are the response's roles, [orders] what the engine will say. *)
Definition initial (roles : nat) (orders : list bool) : World :=
  let w := MkWorld ∅ ∅ ∅ (MkMilitary 0 0 0 [] [] 0 [] ∅ f0 ∅) (MkBuilder 0 0 0 f0 ∅ 0 [] 0 ∅) (-2) ∅ orders ∅ 0 in
  let '(n, i, p, w) := Init_tasks Military w in
  let w := set_military (MkMilitary n i p (replicate (Z.to_nat FT_SIZE) ∅) [] 0 (replicate roles (f0, ∅)) ∅ f0 ∅) w in
  let '(n, i, p, w) := Init_tasks Builder w in
  set_builder (MkBuilder n i p f0 ∅ 0 [] 0 ∅) w.
End military.
