(* ===== verification/Targets.v ===== *)
(** * Targets: what the fighters go after

    The searches for targets of [src/src/circuit/task/fighter/] ([FindTarget] of [AttackTask.cpp],
    [DefendTask.cpp], [RaidTask.cpp], [AntiAirTask.cpp], [AntiHeavyTask.cpp], [ScoutTask.cpp],
    [BombTask.cpp], [ArtilleryTask.cpp], the choice of [task/static/SuperTask.cpp]) over the enemies the
    AI knows, which are walked in the order of their ids ([CCircuitAI::enemyInfos]).  [Tactics] is
    what the searches ask the engine, the maps and the terrain. *)

From S2P Require Import Prelude Float32 EnemyUnit EnemyGroups ActionList TaskData TaskCore TaskClasses MilitaryTasks.

Open Scope circuit_scope.

(** What the engine, the maps and the terrain answer, at the time of the question. *)
Class Tactics : Type := {
  (** the engine: units *)
  GetPos : World → Z → AIFloat3;
  GetHealthPercent : World → Z → float;
  IsShieldCharged : World → Z → float → bool;
  IsDisarmedAt : World → Z → bool;
  IsWeaponReady : World → Z → bool;
  engine_MaxRange : World → Z → float;
  IsCloaked : World → Z → bool;              (** an enemy's unit *)
  IsFriendlyUnitsIn : World → AIFloat3 → float → bool;
  GetEnemyUnitIdsIn : World → AIFloat3 → float → list Z;
  (** the engine: vectors *)
  f3_sub : AIFloat3 → AIFloat3 → AIFloat3;
  dot2D : AIFloat3 → AIFloat3 → float;
  SqLength2D : AIFloat3 → float;
  is_valid : AIFloat3 → bool;                (** [utils::is_valid], [is_equal_pos] *)
  is_equal_pos : AIFloat3 → AIFloat3 → bool;
  (** the common record of an enemy *)
  enemy_data : World → Z → SEnemyData;
  (** the maps, for the unit that asks *)
  GetElevationAt : float → float → float;
  GetThreatAt : World → Z → AIFloat3 → float;
  GetUnitThreat : World → Z → float;
  GetInfluenceAt : World → AIFloat3 → float;
  GetAllyDefendInflAt : World → AIFloat3 → float;
  infl_Pos2Index : AIFloat3 → Z;
  CanMoveToPos : World → Z → AIFloat3 → bool;
  CanMobileReachAt : World → Z → AIFloat3 → float → bool;
  IsSafeLine : World → Z → AIFloat3 → AIFloat3 → bool;   (** a query for lines, and its answer *)
  GetMovePosition : World → Z → AIFloat3 → AIFloat3;
  threat_squareSize : Z;
  path_squareSize : Z;
  (** definitions, beyond the fields of [CCircuitDef] *)
  GetCategory : CCircuitDef → Z;
  GetTargetCategory : CCircuitDef → Z;
  GetNoChaseCategory : CCircuitDef → Z;
  def_height : CCircuitDef → float;
  def_topOffset : CCircuitDef → float;
  minRange : CCircuitDef → float;
  reloadTime : CCircuitDef → Z;
  retreat : CCircuitDef → float;
  isAttrSiege : CCircuitDef → bool;
  isAttrStock : CCircuitDef → bool;
  isHoldFire : CCircuitDef → bool;
  stockCost : CCircuitDef → float;
  (** configuration and other managers *)
  GetBaseDefRange : World → float;
  GetEmptyShield : float;
  GetFullShield : float;
  FrontPos : World → Z → list AIFloat3;        (** [FillFrontPos] *)
  AttackSafePos : World → Z → list AIFloat3;   (** [FillAttackSafePos] *)
  StaticSafePos : World → Z → list AIFloat3;   (** [FillStaticSafePos] *)
  SafePos : World → Z → list AIFloat3;         (** [FillSafePos] *)
  GetScoutPosition : World → Z → AIFloat3;
  GetRaidPosition : World → Z → AIFloat3;
  CommanderPos : World → option AIFloat3;      (** where the commander is, if there is one *)
  GetEnemyGroups : World → list SEnemyGroup;
  angleMod : AIFloat3 → AIFloat3 → float;      (** the weight of a turn from one direction to another *)
  GetClosestHaven : World → Z → AIFloat3;
  assistDistance : float;                      (** [GetAssistDef()->GetBuildDistance()] *)
  IsHeld : World → Z → bool                    (** a path query that is still there holds the task *)
}.
(** A flat map on which nothing is dangerous: our units stand together, the enemies in a row; unit 4 is hurt. *)
Definition example_tactics : Tactics := {|
  GetPos _ _ := F3 (f_of_Z 64) f0 f0; GetHealthPercent _ u := if bool_decide (u = 4) then flit 1 10 else f1; IsShieldCharged _ _ _ := true; IsDisarmedAt _ _ := false; IsWeaponReady _ _ := true;
  engine_MaxRange _ _ := f1; IsCloaked _ _ := false; IsFriendlyUnitsIn _ _ _ := false; GetEnemyUnitIdsIn _ _ _ := [];
  f3_sub p q := F3 (fsub (px p) (px q)) (fsub (py p) (py q)) (fsub (pz p) (pz q));
  dot2D p q := fadd (fmul (px p) (px q)) (fmul (pz p) (pz q)); SqLength2D p := fadd (fmul (px p) (px p)) (fmul (pz p) (pz p));
  is_valid _ := true; is_equal_pos _ _ := false;
  enemy_data _ e := MkEnemy None f0 f0 false false false (F3 (f_of_Z (e mod 1024)) f0 f0) ZeroVector f0 [] e f0 LosMask.LOS;
  GetElevationAt _ _ := f0; GetThreatAt _ _ _ := f0; GetUnitThreat _ _ := f1; GetInfluenceAt _ _ := f0; GetAllyDefendInflAt _ _ := f1; infl_Pos2Index _ := 0;
  CanMoveToPos _ _ _ := true; CanMobileReachAt _ _ _ _ := true; IsSafeLine _ _ _ _ := true; GetMovePosition _ _ p := p;
  threat_squareSize := 64; path_squareSize := 64;
  GetCategory _ := 1; GetTargetCategory _ := 1; GetNoChaseCategory _ := 0; def_height _ := f1; def_topOffset _ := f1; minRange _ := f0; reloadTime _ := 0;
  retreat _ := flit 1 2; isAttrSiege _ := false; isAttrStock _ := false; isHoldFire _ := false; stockCost _ := f1;
  GetBaseDefRange _ := f1; GetEmptyShield := f0; GetFullShield := f1; FrontPos _ _ := []; AttackSafePos _ _ := []; StaticSafePos _ _ := []; SafePos _ _ := [];
  GetScoutPosition _ _ := ZeroVector; GetRaidPosition _ _ := ZeroVector; CommanderPos _ := None; GetEnemyGroups _ := []; angleMod _ _ := f1; GetClosestHaven _ _ := ZeroVector; assistDistance := f1;
  IsHeld _ _ := false
|}.

(** Positions are on the map: distances are finite. *)
Definition on_map `{Engine} `{Tactics} : Prop := ∀ w u e, fgtb FLT_MAX (SqDistance2D (GetPos w u) (e_pos (enemy_data w e))) = true.

Definition INFL_EPS : float := flit 1 100.
(** [UNKNOWN_CATEGORY], converted to [int]. *)
Definition UNKNOWN_CATEGORY : Z := -1.
Definition fsq (x : float) : float := fmul x x.

Section targets.
Context {E : Engine} {H : Heap} {TE : TaskEngine} {P : Policy} {TA : Tactics}.

Definition GetEnemyInfos (w : World) : list Z := in_order (dom (enemies w)).
(** [enemy->GetTasks().size() > 2] *)
Definition crowded (w : World) (e : Z) : bool :=
  match enemies w !! e with Some X => bool_decide (Z.of_nat (size X) > 2) | None => false end.
Definition ePos (w : World) (e : Z) : AIFloat3 := e_pos (enemy_data w e).

Definition IsYTargetable (d : CCircuitDef) (elevation posY : float) : bool :=
  fgtb elevation (fneg (def_height d)) || fgtb posY (fneg (def_topOffset d)).

(** Whether the weapons of [cdef] can hit the enemy at all. *)
Definition in_category (cdef edef : CCircuitDef) : bool := has_bit (GetCategory edef) (GetTargetCategory cdef).
Definition no_chase (cdef edef : CCircuitDef) : bool := has_bit (GetCategory edef) (GetNoChaseCategory cdef).
Definition deep (p : AIFloat3) : bool := fltb (py p) (f_of_Z (- SQUARE_SIZE * 5)).
Definition can_hit (cdef : CCircuitDef) (weaponRange : float) (e : SEnemyData) : bool :=
  let p := e_pos e in
  match e_cdef e with
  | Some edef =>
      let elevation := GetElevationAt (px p) (pz p) in
      in_category cdef edef && negb (isAbleToFly edef && negb (hasAntiAir cdef)) &&
      negb (negb (hasAntiWater cdef) && negb (IsYTargetable edef elevation (py p))) &&
      negb (fgtb (fsub (py p) elevation) weaponRange)
  | None => negb (negb (hasAntiWater cdef) && deep p)
  end.
Definition wont_chase (cdef : CCircuitDef) (e : SEnemyData) : bool :=
  match e_cdef e with Some edef => no_chase cdef edef | None => false end.

(** The loop that keeps the nearest of the enemies that pass the checks, from [minSqDist] on. *)
Fixpoint nearest (ok : Z → bool) (sqDist : Z → float) (l : list Z) (minSqDist : float) (bestTarget : option Z) : option Z :=
  match l with
  | [] => bestTarget
  | enemy :: l =>
      if ok enemy && fgtb minSqDist (sqDist enemy)
      then nearest ok sqDist l (sqDist enemy) (Some enemy)
      else nearest ok sqDist l minSqDist bestTarget
  end.

(** *** The leader's view *)

Definition upd_plan (t : Z) (g : Plan → Plan) (w : World) : option World := upd_fighter t (λ f, with_plan (g (plan f)) f) w.
Definition with_position (p : AIFloat3) (x : Plan) : Plan :=
  MkPlan p (attackFrame x) (groupPos x) (prevGroupPos x) (groupFrame x) (pPath x) (targetFrame x) (targetPos x).

(** A fighter task, its leader and the leader's object. *)
Definition get_fighter (t : Z) (w : World) : option Fighter := T ← tasks w !! t; fighter_of T.
Definition get_leader (t : Z) (w : World) : option (Z * CCircuitUnit) :=
  f ← get_fighter t w; l ← leader (squad f); L ← units w !! l; Some (l, L).
(** [SetTarget(bestTarget); position = target->GetPos();] *)
Definition take_target (t : Z) (best : option Z) (w : World) : option World :=
  match best with
  | Some e => w ← SetTarget t (Some e) w; upd_plan t (with_position (ePos w e)) w
  | None => Some w
  end.

(** ** CAttackTask *)

(** [eVel] leads away from [pos] faster than [speed]. *)
Definition escapes (speed : float) (pos : AIFloat3) (e : SEnemyData) : bool :=
  fgeb (SqLength2D (e_vel e)) speed && fltb (dot2D (e_vel e) (f3_sub pos (e_pos e))) f0.
(** [std::min(sqBEDist / sqOBDist, 1.f)] *)
Definition base_scale (w : World) (pos : AIFloat3) (e : Z) : float :=
  fmin (fdiv (SqDistance2D (ePos w e) (basePos w)) (SqDistance2D pos (basePos w))) f1.
Definition Attack_ok (w : World) (f : Fighter) (l : Z) (L : CCircuitUnit) (weaponRange : float) (e : Z) : bool :=
  let s := squad f in
  let cdef := d_cdef (u_def L) in
  let pos := GetPos w l in
  let maxSpeed := fsq (fdiv (fmul (highestSpeed s) (flit 4 5)) (f_of_Z FRAMES_PER_SEC)) in
  let maxPower := fmul (attackPower f) (powerMod f) in
  negb (IsHidden (enemy_data w e) || crowded w e) &&
  negb (fleb maxPower (fmul (GetThreatAt w l (ePos w e)) (base_scale w pos e)) || negb (CanMobileReachAt w l (ePos w e) (highestRange s))) &&
  negb (escapes maxSpeed pos (enemy_data w e)) &&
  negb (wont_chase cdef (enemy_data w e)) && can_hit cdef weaponRange (enemy_data w e).
Definition Attack_dist (w : World) (l e : Z) : float := fmul (SqDistance2D (GetPos w l) (ePos w e)) (base_scale w (GetPos w l) e).
Definition Attack_FindTarget (t : Z) (w : World) : option World :=
  '(l, L) ← get_leader t w;
  r ← unit_range L;
  w ← SetTarget t None w;
  f ← get_fighter t w;
  take_target t (nearest (Attack_ok w f l L r) (Attack_dist w l) (GetEnemyInfos w) FLT_MAX None) w.

(** ** CDefendTask *)

(** [checkPower]: up to twice as much near the base. *)
Definition near_base (w : World) (x : float) (e : Z) : float :=
  let baseRange := GetBaseDefRange w in
  let sqEBDist := SqDistance2D (basePos w) (ePos w e) in
  if fltb sqEBDist (fsq baseRange) then fmul x (fsub (f_of_Z 2) (fmul (fdiv f1 baseRange) (fsqrt sqEBDist))) else x.
Definition Defend_ok (w : World) (f : Fighter) (l : Z) (L : CCircuitUnit) (weaponRange : float) (e : Z) : bool :=
  let cdef := d_cdef (u_def L) in
  negb (IsHidden (enemy_data w e) || crowded w e) &&
  negb (fltb (GetAllyDefendInflAt w (ePos w e)) INFL_EPS || negb (CanMoveToPos w l (ePos w e))) &&
  negb (fleb (near_base w (fmul (attackPower f) (powerMod f)) e) (GetThreatAt w l (ePos w e))) &&
  negb (wont_chase cdef (enemy_data w e)) && can_hit cdef weaponRange (enemy_data w e).
(** The answer: [enemyPositions]. *)
Definition Defend_FindTarget (t : Z) (w : World) : option (list AIFloat3 * World) :=
  '(l, L) ← get_leader t w;
  r ← unit_range L;
  w ← SetTarget t None w;
  f ← get_fighter t w;
  let ok := Defend_ok w f l L r in
  let enemyPositions := ePos w <$> filter (λ e, ok e = true) (GetEnemyInfos w) in
  w ← take_target t (nearest ok (λ e, SqDistance2D (GetPos w l) (ePos w e)) (GetEnemyInfos w) FLT_MAX None) w;
  Some (enemyPositions, w).

(** ** CAntiAirTask *)

Definition AA_ok (w : World) (f : Fighter) (l : Z) (L : CCircuitUnit) (e : Z) : bool :=
  let cdef := d_cdef (u_def L) in
  negb (IsHidden (enemy_data w e)) &&
  negb (fleb (fmul (attackPower f) (powerMod f)) (fsub (GetThreatAt w l (ePos w e)) (threat (enemy_data w e)))) &&
  CanMoveToPos w l (ePos w e) &&
  match e_cdef (enemy_data w e) with Some edef => in_category cdef edef && negb (no_chase cdef edef) | None => true end.
Definition AA_FindTarget (t : Z) (w : World) : option World :=
  '(l, L) ← get_leader t w; f ← get_fighter t w;
  let best := nearest (AA_ok w f l L) (λ e, SqDistance2D (GetPos w l) (ePos w e)) (GetEnemyInfos w) FLT_MAX None in
  w ← SetTarget t best w;
  match best with Some e => upd_plan t (with_position (ePos w e)) w | None => Some w end.

(** ** CAntiHeavyTask *)

Definition ROLE_HEAVY : Z := 0x00020000.
Definition ROLE_BUILDER : Z := 0x00000001.
Definition AH_ok (w : World) (f : Fighter) (l : Z) (L : CCircuitUnit) (weaponRange : float) (e : Z) : bool :=
  let cdef := d_cdef (u_def L) in
  let p := ePos w e in
  negb (IsHidden (enemy_data w e)) &&
  negb (fleb (fmul (attackPower f) (powerMod f)) (fsub (GetThreatAt w l p) (threat (enemy_data w e)))) &&
  CanMoveToPos w l p &&
  match e_cdef (enemy_data w e) with
  | Some edef =>
      IsEnemyRoleAny edef (Z.lor ROLE_HEAVY ROLE_COMM) && in_category cdef edef && negb (isAbleToFly edef && negb (hasAntiAir cdef)) &&
      negb (fgtb (fsub (py p) (GetElevationAt (px p) (pz p))) weaponRange)
  | None => false
  end.
(** The answer: whether targets are found, and [enemyPositions]: those that are out of sight. *)
Definition AH_FindTarget (t : Z) (w : World) : option (bool * list AIFloat3 * World) :=
  '(l, L) ← get_leader t w; f ← get_fighter t w;
  r ← unit_range L;
  let losSqDist := fsq (fmax (highestRange (squad f)) (fmul (f_of_Z threat_squareSize) (f_of_Z 2))) in
  let dist e := SqDistance2D (GetPos w l) (ePos w e) in
  let best := nearest (AH_ok w f l L r) dist (GetEnemyInfos w) losSqDist None in
  let enemyPositions := ePos w <$> filter (λ e, AH_ok w f l L r e && fleb losSqDist (dist e) = true) (GetEnemyInfos w) in
  w ← SetTarget t best w;
  Some (negb (bool_decide (best = None)) || negb (bool_decide (enemyPositions = [])), enemyPositions, w).

(** ** CRaidTask and CScoutTask *)

(** The variables of the loop. *)
Record Search : Type := MkSearch {
  bestTarget : option Z;
  worstTarget : option Z;
  minSqDist : float;
  maxThreat : float;
  minPower : float;
  urgentPositions : list AIFloat3;
  enemyPositions : list AIFloat3
}.
Definition found (x : Search) : option Z := match bestTarget x with Some e => Some e | None => worstTarget x end.
Definition defThreat (e : SEnemyData) : float := match e_cdef e with Some edef => power edef | None => threat e end.
Definition targetCat (e : SEnemyData) : Z := match e_cdef e with Some edef => GetCategory edef | None => UNKNOWN_CATEGORY end.
Definition is_builder (mask : Z) (e : SEnemyData) : bool := match e_cdef e with Some edef => IsEnemyRoleAny edef mask | None => false end.

(** An enemy within reach: a builder, or the one with the strongest weapons; [narrow] for the fields
    that only the scout updates. *)
Definition near_enemy (narrow : bool) (builders : Z) (cdef : CCircuitDef) (w : World) (e : Z) (power sqDist : float) (x : Search) : Search :=
  let d := enemy_data w e in
  if negb (IsInRadarOrLOS d) then x
  else if negb (has_bit (targetCat d) (GetNoChaseCategory cdef)) && negb (isBeingBuilt d)
  then
    let minPower' := if narrow then power else minPower x in
    if is_builder builders d
    then MkSearch (Some e) (worstTarget x) sqDist FLT_MAX minPower' (urgentPositions x) (enemyPositions x)
    else if fleb (maxThreat x) (defThreat d)
    then MkSearch (Some e) (worstTarget x) (if narrow then sqDist else minSqDist x) (defThreat d) minPower' (urgentPositions x) (enemyPositions x)
    else MkSearch (bestTarget x) (worstTarget x) (minSqDist x) (maxThreat x) minPower' (urgentPositions x) (enemyPositions x)
  else
    match bestTarget x with
    | None => MkSearch None (Some e) (minSqDist x) (maxThreat x) (minPower x) (urgentPositions x) (enemyPositions x)
    | Some _ => x
    end.
Definition add_urgent (p : AIFloat3) (x : Search) : Search :=
  MkSearch (bestTarget x) (worstTarget x) (minSqDist x) (maxThreat x) (minPower x) (urgentPositions x ++ [p]) (enemyPositions x).
Definition add_enemy (p : AIFloat3) (x : Search) : Search :=
  MkSearch (bestTarget x) (worstTarget x) (minSqDist x) (maxThreat x) (minPower x) (urgentPositions x) (enemyPositions x ++ [p]).

(** [std::max(unit->GetUnit()->GetMaxRange() + threatMap->GetSquareSize() * 2, cdef->GetLosRadius())] *)
Definition sight (w : World) (u : Z) (U : CCircuitUnit) : float :=
  fmax (fadd (engine_MaxRange w u) (f_of_Z (threat_squareSize * 2))) (d_losRadius (u_def U)).

Definition Raid_visit (w : World) (f : Fighter) (l : Z) (L : CCircuitUnit) (weaponRange : float) (x : Search) (e : Z) : Search :=
  let s := squad f in
  let cdef := d_cdef (u_def L) in
  let pos := GetPos w l in
  let p := ePos w e in
  let baseRange := GetBaseDefRange w in
  let isDefender := fltb (SqDistance2D (basePos w) pos) (fsq baseRange) in
  let isEnemyUrgent := isDefender && fgtb (GetAllyDefendInflAt w p) INFL_EPS in
  let maxSpeed := fsq (fdiv (fmul (highestSpeed s) (flit 4 5)) (f_of_Z FRAMES_PER_SEC)) in
  let checkSpeed := if fltb (SqDistance2D (basePos w) p) (fsq baseRange) then fmul maxSpeed (f_of_Z 2) else maxSpeed in
  let power := GetThreatAt w l p in
  let sqDist := SqDistance2D pos p in
  if IsHidden (enemy_data w e) || crowded w e then x
  else if negb isEnemyUrgent && negb (bool_decide (urgentPositions x = [])) || negb (CanMobileReachAt w l p (highestRange s)) then x
  else if fleb (near_base w (fmul (attackPower f) (powerMod f)) e) power then x
  else if escapes checkSpeed pos (enemy_data w e) then x
  else if negb (can_hit cdef weaponRange (enemy_data w e)) then x
  else if fgtb (minPower x) power && fgtb (minSqDist x) sqDist
  then near_enemy false (Z.lor ROLE_BUILDER ROLE_COMM) cdef w e power sqDist x
  else if isEnemyUrgent then add_urgent p x else add_enemy p x.
(** The answer: whether targets are found, and the positions to go to, the urgent ones if there are any. *)
Definition Raid_FindTarget (t : Z) (w : World) : option (bool * list AIFloat3 * World) :=
  '(l, L) ← get_leader t w;
  r ← unit_range L;
  w ← SetTarget t None w;
  f ← get_fighter t w;
  let x := foldl (Raid_visit w f l L r) (MkSearch None None (fsq (sight w l L)) f0 (fmul (attackPower f) (powerMod f)) [] []) (GetEnemyInfos w) in
  let positions := if bool_decide (urgentPositions x = []) then enemyPositions x else urgentPositions x in
  match found x with
  | Some e => w ← SetTarget t (Some e) w; Some (true, positions, w)
  | None => Some (negb (bool_decide (positions = [])), positions, w)
  end.

Definition Scout_visit (w : World) (f : Fighter) (u : Z) (U : CCircuitUnit) (weaponRange : float) (x : Search) (e : Z) : Search :=
  let cdef := d_cdef (u_def U) in
  let p := ePos w e in
  let speed := fsq (fdiv (fmul (def_speed cdef) (flit 4 5)) (f_of_Z FRAMES_PER_SEC)) in
  let maxPower := fmul (GetUnitThreat w u) (powerMod f) in
  let power := GetThreatAt w u p in
  let sqDist := SqDistance2D (GetPos w u) p in
  if IsHidden (enemy_data w e) || crowded w e then x
  else if fleb maxPower power || negb (CanMoveToPos w u p) || fgeb (SqLength2D (e_vel (enemy_data w e))) speed then x
  else if negb (can_hit cdef weaponRange (enemy_data w e)) then x
  else if fgtb (minPower x) power && fgtb (minSqDist x) sqDist
  then near_enemy true ROLE_BUILDER cdef w e power sqDist x
  else if fltb sqDist (fsq (f_of_Z 1000)) then add_enemy p x else x.
Definition Scout_FindTarget (t u : Z) (w : World) : option (bool * World) :=
  U ← units w !! u;
  r ← unit_range U;
  w ← SetTarget t None w;
  f ← get_fighter t w;
  let x := foldl (Scout_visit w f u U r) (MkSearch None None (fsq (sight w u U)) f0 (fmul (GetUnitThreat w u) (powerMod f)) [] []) (GetEnemyInfos w) in
  match found x with
  | Some e => w ← SetTarget t (Some e) w; Some (true, w)
  | None => Some (negb (bool_decide (enemyPositions x = [])), w)
  end.

(** ** CBombTask *)

(** The cost of all known enemies around a position. *)
Definition blast_cost (w : World) (p : AIFloat3) (trueAoe : float) : float :=
  foldl (λ c id, if bool_decide (is_Some (enemies w !! id)) then fadd c (cost (enemy_data w id)) else c) f0 (GetEnemyUnitIdsIn w p trueAoe).
Definition noAllies (w : World) (trueAoe : float) (p : AIFloat3) : bool :=
  let allyAoe := fmin trueAoe (f_of_Z (DEFAULT_SLACK * 2)) in
  if fgtb allyAoe (f_of_Z (SQUARE_SIZE * 2)) then negb (IsFriendlyUnitsIn w p allyAoe) else true.
Definition Bomb_ok (w : World) (f : Fighter) (u : Z) (U : CCircuitUnit) (trueAoe : float) (e : Z) : bool :=
  let cdef := d_cdef (u_def U) in
  let d := enemy_data w e in
  let p := ePos w e in
  let scale := if fgtb (minRange cdef) (f_of_Z 300) then f_of_Z 4 else f1 in
  let maxPower := fmul (fmul (GetUnitThreat w u) scale) (powerMod f) in
  let speed := fdiv (def_speed cdef) (flit 7 4) in
  negb (IsHidden d) &&
  negb (fleb maxPower (fsub (GetThreatAt w u p) (threat d)) || negb (hasAntiWater cdef) && deep p) &&
  match e_cdef d with Some edef => negb (fgtb (def_speed edef) speed) && in_category cdef edef | None => true end &&
  IsInRadarOrLOS d && negb (has_bit (targetCat d) (GetNoChaseCategory cdef)) && noAllies w trueAoe p.
(** The costliest place to hit: an enemy within reach, or else where to fly to. *)
Definition Bomb_visit (w : World) (f : Fighter) (u : Z) (U : CCircuitUnit) (sqRange trueAoe : float)
    (x : float * option Z * AIFloat3) (e : Z) : float * option Z * AIFloat3 :=
  let '(maxCost, best, endPos) := x in
  if Bomb_ok w f u U trueAoe e
  then
    let c := blast_cost w (ePos w e) trueAoe in
    if fltb maxCost c
    then if fltb (SqDistance2D (GetPos w u) (ePos w e)) sqRange then (c, Some e, endPos) else (c, None, ePos w e)
    else x
  else x.
Definition Bomb_FindTarget (t u : Z) (lastTarget : option Z) (w : World) : option (AIFloat3 * World) :=
  U ← units w !! u;
  sqRange ← (match lastTarget with
             | Some e => _ ← enemies w !! e; Some (fadd (SqDistance2D (GetPos w u) (ePos w e)) f1)
             | None => Some (fsq (f_of_Z 2000)) end);
  let trueAoe := fadd (aoe (d_cdef (u_def U))) (f_of_Z SQUARE_SIZE) in
  w ← SetTarget t None w;
  f ← get_fighter t w;
  let '(_, best, endPos) := foldl (Bomb_visit w f u U sqRange trueAoe) (f0, None, no_pos) (GetEnemyInfos w) in
  match best with
  | Some e => w ← SetTarget t (Some e) w; Some (ePos w e, w)
  | None => Some (endPos, w)
  end.

(** ** CArtilleryTask *)

(** The variables of the loop of a gun that stands in a safe place. *)
Record Aim : Type := MkAim {
  aim_best : option Z;
  aim_medium : option Z;
  aim_worst : option Z;
  aim_sqDist : float;
  aim_threat : float;
  aim_positions : list AIFloat3
}.
(** A static enemy in sight that the gun can hit. *)
Definition arty_target (w : World) (cdef : CCircuitDef) (e : Z) : option CCircuitDef :=
  let d := enemy_data w e in
  if negb (IsInRadarOrLOS d) || negb (hasAntiWater cdef) && deep (ePos w e) then None
  else edef ← e_cdef d;
       if IsMobile edef || negb (in_category cdef edef) then None else Some edef.
Definition Arty_visit (w : World) (u : Z) (cdef : CCircuitDef) (x : Aim) (e : Z) : Aim :=
  match arty_target w cdef e with
  | Some edef =>
      let sqDist := SqDistance2D (GetPos w u) (ePos w e) in
      if isAttrSiege edef then x
      else if fltb sqDist (aim_sqDist x)
      then
        if IsEnemyRoleAny edef ROLE_BUILDER then MkAim (Some e) (aim_medium x) (aim_worst x) sqDist FLT_MAX (aim_positions x)
        else if fgtb (power edef) (aim_threat x) then MkAim (Some e) (aim_medium x) (aim_worst x) sqDist (power edef) (aim_positions x)
        else
          match aim_best x, aim_medium x with
          | Some _, _ => x
          | None, _ =>
              if negb (no_chase cdef edef) then MkAim None (Some e) (aim_worst x) (aim_sqDist x) (aim_threat x) (aim_positions x)
              else match aim_medium x with
                   | None => MkAim None None (Some e) (aim_sqDist x) (aim_threat x) (aim_positions x)
                   | Some _ => x
                   end
          end
      else if no_chase cdef edef then x
      else MkAim (aim_best x) (aim_medium x) (aim_worst x) (aim_sqDist x) (aim_threat x) (aim_positions x ++ [ePos w e])
  | None => x
  end.
Definition aimed (x : Aim) : option Z :=
  match aim_best x, aim_medium x with Some e, _ => Some e | None, Some e => Some e | None, None => aim_worst x end.
(** The targets of a gun that is in danger: those out of range. *)
Definition Arty_far (w : World) (u : Z) (cdef : CCircuitDef) (range : float) (e : Z) : bool :=
  match arty_target w cdef e with
  | Some edef => negb (no_chase cdef edef) && negb (fltb (SqDistance2D (GetPos w u) (ePos w e)) (fsq range))
  | None => false
  end.
(** The answer: the enemy to shoot at, and [enemyPositions]. *)
Definition Arty_FindTarget (t u : Z) (w : World) : option (option Z * list AIFloat3 * World) :=
  U ← units w !! u;
  let cdef := d_cdef (u_def U) in
  range ← unit_range U;
  if fleb (GetThreatAt w u (GetPos w u)) f1
  then
    let x := foldl (Arty_visit w u cdef) (MkAim None None None (fsq range) f0 []) (GetEnemyInfos w) in
    match aimed x with
    | Some e => w ← upd_plan t (with_position (ePos w e)) w; Some (Some e, aim_positions x, w)
    | None => Some (None, aim_positions x, w)
    end
  else Some (None, ePos w <$> filter (λ e, Arty_far w u cdef range e = true) (GetEnemyInfos w), w).
End targets.
