(* ===== verification/FighterCore.v ===== *)
(** * FighterCore: what the fighters' tasks share

    The steps the fighters' [Start], [Update] and callbacks are made of: orders and travel actions
    ([unit/CircuitUnit.*], [unit/action/TravelAction.*]), path queries ([IUnitTask::pathQueries],
    [terrain/path/PathFinder.cpp]), [IFighterTask::Attack] ([task/fighter/FighterTask.cpp]) and the merging
    and regrouping of squads ([task/fighter/SquadTask.cpp]).  Orders have no effect in the model but the
    exception they may throw; an order through a pointer to nothing is [None]. *)

From S2P Require Import Prelude Float32 EnemyUnit ActionList TaskData TaskCore TaskClasses MilitaryTasks Targets.

Open Scope circuit_scope.

Section fighters.
Context {E : Engine} {H : Heap} {TE : TaskEngine} {P : Policy} {TA : Tactics}.

(** ** Orders and actions *)

Definition order (u : Z) (w : World) : option World := _ ← units w !! u; Some (TRY_UNIT u w).
(** [Garbage(unit, reason)] *)
Definition Garbage (u : Z) (w : World) : World := set_garbage ({[u]} ∪ garbage w) (engine w) w.
(** Something done to [unit->GetTravelAct()]; [SetPath] concerns the action's path only. *)
Definition upd_travel (g : IAction → IAction) (u : Z) (w : World) : option World :=
  U ← units w !! u; U' ← on_action (u_travelAct U) g U; upd_unit u (λ _, U') w.
Definition SetPath : Z → World → option World := upd_travel (λ a, a).
Definition GetTravelAct (u : Z) (w : World) : option IAction := U ← units w !! u; get_action (u_travelAct U) U.
(** An order, and the unit does not follow its path meanwhile. *)
Definition order_wait (u : Z) (w : World) : option World := w ← order u w; upd_travel StateWait u w.
(** [for (CCircuitUnit* unit : units)] *)
Definition each (body : World → Z → option World) (t : Z) (w : World) : option World :=
  T ← tasks w !! t; foldM body w (in_order (t_units T)).
Definition all_wait : Z → World → option World := each (λ w u, order_wait u w).
(** [SetPath(pPath)] and [StateActivate] for one unit, and for all ([ISquadTask::ActivePath]). *)
Definition follow (u : Z) (w : World) : option World := w ← SetPath u w; upd_travel StateActivate u w.
Definition ActivePath : Z → World → option World := each (λ w u, follow u w).

(** ** The task's own fields *)

(** [++updCount]: an [unsigned int]. *)
Definition tick (T : IUnitTask) : IUnitTask := with_updCount (u32 (updCount T + 1)) T.
Definition set_tstate (s : TState) (t : Z) (w : World) : option World := upd_task t (with_state s) w.
Definition with_attackFrame (n : Z) (x : Plan) : Plan :=
  MkPlan (position x) n (groupPos x) (prevGroupPos x) (groupFrame x) (pPath x) (targetFrame x) (targetPos x).
Definition with_group (p : AIFloat3) (frame : Z) (x : Plan) : Plan :=
  MkPlan (position x) (attackFrame x) p (prevGroupPos x) frame (pPath x) (targetFrame x) (targetPos x).
Definition with_prevGroup (p : AIFloat3) (x : Plan) : Plan :=
  MkPlan (position x) (attackFrame x) (groupPos x) p (groupFrame x) (pPath x) (targetFrame x) (targetPos x).
Definition with_route (r : Route) (x : Plan) : Plan :=
  MkPlan (position x) (attackFrame x) (groupPos x) (prevGroupPos x) (groupFrame x) r (targetFrame x) (targetPos x).
Definition with_aimed (frame : Z) (p : AIFloat3) (x : Plan) : Plan :=
  MkPlan (position x) (attackFrame x) (groupPos x) (prevGroupPos x) (groupFrame x) (pPath x) frame p.
Definition go_to (p : AIFloat3) : Z → World → option World := λ t w, upd_plan t (with_position p) w.
Definition task_pos (t : Z) (w : World) : option AIFloat3 := f ← get_fighter t w; Some (position (plan f)).

(** ** Path queries *)

(** [MakeQueryId], [pathQueries[unit] = query; query->HoldTask(this);]: the unit waits for the answer. *)
Definition MakeQueryId (w : World) : Z * World := (queryId w, set_queryId (queryId w + 1) w).
Definition ask (t u : Z) (w : World) : option World :=
  _ ← units w !! u;
  let '(id, w) := MakeQueryId w in
  upd_task t (λ T, with_queries (<[u := id]> (pathQueries T)) T) w.
Definition ready (t u : Z) (w : World) : option bool := T ← tasks w !! t; Some (IsQueryReady T u).

(** ** Updates out of turn *)

(** [unit->IsForceUpdate(frame)] *)
Definition force (u : Z) (w : World) : option (bool * World) :=
  U ← units w !! u;
  let '(b, fl) := IsForceUpdate (lastFrame w) (u_flags U) in
  w ← upd_unit u (unit_with_flags fl (u_isDead U)) w; Some (b, w).
(** [isExecute |= unit->IsForceUpdate(frame)] *)
Definition any_forced (t : Z) (w : World) : option (bool * World) :=
  T ← tasks w !! t;
  foldM (λ '(b, w) u, '(b', w) ← force u w; Some (b || b', w)) (false, w) (in_order (t_units T)).

(** ** IFighterTask::Attack *)

Definition attack_unit (e tile : Z) (isRepeatAttack : bool) (w : World) (u : Z) : option World :=
  w ← upd_travel StateWait u w;
  U ← units w !! u;
  match blocker (u_acts U) with
  | Some _ => Some w
  | None =>
      if isRepeatAttack || negb (bool_decide (u_target U = Some e)) || negb (bool_decide (u_targetTile U = tile))
      then w ← upd_unit u (unit_with_target (Some e) tile) w; order u w
      else Some w
  end.
Definition Attack (t : Z) (w : World) : option World :=
  f ← get_fighter t w; e ← target f; _ ← enemies w !! e;
  let tile := infl_Pos2Index (ePos w e) in
  let isRepeatAttack := bool_decide (lastFrame w >= attackFrame (plan f) + FRAMES_PER_SEC * 3) in
  w ← upd_plan t (with_attackFrame (if isRepeatAttack then lastFrame w else attackFrame (plan f))) w;
  each (attack_unit e tile isRepeatAttack) t w.

(** ** Who may join *)

Definition MAX_TRAVEL_SEC : Z := 60.
Definition THREAT_MIN : float := f1.
Definition IsRoleRaider (d : SUnitDef) : bool := has_bit (role (d_cdef d)) 0x00000004.
Definition IsRoleAA (d : SUnitDef) : bool := has_bit (role (d_cdef d)) 0x00000080.
Definition IsRoleAH (d : SUnitDef) : bool := has_bit (role (d_cdef d)) 0x00000200.
Definition IsRoleHeavy (d : SUnitDef) : bool := has_bit (role (d_cdef d)) 0x00020000.

(** Both move the same way. *)
Definition moves_alike (L U : SUnitDef) : bool :=
  isAmphibious (d_cdef U) && (isAmphibious (d_cdef L) || d_isLander L || d_isFloater L) ||
  isAbleToFly (d_cdef L) && isAbleToFly (d_cdef U) || d_isLander L && d_isLander U || d_isFloater L && d_isFloater U.
Definition similar_speed (x y : float) : bool :=
  let '(lo, hi) := if fgtb x y then (y, x) else (x, y) in negb (fltb (fmul lo (flit 3 2)) hi).
Definition is_near (w : World) (l u : Z) : bool := negb (fgtb (SqDistance2D (GetPos w l) (GetPos w u)) (fsq (f_of_Z 1000))).
(** [CanAssignTo] of the squads *)
Definition Squad_CanAssignTo (t u : Z) (w : World) : option bool :=
  f ← get_fighter t w; U ← units w !! u;
  match fightType f with
  | DEFEND =>
      if fltb (attackPower f) (limit f)
      then t0 ← u_task U; T0 ← tasks w !! t0; f0 ← fighter_of T0; Some (bool_decide (promote f0 = promote f))
      else Some false
  | ATTACK =>
      '(l, L) ← get_leader t w;
      Some (similar_speed (unit_speed L) (unit_speed U) && is_near w l u && moves_alike (u_def L) (u_def U))
  | ft =>
      let role := match ft with RAID => IsRoleRaider | AA => IsRoleAA | _ => IsRoleAH end in
      if role (u_def U)
      then
        '(l, L) ← get_leader t w;
        let full := match ft with RAID => fgtb (attackPower f) (limit f) | _ => false end in
        Some (bool_decide (def_id (d_cdef (u_def U)) = def_id (d_cdef (u_def L))) && negb full && is_near w l u)
      else Some false
  end.

(** ** Merging squads *)

Definition GetLeaderPos (t : Z) (w : World) : option AIFloat3 :=
  f ← get_fighter t w;
  match leader (squad f) with Some l => _ ← units w !! l; Some (GetPos w l) | None => Some (position (plan f)) end.

(** One candidate of the loop of [CheckMergeTask]. *)
Definition merge_visit (t l : Z) (power sqMaxDistCost : float) (w : World) (x : option Z * float) (candidate : Z) : option (option Z * float) :=
  f ← get_fighter candidate w;
  if bool_decide (candidate = t) || fltb (attackPower f) power then Some x
  else
    can ← Squad_CanAssignTo candidate l w;
    if negb can then Some x
    else
      tp ← GetLeaderPos candidate w;
      let pos := GetPos w l in
      let taskPos := if is_valid tp then tp else pos in
      let sqDistCost := SqDistance2D pos taskPos in
      Some (if CanMoveToPos w l taskPos && IsSafeLine w l pos taskPos && fltb sqDistCost x.2 && fltb sqDistCost sqMaxDistCost
            then (Some candidate, sqDistCost) else x).
(** The query for lines takes an id. *)
Definition CheckMergeTask (t : Z) (w : World) : option (option Z * World) :=
  '(l, _) ← get_leader t w; f ← get_fighter t w;
  let '(_, w) := MakeQueryId w in
  X ← GetTasks (fightType f) w;
  let sqMaxDistCost := fsq (fmul (f_of_Z MAX_TRAVEL_SEC) (lowestSpeed (squad f))) in
  x ← foldM (merge_visit t l (attackPower f) sqMaxDistCost w) ((None : option Z), FLT_MAX) (in_order X);
  Some (x.1, w).
Definition IsMergeSafe (t : Z) (w : World) : option bool :=
  '(l, _) ← get_leader t w; Some (fgtb (GetInfluenceAt w (GetPos w l)) (fneg INFL_EPS)).
Definition GetMergeTask (t : Z) (w : World) : option (option Z * World) :=
  T ← tasks w !! t;
  if bool_decide (updCount T `mod` 32 = 1)
  then safe ← IsMergeSafe t w; if safe : bool then CheckMergeTask t w else Some (None, w)
  else Some (None, w).

Definition with_force (p : float) (s : gset Z) (f : Fighter) : Fighter :=
  MkFighter (fightType f) (fadd (attackPower f) p) (powerMod f) (target f) (cowards f) (s ∪ shields f) (limit f) (f_check f) (promote f) (vipId f) (squad f) (plan f).
Definition join_units (X : gset Z) (T : IUnitTask) : IUnitTask := with_units (X ∪ t_units T) T.
(** [ISquadTask::Merge] and [CDefendTask::Merge]: [c] takes the units of [t]. *)
Definition rookie (c : Z) (state : AState) (w : World) (u : Z) : option World :=
  w ← unit_SetTask c u w; U ← units w !! u;
  if IsRoleSupport (u_def U) then Some w else upd_travel (set_state state) u w.
Definition Squad_Merge (c t : Z) (w : World) : option World :=
  T ← tasks w !! t; f ← fighter_of T;
  '(l, _) ← get_leader c w; a ← GetTravelAct l w;
  w ← foldM (rookie c (a_state a)) w (in_order (t_units T));
  w ← upd_task c (join_units (t_units T)) w;
  w ← upd_fighter c (with_force (attackPower f) (shields f)) w;
  fc ← get_fighter c w;
  s ← FindLeader (in_order (t_units T)) (squad fc) w;
  upd_fighter c (with_squad s) w.
Definition Defend_Merge (c t : Z) (w : World) : option World :=
  T ← tasks w !! t; f ← fighter_of T;
  w ← foldM (λ w u, unit_SetTask c u w) w (in_order (t_units T));
  w ← upd_task c (join_units (t_units T)) w;
  w ← upd_fighter c (λ fc, with_limit (fmax (limit fc) (limit f)) fc) w;
  upd_fighter c (with_force (attackPower f) (shields f)) w.
Definition Merge (c t : Z) (w : World) : option World :=
  fc ← get_fighter c w;
  match fightType fc with DEFEND => Defend_Merge c t w | _ => Squad_Merge c t w end.
(** [task->Merge(this); units.clear(); manager->AbortTask(this);], if there is a task to merge with. *)
Definition try_merge (t : Z) (w : World) : option (bool * World) :=
  '(c, w) ← GetMergeTask t w;
  match c with
  | Some c => w ← Merge c t w; w ← upd_task t (with_units ∅) w; w ← AbortTask t w; Some (true, w)
  | None => Some (false, w)
  end.

(** ** Regrouping *)

Definition group_dist (n : nat) (f : Fighter) : float := fsq (fmax (f_of_Z (SQUARE_SIZE * 8 * Z.of_nat n)) (highestRange (squad f))).
(** The unit can walk from where it is. *)
Definition is_mobile (w : World) (u : Z) : option bool :=
  U ← units w !! u; Some (negb (d_isPlane (u_def U)) && CanMoveToPos w u (GetPos w u)).
Definition add_valid (w : World) (l : list Z) (u : Z) : option (list Z) := b ← is_mobile w u; Some (if b : bool then l ++ [u] else l).
(** A unit that has not come in a minute is stuck. *)
Definition drop_stuck (p : AIFloat3) (frame : Z) (sqMaxDist : float) (w : World) (u : Z) : option World :=
  U ← units w !! u;
  if negb (d_isPlane (u_def U)) && fgtb (SqDistance2D p (GetPos w u)) sqMaxDist &&
     (bool_decide (u_taskFrame U < frame) || negb (CanMoveToPos w u (GetPos w u)))
  then w ← order u w; Some (Garbage u w)
  else Some w.
Definition IsMustRegroup (t : Z) (w : World) : option (bool * World) :=
  T ← tasks w !! t; f ← fighter_of T;
  if bool_decide (t_state T = ENGAGE) || negb (bool_decide (updCount T `mod` 16 = 15)) then Some (false, w)
  else
    '(l, _) ← get_leader t w;
    if fltb (GetInfluenceAt w (GetPos w l)) (fneg INFL_EPS) then w ← set_tstate ROAM t w; Some (false, w)
    else
      validUnits ← foldM (add_valid w) [] (in_order (t_units T));
      let sqMaxDist := group_dist (length validUnits) f in
      if bool_decide (validUnits = []) then w ← set_tstate ROAM t w; Some (false, w)
      else if bool_decide (t_state T = REGROUP) && bool_decide (lastFrame w >= groupFrame (plan f) + FRAMES_PER_SEC * 60)
      then
        w ← each (drop_stuck (groupPos (plan f)) (groupFrame (plan f)) sqMaxDist) t w;
        w ← set_tstate ROAM t w; Some (false, w)
      else
        let wasRegroup := bool_decide (t_state T = REGROUP) in
        w ← (if wasRegroup then Some w else upd_plan t (with_group (GetPos w l) (lastFrame w)) w);
        f ← get_fighter t w;
        let p := groupPos (plan f) in
        if forallb (λ u, negb (fgtb (SqDistance2D p (GetPos w u)) sqMaxDist)) validUnits
        then w ← set_tstate ROAM t w; Some (false, w)
        else
          w ← set_tstate REGROUP t w;
          if wasRegroup then Some (true, w)
          else
            w ← (if is_equal_pos (prevGroupPos (plan f)) p then w ← order l w; Some (Garbage l w) else Some w);
            w ← upd_plan t (with_prevGroup p) w; Some (true, w).
(** The squads' [Update]: whether it ends here, because the squad regroups, and whether it was regrouping. *)
Definition regroup (t : Z) (w : World) : option (bool * bool * World) :=
  T ← tasks w !! t;
  let wasRegroup := bool_decide (t_state T = REGROUP) in
  '(mustRegroup, w) ← IsMustRegroup t w;
  T ← tasks w !! t;
  if bool_decide (t_state T = REGROUP)
  then w ← (if mustRegroup : bool then all_wait t w else Some w); Some (true, wasRegroup, w)
  else Some (false, wasRegroup, w).
(** After a regroup the squad is on its way again. *)
Definition resume (wasRegroup : bool) (t : Z) (w : World) : option World :=
  f ← get_fighter t w;
  if wasRegroup && negb (bool_decide (posPath (pPath (plan f)) = [])) then ActivePath t w else Some w.
End fighters.
