(* ===== verification/FighterTasks.v ===== *)
(** * FighterTasks: the fighters' classes at work

    [Start], [Update], the callbacks of path queries and the reactions to idle and damaged units of the
    classes in [src/src/circuit/task/fighter/], of [task/static/SuperTask.cpp] and of [task/RetreatTask.cpp];
    [CIdleTask::Update] for the military and [CMilitaryManager::UpdateFight]. *)

From S2P Require Import Prelude Float32 EnemyUnit EnemyGroups ActionList TaskData TaskCore TaskClasses MilitaryTasks Targets FighterCore.

Open Scope circuit_scope.

Section classes.
Context {E : Engine} {H : Heap} {TE : TaskEngine} {P : Policy} {TA : Tactics}.

(** ** CRetreatTask *)

Definition Retreat_Start (t u : Z) (w : World) : option World :=
  U ← units w !! u;
  match u_travelAct U with
  | None => Some w
  | Some _ =>
      a ← GetTravelAct u w;
      if IsFinished a then Some w
      else
        T ← tasks w !! t;
        _ ← (match kind T with RetreatTask (Some r) => _ ← units w !! r; Some () | _ => Some () end);
        w ← SetPath u w;
        if IsQueryReady T u then ask t u w else Some w
  end.
Definition is_repaired (w : World) (u : Z) (U : CCircuitUnit) : bool :=
  fgtb (GetHealthPercent w u) (flit 98 100) && (negb (u_hasShield U) || IsShieldCharged w u GetFullShield).
Definition retreat_visit (t : Z) (isExecute : bool) (w : World) (u : Z) : option World :=
  U ← units w !! u;
  if is_repaired w u U && negb (IsDisarmedAt w u) then RemoveAssignee t u w
  else '(forced, w) ← force u w; if (forced : bool) || isExecute then Retreat_Start t u w else Some w.
Definition Retreat_Update (t : Z) (w : World) : option World :=
  w ← upd_task t tick w;
  T ← tasks w !! t;
  foldM (retreat_visit t (bool_decide (updCount T `mod` 2 = 0))) w (in_order (t_units T)).
(** The travel action ends, if there is one. *)
Definition finish_travel (u : Z) (w : World) : option World :=
  U ← units w !! u; match u_travelAct U with Some _ => upd_travel StateFinish u w | None => Some w end.
Definition retreat_haven (t u : Z) (w : World) : option AIFloat3 :=
  T ← tasks w !! t;
  haven ← (match kind T with RetreatTask (Some r) => _ ← units w !! r; Some (GetPos w r) | _ => Some (GetClosestHaven w u) end);
  Some (if is_valid haven then haven else basePos w).
Definition Retreat_OnUnitIdle (t u : Z) (w : World) : option World :=
  U ← units w !! u; T ← tasks w !! t;
  if d_isPlane (u_def U)
  then
    if bool_decide (t_state T = REGROUP) then set_tstate ROAM t w
    else w ← finish_travel u w; w ← order u w; set_tstate REGROUP t w
  else
    haven ← retreat_haven t u w;
    w ← order u w;
    if fgtb (SqDistance2D (GetPos w u) haven) (fsq assistDistance) then Some w
    else w ← finish_travel u w; set_tstate REGROUP t w.
Definition Retreat_OnUnitDamaged (t u : Z) (w : World) : option World :=
  T ← tasks w !! t;
  if negb (bool_decide (t_state T = REGROUP)) then Some w
  else
    w ← set_tstate ROAM t w;
    U ← units w !! u;
    w ← (match u_travelAct U with None => upd_unit u (PushTravelAct false) w | Some _ => Some w end);
    w ← upd_travel StateActivate u w;
    Retreat_Start t u w.
(** A unit is sent to retreat: [manager->AssignTask(unit, militaryMgr->EnqueueRetreat());]. *)
Definition send_back (u : Z) (w : World) : option World :=
  let '(t, w) := EnqueueRetreat Military w in AssignTask Retreat_Start u t w.
(** [IFighterTask::Update]: units whose shields are empty retreat. *)
Definition check_shield (w : World) (u : Z) : option World :=
  _ ← units w !! u; if IsShieldCharged w u GetEmptyShield then Some w else send_back u w.
Definition IFighter_Update (t : Z) (w : World) : option World :=
  f ← get_fighter t w; foldM check_shield w (in_order (shields f)).

(** ** CScoutTask *)

Definition Scout_Fallback (t u : Z) (isUpdating : bool) (w : World) : option World :=
  a ← GetTravelAct u w; f ← get_fighter t w;
  let threatPos := if IsActive a then position (plan f) else GetPos w u in
  let proceed := isUpdating && fltb (GetThreatAt w u threatPos) (fmul (fmax (GetUnitThreat w u) THREAT_MIN) (powerMod f)) in
  w ← (if proceed then Some w else go_to (GetScoutPosition w u) t w);
  p ← task_pos t w;
  w ← (if is_valid p || proceed then Some w else go_to (GetMovePosition w u (random_pos w)) t w);
  ask t u w.
Definition Scout_Execute (t u : Z) (isUpdating : bool) (w : World) : option World :=
  '(isTargetsFound, w) ← Scout_FindTarget t u w;
  f ← get_fighter t w;
  match target f with
  | Some e =>
      w ← go_to (ePos w e) t w;
      w ← (if IsCloaked w e then Some w else upd_unit u (λ U, unit_with_target (Some e) (u_targetTile U) U) w);
      order_wait u w
  | None =>
      r ← ready t u w;
      if negb r then Some w
      else if negb isTargetsFound then Scout_Fallback t u isUpdating w
      else ask t u w
  end.

(** ** CBombTask and CArtilleryTask *)

(** Where to go when there is nothing to do: bombers fly anywhere. *)
Definition lone_pos (ft : FightType) (u : Z) (w : World) : AIFloat3 := match ft with BOMB => random_pos w | _ => GetMovePosition w u (random_pos w) end.
(** [FallbackScout], and [Fallback] behind it. *)
Definition Lone_Fallback (ft : FightType) (t u : Z) (isUpdating : bool) (w : World) : option World :=
  a ← GetTravelAct u w; f ← get_fighter t w;
  let threatPos := if IsActive a then position (plan f) else GetPos w u in
  let proceed := isUpdating && fltb (GetThreatAt w u threatPos) THREAT_MIN in
  w ← (if proceed then Some w else go_to (GetScoutPosition w u) t w);
  p ← task_pos t w;
  if is_valid p && CanMoveToPos w u p then ask t u w
  else if proceed then Some w
  else w ← go_to (lone_pos ft u w) t w; order_wait u w.
Definition Bomb_Execute (t u : Z) (isUpdating : bool) (w : World) : option World :=
  T ← tasks w !! t; f ← fighter_of T;
  if negb (IsWeaponReady w u)
  then w ← (if bool_decide (updCount T `mod` 32 = 0) then order u w else Some w); SetTarget t None w
  else
    '(endPos, w) ← Bomb_FindTarget t u (target f) w;
    f' ← get_fighter t w;
    match target f' with
    | Some e =>
        w ← go_to (ePos w e) t w;
        w ← (if IsCloaked w e || negb (bool_decide (target f = Some e)) then order u w else Some w);
        upd_travel StateWait u w
    | None =>
        r ← ready t u w;
        if negb r then Some w
        else if is_valid endPos then ask t u w
        else Lone_Fallback BOMB t u isUpdating w
    end.
Definition Arty_Execute (t u : Z) (isUpdating : bool) (w : World) : option World :=
  '(best, enemyPositions, w) ← Arty_FindTarget t u w;
  match best with
  | Some e => order_wait u w
  | None =>
      r ← ready t u w;
      if negb r then Some w
      else if bool_decide (enemyPositions = []) then Lone_Fallback ARTY t u isUpdating w
      else ask t u w
  end.
Definition Execute (ft : FightType) : Z → Z → bool → World → option World :=
  match ft with SCOUT => Scout_Execute | BOMB => Bomb_Execute | _ => Arty_Execute end.

(** ** Start *)

(** [Start] of the squads that travel together. *)
Definition Squad_Start (t u : Z) (w : World) : option World :=
  T ← tasks w !! t; f ← fighter_of T;
  if bool_decide (t_state T = REGROUP) || bool_decide (t_state T = ENGAGE) || bool_decide (posPath (pPath (plan f)) = [])
  then Some w else follow u w.
Definition Support_Start (t u : Z) (w : World) : option World :=
  T ← tasks w !! t;
  if bool_decide (t_state T = DISENGAGE) then Some w else w ← order u w; set_tstate DISENGAGE t w.
Definition TARGET_DELAY : Z := FRAMES_PER_SEC * 10.
Definition Super_Start (t u : Z) (w : World) : option World :=
  _ ← units w !! u;
  upd_plan t (λ x, with_position (GetPos w u) (with_aimed (lastFrame w - TARGET_DELAY) (targetPos x) x)) w.
(** A rally that is strong enough becomes an attack. *)
Definition Rally_Start (t u : Z) (w : World) : option World :=
  f ← get_fighter t w;
  if fltb (attackPower f) (limit f) then order u w
  else
    '(t', w) ← EnqueueTask ATTACK w;
    T ← tasks w !! t;
    w ← foldM (λ w ass, AssignTask Squad_Start ass t' w) w (in_order (t_units T));
    DoneTask t w.
Definition Guard_Start (t u : Z) (w : World) : option World :=
  f ← get_fighter t w;
  match teamUnits w !! vipId f with
  | Some vip => _ ← units w !! vip; order u w
  | None => AbortTask t w
  end.
Definition Fighter_Start (ft : FightType) (t u : Z) (w : World) : option World :=
  match ft with
  | RALLY => Rally_Start t u w
  | GUARD => Guard_Start t u w
  | DEFEND => order u w
  | SCOUT | BOMB | ARTY => Execute ft t u false w
  | RAID | ATTACK | AA | AH => Squad_Start t u w
  | SUPPORT => Support_Start t u w
  | SUPER => Super_Start t u w
  | MELEE => Some w   (** no class has this type *)
  end.
(** The classes a unit of the military can be in. *)
Definition Start (t u : Z) (w : World) : option World :=
  T ← tasks w !! t;
  match kind T with
  | FighterTask f => Fighter_Start (fightType f) t u w
  | RetreatTask _ => Retreat_Start t u w
  | NilTask | IdleTask _ _ | PlayerTask => Some w
  | RepairTask _ => None
  end.

(** ** The squads' fallbacks *)

Definition ask_leader (t : Z) (w : World) : option World := '(l, _) ← get_leader t w; ask t l w.
(** [FallbackFrontPos] of [CAttackTask] and [CDefendTask]: to the front, or else to the base. *)
Definition FallbackBasePos : Z → World → option World := ask_leader.
Definition FallbackFrontPos (t : Z) (w : World) : option World :=
  '(l, _) ← get_leader t w;
  if bool_decide (FrontPos w l = []) then FallbackBasePos t w else ask_leader t w.
(** [CRaidTask] *)
Definition FallbackRaid (t : Z) (w : World) : option World :=
  '(l, _) ← get_leader t w; a ← GetTravelAct l w; f ← get_fighter t w;
  let threatPos := if IsActive a then position (plan f) else GetPos w l in
  w ← (if fleb (fmul (attackPower f) (powerMod f)) (GetThreatAt w l threatPos) then go_to (GetRaidPosition w l) t w else Some w);
  p ← task_pos t w;
  w ← (if is_valid p then Some w else go_to (GetMovePosition w l (random_pos w)) t w);
  ask t l w.
(** [CAntiAirTask] *)
Definition with_commander (t : Z) (w : World) : option bool :=
  match CommanderPos w with
  | Some p => '(l, _) ← get_leader t w; Some (CanMoveToPos w l p)
  | None => Some false
  end.
Definition AA_FallbackCommPos (t : Z) (w : World) : option World := _ ← with_commander t w; all_wait t w.
Definition AA_FallbackSafePos (t : Z) (w : World) : option World :=
  '(l, _) ← get_leader t w;
  if bool_decide (SafePos w l = []) then AA_FallbackCommPos t w else ask t l w.
(** [CAntiHeavyTask] *)
Definition AH_FallbackCommPos (t : Z) (w : World) : option World :=
  c ← with_commander t w;
  w ← (if c : bool then Some w else go_to (basePos w) t w);
  all_wait t w.
Definition AH_FallbackBasePos (t : Z) (w : World) : option World := w ← go_to (basePos w) t w; ask_leader t w.
Definition AH_FallbackStaticSafe (t : Z) (w : World) : option World :=
  '(l, _) ← get_leader t w;
  if bool_decide (StaticSafePos w l = []) then AH_FallbackBasePos t w else ask t l w.
Definition AH_FallbackAttackSafe (t : Z) (w : World) : option World :=
  '(l, L) ← get_leader t w;
  if IsRoleMine (u_def L) then AH_FallbackBasePos t w
  else if bool_decide (AttackSafePos w l = []) then AH_FallbackStaticSafe t w else ask t l w.
Definition AH_FallbackTargetEmpty (t : Z) (w : World) : option World :=
  '(_, L) ← get_leader t w;
  if negb (IsRoleMine (u_def L)) && fltb (GetEnemyHeavyCost w) f1 then AbortTask t w else AH_FallbackAttackSafe t w.

(** ** Update of the squads *)

(** Whether the squad acts this time: [due], or a unit of it is updated out of turn. *)
Definition is_execute (due : bool) (t : Z) (w : World) : option (bool * World) := if due then Some (true, w) else any_forced t w.
(** [updCount % 2 == 0] and a second has passed. *)
Definition is_due (T : IUnitTask) (w : World) : bool :=
  bool_decide (updCount T `mod` 2 = 0) && bool_decide (lastFrame w >= lastTouched T + FRAMES_PER_SEC).
(** The target, if the squad is near enough to attack it. *)
Definition engaged (range : float) (p : AIFloat3) (f : Fighter) : bool :=
  match target f with Some _ => fltb (SqDistance2D (position (plan f)) p) (fsq range) | None => false end.
Definition engage (t : Z) (w : World) : option World := w ← set_tstate ENGAGE t w; Attack t w.
(** A query for the way to the enemy, or the fallback when there is none. *)
Definition seek (found : bool) (fallback : Z → World → option World) (t : Z) (w : World) : option World :=
  '(l, _) ← get_leader t w;
  r ← ready t l w;
  if negb r then Some w else if found then ask t l w else fallback t w.

(** The squad merges with another one, or goes on. *)
Definition merge_first (go_on : World → option World) (t : Z) (w : World) : option World :=
  '(merged, w) ← try_merge t w; if (merged : bool) then Some w else go_on w.
(** The squad regroups, or goes on. *)
Definition regroup_first (go_on : bool → World → option World) (t : Z) (w : World) : option World :=
  '(stop, wasRegroup, w) ← regroup t w; if (stop : bool) then Some w else go_on wasRegroup w.

(** *** CAttackTask *)

Definition Attack_act (t : Z) (w : World) : option World :=
  '(l, _) ← get_leader t w;
  let startPos := GetPos w l in
  w ← (if fltb (GetInfluenceAt w startPos) (fneg INFL_EPS) then SetTarget t None w else Attack_FindTarget t w);
  w ← set_tstate ROAM t w;
  f ← get_fighter t w;
  if engaged (highestRange (squad f)) startPos f then engage t w
  else seek (negb (bool_decide (target f = None))) FallbackFrontPos t w.
(** [ISquadTask::Update], after which the task may have lost its leader. *)
Definition with_shields (act : Z → World → option World) (t : Z) (w : World) : option World :=
  w ← IFighter_Update t w;
  f ← get_fighter t w;
  if bool_decide (leader (squad f) = None) then Some w else act t w.
Definition Attack_Update (t : Z) (w : World) : option World :=
  w ← upd_task t tick w;
  merge_first (regroup_first (λ wasRegroup w,
    T ← tasks w !! t;
    if bool_decide (updCount T `mod` 4 = 2) then with_shields Attack_act t w
    else '(forced, w) ← any_forced t w; if (forced : bool) then Attack_act t w else resume wasRegroup t w) t) t w.

(** *** CDefendTask *)

Definition Defend_act (t : Z) (w : World) : option World :=
  '(enemyPositions, w) ← Defend_FindTarget t w;
  let isTargetsFound := negb (bool_decide (enemyPositions = [])) in
  '(l, _) ← get_leader t w;
  w ← set_tstate ROAM t w;
  f ← get_fighter t w;
  if (negb (bool_decide (target f = None)) || isTargetsFound) &&
     fltb (SqDistance2D (position (plan f)) (GetPos w l)) (fsq (fadd (highestRange (squad f)) (f_of_Z 300)))
  then engage t w
  else seek isTargetsFound FallbackFrontPos t w.
(** Every [32] updates: whether the defence is strong enough, or tasks of the type it waits for are there. *)
Definition is_promoted (t : Z) (w : World) : option bool :=
  T ← tasks w !! t; f ← fighter_of T;
  if bool_decide (updCount T `mod` 32 = 1)
  then
    if fgeb (attackPower f) (limit f) then Some true
    else X ← GetTasks (f_check f) w; Some (negb (bool_decide (X = ∅)))
  else Some false.
Definition promote_task (t : Z) (w : World) : option World :=
  f ← get_fighter t w;
  '(t', w) ← EnqueueTask (promote f) w;
  T ← tasks w !! t;
  foldM (λ w u, AssignTask Start u t' w) w (in_order (t_units T)).
Definition Defend_Update (t : Z) (w : World) : option World :=
  w ← upd_task t tick w;
  promoted ← is_promoted t w;
  if (promoted : bool) then promote_task t w
  else merge_first (λ w,
    T ← tasks w !! t;
    if bool_decide (updCount T `mod` 16 = 2) then with_shields Defend_act t w
    else '(forced, w) ← any_forced t w; if (forced : bool) then Defend_act t w else Some w) t w.

(** *** CRaidTask *)

Definition touch (t : Z) (w : World) : option World := upd_task t (with_touched (lastFrame w)) w.
Definition Raid_act (t : Z) (w : World) : option World :=
  '(isTargetsFound, _, w) ← Raid_FindTarget t w;
  w ← set_tstate ROAM t w;
  f ← get_fighter t w;
  match target f with
  | Some e =>
      w ← set_tstate ENGAGE t w;
      w ← go_to (ePos w e) t w;
      '(_, L) ← get_leader t w;
      if isAbleToFly (d_cdef (u_def L)) then all_wait t w else Attack t w
  | None => seek isTargetsFound FallbackRaid t w
  end.
Definition Raid_Update (t : Z) (w : World) : option World :=
  w ← upd_task t tick w;
  merge_first (regroup_first (λ wasRegroup w,
    T ← tasks w !! t;
    '(act, w) ← is_execute (is_due T w) t w;
    if (act : bool) then w ← touch t w; Raid_act t w else resume wasRegroup t w) t) t w.

(** *** CAntiAirTask *)

Definition AA_act (t : Z) (w : World) : option World :=
  w ← AA_FindTarget t w;
  '(l, _) ← get_leader t w;
  w ← set_tstate ROAM t w;
  f ← get_fighter t w;
  if engaged (lowestRange (squad f)) (GetPos w l) f then engage t w
  else seek (negb (bool_decide (target f = None))) AA_FallbackSafePos t w.
Definition near_pos (t : Z) (w : World) : option bool :=
  '(l, _) ← get_leader t w; f ← get_fighter t w;
  let maxDist := fmax (lowestRange (squad f)) (f_of_Z path_squareSize) in
  Some (fltb (SqDistance2D (position (plan f)) (GetPos w l)) (fsq maxDist)).
(** A squad on the run: whether the update ends here. *)
Definition disengaging (t : Z) (w : World) : option (bool * World) :=
  T ← tasks w !! t;
  if negb (bool_decide (t_state T = DISENGAGE)) then Some (false, w)
  else if negb (bool_decide (updCount T `mod` 32 = 1)) then Some (true, w)
  else
    arrived ← near_pos t w;
    if arrived : bool then w ← set_tstate ROAM t w; Some (false, w)
    else
      '(l, _) ← get_leader t w; r ← ready t l w;
      w ← (if r : bool then ask t l w else Some w); Some (true, w).
Definition AA_Update (t : Z) (w : World) : option World :=
  w ← upd_task t tick w;
  '(away, w) ← disengaging t w;
  if (away : bool) then Some w
  else merge_first (regroup_first (λ wasRegroup w,
    T ← tasks w !! t;
    '(act, w) ← is_execute (bool_decide (updCount T `mod` 4 = 2)) t w;
    if (act : bool) then AA_act t w else resume wasRegroup t w) t) t w.

(** *** CAntiHeavyTask *)

(** [subattack] and the order: mines go off no more of them than the target is worth. *)
Definition subattack (e : Z) (x : World * float) (u : Z) : option (World * float) :=
  let '(w, pow) := x in
  U ← units w !! u;
  w ← (match u_dgunAct U with
       | Some _ => U ← on_action (u_dgunAct U) StateActivate U; upd_unit u (λ _, U) w
       | None => Some w end);
  w ← upd_travel StateWait u w;
  let mine := IsRoleMine (u_def U) in
  let isAttack := negb mine || fgtb (threat (enemy_data w e)) pow in
  let pow' := if mine then fadd pow (power (d_cdef (u_def U))) else pow in
  w ← (if isAttack
       then w ← (if IsCloaked w e then Some w else upd_unit u (λ U, unit_with_target (Some e) (u_targetTile U) U) w); order u w
       else Some w);
  Some (w, pow').
(** A slow weapon is being loaded. *)
Definition is_reloading (w : World) (l : Z) (L : CCircuitUnit) : bool :=
  negb (IsRoleMine (u_def L)) && bool_decide (reloadTime (d_cdef (u_def L)) >= FRAMES_PER_SEC * 5) && negb (IsWeaponReady w l).
Definition AH_act (t : Z) (w : World) : option World :=
  '(l, L) ← get_leader t w;
  if is_reloading w l L
  then r ← ready t l w; if (r : bool) then AH_FallbackAttackSafe t w else Some w
  else
    '(isTargetsFound, _, w) ← AH_FindTarget t w;
    w ← set_tstate ROAM t w;
    T ← tasks w !! t; f ← fighter_of T;
    match target f with
    | Some e =>
        w ← set_tstate ENGAGE t w;
        w ← go_to (ePos w e) t w;
        '(w, _) ← foldM (subattack e) (w, f0) (in_order (t_units T)); Some w
    | None => seek isTargetsFound AH_FallbackTargetEmpty t w
    end.
Definition AH_Update (t : Z) (w : World) : option World :=
  w ← upd_task t tick w;
  T ← tasks w !! t;
  if bool_decide (updCount T `mod` 32 = 1) && fltb (GetEnemyHeavyCost w) f1 then AbortTask t w
  else merge_first (regroup_first (λ wasRegroup w,
    T ← tasks w !! t;
    '(act, w) ← is_execute (is_due T w) t w;
    if (act : bool) then w ← touch t w; AH_act t w else resume wasRegroup t w) t) t w.

(** ** Update of the others *)

(** [Execute] for all units, or for those that are updated out of turn. *)
Definition execute_forced (ft : FightType) (t : Z) (w : World) (u : Z) : option World :=
  '(forced, w) ← force u w; if (forced : bool) then Execute ft t u true w else Some w.
Definition Lone_Update (ft : FightType) (t : Z) (w : World) : option World :=
  w ← upd_task t tick w;
  T ← tasks w !! t;
  let due := match ft with SCOUT => is_due T w | _ => bool_decide (updCount T `mod` 4 = 0) end in
  if due
  then
    w ← (match ft with SCOUT => touch t w | _ => Some w end);
    each (λ w u, Execute ft t u true w) t w
  else each (execute_forced ft t) t w.

(** *** CSupportTask *)

(** The tasks to support: the attacks, or the defences when there is no attack. *)
Definition supported (w : World) : option (gset Z) :=
  A ← GetTasks ATTACK w; D ← GetTasks DEFEND w; Some (if bool_decide (A = ∅) then D else A).
Definition support_visit (u : Z) (U : CCircuitUnit) (w : World) (l : list AIFloat3) (candy : Z) : option (list AIFloat3) :=
  f ← get_fighter candy w;
  match leader (squad f) with
  | None => Some l
  | Some v => V ← units w !! v; Some (if CanMoveToPos w u (GetPos w v) && moves_alike (u_def V) (u_def U) then l ++ [GetPos w v] else l)
  end.
Definition Support_Update (t : Z) (w : World) : option World :=
  T ← tasks w !! t;
  w ← upd_task t tick w;
  if negb (bool_decide (updCount T `mod` 8 = 0)) then Some w
  else
    u ← head (in_order (t_units T)); U ← units w !! u;
    X ← supported w;
    if bool_decide (X = ∅) then Support_Start t u w
    else
      urgentPositions ← foldM (support_visit u U w) [] (in_order X);
      if bool_decide (urgentPositions = []) then Support_Start t u w
      else r ← ready t u w; if (r : bool) then ask t u w else Some w.
(** The task whose leader is nearest to the end of the path. *)
Definition nearer_leader (p : AIFloat3) (w : World) (x : Z * float) (candy : Z) : option (Z * float) :=
  q ← GetLeaderPos candy w;
  let sqDist := SqDistance2D p q in
  Some (if fgtb x.2 sqDist then (candy, sqDist) else x).
Definition Support_ApplyPath (t u : Z) (r : Route) (w : World) : option World :=
  match last (posPath r) with
  | None => Support_Start t u w
  | Some endPos =>
      X ← supported w;
      match head (in_order X) with
      | None => Support_Start t u w
      | Some first =>
          if fltb (SqDistance2D (GetPos w u) endPos) (fsq (f_of_Z 1000))
          then x ← foldM (nearer_leader endPos w) (first, FLT_MAX) (in_order X); AssignTask Start u x.1 w
          else w ← order u w; set_tstate ROAM t w
      end
  end.

(** *** CSuperTask *)

(** No squad of ours is near, and the enemy rules there. *)
Definition near_task (w : World) (sqAoe : float) (p : AIFloat3) (b : bool) (t : Z) : option bool :=
  if b then Some true else q ← GetLeaderPos t w; Some (fltb (SqDistance2D q p) sqAoe).
Definition isAllySafe (w : World) (sqAoe : float) (p : AIFloat3) : option bool :=
  A ← GetTasks ATTACK w; B ← GetTasks AH w; C ← GetTasks AA w;
  b ← foldM (near_task w sqAoe p) false (in_order A ++ in_order B ++ in_order C);
  Some (negb b && fltb (GetInfluenceAt w p) (fneg INFL_EPS)).
(** The costliest group within range; a gun that has been turned weighs the turn. *)
Definition group_visit (w : World) (pos : AIFloat3) (dir : option AIFloat3) (maxSqRange sqAoe : float) (x : float * option SEnemyGroup) (g : SEnemyGroup) : option (float * option SEnemyGroup) :=
  let c := match dir with Some d => fmul (g_cost g) (angleMod d (f3_sub (g_pos g) pos)) | None => g_cost g end in
  if fgeb x.1 c || fgeb (SqDistance2D pos (g_pos g)) maxSqRange then Some x
  else safe ← isAllySafe w sqAoe (g_pos g); Some (if safe : bool then (g_cost g, Some g) else x).
(** The enemy of the group to aim at: the middle one, or the costliest. *)
Definition aim_visit (stock : bool) (w : World) (pos grPos : AIFloat3) (maxSqRange : float) (x : float * option Z) (e : Z) : float * option Z :=
  match enemies w !! e with
  | None => x
  | Some _ =>
      let inRange := fltb (SqDistance2D pos (ePos w e)) maxSqRange in
      if stock
      then let d := SqDistance2D grPos (ePos w e) in if fgtb x.1 d && inRange then (d, Some e) else x
      else let c := cost (enemy_data w e) in if fltb x.1 c && inRange then (c, Some e) else x
  end.
Definition super_target (w : World) (f : Fighter) (s : TState) (d : CCircuitDef) (range : float) : option (option SEnemyGroup) :=
  let pos := position (plan f) in
  let dir := if isHoldFire d || bool_decide (s = ROAM) then None else Some (f3_sub (targetPos (plan f)) pos) in
  x ← foldM (group_visit w pos dir (fsq range) (fsq (fmul (aoe d) (flit 5 4)))) (f0, None) (GetEnemyGroups w);
  let maxCost := if isAttrStock d then stockCost d else fmul (costM d) (flit 1 100) in
  Some (if fltb x.1 maxCost then None else x.2).
Definition with_aim (frame : Z) (p : option AIFloat3) (t : Z) (w : World) : option World :=
  upd_plan t (λ x, with_aimed frame (default (targetPos x) p) x) w.
Definition Super_act (t u : Z) (w : World) : option World :=
  T ← tasks w !! t; f ← fighter_of T; U ← units w !! u;
  let d := d_cdef (u_def U) in
  range ← unit_range U;
  g ← super_target w f (t_state T) d range;
  match g with
  | None => w ← order u w; w ← SetTarget t None w; with_aim (lastFrame w) None t w
  | Some g =>
      let x := foldl (aim_visit (isAttrStock d) w (position (plan f)) (g_pos g) (fsq range)) (if isAttrStock d then FLT_MAX else f0, None) (EnemyGroups.units g) in
      w ← SetTarget t x.2 w;
      match x.2 with
      | Some e => w ← order u w; w ← with_aim (lastFrame w) (Some (ePos w e)) t w; set_tstate ENGAGE t w
      | None => Some w
      end
  end.
Definition Super_Update (t : Z) (w : World) : option World :=
  T ← tasks w !! t; f ← fighter_of T;
  u ← head (in_order (t_units T)); U ← units w !! u;
  let d := d_cdef (u_def U) in
  let aimed := targetFrame (plan f) + TARGET_DELAY in
  if isHoldFire d
  then
    if bool_decide (aimed + reloadTime d > lastFrame w)
    then
      if bool_decide (t_state T = ENGAGE) && bool_decide (aimed <= lastFrame w) then w ← order u w; set_tstate ROAM t w else Some w
    else Super_act t u w
  else if bool_decide (aimed > lastFrame w) then Some w else Super_act t u w.

(** *** The dispatch *)

Definition Fighter_UpdateTask (ft : FightType) (t : Z) (w : World) : option World :=
  match ft with
  | ATTACK => Attack_Update t w
  | DEFEND => Defend_Update t w
  | RAID => Raid_Update t w
  | AA => AA_Update t w
  | AH => AH_Update t w
  | SCOUT | BOMB | ARTY => Lone_Update ft t w
  | SUPPORT => Support_Update t w
  | SUPER => Super_Update t w
  | RALLY | GUARD | MELEE => IFighter_Update t w
  end.
(** The tasks in the military's list. *)
Definition UpdateTask (t : Z) (w : World) : option World :=
  T ← tasks w !! t;
  match kind T with
  | FighterTask f => Fighter_UpdateTask (fightType f) t w
  | RetreatTask _ => Retreat_Update t w
  | _ => None
  end.

(** ** The answers of path queries *)

(** The callbacks, by what they were asked for; [A_Target], [A_Scout] and [A_Base] of the single units know [isUpdating]. *)
Inductive Answer : Type :=
| A_Target (isUpdating : bool) | A_Front | A_Base (isUpdating : bool) | A_Raid | A_Disengage | A_Safe | A_Damaged
| A_AttackSafe | A_StaticSafe | A_Scout | A_Support | A_Retreat.
(** [pPath = query->GetPathInfo();] *)
Definition take_route (r : Route) (t : Z) (w : World) : option World := upd_plan t (with_route r) w.
(** To the end of the path, along it, or the fallback when there is none. *)
Definition go_along (fallback : Z → World → option World) (r : Route) (t : Z) (w : World) : option World :=
  match last (posPath r) with Some p => w ← go_to p t w; ActivePath t w | None => fallback t w end.
(** Along a path of more than two cells. *)
Definition along_cells (fallback : Z → World → option World) (r : Route) (t : Z) (w : World) : option World :=
  if bool_decide (path_size r = 0) then fallback t w else if bool_decide (path_size r > 2) then ActivePath t w else Some w.
Definition along (fallback : Z → World → option World) (r : Route) (t : Z) (w : World) : option World :=
  if bool_decide (posPath r = []) then fallback t w else ActivePath t w.
Definition lone_along (fallback : World → option World) (u : Z) (r : Route) (t : Z) (w : World) : option World :=
  match last (posPath r) with Some p => w ← go_to p t w; follow u w | None => fallback w end.

Definition Attack_Apply (a : Answer) (r : Route) (t : Z) (w : World) : option World :=
  w ← take_route r t w;
  match a with
  | A_Target _ => along all_wait r t w
  | A_Front => along_cells FallbackBasePos r t w
  | A_Base _ => along_cells all_wait r t w
  | _ => None
  end.
Definition Raid_Apply (a : Answer) (r : Route) (t : Z) (w : World) : option World :=
  w ← take_route r t w;
  match a with
  | A_Target _ => go_along FallbackRaid r t w
  | A_Raid => if bool_decide (path_size r > 2) then ActivePath t w else all_wait t w
  | _ => None
  end.
Definition AA_Apply (a : Answer) (r : Route) (t : Z) (w : World) : option World :=
  w ← take_route r t w;
  match a with
  | A_Disengage => along_cells (λ t w, w ← all_wait t w; set_tstate ROAM t w) r t w
  | A_Target _ => along all_wait r t w
  | A_Safe => go_along AA_FallbackCommPos r t w
  | A_Damaged =>
      match last (posPath r) with
      | Some p => w ← go_to p t w; w ← ActivePath t w; set_tstate DISENGAGE t w
      | None => w ← go_to (basePos w) t w; all_wait t w
      end
  | _ => None
  end.
Definition AH_Apply (a : Answer) (r : Route) (t : Z) (w : World) : option World :=
  w ← take_route r t w;
  match a with
  | A_Target _ => go_along AH_FallbackTargetEmpty r t w
  | A_AttackSafe => go_along AH_FallbackStaticSafe r t w
  | A_StaticSafe => go_along AH_FallbackBasePos r t w
  | A_Base _ => go_along AH_FallbackCommPos r t w
  | _ => None
  end.
(** [CBombTask]'s and [CArtilleryTask]'s [ApplyScoutPath], [CScoutTask]'s with its order. *)
Definition Lone_ApplyScout (ft : FightType) (r : Route) (t u : Z) (w : World) : option World :=
  if bool_decide (path_size r > 2) then follow u w
  else
    match ft with
    | SCOUT => order_wait u w
    | _ => w ← go_to (lone_pos ft u w) t w; order_wait u w
    end.
Definition Arty_FallbackBasePos (t u : Z) (w : World) : option World := w ← go_to (basePos w) t w; ask t u w.
Definition Lone_Apply (ft : FightType) (a : Answer) (r : Route) (t u : Z) (w : World) : option World :=
  match ft, a with
  | SCOUT, A_Target isUpdating => lone_along (Scout_Fallback t u isUpdating) u r t w
  | BOMB, A_Target isUpdating => lone_along (Lone_Fallback BOMB t u isUpdating) u r t w
  | ARTY, A_Target _ =>
      match last (posPath r) with
      | Some p => if fgtb (GetThreatAt w u p) THREAT_MIN then Arty_FallbackBasePos t u w else w ← go_to p t w; follow u w
      | None => Arty_FallbackBasePos t u w
      end
  | ARTY, A_Base isUpdating => if bool_decide (posPath r = []) then Lone_Fallback ARTY t u isUpdating w else follow u w
  | _, A_Scout => Lone_ApplyScout ft r t u w
  | _, _ => None
  end.
(** Which answers a class asks for. *)
Definition awaits (c : FightType) (a : Answer) : bool :=
  match c, a with
  | (ATTACK | DEFEND), (A_Target _ | A_Front | A_Base _) => true
  | RAID, (A_Target _ | A_Raid) => true
  | AA, (A_Disengage | A_Target _ | A_Safe | A_Damaged) => true
  | AH, (A_Target _ | A_AttackSafe | A_StaticSafe | A_Base _) => true
  | (SCOUT | BOMB | ARTY), (A_Target _ | A_Scout) => true
  | ARTY, A_Base _ => true
  | SUPPORT, A_Support => true
  | _, _ => false
  end.
Definition Fighter_Apply (ft : FightType) (a : Answer) (r : Route) (t u : Z) (w : World) : option World :=
  match ft with
  | ATTACK | DEFEND => Attack_Apply a r t w
  | RAID => Raid_Apply a r t w
  | AA => AA_Apply a r t w
  | AH => AH_Apply a r t w
  | SCOUT | BOMB | ARTY => Lone_Apply ft a r t u w
  | SUPPORT => Support_ApplyPath t u r w
  | RALLY | GUARD | MELEE | SUPER => None
  end.
(** The answer [r] to the query [id] of the unit [u]: nothing happens when the task has ended or the
    unit does not wait for it any more. *)
Definition OnAnswer (t u id : Z) (a : Answer) (r : Route) (w : World) : option World :=
  T ← tasks w !! t;
  if IsQueryAlive T u id
  then
    match kind T with
    | FighterTask f => Fighter_Apply (fightType f) a r t u w
    | RetreatTask _ => SetPath u w
    | _ => None
    end
  else Some w.

(** ** Idle units *)

Definition IFighter_OnUnitIdle (t u : Z) (w : World) : option World :=
  f ← get_fighter t w;
  if bool_decide (u ∈ cowards f)
  then w ← upd_fighter t (λ f, with_sets (cowards f ∖ {[u]}) (shields f) f) w; send_back u w
  else upd_unit u (SetTaskFrame (lastFrame w)) w.
(** The squads: a squad that has arrived goes somewhere else. *)
Definition Squad_OnUnitIdle (t u : Z) (w : World) : option World :=
  w ← IFighter_OnUnitIdle t u w;
  T ← tasks w !! t; f ← fighter_of T;
  let stop := match fightType f with AA => bool_decide (leader (squad f) = None) || bool_decide (t_state T = DISENGAGE) | _ => bool_decide (t_units T = ∅) end in
  if stop then Some w
  else
    arrived ← near_pos t w;
    '(l, _) ← get_leader t w;
    w ← (if arrived : bool then go_to (GetMovePosition w l (random_pos w)) t w else Some w);
    if bool_decide (u ∈ t_units T) then Squad_Start t u w else Some w.
Definition Lone_OnUnitIdle (ft : FightType) (t u : Z) (w : World) : option World :=
  w ← IFighter_OnUnitIdle t u w;
  T ← tasks w !! t;
  if bool_decide (u ∈ t_units T)
  then match ft with BOMB => Bomb_Execute t u false w | _ => RemoveAssignee t u w end
  else Some w.
Definition Fighter_OnUnitIdle (ft : FightType) (t u : Z) (w : World) : option World :=
  match ft with
  | GUARD => Guard_Start t u w
  | RAID | ATTACK | AA | AH => Squad_OnUnitIdle t u w
  | SCOUT | BOMB | ARTY => Lone_OnUnitIdle ft t u w
  | RALLY | DEFEND | SUPPORT | SUPER | MELEE => IFighter_OnUnitIdle t u w
  end.
(** [attackerIdleHandler] *)
Definition attacker_idle (u : Z) (w : World) : option World :=
  U ← units w !! u;
  if negb (bool_decide (lastFrame w > u_taskFrame U)) then Some w
  else
    t ← u_task U; T ← tasks w !! t;
    match kind T with
    | FighterTask f => Fighter_OnUnitIdle (fightType f) t u w
    | RetreatTask _ => Retreat_OnUnitIdle t u w
    | NilTask | IdleTask _ _ | PlayerTask => Some w
    | RepairTask _ => None
    end.

(** ** Damaged units *)

(** [range] and the threat: whether the unit may stay until the present order is done. *)
Definition may_stay (t u : Z) (U : CCircuitUnit) (w : World) : option bool :=
  range ← unit_range U; f ← get_fighter t w;
  match target f with
  | None => Some false
  | Some e =>
      _ ← enemies w !! e;
      Some (IsInLOS (enemy_data w e) && negb (fgtb (SqDistance2D (ePos w e) (GetPos w u)) (fsq range)) &&
            negb (fgtb (fmul (GetThreatAt w u (GetPos w u)) (f_of_Z 2)) (GetUnitThreat w u)))
  end.
Definition hurt (u : Z) (U : CCircuitUnit) (w : World) : bool :=
  negb (fgtb (GetHealthPercent w u) (retreat (d_cdef (u_def U)))) ||
  (if u_hasShield U then negb (IsShieldCharged w u GetEmptyShield) else IsDisarmedAt w u).
Definition IFighter_OnUnitDamaged (t u : Z) (w : World) : option World :=
  U ← units w !! u;
  let healthPerc := GetHealthPercent w u in
  if negb (hurt u U w)
  then
    if IsRoleHeavy (u_def U) && fltb healthPerc (flit 9 10) then '(_, w) ← EnqueueRepair u w; Some w else Some w
  else if negb (u_hasShield U) && fltb healthPerc (flit 2 10) then send_back u w
  else
    stay ← may_stay t u U w;
    if stay : bool then upd_fighter t (λ f, with_sets ({[u]} ∪ cowards f) (shields f) f) w else send_back u w.
Definition flies (attacker : option Z) (w : World) : bool :=
  match attacker with
  | Some e => match e_cdef (enemy_data w e) with Some d => isAbleToFly d | None => false end
  | None => false
  end.
Definition AA_OnUnitDamaged (t u : Z) (attacker : option Z) (w : World) : option World :=
  w ← IFighter_OnUnitDamaged t u w;
  T ← tasks w !! t; f ← fighter_of T;
  if bool_decide (leader (squad f) = None) || bool_decide (t_state T = DISENGAGE) || flies attacker w then Some w
  else if IsQueryReady T u then ask_leader t w else Some w.
Definition AH_OnUnitDamaged (t u : Z) (attacker : option Z) (w : World) : option World :=
  w ← IFighter_OnUnitDamaged t u w;
  match attacker with
  | None => Some w
  | Some _ =>
      U ← units w !! u;
      let w := if d_isAbleToCloak (u_def U) then TRY_UNIT u w else w in
      match u_dgunAct U with Some _ => U ← on_action (u_dgunAct U) StateActivate U; upd_unit u (λ _, U) w | None => Some w end
  end.
Definition Bomb_OnUnitDamaged (t u : Z) (w : World) : option World :=
  U ← units w !! u; f ← get_fighter t w;
  match target f with
  | None => IFighter_OnUnitDamaged t u w
  | Some e =>
      _ ← enemies w !! e;
      if fgtb (SqDistance2D (GetPos w u) (ePos w e)) (fsq (d_losRadius (u_def U))) then IFighter_OnUnitDamaged t u w else Some w
  end.
(** [attackerDamagedHandler] *)
Definition attacker_damaged (u : Z) (attacker : option Z) (w : World) : option World :=
  U ← units w !! u; t ← u_task U; T ← tasks w !! t;
  match kind T with
  | FighterTask f =>
      match fightType f with
      | AA => AA_OnUnitDamaged t u attacker w
      | AH => AH_OnUnitDamaged t u attacker w
      | BOMB => Bomb_OnUnitDamaged t u w
      | _ => IFighter_OnUnitDamaged t u w
      end
  | RetreatTask _ => Retreat_OnUnitDamaged t u w
  | NilTask | IdleTask _ _ | PlayerTask => Some w
  | RepairTask _ => None
  end.

(** ** The manager's updates *)

(** The destructor: the target forgets the task. *)
Definition delete_task (t : Z) (w : World) : option World :=
  T ← tasks w !! t;
  w ← (match kind T with
       | FighterTask f => match target f with Some e => unbind t e w | None => Some w end
       | _ => Some w end);
  Some (set_tasks (delete t (tasks w)) w).
(** [ClearRelease]: the task is deleted, unless a query still holds it. *)
Definition ClearRelease (t : Z) (w : World) : option World :=
  if IsHeld w t then upd_task t (with_queries ∅) w else delete_task t w.
(** [fightUpdates[fightIterator] = fightUpdates.back(); fightUpdates.pop_back();] *)
Definition swap_out (i : Z) (l : list Z) : option (list Z) := x ← last l; Some (removelast (<[Z.to_nat i := x]> l)).

Definition with_fightIterator (i : Z) (m : CMilitaryManager) : CMilitaryManager :=
  MkMilitary (m_nilTask m) (m_idleTask m) (m_playerTask m) (fightTasks m) (fightUpdates m) i (roleInfos m) (army m) (armyCost m) (guardTasks m).
(** The loop: up to [n] living tasks are updated, dead ones leave the list.  An update may add tasks to it. *)
Fixpoint fight_loop (fuel : nat) (n : Z) (w : World) : option World :=
  match fuel with
  | O => None
  | S fuel =>
      let m := military w in
      let i := fightIterator m in
      if bool_decide (i < zlen (fightUpdates m)) && negb (bool_decide (n = 0))
      then
        t ← (fightUpdates m).[i]; T ← tasks w !! t;
        if isDead T
        then
          l ← swap_out i (fightUpdates m);
          w ← ClearRelease t (set_military (with_fightUpdates l m) w);
          fight_loop fuel n w
        else
          w ← UpdateTask t w;
          fight_loop fuel (n - 1) (set_military (with_fightIterator (fightIterator (military w) + 1) (military w)) w)
      else Some w
  end.
Definition UpdateFight (fuel : nat) (w : World) : option World :=
  let m := military w in
  let m := if bool_decide (fightIterator m >= zlen (fightUpdates m)) then with_fightIterator 0 m else m in
  fight_loop fuel (zlen (fightUpdates m) `quot` TEAM_SLOWUPDATE_RATE + 1) (set_military m w).

(** [CIdleTask::Update] of the military *)
Definition with_waiting (X : gset Z) (T : IUnitTask) : IUnitTask := match kind T with IdleTask _ s => with_kind (IdleTask X s) T | _ => T end.
Definition waiting (T : IUnitTask) : gset Z := match kind T with IdleTask X _ => X | _ => ∅ end.
(** [ITaskManager::AssignTask(unit)], and the [Start] after it. *)
Definition AssignNewTask (u : Z) (w : World) : option World := '(t, w) ← DefaultMakeTask u w; AssignTo t u w.
Definition put_to_work (u : Z) (w : World) : option World :=
  w ← AssignNewTask u w;
  U ← units w !! u; t ← u_task U;
  Start t u w.
(** The loop; [l] is what is left of [updateUnits], as far as it still waits. *)
Fixpoint idle_loop (i slice : Z) (n : Z) (l : list Z) (w : World) : option World :=
  match l with
  | [] => Some w
  | u :: l =>
      T ← tasks w !! i;
      if negb (bool_decide (u ∈ waiting T)) then idle_loop i slice n l w
      else
        U ← units w !! u;
        if bool_decide (lastFrame w < u_taskFrame U + 20) then idle_loop i slice n l w
        else
          w ← upd_task i (with_waiting (waiting T ∖ {[u]})) w;
          w ← put_to_work u w;
          if bool_decide (n + 1 >= slice) then Some w else idle_loop i slice (n + 1) l w
  end.
Definition Idle_Update (w : World) : option World :=
  let i := idleTask w Military in
  T ← tasks w !! i;
  match kind T with
  | IdleTask X s =>
      let '(X, s) := if bool_decide (X = ∅) then (t_units T, Z.of_nat (size (t_units T)) `quot` TEAM_SLOWUPDATE_RATE) else (X, s) in
      w ← upd_task i (with_kind (IdleTask X s)) w;
      idle_loop i s 0 (in_order X) w
  | _ => None
  end.
End classes.
