(* ===== verification/MilitaryTheory.v ===== *)
(** * MilitaryTheory: new tasks and units given to tasks

    The operations of [MilitaryTasks] keep the invariant: a new task is filed where its manager finds
    it, [DefaultMakeTask] always answers with a living task of the military, and a unit that is given
    to a task ends up in it. *)

From stdpp Require Import sorting.
From S2P Require Import Prelude Float32 EnemyUnit ActionList TaskData TaskCore TaskClasses TaskTheory TaskInvariant TaskSteps.
From S2P Require Import TaskStop TaskLeave TaskNew TaskJoin MilitaryTasks.

Open Scope circuit_scope.

Section new.
Context {E : Engine} {H : Heap} {TE : TaskEngine} {P : Policy}.

(** ** New tasks *)

Lemma alloc_task w : tasks w !! alloc (dom (tasks w)) = None.
Proof. apply not_elem_of_dom. apply alloc_fresh. Qed.
Lemma TC_none w t : tasks w !! t = None → TC w !! t = None.
Proof. intros Ht. unfold TC. by rewrite lookup_fmap, Ht. Qed.

(** A task that is new in [w']. *)
Record adds (t : Z) (T : IUnitTask) (w w' : World) : Prop := {
  ad_fresh : tasks w !! t = None;
  ad_task : tasks w' = <[t := T]> (tasks w);
  ad_grows : grows w w'
}.
Lemma adds_lookup t T w w' : adds t T w w' → tasks w' !! t = Some T.
Proof. intros [_ -> _]. apply lookup_insert_eq. Qed.
Lemma adds_new t T w w' : adds t T w w' → ∀ t' T', tasks w' !! t' = Some T' → t' = t ∨ tasks w !! t' = Some T'.
Proof. intros [_ -> _] t' T'. destruct (decide (t' = t)) as [->|Hn]; [by left|]. rewrite lookup_insert_ne by done. by right. Qed.

(** What the constructors of fighter tasks have in common. *)
Definition blank (f : Fighter) : Prop := shields f = ∅ ∧ cowards f = ∅ ∧ leader (squad f) = None ∧ target f = None ∧ (fightType f = DEFEND → promotes (promote f) = true).
Lemma fighter_task_fresh frame f : blank f → fresh_task (fighter_task frame f).
Proof. intros (H1 & H2 & H3 & H4 & _). split; try done. simpl. intros f' [= <-]. done. Qed.

Lemma insert_fight_ok C m f t : military_ok C m → ∃ m', insert_fight f t m = Some m'.
Proof.
  intros M. pose proof (FT_range f) as Hr. rewrite <-(fight_size _ _ M) in Hr. unfold insert_fight.
  destruct (zget_is_Some (fightTasks m) (FT f) Hr) as [X ->]. simpl.
  rewrite (zset_Some (fightTasks m) (FT f) ({[t]} ∪ X) Hr). simpl. by eexists.
Qed.
Lemma insert_fight_heads f t m m' : insert_fight f t m = Some m' →
  m_nilTask m' = m_nilTask m ∧ m_idleTask m' = m_idleTask m ∧ m_playerTask m' = m_playerTask m.
Proof. unfold insert_fight. intros Hi. destruct ((fightTasks m).[FT f]); [|done]. simpl in Hi. destruct (_.[_ <- _]); [|done]. by injection Hi as <-. Qed.

(** A fighter task is filed under its own type. *)
Lemma file_fighter_ok lost X f w :
  world_ok lost X w → blank f →
  ∃ t w', file_fighter (fightType f) f w = Some (t, w') ∧ world_ok lost X w' ∧ adds t (fighter_task (lastFrame w) f) w w'.
Proof.
  intros W HB. unfold file_fighter, new_task. pose proof (alloc_task w) as Ht. set (t := alloc (dom (tasks w))) in *.
  set (T := fighter_task (lastFrame w) f). pose proof (fighter_task_fresh (lastFrame w) f HB) as HF. fold T in HF.
  change (military (set_tasks (<[t := T]> (tasks w)) w)) with (military w).
  destruct (insert_fight_ok _ _ (fightType f) t (wo_military _ _ _ W)) as [m' Hm]. rewrite Hm. simpl.
  destruct (insert_fight_heads _ _ _ _ Hm) as (N1 & N2 & N3). set (w' := set_military _ _).
  assert (same_heads w w') as HH by (intros []; simpl; split_and!; done).
  exists t, w'. split_and!; [done| |by split; [..|eapply (grows_insert t T)]].
  eapply (new_task_world lost X t T w w'); try done.
  - apply (military_new_fighter (TC w) t (task_core T) (TC_none _ _ Ht) eq_refl (military w) m' (fightType f) (target f) (promote f)); [apply W|done|apply HB|done..].
  - change (builder w') with (builder w). rewrite <-(with_build_updates_id (builder w)).
    apply (builder_new_other (TC w) t (task_core T) (TC_none _ _ Ht) (builder w) false); [apply W|done|split; [done|by intros [? ?]]].
Qed.

Lemma fighter_by_type_type type w : enqueues type = true → fightType (fighter_by_type type w) = type.
Proof. by destruct type. Qed.
Lemma fighter_by_type_blank type w : blank (fighter_by_type type w).
Proof. by destruct type. Qed.

Lemma EnqueueTask_ok lost X type w :
  world_ok lost X w → enqueues type = true →
  ∃ t w', EnqueueTask type w = Some (t, w') ∧ world_ok lost X w' ∧ adds t (fighter_task (lastFrame w) (fighter_by_type type w)) w w'.
Proof.
  intros W Ht. unfold EnqueueTask. pose proof (file_fighter_ok lost X (fighter_by_type type w) w W (fighter_by_type_blank type w)) as HF.
  by rewrite (fighter_by_type_type type w Ht) in HF.
Qed.
Lemma EnqueueDefend_power_ok lost X prom p w :
  world_ok lost X w → promotes prom = true → ∃ t w' f, EnqueueDefend_power prom p w = Some (t, w') ∧ world_ok lost X w' ∧ adds t (fighter_task (lastFrame w) f) w w' ∧ fightType f = DEFEND.
Proof.
  intros W Hp. unfold EnqueueDefend_power. set (f := new_Fighter _ _ _ _ _ _ _).
  destruct (file_fighter_ok lost X f w W) as (t & w' & H1 & H2 & H3); [done|]. by exists t, w', f.
Qed.
Lemma EnqueueDefend_ok lost X chk prom p w :
  world_ok lost X w → promotes prom = true → ∃ t w' f, EnqueueDefend chk prom p w = Some (t, w') ∧ world_ok lost X w' ∧ adds t (fighter_task (lastFrame w) f) w w' ∧ fightType f = DEFEND.
Proof.
  intros W Hp. unfold EnqueueDefend. set (f := new_Fighter _ _ _ _ _ _ _).
  destruct (file_fighter_ok lost X f w W) as (t & w' & H1 & H2 & H3); [done|]. by exists t, w', f.
Qed.
Lemma EnqueueGuard_ok lost X v V w :
  world_ok lost X w → units w !! v = Some V →
  ∃ t w' f, EnqueueGuard v w = Some (t, w') ∧ world_ok lost X w' ∧ adds t (fighter_task (lastFrame w) f) w w' ∧ fightType f = GUARD.
Proof.
  intros W HV. unfold EnqueueGuard. rewrite HV. simpl. set (f := new_Fighter _ _ _ _ _ _ _).
  destruct (file_fighter_ok lost X f w W) as (t & w' & H1 & H2 & H3); [done|]. by exists t, w', f.
Qed.

Lemma EnqueueRetreat_ok lost X m w t w' :
  world_ok lost X w → EnqueueRetreat m w = (t, w') → world_ok lost X w' ∧ adds t (retreat_task m (lastFrame w)) w w'.
Proof.
  intros W. unfold EnqueueRetreat, new_task. pose proof (alloc_task w) as Ht. set (t0 := alloc (dom (tasks w))) in *.
  set (T := retreat_task m (lastFrame w)). assert (fresh_task T) as HF by done.
  assert (∀ w1, tasks w1 = <[t0 := T]> (tasks w) → units w1 = units w → same_heads w w1 → enemies w1 = enemies w → teamUnits w1 = teamUnits w →
    lastFrame w1 = lastFrame w → military_ok (<[t0 := task_core T]> (TC w)) (military w1) → builder_ok (<[t0 := task_core T]> (TC w)) (builder w1) →
    world_ok lost X w1 ∧ adds t0 T w w1) as Hw.
  { intros w1 H1 H2 H3 H4 H5 H6 H7 H8. split; [by eapply (new_task_world lost X t0 T w w1)|]. split; [done..|by eapply (grows_insert t0 T)]. }
  pose proof (military_new_other (TC w) t0 (task_core T) (TC_none _ _ Ht) (military w) (bool_decide (m = Military)) (wo_military _ _ _ W) ltac:(done)) as HM.
  pose proof (builder_new_other (TC w) t0 (task_core T) (TC_none _ _ Ht) (builder w) (bool_decide (m = Builder)) (wo_builder _ _ _ W) ltac:(done)) as HB.
  destruct m; intros [= <- <-]; apply Hw; try done; try by intros [].
  - by apply HM.
  - rewrite <-(with_build_updates_id (builder _)). apply HB. simpl. by split; [|intros [? _]].
  - rewrite <-(with_updates_id (military _)). apply HM. simpl. by split; [|intros [? _]].
  - by apply HB.
Qed.

(** ** [DefaultMakeTask] *)

(** The answer of [DefaultMakeTask]: a living task of the military, to which the unit can be given. *)
Record makes (lost X : gset Z) (w : World) (t : Z) (w' : World) : Prop := {
  mk_world : world_ok lost X w';
  mk_grows : grows w w';
  mk_task : ∃ T f, tasks w' !! t = Some T ∧ kind T = FighterTask f ∧ manager T = Military ∧ isDead T = false ∧ t_units T = ∅;
  mk_new t' T' : tasks w' !! t' = Some T' → t' = t ∨ tasks w !! t' = Some T';
  mk_type T f : tasks w' !! t = Some T → kind T = FighterTask f → fightType f ≠ RALLY
}.
Lemma makes_new lost X t f w w' : fightType f ≠ RALLY → world_ok lost X w' → adds t (fighter_task (lastFrame w) f) w w' → makes lost X w t w'.
Proof.
  intros Hf W A. split; [done|apply A| |by apply (adds_new _ _ _ _ A)|]; [eexists _, f; split; [by apply (adds_lookup _ _ _ _ A)|done]|].
  intros T f' HT. rewrite (adds_lookup _ _ _ _ A) in HT. injection HT as <-. by intros [= <-].
Qed.

Lemma GetTasks_ok lost X type w : world_ok lost X w → ∃ Y, GetTasks type w = Some Y ∧
  ∀ t, t ∈ Y → ∃ T f, tasks w !! t = Some T ∧ kind T = FighterTask f ∧ fightType f = type ∧ manager T = Military ∧ isDead T = false.
Proof.
  intros W. unfold GetTasks. pose proof (wo_military _ _ _ W) as M. pose proof (FT_range type) as Hr. rewrite <-(fight_size _ _ M) in Hr.
  destruct (zget_is_Some _ _ Hr) as [Y HY]. exists Y. split; [done|]. intros t Ht.
  apply (fight_tasks _ _ M _ _ _ HY) in Ht as (c & f & e & p & Hc & Hk & Hf & Hd).
  pose proof (fight_manager _ _ M _ _ _ _ _ Hc Hk) as [Hm _]. destruct (task_of_core _ _ _ Hc) as (T & HT & ->). simpl in *.
  destruct (kind T) as [| | | | |f0] eqn:Hk0; try discriminate. injection Hk as <- _ _. exists T, f0. split_and!; try done.
  by destruct (fightType f0), type.
Qed.

Lemma first_empty_ok l w : (∀ t, t ∈ l → is_Some (tasks w !! t)) →
  ∃ x, first_empty l w = Some x ∧ ∀ t, x = Some t → t ∈ l ∧ ∃ T, tasks w !! t = Some T ∧ t_units T = ∅.
Proof.
  induction l as [|t l IH]; intros Hl; simpl; [by exists None|].
  destruct (Hl t ltac:(left)) as [T HT]. rewrite HT. simpl. case_bool_decide as He.
  - exists (Some t). split; [done|]. intros t' [= <-]. split; [left|by exists T].
  - destruct IH as (x & Hx & Hall); [intros t' Ht'; apply Hl; by right|]. exists x. split; [done|]. intros t' Ht'.
    destruct (Hall t' Ht') as [? ?]. split; [by right|done].
Qed.
Lemma free_guard_ok lost X w : world_ok lost X w →
  ∃ x, free_guard w = Some x ∧ ∀ t, x = Some t → makes lost X w t w.
Proof.
  intros W. unfold free_guard. destruct (GetTasks_ok lost X GUARD w W) as (Y & -> & HY). simpl.
  destruct (first_empty_ok (in_order Y) w) as (x & Hx & Hall).
  { intros t Ht. apply elem_of_in_order in Ht. destruct (HY t Ht) as (T & f & HT & _). by exists T. }
  exists x. split; [done|]. intros t Ht. destruct (Hall t Ht) as (Hin & T & HT & He). apply elem_of_in_order in Hin.
  destruct (HY t Hin) as (T' & f & HT' & Hk & Hft & Hm & Hd). assert (T' = T) as -> by congruence.
  split; [done|apply grows_self|by exists T, f|by right|]. intros T' f' HT1 Hk1. assert (T' = T) as -> by congruence. congruence.
Qed.

Lemma EnqueueTask_makes lost X type w : world_ok lost X w → promotes type = true →
  ∃ t w', EnqueueTask type w = Some (t, w') ∧ makes lost X w t w'.
Proof.
  intros W [Ht Hn%negb_true_iff%bool_decide_eq_false]%andb_true_iff. destruct (EnqueueTask_ok lost X type w W Ht) as (t & w' & H1 & H2 & H3).
  exists t, w'. split; [done|]. eapply makes_new; [|done..]. by rewrite fighter_by_type_type.
Qed.
Lemma EnqueueDefend_makes lost X prom p w : world_ok lost X w → promotes prom = true → ∃ t w', EnqueueDefend_power prom p w = Some (t, w') ∧ makes lost X w t w'.
Proof.
  intros W Hp. destruct (EnqueueDefend_power_ok lost X prom p w W Hp) as (t & w' & f & H1 & H2 & H3 & Hf).
  exists t, w'. split; [done|]. eapply makes_new; [|done..]. by rewrite Hf.
Qed.

Lemma make_special_ok lost X d type w : world_ok lost X w →
  ∃ x, make_special d type w = Some x ∧ (∀ t w', x = Some (t, w') → makes lost X w t w') ∧ (x = None → type ≠ DEFEND).
Proof.
  intros W. destruct (free_guard_ok lost X w W) as (g & Hg & Hguard).
  assert (∀ o, (∃ t w', o = Some (t, w') ∧ makes lost X w t w') → ∃ x, (y ← o; Some (Some y)) = Some x ∧ (∀ t w', x = Some (t, w') → makes lost X w t w') ∧ (x = None → type ≠ DEFEND)) as Hmk.
  { intros o (t & w' & -> & Hm). exists (Some (t, w')). split; [done|]. split; [by intros t0 w0 [= <- <-]|done]. }
  assert (∀ x : option (Z * World), x = None → type ≠ DEFEND →
    ∃ y, Some x = Some y ∧ (∀ t w', y = Some (t, w') → makes lost X w t w') ∧ (y = None → type ≠ DEFEND)) as Hno by (intros x -> Ht; by exists None).
  assert (∀ t, g = Some t → ∃ y, Some (Some (t, w)) = Some y ∧ (∀ t w', y = Some (t, w') → makes lost X w t w') ∧ (y = None → type ≠ DEFEND)) as Hgd.
  { intros t Ht. eexists. split; [done|]. split; [|done]. intros t0 w0 [= <- <-]. by apply Hguard. }
  unfold make_special. destruct type; try (by apply Hno).
  - rewrite Hg. simpl. destruct g as [t|]; [by apply Hgd|]. by apply Hmk, EnqueueDefend_makes.
  - destruct (GetTasks_ok lost X SCOUT w W) as (Y & -> & _). simpl. destruct (_ && _); [by apply Hmk, EnqueueTask_makes|].
    rewrite Hg. simpl. destruct g as [t|]; [by apply Hgd|]. destruct (GetTasks_ok lost X RAID w W) as (Z & -> & _). simpl.
    case_bool_decide; [by apply Hmk, EnqueueDefend_makes|by apply Hno].
  - destruct (_ && _); [by apply Hmk, EnqueueTask_makes|by apply Hno].
Qed.

Lemma types_enqueues role type : types role = Some type → type ≠ DEFEND → promotes type = true.
Proof.
  intros Ht Hn. destruct type; try done; exfalso; revert Ht; unfold types; repeat case_match; done.
Qed.
Lemma DefaultMakeTask_ok lost X u U w :
  world_ok lost X w → units w !! u = Some U → ∃ t w', DefaultMakeTask u w = Some (t, w') ∧ makes lost X w t w'.
Proof.
  intros W HU. unfold DefaultMakeTask. rewrite HU. simpl.
  destruct (GetTasks_ok lost X ATTACK w W) as (Y & -> & _). destruct (GetTasks_ok lost X DEFEND w W) as (Y' & -> & _). simpl.
  destruct (IsRoleSupport (u_def U)).
  - destruct (_ && _); [|by apply EnqueueTask_makes].
    destruct (EnqueueDefend_ok lost X ATTACK SUPPORT minAttackers w W eq_refl) as (t & w' & f & H1 & H2 & H3 & Hf).
    exists t, w'. split; [done|]. eapply makes_new; [|done..]. by rewrite Hf.
  - destruct (types _) as [type|] eqn:Ht.
    + destruct (make_special_ok lost X (u_def U) type w W) as (x & -> & Hx & Hn). simpl. destruct x as [[t w']|].
      * exists t, w'. split; [done|]. by apply Hx.
      * apply EnqueueTask_makes; [done|]. eapply types_enqueues; [done|by apply Hn].
    + case_bool_decide; [by apply EnqueueDefend_makes|by apply EnqueueTask_makes].
Qed.
End new.
