(* ===== verification/TaskMove.v ===== *)
(** * TaskMove: a unit changes its task

    [ITaskManager::AssignTask]: a unit leaves the task it is in, which may end by that, and joins
    another one; the units of the first task that is stopped in between idle.  [evolves] is what any
    sequence of operations on tasks leaves of units and tasks. *)

From stdpp Require Import sorting.
From S2P Require Import Prelude Float32 EnemyUnit ActionList TaskData TaskCore TaskClasses TaskTheory TaskInvariant TaskSteps.
From S2P Require Import TaskStop TaskLeave TaskNew TaskJoin MilitaryTasks.

Open Scope circuit_scope.

Section move.
Context {E : Engine} {H : Heap} {TE : TaskEngine}.

(** ** What stays *)

Record evolves (w w' : World) : Prop := {
  ev_task t T : tasks w !! t = Some T → ∃ T', tasks w' !! t = Some T' ∧ manager T' = manager T ∧ class_of (kind T') = class_of (kind T) ∧
    (isDead T = true → isDead T' = true);
  ev_unit u U : units w !! u = Some U → ∃ U', units w' !! u = Some U' ∧ u_id U' = u_id U ∧ u_def U' = u_def U ∧
    u_manager U' = u_manager U ∧ u_isDead U' = u_isDead U ∧ u_hasShield U' = u_hasShield U ∧ (is_Some (u_task U) → is_Some (u_task U'));
  ev_heads : same_heads w w';
  ev_team : teamUnits w' = teamUnits w;
  ev_frame : lastFrame w' = lastFrame w
}.
Lemma evolves_refl w : evolves w w.
Proof. split; try done; [intros t T HT; by exists T|intros u U HU; by exists U]. Qed.
Lemma evolves_trans w1 w2 w3 : evolves w1 w2 → evolves w2 w3 → evolves w1 w3.
Proof.
  intros [A1 A2 A3 A4 A5] [B1 B2 B3 B4 B5]. split; try congruence.
  - intros t T HT. destruct (A1 _ _ HT) as (T2 & H2 & P1 & P2 & P3). destruct (B1 _ _ H2) as (T3 & H3 & Q1 & Q2 & Q3).
    exists T3. split_and!; try congruence. auto.
  - intros u U HU. destruct (A2 _ _ HU) as (U2 & H2 & P1 & P2 & P3 & P4 & P5 & P6). destruct (B2 _ _ H2) as (U3 & H3 & Q1 & Q2 & Q3 & Q4 & Q5 & Q6).
    exists U3. split_and!; try congruence. auto.
  - by eapply same_heads_trans.
Qed.
Lemma changes_evolves Q w w' : changes Q w w' → evolves w w'.
Proof.
  intros [A1 A2 AF A3 A4 A5 A6 A7]. split; try done.
  { intros t T HT. destruct (A1 _ _ HT) as (T' & H1 & H2 & H3 & H4 & _). by exists T'. }
  intros u U HU. destruct (A4 _ _ HU) as (U' & H1 & H2 & H3 & H4 & H5 & H6 & H7). exists U'.
  split_and!; try done. by destruct H7 as [->|(m & _ & ->)].
Qed.
Lemma joined_evolves lost t u T U w w' : tasks w !! t = Some T → units w !! u = Some U → isDead T = false → joined lost t u T U w w' → evolves w w'.
Proof.
  intros HT HU Hd [J1 J2 J3 J4 J5 JF J6 J7 J8 J9]. split; try done.
  - intros t' T' HT'. destruct (decide (t' = t)) as [->|Hn].
    + assert (T' = T) as -> by congruence. destruct J2 as (T1 & H1 & H2 & H3 & H4 & _). exists T1. split_and!; congruence.
    + destruct (J4 _ _ HT' Hn) as (T1 & H1 & H2 & H3 & H4 & _). exists T1. split_and!; congruence.
  - intros v V HV. destruct (decide (v = u)) as [->|Hn].
    + assert (V = U) as -> by congruence. destruct J3 as (U' & H1 & H0 & H2 & H3 & H4 & H5 & H6). exists U'. by split_and!.
    + rewrite J6 by done. by exists V.
Qed.
Lemma grows_evolves w w' : grows w w' → evolves w w'.
Proof.
  intros [G1 G2 G3 G4 G5 G6]. split; try done; [intros t T HT; exists T; auto|]. intros u U HU. rewrite G3. by exists U.
Qed.
Lemma ended_evolves t T w w' : ended t T w w' → evolves w w'.
Proof.
  intros [[S1 S2 S3 S4 S5 S6] _ _ _]. split; try done.
  - intros t' T' HT'. destruct (S1 _ _ HT') as (T1 & H1 & H2 & H3 & _ & H5 & _). by exists T1.
  - intros u U HU. destruct (S3 _ _ HU) as (U' & H1 & H2 & H3 & H4 & H5 & H6 & H7). exists U'.
    split_and!; try done. by destruct H7 as [->|(m & _ & ->)].
Qed.

(** ** A unit leaves the idle task *)

Lemma RP_same_idle w w' i I I' : tasks w !! i = Some I → class_of (kind I) = C_IDLE → repairer_of I' = repairer_of I → tasks w' = <[i := I']> (tasks w) → RP w' = RP w.
Proof. intros HI _ HR Hw. by eapply RP_insert_kept. Qed.

Lemma Idle_leaves lost u U m w :
  world_ok lost ∅ w → units w !! u = Some U → u_task U = Some (idleTask w m) → u_manager U = Some m → u_isDead U = false →
  ∃ w', Idle_RemoveAssignee (idleTask w m) u w = Some w' ∧ world_ok ({[u]} ∪ lost) ∅ w' ∧ evolves w w' ∧
    units w' = <[u := ClearAct U]> (units w) ∧ (∃ I, tasks w' = <[idleTask w m := I]> (tasks w) ∧ u ∉ t_units I ∧ class_of (kind I) = C_IDLE) ∧ builder w' = builder w.
Proof.
  intros W HU Ht Hm Hg. pose proof (wo_owned _ _ _ W) as O. destruct (idle_task _ _ m O) as (I & X & n & HI & HIk & HIm & HId & _).
  assert (class_of (kind I) = C_IDLE) as HIc by (by rewrite HIk).
  unfold Idle_RemoveAssignee, upd_task, upd_unit. rewrite HI. simpl. rewrite HU. simpl.
  set (i := idleTask w m) in *. set (w' := set_units _ _). destruct (erase_idle_facts u I HIc) as (F1 & F2 & F3).
  assert (manager (erase_idle u I) = manager I ∧ isDead (erase_idle u I) = isDead I ∧ class_of (kind (erase_idle u I)) = C_IDLE) as (F4 & F5 & F6).
  { unfold erase_idle. case_bool_decide; [|done]. simpl. by rewrite HIk. }
  assert (TC w' = TC w) as HC by (by eapply (TC_insert w w' i I (erase_idle u I))).
  assert (RP w' = RP w) as HR by (by eapply (RP_same_idle w w' i I (erase_idle u I))).
  assert (dropped u w w') as HD.
  { split; [|unfold US; simpl; rewrite fmap_insert; apply insert_id; by rewrite lookup_fmap, HU|done].
    intros t. rewrite !TS_lookup. simpl. destruct (decide (t = i)) as [->|Hn].
    - rewrite lookup_insert_eq, HI. simpl. unfold erase_idle, task_skel. rewrite HIk. case_bool_decide as Hin; simpl; [done|].
      rewrite HIk. simpl. rewrite (difference_absent u (t_units I)), (difference_absent u X); [done| |done]. intros Hx. pose proof (own_waiting _ _ O _ _ (skel_of_task _ _ _ HI)) as Hw.
      simpl in Hw. rewrite HIk in Hw. simpl in Hw. set_solver.
    - rewrite lookup_insert_ne by done. destruct (tasks w !! t) as [T|] eqn:HT; [|done]. simpl. unfold task_skel at 1. do 2 f_equal; symmetry; apply difference_absent.
      + intros Hx. apply Hn. eapply (task_is_unique lost w u U i t); done.
      + intros Hx. apply Hn. pose proof (own_waiting _ _ O _ _ (skel_of_task _ _ _ HT)) as Hw. eapply (task_is_unique lost w u U i t); [done..|]. by apply Hw. }
  exists w'. split_and!; [done| | |done| |done].
  - eapply (world_ok_keeps lost ∅ _ ∅ w w'); try done; [| by rewrite HR|by apply lists_kept_same| | |].
    + eapply (owned_dropped lost u _ i _ w w' O HD); [by apply skel_of_unit|done|by apply skel_of_task|done].
    + eapply (unit_kept_insert ∅ w w' u U (ClearAct U)); try done. by left.
    + intros t T HT. simpl in HT. destruct (decide (t = i)) as [->|Hn]; [|rewrite lookup_insert_ne in HT by done; by left].
      rewrite lookup_insert_eq in HT. injection HT as <-. right. eapply (idle_changes lost ∅ ∅ _ w i I); try done. by injection F1.
    + intros v V HV. simpl in HV. destruct (decide (v = u)) as [->|Hn]; [|rewrite lookup_insert_ne in HV by done; by left].
      rewrite lookup_insert_eq in HV. injection HV as <-. right. split; [apply (wo_defs _ _ _ W _ _ HU)|].
      intros t c Ht' Hc Hi. simpl in Ht'. assert (t = i) as -> by congruence. rewrite (core_of_task _ _ _ HI) in Hc. injection Hc as <-.
      simpl in Hi. by rewrite kclass_kcore, HIc in Hi.
  - split; try done.
    + intros t T HT. simpl. destruct (decide (t = i)) as [->|Hn]; [|rewrite lookup_insert_ne by done; by exists T].
      rewrite lookup_insert_eq. assert (T = I) as -> by congruence. exists (erase_idle u I). split_and!; congruence.
    + intros v V HV. simpl. destruct (decide (v = u)) as [->|Hn]; [|rewrite lookup_insert_ne by done; by exists V].
      rewrite lookup_insert_eq. assert (V = U) as -> by congruence. by eexists.
  - eexists. split; [done|]. split; [|done]. unfold erase_idle. case_bool_decide as Hin; simpl; [|done]. intros [_ Hx]%elem_of_difference. by apply Hx, elem_of_singleton.
Qed.

(** ** A unit is given to another task *)

(** The unit [u] can be given to [t]: it is in another task, and [t] is no repair (a repair may end when
    its target leaves the task it is in). *)
Record may_switch (t u : Z) (T : IUnitTask) (U : CCircuitUnit) (w : World) : Prop := {
  ms_task : tasks w !! t = Some T;
  ms_unit : units w !! u = Some U;
  ms_idle : class_of (kind T) ≠ C_IDLE;
  ms_nil : class_of (kind T) ≠ C_NIL;
  ms_repair : class_of (kind T) ≠ C_REPAIR;
  ms_live : isDead T = false;
  ms_manager : u_manager U = Some (manager T);
  ms_gone : u_isDead U = false;
  ms_from : ∃ t0 T0, u_task U = Some t0 ∧ tasks w !! t0 = Some T0 ∧ t0 ≠ t ∧ class_of (kind T0) ≠ C_NIL;
  ms_retreat : class_of (kind T) = C_RETREAT → t_units T = ∅
}.
(** What other units see of it: they stay where they are, or idle. *)
Definition stays (w w' : World) (v : Z) (V : CCircuitUnit) : Prop :=
  ∃ V', units w' !! v = Some V' ∧ (u_task V' = u_task V ∨ ∃ m, u_manager V = Some m ∧ u_task V' = Some (idleTask w m)).
(** The squad [t] has no leader, or one that exists. *)
Definition lead_known (t : Z) (w : World) : Prop := ∀ T f l, tasks w !! t = Some T → kind T = FighterTask f → is_squad (fightType f) = true →
  leader (squad f) = Some l → is_Some (units w !! l).
Record switched (t u : Z) (T : IUnitTask) (w w' : World) : Prop := {
  sw_world : world_ok ∅ ∅ w';
  sw_evolves : evolves w w';
  sw_task : ∃ T', tasks w' !! t = Some T' ∧ isDead T' = false ∧ manager T' = manager T ∧ class_of (kind T') = class_of (kind T) ∧ t_units T' = {[u]} ∪ t_units T;
  sw_fills : fills w w';
  sw_unit : ∃ U', units w' !! u = Some U' ∧ u_task U' = Some t;
  sw_others v V : v ≠ u → units w !! v = Some V → stays w w' v V;
  sw_leaders t' : t' ≠ t → is_Some (tasks w !! t') → lead_known t' w → lead_known t' w'
}.

(** The task of a unit belongs to the unit's manager, and is known. *)
Lemma unit_task lost X w u U t : world_ok lost X w → units w !! u = Some U → u_task U = Some t →
  ∃ T, tasks w !! t = Some T ∧ u_manager U = Some (manager T).
Proof.
  intros W HU Ht. destruct (own_task _ _ (wo_owned _ _ _ W) _ _ _ (skel_of_unit _ _ _ HU) Ht) as (S & HS & Hm & _).
  destruct (task_of_skel _ _ _ HS) as (T & HT & ->). by exists T.
Qed.
Lemma idle_is_head lost X w t T : world_ok lost X w → tasks w !! t = Some T → class_of (kind T) = C_IDLE → t = idleTask w (manager T).
Proof. intros W HT Hc. by apply (own_head _ _ (wo_owned _ _ _ W) t (task_skel T)); [apply skel_of_task|]. Qed.
(** A task with units is alive. *)
Lemma member_live lost w u t T : world_ok lost ∅ w → tasks w !! t = Some T → u ∈ t_units T → isDead T = false.
Proof.
  intros W HT Hin. destruct (isDead T) eqn:Hd; [|done]. destruct (wo_tasks _ _ _ W _ _ HT) as [G _].
  destruct (G (not_elem_of_empty _)) as [G1 _]. rewrite G1 in Hin by done. by apply not_elem_of_empty in Hin.
Qed.
Lemma repairer_task lost X w t0 T0 r R t T :
  world_ok lost X w → tasks w !! t0 = Some T0 → isDead T0 = false → repairer_of T0 = Some r → units w !! r = Some R → u_task R = Some t →
  tasks w !! t = Some T → class_of (kind T) = C_REPAIR.
Proof.
  intros W HT0 Hd Hr HR Ht HT. destruct (link_retreat _ _ _ _ (wo_links _ _ _ W) t0 (task_core T0) r) as (R' & tr & c & v & id & G1 & G2 & G3 & G4 & G5 & _);
    [by apply core_of_task|done| |].
  - apply RP_lookup. exists T0. split; [done|]. unfold repairer_of in Hr. destruct (kind T0); try discriminate. by subst.
  - rewrite (core_of_unit _ _ _ HR) in G1. injection G1 as <-. simpl in G2. assert (tr = t) as -> by congruence.
    rewrite (core_of_task _ _ _ HT) in G3. injection G3 as <-. simpl in G5. rewrite <-kclass_kcore, G5. done.
Qed.

(** *** Leaders that exist *)

Lemma evolves_known w w' l : evolves w w' → is_Some (units w !! l) → is_Some (units w' !! l).
Proof. intros Ev [L HL]. destruct (ev_unit _ _ Ev _ _ HL) as (L' & HL' & _). by exists L'. Qed.
Lemma lead_known_same t T T' w w' : evolves w w' → tasks w !! t = Some T → tasks w' !! t = Some T' → fighter_of T' = fighter_of T → lead_known t w → lead_known t w'.
Proof.
  intros Ev HT HT' Hf Hl T1 f l HT1 Hk Hs Hld. assert (T1 = T') as -> by congruence. unfold fighter_of in Hf. rewrite Hk in Hf.
  eapply evolves_known; [done|]. destruct (kind T) as [| | | | |f0] eqn:Hk0; try discriminate. injection Hf as ->. by eapply Hl.
Qed.
Lemma other_class_known t T w : tasks w !! t = Some T → (∀ f, class_of (kind T) ≠ C_FIGHTER f) → lead_known t w.
Proof. intros HT Hc T1 f l HT1 Hk. assert (T1 = T) as -> by congruence. rewrite Hk in Hc. by destruct (Hc (fightType f)). Qed.
Lemma member_unit lost w t T u : owned_ok lost w → tasks w !! t = Some T → u ∈ t_units T → ∃ U, units w !! u = Some U ∧ u_task U = Some t ∧ u_isDead U = false.
Proof.
  intros O HT Hin. destruct (own_member _ _ O _ _ u (skel_of_task _ _ _ HT) Hin) as (S & HS & H1 & H2).
  destruct (unit_of_skel _ _ _ HS) as (U & HU & ->). by exists U.
Qed.
Lemma left_known lost t u T U w w' :
  world_ok lost ∅ w → may_release t u T U w → left_task lost t u T w w' → ∀ t', is_Some (tasks w !! t') → lead_known t' w → lead_known t' w'.
Proof.
  intros W M [L1 L2 L3 L4 L5] t' [T' HT'] Hl. pose proof (changes_evolves _ _ _ L2) as Ev. destruct (ch_task _ _ _ L2 _ _ HT') as (T1 & HT1 & _ & Hc & _).
  assert (repairs_for t T w t' ∨ ¬ repairs_for t T w t') as [[->|(r & R & Hr & HR & Ht)]|Hn].
  { destruct (decide (t' = t)) as [->|Hne]; [by left; left|]. destruct (repairer_of T) as [r|] eqn:Hr; [|by right; intros [?|(r1 & R1 & ? & _)]; congruence].
    destruct (units w !! r) as [R|] eqn:HR; [|right; intros [?|(r1 & R1 & ? & ? & _)]; congruence].
    destruct (decide (u_task R = Some t')); [left; right; by exists r, R|]. right. intros [?|(r1 & R1 & ? & ? & ?)]; congruence. }
  - intros T2 f l HT2 Hk Hs Hld. destruct M as [M1 M2 M3 M4 M5]. assert (T' = T) as -> by congruence. specialize (L5 T2 HT2 f l Hk Hs Hld).
    destruct (member_unit _ _ _ _ _ (wo_owned _ _ _ W) M1 L5) as (L & HL & _). eapply evolves_known; [done|by exists L].
  - assert (class_of (kind T') = C_REPAIR) as Hcr.
    { destruct M as [M1 M2 M3 M4 M5]. eapply (repairer_task lost ∅ w t T r R t' T'); try done. destruct (isDead T) eqn:Hd; [|done].
      destruct (wo_tasks _ _ _ W _ _ M1) as [G _]. destruct (G (not_elem_of_empty _)) as [G1 _]. specialize (G1 Hd).
      unfold repairer_of in Hr. destruct (kind T) as [| | |rp| |] eqn:Hk; try discriminate.
      destruct (member_of _ _ _ _ _ _ (wo_owned _ _ _ W) M2 M5 M1) as [_ Hin]; [by rewrite Hk..|]. rewrite G1 in Hin. by apply not_elem_of_empty in Hin. }
    eapply other_class_known; [done|]. intros f. by rewrite Hc, Hcr.
  - refine (lead_known_same t' T' T1 w w' Ev HT' HT1 _ Hl). by eapply (ch_fighter _ _ _ L2).
Qed.

(** *** Nobody is left without units *)

Lemma fills_rests w w' :
  (∀ t T', tasks w' !! t = Some T' → ∃ T, tasks w !! t = Some T ∧ class_of (kind T') = class_of (kind T) ∧ (isDead T = true → isDead T' = true) ∧
     (isDead T' = false → ends_empty (class_of (kind T)) = true → t_units T' = ∅ → rests t T w')) → fills w w'.
Proof.
  intros Hb t (T' & HT' & Hd & He & Hu). destruct (Hb t T' HT') as (T & HT & Hc & Hdd & Hr). rewrite Hc in He.
  assert (isDead T = false) as Hd0 by (destruct (isDead T); [by rewrite Hdd in Hd|done]). exists T. split_and!; try done.
  destruct (Hr Hd He Hu) as (T1 & HT1 & _ & Hu1). assert (T1 = T') as -> by congruence. rewrite <-Hu1; [done|]. intros Hci. by rewrite Hci in He.
Qed.
Lemma left_fills lost t u T U w w' :
  world_ok lost ∅ w → may_release t u T U w → isDead T = false → changes (repairs_for t T w) w w' →
  (∃ T', tasks w' !! t = Some T' ∧ (isDead T' = true ∧ ends_empty (class_of (kind T)) = true ∨
     isDead T' = isDead T ∧ t_units T' = t_units T ∖ {[u]} ∧ (ends_empty (class_of (kind T)) = true → t_units T' ≠ ∅))) → fills w w'.
Proof.
  intros W M Hd0 L2 (T1 & HT1 & L4). apply fills_rests. intros t' T' HT'. destruct (ch_tasks _ _ _ L2 t' T' HT') as [T2 HT2]. exists T2. split; [done|].
  destruct (ch_task _ _ _ L2 t' T2 HT2) as (T3 & HT3 & _ & H2 & H3 & _). assert (T3 = T') as -> by congruence. split_and!; try done.
  intros Hd He Hu. apply (ch_rest _ _ _ L2 t' T2 HT2). intros [->|(r & R & Hr & HR & Hrt)].
  - assert (T1 = T') as -> by congruence. assert (T2 = T) as -> by (destruct M; congruence). destruct L4 as [[? _]|(_ & _ & L4)]; [congruence|by apply L4].
  - rewrite (repairer_task lost ∅ w t T r R t' T2) in He; try done. by destruct M.
Qed.
Lemma settles_fills w w' : settles w w' → fills w w'.
Proof.
  intros [S1 S2 _ _ _ _] t (T' & HT' & Hd & He & Hu). destruct (S2 t T' HT') as [[T HT] _]. destruct (S1 t T HT) as (T1 & HT1 & _ & Hc & _ & Hdd & Hr & _).
  assert (T1 = T') as -> by congruence. rewrite Hc in He. exists T. split_and!; [done|by destruct (isDead T); [rewrite Hdd in Hd|]|done|].
  destruct Hr as [<- _]; [done|by intros Hi; rewrite Hi in He|done].
Qed.
Lemma idle_fills i I w w' : class_of (kind I) = C_IDLE → tasks w' = <[i := I]> (tasks w) → fills w w'.
Proof.
  intros Hc HT t (T & HT' & Hd & He & Hu). rewrite HT in HT'. destruct (decide (t = i)) as [->|Hn].
  - rewrite lookup_insert_eq in HT'. injection HT' as <-. by rewrite Hc in He.
  - rewrite lookup_insert_ne in HT' by done. by exists T.
Qed.

(** What an event leaves of units and tasks: it leaves no task without units that had some. *)
Record goes (w w' : World) : Prop := {
  go_evolves :> evolves w w';
  go_fills : fills w w'
}.
Lemma goes_refl w : goes w w.
Proof. split; [apply evolves_refl|apply fills_refl]. Qed.
Lemma goes_trans w1 w2 w3 : goes w1 w2 → goes w2 w3 → goes w1 w3.
Proof. intros [A1 A2] [B1 B2]. split; [by eapply evolves_trans|by eapply fills_trans]. Qed.
(** No task that needs units is without. *)
Definition manned (w : World) : Prop := ∀ t, ¬ vacant w t.
Lemma manned_fills w w' : manned w → fills w w' → manned w'.
Proof. intros M F t Hv. by apply (M t), F. Qed.
(** The one task that is new has got a unit. *)
Lemma manned_new t u w w1 w' :
  manned w → (∀ t' T', tasks w1 !! t' = Some T' → t' = t ∨ tasks w !! t' = Some T') → fills w1 w' →
  (∃ T, tasks w' !! t = Some T ∧ u ∈ t_units T) → manned w'.
Proof.
  intros M Hn F (T & HT & Hu) t' Hv. destruct (decide (t' = t)) as [->|Hne].
  - destruct Hv as (T' & HT' & _ & _ & He). assert (T' = T) as -> by congruence. rewrite He in Hu. by apply not_elem_of_empty in Hu.
  - destruct (F _ Hv) as (T' & HT' & Hrest). destruct (Hn t' T' HT') as [->|HT0]; [done|]. apply (M t'). by exists T'.
Qed.
Lemma ended_goes t T w w' : ended t T w w' → goes w w'.
Proof. intros He. split; [by eapply ended_evolves|apply settles_fills, He]. Qed.

(** The first half: the unit idles and [t] is as before. *)
Lemma switch_away t u T U w :
  world_ok ∅ ∅ w → may_switch t u T U w →
  ∃ t0 w1 U1 T1 lost, u_task U = Some t0 ∧ RemoveAssignee t0 u w = Some w1 ∧ world_ok lost ∅ w1 ∧ lost ⊆ {[u]} ∧ evolves w w1 ∧
    may_assign t u T1 U1 w1 ∧ manager T1 = manager T ∧ class_of (kind T1) = class_of (kind T) ∧ t_units T1 = t_units T ∧
    (∀ v V, v ≠ u → units w !! v = Some V → stays w w1 v V) ∧ fills w w1 ∧ (∀ t', is_Some (tasks w !! t') → lead_known t' w → lead_known t' w1).
Proof.
  intros W [M1 M2 M3 M4 M5 M6 M7 M8 (t0 & T0 & Ht0 & HT0 & Hn0 & Hc0) _].
  destruct (unit_task _ _ _ _ _ _ W M2 Ht0) as (T0' & HT0' & Hm0). assert (T0' = T0) as -> by congruence.
  assert (manager T0 = manager T) as HmT by congruence. exists t0. destruct (decide (class_of (kind T0) = C_IDLE)) as [Hi|Hi].
  - pose proof (idle_is_head _ _ _ _ _ W HT0 Hi) as Hhead. rewrite HmT in Hhead.
    destruct (Idle_leaves ∅ u U (manager T) w) as (w1 & H1 & W1 & E1 & HU1 & (I & HI1 & _ & HIc) & _); [done|done|congruence|done..|].
    exists w1, (ClearAct U), T, ({[u]} ∪ ∅). assert (tasks w1 !! t = Some T) as HT1 by (rewrite HI1, lookup_insert_ne; congruence).
    split_and!; try done.
    + unfold RemoveAssignee. rewrite HT0. simpl. rewrite <-Hhead in H1. destruct (kind T0); try discriminate. done.
    + set_solver.
    + split; try done; [by rewrite HU1, lookup_insert_eq|]. simpl. destruct (ev_heads _ _ E1 (manager T)) as (-> & _). congruence.
    + intros v V Hv HV. exists V. rewrite HU1, lookup_insert_ne by done. split; [done|]. by left.
    + by eapply idle_fills.
    + intros t' [T' HT'] Hl. destruct (decide (t' = idleTask w (manager T))) as [->|Hne].
      * eapply (other_class_known _ I); [by rewrite HI1, lookup_insert_eq|by rewrite HIc].
      * by refine (lead_known_same t' T' T' w w1 E1 HT' _ eq_refl Hl); rewrite HI1, lookup_insert_ne.
  - assert (may_release t0 u T0 U w) as MR by done.
    destruct (RemoveAssignee_leaves ∅ t0 u T0 U w W MR Hc0) as (w1 & H1 & LT). pose proof LT as [L1 L2 (U1 & HU1 & Ht1) L4 _].
    destruct (member_of _ _ _ _ _ _ (wo_owned _ _ _ W) M2 Ht0 HT0 Hc0 Hi) as [_ Hin].
    pose proof (member_live _ _ _ _ _ W HT0 Hin) as Hd0.
    assert (¬ repairs_for t0 T0 w t) as Hnr.
    { intros [->|(r & R & Hr & HR & Hrt)]; [done|]. apply M5. by eapply (repairer_task _ _ w t0 T0 r R t T). }
    destruct (ch_rest _ _ _ L2 t T M1 Hnr) as (T1 & HT1 & Hd1 & Hu1). destruct (ch_task _ _ _ L2 t T M1) as (T1' & HT1' & Hm1 & Hc1 & _).
    assert (T1' = T1) as -> by congruence. destruct (ch_unit _ _ _ L2 u U M2) as (U1' & HU1' & _ & _ & Hm1' & Hg1 & _).
    assert (U1' = U1) as -> by congruence.
    exists w1, U1, T1, (∅ ∖ {[u]}). split_and!; try done; [set_solver|by eapply changes_evolves| |by apply Hu1| | |].
    + split; try done; [congruence..|]. rewrite Ht1, HmT, Hm1. by destruct (ch_heads _ _ _ L2 (manager T)) as (-> & _).
    + intros v V Hv HV. destruct (ch_unit _ _ _ L2 v V HV) as (V' & HV' & _ & _ & _ & _ & _ & Ht'). by exists V'.
    + by eapply (left_fills ∅ t0 u T0 U w w1 W MR Hd0).
    + by eapply (left_known ∅ t0 u T0 U).
Qed.

Lemma switch_ok t u T U w :
  world_ok ∅ ∅ w → may_switch t u T U w →
  ∃ t0 w1 w2, u_task U = Some t0 ∧ RemoveAssignee t0 u w = Some w1 ∧ AssignTo t u w1 = Some w2 ∧ switched t u T w w2.
Proof.
  intros W M. destruct (switch_away t u T U w W M) as (t0 & w1 & U1 & T1 & lost & H0 & H1 & W1 & Hl & E1 & M1 & Hm1 & Hc1 & Hu1 & Hst & HF & Hld).
  destruct (AssignTo_joins lost t u T1 U1 w1 W1 M1) as (w2 & H2 & J).
  { rewrite Hc1, Hu1. apply (ms_retreat _ _ _ _ _ M). }
  exists t0, w1, w2. split_and!; try done. split.
  - pose proof (jn_world _ _ _ _ _ _ _ J) as W2. by replace (lost ∖ {[u]}) with (∅ : gset Z) in W2 by set_solver.
  - eapply evolves_trans; [done|]. eapply joined_evolves; [apply M1..|exact J].
  - destruct (jn_task _ _ _ _ _ _ _ J) as (T2 & HT2 & F1 & F2 & F3 & F4). exists T2. split_and!; congruence.
  - eapply fills_trans; [done|apply (jn_fills _ _ _ _ _ _ _ J)].
  - destruct (jn_unit _ _ _ _ _ _ _ J) as (U2 & HU2 & F1 & _). by exists U2.
  - intros v V Hv HV. destruct (Hst v V Hv HV) as (V1 & HV1 & Ht1). exists V1. rewrite (jn_units _ _ _ _ _ _ _ J) by done. done.
  - intros t' Hne Ht' Hk. specialize (Hld t' Ht' Hk). destruct Ht' as [T' HT']. destruct (ev_task _ _ E1 _ _ HT') as (T1' & HT1' & _).
    destruct (jn_rest _ _ _ _ _ _ _ J _ _ HT1' Hne) as (T2 & HT2 & _ & Hc2 & _ & Heq). destruct (decide (class_of (kind T1') = C_IDLE)) as [Hi|Hi].
    + eapply (other_class_known _ T2); [done|]. by rewrite Hc2, Hi.
    + assert (T2 = T1') as -> by auto. refine (lead_known_same t' T1' T1' w1 w2 _ HT1' HT2 eq_refl Hld). eapply joined_evolves; [apply M1..|exact J].
Qed.

(** [AssignTask], up to the [Start] of the task. *)
Lemma AssignTask_switch start t u T U w :
  world_ok ∅ ∅ w → may_switch t u T U w → ∃ w', AssignTask start u t w = start t u w' ∧ switched t u T w w'.
Proof.
  intros W M. destruct (switch_ok t u T U w W M) as (t0 & w1 & w2 & H0 & H1 & H2 & S). exists w2. split; [|done].
  unfold AssignTask. rewrite (ms_unit _ _ _ _ _ M). simpl. rewrite H0. simpl. rewrite H1. simpl. by rewrite H2.
Qed.
End move.
