(* ===== verification/TaskCalm.v ===== *)
(** * TaskCalm: what tasks do on their own

    Most of what a task does between events, looking for a target, sending its units about, asking
    for paths, leaves who works where alone.  [calm] is what such a step may change, the invariant of
    the task system holds across it ([calm_world]), and the steps of the model are calm: the fields of
    a fighter's plan, its target ([IFighterTask::SetTarget]), the actions and flags of units; so are
    the comings and goings of enemies. *)

From stdpp Require Import sorting.
From S2P Require Import Prelude Float32 EnemyUnit ActionList TaskData TaskCore TaskClasses TaskTheory TaskInvariant TaskSteps.
From S2P Require Import TaskStop TaskLeave TaskNew TaskJoin MilitaryTasks TaskMove.

Open Scope circuit_scope.

(** ** Calm steps *)

(** A fighter's numbers, plans and target may change, who is in it and who leads it may not. *)
Definition calm_kind (X : gset Z) (k k' : Kind) : Prop :=
  match k, k' with
  | FighterTask f, FighterTask f' =>
      fightType f' = fightType f ∧ promote f' = promote f ∧ leader (squad f') = leader (squad f) ∧ shields f' = shields f ∧ cowards f' ⊆ cowards f ∪ X
  | _, _ => k' = k
  end.
Record calm_task (T T' : IUnitTask) : Prop := {
  ca_manager : manager T' = manager T;
  ca_dead : isDead T' = isDead T;
  ca_units : t_units T' = t_units T;
  ca_queries : isDead T = false → dom (pathQueries T') ⊆ dom (pathQueries T) ∪ t_units T;
  ca_idle : class_of (kind T) = C_IDLE → pathQueries T' = pathQueries T;
  ca_kind : calm_kind (t_units T) (kind T) (kind T')
}.
Record calm (w w' : World) : Prop := {
  cm_task t T : tasks w !! t = Some T → ∃ T', tasks w' !! t = Some T' ∧ calm_task T T';
  cm_tasks t T' : tasks w' !! t = Some T' → is_Some (tasks w !! t);
  cm_unit u U : units w !! u = Some U → ∃ U', units w' !! u = Some U' ∧ ukept U U';
  cm_units u U' : units w' !! u = Some U' → is_Some (units w !! u);
  cm_targets : targets_ok (TC w) (enemies w) → targets_ok (TC w') (enemies w');
  cm_military : military w' = military w;
  cm_builder : builder w' = builder w;
  cm_team : teamUnits w' = teamUnits w;
  cm_frame : lastFrame w' = lastFrame w
}.

Lemma calm_kind_refl X k : calm_kind X k k.
Proof. destruct k; try done. simpl. split_and!; try done. set_solver. Qed.
Lemma calm_kind_class X k k' : calm_kind X k k' → class_of k' = class_of k.
Proof. destruct k, k'; simpl; try congruence. intros (-> & _). done. Qed.
Lemma calm_kind_trans X k1 k2 k3 : calm_kind X k1 k2 → calm_kind X k2 k3 → calm_kind X k1 k3.
Proof.
  destruct k1, k2; simpl; try (by intros ?; simplify_eq; destruct k3); destruct k3; simpl; try congruence.
  intros (A1 & A2 & A3 & A4 & A5) (B1 & B2 & B3 & B4 & B5). split_and!; try congruence. set_solver.
Qed.
Lemma calm_task_refl T : calm_task T T.
Proof. split; try done; [set_solver|apply calm_kind_refl]. Qed.
Lemma calm_task_class T T' : calm_task T T' → class_of (kind T') = class_of (kind T).
Proof. intros C. by eapply calm_kind_class, C. Qed.
Lemma calm_task_trans T1 T2 T3 : calm_task T1 T2 → calm_task T2 T3 → calm_task T1 T3.
Proof.
  intros C1 C2. pose proof (calm_task_class _ _ C1) as Hc. destruct C1 as [A1 A2 A3 A4 A5 A6], C2 as [B1 B2 B3 B4 B5 B6].
  split; try congruence; [intros Hd; specialize (A4 Hd); rewrite A2, A3 in B4; specialize (B4 Hd); set_solver|intros Hi; rewrite B5, A5; congruence|]. rewrite A3 in B6. by eapply calm_kind_trans.
Qed.
Lemma calm_refl w : calm w w.
Proof. split; try done; [intros t T HT; exists T; split; [done|apply calm_task_refl]|intros u U HU; by exists U]. Qed.
Lemma calm_trans w1 w2 w3 : calm w1 w2 → calm w2 w3 → calm w1 w3.
Proof.
  intros [A1 A2 A3 A4 A5 A6 A7 A8 A9] [B1 B2 B3 B4 B5 B6 B7 B8 B9]. split; try congruence.
  - intros t T HT. destruct (A1 _ _ HT) as (T2 & H2 & P). destruct (B1 _ _ H2) as (T3 & H3 & Q). exists T3. split; [done|by eapply calm_task_trans].
  - intros t T HT. destruct (B2 _ _ HT) as [T2 H2]. by eapply A2.
  - intros u U HU. destruct (A3 _ _ HU) as (U2 & H2 & P). destruct (B3 _ _ H2) as (U3 & H3 & Q). exists U3. split; [done|by eapply ukept_trans].
  - intros u U HU. destruct (B4 _ _ HU) as [U2 H2]. by eapply A4.
  - auto.
Qed.

(** ** What holds across them *)

Lemma calm_TS w w' : calm w w' → TS w' = TS w.
Proof.
  intros C. apply map_eq. intros t. rewrite !TS_lookup. destruct (tasks w !! t) as [T|] eqn:HT.
  - destruct (cm_task _ _ C _ _ HT) as (T' & -> & Q). simpl. f_equal. pose proof (calm_task_class _ _ Q) as Hc. destruct Q as [Q1 Q2 Q3 _ _ Q6].
    unfold task_skel. rewrite Q1, Q2, Q3, Hc. f_equal. destruct (kind T), (kind T'); simpl in *; congruence.
  - destruct (tasks w' !! t) as [T'|] eqn:HT'; [|done]. destruct (cm_tasks _ _ C _ _ HT'). congruence.
Qed.
Lemma calm_US w w' : calm w w' → US w' = US w.
Proof.
  intros C. apply map_eq. intros u. rewrite !US_lookup. destruct (units w !! u) as [U|] eqn:HU.
  - destruct (cm_unit _ _ C _ _ HU) as (U' & -> & []). simpl. f_equal. unfold unit_skel. congruence.
  - destruct (units w' !! u) as [U'|] eqn:HU'; [|done]. destruct (cm_units _ _ C _ _ HU'). congruence.
Qed.
Lemma calm_UC w w' : calm w w' → UC w' = UC w.
Proof.
  intros C. apply map_eq. intros u. unfold UC. rewrite !lookup_fmap. destruct (units w !! u) as [U|] eqn:HU.
  - destruct (cm_unit _ _ C _ _ HU) as (U' & -> & []). simpl. f_equal. unfold unit_core. congruence.
  - destruct (units w' !! u) as [U'|] eqn:HU'; [|done]. destruct (cm_units _ _ C _ _ HU'). congruence.
Qed.
Lemma calm_RP w w' : calm w w' → RP w' = RP w.
Proof.
  intros C. apply map_eq. intros t. unfold RP. rewrite !lookup_omap. destruct (tasks w !! t) as [T|] eqn:HT.
  - destruct (cm_task _ _ C _ _ HT) as (T' & -> & Q). simpl. pose proof (ca_kind _ _ Q) as Hk. unfold repairer_of.
    destruct (kind T), (kind T'); simpl in *; congruence.
  - destruct (tasks w' !! t) as [T'|] eqn:HT'; [|done]. destruct (cm_tasks _ _ C _ _ HT'). congruence.
Qed.
Lemma calm_heads w w' : calm w w' → same_heads w w'.
Proof. intros C m. unfold idleTask, nilTask, playerTask. by rewrite (cm_military _ _ C), (cm_builder _ _ C). Qed.

(** Cores that differ in a fighter's target. *)
Definition core_calm (c c' : TCore) : Prop :=
  c_manager c' = c_manager c ∧ c_dead c' = c_dead c ∧
  match c_kind c, c_kind c' with K_FIGHTER f _ p, K_FIGHTER f' _ p' => f' = f ∧ p' = p | k, k' => k' = k end.
Definition cores_calm (C C' : gmap Z TCore) : Prop := ∀ t,
  match C !! t, C' !! t with Some c, Some c' => core_calm c c' | None, None => True | _, _ => False end.
Lemma calm_cores w w' : calm w w' → cores_calm (TC w) (TC w').
Proof.
  intros C t. unfold TC. rewrite !lookup_fmap. destruct (tasks w !! t) as [T|] eqn:HT.
  - destruct (cm_task _ _ C _ _ HT) as (T' & -> & [Q1 Q2 _ _ _ Q6]). simpl. split_and!; [done..|]. simpl.
    destruct (kind T), (kind T'); simpl in *; try congruence. by destruct Q6 as (-> & -> & _).
  - destruct (tasks w' !! t) as [T'|] eqn:HT'; [|done]. destruct (cm_tasks _ _ C _ _ HT'). congruence.
Qed.
Lemma cores_sym C C' : cores_calm C C' → cores_calm C' C.
Proof.
  intros HC t. specialize (HC t). destruct (C !! t), (C' !! t); try done. destruct HC as (H1 & H2 & H3). split_and!; [done..|].
  destruct (c_kind t0), (c_kind t1); try congruence. by destruct H3 as [-> ->].
Qed.
Lemma cores_fighter C C' t c f e p : cores_calm C C' → C !! t = Some c → c_kind c = K_FIGHTER f e p →
  ∃ c' e', C' !! t = Some c' ∧ c_manager c' = c_manager c ∧ c_dead c' = c_dead c ∧ c_kind c' = K_FIGHTER f e' p.
Proof.
  intros HC Hc Hk. specialize (HC t). rewrite Hc in HC. destruct (C' !! t) as [c'|]; [|done]. destruct HC as (H1 & H2 & H3). rewrite Hk in H3.
  destruct (c_kind c') as [| | | | |f' e' p'] eqn:Hk'; try discriminate. destruct H3 as [-> ->]. by exists c', e'.
Qed.
Lemma cores_other C C' t c : cores_calm C C' → C !! t = Some c → (∀ f e p, c_kind c ≠ K_FIGHTER f e p) → C' !! t = Some c.
Proof.
  intros HC Hc Hk. specialize (HC t). rewrite Hc in HC. destruct (C' !! t) as [c'|]; [|done]. destruct HC as (H1 & H2 & H3). f_equal.
  destruct c as [m d k], c' as [m' d' k']. simpl in *. destruct k; congruence.
Qed.
Lemma cores_updates C C' t c : cores_calm C C' → C !! t = Some c → military_updates c →
  ∃ c', C' !! t = Some c' ∧ military_updates c' ∧ c_dead c' = c_dead c.
Proof.
  intros HC Hc [Hm Hk]. destruct (c_kind c) as [| | | | |f e p] eqn:Hck; try done.
  - exists c. split_and!; [by eapply cores_other; [..|intros; congruence]| |done]. split; [done|by rewrite Hck].
  - destruct (cores_fighter _ _ _ _ _ _ _ HC Hc Hck) as (c' & e' & Hc' & Hm' & Hd' & Hk'). exists c'. split_and!; [done| |done].
    split; [congruence|by rewrite Hk'].
Qed.
Lemma military_calm C C' m : cores_calm C C' → military_ok C m → military_ok C' m.
Proof.
  intros HC [M1 M2 M3 M4 M5 M6]. pose proof (cores_sym _ _ HC) as HS. split; try done.
  - intros i X t HX. rewrite (M2 _ _ _ HX). split; intros (c & f & e & p & Hc & Hk & Hf & Hd).
    + destruct (cores_fighter _ _ _ _ _ _ _ HC Hc Hk) as (c' & e' & Hc' & _ & Hd' & Hk'). exists c', f, e', p. split_and!; congruence.
    + destruct (cores_fighter _ _ _ _ _ _ _ HS Hc Hk) as (c' & e' & Hc' & _ & Hd' & Hk'). exists c', f, e', p. split_and!; congruence.
  - intros t (c & Hc & Hu)%M4. destruct (cores_updates _ _ _ _ HC Hc Hu) as (c' & Hc' & Hu' & _). by exists c'.
  - intros t c Hc Hu Hd. destruct (cores_updates _ _ _ _ HS Hc Hu) as (c' & Hc' & Hu' & Hd'). eapply M5; [done..|congruence].
  - intros t c f e p Hc Hk. destruct (cores_fighter _ _ _ _ _ _ _ HS Hc Hk) as (c' & e' & Hc' & Hm' & _ & Hk'). destruct (M6 _ _ _ _ _ Hc' Hk'). by split; [congruence|].
Qed.
Lemma builder_calm C C' b : cores_calm C C' → builder_ok C b → builder_ok C' b.
Proof.
  intros HC [B1 B2 B3 B4 B5 B6]. pose proof (cores_sym _ _ HC) as HS.
  assert (∀ D D' t c, cores_calm D D' → D !! t = Some c → match c_kind c with K_RETREAT | K_REPAIR _ _ => True | _ => False end → D' !! t = Some c) as HO.
  { intros D D' t c HD Hc Hk. eapply cores_other; [done..|]. intros f e p Hf. by rewrite Hf in Hk. }
  assert (∀ D D' t c v id, cores_calm D D' → D !! t = Some c → c_kind c = K_REPAIR v id → D' !! t = Some c) as HR.
  { intros D D' t c v id HD Hc Hk. eapply HO; [done..|by rewrite Hk]. }
  split; try done.
  - intros t. rewrite B2. split; intros (c & Hc & Hm & Hk); exists c; (split_and!; [by eapply HO|done..]).
  - intros t. rewrite B3. split; intros (c & v & id & Hc & Hk & Hd); exists c, v, id; (split_and!; [by eapply HR|done..]).
  - intros id t. rewrite B5. split; intros (c & v & Hc & Hk & Hd); exists c, v; (split_and!; [by eapply HR|done..]).
  - intros t c v id Hc Hk. eapply B6; [by eapply HR|done].
Qed.
Lemma links_calm X C C' R U : cores_calm C C' → links_ok X C R U → links_ok X C' R U.
Proof.
  intros HC [L1 L2]. pose proof (cores_sym _ _ HC) as HS. split.
  - intros t c' r Hc' Hd Hr. pose proof (HS t) as Ht. rewrite Hc' in Ht. destruct (C !! t) as [c|] eqn:Hc; [|done].
    destruct Ht as (_ & Hd' & _). destruct (L1 t c r) as (A & tr & c1 & v & id & H1 & H2 & H3 & H4 & H5 & H6); [done|congruence|done|].
    exists A, tr, c1, v, id. split_and!; try done. eapply cores_other; [done..|]. intros f e p Hf. congruence.
  - intros t c v id Hc Hd Hk. eapply L2; [|done..]. eapply cores_other; [done..|]. intros f e p Hf. congruence.
Qed.

Lemma calm_task_ok X U t T T' : task_ok X U t T → calm_task T T' → task_ok X U t T'.
Proof.
  intros (H1 & H2 & H3) Q. pose proof (calm_task_class _ _ Q) as Hc. destruct Q as [Q1 Q2 Q3 Q4 Q5 Q6]. unfold task_ok, led. rewrite Q2, Q3. split_and!.
  - intros Hn. destruct (H1 Hn) as [G1 G2]. split; [done|]. intros Hd f' Hf' Hs. rewrite Hf' in Q6.
    destruct (kind T) as [| | | | |f] eqn:Hf; try discriminate. destruct Q6 as (E1 & _ & -> & _). apply (G2 Hd f Hf). congruence.
  - intros Hd. specialize (H2 Hd). specialize (Q4 Hd). set_solver.
  - destruct (kind T) as [| | | | |f] eqn:Hf, (kind T') as [| | | | |f'] eqn:Hf'; try discriminate; try done.
    + rewrite Q5; [done|done].
    + intros Hd. destruct (H3 Hd) as [G1 G2]. destruct Q6 as (_ & _ & _ & -> & G3). split; [set_solver|done].
Qed.
Lemma ukept_acts c U U' : ukept U U' → acts_ok c U → acts_ok c U'.
Proof. intros [] HA Hi. destruct (HA Hi) as (A1 & A2 & A3). split_and!; auto. Qed.

Lemma calm_world lost X w w' : world_ok lost X w → calm w w' → world_ok lost X w'.
Proof.
  intros [W1 W2 W3 W4 W5 W6 W7 W8 W9] C. pose proof (calm_cores _ _ C) as HC. split.
  - eapply owned_same; [|exact W1]. split; [by apply calm_TS|by apply calm_US|by apply calm_heads].
  - intros t T' HT'. rewrite (calm_UC _ _ C). destruct (cm_tasks _ _ C _ _ HT') as [T HT]. destruct (cm_task _ _ C _ _ HT) as (T1 & HT1 & Q).
    assert (T1 = T') as -> by congruence. by eapply calm_task_ok; [apply W2|].
  - intros u U' t c' HU' Ht Hc'. destruct (cm_units _ _ C _ _ HU') as [U HU]. destruct (cm_unit _ _ C _ _ HU) as (U1 & HU1 & K).
    assert (U1 = U') as -> by congruence. eapply ukept_acts; [done|]. pose proof (cores_sym _ _ HC t) as Hk. rewrite Hc' in Hk.
    destruct (TC w !! t) as [c|] eqn:Hc; [|done]. destruct Hk as (_ & _ & Hk).
    replace (kclass (c_kind c')) with (kclass (c_kind c)) by (destruct (c_kind c), (c_kind c'); simpl in *; try congruence; by destruct Hk as [-> _]).
    eapply W3; [done| |done]. rewrite <-Ht. symmetry. apply K.
  - rewrite (cm_military _ _ C). by eapply military_calm.
  - rewrite (cm_builder _ _ C). by eapply builder_calm.
  - by apply C.
  - rewrite (calm_RP _ _ C), (calm_UC _ _ C). by eapply links_calm.
  - by rewrite (calm_UC _ _ C), (cm_team _ _ C).
  - intros u U' HU'. destruct (cm_units _ _ C _ _ HU') as [U HU]. destruct (cm_unit _ _ C _ _ HU) as (U1 & HU1 & K).
    assert (U1 = U') as -> by congruence. unfold unit_range. rewrite (uk_def _ _ K). by eapply W9.
Qed.
Lemma calm_goes w w' : calm w w' → goes w w'.
Proof.
  intros C. split; [split|].
  - intros t T HT. destruct (cm_task _ _ C _ _ HT) as (T' & HT' & Q). pose proof (calm_task_class _ _ Q). destruct Q. exists T'. split_and!; congruence.
  - intros u U HU. destruct (cm_unit _ _ C _ _ HU) as (U' & HU' & []). exists U'. split_and!; congruence.
  - by apply calm_heads.
  - apply C.
  - apply C.
  - intros t (T' & HT' & Hd & He & Hu). destruct (cm_tasks _ _ C _ _ HT') as [T HT]. destruct (cm_task _ _ C _ _ HT) as (T1 & HT1 & Q).
    assert (T1 = T') as -> by congruence. pose proof (calm_task_class _ _ Q). destruct Q. exists T. split_and!; congruence.
Qed.

Section calm_steps.
Context {E : Engine} {H : Heap} {TE : TaskEngine}.

(** ** The calm steps *)

(** The rest of the world is the same. *)
Record untouched (w w' : World) : Prop := {
  un_military : military w' = military w;
  un_builder : builder w' = builder w;
  un_team : teamUnits w' = teamUnits w;
  un_frame : lastFrame w' = lastFrame w
}.
Lemma calm_insert_task t T T' w w' :
  tasks w !! t = Some T → tasks w' = <[t := T']> (tasks w) → calm_task T T' → units w' = units w → untouched w w' →
  (targets_ok (TC w) (enemies w) → targets_ok (TC w') (enemies w')) → calm w w'.
Proof.
  intros HT HT' Q HU [R1 R2 R3 R4] HE. split; try done; rewrite ?HT', ?HU.
  - intros t1 T1 HT1. destruct (decide (t1 = t)) as [->|Hn]; [rewrite lookup_insert_eq|rewrite lookup_insert_ne by done].
    + exists T'. split; [done|]. congruence.
    + exists T1. split; [done|apply calm_task_refl].
  - intros t1 T1 HT1. destruct (decide (t1 = t)) as [->|Hn]; [by eexists|]. rewrite lookup_insert_ne in HT1 by done. by eexists.
  - intros u U HU1. by exists U.
  - done.
Qed.
Lemma calm_insert_unit u U U' w w' :
  units w !! u = Some U → units w' = <[u := U']> (units w) → ukept U U' → tasks w' = tasks w → enemies w' = enemies w → untouched w w' → calm w w'.
Proof.
  intros HU HU' K HT HE [R1 R2 R3 R4]. split; try done; rewrite ?HT, ?HU'.
  - intros t T HT1. exists T. split; [done|apply calm_task_refl].
  - done.
  - intros u1 U1 HU1. destruct (decide (u1 = u)) as [->|Hn]; [rewrite lookup_insert_eq|rewrite lookup_insert_ne by done].
    + exists U'. split; [done|]. congruence.
    + by exists U1.
  - intros u1 U1 HU1. destruct (decide (u1 = u)) as [->|Hn]; [by eexists|]. rewrite lookup_insert_ne in HU1 by done. by eexists.
  - unfold TC. by rewrite HT, HE.
Qed.
Lemma calm_same w w' : units w' = units w → tasks w' = tasks w → enemies w' = enemies w → untouched w w' → calm w w'.
Proof.
  intros HU HT HE [R1 R2 R3 R4]. split; try done; rewrite ?HT, ?HU.
  - intros t T HT1. exists T. split; [done|apply calm_task_refl].
  - done.
  - intros u1 U1 HU1. by exists U1.
  - done.
  - unfold TC. by rewrite HT, HE.
Qed.
Lemma TRY_UNIT_calm u w : calm w (TRY_UNIT u w).
Proof. apply calm_same; unfold TRY_UNIT; destruct (engine w) as [|[]]; done. Qed.
Lemma upd_unit_calm u g w U : units w !! u = Some U → ukept U (g U) → ∃ w', upd_unit u g w = Some w' ∧ calm w w'.
Proof. intros HU K. unfold upd_unit. rewrite HU. simpl. eexists. split; [done|]. by eapply calm_insert_unit. Qed.
Lemma upd_task_calm t g w T : tasks w !! t = Some T → calm_task T (g T) → kind (g T) = kind T → ∃ w', upd_task t g w = Some w' ∧ calm w w'.
Proof.
  intros HT Q Hk. unfold upd_task. rewrite HT. simpl. eexists. split; [done|]. eapply calm_insert_task; try done.
  intros HE. simpl. rewrite (TC_insert w (set_tasks (<[t:=g T]> (tasks w)) w) t T (g T)); try done. destruct Q. unfold task_core. congruence.
Qed.
(** A change of a fighter task's own fields. *)
Definition calm_fighter (f f' : Fighter) : Prop :=
  fightType f' = fightType f ∧ promote f' = promote f ∧ leader (squad f') = leader (squad f) ∧ shields f' = shields f ∧ cowards f' = cowards f.
Lemma calm_with_kind T f f' : kind T = FighterTask f → calm_fighter f f' → calm_task T (with_kind (FighterTask f') T).
Proof. intros Hk (H1 & H2 & H3 & H4 & H5). split; try done; simpl; [set_solver|]. rewrite Hk. simpl. split_and!; try done. set_solver. Qed.
Lemma upd_fighter_calm t g w T f :
  tasks w !! t = Some T → kind T = FighterTask f → calm_fighter f (g f) → target (g f) = target f →
  ∃ w', upd_fighter t g w = Some w' ∧ calm w w' ∧ tasks w' = <[t := with_kind (FighterTask (g f)) T]> (tasks w) ∧ units w' = units w ∧ enemies w' = enemies w.
Proof.
  intros HT Hk Hf Ht. unfold upd_fighter, upd_task, fighter_of. rewrite HT. simpl. rewrite Hk. simpl. eexists. split_and!; try done.
  eapply calm_insert_task; try done; [by apply calm_with_kind with f|]. intros HE. simpl.
  rewrite (TC_insert w (set_tasks (<[t := with_kind (FighterTask (g f)) T]> (tasks w)) w) t T (with_kind (FighterTask (g f)) T)); try done.
  unfold task_core. simpl. rewrite Hk. simpl. destruct Hf as (-> & -> & _). by rewrite Ht.
Qed.

(** *** Targets *)

Lemma targets_of lost X w t T f e : world_ok lost X w → tasks w !! t = Some T → kind T = FighterTask f → target f = Some e → is_Some (enemies w !! e).
Proof.
  intros W HT Hk He. eapply (target_alive _ _ (wo_targets _ _ _ W) t (task_core T)); [by apply core_of_task|]. simpl. rewrite Hk. simpl. by rewrite He.
Qed.
(** After [SetTarget] the task is in the set of its target and in no other. *)
Definition rebound (t : Z) (old new : option Z) (x : Z) (X : gset Z) : gset Z :=
  let Y := if bool_decide (old = Some x) then X ∖ {[t]} else X in if bool_decide (new = Some x) then {[t]} ∪ Y else Y.
Lemma rebound_self t old new x X : t ∈ rebound t old new x X ↔ new = Some x ∨ t ∈ X ∧ old ≠ Some x.
Proof.
  unfold rebound. repeat case_bool_decide; rewrite ?elem_of_union, ?elem_of_difference, ?elem_of_singleton; tauto.
Qed.
Lemma rebound_other t old new x X t1 : t1 ≠ t → t1 ∈ rebound t old new x X ↔ t1 ∈ X.
Proof.
  intros Hn. unfold rebound. repeat case_bool_decide; rewrite ?elem_of_union, ?elem_of_difference, ?elem_of_singleton; tauto.
Qed.
Lemma SetTarget_eq t e w T f :
  tasks w !! t = Some T → kind T = FighterTask f → (∀ x, target f = Some x → is_Some (enemies w !! x)) → (∀ x, e = Some x → is_Some (enemies w !! x)) →
  ∃ w', SetTarget t e w = Some w' ∧ tasks w' = <[t := with_kind (FighterTask (with_target e f)) T]> (tasks w) ∧ units w' = units w ∧ untouched w w' ∧
    queryId w' = queryId w ∧ ∀ x, enemies w' !! x = rebound t (target f) e x <$> enemies w !! x.
Proof.
  intros HT Hk Ho Hn. unfold SetTarget. rewrite HT. simpl. unfold fighter_of. rewrite Hk. simpl.
  set (en0 := match target f with Some e0 => alter (λ X, X ∖ {[t]}) e0 (enemies w) | None => enemies w end).
  assert (match target f with Some e0 => unbind t e0 w | None => Some w end = Some (set_enemies en0 w)) as ->.
  { unfold en0. destruct (target f) as [e0|]; [|by destruct w]. unfold unbind. destruct (Ho e0 eq_refl) as [X0 HX]. rewrite HX. simpl. do 2 f_equal.
    apply map_eq. intros x. destruct (decide (x = e0)) as [->|]; [by rewrite lookup_insert_eq, lookup_alter_eq, HX|by rewrite lookup_insert_ne, lookup_alter_ne]. }
  simpl. set (en1 := match e with Some e1 => alter (λ X, {[t]} ∪ X) e1 en0 | None => en0 end).
  assert (∀ x, en0 !! x = (λ X, if bool_decide (target f = Some x) then X ∖ {[t]} else X) <$> enemies w !! x) as H0.
  { intros x. unfold en0. destruct (target f) as [e0|]; [|by destruct (enemies w !! x)]. destruct (decide (x = e0)) as [->|Hx].
    - rewrite lookup_alter_eq. by rewrite bool_decide_eq_true_2.
    - rewrite lookup_alter_ne by done. rewrite bool_decide_eq_false_2 by congruence. by destruct (enemies w !! x). }
  assert (match e with Some e1 => bind_task t e1 (set_enemies en0 w) | None => Some (set_enemies en0 w) end = Some (set_enemies en1 w)) as ->.
  { unfold en1. destruct e as [e1|]; [|done]. unfold bind_task. simpl. rewrite H0. destruct (Hn e1 eq_refl) as [X1 HX]. rewrite HX. simpl. unfold set_enemies. simpl. do 2 f_equal.
    apply map_eq. intros x. destruct (decide (x = e1)) as [->|]; [by rewrite lookup_insert_eq, lookup_alter_eq, H0, HX|by rewrite lookup_insert_ne, lookup_alter_ne]. }
  simpl. unfold upd_fighter, upd_task, fighter_of. simpl. rewrite HT. simpl. rewrite Hk. simpl. eexists. split_and!; try done.
  intros x. simpl. unfold rebound. unfold en1. destruct e as [e1|]; [|by rewrite H0].
  destruct (decide (x = e1)) as [->|Hx].
  - rewrite lookup_alter_eq, H0, (bool_decide_eq_true_2 (Some e1 = Some e1)) by done. by destruct (enemies w !! e1).
  - rewrite lookup_alter_ne, H0 by done. by rewrite (bool_decide_eq_false_2 (Some e1 = Some x)) by congruence.
Qed.
Lemma rebound_targets t e w w' T f :
  tasks w !! t = Some T → kind T = FighterTask f → (∀ x, e = Some x → is_Some (enemies w !! x)) →
  tasks w' = <[t := with_kind (FighterTask (with_target e f)) T]> (tasks w) → (∀ x, enemies w' !! x = rebound t (target f) e x <$> enemies w !! x) →
  targets_ok (TC w) (enemies w) → targets_ok (TC w') (enemies w').
Proof.
  intros HT Hk Hn HT' HE [G1 G2]. set (T' := with_kind _ T) in HT'.
  assert (∀ t1, TC w' !! t1 = if decide (t1 = t) then Some (task_core T') else TC w !! t1) as HC.
  { intros t1. unfold TC. rewrite HT', fmap_insert. destruct (decide (t1 = t)) as [->|]; [by rewrite lookup_insert_eq|by rewrite lookup_insert_ne]. }
  pose proof (core_of_task _ _ _ HT) as Hc. split.
  - intros x X' t1 HX. rewrite HE in HX. apply fmap_Some in HX as (X & HX & ->). specialize (G1 x X t1 HX). rewrite HC.
    destruct (decide (t1 = t)) as [->|Ht].
    + rewrite rebound_self. split.
      * intros [He|[Ht Ho]]; [by exists (task_core T'), (fightType f), (promote f); rewrite <-He|].
        apply G1 in Ht as (c & f1 & p & Hc1 & Hk1). rewrite Hc in Hc1. injection Hc1 as <-. simpl in Hk1. rewrite Hk in Hk1. by injection Hk1.
      * intros (c & f1 & p & [= <-] & Hk1). left. simpl in Hk1. congruence.
    + by rewrite rebound_other.
  - intros t1 c f1 x p Hc1 Hk1. rewrite HE. rewrite HC in Hc1. destruct (decide (t1 = t)) as [->|Ht].
    + injection Hc1 as <-. simpl in Hk1. injection Hk1 as _ He _. destruct (Hn x He) as [X ->]. by eexists.
    + destruct (G2 _ _ _ _ _ Hc1 Hk1) as [X ->]. by eexists.
Qed.
Lemma SetTarget_calm lost X t e w T f :
  world_ok lost X w → tasks w !! t = Some T → kind T = FighterTask f → (∀ x, e = Some x → is_Some (enemies w !! x)) →
  ∃ w', SetTarget t e w = Some w' ∧ calm w w' ∧ tasks w' = <[t := with_kind (FighterTask (with_target e f)) T]> (tasks w) ∧ units w' = units w ∧
    queryId w' = queryId w ∧ ∀ x, enemies w' !! x = rebound t (target f) e x <$> enemies w !! x.
Proof.
  intros W HT Hk Hn. destruct (SetTarget_eq t e w T f) as (w' & H1 & H2 & H3 & H4 & H5 & H6); [done|done| |done|].
  { intros x Hx. by eapply targets_of. }
  exists w'. split_and!; try done. eapply calm_insert_task; try done; [by eapply calm_with_kind|]. by eapply rebound_targets.
Qed.

(** *** Enemies come and go *)

Definition forget_target (T : IUnitTask) : IUnitTask :=
  match kind T with FighterTask f => with_kind (FighterTask (with_target None f)) T | _ => T end.
Lemma forget_target_calm T : calm_task T (forget_target T).
Proof. unfold forget_target. destruct (kind T) eqn:Hk; try apply calm_task_refl. by eapply calm_with_kind. Qed.
Lemma ClearTargets_eq l w :
  (∀ t, t ∈ l → ∃ T f, tasks w !! t = Some T ∧ kind T = FighterTask f) →
  ∃ w', foldM (λ w t, upd_fighter t (with_target None) w) w l = Some w' ∧
    (∀ t, tasks w' !! t = (if bool_decide (t ∈ l) then forget_target else id) <$> tasks w !! t) ∧ units w' = units w ∧ untouched w w' ∧ enemies w' = enemies w.
Proof.
  intros Hl. destruct (foldM_ind (λ pre w1, (∀ t, tasks w1 !! t = (if bool_decide (t ∈ pre) then forget_target else id) <$> tasks w !! t) ∧
    units w1 = units w ∧ untouched w w1 ∧ enemies w1 = enemies w) (λ w t, upd_fighter t (with_target None) w) l w) as (w' & H1 & H2); [| |by exists w'].
  - split_and!; try done. intros t. simpl. by destruct (tasks w !! t).
  - intros pre a post w1 -> (I1 & I2 & [] & I4). destruct (Hl a) as (T & f & HT & Hk); [set_solver|].
    assert (∃ T1 f1, tasks w1 !! a = Some T1 ∧ kind T1 = FighterTask f1 ∧ with_kind (FighterTask (with_target None f1)) T1 = forget_target T) as (T1 & f1 & HT1 & Hk1 & Hf).
    { rewrite I1, HT. unfold forget_target. rewrite Hk. destruct (bool_decide _); [|by exists T, f]. simpl. rewrite Hk. by exists (with_kind (FighterTask (with_target None f)) T), (with_target None f). }
    unfold upd_fighter, upd_task, fighter_of. rewrite HT1. simpl. rewrite Hk1. simpl. eexists. split; [done|]. split_and!; try done.
    intros t. simpl. destruct (decide (t = a)) as [->|Hn].
    + rewrite lookup_insert_eq, HT, (bool_decide_eq_true_2 (a ∈ _)) by set_solver. simpl. by rewrite Hf.
    + rewrite lookup_insert_ne, I1 by done. rewrite (bool_decide_ext (t ∈ pre ++ [a]) (t ∈ pre)); [done|set_solver].
Qed.
Lemma delete_CEnemyInfo_calm lost X e w :
  world_ok lost X w → is_Some (enemies w !! e) →
  ∃ w', delete_CEnemyInfo e w = Some w' ∧ calm w w' ∧ enemies w' = delete e (enemies w) ∧ units w' = units w ∧
    (∀ t T f, tasks w' !! t = Some T → kind T = FighterTask f → target f ≠ Some e).
Proof.
  intros W [Y HY]. pose proof (wo_targets _ _ _ W) as [G1 G2].
  assert (∀ t, t ∈ Y ↔ ∃ T f, tasks w !! t = Some T ∧ kind T = FighterTask f ∧ target f = Some e) as HY'.
  { intros t. rewrite (G1 _ _ _ HY). split.
    - intros (c & f & p & Hc & Hk). destruct (task_of_core _ _ _ Hc) as (T & HT & ->). simpl in Hk. destruct (kind T) as [| | | | |f0] eqn:HkT; try discriminate.
      injection Hk as _ He _. by exists T, f0.
    - intros (T & f & HT & Hk & He). exists (task_core T), (fightType f), (promote f). split; [by apply core_of_task|]. simpl. rewrite Hk. simpl. by rewrite He. }
  destruct (ClearTargets_eq (in_order Y) w) as (w1 & H1 & H2 & H3 & [] & H5).
  { intros t Ht%elem_of_in_order%HY'. naive_solver. }
  unfold delete_CEnemyInfo. rewrite HY. simpl. rewrite H1. simpl. eexists. split; [done|].
  assert (∀ t, tasks w1 !! t = forget_target <$> tasks w !! t ∧ t ∈ Y ∨ tasks w1 !! t = tasks w !! t ∧ t ∉ Y) as H6.
  { intros t. rewrite H2. case_bool_decide as Ht; rewrite elem_of_in_order in Ht; [by left|right]. by destruct (tasks w !! t). }
  assert (∀ t T, tasks w1 !! t = Some T → ∃ T0, tasks w !! t = Some T0 ∧ (T = T0 ∧ t ∉ Y ∨ T = forget_target T0 ∧ t ∈ Y)) as H7.
  { intros t T HT. destruct (H6 t) as [[E1 Ht]|[E1 Ht]]; rewrite E1 in HT; [apply fmap_Some in HT as (T0 & HT & ->)|]; eauto. }
  split_and!; simpl; try done; [|by rewrite H5|].
  - split; try done; simpl.
    + intros t T HT. destruct (H6 t) as [[-> _]|[-> _]]; rewrite HT; simpl; eexists; (split; [done|]); [apply forget_target_calm|apply calm_task_refl].
    + intros t T HT. destruct (H7 _ _ HT) as (T0 & -> & _). by eexists.
    + rewrite H3. intros u U HU. by exists U.
    + rewrite H3. done.
    + intros _. rewrite H5. split.
      * intros x X' t (Hx & HX)%lookup_delete_Some. rewrite (G1 _ _ _ HX). unfold TC. simpl. setoid_rewrite lookup_fmap. destruct (H6 t) as [[-> Ht]|[-> Ht]]; [|done].
        apply HY' in Ht as (T & f & HT & Hk & He). rewrite HT. simpl. split; intros (c & f1 & p & [= <-] & Hc); simpl in Hc;
          [rewrite Hk in Hc; injection Hc; congruence|]. unfold forget_target in Hc. rewrite Hk in Hc. discriminate.
      * intros t c f x p Hc Hk. change (TC (set_enemies (delete e (enemies w)) w1)) with (TC w1) in Hc. destruct (task_of_core _ _ _ Hc) as (T & HT & ->).
        destruct (H7 _ _ HT) as (T0 & HT0 & [[-> Ht]|[-> Ht]]).
        -- rewrite lookup_delete_ne; [by eapply G2; [apply core_of_task|]|]. intros <-. apply Ht, HY'. simpl in Hk.
           destruct (kind T0) as [| | | | |f0] eqn:HkT; try discriminate. injection Hk as _ He _. by exists T0, f0.
        -- apply HY' in Ht as (T1 & f1 & HT1 & Hk1 & _). unfold forget_target in Hk. replace T0 with T1 in Hk by congruence. rewrite Hk1 in Hk. discriminate.
  - intros t T f HT Hk He. destruct (H7 _ _ HT) as (T0 & HT0 & [[-> Ht]|[-> Ht]]).
    + apply Ht, HY'. by exists T0, f.
    + unfold forget_target in Hk. destruct (kind T0) eqn:HkT; try congruence. injection Hk as <-. discriminate.
Qed.
Lemma new_enemy_calm e w : enemies w !! e = None → calm w (set_enemies (<[e := ∅]> (enemies w)) w).
Proof.
  intros He. split; simpl; try done.
  - intros t T HT. exists T. split; [done|apply calm_task_refl].
  - intros u U HU. by exists U.
  - intros [G1 G2]. split.
    + intros x X t Hx. destruct (decide (x = e)) as [->|Hn].
      * rewrite lookup_insert_eq in Hx. injection Hx as <-. split; [by intros ?%not_elem_of_empty|]. intros (c & f & p & Hc & Hk).
        destruct (G2 _ _ _ _ _ Hc Hk). congruence.
      * rewrite lookup_insert_ne in Hx by done. by apply G1.
    + intros t c f x p Hc Hk. destruct (G2 _ _ _ _ _ Hc Hk) as [X HX]. rewrite lookup_insert_ne; [by eexists|congruence].
Qed.
End calm_steps.
