(* ===== verification/FighterTheory.v ===== *)
(** * FighterTheory: what fighters do on their own is calm

    [serves w0 w]: [w] is reached from [w0] by calm steps that keep the known enemies.  One lemma for
    each of the steps the fighters' tasks are made of says that it returns and serves; the lemmas about
    their compositions apply these.  What a lemma needs to know of units and tasks ([walks], [fighter_at],
    [leads]) is stated of [w0] and holds in [w]. *)

From stdpp Require Import sorting.
From S2P Require Import Prelude Float32 EnemyUnit ActionList TaskData TaskCore TaskClasses TaskTheory TaskInvariant TaskSteps.
From S2P Require Import TaskStop TaskLeave TaskNew TaskJoin MilitaryTasks Targets FighterCore FighterTasks MilitaryTheory TaskMove TaskCalm.

Open Scope circuit_scope.

Create HintDb tame.

Section theory.
Context {E : Engine} {H : Heap} {TE : TaskEngine} {P : Policy} {TA : Tactics}.

(** ** What is known of units and tasks *)

Definition known (u : Z) (w : World) : Prop := is_Some (units w !! u).
(** A unit with a travel action. *)
Definition walks (u : Z) (w : World) : Prop :=
  ∃ U, units w !! u = Some U ∧ is_Some (u_travelAct U) ∧ ptr_ok (u_travelAct U) U ∧ ptr_ok (u_dgunAct U) U.
Definition fighter_at (t : Z) (ft : FightType) (w : World) : Prop := ∃ T f, tasks w !! t = Some T ∧ kind T = FighterTask f ∧ fightType f = ft.
Definition works_in (t u : Z) (w : World) : Prop := ∃ T, tasks w !! t = Some T ∧ (isDead T = false → u ∈ t_units T) ∧ class_of (kind T) ≠ C_IDLE.
(** [l] leads the squad [t]. *)
Definition leads (t l : Z) (w : World) : Prop := ∃ T f, tasks w !! t = Some T ∧ kind T = FighterTask f ∧ leader (squad f) = Some l ∧ works_in t l w ∧ known l w.
Definition all_walk (t : Z) (w : World) : Prop := ∃ T, tasks w !! t = Some T ∧ ∀ u, u ∈ t_units T → walks u w.

Lemma walks_known u w : walks u w → known u w.
Proof. intros (U & HU & _). by exists U. Qed.
Lemma leads_known t l w : leads t l w → known l w.
Proof. by intros (T & f & _ & _ & _ & _ & Hl). Qed.
Lemma leads_works t l w : leads t l w → works_in t l w.
Proof. by intros (T & f & _ & _ & _ & Hl & _). Qed.

Section serving.
Context (lost X : gset Z) (w0 : World) (W0 : world_ok lost X w0).

Record serves (w : World) : Prop := {
  sv_calm : calm w0 w;
  sv_enemies e : is_Some (enemies w0 !! e) → is_Some (enemies w !! e);
  sv_back e : is_Some (enemies w !! e) → is_Some (enemies w0 !! e)
}.
Lemma serves_refl : serves w0.
Proof. split; [apply calm_refl|done|done]. Qed.
Lemma serves_world w : serves w → world_ok lost X w.
Proof. intros S. eapply calm_world; [exact W0|apply S]. Qed.
(** A calm step that keeps the enemies. *)
Lemma serves_step w w' : serves w → calm w w' → (∀ e, is_Some (enemies w' !! e) ↔ is_Some (enemies w !! e)) → serves w'.
Proof. intros [S1 S2 S3] C HE. split; [by eapply calm_trans|intros e He; by apply HE, S2|intros e He; by apply S3, HE]. Qed.

(** *** What still holds *)

Lemma known_serves u w : serves w → known u w0 → known u w.
Proof. intros [C _ _] [U HU]. destruct (cm_unit _ _ C _ _ HU) as (U' & HU' & _). by exists U'. Qed.
Lemma walks_serves u w : serves w → walks u w0 → walks u w.
Proof.
  intros [C _ _] (U & HU & H1 & H2 & H3). destruct (cm_unit _ _ C _ _ HU) as (U' & HU' & K). exists U'.
  split_and!; [done|by apply K..].
Qed.
Lemma task_serves t T0 w : serves w → tasks w0 !! t = Some T0 → ∃ T, tasks w !! t = Some T ∧ calm_task T0 T.
Proof. intros [C _ _]. apply C. Qed.
Lemma fighter_serves t ft w : serves w → fighter_at t ft w0 →
  ∃ T f, tasks w !! t = Some T ∧ kind T = FighterTask f ∧ fightType f = ft ∧ ∀ e, target f = Some e → is_Some (enemies w !! e).
Proof.
  intros S (T0 & f0 & HT0 & Hk0 & <-). destruct (task_serves _ _ _ S HT0) as (T & HT & Q). pose proof (ca_kind _ _ Q) as Hk. rewrite Hk0 in Hk.
  destruct (kind T) as [| | | | |f] eqn:HkT; try discriminate. destruct Hk as (Hft & _). exists T, f. split_and!; try done.
  intros e He. eapply targets_of; [by apply serves_world| |done..]. done.
Qed.
Lemma leads_serves t l w : serves w → leads t l w0 → ∃ T f, tasks w !! t = Some T ∧ kind T = FighterTask f ∧ leader (squad f) = Some l.
Proof.
  intros S (T0 & f0 & HT0 & Hk0 & Hl & _). destruct (task_serves _ _ _ S HT0) as (T & HT & Q). pose proof (ca_kind _ _ Q) as Hk. rewrite Hk0 in Hk.
  destruct (kind T) as [| | | | |f] eqn:HkT; try discriminate. destruct Hk as (_ & _ & Hl' & _). exists T, f. split_and!; congruence.
Qed.

(** *** The steps *)

Lemma order_serves u w : serves w → known u w0 → returns (order u w) serves.
Proof.
  intros S Hu. destruct (known_serves _ _ S Hu) as [U HU]. unfold order. rewrite HU. apply returns_ret. eapply serves_step; [done|apply TRY_UNIT_calm|].
  intros e. unfold TRY_UNIT. by destruct (engine w) as [|[]].
Qed.
Lemma Garbage_serves u w : serves w → serves (Garbage u w).
Proof. intros S. eapply serves_step; [done|by apply calm_same|done]. Qed.
Lemma upd_unit_serves u g w U : serves w → units w !! u = Some U → ukept U (g U) → returns (upd_unit u g w) serves.
Proof.
  intros S HU K. destruct (upd_unit_calm u g w U HU K) as (w' & H1 & C). exists w'. split; [done|]. eapply serves_step; [done|done|].
  unfold upd_unit in H1. rewrite HU in H1. by injection H1 as <-.
Qed.
Lemma on_unit_serves u g w : serves w → known u w0 → (∀ U, ukept U (g U)) → returns (upd_unit u g w) serves.
Proof. intros S Hu K. destruct (known_serves _ _ S Hu) as [U HU]. by eapply upd_unit_serves. Qed.
Lemma upd_travel_now g u w : (∀ x, a_addr (g x) = a_addr x) → serves w → walks u w → returns (upd_travel g u w) serves.
Proof.
  intros Hg S (U & HU & H1 & H2 & _). unfold upd_travel. rewrite HU. simpl.
  destruct (on_action_kept (u_travelAct U) g U Hg H2 H1) as (U' & HU' & K). rewrite HU'. simpl. by eapply upd_unit_serves.
Qed.
Lemma upd_travel_serves g u w : (∀ x, a_addr (g x) = a_addr x) → serves w → walks u w0 → returns (upd_travel g u w) serves.
Proof. intros Hg S Hu. apply upd_travel_now; [done|done|]. by apply walks_serves. Qed.
Lemma dgun_serves g u w U : (∀ x, a_addr (g x) = a_addr x) → serves w → walks u w0 → units w !! u = Some U → is_Some (u_dgunAct U) →
  returns (U' ← on_action (u_dgunAct U) g U; upd_unit u (λ _, U') w) serves.
Proof.
  intros Hg S Hu HU Hd. destruct (walks_serves _ _ S Hu) as (U1 & HU1 & _ & _ & H3). assert (U1 = U) as -> by congruence.
  destruct (on_action_kept (u_dgunAct U) g U Hg H3 Hd) as (U' & HU' & K). rewrite HU'. simpl. by eapply upd_unit_serves.
Qed.
Lemma GetTravelAct_now u w : walks u w → returns (GetTravelAct u w) (λ _, True).
Proof.
  clear lost X W0. intros (U & HU & [a Ha] & H2 & _). unfold GetTravelAct. rewrite HU. simpl. unfold get_action. rewrite Ha. simpl.
  specialize (H2 a Ha). unfold act_addrs in H2. apply elem_of_list_to_set, list_elem_of_fmap in H2 as (x & Hx & Hin).
  destruct (list_find_elem_of (λ x, a_addr x = a) (actions (u_acts U)) x Hin (eq_sym Hx)) as [[i y] Hf]. rewrite Hf. by apply returns_ret.
Qed.
Lemma GetTravelAct_returns u w : serves w → walks u w0 → returns (GetTravelAct u w) (λ _, True).
Proof. intros S Hu. apply GetTravelAct_now. by apply walks_serves. Qed.
Lemma upd_task_serves t g w T0 : serves w → tasks w0 !! t = Some T0 →
  (∀ T, tasks w !! t = Some T → calm_task T0 T → calm_task T (g T) ∧ kind (g T) = kind T) → returns (upd_task t g w) serves.
Proof.
  intros S HT0 HQ. destruct (task_serves _ _ _ S HT0) as (T & HT & Q). destruct (HQ T HT Q) as [Q1 Q2].
  destruct (upd_task_calm t g w T HT Q1 Q2) as (w' & H1 & C). exists w'. split; [done|]. eapply serves_step; [done|done|].
  unfold upd_task in H1. rewrite HT in H1. by injection H1 as <-.
Qed.
Lemma set_tstate_serves s t w : serves w → is_Some (tasks w0 !! t) → returns (set_tstate s t w) serves.
Proof. clear lost X W0. intros S [T0 HT0]. eapply upd_task_serves; [done..|]. intros T _ _. split; [|done]. split; try done; [set_solver|apply calm_kind_refl]. Qed.
Lemma tick_serves t w : serves w → is_Some (tasks w0 !! t) → returns (upd_task t tick w) serves.
Proof. clear lost X W0. intros S [T0 HT0]. eapply upd_task_serves; [done..|]. intros T _ _. split; [|done]. split; try done; [set_solver|apply calm_kind_refl]. Qed.
Lemma touch_serves t w : serves w → is_Some (tasks w0 !! t) → returns (touch t w) serves.
Proof. clear lost X W0. intros S [T0 HT0]. eapply upd_task_serves; [done..|]. intros T _ _. split; [|done]. split; try done; [set_solver|apply calm_kind_refl]. Qed.
Lemma ask_serves t u w : serves w → works_in t u w0 → known u w0 → returns (ask t u w) serves.
Proof.
  clear lost X W0. intros S (T0 & HT0 & Hu & Hi) Hk. destruct (known_serves _ _ S Hk) as [U HU]. unfold ask. rewrite HU. simpl.
  set (w1 := set_queryId _ w). assert (serves w1) as S1 by (eapply serves_step; [done|by apply calm_same|done]).
  eapply upd_task_serves; [exact S1|exact HT0|]. intros T HT Q. split; [|done]. pose proof (calm_task_class _ _ Q) as Hc. destruct Q as [Q1 Q2 Q3 Q4 Q5 Q6].
  split; try done; [|intros Hci; congruence|apply calm_kind_refl]. intros Hd. simpl. rewrite dom_insert. rewrite Q2 in Hd. specialize (Hu Hd). rewrite <-Q3 in Hu. set_solver.
Qed.

(** *** Looking at the task *)

Lemma get_fighter_returns t ft w : serves w → fighter_at t ft w0 →
  returns (get_fighter t w) (λ f, (∃ T, tasks w !! t = Some T ∧ kind T = FighterTask f) ∧ fightType f = ft ∧ ∀ e, target f = Some e → is_Some (enemies w !! e)).
Proof.
  intros S Hf. destruct (fighter_serves _ _ _ S Hf) as (T & f & HT & Hk & H1 & H2). unfold get_fighter, fighter_of. rewrite HT. simpl. rewrite Hk.
  apply returns_ret. split_and!; try done. by exists T.
Qed.
Lemma get_leader_returns t l w : serves w → leads t l w0 →
  returns (get_leader t w) (λ x, x.1 = l ∧ units w !! l = Some x.2 ∧ is_Some (unit_range x.2)).
Proof.
  intros S Hl. destruct (leads_serves _ _ _ S Hl) as (T & f & HT & Hk & H1). destruct (known_serves _ _ S (leads_known _ _ _ Hl)) as [L HL].
  unfold get_leader, get_fighter, fighter_of. rewrite HT. simpl. rewrite Hk. simpl. rewrite H1. simpl. rewrite HL. simpl. apply returns_ret. split_and!; try done.
  by eapply (wo_defs _ _ _ (serves_world _ S)).
Qed.
Lemma ready_returns t u w : serves w → is_Some (tasks w0 !! t) → returns (ready t u w) (λ _, True).
Proof. intros S [T0 HT0]. destruct (task_serves _ _ _ S HT0) as (T & HT & _). unfold ready. rewrite HT. by apply returns_ret. Qed.
Lemma fighter_task_at t ft : fighter_at t ft w0 → is_Some (tasks w0 !! t).
Proof. intros (T & f & HT & _). by exists T. Qed.

Lemma upd_plan_serves t ft g w : serves w → fighter_at t ft w0 → returns (upd_plan t g w) serves.
Proof.
  intros S Hf. destruct (fighter_serves _ _ _ S Hf) as (T & f & HT & Hk & _).
  destruct (upd_fighter_calm t (λ f, with_plan (g (plan f)) f) w T f HT Hk) as (w' & H1 & C & _ & _ & HE); [done|done|].
  exists w'. split; [done|]. eapply serves_step; [done|done|]. by rewrite HE.
Qed.
Lemma go_to_serves t ft p w : serves w → fighter_at t ft w0 → returns (go_to p t w) serves.
Proof. apply upd_plan_serves. Qed.
Lemma task_pos_returns t ft w : serves w → fighter_at t ft w0 → returns (task_pos t w) (λ _, True).
Proof. intros S Hf. eapply returns_bind; [by eapply get_fighter_returns|]. intros f _. by apply returns_ret. Qed.

(** *** Loops over the units *)

Lemma each_serves body t w T0 : serves w → tasks w0 !! t = Some T0 → (∀ w u, serves w → u ∈ t_units T0 → returns (body w u) serves) →
  returns (each body t w) serves.
Proof.
  intros S HT0 Hb. destruct (task_serves _ _ _ S HT0) as (T & HT & Q). unfold each. rewrite HT. simpl. apply returns_fold; [done|].
  intros w' u Hu S'. apply Hb; [done|]. rewrite <-(ca_units _ _ Q). by apply elem_of_in_order.
Qed.
Lemma each_walking body t w : serves w → all_walk t w0 → (∀ w u, serves w → walks u w0 → returns (body w u) serves) → returns (each body t w) serves.
Proof. intros S (T0 & HT0 & Hall) Hb. eapply each_serves; [done..|]. intros w' u S' Hu. apply Hb; auto. Qed.
Lemma follow_serves u w : serves w → walks u w0 → returns (follow u w) serves.
Proof. intros S Hu. eapply returns_bind; [by apply upd_travel_serves|]. intros w' S'. by apply upd_travel_serves. Qed.
Lemma order_wait_serves u w : serves w → walks u w0 → returns (order_wait u w) serves.
Proof. intros S Hu. eapply returns_bind; [by apply order_serves, walks_known|]. intros w' S'. by apply upd_travel_serves. Qed.
Lemma ActivePath_serves t w : serves w → all_walk t w0 → returns (ActivePath t w) serves.
Proof. intros S Hall. eapply each_walking; [done..|]. intros w' u S' Hu. by apply follow_serves. Qed.
Lemma all_wait_serves t w : serves w → all_walk t w0 → returns (all_wait t w) serves.
Proof. intros S Hall. eapply each_walking; [done..|]. intros w' u S' Hu. by apply order_wait_serves. Qed.
Lemma force_serves u w : serves w → known u w0 → returns (force u w) (λ x, serves x.2).
Proof.
  intros S Hu. destruct (known_serves _ _ S Hu) as [U HU]. unfold force. rewrite HU. simpl. destruct (IsForceUpdate _ _) as [b fl].
  eapply returns_bind; [by eapply upd_unit_serves|]. intros w' S'. by apply returns_ret.
Qed.
Lemma any_forced_serves t w : serves w → all_walk t w0 → returns (any_forced t w) (λ x, serves x.2).
Proof.
  intros S (T0 & HT0 & Hall). destruct (task_serves _ _ _ S HT0) as (T & HT & Q). unfold any_forced. rewrite HT. simpl.
  apply (returns_fold (λ x, serves x.2)); [done|]. intros [b w1] u Hu S1. simpl in S1. eapply returns_bind.
  - apply force_serves; [done|]. apply walks_known, Hall. rewrite <-(ca_units _ _ Q). by apply elem_of_in_order.
  - intros [b' w2] S2. by apply returns_ret.
Qed.

(** *** Targets *)

Lemma SetTarget_serves t ft e w : serves w → fighter_at t ft w0 → (∀ x, e = Some x → is_Some (enemies w0 !! x)) → returns (SetTarget t e w) serves.
Proof.
  intros S Hf He. destruct (fighter_serves _ _ _ S Hf) as (T & f & HT & Hk & _ & _).
  destruct (SetTarget_calm lost X t e w T f (serves_world _ S) HT Hk) as (w' & H1 & C & _ & _ & _ & HE); [intros x Hx; apply S; auto|].
  exists w'. split; [done|]. eapply serves_step; [done|done|]. intros x. by rewrite HE, fmap_is_Some.
Qed.
Lemma Attack_serves t ft w : serves w → fighter_at t ft w0 → all_walk t w0 → (∀ f, get_fighter t w = Some f → target f ≠ None) → returns (Attack t w) serves.
Proof.
  intros S Hf Hall Ht. unfold Attack. destruct (get_fighter_returns _ _ _ S Hf) as (f & Hg & _ & _ & He). rewrite Hg. simpl.
  destruct (target f) as [e|] eqn:Hte; [|by destruct (Ht f)]. simpl. destruct (He e eq_refl) as [Y HY]. rewrite HY. simpl.
  eapply returns_bind; [by eapply upd_plan_serves|]. intros w1 S1. eapply each_walking; [done..|]. intros w2 u S2 Hu. unfold attack_unit.
  eapply returns_bind; [by apply upd_travel_serves|]. intros w3 S3. destruct (known_serves _ _ S3 (walks_known _ _ Hu)) as [U HU]. rewrite HU. simpl.
  destruct (blocker _); [by apply returns_ret|]. case_match; [|by apply returns_ret].
  eapply returns_bind; [by eapply on_unit_serves; [..|by apply walks_known|]|]. intros w4 S4. by apply order_serves, walks_known.
Qed.

(** *** The searches *)

Lemma enemy_infos e w : e ∈ GetEnemyInfos w ↔ is_Some (enemies w !! e).
Proof. unfold GetEnemyInfos. by rewrite elem_of_in_order, elem_of_dom. Qed.
Lemma infos_known w : serves w → ∀ e, e ∈ GetEnemyInfos w → is_Some (enemies w0 !! e).
Proof. intros S e He%enemy_infos. by apply S. Qed.
Lemma nearest_in ok d l m b e : nearest ok d l m b = Some e → b = Some e ∨ e ∈ l.
Proof.
  revert m b. induction l as [|a l IH]; intros m b; simpl; [by left|]. case_match; intros [Hb|He]%IH; [|by right; right|by left|by right; right].
  injection Hb as ->. right. by left.
Qed.
Lemma nearest_known ok d m w e : serves w → nearest ok d (GetEnemyInfos w) m None = Some e → is_Some (enemies w0 !! e).
Proof. intros S [Hb|He]%nearest_in; [done|]. by apply (infos_known _ S). Qed.
Lemma foldl_in {A B} (f : A → B → A) (Q : A → Prop) l a : Q a → (∀ a b, b ∈ l → Q a → Q (f a b)) → Q (foldl f a l).
Proof. revert a. induction l as [|b l IH]; intros a HQ Hf; [done|]. simpl. apply IH; [apply Hf; [left|done]|]. intros a' b' Hb. apply Hf. by right. Qed.

Lemma nearest_none ok d l m b : nearest ok d l m b = None → b = None ∧ ∀ e, e ∈ l → ok e = true → fgtb m (d e) = false.
Proof.
  clear lost X W0. revert m b. induction l as [|a l IH]; intros m b; simpl; [intros ->; by split; [|intros ? ?%elem_of_nil]|].
  case_match eqn:Ha; intros Hn; destruct (IH _ _ Hn) as [Hb Hl]; [done|]. split; [done|]. intros e [->|He]%elem_of_cons Hok; [|by apply Hl].
  rewrite Hok in Ha. done.
Qed.
Lemma upd_fighter_get t g w w' : upd_fighter t g w = Some w' → ∃ f, get_fighter t w = Some f ∧ get_fighter t w' = Some (g f).
Proof.
  clear. unfold upd_fighter, upd_task, get_fighter, fighter_of. destruct (tasks w !! t) as [T|] eqn:HT; [|done]. simpl.
  destruct (kind T) as [| | | | |f] eqn:Hk; try done. simpl. intros [= <-]. exists f. simpl. by rewrite lookup_insert_eq.
Qed.
Lemma SetTarget_get t e w w' : SetTarget t e w = Some w' → ∃ f, get_fighter t w' = Some f ∧ target f = e.
Proof.
  clear. unfold SetTarget. intros H1. do 4 (apply bind_Some in H1 as (? & _ & H1)). destruct (upd_fighter_get _ _ _ _ H1) as (f & _ & Hf). by exists (with_target e f).
Qed.
Lemma take_target_get t e w w' : take_target t (Some e) w = Some w' → ∃ f, get_fighter t w' = Some f ∧ target f = Some e.
Proof.
  clear. unfold take_target. intros (w1 & H1 & H2)%bind_Some. destruct (SetTarget_get _ _ _ _ H1) as (f1 & Hf1 & Ht).
  destruct (upd_fighter_get _ _ _ _ H2) as (f & Hf & Hf'). eexists. split; [done|]. simpl. congruence.
Qed.
Lemma take_target_serves t ft best w : serves w → fighter_at t ft w0 → (∀ e, best = Some e → is_Some (enemies w0 !! e)) → returns (take_target t best w) serves.
Proof.
  intros S Hf Hb. destruct best as [e|]; [|by apply returns_ret]. unfold take_target.
  eapply returns_bind; [by eapply SetTarget_serves|]. intros w' S'. by eapply upd_plan_serves.
Qed.
(** The searches that begin with [SetTarget(nullptr)]. *)
Lemma Attack_FindTarget_serves t ft l w : serves w → fighter_at t ft w0 → leads t l w0 → returns (Attack_FindTarget t w) serves.
Proof.
  intros S Hf Hl. eapply returns_bind; [by eapply get_leader_returns|]. intros [l' L] (Hl' & HL & [r Hr]). simpl in *. rewrite Hr. simpl.
  eapply returns_bind; [by eapply SetTarget_serves|]. intros w1 S1. eapply returns_bind; [by eapply get_fighter_returns|]. intros f _.
  eapply take_target_serves; [done..|]. intros e. by apply nearest_known.
Qed.
Lemma Defend_FindTarget_serves t ft l w : on_map → serves w → fighter_at t ft w0 → leads t l w0 →
  returns (Defend_FindTarget t w) (λ x, serves x.2 ∧ (x.1 ≠ [] → ∃ f, get_fighter t x.2 = Some f ∧ target f ≠ None)).
Proof.
  intros M S Hf Hl. eapply returns_bind; [by eapply get_leader_returns|]. intros [l' L] (Hl' & HL & [r Hr]). simpl in *. rewrite Hr. simpl.
  eapply returns_bind; [by eapply SetTarget_serves|]. intros w1 S1. eapply returns_bind; [by eapply get_fighter_returns|]. intros f _.
  set (best := nearest _ _ _ _ _). destruct (take_target_serves t ft best w1 S1 Hf) as (w2 & E2 & S2); [intros e; by apply nearest_known|].
  rewrite E2. simpl. apply returns_ret. split; [done|]. simpl. intros Hps. destruct best as [e|] eqn:Hb.
  - destruct (take_target_get _ _ _ _ E2) as (f' & Hf' & Ht'). exists f'. split; [done|]. congruence.
  - destruct Hps. rewrite (elem_of_nil_inv (filter _ _)); [done|]. intros e. rewrite list_elem_of_filter. intros [Hok He].
    destruct (nearest_none _ _ _ _ _ Hb) as [_ Hno]. specialize (Hno e He Hok). pose proof (M w1 l' e) as Hm. unfold ePos in Hno. congruence.
Qed.
Lemma AA_FindTarget_serves t ft l w : serves w → fighter_at t ft w0 → leads t l w0 → returns (AA_FindTarget t w) serves.
Proof.
  intros S Hf Hl. eapply returns_bind; [by eapply get_leader_returns|]. intros [l' L] _. eapply returns_bind; [by eapply get_fighter_returns|]. intros f _.
  eapply returns_bind; [eapply SetTarget_serves; [done..|]; intros e; by apply nearest_known|]. intros w1 S1.
  case_match; [by eapply upd_plan_serves|by apply returns_ret].
Qed.
Lemma AH_FindTarget_serves t ft l w : serves w → fighter_at t ft w0 → leads t l w0 → returns (AH_FindTarget t w) (λ x, serves x.2).
Proof.
  intros S Hf Hl. eapply returns_bind; [by eapply get_leader_returns|]. intros [l' L] (Hl' & HL & [r Hr]). simpl in *.
  eapply returns_bind; [by eapply get_fighter_returns|]. intros f _. rewrite Hr. simpl.
  eapply returns_bind; [eapply SetTarget_serves; [done..|]; intros e; by apply nearest_known|]. intros w1 S1. by apply returns_ret.
Qed.
(** What the raiders' and scouts' loop finds is an enemy. *)
Definition finds (Q : Z → Prop) (x : Search) : Prop := (∀ e, bestTarget x = Some e → Q e) ∧ (∀ e, worstTarget x = Some e → Q e).
Lemma near_enemy_finds Q narrow builders cdef w e pw d x : Q e → finds Q x → finds Q (near_enemy narrow builders cdef w e pw d x).
Proof. intros He [H1 H2]. unfold near_enemy. repeat case_match; split; simpl; intros; simplify_eq; eauto. Qed.
Lemma found_finds Q x e : finds Q x → found x = Some e → Q e.
Proof. intros [H1 H2]. unfold found. case_match eqn:Hb; [intros [= <-]; auto|auto]. Qed.
Lemma Raid_visit_finds Q w f l L r x e : Q e → finds Q x → finds Q (Raid_visit w f l L r x e).
Proof. intros He Hx. unfold Raid_visit. repeat case_match; first [exact Hx|by apply near_enemy_finds]. Qed.
Lemma Scout_visit_finds Q w f u U r x e : Q e → finds Q x → finds Q (Scout_visit w f u U r x e).
Proof. intros He Hx. unfold Scout_visit. repeat case_match; first [exact Hx|by apply near_enemy_finds]. Qed.
Lemma Raid_FindTarget_serves t ft l w : serves w → fighter_at t ft w0 → leads t l w0 → returns (Raid_FindTarget t w) (λ x, serves x.2).
Proof.
  intros S Hf Hl. eapply returns_bind; [by eapply get_leader_returns|]. intros [l' L] (Hl' & HL & [r Hr]). simpl in *. rewrite Hr. simpl.
  eapply returns_bind; [by eapply SetTarget_serves|]. intros w1 S1. eapply returns_bind; [by eapply get_fighter_returns|]. intros f _.
  set (x := foldl _ _ _). assert (finds (λ e, is_Some (enemies w0 !! e)) x) as Hx.
  { unfold x. apply foldl_in; [done|]. intros y e He Hy. apply Raid_visit_finds; [|done]. by apply (infos_known _ S1). }
  destruct (found x) as [e|] eqn:Hfd; [|by apply returns_ret].
  eapply returns_bind; [eapply SetTarget_serves; [done..|]; intros e' [= <-]; exact (found_finds _ _ _ Hx Hfd)|]. intros w2 S2. by apply returns_ret.
Qed.
Lemma unit_range_serves u w U : serves w → units w !! u = Some U → is_Some (unit_range U).
Proof. intros S HU. by eapply (wo_defs _ _ _ (serves_world _ S)). Qed.
Lemma Scout_FindTarget_serves t ft u w : serves w → fighter_at t ft w0 → known u w0 → returns (Scout_FindTarget t u w) (λ x, serves x.2).
Proof.
  intros S Hf Hu. destruct (known_serves _ _ S Hu) as [U HU]. unfold Scout_FindTarget. rewrite HU. simpl.
  destruct (unit_range_serves _ _ _ S HU) as [r Hr]. rewrite Hr. simpl.
  eapply returns_bind; [by eapply SetTarget_serves|]. intros w1 S1. eapply returns_bind; [by eapply get_fighter_returns|]. intros f _.
  set (x := foldl _ _ _). assert (finds (λ e, is_Some (enemies w0 !! e)) x) as Hx.
  { unfold x. apply foldl_in; [done|]. intros y e He Hy. apply Scout_visit_finds; [|done]. by apply (infos_known _ S1). }
  destruct (found x) as [e|] eqn:Hfd; [|by apply returns_ret].
  eapply returns_bind; [eapply SetTarget_serves; [done..|]; intros e' [= <-]; exact (found_finds _ _ _ Hx Hfd)|]. intros w2 S2. by apply returns_ret.
Qed.
Lemma Bomb_FindTarget_serves t ft u last w : serves w → fighter_at t ft w0 → known u w0 → (∀ e, last = Some e → is_Some (enemies w !! e)) →
  returns (Bomb_FindTarget t u last w) (λ x, serves x.2).
Proof.
  intros S Hf Hu Hlast. destruct (known_serves _ _ S Hu) as [U HU]. unfold Bomb_FindTarget. rewrite HU. simpl.
  eapply (returns_bind _ _ (λ _, True)); [|intros sqRange _].
  { destruct last as [e|]; [|by apply returns_ret]. destruct (Hlast e eq_refl) as [Y HY]. rewrite HY. by apply returns_ret. }
  eapply returns_bind; [by eapply SetTarget_serves|]. intros w1 S1. eapply returns_bind; [by eapply get_fighter_returns|]. intros f _.
  set (x := foldl _ _ _). assert (∀ e, x.1.2 = Some e → is_Some (enemies w0 !! e)) as Hx.
  { unfold x. apply (foldl_in _ (λ x, ∀ e, x.1.2 = Some e → is_Some (enemies w0 !! e))); [done|]. intros [[c b] p] e He Hy. unfold Bomb_visit.
    repeat case_match; simpl; try done. intros e' [= <-]. by apply (infos_known _ S1). }
  destruct x as [[c [e|]] p]; [|by apply returns_ret].
  eapply returns_bind; [eapply SetTarget_serves; [done..|]; intros e' [= <-]; by apply Hx|]. intros w2 S2. by apply returns_ret.
Qed.
Lemma Arty_FindTarget_serves t ft u w : serves w → fighter_at t ft w0 → known u w0 → returns (Arty_FindTarget t u w) (λ x, serves x.2).
Proof.
  intros S Hf Hu. destruct (known_serves _ _ S Hu) as [U HU]. unfold Arty_FindTarget. rewrite HU. simpl.
  destruct (unit_range_serves _ _ _ S HU) as [r Hr]. rewrite Hr. simpl. case_match; [|by apply returns_ret].
  case_match; [|by apply returns_ret]. eapply returns_bind; [by eapply upd_plan_serves|]. intros w1 S1. by apply returns_ret.
Qed.
End serving.
End theory.
