(* ===== verification/FighterCalm.v ===== *)
(** * FighterCalm: the classes' own work is calm

    The parts of [Start], [Update] and the callbacks of the fighters' classes that neither assign nor
    remove units return and are calm: [Execute] of the units that fight alone, the squads' search for an
    enemy with its fallbacks, regrouping, the flagship weapon, the way back of a retreat. *)

From stdpp Require Import sorting.
From S2P Require Import Prelude Float32 EnemyUnit EnemyGroups ActionList TaskData TaskCore TaskClasses TaskTheory TaskInvariant TaskSteps.
From S2P Require Import TaskStop TaskLeave TaskNew TaskJoin MilitaryTasks Targets FighterCore FighterTasks MilitaryTheory TaskMove TaskCalm FighterTheory.

Open Scope circuit_scope.

(** One step of a computation: the first part returns by the lemma given, and the rest goes on from its result. *)
Ltac step_by lem := eapply returns_bind; [by eapply lem|].
Ltac serve lem := step_by lem; let w := fresh "w" in let S := fresh "S" in intros w S.

(** The leader is the one that is known to lead. *)
Ltac find_leader :=
  step_by get_leader_returns; let l' := fresh "l'" in let L' := fresh "L" in let Hl := fresh "Hl" in let HL := fresh "HL" in let HR := fresh "HR" in
  intros [l' L'] (Hl & HL & HR); simpl in Hl, HL, HR; subst l'; cbv beta iota zeta.

Section calm_work.
Context {E : Engine} {H : Heap} {TE : TaskEngine} {P : Policy} {TA : Tactics}.
Context (lost X : gset Z) (w0 : World) (W0 : world_ok lost X w0).
Notation serves := (serves w0).

Section one_task.
Context (t : Z) (ft : FightType) (F : fighter_at t ft w0).

Lemma at_task : is_Some (tasks w0 !! t).
Proof. by eapply fighter_task_at. Qed.

(** ** Units that fight alone *)

Section one_unit.
Context (u : Z) (Hu : walks u w0) (Hin : works_in t u w0).

Lemma unit_known : known u w0.
Proof. by apply walks_known. Qed.
Lemma ask_unit w : serves w → returns (ask t u w) serves.
Proof. intros S. eapply ask_serves; [done..|apply unit_known]. Qed.
Lemma Scout_Fallback_serves b w : serves w → returns (Scout_Fallback t u b w) serves.
Proof.
  intros S. step_by GetTravelAct_returns. intros a _. step_by get_fighter_returns. intros f _.
  eapply (returns_bind _ _ serves); [case_match; [by apply returns_ret|by eapply go_to_serves]|]. intros w1 S1.
  step_by task_pos_returns. intros p _.
  eapply (returns_bind _ _ serves); [case_match; [by apply returns_ret|by eapply go_to_serves]|]. intros w2 S2. by apply ask_unit.
Qed.
Lemma Lone_Fallback_serves c b w : serves w → returns (Lone_Fallback c t u b w) serves.
Proof.
  intros S. step_by GetTravelAct_returns. intros a _. step_by get_fighter_returns. intros f _.
  eapply (returns_bind _ _ serves); [case_match; [by apply returns_ret|by eapply go_to_serves]|]. intros w1 S1.
  step_by task_pos_returns. intros p _. case_match; [by apply ask_unit|]. case_match; [by apply returns_ret|].
  serve go_to_serves. by apply order_wait_serves.
Qed.
(** The unit remembers what it was sent after. *)
Lemma aim_unit e w : serves w → returns (upd_unit u (λ U, unit_with_target (Some e) (u_targetTile U) U) w) serves.
Proof. intros S. eapply on_unit_serves; [done|apply unit_known|done]. Qed.
Lemma Scout_Execute_serves b w : serves w → returns (Scout_Execute t u b w) serves.
Proof.
  intros S. eapply returns_bind; [eapply Scout_FindTarget_serves; [done..|apply unit_known]|]. intros [found w1] S1. simpl in S1.
  step_by get_fighter_returns. intros f _. case_match.
  - serve go_to_serves. eapply (returns_bind _ _ serves); [case_match; [by apply returns_ret|by apply aim_unit]|]. intros w3 S3. by apply order_wait_serves.
  - eapply returns_bind; [by eapply ready_returns; [|apply at_task]|]. intros r _. case_match; [by apply returns_ret|].
    case_match; [by apply Scout_Fallback_serves|by apply ask_unit].
Qed.
Lemma Bomb_Execute_serves b w : serves w → returns (Bomb_Execute t u b w) serves.
Proof.
  intros S. unfold Bomb_Execute. destruct (fighter_serves _ _ _ W0 _ _ _ S F) as (T & f & HT & Hk & Hft & He). rewrite HT. simpl.
  unfold fighter_of. rewrite Hk. simpl. case_match.
  - eapply (returns_bind _ _ serves); [case_match; [apply order_serves; [done|apply unit_known]|by apply returns_ret]|]. intros w1 S1. by eapply SetTarget_serves.
  - eapply returns_bind; [eapply Bomb_FindTarget_serves; [done..|apply unit_known|done]|]. intros [p w1] S1. simpl in S1.
    step_by get_fighter_returns. intros f' _. case_match.
    + serve go_to_serves. eapply (returns_bind _ _ serves); [case_match; [apply order_serves; [done|apply unit_known]|by apply returns_ret]|].
      intros w3 S3. by apply upd_travel_serves.
    + eapply returns_bind; [by eapply ready_returns; [|apply at_task]|]. intros r _. case_match; [by apply returns_ret|].
      case_match; [by apply ask_unit|by apply Lone_Fallback_serves].
Qed.
Lemma Arty_Execute_serves b w : serves w → returns (Arty_Execute t u b w) serves.
Proof.
  intros S. eapply returns_bind; [eapply Arty_FindTarget_serves; [done..|apply unit_known]|]. intros [[best ps] w1] S1. simpl in S1.
  case_match; [by apply order_wait_serves|]. eapply returns_bind; [by eapply ready_returns; [|apply at_task]|]. intros r _.
  case_match; [by apply returns_ret|]. case_match; [by apply Lone_Fallback_serves|by apply ask_unit].
Qed.
Lemma Execute_serves ft' b w : serves w → returns (Execute ft' t u b w) serves.
Proof. intros S. destruct ft'; by (apply Scout_Execute_serves || apply Bomb_Execute_serves || apply Arty_Execute_serves). Qed.
Lemma execute_forced_serves ft' w : serves w → returns (execute_forced ft' t w u) serves.
Proof.
  intros S. eapply returns_bind; [eapply force_serves; [done..|apply unit_known]|]. intros [b w1] S1. simpl in S1.
  case_match; [by apply Execute_serves|by apply returns_ret].
Qed.
Lemma Squad_Start_serves w : serves w → returns (Squad_Start t u w) serves.
Proof.
  intros S. unfold Squad_Start. destruct (fighter_serves _ _ _ W0 _ _ _ S F) as (T & f & HT & Hk & Hft & He). rewrite HT. simpl.
  unfold fighter_of. rewrite Hk. simpl. case_match; [by apply returns_ret|by apply follow_serves].
Qed.
Lemma Lone_Apply_serves ft' a r w : serves w → awaits ft' a = true → match ft' with SCOUT | BOMB | ARTY => True | _ => False end → returns (Lone_Apply ft' a r t u w) serves.
Proof.
  intros S Ha Hl. assert (∀ w, serves w → returns (Arty_FallbackBasePos t u w) serves) as Hb.
  { intros w' S'. serve go_to_serves. by apply ask_unit. }
  assert (∀ w, serves w → returns (Lone_ApplyScout ft' r t u w) serves) as Hs.
  { intros w' S'. unfold Lone_ApplyScout. destruct (bool_decide _); [by apply follow_serves|]. destruct ft'; try (by apply order_wait_serves);
      (serve go_to_serves; by apply order_wait_serves). }
  destruct ft'; try done; destruct a; try done; simpl; unfold lone_along; repeat case_match;
    first [by apply Hs|by apply Hb|by apply Scout_Fallback_serves|by apply Lone_Fallback_serves|by apply follow_serves|
           serve go_to_serves; by apply follow_serves].
Qed.
End one_unit.

Lemma Support_Start_serves u w : serves w → known u w0 → returns (Support_Start t u w) serves.
Proof.
  intros S Hu. destruct at_task as [T0 HT0]. destruct (task_serves _ _ _ _ S HT0) as (T & HT & _). unfold Support_Start. rewrite HT. simpl.
  case_match; [by apply returns_ret|]. serve order_serves. by apply set_tstate_serves, at_task.
Qed.
Lemma Super_Start_serves u w : serves w → known u w0 → returns (Super_Start t u w) serves.
Proof.
  intros S Hu. destruct (known_serves _ _ _ S Hu) as [U HU]. unfold Super_Start. rewrite HU. simpl. by eapply upd_plan_serves.
Qed.
End one_task.

(** ** Retreats *)

(** A retreat at [t], whose repairer is known. *)
Definition retreat_at (t : Z) : Prop := ∃ T r, tasks w0 !! t = Some T ∧ kind T = RetreatTask r ∧ ∀ v, r = Some v → known v w0.
Lemma retreat_serves t w : serves w → retreat_at t → ∃ T r, tasks w !! t = Some T ∧ kind T = RetreatTask r ∧ ∀ v, r = Some v → known v w.
Proof.
  intros S (T0 & r & HT0 & Hk & Hr). destruct (task_serves _ _ _ _ S HT0) as (T & HT & Q). pose proof (ca_kind _ _ Q) as Hk'. rewrite Hk in Hk'. simpl in Hk'.
  exists T, r. split_and!; [done|by destruct (kind T)|]. intros v Hv. eapply known_serves; [done|auto].
Qed.
(** A unit of a retreat: its travel action may be missing. *)
Definition acts_fine (u : Z) (w : World) : Prop := ∃ U, units w !! u = Some U ∧ ptr_ok (u_travelAct U) U ∧ ptr_ok (u_dgunAct U) U.
Lemma acts_fine_serves u w : serves w → acts_fine u w0 → ∃ U, units w !! u = Some U ∧ ptr_ok (u_travelAct U) U ∧ ptr_ok (u_dgunAct U) U.
Proof.
  intros [C _ _] (U & HU & H1 & H2). destruct (cm_unit _ _ C _ _ HU) as (U' & HU' & K). exists U'. split_and!; [done|by apply K..].
Qed.
Lemma acts_fine_known u w : acts_fine u w → known u w.
Proof. intros (U & HU & _). by exists U. Qed.
Section one_retreat.
Context (t u : Z) (R : retreat_at t) (Hu : acts_fine u w0) (Hin : works_in t u w0).

Lemma retreat_known : is_Some (tasks w0 !! t).
Proof. destruct R as (T & r & HT & _). by exists T. Qed.
Lemma Retreat_Start_serves w : serves w → returns (Retreat_Start t u w) serves.
Proof.
  intros S. destruct (acts_fine_serves _ _ S Hu) as (U & HU & H1 & H2). unfold Retreat_Start. rewrite HU. simpl.
  destruct (u_travelAct U) as [a|] eqn:Ha; [|by apply returns_ret]. rewrite <-Ha in H1.
  assert (walks u w) as Hw by (by exists U; split_and!; [|rewrite Ha|..]).
  step_by GetTravelAct_now. intros x _. case_match; [by apply returns_ret|].
  destruct (retreat_serves _ _ S R) as (T & r & HT & Hk & Hr). rewrite HT. simpl. rewrite Hk.
  eapply (returns_bind _ _ (λ _, True)).
  { destruct r as [v|]; [|by apply returns_ret]. destruct (Hr v eq_refl) as [V HV]. rewrite HV. by apply returns_ret. }
  intros _ _. eapply returns_bind; [by apply upd_travel_now|]. intros w1 S1. case_match; [|by apply returns_ret].
  eapply ask_serves; [done..|by apply acts_fine_known].
Qed.
Lemma finish_travel_serves w : serves w → returns (finish_travel u w) serves.
Proof.
  intros S. destruct (acts_fine_serves _ _ S Hu) as (U & HU & H1 & H2). unfold finish_travel. rewrite HU. simpl.
  destruct (u_travelAct U) as [a|] eqn:Ha; [|by apply returns_ret]. rewrite <-Ha in H1. apply upd_travel_now; [done|done|].
  exists U. by split_and!; [|rewrite Ha|..].
Qed.
Lemma Retreat_OnUnitIdle_serves w : serves w → returns (Retreat_OnUnitIdle t u w) serves.
Proof.
  intros S. destruct (acts_fine_serves _ _ S Hu) as (U & HU & H1 & H2). unfold Retreat_OnUnitIdle. rewrite HU. simpl.
  destruct (retreat_serves _ _ S R) as (T & r & HT & Hk & Hr). rewrite HT. simpl. pose proof (acts_fine_known _ _ Hu) as Hkn.
  case_match; [case_match|].
  - by apply set_tstate_serves, retreat_known.
  - step_by finish_travel_serves. intros w1 S1. serve order_serves. by apply set_tstate_serves, retreat_known.
  - unfold retreat_haven. rewrite HT. simpl. rewrite Hk. eapply (returns_bind _ _ (λ _, True)).
    { eapply (returns_bind _ _ (λ _, True)); [|intros h _; by apply returns_ret].
      destruct r as [v|]; [|by apply returns_ret]. destruct (Hr v eq_refl) as [V HV]. rewrite HV. by apply returns_ret. }
    intros haven _. serve order_serves. case_match; [by apply returns_ret|]. step_by finish_travel_serves. intros w2 S2. by apply set_tstate_serves, retreat_known.
Qed.
Lemma Retreat_OnUnitDamaged_serves w : serves w → returns (Retreat_OnUnitDamaged t u w) serves.
Proof.
  intros S. destruct (retreat_serves _ _ S R) as (T & r & HT & _). unfold Retreat_OnUnitDamaged. rewrite HT. simpl.
  case_match; [by apply returns_ret|]. eapply returns_bind; [by apply set_tstate_serves; [|apply retreat_known]|]. intros w1 S1.
  destruct (acts_fine_serves _ _ S1 Hu) as (U & HU & H1 & H2). rewrite HU. simpl.
  eapply (returns_bind _ _ (λ w, serves w ∧ walks u w)).
  - destruct (u_travelAct U) as [a|] eqn:Ha.
    + apply returns_ret. rewrite <-Ha in H1. split; [done|]. exists U. by split_and!; [|rewrite Ha|..].
    + destruct (PushTravelAct_kept false U) as (K1 & K2 & K3). destruct (upd_unit_serves _ u (PushTravelAct false) w1 U S1 HU K1) as (w2 & E2 & S2).
      exists w2. split; [done|]. split; [done|]. unfold upd_unit in E2. rewrite HU in E2. injection E2 as <-. exists (PushTravelAct false U).
      simpl. split_and!; [by rewrite lookup_insert_eq|done|done|]. by apply K1.
  - intros w2 [S2 Hw2]. eapply returns_bind; [by apply upd_travel_now|]. intros w3 S3. by apply Retreat_Start_serves.
Qed.
End one_retreat.

(** ** Squads *)

Section one_squad.
Context (t : Z) (ft : FightType) (l : Z) (F : fighter_at t ft w0) (L : leads t l w0) (A : all_walk t w0).

Lemma squad_task : is_Some (tasks w0 !! t).
Proof. clear lost X W0. by eapply fighter_task_at. Qed.
Lemma ask_l w : serves w → returns (ask t l w) serves.
Proof. clear lost X W0. intros S. eapply ask_serves; [done|by eapply leads_works|by eapply leads_known]. Qed.
Lemma ask_leader_serves w : serves w → returns (ask_leader t w) serves.
Proof. intros S. find_leader. by apply ask_l. Qed.
Lemma FallbackFrontPos_serves w : serves w → returns (FallbackFrontPos t w) serves.
Proof. intros S. find_leader. case_match; by apply ask_leader_serves. Qed.
Lemma FallbackRaid_serves w : walks l w0 → serves w → returns (FallbackRaid t w) serves.
Proof.
  intros Hw S. find_leader. step_by GetTravelAct_returns.
  intros a _. step_by get_fighter_returns. intros f _.
  eapply (returns_bind _ _ serves); [case_match; [by eapply go_to_serves|by apply returns_ret]|]. intros w1 S1. step_by task_pos_returns. intros p _.
  eapply (returns_bind _ _ serves); [case_match; [by apply returns_ret|by eapply go_to_serves]|]. intros w2 S2. by apply ask_l.
Qed.
Lemma with_commander_returns w : serves w → returns (with_commander t w) (λ _, True).
Proof. intros S. unfold with_commander. case_match; [find_leader|]; by apply returns_ret. Qed.
Lemma AA_FallbackCommPos_serves w : serves w → returns (AA_FallbackCommPos t w) serves.
Proof. intros S. step_by with_commander_returns. intros c _. by apply all_wait_serves. Qed.
Lemma AA_FallbackSafePos_serves w : serves w → returns (AA_FallbackSafePos t w) serves.
Proof.
  intros S. find_leader. case_match; [by apply AA_FallbackCommPos_serves|by apply ask_l].
Qed.
Lemma AH_FallbackCommPos_serves w : serves w → returns (AH_FallbackCommPos t w) serves.
Proof.
  intros S. step_by with_commander_returns. intros c _. eapply (returns_bind _ _ serves); [case_match; [by apply returns_ret|by eapply go_to_serves]|].
  intros w1 S1. by apply all_wait_serves.
Qed.
Lemma AH_FallbackBasePos_serves w : serves w → returns (AH_FallbackBasePos t w) serves.
Proof. intros S. serve go_to_serves. by apply ask_leader_serves. Qed.
Lemma AH_FallbackStaticSafe_serves w : serves w → returns (AH_FallbackStaticSafe t w) serves.
Proof.
  intros S. find_leader. case_match; [by apply AH_FallbackBasePos_serves|by apply ask_l].
Qed.
Lemma AH_FallbackAttackSafe_serves w : serves w → returns (AH_FallbackAttackSafe t w) serves.
Proof.
  intros S. find_leader. case_match; [by apply AH_FallbackBasePos_serves|].
  case_match; [by apply AH_FallbackStaticSafe_serves|by apply ask_l].
Qed.
(** *** Looking for an enemy *)

Lemma seek_returns Q found fallback w : serves w → (∀ w, serves w → Q w) → (∀ w, serves w → returns (fallback t w) Q) → returns (seek found fallback t w) Q.
Proof.
  intros S HQ Hf. find_leader. eapply returns_bind; [by eapply ready_returns; [|apply squad_task]|].
  intros r _. case_match; [apply returns_ret; auto|]. case_match; [|by apply Hf]. eapply returns_mono; [by apply ask_l|done].
Qed.
Lemma set_state_keeps_target s w w' f : set_tstate s t w = Some w' → get_fighter t w = Some f → get_fighter t w' = Some f.
Proof.
  clear. unfold set_tstate, upd_task, get_fighter. destruct (tasks w !! t) as [T|] eqn:HT; [|done]. simpl. intros [= <-] Hf. simpl. by rewrite lookup_insert_eq.
Qed.
Lemma engage_serves f w : serves w → get_fighter t w = Some f → target f ≠ None → returns (engage t w) serves.
Proof.
  intros S Hf Ht. destruct (set_tstate_serves _ ENGAGE t w S squad_task) as (w1 & E1 & S1). unfold engage. rewrite E1. simpl.
  eapply Attack_serves; [done..|]. intros f' Hf'. rewrite (set_state_keeps_target _ _ _ _ E1 Hf) in Hf'. by injection Hf' as <-.
Qed.
Lemma fighter_now w : serves w → ∃ f, get_fighter t w = Some f ∧ ∀ e, target f = Some e → is_Some (enemies w !! e).
Proof. intros S. destruct (get_fighter_returns _ _ _ W0 _ _ _ S F) as (f & Hf & _ & _ & He). by exists f. Qed.
(** [Attack] where the target is known to be there, and the search otherwise. *)
Lemma engaged_target range p f : engaged range p f = true → target f ≠ None.
Proof. unfold engaged. by destruct (target f). Qed.
Lemma Attack_act_serves w : serves w → returns (Attack_act t w) serves.
Proof.
  intros S. find_leader.
  eapply (returns_bind _ _ serves); [case_match; [by eapply SetTarget_serves|by eapply Attack_FindTarget_serves]|]. intros w1 S1.
  eapply returns_bind; [by apply set_tstate_serves; [|apply squad_task]|]. intros w2 S2. destruct (fighter_now _ S2) as (f & Hf & He). rewrite Hf. simpl.
  case_match eqn:Heng; [eapply engage_serves; [done..|by eapply engaged_target]|]. apply seek_returns; [done..|]. apply FallbackFrontPos_serves.
Qed.
Lemma AA_act_serves w : serves w → returns (AA_act t w) serves.
Proof.
  intros S. step_by AA_FindTarget_serves. intros w1 S1. find_leader.
  eapply returns_bind; [by apply set_tstate_serves; [|apply squad_task]|]. intros w2 S2. destruct (fighter_now _ S2) as (f & Hf & He). rewrite Hf. simpl.
  case_match eqn:Heng; [eapply engage_serves; [done..|by eapply engaged_target]|]. apply seek_returns; [done..|]. apply AA_FallbackSafePos_serves.
Qed.
Lemma go_to_keeps p w w' f : go_to p t w = Some w' → get_fighter t w = Some f → get_fighter t w' = Some (with_plan (with_position p (plan f)) f).
Proof. clear. intros H1 Hf. destruct (upd_fighter_get _ _ _ _ H1) as (f' & Hf' & Hg). rewrite Hf in Hf'. by injection Hf' as <-. Qed.
Lemma Defend_act_serves w : on_map → serves w → returns (Defend_act t w) serves.
Proof.
  intros M S. step_by Defend_FindTarget_serves. intros [ps w1] [S1 Hps]. simpl in *. find_leader.
  destruct (set_tstate_serves _ ROAM t w1 S1 squad_task) as (w2 & E2 & S2). rewrite E2. simpl. destruct (fighter_now _ S2) as (f & Hf & He). rewrite Hf. simpl.
  case_match eqn:Heng; [|apply seek_returns; [done..|]; apply FallbackFrontPos_serves].
  eapply engage_serves; [done..|]. intros Hn. apply andb_true_iff in Heng as [Heng _]. rewrite Hn, (bool_decide_eq_true_2 (None = None)) in Heng by done. simpl in Heng.
  destruct Hps as (f' & Hf' & Ht'); [intros ->; done|]. apply (set_state_keeps_target _ _ _ _ E2) in Hf'. congruence.
Qed.
(** The units of the squad can walk. *)
Lemma each_walks w (body : World → Z → option World) :
  serves w → (∀ w u, serves w → walks u w0 → returns (body w u) serves) → returns (each body t w) serves.
Proof. intros S. by apply each_walking. Qed.
Lemma Raid_act_serves w : walks l w0 → serves w → returns (Raid_act t w) serves.
Proof.
  intros Hl S. step_by Raid_FindTarget_serves. intros [[found ps] w1] S1. simpl in S1.
  eapply returns_bind; [by apply set_tstate_serves; [|apply squad_task]|]. intros w2 S2. destruct (fighter_now _ S2) as (f & Hf & He). rewrite Hf. simpl.
  destruct (target f) as [e|] eqn:Ht; [|apply seek_returns; [done..|]; intros; by apply FallbackRaid_serves].
  destruct (set_tstate_serves _ ENGAGE t w2 S2 squad_task) as (w3 & E3 & S3). rewrite E3. simpl. apply (set_state_keeps_target _ _ _ _ E3) in Hf.
  assert (returns (go_to (ePos w3 e) t w3) serves) as (w4 & E4 & S4) by (by eapply go_to_serves). rewrite E4. simpl. apply (go_to_keeps _ _ _ _ E4) in Hf.
  find_leader. case_match; [by apply all_wait_serves|]. eapply Attack_serves; [done..|]. intros f' Hf'. rewrite Hf in Hf'. injection Hf' as <-. simpl. by rewrite Ht.
Qed.
Lemma subattack_serves e w pow u : serves w → walks u w0 → returns (subattack e (w, pow) u) (λ x, serves x.1).
Proof.
  intros S Hu. destruct (known_serves _ _ _ S (walks_known _ _ Hu)) as [U HU]. unfold subattack. rewrite HU. simpl.
  eapply (returns_bind _ _ serves); [destruct (u_dgunAct U) eqn:Hd; [|by apply returns_ret]; rewrite <-Hd; by eapply dgun_serves; [..|rewrite Hd]|].
  intros w1 S1. step_by upd_travel_serves. intros w2 S2.
  eapply (returns_bind _ _ serves); [|intros w3 S3; by apply returns_ret]. case_match; [|by apply returns_ret].
  eapply (returns_bind _ _ serves); [case_match; [by apply returns_ret|by eapply on_unit_serves; [..|by apply walks_known|]]|].
  intros w3 S3. by apply order_serves, walks_known.
Qed.
(** The hunt for heavy units may end. *)
Section hunt.
Context (Q : World → Prop) (HQ : ∀ w, serves w → Q w) (Hend : ∀ w, serves w → returns (AbortTask t w) Q).
Lemma AH_FallbackTargetEmpty_returns w : serves w → returns (AH_FallbackTargetEmpty t w) Q.
Proof. intros S. find_leader. case_match; [by apply Hend|]. eapply returns_mono; [by apply AH_FallbackAttackSafe_serves|done]. Qed.
Lemma AH_act_returns w : serves w → returns (AH_act t w) Q.
Proof.
  intros S. find_leader. case_match.
  { eapply returns_bind; [by eapply ready_returns; [|apply squad_task]|]. intros r _. case_match; [|apply returns_ret; auto].
    eapply returns_mono; [by apply AH_FallbackAttackSafe_serves|done]. }
  step_by AH_FindTarget_serves. intros [[found ps] w1] S1. simpl in S1.
  eapply returns_bind; [by apply set_tstate_serves; [|apply squad_task]|]. intros w2 S2.
  destruct (fighter_serves _ _ _ W0 _ _ _ S2 F) as (T & f & HT & Hk & _ & He). rewrite HT. simpl. unfold fighter_of. rewrite Hk. simpl.
  destruct (target f) as [e|] eqn:Ht; [|apply seek_returns; [done..|]; intros; by apply AH_FallbackTargetEmpty_returns].
  eapply returns_bind; [by apply set_tstate_serves; [|apply squad_task]|]. intros w3 S3. serve go_to_serves.
  eapply (returns_bind _ _ (λ x, serves x.1)); [|intros [w5 pow] S5; apply returns_ret; apply HQ, S5]. destruct A as (T0 & HT0 & Hall).
  apply (returns_fold (λ x, serves x.1)); [done|]. intros [w5 pow] u Hu S5. apply subattack_serves; [done|]. apply Hall.
  destruct (task_serves _ _ _ _ S2 HT0) as (T1 & HT1 & Q1). rewrite <-(ca_units _ _ Q1). replace T1 with T by congruence. by apply elem_of_in_order.
Qed.
End hunt.

(** *** Regrouping *)

Lemma add_valid_returns w u ps : serves w → known u w0 → returns (add_valid w ps u) (λ _, True).
Proof.
  intros S Hu. destruct (known_serves _ _ _ S Hu) as [U HU]. unfold add_valid, is_mobile. rewrite HU. by apply returns_ret.
Qed.
Lemma drop_stuck_serves p frame d w u : serves w → known u w0 → returns (drop_stuck p frame d w u) serves.
Proof.
  intros S Hu. destruct (known_serves _ _ _ S Hu) as [U HU]. unfold drop_stuck. rewrite HU. simpl. case_match; [|by apply returns_ret].
  serve order_serves. by apply returns_ret, Garbage_serves.
Qed.
Lemma roam_serves (b : bool) w : serves w → returns (w ← set_tstate ROAM t w; Some (b, w)) (λ x, serves x.2).
Proof. intros S. eapply returns_bind; [by apply set_tstate_serves; [|apply squad_task]|]. intros w1 S1. by apply returns_ret. Qed.
Lemma IsMustRegroup_serves w : serves w → returns (IsMustRegroup t w) (λ x, serves x.2).
Proof.
  intros S. destruct (fighter_serves _ _ _ W0 _ _ _ S F) as (T & f & HT & Hk & _). unfold IsMustRegroup. rewrite HT. simpl. unfold fighter_of at 1. rewrite Hk. simpl.
  case_match; [by apply returns_ret|]. find_leader. case_match; [by apply roam_serves|].
  eapply (returns_bind _ _ (λ _, True)).
  { destruct A as (T0 & HT0 & Hall). apply (returns_fold (λ _, True)); [done|]. intros ps u Hu _. apply add_valid_returns; [done|]. apply walks_known, Hall.
    destruct (task_serves _ _ _ _ S HT0) as (T1 & HT1 & Q1). rewrite <-(ca_units _ _ Q1). replace T1 with T by congruence. by apply elem_of_in_order. }
  intros vs _. case_match; [by apply roam_serves|]. case_match.
  { eapply returns_bind; [apply each_walks; [done|]; intros w1 u S1 Hu; by apply drop_stuck_serves, walks_known|]. intros w1 S1. by apply roam_serves. }
  eapply (returns_bind _ _ serves); [case_match; [by apply returns_ret|by eapply upd_plan_serves]|]. intros w1 S1.
  destruct (fighter_now _ S1) as (f1 & Hf1 & _). rewrite Hf1. simpl. case_match; [by apply roam_serves|].
  eapply returns_bind; [by apply set_tstate_serves; [|apply squad_task]|]. intros w2 S2. case_match; [by apply returns_ret|].
  eapply (returns_bind _ _ serves).
  { case_match; [|by apply returns_ret]. eapply returns_bind; [eapply order_serves; [done|by eapply leads_known]|]. intros w3 S3. by apply returns_ret, Garbage_serves. }
  intros w3 S3. serve upd_plan_serves. by apply returns_ret.
Qed.
Lemma squad_now w : serves w → is_Some (tasks w !! t).
Proof. intros S. destruct (fighter_serves _ _ _ W0 _ _ _ S F) as (T & f & HT & _). by exists T. Qed.
Lemma regroup_serves w : serves w → returns (regroup t w) (λ x, serves x.2).
Proof.
  intros S. unfold regroup. destruct (squad_now _ S) as [T HT]. rewrite HT. simpl. step_by IsMustRegroup_serves. intros [must w1] S1. simpl in S1.
  destruct (squad_now _ S1) as [T1 HT1]. rewrite HT1. simpl. case_match; [|by apply returns_ret].
  eapply (returns_bind _ _ serves); [case_match; [by apply all_wait_serves|by apply returns_ret]|]. intros w2 S2. by apply returns_ret.
Qed.
Lemma resume_serves b w : serves w → returns (resume b t w) serves.
Proof.
  intros S. unfold resume. destruct (fighter_now _ S) as (f & Hf & _). rewrite Hf. simpl. case_match; [by apply ActivePath_serves|by apply returns_ret].
Qed.
Lemma near_pos_returns w : serves w → returns (near_pos t w) (λ _, True).
Proof. intros S. find_leader. destruct (fighter_now _ S) as (f & Hf & _). rewrite Hf. by apply returns_ret. Qed.
Lemma disengaging_serves w : serves w → returns (disengaging t w) (λ x, serves x.2).
Proof.
  intros S. unfold disengaging. destruct (squad_now _ S) as [T HT]. rewrite HT. simpl. case_match; [by apply returns_ret|]. case_match; [by apply returns_ret|].
  step_by near_pos_returns. intros b _. case_match; [by apply roam_serves|]. find_leader.
  eapply returns_bind; [by eapply ready_returns; [|apply squad_task]|]. intros r _.
  eapply (returns_bind _ _ serves); [case_match; [by apply ask_l|by apply returns_ret]|]. intros w1 S1. by apply returns_ret.
Qed.
Lemma is_execute_serves due w : serves w → returns (is_execute due t w) (λ x, serves x.2).
Proof. intros S. unfold is_execute. case_match; [by apply returns_ret|by apply any_forced_serves]. Qed.

(** *** The answers *)

Section answers.
Context (Q : World → Prop) (HQ : ∀ w, serves w → Q w).
Lemma ActivePath_returns w : serves w → returns (ActivePath t w) Q.
Proof. intros S. eapply returns_mono; [by apply ActivePath_serves|done]. Qed.
Lemma go_along_returns fallback r w : (∀ w, serves w → returns (fallback t w) Q) → serves w → returns (go_along fallback r t w) Q.
Proof. intros Hf S. unfold go_along. case_match; [|by apply Hf]. serve go_to_serves. by apply ActivePath_returns. Qed.
Lemma along_cells_returns fallback r w : (∀ w, serves w → returns (fallback t w) Q) → serves w → returns (along_cells fallback r t w) Q.
Proof. intros Hf S. unfold along_cells. case_match; [by apply Hf|]. case_match; [by apply ActivePath_returns|apply returns_ret; auto]. Qed.
Lemma along_returns fallback r w : (∀ w, serves w → returns (fallback t w) Q) → serves w → returns (along fallback r t w) Q.
Proof. intros Hf S. unfold along. case_match; [by apply Hf|by apply ActivePath_returns]. Qed.
End answers.
Lemma all_wait_t w : serves w → returns (all_wait t w) serves.
Proof. intros S. by apply all_wait_serves. Qed.
Lemma take_route_serves r w : serves w → returns (take_route r t w) serves.
Proof. intros S. by eapply upd_plan_serves. Qed.
Lemma Attack_Apply_serves a r w : awaits ATTACK a = true → serves w → returns (Attack_Apply a r t w) serves.
Proof.
  intros Ha S. serve take_route_serves. destruct a; try done; [apply along_returns|apply along_cells_returns|apply along_cells_returns];
    auto using all_wait_t; intros; apply ask_leader_serves; auto.
Qed.
Lemma Raid_Apply_serves a r w : walks l w0 → awaits RAID a = true → serves w → returns (Raid_Apply a r t w) serves.
Proof.
  intros Hl Ha S. serve take_route_serves. destruct a; try done; [apply go_along_returns; auto using FallbackRaid_serves|].
  case_match; [by apply ActivePath_serves|by apply all_wait_t].
Qed.
Lemma AA_Apply_serves a r w : awaits AA a = true → serves w → returns (AA_Apply a r t w) serves.
Proof.
  intros Ha S. serve take_route_serves. destruct a; try done.
  - apply along_returns; auto using all_wait_t.
  - apply along_cells_returns; auto. intros w2 S2. step_by all_wait_t. intros w3 S3. apply set_tstate_serves; [done|apply squad_task].
  - apply go_along_returns; auto using AA_FallbackCommPos_serves.
  - case_match; serve go_to_serves; [|by apply all_wait_t]. step_by ActivePath_serves. intros w3 S3. apply set_tstate_serves; [done|apply squad_task].
Qed.
Lemma AH_Apply_returns Q a r w : (∀ w, serves w → Q w) → (∀ w, serves w → returns (AbortTask t w) Q) → awaits AH a = true → serves w → returns (AH_Apply a r t w) Q.
Proof.
  intros HQ Hend Ha S. serve take_route_serves.
  assert (∀ (fb : Z → World → option World), (∀ w, serves w → returns (fb t w) serves) → ∀ w, serves w → returns (fb t w) Q) as HM.
  { intros fb Hfb w' S'. eapply returns_mono; [by apply Hfb|done]. }
  destruct a; try done; apply go_along_returns; auto.
  - intros w' S'. by apply AH_FallbackTargetEmpty_returns.
  - apply HM, AH_FallbackCommPos_serves.
  - apply HM, AH_FallbackStaticSafe_serves.
  - apply HM, AH_FallbackBasePos_serves.
Qed.
End one_squad.
End calm_work.
