(* ===== verification/FightMoves.v ===== *)
(** * FightMoves: fighters that leave

    [proceeds w w']: what an update, an answer or a blow may leave of the world.  Unlike calm steps
    ([TaskCalm]) these make new tasks, end tasks and move units; the invariant holds afterwards, no task
    that needs units is left without, whoever was employed still is and whoever led still exists.  Here are
    the steps the updates are made of: a unit is sent to retreat, units with empty shields retreat. *)

From stdpp Require Import sorting.
From S2P Require Import Prelude Float32 EnemyUnit ActionList TaskData TaskCore TaskClasses TaskTheory TaskInvariant TaskSteps.
From S2P Require Import TaskStop TaskLeave TaskNew TaskJoin MilitaryTasks Targets FighterCore FighterTasks MilitaryTheory TaskMove TaskCalm.
From S2P Require Import FighterTheory FighterCalm.

Open Scope circuit_scope.

Section moves.
Context {E : Engine} {H : Heap} {TE : TaskEngine} {P : Policy} {TA : Tactics}.

Lemma fighter_eq T f : kind T = FighterTask f → fighter_of T = Some f.
Proof. intros Hk. unfold fighter_of. by rewrite Hk. Qed.
Lemma get_fighter_eq t T f w : tasks w !! t = Some T → kind T = FighterTask f → get_fighter t w = Some f.
Proof. intros HT Hk. unfold get_fighter. rewrite HT. simpl. by apply fighter_eq. Qed.

(** ** Employed units *)

(** A unit that its manager [m] can give to another task. *)
Definition employed (m : ManagerId) (u : Z) (w : World) : Prop := ∃ U t T,
  units w !! u = Some U ∧ u_isDead U = false ∧ u_manager U = Some m ∧ u_task U = Some t ∧ tasks w !! t = Some T ∧ class_of (kind T) ≠ C_NIL.
Lemma member_employed lost X w t T u : world_ok lost X w → tasks w !! t = Some T → u ∈ t_units T → employed (manager T) u w.
Proof.
  intros W HT Hin. pose proof (wo_owned _ _ _ W) as O. destruct (member_unit _ _ _ _ _ O HT Hin) as (U & HU & Ht & Hg).
  destruct (unit_task _ _ _ _ _ _ W HU Ht) as (T' & HT' & Hm). assert (T' = T) as -> by congruence. exists U, t, T. split_and!; try done.
  intros Hc. pose proof (own_none _ _ O _ _ (skel_of_task _ _ _ HT) Hc) as He. simpl in He. rewrite He in Hin. by apply not_elem_of_empty in Hin.
Qed.
Lemma employed_known m u w : employed m u w → known u w.
Proof. intros (U & t & T & HU & _). by exists U. Qed.
(** Units that stay where they are, or idle, are employed. *)
Lemma stays_employed lost X w w' m v :
  world_ok lost X w → evolves w w' → (∀ V, units w !! v = Some V → stays w w' v V) → employed m v w → employed m v w'.
Proof.
  intros W Ev Hst (V & t & T & HV & Hg & Hm & Ht & HT & Hc). destruct (Hst V HV) as (V' & HV' & Ht').
  destruct (ev_unit _ _ Ev _ _ HV) as (V1 & HV1 & _ & _ & Hm1 & Hg1 & _). assert (V1 = V') as -> by congruence.
  destruct Ht' as [Ht'|(m' & Hm' & Ht')].
  - destruct (ev_task _ _ Ev _ _ HT) as (T' & HT' & _ & Hc' & _). exists V', t, T'. split_and!; congruence.
  - destruct (idle_task _ _ m' (wo_owned _ _ _ W)) as (I & Y & n & HI & HIk & _).
    destruct (ev_task _ _ Ev _ _ HI) as (I' & HI' & _ & Hc' & _). exists V', (idleTask w m'), I'. split_and!; try congruence. by rewrite Hc', HIk.
Qed.

(** ** What an event leaves *)

Record proceeds (w w' : World) : Prop := {
  pr_world : world_ok ∅ ∅ w';
  pr_goes :> goes w w';
  pr_employed m v : employed m v w → employed m v w';
  pr_lead t : is_Some (tasks w !! t) → lead_known t w → lead_known t w'
}.
Lemma proceeds_refl w : world_ok ∅ ∅ w → proceeds w w.
Proof. intros W. split; [done|apply goes_refl|done|done]. Qed.
Lemma proceeds_trans w1 w2 w3 : proceeds w1 w2 → proceeds w2 w3 → proceeds w1 w3.
Proof.
  intros [A1 A2 A3 A4] [B1 B2 B3 B4]. split; [done|by eapply goes_trans|auto|]. intros t Ht Hl. apply B4; [|by apply A4].
  destruct Ht as [T HT]. destruct (ev_task _ _ A2 _ _ HT) as (T' & HT' & _). by exists T'.
Qed.
Lemma calm_stays w w' v V : calm w w' → units w !! v = Some V → stays w w' v V.
Proof. intros C HV. destruct (cm_unit _ _ C _ _ HV) as (V' & HV' & K). exists V'. split; [done|]. left. apply K. Qed.
Lemma calm_proceeds w w' : world_ok ∅ ∅ w → calm w w' → proceeds w w'.
Proof.
  intros W C. pose proof (calm_goes _ _ C) as G. split; [by eapply calm_world|done| |].
  - intros m v. eapply stays_employed; [done|apply G|]. intros V HV. by apply calm_stays.
  - intros t [T HT] Hl T' f l HT' Hk Hs Hld. destruct (cm_task _ _ C _ _ HT) as (T1 & HT1 & Q). assert (T1 = T') as -> by congruence.
    pose proof (ca_kind _ _ Q) as Hck. rewrite Hk in Hck. destruct (kind T) as [| | | | |f0] eqn:Hk0; try discriminate. destruct Hck as (E1 & _ & E3 & _).
    eapply evolves_known; [apply G|]. apply (Hl T f0 l); congruence.
Qed.
Lemma serves_proceeds w w' : world_ok ∅ ∅ w → serves w w' → proceeds w w'.
Proof. intros W S. by apply calm_proceeds, S. Qed.
Lemma proceeds_serves w w1 w2 : proceeds w w1 → serves w1 w2 → proceeds w w2.
Proof. intros P1 S. eapply proceeds_trans; [done|]. apply serves_proceeds; [apply P1|done]. Qed.
(** From [m] on. *)
Lemma then_proceeds {A} w w1 (m : option A) (Q : A → World) : proceeds w w1 → returns m (λ x, proceeds w1 (Q x)) → returns m (λ x, proceeds w (Q x)).
Proof. intros P1 HR. eapply returns_mono; [exact HR|]. intros x P2. by eapply proceeds_trans. Qed.
Lemma calm_returns {A} w (m : option A) (Q : A → World) : world_ok ∅ ∅ w → returns m (λ x, serves w (Q x)) → returns m (λ x, proceeds w (Q x)).
Proof. intros W HR. eapply returns_mono; [exact HR|]. intros x S. by apply serves_proceeds. Qed.

(** *** Tasks that end *)

Lemma ended_proceeds t T w w' : world_ok ∅ ∅ w → world_ok ∅ ∅ w' → ended t T w w' → proceeds w w'.
Proof.
  intros W W' He. pose proof (ended_goes _ _ _ _ He) as G. split; [done|done| |].
  - intros m v. eapply stays_employed; [done|apply G|]. intros V HV.
    destruct (st_unit _ _ (en_settles _ _ _ _ He) _ _ HV) as (V' & HV' & _ & _ & _ & _ & _ & Ht). by exists V'.
  - intros t' [T' HT'] Hl. destruct (st_task _ _ (en_settles _ _ _ _ He) _ _ HT') as (T1 & HT1 & _ & _ & Hf & _).
    exact (lead_known_same t' T' T1 w w' G HT' HT1 Hf Hl).
Qed.
Lemma AbortTask_proceeds t T w :
  world_ok ∅ ∅ w → tasks w !! t = Some T → isDead T = false → stoppable (class_of (kind T)) = true → returns (AbortTask t w) (proceeds w).
Proof.
  intros W HT Hd Hs. destruct (AbortTask_ok ∅ ∅ t T w) as (w' & H1 & W' & He); [by eapply world_ok_weaken; [exact W|apply empty_subseteq]|done..|by intros ? ? ?%not_elem_of_empty|].
  exists w'. split; [done|]. by eapply ended_proceeds.
Qed.

(** *** Units that change their task *)

(** A living squad's leader is a unit of it. *)
Lemma living_lead lost w t T : world_ok lost ∅ w → tasks w !! t = Some T → isDead T = false → lead_known t w.
Proof.
  intros W HT Hd T' f l HT' Hk Hs Hl. assert (T' = T) as -> by congruence. destruct (wo_tasks _ _ _ W _ _ HT) as (G & _).
  destruct (G (not_elem_of_empty _)) as [_ Hled]. specialize (Hled Hd f Hk Hs). rewrite Hl in Hled.
  destruct (member_unit _ _ _ _ _ (wo_owned _ _ _ W) HT Hled) as (L & HL & _). by exists L.
Qed.
Lemma switched_proceeds t u T U w w' : world_ok ∅ ∅ w → may_switch t u T U w → switched t u T w w' → proceeds w w'.
Proof.
  intros W M [S1 S2 S3 S4 S5 S6 S7]. pose proof M as [M1 M2 M3 M4 M5 M6 M7 M8 _ _]. split; [done|by split| |].
  - intros m v Hem. destruct (decide (v = u)) as [->|Hne].
    + destruct Hem as (V & t0 & T0 & HV & Hg & Hm & _). assert (V = U) as -> by congruence.
      destruct S5 as (U' & HU' & Ht'). destruct (ev_unit _ _ S2 _ _ HV) as (U1 & HU1 & _ & _ & Hm1 & Hg1 & _). assert (U1 = U') as -> by congruence.
      destruct S3 as (T' & HT' & _ & _ & Hc' & _). exists U', t, T'. split_and!; congruence.
    + eapply stays_employed; [exact W|exact S2| |exact Hem]. intros V HV. by apply S6.
  - intros t' Ht' Hl. destruct (decide (t' = t)) as [->|Hne]; [|by apply S7].
    destruct S3 as (T' & HT' & Hd & _). by eapply living_lead.
Qed.

(** ** What units and squads can rely on *)

Lemma acts_at lost X w u U t T :
  world_ok lost X w → units w !! u = Some U → u_task U = Some t → tasks w !! t = Some T → class_of (kind T) ≠ C_IDLE →
  ptr_ok (u_dgunAct U) U ∧ ptr_ok (u_travelAct U) U ∧ (travels (class_of (kind T)) = true → is_Some (u_travelAct U)).
Proof.
  intros W HU Ht HT Hc. pose proof (wo_acts _ _ _ W u U t _ HU Ht (core_of_task _ _ _ HT)) as HA. unfold acts_ok in HA. simpl in HA.
  rewrite kclass_kcore in HA. by apply HA.
Qed.
Lemma member_acts lost X w t T u : world_ok lost X w → tasks w !! t = Some T → u ∈ t_units T → class_of (kind T) ≠ C_IDLE → acts_fine u w.
Proof.
  intros W HT Hin Hc. destruct (member_unit _ _ _ _ _ (wo_owned _ _ _ W) HT Hin) as (U & HU & Ht & _).
  destruct (acts_at _ _ _ _ _ _ _ W HU Ht HT Hc) as (H1 & H2 & _). by exists U.
Qed.
Lemma member_walks lost X w t T u : world_ok lost X w → tasks w !! t = Some T → u ∈ t_units T → travels (class_of (kind T)) = true → walks u w.
Proof.
  intros W HT Hin Htr. destruct (member_unit _ _ _ _ _ (wo_owned _ _ _ W) HT Hin) as (U & HU & Ht & _).
  assert (class_of (kind T) ≠ C_IDLE) as Hc by (by intros Hx; rewrite Hx in Htr).
  destruct (acts_at _ _ _ _ _ _ _ W HU Ht HT Hc) as (H1 & H2 & H3). exists U. split_and!; auto.
Qed.
Lemma member_works t T u w : tasks w !! t = Some T → u ∈ t_units T → class_of (kind T) ≠ C_IDLE → works_in t u w.
Proof. intros HT Hin Hc. by exists T. Qed.
Lemma retreat_is_at lost w t T r : world_ok lost ∅ w → tasks w !! t = Some T → kind T = RetreatTask r → isDead T = false → retreat_at w t.
Proof.
  intros W HT Hk Hd. exists T, r. split_and!; [done..|]. intros v ->.
  destruct (link_retreat _ _ _ _ (wo_links _ _ _ W) t (task_core T) v) as (R & tr & c & v' & id & G1 & _); [by apply core_of_task|done|apply RP_lookup; by exists T|].
  destruct (unit_of_core _ _ _ G1) as (V & HV & _). by exists V.
Qed.
(** The squad [t] with its leader [l]: it may have ended. *)
Record squad_at (t : Z) (ft : FightType) (l : Z) (w : World) : Prop := {
  sa_fighter : fighter_at t ft w;
  sa_leads : leads t l w;
  sa_walk : all_walk t w
}.
Lemma squad_ready lost w t T f l :
  world_ok lost ∅ w → tasks w !! t = Some T → kind T = FighterTask f → is_squad (fightType f) = true → leader (squad f) = Some l → lead_known t w →
  squad_at t (fightType f) l w.
Proof.
  intros W HT Hk Hs Hl Hlk. split.
  - by exists T, f.
  - exists T, f. split_and!; try done; [|by eapply Hlk]. exists T. split_and!; [done| |by rewrite Hk]. intros Hd.
    destruct (wo_tasks _ _ _ W _ _ HT) as (G & _). destruct (G (not_elem_of_empty _)) as [_ Hled]. specialize (Hled Hd f Hk Hs). by rewrite Hl in Hled.
  - exists T. split; [done|]. intros u Hu. eapply member_walks; [done..|]. rewrite Hk. simpl. by rewrite Hs.
Qed.
(** A living squad with units. *)
Lemma squad_living lost w t T f :
  world_ok lost ∅ w → tasks w !! t = Some T → kind T = FighterTask f → is_squad (fightType f) = true → isDead T = false → t_units T ≠ ∅ →
  ∃ l, l ∈ t_units T ∧ leader (squad f) = Some l ∧ squad_at t (fightType f) l w.
Proof.
  intros W HT Hk Hs Hd Hne. destruct (wo_tasks _ _ _ W _ _ HT) as (G & _). destruct (G (not_elem_of_empty _)) as [_ Hled]. specialize (Hled Hd f Hk Hs).
  destruct (leader (squad f)) as [l|] eqn:Hl; [|done]. exists l. split_and!; [done..|]. eapply squad_ready; [done..|by eapply living_lead].
Qed.

(** ** A unit retreats *)

(** The new task that gets the unit is not left without. *)
Lemma adds_fills t T u w w1 w' : adds t T w w1 → fills w1 w' → (∃ T', tasks w' !! t = Some T' ∧ u ∈ t_units T') → fills w w'.
Proof.
  intros A F (T' & HT' & Hu) t' Hv. destruct (decide (t' = t)) as [->|Hne].
  - destruct Hv as (T2 & HT2 & _ & _ & He). assert (T2 = T') as -> by congruence. rewrite He in Hu. by apply not_elem_of_empty in Hu.
  - destruct (F _ Hv) as (T2 & HT2 & Hr). destruct (adds_new _ _ _ _ A t' T2 HT2) as [->|HT0]; [done|]. by exists T2.
Qed.
Lemma adds_switch t T u U m w w' t0 T0 :
  world_ok ∅ ∅ w' → adds t T w w' → class_of (kind T) = C_RETREAT ∨ (∃ f, class_of (kind T) = C_FIGHTER f) → isDead T = false → manager T = m → t_units T = ∅ →
  units w !! u = Some U → u_isDead U = false → u_manager U = Some m → u_task U = Some t0 → tasks w !! t0 = Some T0 → class_of (kind T0) ≠ C_NIL →
  may_switch t u T U w'.
Proof.
  intros W' A Hc Hd Hm He HU Hg HmU Ht0 HT0 Hn. pose proof (ad_fresh _ _ _ _ A) as Hf. pose proof (ad_grows _ _ _ _ A) as G.
  assert (class_of (kind T) ≠ C_IDLE ∧ class_of (kind T) ≠ C_NIL ∧ class_of (kind T) ≠ C_REPAIR) as (N1 & N2 & N3) by (destruct Hc as [Hc|(f & Hc)]; by rewrite Hc).
  split; try done.
  - by apply (adds_lookup _ _ _ _ A).
  - by rewrite (gr_units _ _ G).
  - congruence.
  - exists t0, T0. split_and!; try done; [by apply (gr_tasks _ _ G)|congruence].
Qed.
(** New tasks are no squad's, and leave all units as they are. *)
Lemma grows_keeps w w' : grows w w' → (∀ m v, employed m v w → employed m v w') ∧ (∀ t, is_Some (tasks w !! t) → lead_known t w → lead_known t w').
Proof.
  intros G. split.
  - intros m v (V & t & T & HV & Hg & Hm & Ht & HT & Hc). exists V, t, T. rewrite (gr_units _ _ G). split_and!; try done. by apply (gr_tasks _ _ G).
  - intros t [T HT] Hl. refine (lead_known_same t T T w w' (grows_evolves _ _ G) HT _ eq_refl Hl). by apply (gr_tasks _ _ G).
Qed.
Lemma adds_proceeds t T u w w1 w' : adds t T w w1 → proceeds w1 w' → (∃ T', tasks w' !! t = Some T' ∧ u ∈ t_units T') → proceeds w w'.
Proof.
  intros A [P1 P2 P3 P4] Hu. pose proof (ad_grows _ _ _ _ A) as G. destruct (grows_keeps _ _ G) as [G1 G2]. split; [done| |auto|].
  - split; [eapply evolves_trans; [by apply grows_evolves|apply P2]|]. eapply adds_fills; [done|apply P2|done].
  - intros t' Ht' Hl. apply P4; [|by apply G2]. destruct Ht' as [T' HT']. exists T'. by apply (gr_tasks _ _ G).
Qed.
Lemma task_after w w' t T : evolves w w' → tasks w !! t = Some T → ∃ T', tasks w' !! t = Some T' ∧ class_of (kind T') = class_of (kind T).
Proof. intros Ev HT. destruct (ev_task _ _ Ev _ _ HT) as (T' & HT' & _ & Hc & _). by exists T'. Qed.

(** The unit is in a living retreat. *)
Definition retreats (u : Z) (w : World) : Prop := ∃ U t T r,
  units w !! u = Some U ∧ u_task U = Some t ∧ tasks w !! t = Some T ∧ kind T = RetreatTask r ∧ isDead T = false ∧ u ∈ t_units T.
Lemma retreats_serves u w w' : serves w w' → retreats u w → retreats u w'.
Proof.
  intros S (U & t & T & r & HU & Ht & HT & Hk & Hd & Hin). destruct (cm_unit _ _ (sv_calm _ _ S) _ _ HU) as (U' & HU' & K).
  destruct (task_serves _ _ _ _ S HT) as (T' & HT' & Q). exists U', t, T', r. pose proof (ca_kind _ _ Q) as Hk'. rewrite Hk in Hk'.
  split_and!; [done|by rewrite (uk_task _ _ K)|done|done|by rewrite (ca_dead _ _ Q)|by rewrite (ca_units _ _ Q)].
Qed.
Lemma send_back_ok u w : world_ok ∅ ∅ w → employed Military u w → returns (send_back u w) (λ w', proceeds w w' ∧ acts_fine u w' ∧ retreats u w').
Proof.
  intros W (U & t0 & T0 & HU & Hg & Hm & Ht0 & HT0 & Hc0). unfold send_back. destruct (EnqueueRetreat Military w) as [t w1] eqn:HE.
  destruct (EnqueueRetreat_ok ∅ ∅ Military w t w1 W HE) as [W1 A].
  assert (may_switch t u (retreat_task Military (lastFrame w)) U w1) as M by (eapply adds_switch; try done; by left).
  destruct (AssignTask_switch Retreat_Start t u _ U w1 W1 M) as (w2 & -> & S). pose proof (sw_world _ _ _ _ _ S) as W2.
  destruct (sw_task _ _ _ _ _ S) as (T2 & HT2 & Hd2 & Hm2 & Hc2 & Hu2). simpl in Hc2. assert (u ∈ t_units T2) as Hin by (rewrite Hu2; set_solver).
  destruct (kind T2) as [| | |r| |] eqn:Hk2; try discriminate. assert (class_of (kind T2) ≠ C_IDLE) as Hci by (by rewrite Hk2).
  pose proof (member_acts _ _ _ _ _ _ W2 HT2 Hin Hci) as Hacts.
  assert (returns (Retreat_Start t u w2) (serves w2)) as (w3 & H3 & S3).
  { eapply Retreat_Start_serves; [by eapply retreat_is_at|done|by eapply member_works|apply serves_refl]. }
  exists w3. split; [done|]. split_and!.
  - eapply (adds_proceeds t _ u w w1 w3); [done| |].
    + eapply proceeds_serves; [by eapply switched_proceeds|done].
    + destruct (task_serves _ _ _ _ S3 HT2) as (T3 & HT3 & Q). exists T3. split; [done|]. by rewrite (ca_units _ _ Q).
  - destruct (acts_fine_serves _ _ _ S3 Hacts) as (U3 & HU3 & K1 & K2). by exists U3.
  - apply (retreats_serves _ w2); [done|]. destruct (sw_unit _ _ _ _ _ S) as (U2 & HU2 & Ht2). by exists U2, t, T2, r.
Qed.

(** [IFighterTask::Update] *)
Lemma IFighter_Update_ok t T f w :
  world_ok ∅ ∅ w → tasks w !! t = Some T → kind T = FighterTask f → isDead T = false → returns (IFighter_Update t w) (proceeds w).
Proof.
  intros W HT Hk Hd. unfold IFighter_Update, get_fighter, fighter_of. rewrite HT. simpl. rewrite Hk. simpl.
  apply returns_fold; [by apply proceeds_refl|]. intros w1 u Hu%elem_of_in_order P1.
  destruct (wo_tasks _ _ _ W _ _ HT) as (_ & _ & G). rewrite Hk in G. destruct (G Hd) as [_ Hsh]. destruct (Hsh u Hu) as [Hin _].
  pose proof (member_employed _ _ _ _ _ _ W HT Hin) as Hem.
  destruct (fight_manager _ _ (wo_military _ _ _ W) t (task_core T) (fightType f) (target f) (promote f)) as [Hm _]; [by apply core_of_task|simpl; by rewrite Hk|].
  simpl in Hm. rewrite Hm in Hem. apply (pr_employed _ _ P1) in Hem. destruct (employed_known _ _ _ Hem) as [U HU]. unfold check_shield. rewrite HU. simpl.
  case_match; [by apply returns_ret|]. eapply returns_mono; [by eapply send_back_ok; [apply P1|]|]. intros w2 [P2 _]. by eapply proceeds_trans.
Qed.
End moves.
