(* ===== verification/Merging.v ===== *)
(** * Merging: one squad takes the units of another

    [ISquadTask::CheckMergeTask] finds a living squad to merge with, and [Merge] hands all units over at
    once: they change their task without idling in between, and the emptied task is aborted.  The
    invariant holds again when it has ended. *)

From stdpp Require Import sorting.
From S2P Require Import Prelude Float32 EnemyUnit ActionList TaskData TaskCore TaskClasses TaskTheory TaskInvariant TaskSteps.
From S2P Require Import TaskStop TaskLeave TaskNew TaskJoin MilitaryTasks Targets FighterCore FighterTasks MilitaryTheory TaskMove TaskCalm.
From S2P Require Import FighterTheory FighterCalm FightMoves.

Open Scope circuit_scope.

Section merging.
Context {E : Engine} {H : Heap} {TE : TaskEngine} {P : Policy} {TA : Tactics}.

(** ** Units change hands *)

(** The unit is in [c] now; its actions may have another state. *)
Definition taken (c frame : Z) (V V' : CCircuitUnit) : Prop := ukept (unit_with_task (Some c) frame V) V'.
Record transfers (c : Z) (X : gset Z) (w w' : World) : Prop := {
  tr_tasks : tasks w' = tasks w;
  tr_enemies : enemies w' = enemies w;
  tr_rest : untouched w w';
  tr_unit v V : units w !! v = Some V → ∃ V', units w' !! v = Some V' ∧ (v ∈ X → taken c (lastFrame w) V V') ∧ (v ∉ X → V' = V);
  tr_units v V' : units w' !! v = Some V' → is_Some (units w !! v)
}.
Lemma transfers_refl c w : transfers c ∅ w w.
Proof. split; try done. intros v V HV. exists V. split_and!; [done|by intros ?%not_elem_of_empty|done]. Qed.
Lemma transfers_one c X u U U' w w1 w2 :
  transfers c X w w1 → u ∉ X → units w1 !! u = Some U → taken c (lastFrame w) U U' →
  tasks w2 = tasks w1 → enemies w2 = enemies w1 → untouched w1 w2 → units w2 = <[u := U']> (units w1) → transfers c (X ∪ {[u]}) w w2.
Proof.
  intros [A1 A2 [R1 R2 R3 R4] A4 A5] Hu HU Hk HT HE [Q1 Q2 Q3 Q4] HU2. split; try congruence; [split; congruence|..]; rewrite HU2.
  - intros v V HV. destruct (A4 v V HV) as (V1 & HV1 & G1 & G2). destruct (decide (v = u)) as [->|Hne].
    + rewrite lookup_insert_eq. exists U'. split_and!; [done| |set_solver]. intros _. assert (V1 = U) as -> by congruence. by rewrite <-(G2 Hu).
    + rewrite lookup_insert_ne by done. exists V1. split_and!; [done|intros Hv; apply G1; set_solver|intros Hv; apply G2; set_solver].
  - intros v V' HV. destruct (decide (v = u)) as [->|Hne]; [by apply (A5 u U)|]. rewrite lookup_insert_ne in HV by done. by eapply A5.
Qed.
(** One unit changes its task, and the state of its travel action maybe. *)
Lemma unit_SetTask_eq c u U w : units w !! u = Some U → is_Some (u_manager U) →
  unit_SetTask c u w = Some (set_units (<[u := unit_with_task (Some c) (lastFrame w) U]> (units w)) w).
Proof. intros HU [m Hm]. unfold unit_SetTask, upd_unit. rewrite HU. simpl. rewrite Hm. done. Qed.
Lemma rookie_eq c st u U w :
  units w !! u = Some U → is_Some (u_manager U) → is_Some (u_travelAct U) → ptr_ok (u_travelAct U) U →
  ∃ U', rookie c st w u = Some (set_units (<[u := U']> (units w)) w) ∧ taken c (lastFrame w) U U'.
Proof.
  intros HU Hm Ht Hp. unfold rookie. rewrite (unit_SetTask_eq c u U w HU Hm). simpl. rewrite lookup_insert_eq. simpl.
  set (U1 := unit_with_task (Some c) (lastFrame w) U). destruct (IsRoleSupport (u_def U)); [exists U1; by split|].
  unfold upd_travel. simpl. rewrite lookup_insert_eq. simpl.
  destruct (on_action_kept (u_travelAct U) (set_state st) U1) as (U2 & -> & K); [done..|]. exists U2. split; [|done]. simpl.
  unfold upd_unit. simpl. rewrite lookup_insert_eq. simpl. unfold set_units. simpl. by rewrite insert_insert_eq.
Qed.
Lemma transfer_loop (body : World → Z → option World) c X w :
  (∀ u w1 U, u ∈ X → units w !! u = Some U → units w1 !! u = Some U → lastFrame w1 = lastFrame w →
     ∃ U', body w1 u = Some (set_units (<[u := U']> (units w1)) w1) ∧ taken c (lastFrame w) U U') →
  (∀ u, u ∈ X → is_Some (units w !! u)) →
  ∃ w', foldM body w (in_order X) = Some w' ∧ transfers c X w w'.
Proof.
  intros Hb HX. destruct (foldM_ind (λ pre w1, transfers c (list_to_set pre) w w1) body (in_order X) w) as (w' & H1 & H2).
  - apply transfers_refl.
  - intros pre u post w1 Hl A. pose proof (in_order_NoDup X) as Hnd. rewrite Hl in Hnd. apply NoDup_app in Hnd as (_ & Hnd & _).
    assert (u ∉ (list_to_set pre : gset Z)) as Hu by (intros Hin%elem_of_list_to_set; eapply Hnd; [exact Hin|left]).
    assert (u ∈ X) as HuX by (apply elem_of_in_order; rewrite Hl; set_solver). destruct (HX u HuX) as [U HU].
    destruct (tr_unit _ _ _ _ A u U HU) as (U1 & HU1 & _ & HeqU). specialize (HeqU Hu). subst U1.
    destruct (Hb u w1 U HuX HU HU1) as (U' & H1 & K); [apply (tr_rest _ _ _ _ A)|]. eexists. split; [done|].
    rewrite list_to_set_app_L. simpl. rewrite union_empty_r_L. by eapply transfers_one.
  - exists w'. split; [done|]. replace X with (list_to_set (in_order X) : gset Z) at 1; [done|].
    apply set_eq. intros x. by rewrite elem_of_list_to_set, elem_of_in_order.
Qed.

(** ** The dead task's units are in [c] *)

Lemma merge_world t c T C T' C' w w' :
  world_ok ∅ {[t]} w → tasks w !! t = Some T → isDead T = true → tasks w !! c = Some C → c ≠ t → manager C = manager T →
  (∃ ft, class_of (kind T) = C_FIGHTER ft ∧ class_of (kind C) = C_FIGHTER ft) →
  task_core T' = task_core T → t_units T' = ∅ → task_core C' = task_core C → t_units C' = t_units T ∪ t_units C → task_ok ∅ (UC w') c C' →
  tasks w' = <[t := T']> (<[c := C']> (tasks w)) → lists_kept w w' →
  (∀ v V, units w !! v = Some V → ∃ V', units w' !! v = Some V' ∧ (v ∈ t_units T → taken c (lastFrame w) V V') ∧ (v ∉ t_units T → V' = V)) →
  (∀ v V', units w' !! v = Some V' → is_Some (units w !! v)) → world_ok ∅ ∅ w'.
Proof.
  intros W HT Hd HC Hne Hmm (ft & Hct & Hcc) HT1 HT2 HC1 HC2 HCok HTs HL HU1 HU2. pose proof (wo_owned _ _ _ W) as O.
  assert (repairer_of T = None ∧ repairer_of C = None) as [R1 R2] by (unfold repairer_of; by destruct (kind T), (kind C)).
  assert (class_of (kind T') = class_of (kind T) ∧ class_of (kind C') = class_of (kind C)) as [K1 K2].
  { injection HT1 as _ _ Hk1. injection HC1 as _ _ Hk2. rewrite <-!kclass_kcore, Hk1, Hk2. done. }
  assert (repairer_of T' = None ∧ repairer_of C' = None) as [R3 R4] by (rewrite Hct in K1; rewrite Hcc in K2; unfold repairer_of; by destruct (kind T'), (kind C')).
  assert (waiting_of (kind T') = ∅ ∧ waiting_of (kind C') = ∅) as [Q1 Q2] by (rewrite Hct in K1; rewrite Hcc in K2; by destruct (kind T'), (kind C')).
  assert (manager T' = manager T ∧ isDead T' = isDead T ∧ manager C' = manager C ∧ isDead C' = isDead C) as (M1 & M2 & M3 & M4) by (by injection HT1; injection HC1).
  assert (TC w' = TC w) as HTC by (by eapply (TC_insert2 w w' t T T' c C C')).
  assert (RP w' = RP w) as HRP by (eapply (RP_insert2 w w' t T T' c C C'); [done|done|done|congruence|congruence|done]).
  assert (∀ u U, units w !! u = Some U → u ∈ t_units T → u_task U = Some t ∧ u_isDead U = false ∧ u_manager U = Some (manager C)) as Hown.
  { intros u U HU Hu. destruct (member_unit _ _ _ _ _ O HT Hu) as (U0 & HU0 & Ht & Hg). assert (U0 = U) as -> by congruence.
    destruct (unit_task _ _ _ _ _ _ W HU Ht) as (T0 & HT0 & Hm). split_and!; congruence. }
  eapply (world_shrink ∅ ∅ t T' w'); [|rewrite HTs; apply lookup_insert_eq|done|intros Hd'; congruence|done].
  rewrite union_empty_r_L. eapply (world_ok_keeps ∅ {[t]} ∅ {[t]} w w'); [done| |done|by rewrite HRP|done|done| | |].
  - replace (∅ : gset Z) with (∅ ∖ t_units T : gset Z) by set_solver.
    eapply (owned_moved_all ∅ (t_units T) c (task_skel C) w w'); [done| |by apply skel_of_task|simpl; by rewrite Hcc|].
    + split; [| |by apply lists_heads].
      * intros t'. rewrite !TS_lookup, HTs. unfold move_skels. destruct (decide (t' = t)) as [->|Hn].
        { rewrite lookup_insert_eq, HT. simpl. rewrite bool_decide_false by done. unfold task_skel. rewrite K1, M1, M2, HT2, Q1. do 2 f_equal; [set_solver|].
          destruct (kind T); try discriminate; simpl; set_solver. }
        rewrite lookup_insert_ne by done. destruct (decide (t' = c)) as [->|Hn2].
        { rewrite lookup_insert_eq, HC. simpl. rewrite bool_decide_true by done. unfold task_skel. rewrite K2, M3, M4, HC2, Q2. do 2 f_equal. destruct (kind C); try discriminate; simpl; set_solver. }
        rewrite lookup_insert_ne by done. destruct (tasks w !! t') as [T0|] eqn:HT0; [|done]. simpl. rewrite bool_decide_false by done.
        assert (t_units T0 ∖ t_units T = t_units T0) as He.
        { apply set_eq. intros x. rewrite elem_of_difference. split; [by intros []|]. intros Hx. split; [done|]. intros Hx2. apply Hn.
          by eapply (owned_unique ∅ w t' t (task_skel T0) (task_skel T) x O); [apply skel_of_task|apply skel_of_task|..]. }
        unfold task_skel at 1. simpl. rewrite He. do 2 f_equal. pose proof (own_waiting _ _ O _ _ (skel_of_task _ _ _ HT0)) as Hw. simpl in Hw. set_solver.
      * intros v. rewrite !US_lookup. destruct (units w !! v) as [V|] eqn:HV.
        { destruct (HU1 v V HV) as (V' & -> & G1 & G2). simpl. case_bool_decide as Hin; [|by rewrite G2]. destruct (G1 Hin). simpl in *. unfold unit_skel. simpl. congruence. }
        destruct (units w' !! v) as [V'|] eqn:HV'; [|done]. destruct (HU2 v V' HV'). congruence.
    + intros u Hu. destruct (member_unit _ _ _ _ _ O HT Hu) as (U & HU & _). destruct (Hown u U HU Hu) as (H1 & H2 & H3). exists (unit_skel U). by rewrite (skel_of_unit _ _ _ HU).
  - intros v V HV. destruct (HU1 v V HV) as (V' & HV' & G1 & G2). exists V'. destruct (decide (v ∈ t_units T)) as [Hin|Hn].
    + destruct (G1 Hin) as [F1 F2 F3 F4 F5 F6 _ _ _ _]. destruct (Hown v V HV Hin) as (H1 & _). split_and!; try done. right. rewrite HRP.
      eapply (free_other _ {[t]} w); [done|by intros|done|done|by apply core_of_task|simpl; rewrite kclass_kcore, Hct; done..].
    + rewrite (G2 Hn) in *. split_and!; try done. by left.
  - intros t' T0 HT0. rewrite HTs in HT0. destruct (decide (t' = t)) as [->|Hn].
    + rewrite lookup_insert_eq in HT0. injection HT0 as <-. right. split_and!; [set_solver|congruence|]. rewrite Hct in K1. destruct (kind T'); try done. congruence.
    + rewrite lookup_insert_ne in HT0 by done. destruct (decide (t' = c)) as [->|Hn2]; [|rewrite lookup_insert_ne in HT0 by done; by left].
      rewrite lookup_insert_eq in HT0. injection HT0 as <-. right. eapply task_ok_mono; [exact HCok|set_solver|by eauto].
  - intros v V' HV'. destruct (HU2 v V' HV') as [V HV]. destruct (HU1 v V HV) as (V1 & HV1 & G1 & G2). assert (V1 = V') as -> by congruence.
    destruct (decide (v ∈ t_units T)) as [Hin|Hn]; [right|left; by rewrite (G2 Hn)]. destruct (Hown v V HV Hin) as (H1 & _). pose proof (G1 Hin) as K. split.
    + unfold unit_range. rewrite (uk_def _ _ K). apply (wo_defs _ _ _ W _ _ HV).
    + intros t1 c1 Ht1 Hc1. rewrite (uk_task _ _ K) in Ht1. simpl in Ht1. injection Ht1 as <-. rewrite (core_of_task _ _ _ HC) in Hc1. injection Hc1 as <-.
      simpl. rewrite kclass_kcore, Hcc, <-Hct. pose proof (wo_acts _ _ _ W v V t _ HV H1 (core_of_task _ _ _ HT)) as HA. simpl in HA. rewrite kclass_kcore in HA.
      eapply ukept_acts; [exact K|]. exact HA.
Qed.

(** ** What [Merge] does *)

(** The fields of the squad that has grown. *)
Record grown (X : gset Z) (f fc fc' : Fighter) : Prop := {
  gn_type : fightType fc' = fightType fc;
  gn_target : target fc' = target fc;
  gn_promote : promote fc' = promote fc;
  gn_cowards : cowards fc' = cowards fc;
  gn_shields : shields fc' = shields f ∪ shields fc;
  gn_leader : ∃ l, leader (squad fc') = Some l ∧ (l ∈ X ∨ leader (squad fc) = Some l);
  gn_power : attackPower fc' = fadd (attackPower fc) (attackPower f)
}.
(** [c] and [t] are living squads of the same type, both with units. *)
Record mergeable (c t : Z) (C T : IUnitTask) (fc f : Fighter) (w : World) : Prop := {
  me_task : tasks w !! t = Some T;
  me_other : tasks w !! c = Some C;
  me_ne : c ≠ t;
  me_kind : kind T = FighterTask f;
  me_other_kind : kind C = FighterTask fc;
  me_type : fightType fc = fightType f;
  me_squad : is_squad (fightType f) = true;
  me_live : isDead T = false;
  me_other_live : isDead C = false;
  me_other_led : is_Some (leader (squad fc))
}.
Lemma upd_fighter_now t g T f w : tasks w !! t = Some T → kind T = FighterTask f →
  upd_fighter t g w = Some (set_tasks (<[t := with_kind (FighterTask (g f)) T]> (tasks w)) w).
Proof. intros HT Hk. unfold upd_fighter, upd_task, fighter_of. rewrite HT. simpl. by rewrite Hk. Qed.
Lemma Merge_eq c t C T fc f w :
  world_ok ∅ ∅ w → mergeable c t C T fc f w →
  ∃ w1 w2 fc', Merge c t w = Some w2 ∧ transfers c (t_units T) w w1 ∧ grown (t_units T) f fc fc' ∧
    w2 = set_tasks (<[c := with_kind (FighterTask fc') (join_units (t_units T) C)]> (tasks w)) w1.
Proof.
  intros W [M1 M2 M3 M4 M5 M6 M7 M8 M9 M10]. pose proof (wo_owned _ _ _ W) as O.
  assert (∀ u, u ∈ t_units T → ∃ U, units w !! u = Some U ∧ is_Some (u_manager U) ∧ is_Some (u_travelAct U) ∧ ptr_ok (u_travelAct U) U ∧ is_Some (unit_range U)) as Hu.
  { intros u Hin. destruct (member_unit _ _ _ _ _ O M1 Hin) as (U & HU & Ht & _). destruct (unit_task _ _ _ _ _ _ W HU Ht) as (T' & _ & Hm).
    destruct (acts_at _ _ _ _ _ _ _ W HU Ht M1) as (_ & H1 & H2); [by rewrite M4|]. exists U. split_and!; [done|by eexists| |done|by eapply (wo_defs _ _ _ W)].
    apply H2. rewrite M4. simpl. by rewrite M7. }
  assert (∀ u, u ∈ t_units T → is_Some (units w !! u)) as Hk by (intros u Hin; destruct (Hu u Hin) as (U & HU & _); by exists U).
  assert (∃ l, leader (squad fc) = Some l ∧ l ∈ t_units C) as (l & Hl & Hlc).
  { destruct M10 as [l Hl]. exists l. split; [done|]. destruct (wo_tasks _ _ _ W _ _ M2) as (G & _). destruct (G (not_elem_of_empty _)) as [_ Hled].
    specialize (Hled M9 fc M5 ltac:(by rewrite M6)). by rewrite Hl in Hled. }
  unfold Merge, get_fighter, fighter_of. rewrite M2. simpl. rewrite M5. simpl. rewrite M6.
  destruct (decide (fightType f = DEFEND)) as [Hd|Hd].
  - rewrite Hd. unfold Defend_Merge. rewrite M1. simpl. unfold fighter_of. rewrite M4. simpl.
    destruct (transfer_loop (λ w u, unit_SetTask c u w) c (t_units T) w) as (w1 & H1 & A); [|done|].
    { intros u w1 U Hin HU HU1 HF. destruct (Hu u Hin) as (U0 & HU0 & Hm & _). assert (U0 = U) as -> by congruence.
      exists (unit_with_task (Some c) (lastFrame w1) U). rewrite (unit_SetTask_eq c u U w1) by done. split; [done|]. rewrite HF. unfold taken. by apply ukept_refl. }
    rewrite H1. simpl. unfold upd_task at 1. rewrite (tr_tasks _ _ _ _ A), M2. simpl.
    erewrite upd_fighter_now; [|simpl; apply lookup_insert_eq|exact M5]. simpl. erewrite upd_fighter_now; [|simpl; apply lookup_insert_eq|done].
    eexists w1, _, _. split; [done|]. split; [done|]. split; [|unfold set_tasks; simpl; by rewrite !insert_insert_eq]. split; try done. exists l. by split; [|right].
  - assert (Squad_Merge c t w = match fightType f with DEFEND => Defend_Merge c t w | _ => Squad_Merge c t w end) as <- by (by destruct (fightType f)).
    unfold Squad_Merge. rewrite M1. simpl. unfold fighter_of at 1. rewrite M4. simpl.
    assert (walks l w) as Hlw by (eapply member_walks; [done|exact M2|done|]; rewrite M5; simpl; rewrite M6, M7; done).
    destruct (GetTravelAct_now l w Hlw) as (a & Ha & _). destruct Hlw as (L & HL & _).
    unfold get_leader, get_fighter, fighter_of. rewrite M2. simpl. rewrite M5. simpl. rewrite Hl. simpl. rewrite HL. simpl. rewrite Ha. simpl.
    destruct (transfer_loop (rookie c (a_state a)) c (t_units T) w) as (w1 & H1 & A); [|done|].
    { intros u w1 U Hin HU HU1 HF. destruct (Hu u Hin) as (U0 & HU0 & Hm & Ht & Hp & _). assert (U0 = U) as -> by congruence.
      destruct (rookie_eq c (a_state a) u U w1) as (U' & HU' & K); [done..|]. exists U'. split; [done|]. by rewrite <-HF. }
    rewrite H1. simpl. unfold upd_task at 1. rewrite (tr_tasks _ _ _ _ A), M2. simpl.
    erewrite upd_fighter_now; [|simpl; apply lookup_insert_eq|exact M5]. simpl. rewrite insert_insert_eq, lookup_insert_eq. simpl.
    match goal with |- context [FindLeader ?x ?y ?z] => destruct (FindLeader_ok x y z) as (s' & Hs1 & Hs2 & Hs3) end.
    + intros u Hin%elem_of_in_order. destruct (Hu u Hin) as (U & HU & _ & _ & _ & Hr). destruct (tr_unit _ _ _ _ A u U HU) as (U' & HU' & HK & _).
      exists U'. split; [done|]. unfold unit_range. by rewrite (uk_def _ _ (HK Hin)).
    + simpl. intros x Hx. assert (x = l) as -> by congruence. destruct (tr_unit _ _ _ _ A l L HL) as (L' & HL' & _). by exists L'.
    + rewrite Hs1. simpl. erewrite upd_fighter_now; [|simpl; apply lookup_insert_eq|done].
      eexists w1, _, _. split; [done|]. split; [done|]. split; [|unfold set_tasks; simpl; by rewrite !insert_insert_eq]. split; try done. simpl in *.
      destruct Hs3 as [l' Hl']; [by eexists|]. exists l'. split; [done|]. destruct (Hs2 l' Hl') as [Hin|Hc]; [left; by apply elem_of_in_order|by right].
Qed.

(** ** The emptied task ends *)

Lemma forget_fighter t T f w w0 : kind T = FighterTask f → manager T = Military → forget_task t T w = Some w0 →
  ∃ m, erase_fight (fightType f) t (military w) = Some m ∧ w0 = set_military m w.
Proof. intros Hk Hm. unfold forget_task. rewrite Hm, Hk. destruct (erase_fight _ _ _) as [m|]; [|done]. simpl. intros [= <-]. by exists m. Qed.
Definition emptied (T : IUnitTask) : IUnitTask := clear_units (Dead (with_units ∅ T)).
Lemma abort_emptied t T f m w :
  tasks w !! t = Some T → kind T = FighterTask f → manager T = Military → erase_fight (fightType f) t (military w) = Some m →
  (w1 ← upd_task t (with_units ∅) w; AbortTask t w1) = Some (set_military m (set_tasks (<[t := emptied T]> (tasks w)) w)).
Proof.
  intros HT Hk Hm He. unfold upd_task at 1. rewrite HT. simpl. set (T1 := with_units ∅ T). set (w1 := set_tasks _ w).
  assert (tasks w1 !! t = Some T1) as HT1 by apply lookup_insert_eq. set (w0 := set_military m w1).
  assert (forgotten w1 w0) as HF.
  { split; try done. intros mm. unfold erase_fight in He. destruct ((fightTasks (military w)).[FT (fightType f)]); [|done]. simpl in He.
    destruct (zset _ _ _); [|done]. injection He as <-. by destruct mm. }
  assert (forget_task t T1 w1 = Some w0) as H0.
  { unfold forget_task. change (manager T1) with (manager T). rewrite Hm. change (kind T1) with (kind T). rewrite Hk.
    change (military w1) with (military w). by rewrite He. }
  unfold AbortTask. rewrite (Dequeue_eq 1 t T1 w1 w0 HT1 H0 HF). set (w2 := set_tasks _ w0).
  assert (tasks w2 !! t = Some (Dead T1)) as HT2 by apply lookup_insert_eq.
  erewrite (Stop_eq _ t (Dead T1) w2 w2 (Dead T1)); [|done|simpl; by rewrite Hk|unfold Cancel; rewrite HT2; simpl; by rewrite Hk|done|].
  2:{ change (in_order (t_units (Dead T1))) with ([] : list Z). simpl. unfold upd_task. rewrite HT2. done. }
  simpl. rewrite Hk. simpl. f_equal. unfold w2, w0, w1, set_tasks, set_military. simpl. by rewrite !insert_insert_eq.
Qed.

Lemma grown_task_ok c t C T fc f fc' w U' :
  world_ok ∅ ∅ w → mergeable c t C T fc f w → grown (t_units T) f fc fc' →
  (∀ u V, UC w !! u = Some V → ∃ V', U' !! u = Some V' ∧ c_shield V' = c_shield V) →
  task_ok ∅ U' c (with_kind (FighterTask fc') (join_units (t_units T) C)).
Proof.
  intros W [M1 M2 M3 M4 M5 M6 M7 M8 M9 _] [G1 G2 G3 G4 G5 (l & G6 & G7)] HU.
  destruct (wo_tasks _ _ _ W _ _ M1) as (_ & _ & A3). rewrite M4 in A3. destruct (A3 M8) as [_ A4].
  destruct (wo_tasks _ _ _ W _ _ M2) as (B1 & B2 & B3). rewrite M5 in B3. destruct (B3 M9) as [B4 B5]. destruct (B1 (not_elem_of_empty _)) as [_ Hled].
  specialize (Hled M9 fc M5 ltac:(by rewrite M6)). specialize (B2 M9). split_and!; simpl.
  - intros _. split; [congruence|]. intros _ f1 [= <-] _. simpl. rewrite G6. destruct G7 as [Hl|Hl]; [set_solver|]. rewrite Hl in Hled. set_solver.
  - intros _. set_solver.
  - intros _. rewrite G4, G5. split; [set_solver|]. intros u [Hu|Hu]%elem_of_union.
    + destruct (A4 u Hu) as [Hin (V & HV & Hs)]. destruct (HU u V HV) as (V' & HV' & Hs'). split; [set_solver|]. exists V'. split; [done|congruence].
    + destruct (B5 u Hu) as [Hin (V & HV & Hs)]. destruct (HU u V HV) as (V' & HV' & Hs'). split; [set_solver|]. exists V'. split; [done|congruence].
Qed.

(** What becomes of the two squads. *)
Record merged (c t : Z) (C T : IUnitTask) (fc f : Fighter) (w' : World) : Prop := {
  mg_ended : ∃ T', tasks w' !! t = Some T' ∧ isDead T' = true ∧ t_units T' = ∅;
  mg_grown : ∃ C' fc', tasks w' !! c = Some C' ∧ isDead C' = false ∧ kind C' = FighterTask fc' ∧ t_units C' = t_units T ∪ t_units C ∧
    attackPower fc' = fadd (attackPower fc) (attackPower f)
}.
Lemma merge_squads_ok c t C T fc f w :
  world_ok ∅ ∅ w → mergeable c t C T fc f w → t_units T ≠ ∅ →
  returns (w1 ← Merge c t w; w2 ← upd_task t (with_units ∅) w1; AbortTask t w2) (λ w', proceeds w w' ∧ merged c t C T fc f w').
Proof.
  intros W M Hne. destruct (Merge_eq c t C T fc f w W M) as (w1 & w2 & fc' & H1 & A & G & ->). rewrite H1. simpl.
  pose proof M as [M1 M2 M3 M4 M5 M6 M7 M8 M9 M10]. set (C' := with_kind (FighterTask fc') (join_units (t_units T) C)).
  destruct (fight_manager _ _ (wo_military _ _ _ W) t (task_core T) (fightType f) (target f) (promote f)) as [Hm _]; [by apply core_of_task|simpl; by rewrite M4|].
  destruct (fight_manager _ _ (wo_military _ _ _ W) c (task_core C) (fightType fc) (target fc) (promote fc)) as [Hmc _]; [by apply core_of_task|simpl; by rewrite M5|].
  simpl in Hm, Hmc.
  assert (unhelpful t w) as Hun by (eapply unhelpful_other; [done..|by rewrite M4]).
  destruct (dead_world ∅ ∅ t T w W M1 M8 ltac:(by rewrite M4) Hun) as (w0 & H0 & _ & _ & W1). rewrite union_empty_r_L in W1.
  destruct (forget_fighter t T f w w0 M4 Hm H0) as (m & He & ->).
  destruct A as [A1 A2 [R1 R2 R3 R4] A4 A5].
  erewrite abort_emptied; [|simpl; by rewrite lookup_insert_ne|exact M4|exact Hm|simpl; rewrite R1; exact He]. set (w' := set_military m _).
  assert (tasks w' = <[t := emptied T]> (<[c := C']> (tasks w))) as HT' by done. assert (units w' = units w1) as HU' by done.
  assert (world_ok ∅ ∅ w') as W'.
  { eapply (merge_world t c (Dead T) C (emptied T) C' _ w' W1); simpl; try done.
    - apply lookup_insert_eq.
    - by rewrite lookup_insert_ne.
    - congruence.
    - exists (fightType f). rewrite M4, M5. simpl. by rewrite M6.
    - destruct G as [G1 G2 G3 _ _ _]. unfold task_core. simpl. rewrite M5. simpl. congruence.
    - eapply grown_task_ok; [exact W|exact M|exact G|]. intros u V HV. destruct (unit_of_core _ _ _ HV) as (V0 & HV0 & ->).
      destruct (A4 u V0 HV0) as (V' & HV' & K1 & K2). exists (unit_core V'). split; [by apply core_of_unit|]. simpl.
      destruct (decide (u ∈ t_units T)) as [Hin|Hn]; [by rewrite (uk_shield _ _ (K1 Hin))|by rewrite (K2 Hn)].
    - apply map_eq. intros x. destruct (decide (x = t)) as [->|Hx]; [by rewrite !lookup_insert_eq|].
      destruct (decide (x = c)) as [->|Hx2]; [by rewrite !(lookup_insert_ne _ t) by done; rewrite !lookup_insert_eq|].
      rewrite !(lookup_insert_ne _ t x), !(lookup_insert_ne _ c x) by done. by rewrite lookup_insert_ne.
    - by apply lists_kept_same. }
  assert (∀ v V, units w !! v = Some V → ∃ V', units w' !! v = Some V' ∧ u_id V' = u_id V ∧ u_def V' = u_def V ∧ u_manager V' = u_manager V ∧
    u_isDead V' = u_isDead V ∧ u_hasShield V' = u_hasShield V ∧ (v ∈ t_units T → u_task V' = Some c) ∧ (v ∉ t_units T → V' = V)) as HUv.
  { intros v V HV. destruct (A4 v V HV) as (V' & HV' & K1 & K2). exists V'. destruct (decide (v ∈ t_units T)) as [Hin|Hn]; [destruct (K1 Hin); by split_and!|].
    rewrite (K2 Hn) in *. by split_and!. }
  assert (∀ t' T0, tasks w !! t' = Some T0 → ∃ T', tasks w' !! t' = Some T' ∧ manager T' = manager T0 ∧ class_of (kind T') = class_of (kind T0) ∧
    (isDead T0 = true → isDead T' = true)) as HTv.
  { intros t' T0 HT0. rewrite HT'. destruct (decide (t' = t)) as [->|Hn]; [rewrite lookup_insert_eq; assert (T0 = T) as -> by congruence; by eexists|].
    rewrite lookup_insert_ne by done. destruct (decide (t' = c)) as [->|Hn2]; [|rewrite lookup_insert_ne by done; by exists T0].
    rewrite lookup_insert_eq. assert (T0 = C) as -> by congruence. eexists. split_and!; [done|done| |done].
    simpl. rewrite M5. simpl. by rewrite (gn_type _ _ _ _ G). }
  assert (evolves w w') as Ev.
  { split; try done.
    - intros u U HU. destruct (HUv u U HU) as (U' & HU1 & F1 & F2 & F3 & F4 & F5 & F6 & F7). exists U'. split_and!; try done.
      destruct (decide (u ∈ t_units T)) as [Hin|Hn]; [by rewrite (F6 Hin)|by rewrite (F7 Hn)].
    - intros mm. unfold idleTask, nilTask, playerTask. simpl. rewrite R2. unfold erase_fight in He.
      destruct ((fightTasks (military w)).[FT (fightType f)]); [|done]. simpl in He. destruct (zset _ _ _); [|done]. injection He as <-. by destruct mm. }
  apply returns_ret. split; [split; [done| | |]|].
  - split; [done|]. intros t' (T' & HT1 & Hd' & Hc' & He'). rewrite HT' in HT1. destruct (decide (t' = t)) as [->|Hn]; [rewrite lookup_insert_eq in HT1; by injection HT1 as <-|].
    rewrite lookup_insert_ne in HT1 by done. destruct (decide (t' = c)) as [->|Hn2]; [|rewrite lookup_insert_ne in HT1 by done; by exists T'].
    rewrite lookup_insert_eq in HT1. injection HT1 as <-. simpl in He'. destruct Hne. set_solver.
  - intros mm v (V & t1 & T1 & HV & Hg & Hmm & Ht1 & HT1 & Hc1). destruct (HUv v V HV) as (V' & HV' & F1 & F2 & F3 & F4 & F5 & F6 & F7).
    destruct (decide (v ∈ t_units T)) as [Hin|Hn].
    + destruct (HTv c C M2) as (C1 & HC1 & _ & Hcc & _). exists V', c, C1. split_and!; [done|congruence|congruence|auto|done|]. by rewrite Hcc, M5.
    + destruct (HTv t1 T1 HT1) as (T1' & HT1' & _ & Hcc & _). exists V', t1, T1'. rewrite (F7 Hn) in *. split_and!; try done. by rewrite Hcc.
  - intros t' [T0 HT0] Hl. destruct (decide (t' = c)) as [->|Hn2].
    + eapply (living_lead ∅ w' c C'); [done|by rewrite HT', lookup_insert_ne, lookup_insert_eq|done].
    + destruct (decide (t' = t)) as [->|Hn].
      * refine (lead_known_same t T (emptied T) w w' Ev M1 _ eq_refl Hl). by rewrite HT', lookup_insert_eq.
      * refine (lead_known_same t' T0 T0 w w' Ev HT0 _ eq_refl Hl). by rewrite HT', !lookup_insert_ne.
  - split; [exists (emptied T); rewrite HT', lookup_insert_eq; by split_and!|]. exists C', fc'. rewrite HT', lookup_insert_ne, lookup_insert_eq by done.
    split_and!; try done. apply (gn_power _ _ _ _ G).
Qed.

(** ** Whom to merge with *)

Lemma filed_squad type w t : world_ok ∅ ∅ w → manned w → is_squad type = true → (∃ X, GetTasks type w = Some X ∧ t ∈ X) →
  ∃ T f l, tasks w !! t = Some T ∧ kind T = FighterTask f ∧ fightType f = type ∧ isDead T = false ∧ t_units T ≠ ∅ ∧ leader (squad f) = Some l ∧ squad_at t type l w.
Proof.
  intros W M Hs (X & HX & Ht). destruct (GetTasks_ok ∅ ∅ type w W) as (Y & HY & Hin). assert (Y = X) as -> by congruence.
  destruct (Hin t Ht) as (T & f & HT & Hk & Hft & _ & Hd). assert (t_units T ≠ ∅) as Hne.
  { intros He. apply (M t). exists T. split_and!; try done. rewrite Hk. simpl. rewrite Hft. by destruct type. }
  destruct (squad_living ∅ w t T f) as (l & _ & Hl & SA); [done..|by rewrite Hft|done|done|]. rewrite Hft in SA. by exists T, f, l.
Qed.
Lemma Squad_CanAssignTo_returns c T f lc u w :
  world_ok ∅ ∅ w → tasks w !! c = Some T → kind T = FighterTask f → squad_at c (fightType f) lc w →
  (∃ U t0 T0 f0, units w !! u = Some U ∧ u_task U = Some t0 ∧ tasks w !! t0 = Some T0 ∧ kind T0 = FighterTask f0) →
  returns (Squad_CanAssignTo c u w) (λ _, True).
Proof.
  intros W HT Hk [F L A] (U & t0 & T0 & f0 & HU & Ht0 & HT0 & Hk0). unfold Squad_CanAssignTo. rewrite (get_fighter_eq _ _ _ _ HT Hk). simpl.
  rewrite HU. simpl. destruct (get_leader_returns ∅ ∅ w W c lc w (serves_refl w) L) as ([l L'] & Hgl & _).
  destruct (fightType f); try (case_match; [|by apply returns_ret]; rewrite ?Hgl; simpl; try (by apply returns_ret)).
  - rewrite Ht0. simpl. rewrite HT0. simpl. rewrite (fighter_eq _ _ Hk0). by apply returns_ret.
  - rewrite Hgl. by apply returns_ret.
Qed.
Lemma GetMergeTask_returns t T f w :
  world_ok ∅ ∅ w → manned w → tasks w !! t = Some T → kind T = FighterTask f → is_squad (fightType f) = true → isDead T = false → t_units T ≠ ∅ →
  returns (GetMergeTask t w) (λ x, serves w x.2 ∧ tasks x.2 = tasks w ∧ ∀ c, x.1 = Some c → c ≠ t ∧ ∃ X, GetTasks (fightType f) w = Some X ∧ c ∈ X).
Proof.
  intros W M HT Hk Hs Hd Hne. destruct (squad_living ∅ w t T f) as (l & Hlin & Hl & [F L A]); [done..|].
  assert (returns (Some (None, w)) (λ x : option Z * World, serves w x.2 ∧ tasks x.2 = tasks w ∧ ∀ c, x.1 = Some c → c ≠ t ∧ ∃ X, GetTasks (fightType f) w = Some X ∧ c ∈ X)) as Hno.
  { apply returns_ret. split_and!; [apply serves_refl|done|done]. }
  destruct (get_leader_returns ∅ ∅ w W t l w (serves_refl w) L) as ([l' U] & Hgl & Hl' & HU & _). simpl in Hl', HU. subst l'.
  unfold GetMergeTask. rewrite HT. simpl. case_match; [|exact Hno]. unfold IsMergeSafe. rewrite Hgl. simpl. case_match; [|exact Hno].
  unfold CheckMergeTask. rewrite Hgl. simpl. rewrite (get_fighter_eq _ _ _ _ HT Hk). simpl.
  set (w1 := set_queryId _ w). assert (serves w w1) as S1 by (eapply serves_step; [apply serves_refl|by apply calm_same|done]).
  assert (world_ok ∅ ∅ w1) as W1 by (by eapply serves_world). assert (manned w1) as M1 by (eapply manned_fills; [done|]; by apply fills_same).
  destruct (GetTasks_ok ∅ ∅ (fightType f) w1 W1) as (X & HX & _). rewrite HX. simpl.
  eapply (returns_bind _ _ (λ x : option Z * float, ∀ c, x.1 = Some c → c ≠ t ∧ c ∈ X)).
  2:{ intros x Hx. apply returns_ret. split; [exact S1|split; [done|]]. intros c Hc. destruct (Hx c Hc) as [Hq1 Hq2]. split; [done|]. by exists X. }
  apply (returns_fold (λ x : option Z * float, ∀ c, x.1 = Some c → c ≠ t ∧ c ∈ X)); [done|]. intros x c Hc%elem_of_in_order Hx.
  destruct (filed_squad (fightType f) w1 c) as (C & fc & lc & HC & Hkc & Hft & Hdc & Hnec & Hlc & SA); [done..|by exists X|].
  unfold merge_visit. rewrite (get_fighter_eq _ _ _ _ HC Hkc). simpl.
  case_match eqn:Hskip; [by apply returns_ret|]. apply orb_false_iff in Hskip as [Hct _]. apply bool_decide_eq_false in Hct.
  eapply returns_bind.
  - eapply (Squad_CanAssignTo_returns c C fc lc l w1); [done..|by rewrite Hft|]. destruct (member_unit _ _ _ _ _ (wo_owned _ _ _ W) HT Hlin) as (U1 & HU1 & Ht1 & _).
    by exists U1, t, T, f.
  - intros can _. case_match; [by apply returns_ret|]. unfold GetLeaderPos. rewrite (get_fighter_eq _ _ _ _ HC Hkc). simpl. rewrite Hlc.
    destruct SA as [_ LC _]. destruct (leads_known _ _ _ LC) as [LU HLU]. change (units w) with (units w1). rewrite HLU. simpl. apply returns_ret.
    case_match; [|exact Hx]. intros c' [= <-]. by split.
Qed.
(** A living squad of the same type. *)
Definition merge_partner (c t : Z) (C : IUnitTask) (fc f : Fighter) (w : World) : Prop :=
  c ≠ t ∧ tasks w !! c = Some C ∧ kind C = FighterTask fc ∧ fightType fc = fightType f ∧ isDead C = false.
(** [try_merge] ends the squad, or changes nothing that matters. *)
Lemma try_merge_ok t T f w :
  world_ok ∅ ∅ w → manned w → tasks w !! t = Some T → kind T = FighterTask f → is_squad (fightType f) = true → isDead T = false → t_units T ≠ ∅ →
  returns (try_merge t w) (λ x, proceeds w x.2 ∧ (x.1 = false → serves w x.2) ∧ (x.1 = true → ∃ c C fc, merge_partner c t C fc f w ∧ merged c t C T fc f x.2)).
Proof.
  intros W M HT Hk Hs Hd Hne. unfold try_merge. eapply returns_bind; [by eapply GetMergeTask_returns|]. intros [c w1] (S1 & HTs & Hc). simpl in S1, HTs, Hc.
  destruct c as [c|]; [|apply returns_ret; split_and!; [by apply serves_proceeds|done|done]].
  destruct (Hc c eq_refl) as [Hct HX]. destruct (filed_squad (fightType f) w c) as (C & fc & lc & HC & Hkc & Hft & Hdc & Hnec & Hlc & SA); [done..|].
  assert (world_ok ∅ ∅ w1) as W1 by (by eapply serves_world).
  destruct (merge_squads_ok c t C T fc f w1 W1) as (w2 & H2 & P2 & MG); [|done|].
  - split; try done; try congruence.
  - apply bind_Some in H2 as (wa & -> & (wb & Hb & H2)%bind_Some). simpl. rewrite Hb. simpl. rewrite H2. simpl. apply returns_ret. split_and!; [|done|].
    + eapply proceeds_trans; [by apply serves_proceeds|done].
    + intros _. exists c, C, fc. by split_and!.
Qed.
End merging.
