(* ===== verification/FightUpdates.v ===== *)
(** * FightUpdates: what the updates of the fighters' tasks are made of

    The updates of the single units, of the support and of the flagship weapon are calm.  For the squads
    there is one lemma for each way an update goes on ([merge_first], [regroup_first], [resume], [touch]):
    if what comes after returns and [proceeds], so does the whole. *)

From stdpp Require Import sorting.
From S2P Require Import Prelude Float32 EnemyUnit EnemyGroups ActionList TaskData TaskCore TaskClasses TaskTheory TaskInvariant TaskSteps.
From S2P Require Import TaskStop TaskLeave TaskNew TaskJoin MilitaryTasks Targets FighterCore FighterTasks MilitaryTheory TaskMove TaskCalm.
From S2P Require Import FighterTheory FighterCalm FightMoves Merging.

Open Scope circuit_scope.

Section updates.
Context {E : Engine} {H : Heap} {TE : TaskEngine} {P : Policy} {TA : Tactics}.

(** ** Looking at other squads *)

(** The leader of a living fighter task exists, if it is a squad with one. *)
Definition position_known (t : Z) (w : World) : Prop := ∃ T f, tasks w !! t = Some T ∧ kind T = FighterTask f ∧ ∀ l, leader (squad f) = Some l → known l w.
Lemma filed_known lost type w : world_ok lost ∅ w → is_squad type = true →
  returns (GetTasks type w) (λ X, ∀ t, t ∈ X → position_known t w).
Proof.
  intros W Hs. destruct (GetTasks_ok lost ∅ type w W) as (X & HX & Hin). exists X. split; [done|]. intros t Ht.
  destruct (Hin t Ht) as (T & f & HT & Hk & <- & _ & Hd). exists T, f. split_and!; [done..|]. intros l Hl. by eapply living_lead.
Qed.
Lemma GetLeaderPos_returns t w : position_known t w → returns (GetLeaderPos t w) (λ _, True).
Proof.
  intros (T & f & HT & Hk & Hl). unfold GetLeaderPos, get_fighter, fighter_of. rewrite HT. simpl. rewrite Hk. simpl.
  destruct (leader (squad f)) as [l|]; [|by apply returns_ret]. destruct (Hl l eq_refl) as [L HL]. rewrite HL. by apply returns_ret.
Qed.
Lemma supported_returns lost w : world_ok lost ∅ w → returns (supported w) (λ X, ∀ t, t ∈ X → position_known t w ∧
  ∃ T f, tasks w !! t = Some T ∧ kind T = FighterTask f ∧ manager T = Military ∧ isDead T = false ∧ (fightType f = ATTACK ∨ fightType f = DEFEND)).
Proof.
  intros W. unfold supported. destruct (GetTasks_ok lost ∅ ATTACK w W) as (A & -> & HA). destruct (GetTasks_ok lost ∅ DEFEND w W) as (D & -> & HD).
  simpl. apply returns_ret. intros t Ht.
  assert (∃ T f, tasks w !! t = Some T ∧ kind T = FighterTask f ∧ manager T = Military ∧ isDead T = false ∧ (fightType f = ATTACK ∨ fightType f = DEFEND)) as Hex.
  { case_bool_decide; [destruct (HD t Ht) as (T & f & H1 & H2 & H3 & H4 & H5)|destruct (HA t Ht) as (T & f & H1 & H2 & H3 & H4 & H5)]; exists T, f; split_and!; auto. }
  split; [|done]. destruct Hex as (T & f & HT & Hk & _ & Hd & Hft). exists T, f. split_and!; [done..|]. intros l Hl.
  eapply living_lead; [done..|by destruct Hft as [-> | ->]|done].
Qed.

Section from.
Context (w0 : World) (W0 : world_ok ∅ ∅ w0).
Notation serves := (serves w0).
Lemma now_ok w : serves w → world_ok ∅ ∅ w.
Proof. intros S. by eapply serves_world. Qed.

(** ** Units that fight alone *)

Section one_task.
Context (t : Z) (T0 : IUnitTask) (f0 : Fighter) (HT0 : tasks w0 !! t = Some T0) (Hk0 : kind T0 = FighterTask f0).

Lemma here : fighter_at t (fightType f0) w0.
Proof. by exists T0, f0. Qed.
Lemma task_now w : serves w → ∃ T, tasks w !! t = Some T ∧ t_units T = t_units T0 ∧ ∃ f, kind T = FighterTask f ∧ fightType f = fightType f0.
Proof.
  clear W0. intros S. destruct (task_serves _ _ _ _ S HT0) as (T & HT & Q). exists T. split_and!; [done|apply Q|].
  pose proof (ca_kind _ _ Q) as Hk. rewrite Hk0 in Hk. destruct (kind T) as [| | | | |f]; try discriminate. exists f. by destruct Hk.
Qed.
Lemma upd_flag_serves g w : serves w → (∀ T, calm_task T (g T) ∧ kind (g T) = kind T) → returns (upd_task t g w) serves.
Proof. clear W0. intros S Hg. eapply upd_task_serves; [done|exact HT0|]. intros T _ _. apply Hg. Qed.
Lemma Lone_Update_serves ft w : travels (class_of (kind T0)) = true → serves w → returns (Lone_Update ft t w) serves.
Proof.
  intros Htr S. eapply returns_bind; [eapply tick_serves; [done|by eexists]|]. intros w1 S1. destruct (task_now _ S1) as (T1 & HT1 & Hu1 & _). rewrite HT1. simpl.
  assert (∀ u, u ∈ t_units T0 → walks u w0 ∧ works_in t u w0) as Hall.
  { intros u Hu. split; [by eapply member_walks|eapply member_works; [done..|by rewrite Hk0]]. }
  assert (∀ w, serves w → returns (w2 ← match ft with SCOUT => touch t w | _ => Some w end; each (λ w u, Execute ft t u true w) t w2) serves) as Hdue.
  { intros w2 S2. eapply (returns_bind _ _ serves).
    - assert (returns (touch t w2) serves) by (eapply touch_serves; [done|by eexists]). destruct ft; first [done|by apply returns_ret].
    - intros w3 S3. eapply each_serves; [done..|]. intros w4 u S4 Hu. destruct (Hall u Hu). eapply Execute_serves; [done|exact here|done..]. }
  assert (returns (each (execute_forced ft t) t w1) serves) as Hno.
  { eapply each_serves; [done..|]. intros w4 u S4 Hu. destruct (Hall u Hu). eapply execute_forced_serves; [done|exact here|done..]. }
  destruct ft; case_match; first [exact Hno|by apply Hdue].
Qed.

(** ** CSupportTask *)

Lemma Support_Update_serves w : t_units T0 ≠ ∅ → serves w → returns (Support_Update t w) serves.
Proof.
  intros Hne S. unfold Support_Update. destruct (task_now _ S) as (T & HT & Hu & _). rewrite HT. simpl.
  eapply returns_bind; [eapply tick_serves; [done|by eexists]|]. intros w1 S1. case_match; [by apply returns_ret|].
  destruct (head (in_order (t_units T))) as [u|] eqn:Hhd; simpl.
  2:{ destruct Hne. rewrite <-Hu. apply elem_of_equiv_empty_L. intros x Hx%elem_of_in_order. destruct (in_order (t_units T)); [by apply elem_of_nil in Hx|done]. }
  assert (u ∈ t_units T0) as Hin.
  { rewrite <-Hu. apply elem_of_in_order. destruct (in_order (t_units T)); [done|]. injection Hhd as ->. left. }
  assert (known u w0) as Hkn by (destruct (member_unit _ _ _ _ _ (wo_owned _ _ _ W0) HT0 Hin) as (U & HU & _); by exists U).
  destruct (known_serves _ _ _ S1 Hkn) as [U HU]. rewrite HU. simpl.
  assert (works_in t u w0) as Hw by (eapply member_works; [done..|by rewrite Hk0]).
  assert (returns (Support_Start t u w1) serves) as Hst by (eapply Support_Start_serves; [exact here|done..]).
  eapply returns_bind; [by eapply supported_returns, now_ok|]. intros X HX. case_match; [done|].
  eapply (returns_bind _ _ (λ _, True)).
  { apply (returns_fold (λ _, True)); [done|]. intros ps candy Hc%elem_of_in_order _. destruct (HX candy Hc) as ((T2 & f2 & HT2 & Hk2 & Hl2) & _).
    unfold support_visit, get_fighter, fighter_of. rewrite HT2. simpl. rewrite Hk2. simpl.
    destruct (leader (squad f2)) as [v|]; [|by apply returns_ret]. destruct (Hl2 v eq_refl) as [V HV]. rewrite HV. by apply returns_ret. }
  intros ps _. case_match; [done|]. eapply returns_bind; [eapply ready_returns; [exact S1|by eexists]|]. intros r _.
  case_match; [by eapply ask_serves|by apply returns_ret].
Qed.

(** ** CSuperTask *)

Lemma isAllySafe_returns sq p w : serves w → returns (isAllySafe w sq p) (λ _, True).
Proof.
  intros S. pose proof (now_ok _ S) as W. unfold isAllySafe.
  eapply returns_bind; [by eapply filed_known|]. intros XA HA. eapply returns_bind; [by eapply filed_known|]. intros XB HB.
  eapply returns_bind; [by eapply filed_known|]. intros XC HC. eapply (returns_bind _ _ (λ _, True)); [|intros b _; by apply returns_ret].
  apply (returns_fold (λ _, True)); [done|]. intros b t1 Ht1 _. unfold near_task. case_match; [by apply returns_ret|].
  eapply returns_bind; [apply GetLeaderPos_returns|intros q _; by apply returns_ret].
  apply elem_of_app in Ht1 as [Ht1|[Ht1|Ht1]%elem_of_app]; apply elem_of_in_order in Ht1; auto.
Qed.
Lemma super_target_returns f s d r w : serves w → returns (super_target w f s d r) (λ _, True).
Proof.
  intros S. unfold super_target. eapply (returns_bind _ _ (λ _, True)); [|intros x _; by apply returns_ret].
  apply (returns_fold (λ _, True)); [done|]. intros x g _ _. unfold group_visit. cbv zeta. case_match; [by apply returns_ret|].
  eapply returns_bind; [by apply isAllySafe_returns|]. intros b _. by apply returns_ret.
Qed.
Lemma aim_visit_known stock w pos grPos r l x :
  (∀ e, x.2 = Some e → is_Some (enemies w !! e)) → ∀ e, (foldl (aim_visit stock w pos grPos r) x l).2 = Some e → is_Some (enemies w !! e).
Proof.
  intros Hx. apply (foldl_in _ (λ x, ∀ e, x.2 = Some e → is_Some (enemies w !! e))); [done|]. intros y e _ Hy e'. unfold aim_visit.
  destruct (enemies w !! e) eqn:He; [|apply Hy]. repeat case_match; simpl; first [apply Hy|intros [= <-]; by eexists].
Qed.
Lemma with_aim_serves frame p w : serves w → returns (with_aim frame p t w) serves.
Proof. intros S. eapply upd_plan_serves; [exact W0|exact S|exact here]. Qed.
Lemma set_t_serves s w : serves w → returns (set_tstate s t w) serves.
Proof. clear W0. intros S. eapply set_tstate_serves; [done|by eexists]. Qed.
Lemma aim_at_serves e w : serves w → (∀ x, e = Some x → is_Some (enemies w !! x)) → returns (SetTarget t e w) serves.
Proof. intros S He. eapply SetTarget_serves; [done..|exact here|]. intros x Hx. by apply S, He. Qed.
Lemma Super_act_serves u w : known u w0 → serves w → returns (Super_act t u w) serves.
Proof.
  intros Hu S. unfold Super_act. destruct (task_now _ S) as (T & HT & _ & f & Hk & _). rewrite HT. simpl. unfold fighter_of. rewrite Hk. simpl.
  destruct (known_serves _ _ _ S Hu) as [U HU]. rewrite HU. simpl. destruct (unit_range_serves _ _ _ W0 _ _ _ S HU) as [r Hr]. rewrite Hr. simpl.
  eapply returns_bind; [by apply super_target_returns|]. intros g _. destruct g as [g|].
  - set (x := foldl _ _ _). assert (∀ e, x.2 = Some e → is_Some (enemies w !! e)) as Hx by (by apply aim_visit_known).
    destruct (aim_at_serves x.2 w S Hx) as (w1 & -> & S1). simpl. case_match; [|by apply returns_ret].
    eapply returns_bind; [by apply order_serves|]. intros w2 S2. eapply returns_bind; [by apply with_aim_serves|]. intros w3 S3. by apply set_t_serves.
  - eapply returns_bind; [by apply order_serves|]. intros w1 S1. eapply returns_bind; [by apply aim_at_serves|]. intros w2 S2. by apply with_aim_serves.
Qed.
Lemma Super_Update_serves w : t_units T0 ≠ ∅ → serves w → returns (Super_Update t w) serves.
Proof.
  intros Hne S. unfold Super_Update. destruct (task_now _ S) as (T & HT & Hu & f & Hk & _). rewrite HT. simpl. unfold fighter_of. rewrite Hk. simpl.
  destruct (head (in_order (t_units T))) as [u|] eqn:Hhd; simpl.
  2:{ destruct Hne. rewrite <-Hu. apply elem_of_equiv_empty_L. intros x Hx%elem_of_in_order. destruct (in_order (t_units T)); [by apply elem_of_nil in Hx|done]. }
  assert (u ∈ t_units T0) as Hin.
  { rewrite <-Hu. apply elem_of_in_order. destruct (in_order (t_units T)); [done|]. injection Hhd as ->. left. }
  assert (known u w0) as Hkn by (destruct (member_unit _ _ _ _ _ (wo_owned _ _ _ W0) HT0 Hin) as (U & HU & _); by exists U).
  destruct (known_serves _ _ _ S Hkn) as [U HU]. rewrite HU. simpl.
  case_match; case_match; first [by apply Super_act_serves|by apply returns_ret|idtac]. case_match; [|by apply returns_ret].
  eapply returns_bind; [by apply order_serves|]. intros w1 S1. by apply set_t_serves.
Qed.
End one_task.
End from.

(** ** Squads *)

(** A world between two events, and a living squad with units in it. *)
Record fit (t : Z) (ft : FightType) (w : World) : Prop := {
  fi_world : world_ok ∅ ∅ w;
  fi_manned : manned w;
  fi_task : ∃ T f, tasks w !! t = Some T ∧ kind T = FighterTask f ∧ fightType f = ft ∧ isDead T = false ∧ t_units T ≠ ∅
}.
Lemma fit_serves t ft w w' : fit t ft w → serves w w' → fit t ft w'.
Proof.
  intros [W M (T & f & HT & Hk & Hft & Hd & Hne)] S. pose proof (calm_goes _ _ (sv_calm _ _ S)) as G. split; [by eapply serves_world|by eapply manned_fills; [|apply G]|].
  destruct (task_serves _ _ _ _ S HT) as (T' & HT' & [_ Q2 Q3 _ _ Q6]). rewrite Hk in Q6. destruct (kind T') as [| | | | |f'] eqn:Hk'; try discriminate.
  destruct Q6 as (E1 & _). exists T', f'. split_and!; congruence.
Qed.
Lemma fit_living t T f w : world_ok ∅ ∅ w → manned w → tasks w !! t = Some T → kind T = FighterTask f → isDead T = false → ends_empty (C_FIGHTER (fightType f)) = true →
  fit t (fightType f) w.
Proof.
  intros W M HT Hk Hd He. split; [done..|]. exists T, f. split_and!; try done. intros Hu. apply (M t). exists T. split_and!; try done. by rewrite Hk.
Qed.
Lemma fit_squad t ft w : fit t ft w → is_squad ft = true → ∃ l, squad_at t ft l w ∧ walks l w.
Proof.
  intros [W M (T & f & HT & Hk & <- & Hd & Hne)] Hs. destruct (squad_living ∅ w t T f) as (l & Hin & _ & SA); [done..|]. exists l. split; [done|].
  eapply member_walks; [done..|]. rewrite Hk. simpl. by rewrite Hs.
Qed.
Lemma fit_merge t ft w : fit t ft w → is_squad ft = true → returns (try_merge t w) (λ x, proceeds w x.2 ∧ (x.1 = false → serves w x.2)).
Proof. intros [W M (T & f & HT & Hk & <- & Hd & Hne)] Hs. eapply returns_mono; [by eapply try_merge_ok|]. by intros x (P1 & S1 & _). Qed.
Lemma fit_tick t ft w : fit t ft w → returns (upd_task t tick w) (serves w).
Proof. intros [W M (T & f & HT & _)]. eapply tick_serves; [apply serves_refl|by exists T]. Qed.
Lemma fit_known t ft w : fit t ft w → ∃ T f, tasks w !! t = Some T ∧ kind T = FighterTask f ∧ fightType f = ft.
Proof. intros [_ _ (T & f & HT & Hk & Hft & _)]. by exists T, f. Qed.

(** A part of an update that is calm, and the rest. *)
Lemma calmly {A B} t ft w (m : option A) (k : A → option B) (V : A → World) (Q : B → World) :
  fit t ft w → returns m (λ x, serves w (V x)) → (∀ x, fit t ft (V x) → returns (k x) (λ y, proceeds (V x) (Q y))) → returns (m ≫= k) (λ y, proceeds w (Q y)).
Proof.
  intros F Hm Hk. eapply returns_bind; [exact Hm|]. intros x S. eapply then_proceeds; [exact (serves_proceeds _ _ (fi_world _ _ _ F) S)|].
  apply Hk. by eapply fit_serves.
Qed.
(** The end of an update that is calm. *)
Lemma calm_end t ft w m : fit t ft w → returns m (serves w) → returns m (proceeds w).
Proof. intros F Hm. eapply (calm_returns w m id); [apply F|done]. Qed.
Lemma stay_end t ft w : fit t ft w → returns (Some w) (proceeds w).
Proof. intros F. apply returns_ret, proceeds_refl, F. Qed.

(** The squad's part that is common: it merges or regroups, or goes on. *)
Lemma merge_first_ok t ft w go_on : fit t ft w → is_squad ft = true → (∀ w, fit t ft w → returns (go_on w) (proceeds w)) → returns (merge_first go_on t w) (proceeds w).
Proof.
  intros F Hs Hk. eapply returns_bind; [by eapply fit_merge|]. intros [b w1] [P1 S1]. simpl in P1, S1. destruct b; [by apply returns_ret|].
  specialize (S1 eq_refl). eapply (then_proceeds w w1 _ id); [done|]. apply Hk. by eapply fit_serves.
Qed.
Lemma regroup_first_ok t ft w go_on : fit t ft w → is_squad ft = true → (∀ b w, fit t ft w → returns (go_on b w) (proceeds w)) → returns (regroup_first go_on t w) (proceeds w).
Proof.
  intros F Hs Hk. destruct (fit_squad t ft w F Hs) as (l & [SF SL SW] & _).
  eapply (calmly t ft w _ _ (λ x : bool * bool * World, x.2) id); [done| |].
  - eapply regroup_serves; [apply F|done..|apply serves_refl].
  - intros [[stop was] w1] F1. simpl in *. destruct stop; [by eapply stay_end|by apply Hk].
Qed.
(** The task as it is now, for its counter. *)
Lemma look_ok {B} t ft w (k : IUnitTask → option B) (Q : B → Prop) : fit t ft w → (∀ T, returns (k T) Q) → returns (T ← tasks w !! t; k T) Q.
Proof. intros F Hk. destruct (fit_known _ _ _ F) as (T & f & HT & _). rewrite HT. apply Hk. Qed.
Lemma resume_ok t ft b w : fit t ft w → is_squad ft = true → returns (resume b t w) (proceeds w).
Proof.
  intros F Hs. destruct (fit_squad t ft w F Hs) as (l & [SF SL SW] & _). eapply calm_end; [done|]. eapply resume_serves; [apply F|done..|apply serves_refl].
Qed.
(** The squad acts now, or later. *)
Lemma execute_ok t ft due act rest w :
  fit t ft w → is_squad ft = true → (∀ w, fit t ft w → returns (act w) (proceeds w)) → (∀ w, fit t ft w → returns (rest w) (proceeds w)) →
  returns ('(b, w) ← is_execute due t w; if (b : bool) then act w else rest w) (proceeds w).
Proof.
  intros F Hs Ha Hr. destruct (fit_squad t ft w F Hs) as (l & [SF SL SW] & _).
  eapply (calmly t ft w _ _ (λ x : bool * World, x.2) id); [done|eapply is_execute_serves; [exact SW|apply serves_refl]|].
  intros [b w1] F1. simpl in *. destruct b; [by apply Ha|by apply Hr].
Qed.
Lemma touch_ok t ft act w : fit t ft w → (∀ w, fit t ft w → returns (act t w) (proceeds w)) → returns (w ← touch t w; act t w) (proceeds w).
Proof.
  intros F Ha. eapply (calmly t ft w _ _ id id); [done| |done]. destruct (fit_known _ _ _ F) as (T & f & HT & _). eapply touch_serves; [apply serves_refl|by exists T].
Qed.
(** Units with empty shields retreat first, and the squad may end by that, without losing its leader. *)
Lemma with_shields_ok t ft act w :
  fit t ft w → is_squad ft = true → (∀ l w, world_ok ∅ ∅ w → squad_at t ft l w → returns (act t w) (serves w)) → returns (with_shields act t w) (proceeds w).
Proof.
  intros F Hs Ha. pose proof F as [W M (T & f & HT & Hk & Hft & Hd & Hne)].
  destruct (IFighter_Update_ok t T f w W HT Hk Hd) as (w1 & H1 & P1). unfold with_shields. rewrite H1. simpl.
  destruct (ev_task _ _ P1 _ _ HT) as (T1 & HT1 & _ & Hc1 & _). rewrite Hk in Hc1. destruct (kind T1) as [| | | | |f1] eqn:Hk1; try discriminate. injection Hc1 as Hft1.
  rewrite (get_fighter_eq _ _ _ _ HT1 Hk1). simpl. case_bool_decide as Hl; [by apply returns_ret|]. destruct (leader (squad f1)) as [l|] eqn:Hld; [|done].
  eapply (then_proceeds w w1 _ id); [done|]. apply (calm_returns w1 _ id); [apply P1|]. apply (Ha l); [apply P1|].
  rewrite <-Hft, <-Hft1. eapply (squad_ready ∅ w1 t T1 f1 l); [apply P1|done..|by rewrite Hft1, Hft|done|].
  apply (pr_lead _ _ P1); [by eexists|]. by eapply living_lead.
Qed.
End updates.
