(* ===== verification/FighterStart.v ===== *)
(** * FighterStart: units start their tasks

    [Start] of a unit that has just been given to a task of the military returns, whatever the class; all
    units of a task are given to another one ([CDefendTask]'s promotion, [CRallyTask]'s attack). *)

From stdpp Require Import sorting.
From S2P Require Import Prelude Float32 EnemyUnit ActionList TaskData TaskCore TaskClasses TaskTheory TaskInvariant TaskSteps.
From S2P Require Import TaskStop TaskLeave TaskNew TaskJoin MilitaryTasks Targets FighterCore FighterTasks MilitaryTheory TaskMove TaskCalm.
From S2P Require Import FighterTheory FighterCalm FightMoves.

Open Scope circuit_scope.

Section start.
Context {E : Engine} {H : Heap} {TE : TaskEngine} {P : Policy} {TA : Tactics}.

(** ** [Start] of the classes that do not look further than the unit *)

Definition starts_calm (ft : FightType) : bool := match ft with RALLY | GUARD => false | _ => true end.
Lemma Start_calm lost t u T f w :
  world_ok lost ∅ w → tasks w !! t = Some T → kind T = FighterTask f → u ∈ t_units T → starts_calm (fightType f) = true →
  returns (Fighter_Start (fightType f) t u w) (serves w).
Proof.
  intros W HT Hk Hin Hs. assert (fighter_at t (fightType f) w) as F by (by exists T, f). pose proof (serves_refl w) as S.
  destruct (member_unit _ _ _ _ _ (wo_owned _ _ _ W) HT Hin) as (U & HU & _). assert (known u w) as Hu by (by exists U).
  assert (works_in t u w) as Hw by (eapply member_works; [done..|by rewrite Hk]).
  assert (travels (C_FIGHTER (fightType f)) = true → walks u w) as Htr by (intros Htr; eapply member_walks; [done..|by rewrite Hk]).
  destruct (fightType f) eqn:Hft; try done; simpl.
  - by apply order_serves.
  - apply (Execute_serves lost ∅ w W t SCOUT F u (Htr eq_refl) Hw SCOUT); done.
  - apply (Squad_Start_serves lost ∅ w W t RAID F u (Htr eq_refl)); done.
  - apply (Squad_Start_serves lost ∅ w W t ATTACK F u (Htr eq_refl)); done.
  - apply (Execute_serves lost ∅ w W t BOMB F u (Htr eq_refl) Hw BOMB); done.
  - by apply returns_ret.
  - apply (Execute_serves lost ∅ w W t ARTY F u (Htr eq_refl) Hw ARTY); done.
  - apply (Squad_Start_serves lost ∅ w W t AA F u (Htr eq_refl)); done.
  - apply (Squad_Start_serves lost ∅ w W t AH F u (Htr eq_refl)); done.
  - eapply (Support_Start_serves w t SUPPORT F u); auto.
  - by eapply Super_Start_serves.
Qed.

(** ** The units of a task are given to another one *)

(** A living fighter task of the type [ft] of the military. *)
Definition fights (t' : Z) (ft : FightType) (w : World) : Prop :=
  ∃ T', tasks w !! t' = Some T' ∧ isDead T' = false ∧ manager T' = Military ∧ class_of (kind T') = C_FIGHTER ft.
(** What its [Start] promises for a unit of it. *)
Definition calm_start (start : Z → Z → World → option World) (t' : Z) (ft : FightType) : Prop :=
  ∀ u w T', world_ok ∅ ∅ w → tasks w !! t' = Some T' → class_of (kind T') = C_FIGHTER ft → u ∈ t_units T' → returns (start t' u w) (serves w).
Lemma calm_start_fighter t' ft : starts_calm ft = true → calm_start (Fighter_Start ft) t' ft.
Proof.
  intros Hs u w T' W HT Hc Hin. destruct (kind T') as [| | | | |f] eqn:Hk; try discriminate. injection Hc as <-. by eapply Start_calm.
Qed.
Lemma calm_start_any t' ft : starts_calm ft = true → calm_start Start t' ft.
Proof.
  intros Hs u w T' W HT Hc Hin. unfold Start. rewrite HT. simpl. destruct (kind T') as [| | | | |f] eqn:Hk; try discriminate. injection Hc as <-. by eapply Start_calm.
Qed.

(** One unit that is not in the task yet. *)
Lemma give_one start t' ft u w :
  world_ok ∅ ∅ w → fights t' ft w → calm_start start t' ft → employed Military u w → (∀ U, units w !! u = Some U → u_task U ≠ Some t') →
  returns (AssignTask start u t' w) (λ w', proceeds w w' ∧ fights t' ft w' ∧
    (∃ T T', tasks w !! t' = Some T ∧ tasks w' !! t' = Some T' ∧ t_units T' = {[u]} ∪ t_units T) ∧
    (∀ v V, v ≠ u → units w !! v = Some V → stays w w' v V)).
Proof.
  intros W (T & HT & Hd & Hm & Hc) Hst (U & t0 & T0 & HU & Hg & HmU & Ht0 & HT0 & Hn0) Hne.
  assert (may_switch t' u T U w) as M.
  { split; try done; try (by rewrite Hc); [congruence|]. exists t0, T0. split_and!; try done. intros ->. by apply (Hne U). }
  destruct (AssignTask_switch start t' u T U w W M) as (w1 & -> & S). destruct (sw_task _ _ _ _ _ S) as (T1 & HT1 & Hd1 & Hm1 & Hc1 & Hu1).
  assert (returns (start t' u w1) (serves w1)) as (w2 & -> & S2).
  { eapply Hst; [apply (sw_world _ _ _ _ _ S)|done|congruence|]. rewrite Hu1. set_solver. }
  apply returns_ret. destruct (task_serves _ _ _ _ S2 HT1) as (T2 & HT2 & Q). split_and!.
  - eapply proceeds_serves; [by eapply switched_proceeds|done].
  - exists T2. split_and!; [done|by rewrite (ca_dead _ _ Q)|rewrite (ca_manager _ _ Q); congruence|rewrite (calm_task_class _ _ Q); congruence].
  - exists T, T2. split_and!; [done..|]. by rewrite (ca_units _ _ Q).
  - intros v V Hv HV. destruct (sw_others _ _ _ _ _ S v V Hv HV) as (V1 & HV1 & Ht1). destruct (cm_unit _ _ (sv_calm _ _ S2) _ _ HV1) as (V2 & HV2 & K).
    exists V2. split; [done|]. by rewrite (uk_task _ _ K).
Qed.
(** All units of a task. *)
Record given (X : gset Z) (t' : Z) (ft : FightType) (w w' : World) : Prop := {
  gv_proceeds :> proceeds w w';
  gv_fights : fights t' ft w';
  gv_units : ∃ T', tasks w' !! t' = Some T' ∧ X ⊆ t_units T'
}.
Lemma give_all start t t' ft T w :
  world_ok ∅ ∅ w → fights t' ft w → calm_start start t' ft → tasks w !! t = Some T → manager T = Military → t ≠ t' →
  returns (foldM (λ w u, AssignTask start u t' w) w (in_order (t_units T))) (given (t_units T) t' ft w).
Proof.
  intros W HF Hst HT Hm Hn. pose proof (wo_owned _ _ _ W) as O.
  destruct (foldM_ind (λ pre w1, given (list_to_set pre) t' ft w w1 ∧
      ∀ v, v ∈ t_units T → v ∉ pre → ∃ V, units w1 !! v = Some V ∧ u_task V ≠ Some t') (λ w u, AssignTask start u t' w) (in_order (t_units T)) w)
    as (w' & H1 & G & _).
  - split; [split; [by apply proceeds_refl|done|]|].
    + destruct HF as (T' & HT' & _). exists T'. split; [done|]. simpl. set_solver.
    + intros v Hv _. destruct (member_unit _ _ _ _ _ O HT Hv) as (V & HV & Ht & _). exists V. split; [done|]. congruence.
  - intros pre u post w1 Hl [[P1 F1 (T1 & HT1 & Hsub)] Hrest]. pose proof (in_order_NoDup (t_units T)) as Hnd. rewrite Hl in Hnd.
    assert (u ∈ t_units T) as Hin by (apply elem_of_in_order; rewrite Hl; set_solver).
    assert (u ∉ pre) as Hu by (intros Hx; apply NoDup_app in Hnd as (_ & Hnd & _); eapply Hnd; [exact Hx|left]).
    destruct (Hrest u Hin Hu) as (U & HU & Hne). pose proof (member_employed _ _ _ _ _ _ W HT Hin) as Hem. rewrite Hm in Hem.
    destruct (give_one start t' ft u w1 (pr_world _ _ P1) F1 Hst (pr_employed _ _ P1 _ _ Hem)) as (w2 & H2 & P2 & F2 & (Ta & Tb & HTa & HTb & Hub) & Hst2).
    { intros U1 HU1. assert (U1 = U) as -> by congruence. done. }
    assert (Ta = T1) as -> by congruence. exists w2. split; [exact H2|]. split.
    + split; [by eapply proceeds_trans|done|]. exists Tb. split; [done|]. rewrite Hub, list_to_set_app_L. simpl. set_solver.
    + intros v Hv Hvp. assert (v ∉ pre ∧ v ≠ u) as [Hvn Hvu] by set_solver. destruct (Hrest v Hv Hvn) as (V & HV & HVt).
      destruct (Hst2 v V Hvu HV) as (V2 & HV2 & Ht2). exists V2. split; [done|]. destruct Ht2 as [-> |(m & _ & ->)]; [done|].
      intros [= Heq]. destruct F1 as (T3 & HT3 & _ & _ & Hc3). destruct (idle_task _ _ m (wo_owned _ _ _ (pr_world _ _ P1))) as (I & Y & n & HI & HIk & _).
      rewrite Heq in HI. assert (I = T3) as -> by congruence. by rewrite HIk in Hc3.
  - exists w'. split; [exact H1|]. replace (t_units T) with (list_to_set (in_order (t_units T)) : gset Z) at 1; [done|].
    apply set_eq. intros x. by rewrite elem_of_list_to_set, elem_of_in_order.
Qed.
(** To a new task. *)
Lemma give_new start t t' T T' f w w1 :
  world_ok ∅ ∅ w1 → adds t' (fighter_task (lastFrame w) f) w w1 → calm_start start t' (fightType f) →
  tasks w !! t = Some T → manager T = Military → t_units T ≠ ∅ → tasks w1 !! t = Some T' →
  returns (foldM (λ w u, AssignTask start u t' w) w1 (in_order (t_units T'))) (λ w', proceeds w w' ∧ ∃ T2, tasks w' !! t' = Some T2 ∧ t_units T ⊆ t_units T2).
Proof.
  intros W1 A Hst HT Hm Hne HT1. assert (T' = T) as -> by (pose proof (gr_tasks _ _ (ad_grows _ _ _ _ A) _ _ HT); congruence).
  pose proof (adds_lookup _ _ _ _ A) as HT'. assert (t ≠ t') as Hn by (intros ->; rewrite (ad_fresh _ _ _ _ A) in HT; done).
  eapply returns_mono.
  - eapply (give_all start t t' (fightType f) T w1); try done. by eexists.
  - intros w' [P1 _ (T2 & HT2 & Hsub)]. split; [|by exists T2]. apply set_choose_L in Hne as [u Hu]. eapply (adds_proceeds t' _ u w w1 w'); [done..|].
    exists T2. split; [done|]. by apply Hsub.
Qed.
End start.
