(* ===== verification/UpdateTasks.v ===== *)
(** * UpdateTasks: every fighter's [Update] proceeds

    [Start] of a task whose unit has just come and [UpdateTask] of every class of [task/fighter/] return,
    and the world they leave [proceeds] from the one there was. *)

From stdpp Require Import sorting.
From S2P Require Import Prelude Float32 EnemyUnit EnemyGroups ActionList TaskData TaskCore TaskClasses TaskTheory TaskInvariant TaskSteps.
From S2P Require Import TaskStop TaskLeave TaskNew TaskJoin MilitaryTasks Targets FighterCore FighterTasks MilitaryTheory TaskMove TaskCalm.
From S2P Require Import FighterTheory FighterCalm FightMoves Merging FightUpdates FighterStart.

Open Scope circuit_scope.

Section update_tasks.
Context {E : Engine} {H : Heap} {TE : TaskEngine} {P : Policy} {TA : Tactics}.

(** ** The squads *)

(** The start of every update: the counter. *)
Lemma tick_first {B} t ft w (k : World → option B) (Q : B → World) :
  fit t ft w → (∀ w, fit t ft w → returns (k w) (λ y, proceeds w (Q y))) → returns (upd_task t tick w ≫= k) (λ y, proceeds w (Q y)).
Proof. intros F Hk. eapply (calmly t ft w _ _ id Q); [done|by eapply fit_tick|exact Hk]. Qed.
(** What a squad does when it is its turn, or when one of its units is out of turn. *)
Lemma squad_calm t ft act w :
  fit t ft w → is_squad ft = true → (∀ l w, world_ok ∅ ∅ w → squad_at t ft l w → walks l w → returns (act t w) (serves w)) → returns (act t w) (proceeds w).
Proof. intros F Hs Ha. destruct (fit_squad t ft w F Hs) as (l & SA & Hl). eapply calm_end; [done|]. apply (Ha l); [apply F|done..]. Qed.
Lemma forced_or_ok t ft act rest w :
  fit t ft w → is_squad ft = true → (∀ w, fit t ft w → returns (act w) (proceeds w)) → (∀ w, fit t ft w → returns (rest w) (proceeds w)) →
  returns ('(forced, w) ← any_forced t w; if (forced : bool) then act w else rest w) (proceeds w).
Proof. intros F Hs Ha Hr. apply (execute_ok t ft false act rest); auto. Qed.

Lemma Attack_Update_ok t w : fit t ATTACK w → returns (Attack_Update t w) (proceeds w).
Proof.
  intros F. eapply (tick_first t ATTACK w _ id); [done|]. clear w F. intros w F.
  eapply merge_first_ok; [done..|]. clear w F. intros w F. eapply regroup_first_ok; [done..|]. clear w F. intros b w F.
  assert (∀ l w, world_ok ∅ ∅ w → squad_at t ATTACK l w → returns (Attack_act t w) (serves w)) as Hact.
  { intros l w1 W1 [SF SL SW]. eapply Attack_act_serves; [exact W1|exact SF|exact SL|exact SW|apply serves_refl]. }
  eapply look_ok; [done|]. intros T. case_match; [by eapply with_shields_ok|].
  eapply forced_or_ok; [done..| |].
  - intros w1 F1. eapply squad_calm; [done..|]. intros l w2 W2 SA _. by eapply Hact.
  - intros w1 F1. by eapply resume_ok.
Qed.
Lemma Raid_Update_ok t w : fit t RAID w → returns (Raid_Update t w) (proceeds w).
Proof.
  intros F. eapply (tick_first t RAID w _ id); [done|]. clear w F. intros w F.
  eapply merge_first_ok; [done..|]. clear w F. intros w F. eapply regroup_first_ok; [done..|]. clear w F. intros b w F.
  eapply look_ok; [done|]. intros T. eapply execute_ok; [done..| |].
  - intros w1 F1. eapply touch_ok; [done|]. intros w2 F2. eapply squad_calm; [done..|]. intros l w3 W3 [SF SL SW] Hl.
    eapply Raid_act_serves; [exact W3|exact SF|exact SL|exact SW|exact Hl|apply serves_refl].
  - intros w1 F1. by eapply resume_ok.
Qed.
Lemma AA_Update_ok t w : fit t AA w → returns (AA_Update t w) (proceeds w).
Proof.
  intros F. eapply (tick_first t AA w _ id); [done|]. clear w F. intros w F.
  destruct (fit_squad t AA w F eq_refl) as (l & [SF SL SW] & _).
  eapply (calmly t AA w _ _ (λ x : bool * World, x.2) id); [done|eapply disengaging_serves; [apply F|done..|apply serves_refl]|].
  intros [away w1] F1. simpl in *. destruct away; [by eapply stay_end|].
  eapply merge_first_ok; [done..|]. clear - F1. intros w F. eapply regroup_first_ok; [done..|]. clear w F. intros b w F.
  eapply look_ok; [done|]. intros T. eapply execute_ok; [done..| |].
  - intros w2 F2. eapply squad_calm; [done..|]. intros l w3 W3 [SF SL SW] Hl.
    eapply AA_act_serves; [exact W3|exact SF|exact SL|exact SW|apply serves_refl].
  - intros w2 F2. by eapply resume_ok.
Qed.
(** A living fighter can be aborted. *)
Lemma fit_abort t ft w w' : fit t ft w → proceeds w w' → (∃ T, tasks w' !! t = Some T ∧ isDead T = false) → returns (AbortTask t w') (proceeds w').
Proof.
  intros [W M (T & f & HT & Hk & Hft & Hd & Hne)] P1 (T' & HT' & Hd'). destruct (ev_task _ _ P1 _ _ HT) as (T1 & HT1 & _ & Hc & _).
  assert (T1 = T') as -> by congruence. eapply AbortTask_proceeds; [apply P1|done..|]. by rewrite Hc, Hk.
Qed.
Lemma AH_Update_ok t w : fit t AH w → returns (AH_Update t w) (proceeds w).
Proof.
  intros F. eapply (tick_first t AH w _ id); [done|]. clear w F. intros w F.
  assert (∀ w w', fit t AH w → serves w w' → returns (AbortTask t w') (proceeds w)) as Hend.
  { intros w1 w2 F1 S2. pose proof (fit_serves _ _ _ _ F1 S2) as F2. eapply (then_proceeds w1 w2 _ id); [apply serves_proceeds; [apply F1|done]|].
    eapply fit_abort; [exact F2|apply proceeds_refl, F2|]. destruct F2 as [_ _ (T & f & HT & _ & _ & Hd & _)]. by exists T. }
  eapply look_ok; [done|]. intros T. case_match; [apply Hend; [done|apply serves_refl]|].
  eapply merge_first_ok; [done..|]. clear - Hend. intros w F. eapply regroup_first_ok; [done..|]. clear w F. intros b w F.
  eapply look_ok; [done|]. intros T. eapply execute_ok; [done..| |].
  - intros w1 F1. eapply touch_ok; [done|]. intros w2 F2. destruct (fit_squad t AH w2 F2 eq_refl) as (l & [SF SL SW] & _).
    eapply AH_act_returns; [apply F2|exact SF|exact SL|exact SW| | |apply serves_refl].
    + intros w3 S3. apply serves_proceeds; [apply F2|done].
    + intros w3 S3. by apply Hend.
  - intros w1 F1. by eapply resume_ok.
Qed.

(** ** CDefendTask *)

Lemma is_promoted_returns t ft w : fit t ft w → returns (is_promoted t w) (λ _, True).
Proof.
  intros [W M (T & f & HT & Hk & Hft & _)]. unfold is_promoted. rewrite HT. simpl. rewrite (fighter_eq _ _ Hk). simpl.
  repeat (case_match; [|by apply returns_ret]). case_match; [by apply returns_ret|].
  destruct (GetTasks_ok ∅ ∅ (f_check f) w W) as (X & -> & _). by apply returns_ret.
Qed.
Lemma promotes_calm p : promotes p = true → enqueues p = true ∧ starts_calm p = true.
Proof. by destruct p. Qed.
(** The fighter tasks are the military's, and a defence is promoted to something else. *)
Lemma fighter_military lost X w t T f : world_ok lost X w → tasks w !! t = Some T → kind T = FighterTask f →
  manager T = Military ∧ (fightType f = DEFEND → promotes (promote f) = true).
Proof.
  intros W HT Hk. apply (fight_manager _ _ (wo_military _ _ _ W) t (task_core T) (fightType f) (target f) (promote f)); [by apply core_of_task|].
  simpl. by rewrite Hk.
Qed.
(** All units go to a new task of the type [ty]. *)
Lemma enqueue_give start t T ty w :
  world_ok ∅ ∅ w → tasks w !! t = Some T → manager T = Military → t_units T ≠ ∅ → enqueues ty = true → (∀ t', calm_start start t' ty) →
  returns ('(t', w) ← EnqueueTask ty w; T ← tasks w !! t; foldM (λ w u, AssignTask start u t' w) w (in_order (t_units T))) (proceeds w).
Proof.
  intros W HT Hm Hne He Hst. destruct (EnqueueTask_ok ∅ ∅ ty w W He) as (t' & w1 & -> & W1 & A). simpl.
  pose proof (gr_tasks _ _ (ad_grows _ _ _ _ A) _ _ HT) as HT1. rewrite HT1. simpl.
  eapply returns_mono; [eapply (give_new start t t' T T _ w w1); try done|by intros w2 [P2 _]]. rewrite fighter_by_type_type by done. apply Hst.
Qed.
Lemma promote_task_ok t w : fit t DEFEND w → returns (promote_task t w) (proceeds w).
Proof.
  intros [W M (T & f & HT & Hk & Hft & Hd & Hne)]. unfold promote_task. rewrite (get_fighter_eq _ _ _ _ HT Hk). simpl.
  destruct (fighter_military ∅ ∅ w t T f W HT Hk) as [Hm Hp]. destruct (promotes_calm _ (Hp Hft)) as [He Hs].
  eapply enqueue_give; [done..|]. intros t'. by apply calm_start_any.
Qed.
Lemma Defend_Update_ok t w : on_map → fit t DEFEND w → returns (Defend_Update t w) (proceeds w).
Proof.
  intros OM F. eapply (tick_first t DEFEND w _ id); [done|]. clear w F. intros w F.
  eapply returns_bind; [by eapply is_promoted_returns|]. intros b _. destruct b; [by apply promote_task_ok|].
  eapply merge_first_ok; [done..|]. clear w F. intros w F. eapply look_ok; [done|]. intros T.
  assert (∀ l w, world_ok ∅ ∅ w → squad_at t DEFEND l w → returns (Defend_act t w) (serves w)) as Hact.
  { intros l w1 W1 [SF SL SW]. eapply Defend_act_serves; [exact W1|exact SF|exact SL|exact SW|exact OM|apply serves_refl]. }
  case_match; [by eapply with_shields_ok|]. eapply forced_or_ok; [done..| |].
  - intros w1 F1. eapply squad_calm; [done..|]. intros l w2 W2 SA _. by eapply Hact.
  - intros w1 F1. by eapply stay_end.
Qed.

(** ** CRetreatTask *)

(** A unit leaves its task. *)
Lemma leave_ok t T u w : world_ok ∅ ∅ w → tasks w !! t = Some T → u ∈ t_units T → class_of (kind T) ≠ C_IDLE → returns (RemoveAssignee t u w) (proceeds w).
Proof.
  intros W HT Hin Hi. pose proof (wo_owned _ _ _ W) as O. destruct (member_unit _ _ _ _ _ O HT Hin) as (U & HU & Ht & Hg).
  assert (class_of (kind T) ≠ C_NIL) as Hn.
  { intros Hc. pose proof (own_none _ _ O _ _ (skel_of_task _ _ _ HT) Hc) as He. simpl in He. rewrite He in Hin. by apply not_elem_of_empty in Hin. }
  assert (may_release t u T U w) as M by done. destruct (RemoveAssignee_leaves ∅ t u T U w W M Hn) as (w' & H1 & L). pose proof L as [L1 L2 (U' & HU' & Ht') L4 L5].
  exists w'. split; [done|]. pose proof (changes_evolves _ _ _ L2) as Ev. pose proof (member_live _ _ _ _ _ W HT Hin) as Hd. split.
  - by replace (∅ ∖ {[u]} : gset Z) with (∅ : gset Z) in L1 by set_solver.
  - split; [done|]. by eapply (left_fills ∅ t u T U).
  - intros m v. eapply stays_employed; [exact W|exact Ev|]. intros V HV. destruct (ch_unit _ _ _ L2 _ _ HV) as (V' & HV' & _ & _ & _ & _ & _ & HtV). by exists V'.
  - by eapply (left_known ∅ t u T U).
Qed.
Lemma Retreat_Update_ok t T r w : world_ok ∅ ∅ w → tasks w !! t = Some T → kind T = RetreatTask r → isDead T = false → returns (Retreat_Update t w) (proceeds w).
Proof.
  intros W HT Hk Hd. unfold Retreat_Update. destruct (tick_serves w t w (serves_refl w)) as (w1 & -> & S1); [by exists T|]. simpl.
  destruct (task_serves _ _ _ _ S1 HT) as (T1 & HT1 & Q). rewrite HT1. simpl.
  assert (world_ok ∅ ∅ w1) as W1 by (by eapply serves_world). eapply (then_proceeds w w1 _ id); [by apply serves_proceeds|].
  pose proof (ca_kind _ _ Q) as Hk1. rewrite Hk in Hk1. destruct (wo_tasks _ _ _ W1 _ _ HT1) as (_ & _ & G). rewrite Hk1 in G.
  assert (in_order (t_units T1) = [] ∨ ∃ u, in_order (t_units T1) = [u] ∧ u ∈ t_units T1) as [-> |(u & -> & Hin)].
  { pose proof (in_order_NoDup (t_units T1)) as Hnd. destruct (in_order (t_units T1)) as [|u [|v l]] eqn:Hl; [by left|right; exists u; split; [done|]; apply elem_of_in_order; rewrite Hl; left|].
    exfalso. assert (u = v) as -> by (apply G; apply elem_of_in_order; rewrite Hl; set_solver). apply NoDup_cons in Hnd as [Hnd _]. apply Hnd. left. }
  { apply returns_ret. by apply proceeds_refl. }
  simpl. eapply (returns_bind _ _ (proceeds w1)); [|intros w2 P2; by apply returns_ret].
  assert (class_of (kind T1) ≠ C_IDLE) as Hci by (by rewrite Hk1). destruct (member_unit _ _ _ _ _ (wo_owned _ _ _ W1) HT1 Hin) as (U & HU & _).
  unfold retreat_visit. rewrite HU. simpl. case_match; [by eapply leave_ok|]. apply (calm_returns w1 _ id); [done|].
  eapply returns_bind; [eapply force_serves; [apply serves_refl|by exists U]|]. intros [b w2] S2. simpl in *. case_match; [|by apply returns_ret].
  eapply Retreat_Start_serves; [eapply retreat_is_at; [exact W1|exact HT1|exact Hk1|by rewrite (ca_dead _ _ Q)]|by eapply member_acts|by eapply member_works|exact S2].
Qed.

(** ** The dispatch *)

Lemma UpdateTask_fit t T f w : on_map → world_ok ∅ ∅ w → manned w → tasks w !! t = Some T → kind T = FighterTask f → isDead T = false →
  returns (Fighter_UpdateTask (fightType f) t w) (proceeds w).
Proof.
  intros OM W M HT Hk Hd. destruct (ends_empty (C_FIGHTER (fightType f))) eqn:He.
  2:{ assert (returns (IFighter_Update t w) (proceeds w)) as HI by (by eapply IFighter_Update_ok). by destruct (fightType f). }
  pose proof (fit_living t T f w W M HT Hk Hd He) as F. pose proof (serves_refl w) as S.
  assert (t_units T ≠ ∅) as Hne by (intros Hu; apply (M t); exists T; by rewrite Hk).
  assert (∀ ft, travels (C_FIGHTER (fightType f)) = true → returns (Lone_Update ft t w) (proceeds w)) as HL.
  { intros ft Htr. apply (calm_returns w _ id); [done|]. eapply Lone_Update_serves; [exact W|exact HT|exact Hk|by rewrite Hk|done]. }
  destruct (fightType f) eqn:Hft; try discriminate; simpl.
  - by apply Defend_Update_ok.
  - by apply HL.
  - by apply Raid_Update_ok.
  - by apply Attack_Update_ok.
  - by apply HL.
  - by apply HL.
  - by apply AA_Update_ok.
  - by apply AH_Update_ok.
  - apply (calm_returns w _ id); [done|]. by eapply Support_Update_serves.
  - apply (calm_returns w _ id); [done|]. by eapply Super_Update_serves.
Qed.
(** A task of the military's list. *)
Definition updated (c : TClass) : bool := match c with C_RETREAT | C_FIGHTER _ => true | _ => false end.
Lemma UpdateTask_ok t T w : on_map → world_ok ∅ ∅ w → manned w → tasks w !! t = Some T → isDead T = false → updated (class_of (kind T)) = true →
  returns (UpdateTask t w) (proceeds w).
Proof.
  intros OM W M HT Hd Hu. unfold UpdateTask. rewrite HT. simpl. destruct (kind T) as [| | |r| |f] eqn:Hk; try discriminate.
  - by eapply Retreat_Update_ok.
  - by eapply UpdateTask_fit.
Qed.
End update_tasks.
