(* ===== verification/FightEvents.v ===== *)
(** * FightEvents: answers, idle and damaged units

    The callbacks of path queries, [OnUnitIdle] and [OnUnitDamaged] of every class a unit of the military
    can be in return, and the world they leave [proceeds] from the one there was. *)

From stdpp Require Import sorting.
From S2P Require Import Prelude Float32 EnemyUnit EnemyGroups ActionList TaskData TaskCore TaskClasses TaskTheory TaskInvariant TaskSteps.
From S2P Require Import TaskStop TaskLeave TaskNew TaskJoin MilitaryTasks Targets FighterCore FighterTasks MilitaryTheory TaskMove TaskCalm.
From S2P Require Import FighterTheory FighterCalm FightMoves Merging FightUpdates FighterStart UpdateTasks.

Open Scope circuit_scope.

Section events.
Context {E : Engine} {H : Heap} {TE : TaskEngine} {P : Policy} {TA : Tactics}.

(** ** The answers of path queries *)

(** The nearest of the tasks to support is one of them. *)
Lemma nearer_leader_in (X : gset Z) p w x t : (∀ t, t ∈ X → position_known t w) → x.1 ∈ X → t ∈ X → returns (nearer_leader p w x t) (λ y, y.1 ∈ X).
Proof.
  intros HX Hx Ht. unfold nearer_leader. eapply returns_bind; [by apply GetLeaderPos_returns, HX|]. intros q _. apply returns_ret. by case_match.
Qed.
Lemma Support_ApplyPath_ok t u T r w : fit t SUPPORT w → tasks w !! t = Some T → u ∈ t_units T → returns (Support_ApplyPath t u r w) (proceeds w).
Proof.
  intros F HT Hin. pose proof F as [W M (T0 & f & HT0 & Hk & Hft & Hd & Hne)]. assert (T0 = T) as -> by congruence.
  destruct (member_unit _ _ _ _ _ (wo_owned _ _ _ W) HT Hin) as (U & HU & Hut & _).
  assert (fighter_at t SUPPORT w) as FA by (by exists T, f).
  assert (returns (Support_Start t u w) (proceeds w)) as Hst.
  { apply (calm_returns w _ id); [done|]. eapply Support_Start_serves; [exact FA|apply serves_refl|by exists U]. }
  unfold Support_ApplyPath. destruct (last (posPath r)) as [p|]; [|done].
  destruct (supported_returns ∅ w W) as (X & -> & HX). simpl. destruct (head (in_order X)) as [first|] eqn:Hhd; [|done].
  assert (first ∈ X) as Hf by (apply elem_of_in_order; destruct (in_order X); [done|]; injection Hhd as ->; left).
  case_match.
  - eapply returns_bind.
    + eapply (returns_fold (λ x : Z * float, x.1 ∈ X)); [done|]. intros x c Hc%elem_of_in_order Hx. apply nearer_leader_in; [|done..]. intros t' Ht'. by apply HX.
    + intros x Hx. destruct (HX _ Hx) as [_ (C & fc & HC & Hkc & Hmc & Hdc & Hfc)].
      pose proof (member_employed _ _ _ _ _ _ W HT Hin) as Hem. destruct (fighter_military _ _ _ _ _ _ W HT Hk) as [Hm _]. rewrite Hm in Hem.
      eapply returns_mono; [eapply (give_one Start x.1 (fightType fc) u w); [done|exists C; by rewrite Hkc|apply calm_start_any; by destruct Hfc as [-> | ->]|done|]|by intros w' (P1 & _)].
      intros U' HU' Ht'. assert (U' = U) as -> by congruence. rewrite Hut in Ht'. injection Ht' as Ht'. rewrite <-Ht', HT in HC. injection HC as <-.
      rewrite Hk in Hkc. injection Hkc as <-. destruct Hfc; congruence.
  - apply (calm_returns w _ id); [done|]. eapply returns_bind; [eapply order_serves; [apply serves_refl|by exists U]|].
    intros w1 S1. eapply set_tstate_serves; [exact S1|by exists T].
Qed.
Lemma Fighter_Apply_ok t u T f a r w :
  world_ok ∅ ∅ w → manned w → tasks w !! t = Some T → kind T = FighterTask f → isDead T = false → u ∈ t_units T → awaits (fightType f) a = true →
  returns (Fighter_Apply (fightType f) a r t u w) (proceeds w).
Proof.
  intros W M HT Hk Hd Hin Ha. assert (ends_empty (C_FIGHTER (fightType f)) = true) as He by (by destruct (fightType f)).
  pose proof (fit_living t T f w W M HT Hk Hd He) as F. pose proof (serves_refl w) as S.
  assert (fighter_at t (fightType f) w) as FA by (by exists T, f).
  assert (works_in t u w) as Hw by (eapply member_works; [done..|by rewrite Hk]).
  assert (travels (C_FIGHTER (fightType f)) = true → walks u w) as Htr by (intros Htr; eapply member_walks; [done..|by rewrite Hk]).
  assert (is_squad (fightType f) = true → ∃ l, squad_at t (fightType f) l w ∧ walks l w) as Hsq by (by apply fit_squad).
  assert (∀ m, returns m (serves w) → returns m (proceeds w)) as Hcalm by (intros m; by apply (calm_returns w m id)).
  destruct (fightType f) eqn:Hft; try discriminate; simpl.
  - destruct (Hsq eq_refl) as (l & [SF SL SW] & Hl). apply Hcalm. eapply Attack_Apply_serves; [exact W|exact SF|exact SL|exact SW|exact Ha|exact S].
  - apply Hcalm. apply (Lone_Apply_serves ∅ ∅ w W t SCOUT FA u (Htr eq_refl) Hw SCOUT); done.
  - destruct (Hsq eq_refl) as (l & [SF SL SW] & Hl). apply Hcalm. eapply Raid_Apply_serves; [exact W|exact SF|exact SL|exact SW|exact Hl|exact Ha|exact S].
  - destruct (Hsq eq_refl) as (l & [SF SL SW] & Hl). apply Hcalm. eapply Attack_Apply_serves; [exact W|exact SF|exact SL|exact SW|exact Ha|exact S].
  - apply Hcalm. apply (Lone_Apply_serves ∅ ∅ w W t BOMB FA u (Htr eq_refl) Hw BOMB); done.
  - apply Hcalm. apply (Lone_Apply_serves ∅ ∅ w W t ARTY FA u (Htr eq_refl) Hw ARTY); done.
  - destruct (Hsq eq_refl) as (l & [SF SL SW] & Hl). apply Hcalm. eapply AA_Apply_serves; [exact W|exact SF|exact SL|exact SW|exact Ha|exact S].
  - destruct (Hsq eq_refl) as (l & [SF SL SW] & Hl). eapply AH_Apply_returns; [exact W|exact SF|exact SL|exact SW| | |exact Ha|exact S].
    + intros w' S'. by apply serves_proceeds.
    + intros w' S'. pose proof (fit_serves _ _ _ _ F S') as F'. eapply (then_proceeds w w' _ id); [by apply serves_proceeds|].
      eapply fit_abort; [exact F'|apply proceeds_refl, F'|]. destruct F' as [_ _ (T' & f' & HT' & _ & _ & Hd' & _)]. by exists T'.
  - by eapply Support_ApplyPath_ok.
Qed.
(** An answer to a query that the unit waits for belongs to its task, and a unit that has asked travels. *)
Lemma OnAnswer_ok t u q a r T w :
  world_ok ∅ ∅ w → manned w → tasks w !! t = Some T → updated (class_of (kind T)) = true →
  (∀ f, kind T = FighterTask f → awaits (fightType f) a = true) → (class_of (kind T) = C_RETREAT → walks u w) → returns (OnAnswer t u q a r w) (proceeds w).
Proof.
  intros W M HT Hu Ha Hr. unfold OnAnswer. rewrite HT. simpl. destruct (IsQueryAlive T u q) eqn:Hq; [|apply returns_ret; by apply proceeds_refl].
  unfold IsQueryAlive in Hq. apply andb_true_iff in Hq as [Hd Hq]. apply negb_true_iff in Hd. apply bool_decide_eq_true in Hq.
  destruct (kind T) as [| | |rt| |f] eqn:Hk; try discriminate.
  - apply (calm_returns w _ id); [done|]. eapply upd_travel_serves; [done|apply serves_refl|by apply Hr].
  - eapply Fighter_Apply_ok; [done..| |by apply Ha]. destruct (wo_tasks _ _ _ W _ _ HT) as (_ & G & _). apply (G Hd). apply elem_of_dom. by eexists.
Qed.

(** ** Idle units *)

(** [healthPerc < 0.2f], without a shield. *)
Definition badly_hurt (u : Z) (w : World) : Prop := ∃ U, units w !! u = Some U ∧ hurt u U w = true ∧ u_hasShield U = false ∧ fltb (GetHealthPercent w u) (flit 2 10) = true.
Section one_unit.
Context (t u : Z) (T : IUnitTask) (f : Fighter) (w : World).
Context (W : world_ok ∅ ∅ w) (HT : tasks w !! t = Some T) (Hk : kind T = FighterTask f) (Hin : u ∈ t_units T).

Lemma member_here : ∃ U, units w !! u = Some U ∧ u_task U = Some t ∧ u_isDead U = false.
Proof. eapply member_unit; [apply W|exact HT|exact Hin]. Qed.
Lemma alive_here : isDead T = false.
Proof. eapply member_live; [exact W|exact HT|exact Hin]. Qed.
Lemma employed_here : employed Military u w.
Proof. destruct (fighter_military _ _ _ _ _ _ W HT Hk) as [Hm _]. rewrite <-Hm. by eapply member_employed. Qed.
Lemma acts_here : acts_fine u w.
Proof. eapply member_acts; [exact W|exact HT|exact Hin|by rewrite Hk]. Qed.

(** The units that fear are a part of the task's. *)
Lemma cowards_serves g Y : g f = with_sets Y (shields f) f → Y ⊆ cowards f ∪ t_units T → returns (upd_fighter t g w) (serves w).
Proof.
  intros Hg HY. unfold upd_fighter, upd_task, fighter_of. rewrite HT. simpl. rewrite Hk. simpl. rewrite Hg. apply returns_ret.
  eapply serves_step; [apply serves_refl| |done]. eapply calm_insert_task; try done.
  - split; try done; simpl; [set_solver|]. rewrite Hk. simpl. done.
  - intros HE. simpl. rewrite (TC_insert w (set_tasks (<[t := with_kind (FighterTask (with_sets Y (shields f) f)) T]> (tasks w)) w) t T (with_kind (FighterTask (with_sets Y (shields f) f)) T)); try done.
    unfold task_core. simpl. by rewrite Hk.
Qed.
Lemma IFighter_OnUnitIdle_ok : returns (IFighter_OnUnitIdle t u w) (proceeds w).
Proof.
  unfold IFighter_OnUnitIdle. rewrite (get_fighter_eq _ _ _ _ HT Hk). simpl. case_match.
  - destruct (cowards_serves (λ f, with_sets (cowards f ∖ {[u]}) (shields f) f) (cowards f ∖ {[u]})) as (w1 & -> & S1); [done|set_solver|]. simpl.
    pose proof (serves_proceeds _ _ W S1) as P1. eapply (then_proceeds w w1 _ id); [done|].
    eapply returns_mono; [eapply send_back_ok; [apply P1|apply P1, employed_here]|by intros w2 [P2 _]].
  - apply (calm_returns w _ id); [done|]. destruct member_here as (U1 & HU1 & _). by eapply on_unit_serves; [apply serves_refl|exists U1|].
Qed.
(** The squad as it is afterwards, ended or not. *)
Lemma squad_after w' T' f' l : is_squad (fightType f) = true → proceeds w w' → tasks w' !! t = Some T' → kind T' = FighterTask f' → leader (squad f') = Some l →
  fightType f' = fightType f ∧ squad_at t (fightType f) l w'.
Proof.
  intros Hs P1 HT' Hk' Hl. destruct (ev_task _ _ P1 _ _ HT) as (T1 & HT1 & _ & Hc & _). assert (T1 = T') as -> by congruence. rewrite Hk, Hk' in Hc. injection Hc as Hft.
  split; [done|]. rewrite <-Hft. eapply (squad_ready ∅ w' t T' f' l); [apply P1|done..|by rewrite Hft|done|].
  apply (pr_lead _ _ P1); [by eexists|]. by eapply living_lead, alive_here.
Qed.
Lemma fighter_after w' : proceeds w w' → ∃ T' f', tasks w' !! t = Some T' ∧ kind T' = FighterTask f' ∧ fightType f' = fightType f.
Proof.
  intros P1. destruct (ev_task _ _ P1 _ _ HT) as (T1 & HT1 & _ & Hc & _). rewrite Hk in Hc.
  destruct (kind T1) as [| | | | |f1] eqn:Hk1; try discriminate. injection Hc as Hft. by exists T1, f1.
Qed.
Lemma Squad_OnUnitIdle_ok : is_squad (fightType f) = true → returns (Squad_OnUnitIdle t u w) (proceeds w).
Proof.
  intros Hs. destruct IFighter_OnUnitIdle_ok as (w1 & H1 & P1). unfold Squad_OnUnitIdle. rewrite H1. simpl.
  destruct (fighter_after w1 P1) as (T1 & f1 & HT1 & Hk1 & Hft1). rewrite HT1. simpl. rewrite (fighter_eq _ _ Hk1). simpl.
  case_match eqn:Hstop; [by apply returns_ret|]. assert (is_Some (leader (squad f1))) as [l Hl].
  { destruct (decide (fightType f1 = AA)) as [Haa|Hn].
    - rewrite Haa in Hstop. apply orb_false_iff in Hstop as [Hx%bool_decide_eq_false _]. by apply not_eq_None_Some.
    - assert (t_units T1 ≠ ∅) as Hne by (destruct (fightType f1); try done; by apply bool_decide_eq_false in Hstop).
      pose proof Hne as [v Hv]%set_choose_L. destruct (squad_living ∅ w1 t T1 f1) as (l & _ & Hl & _); [apply P1|done..|by rewrite Hft1| |done|by exists l].
      eapply member_live; [apply P1|exact HT1|exact Hv]. }
  destruct (squad_after w1 T1 f1 l Hs P1 HT1 Hk1 Hl) as [_ [SF SL SW]]. pose proof (pr_world _ _ P1) as W1.
  eapply (then_proceeds w w1 _ id); [done|]. apply (calm_returns w1 _ id); [done|].
  eapply returns_bind; [eapply near_pos_returns; [exact W1|exact SF|exact SL|apply serves_refl]|]. intros arrived _.
  destruct (get_leader_returns ∅ ∅ w1 W1 t l w1 (serves_refl w1) SL) as ([l' L] & Hgl & Hl' & _). simpl in Hl'. subst l'. rewrite Hgl. simpl.
  eapply (returns_bind _ _ (serves w1)); [destruct arrived; [eapply go_to_serves; [exact W1|apply serves_refl|exact SF]|apply returns_ret; apply serves_refl]|]. intros w2 S2.
  clear Hstop. case_bool_decide as Hu; [|by apply returns_ret]. eapply (Squad_Start_serves ∅ ∅ w1 W1 t (fightType f) SF u); [|done].
  eapply member_walks; [exact W1|exact HT1|exact Hu|]. rewrite Hk1. simpl. by rewrite Hft1, Hs.
Qed.
Lemma Lone_OnUnitIdle_ok ft : travels (C_FIGHTER (fightType f)) = true → returns (Lone_OnUnitIdle ft t u w) (proceeds w).
Proof.
  intros Htr. destruct IFighter_OnUnitIdle_ok as (w1 & H1 & P1). unfold Lone_OnUnitIdle. rewrite H1. simpl.
  destruct (fighter_after w1 P1) as (T1 & f1 & HT1 & Hk1 & Hft1). rewrite HT1. simpl. pose proof (pr_world _ _ P1) as W1.
  case_bool_decide as Hu; [|by apply returns_ret]. assert (class_of (kind T1) ≠ C_IDLE) as Hci by (by rewrite Hk1).
  eapply (then_proceeds w w1 _ id); [done|].
  assert (returns (RemoveAssignee t u w1) (proceeds w1)) as Hl by (by eapply leave_ok).
  assert (returns (Bomb_Execute t u false w1) (proceeds w1)) as Hb.
  { apply (calm_returns w1 _ id); [done|]. eapply (Bomb_Execute_serves ∅ ∅ w1 W1 t (fightType f1)); [by exists T1, f1| |by eapply member_works|apply serves_refl].
    eapply member_walks; [exact W1|exact HT1|exact Hu|]. by rewrite Hk1, <-Hft1 in *. }
  by destruct ft.
Qed.

(** ** Damaged units *)

Lemma may_stay_returns U : units w !! u = Some U → returns (may_stay t u U w) (λ _, True).
Proof.
  intros HU. destruct (wo_defs _ _ _ W _ _ HU) as [r Hr]. unfold may_stay. rewrite Hr. simpl. rewrite (get_fighter_eq _ _ _ _ HT Hk). simpl.
  destruct (target f) as [e|] eqn:He; [|by apply returns_ret]. destruct (targets_of _ _ _ _ _ _ _ W HT Hk He) as [X HX]. rewrite HX. by apply returns_ret.
Qed.
(** What a blow leaves: the unit still exists, with its actions. *)
Definition stands (w' : World) : Prop := proceeds w w' ∧ acts_fine u w'.
Lemma calm_stands w' : serves w w' → stands w'.
Proof.
  intros S. split; [by apply serves_proceeds|]. destruct (acts_fine_serves _ _ _ S acts_here) as (U' & HU' & K1 & K2). by exists U'.
Qed.
(** A unit without a shield that has lost most of its health retreats. *)
Definition flees (w' : World) : Prop := badly_hurt u w → retreats u w'.
Lemma flees_serves w1 w' : serves w1 w' → flees w1 → flees w'.
Proof. intros S HF Hb. eapply retreats_serves; [done|by apply HF]. Qed.
Lemma IFighter_OnUnitDamaged_ok : returns (IFighter_OnUnitDamaged t u w) (λ w', stands w' ∧ flees w').
Proof.
  destruct member_here as (U & HU & _). unfold IFighter_OnUnitDamaged. rewrite HU. simpl.
  assert (returns (send_back u w) (λ w', stands w' ∧ flees w')) as Hb.
  { eapply returns_mono; [apply send_back_ok; [done|apply employed_here]|]. intros w' (P1 & A1 & R1). split; [done|by intros _]. }
  assert (∀ w', (hurt u U w = true → u_hasShield U = false → fltb (GetHealthPercent w u) (flit 2 10) = false) → flees w') as Hno.
  { intros w' Hx (U' & HU' & H1 & H2 & H3). assert (U' = U) as -> by congruence. rewrite Hx in H3 by done. done. }
  case_match eqn:Hh.
  - assert (hurt u U w = false) as Hf by (by destruct (hurt u U w)).
    assert (∀ w', stands w' → stands w' ∧ flees w') as Hs by (intros w' Hs; split; [done|apply Hno; congruence]).
    case_match; [|by apply returns_ret, Hs, calm_stands, serves_refl]. destruct (EnqueueRepair_ok ∅ ∅ u U w W HU) as (tr & w1 & -> & W1 & G & _ & _ & F1). apply returns_ret, Hs.
    destruct (grows_keeps _ _ G) as [G1 G2]. split.
    + split; [done|split; [by apply grows_evolves|done]|done|done].
    + destruct acts_here as (U' & HU' & HR). exists U'. by rewrite (gr_units _ _ G).
  - case_match eqn:Hl; [done|]. eapply returns_bind; [by apply may_stay_returns|]. intros stay _. destruct stay; [|done].
    eapply returns_mono; [eapply (cowards_serves (λ f, with_sets ({[u]} ∪ cowards f) (shields f) f) ({[u]} ∪ cowards f)); [done|set_solver]|].
    intros w' S'. split; [by apply calm_stands|]. apply Hno. intros _ Hsh. rewrite Hsh in Hl. by apply andb_false_iff in Hl as [?|?].
Qed.
Lemma AA_OnUnitDamaged_ok e : is_squad (fightType f) = true → returns (AA_OnUnitDamaged t u e w) (λ w', proceeds w w' ∧ flees w').
Proof.
  intros Hs. destruct IFighter_OnUnitDamaged_ok as (w1 & H1 & [P1 _] & F1). unfold AA_OnUnitDamaged. rewrite H1. simpl.
  destruct (fighter_after w1 P1) as (T1 & f1 & HT1 & Hk1 & Hft1). rewrite HT1. simpl. rewrite (fighter_eq _ _ Hk1). simpl.
  case_match eqn:Hstop; [by apply returns_ret|]. apply orb_false_iff in Hstop as [[Hx%bool_decide_eq_false _]%orb_false_iff _].
  destruct (leader (squad f1)) as [l|] eqn:Hl; [|done]. destruct (squad_after w1 T1 f1 l Hs P1 HT1 Hk1 Hl) as [_ [SF SL SW]].
  case_match; [|by apply returns_ret].
  eapply returns_mono; [eapply ask_leader_serves; [apply P1|exact SL|apply serves_refl]|]. intros w2 S2. split; [by eapply proceeds_serves|by eapply flees_serves].
Qed.
Lemma dgun_now g w' : (∀ x, a_addr (g x) = a_addr x) → world_ok ∅ ∅ w' → acts_fine u w' →
  returns (U ← units w' !! u; match u_dgunAct U with Some _ => U ← on_action (u_dgunAct U) g U; upd_unit u (λ _, U) w' | None => Some w' end) (serves w').
Proof.
  intros Hg W' (U & HU & _ & Hd). rewrite HU. simpl. destruct (u_dgunAct U) as [a|] eqn:Ha; [|apply returns_ret, serves_refl].
  rewrite <-Ha in *. destruct (on_action_kept (u_dgunAct U) g U Hg Hd) as (U' & -> & K); [rewrite Ha; by eexists|]. simpl.
  eapply upd_unit_serves; [apply serves_refl|exact HU|done].
Qed.
Lemma AH_OnUnitDamaged_ok e : returns (AH_OnUnitDamaged t u e w) (λ w', proceeds w w' ∧ flees w').
Proof.
  destruct IFighter_OnUnitDamaged_ok as (w1 & H1 & [P1 A1] & F1). unfold AH_OnUnitDamaged. rewrite H1. simpl.
  destruct e as [e|]; [|by apply returns_ret]. pose proof A1 as (U & HU & K1 & K2). rewrite HU. simpl.
  set (w2 := if d_isAbleToCloak (u_def U) then TRY_UNIT u w1 else w1).
  assert (serves w1 w2) as S2.
  { unfold w2. case_match; [|apply serves_refl]. eapply serves_step; [apply serves_refl|apply TRY_UNIT_calm|]. intros x. unfold TRY_UNIT. by destruct (engine w1) as [|[]]. }
  pose proof (pr_world _ _ P1) as W1.
  assert (units w2 !! u = Some U) as HU2 by (unfold w2; case_match; [|done]; unfold TRY_UNIT; by destruct (engine w1) as [|[]]).
  assert (world_ok ∅ ∅ w2) as W2 by (by eapply serves_world). pose proof (dgun_now StateActivate w2 (λ _, eq_refl) W2) as Hdg.
  rewrite HU2 in Hdg. simpl in Hdg. eapply returns_mono; [apply Hdg; by exists U|]. intros w3 S3.
  split; [eapply proceeds_serves; [by eapply proceeds_serves|done]|]. eapply flees_serves; [done|by eapply flees_serves].
Qed.
Lemma Bomb_OnUnitDamaged_ok : returns (Bomb_OnUnitDamaged t u w) (proceeds w).
Proof.
  assert (returns (IFighter_OnUnitDamaged t u w) (proceeds w)) as HI by (eapply returns_mono; [apply IFighter_OnUnitDamaged_ok|by intros ? [[]]]).
  destruct member_here as (U & HU & _). unfold Bomb_OnUnitDamaged. rewrite HU. simpl. rewrite (get_fighter_eq _ _ _ _ HT Hk). simpl.
  destruct (target f) as [e|] eqn:He; [|done]. destruct (targets_of _ _ _ _ _ _ _ W HT Hk He) as [X HX]. rewrite HX. simpl.
  case_match; [done|]. apply returns_ret. by apply proceeds_refl.
Qed.
End one_unit.

(** ** The military's handlers *)

Lemma Guard_Start_ok t u T f U w :
  world_ok ∅ ∅ w → tasks w !! t = Some T → kind T = FighterTask f → isDead T = false → units w !! u = Some U → returns (Guard_Start t u w) (proceeds w).
Proof.
  intros W HT Hk Hd HU. unfold Guard_Start. rewrite (get_fighter_eq _ _ _ _ HT Hk). simpl. destruct (teamUnits w !! vipId f) as [vip|] eqn:Hv.
  - destruct (wo_team _ _ _ W _ _ Hv) as (c & Hc & _). destruct (unit_of_core _ _ _ Hc) as (V & HV & _). rewrite HV. simpl.
    apply (calm_returns w _ id); [done|]. eapply order_serves; [apply serves_refl|by exists U].
  - eapply AbortTask_proceeds; [done..|by rewrite Hk].
Qed.
(** A unit of the military is in a fighter's task, in a retreat or in one of the manager's own. *)
Definition soldier_at (u : Z) (U : CCircuitUnit) (t : Z) (T : IUnitTask) (w : World) : Prop :=
  units w !! u = Some U ∧ u_isDead U = false ∧ u_manager U = Some Military ∧ u_task U = Some t ∧ tasks w !! t = Some T.
Lemma soldier_task u U t T w : world_ok ∅ ∅ w → soldier_at u U t T w →
  class_of (kind T) ≠ C_REPAIR ∧ (updated (class_of (kind T)) = true → u ∈ t_units T).
Proof.
  intros W (HU & Hg & Hm & Ht & HT). destruct (unit_task _ _ _ _ _ _ W HU Ht) as (T' & HT' & HmT). assert (T' = T) as -> by congruence. split.
  - intros Hc. destruct (kind T) as [| | | |r|] eqn:Hk; try discriminate.
    pose proof (build_manager _ _ (wo_builder _ _ _ W) t (task_core T) (r_target r) (r_targetId r) (core_of_task _ _ _ HT)) as HB. simpl in HB. rewrite Hk in HB.
    specialize (HB eq_refl). congruence.
  - intros Hu. by destruct (member_of _ _ _ _ _ _ (wo_owned _ _ _ W) HU Ht HT) as [_ Hin]; [intros Hx; rewrite Hx in Hu..|].
Qed.
Lemma attacker_idle_ok u U t T w : world_ok ∅ ∅ w → soldier_at u U t T w → returns (attacker_idle u w) (proceeds w).
Proof.
  intros W SA. destruct (soldier_task u U t T w W SA) as [Hn Hin]. destruct SA as (HU & Hg & Hm & Ht & HT).
  unfold attacker_idle. rewrite HU. simpl. case_match; [apply returns_ret; by apply proceeds_refl|]. rewrite Ht. simpl. rewrite HT. simpl.
  destruct (kind T) as [| | |r| |f] eqn:Hk; try (apply returns_ret; by apply proceeds_refl); [|done|].
  - specialize (Hin eq_refl). assert (class_of (kind T) ≠ C_IDLE) as Hci by (by rewrite Hk).
    apply (calm_returns w _ id); [done|]. eapply Retreat_OnUnitIdle_serves; [eapply retreat_is_at; [exact W|exact HT|exact Hk|by eapply member_live]|by eapply member_acts|apply serves_refl].
  - specialize (Hin eq_refl). pose proof (member_live _ _ _ _ _ W HT Hin) as Hd.
    assert (returns (IFighter_OnUnitIdle t u w) (proceeds w)) as HI by (by eapply IFighter_OnUnitIdle_ok).
    assert (is_squad (fightType f) = true → returns (Squad_OnUnitIdle t u w) (proceeds w)) as HS by (by eapply Squad_OnUnitIdle_ok).
    assert (∀ ft, travels (C_FIGHTER (fightType f)) = true → returns (Lone_OnUnitIdle ft t u w) (proceeds w)) as HL by (intros ft; by eapply Lone_OnUnitIdle_ok).
    assert (returns (Guard_Start t u w) (proceeds w)) as HG by (by eapply Guard_Start_ok).
    destruct (fightType f); simpl; auto.
Qed.
Lemma attacker_damaged_ok u U t T e w : world_ok ∅ ∅ w → soldier_at u U t T w →
  returns (attacker_damaged u e w) (λ w', proceeds w w' ∧ (∀ f, kind T = FighterTask f → fightType f ≠ BOMB → flees u w w')).
Proof.
  intros W SA. destruct (soldier_task u U t T w W SA) as [Hn Hin]. destruct SA as (HU & Hg & Hm & Ht & HT).
  unfold attacker_damaged. rewrite HU. simpl. rewrite Ht. simpl. rewrite HT. simpl.
  destruct (kind T) as [| | |r| |f] eqn:Hk; try (apply returns_ret; split; [by apply proceeds_refl|done]); [|done|].
  - specialize (Hin eq_refl). assert (class_of (kind T) ≠ C_IDLE) as Hci by (by rewrite Hk).
    eapply returns_mono; [apply (calm_returns w _ id); [done|]|by intros w' P1]. eapply Retreat_OnUnitDamaged_serves; [eapply retreat_is_at; [exact W|exact HT|exact Hk|by eapply member_live]|by eapply member_acts|by eapply member_works|apply serves_refl].
  - specialize (Hin eq_refl). pose proof (member_live _ _ _ _ _ W HT Hin) as Hd.
    assert (returns (IFighter_OnUnitDamaged t u w) (λ w', proceeds w w' ∧ flees u w w')) as HI by (eapply returns_mono; [by eapply IFighter_OnUnitDamaged_ok|by intros ? [[]]]).
    assert (is_squad (fightType f) = true → returns (AA_OnUnitDamaged t u e w) (λ w', proceeds w w' ∧ flees u w w')) as HS by (by eapply AA_OnUnitDamaged_ok).
    assert (returns (AH_OnUnitDamaged t u e w) (λ w', proceeds w w' ∧ flees u w w')) as HH by (by eapply AH_OnUnitDamaged_ok).
    assert (returns (Bomb_OnUnitDamaged t u w) (proceeds w)) as HB by (by eapply Bomb_OnUnitDamaged_ok).
    assert (∀ m, returns m (λ w', proceeds w w' ∧ flees u w w') → returns m (λ w', proceeds w w' ∧ (∀ f0, FighterTask f = FighterTask f0 → fightType f0 ≠ BOMB → flees u w w'))) as Hm1
      by (intros m Hm1; eapply returns_mono; [exact Hm1|by intros w' []]).
    destruct (fightType f) eqn:Hft; auto. eapply returns_mono; [exact HB|]. intros w' P1. split; [done|]. intros f0 [= <-] Hnb. congruence.
Qed.
End events.
