(* ===== verification/IdleUpdates.v ===== *)
(** * IdleUpdates: idle units are put to work

    [CIdleTask::Update] for the military: each of the units that wait gets a task
    ([ITaskManager::AssignTask], [CMilitaryManager::DefaultMakeTask]) and starts it. *)

From stdpp Require Import sorting.
From S2P Require Import Prelude Float32 EnemyUnit ActionList TaskData TaskCore TaskClasses TaskTheory TaskInvariant TaskSteps.
From S2P Require Import TaskStop TaskLeave TaskNew TaskJoin MilitaryTasks Targets FighterCore FighterTasks MilitaryTheory TaskMove TaskCalm.
From S2P Require Import FighterTheory FighterCalm FightMoves FighterStart FightEvents.

Open Scope circuit_scope.

Section idle_updates.
Context {E : Engine} {H : Heap} {TE : TaskEngine} {P : Policy} {TA : Tactics}.

(** ** The units that wait *)

Lemma waiting_proceeds i T X s Y s' w :
  world_ok ∅ ∅ w → tasks w !! i = Some T → kind T = IdleTask X s → Y ⊆ t_units T →
  proceeds w (set_tasks (<[i := with_kind (IdleTask Y s') T]> (tasks w)) w).
Proof.
  intros W HT Hk HY. set (T' := with_kind (IdleTask Y s') T). set (w' := set_tasks _ w).
  assert (tasks w' = <[i := T']> (tasks w)) as HT' by done.
  assert (TC w' = TC w) as HTC by (apply (TC_insert w w' i T T'); [done|unfold task_core; simpl; by rewrite Hk|done]).
  assert (RP w' = RP w) as HRP by (apply (RP_insert_kept w w' i T T'); [done|unfold repairer_of; simpl; by rewrite Hk|done]).
  assert (∀ t T1, tasks w' !! t = Some T1 → ∃ T0, tasks w !! t = Some T0 ∧ manager T1 = manager T0 ∧ class_of (kind T1) = class_of (kind T0) ∧ isDead T1 = isDead T0 ∧
    t_units T1 = t_units T0 ∧ (t ≠ i → T1 = T0)) as Hback.
  { intros t T1 HT1. rewrite HT' in HT1. destruct (decide (t = i)) as [->|Hn].
    - rewrite lookup_insert_eq in HT1. injection HT1 as <-. exists T. simpl. by rewrite Hk.
    - rewrite lookup_insert_ne in HT1 by done. by exists T1. }
  assert (owned_ok ∅ w') as O'.
  { pose proof (skel_of_task _ _ _ HT) as HS. assert (TS w' = <[i := task_skel T']> (TS w)) as HTS by (unfold TS; by rewrite HT', fmap_insert).
    assert (∀ t S, TS w !! t = Some S → ∃ S', TS w' !! t = Some S' ∧ s_manager S' = s_manager S ∧ s_class S' = s_class S ∧ s_dead S' = s_dead S ∧ s_units S' = s_units S) as Hfwd.
    { intros t S HtS. rewrite HTS. destruct (decide (t = i)) as [->|Hn].
      - rewrite lookup_insert_eq. eexists. split; [done|]. rewrite HS in HtS. injection HtS as <-. simpl. by rewrite Hk.
      - rewrite lookup_insert_ne by done. by exists S. }
    assert (∀ t S', TS w' !! t = Some S' → ∃ S, TS w !! t = Some S ∧ s_manager S' = s_manager S ∧ s_class S' = s_class S ∧ s_units S' = s_units S ∧ (s_waiting S ⊆ s_units S → s_waiting S' ⊆ s_units S')) as Hbwd.
    { intros t S'. rewrite HTS. destruct (decide (t = i)) as [->|Hn].
      - rewrite lookup_insert_eq. intros [= <-]. eexists. split; [done|]. simpl. by rewrite Hk.
      - rewrite lookup_insert_ne by done. intros HtS. by exists S'. }
    destruct (wo_owned _ _ _ W) as [O1 O2 O3 O4 O5 O6 O8 O9]. split.
    - intros m. destruct (O1 m) as (S & HtS & H1 & H2 & H3). destruct (Hfwd _ _ HtS) as (S' & HS' & F1 & F2 & F3 & _). exists S'. split_and!; congruence || (by destruct m).
    - intros m. destruct (O2 m) as (S & HtS & H1 & H2). destruct (Hfwd _ _ HtS) as (S' & HS' & F1 & F2 & F3 & _). exists S'. split_and!; congruence || (by destruct m).
    - intros m. destruct (O3 m) as (S & HtS & H1 & H2 & H3). destruct (Hfwd _ _ HtS) as (S' & HS' & F1 & F2 & F3 & _). exists S'. split_and!; congruence || (by destruct m).
    - intros t S' HS' Hc. destruct (Hbwd _ _ HS') as (S & HtS & F1 & F2 & _). rewrite F1. rewrite (O4 t S HtS); [by destruct (s_manager S)|congruence].
    - intros t S' u HS' Hu. destruct (Hbwd _ _ HS') as (S & HtS & F1 & F2 & F3 & _). rewrite F3 in Hu. by eapply O5.
    - intros u U t HU Ht. destruct (O6 u U t HU Ht) as (S & HtS & H1 & H2 & H3). destruct (Hfwd _ _ HtS) as (S' & HS' & F1 & F2 & F3 & F4). exists S'. rewrite F1, F2, F4. by split_and!.
    - intros t S' HS' Hc. destruct (Hbwd _ _ HS') as (S & HtS & F1 & F2 & F3 & _). rewrite F3. eapply O8; [done|congruence].
    - intros t S' HS'. destruct (Hbwd _ _ HS') as (S & HtS & _ & _ & _ & F4). apply F4. by eapply O9. }
  assert (evolves w w') as Ev.
  { split; try done.
    - intros t T0 HT0. rewrite HT'. destruct (decide (t = i)) as [->|Hn]; [|rewrite lookup_insert_ne by done; by exists T0].
      rewrite lookup_insert_eq. assert (T0 = T) as -> by congruence. exists T'. simpl. by rewrite Hk.
    - intros u U HU. exists U. by split_and!. }
  split.
  - eapply (world_ok_keeps ∅ ∅ ∅ ∅ w w'); try done; [by rewrite HRP|by apply lists_kept_same|intros u U HU; exists U; split_and!; try done; by left| |by left].
    intros t T1 HT1. rewrite HT' in HT1. destruct (decide (t = i)) as [->|Hn]; [|rewrite lookup_insert_ne in HT1 by done; by left].
    rewrite lookup_insert_eq in HT1. injection HT1 as <-. right. destruct (wo_tasks _ _ _ W _ _ HT) as (G1 & G2 & G3). rewrite Hk in G3. split_and!; simpl; [|exact G2|exact G3].
    intros Hx. destruct (G1 Hx) as [G4 G5]. split; [exact G4|]. by intros _ f Hf.
  - split; [done|]. intros t (T1 & HT1 & Hd & He & Hu). destruct (Hback t T1 HT1) as (T0 & HT0 & F1 & F2 & F3 & F4 & _). exists T0. split_and!; congruence.
  - intros m v. eapply stays_employed; [done..|]. intros V HV. exists V. split; [done|by left].
  - intros t [T0 HT0] Hl. destruct (decide (t = i)) as [->|Hn].
    + eapply (other_class_known _ T'); [by rewrite HT', lookup_insert_eq|done].
    + refine (lead_known_same t T0 T0 w w' Ev HT0 _ eq_refl Hl). by rewrite HT', lookup_insert_ne.
Qed.

(** ** A unit gets a task and starts it *)

Lemma Start_ok t u T f w :
  world_ok ∅ ∅ w → tasks w !! t = Some T → kind T = FighterTask f → u ∈ t_units T → fightType f ≠ RALLY → returns (Start t u w) (proceeds w).
Proof.
  intros W HT Hk Hin Hn. unfold Start. rewrite HT. simpl. rewrite Hk. destruct (starts_calm (fightType f)) eqn:Hs.
  - apply (calm_returns w _ id); [done|]. by eapply Start_calm.
  - destruct (fightType f); try done. destruct (member_unit _ _ _ _ _ (wo_owned _ _ _ W) HT Hin) as (U & HU & _).
    eapply Guard_Start_ok; [done..|by eapply member_live|done].
Qed.
Lemma AssignNewTask_ok u U w :
  world_ok ∅ ∅ w → units w !! u = Some U → u_isDead U = false → u_manager U = Some Military → u_task U = Some (idleTask w Military) →
  returns (AssignNewTask u w) (λ w', proceeds w w' ∧ ∃ t T' f' U', tasks w' !! t = Some T' ∧ kind T' = FighterTask f' ∧ u ∈ t_units T' ∧ fightType f' ≠ RALLY ∧
    units w' !! u = Some U' ∧ u_task U' = Some t).
Proof.
  intros W HU Hg Hm Ht. unfold AssignNewTask.
  destruct (DefaultMakeTask_ok ∅ ∅ u U w W HU) as (t & w1 & -> & [W1 G (T & f & HT & Hk & HmT & Hd & He) Hnew Hty]). simpl.
  assert (may_assign t u T U w1) as M.
  { split; try done; rewrite ?Hk, ?HmT; try done; [by rewrite (gr_units _ _ G)|]. by destruct (gr_heads _ _ G Military) as (-> & _). }
  destruct (AssignTo_joins ∅ t u T U w1 W1 M) as (w2 & -> & J); [done|]. apply returns_ret.
  destruct (jn_task _ _ _ _ _ _ _ J) as (T' & HT' & Hm' & Hc' & Hd' & Hu'). destruct (jn_unit _ _ _ _ _ _ _ J) as (U' & HU' & Ht' & Hid' & _ & HmU' & Hg' & _).
  assert (u ∈ t_units T') as Hin by (rewrite Hu'; apply elem_of_union_l, elem_of_singleton_2; done).
  assert (evolves w w2) as Ev.
  { eapply evolves_trans; [by apply grows_evolves|]. eapply joined_evolves; [apply M..|exact J]. }
  assert (world_ok ∅ ∅ w2) as W2.
  { pose proof (jn_world _ _ _ _ _ _ _ J) as W2. by replace (∅ ∖ {[u]} : gset Z) with (∅ : gset Z) in W2 by set_solver. }
  rewrite Hk in Hc'. destruct (kind T') as [| | | | |f'] eqn:Hk'; try discriminate. injection Hc' as Hf'. split.
  - split; [done|split; [done|]| |].
    + intros t' Hv. destruct (decide (t' = t)) as [->|Hne].
      * destruct Hv as (T2 & HT2 & _ & _ & Hx). assert (T2 = T') as -> by congruence. rewrite Hx in Hin. by apply not_elem_of_empty in Hin.
      * destruct (jn_fills _ _ _ _ _ _ _ J _ Hv) as (T2 & HT2 & HR). destruct (Hnew t' T2 HT2) as [->|HT0]; [done|]. by exists T2.
    + intros m v Hem. destruct (decide (v = u)) as [->|Hv].
      * destruct Hem as (V & t0 & T0 & HV & _ & Hmv & _). assert (V = U) as -> by congruence. exists U', t, T'. split_and!; try congruence. by rewrite Hk'.
      * eapply stays_employed; [exact W|exact Ev| |exact Hem]. intros V HV. exists V. rewrite (jn_units _ _ _ _ _ _ _ J v Hv), (gr_units _ _ G). split; [done|by left].
    + intros t' [T0 HT0] Hl. destruct (decide (t' = t)) as [->|Hne]; [by eapply living_lead|].
      pose proof (gr_tasks _ _ G _ _ HT0) as HT1. destruct (jn_rest _ _ _ _ _ _ _ J _ _ HT1 Hne) as (T2 & HT2 & _ & Hc2 & _ & Heq).
      destruct (decide (class_of (kind T0) = C_IDLE)) as [Hi|Hi].
      * eapply (other_class_known _ T2); [done|]. by rewrite Hc2, Hi.
      * rewrite (Heq Hi) in HT2. refine (lead_known_same t' T0 T0 w w2 Ev HT0 HT2 eq_refl Hl).
  - exists t, T', f', U'. split_and!; try done. rewrite Hf'. by eapply Hty.
Qed.
Lemma put_to_work_ok u U w :
  world_ok ∅ ∅ w → units w !! u = Some U → u_isDead U = false → u_manager U = Some Military → u_task U = Some (idleTask w Military) → returns (put_to_work u w) (proceeds w).
Proof.
  intros W HU Hg Hm Ht. destruct (AssignNewTask_ok u U w W HU Hg Hm Ht) as (w1 & H1 & P1 & t & T' & f' & U' & HT' & Hk' & Hin & Hft & HU' & Ht').
  unfold put_to_work. rewrite H1. simpl. rewrite HU'. simpl. rewrite Ht'. simpl. eapply (then_proceeds w w1 _ id); [done|].
  eapply Start_ok; [apply P1|done..].
Qed.

(** ** The loop *)

Lemma idle_loop_ok i slice n l w : world_ok ∅ ∅ w → i = idleTask w Military → returns (idle_loop i slice n l w) (proceeds w).
Proof.
  revert n w. induction l as [|u l IH]; intros n w W Hi; [apply returns_ret; by apply proceeds_refl|]. cbn [idle_loop].
  destruct (idle_task ∅ w Military (wo_owned _ _ _ W)) as (I & Y & s & HI & HIk & HIm & HId & HY). rewrite <-Hi in HI. rewrite HI. simpl. unfold waiting. rewrite HIk.
  case_bool_decide as Hu; [|by apply IH]. simpl.
  assert (u ∈ t_units I) as Hin by (by apply HY). destruct (member_unit _ _ _ _ _ (wo_owned _ _ _ W) HI Hin) as (U & HU & Ht & Hg). rewrite HU. simpl.
  destruct (unit_task _ _ _ _ _ _ W HU Ht) as (T0 & HT0 & Hm). assert (T0 = I) as -> by congruence. case_bool_decide; [by apply IH|].
  unfold upd_task, with_waiting. rewrite HI. simpl. rewrite HIk. set (w1 := set_tasks _ w).
  assert (proceeds w w1) as P1 by (eapply waiting_proceeds; [done|exact HI|exact HIk|set_solver]). eapply (then_proceeds w w1 _ id); [done|].
  assert (i = idleTask w1 Military) as Hi1 by done.
  destruct (put_to_work_ok u U w1 (pr_world _ _ P1)) as (w2 & -> & P2); [done|done|congruence|congruence|]. simpl. eapply (then_proceeds w1 w2 _ id); [done|].
  case_bool_decide; [apply returns_ret, proceeds_refl, P2|]. apply IH; [apply P2|]. destruct (ev_heads _ _ P2 Military) as (-> & _). done.
Qed.
Lemma Idle_Update_ok w : world_ok ∅ ∅ w → returns (Idle_Update w) (proceeds w).
Proof.
  intros W. unfold Idle_Update. destruct (idle_task ∅ w Military (wo_owned _ _ _ W)) as (I & Y & s & HI & HIk & HIm & HId & HY).
  set (i := idleTask w Military) in *. assert (i = idleTask w Military) as Hi by done. clearbody i. rewrite HI. simpl. rewrite HIk.
  destruct (if bool_decide (Y = ∅) then _ else _) as [X s'] eqn:HX. assert (X ⊆ t_units I) as HXs by (case_bool_decide; by injection HX as <- <-).
  unfold upd_task. rewrite HI. simpl. set (w1 := set_tasks _ w). assert (proceeds w w1) as P1 by (by eapply waiting_proceeds).
  eapply (then_proceeds w w1 _ id); [done|]. apply idle_loop_ok; [apply P1|done].
Qed.
End idle_updates.
