(* ===== verification/UnitEvents.v ===== *)
(** * UnitEvents: units are registered, created, finished and destroyed

    The handlers of [MilitaryTasks] keep the invariant: a unit that is new gets a place in the nil or
    the idle task of its manager, a unit that is destroyed leaves its task and every repair of it, and
    a dead unit can be deleted since nothing refers to it. *)

From stdpp Require Import sorting.
From S2P Require Import Prelude Float32 EnemyUnit ActionList TaskData TaskCore TaskClasses TaskTheory TaskInvariant TaskSteps.
From S2P Require Import TaskStop TaskLeave TaskNew TaskJoin MilitaryTasks MilitaryTheory TaskMove.

Open Scope circuit_scope.

Section events.
Context {E : Engine} {H : Heap} {TE : TaskEngine} {P : Policy}.

(** ** A new unit *)

Lemma alloc_unit w : units w !! alloc (dom (units w)) = None.
Proof. apply not_elem_of_dom. apply alloc_fresh. Qed.

(** A unit without a task is added. *)
Lemma add_unit_world lost X u U team w w' :
  world_ok lost X w → units w !! u = None → u_task U = None → is_Some (unit_range U) →
  tasks w' = tasks w → units w' = <[u := U]> (units w) → military w' = military w → builder w' = builder w → enemies w' = enemies w →
  teamUnits w' = team → team_ok (<[u := unit_core U]> (UC w)) team → world_ok lost X w'.
Proof.
  intros [W1 W2 W3 W4 W5 W6 W7 W8 W9] Hu Ht Hr HT HU HM HB HE HTm Hok.
  assert (UC w' = <[u := unit_core U]> (UC w)) as HUC by (unfold UC; by rewrite HU, fmap_insert).
  assert (US w' = <[u := unit_skel U]> (US w)) as HUS by (unfold US; by rewrite HU, fmap_insert).
  assert (TC w' = TC w) as HC by (unfold TC; by rewrite HT). assert (TS w' = TS w) as HS by (unfold TS; by rewrite HT).
  assert (RP w' = RP w) as HR by (unfold RP; by rewrite HT).
  assert (UC w !! u = None) as Hn by (unfold UC; by rewrite lookup_fmap, Hu).
  assert (∀ v V, UC w !! v = Some V → <[u := unit_core U]> (UC w) !! v = Some V) as Hold by (intros v V HV; rewrite lookup_insert_ne; congruence).
  assert (same_heads w w') as HH by (intros m; unfold idleTask, nilTask, playerTask; rewrite HM, HB; by destruct m).
  split; rewrite ?HC, ?HR, ?HUC, ?HM, ?HB, ?HE, ?HTm; try done.
  - destruct W1 as [O1 O2 O3 O4 O5 O6 O8 O9]. split; rewrite ?HS, ?HUS; try done.
    + intros m. destruct (HH m) as (-> & _). apply O1.
    + intros m. destruct (HH m) as (_ & -> & _). apply O2.
    + intros m. destruct (HH m) as (_ & _ & ->). apply O3.
    + intros t S HSt Hc. destruct (HH (s_manager S)) as (-> & _). by apply O4.
    + intros t S v HSt Hv. destruct (O5 _ _ _ HSt Hv) as (V & HV & HR'). exists V. rewrite lookup_insert_ne; [done|]. intros <-.
      by rewrite US_lookup, Hu in HV.
    + intros v V t HV. destruct (decide (v = u)) as [->|Hne]; [|rewrite lookup_insert_ne in HV by done; by apply O6].
      rewrite lookup_insert_eq in HV. injection HV as <-. simpl. congruence.
  - intros t T HTt. rewrite HT in HTt. eapply task_ok_mono; [by apply W2|done|]. intros v V HV Hs. exists V. auto.
  - intros v V t c. rewrite HU. destruct (decide (v = u)) as [->|Hne]; [|rewrite lookup_insert_ne by done; by apply W3].
    rewrite lookup_insert_eq. intros [= <-]. congruence.
  - eapply links_keeps; [done..|]. intros v V HV. exists V. split_and!; auto.
  - intros v V. rewrite HU. destruct (decide (v = u)) as [->|Hne]; [|rewrite lookup_insert_ne by done; by apply W9].
    rewrite lookup_insert_eq. by intros [= <-].
Qed.

Lemma Register_ok lost X id d area dgun shield speed w u w' :
  world_ok lost X w → is_Some (GetMaxRange_any (d_cdef d)) → RegisterTeamUnit id d area dgun shield speed w = (u, w') →
  world_ok lost X w' ∧ units w !! u = None ∧ units w' = <[u := new_CCircuitUnit id d area dgun shield speed]> (units w) ∧ tasks w' = tasks w ∧
  same_heads w w' ∧ teamUnits w' = <[id := u]> (teamUnits w).
Proof.
  intros W Hr. unfold RegisterTeamUnit. pose proof (alloc_unit w) as Hu. set (u0 := alloc _) in *. clearbody u0. intros [= <- <-].
  split; [|split_and!; try done; by intros []].
  eapply (add_unit_world lost X u0 (new_CCircuitUnit id d area dgun shield speed)); try done.
  intros id' v. cbn [teamUnits set_teamUnits]. destruct (decide (id' = id)) as [->|Hn].
  - rewrite lookup_insert_eq. intros [= <-]. eexists. rewrite lookup_insert_eq. split; [done|]. done.
  - rewrite lookup_insert_ne by done. intros Hv. destruct (wo_team _ _ _ W _ _ Hv) as (V & HV & H1 & H2). exists V.
    rewrite lookup_insert_ne; [done|]. intros <-. unfold UC in HV. by rewrite lookup_fmap, Hu in HV.
Qed.

(** ** A place for a unit *)

(** The unit is in no task, or a nanoframe. *)
Definition unplaced (w : World) (U : CCircuitUnit) : Prop :=
  ∀ t, u_task U = Some t → ∃ T, tasks w !! t = Some T ∧ class_of (kind T) = C_NIL.
Lemma unplaced_nowhere lost X w u U t T : world_ok lost X w → units w !! u = Some U → unplaced w U → tasks w !! t = Some T → u ∉ t_units T.
Proof.
  intros W HU Hun HT Hin. pose proof (wo_owned _ _ _ W) as O. destruct (own_member _ _ O _ _ _ (skel_of_task _ _ _ HT) Hin) as (V & HV & Ht & _).
  rewrite (skel_of_unit _ _ _ HU) in HV. injection HV as <-. simpl in Ht. destruct (Hun t Ht) as (T' & HT' & Hc). assert (T' = T) as -> by congruence.
  pose proof (own_none _ _ O _ _ (skel_of_task _ _ _ HT) Hc) as He. simpl in He. set_solver.
Qed.
Lemma unplaced_free lost X w R' u U : world_ok lost X w → (∀ t r, R' !! t = Some r → RP w !! t = Some r) → units w !! u = Some U → unplaced w U → free_to_go X (TC w) R' u (unit_core U).
Proof.
  intros W HR HU Hun. split.
  - intros t c Hc Hd Hr. apply HR in Hr. destruct (link_retreat _ _ _ _ (wo_links _ _ _ W) _ _ _ Hc Hd Hr) as (R & tr & c1 & v & id & G1 & G2 & G3 & G4 & G5 & _).
    rewrite (core_of_unit _ _ _ HU) in G1. injection G1 as <-. simpl in G2. destruct (Hun tr G2) as (T & HT & Hc1).
    rewrite (core_of_task _ _ _ HT) in G3. injection G3 as <-. simpl in G5. by rewrite <-kclass_kcore, G5 in Hc1.
  - intros t c Ht Hc _. simpl in Ht. left. destruct (Hun t Ht) as (T & HT & Hc1). destruct (R' !! t) as [r|] eqn:Hr; [|done]. apply HR in Hr.
    apply RP_lookup in Hr as (T' & HT' & Hk). assert (T' = T) as -> by congruence. by rewrite Hk in Hc1.
Qed.

(** The unit [u] is put into the nil or the idle task [t] of the manager [m]. *)
Record places (m : ManagerId) (t u : Z) (U : CCircuitUnit) (w w' : World) : Prop := {
  pl_task : ∃ T T', tasks w !! t = Some T ∧ manager T = m ∧ tasks w' = <[t := T']> (tasks w) ∧
    (class_of (kind T) = C_NIL ∧ T' = T ∧ acts_ok C_NIL U ∨ class_of (kind T) = C_IDLE ∧ isDead T = false ∧ T' = insert_unit u T);
  pl_unit : ∃ U', units w' = <[u := U']> (units w) ∧ u_id U' = u_id U ∧ u_isDead U' = u_isDead U ∧ u_hasShield U' = u_hasShield U ∧ u_def U' = u_def U ∧
    u_manager U' = Some m ∧ u_task U' = Some t ∧ u_acts U' = u_acts U ∧ u_dgunAct U' = u_dgunAct U ∧ u_travelAct U' = u_travelAct U;
  pl_lists : lists_kept w w'
}.

Lemma placed_owned lost m t u U w w' :
  owned_ok lost w → units w !! u = Some U → (∀ t0 T0, tasks w !! t0 = Some T0 → u ∉ t_units T0) → u_isDead U = false → places m t u U w w' → owned_ok lost w'.
Proof.
  intros [O1 O2 O3 O4 O5 O6 O8 O9] HU Hno Hg [(T & T' & HT & Hm & A1 & HTT) (U' & A2 & B1 & B2 & B3 & B4 & B5 & B6 & _) A3].
  pose proof (lists_heads _ _ A3) as HH.
  assert (∀ t0 S, TS w !! t0 = Some S → ∃ S', TS w' !! t0 = Some S' ∧ s_manager S' = s_manager S ∧ s_class S' = s_class S ∧ s_dead S' = s_dead S ∧
    s_waiting S' = s_waiting S ∧ s_units S ⊆ s_units S' ∧ (s_class S = C_NIL → s_units S' = s_units S) ∧ ∀ v, v ∈ s_units S' → v ∈ s_units S ∨ v = u ∧ t0 = t) as Hfw.
  { intros t0 S HS. rewrite !TS_lookup, A1 in *. destruct (decide (t0 = t)) as [->|Hn]; [|rewrite lookup_insert_ne by done; exists S; split_and!; auto; by left].
    rewrite lookup_insert_eq. rewrite HT in HS. injection HS as <-. eexists. split; [done|].
    destruct HTT as [(Hc & -> & _)|(Hc & _ & ->)]; simpl; (split_and!; [done..| | |]); [done|done|by left|apply union_subseteq_r|congruence|].
    intros v [->%elem_of_singleton|Hv]%elem_of_union; [by right|by left]. }
  assert (∀ t0 S', TS w' !! t0 = Some S' → ∃ S, TS w !! t0 = Some S) as Hbk.
  { intros t0 S' HS. rewrite !TS_lookup, A1 in *. destruct (decide (t0 = t)) as [->|Hn]; [rewrite HT; by eexists|]. rewrite lookup_insert_ne in HS by done. by eexists. }
  assert (US w' = <[u := unit_skel U']> (US w)) as HUS by (unfold US; by rewrite A2, fmap_insert).
  assert (∃ S', TS w' !! t = Some S' ∧ s_manager S' = m ∧ (s_class S' = C_NIL ∨ s_class S' = C_IDLE ∧ u ∈ s_units S')) as (St & HSt & Hmt & Hct).
  { rewrite TS_lookup, A1, lookup_insert_eq. eexists. split; [done|]. destruct HTT as [(Hc & -> & _)|(Hc & _ & ->)]; simpl; (split; [done|]); [by left|right]. split; [done|]. apply elem_of_union. left. by apply elem_of_singleton. }
  clear HTT A1. split.
  - intros m0. destruct (O1 m0) as (S & HS & H1 & H2 & H3), (HH m0) as (-> & _). destruct (Hfw _ _ HS) as (S' & HS' & G1 & G2 & G3 & _). exists S'. split_and!; congruence.
  - intros m0. destruct (O2 m0) as (S & HS & H1 & H2), (HH m0) as (_ & -> & _). destruct (Hfw _ _ HS) as (S' & HS' & G1 & G2 & G3 & _). exists S'. split_and!; congruence.
  - intros m0. destruct (O3 m0) as (S & HS & H1 & H2 & H3), (HH m0) as (_ & _ & ->). destruct (Hfw _ _ HS) as (S' & HS' & G1 & G2 & G3 & _). exists S'. split_and!; congruence.
  - intros t0 S' HS' Hc. destruct (Hbk _ _ HS') as (S & HS). destruct (Hfw _ _ HS) as (S1 & HS1 & G1 & G2 & _). assert (S1 = S') as -> by congruence.
    destruct (HH (s_manager S')) as (-> & _). rewrite G1. apply O4; congruence.
  - intros t0 S' v HS' Hv. destruct (Hbk _ _ HS') as (S & HS). destruct (Hfw _ _ HS) as (S1 & HS1 & G1 & G2 & G3 & G4 & G5 & _ & G6). assert (S1 = S') as -> by congruence.
    rewrite HUS. destruct (G6 v Hv) as [Hin|[-> ->]].
    + destruct (task_of_skel _ _ _ HS) as (T0 & HT0 & ->). rewrite lookup_insert_ne; [by apply (O5 t0 (task_skel T0))|]. intros <-. by apply (Hno t0 T0 HT0).
    + rewrite lookup_insert_eq. eexists. split; [done|]. simpl. by rewrite B6, B2.
  - intros v V t0 HV Ht0. rewrite HUS in HV. destruct (decide (v = u)) as [->|Hn].
    + rewrite lookup_insert_eq in HV. injection HV as <-. simpl in *. assert (t0 = t) as -> by congruence. exists St. rewrite B5, Hmt. split_and!; try done.
      * intros Hx. destruct Hct as [?|[? ?]]; [by left|done].
      * intros _ _. destruct Hct as [?|[? ?]]; [by left|by right].
    + rewrite lookup_insert_ne in HV by done. destruct (O6 _ _ _ HV Ht0) as (S & HS & H1 & H2 & H3). destruct (Hfw _ _ HS) as (S' & HS' & G1 & G2 & _ & _ & G5 & _ & G6).
      exists S'. rewrite G1, G2. split_and!; try done; [intros Hx; apply H2; intros Hy; by apply Hx, G5|]. intros Hg' Hl. destruct (H3 Hg' Hl); [by left|right; by apply G5].
  - intros t0 S' HS' Hc. destruct (Hbk _ _ HS') as (S & HS). destruct (Hfw _ _ HS) as (S1 & HS1 & G1 & G2 & _ & _ & _ & G5 & _). assert (S1 = S') as -> by congruence.
    rewrite G5 by congruence. apply (O8 t0); congruence.
  - intros t0 S' HS'. destruct (Hbk _ _ HS') as (S & HS). destruct (Hfw _ _ HS) as (S1 & HS1 & _ & _ & _ & G4 & G5 & _). assert (S1 = S') as -> by congruence.
    rewrite G4. etransitivity; [by apply (O9 t0)|done].
Qed.

Lemma places_world lost X m t u U w w' :
  world_ok lost X w → units w !! u = Some U → unplaced w U → u_isDead U = false → places m t u U w w' → world_ok lost X w'.
Proof.
  intros W HU Hun Hg HP. assert (owned_ok lost w') as O'.
  { eapply placed_owned; [apply W|done| |done..]. intros t0 T0 HT0. by eapply unplaced_nowhere. }
  destruct HP as [(T & T' & HT & Hm & A1 & HTT) (U' & A2 & B1 & B2 & B3 & B4 & B5 & B6 & B7 & B8 & B9) A3].
  assert (task_core T' = task_core T ∧ repairer_of T' = repairer_of T) as [HC HR] by (by destruct HTT as [(_ & -> & _)|(_ & _ & ->)]).
  assert (TC w' = TC w) as HTC by (by eapply TC_insert). assert (RP w' = RP w) as HRP by (by eapply RP_insert_kept).
  eapply (world_ok_keeps lost X lost X w w'); try done.
  - intros t0 r. by rewrite HRP.
  - eapply (unit_kept_insert X w w' u U U'); try done. right. eapply unplaced_free; [done| |done..]. intros t0 r. by rewrite HRP.
  - intros t0 T0 HT0. rewrite A1 in HT0. destruct (decide (t0 = t)) as [->|Hn]; [|rewrite lookup_insert_ne in HT0 by done; by left].
    rewrite lookup_insert_eq in HT0. injection HT0 as <-. destruct HTT as [(_ & -> & _)|(Hc & Hd & ->)]; [by left|right].
    by eapply (idle_changes lost X X _ w t T).
  - intros v V HV. rewrite A2 in HV. destruct (decide (v = u)) as [->|Hn]; [|rewrite lookup_insert_ne in HV by done; by left].
    rewrite lookup_insert_eq in HV. injection HV as <-. right. unfold unit_range. rewrite B4. split; [apply (wo_defs _ _ _ W _ _ HU)|].
    intros t0 c Ht0 Hc Hi. assert (t0 = t) as -> by congruence. rewrite (core_of_task _ _ _ HT) in Hc. injection Hc as <-. simpl in *. rewrite kclass_kcore in *.
    destruct HTT as [(Hc & _ & Ha)|(Hc & _)]; [|congruence]. rewrite Hc. destruct (Ha ltac:(done)) as (G1 & G2 & G3).
    unfold ptr_ok, act_addrs in *. rewrite B7, B8, B9. split_and!; [done..|]. simpl. done.
Qed.

Lemma nil_task lost w m : owned_ok lost w → ∃ T, tasks w !! nilTask w m = Some T ∧ class_of (kind T) = C_NIL ∧ manager T = m.
Proof. intros O. destruct (own_nil _ _ O m) as (S & HS & Hc & Hm). destruct (task_of_skel _ _ _ HS) as (T & HT & ->). by exists T. Qed.

(** The created handlers: a new unit becomes a nanoframe of its manager. *)
Lemma created_ok lost X m u U w :
  world_ok lost X w → units w !! u = Some U → u_isDead U = false → (u_task U = None → acts_ok C_NIL U) →
  ∃ w', created m u w = Some w' ∧ world_ok lost X w' ∧ teamUnits w' = teamUnits w ∧ same_heads w w' ∧
    (u_task U = None → ∃ U', units w' = <[u := U']> (units w) ∧ u_task U' = Some (nilTask w m) ∧ u_manager U' = Some m) ∧ (is_Some (u_task U) → w' = w) ∧
    tasks w' = tasks w.
Proof.
  intros W HU Hg Ha. unfold created. rewrite HU. simpl. destruct (u_task U) as [t|] eqn:Ht; [exists w; split_and!; try done|].
  unfold upd_unit, unit_SetTask. rewrite HU. simpl. rewrite lookup_insert_eq. simpl. unfold upd_unit. simpl. rewrite lookup_insert_eq. simpl.
  set (w1 := set_units (<[u := SetManager m U]> (units w)) w). change (nilTask w1 m) with (nilTask w m). set (w' := set_units _ w1).
  destruct (nil_task _ w m (wo_owned _ _ _ W)) as (T & HT & Hc & Hm).
  assert (places m (nilTask w m) u U w w') as HP.
  { split; [|eexists; split; [simpl; by rewrite insert_insert_eq|done]|by apply lists_kept_same]. exists T, T. split_and!; [done..|simpl; by rewrite insert_id|].
    left. auto. }
  exists w'. split_and!; try done.
  - eapply (places_world lost X m _ u U w w'); [done..| |done|done]. intros t0 Ht0. congruence.
  - intros _. eexists. simpl. by rewrite insert_insert_eq.
Qed.

Lemma unplaced_idle lost w u U m w1 : owned_ok lost w → units w1 = <[u := U]> (units w) → tasks w1 = tasks w → same_heads w w1 → u_manager U = Some m → lastFrame w1 = lastFrame w →
  ∃ I, tasks w !! idleTask w m = Some I ∧ class_of (kind I) = C_IDLE ∧ isDead I = false ∧ manager I = m ∧
    Idle_AssignTo (idleTask w1 m) u w1 =
      Some (set_tasks (<[idleTask w m := insert_unit u I]> (tasks w)) (set_units (<[u := unit_with_task (Some (idleTask w m)) (lastFrame w) U]> (units w)) w1)).
Proof.
  intros O HU HT HH Hm HF. destruct (idle_task _ _ m O) as (I & X & n & HI & HIk & HIm & HId & _). exists I. split_and!; [done|by rewrite HIk|done..|].
  destruct (HH m) as (-> & _). unfold Idle_AssignTo, unit_SetTask, upd_unit, upd_task. rewrite HU, lookup_insert_eq. simpl. rewrite Hm. simpl.
  rewrite HT, HI. simpl. rewrite insert_insert_eq, HF. done.
Qed.

(** What the finished handlers do besides: the army, the response, orders. *)
Lemma world_ok_army lost X w w' :
  world_ok lost X w → units w' = units w → tasks w' = tasks w → builder w' = builder w → enemies w' = enemies w → teamUnits w' = teamUnits w →
  fightTasks (military w') = fightTasks (military w) → fightUpdates (military w') = fightUpdates (military w) → fightIterator (military w') = fightIterator (military w) →
  same_heads w w' → world_ok lost X w'.
Proof.
  intros [W1 W2 W3 W4 W5 W6 W7 W8 W9] HU HT HB HE HTm HF1 HF2 HF3 HH.
  assert (UC w' = UC w) as HUC by (unfold UC; by rewrite HU). assert (TC w' = TC w) as HC by (unfold TC; by rewrite HT).
  assert (RP w' = RP w) as HR by (unfold RP; by rewrite HT).
  split; rewrite ?HC, ?HR, ?HUC, ?HU, ?HT, ?HB, ?HE, ?HTm; try done.
  - eapply owned_same; [|exact W1]. split; [unfold TS; by rewrite HT|unfold US; by rewrite HU|done].
  - destruct W4 as [M1 M2 M3 M4 M5 M6 M7]. split; rewrite ?HF1, ?HF2, ?HF3; done.
Qed.

(** The finished handlers: a nanoframe or a new unit idles from now on. *)
Lemma finished_ok lost X m u U w :
  world_ok lost X w → units w !! u = Some U → u_isDead U = false → unplaced w U → (is_Some (u_task U) → u_manager U = Some m) →
  ∃ w', finished m u w = Some w' ∧ world_ok lost X w' ∧ teamUnits w' = teamUnits w ∧ same_heads w w' ∧
    (∃ U', units w' = <[u := U']> (units w) ∧ u_task U' = Some (idleTask w m) ∧ u_manager U' = Some m ∧ u_id U' = u_id U ∧ u_isDead U' = false) ∧
    (∃ I, tasks w' = <[idleTask w m := insert_unit u I]> (tasks w) ∧ tasks w !! idleTask w m = Some I ∧ class_of (kind I) = C_IDLE) ∧ enemies w' = enemies w.
Proof.
  intros W HU Hg Hun Hmn. unfold finished. rewrite HU. simpl.
  set (U1 := match u_task U with None => SetManager m U | Some _ => U end).
  assert ((match u_task U with None => upd_unit u (SetManager m) w | Some _ => Some w end) = Some (set_units (<[u := U1]> (units w)) w)) as ->.
  { unfold U1. destruct (u_task U); [|unfold upd_unit; by rewrite HU]. rewrite insert_id by done. by destruct w. }
  simpl. set (w1 := set_units (<[u := U1]> (units w)) w).
  assert (u_manager U1 = Some m) as Hm1 by (unfold U1; destruct (u_task U); [by apply Hmn|done]).
  destruct (unplaced_idle _ w u U1 m w1 (wo_owned _ _ _ W)) as (I & HI & HIc & HId & HIm & HE); try done. rewrite HE. simpl. set (w2 := set_tasks _ _).
  assert (places m (idleTask w m) u U w w2) as HP.
  { split; [|eexists; split; [done|]; unfold U1; destruct (u_task U); simpl; by split_and!|by apply lists_kept_same]. exists I, (insert_unit u I). split_and!; [done..|by right]. }
  assert (world_ok lost X w2) as W2 by (by eapply (places_world lost X m _ u U w w2)).
  set (w3 := match m with Military => _ | Builder => _ end).
  assert (units w3 = units w2 ∧ tasks w3 = tasks w2 ∧ builder w3 = builder w2 ∧ enemies w3 = enemies w2 ∧ teamUnits w3 = teamUnits w2 ∧
    fightTasks (military w3) = fightTasks (military w2) ∧ fightUpdates (military w3) = fightUpdates (military w2) ∧
    fightIterator (military w3) = fightIterator (military w2) ∧ same_heads w2 w3) as (G1 & G2 & G3 & G4 & G5 & G6 & G7 & GI & G8).
  { unfold w3. destruct m; [|split_and!; done]. match goal with |- context [TRY_UNIT u ?x] => destruct (TRY_UNIT_rest u x) as (Q1 & Q2 & [Q3 [p Q4] Q5 Q6] & Q7); set (w4 := TRY_UNIT u x) in * end.
    rewrite Q1, Q2, Q3, Q5, Q6. split_and!; try done; [unfold w4, TRY_UNIT; by destruct (engine _) as [|[] ?]|]. intros m. unfold idleTask, nilTask, playerTask. rewrite Q3, Q4. by destruct m. }
  exists w3. split_and!; try done.
  - by apply (world_ok_army lost X w2 w3).
  - rewrite G1. eexists. simpl. split; [done|]. unfold U1. destruct (u_task U); simpl; split_and!; auto.
  - exists I. by rewrite G2.
Qed.

(** ** A unit is destroyed *)

Lemma owned_lost lost lost' w : owned_ok lost w → lost ⊆ lost' → owned_ok lost' w.
Proof.
  intros [O1 O2 O3 O4 O5 O6 O8 O9] Hl. split; try done. intros u U t HU Ht. destruct (O6 u U t HU Ht) as (S & H1 & H2 & H3 & H4).
  exists S. split_and!; try done. intros Hg Hn. apply H4; [done|]. intros Hx. by apply Hn, Hl.
Qed.
Lemma world_ok_lost lost lost' X w : world_ok lost X w → lost ⊆ lost' → world_ok lost' X w.
Proof. intros [W1 W2 W3 W4 W5 W6 W7 W8 W9] Hl. split; try done. by eapply owned_lost. Qed.

(** The unit [u] is in no task, and its pointer leads to a nil or an idle task. *)
Record placeless (u : Z) (w : World) : Prop := {
  nw_unit : ∃ U, units w !! u = Some U ∧ ∀ t, u_task U = Some t → ∃ T, tasks w !! t = Some T ∧ (class_of (kind T) = C_NIL ∨ class_of (kind T) = C_IDLE);
  nw_tasks t T : tasks w !! t = Some T → u ∉ t_units T
}.

(** The repair of a unit ends. *)
Lemma end_repair_ok lost id w :
  world_ok lost ∅ w → ∃ w', end_repair id w = Some w' ∧ world_ok lost ∅ w' ∧ repairedUnits (builder w') !! id = None ∧ goes w w' ∧ settles w w'.
Proof.
  intros W. unfold end_repair. destruct (repairedUnits (builder w) !! id) as [t|] eqn:Hr; [|exists w; split_and!; auto using goes_refl, settles_refl].
  pose proof (wo_builder _ _ _ W) as B. pose proof Hr as Hr'. apply (build_repaired _ _ B) in Hr' as (c & v & Hc & Hk & Hd).
  destruct (task_of_core _ _ _ Hc) as (T & HT & ->). simpl in *.
  assert (class_of (kind T) = C_REPAIR) as HcT by (rewrite <-kclass_kcore, Hk; done).
  destruct (AbortTask_ok lost ∅ t T w) as (w' & H1 & W' & He); [by eapply world_ok_weaken; [exact W|apply empty_subseteq]|done|done|by rewrite HcT|by intros ? ? ?%not_elem_of_empty|].
  exists w'. split_and!; [done|done| |by eapply ended_goes|apply He].
  destruct (repairedUnits (builder w') !! id) as [t'|] eqn:Hr2; [exfalso|done].
  apply (build_repaired _ _ (wo_builder _ _ _ W')) in Hr2 as (c' & v' & Hc' & Hk' & Hd'). destruct (task_of_core _ _ _ Hc') as (T' & HT' & ->). simpl in *.
  destruct (st_tasks _ _ (en_settles _ _ _ _ He) _ _ HT') as [[T0 HT0] _].
  destruct (st_task _ _ (en_settles _ _ _ _ He) _ _ HT0) as (T1 & HT1 & _ & _ & _ & G4 & _ & G6). assert (T1 = T') as -> by congruence.
  assert (repairedUnits (builder w) !! id = Some t') as Hr2.
  { apply (build_repaired _ _ B). exists (task_core T0), v'. split; [by apply core_of_task|]. simpl. split; [congruence|].
    destruct (isDead T0) eqn:Hd0; [|done]. by rewrite G4 in Hd'. }
  assert (t' = t) as -> by congruence. destruct (en_task _ _ _ _ He) as (T2 & HT2 & Hd2 & _). congruence.
Qed.

(** No unit is repaired that was not repaired before. *)
Definition fewer_repairs (w w' : World) : Prop := ∀ id, repairedUnits (builder w) !! id = None → repairedUnits (builder w') !! id = None.
Lemma fewer_repairs_by lost lost' X X' w w' :
  world_ok lost X w → world_ok lost' X' w' →
  (∀ t T', tasks w' !! t = Some T' → ∃ T, tasks w !! t = Some T ∧ kcore (kind T') = kcore (kind T) ∧ (isDead T = true → isDead T' = true)) → fewer_repairs w w'.
Proof.
  intros W W' Hb id Hid. destruct (repairedUnits (builder w') !! id) as [t|] eqn:Hr; [exfalso|done].
  apply (build_repaired _ _ (wo_builder _ _ _ W')) in Hr as (c & v & Hc & Hk & Hd). destruct (task_of_core _ _ _ Hc) as (T' & HT' & ->). simpl in *.
  destruct (Hb t T' HT') as (T & HT & Hkk & Hdd). assert (repairedUnits (builder w) !! id = Some t); [|congruence].
  apply (build_repaired _ _ (wo_builder _ _ _ W)). exists (task_core T), v. split; [by apply core_of_task|]. simpl. split; [congruence|].
  destruct (isDead T); [|done]. by rewrite Hdd in Hd.
Qed.
Lemma fewer_repairs_changes lost lost' X X' Q w w' : world_ok lost X w → world_ok lost' X' w' → changes Q w w' → fewer_repairs w w'.
Proof.
  intros W W' C. eapply fewer_repairs_by; [done..|]. intros t T' HT'. destruct (ch_tasks _ _ _ C t T' HT') as [T HT]. exists T. split; [done|].
  destruct (ch_task _ _ _ C t T HT) as (T1 & HT1 & _ & _ & H1 & H2). assert (T1 = T') as -> by congruence. done.
Qed.
Lemma fewer_repairs_settles lost lost' X X' w w' : world_ok lost X w → world_ok lost' X' w' → settles w w' → fewer_repairs w w'.
Proof.
  intros W W' C. eapply fewer_repairs_by; [done..|]. intros t T' HT'. destruct (st_tasks _ _ C t T' HT') as [[T HT] _]. exists T. split; [done|].
  destruct (st_task _ _ C t T HT) as (T1 & HT1 & _ & _ & _ & H1 & _ & H2). assert (T1 = T') as -> by congruence. done.
Qed.

(** A unit that is in no task dies. *)
Lemma dead_unit_world u U w w' :
  world_ok {[u]} ∅ w → placeless u w → units w !! u = Some U → repairedUnits (builder w) !! u_id U = None → (∀ id, teamUnits w !! id ≠ Some u) →
  tasks w' = tasks w → units w' = <[u := unit_Dead U]> (units w) → military w' = military w → builder w' = builder w → enemies w' = enemies w → teamUnits w' = teamUnits w →
  world_ok ∅ ∅ w'.
Proof.
  intros [W1 W2 W3 W4 W5 W6 W7 W8 W9] [(U0 & HU0 & Hpl) Hno] HU Hrep Hteam HT HUn HM HB HE HTm. assert (U0 = U) as -> by congruence.
  set (U' := unit_Dead U) in *.
  assert (UC w' = <[u := unit_core U']> (UC w)) as HUC by (unfold UC; by rewrite HUn, fmap_insert).
  assert (US w' = <[u := unit_skel U']> (US w)) as HUS by (unfold US; by rewrite HUn, fmap_insert).
  assert (TC w' = TC w) as HC by (unfold TC; by rewrite HT). assert (TS w' = TS w) as HS by (unfold TS; by rewrite HT).
  assert (RP w' = RP w) as HR by (unfold RP; by rewrite HT).
  assert (same_heads w w') as HH by (intros m; unfold idleTask, nilTask, playerTask; rewrite HM, HB; by destruct m).
  assert (∀ v V, v ≠ u → UC w !! v = Some V → <[u := unit_core U']> (UC w) !! v = Some V) as Hold by (intros v V Hv HV; by rewrite lookup_insert_ne).
  split; rewrite ?HC, ?HR, ?HUC, ?HM, ?HB, ?HE, ?HTm; try done.
  - destruct W1 as [O1 O2 O3 O4 O5 O6 O8 O9]. split; rewrite ?HS, ?HUS; try done.
    + intros m. destruct (HH m) as (-> & _). apply O1.
    + intros m. destruct (HH m) as (_ & -> & _). apply O2.
    + intros m. destruct (HH m) as (_ & _ & ->). apply O3.
    + intros t S HSt Hc. destruct (HH (s_manager S)) as (-> & _). by apply O4.
    + intros t S v HSt Hv. destruct (O5 _ _ _ HSt Hv) as (V & HV & HR'). exists V. rewrite lookup_insert_ne; [done|]. intros <-.
      destruct (task_of_skel _ _ _ HSt) as (T & HTt & ->). by apply (Hno t T HTt).
    + intros v V t HV Ht. destruct (decide (v = u)) as [->|Hne].
      * rewrite lookup_insert_eq in HV. injection HV as <-. destruct (O6 u (unit_skel U) t (skel_of_unit _ _ _ HU) Ht) as (S & H1 & H2 & H3 & _).
        exists S. split_and!; try done. 
      * rewrite lookup_insert_ne in HV by done. destruct (O6 _ _ _ HV Ht) as (S & H1 & H2 & H3 & H4). exists S. split_and!; try done.
        intros Hg _. apply H4; [done|]. by intros ->%elem_of_singleton.
  - intros t T HTt. rewrite HT in HTt. eapply task_ok_mono; [by apply W2|done|]. intros v V HV Hs. destruct (decide (v = u)) as [->|Hne]; [|exists V; auto].
    rewrite lookup_insert_eq. eexists. split; [done|]. rewrite (core_of_unit _ _ _ HU) in HV. by injection HV as <-.
  - intros v V t c HV. rewrite HUn in HV. destruct (decide (v = u)) as [->|Hne]; [|rewrite lookup_insert_ne in HV by done; by apply (W3 v)].
    rewrite lookup_insert_eq in HV. injection HV as <-. intros Ht Hc. apply (W3 u U t c HU Ht Hc).
  - destruct W7 as [L1 L2]. split.
    + intros t c r Ht Hd Hr. destruct (L1 t c r Ht Hd Hr) as (R & tr & c1 & v & id & G1 & G2 & G3 & G4 & G5 & G6).
      assert (∀ x V, <[u := unit_core U']> (UC w) !! x = Some V ∨ UC w !! x = Some V → ∃ V', <[u := unit_core U']> (UC w) !! x = Some V' ∧ c_task V' = c_task V) as Hk.
      { intros x V [HV|HV]; [by exists V|]. destruct (decide (x = u)) as [->|Hne]; [|exists V; split; [by apply Hold|done]].
        rewrite lookup_insert_eq. eexists. split; [done|]. rewrite (core_of_unit _ _ _ HU) in HV. by injection HV as <-. }
      destruct (Hk r R) as (R' & HR' & HRt); [by right|]. exists R', tr, c1, v, id. split_and!; try done; [congruence|].
      intros Hx. destruct (G6 Hx) as (V & HV & HVt). destruct (Hk v V) as (V' & HV' & HVt'); [by right|]. exists V'. split; [done|congruence].
    + intros t c v id Ht Hd Hk. destruct (L2 t c v id Ht Hd Hk) as (V & HV & H1 & H2). exists V. split; [|done]. apply Hold; [|done]. intros ->.
      rewrite (core_of_unit _ _ _ HU) in HV. injection HV as <-. simpl in H1. subst id.
      assert (repairedUnits (builder w) !! u_id U = Some t) by (apply (build_repaired _ _ W5); by exists c, (Some u)). congruence.
  - intros id v Hv. destruct (W8 id v Hv) as (V & HV & HR'). exists V. split; [|done]. apply Hold; [|done]. intros ->. by apply (Hteam id).
  - intros v V HV. rewrite HUn in HV. destruct (decide (v = u)) as [->|Hne]; [|rewrite lookup_insert_ne in HV by done; by apply (W9 v)].
    rewrite lookup_insert_eq in HV. injection HV as <-. apply (W9 u U HU).
Qed.

(** *** The unit leaves its task *)

(** After [OnUnitDestroyed] the unit idles, if it was in a task. *)
Lemma OnUnitDestroyed_ok t u T U w :
  world_ok ∅ ∅ w → units w !! u = Some U → u_isDead U = false → u_task U = Some t → tasks w !! t = Some T →
  ∃ w1 U1, OnUnitDestroyed t u w = Some w1 ∧ world_ok ∅ ∅ w1 ∧ goes w w1 ∧ fewer_repairs w w1 ∧ units w1 !! u = Some U1 ∧
    (class_of (kind T) = C_NIL ∧ w1 = w ∨ class_of (kind T) ≠ C_NIL ∧ u_task U1 = Some (idleTask w (manager T))).
Proof.
  intros W HU Hg Ht HT. unfold OnUnitDestroyed. rewrite HT. simpl. destruct (decide (class_of (kind T) = C_NIL)) as [Hn|Hn].
  { exists w, U. destruct (kind T); try discriminate. split_and!; try done; [apply goes_refl|by intros id|by left]. }
  destruct (decide (class_of (kind T) = C_IDLE)) as [Hi|Hi].
  { pose proof (idle_is_head _ _ _ _ _ W HT Hi) as Hh. exists w, U. destruct (kind T); try discriminate. split_and!; try done; [apply goes_refl|by intros id|right]. by rewrite <-Hh. }
  assert (may_release t u T U w) as M by done. destruct (RemoveAssignee_leaves ∅ t u T U w W M Hn) as (w1 & H1 & [L1 L2 (U1 & HU1 & Ht1) L4 _]).
  replace (∅ ∖ {[u]} : gset Z) with (∅ : gset Z) in L1 by set_solver. pose proof (changes_evolves _ _ _ L2) as Ev0.
  destruct (member_of _ _ _ _ _ _ (wo_owned _ _ _ W) HU Ht HT Hn Hi) as [_ Hin].
  assert (goes w w1) as Ev.
  { split; [done|]. eapply (left_fills ∅ t u T U); try done. exact (member_live _ _ _ _ _ W HT Hin). }
  pose proof (fewer_repairs_changes _ _ _ _ _ _ _ W L1 L2) as Fr.
  assert (∃ w1 U1, RemoveAssignee t u w = Some w1 ∧ world_ok ∅ ∅ w1 ∧ goes w w1 ∧ fewer_repairs w w1 ∧ units w1 !! u = Some U1 ∧
    (class_of (kind T) = C_NIL ∧ w1 = w ∨ class_of (kind T) ≠ C_NIL ∧ u_task U1 = Some (idleTask w (manager T)))) as Hdone.
  { exists w1, U1. split_and!; try done. by right. }
  destruct (kind T) as [| | | |r|f] eqn:Hk; try done. rewrite H1. simpl. destruct L4 as (T1 & HT1 & [[_ Hx]|(Hd1 & Hu1 & _)]); [done|].
  rewrite HT1. simpl. destruct (ch_task _ _ _ L2 t T HT) as (T1' & HT1' & Hm1 & Hc1 & _). assert (T1' = T1) as -> by congruence.
  rewrite ?Hk in Hc1. unfold repair_of. destruct (kind T1) as [| | | |r1|] eqn:Hk1; try discriminate. simpl. rewrite HU1. simpl.
  destruct (_ && _); [|exists w1, U1; split_and!; try done; by right].
  pose proof (member_live _ _ _ _ _ W HT Hin) as Hd.
  destruct (AbortTask_ok ∅ ∅ t T1 w1) as (w2 & H2 & W2 & He); [by eapply world_ok_weaken; [exact L1|apply empty_subseteq]|done|congruence|by rewrite Hk1|by intros ? ? ?%not_elem_of_empty|].
  destruct (st_unit _ _ (en_settles _ _ _ _ He) _ _ HU1) as (U2 & HU2 & _ & _ & Hm2 & _ & _ & Ht2). exists w2, U2. split_and!; try done.
  - eapply goes_trans; [done|]. by eapply ended_goes.
  - intros id Hid. apply (fewer_repairs_settles _ _ _ _ _ _ L1 W2 (en_settles _ _ _ _ He)). by apply Fr.
  - right. split; [done|]. destruct Ht2 as [->|(m & Hm & ->)]; [done|]. destruct (unit_task _ _ _ _ _ _ L1 HU1 Ht1) as (I & HI & HmI).
    assert (m = manager I) as -> by congruence. destruct (idle_task _ _ (manager T) (wo_owned _ _ _ W)) as (I0 & X & n & HI0 & _ & HmI0 & _).
    destruct (ev_task _ _ Ev _ _ HI0) as (I1 & HI1 & HmI1 & _). assert (I1 = I) as -> by congruence.
    destruct (ev_heads _ _ Ev (manager I)) as (-> & _). do 2 f_equal. congruence.
Qed.

(** The handlers of destroyed units. *)
Lemma destroyed_ok m u U w :
  world_ok ∅ ∅ w → units w !! u = Some U → u_isDead U = false → u_manager U = Some m → is_Some (u_task U) →
  ∃ w', destroyed m u w = Some w' ∧ world_ok {[u]} ∅ w' ∧ goes w w' ∧ placeless u w' ∧ fewer_repairs w w'.
Proof.
  intros W HU Hg Hm [t Ht]. destruct (unit_task _ _ _ _ _ _ W HU Ht) as (T & HT & HmT). assert (manager T = m) as HmT' by congruence.
  destruct (OnUnitDestroyed_ok t u T U w W HU Hg Ht HT) as (w1 & U1 & H1 & W1 & E1 & F1 & HU1 & Hcase).
  unfold destroyed. rewrite HU. simpl. rewrite Ht. simpl. rewrite HT. simpl. rewrite H1. simpl. rewrite HU1. simpl.
  assert (∃ w2 t1, u_task U1 = Some t1 ∧ RemoveAssignee t1 u w1 = Some w2 ∧ world_ok {[u]} ∅ w2 ∧ goes w w2 ∧ placeless u w2 ∧ fewer_repairs w w2) as (w2 & t1 & Ht1 & H2 & W2 & E2 & P2 & F2).
  { destruct Hcase as [[Hn ->]|[Hn Ht1]].
    - assert (U1 = U) as -> by congruence. exists w, t. split; [done|]. unfold RemoveAssignee. rewrite HT. simpl.
      split; [by destruct (kind T)|]. split; [by eapply world_ok_lost; [exact W|set_solver]|]. split; [apply goes_refl|]. split; [|done]. split.
      + exists U. split; [done|]. intros t1 Ht1. exists T. assert (t1 = t) as -> by congruence. auto.
      + intros t0 T0 HT0. eapply unplaced_nowhere; [exact W|exact HU| |exact HT0]. intros t1 Ht1. exists T. assert (t1 = t) as -> by congruence. done.
    - destruct (ev_unit _ _ E1 u U HU) as (U1' & HU1' & _ & _ & Hm1 & Hg1 & _). assert (U1' = U1) as -> by congruence.
      destruct (ev_heads _ _ E1 m) as (Hh & _).
      destruct (Idle_leaves ∅ u U1 m w1) as (w2 & H2 & W2 & E2 & HU2 & (I & HI2 & HnI & HcI) & HB2); [done|done|congruence|congruence|congruence|].
      destruct (idle_task _ _ m (wo_owned _ _ _ W1)) as (I1 & X & n & HI1 & HIk & _).
      exists w2, (idleTask w1 m). split_and!; [congruence| |by rewrite union_empty_r_L in W2|eapply goes_trans; [done|split; [done|by eapply idle_fills]]| |intros id Hid; rewrite HB2; by apply F1].
      + unfold RemoveAssignee. rewrite HI1. simpl. rewrite HIk. exact H2.
      + split.
        * exists (ClearAct U1). split; [by rewrite HU2, lookup_insert_eq|]. intros t1 Ht1'. simpl in Ht1'. assert (t1 = idleTask w1 m) as -> by congruence.
          destruct (ev_task _ _ E2 _ _ HI1) as (I2 & HI2' & _ & Hc2 & _). exists I2. split; [done|]. right. by rewrite Hc2, HIk.
        * intros t0 T0 HT0 Hin. rewrite HI2 in HT0. destruct (decide (t0 = idleTask w1 m)) as [->|Hne].
          { rewrite lookup_insert_eq in HT0. by injection HT0 as <-. }
          rewrite lookup_insert_ne in HT0 by done. apply Hne. eapply (task_is_unique _ w1 u U1 (idleTask w1 m) t0); [apply W1|done|congruence|done..]. }
  rewrite Ht1. simpl. rewrite H2. simpl. eexists. split; [done|].
  assert (∀ mm, fightTasks mm = fightTasks (military w2) → fightUpdates mm = fightUpdates (military w2) → fightIterator mm = fightIterator (military w2) → m_idleTask mm = m_idleTask (military w2) →
    m_nilTask mm = m_nilTask (military w2) → m_playerTask mm = m_playerTask (military w2) →
    world_ok {[u]} ∅ (set_military mm w2) ∧ goes w (set_military mm w2) ∧ placeless u (set_military mm w2) ∧ fewer_repairs w (set_military mm w2)) as Hfin.
  { intros mm G1 G2 GI G3 G4 G5. assert (same_heads w2 (set_military mm w2)) as HH by (by intros []). split_and!.
    - by apply (world_ok_army _ _ w2).
    - destruct E2 as [[A1 A2 A3 A4 A5] A6]. split; [|exact A6]. split; try done. by eapply same_heads_trans.
    - by destruct P2.
    - done. }
  destruct (kind T), m; try done; by apply Hfin.
Qed.

(** ** The system between two events *)

(** The invariant, and every registered unit has a manager and a task. *)
Record system_ok (w : World) : Prop := {
  so_world : world_ok ∅ ∅ w;
  so_staff id u U : teamUnits w !! id = Some u → units w !! u = Some U → is_Some (u_task U) ∧ is_Some (u_manager U)
}.
Lemma system_evolves w w' : system_ok w → world_ok ∅ ∅ w' → evolves w w' → system_ok w'.
Proof.
  intros [W S] W' Ev. split; [done|]. intros id u U'. rewrite (ev_team _ _ Ev). intros Hid HU'.
  destruct (wo_team _ _ _ W _ _ Hid) as (c & Hc & _). destruct (unit_of_core _ _ _ Hc) as (U & HU & ->).
  destruct (S id u U Hid HU) as [H1 H2]. destruct (ev_unit _ _ Ev _ _ HU) as (U1 & HU1 & _ & _ & Hm & _ & _ & Ht). assert (U1 = U') as -> by congruence.
  rewrite Hm. auto.
Qed.
Lemma registered w id u : system_ok w → teamUnits w !! id = Some u →
  ∃ U, units w !! u = Some U ∧ u_id U = id ∧ u_isDead U = false ∧ is_Some (u_task U) ∧ is_Some (u_manager U).
Proof.
  intros [W S] Hid. destruct (wo_team _ _ _ W _ _ Hid) as (c & Hc & H1 & H2). destruct (unit_of_core _ _ _ Hc) as (U & HU & ->).
  exists U. destruct (S id u U Hid HU). by split_and!.
Qed.

Lemma placeless_settles lost u w w' : world_ok lost ∅ w' → placeless u w → settles w w' → placeless u w'.
Proof.
  intros W [(U & HU & Hp) Hn] [S1 S2 S3 S4 S5 S6]. split.
  - destruct (S3 _ _ HU) as (U' & HU' & _ & _ & _ & _ & _ & Ht). exists U'. split; [done|]. intros t Ht'. destruct Ht as [Ht|(m & _ & Ht)].
    + destruct (Hp t) as (T & HT & Hc); [congruence|]. destruct (S1 _ _ HT) as (T' & HT' & _ & Hc' & _). exists T'. by rewrite Hc'.
    + destruct (idle_task _ _ m (wo_owned _ _ _ W)) as (I & X & n & HI & HIk & _). assert (t = idleTask w' m) as -> by (rewrite (proj1 (S4 m)); congruence).
      exists I. split; [done|]. right. by rewrite HIk.
  - intros t T HT Hin. destruct (S2 _ _ HT) as [_ Hm]. destruct (Hm u Hin) as (t0 & T0 & HT0 & Hu). by apply (Hn t0 T0).
Qed.

(** [CCircuitAI::UnitDestroyed]: the unit is in no task afterwards, and no task repairs it. *)
Lemma UnitDestroyed_ok u U w :
  world_ok ∅ ∅ w → units w !! u = Some U → u_isDead U = false → is_Some (u_task U) → is_Some (u_manager U) →
  ∃ w', UnitDestroyed u w = Some w' ∧ world_ok {[u]} ∅ w' ∧ goes w w' ∧ placeless u w' ∧ repairedUnits (builder w') !! u_id U = None.
Proof.
  intros W HU Hg Ht [m Hm]. unfold UnitDestroyed. rewrite HU. simpl. rewrite Hm. destruct m.
  - destruct (destroyed_ok Military u U w W HU Hg Hm Ht) as (w1 & -> & W1 & E1 & P1 & _). simpl.
    destruct (end_repair_ok {[u]} (u_id U) w1 W1) as (w2 & H2 & W2 & R2 & E2 & S2).
    exists w2. split_and!; [done|done|by eapply goes_trans|by eapply placeless_settles|done].
  - destruct (end_repair_ok ∅ (u_id U) w W) as (w1 & -> & W1 & R1 & E1 & S1). simpl.
    destruct (ev_unit _ _ E1 u U HU) as (U1 & HU1 & Hid1 & _ & Hm1 & Hg1 & _ & Ht1).
    destruct (destroyed_ok Builder u U1 w1 W1 HU1) as (w2 & H2 & W2 & E2 & P2 & F2); [congruence|congruence|by apply Ht1|].
    exists w2. split_and!; [done|done|by eapply goes_trans|done|by apply F2].
Qed.

(** The unit is registered under its own id only. *)
Lemma registered_once lost X w u U id : world_ok lost X w → units w !! u = Some U → teamUnits w !! id = Some u → id = u_id U.
Proof. intros W HU Hid. destruct (wo_team _ _ _ W _ _ Hid) as (c & Hc & H1 & _). rewrite (core_of_unit _ _ _ HU) in Hc. by injection Hc as <-. Qed.

(** [EVENT_UNIT_DESTROYED]: the unit is dead, not registered any more and in no task. *)
Lemma on_destroyed_ok id w :
  system_ok w → ∃ w', on_destroyed id w = Some w' ∧ system_ok w' ∧ fills w w' ∧ teamUnits w' = delete id (teamUnits w) ∧
    ∀ u, teamUnits w !! id = Some u → ∃ U, units w' !! u = Some U ∧ u_isDead U = true ∧ ∀ t T, tasks w' !! t = Some T → u ∉ t_units T.
Proof.
  intros SO. unfold on_destroyed. destruct (teamUnits w !! id) as [u|] eqn:Hid; [|exists w; split_and!; try done; [apply fills_refl|by rewrite delete_id]].
  destruct (registered w id u SO Hid) as (U & HU & Hu & Hg & Ht & Hm). pose proof (so_world _ SO) as W.
  destruct (UnitDestroyed_ok u U w W HU Hg Ht Hm) as (w1 & -> & W1 & E1 & P1 & R1). simpl.
  destruct (ev_unit _ _ E1 u U HU) as (U1 & HU1 & Hid1 & _ & Hm1 & Hg1 & _ & Ht1). unfold UnregisterTeamUnit. rewrite HU1. simpl.
  destruct (Ht1 Ht) as [t1 Ht1']. rewrite Ht1'. unfold upd_unit. simpl. rewrite HU1. simpl. set (w2 := set_units _ _).
  set (w0 := set_teamUnits (delete (u_id U1) (teamUnits w1)) w1).
  assert (world_ok {[u]} ∅ w0) as W0.
  { destruct W1 as [A1 A2 A3 A4 A5 A6 A7 A8 A9]. split; try done; [by eapply owned_same; [|exact A1]|]. intros i v Hv. simpl in Hv. rewrite lookup_delete_Some in Hv. destruct Hv as [_ Hv]. by apply A8. }
  assert (world_ok ∅ ∅ w2) as W2.
  { eapply (dead_unit_world u U1 w0 w2); try done; [by destruct P1|simpl; congruence|].
    intros i Hi. simpl in Hi. rewrite lookup_delete_Some in Hi. destruct Hi as [Hne Hi]. apply Hne. by rewrite (registered_once _ _ w1 u U1 i W1 HU1 Hi). }
  exists w2. split_and!; [done| |apply E1|simpl; by rewrite (ev_team _ _ E1), Hid1, Hu|].
  - split; [done|]. intros i v V Hi HV. simpl in Hi, HV. rewrite (ev_team _ _ E1), lookup_delete_Some in Hi. destruct Hi as [Hne Hi].
    destruct (registered w i v SO Hi) as (V0 & HV0 & Hv & _ & Hvt & Hvm). destruct (ev_unit _ _ E1 v V0 HV0) as (V1 & HV1 & _ & _ & G1 & _ & _ & G2).
    destruct (decide (v = u)) as [->|Hn]; [exfalso; assert (V0 = U) as -> by congruence; congruence|].
    rewrite lookup_insert_ne in HV by done. assert (V = V1) as -> by congruence. rewrite G1. auto.
  - intros v [= <-]. eexists. simpl. rewrite lookup_insert_eq. split_and!; [done|done|]. apply (nw_tasks _ _ P1).
Qed.

(** [EVENT_UNIT_CREATED]: the unit is registered and has a task of its manager; one that is known stays as it is. *)
Lemma on_created_ok m id d area dgun shield speed w :
  system_ok w → is_Some (GetMaxRange_any (d_cdef d)) →
  ∃ w' u U, on_created m id (RegisterTeamUnit id d area dgun shield speed) w = Some w' ∧ system_ok w' ∧ fills w w' ∧ teamUnits w' = <[id := u]> (teamUnits w) ∧
    units w' !! u = Some U ∧ (teamUnits w !! id = None → u_task U = Some (nilTask w m) ∧ u_manager U = Some m) ∧ (teamUnits w !! id = Some u → w' = w).
Proof.
  intros SO Hr. pose proof (so_world _ SO) as W. unfold on_created. destruct (teamUnits w !! id) as [u|] eqn:Hid.
  - destruct (registered w id u SO Hid) as (U & HU & Hu & Hg & [t Ht] & _).
    destruct (created_ok ∅ ∅ m u U w W HU Hg) as (w' & H1 & W' & HT & HH & _ & Hsame & _); [congruence|]. assert (w' = w) as -> by (apply Hsame; by rewrite Ht).
    exists w, u, U. split_and!; try done; [apply fills_refl|by rewrite insert_id].
  - destruct (RegisterTeamUnit id d area dgun shield speed w) as [u w1] eqn:HR.
    destruct (Register_ok ∅ ∅ id d area dgun shield speed w u w1 W Hr HR) as (W1 & Hu & HU1 & HT1 & HH1 & HTm1).
    set (U0 := new_CCircuitUnit id d area dgun shield speed) in *. assert (units w1 !! u = Some U0) as HU0 by (by rewrite HU1, lookup_insert_eq).
    destruct (created_ok ∅ ∅ m u U0 w1 W1 HU0) as (w' & H1 & W' & HTm & HH & Hnew & _ & HTs); [done|by intros _ ?|]. destruct (Hnew eq_refl) as (U & HU & Ht & Hm).
    exists w', u, U. split_and!; [done| |apply fills_same; congruence|congruence|by rewrite HU, lookup_insert_eq| |done].
    + split; [done|]. intros i v V. rewrite HTm, HTm1, HU, HU1, insert_insert_eq. intros Hi. destruct (decide (v = u)) as [->|Hn].
      * rewrite lookup_insert_eq. intros [= <-]. by rewrite Ht, Hm.
      * rewrite lookup_insert_ne by done. apply (so_staff _ SO i). destruct (decide (i = id)) as [->|Hni]; [|by rewrite lookup_insert_ne in Hi].
        rewrite lookup_insert_eq in Hi. congruence.
    + intros _. split; [|done]. rewrite Ht. by destruct (HH1 m) as (_ & -> & _).
Qed.

Lemma TRY_UNIT_goes u w : goes w (TRY_UNIT u w).
Proof.
  destruct (TRY_UNIT_rest u w) as (Q1 & Q2 & Q3 & Q4). split; [|by apply fills_same]. split; rewrite ?Q1, ?Q2; try done; [intros t T HT; by exists T|intros v V HV; by exists V|by apply lists_heads|by destruct Q3].
Qed.
Lemma world_ok_TRY lost X u w : world_ok lost X w → world_ok lost X (TRY_UNIT u w).
Proof. intros W. destruct (TRY_UNIT_rest u w) as (Q1 & Q2 & Q3 & Q4). by eapply world_ok_lists. Qed.

(** [CCircuitAI::UnitFinished] of a nanoframe or of a unit that is new. *)
Lemma UnitFinished_ok m u U w :
  world_ok ∅ ∅ w → units w !! u = Some U → u_isDead U = false → unplaced w U → (u_task U = None ∧ u_manager U = None ∨ u_manager U = Some m) → IsBeingBuilt u = false →
  ∃ w', UnitFinished m u w = Some w' ∧ world_ok ∅ ∅ w' ∧ fills w w' ∧ teamUnits w' = teamUnits w ∧
    (∃ U', units w' !! u = Some U' ∧ u_task U' = Some (idleTask w m) ∧ u_manager U' = Some m) ∧
    (∀ v V, v ≠ u → units w !! v = Some V → ∃ V', units w' !! v = Some V' ∧ u_manager V' = u_manager V ∧ (is_Some (u_task V) → is_Some (u_task V'))).
Proof.
  intros W HU Hg Hun Hm0 Hb. assert (is_Some (u_task U) → u_manager U = Some m) as Hm by (destruct Hm0 as [[-> _]|?]; [by intros [? ?]|done]). unfold UnitFinished. rewrite HU. simpl. rewrite Hb. set (w0 := TRY_UNIT u w).
  pose proof (world_ok_TRY ∅ ∅ u w W) as W0. pose proof (TRY_UNIT_goes u w) as E0. fold w0 in W0, E0.
  destruct (TRY_UNIT_rest u w) as (Q1 & Q2 & Q3 & Q4). fold w0 in Q1, Q2, Q3.
  assert (units w0 !! u = Some U) as HU0 by (by rewrite Q1). assert (unplaced w0 U) as Hun0 by (unfold unplaced; by rewrite Q2).
  pose proof (ev_heads _ _ E0) as HH0. pose proof (ev_team _ _ E0) as HTm0.
  destruct m.
  - destruct (finished_ok ∅ ∅ Military u U w0 W0 HU0 Hg Hun0 Hm) as (w1 & -> & W1 & HTm1 & HH1 & (U1 & HU1 & Ht1 & Hm1 & Hi1 & Hg1) & (I & HI1 & HI & HIc) & _). simpl.
    destruct (end_repair_ok ∅ (u_id U) w1 W1) as (w2 & H2 & W2 & _ & E2 & S2).
    exists w2. split_and!; [done|done| |rewrite (ev_team _ _ E2); congruence| |].
    + eapply fills_trans; [apply E0|]. eapply fills_trans; [|apply E2]. by eapply idle_fills; [|exact HI1].
    + destruct (st_unit _ _ S2 u U1) as (U2 & HU2 & _ & _ & Hm2 & _ & _ & Ht2); [by rewrite HU1, lookup_insert_eq|]. exists U2. split_and!; [done| |congruence].
      change (u_task U2 = Some (idleTask w Military)). rewrite <-(proj1 (HH0 Military)). destruct Ht2 as [->|(m & Hm' & ->)]; [done|]. assert (m = Military) as -> by congruence. by destruct (HH1 Military) as (-> & _).
    + intros v V Hv HV. destruct (ev_unit _ _ E2 v V) as (V' & HV' & _ & _ & G1 & _ & _ & G2); [by rewrite HU1, lookup_insert_ne, Q1|]. by exists V'.
  - destruct (end_repair_ok ∅ (u_id U) w0 W0) as (w1 & -> & W1 & _ & E1 & S1). simpl.
    destruct (st_unit _ _ S1 u U HU0) as (U1 & HU1 & Hi1 & _ & Hm1 & Hg1 & _ & Ht1).
    assert (unplaced w1 U1) as Hun1.
    { assert (placeless u w0) as P0.
      { split; [exists U; split; [done|]; intros t Ht; destruct (Hun0 t Ht) as (T & HT & Hc); exists T; auto|]. intros t T HT. by apply (unplaced_nowhere ∅ ∅ w0 u U t T). }
      pose proof (placeless_settles ∅ u w0 w1 W1 P0 S1) as P1. intros t Ht.
      destruct (own_task _ _ (wo_owned _ _ _ W1) _ _ _ (skel_of_unit _ _ _ HU1) Ht) as (S & HS & _ & _ & Hin). destruct (task_of_skel _ _ _ HS) as (T & HT & ->).
      exists T. split; [done|]. destruct Hin as [|Hin]; [simpl; congruence|apply not_elem_of_empty|done|]. by destruct (nw_tasks _ _ P1 t T HT). }
    destruct (finished_ok ∅ ∅ Builder u U1 w1 W1 HU1) as (w2 & H2 & W2 & HTm2 & HH2 & (U2 & HU2 & Ht2 & Hm2 & _) & (I & HI2 & HI & HIc) & _); [congruence|done| |].
    { intros [t Ht]. rewrite Hm1. destruct Ht1 as [Ht1|(m & Hm' & _)]; [apply Hm; rewrite <-Ht1, Ht; by eexists|].
      destruct Hm0 as [[_ ?]|?]; congruence. }
    exists w2. split_and!; [done|done| |rewrite HTm2, (ev_team _ _ E1); congruence| |].
    + eapply fills_trans; [apply E0|]. eapply fills_trans; [apply E1|]. by eapply idle_fills; [|exact HI2].
    + exists U2. split_and!; [by rewrite HU2, lookup_insert_eq| |done]. change (u_task U2 = Some (idleTask w Builder)). rewrite <-(proj1 (HH0 Builder)), Ht2. by destruct (ev_heads _ _ E1 Builder) as (-> & _).
    + intros v V Hv HV. destruct (ev_unit _ _ E1 v V) as (V' & HV' & _ & _ & G1 & _ & _ & G2); [by rewrite Q1|]. exists V'.
      by rewrite HU2, lookup_insert_ne.
Qed.

(** [EVENT_UNIT_FINISHED]: a nanoframe of the manager, or a unit that was never announced, idles; the end of its
    construction ends its repair. *)
Lemma on_finished_ok m id d area dgun shield speed w :
  system_ok w → is_Some (GetMaxRange_any (d_cdef d)) →
  (∀ u U, teamUnits w !! id = Some u → units w !! u = Some U → IsBeingBuilt u = false → u_manager U = Some m ∧ u_task U = Some (nilTask w m)) →
  (teamUnits w !! id = None → IsBeingBuilt (alloc (dom (units w))) = false) →
  ∃ w' u, on_finished m id (RegisterTeamUnit id d area dgun shield speed) w = Some w' ∧ system_ok w' ∧ fills w w' ∧ teamUnits w' !! id = Some u ∧
    (IsBeingBuilt u = false → ∃ U, units w' !! u = Some U ∧ u_task U = Some (idleTask w m) ∧ u_manager U = Some m).
Proof.
  intros SO Hr Hnano Hnew. pose proof (so_world _ SO) as W. unfold on_finished. destruct (teamUnits w !! id) as [u|] eqn:Hid.
  - destruct (registered w id u SO Hid) as (U & HU & Hu & Hg & _). destruct (IsBeingBuilt u) eqn:Hb.
    { exists w, u. unfold UnitFinished. rewrite HU. simpl. rewrite Hb. split_and!; try done. apply fills_refl. }
    destruct (Hnano u U eq_refl HU Hb) as [Hm Ht]. destruct (nil_task _ w m (wo_owned _ _ _ W)) as (T & HT & Hc & _).
    destruct (UnitFinished_ok m u U w W HU Hg) as (w' & H1 & W' & HF & HTm & (U' & HU' & Ht' & Hm') & Hrest); [|by right|done|].
    { intros t Ht'. exists T. split; [congruence|done]. }
    exists w', u. split_and!; [done| |done|congruence|intros _; by exists U']. split; [done|]. intros i v V. rewrite HTm. intros Hi HV.
    destruct (decide (v = u)) as [->|Hn]; [assert (V = U') as -> by congruence; by rewrite Ht', Hm'|].
    destruct (registered w i v SO Hi) as (V0 & HV0 & _ & _ & Hvt & Hvm). destruct (Hrest v V0 Hn HV0) as (V1 & HV1 & G1 & G2).
    assert (V1 = V) as -> by congruence. rewrite G1. auto.
  - destruct (RegisterTeamUnit id d area dgun shield speed w) as [u w1] eqn:HR. assert (u = alloc (dom (units w))) as Hu by (by injection HR).
    destruct (Register_ok ∅ ∅ id d area dgun shield speed w u w1 W Hr HR) as (W1 & Hun & HU1 & HT1 & HH1 & HTm1).
    set (U0 := new_CCircuitUnit id d area dgun shield speed) in *. assert (units w1 !! u = Some U0) as HU0 by (by rewrite HU1, lookup_insert_eq).
    destruct (UnitFinished_ok m u U0 w1 W1 HU0) as (w' & H1 & W' & HF & HTm & (U' & HU' & Ht' & Hm') & Hrest); [done|by intros t|by left|rewrite Hu; by apply Hnew|].
    exists w', u. rewrite HTm, HTm1. split_and!; [done| |eapply fills_trans; [by apply fills_same|done]|by rewrite lookup_insert_eq|].
    + split; [done|]. intros i v V. rewrite HTm, HTm1. intros Hi HV. destruct (decide (v = u)) as [->|Hn]; [assert (V = U') as -> by congruence; by rewrite Ht', Hm'|].
      destruct (decide (i = id)) as [->|Hni]; [rewrite lookup_insert_eq in Hi; congruence|]. rewrite lookup_insert_ne in Hi by done.
      destruct (registered w i v SO Hi) as (V0 & HV0 & _ & _ & Hvt & Hvm). destruct (Hrest v V0 Hn) as (V1 & HV1 & G1 & G2); [by rewrite HU1, lookup_insert_ne|].
      assert (V1 = V) as -> by congruence. rewrite G1. auto.
    + intros _. exists U'. split; [done|]. split; [|done]. rewrite Ht'. by destruct (HH1 m) as (-> & _).
Qed.

(** [PlayerCommand]: the unit is in the player's task, unless it is a nanoframe. *)
Lemma PlayerCommand_ok id u U w :
  system_ok w → teamUnits w !! id = Some u → units w !! u = Some U →
  ∃ w', PlayerCommand u w = Some w' ∧ system_ok w' ∧ fills w w' ∧
    ∀ t T, u_task U = Some t → tasks w !! t = Some T → class_of (kind T) ≠ C_NIL → class_of (kind T) ≠ C_PLAYER →
      ∃ U', units w' !! u = Some U' ∧ u_task U' = Some (playerTask w (manager T)).
Proof.
  intros SO Hid HU. pose proof (so_world _ SO) as W. destruct (registered w id u SO Hid) as (U0 & HU0 & _ & Hg & [t Ht] & _).
  assert (U0 = U) as -> by congruence. destruct (unit_task _ _ _ _ _ _ W HU Ht) as (T & HT & Hm).
  unfold PlayerCommand. rewrite HU. simpl. rewrite Ht, HT. simpl. destruct (own_player _ _ (wo_owned _ _ _ W) (manager T)) as (S & HS & Hc & HmP & HdP).
  destruct (task_of_skel _ _ _ HS) as (TP & HTP & ->). simpl in *.
  destruct (decide (class_of (kind T) = C_NIL)) as [Hn|Hn].
  { exists w. split; [by destruct (kind T)|]. split; [done|]. split; [apply fills_refl|]. intros t' T' ? ? ?. congruence. }
  destruct (decide (class_of (kind T) = C_PLAYER)) as [Hp|Hp].
  { exists w. split; [by destruct (kind T)|]. split; [done|]. split; [apply fills_refl|]. intros t' T' ? ? ? ?. congruence. }
  assert (may_switch (playerTask w (manager T)) u TP U w) as M.
  { split; try done; try (by rewrite Hc); [by rewrite HmP|]. exists t, T. split_and!; try done. intros ->. congruence. }
  destruct (AssignTask_switch (λ _ _ w, Some w) (playerTask w (manager T)) u TP U w W M) as (w' & H1 & Sw).
  exists w'. split; [by destruct (kind T)|]. split; [eapply system_evolves; [done|apply Sw|apply Sw]|]. split; [apply Sw|].
  intros t' T' Ht' HT' _ _. assert (t' = t) as -> by congruence. assert (T' = T) as -> by congruence. apply (sw_unit _ _ _ _ _ Sw).
Qed.

(** [UpdateActions] deletes a dead unit: nothing refers to it. *)
Lemma DeleteTeamUnit_ok u U w : system_ok w → units w !! u = Some U → u_isDead U = true → system_ok (DeleteTeamUnit u w).
Proof.
  intros SO HU Hg. pose proof (so_world _ SO) as W. destruct W as [W1 W2 W3 W4 W5 W6 W7 W8 W9]. set (w' := DeleteTeamUnit u w).
  assert (UC w' = delete u (UC w)) as HUC by (unfold UC; simpl; by rewrite fmap_delete).
  assert (US w' = delete u (US w)) as HUS by (unfold US; simpl; by rewrite fmap_delete).
  assert (∀ t T, tasks w !! t = Some T → u ∉ t_units T) as Hno.
  { intros t T HT Hin. destruct (own_member _ _ W1 _ _ _ (skel_of_task _ _ _ HT) Hin) as (V & HV & _ & Hl).
    rewrite (skel_of_unit _ _ _ HU) in HV. injection HV as <-. simpl in Hl. congruence. }
  assert (∀ t T, u_task U = Some t → tasks w !! t = Some T → class_of (kind T) = C_NIL ∨ class_of (kind T) = C_IDLE) as Hcls.
  { intros t T Ht HT. destruct (own_task _ _ W1 _ _ _ (skel_of_unit _ _ _ HU) Ht) as (S & HS & _ & Hc & _). rewrite (skel_of_task _ _ _ HT) in HS.
    injection HS as <-. apply Hc. by apply (Hno t). }
  split; [|intros i v V Hi HV; simpl in Hi, HV; rewrite lookup_delete_Some in HV; destruct HV as [_ HV]; by apply (so_staff _ SO i v V)].
  split; rewrite ?HUC; try done.
  - destruct W1 as [O1 O2 O3 O4 O5 O6 O8 O9]. split; rewrite ?HUS; try done.
    + intros t S v HS Hv. destruct (O5 t S v HS Hv) as (V & HV & HR). exists V. rewrite lookup_delete_ne; [done|]. intros <-.
      destruct (task_of_skel _ _ _ HS) as (T & HT & ->). by apply (Hno t T).
    + intros v V t HV. rewrite lookup_delete_Some in HV. destruct HV as [_ HV]. by apply (O6 v V t).
  - intros t T HT. simpl in HT. destruct (W2 t T HT) as (G1 & G2 & G3). split; [exact G1|split; [exact G2|]]. destruct (kind T); try done. intros Hd.
    destruct (G3 Hd) as [G4 G5]. split; [done|]. intros v Hv. destruct (G5 v Hv) as (Hin & V & HV & HR). split; [done|]. exists V.
    rewrite lookup_delete_ne; [done|]. intros <-. by apply (Hno t T).
  - intros v V t c HV. simpl in HV. rewrite lookup_delete_Some in HV. destruct HV as [_ HV]. by apply (W3 v V t c).
  - destruct W7 as [L1 L2]. split.
    + intros t c r Ht Hd Hr. destruct (L1 t c r Ht Hd Hr) as (R & tr & c1 & v & id & G1 & G2 & G3 & G4 & G5 & G6). exists R, tr, c1, v, id.
      split_and!; try done.
      * rewrite lookup_delete_ne; [done|]. intros <-. rewrite (core_of_unit _ _ _ HU) in G1. injection G1 as <-. simpl in G2.
        destruct (task_of_core _ _ _ G3) as (T & HT & ->). simpl in G5. destruct (Hcls tr T G2 HT) as [Hc|Hc]; by rewrite <-kclass_kcore, G5 in Hc.
      * intros Hx. destruct (G6 Hx) as (V & HV & HVt). exists V. split; [|done]. rewrite lookup_delete_ne; [done|]. intros <-.
        rewrite (core_of_unit _ _ _ HU) in HV. injection HV as <-. simpl in HVt. destruct (task_of_core _ _ _ Ht) as (T & HT & ->).
        apply RP_lookup in Hr as (T' & HT' & Hk). assert (T' = T) as -> by congruence. destruct (Hcls t T HVt HT) as [Hc|Hc]; by rewrite Hk in Hc.
    + intros t c v id Ht Hd Hk. destruct (L2 t c v id Ht Hd Hk) as (V & HV & H1 & H2). exists V. split; [|done]. rewrite lookup_delete_ne; [done|]. intros <-.
      rewrite (core_of_unit _ _ _ HU) in HV. injection HV as <-. simpl in H2. congruence.
  - intros i v Hv. destruct (W8 i v Hv) as (V & HV & H1 & H2). exists V. split; [|done]. rewrite lookup_delete_ne; [done|]. intros <-.
    rewrite (core_of_unit _ _ _ HU) in HV. injection HV as <-. simpl in H2. congruence.
  - intros v V HV. simpl in HV. rewrite lookup_delete_Some in HV. destruct HV as [_ HV]. by apply (W9 v V).
Qed.
End events.
