(* ===== verification/FightLoop.v ===== *)
(** * FightLoop: the military's updates

    [CMilitaryManager::UpdateFight] and the deletion of dead tasks: the loop ends, whatever the updates
    add to the list, no task is used after it has been deleted, and the system stays consistent. *)

From stdpp Require Import sorting.
From S2P Require Import Prelude Float32 EnemyUnit ActionList TaskData TaskCore TaskClasses TaskTheory TaskInvariant TaskSteps.
From S2P Require Import TaskStop TaskLeave TaskNew TaskJoin MilitaryTasks Targets FighterCore FighterTasks MilitaryTheory TaskMove TaskCalm.
From S2P Require Import FighterTheory FighterCalm FightMoves UpdateTasks UnitEvents.

Open Scope circuit_scope.

(** ** The list *)

Lemma zget_elem {A} (l : list A) i x : l.[i] = Some x → 0 <= i ∧ l !! Z.to_nat i = Some x.
Proof. unfold zget. by case_decide. Qed.
Lemma swap_out_perm (l : list Z) i t : l.[i] = Some t → ∃ l', swap_out i l = Some l' ∧ t :: l' ≡ₚ l.
Proof.
  intros Hi. apply zget_elem in Hi as [Hi Hl]. destruct l as [|x l _] using rev_ind; [by rewrite lookup_nil in Hl|].
  unfold swap_out. rewrite last_snoc. simpl. eexists. split; [done|]. set (n := Z.to_nat i) in *.
  destruct (decide (n < length l)%nat) as [Hn|Hn].
  - rewrite lookup_app_l in Hl by done. rewrite insert_app_l by done. rewrite removelast_last.
    rewrite insert_take_drop by done. rewrite <-(take_drop_middle l n t Hl) at 3. rewrite <-app_assoc. simpl. solve_Permutation.
  - rewrite lookup_app_r in Hl by lia. apply list_lookup_singleton_Some in Hl as [Hn0 <-].
    rewrite insert_app_r_alt by lia. rewrite Hn0. simpl. rewrite removelast_last. apply Permutation_cons_append.
Qed.

Section fight_loop.
Context {E : Engine} {H : Heap} {TE : TaskEngine} {P : Policy} {TA : Tactics}.

(** ** The manager's numbers *)

Lemma military_iter C m i : military_ok C m → 0 <= i → military_ok C (with_fightIterator i m).
Proof. by intros [M1 M2 M3 M4 M5 M6 M7] Hi. Qed.
Lemma world_iter i w : world_ok ∅ ∅ w → 0 <= i → world_ok ∅ ∅ (set_military (with_fightIterator i (military w)) w).
Proof.
  intros [W1 W2 W3 W4 W5 W6 W7 W8 W9] Hi. split; try done; [|by apply military_iter].
  eapply owned_same; [|exact W1]. split; [done..|]. by intros [].
Qed.
Lemma system_iter i w : system_ok w → 0 <= i → system_ok (set_military (with_fightIterator i (military w)) w).
Proof. intros [W S] Hi. split; [by apply world_iter|exact S]. Qed.
(** A dead task leaves the list. *)
Lemma world_drop t T l w :
  world_ok ∅ ∅ w → tasks w !! t = Some T → isDead T = true → t :: l ≡ₚ fightUpdates (military w) →
  world_ok ∅ ∅ (set_military (with_fightUpdates l (military w)) w).
Proof.
  intros [W1 W2 W3 W4 W5 W6 W7 W8 W9] HT Hd HP. split; try done.
  - eapply owned_same; [|exact W1]. split; [done..|]. by intros [].
  - destruct W4 as [M1 M2 M3 M4 M5 M6 M7]. rewrite <-HP in M3. apply NoDup_cons in M3 as [M3 M3']. split; try done.
    + intros t' Ht'. apply M4. rewrite <-HP. by right.
    + intros t' c Hc Hu Hl. pose proof (M5 t' c Hc Hu Hl) as Hin. rewrite <-HP in Hin. apply elem_of_cons in Hin as [->|Hin]; [|done].
      change (TC w !! t = Some c) in Hc. rewrite (core_of_task _ _ _ HT) in Hc. injection Hc as <-. simpl in Hl. congruence.
Qed.

(** ** A dead task is deleted *)

(** It is not the managers' own, nobody works for it and no list has it. *)
Record discarded (t : Z) (T : IUnitTask) (w : World) : Prop := {
  di_task : tasks w !! t = Some T;
  di_dead : isDead T = true;
  di_class : updated (class_of (kind T)) = true;
  di_manager : manager T = Military;
  di_list : t ∉ fightUpdates (military w)
}.
Lemma unbind_targets t T f w :
  world_ok ∅ ∅ w → tasks w !! t = Some T → kind T = FighterTask f →
  ∃ w1, match target f with Some e => unbind t e w | None => Some w end = Some w1 ∧ (∃ En, w1 = set_enemies En w) ∧
    targets_ok (delete t (TC w)) (enemies w1) ∧ (∀ e, is_Some (enemies w1 !! e) ↔ is_Some (enemies w !! e)).
Proof.
  intros W HT Hk. destruct (wo_targets _ _ _ W) as [G1 G2]. pose proof (core_of_task _ _ _ HT) as HC.
  assert (∀ e, target f ≠ Some e → ∀ t', (∃ c f0 p, delete t (TC w) !! t' = Some c ∧ c_kind c = K_FIGHTER f0 (Some e) p) ↔
    ∃ c f0 p, TC w !! t' = Some c ∧ c_kind c = K_FIGHTER f0 (Some e) p) as Hoth.
  { intros e He t'. split; intros (c & f0 & p & Hc & Hk'); exists c, f0, p; (split; [|done]).
    - by apply lookup_delete_Some in Hc as [_ Hc].
    - rewrite lookup_delete_ne; [done|]. intros <-. rewrite HC in Hc. injection Hc as <-. simpl in Hk'. rewrite Hk in Hk'. injection Hk' as _ Hk' _. done. }
  destruct (target f) as [e|] eqn:He.
  - destruct (G2 t (task_core T) (fightType f) e (promote f) HC) as [X HX]; [simpl; rewrite Hk; simpl; by rewrite He|].
    unfold unbind. rewrite HX. simpl. eexists. split; [done|]. split; [by eexists|]. simpl. split; [split|].
    + intros x Y t'. destruct (decide (x = e)) as [->|Hx].
      * rewrite lookup_insert_eq. intros [= <-]. rewrite elem_of_difference, elem_of_singleton, (G1 _ _ t' HX).
        split; [intros [(c & f0 & p & Hc & Hk') Hn]; exists c, f0, p; split; [by rewrite lookup_delete_ne|done]|].
        intros (c & f0 & p & [Hn Hc]%lookup_delete_Some & Hk'). split; [by exists c, f0, p|done].
      * rewrite lookup_insert_ne by done. intros HY. rewrite (G1 _ _ t' HY). symmetry. apply Hoth. congruence.
    + intros t' c f0 x p [_ Hc]%lookup_delete_Some Hk'. destruct (G2 t' c f0 x p Hc Hk') as [Y HY].
      destruct (decide (x = e)) as [->|Hx]; [by rewrite lookup_insert_eq; eexists|by rewrite lookup_insert_ne].
    + intros x. destruct (decide (x = e)) as [->|Hx]; [rewrite lookup_insert_eq, HX; by split; eexists|by rewrite lookup_insert_ne].
  - eexists. split; [done|]. split; [by exists (enemies w); destruct w|]. split; [split|done].
    + intros x Y t' HY. rewrite (G1 _ _ t' HY). symmetry. by apply Hoth.
    + intros t' c f0 x p [_ Hc]%lookup_delete_Some Hk'. by eapply G2.
Qed.
Lemma delete_world t T En w :
  world_ok ∅ ∅ w → discarded t T w → targets_ok (delete t (TC w)) En → world_ok ∅ ∅ (set_tasks (delete t (tasks w)) (set_enemies En w)).
Proof.
  intros W [D1 D2 D3 D4 D5] HTg. destruct W as [W1 W2 W3 W4 W5 W6 W7 W8 W9]. set (w' := set_tasks _ _).
  assert (TC w' = delete t (TC w)) as HTC by (unfold TC; simpl; by rewrite fmap_delete).
  assert (TS w' = delete t (TS w)) as HTS by (unfold TS; simpl; by rewrite fmap_delete).
  pose proof (skel_of_task _ _ _ D1) as HSk. pose proof (core_of_task _ _ _ D1) as HCr.
  assert (t_units T = ∅) as Hemp by (destruct (W2 _ _ D1) as (G & _); by apply G; [apply not_elem_of_empty|]).
  assert (∀ t', (∃ S, TS w !! t' = Some S ∧ updated (s_class S) = false) → t' ≠ t) as Hhead.
  { intros t' (S & HS & Hc) ->. rewrite HSk in HS. injection HS as <-. simpl in Hc. congruence. }
  assert (∀ u U, units w !! u = Some U → u_task U ≠ Some t) as Hno.
  { intros u U HU Ht. destruct (own_task _ _ W1 _ _ _ (skel_of_unit _ _ _ HU) Ht) as (S & HS & _ & Hc & _). rewrite HSk in HS. injection HS as <-. simpl in Hc.
    rewrite Hemp in Hc. destruct (Hc (not_elem_of_empty _)) as [Hx|Hx]; by rewrite Hx in D3. }
  assert (match c_kind (task_core T) with K_RETREAT | K_FIGHTER _ _ _ => True | _ => False end) as HKc by (simpl; by destruct (kind T)).
  split; rewrite ?HTC; try done.
  - destruct W1 as [O1 O2 O3 O4 O5 O6 O8 O9]. split; rewrite ?HTS; try done.
    + intros m. destruct (O1 m) as (S & HS & Hc & HR). exists S. split; [|done]. rewrite lookup_delete_ne; [by destruct m|]. symmetry. destruct m; apply Hhead; exists S; by rewrite Hc.
    + intros m. destruct (O2 m) as (S & HS & Hc & HR). exists S. split; [|done]. rewrite lookup_delete_ne; [by destruct m|]. symmetry. destruct m; apply Hhead; exists S; by rewrite Hc.
    + intros m. destruct (O3 m) as (S & HS & Hc & HR). exists S. split; [|done]. rewrite lookup_delete_ne; [by destruct m|]. symmetry. destruct m; apply Hhead; exists S; by rewrite Hc.
    + intros t' S [_ HS]%lookup_delete_Some Hc. rewrite (O4 _ _ HS Hc). by destruct (s_manager S).
    + intros t' S u [_ HS]%lookup_delete_Some. by apply O5.
    + intros u U t' HU Ht. destruct (O6 u U t' HU Ht) as (S & HS & HR). exists S. split; [|done]. rewrite lookup_delete_ne; [done|]. intros <-.
      destruct (unit_of_skel _ _ _ HU) as (U0 & HU0 & ->). by apply (Hno u U0).
    + intros t' S [_ HS]%lookup_delete_Some. by apply O8 with t'.
    + intros t' S [_ HS]%lookup_delete_Some. by apply O9 with t'.
  - intros t' T' HT'. simpl in HT'. apply lookup_delete_Some in HT' as [_ HT']. by apply W2.
  - intros u U t' c HU Ht [_ Hc]%lookup_delete_Some. by eapply W3.
  - destruct W4 as [M1 M2 M3 M4 M5 M6 M7]. split; try done.
    + intros i X t' HX. rewrite (M2 i X t' HX). split; intros (c & f & e & p & Hc & HR); exists c, f, e, p; (split; [|done]).
      * rewrite lookup_delete_ne; [done|]. intros <-. rewrite HCr in Hc. injection Hc as <-. destruct HR as (_ & _ & HR). simpl in HR. congruence.
      * by apply lookup_delete_Some in Hc as [_ Hc].
    + intros t' Hin. destruct (M4 t' Hin) as (c & Hc & HR). exists c. split; [|done]. rewrite lookup_delete_ne; [done|]. by intros <-.
    + intros t' c [_ Hc]%lookup_delete_Some. by apply M5.
    + intros t' c f e p [_ Hc]%lookup_delete_Some. by eapply M6.
  - destruct W5 as [B1 B2 B3 B4 B5 B6].
    assert (∀ t' c, TC w !! t' = Some c → c_manager c = Builder ∨ (∃ v id, c_kind c = K_REPAIR v id) → t' ≠ t) as Hb.
    { intros t' c Hc Hor ->. rewrite HCr in Hc. injection Hc as <-. destruct Hor as [Hm|(v & id & Hk)]; [simpl in Hm; congruence|by rewrite Hk in HKc]. }
    split; try done.
    + intros t'. etransitivity; [apply (B2 t')|]. split; intros (c & Hc & Hm & HR); exists c; (split; [|done]); [rewrite lookup_delete_ne; [done|]; symmetry; by eapply Hb; [|left]|by apply lookup_delete_Some in Hc as [_ Hc]].
    + intros t'. etransitivity; [apply (B3 t')|]. split; intros (c & v & id & Hc & Hk & HR); exists c, v, id; (split; [|done]); [rewrite lookup_delete_ne; [done|]; symmetry; eapply Hb; [done|right; by exists v, id]|by apply lookup_delete_Some in Hc as [_ Hc]].
    + intros id t'. etransitivity; [apply (B5 id t')|]. split; intros (c & v & Hc & Hk & HR); exists c, v; (split; [|done]); [rewrite lookup_delete_ne; [done|]; symmetry; eapply Hb; [done|right; by exists v, id]|by apply lookup_delete_Some in Hc as [_ Hc]].
    + intros t' c v id [_ Hc]%lookup_delete_Some. by eapply B6.
  - destruct W7 as [L1 L2]. split.
    + intros t' c r [Hn Hc]%lookup_delete_Some Hd Hr. assert (RP w !! t' = Some r) as Hr0.
      { apply RP_lookup. apply RP_lookup in Hr as (T' & HT' & Hk). simpl in HT'. apply lookup_delete_Some in HT' as [_ HT']. by exists T'. }
      destruct (L1 t' c r Hc Hd Hr0) as (R & tr & c1 & v & id & G1 & G2 & G3 & G4 & G5 & G6). exists R, tr, c1, v, id. split_and!; try done.
      rewrite lookup_delete_ne; [done|]. intros <-. rewrite HCr in G3. injection G3 as <-. by rewrite G5 in HKc.
    + intros t' c v id [_ Hc]%lookup_delete_Some. by eapply L2.
Qed.
Lemma delete_task_ok t T w : world_ok ∅ ∅ w → discarded t T w →
  ∃ En, delete_task t w = Some (set_tasks (delete t (tasks w)) (set_enemies En w)) ∧ world_ok ∅ ∅ (set_tasks (delete t (tasks w)) (set_enemies En w)).
Proof.
  intros W D. pose proof D as [D1 D2 D3 D4 D5]. unfold delete_task. rewrite D1. simpl.
  destruct (kind T) as [| | |r| |f] eqn:Hk; try discriminate.
  - simpl. exists (enemies w). assert (w = set_enemies (enemies w) w) as Heq by (by destruct w). split; [by rewrite Heq at 2|].
    eapply delete_world; [done..|]. destruct (wo_targets _ _ _ W) as [G1 G2]. pose proof (core_of_task _ _ _ D1) as HC. split.
    + intros x X t' HX. rewrite (G1 x X t' HX). split; intros (c & f & p & Hc & Hkc); exists c, f, p; (split; [|done]); [|by apply lookup_delete_Some in Hc as [_ Hc]].
      rewrite lookup_delete_ne; [done|]. intros <-. rewrite HC in Hc. injection Hc as <-. simpl in Hkc. by rewrite Hk in Hkc.
    + intros t' c f x p [_ Hc]%lookup_delete_Some. by eapply G2.
  - destruct (unbind_targets t T f w W D1 Hk) as (w1 & -> & (En & ->) & HTg & _). simpl. exists En. split; [done|]. by eapply delete_world.
Qed.
(** What is left of the system when a task has gone or has lost its queries. *)
Record cleared (w w' : World) : Prop := {
  cl_world : world_ok ∅ ∅ w';
  cl_military : military w' = military w;
  cl_units : units w' = units w;
  cl_team : teamUnits w' = teamUnits w;
  cl_tasks t T' : tasks w' !! t = Some T' → ∃ T, tasks w !! t = Some T ∧ isDead T' = isDead T ∧ class_of (kind T') = class_of (kind T) ∧ t_units T' = t_units T;
  cl_frame : lastFrame w' = lastFrame w
}.
Lemma ClearRelease_ok t T w : world_ok ∅ ∅ w → discarded t T w → returns (ClearRelease t w) (cleared w).
Proof.
  intros W D. pose proof D as [D1 D2 D3 D4 D5]. unfold ClearRelease. case_match.
  - destruct (upd_task_calm t (with_queries ∅) w T D1) as (w' & H1 & C).
    { split; try done; [by intros Hc; rewrite Hc in D3|apply calm_kind_refl]. }
    { done. }
    exists w'. split; [done|]. assert (w' = set_tasks (<[t := with_queries ∅ T]> (tasks w)) w) as -> by (unfold upd_task in H1; rewrite D1 in H1; by injection H1 as <-).
    split; try done; [by eapply calm_world|]. intros t' T' HT'. simpl in HT'. destruct (decide (t' = t)) as [->|Hn].
    + rewrite lookup_insert_eq in HT'. injection HT' as <-. by exists T.
    + rewrite lookup_insert_ne in HT' by done. by exists T'.
  - destruct (delete_task_ok t T w W D) as (En & -> & W'). apply returns_ret. split; try done.
    intros t' T' HT'. simpl in HT'. apply lookup_delete_Some in HT' as [_ HT']. by exists T'.
Qed.
Lemma cleared_system w w' : system_ok w → manned w → cleared w w' → system_ok w' ∧ manned w'.
Proof.
  intros SO M [C1 C2 C3 C4 C5 C6]. split.
  - split; [done|]. rewrite C3, C4. apply SO.
  - intros t (T' & HT' & Hd & He & Hu). destruct (C5 t T' HT') as (T & HT & H1 & H2 & H3). apply (M t). exists T. split_and!; congruence.
Qed.

(** ** The loop *)

(** Living tasks are updated [n] times at most; dead ones leave the list, of which there are [k]. *)
Lemma fight_loop_ok (OM : on_map) n k w :
  system_ok w → manned w → length (fightUpdates (military w)) = k →
  ∃ fuel w', fight_loop fuel (Z.of_nat n) w = Some w' ∧ system_ok w' ∧ manned w'.
Proof.
  revert k w. induction n as [n IHn] using lt_wf_ind. induction k as [k IHk] using lt_wf_ind. intros w SO M Hk.
  pose proof (so_world _ SO) as W. pose proof (wo_military _ _ _ W) as MO.
  destruct (bool_decide (fightIterator (military w) < zlen (fightUpdates (military w))) && negb (bool_decide (Z.of_nat n = 0))) eqn:Hc.
  2:{ exists 1%nat, w. split; [|done]. simpl. by rewrite Hc. }
  pose proof Hc as [Hi%bool_decide_eq_true Hn%negb_true_iff%bool_decide_eq_false]%andb_true_iff.
  destruct (zget_is_Some (fightUpdates (military w)) (fightIterator (military w))) as [t Ht]; [split; [apply MO|done]|].
  assert (t ∈ fightUpdates (military w)) as Hin by (apply zget_elem in Ht as [_ Ht]; by eapply list_elem_of_lookup_2).
  destruct (fight_updates _ _ MO t Hin) as (c & Hcr & Hm & Hkc). destruct (task_of_core _ _ _ Hcr) as (T & HT & ->). simpl in Hm.
  assert (updated (class_of (kind T)) = true) as Hu by (simpl in Hkc; by destruct (kind T)).
  destruct (isDead T) eqn:Hd.
  - destruct (swap_out_perm _ _ _ Ht) as (l & Hl & HP). set (w1 := set_military (with_fightUpdates l (military w)) w).
    assert (world_ok ∅ ∅ w1) as W1 by (by eapply world_drop).
    assert (t ∉ l) as Hnl by (pose proof (fight_nodup _ _ MO) as Hnd; rewrite <-HP in Hnd; by apply NoDup_cons in Hnd as [? _]).
    destruct (ClearRelease_ok t T w1 W1) as (w2 & H2 & C2); [done|].
    destruct (cleared_system w1 w2) as [SO2 M2]; [split; [done|apply SO]|eapply manned_fills; [exact M|by apply fills_same]|done|].
    destruct (IHk (length (fightUpdates (military w2)))) with (w := w2) as (fuel & w' & Hf & HR); [|done..|].
    { rewrite (cl_military _ _ C2). simpl. rewrite <-Hk, <-HP. simpl. lia. }
    exists (S fuel), w'. split; [|done]. cbn [fight_loop]. rewrite Hc, Ht. simpl. rewrite HT. simpl. rewrite Hd, Hl. simpl. fold w1. rewrite H2. simpl. exact Hf.
  - destruct (UpdateTask_ok t T w OM W M HT Hd Hu) as (w1 & H1 & P1). set (w2 := set_military (with_fightIterator (fightIterator (military w1) + 1) (military w1)) w1).
    assert (system_ok w1) as SO1 by (eapply system_evolves; [exact SO|apply P1|apply P1]).
    assert (system_ok w2) as SO2 by (apply system_iter; [done|]; pose proof (fight_iter _ _ (wo_military _ _ _ (pr_world _ _ P1))); lia).
    assert (manned w2) as M2 by (eapply manned_fills; [eapply manned_fills; [exact M|apply P1]|by apply fills_same]).
    destruct (IHn (n - 1)%nat ltac:(lia) (length (fightUpdates (military w2))) w2 SO2 M2 eq_refl) as (fuel & w' & Hf & HR).
    exists (S fuel), w'. split; [|done]. cbn [fight_loop]. rewrite Hc, Ht. simpl. rewrite HT. simpl. rewrite Hd, H1. simpl. fold w2.
    replace (Z.of_nat n - 1) with (Z.of_nat (n - 1)) by lia. exact Hf.
Qed.
Lemma UpdateFight_ok (OM : on_map) (R : 0 < TEAM_SLOWUPDATE_RATE) w : system_ok w → manned w → ∃ fuel w', UpdateFight fuel w = Some w' ∧ system_ok w' ∧ manned w'.
Proof.
  intros SO M. unfold UpdateFight. set (m := if bool_decide _ then _ else _). set (w0 := set_military m w).
  assert (system_ok w0 ∧ manned w0 ∧ fightUpdates m = fightUpdates (military w)) as (SO0 & M0 & HU).
  { unfold w0, m. case_bool_decide; [|by destruct w]. split_and!; [by apply system_iter|eapply manned_fills; [exact M|by apply fills_same]|done]. }
  rewrite HU. assert (0 <= zlen (fightUpdates (military w)) `quot` TEAM_SLOWUPDATE_RATE) by (apply Z.quot_pos; [unfold zlen; lia|exact R]).
  destruct (fight_loop_ok OM (Z.to_nat (zlen (fightUpdates (military w)) `quot` TEAM_SLOWUPDATE_RATE + 1)) _ w0 SO0 M0 eq_refl) as (fuel & w' & H1 & HR).
  rewrite Z2Nat.id in H1 by lia. by exists fuel, w'.
Qed.
(** More fuel changes nothing. *)
Lemma fight_loop_more fuel n w w' : fight_loop fuel n w = Some w' → ∀ fuel', (fuel <= fuel')%nat → fight_loop fuel' n w = Some w'.
Proof.
  revert n w. induction fuel as [|fuel IH]; intros n w Hf fuel' Hle; [done|]. destruct fuel' as [|fuel']; [lia|]. cbn [fight_loop] in *.
  destruct (_ && _); [|done]. destruct (_.[_]) as [t|]; [|done]. simpl in *. destruct (tasks w !! t) as [T|]; [|done]. simpl in *.
  destruct (isDead T).
  - destruct (swap_out _ _); [|done]. simpl in *. destruct (ClearRelease _ _); [|done]. simpl in *. eapply IH; [exact Hf|lia].
  - destruct (UpdateTask _ _); [|done]. simpl in *. eapply IH; [exact Hf|lia].
Qed.
Lemma UpdateFight_more fuel w w' : UpdateFight fuel w = Some w' → ∀ fuel', (fuel <= fuel')%nat → UpdateFight fuel' w = Some w'.
Proof. unfold UpdateFight. intros Hf fuel' Hle. by eapply fight_loop_more. Qed.
End fight_loop.
