(* ===== verification/TaskWorld.v ===== *)
(** * TaskWorld: the life of the task system

    The world the managers' constructors make ([initial]), the events that come after it ([step]) and
    the proof that every world they reach satisfies [system_ok]; the properties of the operations on
    such worlds. *)

From stdpp Require Import sorting.
From S2P Require Import Prelude Float32 EnemyUnit ActionList TaskData TaskCore TaskClasses TaskTheory TaskInvariant TaskSteps.
From S2P Require Import TaskStop TaskLeave TaskNew TaskJoin MilitaryTasks Targets FighterCore FighterTasks MilitaryTheory TaskMove TaskCalm.
From S2P Require Import FighterTheory FightMoves UpdateTasks FightEvents IdleUpdates UnitEvents FightLoop.

Open Scope circuit_scope.

Section world.
Context {E : Engine} {H : Heap} {TE : TaskEngine} {P : Policy} {TA : Tactics}.

(** ** The start *)

(** The managers' own three tasks. *)
Definition head_tasks (m : ManagerId) (frame n i p : Z) : gmap Z IUnitTask :=
  <[p := new_IUnitTask m PlayerTask (-1) frame]> (<[i := new_IUnitTask m (IdleTask ∅ 0) (-1) frame]> {[n := new_IUnitTask m NilTask (-1) frame]}).
Lemma Init_tasks_eq m w : ∃ n i p, n ≠ i ∧ n ≠ p ∧ i ≠ p ∧ (∀ t, t = n ∨ t = i ∨ t = p → tasks w !! t = None) ∧
  Init_tasks m w = (n, i, p, set_tasks (head_tasks m (lastFrame w) n i p ∪ tasks w) w).
Proof.
  unfold Init_tasks, new_task. cbn [tasks set_tasks lastFrame]. set (w0 := tasks w).
  set (n := alloc (dom w0)). assert (w0 !! n = None) as Hn by (apply not_elem_of_dom, alloc_fresh). clearbody n.
  set (w1 := <[n := _]> w0). set (i := alloc (dom w1)). assert (w1 !! i = None) as Hi by (apply not_elem_of_dom, alloc_fresh). clearbody i.
  set (w2 := <[i := _]> w1). set (p := alloc (dom w2)). assert (w2 !! p = None) as Hp by (apply not_elem_of_dom, alloc_fresh). clearbody p.
  unfold w2, w1 in Hi, Hp. apply lookup_insert_None in Hi as [Hi Hni]. apply lookup_insert_None in Hp as [[Hp Hnp]%lookup_insert_None Hip].
  exists n, i, p. repeat (split; [done|]). split; [by intros t [->|[->| ->]]|]. f_equal. unfold set_tasks. cbn [units tasks enemies military builder lastFrame garbage engine teamUnits queryId].
  f_equal. unfold w2, w1, head_tasks. by rewrite <-!insert_union_l, <-insert_union_singleton_l.
Qed.

(** The head tasks of one manager by cases. *)
Lemma head_lookup m f n i p t T : n ≠ i → n ≠ p → i ≠ p → head_tasks m f n i p !! t = Some T ↔
  t = n ∧ T = new_IUnitTask m NilTask (-1) f ∨ t = i ∧ T = new_IUnitTask m (IdleTask ∅ 0) (-1) f ∨ t = p ∧ T = new_IUnitTask m PlayerTask (-1) f.
Proof.
  intros H1 H2 H3. unfold head_tasks. rewrite !lookup_insert_Some, lookup_singleton_Some. naive_solver.
Qed.

(** *** The first world: six tasks and nothing else *)

Definition head_class (c : TClass) : bool := match c with C_NIL | C_PLAYER | C_IDLE => true | _ => false end.
Record first_world (roles : nat) (w : World) : Prop := {
  fi_units : units w = ∅;
  fi_tasks t T : tasks w !! t = Some T → ∃ m k, T = new_IUnitTask m k (-1) (-2) ∧ head_class (class_of k) = true ∧
    t = (match k with NilTask => nilTask w m | PlayerTask => playerTask w m | _ => idleTask w m end) ∧ waiting_of k = ∅;
  fi_heads m : tasks w !! nilTask w m = Some (new_IUnitTask m NilTask (-1) (-2)) ∧
    tasks w !! idleTask w m = Some (new_IUnitTask m (IdleTask ∅ 0) (-1) (-2)) ∧
    tasks w !! playerTask w m = Some (new_IUnitTask m PlayerTask (-1) (-2));
  fi_enemies : enemies w = ∅;
  fi_fight : fightTasks (military w) = replicate (Z.to_nat FT_SIZE) ∅ ∧ fightUpdates (military w) = [] ∧ fightIterator (military w) = 0;
  fi_build : repairTasks (builder w) = ∅ ∧ buildTasksCount (builder w) = 0 ∧ buildUpdates (builder w) = [] ∧ repairedUnits (builder w) = ∅;
  fi_team : teamUnits w = ∅
}.
Lemma initial_first roles orders : first_world roles (initial roles orders).
Proof.
  unfold initial. set (w0 := MkWorld _ _ _ _ _ _ _ _ _ _). destruct (Init_tasks_eq Military w0) as (n & i & p & H1 & H2 & H3 & _ & ->).
  set (w1 := set_military _ _). destruct (Init_tasks_eq Builder w1) as (n' & i' & p' & H1' & H2' & H3' & Hf & ->).
  set (w := set_builder _ _). assert (tasks w = head_tasks Builder (-2) n' i' p' ∪ head_tasks Military (-2) n i p) as HT.
  { unfold w, w1. cbn [tasks set_builder set_military set_tasks lastFrame]. change (tasks w0) with (∅ : gmap Z IUnitTask). by rewrite (right_id_L ∅ (∪)). }
  assert (∀ t T, tasks w !! t = Some T ↔ head_tasks Builder (-2) n' i' p' !! t = Some T ∨ head_tasks Military (-2) n i p !! t = Some T) as HL.
  { intros t T. rewrite HT. apply lookup_union_Some. apply map_disjoint_spec. intros t' T1 T2 HT1 HT2. rewrite head_lookup in HT1 by done.
    assert (tasks w1 !! t' = None) as Hn by (apply Hf; naive_solver). unfold w1 in Hn. cbn [tasks set_military set_tasks] in Hn.
    change (tasks w0) with (∅ : gmap Z IUnitTask) in Hn. rewrite (right_id_L ∅ (∪)) in Hn. change (lastFrame w0) with (-2) in Hn. congruence. }
  split; try done.
  - intros t T. rewrite HL, !head_lookup by done. intros [[[-> ->]|[[-> ->]|[-> ->]]]|[[-> ->]|[[-> ->]|[-> ->]]]]; by eexists _, _.
  - intros m. rewrite !HL, !head_lookup by done. destruct m; simpl; naive_solver.
Qed.

Lemma first_world_ok roles w : first_world roles w → world_ok ∅ ∅ w.
Proof.
  intros [FU FT_ FH FE (FF1 & FF2 & FF3) (FB1 & FB2 & FB3 & FB4) FTm].
  assert (∀ t c, TC w !! t = Some c → head_class (kclass (c_kind c)) = true) as HC.
  { intros t c Hc. destruct (task_of_core _ _ _ Hc) as (T & HT & ->). destruct (FT_ t T HT) as (m & k & -> & Hk & _). simpl. by rewrite kclass_kcore. }
  split.
  - split; try (intros m; destruct (FH m) as (H1 & H2 & H3); rewrite TS_lookup, ?H1, ?H2, ?H3; by eexists).
    + intros t S. rewrite TS_lookup. intros (T & HT & ->)%fmap_Some. simpl. intros Hc. destruct (FT_ t T HT) as (m & k & -> & _ & -> & _). by destruct k.
    + intros t S u. rewrite TS_lookup. intros (T & HT & ->)%fmap_Some. destruct (FT_ t T HT) as (m & k & -> & _). simpl. set_solver.
    + intros u U t. unfold US. by rewrite FU, fmap_empty, lookup_empty.
    + intros t S. rewrite TS_lookup. intros (T & HT & ->)%fmap_Some. by destruct (FT_ t T HT) as (m & k & -> & _).
    + intros t S. rewrite TS_lookup. intros (T & HT & ->)%fmap_Some. destruct (FT_ t T HT) as (m & k & -> & _ & _ & Hw). simpl. by rewrite Hw.
  - intros t T HT. destruct (FT_ t T HT) as (m & k & -> & Hk & _). split_and!; simpl; [|set_solver|by destruct k].
    intros _. split; [done|]. intros _ f Hf. simpl in Hf. subst k. done.
  - intros u U t c. by rewrite FU, lookup_empty.
  - split; rewrite ?FF1, ?FF2, ?FF3; try done.
    + intros i X t. rewrite zget_replicate. case_decide; [|done]. intros [= <-]. split; [set_solver|]. intros (c & f & e & p & Hc & Hk & _).
      apply HC in Hc. by rewrite Hk in Hc.
    + constructor.
    + intros t. by rewrite elem_of_nil.
    + intros t c Hc [_ Hk] _. apply HC in Hc. by destruct (c_kind c).
    + intros t c f e p Hc Hk. apply HC in Hc. by rewrite Hk in Hc.
  - split; rewrite ?FB1, ?FB2, ?FB3, ?FB4; try done.
    + constructor.
    + intros t. rewrite elem_of_nil. split; [done|]. intros (c & Hc & _ & Hk). apply HC in Hc. by destruct (c_kind c).
    + intros t. split; [set_solver|]. intros (c & v & id & Hc & Hk & _). apply HC in Hc. by rewrite Hk in Hc.
    + intros id t. rewrite lookup_empty. split; [done|]. intros (c & v & Hc & Hk & _). apply HC in Hc. by rewrite Hk in Hc.
    + intros t c v id Hc Hk. apply HC in Hc. by rewrite Hk in Hc.
  - split; [intros x X t; by rewrite FE, lookup_empty|]. intros t c f x p Hc Hk. apply HC in Hc. by rewrite Hk in Hc.
  - split; [|intros t c v id Hc _ Hk; apply HC in Hc; by rewrite Hk in Hc]. intros t c r Hc _ Hr. apply RP_lookup in Hr as (T & HT & Hk).
    destruct (FT_ t T HT) as (m & k & -> & Hh & _). simpl in Hk. subst k. done.
  - intros id v. by rewrite FTm, lookup_empty.
  - intros u U. by rewrite FU, lookup_empty.
Qed.
Lemma initial_ok roles orders : system_ok (initial roles orders).
Proof.
  pose proof (initial_first roles orders) as F. split; [by apply (first_world_ok roles)|]. intros id u U. by rewrite (fi_team _ _ F), lookup_empty.
Qed.

(** ** Events *)

(** The answer [a] is one that the task's class asks for, and the unit travels. *)
Definition answers (u : Z) (a : Answer) (T : IUnitTask) (w : World) : Prop :=
  updated (class_of (kind T)) = true ∧ (∀ f, kind T = FighterTask f → awaits (fightType f) a = true) ∧ (class_of (kind T) = C_RETREAT → walks u w).
(** What a unit's update, its manager and the engine do to the system between two frames. *)
Inductive step (w : World) : World → Prop :=
| step_created m id d area dgun shield speed w' :
    is_Some (GetMaxRange_any (d_cdef d)) →
    on_created m id (RegisterTeamUnit id d area dgun shield speed) w = Some w' → step w w'
| step_finished m id d area dgun shield speed w' :
    is_Some (GetMaxRange_any (d_cdef d)) →
    (** A unit that is finished was a nanoframe of its manager, or nobody knew of it. *)
    (∀ u U, teamUnits w !! id = Some u → units w !! u = Some U → IsBeingBuilt u = false → u_manager U = Some m ∧ u_task U = Some (nilTask w m)) →
    (teamUnits w !! id = None → IsBeingBuilt (alloc (dom (units w))) = false) →
    on_finished m id (RegisterTeamUnit id d area dgun shield speed) w = Some w' → step w w'
| step_destroyed id w' : on_destroyed id w = Some w' → step w w'
| step_delete u U : units w !! u = Some U → u_isDead U = true → step w (DeleteTeamUnit u w)
| step_command id u w' : teamUnits w !! id = Some u → PlayerCommand u w = Some w' → step w w'
| step_frame : step w (set_lastFrame (lastFrame w + 1) w)
| step_make u U t w' w'' :
    (** A unit of the military that idles gets a task. *)
    units w !! u = Some U → u_isDead U = false → u_manager U = Some Military → u_task U = Some (idleTask w Military) →
    DefaultMakeTask u w = Some (t, w') → AssignTo t u w' = Some w'' → step w w''
| step_join t T u U w' :
    (** A unit that idles joins a task there is. *)
    may_assign t u T U w → (class_of (kind T) = C_RETREAT → t_units T = ∅) → AssignTo t u w = Some w' → step w w'
| step_leave t T u U w' : may_release t u T U w → class_of (kind T) ≠ C_NIL → RemoveAssignee t u w = Some w' → step w w'
| step_retreat t u U t0 T0 m w' w'' :
    (** A unit retreats. *)
    units w !! u = Some U → u_isDead U = false → u_manager U = Some m → u_task U = Some t0 → tasks w !! t0 = Some T0 → class_of (kind T0) ≠ C_NIL →
    EnqueueRetreat m w = (t, w') → AssignTask (λ _ _ w, Some w) u t w' = Some w'' → step w w''
| step_abort t T w' :
    tasks w !! t = Some T → isDead T = false → stoppable (class_of (kind T)) = true → AbortTask t w = Some w' → step w w'
| step_enemy_seen e : enemies w !! e = None → step w (set_enemies (<[e := ∅]> (enemies w)) w)
| step_enemy_gone e w' : is_Some (enemies w !! e) → delete_CEnemyInfo e w = Some w' → step w w'
| step_guard v V t w' : units w !! v = Some V → EnqueueGuard v w = Some (t, w') → step w w'
| step_fight fuel w' :
    (** The military's updates, on a map of finite size. *)
    on_map → 0 < TEAM_SLOWUPDATE_RATE → UpdateFight fuel w = Some w' → step w w'
| step_idle_update w' : Idle_Update w = Some w' → step w w'
| step_idle u U t T w' : soldier_at u U t T w → attacker_idle u w = Some w' → step w w'
| step_damaged u U t T e w' : soldier_at u U t T w → attacker_damaged u e w = Some w' → step w w'
| step_answer t u q a r T w' :
    (** A path query of a task is answered. *)
    tasks w !! t = Some T → answers u a T w → OnAnswer t u q a r w = Some w' → step w w'
| step_released t T w' :
    (** The last query that held a dead task is gone. *)
    discarded t T w → delete_task t w = Some w' → step w w'.

Lemma frame_ok f w : system_ok w → system_ok (set_lastFrame f w).
Proof.
  intros [W S]. split; [|exact S]. destruct W as [W1 W2 W3 W4 W5 W6 W7 W8 W9]. split; try done. by eapply owned_same; [|exact W1].
Qed.
Lemma nobody_lost (lost : gset Z) u w : lost = ∅ → world_ok (lost ∖ {[u]}) ∅ w → world_ok ∅ ∅ w.
Proof. intros ->. by rewrite (subseteq_empty_difference_L ∅) by apply empty_subseteq. Qed.
Lemma system_joined t u T U w0 w w' :
  system_ok w0 → evolves w0 w → may_assign t u T U w → joined ∅ t u T U w w' → system_ok w'.
Proof.
  intros SO Ev M J. eapply system_evolves; [exact SO|exact (nobody_lost ∅ u w' eq_refl (jn_world _ _ _ _ _ _ _ J))|].
  eapply evolves_trans; [exact Ev|]. eapply joined_evolves; [apply M..|exact J].
Qed.

Lemma proceeds_system w w' : system_ok w → manned w → proceeds w w' → system_ok w' ∧ manned w'.
Proof. intros SO MN P1. split; [eapply system_evolves; [exact SO|apply P1|apply P1]|eapply manned_fills; [exact MN|apply P1]]. Qed.
Lemma calm_system w w' : system_ok w → manned w → calm w w' → system_ok w' ∧ manned w'.
Proof. intros SO MN C. apply (proceeds_system w); [done..|]. apply calm_proceeds; [apply SO|done]. Qed.
(** Every event keeps the invariant, and leaves no task that needs units without. *)
Lemma step_ok w w' : system_ok w → manned w → step w w' → system_ok w' ∧ manned w'.
Proof.
  intros SO MN. pose proof (so_world _ SO) as W. destruct 1 as [m id d area dgun shield speed w' Hr H1|m id d area dgun shield speed w' Hr Hk Hb H1|id w' H1|u U HU Hg|id u w' Hid H1| |
    u U t w' w'' HU Hg Hm Ht H1 H2|t T u U w' M Hr H1|t T u U w' M Hn H1|t u U t0 T0 m w' w'' HU Hg Hm Ht HT Hn H1 H2|t T w' HT Hd Hs H1
    |e He|e w' He H1|v V t w' HV H1|fuel w' OM HR H1|w' H1|u U t T w' SA H1|u U t T e w' SA H1|t u q a r T w' HT (Hu & Ha & Hr) H1|t T w' D H1].
  - destruct (on_created_ok m id d area dgun shield speed w SO Hr) as (w1 & u & U & H2 & SO' & HF & _). assert (w1 = w') as -> by congruence.
    split; [done|by eapply manned_fills].
  - destruct (on_finished_ok m id d area dgun shield speed w SO Hr Hk Hb) as (w1 & u & H2 & SO' & HF & _). assert (w1 = w') as -> by congruence.
    split; [done|by eapply manned_fills].
  - destruct (on_destroyed_ok id w SO) as (w1 & H2 & SO' & HF & _). assert (w1 = w') as -> by congruence. split; [done|by eapply manned_fills].
  - split; [by eapply DeleteTeamUnit_ok|by eapply manned_fills; [exact MN|apply fills_same]].
  - destruct (registered w id u SO Hid) as (U & HU & _). destruct (PlayerCommand_ok id u U w SO Hid HU) as (w1 & H2 & SO' & HF & _).
    assert (w1 = w') as -> by congruence. split; [done|by eapply manned_fills].
  - split; [by apply frame_ok|by eapply manned_fills; [exact MN|apply fills_same]].
  - destruct (DefaultMakeTask_ok ∅ ∅ u U w W HU) as (t1 & w1 & H3 & [W1 G (T & f & HT & Hk & HmT & Hd & He) Hnew]). rewrite H1 in H3. injection H3 as <- <-.
    assert (may_assign t u T U w') as M.
    { split; try done; rewrite ?Hk, ?HmT; try done; [by rewrite (gr_units _ _ G)|]. by destruct (gr_heads _ _ G Military) as (-> & _). }
    destruct (AssignTo_joins ∅ t u T U w' W1 M) as (w1 & H3 & J); [done|]. assert (w1 = w'') as -> by congruence.
    split; [eapply (system_joined t u T U w w'); [done|by apply grows_evolves|done|done]|].
    eapply (manned_new t u w w' w''); [done|done|apply J|]. destruct (jn_task _ _ _ _ _ _ _ J) as (T' & HT' & _ & _ & _ & Hu).
    exists T'. split; [done|]. rewrite Hu. apply elem_of_union_l, elem_of_singleton_2. done.
  - destruct (AssignTo_joins ∅ t u T U w W M Hr) as (w1 & H3 & J). assert (w1 = w') as -> by congruence.
    split; [eapply (system_joined t u T U w w); [done|apply evolves_refl|done|done]|eapply manned_fills; [exact MN|apply J]].
  - destruct (RemoveAssignee_leaves ∅ t u T U w W M Hn) as (w1 & H3 & [L1 L2 _ L4 _]). assert (w1 = w') as -> by congruence.
    split; [eapply system_evolves; [exact SO|exact (nobody_lost ∅ u w' eq_refl L1)|by eapply changes_evolves]|].
    eapply manned_fills; [exact MN|]. eapply (left_fills ∅ t u T U); try done. destruct M as [M1 M2 M3 M4 M5].
    destruct (member_of _ _ _ _ _ _ (wo_owned _ _ _ W) M2 M5 M1 Hn M3) as [_ Hin]. exact (member_live _ _ _ _ _ W M1 Hin).
  - destruct (EnqueueRetreat_ok ∅ ∅ m w t w' W H1) as [W1 A].
    pose proof (adds_switch t _ u U m w w' t0 T0 W1 A (or_introl eq_refl) eq_refl eq_refl eq_refl HU Hg Hm Ht HT Hn) as M.
    destruct (AssignTask_switch (λ _ _ w, Some w) t u _ U w' W1 M) as (w1 & H3 & S). assert (w1 = w'') as -> by congruence. split.
    + eapply system_evolves; [exact SO|apply (sw_world _ _ _ _ _ S)|]. eapply evolves_trans; [apply grows_evolves; apply A|apply (sw_evolves _ _ _ _ _ S)].
    + eapply (manned_new t u w w' w''); [done|by apply (adds_new _ _ _ _ A)|apply S|]. destruct (sw_task _ _ _ _ _ S) as (T' & HT' & _ & _ & _ & Hu).
      exists T'. split; [done|]. rewrite Hu. apply elem_of_union_l, elem_of_singleton_2. done.
  - destruct (AbortTask_ok ∅ ∅ t T w) as (w1 & H3 & W1 & He); [by eapply world_ok_weaken; [exact W|apply empty_subseteq]|done..|by intros ? ? ?%not_elem_of_empty|].
    assert (w1 = w') as -> by congruence. pose proof (ended_goes _ _ _ _ He) as [Ev HF].
    split; [by eapply system_evolves|by eapply manned_fills].
  - apply (calm_system w _ SO MN). by apply new_enemy_calm.
  - destruct (delete_CEnemyInfo_calm ∅ ∅ e w W He) as (w1 & H2 & C & _). assert (w1 = w') as -> by congruence. by apply (calm_system w).
  - destruct (EnqueueGuard_ok ∅ ∅ v V w W HV) as (t1 & w1 & f & H2 & W1 & A & Hf). rewrite H1 in H2. injection H2 as <- <-.
    split; [eapply system_evolves; [exact SO|exact W1|apply grows_evolves, A]|]. intros t' (T & HT & Hd & He & Hu).
    destruct (adds_new _ _ _ _ A t' T HT) as [->|HT0]; [|apply (MN t'); by exists T]. rewrite (adds_lookup _ _ _ _ A) in HT. injection HT as <-.
    simpl in He. by rewrite Hf in He.
  - destruct (UpdateFight_ok OM HR w SO MN) as (fuel' & w1 & H2 & SO1 & M1). assert (w1 = w') as ->; [|done].
    pose proof (UpdateFight_more fuel' w w1 H2 (max fuel fuel') ltac:(lia)). pose proof (UpdateFight_more fuel w w' H1 (max fuel fuel') ltac:(lia)). congruence.
  - destruct (Idle_Update_ok w W) as (w1 & H2 & P1). assert (w1 = w') as -> by congruence. by apply (proceeds_system w).
  - destruct (attacker_idle_ok u U t T w W SA) as (w1 & H2 & P1). assert (w1 = w') as -> by congruence. by apply (proceeds_system w).
  - destruct (attacker_damaged_ok u U t T e w W SA) as (w1 & H2 & P1 & _). assert (w1 = w') as -> by congruence. by apply (proceeds_system w).
  - destruct (OnAnswer_ok t u q a r T w W MN HT Hu Ha Hr) as (w1 & H2 & P1). assert (w1 = w') as -> by congruence. by apply (proceeds_system w).
  - destruct (delete_task_ok t T w W D) as (En & H2 & W'). rewrite H1 in H2. injection H2 as ->. split; [split; [done|apply SO]|].
    intros t' (T' & HT' & HR). simpl in HT'. apply lookup_delete_Some in HT' as [_ HT']. apply (MN t'). by exists T'.
Qed.

Definition reachable (roles : nat) (orders : list bool) (w : World) : Prop := rtc step (initial roles orders) w.
Lemma initial_manned roles orders : manned (initial roles orders).
Proof.
  intros t (T & HT & _ & He & _). destruct (fi_tasks _ _ (initial_first roles orders) t T HT) as (m & k & -> & Hk & _).
  simpl in He. by destruct (class_of k).
Qed.
Lemma reachable_ok roles orders w : reachable roles orders w → system_ok w ∧ manned w.
Proof.
  intros Hr. eapply (rtc_ind_r (λ w, system_ok w ∧ manned w) _ (conj (initial_ok roles orders) (initial_manned roles orders))); [|exact Hr].
  intros w1 w2 _ Hs [IH1 IH2]. by eapply step_ok.
Qed.
Lemma reachable_system roles orders w : reachable roles orders w → system_ok w.
Proof. intros Hr. by destruct (reachable_ok _ _ _ Hr). Qed.

(** ** What holds in every world the events reach *)

(** C1: In every state the events reach, units and tasks agree about who works where: a unit's task pointer leads to a task that exists and belongs to the unit's manager, and that task has the unit in its set unless it is the nil task of a nanoframe or the unit is dead; a unit is in the set of a living task only, of one task only, and is itself alive; a living retreat or fighter task that needs units has one, so that every living squad has a leader, which is one of its units; a retreat has at most one unit. *)
Theorem reachable_owned roles orders w : reachable roles orders w →
  (∀ u U t, units w !! u = Some U → u_task U = Some t →
     ∃ T, tasks w !! t = Some T ∧ u_manager U = Some (manager T) ∧ (u ∈ t_units T ∨ kind T = NilTask ∨ u_isDead U = true)) ∧
  (∀ t T u, tasks w !! t = Some T → u ∈ t_units T →
     isDead T = false ∧ (∃ U, units w !! u = Some U ∧ u_isDead U = false ∧ u_task U = Some t) ∧
     ∀ t' T', tasks w !! t' = Some T' → u ∈ t_units T' → t' = t) ∧
  (∀ t T f, tasks w !! t = Some T → isDead T = false → kind T = FighterTask f → is_squad (fightType f) = true →
     ∃ l, leader (squad f) = Some l ∧ l ∈ t_units T) ∧
  (∀ t T, tasks w !! t = Some T → isDead T = false → ends_empty (class_of (kind T)) = true → t_units T ≠ ∅) ∧
  (∀ t T r u v, tasks w !! t = Some T → kind T = RetreatTask r → u ∈ t_units T → v ∈ t_units T → u = v).
Proof.
  intros Hr. destruct (reachable_ok _ _ _ Hr) as [[W _] MN]. pose proof (wo_owned _ _ _ W) as O. split_and!.
  - intros u U t HU Ht. destruct (own_task _ _ O _ _ _ (skel_of_unit _ _ _ HU) Ht) as (S & HS & Hm & H1 & H2).
    destruct (task_of_skel _ _ _ HS) as (T & HT & ->). simpl in *. exists T. split_and!; [done..|].
    destruct (u_isDead U); [by auto|]. destruct (H2 eq_refl) as [Hc|]; [apply not_elem_of_empty| |by left]. right. left. by destruct (kind T).
  - intros t T u HT Hu. destruct (own_member _ _ O _ _ _ (skel_of_task _ _ _ HT) Hu) as (c & Hc & Htk & Hg).
    destruct (unit_of_skel _ _ _ Hc) as (U & HU & ->). simpl in *. split_and!; [|by exists U|].
    + destruct (isDead T) eqn:Hd; [|done]. destruct (wo_tasks _ _ _ W _ _ HT) as [G _]. destruct (G (not_elem_of_empty _)) as [G1 _]. rewrite G1 in Hu by done.
      by apply not_elem_of_empty in Hu.
    + intros t' T' HT' Hu'. by eapply (task_is_unique ∅ w u U t t').
  - intros t T f HT Hd Hk Hs. destruct (wo_tasks _ _ _ W _ _ HT) as [G _]. destruct (G (not_elem_of_empty _)) as [_ G2]. specialize (G2 Hd f Hk Hs).
    destruct (leader (squad f)) as [l|]; [by exists l|]. destruct (MN t). exists T. split_and!; try done. rewrite Hk. simpl. by destruct (fightType f).
  - intros t T HT Hd He Hu. apply (MN t). by exists T.
  - intros t T r u v HT Hk Hu Hv. destruct (wo_tasks _ _ _ W _ _ HT) as (_ & _ & G). rewrite Hk in G. by apply G.
Qed.


(** ** What the operations do there *)


(** C4: A living unit that leaves its task, which is neither idling nor the nil task of a nanoframe, always can: afterwards it idles with its manager, and the task either goes on without it, or, when it is of a class that needs units or strength, has ended; a task of such a class is never left alive without units. *)
Theorem RemoveAssignee_ends roles orders w t T u U :
  reachable roles orders w → may_release t u T U w → class_of (kind T) ≠ C_NIL →
  ∃ w' U' T', RemoveAssignee t u w = Some w' ∧ system_ok w' ∧ units w' !! u = Some U' ∧ u_task U' = Some (idleTask w (manager T)) ∧
    tasks w' !! t = Some T' ∧
    (isDead T' = true ∧ ends_empty (class_of (kind T)) = true ∨
     isDead T' = isDead T ∧ t_units T' = t_units T ∖ {[u]} ∧ (ends_empty (class_of (kind T)) = true → t_units T' ≠ ∅)).
Proof.
  intros Hr M Hn. pose proof (reachable_system _ _ _ Hr) as SO.
  destruct (RemoveAssignee_leaves ∅ t u T U w (so_world _ SO) M Hn) as (w' & H1 & [L1 L2 (U' & HU' & Ht') (T' & HT' & HR) _]).
  exists w', U', T'. split_and!; try done. eapply system_evolves; [exact SO|exact (nobody_lost ∅ u w' eq_refl L1)|by eapply changes_evolves].
Qed.

(** When a manager gives a unit to another living task of its own, up to the task's start, the unit ends up in that task and in no other, the task keeps the units it had, and every other unit stays where it is or idles because its task has ended. *)
Theorem AssignTask_moves roles orders w start t T u U :
  reachable roles orders w → may_switch t u T U w →
  ∃ w' T' U', AssignTask start u t w = start t u w' ∧ system_ok w' ∧
    tasks w' !! t = Some T' ∧ isDead T' = false ∧ t_units T' = {[u]} ∪ t_units T ∧
    units w' !! u = Some U' ∧ u_task U' = Some t ∧
    (∀ t' T2, tasks w' !! t' = Some T2 → t' ≠ t → u ∉ t_units T2) ∧
    (∀ v V, v ≠ u → units w !! v = Some V → ∃ V', units w' !! v = Some V' ∧
       (u_task V' = u_task V ∨ ∃ m, u_manager V = Some m ∧ u_task V' = Some (idleTask w m))).
Proof.
  intros Hr M. pose proof (reachable_system _ _ _ Hr) as SO. destruct (AssignTask_switch start t u T U w (so_world _ SO) M) as (w' & H1 & S).
  destruct (sw_task _ _ _ _ _ S) as (T' & HT' & Hd & _ & _ & Hu). destruct (sw_unit _ _ _ _ _ S) as (U' & HU' & Ht').
  exists w', T', U'. split_and!; try done; [eapply system_evolves; [exact SO|apply (sw_world _ _ _ _ _ S)|apply (sw_evolves _ _ _ _ _ S)]| |apply (sw_others _ _ _ _ _ S)].
  intros t' T2 HT2 Hn Hin. apply Hn. by eapply (task_is_unique ∅ w' u U' t t' T2); [apply (wo_owned _ _ _ (sw_world _ _ _ _ _ S))|..].
Qed.

(** The military's choice of a task never fails and never answers with the null pointer: whatever the unit's role and the state of the fighters' sets, it returns a living fighter task without units, one that was there or one that is new and filed, leaves all units and every task there was as they are, and keeps the system consistent. *)
Theorem DefaultMakeTask_answers roles orders w u U :
  reachable roles orders w → units w !! u = Some U →
  ∃ t w' T f, DefaultMakeTask u w = Some (t, w') ∧ system_ok w' ∧ units w' = units w ∧ (∀ t0 T0, tasks w !! t0 = Some T0 → tasks w' !! t0 = Some T0) ∧
    tasks w' !! t = Some T ∧ kind T = FighterTask f ∧ isDead T = false ∧ manager T = Military ∧ t_units T = ∅.
Proof.
  intros Hr HU. pose proof (reachable_system _ _ _ Hr) as SO.
  destruct (DefaultMakeTask_ok ∅ ∅ u U w (so_world _ SO) HU) as (t & w' & H1 & [W1 G (T & f & HT & Hk & HmT & Hd & He)]).
  exists t, w', T, f. split_and!; try done; [|by apply (gr_units _ _ G)|by apply (gr_tasks _ _ G)].
  eapply system_evolves; [exact SO|exact W1|by apply grows_evolves].
Qed.

(** C10: When the engine reports that a unit is destroyed, the handlers of its manager and of the builders return, and afterwards nothing living refers to the unit: it is not registered, no task has it in its set, no task repairs it; and once it is deleted the system is consistent without it. *)
Theorem on_destroyed_forgets roles orders w id u :
  reachable roles orders w → teamUnits w !! id = Some u →
  ∃ w' U, on_destroyed id w = Some w' ∧ system_ok w' ∧ units w' !! u = Some U ∧ u_isDead U = true ∧ teamUnits w' = delete id (teamUnits w) ∧
    (∀ t T, tasks w' !! t = Some T → u ∉ t_units T) ∧
    (∀ t T r, tasks w' !! t = Some T → isDead T = false → kind T = RepairTask r → r_target r ≠ Some u) ∧
    units (DeleteTeamUnit u w') !! u = None ∧ system_ok (DeleteTeamUnit u w').
Proof.
  intros Hr Hid. pose proof (reachable_system _ _ _ Hr) as SO. destruct (on_destroyed_ok id w SO) as (w' & H1 & SO' & _ & HTm & Hu).
  destruct (Hu u Hid) as (U & HU & Hg & Hno). exists w', U. split_and!; try done; [|apply lookup_delete_eq|by eapply DeleteTeamUnit_ok].
  intros t T r HT Hd Hk Htg. destruct (link_target _ _ _ _ (wo_links _ _ _ (so_world _ SO')) t (task_core T) u (r_targetId r)) as (V & HV & _ & Hg');
    [by apply core_of_task|done|simpl; rewrite Hk; simpl; by rewrite Htg|].
  destruct (unit_of_core _ _ _ HV) as (V0 & HV0 & ->). simpl in Hg'. congruence.
Qed.

(** A unit the player gives an order to leaves whatever task it has and is in the player's task, so that its manager does not order it about any more; a nanoframe and a unit that the player has already are left alone. *)
Theorem PlayerCommand_takes roles orders w id u U t T :
  reachable roles orders w → teamUnits w !! id = Some u → units w !! u = Some U → u_task U = Some t → tasks w !! t = Some T →
  ∃ w' U', PlayerCommand u w = Some w' ∧ system_ok w' ∧ units w' !! u = Some U' ∧
    (kind T = NilTask ∨ kind T = PlayerTask → w' = w) ∧
    (kind T ≠ NilTask → kind T ≠ PlayerTask → u_task U' = Some (playerTask w (manager T))).
Proof.
  intros Hr Hid HU Ht HT. pose proof (reachable_system _ _ _ Hr) as SO. destruct (PlayerCommand_ok id u U w SO Hid HU) as (w' & H1 & SO' & _ & Hcmd).
  assert ((kind T = NilTask ∨ kind T = PlayerTask) ∨ ¬ (kind T = NilTask ∨ kind T = PlayerTask)) as [Hk|Hk] by (destruct (kind T); auto; right; by intros [?|?]).
  - exists w, U. split_and!; try done; [unfold PlayerCommand; rewrite HU; simpl; rewrite Ht; simpl; rewrite HT; simpl; by destruct Hk as [-> | ->]|].
    by destruct Hk as [-> | ->].
  - destruct (Hcmd t T Ht HT) as (U' & HU' & Ht'); [by destruct (kind T); auto|by destruct (kind T); auto|].
    exists w', U'. by split_and!.
Qed.
End world.

(** ** An example *)

#[local] Existing Instances example_engine example_heap example_task_engine example_policy example_tactics.
(** A soldier that can build, fight and be repaired. *)
Definition soldier : SUnitDef :=
  MkUnitDef (MkDef 1 4 4 0 0 0 None f1 f0 f1 f1 RANGE_LAND [f1; f1; f1] [1; 1; 1; 1; 0]
                   f0 f0 false true false true false false false false (f_of_Z 100) f1 (f_of_Z 50) 0 (-1) false)
            0 0 f1 f0 false true false false false true true.
Definition enlist (m : ManagerId) (id : Z) (w : World) : option World :=
  on_finished m id (RegisterTeamUnit id soldier (Some f1) true true f1) w.
Definition unit_at (u : Z) (w : World) : CCircuitUnit := default (new_CCircuitUnit 0 soldier None false false f0) (units w !! u).
Definition task_at (t : Z) (w : World) : IUnitTask := default (new_IUnitTask Military NilTask 0 0) (tasks w !! t).
(** The task that [DefaultMakeTask] makes, with its unit. *)
Definition give_task (u : Z) (w : World) : option World := '(t, w) ← DefaultMakeTask u w; AssignTo t u w.

(** Two soldiers, 0 and 1, and a builder, 2; the soldiers defend, the builder will repair. *)
Definition demo_start : World := initial 20 [false; true].
Definition demo1 : World := default demo_start (enlist Military 7 demo_start).
Definition demo2 : World := default demo_start (enlist Military 8 demo1).
Definition demo3 : World := default demo_start (enlist Builder 9 demo2).
Definition demo4 : World := default demo_start (give_task 0 demo3).
(** Soldier 0 retreats: its retreat is task 7 and the repair of it task 8, which the builder joins. *)
Definition demo5 : World := default demo_start (let '(t, w) := EnqueueRetreat Military demo4 in AssignTask (λ _ _ w, Some w) 0 t w).
Definition demo6 : World := default demo_start (AssignTo 8 2 demo5).

Lemma demo_enlist m id w : is_Some (GetMaxRange_any (d_cdef soldier)) → teamUnits w !! id = None →
  is_Some (enlist m id w) → step w (default demo_start (enlist m id w)).
Proof.
  intros Hr Hn [w' Hw]. rewrite Hw. eapply (step_finished w m id soldier); [done| |done|exact Hw]. intros u U Hid. congruence.
Qed.
Lemma demo3_reachable : reachable 20 [false; true] demo3.
Proof.
  eapply rtc_l; [apply (demo_enlist Military 7)|eapply rtc_l; [apply (demo_enlist Military 8)|eapply rtc_once, (demo_enlist Builder 9)]];
    try (vm_compute; by eexists); by vm_compute.
Qed.
Lemma demo4_reachable : reachable 20 [false; true] demo4.
Proof.
  eapply rtc_r; [exact demo3_reachable|].
  eapply (step_make demo3 0 (unit_at 0 demo3) 6 (default demo3 (snd <$> DefaultMakeTask 0 demo3))); vm_compute; done.
Qed.
Lemma demo5_reachable : reachable 20 [false; true] demo5.
Proof.
  eapply rtc_r; [exact demo4_reachable|].
  eapply (step_retreat demo4 7 0 (unit_at 0 demo4) 6 (task_at 6 demo4) Military (EnqueueRetreat Military demo4).2); try (by vm_compute); vm_compute; discriminate.
Qed.
Lemma demo_joins : may_assign 8 2 (task_at 8 demo5) (unit_at 2 demo5) demo5.
Proof. split; try (by vm_compute); vm_compute; discriminate. Qed.
Lemma demo6_reachable : reachable 20 [false; true] demo6.
Proof.
  eapply rtc_r; [exact demo5_reachable|]. eapply (step_join demo5 8 (task_at 8 demo5) 2 (unit_at 2 demo5)); [exact demo_joins|vm_compute; discriminate|by vm_compute].
Qed.

(** *** Witnesses *)

(** The repairer of the retreat is soldier 0's neighbour in no set but its own. *)
Lemma reachable_owned_witness :
  ∃ T, tasks demo6 !! 7 = Some T ∧ 0 ∈ t_units T ∧ isDead T = false ∧ ∃ U, units demo6 !! 0 = Some U ∧ u_isDead U = false ∧ u_task U = Some 7.
Proof.
  exists (task_at 7 demo6). split; [by vm_compute|]. split; [by vm_compute|].
  destruct (reachable_owned 20 [false; true] demo6 demo6_reachable) as (_ & H & _). destruct (H 7 (task_at 7 demo6) 0) as (H1 & H2 & _); [by vm_compute..|]. exact (conj H1 H2).
Defined.
Lemma RemoveAssignee_ends_witness :
  ∃ w' T', RemoveAssignee 6 0 demo4 = Some w' ∧ tasks w' !! 6 = Some T' ∧ isDead T' = true.
Proof.
  destruct (RemoveAssignee_ends 20 [false; true] demo4 6 (task_at 6 demo4) 0 (unit_at 0 demo4) demo4_reachable) as (w' & U' & T' & H1 & _ & _ & _ & H2 & H3);
    [split; try (by vm_compute); vm_compute; discriminate|vm_compute; discriminate|].
  exists w', T'. split; [exact H1|]. split; [exact H2|]. destruct H3 as [[H3 _]|(_ & H3 & Hn)]; [exact H3|].
  destruct Hn; [by vm_compute|]. rewrite H3. by vm_compute.
Defined.
Lemma AssignTask_moves_witness :
  ∃ w' T' U', AssignTask (λ _ _ w, Some w) 0 2 demo4 = Some w' ∧ tasks w' !! 2 = Some T' ∧ 0 ∈ t_units T' ∧ units w' !! 0 = Some U' ∧ u_task U' = Some 2.
Proof.
  destruct (AssignTask_moves 20 [false; true] demo4 (λ _ _ w, Some w) 2 (task_at 2 demo4) 0 (unit_at 0 demo4) demo4_reachable)
    as (w' & T' & U' & H1 & _ & H2 & _ & H3 & H4 & H5 & _).
  - split; try (by vm_compute); try (vm_compute; discriminate). exists 6, (task_at 6 demo4). split_and!; try (by vm_compute); vm_compute; discriminate.
  - exists w', T', U'. split; [exact H1|]. split; [exact H2|]. split; [|by split]. rewrite H3. set_solver.
Defined.
Lemma DefaultMakeTask_answers_witness :
  ∃ t w' T, DefaultMakeTask 1 demo4 = Some (t, w') ∧ tasks w' !! t = Some T ∧ isDead T = false.
Proof.
  destruct (DefaultMakeTask_answers 20 [false; true] demo4 1 (unit_at 1 demo4) demo4_reachable) as (t & w' & T & f & H1 & _ & _ & _ & H2 & _ & H3 & _); [by vm_compute|].
  exists t, w', T. exact (conj H1 (conj H2 H3)).
Defined.
Lemma on_destroyed_forgets_witness :
  ∃ w', on_destroyed 7 demo6 = Some w' ∧ teamUnits w' = delete 7 (teamUnits demo6) ∧ ∀ t T, tasks w' !! t = Some T → 0 ∉ t_units T.
Proof.
  destruct (on_destroyed_forgets 20 [false; true] demo6 7 0 demo6_reachable) as (w' & U & H1 & _ & _ & _ & H2 & H3 & _); [by vm_compute|].
  exists w'. exact (conj H1 (conj H2 H3)).
Defined.
Lemma PlayerCommand_takes_witness :
  ∃ w' U', PlayerCommand 2 demo6 = Some w' ∧ units w' !! 2 = Some U' ∧ u_task U' = Some 5.
Proof.
  destruct (PlayerCommand_takes 20 [false; true] demo6 9 2 (unit_at 2 demo6) 8 (task_at 8 demo6) demo6_reachable) as (w' & U' & H1 & _ & H2 & _ & H3); [by vm_compute..|].
  exists w', U'. split; [exact H1|]. split; [exact H2|]. apply H3; vm_compute; discriminate.
Defined.
