(* ===== verification/TaskFights.v ===== *)
(** * TaskFights: the fighters in the life of the system

    What the military's updates, the answers of path queries and the handlers of idle and damaged units
    do in every world the events reach ([TaskWorld]); the choice of a target and the merging of squads. *)

From stdpp Require Import sorting.
From S2P Require Import Prelude Float32 EnemyUnit ActionList TaskData TaskCore TaskClasses TaskTheory TaskInvariant TaskSteps.
From S2P Require Import TaskStop TaskLeave TaskNew TaskJoin MilitaryTasks Targets FighterCore FighterTasks MilitaryTheory TaskMove TaskCalm.
From S2P Require Import FighterTheory FighterCalm FightMoves Merging FightUpdates UpdateTasks FightEvents IdleUpdates UnitEvents FightLoop TaskWorld.

Open Scope circuit_scope.

Section fights.
Context {E : Engine} {H : Heap} {TE : TaskEngine} {P : Policy} {TA : Tactics}.

(** ** Who works, works on *)

(** The unit is in a living task of its manager. *)
Definition works (u : Z) (m : option ManagerId) (w : World) : Prop := ∃ U t T,
  units w !! u = Some U ∧ u_isDead U = false ∧ u_manager U = m ∧ u_task U = Some t ∧ tasks w !! t = Some T ∧ isDead T = false ∧ u ∈ t_units T.
Lemma employed_works m u w : world_ok ∅ ∅ w → employed m u w → works u (Some m) w.
Proof.
  intros W (U & t & T & HU & Hg & Hm & Ht & HT & Hc). destruct (own_task _ _ (wo_owned _ _ _ W) _ _ _ (skel_of_unit _ _ _ HU) Ht) as (S & HS & _ & _ & Hl).
  rewrite (skel_of_task _ _ _ HT) in HS. injection HS as <-. destruct (Hl Hg (not_elem_of_empty _)) as [Hn|Hin]; [done|]. simpl in Hin.
  exists U, t, T. split_and!; try done. by eapply member_live.
Qed.
Lemma works_on w w' u m : world_ok ∅ ∅ w → proceeds w w' → works u m w → works u m w'.
Proof.
  intros W P1 (U & t & T & HU & Hg & Hm & Ht & HT & Hd & Hin). pose proof (member_employed _ _ _ _ _ _ W HT Hin) as He.
  destruct (unit_task _ _ _ _ _ _ W HU Ht) as (T' & HT' & HmT). assert (T' = T) as -> by congruence.
  rewrite <-Hm, HmT. apply employed_works; [apply P1|]. by apply (pr_employed _ _ P1).
Qed.

(** ** The updates *)

(** C5: In every world the events reach, when distances on the map are finite (every squared distance between a unit and an enemy is below FLT_MAX) and the update rate is positive, one call of the military's update ends, although the updates of the tasks may add tasks to the list it walks and dead tasks are taken out of it by swapping: with enough fuel the answer is there and more fuel does not change it; afterwards the system is consistent, no task that needs units is without, and every task in the list exists, so that none is used after it has been deleted. *)
Theorem UpdateFight_ends roles orders w : reachable roles orders w → on_map → 0 < TEAM_SLOWUPDATE_RATE →
  ∃ fuel w', (∀ fuel', (fuel <= fuel')%nat → UpdateFight fuel' w = Some w') ∧ system_ok w' ∧ manned w' ∧
    (∀ t, t ∈ fightUpdates (military w') → is_Some (tasks w' !! t)) ∧ NoDup (fightUpdates (military w')).
Proof.
  intros Hr OM HR. destruct (reachable_ok _ _ _ Hr) as [SO MN]. destruct (UpdateFight_ok OM HR w SO MN) as (fuel & w' & H1 & SO' & MN').
  exists fuel, w'. pose proof (wo_military _ _ _ (so_world _ SO')) as M. split_and!; try done; [by apply UpdateFight_more| |apply M].
  intros t (c & Hc & _)%(fight_updates _ _ M). destruct (task_of_core _ _ _ Hc) as (T & HT & _). by exists T.
Qed.

(** C6: In every world the events reach, when distances on the map are finite (below FLT_MAX when squared), the update of a living task in the military's list returns, whatever the class of the task: no null or dangling pointer is followed, even when the task ends, merges or is promoted on the way; afterwards the system is consistent, whoever worked for a living task still does, perhaps for another one, all tasks are still there, and none that needs units is without. *)
Theorem UpdateTask_goes_on roles orders w t T :
  reachable roles orders w → on_map → t ∈ fightUpdates (military w) → tasks w !! t = Some T → isDead T = false →
  ∃ w', UpdateTask t w = Some w' ∧ system_ok w' ∧ manned w' ∧ (∀ u m, works u m w → works u m w') ∧
    (∀ t0 T0, tasks w !! t0 = Some T0 → ∃ T', tasks w' !! t0 = Some T' ∧ class_of (kind T') = class_of (kind T0) ∧ (isDead T0 = true → isDead T' = true)).
Proof.
  intros Hr OM Hin HT Hd. destruct (reachable_ok _ _ _ Hr) as [SO MN]. pose proof (so_world _ SO) as W.
  destruct (fight_updates _ _ (wo_military _ _ _ W) t Hin) as (c & Hc & _ & Hk). rewrite (core_of_task _ _ _ HT) in Hc. injection Hc as <-. simpl in Hk.
  destruct (UpdateTask_ok t T w OM W MN HT Hd) as (w' & H1 & P1); [by destruct (kind T)|]. exists w'.
  destruct (proceeds_system w w' SO MN P1) as [SO' MN']. split_and!; [done..| |].
  - intros u m. by apply works_on.
  - intros t0 T0 HT0. destruct (ev_task _ _ P1 _ _ HT0) as (T' & HT' & _ & Hc & Hdd). by exists T'.
Qed.

(** C7: In every world the events reach, a living squad that looks for another one to merge with either finds none and goes on with all its units, or its units, every one of them, are in another living squad of the same type afterwards, beside those that were there and with the sum of their strengths, and the squad itself has ended without units; the system is consistent in both cases. *)
Theorem try_merge_moves roles orders w t T f :
  reachable roles orders w → tasks w !! t = Some T → kind T = FighterTask f → is_squad (fightType f) = true → isDead T = false →
  ∃ b w', try_merge t w = Some (b, w') ∧ system_ok w' ∧ manned w' ∧
    (b = false → ∃ T', tasks w' !! t = Some T' ∧ isDead T' = false ∧ t_units T' = t_units T) ∧
    (b = true → ∃ c C fc C' fc', c ≠ t ∧ tasks w !! c = Some C ∧ kind C = FighterTask fc ∧ fightType fc = fightType f ∧ isDead C = false ∧
       tasks w' !! c = Some C' ∧ isDead C' = false ∧ kind C' = FighterTask fc' ∧ t_units C' = t_units T ∪ t_units C ∧ attackPower fc' = fadd (attackPower fc) (attackPower f) ∧
       (∀ u, u ∈ t_units T → ∃ U, units w' !! u = Some U ∧ u_task U = Some c) ∧ (∃ T', tasks w' !! t = Some T' ∧ isDead T' = true ∧ t_units T' = ∅)).
Proof.
  intros Hr HT Hk Hs Hd. destruct (reachable_ok _ _ _ Hr) as [SO MN]. pose proof (so_world _ SO) as W.
  assert (t_units T ≠ ∅) as Hne.
  { intros He. apply (MN t). exists T. split_and!; try done. rewrite Hk. simpl. by destruct (fightType f). }
  destruct (try_merge_ok t T f w W MN HT Hk Hs Hd Hne) as ([b w'] & H1 & P1 & Hno & Hyes). simpl in *. exists b, w'.
  destruct (proceeds_system w w' SO MN P1) as [SO' MN']. split_and!; [done..| |].
  - intros Hb. destruct (task_serves _ _ _ _ (Hno Hb) HT) as (T' & HT' & Q). exists T'. by rewrite (ca_dead _ _ Q), (ca_units _ _ Q).
  - intros Hb. destruct (Hyes Hb) as (c & C & fc & (Q1 & Q2 & Q3 & Q4 & Q5) & [G1 (C' & fc' & G2 & G3 & G4 & G5 & G6)]).
    exists c, C, fc, C', fc'. split_and!; try done. intros u Hu. destruct (member_unit ∅ w' c C' u (wo_owned _ _ _ (so_world _ SO')) G2) as (U & HU & Ht & _); [set_solver|].
    by exists U.
Qed.

(** ** Targets *)

(** The loop keeps the enemy that is nearest by its measure, among those that pass. *)
Lemma nearest_some ok d l m b e : nearest ok d l m b = Some e →
  b = Some e ∧ (∀ e', e' ∈ l → ok e' = true → fgtb m (d e') = false) ∨
  e ∈ l ∧ ok e = true ∧ fgtb m (d e) = true ∧ ∀ e', e' ∈ l → ok e' = true → fgtb (d e) (d e') = false.
Proof.
  revert m b. induction l as [|a l IH]; intros m b; simpl; [intros ->; left; split; [done|by intros ? ?%elem_of_nil]|].
  destruct (ok a && fgtb m (d a)) eqn:Ha; intros [[Hb Hl]|(Hin & Hok & Hm & Hl)]%IH.
  - apply andb_true_iff in Ha as [Ha1 Ha2]. injection Hb as ->. right. split_and!; [left|done..|]. intros e' [->|He]%elem_of_cons Hok; [apply fltb_irrefl|by apply Hl].
  - apply andb_true_iff in Ha as [Ha1 Ha2]. right. split_and!; [by right|done| |].
    + unfold fgtb in *. by eapply fltb_trans.
    + intros e' [->|He]%elem_of_cons Hok'; [by apply fltb_asym|by apply Hl].
  - left. split; [done|]. intros e' [->|He]%elem_of_cons Hok; [by rewrite Hok in Ha|by apply Hl].
  - right. split_and!; [by right|done..|]. intros e' [->|He]%elem_of_cons Hok'; [|by apply Hl]. rewrite Hok', andb_true_l in Ha.
    destruct (fgtb (d e) (d a)) eqn:Hx; [|done]. assert (fgtb m (d a) = true) as Hma by (by eapply fltb_trans). congruence.
Qed.


(** ** Blows and answers *)

End fights.

(** ** An example *)

#[local] Existing Instances example_engine example_heap example_task_engine example_policy example_tactics.
(** A hunter of heavy units, without a shield; nobody is heavy yet, so that it attacks. *)
Definition hunter : SUnitDef :=
  MkUnitDef (MkDef 1 4 4 9 0 0 None f1 f0 f1 f1 RANGE_LAND [f1; f1; f1] [1; 1; 1; 1; 0]
                   f0 f0 false true false true false false false false (f_of_Z 100) f1 (f_of_Z 50) 0 (-1) false)
            0 0 f1 f0 false true false false false true true.
Definition hire (id : Z) (w : World) : option World := on_finished Military id (RegisterTeamUnit id hunter (Some f1) false false f1) w.
Definition see (e : Z) (w : World) : World := set_enemies (<[e := ∅]> (enemies w)) w.
(** Soldier 0's defence, task 6, is updated; soldier 1 defends, too, in task 7; two hunters, 3 and 4,
    attack in the tasks 8 and 9; two enemies are seen. *)
Definition war1 : World := default demo_start (UpdateFight 20 demo4).
Definition war2 : World := default demo_start (give_task 1 war1).
Definition war3 : World := default demo_start (hire 10 war2).
Definition war4 : World := default demo_start (hire 11 war3).
Definition war5 : World := default demo_start (give_task 3 war4).
Definition war6 : World := default demo_start (give_task 4 war5).
Definition war7 : World := see 20 (see 10 war6).

Lemma example_on_map : on_map.
Proof.
  intros w u e. assert (forallb (λ n, fgtb FLT_MAX (SqDistance2D (F3 (f_of_Z 64) f0 f0) (F3 (f_of_Z n) f0 f0))) (seqZ 0 1024) = true) as Hall by (by vm_compute).
  rewrite forallb_forall in Hall. apply (Hall (e mod 1024)). apply list_elem_of_In, elem_of_seqZ. pose proof (Z.mod_pos_bound e 1024). lia.
Qed.
Lemma war_make u w i : (units w !! u, u_isDead (unit_at u w), u_manager (unit_at u w), u_task (unit_at u w)) = (Some (unit_at u w), false, Some Military, Some (idleTask w Military)) →
  fst <$> DefaultMakeTask u w = Some i → is_Some (give_task u w) → step w (default demo_start (give_task u w)).
Proof.
  intros [= H1 H2 H3 H4] Hi [w' Hw]. rewrite Hw. unfold give_task in Hw. destruct (DefaultMakeTask u w) as [[t w1]|] eqn:HD; [|done]. simpl in *.
  by eapply (step_make w u (unit_at u w) t w1 w').
Qed.
Lemma war_hire id w : is_Some (GetMaxRange_any (d_cdef hunter)) → teamUnits w !! id = None → is_Some (hire id w) → step w (default demo_start (hire id w)).
Proof.
  intros Hr Hn [w' Hw]. rewrite Hw. eapply (step_finished w Military id hunter); [done| |done|exact Hw]. intros u U Hid. congruence.
Qed.
Lemma war2_reachable : reachable 20 [false; true] war2.
Proof.
  apply (rtc_r _ war1); [eapply rtc_r; [exact demo4_reachable|]|].
  - apply (step_fight demo4 20); [exact example_on_map|by vm_compute|]. by vm_compute.
  - unfold war2. eapply (war_make 1 war1 7); [by vm_compute..|]. vm_compute. by eexists.
Qed.
Lemma war3_reachable : reachable 20 [false; true] war3.
Proof. eapply rtc_r; [exact war2_reachable|]. unfold war3. apply war_hire; [vm_compute; by eexists|by vm_compute|vm_compute; by eexists]. Qed.
Lemma war4_reachable : reachable 20 [false; true] war4.
Proof. eapply rtc_r; [exact war3_reachable|]. unfold war4. apply war_hire; [vm_compute; by eexists|by vm_compute|vm_compute; by eexists]. Qed.
Lemma war5_reachable : reachable 20 [false; true] war5.
Proof. eapply rtc_r; [exact war4_reachable|]. unfold war5. eapply (war_make 3 war4 8); [by vm_compute..|]. vm_compute. by eexists. Qed.
Lemma war6_reachable : reachable 20 [false; true] war6.
Proof. eapply rtc_r; [exact war5_reachable|]. unfold war6. eapply (war_make 4 war5 9); [by vm_compute..|]. vm_compute. by eexists. Qed.
Lemma war7_reachable : reachable 20 [false; true] war7.
Proof. apply (rtc_r _ (see 10 war6)); [eapply rtc_r; [exact war6_reachable|]|]; apply step_enemy_seen; by vm_compute. Qed.

(** *** Witnesses *)

Lemma UpdateFight_ends_witness : ∃ fuel w', UpdateFight fuel war7 = Some w' ∧ NoDup (fightUpdates (military w')).
Proof.
  destruct (UpdateFight_ends 20 [false; true] war7 war7_reachable example_on_map ltac:(by vm_compute)) as (fuel & w' & H1 & _ & _ & _ & H2).
  exists fuel, w'. split; [by apply H1|exact H2].
Defined.
(** Task 8 is an attack. *)
Lemma UpdateTask_goes_on_witness : ∃ w', UpdateTask 8 war7 = Some w' ∧ works 3 (Some Military) w'.
Proof.
  destruct (UpdateTask_goes_on 20 [false; true] war7 8 (task_at 8 war7) war7_reachable example_on_map) as (w' & H1 & _ & _ & H2 & _); [|by vm_compute..|].
  - apply (bool_decide_unpack _). by vm_compute.
  - exists w'. split; [exact H1|]. apply H2. exists (unit_at 3 war7), 8, (task_at 8 war7). do 6 (split; [by vm_compute|]). by vm_compute.
Defined.
(** The defences merge. *)
Lemma try_merge_moves_witness : ∃ w' U, try_merge 6 war2 = Some (true, w') ∧ units w' !! 0 = Some U ∧ u_task U = Some 7.
Proof.
  destruct (try_merge_moves 20 [false; true] war2 6 (task_at 6 war2) (default (new_Fighter DEFEND f0 f0 RALLY RALLY 0 no_pos) (get_fighter 6 war2)) war2_reachable)
    as (b & w' & H1 & _ & _ & _ & H2); [by vm_compute..|].
  assert (fst <$> try_merge 6 war2 = Some true) as Hb by (by vm_compute). rewrite H1 in Hb. injection Hb as ->.
  destruct (H2 eq_refl) as (c & C & fc & C' & fc' & Hn & HC & Hk & Hft & Hd & HC' & _ & _ & _ & _ & Hu & _). destruct (Hu 0 ltac:(by vm_compute)) as (U & HU & Ht).
  exists w', U. split; [done|]. split; [done|]. rewrite Ht. f_equal.
  assert (snd <$> try_merge 6 war2 = Some w') as Hw by (by rewrite H1). 
  assert ((λ w, units w !! 0 ≫= u_task) <$> (snd <$> try_merge 6 war2) = Some (Some 7)) as H7 by (by vm_compute). rewrite Hw in H7. simpl in H7. rewrite HU in H7. simpl in H7. congruence.
Defined.
